(* ===== verification/_CoqProject ===== *)
-Q . S2P
Prelude.v
FreeQueue.v
Request.v
BlockHash.v
BlockPool.v
Device.v
NumPy.v
BlockTable.v
RejectionSampler.v
SpecUtils.v
MassSelect.v
MassCount.v
EncoderCache.v
EncoderSched.v
SingleType.v
SingleTypeFacts.v
KVManager.v
KVManagerFacts.v
KVSlots.v
PrefixHits.v
KVExamples.v
Ngram.v
Tensor.v
SlotTable.v
StreamingLLM.v
LongSpec.v
DraftAttention.v
LongSpecFacts.v
LongSpecVerify.v
LongSpecRound.v
Proposer.v
Heapq.v
RequestQueue.v
Dict.v
RunnerInputs.v
RunnerInputsFacts.v
RunnerVerify.v
RunnerAsync.v
RunnerExamples.v
Offload.v
LRUOffload.v
ARCOffload.v
OffloadTransfer.v
Scheduler.v
SchedulerFacts.v
SchedulerStep.v
SchedulerCalls.v
SchedulerRequests.v
SchedulerKV.v
SchedulerEncoder.v
SchedulerHash.v
SchedulerKeeps.v
SchedulerProgress.v
SchedulerRoom.v
EngineCore.v
EngineSafe.v
EngineProgress.v
EngineExamples.v
SchedulerLimits.v
OffloadConnector.v
OffloadRound.v
