(* ===== verification/Prelude.v ===== *)
(** * Verification of LongCtxSpecDecode

    The repository is a fork of vLLM that adds verification-guided long-context
    speculative decoding ("LongSpec"): the target model drafts with a sparse view
    of its own KV cache, the view being selected from the attention weights of the
    last verification, and the drafts are verified by rejection sampling.  This
    development covers the parts of the engine that carry that path: the paged KV
    cache and its managers, the scheduler and the engine loop that drive it, the
    offloading of its blocks, the inputs the worker computes for a step, the sampler,
    the helpers and kernels of speculative decoding, the proposer, and the LongSpec
    overrider with its kernels.

    ** Parts and files

    The KV cache ([src/vllm/v1/core/]).  The scheduler calls the cache manager,
    which calls a coordinator, which calls one manager per cache group; all of
    them share one block pool, whose free list is a doubly linked queue and whose
    prefix cache is keyed by block hashes.
    - [FreeQueue.v]: [FreeKVCacheBlockQueue] and [KVCacheBlock] of
      [kv_cache_utils.py].  The heap of blocks is explicit, links are ids; the
      abstract specification is a plain list and every operation refines it.
    - [Request.v]: the fields and methods of [request.py] the cache uses.
    - [BlockHash.v]: block hashes and their extra keys, the incremental hasher and
      [BlockHashListWithBlockSize].  The hash function is a parameter.
    - [BlockPool.v]: [block_pool.py], with the class-like interface the managers
      rely on; an invariant that every call preserves.
    - [SingleType.v], [SingleTypeFacts.v]: the managers of
      [single_type_kv_cache_manager.py].
    - [KVManager.v], [KVManagerFacts.v], [KVSlots.v]: [kv_cache_coordinator.py]
      and [kv_cache_manager.py]; [allocate_slots] and all histories of calls.
    - [PrefixHits.v]: the lookups of cached prefixes, with the fixed-point loop of
      the hybrid coordinator; [KVExamples.v]: concrete runs and witnesses.
    - [EncoderCache.v], [EncoderSched.v]: [encoder_cache_manager.py] and the
      scheduling of encoder inputs in [sched/scheduler.py].

    The scheduler ([src/vllm/v1/core/sched/]) and the engine core
    ([src/vllm/v1/engine/core.py]).  The busy loop of the engine hands client
    requests to the scheduler, asks it for a batch, has the model run it and gives
    the output back.  The scheduler is written and proved against interfaces
    ([KVCacheOps], [EncoderCacheOps]) and laws ([KVCacheLaws], [EncoderCacheLaws])
    of the two caches, which the managers above implement.
    - [Heapq.v], [RequestQueue.v]: the heap of Python's [heapq] and the two queues
      of [request_queue.py]; both refine a list in the order of the policy.
    - [Dict.v]: dictionaries in insertion order.
    - [Scheduler.v]: [scheduler.py] and [sched/utils.py]: preemption, the loops over
      running and waiting requests, [schedule], [update_from_output], drafts,
      arrival, abort and resets.
    - [SchedulerFacts.v], [SchedulerStep.v]: the invariant and [schedule];
      [SchedulerCalls.v]: [update_from_output]; [SchedulerRequests.v]: the other
      calls; [SchedulerKeeps.v]: what [schedule] leaves alone.
    - [SchedulerKV.v], [SchedulerEncoder.v]: the laws for the KV-cache manager
      (without prefix caching, or one group of full attention) and the encoder cache
      of decoder-only models; [SchedulerHash.v]: the block hashes of requests, and a
      KV cache as it is built.
    - [SchedulerProgress.v]: the first request in line is served in every step, given
      the law [KVCacheRoom]; [SchedulerRoom.v]: that law for the KV-cache manager.
    - [EngineCore.v], [EngineSafe.v], [EngineProgress.v], [EngineExamples.v]: the
      engine, its safety, the bound on the turns to finish all requests, and a
      concrete run; [SchedulerLimits.v]: two limits the guards miss.

    Offloading of KV blocks to the host ([src/vllm/v1/kv_offload/] and the offloading
    connector).  The connector in the scheduler asks a manager which blocks the host
    keeps, sets up the transfers that store and load them, and completes them.
    - [Offload.v]: the interfaces of backends and managers with their laws, the CPU
      backend, and every history of calls of a client that keeps a ledger.
    - [LRUOffload.v], [ARCOffload.v]: the two managers, instances of those laws.
    - [OffloadTransfer.v]: the block mapping of [worker/cpu_gpu.py] and its copy.
    - [OffloadConnector.v]: [OffloadingConnectorScheduler]; [OffloadRound.v]: the data
      on the host over any run, and the round trip from device to host and back.

    The model runner ([src/vllm/v1/worker/]).  The worker mirrors the scheduler's
    requests in a persistent batch; every step it computes from the batch the arrays
    the model and the sampler read.
    - [NumPy.v]: the array operations of the runner, and lemmas on flat arrays that
      hold one segment per request.
    - [BlockTable.v]: [block_table.py]; the tables refine the block lists of the
      requests, and the slot mapping is the paged address of every token.
    - [RunnerInputs.v]: [_prepare_inputs], [_prepare_input_ids] and
      [_calc_spec_decode_metadata] of [gpu_model_runner.py];
      [RunnerInputsFacts.v]: what they put on the device; [RunnerAsync.v]: the input
      ids of asynchronous scheduling, where the sampled and draft tokens of the
      previous step are on the device only; [RunnerVerify.v]: inputs, model and
      rejection sampler composed; [RunnerExamples.v]: concrete steps.

    Sampling and speculative decoding ([src/vllm/v1/sample/],
    [src/vllm/v1/spec_decode/]).
    - [Device.v]: buffers and launches of GPU kernels; a load or store outside a
      buffer is an error, a launch takes the order its programs run in.
    - [Tensor.v]: tensors as nested lists, with the class [Cells] against which
      launches that update cells are proved.
    - [RejectionSampler.v]: [rejection_sampler.py].
    - [SpecUtils.v]: [spec_decode/utils.py].
    - [Ngram.v]: [ngram_proposer.py], the KMP matcher and the batch loop.
    - [Proposer.v]: the draft loop of [sparse_attn/proposer.py] and the hidden
      states it keeps for the draft probabilities.

    LongSpec ([src/vllm/v1/spec_decode/sparse_attn/]).
    - [MassSelect.v]: the CUDA selection kernel of [kernels/mass_select.py];
      [MassCount.v]: the number of tokens it selects when its arithmetic is exact.
    - [SlotTable.v]: [kernels/slot_table.py] and [kernels/draft_gather.py].
    - [LongSpec.v]: [config.py], [stats.py], [portable/draft_kv.py] and the
      overrider ([overrider.py], [layer_skip.py], the base class in
      [attn_overrider/__init__.py]); [DraftAttention.v]: what the rewritten
      attention calls read; [LongSpecFacts.v]: the draft passes;
      [LongSpecVerify.v]: the verify pass; [LongSpecRound.v]: a whole round.
    - [StreamingLLM.v]: the sink-and-window overrider of [attn_overrider/streamingllm.py].

    ** How the code is modelled

    Python code is a function in the error monad [result] below: exceptions are
    values, state is passed explicitly, integers are [Z].  Loops are [foldM] over
    the list they range over, or recursion with fuel where the source loops until
    a condition holds; then a theorem says that the fuel given is enough (the
    free list walk: the number of blocks; the hybrid lookup: the hit length plus
    one; the KMP scan: twice the number of tokens plus one; the loops of
    [schedule]: the number of running or waiting requests plus one).  The request
    objects the scheduler, its queues and the caches share live in one map from ids;
    queues hold references with the keys they compare.  GPU kernels read and
    write buffers; theorems hold for every order in which the programs of a grid,
    or the atomics of a block, take effect.  Floats are abstract: the sampler's
    theorems that need arithmetic use exact rationals and say so; the selection
    kernel is proved for any float operations, and the number of tokens it selects
    is tied to the attention mass for floats that compute exactly ([ExactFloats]).

    ** What the theorems show

    - Refinement: the linked free list implements a list, the request queues
      implement a list in the order of the policy, the worker's block tables implement
      the block lists of the requests.
    - Invariants over histories: no sequence of admissible calls makes the block
      pool, the encoder cache or the KV-cache manager raise or lose a block, and no
      run of the engine's busy loop raises or loses a request.
    - The engine step: what becomes of every request, its tokens up to the first that
      stops it, with the reason, and the outputs reported, under the contract of the model runner ([output_ok]); the bounds of
      every batch.
    - Liveness: under first come, first served, with a pool that holds one request of
      the model's length, an engine without new input finishes all its requests
      within a number of turns quadratic in the model's length.
    - Functional behaviour: allocation serves every token that needs a slot;
      lookups find the longest cached prefix; the sampler's kernels write the
      accepted prefix and the recovered or bonus token; the n-gram proposer
      equals the naive search; the slot and metadata kernels compute the paged
      addresses.
    - Losslessness: a step -- the worker's inputs, the model, the rejection sampler --
      returns for every greedy request, in a batch that may mix it with random ones,
      the tokens greedy decoding gives; one step of random sampling has the target's
      distribution.
    - The worker's inputs: every scheduled token has its id, position and slot, the
      logits kept are those that verify a draft token or sample the next one, and
      asynchronous scheduling gives the same ids on every path of the code.
    - LongSpec: after a verify pass every draft step attends, at every layer that
      attends, to exactly the selected tokens and the tokens since, for both ways
      of presenting them to the kernel; a StreamingLLM draft step attends to exactly
      the sink block and the window.
    - Offloading: no admissible history makes a manager raise or move a block in use,
      a store transfers exactly the blocks the manager misses, and what a load puts on
      the device is what was stored under its hashes.
    - Divergences found while modelling are theorems where they hold in general and
      concrete runs otherwise, listed as findings in the manifest.

    ** Not modelled

    The attention function and the models are parameters or absent; the float
    score collectors ([c2q_scores.py], [varlen_reduce.py]) are inputs of the
    verify pass; [varlen_topk.py], the packed verify attention and the
    quantized draft weights change how attention or the ranking is computed and
    are not covered.  The scheduler is modelled with at most one step in flight:
    asynchronous scheduling, the batch queue of pipeline parallelism and streaming
    sessions are left out, and the engine theorems assume a model without Mamba layers,
    without LoRA and without connectors; the offloading connector is modelled by itself,
    without the worker's job tables, streams and events.  Of the model runner the inputs
    of a step are modelled, without M-RoPE and XD-RoPE positions and LoRA activation;
    the attention metadata, CUDA graphs and the execution are not.  Workers and
    executors, the other connectors, proposers and overriders, the frontends, the
    benchmarks and the C++ and CUDA sources outside the selection kernel are outside
    this development. *)
From stdpp Require Export base tactics numbers list gmap strings sorting.
From Stdlib Require Export ZArith Lia.
Local Open Scope Z_scope.

(** * Python exceptions and the result monad *)

(** The exception classes the modelled code raises, plus the two faults the
    language or the device raises by itself: an out-of-range access and a
    missing dictionary key. *)
Inductive exn :=
| ValueError
| RuntimeError
| AssertionError
| AttributeError
| IndexError
| KeyError
| NotImplementedError
| OverflowError
| StopIteration
(** not an exception: the fuel of a modelled loop ran out *)
| Diverges.

#[export] Instance exn_eq_dec : EqDecision exn.
Proof. solve_decision. Defined.

(** A computation that returns a value or raises. *)
Inductive result (A : Type) :=
| Ok (a : A)
| Err (e : exn).
Arguments Ok {A} a.
Arguments Err {A} e.

#[export] Instance result_ret : MRet result := fun A a => Ok a.
#[export] Instance result_bind : MBind result :=
  fun A B f m => match m with Ok a => f a | Err e => Err e end.
#[export] Instance result_fmap : FMap result :=
  fun A B f m => match m with Ok a => Ok (f a) | Err e => Err e end.

(** [assert cond] of Python: raises [AssertionError] when the test fails. *)
Definition py_assert (b : bool) : result unit :=
  if b then Ok tt else Err AssertionError.

(** [x is not None] followed by a use of [x]. *)
Definition of_option {A} (e : exn) (o : option A) : result A :=
  match o with Some a => Ok a | None => Err e end.

(** ** Loops *)

(** [for a in l: s = f(s, a)], stopping at the first exception. *)
Fixpoint foldM {S A : Type} (f : S -> A -> result S) (l : list A) (s : S) : result S :=
  match l with
  | [] => Ok s
  | a :: l => s' ← f s a; foldM f l s'
  end.

Lemma foldM_app {S A} (f : S -> A -> result S) l1 l2 s :
  foldM f (l1 ++ l2) s = (s' ← foldM f l1 s; foldM f l2 s').
Proof.
  revert s; induction l1 as [|a l1 IH]; intros s; simpl; [done|].
  destruct (f s a); simpl; [apply IH|done].
Qed.

Lemma foldM_ext {S A} (f g : S -> A -> result S) l s :
  (forall s a, a ∈ l -> f s a = g s a) -> foldM f l s = foldM g l s.
Proof.
  revert s; induction l as [|a l IH]; intros s H; simpl; [done|].
  rewrite H by set_solver. destruct (g s a); simpl; [|done].
  apply IH; set_solver.
Qed.

(** Total-correctness rule for loops: an invariant indexed by the part of the
    list already visited, and a step that never raises. *)
Lemma foldM_inv {S A} (f : S -> A -> result S) (P : list A -> S -> Prop) l s :
  P [] s ->
  (forall pre a post s, l = pre ++ a :: post -> P pre s ->
     exists s', f s a = Ok s' /\ P (pre ++ [a]) s') ->
  exists s', foldM f l s = Ok s' /\ P l s'.
Proof.
  intros H0 Hstep.
  enough (forall pre post s, l = pre ++ post -> P pre s ->
    exists s', foldM f post s = Ok s' /\ P l s') as H by (apply (H [] l); auto).
  intros pre post; revert pre.
  induction post as [|a post IH]; intros pre s1 -> HP; simpl.
  - rewrite app_nil_r. eauto.
  - destruct (Hstep pre a post s1) as (s2 & -> & HP2); [done..|]. simpl.
    apply (IH (pre ++ [a])); [by rewrite <- app_assoc|done].
Qed.

Lemma fold_left_inv {S A} (f : S -> A -> S) (P : list A -> S -> Prop) l s :
  P [] s ->
  (forall pre a post s, l = pre ++ a :: post -> P pre s -> P (pre ++ [a]) (f s a)) ->
  P l (fold_left f l s).
Proof.
  intros H0 Hstep.
  enough (forall pre post s, l = pre ++ post -> P pre s -> P l (fold_left f post s))
    as H by (apply (H [] l); auto).
  intros pre post; revert pre.
  induction post as [|a post IH]; intros pre s1 -> HP; simpl.
  - by rewrite app_nil_r.
  - apply (IH (pre ++ [a])); [by rewrite <- app_assoc|]. by eapply Hstep.
Qed.

(** [[f(a) for a in l]] where [f] may raise. *)
Fixpoint mapR {A B : Type} (f : A -> result B) (l : list A) : result (list B) :=
  match l with
  | [] => Ok []
  | a :: l => b ← f a; bs ← mapR f l; Ok (b :: bs)
  end.

Lemma mapR_Ok {A B} (f : A -> result B) l bs :
  mapR f l = Ok bs <-> Forall2 (fun a b => f a = Ok b) l bs.
Proof.
  revert bs; induction l as [|a l IH]; intros bs; simpl.
  - split; [by intros [= <-]|by inversion 1].
  - split.
    + destruct (f a) eqn:E; [|done]. destruct (mapR f l) eqn:E2; [|done].
      simpl. intros [= <-]. constructor; [done|]. by apply IH.
    + inversion 1 as [|?? ? ? E1 E2]; subst. rewrite E1. apply IH in E2. simpl. by rewrite E2.
Qed.

Lemma mapR_pure {A B} (f : A -> result B) (g : A -> B) l :
  (forall a, a ∈ l -> f a = Ok (g a)) -> mapR f l = Ok (g <$> l).
Proof.
  intros H. apply mapR_Ok. induction l as [|a l IH]; [constructor|].
  rewrite fmap_cons. constructor; [|apply IH]; set_solver.
Qed.

(** Inversion of a bind that returned a value. *)
Lemma bind_Ok {A B} (m : result A) (k : A -> result B) b :
  m ≫= k = Ok b <-> exists a, m = Ok a /\ k a = Ok b.
Proof. destruct m; simpl; split; [eauto|by intros (? & [= <-] & ?)|done|by intros (? & ? & ?)]. Qed.

(** Runs every bind of a hypothesis [m = Ok _]. *)
Ltac inv_ok :=
  repeat match goal with
  | H : mbind _ _ = Ok _ |- _ => apply bind_Ok in H as (? & ? & H)
  | H : Ok _ = Ok _ |- _ => injection H as H; subst
  | H : Err _ = Ok _ |- _ => discriminate H
  | H : py_assert ?b = Ok _ |- _ => destruct b eqn:?; [clear H|discriminate H]
  end.

(** * Python integers, indexing and slicing *)

(** [cdiv(a, b) = -(a // -b)] of [math_utils.py]; [//] is floor division. *)
Definition cdiv (a b : Z) : Z := - (a / - b).

Lemma cdiv_spec a b : 0 < b -> cdiv a b = (a + b - 1) / b.
Proof.
  intros Hb. unfold cdiv. rewrite <- (Z.opp_involutive a) at 1. rewrite Z.div_opp_opp by lia.
  pose proof (Z.div_mod (- a) b ltac:(lia)). pose proof (Z.mod_pos_bound (- a) b Hb).
  apply Z.div_unique with (r := b - 1 - (- a) mod b); lia.
Qed.

(** [cdiv] is the least number of groups of [b] that hold [a]. *)
Lemma cdiv_le a b n : 0 < b -> cdiv a b <= n <-> a <= n * b.
Proof.
  intros Hb. rewrite cdiv_spec by done.
  pose proof (Z.div_mod (a + b - 1) b ltac:(lia)). pose proof (Z.mod_pos_bound (a + b - 1) b Hb).
  split; intros; nia.
Qed.

Lemma cdiv_nonneg a b : 0 < b -> 0 <= a -> 0 <= cdiv a b.
Proof. intros. rewrite cdiv_spec by done. apply Z.div_pos; lia. Qed.

Lemma cdiv_mono a a' b : 0 < b -> a <= a' -> cdiv a b <= cdiv a' b.
Proof. intros. rewrite !cdiv_spec by done. apply Z.div_le_mono; lia. Qed.

(** [range(a, b)]. *)
Definition py_range (a b : Z) : list Z := seqZ a (b - a).

(** Slice bounds: negative counts from the end, then clamped to the length. *)
Definition py_clamp (n i : Z) : Z :=
  if i <? 0 then Z.max 0 (n + i) else Z.min i n.

(** [l[a:b]]. *)
Definition py_slice {A} (l : list A) (a b : Z) : list A :=
  let n := Z.of_nat (length l) in
  take (Z.to_nat (py_clamp n b - py_clamp n a)) (drop (Z.to_nat (py_clamp n a)) l).

(** [l[i]]: a negative index counts from the end. *)
Definition py_index {A} (l : list A) (i : Z) : result A :=
  let j := if i <? 0 then Z.of_nat (length l) + i else i in
  if j <? 0 then Err IndexError else of_option IndexError (l !! Z.to_nat j).

(** [len(l)]. *)
Definition py_len {A} (l : list A) : Z := Z.of_nat (length l).

Lemma py_slice_nonneg {A} (l : list A) a b :
  0 <= a -> 0 <= b -> py_slice l a b = take (Z.to_nat (b - a)) (drop (Z.to_nat a) l).
Proof.
  intros Ha Hb. unfold py_slice, py_clamp.
  rewrite (proj2 (Z.ltb_ge a 0)), (proj2 (Z.ltb_ge b 0)) by lia.
  destruct (Z.le_gt_cases (Z.of_nat (length l)) a).
  - rewrite !drop_ge by lia. by rewrite !take_nil.
  - rewrite (Z.min_l a) by lia. destruct (Z.le_gt_cases b (Z.of_nat (length l))).
    + by rewrite Z.min_l by lia.
    + rewrite Z.min_r by lia. rewrite !take_ge; [done|rewrite length_drop; lia..].
Qed.

Lemma py_slice_cons {A} (l : list A) a b x :
  0 <= a < b -> l !! Z.to_nat a = Some x -> py_slice l a b = x :: py_slice l (a + 1) b.
Proof.
  intros Hab Hx. rewrite !py_slice_nonneg by lia. rewrite (drop_S l x (Z.to_nat a)) by done.
  replace (Z.to_nat (b - a)) with (S (Z.to_nat (b - (a + 1)))) by lia.
  by replace (Z.to_nat (a + 1)) with (S (Z.to_nat a)) by lia.
Qed.

Lemma py_index_nonneg {A} (l : list A) i :
  0 <= i -> py_index l i = of_option IndexError (l !! Z.to_nat i).
Proof. intros. unfold py_index. by rewrite !(proj2 (Z.ltb_ge i 0)) by lia. Qed.

Lemma py_index_ok {A} (l : list A) i :
  0 <= i < py_len l -> exists x, py_index l i = Ok x /\ l !! Z.to_nat i = Some x.
Proof.
  unfold py_len. intros H. rewrite py_index_nonneg by lia.
  destruct (l !! Z.to_nat i) eqn:E; [by eauto|]. apply lookup_ge_None in E. lia.
Qed.

Lemma py_index_last {A} (l : list A) x : py_index (l ++ [x]) (-1) = Ok x.
Proof.
  unfold py_index. rewrite length_app. simpl.
  replace (Z.of_nat (length l + 1) + -1) with (Z.of_nat (length l)) by lia.
  rewrite (proj2 (Z.ltb_ge _ 0)) by lia. rewrite Nat2Z.id, lookup_app_r, Nat.sub_diag by lia. done.
Qed.

(** * Machine words and byte strings *)

(** A signed integer field of [w] bits ([ctypes], NumPy, PyTorch): a value out of range
    wraps. *)
Definition c_int (w z : Z) : Z := (z + 2 ^ (w - 1)) mod 2 ^ w - 2 ^ (w - 1).

Lemma c_int_id w z : 0 < w -> - 2 ^ (w - 1) <= z < 2 ^ (w - 1) -> c_int w z = z.
Proof.
  intros Hw Hz. unfold c_int. assert (2 ^ w = 2 * 2 ^ (w - 1)) as -> by (rewrite <- Z.pow_succ_r by lia; f_equal; lia).
  rewrite Z.mod_small; lia.
Qed.

(** [x.to_bytes(n, 'big', signed=False)]. *)
Fixpoint be_bytes (n : nat) (x : Z) : list Z :=
  match n with O => [] | S n => be_bytes n (x / 256) ++ [x mod 256] end.

Definition to_bytes_be (n : nat) (x : Z) : result (list Z) :=
  if (0 <=? x) && (x <? 256 ^ Z.of_nat n) then Ok (be_bytes n x) else Err OverflowError.

(** [int.from_bytes(b, 'big', signed=False)]. *)
Definition from_bytes_be (b : list Z) : Z := fold_left (fun acc x => acc * 256 + x) b 0.

Lemma length_be_bytes n x : length (be_bytes n x) = n.
Proof. revert x; induction n as [|n IH]; intros x; simpl; [done|]. rewrite length_app, IH. simpl. lia. Qed.

Lemma from_be_bytes n x : 0 <= x < 256 ^ Z.of_nat n -> from_bytes_be (be_bytes n x) = x.
Proof.
  revert x; induction n as [|n IH]; intros x Hx.
  - change (256 ^ Z.of_nat 0) with 1 in Hx. unfold from_bytes_be. simpl. lia.
  - unfold from_bytes_be in *. cbn [be_bytes]. rewrite fold_left_app. cbn [fold_left]. rewrite IH.
    + pose proof (Z.div_mod x 256 ltac:(lia)). lia.
    + rewrite Nat2Z.inj_succ, Z.pow_succ_r in Hx by lia. split.
      * apply Z.div_pos; lia.
      * apply Z.div_lt_upper_bound; lia.
Qed.

(** A Python [bytes] value: each element is a byte, [0 <= b < 256]. *)
Abbreviation bytes := (list Z).

(** * Lists *)

Lemma filter_all {A} (P : A -> Prop) `{!forall x, Decision (P x)} (l : list A) :
  (forall x, x ∈ l -> P x) -> filter P l = l.
Proof.
  induction l as [|x l IH]; intros Hall; [done|].
  rewrite filter_cons_True by (apply Hall; set_solver). rewrite IH; [done|]. set_solver.
Qed.

Lemma last_drop_lt {A} (l : list A) n : (n < length l)%nat -> last (drop n l) = last l.
Proof.
  intros Hn. rewrite <- (take_drop n l) at 2. rewrite last_app.
  destruct (last (drop n l)) eqn:E; [done|]. apply last_None in E.
  apply (f_equal length) in E. rewrite length_drop in E. simpl in E. lia.
Qed.

Lemma filter_ext_in {A} (P Q : A -> Prop) `{!forall x, Decision (P x), !forall x, Decision (Q x)}
    (l : list A) :
  (forall x, x ∈ l -> P x <-> Q x) -> filter P l = filter Q l.
Proof.
  induction l as [|x l IH]; intros Hext; [done|]. rewrite !filter_cons.
  rewrite IH by set_solver. specialize (Hext x ltac:(set_solver)).
  repeat case_decide; tauto.
Qed.

Lemma filter_fmap_comm {A B} (f : A -> B) (P : B -> Prop) (Q : A -> Prop)
    `{!forall y, Decision (P y), !forall x, Decision (Q x)} (l : list A) :
  (forall x, Q x <-> P (f x)) -> filter P (f <$> l) = f <$> filter Q l.
Proof.
  intros HPQ. induction l as [|x l IH]; [done|]. rewrite fmap_cons, !filter_cons. specialize (HPQ x).
  destruct (decide (P (f x))), (decide (Q x)); rewrite IH; done || tauto.
Qed.

Lemma imap_ident {A} (f : nat -> A -> A) (l : list A) :
  (forall i x, l !! i = Some x -> f i x = x) -> imap f l = l.
Proof.
  intros H. apply list_eq. intros i. rewrite list_lookup_imap.
  destruct (l !! i) eqn:E; simpl; [|done]. by rewrite H.
Qed.

(** [l.remove(x)]: without the first occurrence, [None] when there is none. *)
Fixpoint list_remove {A} `{!EqDecision A} (x : A) (l : list A) : option (list A) :=
  match l with
  | [] => None
  | y :: l => if decide (x = y) then Some l else (y ::.) <$> list_remove x l
  end.

Lemma list_remove_Some {A} `{!EqDecision A} (x : A) l l' : list_remove x l = Some l' -> l ≡ₚ x :: l'.
Proof.
  revert l'; induction l as [|y l IH]; intros l' E; [done|]. cbn in E. destruct (decide (x = y)) as [->|]; [by injection E as <-|].
  apply fmap_Some in E as (l1 & E & ->). rewrite (IH l1 E). constructor.
Qed.

Lemma list_remove_None {A} `{!EqDecision A} (x : A) l : list_remove x l = None <-> x ∉ l.
Proof.
  induction l as [|y l IH]; [split; [intros _; apply not_elem_of_nil|done]|]. cbn. rewrite not_elem_of_cons.
  destruct (decide (x = y)); [naive_solver|]. rewrite fmap_None, IH. naive_solver.
Qed.

Lemma list_remove_split {A} `{!EqDecision A} (x : A) l l' :
  list_remove x l = Some l' -> exists pre post, l = pre ++ x :: post /\ l' = pre ++ post.
Proof.
  revert l'; induction l as [|y l IH]; intros l' E; [done|]. cbn in E. destruct (decide (x = y)) as [->|].
  - injection E as <-. by exists [], l.
  - apply fmap_Some in E as (l1 & E & ->). destruct (IH l1 E) as (pre & post & -> & ->). by exists (y :: pre), post.
Qed.

(** Where the other elements are once one is removed. *)
Lemma lookup_removed {A} (pre post : list A) x y i :
  (pre ++ x :: post) !! i = Some y -> y <> x ->
  exists i', (pre ++ post) !! i' = Some y /\ (i' <= i)%nat /\ ((length pre < i)%nat -> (i' < i)%nat) /\ ((i < length pre)%nat -> i' = i).
Proof.
  intros Hi Hne. destruct (decide (i < length pre)%nat) as [Hlt|Hge].
  - exists i. rewrite lookup_app_l in * by done. split; [done|]. lia.
  - rewrite lookup_app_r in Hi by lia. destruct (i - length pre)%nat as [|j] eqn:Ej; [by injection Hi as ->|].
    exists (length pre + j)%nat. rewrite lookup_app_r by lia. replace (length pre + j - length pre)%nat with j by lia. split; [done|]. lia.
Qed.

(** Where a loop over [range(n)] stands. *)
Lemma seq_split n pre x post : seq 0 n = pre ++ x :: post -> x = length pre /\ (length pre < n)%nat.
Proof.
  intros E. assert (Hx : seq 0 n !! length pre = Some x) by (rewrite E, lookup_app_r, Nat.sub_diag by lia; done).
  apply lookup_seq in Hx as [-> Hlt]. done.
Qed.

(** * Sums of integers *)
Definition sumZ (l : list Z) : Z := fold_right Z.add 0 l.

Lemma sumZ_cons x l : sumZ (x :: l) = x + sumZ l.
Proof. done. Qed.

Lemma sumZ_app l1 l2 : sumZ (l1 ++ l2) = sumZ l1 + sumZ l2.
Proof. induction l1 as [|x l1 IH]; simpl; lia. Qed.

Lemma sumZ_perm l1 l2 : l1 ≡ₚ l2 -> sumZ l1 = sumZ l2.
Proof. induction 1; simpl; lia. Qed.

Lemma sumZ_nonneg l : Forall (Z.le 0) l -> 0 <= sumZ l.
Proof. induction 1; simpl; lia. Qed.

Lemma fold_left_add l a : fold_left Z.add l a = a + sumZ l.
Proof. revert a; induction l as [|x l IH]; intros a; simpl; [lia|]. rewrite IH. lia. Qed.
