(* ===== verification/FreeQueue.v ===== *)
(** The free list of KV-cache blocks: [KVCacheBlock] and
    [FreeKVCacheBlockQueue] of [src/vllm/v1/core/kv_cache_utils.py].

    The Python class threads a doubly linked list through the
    [prev_free_block] and [next_free_block] attributes of shared block objects,
    so the model keeps an explicit object store ([heap]) and every operation
    mutates it.  [queue_repr] relates a store to the abstract queue (a list of
    block ids); the lemmas of [Module FreeKVCacheBlockQueue] are the refinement:
    each pointer operation computes the corresponding list operation, raises
    exactly when the list operation is undefined, and leaves every attribute
    other than the two links of every block alone. *)
From S2P Require Import Prelude.
Local Open Scope Z_scope.

(** * Block objects and the object store *)

(** Object identities: the two sentinels of a queue and the real blocks. *)
Inductive node := FakeHead | FakeTail | Blk (id : nat).

#[export] Instance node_eq_dec : EqDecision node.
Proof. solve_decision. Defined.

#[export] Instance node_countable : Countable node.
Proof.
  refine (inj_countable'
    (fun n => match n with
              | FakeHead => inl tt | FakeTail => inr (inl tt) | Blk i => inr (inr i)
              end)
    (fun x => match x with
              | inl _ => FakeHead | inr (inl _) => FakeTail | inr (inr i) => Blk i
              end) _).
  by intros [].
Defined.

(** [KVCacheBlock]: the dataclass and its mutable attributes. *)
Record KVCacheBlock := mkBlock {
  block_id : Z;
  ref_cnt : Z;
  block_hash : option bytes;
  prev_free_block : option node;
  next_free_block : option node;
  is_null : bool;
}.

(** [KVCacheBlock(block_id=i)] with the dataclass defaults. *)
Definition new_block (i : Z) : KVCacheBlock :=
  mkBlock i 0 None None None false.

Abbreviation heap := (gmap node KVCacheBlock).

(** Attribute writes, one per attribute. *)
Definition with_ref_cnt (v : Z) (b : KVCacheBlock) : KVCacheBlock :=
  mkBlock (block_id b) v (block_hash b) (prev_free_block b) (next_free_block b) (is_null b).
Definition with_hash (v : option bytes) (b : KVCacheBlock) : KVCacheBlock :=
  mkBlock (block_id b) (ref_cnt b) v (prev_free_block b) (next_free_block b) (is_null b).
Definition with_prev (v : option node) (b : KVCacheBlock) : KVCacheBlock :=
  mkBlock (block_id b) (ref_cnt b) (block_hash b) v (next_free_block b) (is_null b).
Definition with_next (v : option node) (b : KVCacheBlock) : KVCacheBlock :=
  mkBlock (block_id b) (ref_cnt b) (block_hash b) (prev_free_block b) v (is_null b).
Definition with_null (v : bool) (b : KVCacheBlock) : KVCacheBlock :=
  mkBlock (block_id b) (ref_cnt b) (block_hash b) (prev_free_block b) (next_free_block b) v.

(** [reset_hash] of the class. *)
Definition reset_hash (b : KVCacheBlock) : KVCacheBlock := with_hash None b.

(** The [block_hash] property setter: it asserts that no hash is set. *)
Definition set_block_hash (v : bytes) (b : KVCacheBlock) : result KVCacheBlock :=
  _ ← py_assert (bool_decide (block_hash b = None));
  Ok (with_hash (Some v) b).

Definition prev_of (h : heap) (n : node) : option node := b ← h !! n; prev_free_block b.
Definition next_of (h : heap) (n : node) : option node := b ← h !! n; next_free_block b.
Definition set_prev (n : node) (v : option node) (h : heap) : heap := alter (with_prev v) n h.
Definition set_next (n : node) (v : option node) (h : heap) : heap := alter (with_next v) n h.

(** A queue object and the store its blocks live in. *)
Record qstate := mkQ { qheap : heap; num_free_blocks : Z }.

(** * The queue operations *)
Module FreeKVCacheBlockQueue.

(** The loop of [__init__] that links consecutive blocks. *)
Definition link_consecutive (n : nat) (h : heap) : heap :=
  fold_left (fun h i =>
    let h := if (0 <? i)%nat then set_prev (Blk i) (Some (Blk (i - 1))) h else h in
    if (Z.of_nat i <? Z.of_nat n - 1)%Z then set_next (Blk i) (Some (Blk (i + 1))) h else h)
    (seq 0 n) h.

(** [__init__] on the first [n] block objects of the store. *)
Definition init (n : nat) (h : heap) : qstate :=
  let h := link_consecutive n h in
  let h := <[FakeHead := new_block (-1)]> (<[FakeTail := new_block (-1)]> h) in
  let h := if (0 <? n)%nat then
      let h := set_next FakeHead (Some (Blk 0)) h in
      let h := set_prev (Blk 0) (Some FakeHead) h in
      let h := set_prev FakeTail (Some (Blk (n - 1))) h in
      set_next (Blk (n - 1)) (Some FakeTail) h
    else
      let h := set_next FakeHead (Some FakeTail) h in
      set_prev FakeTail (Some FakeHead) h in
  mkQ h (Z.of_nat n).

(** [popleft]. *)
Definition popleft (q : qstate) : result (node * qstate) :=
  let h := qheap q in
  match next_of h FakeHead with
  | None | Some FakeTail =>
      _ ← py_assert (num_free_blocks q =? 0); Err ValueError
  | Some first_block =>
      match next_of h first_block with
      | None => Err RuntimeError
      | Some second =>
          let h := set_next FakeHead (Some second) h in
          let h := set_prev second (Some FakeHead) h in
          let h := set_next first_block None (set_prev first_block None h) in
          Ok (first_block, mkQ h (num_free_blocks q - 1))
      end
  end.

(** One round of the loop of [popleft_n]: the popped blocks so far, the
    current block and the store. *)
Definition pop_step (s : list node * option node * heap) (_ : nat) :
    result (list node * option node * heap) :=
  let '(ret, curr, h) := s in
  match curr with
  | None => Err AssertionError
  | Some c =>
      let nxt := next_of h c in
      Ok (ret ++ [c], nxt, set_next c None (set_prev c None h))
  end.

(** [popleft_n]. *)
Definition popleft_n (n : Z) (q : qstate) : result (list node * qstate) :=
  if n =? 0 then Ok ([], q) else
  _ ← py_assert (n <=? num_free_blocks q);
  let num := num_free_blocks q - n in
  '(ret, curr, h) ← foldM pop_step (seq 0 (Z.to_nat n)) ([], next_of (qheap q) FakeHead, qheap q);
  match curr with
  | Some c => Ok (ret, mkQ (set_prev c (Some FakeHead) (set_next FakeHead (Some c) h)) num)
  | None => Ok (ret, mkQ h num)
  end.

(** [remove]. *)
Definition remove (b : node) (q : qstate) : result qstate :=
  let h := qheap q in
  match prev_of h b, next_of h b with
  | Some p, Some n =>
      let h := set_next p (Some n) h in
      let h := set_prev n (Some p) h in
      let h := set_next b None (set_prev b None h) in
      Ok (mkQ h (num_free_blocks q - 1))
  | _, _ => Err RuntimeError
  end.

(** [append]. *)
Definition append (b : node) (q : qstate) : result qstate :=
  let h := qheap q in
  match prev_of h FakeTail with
  | None => Err RuntimeError
  | Some last_block =>
      let h := set_next last_block (Some b) h in
      let h := set_prev b (Some last_block) h in
      let h := set_next b (Some FakeTail) h in
      let h := set_prev FakeTail (Some b) h in
      Ok (mkQ h (num_free_blocks q + 1))
  end.

(** The loop of [append_n]: the last linked block and the store. *)
Definition append_step (s : node * heap) (b : node) : node * heap :=
  let '(last_block, h) := s in
  (b, set_next last_block (Some b) (set_prev b (Some last_block) h)).

(** [append_n]. *)
Definition append_n (bs : list node) (q : qstate) : result qstate :=
  if bool_decide (bs = []) then Ok q else
  match prev_of (qheap q) FakeTail with
  | None => Err AssertionError
  | Some last_block =>
      let '(last_block, h) := fold_left append_step bs (last_block, qheap q) in
      let h := set_next last_block (Some FakeTail) h in
      let h := set_prev FakeTail (Some last_block) h in
      Ok (mkQ h (num_free_blocks q + Z.of_nat (length bs)))
  end.

(** The [while] loop of [get_all_free_blocks]; [None] when the fuel runs out. *)
Fixpoint collect (fuel : nat) (h : heap) (curr : node) : option (list node) :=
  match fuel with
  | O => None
  | S fuel =>
      match next_of h curr with
      | None => Some []
      | Some nxt => ret ← collect fuel h nxt; Some (curr :: ret)
      end
  end.

(** [get_all_free_blocks]. *)
Definition get_all_free_blocks (fuel : nat) (q : qstate) : result (option (list node)) :=
  match next_of (qheap q) FakeHead with
  | None => Err RuntimeError
  | Some curr => Ok (collect fuel (qheap q) curr)
  end.

End FreeKVCacheBlockQueue.

(** * Successors in a list *)

(** The element after the first occurrence of [x]. *)
Fixpoint succ_in (L : list node) (x : node) : option node :=
  match L with
  | a :: L' => if decide (a = x) then head L' else succ_in L' x
  | [] => None
  end.

Definition pred_in (L : list node) (x : node) : option node := succ_in (reverse L) x.

Lemma succ_in_None L x : x ∉ L -> succ_in L x = None.
Proof.
  induction L as [|a L IH]; simpl; [done|]. intros [??]%not_elem_of_cons.
  rewrite decide_False by done. auto.
Qed.

Lemma succ_in_app_r L1 L2 x : x ∉ L1 -> succ_in (L1 ++ L2) x = succ_in L2 x.
Proof.
  induction L1 as [|a L1 IH]; simpl; [done|]. intros [??]%not_elem_of_cons.
  rewrite decide_False by done. auto.
Qed.

Lemma succ_in_split L1 a L2 : a ∉ L1 -> succ_in (L1 ++ a :: L2) a = head L2.
Proof. intros H. rewrite succ_in_app_r by done. simpl. by rewrite decide_True. Qed.

Lemma succ_in_elem_l L1 a L2 x :
  x ∈ L1 -> succ_in (L1 ++ a :: L2) x = succ_in (L1 ++ [a]) x.
Proof.
  induction L1 as [|b L1 IH]; [by intros ?%elem_of_nil|]. simpl.
  intros Hx. destruct (decide (b = x)).
  - by destruct L1.
  - apply IH. set_solver.
Qed.

(** Unlinking [x] between [a] and [b] changes the successor of [a] and [x] only. *)
Lemma succ_in_unlink L1 a x b L2 y :
  NoDup (L1 ++ a :: x :: b :: L2) ->
  succ_in (L1 ++ a :: b :: L2) y =
  if decide (y = x) then None else if decide (y = a) then Some b
  else succ_in (L1 ++ a :: x :: b :: L2) y.
Proof.
  intros (HL1 & Hdisj & HR)%NoDup_app.
  apply NoDup_cons in HR as [Ha HR]. apply NoDup_cons in HR as [Hx HR].
  case_decide as Hyx; [subst y|].
  { apply succ_in_None. specialize (Hdisj x). set_solver. }
  case_decide as Hya; [subst y|].
  { rewrite succ_in_split; [done|]. intros Hin. apply (Hdisj a Hin). set_solver. }
  destruct (decide (y ∈ L1)).
  - by rewrite (succ_in_elem_l L1 a (b :: L2)), (succ_in_elem_l L1 a (x :: b :: L2)).
  - rewrite !succ_in_app_r by done. simpl.
    destruct (decide (a = y)), (decide (x = y)); congruence.
Qed.

(** The successor function of two segments glued at a shared element. *)
Lemma succ_in_glue L1 a L2 y :
  NoDup (L1 ++ a :: L2) ->
  succ_in (L1 ++ a :: L2) y =
  match succ_in (a :: L2) y with Some z => Some z | None => succ_in (L1 ++ [a]) y end.
Proof.
  intros (HL1 & Hdisj & HR)%NoDup_app.
  destruct (decide (y ∈ L1)) as [Hy|Hy].
  - rewrite (succ_in_elem_l L1 a L2) by done. rewrite (succ_in_None (a :: L2)); [done|].
    auto.
  - rewrite !succ_in_app_r by done. simpl. destruct (decide (a = y)).
    + by destruct L2.
    + by destruct (succ_in L2 y).
Qed.

Lemma pred_in_app L1 L2 : pred_in (L1 ++ L2) = succ_in (reverse L2 ++ reverse L1).
Proof. unfold pred_in. by rewrite reverse_app. Qed.

Lemma NoDup_reverse_1 {A} (l : list A) : NoDup l -> NoDup (reverse l).
Proof. by rewrite reverse_Permutation. Qed.

Lemma pred_in_unlink L1 a x b L2 y :
  NoDup (L1 ++ a :: x :: b :: L2) ->
  pred_in (L1 ++ a :: b :: L2) y =
  if decide (y = x) then None else if decide (y = b) then Some a
  else pred_in (L1 ++ a :: x :: b :: L2) y.
Proof.
  intros H%NoDup_reverse_1. unfold pred_in.
  rewrite !reverse_app, !reverse_cons, <- !app_assoc in H.
  rewrite !reverse_app, !reverse_cons, <- !app_assoc. simpl in *.
  by rewrite (succ_in_unlink (reverse L2) b x a (reverse L1)).
Qed.

Lemma succ_in_mid L1 a x b L2 :
  NoDup (L1 ++ a :: x :: b :: L2) -> succ_in (L1 ++ a :: x :: b :: L2) x = Some b.
Proof.
  rewrite (cons_middle a), app_assoc. intros H%NoDup_app.
  rewrite succ_in_split; [done|]. set_solver.
Qed.

Lemma pred_in_mid L1 a x b L2 :
  NoDup (L1 ++ a :: x :: b :: L2) -> pred_in (L1 ++ a :: x :: b :: L2) x = Some a.
Proof.
  intros H%NoDup_reverse_1. unfold pred_in.
  rewrite !reverse_app, !reverse_cons, <- !app_assoc in H.
  rewrite !reverse_app, !reverse_cons, <- !app_assoc. by apply succ_in_mid.
Qed.

Lemma pred_in_second a x L : x ∉ L -> pred_in (a :: x :: L) x = Some a.
Proof.
  intros H. unfold pred_in. rewrite !reverse_cons, <- app_assoc.
  apply succ_in_split. by rewrite elem_of_reverse.
Qed.

(** * The representation predicate *)

Definition nodes_of (l : list nat) : list node := FakeHead :: (Blk <$> l) ++ [FakeTail].

(** The store holds the queue [l]: both link attributes of every object are
    exactly the successor and predecessor in the sentinel-delimited list (so
    [None] for a block that is not queued), every queued block exists, no block
    is queued twice, and the counter is the length. *)
Record queue_repr (q : qstate) (l : list nat) : Prop := {
  qr_next : forall n, next_of (qheap q) n = succ_in (nodes_of l) n;
  qr_prev : forall n, prev_of (qheap q) n = pred_in (nodes_of l) n;
  qr_nodup : NoDup l;
  qr_dom : forall n, n ∈ nodes_of l -> is_Some (qheap q !! n);
  qr_num : num_free_blocks q = Z.of_nat (length l);
}.

(** Two stores agree on every attribute but the two links. *)
Definition same_payload (b1 b2 : KVCacheBlock) : Prop :=
  block_id b1 = block_id b2 /\ ref_cnt b1 = ref_cnt b2 /\
  block_hash b1 = block_hash b2 /\ is_null b1 = is_null b2.

Definition heap_frame (h1 h2 : heap) : Prop :=
  forall n, option_relation same_payload (fun _ => False) (fun _ => False) (h1 !! n) (h2 !! n).

#[export] Instance same_payload_equiv : Equivalence same_payload.
Proof. split; unfold same_payload; repeat intro; naive_solver congruence. Qed.

#[export] Instance heap_frame_preorder : PreOrder heap_frame.
Proof.
  split.
  - intros h n. by destruct (h !! n); simpl.
  - intros h1 h2 h3 H12 H23 n. specialize (H12 n). specialize (H23 n).
    destruct (h1 !! n), (h2 !! n), (h3 !! n); simpl in *; try done. by etrans.
Qed.

(** ** Reading back attribute writes *)

Lemma next_of_set_next h n v m :
  is_Some (h !! n) -> next_of (set_next n v h) m = if decide (m = n) then v else next_of h m.
Proof.
  intros [b Hb]. unfold next_of, set_next. rewrite lookup_alter.
  destruct (decide (n = m)) as [->|]; [rewrite Hb, decide_True|rewrite decide_False]; done.
Qed.

Lemma prev_of_set_prev h n v m :
  is_Some (h !! n) -> prev_of (set_prev n v h) m = if decide (m = n) then v else prev_of h m.
Proof.
  intros [b Hb]. unfold prev_of, set_prev. rewrite lookup_alter.
  destruct (decide (n = m)) as [->|]; [rewrite Hb, decide_True|rewrite decide_False]; done.
Qed.

Lemma next_of_set_prev h n v m : next_of (set_prev n v h) m = next_of h m.
Proof.
  unfold next_of, set_prev. rewrite lookup_alter.
  destruct (decide (n = m)) as [->|]; [|done]. by destruct (h !! m).
Qed.

Lemma prev_of_set_next h n v m : prev_of (set_next n v h) m = prev_of h m.
Proof.
  unfold prev_of, set_next. rewrite lookup_alter.
  destruct (decide (n = m)) as [->|]; [|done]. by destruct (h !! m).
Qed.

Lemma is_Some_set_next h n v m : is_Some (set_next n v h !! m) <-> is_Some (h !! m).
Proof.
  unfold set_next. rewrite lookup_alter. destruct (decide (n = m)) as [->|]; [|done].
  by rewrite fmap_is_Some.
Qed.

Lemma is_Some_set_prev h n v m : is_Some (set_prev n v h !! m) <-> is_Some (h !! m).
Proof.
  unfold set_prev. rewrite lookup_alter. destruct (decide (n = m)) as [->|]; [|done].
  by rewrite fmap_is_Some.
Qed.

Lemma next_of_is_Some h n v : next_of h n = Some v -> is_Some (h !! n).
Proof. unfold next_of. by destruct (h !! n). Qed.

Lemma prev_of_is_Some h n v : prev_of h n = Some v -> is_Some (h !! n).
Proof. unfold prev_of. by destruct (h !! n). Qed.

Lemma heap_frame_alter f h n :
  (forall b, same_payload b (f b)) -> heap_frame h (alter f n h).
Proof.
  intros Hf m. rewrite lookup_alter. destruct (decide (n = m)) as [->|]; by destruct (h !! m); simpl.
Qed.

Lemma heap_frame_set_next h n v : heap_frame h (set_next n v h).
Proof. by apply heap_frame_alter. Qed.

Lemma heap_frame_set_prev h n v : heap_frame h (set_prev n v h).
Proof. by apply heap_frame_alter. Qed.

Lemma heap_frame_trans_next h h' n v : heap_frame h h' -> heap_frame h (set_next n v h').
Proof. intros H. etrans; [done|]. apply heap_frame_set_next. Qed.

Lemma heap_frame_trans_prev h h' n v : heap_frame h h' -> heap_frame h (set_prev n v h').
Proof. intros H. etrans; [done|]. apply heap_frame_set_prev. Qed.

Create HintDb links.
Create Rewrite HintDb links.
#[export] Hint Resolve heap_frame_trans_next heap_frame_trans_prev : links.
#[export] Hint Extern 1 (heap_frame ?h ?h) => reflexivity : links.
#[export] Hint Rewrite prev_of_set_next next_of_set_prev is_Some_set_next is_Some_set_prev : links.
#[export] Hint Rewrite next_of_set_next prev_of_set_prev
  using (autorewrite with links; eauto using next_of_is_Some, prev_of_is_Some) : links.

(** Reads the links of a chain of attribute writes back to the original store. *)
Ltac links := autorewrite with links; repeat case_decide; simplify_eq; try done.

(** ** Shape of the sentinel-delimited list *)

Lemma nodes_of_app l1 l2 :
  nodes_of (l1 ++ l2) = FakeHead :: (Blk <$> l1) ++ (Blk <$> l2) ++ [FakeTail].
Proof. unfold nodes_of. by rewrite fmap_app, <- app_assoc. Qed.

Lemma NoDup_nodes_of l : NoDup l -> NoDup (nodes_of l).
Proof.
  intros H. unfold nodes_of. apply NoDup_cons. split.
  - rewrite elem_of_app, list_elem_of_fmap. set_solver.
  - apply NoDup_app. split; [by apply NoDup_fmap_2; [intros ?? [=]|]|].
    split; [|apply NoDup_singleton]. intros x (y & -> & _)%list_elem_of_fmap. set_solver.
Qed.

Lemma elem_of_nodes_of l i : Blk i ∈ nodes_of l <-> i ∈ l.
Proof.
  unfold nodes_of. rewrite elem_of_cons, elem_of_app, list_elem_of_fmap. set_solver.
Qed.

(** A queued block sits between two nodes of the list. *)
Lemma nodes_of_around l1 i l2 :
  exists L1 a b L2,
    nodes_of (l1 ++ i :: l2) = L1 ++ a :: Blk i :: b :: L2 /\
    nodes_of (l1 ++ l2) = L1 ++ a :: b :: L2.
Proof.
  rewrite !nodes_of_app, fmap_cons. cbn [app].
  assert (exists L1 a, FakeHead :: (Blk <$> l1) = L1 ++ [a]) as (L1 & a & Ha).
  { destruct (exists_last (l := FakeHead :: (Blk <$> l1))) as (L1 & a & ?); [done|]. eauto. }
  assert (exists b L2, (Blk <$> l2) ++ [FakeTail] = b :: L2) as (b & L2 & Hb).
  { destruct l2; eexists _, _; reflexivity. }
  exists L1, a, b, L2.
  rewrite Hb, !(app_comm_cons (Blk <$> l1)), Ha, <- !app_assoc. done.
Qed.

(** A non-empty chain ends in its last element. *)
Lemma chain_snoc {A} (x : A) (l : list A) : exists C, x :: l = C ++ [default x (last l)].
Proof.
  destruct l as [|y l _] using rev_ind; [by exists []|].
  rewrite last_snoc. by exists (x :: l).
Qed.

(** Appending a segment [B] between [z] and the sentinel [t]. *)
Lemma succ_in_extend L1 z B t n :
  B ≠ [] -> NoDup (L1 ++ z :: B ++ [t]) ->
  succ_in (L1 ++ z :: B ++ [t]) n =
  if decide (n = default z (last B)) then Some t
  else match succ_in (z :: B) n with Some w => Some w | None => succ_in (L1 ++ [z; t]) n end.
Proof.
  intros HB HND. destruct (chain_snoc z B) as (C & EC). set (y := default z (last B)) in *.
  pose proof HND as (HL1 & Hd & HR)%NoDup_app.
  rewrite (succ_in_glue L1 z (B ++ [t])) by done.
  assert (HND' : NoDup (L1 ++ [z; t])).
  { apply NoDup_app. apply NoDup_cons in HR as [Hz [_ _]%NoDup_app]. split_and!; [done| |].
    - intros x Hx. specialize (Hd x Hx). set_solver.
    - apply NoDup_cons. split; [set_solver|apply NoDup_singleton]. }
  rewrite (succ_in_glue L1 z [t]) by done.
  rewrite app_comm_cons, EC, <- app_assoc in HR |- *.
  rewrite (succ_in_glue C y [t]) by done.
  destruct (decide (n = y)) as [->|Hny]; [simpl; by rewrite decide_True|].
  rewrite <- EC. cbn [succ_in]. rewrite (decide_False (P := y = n)) by done.
  assert ((if decide (t = n) is left _ then head (@nil node) else None) = None) as ->
    by (by case_decide).
  destruct B as [|b B]; [done|]. by destruct (decide (z = n)).
Qed.

Lemma pred_in_extend L1 z B t n :
  B ≠ [] -> NoDup (L1 ++ z :: B ++ [t]) ->
  pred_in (L1 ++ z :: B ++ [t]) n =
  if decide (n = t) then Some (default z (last B))
  else match pred_in (z :: B) n with Some w => Some w | None => pred_in (L1 ++ [z; t]) n end.
Proof.
  intros HB HND%NoDup_reverse_1. unfold pred_in.
  rewrite !reverse_app, !reverse_cons, !reverse_app, <- !app_assoc in HND.
  rewrite !reverse_app, !reverse_cons, !reverse_app, <- !app_assoc. cbn [app reverse] in *.
  change (reverse [t]) with [t] in *. change (reverse (@nil node)) with (@nil node).
  cbn [app succ_in] in *.
  apply NoDup_cons in HND as [Ht HND].
  destruct (decide (n = t)) as [->|Hnt].
  { rewrite decide_True by done. destruct B as [|b B _] using rev_ind; [done|].
    by rewrite last_snoc, reverse_app. }
  rewrite !(decide_False (P := t = n)) by done.
  rewrite (succ_in_glue (reverse B) z (reverse L1)) by done.
  destruct (decide (n ∈ reverse B)).
  - assert (Hno : succ_in (z :: reverse L1) n = None).
    { apply succ_in_None. apply NoDup_app in HND as (_ & HND & _). auto. }
    cbn [succ_in] in Hno |- *. rewrite Hno. by destruct (succ_in (reverse B ++ [z]) n).
  - rewrite !succ_in_app_r by done. simpl. case_decide; [by destruct (reverse L1)|].
    by destruct (succ_in (reverse L1) n).
Qed.

(** Dropping the segment [xs] after the head sentinel [f]. *)
Lemma pred_in_drop f xs c rest n :
  NoDup (f :: xs ++ c :: rest) ->
  pred_in (f :: c :: rest) n =
  if decide (n = c) then Some f else if decide (n ∈ xs) then None
  else pred_in (f :: xs ++ c :: rest) n.
Proof.
  intros HND. unfold pred_in.
  rewrite !reverse_cons, reverse_app, reverse_cons, <- !app_assoc. cbn [app].
  pose proof HND as [Hf (_ & Hdisj & [Hc _]%NoDup_cons)%NoDup_app]%NoDup_cons.
  rewrite elem_of_app, elem_of_cons in Hf.
  case_decide as Enc; [subst n; rewrite succ_in_split; [done|by rewrite elem_of_reverse]|].
  case_decide as Hin.
  { apply succ_in_None. rewrite elem_of_app, elem_of_reverse. specialize (Hdisj n Hin).
    set_solver. }
  destruct (decide (n ∈ reverse rest)).
  - by rewrite (succ_in_elem_l _ _ [f]), (succ_in_elem_l _ _ (reverse xs ++ [f])).
  - rewrite !succ_in_app_r by done. simpl. rewrite !(decide_False (P := c = n)) by done.
    rewrite succ_in_app_r by (by rewrite elem_of_reverse). done.
Qed.

Lemma nodes_of_snoc l : exists L1, FakeHead :: (Blk <$> l) = L1 ++ [default FakeHead (Blk <$> last l)].
Proof.
  destruct (chain_snoc FakeHead (Blk <$> l)) as [C EC]. exists C. by rewrite EC, fmap_last.
Qed.

(** * Refinement: the pointer operations compute the list operations *)

Lemma nodes_of_cons i l : nodes_of (i :: l) = FakeHead :: Blk i :: (Blk <$> l) ++ [FakeTail].
Proof. done. Qed.

Lemma pred_in_None L x : x ∉ L -> pred_in L x = None.
Proof. intros H. apply succ_in_None. by rewrite elem_of_reverse. Qed.

(** The successor of the head sentinel is the front of the queue. *)
Lemma repr_front q l :
  queue_repr q l -> next_of (qheap q) FakeHead = Some (default FakeTail (Blk <$> head l)).
Proof. intros [Hn _ _ _ _]. rewrite Hn. by destruct l. Qed.

(** The predecessor of the tail sentinel is the back of the queue. *)
Lemma repr_back q l :
  queue_repr q l -> prev_of (qheap q) FakeTail = Some (default FakeHead (Blk <$> last l)).
Proof.
  intros [_ Hp _ _ _]. rewrite Hp. unfold pred_in, nodes_of.
  rewrite reverse_cons, reverse_app. simpl.
  destruct l as [|x l' _] using rev_ind; [done|].
  rewrite last_snoc, fmap_app, reverse_app. done.
Qed.

(** Both neighbours of a queued block exist. *)
Lemma repr_around q l1 i l2 :
  queue_repr q (l1 ++ i :: l2) ->
  exists a b, prev_of (qheap q) (Blk i) = Some a /\ next_of (qheap q) (Blk i) = Some b /\
    pred_in (nodes_of (l1 ++ i :: l2)) (Blk i) = Some a /\
    succ_in (nodes_of (l1 ++ i :: l2)) (Blk i) = Some b.
Proof.
  intros [Hn Hp Hnd _ _]. pose proof (NoDup_nodes_of _ Hnd) as HND.
  destruct (nodes_of_around l1 i l2) as (L1 & a & b & L2 & E1 & _).
  exists a, b. rewrite Hn, Hp, E1 in *. auto using succ_in_mid, pred_in_mid.
Qed.

(** Unlinking a queued block: the four writes [popleft] and [remove] share. *)
Lemma unlink_repr q l1 i l2 a b :
  queue_repr q (l1 ++ i :: l2) ->
  pred_in (nodes_of (l1 ++ i :: l2)) (Blk i) = Some a ->
  succ_in (nodes_of (l1 ++ i :: l2)) (Blk i) = Some b ->
  let h := set_prev b (Some a) (set_next a (Some b) (qheap q)) in
  let h := set_next (Blk i) None (set_prev (Blk i) None h) in
  queue_repr (mkQ h (num_free_blocks q - 1)) (l1 ++ l2) /\ heap_frame (qheap q) h.
Proof.
  intros [Hn Hp Hnd Hdom Hnum] Ha Hb. simpl.
  pose proof (NoDup_nodes_of _ Hnd) as HND.
  destruct (nodes_of_around l1 i l2) as (L1 & a' & b' & L2 & E1 & E2).
  rewrite E1 in *.
  rewrite succ_in_mid in Hb by done. rewrite pred_in_mid in Ha by done.
  injection Ha as ->. injection Hb as ->.
  assert (is_Some (qheap q !! a) /\ is_Some (qheap q !! b) /\ is_Some (qheap q !! Blk i))
    as (Sa & Sb & Si) by (repeat split; apply Hdom; set_solver).
  split; [|auto 10 with links].
  split; cbn [qheap num_free_blocks].
  - intros n. rewrite E2, (succ_in_unlink _ _ (Blk i)) by done. links.
  - intros n. rewrite E2, (pred_in_unlink _ _ (Blk i)) by done. links.
  - rewrite <- Permutation_middle in Hnd. by apply NoDup_cons in Hnd as [_ ?].
  - intros n. rewrite E2. autorewrite with links. intros. apply Hdom. set_solver.
  - rewrite Hnum, !length_app. simpl. lia.
Qed.

Module FreeQueueFacts.
Import FreeKVCacheBlockQueue.

Lemma popleft_cons q i l :
  queue_repr q (i :: l) ->
  exists q', popleft q = Ok (Blk i, q') /\ queue_repr q' l /\ heap_frame (qheap q) (qheap q').
Proof.
  intros R. pose proof (repr_front _ _ R) as E. simpl in E.
  destruct (repr_around q [] i l R) as (a & b & _ & Eb & Ea' & Eb').
  cbn [app] in Ea', Eb'.
  assert (a = FakeHead) as ->.
  { pose proof (NoDup_nodes_of _ (qr_nodup _ _ R)) as HND. rewrite nodes_of_cons in HND.
    rewrite nodes_of_cons, pred_in_second in Ea'; [congruence|].
    by apply NoDup_cons in HND as [_ [? _]%NoDup_cons]. }
  destruct (unlink_repr q [] i l FakeHead b R Ea' Eb') as [R' F].
  exists (mkQ (set_next (Blk i) None (set_prev (Blk i) None
    (set_prev b (Some FakeHead) (set_next FakeHead (Some b) (qheap q))))) (num_free_blocks q - 1)).
  unfold popleft. rewrite E, Eb. done.
Qed.

Lemma popleft_nil q : queue_repr q [] -> popleft q = Err ValueError.
Proof.
  intros R. pose proof (repr_front _ _ R) as E. simpl in E.
  unfold popleft. rewrite E, (qr_num _ _ R). done.
Qed.

Lemma remove_repr q l1 i l2 :
  queue_repr q (l1 ++ i :: l2) ->
  exists q', remove (Blk i) q = Ok q' /\ queue_repr q' (l1 ++ l2) /\
    heap_frame (qheap q) (qheap q').
Proof.
  intros R. destruct (repr_around _ _ _ _ R) as (a & b & Ea & Eb & Ea' & Eb').
  destruct (unlink_repr _ _ _ _ _ _ R Ea' Eb') as [R' F].
  unfold remove. rewrite Ea, Eb. eauto.
Qed.

(** Removing a block that is not queued is detected. *)
Lemma remove_absent q l i : queue_repr q l -> i ∉ l -> remove (Blk i) q = Err RuntimeError.
Proof.
  intros [_ Hp _ _ _] Hi. unfold remove.
  rewrite Hp, pred_in_None; [done|]. by rewrite elem_of_nodes_of.
Qed.

(** ** [append] and [append_n] *)

(** What the loop of [append_n] does to the links: it threads the chain
    [last :: bs] through the store and touches nothing else. *)
Lemma append_steps bs x h :
  NoDup (x :: bs) -> (forall n, n ∈ x :: bs -> is_Some (h !! n)) ->
  let '(y, h') := fold_left append_step bs (x, h) in
  y = default x (last bs) /\ heap_frame h h' /\
  (forall n, is_Some (h' !! n) <-> is_Some (h !! n)) /\
  (forall n, next_of h' n = match succ_in (x :: bs) n with Some z => Some z | None => next_of h n end) /\
  (forall n, prev_of h' n = match pred_in (x :: bs) n with Some z => Some z | None => prev_of h n end).
Proof.
  revert x h. induction bs as [|b bs IH]; intros x h Hnd Hdom.
  { simpl. split_and!; [done|reflexivity|done| |]; intros n; unfold pred_in; simpl; by case_decide. }
  pose proof Hnd as [Hx Hnd']%NoDup_cons.
  set (h1 := set_next x (Some b) (set_prev b (Some x) h)).
  assert (Hdom1 : forall n, is_Some (h1 !! n) <-> is_Some (h !! n)).
  { intros n. unfold h1. by autorewrite with links. }
  change (fold_left append_step (b :: bs) (x, h)) with (fold_left append_step bs (b, h1)).
  assert (Hdb : forall n, n ∈ b :: bs -> is_Some (h1 !! n)).
  { intros n Hn. apply Hdom1, Hdom. set_solver. }
  specialize (IH b h1 Hnd' Hdb).
  destruct (fold_left append_step bs (b, h1)) as [y h'].
  destruct IH as (Hy & Hf & Hd & Hnx & Hpv).
  assert (is_Some (h !! x) /\ is_Some (h !! b)) as [Sx Sb] by (split; apply Hdom; set_solver).
  split_and!.
  - rewrite Hy, last_cons. by destruct (last bs).
  - etrans; [|exact Hf]. unfold h1. auto with links.
  - intros n. by rewrite Hd, Hdom1.
  - intros n. rewrite Hnx. change (succ_in (x :: b :: bs) n) with
      (if decide (x = n) then Some b else succ_in (b :: bs) n).
    destruct (decide (x = n)) as [<-|].
    + rewrite succ_in_None by done. unfold h1. links.
    + destruct (succ_in (b :: bs) n); [done|]. unfold h1. links.
  - intros n. rewrite Hpv. unfold pred_in. rewrite !reverse_cons, <- app_assoc. simpl.
    rewrite (succ_in_glue (reverse bs) b [x]); cycle 1.
    { apply NoDup_reverse_1 in Hnd. rewrite !reverse_cons, <- app_assoc in Hnd. done. }
    apply NoDup_cons in Hnd' as [Hb _].
    change (succ_in [b; x] n) with (if decide (b = n) then Some x else if decide (x = n) then None else None).
    destruct (decide (b = n)) as [<-|].
    + rewrite succ_in_split by (by rewrite elem_of_reverse). simpl. unfold h1. links.
    + assert (prev_of h1 n = prev_of h n) as -> by (unfold h1; links). by case_decide.
Qed.

(** [append_n] refines list append, for distinct blocks that are not queued. *)
Lemma append_n_repr q l bs :
  queue_repr q l -> NoDup (l ++ bs) -> (forall i, i ∈ bs -> is_Some (qheap q !! Blk i)) ->
  exists q', append_n (Blk <$> bs) q = Ok q' /\ queue_repr q' (l ++ bs) /\
    heap_frame (qheap q) (qheap q').
Proof.
  intros R Hnd Hdom. unfold append_n.
  destruct (decide (bs = [])) as [->|Hbs].
  { exists q. rewrite app_nil_r. split_and!; [done..|reflexivity]. }
  rewrite bool_decide_false by (by destruct bs).
  rewrite (repr_back _ _ R). set (z := default FakeHead (Blk <$> last l)).
  destruct (nodes_of_snoc l) as (L1 & E1). fold z in E1.
  assert (E2 : nodes_of (l ++ bs) = L1 ++ z :: (Blk <$> bs) ++ [FakeTail]).
  { rewrite nodes_of_app, app_comm_cons, E1, <- app_assoc. done. }
  assert (E0 : nodes_of l = L1 ++ z :: [FakeTail]).
  { unfold nodes_of. by rewrite app_comm_cons, E1, <- app_assoc. }
  pose proof (NoDup_nodes_of _ Hnd) as HND. rewrite E2 in HND.
  assert (HNC : NoDup (z :: (Blk <$> bs))).
  { apply NoDup_app in HND as (_ & _ & HND). rewrite app_comm_cons in HND.
    by apply NoDup_app in HND as [? _]. }
  destruct R as [Hn Hp Hnd0 Hdom0 Hnum].
  pose proof (NoDup_nodes_of _ Hnd0) as HND0. rewrite E0 in HND0.
  pose proof (append_steps (Blk <$> bs) z (qheap q) HNC) as Hloop.
  destruct (fold_left append_step (Blk <$> bs) (z, qheap q)) as [y h'].
  destruct Hloop as (Hy & Hf & Hd & Hnx & Hpv).
  { intros n [->|(i & -> & Hi)%list_elem_of_fmap]%elem_of_cons; [|auto].
    apply Hdom0. rewrite E0. set_solver. }
  assert (Hyin : y ∈ z :: (Blk <$> bs)).
  { destruct (chain_snoc z (Blk <$> bs)) as (C & ->). rewrite <- Hy. set_solver. }
  assert (is_Some (h' !! FakeTail) /\ is_Some (h' !! y)) as [St Sy].
  { split; apply Hd; [apply Hdom0; rewrite E0; set_solver|].
    apply elem_of_cons in Hyin as [->|(i & -> & Hi)%list_elem_of_fmap]; [|auto].
    apply Hdom0. rewrite E0. set_solver. }
  assert (HB : Blk <$> bs ≠ []) by (by destruct bs).
  eexists. split; [reflexivity|].
  split; [|simpl; eauto with links].
  split; cbn [qheap num_free_blocks].
  - intros n. autorewrite with links. by rewrite Hnx, Hn, E0, E2, succ_in_extend, <- Hy.
  - intros n. autorewrite with links. by rewrite Hpv, Hp, E0, E2, pred_in_extend, <- Hy.
  - done.
  - intros n. rewrite E2. autorewrite with links. rewrite Hd.
    rewrite elem_of_app, elem_of_cons, elem_of_app, list_elem_of_fmap.
    intros Hin. destruct Hin as [?|[?|[(i & -> & ?)|?]]]; [..|by apply Hdom|];
      apply Hdom0; rewrite E0; set_solver.
  - rewrite Hnum, length_app, length_fmap. lia.
Qed.

Lemma set_next_prev_comm x v y w (h : heap) :
  set_next x v (set_prev y w h) = set_prev y w (set_next x v h).
Proof.
  unfold set_next, set_prev. destruct (decide (x = y)) as [->|].
  - rewrite !alter_alter_eq. by apply alter_ext.
  - by apply alter_alter_ne.
Qed.

(** [append] is [append_n] of one block. *)
Lemma append_append_n b q :
  prev_of (qheap q) FakeTail ≠ None -> append b q = append_n [b] q.
Proof.
  intros H. unfold append, append_n. simpl. destruct (prev_of (qheap q) FakeTail) as [n|]; [|done].
  by rewrite (set_next_prev_comm n (Some b) b).
Qed.

Lemma append_repr q l i :
  queue_repr q l -> i ∉ l -> is_Some (qheap q !! Blk i) ->
  exists q', append (Blk i) q = Ok q' /\ queue_repr q' (l ++ [i]) /\
    heap_frame (qheap q) (qheap q').
Proof.
  intros R Hi Hd. rewrite append_append_n by (by rewrite (repr_back _ _ R)).
  apply (append_n_repr q l [i]); [done| |set_solver].
  rewrite Permutation_app_comm. apply NoDup_cons. split; [done|apply R].
Qed.

(** ** [popleft_n] *)

(** What the loop of [popleft_n] does: it collects the first [n] blocks, clears
    their links and stops at the node after them. *)
Lemma pop_steps xs c rest h ret k :
  NoDup (xs ++ c :: rest) ->
  (forall n, n ∈ xs -> next_of h n = succ_in (xs ++ c :: rest) n) ->
  exists h',
    foldM pop_step (seq k (length xs)) (ret, head (xs ++ [c]), h) = Ok (ret ++ xs, Some c, h') /\
    heap_frame h h' /\ (forall n, is_Some (h' !! n) <-> is_Some (h !! n)) /\
    (forall n, next_of h' n = if decide (n ∈ xs) then None else next_of h n) /\
    (forall n, prev_of h' n = if decide (n ∈ xs) then None else prev_of h n).
Proof.
  revert h ret k. induction xs as [|x xs IH]; intros h ret k Hnd Hnx.
  { exists h. rewrite app_nil_r. split_and!; [done|reflexivity|done|..];
      intros n; by rewrite decide_False by set_solver. }
  pose proof Hnd as [Hx Hnd']%NoDup_cons.
  assert (Ex : next_of h x = head (xs ++ [c])).
  { rewrite Hnx by set_solver. simpl. rewrite decide_True by done. by destruct xs. }
  assert (Sx : is_Some (h !! x)).
  { destruct (next_of h x) eqn:E; [by eapply next_of_is_Some|]. by destruct xs. }
  set (h1 := set_next x None (set_prev x None h)).
  assert (Hnx1 : forall n, n ∈ xs -> next_of h1 n = succ_in (xs ++ c :: rest) n).
  { intros n Hn. assert (x ≠ n) by set_solver. unfold h1. links.
    rewrite Hnx by set_solver. simpl. by rewrite decide_False. }
  destruct (IH h1 (ret ++ [x]) (S k) Hnd' Hnx1) as (h' & E & F & D & N & P).
  exists h'. split.
  { simpl. rewrite Ex. fold h1. rewrite E, <- app_assoc. done. }
  split; [etrans; [|exact F]; unfold h1; auto with links|].
  split; [intros n; rewrite D; unfold h1; by autorewrite with links|].
  split; intros n; [rewrite N|rewrite P]; unfold h1.
  - destruct (decide (n ∈ xs)); [by rewrite decide_True by set_solver|]. links; set_solver.
  - destruct (decide (n ∈ xs)); [by rewrite decide_True by set_solver|]. links; set_solver.
Qed.

(** [popleft_n] refines [take] and [drop]. *)
Lemma popleft_n_repr q l n :
  queue_repr q l -> (n <= length l)%nat ->
  exists q', popleft_n (Z.of_nat n) q = Ok (Blk <$> take n l, q') /\
    queue_repr q' (drop n l) /\ heap_frame (qheap q) (qheap q').
Proof.
  intros R Hle. unfold popleft_n. destruct (decide (n = 0%nat)) as [->|Hn0].
  { exists q. rewrite drop_0. split_and!; [done..|reflexivity]. }
  rewrite (proj2 (Z.eqb_neq _ _)) by lia.
  pose proof (repr_front _ _ R) as Ehd. destruct R as [Hn Hp Hnd Hdom Hnum].
  rewrite (proj2 (Z.leb_le _ _)) by lia. simpl. rewrite Nat2Z.id, Ehd.
  pose proof (NoDup_nodes_of _ Hnd) as HND.
  set (xs := Blk <$> take n l).
  assert (exists c rest, (Blk <$> drop n l) ++ [FakeTail] = c :: rest) as (c & rest & Ec).
  { destruct (drop n l); eexists _, _; reflexivity. }
  assert (EL : nodes_of l = FakeHead :: xs ++ c :: rest).
  { unfold nodes_of, xs. rewrite <- Ec, app_assoc, <- fmap_app, take_drop. done. }
  assert (EL' : nodes_of (drop n l) = FakeHead :: c :: rest) by (unfold nodes_of; by rewrite Ec).
  rewrite EL in HND. pose proof HND as [Hh HND']%NoDup_cons.
  pose proof (pop_steps xs c rest (qheap q) [] 0 HND') as Hloop.
  replace (length xs) with n in Hloop by (unfold xs; rewrite length_fmap, length_take; lia).
  replace (Some (default FakeTail (Blk <$> head l))) with (head (xs ++ [c])); cycle 1.
  { unfold xs. destruct n, l; simpl in *; try lia; done. }
  destruct Hloop as (h' & -> & F & D & N & P).
  { intros m Hm. rewrite Hn, EL. simpl. rewrite decide_False by set_solver. done. }
  cbn [app]. apply NoDup_app in HND' as (_ & Hdisj & _).
  assert (Hc : c ∉ xs) by set_solver. assert (Hfh : FakeHead ∉ xs) by set_solver.
  assert (is_Some (h' !! FakeHead) /\ is_Some (h' !! c)) as [Sh Sc].
  { split; apply D, Hdom; rewrite EL; set_solver. }
  eexists. split; [reflexivity|]. split; [|simpl; eauto with links].
  split; cbn [qheap num_free_blocks].
  - intros m. autorewrite with links. rewrite EL', N, Hn, EL. simpl.
    destruct (decide (m = FakeHead)) as [->|]; [by rewrite decide_True|].
    rewrite !(decide_False (P := FakeHead = m)) by done.
    case_decide.
    + symmetry. apply (succ_in_None (c :: rest)). auto.
    + by rewrite succ_in_app_r.
  - intros m. autorewrite with links. rewrite EL', P, Hp, EL.
    rewrite (pred_in_drop FakeHead xs c rest) by done. done.
  - rewrite <- (take_drop n l) in Hnd. by apply NoDup_app in Hnd as (_ & _ & ?).
  - intros m Hm. autorewrite with links. apply D, Hdom. rewrite EL. rewrite EL' in Hm. set_solver.
  - rewrite Hnum, length_drop. lia.
Qed.

(** Asking for more blocks than are free is detected. *)
Lemma popleft_n_short q l n :
  queue_repr q l -> Z.of_nat (length l) < n -> popleft_n n q = Err AssertionError.
Proof.
  intros R Hlt. unfold popleft_n. rewrite (qr_num _ _ R).
  rewrite (proj2 (Z.eqb_neq _ _)), (proj2 (Z.leb_gt _ _)) by lia. done.
Qed.

(** ** [get_all_free_blocks] *)

Lemma collect_chain xs h fuel :
  NoDup (xs ++ [FakeTail]) ->
  (forall n, n ∈ xs ++ [FakeTail] -> next_of h n = succ_in (xs ++ [FakeTail]) n) ->
  (length xs < fuel)%nat ->
  collect fuel h (default FakeTail (head xs)) = Some xs.
Proof.
  revert fuel. induction xs as [|x xs IH]; intros fuel Hnd Hnx Hf; destruct fuel; simpl in *; try lia.
  - rewrite Hnx by set_solver. simpl. done.
  - apply NoDup_cons in Hnd as [Hx Hnd]. rewrite Hnx by set_solver. simpl.
    rewrite decide_True by done.
    replace (head (xs ++ [FakeTail])) with (Some (default FakeTail (head xs))) by (by destruct xs).
    rewrite IH; [done..| |lia].
    intros n Hn. rewrite Hnx by set_solver. simpl. rewrite decide_False by set_solver. done.
Qed.

(** The traversal terminates and returns the queue in order. *)
Lemma get_all_free_blocks_repr q l fuel :
  queue_repr q l -> (length l < fuel)%nat ->
  get_all_free_blocks fuel q = Ok (Some (Blk <$> l)).
Proof.
  intros R Hf. unfold get_all_free_blocks. rewrite (repr_front _ _ R).
  replace (default FakeTail (Blk <$> head l)) with (default FakeTail (head (Blk <$> l)))
    by (by destruct l).
  pose proof (NoDup_nodes_of _ (qr_nodup _ _ R)) as [Hh HND]%NoDup_cons.
  rewrite collect_chain; [done|done| |by rewrite length_fmap].
  intros n Hn. rewrite (qr_next _ _ R). unfold nodes_of. simpl.
  rewrite decide_False by set_solver. done.
Qed.

(** ** [__init__] *)

Lemma link_consecutive_links n h :
  (forall i, (i < n)%nat -> is_Some (h !! Blk i)) ->
  let h' := link_consecutive n h in
  heap_frame h h' /\ (forall m, is_Some (h' !! m) <-> is_Some (h !! m)) /\
  (forall m, prev_of h' m = match m with
     | Blk i => if decide (i < n /\ 0 < i)%nat then Some (Blk (i - 1)) else prev_of h m
     | _ => prev_of h m end) /\
  (forall m, next_of h' m = match m with
     | Blk i => if decide (S i < n)%nat then Some (Blk (i + 1)) else next_of h m
     | _ => next_of h m end).
Proof.
  intros Hdom.
  set (P := fun (pre : list nat) (h' : heap) =>
    heap_frame h h' /\ (forall m, is_Some (h' !! m) <-> is_Some (h !! m)) /\
    (forall m, prev_of h' m = match m with
       | Blk i => if decide (i ∈ pre /\ 0 < i)%nat then Some (Blk (i - 1)) else prev_of h m
       | _ => prev_of h m end) /\
    (forall m, next_of h' m = match m with
       | Blk i => if decide (i ∈ pre /\ S i < n)%nat then Some (Blk (i + 1)) else next_of h m
       | _ => next_of h m end)).
  assert (HP : P (seq 0 n) (link_consecutive n h)).
  { unfold link_consecutive. apply fold_left_inv.
    - split_and!; [reflexivity|done|..]; intros []; try done;
        by rewrite decide_False by (intros [?%elem_of_nil _]; done).
    - intros pre i post s E (F & D & Pv & Nx).
      assert (Hi : (i < n)%nat).
      { assert (i ∈ seq 0 n) by (rewrite E; set_solver). apply elem_of_seq in H. lia. }
      assert (Si : is_Some (s !! Blk i)) by (by apply D, Hdom).
      set (s1 := if (0 <? i)%nat then _ else _).
      assert (H1 : heap_frame s s1 /\ (forall m, is_Some (s1 !! m) <-> is_Some (s !! m)) /\
        (forall m, next_of s1 m = next_of s m) /\
        (forall m, prev_of s1 m = if decide (m = Blk i /\ 0 < i)%nat
                                  then Some (Blk (i - 1)) else prev_of s m)).
      { unfold s1. destruct (Nat.ltb_spec 0 i).
        - split_and!; [auto with links|intros; by autorewrite with links..|].
          intros m. autorewrite with links. repeat case_decide; naive_solver.
        - split_and!; [reflexivity|done..|]. intros m. rewrite decide_False; [done|lia]. }
      destruct H1 as (F1 & D1 & N1 & P1).
      destruct (Z.ltb_spec (Z.of_nat i) (Z.of_nat n - 1)) as [Hlt|Hge].
      + split_and!; [etrans; [|apply heap_frame_set_next]; by etrans| | |].
        * intros m. autorewrite with links. by rewrite D1.
        * intros [| |j]; autorewrite with links; rewrite P1, Pv; repeat case_decide; try done; set_solver.
        * assert (is_Some (s1 !! Blk i)) by (by apply D1).
          intros [| |j]; autorewrite with links; rewrite N1, Nx; repeat case_decide; simplify_eq; try done; set_solver by lia.
      + split_and!; [by etrans| | |].
        * intros m. by rewrite D1.
        * intros [| |j]; rewrite P1, Pv; repeat case_decide; try done; set_solver.
        * intros [| |j]; rewrite N1, Nx; repeat case_decide; try done; set_solver by lia. }
  destruct HP as (F & D & Pv & Nx). split_and!; [done..| |].
  - intros m. rewrite Pv. destruct m as [| |i]; [done..|].
    apply decide_ext. rewrite elem_of_seq. lia.
  - intros m. rewrite Nx. destruct m as [| |i]; [done..|].
    apply decide_ext. rewrite elem_of_seq. lia.
Qed.

(** Building the queue only writes links of real blocks. *)
Lemma init_payload n h i :
  option_relation same_payload (fun _ => False) (fun _ => False) (qheap (init n h) !! Blk i) (h !! Blk i).
Proof.
  assert (F1 : heap_frame h (link_consecutive n h)).
  { unfold link_consecutive. apply (fold_left_inv _ (fun _ s => heap_frame h s)); [reflexivity|].
    intros pre j post s _ Hs. repeat case_match; auto with links. }
  set (h2 := <[FakeHead := new_block (-1)]> (<[FakeTail := new_block (-1)]> (link_consecutive n h))).
  assert (F2 : heap_frame h2 (qheap (init n h))).
  { unfold init. fold h2. simpl. case_match; auto with links. }
  specialize (F1 (Blk i)). specialize (F2 (Blk i)). unfold h2 in F2. rewrite !lookup_insert_ne in F2 by done.
  destruct (h !! Blk i), (link_consecutive n h !! Blk i), (qheap (init n h) !! Blk i); try done.
  simpl in *. symmetry. by etrans.
Qed.

(** The link function of a freshly built queue, in closed form. *)
Definition init_succ (n : nat) (m : node) : option node :=
  match m with
  | FakeHead => Some (if decide (n = 0)%nat then FakeTail else Blk 0)
  | FakeTail => None
  | Blk i => if decide (S i < n)%nat then Some (Blk (i + 1))
             else if decide (S i = n)%nat then Some FakeTail else None
  end.

Definition init_pred (n : nat) (m : node) : option node :=
  match m with
  | FakeHead => None
  | FakeTail => Some (if decide (n = 0)%nat then FakeHead else Blk (n - 1))
  | Blk i => if decide (i < n)%nat then
               if decide (i = 0)%nat then Some FakeHead else Some (Blk (i - 1))
             else None
  end.

(** The nodes around block [i] of a fresh queue. *)
Lemma nodes_of_seq_split n i :
  (i < n)%nat ->
  exists L1 a b L2, nodes_of (seq 0 n) = L1 ++ a :: Blk i :: b :: L2 /\
    a = (if decide (i = 0)%nat then FakeHead else Blk (i - 1)) /\
    b = (if decide (S i < n)%nat then Blk (i + 1) else FakeTail).
Proof.
  intros Hi.
  assert (seq 0 n = seq 0 i ++ i :: seq (S i) (n - S i)) as ->.
  { transitivity (seq 0 (i + S (n - S i))); [f_equal; lia|]. by rewrite seq_app. }
  rewrite nodes_of_app. destruct (nodes_of_snoc (seq 0 i)) as (L1 & E1).
  rewrite app_comm_cons, E1, <- app_assoc.
  exists L1. eexists _. destruct (decide (S i < n)%nat).
  - replace (n - S i)%nat with (S (n - S (S i))) by lia. eexists _, _. simpl. split; [reflexivity|].
    split; [|f_equal; lia].
    destruct i as [|i]; [done|]. rewrite seq_S, last_snoc. simpl. f_equal. lia.
  - replace (n - S i)%nat with 0%nat by lia. eexists _, _. split; [reflexivity|].
    split; [|done].
    destruct i as [|i]; [done|]. rewrite seq_S, last_snoc. simpl. f_equal. lia.
Qed.

Lemma succ_in_seq n m : succ_in (nodes_of (seq 0 n)) m = init_succ n m.
Proof.
  pose proof (NoDup_nodes_of _ (NoDup_seq 0 n)) as HND.
  destruct m as [| |i]; simpl.
  - by destruct n.
  - apply NoDup_cons in HND as [_ (_ & Hd & _)%NoDup_app]. rewrite succ_in_split; [done|].
    intros (j & [=] & _)%list_elem_of_fmap.
  - destruct (decide (i < n)%nat).
    + destruct (nodes_of_seq_split n i) as (L1 & a & b & L2 & E & _ & ->); [done|].
      change (succ_in (nodes_of (seq 0 n)) (Blk i) = init_succ n (Blk i)).
      rewrite E in *. rewrite succ_in_mid by done. unfold init_succ. repeat case_decide; done || lia.
    + change (succ_in (nodes_of (seq 0 n)) (Blk i) = init_succ n (Blk i)).
      unfold init_succ. rewrite !decide_False by lia. apply succ_in_None.
      rewrite elem_of_nodes_of, elem_of_seq. lia.
Qed.

Lemma pred_in_seq n m : pred_in (nodes_of (seq 0 n)) m = init_pred n m.
Proof.
  pose proof (NoDup_nodes_of _ (NoDup_seq 0 n)) as HND.
  destruct m as [| |i].
  - unfold pred_in, nodes_of. rewrite reverse_cons. apply succ_in_split.
    rewrite elem_of_reverse, elem_of_app, list_elem_of_fmap. set_solver.
  - unfold pred_in, nodes_of. rewrite reverse_cons, reverse_app. simpl.
    destruct n as [|n]; [done|]. rewrite seq_S, fmap_app, reverse_app. simpl. do 2 f_equal. lia.
  - unfold init_pred. case_decide.
    + destruct (nodes_of_seq_split n i) as (L1 & a & b & L2 & E & -> & _); [done|].
      rewrite E in *. rewrite pred_in_mid by done. by case_decide.
    + apply pred_in_None. rewrite elem_of_nodes_of, elem_of_seq. lia.
Qed.

(** Arithmetic on block ids, from (in)equations between nodes. *)
Ltac node_lia :=
  first [lia
        |exfalso; match goal with H : Blk _ ≠ Blk _ |- _ => apply H; f_equal; lia end].

(** Building the queue over [n] fresh blocks queues them in id order. *)
Lemma init_repr n h :
  (forall i, (i < n)%nat -> h !! Blk i = Some (new_block (Z.of_nat i))) ->
  (forall m, prev_of h m = None /\ next_of h m = None) ->
  queue_repr (init n h) (seq 0 n).
Proof.
  intros Hnew Hno.
  destruct (link_consecutive_links n h) as (F & D & Pv & Nx).
  { intros i Hi. rewrite Hnew by done. eauto. }
  set (h1 := link_consecutive n h) in *.
  set (h2 := <[FakeHead := new_block (-1)]> (<[FakeTail := new_block (-1)]> h1)).
  assert (D2 : forall m, (exists i, m = Blk i /\ (i < n)%nat) \/ m = FakeHead \/ m = FakeTail ->
                         is_Some (h2 !! m)).
  { intros m Hm. unfold h2. rewrite !lookup_insert. repeat case_decide; eauto.
    destruct Hm as [(i & -> & Hi)|[?|?]]; [|done..]. apply D. rewrite Hnew by done. eauto. }
  assert (P2 : forall m, prev_of h2 m = match m with Blk i => prev_of h1 m | _ => None end).
  { intros m. unfold prev_of, h2. rewrite !lookup_insert. by destruct m; repeat case_decide. }
  assert (N2 : forall m, next_of h2 m = match m with Blk i => next_of h1 m | _ => None end).
  { intros m. unfold next_of, h2. rewrite !lookup_insert. by destruct m; repeat case_decide. }
  unfold init. fold h1 h2.
  destruct (Nat.ltb_spec 0 n).
  - assert (is_Some (h2 !! FakeHead) /\ is_Some (h2 !! FakeTail) /\ is_Some (h2 !! Blk 0) /\
      is_Some (h2 !! Blk (n - 1))) as (? & ? & ? & ?).
    { split_and!; apply D2; eauto; left; eexists; split; [reflexivity|lia]. }
    split; cbn [qheap num_free_blocks].
    + intros m. rewrite succ_in_seq. autorewrite with links. rewrite N2.
      destruct m as [| |i]; simpl; repeat case_decide; simplify_eq/=; try done; try node_lia;
        rewrite Nx, (proj2 (Hno _)); repeat case_decide; done || node_lia.
    + intros m. rewrite pred_in_seq. autorewrite with links. rewrite P2.
      destruct m as [| |i]; simpl; repeat case_decide; simplify_eq/=; try done; try node_lia;
        rewrite Pv, (proj1 (Hno _)); repeat case_decide; done || node_lia.
    + apply NoDup_seq.
    + intros m Hm. autorewrite with links. apply D2. destruct m as [| |i]; auto.
      left. exists i. apply elem_of_nodes_of, elem_of_seq in Hm. split; [done|lia].
    + by rewrite length_seq.
  - assert (n = 0)%nat as -> by lia. assert (is_Some (h2 !! FakeHead) /\ is_Some (h2 !! FakeTail))
      as [? ?] by (split; apply D2; auto).
    split; cbn [qheap num_free_blocks].
    + intros m. rewrite succ_in_seq. autorewrite with links. rewrite N2.
      destruct m as [| |i]; simpl; repeat case_decide; simplify_eq/=; try done; try lia.
      rewrite Nx, (proj2 (Hno _)). repeat case_decide; done || lia.
    + intros m. rewrite pred_in_seq. autorewrite with links. rewrite P2.
      destruct m as [| |i]; simpl; repeat case_decide; simplify_eq/=; try done; try lia.
      rewrite Pv, (proj1 (Hno _)). repeat case_decide; done || lia.
    + apply NoDup_seq.
    + intros m Hm. autorewrite with links. apply D2. destruct m as [| |i]; auto.
      apply elem_of_nodes_of, elem_of_seq in Hm. lia.
    + done.
Qed.
End FreeQueueFacts.

(** * The queue as an abstract data type *)
Module FreeQueueSpec.
Import FreeKVCacheBlockQueue FreeQueueFacts.

(** The calls a client makes, and the list-level specification of each: the
    blocks returned and the queue afterwards, or the exception raised. *)
Inductive qop :=
| OpPopleft
| OpPopleftN (n : nat)
| OpRemove (i : nat)
| OpAppend (i : nat)
| OpAppendN (is_ : list nat).

Definition run_op (o : qop) (q : qstate) : result (list node * qstate) :=
  match o with
  | OpPopleft => '(b, q) ← popleft q; Ok ([b], q)
  | OpPopleftN n => popleft_n (Z.of_nat n) q
  | OpRemove i => q ← remove (Blk i) q; Ok ([], q)
  | OpAppend i => q ← append (Blk i) q; Ok ([], q)
  | OpAppendN l => q ← append_n (Blk <$> l) q; Ok ([], q)
  end.

Definition spec_op (o : qop) (l : list nat) : result (list nat * list nat) :=
  match o with
  | OpPopleft => match l with [] => Err ValueError | i :: l => Ok ([i], l) end
  | OpPopleftN n =>
      if decide (n <= length l)%nat then Ok (take n l, drop n l) else Err AssertionError
  | OpRemove i =>
      if decide (i ∈ l) then Ok ([], filter (.≠ i) l) else Err RuntimeError
  | OpAppend i => Ok ([], l ++ [i])
  | OpAppendN is_ => Ok ([], l ++ is_)
  end.

(** A client only appends existing blocks that are not queued, each once. *)
Definition op_pre (o : qop) (l : list nat) (h : heap) : Prop :=
  match o with
  | OpAppend i => (i ∉ l) /\ is_Some (h !! Blk i)
  | OpAppendN is_ => NoDup (l ++ is_) /\ forall i, i ∈ is_ -> is_Some (h !! Blk i)
  | _ => True
  end.

Definition op_refines (q : qstate) (l : list nat) (o : qop) : Prop :=
  match spec_op o l with
  | Ok (r, l') => exists q', run_op o q = Ok (Blk <$> r, q') /\ queue_repr q' l' /\
                    heap_frame (qheap q) (qheap q')
  | Err e => run_op o q = Err e
  end.

(** C7: every operation of the linked free list ([popleft], [popleft_n],
    [remove], [append], [append_n]) computes the corresponding operation on the
    list of queued ids, raises exactly when that operation is undefined, and
    changes no attribute of any block other than its two links. *)
Theorem free_queue_refines q l o :
  queue_repr q l -> op_pre o l (qheap q) -> op_refines q l o.
Proof.
  intros R Hpre. unfold op_refines. destruct o as [|n|i|i|is_]; simpl in *.
  - destruct l as [|i l].
    + by rewrite (popleft_nil _ R).
    + destruct (popleft_cons _ _ _ R) as (q' & -> & ? & ?). simpl. eauto.
  - case_decide.
    + by apply popleft_n_repr.
    + apply (popleft_n_short q l); [done|lia].
  - case_decide as Hi.
    + apply list_elem_of_split in Hi as (l1 & l2 & ->).
      destruct (remove_repr _ _ _ _ R) as (q' & -> & R' & ?). exists q'. simpl.
      rewrite filter_app, filter_cons_False by auto.
      pose proof (qr_nodup _ _ R) as Hnd. rewrite <- Permutation_middle in Hnd.
      apply NoDup_cons in Hnd as [Hn _]. rewrite !filter_all by set_solver. auto.
    + by rewrite (remove_absent _ _ _ R).
  - destruct Hpre. destruct (append_repr q l i) as (q' & -> & ? & ?); [done..|]. simpl. eauto.
  - destruct Hpre. destruct (append_n_repr q l is_) as (q' & -> & ? & ?); [done..|]. simpl. eauto.
Qed.

(** The store of [[KVCacheBlock(idx) for idx in range(num_gpu_blocks)]]. *)
Definition block_store (n : nat) : heap :=
  list_to_map ((fun i => (Blk i, new_block (Z.of_nat i))) <$> seq 0 n).

Lemma block_store_lookup n m :
  block_store n !! m =
  match m with Blk i => if decide (i < n)%nat then Some (new_block (Z.of_nat i)) else None
             | _ => None end.
Proof.
  unfold block_store.
  assert (HND : NoDup ((fun i => (Blk i, new_block (Z.of_nat i))) <$> seq 0 n).*1).
  { rewrite <- list_fmap_compose. apply NoDup_fmap_2; [|apply NoDup_seq]. by intros ?? [=]. }
  assert (Hnone : forall m, (forall i, m = Blk i -> ~ (i < n)%nat) ->
    list_to_map (M := heap) ((fun i => (Blk i, new_block (Z.of_nat i))) <$> seq 0 n) !! m = None).
  { intros m' Hm. apply not_elem_of_list_to_map. rewrite <- list_fmap_compose, list_elem_of_fmap.
    intros (i & -> & Hi%elem_of_seq). apply (Hm i); [done|lia]. }
  destruct m as [| |i]; [by apply Hnone..|]. case_decide.
  - apply elem_of_list_to_map; [done|]. apply list_elem_of_fmap. exists i.
    rewrite elem_of_seq. split; [done|lia].
  - apply Hnone. by intros ? [= ->].
Qed.

Lemma block_store_repr n : queue_repr (init n (block_store n)) (seq 0 n).
Proof.
  apply init_repr.
  - intros i Hi. by rewrite block_store_lookup, decide_True.
  - intros m. unfold prev_of, next_of. rewrite block_store_lookup.
    destruct m; [done..|]. by case_decide.
Qed.

Lemma free_queue_refines_witness :
  op_refines (init 3 (block_store 3)) [0; 1; 2]%nat (OpRemove 1).
Proof. apply free_queue_refines; [apply (block_store_repr 3)|exact I]. Defined.
End FreeQueueSpec.
