(* ===== verification/Request.v ===== *)
(** Requests: the part of [src/vllm/v1/request.py] that the cache and the
    scheduler's bookkeeping read and write.

    A [Request] record carries the token lists, the multi-modal features, the
    LoRA adapter, the cache salt and the list of block hashes.  The block
    hasher, an optional callable stored in the Python object, is an argument of
    the operations that call it. *)
From S2P Require Import Prelude.
Local Open Scope Z_scope.

(** * Multi-modal inputs and LoRA adapters *)

(** [PlaceholderRange]. *)
Record PlaceholderRange := mkRange {
  offset : Z;
  length_ : Z;
  is_embed : option (list bool);
}.

(** [get_num_embeds]: the last entry of the cumulative sum of the mask. *)
Definition get_num_embeds (p : PlaceholderRange) : result Z :=
  match is_embed p with
  | None => Ok (length_ p)
  | Some mask =>
      if bool_decide (mask = []) then Err IndexError
      else Ok (Z.of_nat (length (filter (fun b => b = true) mask)))
  end.

(** [MultiModalFeatureSpec]: the identifier and the position. *)
Record MultiModalFeatureSpec := mkFeature {
  identifier : option string;
  mm_position : PlaceholderRange;
}.

(** [LoRARequest]. *)
Record LoRARequest := mkLoRA { lora_name : string; lora_int_id : Z }.

(** * Status *)

Inductive RequestStatus :=
| WAITING | WAITING_FOR_FSM | WAITING_FOR_REMOTE_KVS | WAITING_FOR_STREAMING_REQ
| RUNNING | PREEMPTED
| FINISHED_STOPPED | FINISHED_LENGTH_CAPPED | FINISHED_ABORTED | FINISHED_IGNORED
| FINISHED_ERROR.

#[export] Instance RequestStatus_eq_dec : EqDecision RequestStatus.
Proof. solve_decision. Defined.

(** The [enum.auto()] values. *)
Definition status_value (s : RequestStatus) : Z :=
  match s with
  | WAITING => 1 | WAITING_FOR_FSM => 2 | WAITING_FOR_REMOTE_KVS => 3
  | WAITING_FOR_STREAMING_REQ => 4 | RUNNING => 5 | PREEMPTED => 6
  | FINISHED_STOPPED => 7 | FINISHED_LENGTH_CAPPED => 8 | FINISHED_ABORTED => 9
  | FINISHED_IGNORED => 10 | FINISHED_ERROR => 11
  end.

(** [RequestStatus.is_finished]. *)
Definition status_is_finished (s : RequestStatus) : bool :=
  status_value PREEMPTED <? status_value s.

Inductive FinishReason := STOP | LENGTH | ABORT | ERROR.

(** [_FINISHED_REASON_MAP.get(status)]. *)
Definition get_finished_reason (s : RequestStatus) : option FinishReason :=
  match s with
  | FINISHED_STOPPED => Some STOP
  | FINISHED_LENGTH_CAPPED => Some LENGTH
  | FINISHED_ABORTED => Some ABORT
  | FINISHED_IGNORED => Some LENGTH
  | FINISHED_ERROR => Some ERROR
  | WAITING_FOR_STREAMING_REQ => Some STOP
  | _ => None
  end.

(** Every finished status has a finish reason. *)
Lemma finished_has_reason s : status_is_finished s = true -> is_Some (get_finished_reason s).
Proof. destruct s; simpl; done || eauto. Qed.

(** The fields of [SamplingParams] and [PoolingParams] the constructor reads;
    [sp_structured] is whether the parameters ask for structured output. *)
Record SamplingParams := mkSampling {
  sp_max_tokens : option Z;
  sp_structured : bool;
  sp_skip_reading : option bool;
}.
Record PoolingParams := mkPooling { pp_skip_reading : option bool }.

(** * The request object *)
Record Request := mkRequest {
  request_id : string;
  status : RequestStatus;
  max_tokens : Z;
  prompt_token_ids : option (list Z);
  (** one row of raw bytes per prompt position *)
  prompt_embeds : option (list bytes);
  num_prompt_tokens : Z;
  output_token_ids : list Z;
  all_token_ids : list Z;
  spec_token_ids : list Z;
  num_output_placeholders : Z;
  num_computed_tokens : Z;
  num_cached_tokens : Z;
  num_preemptions : Z;
  cache_salt : option string;
  mm_features : list MultiModalFeatureSpec;
  lora_request : option LoRARequest;
  skip_reading_prefix_cache : bool;
  block_hashes : list bytes;
}.

(** The attribute writes of [append_output_token_ids] and [update_block_hashes]. *)
Definition with_tokens (out all : list Z) (r : Request) : Request :=
  mkRequest (request_id r) (status r) (max_tokens r) (prompt_token_ids r) (prompt_embeds r)
    (num_prompt_tokens r) out all (spec_token_ids r) (num_output_placeholders r)
    (num_computed_tokens r) (num_cached_tokens r) (num_preemptions r) (cache_salt r)
    (mm_features r) (lora_request r) (skip_reading_prefix_cache r) (block_hashes r).
Definition with_block_hashes (hs : list bytes) (r : Request) : Request :=
  mkRequest (request_id r) (status r) (max_tokens r) (prompt_token_ids r) (prompt_embeds r)
    (num_prompt_tokens r) (output_token_ids r) (all_token_ids r) (spec_token_ids r)
    (num_output_placeholders r) (num_computed_tokens r) (num_cached_tokens r)
    (num_preemptions r) (cache_salt r) (mm_features r) (lora_request r)
    (skip_reading_prefix_cache r) hs.

(** The hasher stored in the object. *)
Definition hasher := (Request -> result (list bytes)).

(** [update_block_hashes]. *)
Definition update_block_hashes (block_hasher : option hasher) (r : Request) : result Request :=
  match block_hasher with
  | None => Ok r
  | Some f => new ← f r; Ok (with_block_hashes (block_hashes r ++ new) r)
  end.

(** [append_output_token_ids], on a list (an [int] is the one-element list). *)
Definition append_output_token_ids (block_hasher : option hasher) (token_ids : list Z)
    (r : Request) : result Request :=
  update_block_hashes block_hasher
    (with_tokens (output_token_ids r ++ token_ids) (all_token_ids r ++ token_ids) r).

(** [length_from_prompt_token_ids_or_embeds]. *)
Definition length_from_prompt_token_ids_or_embeds
    (toks : option (list Z)) (embeds : option (list bytes)) : result Z :=
  match toks, embeds with
  | None, None => Err ValueError
  | None, Some e => Ok (py_len e)
  | Some t, None => Ok (py_len t)
  | Some t, Some e => if py_len e =? py_len t then Ok (py_len t) else Err ValueError
  end.

(** [get_skip_reading_prefix_cache]. *)
Definition get_skip_reading_prefix_cache (sp : option SamplingParams) (pp : option PoolingParams) : bool :=
  match sp ≫= sp_skip_reading, pp ≫= pp_skip_reading with
  | Some b, _ => b
  | None, Some b => b
  | None, None => false
  end.

(** [__init__], for the attributes of the record. *)
Definition new_request (block_hasher : option hasher) (id : string)
    (sp : option SamplingParams) (pp : option PoolingParams)
    (toks : option (list Z)) (embeds : option (list bytes))
    (features : list MultiModalFeatureSpec) (lora : option LoRARequest)
    (salt : option string) : result Request :=
  '(st, mt) ← match pp, sp with
              | Some _, _ => Ok (WAITING, 1)
              | None, Some sp =>
                  match sp_max_tokens sp with
                  | None => Err AssertionError
                  | Some mt => Ok (if sp_structured sp then WAITING_FOR_FSM else WAITING, mt)
                  end
              | None, None => Err ValueError
              end;
  n ← length_from_prompt_token_ids_or_embeds toks embeds;
  let all := match toks with Some t => t | None => replicate (Z.to_nat n) 0 end in
  update_block_hashes block_hasher
    (mkRequest id st mt toks embeds n [] all [] 0 0 (-1) 0 salt features lora
       (get_skip_reading_prefix_cache sp pp) []).

(** The properties. *)
Definition num_tokens (r : Request) : Z := py_len (all_token_ids r).
Definition num_tokens_with_spec (r : Request) : Z :=
  py_len (all_token_ids r) + py_len (spec_token_ids r).
Definition num_output_tokens (r : Request) : Z := py_len (output_token_ids r).
Definition num_encoder_inputs (r : Request) : Z := py_len (mm_features r).
Definition has_encoder_inputs (r : Request) : bool := 0 <? num_encoder_inputs r.

(** [get_num_encoder_embeds]. *)
Definition get_num_encoder_embeds (input_id : Z) (r : Request) : result Z :=
  _ ← py_assert (input_id <? py_len (mm_features r));
  f ← py_index (mm_features r) input_id;
  get_num_embeds (mm_position f).
