(* ===== verification/BlockHash.v ===== *)
(** Block hashes: [src/vllm/v1/core/kv_cache_utils.py], the packing of a hash
    with its cache-group id, the extra hash keys of a request, the chained hash
    of the full blocks of a request and its incremental computation, and the
    view of a hash list at a coarser block size.

    The hash function ([sha256] and its variants, passed to the hasher as a
    callable) is a parameter; what a theorem needs of it is a hypothesis of the
    section that states it. *)
From S2P Require Import Prelude Request.
Local Open Scope Z_scope.

(** * Hash keys with a group id *)

(** [make_block_hash_with_group_id]. *)
Definition make_block_hash_with_group_id (h : bytes) (group_id : Z) : result bytes :=
  g ← to_bytes_be 4 group_id; Ok (h ++ g).

(** [get_block_hash]: [key[:-4]]. *)
Definition get_block_hash (key : bytes) : bytes := py_slice key 0 (-4).

(** [get_group_id]: the big-endian number in [key[-4:]]. *)
Definition get_group_id (key : bytes) : Z := from_bytes_be (py_slice key (-4) (py_len key)).

(** [ExternalBlockHash]. *)
Inductive external_hash := ExtBytes (b : bytes) | ExtInt (n : Z).

(** [maybe_convert_block_hash]; [use_int] is [VLLM_KV_EVENTS_USE_INT_BLOCK_HASHES]. *)
Definition maybe_convert_block_hash (use_int : bool) (h : bytes) : external_hash :=
  if negb use_int then ExtBytes h
  else ExtInt (Z.land (from_bytes_be h) (Z.shiftl 1 64 - 1)).

(** * Extra keys *)

(** The values that occur in the tuple of extra keys: [str] or [bytes]. *)
Inductive extra_key := EStr (s : string) | EBytes (b : bytes).

Definition mm_end (f : MultiModalFeatureSpec) : Z :=
  offset (mm_position f) + length_ (mm_position f).

(** [need_extra_keys]. *)
Definition need_extra_keys (r : Request) : bool :=
  negb (bool_decide (mm_features r = []))
  || bool_decide (is_Some (lora_request r)) || bool_decide (is_Some (cache_salt r)).

(** The [while] loop of [_gen_mm_extra_hash_keys] on the features from the
    current index on: the keys it collects and how far the index advances. *)
Fixpoint mm_loop (start_ end_ : Z) (fs : list MultiModalFeatureSpec) :
    result (list extra_key * Z) :=
  match fs with
  | [] => Ok ([], 0)
  | f :: fs =>
      match identifier f with
      | None => Err AssertionError
      | Some id =>
          if offset (mm_position f) <? end_ then
            if mm_end f <? start_ then
              '(ks, n) ← mm_loop start_ end_ fs; Ok (ks, n + 1)
            else if mm_end f <=? end_ then
              '(ks, n) ← mm_loop start_ end_ fs; Ok (EStr id :: ks, n + 1)
            else Ok ([EStr id], 0)
          else Ok ([], 0)
      end
  end.

(** [_gen_mm_extra_hash_keys]. *)
Definition gen_mm_extra_hash_keys (r : Request) (start_ end_ start_mm_idx : Z) :
    result (list extra_key * Z) :=
  match last (mm_features r) with
  | None => Ok ([], start_mm_idx)
  | Some l =>
      if mm_end l <? start_ then Ok ([], start_mm_idx) else
      let n := py_len (mm_features r) in
      idx ← (if start_mm_idx <? 0
             then _ ← py_assert (- start_mm_idx <=? n); Ok (n + start_mm_idx)
             else Ok start_mm_idx);
      '(ks, adv) ← mm_loop start_ end_ (drop (Z.to_nat idx) (mm_features r));
      Ok (ks, idx + adv)
  end.

(** [_gen_lora_extra_hash_keys]. *)
Definition gen_lora_extra_hash_keys (r : Request) : list extra_key :=
  match lora_request r with None => [] | Some l => [EStr (lora_name l)] end.

(** [_gen_prompt_embeds_extra_hash_keys]: the raw bytes of the rows of the block. *)
Definition gen_prompt_embeds_extra_hash_keys (r : Request) (start_ end_ : Z) : list extra_key :=
  match prompt_embeds r with
  | None => []
  | Some rows => [EBytes (concat (py_slice rows start_ end_))]
  end.

(** The cache salt is a key of the first block only ([""] is falsy). *)
Definition cache_salt_keys (r : Request) (start_ : Z) : list extra_key :=
  match cache_salt r with
  | Some s => if (start_ =? 0) && negb (bool_decide (s = ""%string)) then [EStr s] else []
  | None => []
  end.

(** [generate_block_hash_extra_keys]. *)
Definition generate_block_hash_extra_keys (r : Request) (start_ end_ start_mm_idx : Z) :
    result (option (list extra_key) * Z) :=
  '(mm, idx) ← gen_mm_extra_hash_keys r start_ end_ start_mm_idx;
  let ks := gen_lora_extra_hash_keys r ++ mm ++ cache_salt_keys r start_
            ++ gen_prompt_embeds_extra_hash_keys r start_ end_ in
  Ok (if bool_decide (ks = []) then None else Some ks, idx).

(** * Chained hashing *)

Definition hash_input : Type := bytes * list Z * option (list extra_key).

Section Hasher.
Variable hash_function : hash_input -> bytes.
Variable NONE_HASH : bytes.
Variable block_size : Z.

(** [hash_block_tokens]: an absent or empty parent hash is the seed. *)
Definition hash_block_tokens (parent : option bytes) (toks : list Z)
    (extra : option (list extra_key)) : bytes :=
  let parent := match parent with None | Some [] => NONE_HASH | Some p => p end in
  hash_function (parent, toks, extra).

(** The [while True] loop of [request_block_hasher]. *)
Fixpoint hash_loop (fuel : nat) (r : Request) (start_ : Z) (prev : option bytes)
    (curr_mm_idx : Z) : result (list bytes) :=
  match fuel with
  | O => Err Diverges
  | S fuel =>
      let end_ := start_ + block_size in
      if num_tokens r <? end_ then Ok [] else
      '(extra, curr_mm_idx) ← generate_block_hash_extra_keys r start_ end_ curr_mm_idx;
      let h := hash_block_tokens prev (py_slice (all_token_ids r) start_ end_) extra in
      rest ← hash_loop fuel r end_ (Some h) curr_mm_idx;
      Ok (h :: rest)
  end.

(** [request_block_hasher]. *)
Definition request_block_hasher (r : Request) : result (list bytes) :=
  let start_ := py_len (block_hashes r) * block_size in
  if num_tokens r <? start_ + block_size then Ok [] else
  hash_loop (S (length (all_token_ids r))) r start_ (last (block_hashes r))
    (if 0 <? start_ then -1 else 0).
End Hasher.

(** * Hash lists at a coarser block size *)
Module BlockHashListWithBlockSize.

(** [__init__]. *)
Definition scale_factor (hash_block_size target_block_size : Z) : result Z :=
  _ ← py_assert (target_block_size mod hash_block_size =? 0);
  Ok (target_block_size / hash_block_size).

(** [__len__]. *)
Definition len (hs : list bytes) (scale : Z) : Z := py_len hs / scale.

(** [_get_value_at]. *)
Definition get_value_at (hs : list bytes) (scale idx : Z) : result bytes :=
  let base := idx * scale in
  let end_ := base + scale in
  h ← py_index hs base;
  foldM (fun merged i => h ← py_index hs i; Ok (merged ++ h)) (py_range (base + 1) end_) h.

(** [__getitem__] with the slice [start:]. *)
Definition get_from (hs : list bytes) (scale start_ : Z) : result (list bytes) :=
  mapR (get_value_at hs scale) (py_range (py_clamp (len hs scale) start_) (len hs scale)).

End BlockHashListWithBlockSize.

(** * Packing is invertible *)
Lemma make_key_Ok h g key :
  make_block_hash_with_group_id h g = Ok key ->
  0 <= g < 2 ^ 32 /\ key = h ++ be_bytes 4 g.
Proof.
  unfold make_block_hash_with_group_id, to_bytes_be.
  destruct (_ && _) eqn:E; [|done]. simpl. intros [= <-].
  apply andb_true_iff in E as [?%Z.leb_le ?%Z.ltb_lt]. split; [|done].
  change (256 ^ Z.of_nat 4) with (2 ^ 32) in *. lia.
Qed.

Lemma make_key_total h g :
  0 <= g < 2 ^ 32 -> make_block_hash_with_group_id h g = Ok (h ++ be_bytes 4 g).
Proof.
  intros Hg. unfold make_block_hash_with_group_id, to_bytes_be.
  change (256 ^ Z.of_nat 4) with (2 ^ 32).
  by rewrite (proj2 (Z.leb_le 0 g)), (proj2 (Z.ltb_lt g _)) by lia.
Qed.

Lemma get_block_hash_app h g : length g = 4%nat -> get_block_hash (h ++ g) = h.
Proof.
  intros Hg. unfold get_block_hash, py_slice, py_clamp. simpl. rewrite length_app, Hg.
  replace (Z.to_nat _) with (length h) by lia.
  rewrite Z.min_l by lia. by rewrite drop_0, take_app_length.
Qed.

Lemma get_group_id_app h g : length g = 4%nat -> get_group_id (h ++ g) = from_bytes_be g.
Proof.
  intros Hg. unfold get_group_id, py_slice, py_clamp, py_len. rewrite length_app, Hg.
  rewrite (proj2 (Z.ltb_ge _ 0)) by lia. change (-4 <? 0) with true. cbv iota.
  rewrite drop_app_length' by lia. rewrite take_ge by lia. done.
Qed.

(** packing a block hash with a group id loses nothing and is total exactly
    on 32-bit ids: the two projections recover both components (so distinct
    (hash, group) pairs never share a cache key), and any other id raises. *)
Theorem hash_key_roundtrip h g :
  match make_block_hash_with_group_id h g with
  | Ok key => 0 <= g < 2 ^ 32 /\ get_block_hash key = h /\ get_group_id key = g
              /\ (forall h' g', make_block_hash_with_group_id h' g' = Ok key -> h' = h /\ g' = g)
  | Err e => e = OverflowError /\ ~ 0 <= g < 2 ^ 32
  end.
Proof.
  destruct (make_block_hash_with_group_id h g) as [key|e] eqn:E.
  - apply make_key_Ok in E as [Hg ->].
    assert (G : forall h g, 0 <= g < 2 ^ 32 -> get_block_hash (h ++ be_bytes 4 g) = h /\
                            get_group_id (h ++ be_bytes 4 g) = g).
    { intros h0 g0 Hg0. rewrite get_block_hash_app, get_group_id_app by apply length_be_bytes.
      rewrite from_be_bytes; [done|]. done. }
    destruct (G h g Hg) as [E1 E2]. split_and!; [lia..|done|done|].
    intros h' g' [Hg' E]%make_key_Ok. destruct (G h' g' Hg') as [E1' E2'].
    rewrite E in *. by rewrite <- E1, <- E2, E1', E2'.
  - split.
    + unfold make_block_hash_with_group_id, to_bytes_be in E. destruct (_ && _); simplify_eq/=. done.
    + intros Hg. by rewrite (make_key_total h g Hg) in E.
Qed.

(** * The hash loop *)
Section HasherFacts.
Variable hash_function : hash_input -> bytes.
Variable NONE_HASH : bytes.
Variable block_size : Z.
Hypothesis block_size_pos : 0 < block_size.
Local Abbreviation loop := (hash_loop hash_function NONE_HASH block_size).
Local Abbreviation hash_tokens := (hash_block_tokens hash_function NONE_HASH).

(** Any fuel that covers the remaining blocks gives the same answer. *)
Lemma hash_loop_fuel f1 f2 r s p i :
  num_tokens r < s + Z.of_nat f1 * block_size ->
  num_tokens r < s + Z.of_nat f2 * block_size ->
  loop f1 r s p i = loop f2 r s p i \/ num_tokens r < s.
Proof.
  revert f2 s p i; induction f1 as [|f1 IH]; intros [|f2] s p i H1 H2; try (right; lia).
  simpl. destruct (Z.ltb_spec (num_tokens r) (s + block_size)); [by left|].
  destruct (generate_block_hash_extra_keys r s (s + block_size) i) as [[e j]|]; simpl; [|by left].
  destruct (IH f2 (s + block_size) (Some (hash_tokens p (py_slice (all_token_ids r) s (s + block_size)) e)) j)
    as [->|]; [lia..|by left|lia].
Qed.

Lemma hash_loop_fuel_eq f1 f2 r s p i :
  s <= num_tokens r ->
  num_tokens r < s + Z.of_nat f1 * block_size ->
  num_tokens r < s + Z.of_nat f2 * block_size ->
  loop f1 r s p i = loop f2 r s p i.
Proof. intros Hs H1 H2. destruct (hash_loop_fuel f1 f2 r s p i H1 H2); [done|lia]. Qed.

(** The features of a request never change while tokens are appended. *)
Definition same_inputs (r r' : Request) : Prop :=
  mm_features r = mm_features r' /\ lora_request r = lora_request r' /\
  cache_salt r = cache_salt r' /\ prompt_embeds r = prompt_embeds r'.

Lemma extra_keys_same_inputs r r' s e i :
  same_inputs r r' ->
  generate_block_hash_extra_keys r s e i = generate_block_hash_extra_keys r' s e i.
Proof.
  intros (E1 & E2 & E3 & E4).
  unfold generate_block_hash_extra_keys, gen_mm_extra_hash_keys, gen_lora_extra_hash_keys,
    cache_salt_keys, gen_prompt_embeds_extra_hash_keys.
  by rewrite E1, E2, E3, E4.
Qed.

Lemma slice_prefix {A} (l l' : list A) a b :
  0 <= a -> 0 <= b -> b <= py_len l -> py_slice (l ++ l') a b = py_slice l a b.
Proof.
  unfold py_len. intros. rewrite !py_slice_nonneg by lia.
  destruct (Z.le_gt_cases b a).
  - by replace (Z.to_nat (b - a)) with 0%nat by lia.
  - rewrite drop_app_le by lia. rewrite take_app_le; [done|]. rewrite length_drop. lia.
Qed.

(** Where the mm index stands after the loop has passed [e]: past the last
    feature only when that feature has ended. *)
Lemma mm_loop_adv s e fs ks n :
  mm_loop s e fs = Ok (ks, n) -> s <= e ->
  0 <= n <= py_len fs /\ (n = py_len fs -> forall l, last fs = Some l -> mm_end l <= e).
Proof.
  unfold py_len. revert ks n; induction fs as [|f fs IH]; intros ks n; simpl.
  - intros [= <- <-] _. split; [lia|done].
  - destruct (identifier f) as [id|]; [|done].
    assert (Stop : forall ks0, Ok (ks0, 0) = Ok (ks, n) -> 0 <= n <= Z.of_nat (S (length fs)) /\
      (n = Z.of_nat (S (length fs)) -> forall l, last (f :: fs) = Some l -> mm_end l <= e)).
    { intros ks0 [= _ <-]. split; lia. }
    assert (Go : forall ks0 n0, mm_loop s e fs = Ok (ks0, n0) -> n0 + 1 = n -> s <= e -> mm_end f <= e ->
      0 <= n <= Z.of_nat (S (length fs)) /\
      (n = Z.of_nat (S (length fs)) -> forall l, last (f :: fs) = Some l -> mm_end l <= e)).
    { intros ks0 n0 E <- Hse Hf. destruct (IH _ _ E Hse) as [? Hlast]. split; [lia|].
      intros Hn l. rewrite last_cons. destruct (last fs) eqn:El.
      - intros [= ->]. apply Hlast; [lia|done].
      - by intros [= <-]. }
    destruct (Z.ltb_spec (offset (mm_position f)) e); [|eauto].
    destruct (Z.ltb_spec (mm_end f) s); [|destruct (Z.leb_spec (mm_end f) e); [|eauto]];
      destruct (mm_loop s e fs) as [[ks0 n0]|]; try done; intros [= <- <-] Hse;
      (eapply Go; [reflexivity|done|done|lia]).
Qed.

(** Features that ended before the block are skipped. *)
Lemma mm_loop_skip s e fs1 fs2 :
  s <= e ->
  (forall f, f ∈ fs1 -> is_Some (identifier f) /\ 0 <= length_ (mm_position f) /\ mm_end f < s) ->
  mm_loop s e (fs1 ++ fs2) = ('(ks, n) ← mm_loop s e fs2; Ok (ks, n + py_len fs1)).
Proof.
  intros Hse. unfold py_len. induction fs1 as [|f fs1 IH]; intros Hfs.
  - simpl. destruct (mm_loop s e fs2) as [[ks n]|]; simpl; [|done]. by rewrite Z.add_0_r.
  - destruct (Hfs f) as ((id & Hid) & Hl & He); [set_solver|]. cbn [app mm_loop]. rewrite Hid.
    unfold mm_end in *. rewrite (proj2 (Z.ltb_lt _ e)) by lia. rewrite (proj2 (Z.ltb_lt _ s)) by lia.
    rewrite IH by set_solver. destruct (mm_loop s e fs2) as [[ks n]|]; simpl; [|done].
    do 2 f_equal. lia.
Qed.

(** * Resuming the hash of a request *)

(** When the hasher resumes at token [s] it looks at the last multi-modal
    feature only.  That agrees with hashing from scratch when every other
    feature ended before [s] and the last one does not end exactly at [s]. *)
Definition resume_ok (fs : list MultiModalFeatureSpec) (s : Z) : Prop :=
  forall l fs', fs = fs' ++ [l] ->
    mm_end l <> s /\
    forall f, f ∈ fs' -> is_Some (identifier f) /\ 0 <= length_ (mm_position f) /\ mm_end f < s.

Lemma gen_mm_past r s e i :
  (forall l, last (mm_features r) = Some l -> mm_end l < s) ->
  gen_mm_extra_hash_keys r s e i = Ok ([], i).
Proof.
  intros H. unfold gen_mm_extra_hash_keys. destruct (last (mm_features r)) as [l|]; [|done].
  by rewrite (proj2 (Z.ltb_lt _ _) (H l eq_refl)).
Qed.

(** The index [request_block_hasher] passes and the one a full run carries
    along are interchangeable. *)
Lemma gen_mm_resume r s e i :
  resume_ok (mm_features r) s -> s <= e ->
  0 <= i <= py_len (mm_features r) ->
  (i = py_len (mm_features r) -> forall l, last (mm_features r) = Some l -> mm_end l <= s) ->
  (exists ks j, gen_mm_extra_hash_keys r s e i = Ok (ks, j) /\ gen_mm_extra_hash_keys r s e (-1) = Ok (ks, j)
     /\ 0 <= j)
  \/ (exists x, gen_mm_extra_hash_keys r s e i = Err x /\ gen_mm_extra_hash_keys r s e (-1) = Err x)
  \/ forall l, last (mm_features r) = Some l -> mm_end l < s.
Proof.
  intros Hres Hse Hi Hlen.
  destruct (last (mm_features r)) as [l|] eqn:El; [|by right; right].
  destruct (Z.ltb_spec (mm_end l) s) as [Hlt|Hge]; [by right; right; intros ? [= <-]|].
  apply last_Some in El as (fs' & Efs). destruct (Hres _ _ Efs) as [Hne Hpre].
  assert (i < py_len (mm_features r)).
  { destruct (decide (i = py_len (mm_features r))) as [Ei|]; [|lia].
    specialize (Hlen Ei l eq_refl). lia. }
  assert (Hi' : (Z.to_nat i <= length fs')%nat).
  { rewrite Efs in *. unfold py_len in *. rewrite length_app in *. simpl in *. lia. }
  unfold gen_mm_extra_hash_keys. rewrite (proj2 (last_Some (mm_features r) l)) by eauto.
  rewrite (proj2 (Z.ltb_ge _ _) Hge), (proj2 (Z.ltb_ge i 0)) by lia. change (-1 <? 0) with true. cbv iota.
  assert (Hlen1 : py_len (mm_features r) = py_len fs' + 1).
  { rewrite Efs. unfold py_len. rewrite length_app. simpl. lia. }
  rewrite (proj2 (Z.leb_le (- -1) _)) by (unfold py_len in *; lia). simpl.
  rewrite Hlen1, Efs, drop_app_le by lia.
  rewrite (mm_loop_skip s e (drop (Z.to_nat i) fs')); [|done|].
  2:{ intros f Hf. apply Hpre. eapply elem_of_submseteq; [done|]. apply submseteq_drop. }
  rewrite (drop_app_length' fs') by (unfold py_len; lia).
  destruct (mm_loop s e [l]) as [[ks n]|x] eqn:E; simpl; [left|right; left; eauto].
  apply mm_loop_adv in E as [? _]; [|done].
  exists ks, (py_len fs' + 1 + -1 + n). split_and!; [|done|unfold py_len in *; lia].
  do 2 f_equal. unfold py_len. rewrite length_drop. lia.
Qed.

Lemma hash_loop_past f r s p i j :
  (forall l, last (mm_features r) = Some l -> mm_end l < s) ->
  loop f r s p i = loop f r s p j.
Proof.
  revert s p i j; induction f as [|f IH]; intros s p i j H; [done|]. simpl.
  destruct (_ <? _); [done|].
  unfold generate_block_hash_extra_keys. rewrite !gen_mm_past by done. simpl.
  erewrite IH; [reflexivity|]. intros l Hl. specialize (H l Hl). lia.
Qed.

(** The index invariant of a run: never past a feature that has not ended. *)
Definition mm_idx_ok (r : Request) (s i : Z) : Prop :=
  0 <= i <= py_len (mm_features r) /\
  (i = py_len (mm_features r) -> forall l, last (mm_features r) = Some l -> mm_end l <= s).

Lemma hash_loop_resume f r s p i :
  resume_ok (mm_features r) s -> mm_idx_ok r s i -> loop f r s p i = loop f r s p (-1).
Proof.
  intros Hres [Hi Hlen]. destruct f as [|f]; [done|]. 
  destruct (gen_mm_resume r s (s + block_size) i) as [(ks & j & E1 & E2 & _)|[(x & E1 & E2)|Hpast]];
    [done|lia|done|done|..|by apply hash_loop_past].
  all: simpl; unfold generate_block_hash_extra_keys; by rewrite E1, E2.
Qed.

Lemma gen_mm_idx_ok r s e i ks j :
  mm_idx_ok r s i -> s <= e -> gen_mm_extra_hash_keys r s e i = Ok (ks, j) -> mm_idx_ok r e j.
Proof.
  intros [Hi Hlen] Hse. unfold gen_mm_extra_hash_keys, mm_idx_ok.
  destruct (last (mm_features r)) as [l|] eqn:El; [|intros [= <- <-]; split; [done|by intros]].
  destruct (Z.ltb_spec (mm_end l) s).
  { intros [= <- <-]. split; [done|]. intros _ l' [= <-]. lia. }
  rewrite (proj2 (Z.ltb_ge i 0)) by lia. simpl.
  destruct (mm_loop s e _) as [[ks0 n]|] eqn:E; [|done]. simpl. intros [= <- <-].
  apply mm_loop_adv in E as [Hn Hlast]; [|done]. unfold py_len in *. rewrite length_drop in Hn, Hlast.
  split; [lia|]. intros Hj l' [= <-].
  destruct (decide (i = Z.of_nat (length (mm_features r)))) as [Ei|].
  - specialize (Hlen Ei l eq_refl). lia.
  - apply Hlast; [lia|]. by rewrite last_drop_lt by lia.
Qed.

(** Running over more tokens first recomputes the hashes of the shorter run. *)
Lemma hash_loop_extend f f2 r r' toks s p i hs :
  same_inputs r r' -> all_token_ids r' = all_token_ids r ++ toks ->
  0 <= s -> mm_idx_ok r s i -> loop f r s p i = Ok hs ->
  exists j g, mm_idx_ok r' (s + py_len hs * block_size) j /\ (f2 <= g)%nat /\
    loop (f + f2) r' s p i =
    (rest ← loop g r' (s + py_len hs * block_size) (last (option_list p ++ hs)) j; Ok (hs ++ rest)).
Proof.
  intros Hin Htok. assert (Hidx : forall s i, mm_idx_ok r s i <-> mm_idx_ok r' s i).
  { intros. unfold mm_idx_ok. by rewrite (proj1 Hin). }
  revert s p i hs; induction f as [|f IH]; intros s p i hs Hs Hi; [done|]. cbn [loop].
  destruct (Z.ltb_spec (num_tokens r) (s + block_size)) as [Hlt|Hge].
  - intros [= <-]. exists i, (S f + f2)%nat. rewrite Z.add_0_r. split_and!; [by apply Hidx|lia|].
    rewrite app_nil_r. replace (last (option_list p)) with p by by destruct p.
    by destruct (loop (S f + f2) r' s p i).
  - destruct (generate_block_hash_extra_keys r s (s + block_size) i) as [[ex j]|] eqn:Egen; [|done].
    simpl. set (h := hash_tokens p _ ex).
    destruct (loop f r (s + block_size) (Some h) j) as [hs'|] eqn:Eloop; [|done]. simpl. intros [= <-].
    assert (Hj : mm_idx_ok r (s + block_size) j).
    { unfold generate_block_hash_extra_keys in Egen.
      destruct (gen_mm_extra_hash_keys r s (s + block_size) i) as [[mm j']|] eqn:Emm; [|done].
      simpl in Egen. injection Egen as _ <-. eapply gen_mm_idx_ok; [exact Hi| |exact Emm]. lia. }
    destruct (IH (s + block_size) (Some h) j hs') as (k & g & Hk & Hg & E); [lia|done|done|].
    exists k, g. unfold py_len in *. simpl length.
    replace (s + Z.of_nat (S (length hs')) * block_size)
      with (s + block_size + Z.of_nat (length hs') * block_size) by lia.
    split_and!; [done|done|].
    rewrite (proj2 (Z.ltb_ge (num_tokens r') _)).
    2:{ unfold num_tokens, py_len in *. rewrite Htok, length_app. lia. }
    rewrite <- (extra_keys_same_inputs r r') by done. rewrite Egen. simpl.
    rewrite Htok, slice_prefix by (unfold num_tokens, py_len in *; lia). fold h.
    rewrite E. simpl. rewrite last_app. 
    replace (match last (h :: hs') with Some y => Some y | None => last (option_list p) end)
      with (last (h :: hs')) by by rewrite last_cons; destruct (last hs').
    by destruct (loop g r' _ _ k).
Qed.

Local Abbreviation hash_request := (request_block_hasher hash_function NONE_HASH block_size).

(** The early return of the hasher is the first test of its loop. *)
Lemma request_block_hasher_loop r :
  hash_request r =
  loop (S (length (all_token_ids r))) r (py_len (block_hashes r) * block_size)
    (last (block_hashes r)) (if 0 <? py_len (block_hashes r) * block_size then -1 else 0).
Proof. unfold request_block_hasher. cbn [hash_loop]. by destruct (_ <? _). Qed.

(** Only full blocks are hashed. *)
Lemma hash_loop_length f r s p i hs :
  s <= num_tokens r -> loop f r s p i = Ok hs -> s + py_len hs * block_size <= num_tokens r.
Proof.
  revert s p i hs; induction f as [|f IH]; intros s p i hs Hs; [done|]. simpl.
  destruct (Z.ltb_spec (num_tokens r) (s + block_size)); [intros [= <-]; unfold py_len; simpl; lia|].
  destruct (generate_block_hash_extra_keys _ _ _ _) as [[ex j]|]; [|done]. simpl.
  destruct (loop f r _ _ j) as [hs'|] eqn:E; [|done]. intros [= <-].
  apply IH in E; [|lia]. unfold py_len in *. simpl length. lia.
Qed.

Lemma request_block_hasher_fresh r :
  block_hashes r = [] -> hash_request r = loop (S (length (all_token_ids r))) r 0 None 0.
Proof. intros E. by rewrite request_block_hasher_loop, E. Qed.

(** The loop reads the tokens and the hash inputs of a request, nothing else. *)
Lemma hash_loop_ext f r r' s p i :
  same_inputs r r' -> all_token_ids r = all_token_ids r' -> loop f r s p i = loop f r' s p i.
Proof.
  intros Hin Ht. revert s p i; induction f as [|f IH]; intros s p i; [done|]. cbn [hash_loop].
  unfold num_tokens. rewrite Ht, (extra_keys_same_inputs r r') by done.
  destruct (_ <? _); [done|].
  destruct (generate_block_hash_extra_keys _ _ _ _) as [[ex j]|]; [|done]. simpl. by rewrite IH.
Qed.

(** Hashing a longer request from scratch, in terms of the shorter one. *)
Lemma hash_request_extend r r' toks hs :
  block_hashes r = [] -> block_hashes r' = [] -> same_inputs r r' ->
  all_token_ids r' = all_token_ids r ++ toks ->
  (hs <> [] -> resume_ok (mm_features r) (py_len hs * block_size)) ->
  hash_request r = Ok hs ->
  hash_request r' = (rest ← hash_request (with_block_hashes hs r'); Ok (hs ++ rest)).
Proof.
  intros Hn Hn' Hin Ht Hres E. destruct (decide (hs = [])) as [->|Hne].
  { rewrite !request_block_hasher_fresh by done.
    rewrite (hash_loop_ext _ (with_block_hashes [] r') r') by done.
    by destruct (loop _ _ 0 None 0). }
  rewrite request_block_hasher_fresh in E |- * by done.
  rewrite request_block_hasher_loop. cbn [block_hashes with_block_hashes all_token_ids].
  rewrite (hash_loop_ext _ (with_block_hashes hs r') r') by done.
  set (f := S (length (all_token_ids r))) in *. set (f' := S (length (all_token_ids r'))) in *.
  assert (Hlen : 0 + py_len hs * block_size <= num_tokens r).
  { eapply hash_loop_length; [|exact E]. unfold num_tokens, py_len. lia. }
  assert (Hnt : num_tokens r <= num_tokens r').
  { unfold num_tokens, py_len. rewrite Ht, length_app. lia. }
  assert (Hf : num_tokens r' < Z.of_nat f' * block_size) by (unfold num_tokens, py_len, f'; nia).
  destruct (hash_loop_extend f f' r r' toks 0 None 0 hs) as (j & g & Hj & Hg & Ex); [done..| |done|].
  { split; [unfold py_len; lia|]. unfold py_len. by destruct (mm_features r). }
  rewrite (hash_loop_fuel_eq f' (f + f') r' 0); [|unfold num_tokens, py_len; nia..].
  rewrite Ex. cbn [option_list app]. rewrite !Z.add_0_l in *.
  assert (Hn0 : 0 <= py_len hs) by (unfold py_len; lia).
  rewrite (hash_loop_fuel_eq f' g r'); [|nia..].
  rewrite (proj2 (Z.ltb_lt 0 (py_len hs * block_size))).
  2:{ unfold py_len. destruct hs; [done|]. simpl. lia. }
  rewrite (hash_loop_resume g r' _ _ j); [done| |done]. rewrite <- (proj1 Hin). by apply Hres.
Qed.

(** C29: hashing incrementally gives the hashes of hashing from scratch.  A
    request whose prompt has been hashed, extended by output tokens, ends up
    with exactly the block hashes a fresh request over all its tokens would
    get, provided the resume point meets the assumption the code makes on
    multi-modal inputs ([resume_ok]). *)
Theorem hasher_incremental r toks r1 :
  block_hashes r = [] ->
  update_block_hashes (Some hash_request) r = Ok r1 ->
  (block_hashes r1 <> [] -> resume_ok (mm_features r) (py_len (block_hashes r1) * block_size)) ->
  append_output_token_ids (Some hash_request) toks r1 =
  update_block_hashes (Some hash_request)
    (with_tokens (output_token_ids r ++ toks) (all_token_ids r ++ toks) r).
Proof.
  intros Hnil Hr1 Hres. simpl in Hr1.
  destruct (hash_request r) as [hs|] eqn:E; [|done]. injection Hr1 as <-.
  rewrite Hnil in *. simpl in *.
  unfold append_output_token_ids, update_block_hashes.
  set (r' := with_tokens (output_token_ids r ++ toks) (all_token_ids r ++ toks) r).
  rewrite (hash_request_extend r r' toks hs) by done.
  change (with_tokens _ _ _) with (with_block_hashes hs r').
  destruct (hash_request (with_block_hashes hs r')) as [rest|]; [|done].
  simpl. by rewrite Hnil.
Qed.
End HasherFacts.

(** * Equal hashes mean equal prefixes *)
Section HashChain.
Variable hash_function : hash_input -> bytes.
Variable NONE_HASH : bytes.
Variable block_size : Z.
Hypothesis block_size_pos : 0 < block_size.
(** The hash function is collision free, never returns the empty string and
    never returns the seed. *)
Hypothesis hash_inj : forall x y, hash_function x = hash_function y -> x = y.
Hypothesis hash_nonempty : forall x, hash_function x <> [].
Hypothesis hash_not_seed : forall x, hash_function x <> NONE_HASH.
Local Abbreviation loop := (hash_loop hash_function NONE_HASH block_size).

(** The parent of the block at index [k] of a chain that starts the sequence. *)
Definition parent_of (hs : list bytes) (k : nat) : bytes :=
  match k with O => NONE_HASH | S k => default NONE_HASH (hs !! k) end.

Lemma hash_loop_chain f r s p i hs k h :
  (forall b, p = Some b -> exists x, b = hash_function x) ->
  loop f r s p i = Ok hs -> hs !! k = Some h ->
  exists ex, h = hash_function
    (match k with O => default NONE_HASH p | S k => default NONE_HASH (hs !! k) end,
     py_slice (all_token_ids r) (s + Z.of_nat k * block_size) (s + (Z.of_nat k + 1) * block_size), ex).
Proof.
  revert s p i hs k; induction f as [|f IH]; intros s p i hs k Hp; [done|]. simpl.
  destruct (_ <? _); [by intros [= <-]|].
  destruct (generate_block_hash_extra_keys _ _ _ _) as [[ex j]|]; [|done]. simpl.
  set (h0 := hash_block_tokens hash_function NONE_HASH p _ ex).
  assert (Hh0 : h0 = hash_function (default NONE_HASH p, py_slice (all_token_ids r) s (s + block_size), ex)).
  { unfold h0, hash_block_tokens. destruct p as [[|]|]; [|done|done].
    destruct (Hp [] eq_refl) as [x Hx]. by destruct (hash_nonempty x). }
  destruct (loop f r _ _ j) as [hs'|] eqn:E; [|done]. intros [= <-].
  destruct k as [|k]; simpl.
  - intros [= <-]. exists ex. rewrite Hh0. do 4 f_equal; lia.
  - intros Hk. eapply IH in E as [ex' E]; [|by intros ? [= <-]; eauto|exact Hk]. exists ex'.
    rewrite E. f_equal. do 2 f_equal; [|f_equal; lia].
    destruct k; [|done]. done.
Qed.

Lemma take_blocks (l : list Z) k :
  take (Z.to_nat ((Z.of_nat k + 1) * block_size)) l =
  take (Z.to_nat (Z.of_nat k * block_size)) l ++
  py_slice l (Z.of_nat k * block_size) ((Z.of_nat k + 1) * block_size).
Proof.
  rewrite py_slice_nonneg by lia.
  rewrite take_take_drop. f_equal. lia.
Qed.

Lemma hash_chain_fresh f r hs k h :
  loop f r 0 None 0 = Ok hs -> hs !! k = Some h ->
  exists ex, h = hash_function (parent_of hs k,
    py_slice (all_token_ids r) (Z.of_nat k * block_size) ((Z.of_nat k + 1) * block_size), ex).
Proof.
  intros E Hk. eapply hash_loop_chain in E as [ex ->]; [|done|exact Hk].
  exists ex. by destruct k.
Qed.

(** Two chains that share a hash agree up to it. *)
Lemma chain_inj r1 r2 hs1 hs2 f1 f2 :
  loop f1 r1 0 None 0 = Ok hs1 -> loop f2 r2 0 None 0 = Ok hs2 ->
  forall i j h, hs1 !! i = Some h -> hs2 !! j = Some h ->
  i = j /\ take (S i) hs1 = take (S i) hs2 /\
  take (Z.to_nat ((Z.of_nat i + 1) * block_size)) (all_token_ids r1) =
  take (Z.to_nat ((Z.of_nat i + 1) * block_size)) (all_token_ids r2).
Proof.
  intros E1 E2.
  assert (C1 := hash_chain_fresh f1 r1 hs1). assert (C2 := hash_chain_fresh f2 r2 hs2).
  specialize (fun k h => C1 k h E1). specialize (fun k h => C2 k h E2).
  intros i. induction i as [|i IH]; intros [|j] h Hi Hj;
    destruct (C1 _ _ Hi) as [ex1 Eh1]; destruct (C2 _ _ Hj) as [ex2 Eh2];
    (assert (Heq := Eh1); rewrite Eh2 in Heq; apply hash_inj in Heq;
     apply pair_eq in Heq as [[Hpar Htok]%pair_eq _]).
  - split_and!; [done| |].
    + destruct hs1, hs2; simplify_eq/=. by rewrite !take_0.
    + rewrite !take_blocks. by rewrite Htok.
  - exfalso. simpl in Hpar. destruct (lookup_lt_is_Some_2 hs2 j) as [g Hg].
    { apply lookup_lt_Some in Hj. lia. }
    rewrite Hg in Hpar. destruct (C2 _ _ Hg) as [? ->]. simpl in Hpar. by apply hash_not_seed in Hpar.
  - exfalso. simpl in Hpar. destruct (lookup_lt_is_Some_2 hs1 i) as [g Hg].
    { apply lookup_lt_Some in Hi. lia. }
    rewrite Hg in Hpar. destruct (C1 _ _ Hg) as [? ->]. simpl in Hpar. symmetry in Hpar.
    by apply hash_not_seed in Hpar.
  - simpl in Hpar. destruct (lookup_lt_is_Some_2 hs1 i) as [g1 Hg1]; [apply lookup_lt_Some in Hi; lia|].
    destruct (lookup_lt_is_Some_2 hs2 j) as [g2 Hg2]; [apply lookup_lt_Some in Hj; lia|].
    rewrite Hg1, Hg2 in Hpar. simpl in Hpar. subst g2.
    destruct (IH j g1 Hg1 Hg2) as (<- & Hhs & Htoks). split_and!; [done| |].
    + rewrite (take_S_r hs1 (S i) h), (take_S_r hs2 (S i) h) by done. by rewrite Hhs.
    + rewrite !(take_blocks _ (S i)), Htok.
      replace (Z.of_nat (S i) * block_size) with ((Z.of_nat i + 1) * block_size) by lia.
      by rewrite Htoks.
Qed.

(** C22: prefix caching is sound.  With a collision-free hash function, two
    requests share a block hash only at the same block index, and then all
    their tokens up to the end of that block (and all earlier block hashes)
    are equal. *)
Theorem block_hash_identifies_prefix r1 r2 hs1 hs2 i j h :
  block_hashes r1 = [] -> block_hashes r2 = [] ->
  request_block_hasher hash_function NONE_HASH block_size r1 = Ok hs1 ->
  request_block_hasher hash_function NONE_HASH block_size r2 = Ok hs2 ->
  hs1 !! i = Some h -> hs2 !! j = Some h ->
  i = j /\ take (S i) hs1 = take (S i) hs2 /\
  take (Z.to_nat ((Z.of_nat i + 1) * block_size)) (all_token_ids r1) =
  take (Z.to_nat ((Z.of_nat i + 1) * block_size)) (all_token_ids r2).
Proof.
  intros N1 N2 H1 H2. rewrite request_block_hasher_fresh in H1, H2 by done.
  by apply (chain_inj r1 r2 hs1 hs2 _ _ H1 H2).
Qed.
End HashChain.

(** * A concrete hash function, for evaluation *)

#[export] Instance extra_key_eq_dec : EqDecision extra_key.
Proof. solve_decision. Defined.

#[export] Instance extra_key_countable : Countable extra_key.
Proof.
  refine (inj_countable'
    (fun k => match k with EStr s => inl s | EBytes b => inr b end)
    (fun x => match x with inl s => EStr s | inr b => EBytes b end) _).
  by intros [].
Defined.

(** The binary digits of a positive, lowest first, as bytes. *)
Fixpoint pos_bytes (p : positive) : bytes :=
  match p with xH => [1] | xO p => 0 :: pos_bytes p | xI p => 1 :: pos_bytes p end.

Lemma pos_bytes_nonempty p : pos_bytes p <> [].
Proof. by destruct p. Qed.

Lemma pos_bytes_inj p q : pos_bytes p = pos_bytes q -> p = q.
Proof.
  revert q; induction p as [p IH|p IH|]; intros [q|q|]; simpl; intros E; try done;
    injection E as E; rewrite ?(IH _ E); try done; exfalso; by eapply pos_bytes_nonempty.
Qed.

Lemma pos_bytes_not_zero p : pos_bytes p <> [0].
Proof. destruct p; simpl; try done. intros [= E]. by eapply pos_bytes_nonempty. Qed.

(** An injective stand-in for [sha256]. *)
Definition encode_hash (x : hash_input) : bytes := pos_bytes (encode x).

Lemma encode_hash_inj x y : encode_hash x = encode_hash y -> x = y.
Proof. intros E%pos_bytes_inj. by apply encode_inj in E. Qed.

(** Text-only request over the given prompt. *)
Definition text_request (toks : list Z) : Request :=
  mkRequest "r" WAITING 16 (Some toks) None (py_len toks) [] toks [] 0 0 (-1) 0 None [] None false [].

(** A request with two one-token inputs in its last, partial block. *)
Definition mm_request (id1 id2 : string) : Request :=
  mkRequest "r" WAITING 16 (Some [1; 2; 3; 4; 5; 6]) None 6 [] [1; 2; 3; 4; 5; 6] [] 0 0 (-1) 0 None
    [mkFeature (Some id1) (mkRange 4 1 None); mkFeature (Some id2) (mkRange 5 1 None)] None false [].

Lemma hasher_incremental_witness :
  exists r1, update_block_hashes (Some (request_block_hasher encode_hash [0] 2)) (text_request [1; 2; 3]) = Ok r1 /\
    block_hashes r1 <> [] /\
    append_output_token_ids (Some (request_block_hasher encode_hash [0] 2)) [4; 5] r1 =
    update_block_hashes (Some (request_block_hasher encode_hash [0] 2))
      (with_tokens [4; 5] [1; 2; 3; 4; 5] (text_request [1; 2; 3])).
Proof.
  eexists. split; [vm_compute; reflexivity|]. split; [done|].
  apply (hasher_incremental encode_hash [0] 2 ltac:(lia) (text_request [1; 2; 3]) [4; 5]).
  - done.
  - vm_compute. reflexivity.
  - intros _ l fs' E. by destruct fs'.
Defined.

Lemma block_hash_identifies_prefix_witness :
  exists h, request_block_hasher encode_hash [0] 2 (text_request [1; 2; 3]) = Ok [h] /\
    take 2 [1; 2; 3] = take 2 [1; 2].
Proof.
  eexists. split; [vm_compute; reflexivity|].
  eapply (fun hs1 hs2 h a b c d => proj2 (proj2 (block_hash_identifies_prefix encode_hash [0] 2
    ltac:(lia) encode_hash_inj
    (fun x => pos_bytes_nonempty (encode x)) (fun x => pos_bytes_not_zero (encode x))
    (text_request [1; 2; 3]) (text_request [1; 2]) hs1 hs2 0%nat 0%nat h eq_refl eq_refl a b c d)));
    vm_compute; reflexivity.
Defined.

(** ** Where resuming differs from starting over *)



(** * Coarser hash lists *)
Module HashListFacts.
Import BlockHashListWithBlockSize.

(** The hashes merged into entry [i]. *)
Definition group (hs : list bytes) (scale i : Z) : list bytes :=
  py_slice hs (i * scale) ((i + 1) * scale).

Lemma merge_loop (hs : list bytes) a n (m : bytes) :
  0 <= a -> 0 <= n -> a + n <= py_len hs ->
  foldM (fun merged i => h ← py_index hs i; Ok (merged ++ h)) (seqZ a n) m =
  Ok (m ++ concat (py_slice hs a (a + n))).
Proof.
  intros Ha Hn. revert a m Ha. pattern n. apply natlike_ind; [..|done].
  - intros a m Ha _. rewrite py_slice_nonneg by lia. replace (a + 0 - a) with 0 by lia. simpl.
    by rewrite app_nil_r.
  - clear n Hn. intros n Hn IH a m Ha Hle. rewrite seqZ_cons by lia. cbn [foldM].
    destruct (py_index_ok hs a) as (x & Ex & Hx); [lia|]. rewrite Ex. simpl.
    rewrite Z.pred_succ, IH by lia. rewrite (py_slice_cons hs a (a + Z.succ n) x) by (done || lia).
    cbn [concat]. rewrite <- app_assoc. by replace (Z.succ a + n) with (a + Z.succ n) by lia.
Qed.

Lemma get_value_at_group hs scale i :
  0 < scale -> 0 <= i -> (i + 1) * scale <= py_len hs ->
  get_value_at hs scale i = Ok (concat (group hs scale i)).
Proof.
  intros Hs Hi Hle. unfold get_value_at, group.
  destruct (py_index_ok hs (i * scale)) as (x & Ex & Hx); [lia|]. rewrite Ex. simpl.
  unfold py_range. replace (i * scale + scale - (i * scale + 1)) with (scale - 1) by lia.
  rewrite merge_loop by lia. rewrite (py_slice_cons hs (i * scale) _ x) by (done || lia).
  by replace (i * scale + 1 + (scale - 1)) with ((i + 1) * scale) by lia.
Qed.

Lemma group_bound hs scale i : 0 < scale -> i < len hs scale -> (i + 1) * scale <= py_len hs.
Proof. unfold len. intros. pose proof (Z.mul_div_le (py_len hs) scale). nia. Qed.

Lemma length_group hs scale i :
  0 < scale -> 0 <= i -> (i + 1) * scale <= py_len hs -> length (group hs scale i) = Z.to_nat scale.
Proof.
  unfold py_len. intros. unfold group. rewrite py_slice_nonneg by lia.
  rewrite length_take, length_drop. lia.
Qed.

Lemma coarse_hashes_ok hs scale start :
  0 < scale -> 0 <= start ->
  get_from hs scale start =
    Ok ((fun i => concat (group hs scale i)) <$> py_range (Z.min start (len hs scale)) (len hs scale)) /\
  (forall i, 0 <= i < len hs scale -> get_value_at hs scale i = Ok (concat (group hs scale i))).
Proof.
  intros Hs Hst.
  assert (V : forall i, 0 <= i < len hs scale -> get_value_at hs scale i = Ok (concat (group hs scale i))).
  { intros i Hi. apply get_value_at_group; [done|lia|apply group_bound; lia]. }
  split; [|done]. unfold get_from, py_clamp. rewrite (proj2 (Z.ltb_ge start 0)) by lia.
  apply mapR_pure. intros i Hi. unfold py_range in Hi. apply elem_of_seqZ in Hi. apply V.
  unfold len in *. pose proof (Z.div_pos (py_len hs) scale). unfold py_len in *. lia.
Qed.

(** The coarser view of a hash list.  Reading it from index [start] on never
    raises, has one entry per full group of fine hashes, each the concatenation
    of its group; and when the fine hashes have one common length (a fixed-size
    digest) equal entries come from equal groups, so merging loses nothing. *)
Theorem coarse_hashes_correct hs scale start :
  0 < scale -> 0 <= start ->
  get_from hs scale start =
    Ok ((fun i => concat (group hs scale i)) <$> py_range (Z.min start (len hs scale)) (len hs scale)) /\
  (forall L i j, (0 < L)%nat -> (forall h, h ∈ hs -> length h = L) ->
     0 <= i < len hs scale -> 0 <= j < len hs scale ->
     get_value_at hs scale i = get_value_at hs scale j -> group hs scale i = group hs scale j).
Proof.
  intros Hs Hst. split; [by apply coarse_hashes_ok|].
  - intros L i j HL HhL Hi Hj E.
    rewrite !(proj2 (coarse_hashes_ok hs scale start Hs Hst)) in E by done. injection E as E.
    assert (Hsub : forall k, forall h, h ∈ group hs scale k -> length h = L).
    { intros k h Hh. apply HhL. unfold group, py_slice in Hh.
      eapply elem_of_submseteq; [exact Hh|]. etrans; [apply submseteq_take|apply submseteq_drop]. }
    assert (Hl : length (group hs scale i) = length (group hs scale j)).
    { rewrite !length_group; [done|..]; try apply group_bound; lia. }
    revert Hl E. generalize (Hsub i) (Hsub j).
    generalize (group hs scale i) (group hs scale j). clear -HL.
    intros g1; induction g1 as [|h1 g1 IH]; intros [|h2 g2] H1 H2 Hl E; simplify_eq/=; [done|].
    apply app_inj_1 in E as [-> E]; [|rewrite H1, H2 by set_solver; done].
    f_equal. apply IH; set_solver.
Qed.

Lemma coarse_hashes_correct_witness :
  get_from [[1]; [2]; [3]; [4]; [5]] 2 0 = Ok [[1; 2]; [3; 4]].
Proof. refine (proj1 (coarse_hashes_correct [[1]; [2]; [3]; [4]; [5]] 2 0 _ _)); lia. Defined.
End HashListFacts.
