(* ===== verification/BlockPool.v ===== *)
(** The block pool: [BlockHashToBlockMap] and [BlockPool] of
    [src/vllm/v1/core/block_pool.py].

    A pool owns the block objects (the store inside its free queue), the map
    from hash keys to cached blocks, the null block and the list of KV-cache
    events.  Blocks are named by their index in [self.blocks], which is also
    their [block_id].  Every method that changes state is a state transformer
    returning [result]; [pool_inv] is the invariant that ties the free queue,
    the reference counts and the hash map together. *)
From Stdlib Require Import QArith.
From S2P Require Import Prelude FreeQueue Request BlockHash.
Local Open Scope Z_scope.

(** * The hash map of cached blocks *)
Module BlockHashToBlockMap.

(** [KVCacheBlock | dict[int, KVCacheBlock]]; the dict by its keys in insertion
    order. *)
Inductive cached_blocks := CSingle (i : nat) | CDict (ids : list nat).

Abbreviation cache := (gmap bytes cached_blocks).

(** [d[k] = v] on the key order of a dict. *)
Definition dict_set (i : nat) (ids : list nat) : list nat :=
  if decide (i ∈ ids) then ids else ids ++ [i].

(** [get_one_block]; [next(iter(...))] raises on an empty dict. *)
Definition get_one_block (key : bytes) (c : cache) : result (option nat) :=
  match c !! key with
  | None => Ok None
  | Some (CSingle i) => Ok (Some i)
  | Some (CDict []) => Err StopIteration
  | Some (CDict (i :: _)) => Ok (Some i)
  end.

(** [insert]. *)
Definition insert (key : bytes) (i : nat) (c : cache) : cache :=
  match c !! key with
  | None => <[key := CSingle i]> c
  | Some (CSingle j) => <[key := CDict (dict_set i [j])]> c
  | Some (CDict ids) => <[key := CDict (dict_set i ids)]> c
  end.

(** [pop]. *)
Definition pop (key : bytes) (i : nat) (c : cache) : option nat * cache :=
  match c !! key with
  | None => (None, c)
  | Some (CSingle j) =>
      if decide (j = i) then (Some j, delete key c) else (None, <[key := CSingle j]> (delete key c))
  | Some (CDict ids) =>
      let ids' := filter (.≠ i) ids in
      let c := delete key c in
      let c := if (0 <? length ids')%nat then <[key := CDict ids']> c else c in
      (if decide (i ∈ ids) then Some i else None, c)
  end.

(** The blocks cached under a key. *)
Definition ids_of (cs : cached_blocks) : list nat :=
  match cs with CSingle i => [i] | CDict ids => ids end.
Definition cached_ids (c : cache) (key : bytes) : list nat :=
  match c !! key with Some cs => ids_of cs | None => [] end.

(** Every entry holds at least one block and no block twice. *)
Definition cache_wf (c : cache) : Prop :=
  forall key cs, c !! key = Some cs -> ids_of cs <> [] /\ NoDup (ids_of cs).

Lemma cached_ids_insert c key k i :
  cached_ids (<[key := CDict i]> c) k = if decide (key = k) then i else cached_ids c k.
Proof. unfold cached_ids. rewrite lookup_insert. by case_decide. Qed.

Lemma insert_ids c key i k :
  cached_ids (insert key i c) k =
  if decide (key = k) then dict_set i (cached_ids c key) else cached_ids c k.
Proof.
  unfold insert. destruct (c !! key) as [[j|ids]|] eqn:E.
  - rewrite cached_ids_insert. unfold cached_ids. by rewrite E.
  - rewrite cached_ids_insert. unfold cached_ids. by rewrite E.
  - unfold cached_ids. rewrite E, lookup_insert. by case_decide.
Qed.

Lemma elem_of_dict_set j i ids : j ∈ dict_set i ids <-> j = i \/ j ∈ ids.
Proof. unfold dict_set. case_decide; set_solver. Qed.

Lemma insert_wf c key i : cache_wf c -> cache_wf (insert key i c).
Proof.
  intros Hwf k cs. unfold insert.
  assert (Hdict : forall ids, NoDup ids -> dict_set i ids <> [] /\ NoDup (dict_set i ids)).
  { intros ids Hnd. unfold dict_set. case_decide; split.
    - destruct ids; [by apply elem_of_nil in H|done].
    - done.
    - by destruct ids.
    - apply NoDup_app. split_and!; [done|set_solver|apply NoDup_singleton]. }
  destruct (c !! key) as [[j|ids]|] eqn:E; rewrite lookup_insert; case_decide; eauto; intros [= <-]; simpl.
  - apply Hdict, NoDup_singleton.
  - apply Hdict. by apply (Hwf key (CDict ids)).
  - split; [done|apply NoDup_singleton].
Qed.

Lemma pop_spec c key i :
  cache_wf c ->
  let '(r, c') := pop key i c in
  (r = if decide (i ∈ cached_ids c key) then Some i else None) /\ cache_wf c' /\
  (forall k j, j ∈ cached_ids c' k <-> j ∈ cached_ids c k /\ ~ (k = key /\ j = i)).
Proof.
  intros Hwf. unfold pop. destruct (c !! key) as [[j|ids]|] eqn:E.
  - destruct (decide (j = i)) as [->|Hne].
    + split_and!.
      * unfold cached_ids. rewrite E, decide_True; [done|]. set_solver.
      * intros k cs. rewrite lookup_delete. case_decide; [done|]. eauto.
      * intros k j. unfold cached_ids. rewrite lookup_delete. case_decide; subst; rewrite ?E; set_solver.
    + rewrite insert_delete_eq, insert_id by done. split_and!.
      * unfold cached_ids. rewrite E, decide_False; [done|]. set_solver.
      * done.
      * intros k j'. unfold cached_ids. split; [|naive_solver]. intros Hj. split; [done|].
        intros [-> ->]. rewrite E in Hj. set_solver.
  - split_and!.
    + unfold cached_ids. by rewrite E.
    + destruct (Hwf _ _ E) as [_ Hnd]. intros k cs. destruct (0 <? length (filter (.≠ i) ids))%nat eqn:Hl.
      * rewrite lookup_insert. case_decide; [|rewrite lookup_delete_ne by done; eauto].
        intros [= <-]. simpl. split; [by intros Hn; rewrite Hn in Hl|]. by apply NoDup_filter.
      * rewrite lookup_delete. case_decide; [done|]. eauto.
    + intros k j. unfold cached_ids. destruct (0 <? length (filter (.≠ i) ids))%nat eqn:Hl.
      * rewrite lookup_insert. case_decide; subst; [rewrite E; simpl; rewrite list_elem_of_filter; naive_solver|].
        rewrite lookup_delete_ne by done. naive_solver.
      * rewrite lookup_delete. case_decide; subst; [|naive_solver]. rewrite E. simpl.
        assert (filter (.≠ i) ids = []) as Hf.
        { destruct (filter (.≠ i) ids); [done|simpl in Hl; done]. }
        split; [set_solver|]. intros [Hj Hn]. assert (j ∈ filter (.≠ i) ids); [|rewrite Hf in *; set_solver].
        rewrite list_elem_of_filter. naive_solver.
  - split_and!; [|done|].
    + unfold cached_ids. by rewrite E.
    + intros k j. split; [|naive_solver]. intros Hj. split; [done|]. intros [-> ->].
      unfold cached_ids in Hj. rewrite E in Hj. set_solver.
Qed.

Lemma get_one_block_spec c key :
  cache_wf c -> get_one_block key c = Ok (head (cached_ids c key)).
Proof.
  intros Hwf. unfold get_one_block, cached_ids. destruct (c !! key) as [[j|[|]]|] eqn:E; try done.
  by destruct (Hwf _ _ E).
Qed.
End BlockHashToBlockMap.
Import BlockHashToBlockMap.

(** * The pool *)

(** KV-cache events of [kv_events.py], as the pool emits them. *)
Inductive kv_event :=
| BlockStored (block_hashes : list external_hash) (parent_block_hash : option external_hash)
    (token_ids : list Z) (block_size : Z) (lora_id : option Z) (lora_name : option string)
| BlockRemoved (block_hashes : list external_hash)
| AllBlocksCleared.

(** The calls made on the metrics collector. *)
Inductive metrics_call :=
| OnBlockAllocated (i : nat) | OnBlockEvicted (i : nat) | OnBlockAccessed (i : nat) | MetricsReset.

Record pool := mkPool {
  num_gpu_blocks : Z;
  enable_caching : bool;
  hash_block_size : Z;
  free_block_queue : qstate;
  cached_block_hash_to_block : cache;
  null_block : nat;
  enable_kv_cache_events : bool;
  use_int_hashes : bool;
  kv_event_queue : list kv_event;
  metrics_collector : option (list metrics_call);
}.

Definition with_queue (q : qstate) (p : pool) : pool :=
  mkPool (num_gpu_blocks p) (enable_caching p) (hash_block_size p) q
    (cached_block_hash_to_block p) (null_block p) (enable_kv_cache_events p) (use_int_hashes p)
    (kv_event_queue p) (metrics_collector p).
Definition with_cache (c : cache) (p : pool) : pool :=
  mkPool (num_gpu_blocks p) (enable_caching p) (hash_block_size p) (free_block_queue p)
    c (null_block p) (enable_kv_cache_events p) (use_int_hashes p)
    (kv_event_queue p) (metrics_collector p).
Definition with_events (es : list kv_event) (p : pool) : pool :=
  mkPool (num_gpu_blocks p) (enable_caching p) (hash_block_size p) (free_block_queue p)
    (cached_block_hash_to_block p) (null_block p) (enable_kv_cache_events p) (use_int_hashes p)
    es (metrics_collector p).
(** [if self.metrics_collector: self.metrics_collector.<call>]. *)
Definition metrics (m : metrics_call) (p : pool) : pool :=
  mkPool (num_gpu_blocks p) (enable_caching p) (hash_block_size p) (free_block_queue p)
    (cached_block_hash_to_block p) (null_block p) (enable_kv_cache_events p) (use_int_hashes p)
    (kv_event_queue p) ((fun l => l ++ [m]) <$> metrics_collector p).
(** [if self.enable_kv_cache_events: self.kv_event_queue.append(e)]. *)
Definition emit (e : kv_event) (p : pool) : pool :=
  if enable_kv_cache_events p then with_events (kv_event_queue p ++ [e]) p else p.

(** Reading and writing the attributes of a block object. *)
Definition store (p : pool) : heap := qheap (free_block_queue p).
Definition block_at (p : pool) (i : nat) : result KVCacheBlock :=
  of_option IndexError (store p !! Blk i).
Definition update_block (f : KVCacheBlock -> KVCacheBlock) (i : nat) (p : pool) : pool :=
  with_queue (mkQ (alter f (Blk i) (store p)) (num_free_blocks (free_block_queue p))) p.
Definition node_id (n : node) : nat := match n with Blk i => i | _ => 0%nat end.

Module BlockPool.
Import FreeKVCacheBlockQueue.

(** [__init__]. *)
Definition init (num_gpu_blocks : Z) (enable_caching : bool) (hash_block_size : Z)
    (events use_int : bool) (metrics : bool) : result pool :=
  _ ← py_assert (0 <? num_gpu_blocks);
  let q := init (Z.to_nat num_gpu_blocks) (FreeQueueSpec.block_store (Z.to_nat num_gpu_blocks)) in
  '(b, q) ← popleft q;
  let p := mkPool num_gpu_blocks enable_caching hash_block_size q ∅ (node_id b) events use_int []
             (if metrics then Some [] else None) in
  Ok (update_block (with_null true) (node_id b) p).

(** [get_num_free_blocks]. *)
Definition get_num_free_blocks (p : pool) : Z := num_free_blocks (free_block_queue p).

(** The loop of [get_cached_block], with its early return. *)
Fixpoint get_cached_loop (p : pool) (h : bytes) (groups : list Z) (acc : list nat) :
    result (option (list nat)) :=
  match groups with
  | [] => Ok (Some acc)
  | g :: groups =>
      key ← make_block_hash_with_group_id h g;
      b ← get_one_block key (cached_block_hash_to_block p);
      match b with
      | None => Ok None
      | Some i => get_cached_loop p h groups (acc ++ [i])
      end
  end.

(** [get_cached_block]. *)
Definition get_cached_block (p : pool) (h : bytes) (kv_cache_group_ids : list Z) :
    result (option (list nat)) :=
  get_cached_loop p h kv_cache_group_ids [].

(** The hash list [cache_full_blocks] indexes: the request's own, or the view
    at a coarser block size. *)
Inductive hash_list := HList (hs : list bytes) | HScaled (hs : list bytes) (scale : Z).
Definition hl_from (l : hash_list) (start : Z) : result (list bytes) :=
  match l with
  | HList hs => Ok (py_slice hs start (py_len hs))
  | HScaled hs scale => BlockHashListWithBlockSize.get_from hs scale start
  end.
Definition hl_get (l : hash_list) (i : Z) : result bytes :=
  match l with
  | HList hs => py_index hs i
  | HScaled hs scale => BlockHashListWithBlockSize.get_value_at hs scale i
  end.

(** One round of the loop of [cache_full_blocks]: the pool and [new_hashes]. *)
Definition cache_step (group_id : Z) (new_block_hashes : list bytes)
    (s : pool * list external_hash) (x : nat * nat) : result (pool * list external_hash) :=
  let '(p, new_hashes) := s in
  let '(i, blk) := x in
  b ← block_at p blk;
  if is_null b then Ok (p, new_hashes) else
  _ ← py_assert (bool_decide (block_hash b = None));
  h ← py_index new_block_hashes (Z.of_nat i);
  key ← make_block_hash_with_group_id h group_id;
  b' ← set_block_hash key b;
  let p := update_block (fun _ => b') blk p in
  let p := with_cache (insert key blk (cached_block_hash_to_block p)) p in
  Ok (p, if enable_kv_cache_events p
         then new_hashes ++ [maybe_convert_block_hash (use_int_hashes p) h] else new_hashes).

(** [cache_full_blocks]. *)
Definition cache_full_blocks (r : Request) (blocks : list nat)
    (num_cached_blocks num_full_blocks block_size kv_cache_group_id : Z) (p : pool) :
    result pool :=
  if num_full_blocks <=? num_cached_blocks then Ok p else
  let new_full_blocks := py_slice blocks num_cached_blocks num_full_blocks in
  _ ← py_assert (num_full_blocks <=? py_len (block_hashes r));
  hl ← (if block_size =? hash_block_size p then Ok (HList (block_hashes r)) else
        _ ← py_assert (block_size mod hash_block_size p =? 0);
        scale ← BlockHashListWithBlockSize.scale_factor (hash_block_size p) block_size;
        Ok (HScaled (block_hashes r) scale));
  new_block_hashes ← hl_from hl num_cached_blocks;
  '(p, new_hashes) ← foldM (cache_step kv_cache_group_id new_block_hashes)
                       (zip (seq 0 (length new_full_blocks)) new_full_blocks) (p, []);
  if enable_kv_cache_events p then
    parent ← (if num_cached_blocks =? 0 then Ok None else
              h ← hl_get hl (num_cached_blocks - 1);
              Ok (Some (maybe_convert_block_hash (use_int_hashes p) h)));
    Ok (emit (BlockStored new_hashes parent
                (py_slice (all_token_ids r) (num_cached_blocks * block_size)
                   (num_full_blocks * block_size))
                block_size (lora_int_id <$> lora_request r) (lora_name <$> lora_request r)) p)
  else Ok p.

(** [_maybe_evict_cached_block]. *)
Definition maybe_evict_cached_block (i : nat) (p : pool) : result (bool * pool) :=
  let p := metrics (OnBlockEvicted i) p in
  b ← block_at p i;
  match block_hash b with
  | None => Ok (false, p)
  | Some key =>
      let '(r, c) := pop key i (cached_block_hash_to_block p) in
      let p := with_cache c p in
      match r with
      | None => Ok (false, p)
      | Some _ =>
          let p := update_block reset_hash i p in
          Ok (true, emit (BlockRemoved
                [maybe_convert_block_hash (use_int_hashes p) (get_block_hash key)]) p)
      end
  end.

(** One round of the loops of [get_new_blocks]. *)
Definition take_step (p : pool) (i : nat) : result pool :=
  p ← (if enable_caching p then '(_, p) ← maybe_evict_cached_block i p; Ok p else Ok p);
  b ← block_at p i;
  _ ← py_assert (ref_cnt b =? 0);
  let p := update_block (with_ref_cnt (ref_cnt b + 1)) i p in
  Ok (metrics (OnBlockAllocated i) p).

(** [get_new_blocks]. *)
Definition get_new_blocks (num_blocks : Z) (p : pool) : result (list nat * pool) :=
  if get_num_free_blocks p <? num_blocks then Err ValueError else
  '(ret, q) ← popleft_n num_blocks (free_block_queue p);
  let ret := node_id <$> ret in
  p ← foldM take_step ret (with_queue q p);
  Ok (ret, p).

(** One round of [touch]. *)
Definition touch_step (p : pool) (i : nat) : result pool :=
  b ← block_at p i;
  p ← (if (ref_cnt b =? 0) && negb (is_null b)
       then q ← remove (Blk i) (free_block_queue p); Ok (with_queue q p) else Ok p);
  b ← block_at p i;
  let p := update_block (with_ref_cnt (ref_cnt b + 1)) i p in
  Ok (metrics (OnBlockAccessed i) p).

(** [touch]. *)
Definition touch (blocks : list nat) (p : pool) : result pool := foldM touch_step blocks p.

(** [block.ref_cnt -= 1]. *)
Definition release_step (p : pool) (i : nat) : result pool :=
  b ← block_at p i; Ok (update_block (with_ref_cnt (ref_cnt b - 1)) i p).

Definition is_releasable (p : pool) (i : nat) : bool :=
  match store p !! Blk i with
  | Some b => (ref_cnt b =? 0) && negb (is_null b)
  | None => false
  end.

(** [free_blocks]. *)
Definition free_blocks (ordered_blocks : list nat) (p : pool) : result pool :=
  p ← foldM release_step ordered_blocks p;
  q ← append_n (Blk <$> filter (fun i => is_releasable p i = true) ordered_blocks)
        (free_block_queue p);
  Ok (with_queue q p).

(** [evict_blocks], over the ids in the iteration order of the set. *)
Definition evict_step (p : pool) (block_id : Z) : result pool :=
  _ ← py_assert (block_id <? num_gpu_blocks p);
  i ← py_index (seq 0 (Z.to_nat (num_gpu_blocks p))) block_id;
  '(_, p) ← maybe_evict_cached_block i p; Ok p.
Definition evict_blocks (block_ids : list Z) (p : pool) : result pool :=
  foldM evict_step block_ids p.

(** [reset_prefix_cache]. *)
Definition reset_prefix_cache (p : pool) : bool * pool :=
  let num_used_blocks := num_gpu_blocks p - get_num_free_blocks p in
  if negb (num_used_blocks =? 1) then (false, p) else
  let p := with_cache ∅ p in
  let p := fold_left (fun p i => update_block reset_hash i p)
             (seq 0 (Z.to_nat (num_gpu_blocks p))) p in
  let p := metrics MetricsReset p in
  (true, emit AllBlocksCleared p).

(** [get_usage]. *)
Definition get_usage (p : pool) : Q :=
  let total_gpu_blocks := num_gpu_blocks p - 1 in
  if total_gpu_blocks =? 0 then 0%Q
  else (1 - inject_Z (get_num_free_blocks p) / inject_Z total_gpu_blocks)%Q.

(** [take_events]. *)
Definition take_events (p : pool) : list kv_event * pool :=
  if negb (enable_kv_cache_events p) then ([], p)
  else (kv_event_queue p, with_events [] p).

End BlockPool.

(** * The invariant *)

Definition ref_of (p : pool) (i : nat) : Z :=
  match store p !! Blk i with Some b => ref_cnt b | None => 0 end.
Definition hash_of (p : pool) (i : nat) : option bytes :=
  match store p !! Blk i with Some b => block_hash b | None => None end.

(** Block [0] is the null block; the others are the real blocks. *)
Definition real_block (p : pool) (i : nat) : Prop :=
  i <> 0%nat /\ Z.of_nat i < num_gpu_blocks p.

(** The part of the invariant that does not look at reference counts: the queue
    is well linked, exactly the ids below [num_gpu_blocks] exist, block 0 is the
    null block and is never cached, and the hash map and the [block_hash]
    attributes describe the same relation. *)
Record pool_base (p : pool) (l : list nat) : Prop := {
  pb_queue : queue_repr (free_block_queue p) l;
  pb_pos : 0 < num_gpu_blocks p;
  pb_dom : forall i, is_Some (store p !! Blk i) <-> Z.of_nat i < num_gpu_blocks p;
  pb_null : null_block p = 0%nat;
  pb_attr : forall i b, store p !! Blk i = Some b ->
    block_id b = Z.of_nat i /\ is_null b = bool_decide (i = 0%nat);
  pb_cache : forall key i,
    i ∈ cached_ids (cached_block_hash_to_block p) key <-> hash_of p i = Some key;
  pb_wf : cache_wf (cached_block_hash_to_block p);
  pb_nullhash : hash_of p 0 = None;
}.

(** The free queue [l], together with the blocks [pend] that a running
    operation has taken out of it or is about to put back, holds exactly the
    real blocks with no reference, each once; counts are never negative. *)
Record refs_ok (p : pool) (l pend : list nat) : Prop := {
  ro_nodup : NoDup (l ++ pend);
  ro_free : forall i, i ∈ l ++ pend <-> real_block p i /\ ref_of p i = 0;
  ro_nonneg : forall i, i <> 0%nat -> 0 <= ref_of p i;
}.

Definition pool_inv (p : pool) (l : list nat) : Prop := pool_base p l /\ refs_ok p l [].

(** Two pools with the same constructor arguments. *)
Definition same_config (p p' : pool) : Prop :=
  num_gpu_blocks p = num_gpu_blocks p' /\ enable_caching p = enable_caching p' /\
  hash_block_size p = hash_block_size p' /\ null_block p = null_block p' /\
  enable_kv_cache_events p = enable_kv_cache_events p' /\ use_int_hashes p = use_int_hashes p'.

#[export] Instance same_config_preorder : PreOrder same_config.
Proof. split; unfold same_config; repeat intro; naive_solver congruence. Qed.

(** ** Frame lemmas: which writes touch which part *)
Section Frames.
Implicit Types (p : pool) (l pend : list nat) (i j : nat).

Lemma pool_base_metrics m p l : pool_base p l -> pool_base (metrics m p) l.
Proof. by intros []; split. Qed.

Lemma pool_base_emit e p l : pool_base p l -> pool_base (emit e p) l.
Proof. unfold emit. destruct (enable_kv_cache_events p); [|done]. by intros []; split. Qed.

Lemma store_emit e p : store (emit e p) = store p.
Proof. unfold emit. by destruct (enable_kv_cache_events p). Qed.

Lemma same_config_emit e p : same_config p (emit e p).
Proof. unfold emit. by destruct (enable_kv_cache_events p) eqn:E; unfold same_config; simpl; rewrite ?E. Qed.

(** Writes that leave links, id and null flag alone keep the queue. *)
Definition keeps_links (f : KVCacheBlock -> KVCacheBlock) : Prop :=
  forall b, prev_free_block (f b) = prev_free_block b /\ next_free_block (f b) = next_free_block b
       /\ block_id (f b) = block_id b /\ is_null (f b) = is_null b.

Lemma update_repr f q l n k :
  (forall b, prev_free_block (f b) = prev_free_block b /\ next_free_block (f b) = next_free_block b) ->
  queue_repr q l -> k = num_free_blocks q ->
  queue_repr (mkQ (alter f n (qheap q)) k) l.
Proof.
  intros Hf [Hn Hp Hd Hdom Hnum] ->. split; cbn [qheap num_free_blocks]; [..|done].
  - intros m. rewrite <- Hn. unfold next_of. rewrite lookup_alter. case_decide; subst; [|done].
    destruct (qheap q !! m); simpl; [|done]. apply Hf.
  - intros m. rewrite <- Hp. unfold prev_of. rewrite lookup_alter. case_decide; subst; [|done].
    destruct (qheap q !! m); simpl; [|done]. apply Hf.
  - done.
  - intros m Hm. rewrite lookup_alter. case_decide; subst; [apply fmap_is_Some|]; auto.
Qed.

Lemma store_update f i p m :
  store (update_block f i p) !! m = if decide (Blk i = m) then f <$> store p !! m else store p !! m.
Proof. unfold store, update_block. simpl. rewrite lookup_alter. by case_decide; subst. Qed.

(** Two states with the same config, links and hashes. *)
Lemma pool_base_update f p l i :
  keeps_links f -> (forall b, store p !! Blk i = Some b -> block_hash (f b) = block_hash b) ->
  pool_base p l -> pool_base (update_block f i p) l.
Proof.
  intros Hf Hh [Hq Hpos Hdom Hnull Hattr Hc Hwf Hnh].
  assert (Hhash : forall j, hash_of (update_block f i p) j = hash_of p j).
  { intros j. unfold hash_of. rewrite store_update. case_decide; simplify_eq; [|done].
    destruct (store p !! Blk j) eqn:E; simpl; auto. }
  split; try done.
  - apply update_repr; [|done..]. intros b. split; apply Hf.
  - intros j. rewrite store_update. case_decide; simplify_eq; rewrite ?fmap_is_Some; apply Hdom.
  - intros j b. rewrite store_update. case_decide; simplify_eq; [|apply Hattr].
    destruct (store p !! Blk j) as [b0|] eqn:E; [|done]. simpl. intros [= <-].
    destruct (Hf b0) as (_ & _ & -> & ->). by apply Hattr.
  - intros key j. rewrite Hhash. apply Hc.
  - by rewrite Hhash.
Qed.

Lemma ref_of_update f p i j :
  Z.of_nat i < num_gpu_blocks p -> forall l, pool_base p l ->
  ref_of (update_block f i p) j =
  if decide (i = j) then match store p !! Blk j with Some b => ref_cnt (f b) | None => 0 end
  else ref_of p j.
Proof.
  intros Hi l B. unfold ref_of. rewrite store_update. repeat case_decide; simplify_eq; try done.
  by destruct (store p !! Blk j).
Qed.

Lemma block_at_ok p l i :
  pool_base p l -> Z.of_nat i < num_gpu_blocks p ->
  exists b, block_at p i = Ok b /\ store p !! Blk i = Some b /\ ref_of p i = ref_cnt b
       /\ hash_of p i = block_hash b /\ is_null b = bool_decide (i = 0%nat).
Proof.
  intros B Hi. apply (pb_dom _ _ B) in Hi as [b Hb]. exists b. unfold block_at, ref_of, hash_of.
  rewrite Hb. split_and!; try done. by apply (pb_attr _ _ B).
Qed.

(** Only the links changed. *)
Lemma pool_base_queue p l l' q :
  pool_base p l -> queue_repr q l' -> heap_frame (store p) (qheap q) ->
  pool_base (with_queue q p) l' /\ (forall j, ref_of (with_queue q p) j = ref_of p j) /\
  (forall j, hash_of (with_queue q p) j = hash_of p j).
Proof.
  intros [Hq Hpos Hdom Hnull Hattr Hc Hwf Hnh] Hq' Hfr.
  assert (Hp : forall j, hash_of (with_queue q p) j = hash_of p j /\ ref_of (with_queue q p) j = ref_of p j
    /\ (is_Some (qheap q !! Blk j) <-> is_Some (store p !! Blk j))).
  { intros j. unfold hash_of, ref_of. specialize (Hfr (Blk j)).
    change (store (with_queue q p)) with (qheap q).
    destruct (store p !! Blk j), (qheap q !! Blk j); simpl in *; try done. destruct Hfr as (? & ? & ? & ?).
    split_and!; [done..|]. split; by eexists. }
  split_and!; [|intros; apply Hp..]. split; try done.
  - intros j. change (store (with_queue q p)) with (qheap q). rewrite (proj2 (proj2 (Hp j))). apply Hdom.
  - intros j b Hj. change (store (with_queue q p)) with (qheap q) in Hj. specialize (Hfr (Blk j)). rewrite Hj in Hfr.
    destruct (store p !! Blk j) as [b0|] eqn:E; [|done]. destruct Hfr as (<- & _ & _ & <-). by apply Hattr.
  - intros key j. rewrite (proj1 (Hp j)). apply Hc.
  - by rewrite (proj1 (Hp _)).
Qed.

Lemma refs_ok_ext p p' l pend :
  num_gpu_blocks p' = num_gpu_blocks p -> (forall j, ref_of p' j = ref_of p j) ->
  refs_ok p l pend -> refs_ok p' l pend.
Proof.
  intros Hn Hr [H1 H2 H3]. split; [done|..].
  - intros i. rewrite H2. unfold real_block. by rewrite Hn, Hr.
  - intros i Hi. rewrite Hr. auto.
Qed.
End Frames.

(** * What each operation does *)
Module PoolFacts.
Import FreeKVCacheBlockQueue FreeQueueFacts BlockPool.
Section PoolFacts.
Implicit Types (p : pool) (l pend : list nat) (i j : nat).

Lemma keeps_links_ref v : keeps_links (with_ref_cnt v).
Proof. done. Qed.
Lemma keeps_links_hash v : keeps_links (with_hash v).
Proof. done. Qed.
#[local] Hint Resolve keeps_links_ref keeps_links_hash : core.

Lemma set_ref_base v p l i : pool_base p l -> pool_base (update_block (with_ref_cnt v) i p) l.
Proof. by apply pool_base_update. Qed.

Lemma ref_of_set_ref v p l i j :
  pool_base p l -> Z.of_nat i < num_gpu_blocks p ->
  ref_of (update_block (with_ref_cnt v) i p) j = if decide (i = j) then v else ref_of p j.
Proof.
  intros B Hi. rewrite (ref_of_update _ _ _ _ Hi l B). case_decide; [|done]. subst j.
  destruct (block_at_ok p l i B Hi) as (b & _ & -> & _). done.
Qed.

Lemma hash_of_set_ref v p i j : hash_of (update_block (with_ref_cnt v) i p) j = hash_of p j.
Proof. unfold hash_of. rewrite store_update. case_decide; simplify_eq; [|done]. by destruct (store p !! Blk j). Qed.

Lemma ref_of_set_hash v p i j : ref_of (update_block (with_hash v) i p) j = ref_of p j.
Proof. unfold ref_of. rewrite store_update. case_decide; simplify_eq; [|done]. by destruct (store p !! Blk j). Qed.

Lemma hash_of_set_hash v p l i j :
  pool_base p l -> Z.of_nat i < num_gpu_blocks p ->
  hash_of (update_block (with_hash v) i p) j = if decide (i = j) then v else hash_of p j.
Proof.
  intros B Hi. unfold hash_of. rewrite store_update. repeat case_decide; simplify_eq; try done.
  destruct (block_at_ok p l j B Hi) as (b & _ & -> & _). done.
Qed.

(** Changing a hash together with the map. *)
Lemma set_hash_base p l i v c :
  pool_base p l -> Z.of_nat i < num_gpu_blocks p -> cache_wf c -> (i = 0%nat -> v = None) ->
  (forall key j, j ∈ cached_ids c key <->
     if decide (i = j) then v = Some key else hash_of p j = Some key) ->
  pool_base (with_cache c (update_block (with_hash v) i p)) l.
Proof.
  intros B Hi Hwf H0 Hc. pose proof (hash_of_set_hash v p l i) as Hh.
  assert (B' := B). destruct B' as [Hq Hpos Hdom Hnull Hattr _ _ Hnh].
  split; try done.
  - by apply update_repr.
  - intros j. rewrite <- Hdom. change (store (with_cache c ?q)) with (store q).
    rewrite store_update. case_decide; [|done]. by rewrite fmap_is_Some.
  - intros j b. change (store (with_cache c ?q)) with (store q). rewrite store_update.
    case_decide; simplify_eq; [|apply Hattr].
    destruct (store p !! Blk j) eqn:E; [|done]. simpl. intros [= <-]. exact (Hattr j _ E).
  - intros key j. change (hash_of (with_cache c ?q) j) with (hash_of q j).
    change (cached_block_hash_to_block (with_cache c ?q)) with c.
    rewrite Hh by done. rewrite Hc. by case_decide.
  - change (hash_of (with_cache c ?q) ?j) with (hash_of q j). rewrite Hh by done.
    case_decide; auto.
Qed.

(** [_maybe_evict_cached_block]: the block loses its hash and its map entry,
    nothing else changes. *)
Lemma maybe_evict_spec p l i :
  pool_base p l -> Z.of_nat i < num_gpu_blocks p ->
  exists p', maybe_evict_cached_block i p = Ok (bool_decide (is_Some (hash_of p i)), p') /\
    pool_base p' l /\ same_config p p' /\ (forall j, ref_of p' j = ref_of p j) /\
    (forall j, hash_of p' j = if decide (i = j) then None else hash_of p j).
Proof.
  intros B Hi. unfold maybe_evict_cached_block.
  assert (Bm := pool_base_metrics (OnBlockEvicted i) p l B).
  set (pm := metrics (OnBlockEvicted i) p) in *.
  destruct (block_at_ok pm l i Bm Hi) as (b & -> & Hb & _ & Hh & _). simpl.
  change (hash_of pm i) with (hash_of p i) in Hh.
  destruct (block_hash b) as [key|] eqn:Ek.
  - pose proof (pop_spec (cached_block_hash_to_block pm) key i (pb_wf _ _ Bm)) as Hpop.
    destruct (pop key i _) as [r c]. destruct Hpop as (-> & Hwf & Hids).
    assert (Hin : i ∈ cached_ids (cached_block_hash_to_block pm) key) by by apply (pb_cache _ _ Bm).
    rewrite decide_True by done. rewrite Hh, bool_decide_true by by eexists.
    eexists. split; [done|].
    change (update_block reset_hash i (with_cache c pm))
      with (with_cache c (update_block (with_hash None) i pm)).
    split_and!.
    + apply pool_base_emit, set_hash_base; try done. intros k j. rewrite Hids, (pb_cache _ _ Bm).
      change (hash_of pm j) with (hash_of p j). case_decide; [|naive_solver]. subst j.
      rewrite Hh. naive_solver.
    + etrans; [|apply same_config_emit]. done.
    + intros j. unfold ref_of. rewrite store_emit.
      change (ref_of (update_block (with_hash None) i pm) j = ref_of pm j). apply ref_of_set_hash.
    + intros j. unfold hash_of at 1. rewrite store_emit.
      change (hash_of (update_block (with_hash None) i pm) j = if decide (i = j) then None else hash_of pm j).
      by apply (hash_of_set_hash None pm l).
  - rewrite Hh, bool_decide_false by by intros []. exists pm. split_and!; try done.
    intros j. change (hash_of pm j) with (hash_of p j). case_decide; [by subst|done].
Qed.

(** A pending block gets its first reference. *)
Lemma refs_ok_take p p' l pend i :
  num_gpu_blocks p' = num_gpu_blocks p ->
  (forall j, ref_of p' j = if decide (i = j) then 1 else ref_of p j) ->
  refs_ok p l (i :: pend) -> refs_ok p' l pend.
Proof.
  intros Hn Hr [Hnd Hf Hp].
  rewrite <- Permutation_middle in Hnd. apply NoDup_cons in Hnd as [Hi Hnd]. split; [done|..].
  - intros j. unfold real_block. rewrite Hn, Hr. case_decide.
    + subst j. split; [done|]. intros [_ ?]. lia.
    + specialize (Hf j). unfold real_block in Hf. set_solver.
  - intros j Hj. rewrite Hr. case_decide; [lia|auto].
Qed.

Lemma take_step_spec p l pend i :
  pool_base p l -> refs_ok p l (i :: pend) ->
  exists p', take_step p i = Ok p' /\ pool_base p' l /\ refs_ok p' l pend /\ same_config p p' /\
    (forall j, ref_of p' j = if decide (i = j) then 1 else ref_of p j) /\
    (forall j, hash_of p' j = if decide (i = j /\ enable_caching p = true) then None else hash_of p j).
Proof.
  intros B R. assert (real_block p i /\ ref_of p i = 0) as [[Hi0 Hi] Href] by (apply (ro_free _ _ _ R); set_solver).
  unfold take_step.
  assert (exists p1, (if enable_caching p then '(_, p) ← maybe_evict_cached_block i p; Ok p else Ok p) = Ok p1 /\
    pool_base p1 l /\ same_config p p1 /\ (forall j, ref_of p1 j = ref_of p j) /\
    (forall j, hash_of p1 j = if decide (i = j /\ enable_caching p = true) then None else hash_of p j))
    as (p1 & -> & B1 & C1 & R1 & H1).
  { destruct (enable_caching p) eqn:Ec.
    - destruct (maybe_evict_spec p l i B Hi) as (p1 & -> & ? & ? & ? & Hh). exists p1. split_and!; try done.
      intros j. rewrite Hh. repeat case_decide; naive_solver.
    - exists p. split_and!; try done. intros j. rewrite decide_False by naive_solver. done. }
  simpl. assert (N1 : num_gpu_blocks p1 = num_gpu_blocks p) by (symmetry; apply C1).
  destruct (block_at_ok p1 l i B1) as (b & -> & Hb & Hbr & _); [by rewrite N1|]. simpl.
  rewrite R1, Href in Hbr. rewrite <- Hbr. simpl.
  set (p2 := metrics _ _).
  assert (R2 : forall j, ref_of p2 j = if decide (i = j) then 1 else ref_of p j).
  { intros j. rewrite <- R1. apply (ref_of_set_ref (0 + 1) p1 l i j B1). by rewrite N1. }
  exists p2. split_and!; [done|..].
  - by apply pool_base_metrics, set_ref_base.
  - by apply (refs_ok_take p p2 l pend i).
  - done.
  - done.
  - intros j. rewrite <- H1. apply (hash_of_set_ref (0 + 1) p1 i j).
Qed.

Lemma take_loop p l ret :
  pool_base p l -> refs_ok p l ret ->
  exists p', foldM take_step ret p = Ok p' /\ pool_base p' l /\ refs_ok p' l [] /\ same_config p p' /\
    (forall j, ref_of p' j = if decide (j ∈ ret) then 1 else ref_of p j) /\
    (forall j, hash_of p' j = if decide (j ∈ ret /\ enable_caching p = true) then None else hash_of p j).
Proof.
  revert p; induction ret as [|i ret IH]; intros p B R.
  - exists p. split_and!; try done; intros j; rewrite decide_False by set_solver; done.
  - simpl. destruct (take_step_spec p l ret i B R) as (p1 & -> & B1 & R1 & C1 & Hr1 & Hh1). simpl.
    destruct (IH p1 B1 R1) as (p2 & -> & B2 & R2 & C2 & Hr2 & Hh2).
    assert (Ec : enable_caching p1 = enable_caching p) by (symmetry; apply C1).
    exists p2. split_and!; try done; [by etrans|..]; intros j.
    + rewrite Hr2, Hr1. repeat case_decide; set_solver.
    + rewrite Hh2, Hh1, Ec. repeat case_decide; set_solver.
Qed.

(** Moving the head of the free list into the pending blocks. *)
Lemma refs_ok_pop p l1 l2 : refs_ok p (l1 ++ l2) [] -> refs_ok p l2 l1.
Proof.
  intros [Hnd Hf Hp]. rewrite app_nil_r in *. split; [by rewrite Permutation_app_comm|..|done].
  intros i. rewrite <- Hf. set_solver.
Qed.

Lemma get_new_blocks_spec p l n :
  pool_inv p l -> (n <= length l)%nat ->
  exists p', get_new_blocks (Z.of_nat n) p = Ok (take n l, p') /\ pool_inv p' (drop n l) /\ same_config p p' /\
    (forall j, ref_of p' j = if decide (j ∈ take n l) then 1 else ref_of p j) /\
    (forall j, hash_of p' j = if decide (j ∈ take n l /\ enable_caching p = true) then None else hash_of p j).
Proof.
  intros [B R] Hn. unfold get_new_blocks, get_num_free_blocks.
  rewrite (qr_num _ _ (pb_queue _ _ B)), (proj2 (Z.ltb_ge _ _)) by lia.
  destruct (popleft_n_repr _ l n (pb_queue _ _ B) Hn) as (q & -> & Hq & Hfr). simpl.
  rewrite <- list_fmap_compose, list_fmap_id.
  destruct (pool_base_queue p l (drop n l) q B Hq Hfr) as (B1 & R1 & H1).
  rewrite <- (take_drop n l) in R. apply refs_ok_pop in R.
  apply (refs_ok_ext p (with_queue q p)) in R; [|done..].
  destruct (take_loop _ _ _ B1 R) as (p' & -> & B2 & R2 & C2 & Hr & Hh).
  exists p'. split_and!; [done|by split|done|..]; intros j; [by rewrite Hr, R1|by rewrite Hh, H1].
Qed.

Lemma inv_free p l i : pool_inv p l -> i ∈ l <-> real_block p i /\ ref_of p i = 0.
Proof. intros [_ R]. rewrite <- (ro_free _ _ _ R). by rewrite app_nil_r. Qed.

(** How often a block occurs in the argument list. *)
Definition occ (j : nat) (bs : list nat) : Z := Z.of_nat (length (filter (.= j) bs)).

Lemma occ_cons j i bs : occ j (i :: bs) = (if decide (i = j) then 1 else 0) + occ j bs.
Proof. unfold occ. rewrite filter_cons. case_decide; simpl; lia. Qed.

Lemma occ_nonneg j bs : 0 <= occ j bs.
Proof. unfold occ. lia. Qed.

Lemma occ_notin j bs : j ∉ bs -> occ j bs = 0.
Proof.
  induction bs as [|i bs IH]; [done|]. intros [??]%not_elem_of_cons.
  rewrite occ_cons, decide_False by done. rewrite IH by done. lia.
Qed.

Lemma touch_step_spec p l i :
  pool_inv p l -> Z.of_nat i < num_gpu_blocks p ->
  exists p', touch_step p i = Ok p' /\ pool_inv p' (filter (.≠ i) l) /\ same_config p p' /\
    (forall j, ref_of p' j = ref_of p j + (if decide (i = j) then 1 else 0)) /\
    (forall j, hash_of p' j = hash_of p j).
Proof.
  intros I Hi. assert (I' := I). destruct I' as [B R]. unfold touch_step.
  destruct (block_at_ok p l i B Hi) as (b & -> & Hb & Hbr & _ & Hbn). simpl.
  assert (exists p1, (if (ref_cnt b =? 0) && negb (is_null b)
       then q ← remove (Blk i) (free_block_queue p); Ok (with_queue q p) else Ok p) = Ok p1 /\
    pool_base p1 (filter (.≠ i) l) /\ same_config p p1 /\ (forall j, ref_of p1 j = ref_of p j) /\
    (forall j, hash_of p1 j = hash_of p j)) as (p1 & -> & B1 & C1 & R1 & H1).
  { rewrite Hbn, <- Hbr. destruct (decide (i ∈ l)) as [Hin|Hin].
    - assert (real_block p i /\ ref_of p i = 0) as [[Hne _] ->] by by apply (inv_free p l).
      rewrite bool_decide_false by done. simpl.
      assert (Hnd := qr_nodup _ _ (pb_queue _ _ B)).
      apply list_elem_of_split in Hin as (l1 & l2 & ->).
      destruct (remove_repr _ _ _ _ (pb_queue _ _ B)) as (q & -> & Hq & Hfr). simpl.
      destruct (pool_base_queue p _ _ q B Hq Hfr) as (B1 & R1 & H1).
      eexists. split; [done|]. rewrite filter_app, filter_cons_False by auto.
      rewrite <- Permutation_middle in Hnd. apply NoDup_cons in Hnd as [Hn _].
      rewrite !filter_all by set_solver. done.
    - rewrite filter_all by set_solver. exists p. split_and!; try done.
      destruct (Z.eqb_spec (ref_of p i) 0); [|done]. case_bool_decide; [done|]. exfalso. apply Hin.
      by apply (inv_free p l). }
  simpl. assert (N1 : num_gpu_blocks p1 = num_gpu_blocks p) by (symmetry; apply C1).
  destruct (block_at_ok p1 _ i B1) as (b1 & -> & Hb1 & Hb1r & _); [by rewrite N1|]. simpl.
  set (p2 := metrics _ _).
  assert (R2 : forall j, ref_of p2 j = ref_of p j + (if decide (i = j) then 1 else 0)).
  { intros j. rewrite <- R1. unfold p2.
    change (ref_of (metrics ?m ?q) j) with (ref_of q j).
    rewrite (ref_of_set_ref _ p1 (filter (.≠ i) l)) by (done || by rewrite N1).
    destruct (decide (i = j)) as [<-|]; [by rewrite Hb1r|lia]. }
  exists p2. split_and!; [done| |done|done|].
  - split; [by apply pool_base_metrics, set_ref_base|].
    destruct R as [Hnd Hf Hp]. rewrite app_nil_r in *. split; rewrite ?app_nil_r.
    + by apply NoDup_filter.
    + intros j. rewrite list_elem_of_filter, Hf, R2. unfold real_block.
      change (num_gpu_blocks p2) with (num_gpu_blocks p1). rewrite N1.
      specialize (Hp j). destruct (decide (i = j)) as [<-|Hij].
      * split; [by intros [? _]|]. intros [[H0 _] Hz]. specialize (Hp H0). lia.
      * rewrite Z.add_0_r. split; [tauto|]. by intros H; split; [congruence|].
    + intros j Hj. rewrite R2. specialize (Hp j Hj). destruct (decide (i = j)); lia.
  - intros j. rewrite <- H1. apply hash_of_set_ref.
Qed.

(** [touch]: every block gains one reference per occurrence, and the touched
    blocks leave the free list. *)
Lemma touch_spec p l bs :
  pool_inv p l -> (forall i, i ∈ bs -> Z.of_nat i < num_gpu_blocks p) ->
  exists p', touch bs p = Ok p' /\ pool_inv p' (filter (fun i => i ∉ bs) l) /\ same_config p p' /\
    (forall j, ref_of p' j = ref_of p j + occ j bs) /\ (forall j, hash_of p' j = hash_of p j).
Proof.
  revert p l; induction bs as [|i bs IH]; intros p l I Hb.
  - exists p. split_and!; try done.
    + rewrite filter_all by set_solver. done.
    + intros j. unfold occ. simpl. lia.
  - unfold touch. cbn [foldM].
    destruct (touch_step_spec p l i I) as (p1 & -> & I1 & C1 & R1 & H1); [set_solver|]. simpl.
    assert (N1 : num_gpu_blocks p1 = num_gpu_blocks p) by (symmetry; apply C1).
    destruct (IH p1 _ I1) as (p2 & E & I2 & C2 & R2 & H2); [rewrite N1; set_solver|].
    unfold touch in E. rewrite E. exists p2. split_and!; [done| |by etrans|..].
    + rewrite list_filter_filter in I2. 
      erewrite list_filter_iff; [exact I2|]. set_solver.
    + intros j. rewrite R2, R1, occ_cons. lia.
    + intros j. by rewrite H2, H1.
Qed.

(** ** Freeing *)

(** What a caller of [free_blocks] guarantees: known blocks, a real block at
    most once and only while it holds a reference (the null block may repeat). *)
Definition freeable (p : pool) (bs : list nat) : Prop :=
  (forall i, i ∈ bs -> Z.of_nat i < num_gpu_blocks p) /\
  NoDup (filter (.≠ 0%nat) bs) /\
  (forall i, i ∈ bs -> i <> 0%nat -> 0 < ref_of p i).

(** The blocks whose last reference goes. *)
Definition last_ref (p : pool) (bs : list nat) : list nat :=
  filter (fun i => i <> 0%nat /\ ref_of p i = 1) bs.

Lemma refs_ok_release p p' l pend i :
  num_gpu_blocks p' = num_gpu_blocks p -> real_block p i -> 0 < ref_of p i ->
  (forall j, ref_of p' j = ref_of p j - (if decide (i = j) then 1 else 0)) ->
  refs_ok p l pend -> refs_ok p' l (pend ++ (if decide (ref_of p i = 1) then [i] else [])).
Proof.
  intros Hn Hi Hpos Hr [Hnd Hf Hp].
  assert (Hni : i ∉ l ++ pend) by (rewrite Hf; lia). unfold real_block in *. split.
  - case_decide; [|by rewrite app_nil_r]. rewrite app_assoc. apply NoDup_app.
    split_and!; [done|set_solver|apply NoDup_singleton].
  - intros j. unfold real_block. rewrite Hn, Hr, app_assoc, elem_of_app, Hf.
    assert (Hmem : j ∈ (if decide (ref_of p i = 1) then [i] else []) <-> j = i /\ ref_of p i = 1).
    { destruct (decide (ref_of p i = 1)); set_solver. }
    rewrite Hmem. destruct (decide (i = j)) as [<-|Hij].
    + split; [intros [[? ?]|[? ?]]; split; tauto || lia|]. intros [? ?]. right. split; [done|lia].
    + rewrite Z.sub_0_r. split; [|tauto]. intros [?|[? _]]; [done|congruence].
  - intros j Hj. rewrite Hr. specialize (Hp j Hj). destruct (decide (i = j)) as [<-|]; lia.
Qed.

Lemma release_step_spec p l pend i :
  pool_base p l -> refs_ok p l pend -> Z.of_nat i < num_gpu_blocks p ->
  (i <> 0%nat -> 0 < ref_of p i) ->
  exists p', release_step p i = Ok p' /\ pool_base p' l /\
    refs_ok p' l (pend ++ last_ref p [i]) /\ same_config p p' /\
    (forall j, ref_of p' j = ref_of p j - (if decide (i = j) then 1 else 0)) /\
    (forall j, hash_of p' j = hash_of p j).
Proof.
  intros B R Hi Hpos. unfold release_step.
  destruct (block_at_ok p l i B Hi) as (b & -> & Hb & Hbr & _). simpl.
  set (p' := update_block _ _ _).
  assert (R' : forall j, ref_of p' j = ref_of p j - (if decide (i = j) then 1 else 0)).
  { intros j. unfold p'. rewrite (ref_of_set_ref _ p l) by done.
    destruct (decide (i = j)) as [<-|]; lia. }
  exists p'. split_and!; [done|by apply set_ref_base| |done|done|intros j; apply hash_of_set_ref].
  unfold last_ref. rewrite filter_cons, filter_nil. destruct (decide (i = 0%nat)) as [Hi0|Hi0].
  - rewrite decide_False by tauto. rewrite app_nil_r. destruct R as [Hnd Hf Hp]. split; [done|..].
    + intros j. rewrite Hf. unfold real_block. change (num_gpu_blocks p') with (num_gpu_blocks p).
      rewrite R'. destruct (decide (i = j)); [naive_solver|]. by rewrite Z.sub_0_r.
    + intros j Hj. rewrite R'. specialize (Hp j Hj). destruct (decide (i = j)); [congruence|lia].
  - assert (Hr := refs_ok_release p p' l pend i eq_refl (conj Hi0 Hi) (Hpos Hi0) R' R).
    destruct (decide (ref_of p i = 1)); [rewrite decide_True|rewrite decide_False]; tauto || done.
Qed.

Lemma freeable_tail p p' i bs :
  num_gpu_blocks p' = num_gpu_blocks p ->
  (forall j, ref_of p' j = ref_of p j - (if decide (i = j) then 1 else 0)) ->
  freeable p (i :: bs) ->
  freeable p' bs /\ (forall j, j ∈ bs -> j <> 0%nat -> ref_of p' j = ref_of p j).
Proof.
  intros Hn Hr (Hb & Hnd & Hpos).
  assert (Hsame : forall j, j ∈ bs -> j <> 0%nat -> ref_of p' j = ref_of p j).
  { intros j Hj Hj0. rewrite Hr. destruct (decide (i = j)) as [<-|]; [exfalso|lia].
    rewrite filter_cons_True in Hnd by done. apply NoDup_cons in Hnd as [Hni _].
    apply Hni, list_elem_of_filter. done. }
  split; [|done]. split_and!.
  - rewrite Hn. set_solver.
  - rewrite filter_cons in Hnd. case_decide; [|done]. by apply NoDup_cons in Hnd as [_ ?].
  - intros j Hj Hj0. rewrite Hsame by done. set_solver.
Qed.

Lemma release_loop p l pend bs :
  pool_base p l -> refs_ok p l pend -> freeable p bs ->
  exists p', foldM release_step bs p = Ok p' /\ pool_base p' l /\
    refs_ok p' l (pend ++ last_ref p bs) /\ same_config p p' /\
    (forall j, ref_of p' j = ref_of p j - occ j bs) /\ (forall j, hash_of p' j = hash_of p j).
Proof.
  revert p pend; induction bs as [|i bs IH]; intros p pend B R F.
  - exists p. unfold last_ref. rewrite filter_nil, app_nil_r. split_and!; try done.
    intros j. unfold occ. simpl. lia.
  - cbn [foldM]. assert (F' := F). destruct F' as (Hb & Hnd & Hpos).
    destruct (release_step_spec p l pend i B R) as (p1 & -> & B1 & R1 & C1 & Hr1 & Hh1);
      [set_solver|intros; apply Hpos; set_solver|]. simpl.
    destruct (freeable_tail p p1 i bs) as [F1 Hs]; [symmetry; apply C1|done|done|].
    destruct (IH p1 _ B1 R1 F1) as (p2 & -> & B2 & R2 & C2 & Hr2 & Hh2).
    exists p2. split_and!; [done|done| |by etrans|..].
    + assert (E : last_ref p1 bs = last_ref p bs).
      { unfold last_ref. apply filter_ext_in. intros j Hj.
        split; intros [? ?]; (split; [done|]); rewrite ?Hs in *; done || by rewrite <- Hs. }
      rewrite E, <- app_assoc in R2. unfold last_ref in *. by rewrite (filter_app _ [i] bs).
    + intros j. rewrite Hr2, Hr1, occ_cons. lia.
    + intros j. by rewrite Hh2, Hh1.
Qed.

Lemma is_releasable_spec p l i :
  pool_base p l -> Z.of_nat i < num_gpu_blocks p ->
  is_releasable p i = true <-> real_block p i /\ ref_of p i = 0.
Proof.
  intros B Hi. unfold is_releasable.
  destruct (block_at_ok p l i B Hi) as (b & _ & -> & -> & _ & ->).
  rewrite andb_true_iff, Z.eqb_eq, negb_true_iff, bool_decide_eq_false. unfold real_block. tauto.
Qed.

(** [free_blocks]: every block loses one reference per occurrence; those that
    lose their last one join the tail of the free list, in order. *)
Lemma free_blocks_spec p l bs :
  pool_inv p l -> freeable p bs ->
  exists p', free_blocks bs p = Ok p' /\ pool_inv p' (l ++ last_ref p bs) /\ same_config p p' /\
    (forall j, ref_of p' j = ref_of p j - occ j bs) /\ (forall j, hash_of p' j = hash_of p j).
Proof.
  intros [B R] F. unfold free_blocks.
  destruct (release_loop p l [] bs B R F) as (p1 & -> & B1 & R1 & C1 & Hr1 & Hh1). simpl in *.
  destruct F as (Hb & _ & Hpos).
  assert (N1 : num_gpu_blocks p1 = num_gpu_blocks p) by (symmetry; apply C1).
  assert (E : filter (fun i => is_releasable p1 i = true) bs = last_ref p bs).
  { apply filter_ext_in. intros i Hi. rewrite (is_releasable_spec p1 l) by (done || rewrite N1; auto).
    rewrite <- (ro_free _ _ _ R1), elem_of_app, (inv_free p l) by done.
    unfold last_ref. rewrite list_elem_of_filter. split; [|tauto].
    intros [[[H0 _] Hz]|?]; [|tauto]. specialize (Hpos i Hi H0). lia. }
  rewrite E.
  destruct (append_n_repr (free_block_queue p1) l (last_ref p bs)) as (q & -> & Hq & Hfr).
  - apply B1.
  - apply R1.
  - intros i Hi. apply (pb_dom _ _ B1). rewrite N1. apply Hb. unfold last_ref in Hi.
    by apply list_elem_of_filter in Hi as [_ ?].
  - simpl. destruct (pool_base_queue p1 l _ q B1 Hq Hfr) as (B2 & R2 & H2).
    eexists. split_and!; [done| |done|intros; by rewrite R2|intros; by rewrite H2].
    split; [done|]. apply (refs_ok_ext p1); [done..|].
    destruct R1 as [Hnd Hf Hp]. split; by rewrite ?app_nil_r.
Qed.

(** [evict_blocks]: the named blocks lose their hash, nothing is freed. *)
Lemma evict_blocks_spec p l bs :
  pool_inv p l -> (forall i, i ∈ bs -> Z.of_nat i < num_gpu_blocks p) ->
  exists p', evict_blocks (Z.of_nat <$> bs) p = Ok p' /\ pool_inv p' l /\ same_config p p' /\
    (forall j, ref_of p' j = ref_of p j) /\
    (forall j, hash_of p' j = if decide (j ∈ bs) then None else hash_of p j).
Proof.
  revert p; induction bs as [|i bs IH]; intros p [B R] Hb.
  - exists p. split_and!; try done; intros j; by rewrite decide_False by set_solver.
  - assert (Hi : Z.of_nat i < num_gpu_blocks p) by set_solver.
    destruct (maybe_evict_spec p l i B Hi) as (p1 & Ev & B1 & C1 & Hr1 & Hh1).
    assert (Es : evict_step p (Z.of_nat i) = Ok p1).
    { unfold evict_step. rewrite (proj2 (Z.ltb_lt _ _) Hi). simpl.
      rewrite py_index_nonneg, Nat2Z.id, lookup_seq_lt by lia. simpl. by rewrite Ev. }
    unfold evict_blocks. rewrite fmap_cons. cbn [foldM]. rewrite Es. simpl.
    assert (N1 : num_gpu_blocks p1 = num_gpu_blocks p) by (symmetry; apply C1).
    destruct (IH p1) as (p2 & E & I2 & C2 & Hr2 & Hh2).
    + split; [done|]. by apply (refs_ok_ext p).
    + rewrite N1. set_solver.
    + unfold evict_blocks in E. rewrite E. exists p2. split_and!; [done|done|by etrans|..]; intros j.
      * by rewrite Hr2, Hr1.
      * rewrite Hh2, Hh1. repeat case_decide; set_solver.
Qed.

Lemma reset_hashes_spec p l is_ :
  (forall i, i ∈ is_ -> Z.of_nat i < num_gpu_blocks p) -> pool_base p l ->
  let p' := fold_left (fun p i => update_block reset_hash i p) is_ (with_cache ∅ p) in
  queue_repr (free_block_queue p') l /\ same_config p p' /\ cached_block_hash_to_block p' = ∅ /\
  (forall j, is_Some (store p' !! Blk j) <-> is_Some (store p !! Blk j)) /\
  (forall j b, store p' !! Blk j = Some b -> block_id b = Z.of_nat j /\ is_null b = bool_decide (j = 0%nat)) /\
  (forall j, ref_of p' j = ref_of p j) /\
  (forall j, hash_of p' j = if decide (j ∈ is_) then None else hash_of p j).
Proof.
  intros Hin B. induction is_ as [|i is_ IH] using rev_ind.
  - simpl. split_and!; try done; try apply B.
  - simpl. rewrite fold_left_app. simpl in *. destruct IH as (Q & C & E & D & A & Rf & H); [set_solver|].
    set (p1 := fold_left _ is_ _) in *.
    assert (St : forall j, store (update_block reset_hash i p1) !! Blk j =
      if decide (i = j) then reset_hash <$> store p1 !! Blk j else store p1 !! Blk j).
    { intros j. rewrite store_update. repeat case_decide; congruence. }
    split_and!; [by apply update_repr|done|done|..].
    + intros j. rewrite <- D, St. case_decide; [by rewrite fmap_is_Some|done].
    + intros j b. rewrite St. case_decide; [|apply A].
      destruct (store p1 !! Blk j) as [b0|] eqn:Eb; [|done]. intros [= <-]. exact (A j b0 Eb).
    + intros j. rewrite <- Rf. apply ref_of_set_hash.
    + intros j. unfold hash_of at 1. rewrite St. unfold hash_of in H at 1.
      destruct (decide (i = j)) as [<-|].
      * rewrite decide_True by set_solver. by destruct (store p1 !! Blk i).
      * rewrite H. apply decide_ext. set_solver.
Qed.

(** [reset_prefix_cache]: succeeds exactly when no real block is referenced,
    and then forgets every hash. *)
Lemma reset_prefix_cache_spec p l :
  pool_inv p l ->
  let '(ok, p') := reset_prefix_cache p in
  ok = bool_decide (Z.of_nat (length l) = num_gpu_blocks p - 1) /\ pool_inv p' l /\ same_config p p' /\
  (forall j, ref_of p' j = ref_of p j) /\ (forall j, hash_of p' j = if ok then None else hash_of p j).
Proof.
  intros [B R]. unfold reset_prefix_cache, get_num_free_blocks.
  rewrite (qr_num _ _ (pb_queue _ _ B)).
  destruct (Z.eqb_spec (num_gpu_blocks p - Z.of_nat (length l)) 1) as [E|E]; simpl.
  - set (is_ := seq 0 (Z.to_nat (num_gpu_blocks p))).
    destruct (reset_hashes_spec p l is_) as (Q & C & Ec & D & A & Rf & H); [|done|].
    { intros i [_ ?]%elem_of_seq. lia. }
    set (p1 := fold_left _ is_ _) in *.
    assert (Hn : forall j, hash_of p1 j = None).
    { intros j. rewrite H. case_decide as Hj; [done|]. unfold hash_of.
      destruct (store p !! Blk j) eqn:Ej; [|done]. exfalso. apply Hj, elem_of_seq.
      assert (Z.of_nat j < num_gpu_blocks p) by (apply (pb_dom _ _ B); by eexists). lia. }
    assert (N1 : num_gpu_blocks p1 = num_gpu_blocks p) by (symmetry; apply C).
    split_and!.
    + symmetry. apply bool_decide_true. lia.
    + split.
      * apply pool_base_emit, pool_base_metrics. split; try done.
        -- rewrite N1. apply B.
        -- intros j. rewrite D, N1. apply B.
        -- rewrite <- (pb_null _ _ B). symmetry. apply C.
        -- intros key j. unfold cached_ids. rewrite Ec, lookup_empty, Hn. set_solver.
        -- rewrite Ec. intros k cs. by rewrite lookup_empty.
      * eapply refs_ok_ext; [..|exact R]; [|intros j; unfold ref_of; rewrite store_emit; apply Rf].
        rewrite <- (proj1 (same_config_emit AllBlocksCleared (metrics MetricsReset p1))). done.
    + etrans; [|apply same_config_emit]. done.
    + intros j. unfold ref_of at 1. rewrite store_emit. apply Rf.
    + intros j. unfold hash_of at 1. rewrite store_emit. apply Hn.
  - split_and!; try done. symmetry. apply bool_decide_false. lia.
Qed.

(** ** Caching full blocks *)

(** The cache key of block [k] of a request at a given scale and group. *)
Definition block_key (r : Request) (scale group k : Z) : bytes :=
  concat (HashListFacts.group (block_hashes r) scale k) ++ be_bytes 4 group.

Lemma set_block_hash_ok v b : block_hash b = None -> set_block_hash v b = Ok (with_hash (Some v) b).
Proof. intros E. unfold set_block_hash. by rewrite E. Qed.

Lemma cache_step_spec p l nh nbh group k blk h :
  pool_base p l -> Z.of_nat blk < num_gpu_blocks p -> (blk <> 0%nat -> hash_of p blk = None) ->
  0 <= group < 2 ^ 32 -> nbh !! k = Some h ->
  exists p' nh', cache_step group nbh (p, nh) (k, blk) = Ok (p', nh') /\ pool_base p' l /\
    same_config p p' /\ (forall j, ref_of p' j = ref_of p j) /\
    (forall j, hash_of p' j = if decide (blk = j /\ blk <> 0%nat) then Some (h ++ be_bytes 4 group)
                              else hash_of p j).
Proof.
  intros B Hb Hnone Hg Hk. unfold cache_step.
  destruct (block_at_ok p l blk B Hb) as (b & -> & Hst & _ & Hh & Hnull). simpl. rewrite Hnull.
  case_bool_decide as H0.
  - exists p, nh. split_and!; try done. intros j. by rewrite decide_False by tauto.
  - specialize (Hnone H0). rewrite <- Hh, Hnone. simpl.
    rewrite py_index_nonneg, Nat2Z.id, Hk by lia. simpl.
    rewrite make_key_total by done. cbn [mbind result_bind].
    set (key := h ++ be_bytes 4 group).
    rewrite set_block_hash_ok by by rewrite <- Hh. cbn [mbind result_bind].
    assert (Eu : update_block (fun _ => with_hash (Some key) b) blk p = update_block (with_hash (Some key)) blk p).
    { unfold update_block. do 2 f_equal. apply map_eq. intros m. rewrite !lookup_alter.
      case_decide; [|done]. subst m. by rewrite Hst. }
    rewrite Eu.
    eexists _, _. split; [reflexivity|]. split_and!; [|done|..].
    + apply set_hash_base; [done..|apply insert_wf, B|done|]. intros key' j.
      rewrite insert_ids. destruct (decide (key = key')) as [<-|Hne].
      * rewrite elem_of_dict_set, (pb_cache _ _ B). destruct (decide (blk = j)) as [<-|]; naive_solver.
      * rewrite (pb_cache _ _ B). destruct (decide (blk = j)) as [<-|]; [|done].
        rewrite Hnone. split; [done|congruence].
    + intros j. apply ref_of_set_hash.
    + intros j. etrans; [apply (hash_of_set_hash (Some key) p l blk j B Hb)|].
      destruct (decide (blk = j)); [rewrite decide_True by done|rewrite decide_False by tauto]; done.
Qed.

(** The keys handed out to a list of blocks numbered from [k] on. *)
Lemma cache_loop p l nh nbh group k blks :
  pool_base p l -> (forall i, i ∈ blks -> Z.of_nat i < num_gpu_blocks p) ->
  (forall i, i ∈ blks -> i <> 0%nat -> hash_of p i = None) -> NoDup (filter (.≠ 0%nat) blks) ->
  0 <= group < 2 ^ 32 -> (k + length blks <= length nbh)%nat ->
  exists p' nh', foldM (cache_step group nbh) (zip (seq k (length blks)) blks) (p, nh) = Ok (p', nh') /\
    pool_base p' l /\ same_config p p' /\ (forall j, ref_of p' j = ref_of p j) /\
    (forall m blk, blks !! m = Some blk -> blk <> 0%nat ->
       exists h, nbh !! (k + m)%nat = Some h /\ hash_of p' blk = Some (h ++ be_bytes 4 group)) /\
    (forall j, (j = 0%nat \/ (j ∉ blks)) -> hash_of p' j = hash_of p j).
Proof.
  revert p nh k; induction blks as [|blk blks IH]; intros p nh k B Hb Hn Hnd Hg Hlen.
  - exists p, nh. simpl. split_and!; try done.
  - cbn [length seq zip zip_with foldM].
    destruct (lookup_lt_is_Some_2 nbh k) as [h Hk]; [simpl in Hlen; lia|].
    destruct (cache_step_spec p l nh nbh group k blk h B) as (p1 & nh1 & -> & B1 & C1 & R1 & H1);
      [set_solver|set_solver|done|done|]. cbn [mbind result_bind].
    assert (N1 : num_gpu_blocks p1 = num_gpu_blocks p) by (symmetry; apply C1).
    assert (Hni : blk <> 0%nat -> blk ∉ blks).
    { intros H0 Hin. rewrite filter_cons_True in Hnd by done. apply NoDup_cons in Hnd as [Hni _].
      apply Hni, list_elem_of_filter. done. }
    assert (Hnd' : NoDup (filter (.≠ 0%nat) blks)).
    { rewrite filter_cons in Hnd. case_decide; [|done]. by apply NoDup_cons in Hnd as [_ ?]. }
    destruct (IH p1 nh1 (S k)) as (p2 & nh2 & E2 & B2 & C2 & R2 & K2 & H2); [done|..|done|done| |].
    + rewrite N1. set_solver.
    + intros i Hi Hi0. rewrite H1, decide_False; [set_solver|]. intros [-> ?]. by apply Hni.
    + simpl in Hlen. lia.
    + exists p2, nh2. split_and!; [done|done|by etrans|intros; by rewrite R2, R1|..].
      * intros [|m] b; simpl.
        -- intros [= <-] H0. exists h. rewrite Nat.add_0_r. split; [done|].
           rewrite H2 by auto. by rewrite H1, decide_True by done.
        -- intros Hm H0. destruct (K2 m b Hm H0) as (h' & ? & ?). exists h'. split; [|done].
           by rewrite Nat.add_succ_r.
      * intros j Hj. rewrite H2 by set_solver. rewrite H1, decide_False; [done|]. set_solver.
Qed.

(** Both ways of reading the request's hashes agree. *)
Lemma hash_list_ok r bs hbs nc :
  0 < hbs -> 0 < bs -> bs mod hbs = 0 -> 0 <= nc ->
  exists hl nbh, (if bs =? hbs then Ok (HList (block_hashes r)) else
        _ ← py_assert (bs mod hbs =? 0);
        scale ← BlockHashListWithBlockSize.scale_factor hbs bs;
        Ok (HScaled (block_hashes r) scale)) = Ok hl /\ hl_from hl nc = Ok nbh /\
    Z.of_nat (length nbh) = Z.max 0 (py_len (block_hashes r) / (bs / hbs) - nc) /\
    (forall m, (m < length nbh)%nat ->
       nbh !! m = Some (concat (HashListFacts.group (block_hashes r) (bs / hbs) (nc + Z.of_nat m)))) /\
    (1 <= nc <= py_len (block_hashes r) / (bs / hbs) -> exists h, hl_get hl (nc - 1) = Ok h).
Proof.
  intros Hh Hb Hmod Hnc. set (hs := block_hashes r).
  assert (Hs : 0 < bs / hbs) by (pose proof (Z.div_mod bs hbs ltac:(lia)); nia).
  destruct (Z.eqb_spec bs hbs) as [->|Hne].
  - rewrite Z_div_same by lia. exists (HList hs), (py_slice hs nc (py_len hs)). rewrite Z.div_1_r.
    unfold py_len. rewrite py_slice_nonneg by lia.
    split_and!; [done|simpl; by rewrite py_slice_nonneg by (unfold py_len; lia)|..].
    + rewrite length_take, length_drop. lia.
    + intros m Hm. rewrite length_take, length_drop in Hm.
      rewrite lookup_take_lt, lookup_drop by lia.
      destruct (lookup_lt_is_Some_2 hs (Z.to_nat nc + m)%nat) as [h Eh]; [lia|]. rewrite Eh.
      unfold HashListFacts.group. rewrite !Z.mul_1_r.
      rewrite (py_slice_cons hs (nc + Z.of_nat m) _ h); [|lia|rewrite <- Eh; f_equal; lia].
      rewrite py_slice_nonneg by lia. replace (nc + Z.of_nat m + 1 - (nc + Z.of_nat m + 1)) with 0 by lia.
      simpl. by rewrite app_nil_r.
    + intros H1. simpl. destruct (py_index_ok hs (nc - 1)) as (x & -> & _); [unfold py_len; lia|]. eauto.
  - rewrite Hmod. simpl. unfold BlockHashListWithBlockSize.scale_factor. rewrite Hmod. simpl.
    destruct (HashListFacts.coarse_hashes_ok hs (bs / hbs) nc Hs Hnc) as [E V].
    eexists (HScaled hs (bs / hbs)), _. split_and!; [done|exact E|..].
    + rewrite length_fmap. unfold py_range. rewrite length_seqZ.
      unfold BlockHashListWithBlockSize.len in *. lia.
    + intros m Hm. rewrite length_fmap in Hm. unfold py_range in *. rewrite length_seqZ in Hm.
      rewrite list_lookup_fmap, lookup_seqZ_lt by lia. simpl. do 3 f_equal. lia.
    + intros H1. simpl. eexists. apply V. unfold BlockHashListWithBlockSize.len. lia.
Qed.

(** What the callers of [cache_full_blocks] guarantee: the new blocks exist, do
    not repeat, are not cached yet, and the request has hashes for all of them. *)
Record cache_pre (p : pool) (r : Request) (blocks : list nat) (nc nf bs group : Z) : Prop := {
  cp_sizes : 0 < hash_block_size p /\ 0 < bs /\ bs mod hash_block_size p = 0;
  cp_range : 0 <= nc /\ nf <= py_len blocks;
  cp_hashes : nf <= py_len (block_hashes r) / (bs / hash_block_size p);
  cp_group : 0 <= group < 2 ^ 32;
  cp_known : forall i, i ∈ py_slice blocks nc nf -> Z.of_nat i < num_gpu_blocks p;
  cp_fresh : forall i, i ∈ py_slice blocks nc nf -> i <> 0%nat -> hash_of p i = None;
  cp_nodup : NoDup (filter (.≠ 0%nat) (py_slice blocks nc nf));
}.

Lemma cache_full_blocks_spec p l r blocks nc nf bs group :
  pool_inv p l -> cache_pre p r blocks nc nf bs group ->
  exists p', cache_full_blocks r blocks nc nf bs group p = Ok p' /\ pool_inv p' l /\ same_config p p' /\
    (forall j, ref_of p' j = ref_of p j) /\
    (forall k blk, nc <= k < nf -> blocks !! Z.to_nat k = Some blk -> blk <> 0%nat ->
       hash_of p' blk = Some (block_key r (bs / hash_block_size p) group k)) /\
    (forall j, (j = 0%nat \/ (j ∉ py_slice blocks nc nf)) -> hash_of p' j = hash_of p j).
Proof.
  intros [B R] [(Hh & Hb & Hmod) (Hnc & Hlen) Hhs Hg Hk Hf Hnd]. unfold cache_full_blocks.
  destruct (Z.leb_spec nf nc) as [Hle|Hlt].
  { exists p. split_and!; try done. intros. lia. }
  assert (Hs : 0 < bs / hash_block_size p) by (pose proof (Z.div_mod bs (hash_block_size p) ltac:(lia)); nia).
  assert (Hl2 : nf <= py_len (block_hashes r)).
  { pose proof (Z.mul_div_le (py_len (block_hashes r)) (bs / hash_block_size p) Hs). unfold py_len in *. nia. }
  rewrite (proj2 (Z.leb_le _ _) Hl2). cbn [py_assert mbind result_bind].
  destruct (hash_list_ok r bs (hash_block_size p) nc Hh Hb Hmod Hnc) as (hl & nbh & -> & Enbh & Hln & Hnbh & Hpar).
  cbn [mbind result_bind]. rewrite Enbh. cbn [mbind result_bind].
  set (new := py_slice blocks nc nf) in *.
  assert (Hlnew : Z.of_nat (length new) = nf - nc).
  { unfold new. rewrite py_slice_nonneg, length_take, length_drop by lia. unfold py_len in *. lia. }
  destruct (cache_loop p l [] nbh group 0 new) as (p' & nh & -> & B' & C' & R' & K' & H'); [done..|lia|].
  cbn [mbind result_bind].
  assert (Hev : exists p2, (if enable_kv_cache_events p' then
      parent ← (if nc =? 0 then Ok None else
              h ← hl_get hl (nc - 1); Ok (Some (maybe_convert_block_hash (use_int_hashes p') h)));
      Ok (emit (BlockStored nh parent (py_slice (all_token_ids r) (nc * bs) (nf * bs)) bs
            (lora_int_id <$> lora_request r) (lora_name <$> lora_request r)) p')
      else Ok p') = Ok p2 /\ pool_base p2 l /\ same_config p' p2 /\ store p2 = store p').
  { destruct (enable_kv_cache_events p'); [|by exists p'].
    destruct (Z.eqb_spec nc 0).
    - eexists. split_and!; [reflexivity|by apply pool_base_emit|apply same_config_emit|apply store_emit].
    - destruct Hpar as [h Eh]; [lia|]. rewrite Eh. cbn [mbind result_bind].
      eexists. split_and!; [reflexivity|by apply pool_base_emit|apply same_config_emit|apply store_emit]. }
  destruct Hev as (p2 & -> & B2 & C2 & S2).
  assert (R2 : forall j, ref_of p2 j = ref_of p j) by (intros j; unfold ref_of at 1; rewrite S2; apply R').
  assert (H2 : forall j, hash_of p2 j = hash_of p' j) by (intros j; unfold hash_of; by rewrite S2).
  exists p2. split_and!; [done| |by etrans|done|..].
  - split; [done|]. apply (refs_ok_ext p); [|done..]. symmetry. by etrans; [apply C'|apply C2].
  - intros k blk Hkr Hblk H0. rewrite H2. destruct (K' (Z.to_nat (k - nc)) blk) as (h & Eh & ->); [|done|].
    + unfold new. rewrite py_slice_nonneg, lookup_take_lt, lookup_drop by lia. rewrite <- Hblk. f_equal. lia.
    + rewrite Hnbh in Eh by lia. injection Eh as <-. unfold block_key. do 4 f_equal. lia.
  - intros j Hj. rewrite H2. by apply H'.
Qed.

(** Looking a hash up in one group. *)
Lemma get_cached_loop_spec p l h gs acc :
  pool_base p l -> (forall g, g ∈ gs -> 0 <= g < 2 ^ 32) ->
  exists o, get_cached_loop p h gs acc = Ok o /\
    match o with
    | Some ids => exists ids', ids = acc ++ ids' /\
        Forall2 (fun g i => hash_of p i = Some (h ++ be_bytes 4 g)) gs ids'
    | None => exists g, g ∈ gs /\ forall i, hash_of p i <> Some (h ++ be_bytes 4 g)
    end.
Proof.
  intros B. revert acc; induction gs as [|g gs IH]; intros acc Hg; simpl.
  - exists (Some acc). split; [done|]. exists []. by rewrite app_nil_r.
  - rewrite make_key_total by set_solver. simpl.
    rewrite get_one_block_spec by apply B. simpl.
    destruct (cached_ids _ _) as [|i ids] eqn:E; simpl.
    + exists None. split; [done|]. exists g. split; [set_solver|]. intros i Hi.
      apply (pb_cache _ _ B) in Hi. rewrite E in Hi. set_solver.
    + destruct (IH (acc ++ [i])) as ([ids'|] & -> & Hres); [set_solver|..].
      * exists (Some ids'). split; [done|]. destruct Hres as (ids2 & -> & HF). exists (i :: ids2).
        rewrite <- app_assoc. split; [done|]. constructor; [|done].
        apply (pb_cache _ _ B). rewrite E. set_solver.
      * exists None. split; [done|]. destruct Hres as (g' & ? & ?). exists g'. set_solver.
Qed.

(** A fresh pool. *)
Lemma init_spec n caching hbs events use_int metrics :
  0 < n ->
  exists p, init n caching hbs events use_int metrics = Ok p /\
    pool_inv p (seq 1 (Z.to_nat n - 1)) /\ num_gpu_blocks p = n /\ enable_caching p = caching /\
    hash_block_size p = hbs /\ (forall i, ref_of p i = 0 /\ hash_of p i = None).
Proof.
  intros Hn. unfold init. rewrite (proj2 (Z.ltb_lt _ _) Hn). simpl.
  assert (HR := FreeQueueSpec.block_store_repr (Z.to_nat n)).
  set (q0 := FreeKVCacheBlockQueue.init _ _) in *.
  assert (Hst : forall m, match m with Blk i => option_relation same_payload (fun _ => False) (fun _ => False)
      (qheap q0 !! m) (if decide (i < Z.to_nat n)%nat then Some (new_block (Z.of_nat i)) else None) | _ => True end).
  { intros [| |i]; [done..|]. rewrite <- (FreeQueueSpec.block_store_lookup (Z.to_nat n) (Blk i)).
    apply init_payload. }
  clearbody q0. destruct (Z.to_nat n) as [|k] eqn:Ek; [lia|]. simpl seq in HR.
  destruct (popleft_cons _ _ _ HR) as (q & -> & HR' & Hfr). simpl. eexists. split; [reflexivity|].
  rewrite Nat.sub_0_r.
  assert (Hq : forall i, match qheap q !! Blk i with
     | Some b => (i < S k)%nat /\ block_id b = Z.of_nat i /\ ref_cnt b = 0 /\ block_hash b = None /\ is_null b = false
     | None => ~ (i < S k)%nat end).
  { intros i. specialize (Hst (Blk i)). specialize (Hfr (Blk i)). simpl in Hst.
    destruct (decide (i < S k)%nat), (qheap q0 !! Blk i), (qheap q !! Blk i); try done.
    destruct Hst as (E1&E2&E3&E4), Hfr as (?&?&?&?). simpl in E1, E2, E3, E4. split_and!; congruence. }
  set (p := update_block _ _ _).
  assert (Sp : forall i, store p !! Blk i = if decide (i = 0%nat) then with_null true <$> qheap q !! Blk i
                                        else qheap q !! Blk i).
  { intros i. unfold p. rewrite store_update. simpl. repeat case_decide; simplify_eq; done. }
  assert (Rh : forall i, ref_of p i = 0 /\ hash_of p i = None).
  { intros i. unfold ref_of, hash_of. rewrite Sp. specialize (Hq i).
    case_decide; destruct (qheap q !! Blk i); simpl in *; tauto. }
  split_and!; [|done..]. split; [split|split]; try done.
  - by apply update_repr.
  - intros i. rewrite Sp. specialize (Hq i). change (num_gpu_blocks p) with n.
    transitivity (is_Some (qheap q !! Blk i)); [case_decide; by rewrite ?fmap_is_Some|].
    destruct (qheap q !! Blk i); [|by split; [intros []|lia]]. split; [lia|by eexists].
  - intros i b. rewrite Sp. specialize (Hq i). destruct (qheap q !! Blk i) as [b0|]; [|by case_decide].
    destruct Hq as (_ & Hid & _ & _ & Hn0). case_decide; simpl; intros [= <-].
    + by rewrite bool_decide_true.
    + by rewrite bool_decide_false.
  - intros key i. unfold cached_ids. change (cached_block_hash_to_block p) with (∅ : cache).
    rewrite lookup_empty, (proj2 (Rh i)). set_solver.
  - apply Rh.
  - rewrite app_nil_r. apply NoDup_seq.
  - intros i. rewrite app_nil_r, elem_of_seq, (proj1 (Rh i)). unfold real_block.
    change (num_gpu_blocks p) with n. lia.
  - intros i _. by rewrite (proj1 (Rh i)).
Qed.
End PoolFacts.
End PoolFacts.

(** * The pool as seen by its clients *)
Module PoolSpec.
Import BlockPool PoolFacts.

(** The calls the cache managers make. *)
Inductive pool_call :=
| CallGetNew (n : nat)
| CallTouch (bs : list nat)
| CallFree (bs : list nat)
| CallEvict (bs : list nat)
| CallCache (r : Request) (blocks : list nat) (nc nf block_size group : Z)
| CallReset
| CallTakeEvents.

Definition run_call (c : pool_call) (p : pool) : result pool :=
  match c with
  | CallGetNew n => '(_, p) ← get_new_blocks (Z.of_nat n) p; Ok p
  | CallTouch bs => touch bs p
  | CallFree bs => free_blocks bs p
  | CallEvict bs => evict_blocks (Z.of_nat <$> bs) p
  | CallCache r blocks nc nf bs g => cache_full_blocks r blocks nc nf bs g p
  | CallReset => Ok (snd (reset_prefix_cache p))
  | CallTakeEvents => Ok (snd (take_events p))
  end.

(** The contract of each call. *)
Definition call_pre (c : pool_call) (p : pool) (l : list nat) : Prop :=
  match c with
  | CallGetNew n => (n <= length l)%nat
  | CallTouch bs | CallEvict bs => forall i, i ∈ bs -> Z.of_nat i < num_gpu_blocks p
  | CallFree bs => freeable p bs
  | CallCache r blocks nc nf bs g => cache_pre p r blocks nc nf bs g
  | CallReset | CallTakeEvents => True
  end.

(** The free list afterwards. *)
Definition call_free (c : pool_call) (p : pool) (l : list nat) : list nat :=
  match c with
  | CallGetNew n => drop n l
  | CallTouch bs => filter (fun i => i ∉ bs) l
  | CallFree bs => l ++ last_ref p bs
  | _ => l
  end.

Lemma run_call_ok c p l :
  pool_inv p l -> call_pre c p l ->
  exists p', run_call c p = Ok p' /\ pool_inv p' (call_free c p l) /\ same_config p p'.
Proof.
  intros I Hpre. destruct c; simpl in *.
  - destruct (get_new_blocks_spec p l n I Hpre) as (p' & -> & ? & ? & _). simpl. eauto.
  - destruct (touch_spec p l bs I Hpre) as (p' & -> & ? & ? & _). eauto.
  - destruct (free_blocks_spec p l bs I Hpre) as (p' & -> & ? & ? & _). eauto.
  - destruct (evict_blocks_spec p l bs I Hpre) as (p' & -> & ? & ? & _). eauto.
  - destruct (cache_full_blocks_spec p l r blocks nc nf block_size group I Hpre) as (p' & -> & ? & ? & _). eauto.
  - pose proof (reset_prefix_cache_spec p l I) as H. destruct (reset_prefix_cache p) as [ok p'].
    destruct H as (_ & ? & ? & _). eauto.
  - exists (snd (take_events p)). unfold take_events. destruct (enable_kv_cache_events p) eqn:E; simpl.
    + split_and!; [done|..|done]. destruct I as [[] []]. by split; split.
    + done.
Qed.

(** A pool after any admissible history of calls. *)
Inductive history : pool -> list nat -> Prop :=
| history_init n caching hbs events use_int mc p :
    init n caching hbs events use_int mc = Ok p -> history p (seq 1 (Z.to_nat n - 1))
| history_call p l c p' :
    history p l -> call_pre c p l -> run_call c p = Ok p' -> history p' (call_free c p l).

Lemma history_inv p l : history p l -> pool_inv p l.
Proof.
  induction 1 as [n caching hbs events use_int mc p Hinit|p l c p' _ IH Hpre Hrun].
  - assert (0 < n) as Hn.
    { unfold init in Hinit. destruct (Z.ltb_spec 0 n); [done|]. by simpl in Hinit. }
    destruct (init_spec n caching hbs events use_int mc Hn) as (p0 & E & I & _).
    rewrite E in Hinit. by injection Hinit as <-.
  - destruct (run_call_ok c p l IH Hpre) as (p0 & E & I & _). rewrite E in Hrun. by injection Hrun as <-.
Qed.

(** C9: the pool never fails and never loses a block.  After any admissible
    history of calls, the next admissible call returns (no exception, no broken
    link), the free queue then holds exactly the real blocks without references,
    each once and in the specified order, the hash map and the blocks' hashes
    agree, and the null block is neither queued nor cached. *)
Theorem pool_calls_safe p l c :
  history p l -> call_pre c p l ->
  exists p', run_call c p = Ok p' /\ pool_inv p' (call_free c p l).
Proof.
  intros I%history_inv Hpre. destruct (run_call_ok c p l I Hpre) as (p' & ? & ? & _). eauto.
Qed.

(** [get_new_blocks] on every branch: with too few free blocks it raises
    [ValueError]; otherwise it returns the first blocks of the free queue, each
    now with one reference and (with caching on) evicted from the prefix cache,
    while the reference counts and hashes of all other blocks are untouched. *)
Theorem get_new_blocks_correct p l n :
  pool_inv p l ->
  match get_new_blocks (Z.of_nat n) p with
  | Ok (ret, p') =>
      (n <= length l)%nat /\ ret = take n l /\ pool_inv p' (drop n l) /\
      (forall j, ref_of p' j = if decide (j ∈ ret) then 1 else ref_of p j) /\
      (forall j, hash_of p' j = if decide (j ∈ ret /\ enable_caching p = true) then None else hash_of p j)
  | Err e => e = ValueError /\ (length l < n)%nat
  end.
Proof.
  intros I. destruct (decide (n <= length l)%nat) as [Hn|Hn].
  - destruct (get_new_blocks_spec p l n I Hn) as (p' & -> & ? & _ & ? & ?). auto.
  - unfold get_new_blocks, get_num_free_blocks. rewrite (qr_num _ _ (pb_queue _ _ (proj1 I))).
    rewrite (proj2 (Z.ltb_lt _ _)) by lia. split; [done|lia].
Qed.

Lemma occ_nodup j bs : NoDup bs -> occ j bs = if decide (j ∈ bs) then 1 else 0.
Proof.
  induction bs as [|i bs IH]; intros Hnd; [done|]. apply NoDup_cons in Hnd as [Hi Hnd].
  rewrite occ_cons, IH by done. repeat case_decide; set_solver by lia.
Qed.

(** [touch] and [free_blocks] are inverse on reference counts: a request
    that hits distinct real blocks and later frees them leaves every count and
    every hash as it was, and the blocks nobody else holds are queued again, at
    the tail and in the order they were freed. *)
Theorem touch_free_balanced p l bs :
  pool_inv p l -> NoDup bs -> (forall i, i ∈ bs -> real_block p i) ->
  exists p1 p2, touch bs p = Ok p1 /\ free_blocks bs p1 = Ok p2 /\
    pool_inv p2 (filter (fun i => i ∉ bs) l ++ filter (fun i => ref_of p i = 0) bs) /\
    (forall j, ref_of p2 j = ref_of p j) /\ (forall j, hash_of p2 j = hash_of p j).
Proof.
  intros I Hnd Hreal.
  destruct (touch_spec p l bs I) as (p1 & E1 & I1 & C1 & R1 & H1); [intros i Hi; by apply Hreal|].
  assert (N1 : num_gpu_blocks p1 = num_gpu_blocks p) by (symmetry; apply C1).
  destruct (free_blocks_spec p1 _ bs I1) as (p2 & E2 & I2 & C2 & R2 & H2).
  { split_and!.
    - intros i Hi. rewrite N1. by apply Hreal.
    - by apply NoDup_filter.
    - intros i Hi H0. rewrite R1, occ_nodup, decide_True by done.
      pose proof (ro_nonneg _ _ _ (proj2 I) i H0). lia. }
  exists p1, p2. split_and!; [done..| | |].
  - assert (last_ref p1 bs = filter (fun i => ref_of p i = 0) bs) as <-; [|done].
    apply filter_ext_in. intros i Hi. rewrite R1, occ_nodup, decide_True by done.
    destruct (Hreal i Hi) as [? _]. split; [intros []; lia|]. intros. split; [done|lia].
  - intros j. rewrite R2, R1. lia.
  - intros j. by rewrite H2, H1.
Qed.

(** prefix-cache lookup is sound and complete: for valid group ids it
    never raises; it returns one block per group, each holding exactly the
    requested (hash, group) key, or [None], and then for some group no block of
    the pool holds that key. *)
Theorem get_cached_block_correct p l h gs :
  pool_inv p l -> (forall g, g ∈ gs -> 0 <= g < 2 ^ 32) ->
  exists o, get_cached_block p h gs = Ok o /\
    match o with
    | Some ids => Forall2 (fun g i => hash_of p i = Some (h ++ be_bytes 4 g)) gs ids
    | None => exists g, g ∈ gs /\ forall i, hash_of p i <> Some (h ++ be_bytes 4 g)
    end.
Proof.
  intros [B _] Hg. destruct (get_cached_loop_spec p l h gs [] B Hg) as (o & E & Ho).
  exists o. split; [exact E|]. destruct o as [ids|]; [|done]. by destruct Ho as (? & -> & ?).
Qed.

(** C37: caching makes blocks findable: after [cache_full_blocks], every newly
    full real block of the request carries its key, and looking up the request's
    hash at that position (at the group's granularity) hits a block with that
    key; the free list, all reference counts and all other hashes are as
    before. *)
Theorem cache_then_lookup p l r blocks nc nf bs group :
  pool_inv p l -> cache_pre p r blocks nc nf bs group ->
  exists p', cache_full_blocks r blocks nc nf bs group p = Ok p' /\ pool_inv p' l /\
    (forall j, ref_of p' j = ref_of p j) /\
    (forall k blk, nc <= k < nf -> blocks !! Z.to_nat k = Some blk -> blk <> 0%nat ->
       hash_of p' blk = Some (block_key r (bs / hash_block_size p) group k) /\
       exists i, get_cached_block p' (concat (HashListFacts.group (block_hashes r) (bs / hash_block_size p) k))
                   [group] = Ok (Some [i]) /\ hash_of p' i = hash_of p' blk) /\
    (forall j, (j ∉ py_slice blocks nc nf) -> hash_of p' j = hash_of p j).
Proof.
  intros I Hpre. destruct (cache_full_blocks_spec p l r blocks nc nf bs group I Hpre)
    as (p' & E & I' & _ & R' & K' & H'). exists p'. split_and!; [done..| |auto].
  intros k blk Hk Hblk H0. pose proof (K' k blk Hk Hblk H0) as Hkey. split; [done|].
  destruct (get_cached_loop_spec p' l (concat (HashListFacts.group (block_hashes r) (bs / hash_block_size p) k))
    [group] [] (proj1 I')) as (o & Eo & Ho).
  { intros g ->%list_elem_of_singleton. apply Hpre. }
  destruct o as [ids|].
  - destruct Ho as (ids' & -> & HF). inversion HF as [|? i ? ? Hi Hnil]; subst. inversion Hnil; subst.
    exists i. split; [exact Eo|]. by rewrite Hi, Hkey.
  - destruct Ho as (g & ->%list_elem_of_singleton & Hno). by destruct (Hno blk).
Qed.

(** [get_usage] is the exact fraction of real blocks in use, so it lies
    between 0 and 1. *)
Theorem get_usage_correct p l :
  pool_inv p l ->
  (0 <= get_usage p <= 1)%Q /\ Z.of_nat (length l) <= num_gpu_blocks p - 1 /\
  (get_usage p * inject_Z (num_gpu_blocks p - 1) ==
   inject_Z (num_gpu_blocks p - 1 - Z.of_nat (length l)))%Q.
Proof.
  intros [B R]. assert (Hlen : Z.of_nat (length l) <= num_gpu_blocks p - 1).
  { assert (Hnd := ro_nodup _ _ _ R). rewrite app_nil_r in Hnd.
    assert (Hsub : l ⊆+ seq 1 (Z.to_nat (num_gpu_blocks p) - 1)).
    { apply NoDup_submseteq; [done|]. intros i Hi. apply (inv_free p l) in Hi as [[? ?] _]; [|done].
      apply elem_of_seq. lia. }
    apply submseteq_length in Hsub. rewrite length_seq in Hsub. pose proof (pb_pos _ _ B). lia. }
  unfold get_usage, get_num_free_blocks. rewrite (qr_num _ _ (pb_queue _ _ B)).
  set (n := num_gpu_blocks p - 1) in *. destruct (Z.eqb_spec n 0) as [->|Hn].
  - assert (length l = 0)%nat as -> by lia. split_and!; [done..|]. reflexivity.
  - assert (0 < n) by lia. destruct n as [|d|]; try lia.
    assert (E : (1 - inject_Z (Z.of_nat (length l)) / inject_Z (Z.pos d) == (Z.pos d - Z.of_nat (length l)) # d)%Q).
    { unfold Qeq, Qminus, Qplus, Qopp, Qdiv, Qmult, Qinv, inject_Z; simpl. lia. }
    rewrite E. split_and!; [| |done|]; unfold Qle, Qeq, Qmult, inject_Z; simpl; lia.
Qed.

(** ** Instances on a pool of four blocks *)

Lemma demo_pool : exists p, init 4 true 2 true false true = Ok p /\ pool_inv p [1; 2; 3]%nat /\
  num_gpu_blocks p = 4 /\ hash_block_size p = 2 /\ (forall i, ref_of p i = 0 /\ hash_of p i = None).
Proof.
  destruct (init_spec 4 true 2 true false true) as (p & E & I & N & _ & H & R); [lia|].
  exists p. done.
Qed.

Lemma pool_calls_safe_witness :
  exists p p', init 4 true 2 true false true = Ok p /\ run_call (CallGetNew 2) p = Ok p' /\ pool_inv p' [3]%nat.
Proof.
  destruct demo_pool as (p & E & I & _).
  destruct (pool_calls_safe p [1; 2; 3]%nat (CallGetNew 2)) as (p' & E' & I').
  - by eapply (history_init 4).
  - simpl. lia.
  - by exists p, p'.
Defined.

Lemma get_new_blocks_correct_witness :
  exists p, init 4 true 2 true false true = Ok p /\
  match get_new_blocks (Z.of_nat 2) p with
  | Ok (ret, _) => ret = [1; 2]%nat
  | Err e => e = ValueError /\ (3 < 2)%nat
  end.
Proof.
  destruct demo_pool as (p & E & I & _). exists p. split; [done|].
  pose proof (get_new_blocks_correct p _ 2 I) as H.
  destruct (get_new_blocks (Z.of_nat 2) p) as [[ret p']|]; [|exact H]. apply H.
Defined.

Lemma touch_free_balanced_witness :
  exists p p1 p2, init 4 true 2 true false true = Ok p /\ touch [2; 1]%nat p = Ok p1 /\
    free_blocks [2; 1]%nat p1 = Ok p2 /\ exists l, pool_inv p2 l.
Proof.
  destruct demo_pool as (p & E & I & N & _).
  destruct (touch_free_balanced p _ [2; 1]%nat I) as (p1 & p2 & E1 & E2 & I2 & _).
  - by apply (bool_decide_unpack (NoDup [2; 1]%nat)).
  - intros i Hi. unfold real_block. rewrite N. apply elem_of_cons in Hi as [->|Hi%list_elem_of_singleton]; lia.
  - exists p, p1, p2. eauto.
Defined.

Lemma get_cached_block_correct_witness :
  exists p o, init 4 true 2 true false true = Ok p /\ get_cached_block p [7] [0; 1] = Ok o.
Proof.
  destruct demo_pool as (p & E & I & _).
  destruct (get_cached_block_correct p _ [7] [0; 1] I) as (o & Eo & _); [|by exists p, o].
  intros g [->|[->|[]%elem_of_nil]%elem_of_cons]%elem_of_cons; lia.
Defined.

Lemma cache_then_lookup_witness :
  exists p p', init 4 true 2 true false true = Ok p /\
    cache_full_blocks (with_block_hashes [[7]; [8]] (text_request [1; 2; 3; 4])) [1; 2]%nat 0 2 2 0 p = Ok p' /\
    hash_of p' 2 = Some [8; 0; 0; 0; 0].
Proof.
  destruct demo_pool as (p & E & I & N & Hb & R). exists p.
  destruct (cache_then_lookup p _ (with_block_hashes [[7]; [8]] (text_request [1; 2; 3; 4])) [1; 2]%nat 0 2 2 0 I)
    as (p' & Ep & _ & _ & K & _).
  - split; rewrite ?N, ?Hb; cbn -[Z.mul].
    + done.
    + done.
    + done.
    + done.
    + intros i [->|[->|[]%elem_of_nil]%elem_of_cons]%elem_of_cons; lia.
    + intros i _ _. apply R.
    + by apply (bool_decide_unpack (NoDup [1; 2]%nat)).
  - exists p'. split_and!; [done|exact Ep|]. destruct (K 1 2%nat) as [H _]; [lia|done|done|].
    rewrite Hb in H. exact H.
Defined.

Lemma get_usage_correct_witness :
  exists p, init 4 true 2 true false true = Ok p /\ (0 <= get_usage p <= 1)%Q.
Proof.
  destruct demo_pool as (p & E & I & _). exists p. split; [done|]. apply (get_usage_correct p _ I).
Defined.
End PoolSpec.
