(* ===== verification/Device.v ===== *)
(** Device memory and kernel launches, shared by the models of the GPU kernels.

    A buffer is a list; [load] and [store] raise [IndexError] outside it (an
    out-of-range access is a fault of the kernel, so a theorem that a kernel
    returns [Ok] includes that every access is in range).  A launch runs one
    program per grid index; the programs of a grid are not ordered, so a launch
    takes the order in which they run and theorems quantify over every
    permutation. *)
From S2P Require Import Prelude.
Local Open Scope Z_scope.

(** * Buffers *)

(** [tl.load(ptr + i)]. *)
Definition load {A} (buf : list A) (i : Z) : result A :=
  if i <? 0 then Err IndexError else of_option IndexError (buf !! Z.to_nat i).

(** [tl.store(ptr + i, v)]. *)
Definition store {A} (buf : list A) (i : Z) (v : A) : result (list A) :=
  if (i <? 0) || (py_len buf <=? i) then Err IndexError else Ok (<[Z.to_nat i := v]> buf).

(** [tl.load(ptr + i, mask=m, other=o)]. *)
Definition load_masked {A} (buf : list A) (i : Z) (m : bool) (o : A) : result A :=
  if m then load buf i else Ok o.

(** [tl.store(ptr + i, v, mask=m)]. *)
Definition store_masked {A} (buf : list A) (i : Z) (v : A) (m : bool) : result (list A) :=
  if m then store buf i v else Ok buf.

(** A kernel launch over the grid indices in the order they happen to run. *)
Definition launch {S} (kernel : S -> Z -> result S) (order : list nat) (s : S) : result S :=
  foldM (fun s pid => kernel s (Z.of_nat pid)) order s.

Section Buffers.
Context {A : Type}.
Implicit Types (buf : list A) (i : Z) (v : A).

Lemma load_Some buf n v : buf !! n = Some v -> load buf (Z.of_nat n) = Ok v.
Proof. intros E. unfold load. rewrite (proj2 (Z.ltb_ge _ 0)), Nat2Z.id, E by lia. done. Qed.

Lemma load_ok buf i : 0 <= i < py_len buf -> exists v, load buf i = Ok v /\ buf !! Z.to_nat i = Some v.
Proof.
  unfold py_len. intros Hi. destruct (lookup_lt_is_Some_2 buf (Z.to_nat i)) as [v Hv]; [lia|].
  exists v. unfold load. by rewrite (proj2 (Z.ltb_ge _ 0)), Hv by lia.
Qed.

Lemma load_Ok_inv buf i v : load buf i = Ok v -> 0 <= i < py_len buf /\ buf !! Z.to_nat i = Some v.
Proof.
  unfold load, py_len. destruct (Z.ltb_spec i 0); [done|].
  destruct (buf !! Z.to_nat i) eqn:E; [|done]. intros [= ->].
  apply lookup_lt_Some in E as H'. split; [lia|done].
Qed.

Lemma store_ok buf i v : 0 <= i < py_len buf -> store buf i v = Ok (<[Z.to_nat i := v]> buf).
Proof.
  intros Hi. unfold store. by rewrite (proj2 (Z.ltb_ge _ 0)), (proj2 (Z.leb_gt _ _)) by lia.
Qed.

Lemma store_Ok_inv buf i v buf' :
  store buf i v = Ok buf' -> 0 <= i < py_len buf /\ buf' = <[Z.to_nat i := v]> buf.
Proof.
  unfold store. destruct (Z.ltb_spec i 0), (Z.leb_spec (py_len buf) i); try done.
  by intros [= <-].
Qed.
End Buffers.

(** * Flattened rows *)

(** Total length of the first [i] segments. *)
Definition seg_start {A} (ls : list (list A)) (i : nat) : nat := length (concat (take i ls)).

(** [torch.cumsum] of the segment lengths. *)
Fixpoint cumsum_from (acc : Z) (l : list Z) : list Z :=
  match l with [] => [] | x :: l => (acc + x) :: cumsum_from (acc + x) l end.
Definition cumsum (l : list Z) : list Z := cumsum_from 0 l.

Section Segments.
Context {A : Type}.
Implicit Types (ls rows : list (list A)).

Lemma seg_start_S ls i s : ls !! i = Some s -> seg_start ls (S i) = (seg_start ls i + length s)%nat.
Proof.
  intros E. unfold seg_start. rewrite (take_S_r _ _ _ E), concat_app, length_app. simpl.
  by rewrite app_nil_r.
Qed.

Lemma concat_split ls i s :
  ls !! i = Some s -> concat ls = concat (take i ls) ++ s ++ concat (drop (S i) ls).
Proof.
  intros E. rewrite <- (take_drop_middle _ _ _ E) at 1. rewrite concat_app. done.
Qed.

Lemma concat_lookup ls i s p :
  ls !! i = Some s -> (p < length s)%nat -> concat ls !! (seg_start ls i + p)%nat = s !! p.
Proof.
  intros E Hp. rewrite (concat_split _ _ _ E). unfold seg_start.
  rewrite lookup_app_r by lia. rewrite Nat.add_sub_swap, Nat.sub_diag by lia. simpl.
  by rewrite lookup_app_l.
Qed.

Lemma load_segment ls i s p :
  ls !! i = Some s -> (p < length s)%nat ->
  exists v, s !! p = Some v /\ load (concat ls) (Z.of_nat (seg_start ls i) + Z.of_nat p) = Ok v.
Proof.
  intros E Hp. destruct (lookup_lt_is_Some_2 s p Hp) as [v Hv]. exists v. split; [done|].
  rewrite <- Nat2Z.inj_add. apply load_Some. by rewrite (concat_lookup ls i s).
Qed.

Lemma cumsum_from_lookup acc ls i s :
  ls !! i = Some s ->
  cumsum_from acc ((fun l => Z.of_nat (length l)) <$> ls) !! i = Some (acc + Z.of_nat (seg_start ls (S i))).
Proof.
  revert acc i; induction ls as [|s0 ls IH]; intros acc i; [done|]. destruct i as [|i]; simpl.
  - intros [= ->]. unfold seg_start. simpl. by rewrite app_nil_r.
  - intros E. rewrite (IH _ _ E). f_equal. unfold seg_start. simpl. rewrite length_app. lia.
Qed.

(** The two loads of a kernel that finds its segment. *)
Lemma load_cumsum ls i s :
  ls !! i = Some s ->
  load (cumsum ((fun l => Z.of_nat (length l)) <$> ls)) (Z.of_nat i)
  = Ok (Z.of_nat (seg_start ls i) + Z.of_nat (length s)).
Proof.
  intros E. apply load_Some. unfold cumsum. rewrite (cumsum_from_lookup 0 ls i s E), (seg_start_S _ _ _ E).
  f_equal. lia.
Qed.

Lemma load_cumsum_pred ls i s :
  ls !! i = Some s ->
  (if Z.of_nat i =? 0 then Ok 0 else load (cumsum ((fun l => Z.of_nat (length l)) <$> ls)) (Z.of_nat i - 1))
  = Ok (Z.of_nat (seg_start ls i)).
Proof.
  intros E. destruct i as [|i]; [done|].
  rewrite (proj2 (Z.eqb_neq _ 0)) by lia.
  destruct (lookup_lt_is_Some_2 ls i) as [s0 E0]; [apply lookup_lt_Some in E; lia|].
  replace (Z.of_nat (S i) - 1) with (Z.of_nat i) by lia. rewrite (load_cumsum _ _ _ E0).
  f_equal. rewrite (seg_start_S _ _ _ E0). lia.
Qed.

Lemma seg_start_map {B} (f : A -> B) ls i : seg_start (map (map f) ls) i = seg_start ls i.
Proof.
  unfold seg_start. revert i; induction ls as [|s ls IH]; intros [|i]; simpl; [done..|].
  rewrite !length_app, length_map, IH. done.
Qed.

(** Rows of a common width. *)
Definition uniform (w : nat) rows : Prop := forall r, r ∈ rows -> length r = w.

Lemma length_concat_uniform w rows : uniform w rows -> length (concat rows) = (length rows * w)%nat.
Proof.
  induction rows as [|r rows IH]; intros H; [done|]. simpl. rewrite length_app, IH by (intros ? ?; apply H; set_solver).
  rewrite H by set_solver. lia.
Qed.

Lemma seg_start_uniform w rows i : uniform w rows -> (i <= length rows)%nat -> seg_start rows i = (i * w)%nat.
Proof.
  intros H Hi. unfold seg_start. rewrite (length_concat_uniform w).
  - by rewrite length_take, Nat.min_l by lia.
  - intros r Hr. apply H. eapply elem_of_submseteq; [done|]. apply submseteq_take.
Qed.

Lemma uniform_insert w rows i r : uniform w rows -> length r = w -> uniform w (<[i := r]> rows).
Proof.
  intros H Hr r' [j Hj]%list_elem_of_lookup_1. apply list_lookup_insert_Some in Hj as [(_ & <- & _)|[_ Hj]].
  - done.
  - apply H. by eapply list_elem_of_lookup_2.
Qed.

(** A load from a row of a flattened matrix. *)
Lemma load_row w rows i r p :
  uniform w rows -> rows !! i = Some r -> 0 <= p < Z.of_nat w ->
  exists v, r !! Z.to_nat p = Some v /\ load (concat rows) (Z.of_nat i * Z.of_nat w + p) = Ok v.
Proof.
  intros Hu E Hp. assert (Hi : (i < length rows)%nat) by by eapply lookup_lt_Some.
  assert (Hr : length r = w) by (apply Hu; by eapply list_elem_of_lookup_2).
  destruct (load_segment rows i r (Z.to_nat p)) as (v & Hv & El); [done|lia|].
  exists v. split; [done|]. rewrite (seg_start_uniform w) in El by (done || lia).
  rewrite <- El. f_equal. lia.
Qed.

(** A store into a row of a flattened matrix. *)
Lemma store_row w rows i r p v :
  uniform w rows -> rows !! i = Some r -> (p < w)%nat ->
  store (concat rows) (Z.of_nat i * Z.of_nat w + Z.of_nat p) v
  = Ok (concat (<[i := <[p := v]> r]> rows)).
Proof.
  intros Hu E Hp. assert (Hi : (i < length rows)%nat) by by eapply lookup_lt_Some.
  assert (Hr : length r = w) by (apply Hu; by eapply list_elem_of_lookup_2).
  rewrite store_ok.
  2:{ unfold py_len. rewrite (length_concat_uniform w) by done. nia. }
  f_equal. replace (Z.to_nat _) with (seg_start rows i + p)%nat.
  2:{ rewrite (seg_start_uniform w) by (done || lia). nia. }
  rewrite (concat_split _ _ _ E). unfold seg_start.
  rewrite insert_app_r, insert_app_l by lia.
  rewrite (insert_take_drop rows i) by done. by rewrite concat_app.
Qed.

(** Rows of given lengths. *)
Definition shaped (len : nat -> nat) rows : Prop := forall i r, rows !! i = Some r -> length r = len i.

Lemma store_segment ls i s p v :
  ls !! i = Some s -> (p < length s)%nat ->
  store (concat ls) (Z.of_nat (seg_start ls i) + Z.of_nat p) v = Ok (concat (<[i := <[p := v]> s]> ls)).
Proof.
  intros E Hp. assert (Hi : (i < length ls)%nat) by by eapply lookup_lt_Some.
  rewrite store_ok.
  2:{ unfold py_len. rewrite (concat_split _ _ _ E), !length_app. unfold seg_start. lia. }
  f_equal. rewrite <- Nat2Z.inj_add, Nat2Z.id, (concat_split _ _ _ E). unfold seg_start.
  rewrite insert_app_r, insert_app_l by lia.
  rewrite (insert_take_drop ls i) by done. by rewrite concat_app.
Qed.

(** A launch in which program [i] rewrites segment [i] only ends in the same
    state whatever the order. *)
Lemma launch_segments (len : nat -> nat) (kernel : list A -> Z -> result (list A)) (init final : nat -> list A) n order :
  order ≡ₚ seq 0 n ->
  (forall i, (i < n)%nat -> length (init i) = len i /\ length (final i) = len i) ->
  (forall rows i, shaped len rows -> (i < n)%nat -> length rows = n -> rows !! i = Some (init i) ->
     kernel (concat rows) (Z.of_nat i) = Ok (concat (<[i := final i]> rows))) ->
  launch kernel order (concat (init <$> seq 0 n)) = Ok (concat (final <$> seq 0 n)).
Proof.
  intros Hperm Hlen Hk. unfold launch.
  set (state := fun pre : list nat => (fun i => if decide (i ∈ pre) then final i else init i) <$> seq 0 n).
  assert (Hmem : forall i, i ∈ order <-> (i < n)%nat) by (intros i; rewrite Hperm, elem_of_seq; lia).
  destruct (foldM_inv (fun s pid => kernel s (Z.of_nat pid)) (fun pre s => s = concat (state pre)) order
    (concat (init <$> seq 0 n))) as (s & -> & ->).
  - done.
  - intros pre i post s E ->. assert (Hi : (i < n)%nat) by (apply Hmem; rewrite E; set_solver).
    assert (Hnd : NoDup order) by (rewrite Hperm; apply NoDup_seq).
    rewrite E in Hnd. apply NoDup_app in Hnd as (_ & Hd & _).
    eexists. split; [apply Hk|].
    + intros j r Hj. unfold state in Hj. rewrite list_lookup_fmap in Hj.
      destruct (decide (j < n)%nat); [|by rewrite lookup_seq_ge in Hj by lia].
      rewrite lookup_seq_lt in Hj by done. injection Hj as <-. case_decide; by apply Hlen.
    + done.
    + unfold state. by rewrite length_fmap, length_seq.
    + unfold state. rewrite list_lookup_fmap, lookup_seq_lt by done. simpl.
      rewrite decide_False; [done|]. intros Hin. by apply (Hd i Hin), elem_of_cons; left.
    + f_equal. unfold state. apply list_eq. intros j.
      rewrite list_lookup_insert, !list_lookup_fmap, length_fmap, length_seq.
      destruct (decide (j < n)%nat).
      * rewrite lookup_seq_lt by done. simpl. repeat case_decide; set_solver by lia.
      * rewrite lookup_seq_ge by lia. simpl. by rewrite decide_False by lia.
  - do 2 f_equal. apply list_fmap_ext. intros ? i Hi%list_elem_of_lookup_2%elem_of_seq.
    rewrite decide_True; [done|]. apply Hmem. lia.
Qed.

(** The same for rows of one width. *)
Lemma launch_rows w (kernel : list A -> Z -> result (list A)) (init final : nat -> list A) n order :
  order ≡ₚ seq 0 n ->
  (forall i, (i < n)%nat -> length (init i) = w /\ length (final i) = w) ->
  (forall rows i, uniform w rows -> (i < n)%nat -> length rows = n -> rows !! i = Some (init i) ->
     kernel (concat rows) (Z.of_nat i) = Ok (concat (<[i := final i]> rows))) ->
  launch kernel order (concat (init <$> seq 0 n)) = Ok (concat (final <$> seq 0 n)).
Proof.
  intros Hperm Hlen Hk. apply (launch_segments (fun _ => w)); [done..|].
  intros rows i Hs. apply Hk. intros r [j Hj]%list_elem_of_lookup_1. by eapply Hs.
Qed.

(** Buffers with segments of the same lengths start them at the same offsets. *)
Lemma seg_start_shaped {B} (ls : list (list B)) rows i :
  length rows = length ls -> shaped (fun j => length (default [] (ls !! j))) rows -> (i <= length rows)%nat ->
  seg_start rows i = seg_start ls i.
Proof.
  unfold seg_start. revert ls rows. induction i as [|i IH]; intros [|s0 ls] [|r0 rows]; try done.
  intros Hn Hsh Hi. simpl in *. rewrite !length_app, (Hsh 0%nat r0) by done. simpl. f_equal.
  apply IH; [lia| |lia]. intros j r Hj. apply (Hsh (S j) r Hj).
Qed.
End Segments.

(** * Launches over several buffers *)

Lemma bool_decide_ext_or (P Q R : Prop) `{!Decision P, !Decision Q, !Decision R} :
  (P <-> Q \/ R) -> bool_decide Q || bool_decide R = bool_decide P.
Proof. intros H. repeat case_bool_decide; tauto. Qed.

(** A launch whose state is determined by the set of programs that have run. *)
Lemma launch_state {S} (kernel : S -> Z -> result S) (st : (nat -> bool) -> S) n order :
  order ≡ₚ seq 0 n ->
  (forall d d', (forall i, (i < n)%nat -> d i = d' i) -> st d = st d') ->
  (forall d i, (i < n)%nat -> d i = false ->
     kernel (st d) (Z.of_nat i) = Ok (st (fun j => bool_decide (j = i) || d j))) ->
  launch kernel order (st (fun _ => false)) = Ok (st (fun _ => true)).
Proof.
  intros Hperm Hext Hk. unfold launch.
  assert (Hmem : forall i, i ∈ order <-> (i < n)%nat) by (intros i; rewrite Hperm, elem_of_seq; lia).
  assert (Hnd : NoDup order) by (rewrite Hperm; apply NoDup_seq).
  destruct (foldM_inv (fun s pid => kernel s (Z.of_nat pid))
    (fun pre s => s = st (fun i => bool_decide (i ∈ pre))) order (st (fun _ => false))) as (s & -> & ->).
  - apply Hext. intros i _. by rewrite bool_decide_false by set_solver.
  - intros pre i post s E ->. rewrite E in Hnd. apply NoDup_app in Hnd as (_ & Hd & _).
    eexists. split; [apply Hk|].
    + apply Hmem. rewrite E. set_solver.
    + apply bool_decide_false. intros Hin. by apply (Hd i Hin), elem_of_cons; left.
    + apply Hext. intros j _. apply bool_decide_ext_or.
      rewrite elem_of_app, list_elem_of_singleton. tauto.
  - f_equal. apply Hext. intros i Hi. apply bool_decide_true. by apply Hmem.
Qed.

(** A buffer described by its entries. *)
Definition table {A} (f : nat -> A) (n : nat) : list A := f <$> seq 0 n.

Lemma table_ext {A} (f g : nat -> A) n : (forall i, (i < n)%nat -> f i = g i) -> table f n = table g n.
Proof. intros H. apply list_fmap_ext. intros ? i Hi%list_elem_of_lookup_2%elem_of_seq. apply H. lia. Qed.

Lemma length_table {A} (f : nat -> A) n : length (table f n) = n.
Proof. unfold table. by rewrite length_fmap, length_seq. Qed.

Lemma lookup_table {A} (f : nat -> A) n i : (i < n)%nat -> table f n !! i = Some (f i).
Proof. intros. unfold table. by rewrite list_lookup_fmap, lookup_seq_lt. Qed.

Lemma load_table {A} (f : nat -> A) n i : (i < n)%nat -> load (table f n) (Z.of_nat i) = Ok (f i).
Proof. intros. apply load_Some. by apply lookup_table. Qed.

Lemma store_table {A} (f : nat -> A) n i v :
  (i < n)%nat -> store (table f n) (Z.of_nat i) v = Ok (table (fun j => if decide (j = i) then v else f j) n).
Proof.
  intros Hi. rewrite store_ok by (unfold py_len; rewrite length_table; lia). f_equal. rewrite Nat2Z.id.
  apply list_eq. intros j. destruct (decide (j < n)%nat).
  - rewrite lookup_table, list_lookup_insert, lookup_table, length_table by done.
    repeat case_decide; subst; naive_solver lia.
  - rewrite !(proj2 (lookup_ge_None _ _)); [done|..]; rewrite ?length_insert, length_table; lia.
Qed.
