(* ===== verification/NumPy.v ===== *)
(** Arrays on the host, as NumPy and PyTorch compute with them: elementwise operations
    with broadcasting, [repeat], [cumsum] at a machine width, fancy indexing and the
    assignment of a slice.  The lemmas evaluate them on batches: arrays that hold one
    segment per request. *)
From S2P Require Import Prelude Device.
Local Open Scope Z_scope.

(** * Operations *)

(** [f(a, b)] elementwise; an operand of length one is broadcast. *)
Definition np_zip {A B C} (f : A -> B -> C) (a : list A) (b : list B) : result (list C) :=
  if decide (length a = length b) then Ok (zip_with f a b) else
  match a, b with
  | [x], _ => Ok (f x <$> b)
  | _, [y] => Ok ((fun x => f x y) <$> a)
  | _, _ => Err ValueError
  end.

(** An array of length one stands for any length. *)
Definition np_broadcast {A} (n : nat) (v : list A) : list A :=
  match v with [x] => replicate n x | _ => v end.

(** [np.repeat(a, counts)]. *)
Definition np_repeat {A} (a : list A) (counts : list Z) : result (list A) :=
  let counts := np_broadcast (length a) counts in
  if decide (length counts = length a /\ Forall (Z.le 0) counts)
  then Ok (concat (zip_with (fun x c => replicate (Z.to_nat c) x) a counts))
  else Err ValueError.

(** [np.cumsum(a, dtype=...)] with a signed type of [w] bits. *)
Fixpoint np_cumsum_from (w acc : Z) (a : list Z) : list Z :=
  match a with [] => [] | x :: a => let acc := c_int w (acc + x) in acc :: np_cumsum_from w acc a end.
Definition np_cumsum (w : Z) (a : list Z) : list Z := np_cumsum_from w 0 a.

(** [a[indices]]. *)
Definition np_take {A} (a : list A) (indices : list Z) : result (list A) := mapR (py_index a) indices.

(** [a[i] = x]; a negative index counts from the end. *)
Definition np_put {A} (a : list A) (i : Z) (x : A) : result (list A) :=
  let j := if i <? 0 then py_len a + i else i in
  if (j <? 0) || (py_len a <=? j) then Err IndexError else Ok (<[Z.to_nat j := x]> a).

(** [torch.index_select(a, 0, indices)]: no negative indices. *)
Definition index_select {A} (a : list A) (indices : list Z) : result (list A) := mapR (load a) indices.

(** [a[i:j] = v]; a value of length one is broadcast. *)
Definition np_set_slice {A} (a : list A) (i j : Z) (v : list A) : result (list A) :=
  let lo := Z.to_nat (py_clamp (py_len a) i) in
  let hi := (lo `max` Z.to_nat (py_clamp (py_len a) j))%nat in
  let v := np_broadcast (hi - lo) v in
  if decide (length v = hi - lo)%nat then Ok (take lo a ++ v ++ drop hi a) else Err ValueError.

(** [a[i:].fill(x)]. *)
Definition np_fill_from {A} (a : list A) (i : Z) (x : A) : list A :=
  let lo := Z.to_nat (py_clamp (py_len a) i) in take lo a ++ replicate (length a - lo) x.

Lemma np_broadcast_id {A} n (v : list A) : length v = n -> np_broadcast n v = v.
Proof. intros <-. by destruct v as [|x [|??]]. Qed.

(** * Elementwise operations *)
Section Elementwise.
Context {A B C : Type}.
Implicit Types (f : A -> B -> C) (a : list A) (b : list B).

Lemma np_zip_same f a b : length a = length b -> np_zip f a b = Ok (zip_with f a b).
Proof. intros E. unfold np_zip. by rewrite decide_True. Qed.

Lemma np_zip_scalar f a y : np_zip f a [y] = Ok ((fun x => f x y) <$> a).
Proof.
  unfold np_zip. case_decide as E; [|by destruct a as [|? [|??]]].
  destruct a as [|x [|??]]; done.
Qed.

Lemma zip_with_bind {K} f (g : K -> list A) (h : K -> list B) (l : list K) :
  (forall k, k ∈ l -> length (g k) = length (h k)) ->
  zip_with f (l ≫= g) (l ≫= h) = l ≫= (fun k => zip_with f (g k) (h k)).
Proof.
  induction l as [|k l IH]; intros H; [done|]. rewrite !bind_cons, zip_with_app by (apply H; set_solver).
  rewrite IH; [done|]. set_solver.
Qed.

Lemma length_bind_eq {K} (g : K -> list A) (h : K -> list B) (l : list K) :
  (forall k, k ∈ l -> length (g k) = length (h k)) -> length (l ≫= g) = length (l ≫= h).
Proof.
  induction l as [|k l IH]; intros H; [done|]. rewrite !bind_cons, !length_app, (H k), IH; set_solver.
Qed.

(** Arrays of a batch are combined segment by segment. *)
Lemma np_zip_bind {K} f (g : K -> list A) (h : K -> list B) (l : list K) :
  (forall k, k ∈ l -> length (g k) = length (h k)) ->
  np_zip f (l ≫= g) (l ≫= h) = Ok (l ≫= (fun k => zip_with f (g k) (h k))).
Proof. intros H. rewrite np_zip_same by by apply length_bind_eq. by rewrite zip_with_bind. Qed.

Lemma np_zip_fmap {K} f (g : K -> A) (h : K -> B) (l : list K) :
  np_zip f (g <$> l) (h <$> l) = Ok ((fun k => f (g k) (h k)) <$> l).
Proof.
  rewrite np_zip_same by by rewrite !length_fmap. f_equal.
  by rewrite zip_with_fmap_l, zip_with_fmap_r, zip_with_diag.
Qed.
End Elementwise.

Lemma np_repeat_fmap {K A} (g : K -> A) (n : K -> nat) (l : list K) :
  np_repeat (g <$> l) ((fun k => Z.of_nat (n k)) <$> l) = Ok (l ≫= (fun k => replicate (n k) (g k))).
Proof.
  unfold np_repeat. rewrite np_broadcast_id by by rewrite !length_fmap. rewrite decide_True.
  2:{ split; [by rewrite !length_fmap|]. apply Forall_forall. intros z (k & -> & _)%list_elem_of_fmap. lia. }
  f_equal. rewrite zip_with_fmap_l, zip_with_fmap_r, zip_with_diag.
  induction l as [|k l IH]; [done|]. rewrite fmap_cons, bind_cons. cbn [concat]. by rewrite Nat2Z.id, IH.
Qed.

(** * Segments of a batch *)
Section Segments.
Context {K : Type} (n : K -> nat).
Implicit Types (l : list K).

Definition total (l : list K) : nat := sum_list (n <$> l).

(** Where the segment of each element starts. *)
Fixpoint starts_from (acc : nat) (l : list K) : list (nat * K) :=
  match l with [] => [] | k :: l => (acc, k) :: starts_from (acc + n k) l end.
Definition starts (l : list K) : list (nat * K) := starts_from 0 l.

Lemma starts_from_snd acc l : (starts_from acc l).*2 = l.
Proof. revert acc. induction l as [|k l IH]; intros acc; [done|]. cbn. by rewrite IH. Qed.

Lemma starts_from_lookup acc l i k :
  l !! i = Some k -> starts_from acc l !! i = Some ((acc + total (take i l))%nat, k).
Proof.
  revert acc i. induction l as [|k0 l IH]; intros acc [|i]; [done..| |]; cbn.
  - intros [= ->]. by rewrite Nat.add_0_r.
  - intros E. rewrite (IH _ _ E). do 2 f_equal. unfold total. cbn. lia.
Qed.

Lemma np_cumsum_from_id w acc l :
  0 < w -> acc + Z.of_nat (total l) < 2 ^ (w - 1) -> 0 <= acc ->
  np_cumsum_from w acc ((fun k => Z.of_nat (n k)) <$> l) = cumsum_from acc ((fun k => Z.of_nat (n k)) <$> l).
Proof.
  intros Hw. revert acc. induction l as [|k l IH]; intros acc Ht Ha; [done|].
  unfold total in *. cbn in Ht |- *. rewrite c_int_id by lia. f_equal. apply IH; lia.
Qed.

(** The cumulative sum of the lengths: where each segment ends. *)
Lemma cumsum_from_starts acc l :
  cumsum_from (Z.of_nat acc) ((fun k => Z.of_nat (n k)) <$> l)
  = (fun x => Z.of_nat (x.1 + n x.2)) <$> starts_from acc l.
Proof.
  revert acc. induction l as [|k l IH]; intros acc; [done|]. cbn.
  rewrite <- Nat2Z.inj_add. f_equal. apply IH.
Qed.

Lemma np_cumsum_starts w l :
  0 < w -> Z.of_nat (total l) < 2 ^ (w - 1) ->
  np_cumsum w ((fun k => Z.of_nat (n k)) <$> l) = (fun x => Z.of_nat (x.1 + n x.2)) <$> starts l.
Proof.
  intros Hw Ht. unfold np_cumsum, starts. rewrite np_cumsum_from_id by lia. apply (cumsum_from_starts 0).
Qed.

Lemma total_cons k l : total (k :: l) = (n k + total l)%nat.
Proof. done. Qed.

Lemma total_app l1 l2 : total (l1 ++ l2) = (total l1 + total l2)%nat.
Proof. induction l1 as [|k l1 IH]; [done|]. rewrite <- app_comm_cons, !total_cons, IH. lia. Qed.

Lemma length_bind_total {A} (g : K -> list A) l :
  (forall k, k ∈ l -> length (g k) = n k) -> length (l ≫= g) = total l.
Proof.
  induction l as [|k l IH]; intros H; [done|]. rewrite bind_cons, length_app, total_cons, (H k), IH; set_solver.
Qed.

Lemma last_starts acc l x :
  last (starts_from acc l) = Some x -> (x.1 + n x.2)%nat = (acc + total l)%nat.
Proof.
  revert acc. induction l as [|k l IH]; intros acc; [done|]. cbn [starts_from]. rewrite last_cons.
  destruct (last (starts_from (acc + n k) l)) as [y|] eqn:E; intros [= <-].
  - rewrite (IH _ E), total_cons. lia.
  - apply last_None in E. destruct l; [|done]. rewrite total_cons. unfold total. cbn. lia.
Qed.

Lemma starts_bound acc l x : x ∈ starts_from acc l -> (x.1 + n x.2 <= acc + total l)%nat.
Proof.
  revert acc. induction l as [|k l IH]; intros acc; cbn [starts_from]; [by intros ?%elem_of_nil|].
  rewrite total_cons. intros [->|H]%elem_of_cons; [cbn; lia|]. specialize (IH _ H). lia.
Qed.

(** The positions of a batch, counted from the start of each segment. *)
Lemma seqZ_starts acc l :
  zip_with Z.sub (seqZ (Z.of_nat acc) (Z.of_nat (total l)))
    (starts_from acc l ≫= (fun x => replicate (n x.2) (Z.of_nat x.1)))
  = l ≫= (fun k => seqZ 0 (Z.of_nat (n k))).
Proof.
  revert acc. induction l as [|k l IH]; intros acc; [done|].
  rewrite total_cons, Nat2Z.inj_add, seqZ_app by lia. cbn [starts_from]. rewrite !bind_cons. cbn [fst snd].
  rewrite zip_with_app by (rewrite length_seqZ, length_replicate; lia). f_equal.
  - rewrite zip_with_replicate_r_eq by (rewrite length_seqZ; lia). unfold seqZ. rewrite <- list_fmap_compose.
    apply list_fmap_ext. intros. cbn. lia.
  - rewrite <- Nat2Z.inj_add. apply IH.
Qed.
End Segments.

(** * Indexing and slices *)

Lemma mapR_fmap {A B C} (f : B -> result C) (g : A -> B) l : mapR f (g <$> l) = mapR (fun a => f (g a)) l.
Proof. induction l as [|a l IH]; [done|]. rewrite fmap_cons. cbn. by rewrite IH. Qed.

Lemma mapR_app {A B} (f : A -> result B) l1 l2 :
  mapR f (l1 ++ l2) = (r1 ← mapR f l1; r2 ← mapR f l2; Ok (r1 ++ r2)).
Proof.
  induction l1 as [|a l1 IH]; cbn; [by destruct (mapR f l2)|].
  destruct (f a); [|done]. cbn. rewrite IH. destruct (mapR f l1); [|done]. cbn. by destruct (mapR f l2).
Qed.

Lemma mapR_bind {A B C} (f : B -> result C) (g : A -> list B) (h : A -> list C) l :
  (forall a, a ∈ l -> mapR f (g a) = Ok (h a)) -> mapR f (l ≫= g) = Ok (l ≫= h).
Proof.
  induction l as [|a l IH]; intros H; [done|]. rewrite !bind_cons, mapR_app, (H a), IH by set_solver. done.
Qed.

Lemma np_take_app {A} (a : list A) i1 i2 :
  np_take a (i1 ++ i2) = (r1 ← np_take a i1; r2 ← np_take a i2; Ok (r1 ++ r2)).
Proof. apply mapR_app. Qed.

(** Reading consecutive entries reads a slice. *)
Lemma index_select_seqZ {A} (a : list A) (i m : nat) :
  (i + m <= length a)%nat -> index_select a (seqZ (Z.of_nat i) (Z.of_nat m)) = Ok (take m (drop i a)).
Proof.
  intros H. apply mapR_Ok, Forall2_same_length_lookup_2.
  - rewrite length_seqZ, length_take, length_drop. lia.
  - intros j z x [-> Hj]%lookup_seqZ Hx. rewrite lookup_take_lt, lookup_drop in Hx by lia.
    rewrite <- Nat2Z.inj_add. by apply load_Some.
Qed.

Lemma np_take_seqZ {A} (a : list A) (i m : nat) :
  (i + m <= length a)%nat -> np_take a (seqZ (Z.of_nat i) (Z.of_nat m)) = Ok (take m (drop i a)).
Proof.
  intros H. rewrite <- (index_select_seqZ a i m H). unfold np_take, index_select.
  assert (Hle : Forall (Z.le 0) (seqZ (Z.of_nat i) (Z.of_nat m))).
  { apply Forall_forall. intros z [??]%elem_of_seqZ. lia. }
  induction Hle as [|z l Hz _ IH]; [done|]. cbn. rewrite IH, py_index_nonneg by done.
  unfold load. by rewrite (proj2 (Z.ltb_ge z 0)) by done.
Qed.

Lemma py_clamp_id n i : 0 <= i <= n -> py_clamp n i = i.
Proof. intros. unfold py_clamp. rewrite (proj2 (Z.ltb_ge i 0)) by lia. lia. Qed.

Lemma np_set_slice_ok {A} (a : list A) (i : nat) (v : list A) :
  (i + length v <= length a)%nat ->
  np_set_slice a (Z.of_nat i) (Z.of_nat (i + length v)) v = Ok (take i a ++ v ++ drop (i + length v) a).
Proof.
  intros H. unfold np_set_slice, py_len. rewrite !py_clamp_id, !Nat2Z.id, Nat.max_r by lia.
  replace (i + length v - i)%nat with (length v) by lia.
  rewrite np_broadcast_id by done. by rewrite decide_True.
Qed.

Lemma np_set_prefix_ok {A} (a v : list A) :
  (length v <= length a)%nat -> np_set_slice a 0 (Z.of_nat (length v)) v = Ok (v ++ drop (length v) a).
Proof. intros H. by apply (np_set_slice_ok a 0 v). Qed.

Lemma py_index_nat {A} (a : list A) (i : nat) x : a !! i = Some x -> py_index a (Z.of_nat i) = Ok x.
Proof. intros E. rewrite py_index_nonneg, Nat2Z.id by lia. by rewrite E. Qed.

Lemma np_put_nat {A} (a : list A) (i : nat) x :
  (i < length a)%nat -> np_put a (Z.of_nat i) x = Ok (<[i := x]> a).
Proof.
  intros H. unfold np_put, py_len. rewrite !(proj2 (Z.ltb_ge (Z.of_nat i) 0)), (proj2 (Z.leb_gt _ _)), Nat2Z.id by lia. done.
Qed.

(** Prefixes of buffers. *)
Lemma np_set_prefix {A} (a v : list A) n :
  length v = n -> (n <= length a)%nat -> np_set_slice a 0 (Z.of_nat n) v = Ok (v ++ drop n a).
Proof. intros <- H. by apply np_set_prefix_ok. Qed.

Lemma py_slice_prefix {A} (v w : list A) n : length v = n -> py_slice (v ++ w) 0 (Z.of_nat n) = v.
Proof.
  intros <-. rewrite py_slice_nonneg, Z.sub_0_r, Nat2Z.id by lia. change (Z.to_nat 0) with 0%nat.
  by rewrite drop_0, take_app_length.
Qed.

Lemma np_fill_from_app {A} (v w : list A) x n :
  length v = n -> np_fill_from (v ++ w) (Z.of_nat n) x = v ++ replicate (length w) x.
Proof.
  intros <-. unfold np_fill_from, py_len. rewrite length_app, py_clamp_id, Nat2Z.id by lia.
  rewrite take_app_length. do 2 f_equal. lia.
Qed.
