(* ===== verification/BlockTable.v ===== *)
(** The block tables of the worker: [src/vllm/v1/worker/block_table.py].

    A table keeps, for every row of the persistent batch, the ids of the KV blocks of
    the request in that row, and turns positions of tokens into slots of the KV cache.
    Where the attention kernel works with smaller blocks than the KV-cache manager, a
    row holds kernel blocks; where several ranks share the context (prefill and decode
    context parallelism), a rank maps the tokens of the other ranks to [-1].  The ranks
    and world sizes are fields, read once at construction.  [int32] products wrap. *)
From S2P Require Import Prelude Device NumPy.
Local Open Scope Z_scope.

(** * The table of one KV-cache group *)
Record BlockTable := mkTable {
  block_size : Z;
  blocks_per_kv_block : Z;
  use_hybrid_blocks : bool;
  max_num_blocks_per_req : Z;
  block_table : list (list Z);
  block_table_gpu : list (list Z);
  num_blocks_per_row : list Z;
  slot_mapping : list Z;
  slot_mapping_gpu : list Z;
  pcp_world_size : Z;
  pcp_rank : Z;
  dcp_world_size : Z;
  dcp_rank : Z;
  cp_kv_cache_interleave_size : Z;
}.

Definition set_rows (rows : list (list Z)) (num : list Z) (t : BlockTable) : BlockTable :=
  mkTable (block_size t) (blocks_per_kv_block t) (use_hybrid_blocks t) (max_num_blocks_per_req t) rows
    (block_table_gpu t) num (slot_mapping t) (slot_mapping_gpu t) (pcp_world_size t) (pcp_rank t)
    (dcp_world_size t) (dcp_rank t) (cp_kv_cache_interleave_size t).
Definition set_rows_gpu (rows : list (list Z)) (t : BlockTable) : BlockTable :=
  mkTable (block_size t) (blocks_per_kv_block t) (use_hybrid_blocks t) (max_num_blocks_per_req t) (block_table t)
    rows (num_blocks_per_row t) (slot_mapping t) (slot_mapping_gpu t) (pcp_world_size t) (pcp_rank t)
    (dcp_world_size t) (dcp_rank t) (cp_kv_cache_interleave_size t).
Definition set_slots (slots slots_gpu : list Z) (t : BlockTable) : BlockTable :=
  mkTable (block_size t) (blocks_per_kv_block t) (use_hybrid_blocks t) (max_num_blocks_per_req t) (block_table t)
    (block_table_gpu t) (num_blocks_per_row t) slots slots_gpu (pcp_world_size t) (pcp_rank t)
    (dcp_world_size t) (dcp_rank t) (cp_kv_cache_interleave_size t).

(** [__init__]; the groups give the ranks and world sizes, [1] and [0] when there are
    none. *)
Definition new_table (bs : Z) (max_num_reqs max_blocks max_num_batched_tokens : nat) (kernel_block_size interleave : Z)
    (pcp dcp : option (Z * Z)) : result BlockTable :=
  '(bs, per_kv, hybrid) ← (if kernel_block_size =? bs then Ok (bs, 1, false) else
                           if negb (bs mod kernel_block_size =? 0) then Err ValueError
                           else Ok (kernel_block_size, bs / kernel_block_size, true));
  let width := (max_blocks * Z.to_nat per_kv)%nat in
  let rows := replicate max_num_reqs (replicate width 0) in
  let slots := replicate max_num_batched_tokens 0 in
  let '(pcp_size, pcp_r) := default (1, 0) pcp in
  let '(dcp_size, dcp_r) := default (1, 0) dcp in
  Ok (mkTable bs per_kv hybrid (Z.of_nat width) rows rows (replicate max_num_reqs 0) slots slots
        pcp_size pcp_r dcp_size dcp_r interleave).

(** [map_to_kernel_blocks]. *)
Definition map_to_kernel_blocks (kv_manager_block_ids : list Z) (blocks_per_kv_block : Z) : list Z :=
  if blocks_per_kv_block =? 1 then kv_manager_block_ids else
  kv_manager_block_ids ≫= (fun b => (fun k => b * blocks_per_kv_block + k) <$> seqZ 0 blocks_per_kv_block).

Definition append_row (block_ids : list Z) (row_idx : Z) (t : BlockTable) : result BlockTable :=
  match block_ids with
  | [] => Ok t
  | _ =>
    let block_ids := if use_hybrid_blocks t then map_to_kernel_blocks block_ids (blocks_per_kv_block t) else block_ids in
    let num_blocks := py_len block_ids in
    start ← py_index (num_blocks_per_row t) row_idx;
    num ← np_put (num_blocks_per_row t) row_idx (c_int 32 (start + num_blocks));
    row ← py_index (block_table t) row_idx;
    row ← np_set_slice row start (start + num_blocks) block_ids;
    rows ← np_put (block_table t) row_idx row;
    Ok (set_rows rows num t)
  end.

Definition add_row (block_ids : list Z) (row_idx : Z) (t : BlockTable) : result BlockTable :=
  num ← np_put (num_blocks_per_row t) row_idx 0;
  append_row block_ids row_idx (set_rows (block_table t) num t).

Definition move_row (src tgt : Z) (t : BlockTable) : result BlockTable :=
  num_blocks ← py_index (num_blocks_per_row t) src;
  src_row ← py_index (block_table t) src;
  tgt_row ← py_index (block_table t) tgt;
  row ← np_set_slice tgt_row 0 num_blocks (py_slice src_row 0 num_blocks);
  rows ← np_put (block_table t) tgt row;
  num ← np_put (num_blocks_per_row t) tgt num_blocks;
  Ok (set_rows rows num t).

(** [a[[i, j]] = a[[j, i]]]. *)
Definition np_swap {A} (a : list A) (i j : Z) : result (list A) :=
  x ← py_index a i;
  y ← py_index a j;
  a ← np_put a i y;
  np_put a j x.

Definition swap_row (src tgt : Z) (t : BlockTable) : result BlockTable :=
  num ← np_swap (num_blocks_per_row t) src tgt;
  rows ← np_swap (block_table t) src tgt;
  Ok (set_rows rows num t).

(** [compute_slot_mapping], the two branches. *)
Definition cp_slots (world_size rank : Z) (t : BlockTable) (req_indices positions : list Z) : result (list Z) :=
  let interleave := cp_kv_cache_interleave_size t in
  let virtual_block_size := block_size t * world_size in
  block_table_indices ← np_zip (fun r p => r * max_num_blocks_per_req t + p / virtual_block_size) req_indices positions;
  block_numbers ← np_take (concat (block_table t)) block_table_indices;
  let virtual_block_offsets := (fun p => p mod virtual_block_size) <$> positions in
  let mask := (fun o => o / interleave mod world_size =? rank) <$> virtual_block_offsets in
  let block_offsets := (fun o => o / (world_size * interleave) * interleave + o mod interleave) <$> virtual_block_offsets in
  slots ← np_zip Z.add ((fun b => c_int 32 (b * block_size t)) <$> block_numbers) block_offsets;
  np_zip (fun (m : bool) s => if m then s else -1) mask slots.

Definition plain_slots (t : BlockTable) (req_indices positions : list Z) : result (list Z) :=
  block_table_indices ← np_zip (fun r p => r * max_num_blocks_per_req t + p / block_size t) req_indices positions;
  block_numbers ← np_take (concat (block_table t)) block_table_indices;
  let block_offsets := (fun p => p mod block_size t) <$> positions in
  np_zip Z.add ((fun b => c_int 32 (b * block_size t)) <$> block_numbers) block_offsets.

Definition total_cp_world_size (t : BlockTable) : Z := pcp_world_size t * dcp_world_size t.
Definition total_cp_rank (t : BlockTable) : Z := pcp_rank t * dcp_world_size t + dcp_rank t.

Definition compute_slot_mapping (req_indices positions : list Z) (t : BlockTable) : result BlockTable :=
  slots ← (if 1 <? total_cp_world_size t
           then cp_slots (total_cp_world_size t) (total_cp_rank t) t req_indices positions
           else plain_slots t req_indices positions);
  slots ← np_set_slice (slot_mapping t) 0 (py_len req_indices) slots;
  Ok (set_slots slots (slot_mapping_gpu t) t).

(** [CpuGpuBuffer.copy_to_gpu(n)]. *)
Definition copy_to_gpu {A} (cpu gpu : list A) (n : Z) : result (list A) :=
  np_set_slice gpu 0 n (py_slice cpu 0 n).

Lemma copy_to_gpu_ok {A} (v w g : list A) n :
  length v = n -> (n <= length g)%nat -> copy_to_gpu (v ++ w) g (Z.of_nat n) = Ok (v ++ drop n g).
Proof. intros Hv Hg. unfold copy_to_gpu. rewrite py_slice_prefix by done. by apply np_set_prefix. Qed.

Definition commit_block_table (num_reqs : Z) (t : BlockTable) : result BlockTable :=
  rows ← copy_to_gpu (block_table t) (block_table_gpu t) num_reqs;
  Ok (set_rows_gpu rows t).

Definition commit_slot_mapping (num_tokens : Z) (t : BlockTable) : result BlockTable :=
  slots ← copy_to_gpu (slot_mapping t) (slot_mapping_gpu t) num_tokens;
  Ok (set_slots (slot_mapping t) slots t).

Definition clear (t : BlockTable) : BlockTable :=
  let zero row := replicate (length row) 0 in
  set_rows_gpu (zero <$> block_table_gpu t) (set_rows (zero <$> block_table t) (num_blocks_per_row t) t).

Definition get_device_tensor (num_reqs : Z) (t : BlockTable) : list (list Z) := py_slice (block_table_gpu t) 0 num_reqs.

(** * The tables of all groups *)
Module MultiGroupBlockTable.
Abbreviation tables := (list BlockTable).

Definition new_tables (max_num_reqs max_model_len max_num_batched_tokens : nat) (block_sizes kernel_block_sizes : list Z)
    (max_num_blocks : option (list nat)) (interleave : Z) (pcp dcp : option (Z * Z)) : result tables :=
  if negb (bool_decide (length kernel_block_sizes = length block_sizes)) then Err ValueError else
  let world_size := (default (1, 0) pcp).1 * (default (1, 0) dcp).1 in
  let max_num_blocks := match max_num_blocks with
                        | Some m => m
                        | None => (fun bs => Z.to_nat (cdiv (Z.of_nat max_model_len) (bs * world_size))) <$> block_sizes
                        end in
  if negb (bool_decide (length max_num_blocks = length block_sizes)) then Err ValueError else
  mapR (fun '(bs, kbs, m) => new_table bs max_num_reqs m max_num_batched_tokens kbs interleave pcp dcp)
    (zip (zip block_sizes kernel_block_sizes) max_num_blocks).

(** [for i, block_table in enumerate(self.block_tables): f(block_ids[i], ...)]. *)
Definition each_group (f : list Z -> BlockTable -> result BlockTable) (block_ids : list (list Z)) (ts : tables) : result tables :=
  mapR (fun '(i, t) => ids ← py_index block_ids (Z.of_nat i); f ids t) (imap pair ts).

Definition append_row (block_ids : list (list Z)) (row_idx : Z) : tables -> result tables :=
  each_group (fun ids => BlockTable.append_row ids row_idx) block_ids.
Definition add_row (block_ids : list (list Z)) (row_idx : Z) : tables -> result tables :=
  each_group (fun ids => BlockTable.add_row ids row_idx) block_ids.
Definition move_row (src tgt : Z) : tables -> result tables := mapR (BlockTable.move_row src tgt).
Definition swap_row (src tgt : Z) : tables -> result tables := mapR (BlockTable.swap_row src tgt).
Definition compute_slot_mapping (req_indices positions : list Z) : tables -> result tables :=
  mapR (BlockTable.compute_slot_mapping req_indices positions).
Definition commit_block_table (num_reqs : Z) : tables -> result tables := mapR (BlockTable.commit_block_table num_reqs).
Definition commit_slot_mapping (num_tokens : Z) : tables -> result tables := mapR (BlockTable.commit_slot_mapping num_tokens).
Definition clear (ts : tables) : tables := BlockTable.clear <$> ts.
End MultiGroupBlockTable.

(** * What a table holds *)

(** The entries of a row for blocks of the KV-cache manager. *)
Definition kernel_ids (t : BlockTable) (ids : list Z) : list Z :=
  if use_hybrid_blocks t then map_to_kernel_blocks ids (blocks_per_kv_block t) else ids.

(** Row [i] of the table holds the blocks [rows !! i]. *)
Definition holds (t : BlockTable) (rows : list (list Z)) : Prop :=
  length (block_table t) = length rows /\
  num_blocks_per_row t = (fun ids => py_len (kernel_ids t ids)) <$> rows /\
  forall i ids, rows !! i = Some ids -> exists rest,
    block_table t !! i = Some (kernel_ids t ids ++ rest) /\ py_len (kernel_ids t ids ++ rest) = max_num_blocks_per_req t.

(** The dimensions [__init__] gives a table; the interleave size divides the block size. *)
Record table_wf (t : BlockTable) : Prop := {
  wf_block_size : 0 < block_size t;
  wf_per_kv : 0 < blocks_per_kv_block t;
  wf_hybrid : use_hybrid_blocks t = false -> blocks_per_kv_block t = 1;
  wf_width : 0 <= max_num_blocks_per_req t < 2 ^ 31;
  wf_interleave : 0 < cp_kv_cache_interleave_size t;
  wf_divides : (cp_kv_cache_interleave_size t | block_size t);
  wf_world : 0 < total_cp_world_size t;
  wf_rank : 0 <= total_cp_rank t < total_cp_world_size t;
}.

(** Writing one row. *)
Lemma holds_insert t rows i ids rest :
  holds t rows -> (i < length rows)%nat -> py_len (kernel_ids t ids ++ rest) = max_num_blocks_per_req t ->
  holds (set_rows (<[i := kernel_ids t ids ++ rest]> (block_table t))
           (<[i := py_len (kernel_ids t ids)]> (num_blocks_per_row t)) t) (<[i := ids]> rows).
Proof.
  intros (Hl & Hn & Hr) Hi Hw. split; [|split].
  - cbn. by rewrite !length_insert.
  - cbn. rewrite Hn. by rewrite list_fmap_insert.
  - intros j ids'. cbn. intros [(<- & <- & _)|(Hne & E)]%list_lookup_insert_Some.
    + exists rest. split; [|done]. apply list_lookup_insert_eq. by rewrite Hl.
    + destruct (Hr j ids' E) as (rest' & E' & Hw'). exists rest'. split; [|done]. by rewrite list_lookup_insert_ne.
Qed.

Section Rows.
Context (t : BlockTable) (Hwf : table_wf t).
Implicit Types (ids : list Z) (rows : list (list Z)).
Let per : nat := Z.to_nat (blocks_per_kv_block t).

Lemma kernel_ids_bind ids :
  kernel_ids t ids = ids ≫= (fun b => (fun k => b * blocks_per_kv_block t + k) <$> seqZ 0 (blocks_per_kv_block t)).
Proof.
  unfold kernel_ids, map_to_kernel_blocks. destruct Hwf as [_ Hp Hh _ _ _ _ _].
  assert (H1 : forall ids, ids = ids ≫= (fun b => (fun k => b * 1 + k) <$> seqZ 0 1)).
  { intros l. induction l as [|b l IH]; [done|]. rewrite bind_cons, <- IH. change (seqZ 0 1) with [0]. cbn [fmap list_fmap app]. by rewrite Z.mul_1_r, Z.add_0_r. }
  destruct (use_hybrid_blocks t).
  - destruct (Z.eqb_spec (blocks_per_kv_block t) 1) as [->|]; [apply H1|done].
  - rewrite Hh by done. apply H1.
Qed.

Lemma kernel_ids_app ids1 ids2 : kernel_ids t (ids1 ++ ids2) = kernel_ids t ids1 ++ kernel_ids t ids2.
Proof. by rewrite !kernel_ids_bind, bind_app. Qed.

Lemma length_kernel_ids ids : length (kernel_ids t ids) = (length ids * per)%nat.
Proof.
  rewrite kernel_ids_bind. induction ids as [|b ids IH]; [done|].
  rewrite bind_cons, length_app, IH, length_fmap, length_seqZ. cbn [length]. fold per. lia.
Qed.

(** A kernel block is a part of the manager's block. *)
Lemma lookup_kernel_ids ids v b :
  0 <= v -> ids !! Z.to_nat (v / blocks_per_kv_block t) = Some b ->
  kernel_ids t ids !! Z.to_nat v = Some (b * blocks_per_kv_block t + v mod blocks_per_kv_block t).
Proof.
  intros Hv. destruct Hwf as [_ Hp _ _ _ _ _ _]. rewrite kernel_ids_bind. revert v Hv.
  set (g := fun b0 => _ <$> _). assert (Hg : forall b0, length (g b0) = per) by (intros; unfold g; by rewrite length_fmap, length_seqZ).
  induction ids as [|b0 ids IH]; intros v Hv E; [done|]. rewrite bind_cons.
  pose proof (Z.mod_pos_bound v _ Hp). pose proof (Z.div_mod v (blocks_per_kv_block t) ltac:(lia)).
  destruct (Z.le_gt_cases (blocks_per_kv_block t) v) as [Hge|Hlt].
  - rewrite lookup_app_r by (rewrite Hg; unfold per; lia). rewrite Hg.
    replace (Z.to_nat v - per)%nat with (Z.to_nat (v - blocks_per_kv_block t)) by (unfold per; lia).
    replace (v mod blocks_per_kv_block t) with ((v - blocks_per_kv_block t) mod blocks_per_kv_block t)
      by (rewrite <- (Z_mod_plus_full v (-1)); f_equal; lia).
    assert (Ed : v / blocks_per_kv_block t = (v - blocks_per_kv_block t) / blocks_per_kv_block t + 1).
    { rewrite <- Z_div_plus_full by lia. f_equal. lia. }
    assert (0 <= (v - blocks_per_kv_block t) / blocks_per_kv_block t) by (apply Z.div_pos; lia).
    apply IH; [lia|]. rewrite Ed, Z2Nat.inj_add in E by lia. rewrite Nat.add_comm in E. done.
  - rewrite Z.div_small in E by lia. injection E as ->. rewrite Z.mod_small by lia.
    rewrite lookup_app_l by (rewrite Hg; unfold per; lia). unfold g.
    rewrite list_lookup_fmap, lookup_seqZ_lt by lia. cbn. f_equal. lia.
Qed.

(** * Rows as lists of blocks *)

Lemma holds_lookup rows i ids :
  holds t rows -> rows !! i = Some ids -> exists rest,
  py_index (num_blocks_per_row t) (Z.of_nat i) = Ok (py_len (kernel_ids t ids)) /\
  py_index (block_table t) (Z.of_nat i) = Ok (kernel_ids t ids ++ rest) /\
  py_len (kernel_ids t ids ++ rest) = max_num_blocks_per_req t.
Proof.
  intros (Hl & Hn & Hr) E. destruct (Hr i ids E) as (rest & Er & Hw). exists rest.
  split; [|split; [by apply py_index_nat|done]]. apply py_index_nat. by rewrite Hn, list_lookup_fmap, E.
Qed.

Lemma append_row_ok rows i ids new :
  holds t rows -> rows !! i = Some ids -> py_len (kernel_ids t (ids ++ new)) <= max_num_blocks_per_req t ->
  exists rs num, append_row new (Z.of_nat i) t = Ok (set_rows rs num t) /\ holds (set_rows rs num t) (<[i := ids ++ new]> rows).
Proof.
  intros Hh E Hfit. destruct (holds_lookup rows i ids Hh E) as (rest & En & Er & Hw).
  assert (Hi : (i < length rows)%nat) by by eapply lookup_lt_Some.
  destruct new as [|b new].
  { exists (block_table t), (num_blocks_per_row t). rewrite app_nil_r, list_insert_id by done. by destruct t. }
  assert (Hne : b :: new <> []) by done. revert Hne Hfit. generalize (b :: new) as nw. intros nw Hne Hfit.
  assert (Hk : append_row nw (Z.of_nat i) t =
    (start ← py_index (num_blocks_per_row t) (Z.of_nat i);
     num ← np_put (num_blocks_per_row t) (Z.of_nat i) (c_int 32 (start + py_len (kernel_ids t nw)));
     row ← py_index (block_table t) (Z.of_nat i);
     row ← np_set_slice row start (start + py_len (kernel_ids t nw)) (kernel_ids t nw);
     rows ← np_put (block_table t) (Z.of_nat i) row;
     Ok (set_rows rows num t))) by by destruct nw.
  rewrite Hk, En, Er. cbn [mbind result_bind]. destruct Hh as (Hl & Hn & Hr).
  rewrite kernel_ids_app in Hfit. unfold py_len in *. rewrite length_app in Hfit, Hw.
  destruct Hwf as [_ _ _ Hwd _ _ _ _].
  rewrite c_int_id by (change (32 - 1) with 31; lia).
  rewrite np_put_nat by (rewrite Hn, length_fmap; done). cbn [mbind result_bind].
  rewrite <- Nat2Z.inj_add, np_set_slice_ok by (rewrite length_app; lia). cbn [mbind result_bind].
  rewrite np_put_nat by (rewrite Hl; done). cbn [mbind result_bind].
  rewrite take_app_length, app_assoc, <- kernel_ids_app.
  eexists _, _. split; [done|].
  replace (Z.of_nat (length (kernel_ids t ids) + length (kernel_ids t nw))) with (py_len (kernel_ids t (ids ++ nw)))
    by (unfold py_len; rewrite kernel_ids_app, length_app; lia).
  apply holds_insert; [done|done|]. unfold py_len. rewrite !length_app, length_drop, kernel_ids_app, !length_app. lia.
Qed.

Lemma move_row_ok rows i j ids :
  holds t rows -> rows !! i = Some ids -> (j < length rows)%nat ->
  exists rs num, move_row (Z.of_nat i) (Z.of_nat j) t = Ok (set_rows rs num t) /\ holds (set_rows rs num t) (<[j := ids]> rows).
Proof.
  intros Hh E Hj. destruct (holds_lookup rows i ids Hh E) as (rest & En & Er & Hw).
  destruct (lookup_lt_is_Some_2 rows j Hj) as [ids' E'].
  destruct (holds_lookup rows j ids' Hh E') as (rest' & _ & Er' & Hw').
  unfold move_row. rewrite En, Er, Er'. cbn [mbind result_bind]. pose proof Hh as (Hl & Hn & Hr).
  unfold py_len in *. rewrite length_app in Hw, Hw'.
  rewrite py_slice_nonneg, Z.sub_0_r, Nat2Z.id by lia. change (Z.to_nat 0) with 0%nat. rewrite drop_0.
  rewrite take_app_length, np_set_prefix_ok by (rewrite length_app; lia). cbn [mbind result_bind].
  rewrite !np_put_nat by (rewrite ?Hl, ?Hn, ?length_fmap; done). cbn [mbind result_bind].
  eexists _, _. split; [done|]. apply holds_insert; [done|done|].
  unfold py_len. rewrite length_app, length_drop, length_app. lia.
Qed.

Lemma np_swap_ok {A} (a : list A) (i j : nat) x y :
  a !! i = Some x -> a !! j = Some y -> np_swap a (Z.of_nat i) (Z.of_nat j) = Ok (<[j := x]> (<[i := y]> a)).
Proof.
  intros Hx Hy. unfold np_swap. rewrite (py_index_nat _ _ _ Hx), (py_index_nat _ _ _ Hy). cbn [mbind result_bind].
  rewrite np_put_nat by by eapply lookup_lt_Some. cbn [mbind result_bind].
  rewrite np_put_nat; [done|]. rewrite length_insert. by eapply lookup_lt_Some.
Qed.

Lemma swap_row_ok rows i j ids ids' :
  holds t rows -> rows !! i = Some ids -> rows !! j = Some ids' ->
  exists rs num, swap_row (Z.of_nat i) (Z.of_nat j) t = Ok (set_rows rs num t) /\
    holds (set_rows rs num t) (<[j := ids]> (<[i := ids']> rows)).
Proof.
  intros Hh E E'. pose proof Hh as (Hl & Hn & Hr).
  destruct (Hr i ids E) as (rest & Er & Hw). destruct (Hr j ids' E') as (rest' & Er' & Hw').
  unfold swap_row. rewrite (np_swap_ok _ i j (py_len (kernel_ids t ids)) (py_len (kernel_ids t ids')))
    by (rewrite Hn, list_lookup_fmap, ?E, ?E'; done). cbn [mbind result_bind].
  rewrite (np_swap_ok _ i j _ _ Er Er'). cbn [mbind result_bind]. eexists _, _. split; [done|].
  assert (Hi : (i < length rows)%nat) by by eapply lookup_lt_Some.
  assert (Hj : (j < length rows)%nat) by by eapply lookup_lt_Some.
  apply (holds_insert (set_rows _ _ t) _ j ids rest); [|by rewrite length_insert|done].
  by apply (holds_insert t rows i ids' rest').
Qed.
End Rows.

(** Setting a row to length zero and appending replaces it. *)
Lemma add_row_ok t rows i new :
  table_wf t -> holds t rows -> (i < length rows)%nat -> py_len (kernel_ids t new) <= max_num_blocks_per_req t ->
  exists rs num, add_row new (Z.of_nat i) t = Ok (set_rows rs num t) /\ holds (set_rows rs num t) (<[i := new]> rows).
Proof.
  intros Hwf Hh Hi Hfit. pose proof Hh as (Hl & Hn & Hr). unfold add_row.
  rewrite np_put_nat by by rewrite Hn, length_fmap. cbn [mbind result_bind].
  set (t0 := set_rows _ _ t). assert (Hwf0 : table_wf t0) by by destruct Hwf.
  assert (Hh0 : holds t0 (<[i := []]> rows)).
  { destruct (lookup_lt_is_Some_2 rows i Hi) as [ids E]. destruct (Hr i ids E) as (rest & Er & Hw).
    assert (Ek : kernel_ids t [] = []) by by rewrite kernel_ids_bind.
    assert (Et : t0 = set_rows (<[i := kernel_ids t [] ++ kernel_ids t ids ++ rest]> (block_table t))
      (<[i := py_len (kernel_ids t [])]> (num_blocks_per_row t)) t) by (rewrite Ek; cbn [app]; by rewrite (list_insert_id _ i _ Er)).
    rewrite Et. apply (holds_insert t rows i [] (kernel_ids t ids ++ rest)); [done..|]. by rewrite Ek. }
  destruct (append_row_ok t0 Hwf0 _ i [] new Hh0) as (rs & num & E & H').
  - by rewrite list_lookup_insert_eq.
  - done.
  - exists rs, num. split; [done|]. by rewrite list_insert_insert_eq in H'.
Qed.

(** * Slots of tokens *)

(** The rank that stores position [p] when chunks of [I] tokens go round the [W] ranks,
    and its position among the tokens of that rank. *)
Definition rank_of (W I p : Z) : Z := p / I mod W.
Definition local_pos (W I p : Z) : Z := p / (W * I) * I + p mod I.

(** The slot of the [q]-th token of a request in the blocks [ids] of [B] tokens. *)
Definition stored_slot (ids : list Z) (B q : Z) : Z := default 0 (ids !! Z.to_nat (q / B)) * B + q mod B.

Definition kv_block_size (t : BlockTable) : Z := block_size t * blocks_per_kv_block t.

Definition token_slot (t : BlockTable) (ids : list Z) (p : Z) : Z :=
  let W := total_cp_world_size t in
  let I := cp_kv_cache_interleave_size t in
  if rank_of W I p =? total_cp_rank t then stored_slot ids (kv_block_size t) (local_pos W I p) else -1.

(** The request has a block for the position, with slots below [2 ^ 31]. *)
Definition token_in_row (t : BlockTable) (rows : list (list Z)) (x : nat * Z) : Prop :=
  exists ids b, rows !! x.1 = Some ids /\ 0 <= x.2 /\
    ids !! Z.to_nat (x.2 / (kv_block_size t * total_cp_world_size t)) = Some b /\
    0 <= b /\ (b + 1) * kv_block_size t <= 2 ^ 31.

(** Rank and local position determine the position. *)
Lemma rank_local_inj W I p p' :
  0 < W -> 0 < I -> rank_of W I p = rank_of W I p' -> local_pos W I p = local_pos W I p' -> p = p'.
Proof.
  intros HW HI. unfold rank_of, local_pos.
  rewrite !(Z.mul_comm W I), <- !Z.div_div by lia. intros Hr Hl.
  pose proof (Z.mod_pos_bound p I HI). pose proof (Z.mod_pos_bound p' I HI).
  assert (p / I / W = p' / I / W /\ p mod I = p' mod I) as [Hd Hm].
  { apply (Z.div_mod_unique I); lia. }
  rewrite (Z.div_mod p I), (Z.div_mod p' I), Hm by lia. do 2 f_equal.
  rewrite (Z.div_mod (p / I) W), (Z.div_mod (p' / I) W) by lia. by rewrite Hd, Hr.
Qed.

Section Slots.
Context (W I k p : Z) (HW : 0 < W) (HI : 0 < I) (Hk : 0 < k) (Hdiv : (I | k)) (Hp : 0 <= p).
Let v := p / (k * W).
Let o := p mod (k * W).

(** The virtual block and the offset in it, from the code's expressions. *)
Lemma rank_of_offset : o / I mod W = rank_of W I p.
Proof.
  destruct Hdiv as [m Hm]. unfold rank_of. assert (E : p = o + m * W * v * I).
  { unfold v, o. pose proof (Z.div_mod p (k * W) ltac:(lia)). nia. }
  rewrite E at 1. rewrite Z_div_plus_full by lia.
  replace (o / I + m * W * v) with (o / I + m * v * W) by lia. by rewrite Z_mod_plus_full.
Qed.

Lemma local_pos_offset :
  local_pos W I p = v * k + (o / (W * I) * I + o mod I) /\ 0 <= o / (W * I) * I + o mod I < k.
Proof.
  destruct Hdiv as [m Hm]. unfold local_pos. assert (Hm0 : 0 < m) by nia.
  assert (Hkw : 0 < k * W) by nia. assert (HWI : 0 < W * I) by nia.
  pose proof (Z.mod_pos_bound p (k * W) Hkw) as Ho. fold o in Ho.
  assert (E : p = o + m * v * (W * I)). { unfold v, o. pose proof (Z.div_mod p (k * W) ltac:(lia)). nia. }
  pose proof (Z.mod_pos_bound o I HI). split.
  - rewrite E at 1 2. rewrite Z_div_plus_full by lia.
    replace (o + m * v * (W * I)) with (o + m * v * W * I) by lia. rewrite Z_mod_plus_full, Hm. lia.
  - assert (0 <= o / (W * I)) by (apply Z.div_pos; lia).
    assert (o / (W * I) < m) by (apply Z.div_lt_upper_bound; nia). nia.
Qed.

(** A kernel block of [k] slots is a part of a block of [k * c]. *)
Lemma kernel_slot (ids : list Z) (c b : Z) :
  0 < c -> ids !! Z.to_nat (v / c) = Some b ->
  (b * c + v mod c) * k + (o / (W * I) * I + o mod I) = stored_slot ids (k * c) (local_pos W I p).
Proof.
  intros Hc E. destruct local_pos_offset as [Eq Hlt]. unfold stored_slot.
  assert (Hq : local_pos W I p / k = v). { rewrite Eq, Z.add_comm, Z_div_plus_full, Z.div_small by lia. lia. }
  assert (Hm : local_pos W I p mod k = o / (W * I) * I + o mod I).
  { rewrite Eq, Z.add_comm, Z_mod_plus_full, Z.mod_small by lia. done. }
  rewrite <- (Z.div_div (local_pos W I p) k c), (Z.rem_mul_r (local_pos W I p) k c), Hq, Hm by lia. rewrite E. cbn. lia.
Qed.
End Slots.

Section Mapping.
Context (t : BlockTable) (rows : list (list Z)) (Hwf : table_wf t) (Hh : holds t rows).
Let k := block_size t.
Let c := blocks_per_kv_block t.
Let W := total_cp_world_size t.

(** The entry of the table the code reads for a token. *)
Definition block_number (x : nat * Z) : Z :=
  default 0 (kernel_ids t (default [] (rows !! x.1)) !! Z.to_nat (x.2 / (k * W))).

Lemma token_number x :
  token_in_row t rows x -> exists ids b, rows !! x.1 = Some ids /\ 0 <= x.2 /\
    ids !! Z.to_nat (x.2 / (k * W) / c) = Some b /\
    kernel_ids t ids !! Z.to_nat (x.2 / (k * W)) = Some (block_number x) /\
    block_number x = b * c + x.2 / (k * W) mod c /\ c_int 32 (block_number x * k) = block_number x * k.
Proof.
  intros (ids & b & E & Hx & Eb & Hb & Hbound). exists ids, b.
  destruct Hwf as [Hk Hc _ _ _ _ HW _]. fold k in Hk. fold c in Hc. fold W in HW. unfold kv_block_size in *. fold k c W in Eb, Hbound.
  assert (Hdd : x.2 / (k * W) / c = x.2 / (k * c * W)). { rewrite Z.div_div by nia. f_equal. lia. }
  rewrite <- Hdd in Eb. assert (Hv : 0 <= x.2 / (k * W)) by (apply Z.div_pos; nia).
  pose proof (lookup_kernel_ids t Hwf ids _ b Hv Eb) as Ek. fold c in Ek.
  assert (En : block_number x = b * c + x.2 / (k * W) mod c) by (unfold block_number; rewrite E; cbn; by rewrite Ek).
  repeat split; [done..|by rewrite En|done|].
  pose proof (Z.mod_pos_bound (x.2 / (k * W)) c Hc). rewrite c_int_id; [done|lia|]. change (32 - 1) with 31. nia.
Qed.

Lemma block_numbers_ok toks :
  Forall (token_in_row t rows) toks ->
  np_take (concat (block_table t)) ((fun x => Z.of_nat x.1 * max_num_blocks_per_req t + x.2 / (k * W)) <$> toks)
  = Ok (block_number <$> toks).
Proof.
  intros Ht. unfold np_take. rewrite mapR_fmap. apply mapR_pure. intros x Hx.
  rewrite Forall_forall in Ht. destruct (token_number x (Ht x Hx)) as (ids & b & E & Hp & _ & Ek & _).
  destruct Hh as (Hl & _ & Hr). destruct (Hr _ _ E) as (rest & Er & Hw).
  assert (Hu : uniform (Z.to_nat (max_num_blocks_per_req t)) (block_table t)).
  { intros row [j Hj]%list_elem_of_lookup_1. destruct (lookup_lt_is_Some_2 rows j) as [ids' E'].
    { rewrite <- Hl. by eapply lookup_lt_Some. }
    destruct (Hr j ids' E') as (rest' & Er' & Hw'). rewrite Hj in Er'. injection Er' as ->. unfold py_len in Hw'. lia. }
  destruct Hwf as [Hk _ _ [Hm _] _ _ HW _]. fold k in Hk. fold W in HW.
  assert (Hv : 0 <= x.2 / (k * W)) by (apply Z.div_pos; nia).
  apply lookup_lt_Some in Ek as Hlt. unfold py_len in Hw. rewrite length_app in Hw.
  destruct (load_row _ _ _ _ (x.2 / (k * W)) Hu Er) as (n & Hn & El); [lia|].
  rewrite lookup_app_l, Ek in Hn by done. injection Hn as <-. rewrite Z2Nat.id in El by done.
  rewrite <- El, py_index_nonneg by nia. unfold load. by rewrite (proj2 (Z.ltb_ge _ 0)) by nia.
Qed.

(** Both branches compute the slot of each token. *)
Lemma slots_ok toks :
  Forall (token_in_row t rows) toks ->
  (if 1 <? W then cp_slots W (total_cp_rank t) t ((fun x => Z.of_nat x.1) <$> toks) toks.*2
   else plain_slots t ((fun x => Z.of_nat x.1) <$> toks) toks.*2)
  = Ok ((fun x => token_slot t (default [] (rows !! x.1)) x.2) <$> toks).
Proof.
  intros Ht. pose proof (block_numbers_ok toks Ht) as Hb. rewrite Forall_forall in Ht.
  destruct Hwf as [Hk Hc _ _ HI Hdv HW Hr]. fold k in Hk, Hdv. fold c in Hc. fold W in HW, Hr.
  destruct (Z.ltb_spec 1 W) as [H1|H1].
  - unfold cp_slots. rewrite np_zip_fmap. cbn [mbind result_bind]. fold k. rewrite Hb. cbn [mbind result_bind].
    rewrite <- !list_fmap_compose, np_zip_fmap. cbn [mbind result_bind]. rewrite np_zip_fmap. f_equal.
    apply list_fmap_ext. intros ? x Hx%list_elem_of_lookup_2. cbn.
    destruct (token_number x (Ht x Hx)) as (ids & b & E & Hp & Eb & _ & En & Ew).
    unfold token_slot. fold W. rewrite rank_of_offset, E by done. cbn. destruct (_ =? _); [|done].
    rewrite Ew, En. unfold kv_block_size. fold k c. by apply kernel_slot.
  - assert (HW1 : W = 1) by lia. unfold plain_slots. fold k. rewrite HW1, Z.mul_1_r in Hb.
    rewrite np_zip_fmap. cbn [mbind result_bind]. rewrite Hb. cbn [mbind result_bind].
    rewrite <- !list_fmap_compose, np_zip_fmap. f_equal.
    apply list_fmap_ext. intros ? x Hx%list_elem_of_lookup_2. cbn.
    destruct (token_number x (Ht x Hx)) as (ids & b & E & Hp & Eb & _ & En & Ew).
    rewrite Ew, En, E. cbn. unfold token_slot. fold W. unfold rank_of. rewrite HW1, Z.mod_1_r.
    rewrite (proj2 (Z.eqb_eq 0 _)) by lia. rewrite HW1, Z.mul_1_r in Eb. rewrite ?Z.mul_1_r.
    unfold kv_block_size. fold k c. rewrite <- (kernel_slot 1 _ k x.2) with (b := b); rewrite ?Z.mul_1_r; try done.
    rewrite Z.mul_1_l. pose proof (Z.div_mod (x.2 mod k) (cp_kv_cache_interleave_size t) ltac:(lia)). lia.
Qed.
End Mapping.

(** The slots of a batch: for every token whose request has a block for it, the slot of
    its position in the blocks of the KV-cache manager, whatever the block size of the
    kernel, on the one rank that stores the token, and [-1] on the others; the rest of the
    buffer is left alone. *)
Lemma compute_slot_mapping_ok t rows toks :
  table_wf t -> holds t rows -> Forall (token_in_row t rows) toks -> (length toks <= length (slot_mapping t))%nat ->
  compute_slot_mapping ((fun x => Z.of_nat x.1) <$> toks) toks.*2 t
  = Ok (set_slots (((fun x => token_slot t (default [] (rows !! x.1)) x.2) <$> toks)
          ++ drop (length toks) (slot_mapping t)) (slot_mapping_gpu t) t).
Proof.
  intros Hwf Hh Ht Hlen. unfold compute_slot_mapping. rewrite (slots_ok t rows Hwf Hh toks Ht). cbn [mbind result_bind].
  unfold py_len. rewrite length_fmap.
  rewrite <- (length_fmap (fun x => token_slot t (default [] (rows !! x.1)) x.2) toks).
  rewrite np_set_prefix_ok by by rewrite length_fmap. done.
Qed.

(** The block and the offset a stored token has, from its slot. *)
Lemma token_slot_stored t rows x :
  table_wf t -> token_in_row t rows x -> token_slot t (default [] (rows !! x.1)) x.2 <> -1 ->
  let q := local_pos (total_cp_world_size t) (cp_kv_cache_interleave_size t) x.2 in
  exists ids b, rows !! x.1 = Some ids /\ ids !! Z.to_nat (q / kv_block_size t) = Some b /\ 0 <= b /\ 0 <= q /\
    rank_of (total_cp_world_size t) (cp_kv_cache_interleave_size t) x.2 = total_cp_rank t /\
    token_slot t (default [] (rows !! x.1)) x.2 = kv_block_size t * b + q mod kv_block_size t.
Proof.
  intros [Hk Hc _ _ HI Hdv HW _] (ids & b & E & Hx & Eb & Hb & _) Hne. exists ids, b.
  destruct (local_pos_offset _ _ _ x.2 HW HI Hk Hdv) as [Eq Hlt].
  assert (Hv : 0 <= x.2 / (block_size t * total_cp_world_size t)) by (apply Z.div_pos; nia).
  set (q := local_pos _ _ _) in *.
  assert (Hq : q / kv_block_size t = x.2 / (kv_block_size t * total_cp_world_size t)).
  { assert (Hqk : q / block_size t = x.2 / (block_size t * total_cp_world_size t)).
    { rewrite Eq, Z.add_comm, Z_div_plus_full, Z.div_small by lia. lia. }
    unfold kv_block_size. rewrite <- (Z.div_div q), Hqk, Z.div_div by nia. f_equal. lia. }
  rewrite Hq. revert Hne. unfold token_slot, stored_slot. fold q. destruct (Z.eqb_spec (rank_of (total_cp_world_size t)
    (cp_kv_cache_interleave_size t) x.2) (total_cp_rank t)) as [Hr|]; [|done]. intros _.
  repeat split; [done..|nia|done|]. rewrite E. cbn. rewrite Hq, Eb. cbn. lia.
Qed.

(** No two tokens share a slot.  If the block a stored token falls into occurs once
    in the table, no other token of any request is given its slot on that rank. *)
Theorem slots_disjoint t rows x y :
  table_wf t -> token_in_row t rows x -> token_in_row t rows y ->
  (forall i ids j i' ids' j' b, rows !! i = Some ids -> ids !! j = Some b -> rows !! i' = Some ids' -> ids' !! j' = Some b ->
     i = x.1 -> i = i' /\ j = j') ->
  token_slot t (default [] (rows !! x.1)) x.2 <> -1 ->
  token_slot t (default [] (rows !! x.1)) x.2 = token_slot t (default [] (rows !! y.1)) y.2 -> x = y.
Proof.
  intros Hwf Hx Hy Hown Hne Heq.
  destruct (token_slot_stored t rows x Hwf Hx Hne) as (ids & b & E & Eb & Hb & Hq & Hr & Es).
  rewrite Heq in Hne. destruct (token_slot_stored t rows y Hwf Hy Hne) as (ids' & b' & E' & Eb' & Hb' & Hq' & Hr' & Es').
  destruct Hwf as [Hk Hc _ _ HI _ HW _]. assert (HB : 0 < kv_block_size t) by (unfold kv_block_size; nia).
  set (q := local_pos _ _ x.2) in *. set (q' := local_pos _ _ y.2) in *.
  pose proof (Z.mod_pos_bound q _ HB). pose proof (Z.mod_pos_bound q' _ HB).
  assert (b = b' /\ q mod kv_block_size t = q' mod kv_block_size t) as [<- Hm] by (apply (Z.div_mod_unique (kv_block_size t)); lia).
  destruct (Hown _ _ _ _ _ _ _ E Eb E' Eb' eq_refl) as [H1 Hj].
  assert (Hd : q / kv_block_size t = q' / kv_block_size t).
  { apply Z2Nat.inj; [apply Z.div_pos; lia..|done]. }
  assert (Hqq : q = q') by (rewrite (Z.div_mod q (kv_block_size t)), (Z.div_mod q' (kv_block_size t)), Hd, Hm by lia; done).
  destruct x as [i p], y as [i' p']. cbn in *. subst i'. f_equal. apply (rank_local_inj _ _ p p' HW HI); [by rewrite Hr, Hr'|exact Hqq].
Qed.

(** * Histories of a table *)

(** The calls that change rows, and what they do to the blocks of the requests. *)
Inductive row_call :=
| AppendRow (block_ids : list Z) (row_idx : nat)
| AddRow (block_ids : list Z) (row_idx : nat)
| MoveRow (src tgt : nat)
| SwapRow (src tgt : nat).

Definition run_call (c : row_call) (t : BlockTable) : result BlockTable :=
  match c with
  | AppendRow ids i => append_row ids (Z.of_nat i) t
  | AddRow ids i => add_row ids (Z.of_nat i) t
  | MoveRow i j => move_row (Z.of_nat i) (Z.of_nat j) t
  | SwapRow i j => swap_row (Z.of_nat i) (Z.of_nat j) t
  end.

Definition abstract_call (c : row_call) (rows : list (list Z)) : option (list (list Z)) :=
  match c with
  | AppendRow new i => ids ← rows !! i; Some (<[i := ids ++ new]> rows)
  | AddRow new i => _ ← rows !! i; Some (<[i := new]> rows)
  | MoveRow i j => ids ← rows !! i; _ ← rows !! j; Some (<[j := ids]> rows)
  | SwapRow i j => ids ← rows !! i; ids' ← rows !! j; Some (<[j := ids]> (<[i := ids']> rows))
  end.

Fixpoint abstract_calls (W : nat) (cs : list row_call) (rows : list (list Z)) : option (list (list Z)) :=
  match cs with
  | [] => Some rows
  | c :: cs => rows ← abstract_call c rows; if forallb (fun ids => length ids <=? W)%nat rows then abstract_calls W cs rows else None
  end.

Lemma table_call_ok c t rows rows' :
  table_wf t -> holds t rows -> abstract_call c rows = Some rows' ->
  (forall ids, ids ∈ rows' -> py_len (kernel_ids t ids) <= max_num_blocks_per_req t) ->
  exists rs num, run_call c t = Ok (set_rows rs num t) /\ holds (set_rows rs num t) rows'.
Proof.
  intros Hwf Hh Hc Hfit. destruct c as [new i|new i|i j|i j]; cbn in Hc |- *.
  - destruct (rows !! i) as [ids|] eqn:E; [|done]. injection Hc as <-. apply append_row_ok; [done..|].
    apply Hfit. apply list_elem_of_insert. by eapply lookup_lt_Some.
  - destruct (rows !! i) as [ids|] eqn:E; [|done]. injection Hc as <-. apply lookup_lt_Some in E.
    apply add_row_ok; [done..|]. apply Hfit. by apply list_elem_of_insert.
  - destruct (rows !! i) as [ids|] eqn:E; [|done]. destruct (rows !! j) as [ids'|] eqn:E'; [|done]. injection Hc as <-.
    apply move_row_ok; [done..|]. by eapply lookup_lt_Some.
  - destruct (rows !! i) as [ids|] eqn:E; [|done]. destruct (rows !! j) as [ids'|] eqn:E'; [|done]. injection Hc as <-.
    by apply swap_row_ok.
Qed.

Lemma new_table_ok bs n m b kbs interleave pcp dcp :
  0 < kbs -> (kbs | bs) -> 0 < bs -> Z.of_nat m * (bs / kbs) < 2 ^ 31 -> 0 < interleave -> (interleave | kbs) ->
  0 <= (default (1, 0) pcp).2 < (default (1, 0) pcp).1 -> 0 <= (default (1, 0) dcp).2 < (default (1, 0) dcp).1 ->
  exists t, new_table bs n m b kbs interleave pcp dcp = Ok t /\ table_wf t /\ holds t (replicate n []) /\
    kv_block_size t = bs /\ max_num_blocks_per_req t = Z.of_nat m * blocks_per_kv_block t /\ length (slot_mapping t) = b.
Proof.
  intros Hkbs [c Hc] Hbs Hm HI HId Hp Hq. unfold new_table.
  destruct (default (1, 0) pcp) as [ps pr] eqn:Ep. destruct (default (1, 0) dcp) as [ds dr] eqn:Eq. cbn in Hp, Hq.
  assert (Hcd : bs / kbs = c) by (rewrite Hc; apply Z.div_mul; lia). assert (0 < c) by nia.
  set (per := if kbs =? bs then 1 else c).
  assert (Hper : 0 < per /\ per = c) by (unfold per; destruct (Z.eqb_spec kbs bs); nia).
  assert (Ei : (if kbs =? bs then Ok (bs, 1, false) else if negb (bs mod kbs =? 0) then Err ValueError
    else Ok (kbs, bs / kbs, true)) = Ok (kbs, per, negb (kbs =? bs))).
  { unfold per. destruct (Z.eqb_spec kbs bs) as [->|]; [done|]. rewrite Hcd.
    by rewrite (proj2 (Z.eqb_eq _ 0)) by (rewrite Hc; apply Z.mod_mul; lia). }
  rewrite Ei. cbn [mbind result_bind]. eexists. split; [reflexivity|]. destruct Hper as [Hper Epc]. split; [|split].
  - split; cbn; try done; try (unfold total_cp_world_size, total_cp_rank; cbn; nia).
  - split; [|split]; cbn.
    + by rewrite !length_replicate.
    + rewrite fmap_replicate. f_equal. unfold kernel_ids, map_to_kernel_blocks. cbn. by repeat case_match.
    + intros i ids [-> Hi]%lookup_replicate. eexists. rewrite lookup_replicate_2 by done.
      assert (Ek : forall t, kernel_ids t [] = []) by (intros; unfold kernel_ids, map_to_kernel_blocks; by repeat case_match).
      rewrite Ek. cbn. split; [done|]. unfold py_len. by rewrite length_replicate.
  - unfold kv_block_size. cbn. rewrite length_replicate, Nat2Z.inj_mul, Z2Nat.id by lia. nia.
Qed.

Lemma run_calls_ok cs t W rows rows' :
  table_wf t -> holds t rows -> abstract_calls W cs rows = Some rows' ->
  max_num_blocks_per_req t = Z.of_nat W * blocks_per_kv_block t ->
  exists rs num, foldM (fun t c => run_call c t) cs t = Ok (set_rows rs num t) /\ holds (set_rows rs num t) rows'.
Proof.
  intros Hwf. revert t Hwf rows. induction cs as [|c cs IH]; intros t Hwf rows Hh E Hm; cbn in E |- *.
  - injection E as <-. exists (block_table t), (num_blocks_per_row t). by destruct t.
  - destruct (abstract_call c rows) as [rows1|] eqn:Ec; [|done]. cbn in E.
    destruct (forallb _ rows1) eqn:Ef; [|done]. rewrite forallb_forall in Ef.
    destruct (table_call_ok c t rows rows1 Hwf Hh Ec) as (rs & num & -> & Hh1).
    { intros ids Hin%list_elem_of_In%Ef. apply Nat.leb_le in Hin. rewrite Hm. unfold py_len.
      rewrite length_kernel_ids by done. destruct Hwf. nia. }
    cbn [mbind result_bind]. apply (IH (set_rows rs num t)) in Hh1 as (rs' & num' & -> & Hh'); [|by destruct Hwf|done..].
    by exists rs', num'.
Qed.

(** C15: the block tables implement the block lists of the requests.  From a new table,
    after any sequence of appends, replacements, moves and swaps of rows whose block lists
    fit the row, the slots computed for a batch are the slots of the tokens in those
    lists, in blocks of the KV-cache manager, whatever the block size of the kernel, on
    the rank that stores the token and [-1] on the others. *)
Theorem block_table_correct bs n m b kbs interleave pcp dcp cs rows toks :
  0 < kbs -> (kbs | bs) -> 0 < bs -> Z.of_nat m * (bs / kbs) < 2 ^ 31 -> 0 < interleave -> (interleave | kbs) ->
  0 <= (default (1, 0) pcp).2 < (default (1, 0) pcp).1 -> 0 <= (default (1, 0) dcp).2 < (default (1, 0) dcp).1 ->
  abstract_calls m cs (replicate n []) = Some rows -> (length toks <= b)%nat ->
  exists t, new_table bs n m b kbs interleave pcp dcp = Ok t /\ kv_block_size t = bs /\
    (Forall (token_in_row t rows) toks ->
     exists t', (t1 ← foldM (fun t c => run_call c t) cs t;
                 compute_slot_mapping ((fun x => Z.of_nat x.1) <$> toks) toks.*2 t1) = Ok t' /\
       take (length toks) (slot_mapping t') = (fun x => token_slot t (default [] (rows !! x.1)) x.2) <$> toks).
Proof.
  intros ? ? ? ? ? ? ? ? Ha Hl. destruct (new_table_ok bs n m b kbs interleave pcp dcp)
    as (t & Et & Hwf & Hh & Hb & Hm & Hs); [done..|]. exists t. split; [done|]. split; [done|]. intros Ht.
  destruct (run_calls_ok cs t m _ rows Hwf Hh Ha Hm) as (rs & num & -> & Hh1). cbn [mbind result_bind].
  rewrite (compute_slot_mapping_ok (set_rows rs num t) rows toks); [|by destruct Hwf|done|done|cbn; lia].
  eexists. split; [done|]. cbn. rewrite take_app_length'; [done|]. by rewrite length_fmap.
Qed.

(** * Concrete tables *)
Module BlockTableExamples.

(** Blocks of four tokens split into kernel blocks of two, on rank 1 of 2. *)
Definition demo_calls : list row_call :=
  [AddRow [5; 7] 0; AppendRow [9] 0; MoveRow 0 1; AddRow [3] 0; SwapRow 0 1].
Definition demo_rows : list (list Z) := [[5; 7; 9]; [3]].
Definition demo_toks : list (nat * Z) := [(0%nat, 0); (0%nat, 17); (1%nat, 3); (1%nat, 6)].

Lemma demo_table : exists t,
  new_table 4 2 3 8 2 1 None (Some (2, 1)) = Ok t /\ kv_block_size t = 4 /\ table_wf t /\ Forall (token_in_row t demo_rows) demo_toks.
Proof.
  eexists. split; [reflexivity|]. split; [reflexivity|]. split.
  - split; cbn; unfold total_cp_world_size, total_cp_rank; cbn; try lia; try done. by exists 2.
  - repeat constructor.
    + exists [5; 7; 9], 5. vm_compute. intuition congruence.
    + exists [5; 7; 9], 9. vm_compute. intuition congruence.
    + exists [3], 3. vm_compute. intuition congruence.
    + exists [3], 3. vm_compute. intuition congruence.
Qed.

Lemma block_table_correct_witness : exists t t',
  new_table 4 2 3 8 2 1 None (Some (2, 1)) = Ok t /\
  (t1 ← foldM (fun t c => run_call c t) demo_calls t;
   compute_slot_mapping ((fun x => Z.of_nat x.1) <$> demo_toks) demo_toks.*2 t1) = Ok t' /\
  take 4 (slot_mapping t') = [-1; 36; 13; -1].
Proof.
  destruct demo_table as (t0 & E0 & _ & _ & Ht).
  destruct (block_table_correct 4 2 3 8 2 1 None (Some (2, 1)) demo_calls demo_rows demo_toks) as (t & E & _ & H).
  - lia.
  - by exists 2.
  - lia.
  - reflexivity.
  - lia.
  - by exists 2.
  - cbn. lia.
  - cbn. lia.
  - reflexivity.
  - cbn. lia.
  - rewrite E0 in E. injection E as <-. destruct (H Ht) as (t' & E' & Hs). exists t0, t'. split; [done|]. split; [done|].
    change (length demo_toks) with 4%nat in Hs. rewrite Hs. injection E0 as <-. reflexivity.
Defined.

Lemma slots_disjoint_witness : exists t, kv_block_size t = 4 /\
  token_slot t [5; 7; 9] 17 = 36 /\ (token_slot t [5; 7; 9] 17 = token_slot t [3] 3 -> (0%nat, 17) = (1%nat, 3)).
Proof.
  destruct demo_table as (t & E & Hb & Hwf & Ht). exists t. split; [done|].
  assert (H36 : token_slot t [5; 7; 9] 17 = 36) by (injection E as <-; reflexivity). split; [done|].
  apply (slots_disjoint t demo_rows (0%nat, 17) (1%nat, 3)); [done| | | |].
  - by eapply Forall_lookup_1 with (i := 1%nat) in Ht.
  - by eapply Forall_lookup_1 with (i := 2%nat) in Ht.
  - intros i ids j i' ids' j' b Ei Ej Ei' Ej' ->. cbn in Ei. injection Ei as <-.
    destruct i' as [|[|i']]; [injection Ei' as <-|injection Ei' as <-|done];
    destruct j as [|[|[|j]]]; try done; destruct j' as [|[|[|j']]]; cbn in Ej, Ej'; simplify_eq; done.
  - cbn. rewrite H36. done.
Defined.
End BlockTableExamples.
