(* ===== verification/RejectionSampler.v ===== *)
(** The rejection sampler: [src/vllm/v1/sample/rejection_sampler.py].

    The Triton kernels are modelled program by program over flat device buffers
    ([Device]); a batch is given by the per-request lists of draft tokens, which
    the kernels see concatenated, with their cumulative lengths.  Token choices
    of the target model (the argmax of its logits, the sampled bonus tokens) and
    the floating-point operations are arguments; the structural theorems hold
    for all of them, the distribution theorem instantiates the arithmetic with
    exact rationals. *)
From Stdlib Require Import QArith Lqa.
From S2P Require Import Prelude Device.
Local Open Scope Z_scope.

Definition PLACEHOLDER_TOKEN_ID : Z := -1.
Definition MAX_SPEC_LEN : Z := 128.

(** * Arithmetic of the random kernels *)

(** The floating-point operations the kernels apply to probabilities. *)
Class FloatOps := {
  F : Type;
  f0 : F;
  f1 : F;
  f_neg_inf : F;
  fdiv : F -> F -> F;
  fsub : F -> F -> F;
  fmax : F -> F -> F;
  fgt : F -> F -> bool;
  fge : F -> F -> bool;
}.

(** * The kernels *)
Section Kernels.
Context {FO : FloatOps}.

(** The segment of a request: [start_idx] and [end_idx]. *)
Definition segment_bounds (cu : list Z) (req_idx : Z) : result (Z * Z) :=
  start_idx ← (if req_idx =? 0 then Ok 0 else load cu (req_idx - 1));
  end_idx ← load cu req_idx;
  Ok (start_idx, end_idx).

(** One position of the loop of [rejection_greedy_sample_kernel]. *)
Definition greedy_step (draft_token_ids target_argmax : list Z) (start_idx base : Z)
    (s : list Z * bool) (pos : Z) : result (list Z * bool) :=
  let '(out, rejected) := s in
  if rejected then Ok (out, rejected) else
  draft_token_id ← load draft_token_ids (start_idx + pos);
  target_argmax_id ← load target_argmax (start_idx + pos);
  out ← store out (base + pos) target_argmax_id;
  Ok (out, negb (draft_token_id =? target_argmax_id)).

(** [rejection_greedy_sample_kernel]. *)
Definition rejection_greedy_sample_kernel (cu_num_draft_tokens draft_token_ids target_argmax
    bonus_token_ids : list Z) (is_greedy : option (list bool)) (max_spec_len : Z)
    (out : list Z) (req_idx : Z) : result (list Z) :=
  greedy ← match is_greedy with None => Ok true | Some l => load l req_idx end;
  if negb greedy then Ok out else
  '(start_idx, end_idx) ← segment_bounds cu_num_draft_tokens req_idx;
  let num_draft_tokens := end_idx - start_idx in
  let base := req_idx * (max_spec_len + 1) in
  '(out, rejected) ← foldM (greedy_step draft_token_ids target_argmax start_idx base)
                       (py_range 0 num_draft_tokens) (out, false);
  if negb rejected then
    bonus_token_id ← load bonus_token_ids req_idx;
    store out (base + num_draft_tokens) bonus_token_id
  else Ok out.

(** The acceptance test: [draft_prob > 0 and target_prob / draft_prob >= uniform_prob]. *)
Definition accepts (draft_prob target_prob uniform_prob : F) : bool :=
  fgt draft_prob f0 && fge (fdiv target_prob draft_prob) uniform_prob.

(** One position of the loop of [rejection_random_sample_kernel]. *)
Definition random_step (draft_token_ids : list Z) (draft_probs : option (list F))
    (target_probs : list F) (recovered_token_ids : list Z) (uniform_probs : list F)
    (vocab_size start_idx base : Z) (s : list Z * bool) (pos : Z) : result (list Z * bool) :=
  let '(out, rejected) := s in
  if rejected then Ok (out, rejected) else
  draft_token_id ← load draft_token_ids (start_idx + pos);
  draft_prob ← match draft_probs with
               | None => Ok f1
               | Some dp => load dp ((start_idx + pos) * vocab_size + draft_token_id)
               end;
  target_prob ← load target_probs ((start_idx + pos) * vocab_size + draft_token_id);
  uniform_prob ← load uniform_probs (start_idx + pos);
  '(token_id, rejected) ← (if accepts draft_prob target_prob uniform_prob
                           then Ok (draft_token_id, false)
                           else t ← load recovered_token_ids (start_idx + pos); Ok (t, true));
  out ← store out (base + pos) token_id;
  Ok (out, rejected).

(** [rejection_random_sample_kernel]. *)
Definition rejection_random_sample_kernel (cu_num_draft_tokens draft_token_ids : list Z)
    (draft_probs : option (list F)) (target_probs : list F) (bonus_token_ids recovered_token_ids : list Z)
    (uniform_probs : list F) (is_greedy : option (list bool)) (max_spec_len vocab_size : Z)
    (out : list Z) (req_idx : Z) : result (list Z) :=
  greedy ← match is_greedy with None => Err AttributeError | Some l => load l req_idx end;
  if greedy : bool then Ok out else
  '(start_idx, end_idx) ← segment_bounds cu_num_draft_tokens req_idx;
  let num_draft_tokens := end_idx - start_idx in
  let base := req_idx * (max_spec_len + 1) in
  '(out, rejected) ← foldM (random_step draft_token_ids draft_probs target_probs
                              recovered_token_ids uniform_probs vocab_size start_idx base)
                       (py_range 0 num_draft_tokens) (out, false);
  if negb rejected then
    bonus_token_id ← load bonus_token_ids req_idx;
    store out (base + num_draft_tokens) bonus_token_id
  else Ok out.

(** [tl.argmax] over a row: the first index with the largest value. *)
Fixpoint argmax_from (best : F) (best_i i : Z) (l : list F) : Z :=
  match l with
  | [] => best_i
  | x :: l => if fgt x best then argmax_from x i (i + 1) l else argmax_from best best_i (i + 1) l
  end.
Definition argmax (l : list F) : Z :=
  match l with [] => 0 | x :: l => argmax_from x 0 1 l end.

(** [tl.maximum(target_prob - draft_prob, 0)]. *)
Definition residual (target_prob draft_prob : F) : F := fmax (fsub target_prob draft_prob) f0.

(** The unnormalised probability of one vocabulary entry in
    [sample_recovered_tokens_kernel]. *)
Definition recovered_prob (draft_token_ids : list Z) (draft_probs : option (list F))
    (target_probs : list F) (vocab_size tok v : Z) : result F :=
  match draft_probs with
  | None =>
      draft_token_id ← load draft_token_ids tok;
      load_masked target_probs (tok * vocab_size + v)
        ((v <? vocab_size) && negb (v =? draft_token_id)) f0
  | Some dp =>
      draft_prob ← load_masked dp (tok * vocab_size + v) (v <? vocab_size) f0;
      target_prob ← load_masked target_probs (tok * vocab_size + v) (v <? vocab_size) f0;
      Ok (residual target_prob draft_prob)
  end.

(** [sample_recovered_tokens_kernel], program [(req_idx, pos)]. *)
Definition sample_recovered_tokens_kernel (cu_num_draft_tokens draft_token_ids : list Z)
    (draft_probs : option (list F)) (target_probs q : list F) (vocab_size padded_vocab_size : Z)
    (out : list Z) (req_idx pos : Z) : result (list Z) :=
  '(start_idx, end_idx) ← segment_bounds cu_num_draft_tokens req_idx;
  if end_idx - start_idx <=? pos then Ok out else
  scores ← mapR (fun v =>
      prob ← recovered_prob draft_token_ids draft_probs target_probs vocab_size (start_idx + pos) v;
      q ← load_masked q (req_idx * vocab_size + v) (v <? vocab_size) f_neg_inf;
      Ok (fdiv prob q)) (py_range 0 padded_vocab_size);
  store out (start_idx + pos) (argmax scores).

(** [expand_kernel], on any element type. *)
Definition expand_kernel {A} `{!EqDecision A} (input : list A) (cu_num_tokens : list Z)
    (replace_from replace_to : A) (max_num_tokens : Z) (out : list A) (req_idx : Z) : result (list A) :=
  '(start_idx, end_idx) ← segment_bounds cu_num_tokens req_idx;
  let num_tokens := end_idx - start_idx in
  src_val ← load input req_idx;
  let src_val := if decide (src_val = replace_from) then replace_to else src_val in
  foldM (fun out offset => store_masked out (start_idx + offset) src_val (offset <? num_tokens))
    (py_range 0 max_num_tokens) out.

(** [expand_batch_to_tokens]; the fresh buffer is given by its contents. *)
Definition expand_batch_to_tokens {A} `{!EqDecision A} (order : list nat) (x : list A)
    (cu_num_tokens : list Z) (fresh : list A) (replace_from replace_to : A) : result (list A) :=
  _ ← py_assert (py_len cu_num_tokens =? py_len x);
  launch (expand_kernel x cu_num_tokens replace_from replace_to MAX_SPEC_LEN) order fresh.

(** [generate_uniform_probs]: the unseeded draws, overwritten for the requests
    that have a generator; [draw g n] is [n] values of generator [g]. *)
Definition uniform_step {G} (generators : gmap nat G) (draw : G -> Z -> list F)
    (s : list F * Z) (x : nat * Z) : list F * Z :=
  let '(probs, start_idx) := s in
  let '(req_idx, n) := x in
  if n =? 0 then (probs, start_idx) else
  let end_idx := start_idx + n in
  let probs := match generators !! req_idx with
               | Some g => take (Z.to_nat start_idx) probs ++ draw g n ++ drop (Z.to_nat end_idx) probs
               | None => probs
               end in
  (probs, end_idx).
Definition generate_uniform_probs {G} (num_draft_tokens : list Z) (generators : gmap nat G)
    (draw : G -> Z -> list F) (unseeded : list F) : list F :=
  fst (fold_left (uniform_step generators draw)
         (zip (seq 0 (length num_draft_tokens)) num_draft_tokens) (unseeded, 0)).

(** A tensor of the given shape over a flat buffer, row by row. *)
Definition tensor_rows {A} (rows width : nat) (l : list A) : list (list A) :=
  (fun i => take width (drop (i * width) l)) <$> seq 0 rows.

(** [rejection_sample]; [all_greedy], [all_random] and the per-request flags of
    the sampling metadata, the argmax and softmax of the target logits, the
    recovered tokens and the uniform draws as computed by the calls above.  The
    kernels address the buffer of the [(batch_size, max_spec_len + 1)] tensor. *)
Definition rejection_sample (order1 order2 : list nat) (draft_token_ids num_draft_tokens : list Z)
    (max_spec_len vocab_size : Z) (cu_num_draft_tokens : list Z) (draft_probs : option (list F))
    (target_argmax : list Z) (target_probs : list F) (bonus_token_ids recovered_token_ids : list Z)
    (uniform_probs : list F) (all_greedy all_random : bool) (greedy_flags : list bool) :
    result (list (list Z)) :=
  let batch_size := py_len num_draft_tokens in
  let out := replicate (Z.to_nat (batch_size * (max_spec_len + 1))) PLACEHOLDER_TOKEN_ID in
  let output_token_ids := tensor_rows (Z.to_nat batch_size) (Z.to_nat (max_spec_len + 1)) in
  let is_greedy := if all_greedy then None else Some greedy_flags in
  out ← (if negb all_random
         then launch (rejection_greedy_sample_kernel cu_num_draft_tokens draft_token_ids
                        target_argmax bonus_token_ids is_greedy max_spec_len) order1 out
         else Ok out);
  if negb all_random && all_greedy then Ok (output_token_ids out) else
  out ← launch (rejection_random_sample_kernel cu_num_draft_tokens draft_token_ids draft_probs target_probs
                  bonus_token_ids recovered_token_ids uniform_probs is_greedy max_spec_len vocab_size)
          order2 out;
  Ok (output_token_ids out).

(** The validity mask of [parse_output] on one entry. *)
Definition is_valid_token (vocab_size t : Z) : bool :=
  negb (t =? PLACEHOLDER_TOKEN_ID) && (t <? vocab_size).

(** [parse_output], the token lists; rows named in [discard] are emptied. *)
Definition parse_output (rows : list (list Z)) (vocab_size : Z) (discard : list nat) : list (list Z) :=
  zip_with (fun i row => if decide (i ∈ discard) then []
                         else filter (fun t => is_valid_token vocab_size t = true) row)
    (seq 0 (length rows)) rows.

(** [_combine_outputs_with_spec_tokens]. *)
Definition combine_step (result : list (list Z)) (x : list Z * list Z) : list (list Z) :=
  let '(out, spec) := x in
  if (length spec =? 0)%nat then result else
  fold_left (fun result s => result ++ [default [] (last result) ++ [s]])
    (take (length spec - 1) spec) (result ++ [out]).
Definition combine_outputs_with_spec_tokens (output_token_ids : list (list Z))
    (spec_token_ids : option (list (list Z))) : list (list Z) :=
  match spec_token_ids with
  | None => output_token_ids
  | Some spec => fold_left combine_step (zip output_token_ids spec) []
  end.
End Kernels.

(** * What a batch is *)

(** One draft position: the drafted token, the target's argmax there, the
    recovered token, the uniform draw and the two probability rows. *)
Record position {FO : FloatOps} := mkPos {
  pd_draft : Z;
  pd_argmax : Z;
  pd_recovered : Z;
  pd_uniform : F;
  pd_dprobs : list F;
  pd_tprobs : list F;
}.

(** The tokens a request emits: tokens are taken position by position up to and
    including the first rejection; with no rejection the bonus token follows. *)
Fixpoint row_of (choices : list (Z * bool)) (bonus : Z) : list Z :=
  match choices with
  | [] => [bonus]
  | (t, rejected) :: cs => t :: if rejected : bool then [] else row_of cs bonus
  end.

Definition pad (w : nat) (l : list Z) : list Z := l ++ replicate (w - length l) PLACEHOLDER_TOKEN_ID.

Section Batch.
Context {FO : FloatOps}.

(** The outcome at a position under the two samplers. *)
Definition greedy_choice (p : position) : Z * bool :=
  (pd_argmax p, negb (pd_draft p =? pd_argmax p)).
Definition random_choice (use_draft_probs : bool) (p : position) : Z * bool :=
  let at_draft l := default f0 (l !! Z.to_nat (pd_draft p)) in
  if accepts (if use_draft_probs then at_draft (pd_dprobs p) else f1) (at_draft (pd_tprobs p)) (pd_uniform p)
  then (pd_draft p, false) else (pd_recovered p, true).

(** The flat buffers of a batch. *)
Definition flat {A} (f : position -> A) (batch : list (list position)) : list A :=
  concat (map (map f) batch).
Definition lens (batch : list (list position)) : list Z :=
  (fun ps => Z.of_nat (length ps)) <$> batch.

(** ** The sampling loop *)

Fixpoint tokens_until (cs : list (Z * bool)) : list Z :=
  match cs with [] => [] | (t, rej) :: cs => t :: if rej : bool then [] else tokens_until cs end.
Definition any_rejected (cs : list (Z * bool)) : bool := existsb snd cs.

Lemma row_of_tokens cs bonus :
  row_of cs bonus = tokens_until cs ++ (if any_rejected cs then [] else [bonus]).
Proof.
  induction cs as [|[t []] cs IH]; simpl; [done|done|]. by rewrite IH.
Qed.

Lemma tokens_until_all cs : any_rejected cs = false -> length (tokens_until cs) = length cs.
Proof. induction cs as [|[t []] cs IH]; simpl; intros; [done|done|]. by rewrite IH. Qed.

Lemma length_tokens_until cs : (length (tokens_until cs) <= length cs)%nat.
Proof. induction cs as [|[t []] cs IH]; simpl; lia. Qed.

Lemma length_row_of cs bonus : (1 <= length (row_of cs bonus) <= length cs + 1)%nat.
Proof. induction cs as [|[t []] cs IH]; simpl; lia. Qed.

Lemma length_pad w l : (length l <= w)%nat -> length (pad w l) = w.
Proof. intros. unfold pad. rewrite length_app, length_replicate. lia. Qed.

Lemma pad_insert w l t :
  (length l < w)%nat -> <[length l := t]> (pad w l) = pad w (l ++ [t]).
Proof.
  intros Hl. unfold pad. replace (length l) with (length l + 0)%nat at 1 by lia.
  rewrite insert_app_r, length_app. simpl.
  replace (w - length l)%nat with (S (w - (length l + 1))) by lia. simpl. by rewrite <- app_assoc.
Qed.

Lemma foldM_skip (step : list Z * bool -> Z -> result (list Z * bool)) l out :
  (forall out pos, step (out, true) pos = Ok (out, true)) ->
  foldM step l (out, true) = Ok (out, true).
Proof. intros H. induction l as [|x l IH]; simpl; [done|]. rewrite H. apply IH. Qed.

(** The loop of both kernels, on the row that belongs to the program. *)
Lemma sample_loop (step : list Z * bool -> Z -> result (list Z * bool)) i w rows l cs :
  uniform w rows -> rows !! i = Some (pad w l) -> (length l + length cs <= w)%nat ->
  (forall out pos, step (out, true) pos = Ok (out, true)) ->
  (forall j t rej out, cs !! j = Some (t, rej) ->
     step (out, false) (Z.of_nat (length l + j)) =
     (out ← store out (Z.of_nat i * Z.of_nat w + Z.of_nat (length l + j)) t; Ok (out, rej))) ->
  foldM step (seqZ (Z.of_nat (length l)) (Z.of_nat (length cs))) (concat rows, false)
  = Ok (concat (<[i := pad w (l ++ tokens_until cs)]> rows), any_rejected cs).
Proof.
  intros Hu Hi Hw Hskip Hstep. revert rows l Hu Hi Hw Hstep.
  induction cs as [|[t rej] cs IH]; intros rows l Hu Hi Hw Hstep.
  - simpl. by rewrite app_nil_r, list_insert_id.
  - cbn [length] in Hw. rewrite seqZ_cons by (cbn [length]; lia). cbn [foldM].
    specialize (Hstep 0%nat) as H0. rewrite Nat.add_0_r in H0. rewrite (H0 t rej) by done.
    rewrite (store_row w rows i _ _ _ Hu Hi) by lia. cbn [mbind result_bind].
    rewrite pad_insert by lia. destruct rej.
    + rewrite foldM_skip by done. done.
    + assert (Hi' : (i < length rows)%nat) by by eapply lookup_lt_Some.
      replace (Z.succ (Z.of_nat (length l))) with (Z.of_nat (length (l ++ [t]))) by (rewrite length_app; simpl; lia).
      replace (Z.pred (Z.of_nat (length ((t, false) :: cs)))) with (Z.of_nat (length cs)) by (simpl; lia).
      rewrite (IH (<[i := pad w (l ++ [t])]> rows) (l ++ [t])).
      * rewrite list_insert_insert_eq, <- app_assoc. done.
      * apply uniform_insert; [done|]. apply length_pad. rewrite length_app. simpl. lia.
      * by rewrite list_lookup_insert_eq.
      * rewrite length_app. simpl. lia.
      * intros j t' rej' out Hj. specialize (Hstep (S j) t' rej' out Hj).
        rewrite length_app. simpl. replace (length l + 1 + j)%nat with (length l + S j)%nat by lia. done.
Qed.

(** Loop and bonus token together. *)
Lemma sample_row (step : list Z * bool -> Z -> result (list Z * bool)) i w rows cs bonus b :
  uniform w rows -> rows !! i = Some (pad w []) -> (length cs < w)%nat -> load bonus (Z.of_nat i) = Ok b ->
  (forall out pos, step (out, true) pos = Ok (out, true)) ->
  (forall j t rej out, cs !! j = Some (t, rej) ->
     step (out, false) (Z.of_nat j) =
     (out ← store out (Z.of_nat i * Z.of_nat w + Z.of_nat j) t; Ok (out, rej))) ->
  ('(out, rejected) ← foldM step (py_range 0 (Z.of_nat (length cs))) (concat rows, false);
   if negb rejected then
     bonus_token_id ← load bonus (Z.of_nat i);
     store out (Z.of_nat i * Z.of_nat w + Z.of_nat (length cs)) bonus_token_id
   else Ok out) = Ok (concat (<[i := pad w (row_of cs b)]> rows)).
Proof.
  intros Hu Hi Hw Hb Hskip Hstep. unfold py_range. rewrite Z.sub_0_r.
  change 0 with (Z.of_nat (length (@nil Z))). rewrite (sample_loop step i w rows [] cs) by (done || simpl; lia).
  cbn [mbind result_bind app]. rewrite row_of_tokens.
  assert (Hi' : (i < length rows)%nat) by by eapply lookup_lt_Some.
  destruct (any_rejected cs) eqn:E; simpl; [by rewrite app_nil_r|].
  pose proof (tokens_until_all cs E) as Hl. rewrite Hb. simpl.
  rewrite (store_row w _ i (pad w (tokens_until cs))).
  - rewrite list_insert_insert_eq, <- Hl, pad_insert by lia. done.
  - apply uniform_insert; [done|]. apply length_pad. lia.
  - by rewrite list_lookup_insert_eq.
  - done.
Qed.

(** ** The kernels on a batch *)

Lemma flat_lookup {A} (f : position -> A) batch i ps j p :
  batch !! i = Some ps -> ps !! j = Some p ->
  flat f batch !! (seg_start batch i + j)%nat = Some (f p).
Proof.
  intros Hi Hj. unfold flat. rewrite <- (seg_start_map f).
  rewrite (concat_lookup _ i (map f ps)).
  - by rewrite list_lookup_fmap, Hj.
  - by rewrite list_lookup_fmap, Hi.
  - rewrite length_map. by eapply lookup_lt_Some.
Qed.

Lemma flat_load {A} (f : position -> A) batch i ps j p :
  batch !! i = Some ps -> ps !! j = Some p ->
  load (flat f batch) (Z.of_nat (seg_start batch i) + Z.of_nat j) = Ok (f p).
Proof. intros. rewrite <- Nat2Z.inj_add. apply load_Some. by eapply flat_lookup. Qed.

Lemma segment_bounds_ok batch i ps :
  batch !! i = Some ps ->
  segment_bounds (cumsum (lens batch)) (Z.of_nat i)
  = Ok (Z.of_nat (seg_start batch i), Z.of_nat (seg_start batch i) + Z.of_nat (length ps)).
Proof.
  intros E. unfold segment_bounds, lens. rewrite (load_cumsum_pred _ _ _ E). simpl.
  by rewrite (load_cumsum _ _ _ E).
Qed.

(** The rows a kernel call leaves: its own requests filled in, others alone. *)
Definition filled (w : nat) (choice : position -> Z * bool) (ps : list position) (b : Z) : list Z :=
  pad w (row_of (choice <$> ps) b).

Section OneBatch.
Variables (batch : list (list position)) (bonus : list Z) (vocab_size : Z) (w : nat).
Hypothesis bonus_len : length bonus = length batch.
Hypothesis width_ok : forall ps, ps ∈ batch -> (length ps < w)%nat.

Lemma greedy_kernel_row flags i ps b rows :
  batch !! i = Some ps -> bonus !! i = Some b -> uniform w rows -> rows !! i = Some (pad w []) ->
  match flags with None => True | Some l => l !! i = Some true end ->
  rejection_greedy_sample_kernel (cumsum (lens batch)) (flat pd_draft batch) (flat pd_argmax batch)
    bonus flags (Z.of_nat w - 1) (concat rows) (Z.of_nat i)
  = Ok (concat (<[i := filled w greedy_choice ps b]> rows)).
Proof.
  intros Hi Hb Hu Hr Hf. unfold rejection_greedy_sample_kernel.
  assert (match flags with None => Ok true | Some l => load l (Z.of_nat i) end = Ok true) as ->.
  { destruct flags; [by apply load_Some|done]. }
  cbn [mbind result_bind negb]. rewrite (segment_bounds_ok _ _ _ Hi). cbn [mbind result_bind].
  rewrite Z.add_simpl_l, Z.sub_add.
  assert (Hw : (length ps < w)%nat) by (apply width_ok; by eapply list_elem_of_lookup_2).
  rewrite <- (length_fmap greedy_choice ps).
  apply sample_row; [done|done|by rewrite length_fmap|by apply load_Some|done|].
  intros j t rej out Hj. rewrite list_lookup_fmap in Hj.
  destruct (ps !! j) as [p|] eqn:Ep; [|done]. injection Hj as <- <-.
  unfold greedy_step. rewrite !(flat_load _ _ _ _ _ _ Hi Ep). done.
Qed.

Hypothesis probs_ok : forall ps p, ps ∈ batch -> p ∈ ps ->
  0 <= pd_draft p < vocab_size /\ Z.of_nat (length (pd_dprobs p)) = vocab_size
  /\ Z.of_nat (length (pd_tprobs p)) = vocab_size.

Lemma flat_elem {A} (f : position -> A) x :
  x ∈ flat f batch -> exists ps p, ps ∈ batch /\ p ∈ ps /\ x = f p.
Proof.
  unfold flat. intros (l & Hl & Hx)%list_elem_of_In%in_concat.
  apply in_map_iff in Hl as (ps & <- & Hps). apply in_map_iff in Hx as (p & <- & Hp).
  exists ps, p. rewrite !list_elem_of_In. done.
Qed.

(** Reading the entry of a drafted token from a flat probability matrix. *)
Lemma load_prob (f : position -> list F) i ps j p :
  (forall ps p, ps ∈ batch -> p ∈ ps -> Z.of_nat (length (f p)) = vocab_size) ->
  batch !! i = Some ps -> ps !! j = Some p ->
  load (concat (flat f batch))
    ((Z.of_nat (seg_start batch i) + Z.of_nat j) * vocab_size + pd_draft p)
  = Ok (default f0 (f p !! Z.to_nat (pd_draft p))).
Proof.
  intros Hf Hi Hj. assert (ps ∈ batch) by by eapply list_elem_of_lookup_2.
  assert (p ∈ ps) by by eapply list_elem_of_lookup_2.
  destruct (probs_ok ps p) as (Hd & _ & _); [done..|]. rewrite <- Nat2Z.inj_add.
  destruct (load_row (Z.to_nat vocab_size) (flat f batch) (seg_start batch i + j) (f p) (pd_draft p))
    as (v & Hv & El).
  - intros r (ps' & p' & ? & ? & ->)%flat_elem. rewrite <- (Hf ps' p') by done. lia.
  - by apply (flat_lookup f batch i ps).
  - lia.
  - rewrite Hv. simpl. rewrite <- El. do 2 f_equal. lia.
Qed.

Lemma random_kernel_row (use_draft_probs : bool) flags i ps b rows :
  batch !! i = Some ps -> bonus !! i = Some b -> uniform w rows -> rows !! i = Some (pad w []) ->
  flags !! i = Some false ->
  rejection_random_sample_kernel (cumsum (lens batch)) (flat pd_draft batch)
    (if use_draft_probs then Some (concat (flat pd_dprobs batch)) else None) (concat (flat pd_tprobs batch))
    bonus (flat pd_recovered batch) (flat pd_uniform batch) (Some flags) (Z.of_nat w - 1) vocab_size
    (concat rows) (Z.of_nat i)
  = Ok (concat (<[i := filled w (random_choice use_draft_probs) ps b]> rows)).
Proof.
  intros Hi Hb Hu Hr Hf. unfold rejection_random_sample_kernel.
  rewrite (load_Some _ _ _ Hf). cbn [mbind result_bind].
  rewrite (segment_bounds_ok _ _ _ Hi). cbn [mbind result_bind]. rewrite Z.add_simpl_l, Z.sub_add.
  assert (Hw : (length ps < w)%nat) by (apply width_ok; by eapply list_elem_of_lookup_2).
  rewrite <- (length_fmap (random_choice use_draft_probs) ps).
  apply sample_row; [done|done|by rewrite length_fmap|by apply load_Some|done|].
  intros j t rej out Hj. rewrite list_lookup_fmap in Hj.
  destruct (ps !! j) as [p|] eqn:Ep; [|done]. injection Hj as Hj.
  unfold random_step. rewrite (flat_load pd_draft _ _ _ _ _ Hi Ep). cbn [mbind result_bind].
  assert (match (if use_draft_probs then Some (concat (flat pd_dprobs batch)) else None) with
    | Some dp => load dp ((Z.of_nat (seg_start batch i) + Z.of_nat j) * vocab_size + pd_draft p)
    | None => Ok f1 end
    = Ok (if use_draft_probs then default f0 (pd_dprobs p !! Z.to_nat (pd_draft p)) else f1)) as ->.
  { destruct use_draft_probs; [|done]. eapply load_prob; [|done|done]. intros. by eapply probs_ok. }
  cbn [mbind result_bind].
  rewrite (load_prob pd_tprobs i ps j p) by (done || intros; by eapply probs_ok). cbn [mbind result_bind].
  rewrite (flat_load pd_uniform _ _ _ _ _ Hi Ep). cbn [mbind result_bind].
  unfold random_choice in Hj. destruct (accepts _ _ _).
  - injection Hj as <- <-. done.
  - injection Hj as <- <-. rewrite (flat_load pd_recovered _ _ _ _ _ Hi Ep). done.
Qed.

(** The row request [i] ends with. *)
Definition sampled_row (use_draft_probs all_greedy : bool) (flags : list bool) (i : nat) : list Z :=
  filled w (if all_greedy || default false (flags !! i) then greedy_choice else random_choice use_draft_probs)
    (default [] (batch !! i)) (default 0 (bonus !! i)).

Lemma tensor_rows_concat (rows : list (list Z)) : uniform w rows -> tensor_rows (length rows) w (concat rows) = rows.
Proof.
  intros Hu. unfold tensor_rows. induction rows as [|r rows IH]; [done|]. cbn [length seq fmap list_fmap concat].
  assert (Hr : length r = w) by (apply Hu; by left). f_equal.
  - by rewrite drop_0, take_app_length'.
  - rewrite <- fmap_S_seq, <- list_fmap_compose. rewrite <- IH at 2 by (intros r' Hr'; apply Hu; by right).
    apply list_fmap_ext. intros ? i _. cbn. rewrite drop_app_ge by lia. do 2 f_equal. lia.
Qed.

Lemma placeholder_rows n :
  replicate (n * w) PLACEHOLDER_TOKEN_ID = concat ((fun _ => pad w []) <$> seq 0 n).
Proof.
  generalize 0%nat as k. induction n as [|n IH]; intros k; [done|]. cbn [seq fmap list_fmap concat].
  rewrite <- IH. unfold pad. rewrite app_nil_l, Nat.sub_0_r. rewrite <- replicate_add. done.
Qed.

Lemma batch_bonus i : (i < length batch)%nat -> exists ps b, batch !! i = Some ps /\ bonus !! i = Some b.
Proof.
  intros Hi. destruct (lookup_lt_is_Some_2 batch i Hi) as [ps ?].
  destruct (lookup_lt_is_Some_2 bonus i) as [b ?]; [lia|]. eauto.
Qed.

Lemma filled_length choice ps b : ps ∈ batch -> length (filled w choice ps b) = w.
Proof.
  intros Hps. apply length_pad. pose proof (length_row_of (choice <$> ps) b) as H.
  rewrite length_fmap in H. specialize (width_ok ps Hps). lia.
Qed.

Lemma sampled_row_length use_draft_probs all_greedy flags i : (i < length batch)%nat -> length (sampled_row use_draft_probs all_greedy flags i) = w.
Proof.
  intros Hi. destruct (lookup_lt_is_Some_2 batch i Hi) as [ps Hps]. unfold sampled_row. rewrite Hps.
  apply filled_length. by eapply list_elem_of_lookup_2.
Qed.

(** After the greedy kernel, and after both. *)
Definition greedy_rows (flags : option (list bool)) (i : nat) : list Z :=
  match flags with
  | Some l => if default false (l !! i)
              then filled w greedy_choice (default [] (batch !! i)) (default 0 (bonus !! i)) else pad w []
  | None => filled w greedy_choice (default [] (batch !! i)) (default 0 (bonus !! i))
  end.

Lemma greedy_rows_length flags i : (i < length batch)%nat -> length (greedy_rows flags i) = w.
Proof.
  intros Hi. destruct (batch_bonus i Hi) as (ps & b & Hps & Hb). unfold greedy_rows. rewrite Hps, Hb. simpl.
  assert (ps ∈ batch) by by eapply list_elem_of_lookup_2.
  destruct flags as [l|]; [destruct (default false (l !! i))|]; [by apply filled_length| |by apply filled_length].
  apply length_pad. simpl. lia.
Qed.

Lemma greedy_launch flags order :
  order ≡ₚ seq 0 (length batch) ->
  match flags with None => True | Some l => length l = length batch end ->
  launch (rejection_greedy_sample_kernel (cumsum (lens batch)) (flat pd_draft batch) (flat pd_argmax batch)
    bonus flags (Z.of_nat w - 1)) order (concat ((fun _ => pad w []) <$> seq 0 (length batch)))
  = Ok (concat (greedy_rows flags <$> seq 0 (length batch))).
Proof.
  intros Ho Hfl. apply (launch_rows w); [done|..].
  - intros i Hi. split; [|by apply greedy_rows_length]. apply length_pad. simpl. lia.
  - intros rows i Hu Hi Hn Hr. destruct (batch_bonus i Hi) as (ps & b & Hps & Hb).
    unfold greedy_rows. rewrite Hps, Hb. simpl. destruct flags as [l|]; [|by apply greedy_kernel_row].
    destruct (lookup_lt_is_Some_2 l i) as [f Hf]; [lia|]. rewrite Hf. simpl. destruct f.
    + by apply greedy_kernel_row.
    + unfold rejection_greedy_sample_kernel. rewrite (load_Some _ _ _ Hf). simpl. by rewrite list_insert_id.
Qed.

Lemma random_launch (use_draft_probs : bool) flags order :
  order ≡ₚ seq 0 (length batch) -> length flags = length batch ->
  launch (rejection_random_sample_kernel (cumsum (lens batch)) (flat pd_draft batch)
    (if use_draft_probs then Some (concat (flat pd_dprobs batch)) else None) (concat (flat pd_tprobs batch))
    bonus (flat pd_recovered batch) (flat pd_uniform batch) (Some flags) (Z.of_nat w - 1) vocab_size)
    order (concat (greedy_rows (Some flags) <$> seq 0 (length batch)))
  = Ok (concat (sampled_row use_draft_probs false flags <$> seq 0 (length batch))).
Proof.
  intros Ho Hfl. apply (launch_rows w); [done|..].
  - intros i Hi. split; [by apply greedy_rows_length|].
    destruct (batch_bonus i Hi) as (ps & b & Hps & Hb). unfold sampled_row. rewrite Hps.
    apply filled_length. by eapply list_elem_of_lookup_2.
  - intros rows i Hu Hi Hn Hr. destruct (batch_bonus i Hi) as (ps & b & Hps & Hb).
    unfold sampled_row, greedy_rows in *. rewrite Hps, Hb in *. simpl in *.
    destruct (lookup_lt_is_Some_2 flags i) as [f Hf]; [lia|]. rewrite Hf in *. simpl in *. destruct f.
    + unfold rejection_random_sample_kernel. rewrite (load_Some _ _ _ Hf). simpl. by rewrite list_insert_id.
    + by apply random_kernel_row.
Qed.

(** Both launches together. *)
Lemma rejection_sample_rows (use_draft_probs all_greedy all_random : bool) flags order1 order2 :
  order1 ≡ₚ seq 0 (length batch) -> order2 ≡ₚ seq 0 (length batch) -> length flags = length batch ->
  (all_random = true -> all_greedy = false /\ forall f, f ∈ flags -> f = false) ->
  rejection_sample order1 order2 (flat pd_draft batch) (lens batch) (Z.of_nat w - 1) vocab_size
    (cumsum (lens batch)) (if use_draft_probs then Some (concat (flat pd_dprobs batch)) else None)
    (flat pd_argmax batch) (concat (flat pd_tprobs batch)) bonus (flat pd_recovered batch)
    (flat pd_uniform batch) all_greedy all_random flags
  = Ok (sampled_row use_draft_probs all_greedy flags <$> seq 0 (length batch)).
Proof.
  intros Ho1 Ho2 Hfl Hrand. unfold rejection_sample, py_len, lens. rewrite length_fmap, Z.sub_add.
  rewrite <- Nat2Z.inj_mul, !Nat2Z.id, placeholder_rows. fold (lens batch).
  assert (Hrows : tensor_rows (length batch) w (concat (sampled_row use_draft_probs all_greedy flags <$> seq 0 (length batch)))
    = sampled_row use_draft_probs all_greedy flags <$> seq 0 (length batch)).
  { pose proof (tensor_rows_concat (sampled_row use_draft_probs all_greedy flags <$> seq 0 (length batch))) as H.
    rewrite length_fmap, length_seq in H. apply H.
    intros r (i & -> & Hi%elem_of_seq)%list_elem_of_fmap. apply sampled_row_length. lia. }
  destruct all_random; simpl.
  - destruct Hrand as [-> Hall]; [done|].
    assert (Hinit : (fun _ => pad w []) <$> seq 0 (length batch) = greedy_rows (Some flags) <$> seq 0 (length batch)).
    { apply list_fmap_ext. intros ? i Hi%list_elem_of_lookup_2%elem_of_seq. unfold greedy_rows.
      destruct (lookup_lt_is_Some_2 flags i) as [f Hf]; [lia|]. rewrite Hf. simpl.
      by rewrite (Hall f) by by eapply list_elem_of_lookup_2. }
    rewrite Hinit, random_launch by done. cbn [mbind result_bind]. by rewrite Hrows.
  - rewrite greedy_launch; [|done|by destruct all_greedy]. cbn [mbind result_bind].
    destruct all_greedy; simpl; [exact (f_equal Ok Hrows)|]. rewrite random_launch by done. cbn [mbind result_bind]. by rewrite Hrows.
Qed.

(** C11: the rejection sampler computes the specified rows.  For every batch
    whose draft tokens are in the vocabulary and whose rows fit in
    [max_spec_len], and for every order in which the programs of the two grids
    run, [rejection_sample] returns (no access out of range) the matrix with one
    row of [max_spec_len + 1] entries per request, whose row [i] is: the tokens
    taken up to and including the first rejection, then the bonus token if nothing
    was rejected, then placeholders; greedy requests compare with the target's
    argmax, the others use the random test. *)
Theorem rejection_sample_correct (use_draft_probs all_greedy all_random : bool) flags order1 order2 :
  order1 ≡ₚ seq 0 (length batch) -> order2 ≡ₚ seq 0 (length batch) -> length flags = length batch ->
  (all_random = true -> all_greedy = false /\ forall f, f ∈ flags -> f = false) ->
  rejection_sample order1 order2 (flat pd_draft batch) (lens batch) (Z.of_nat w - 1) vocab_size
    (cumsum (lens batch)) (if use_draft_probs then Some (concat (flat pd_dprobs batch)) else None)
    (flat pd_argmax batch) (concat (flat pd_tprobs batch)) bonus (flat pd_recovered batch)
    (flat pd_uniform batch) all_greedy all_random flags
  = Ok (sampled_row use_draft_probs all_greedy flags <$> seq 0 (length batch)).
Proof. apply rejection_sample_rows. Qed.
End OneBatch.

(** * Greedy decoding *)

(** Decoding with the target model alone: [next] is its greedy next token. *)
Fixpoint greedy_decode (next : list Z -> Z) (n : nat) (ctx : list Z) : list Z :=
  match n with O => [] | S n => next ctx :: greedy_decode next n (ctx ++ [next ctx]) end.

(** The target was evaluated on the context followed by the draft tokens. *)
Fixpoint evaluated (next : list Z -> Z) (ctx : list Z) (ps : list position) (bonus : Z) : Prop :=
  match ps with
  | [] => bonus = next ctx
  | p :: ps => pd_argmax p = next ctx /\ evaluated next (ctx ++ [pd_draft p]) ps bonus
  end.

(** Length of the longest prefix of the draft the target agrees with. *)
Fixpoint agreed (ps : list position) : nat :=
  match ps with
  | [] => 0
  | p :: ps => if pd_draft p =? pd_argmax p then S (agreed ps) else 0
  end.

Lemma greedy_row_decodes next ctx ps bonus :
  evaluated next ctx ps bonus ->
  row_of (greedy_choice <$> ps) bonus = greedy_decode next (S (agreed ps)) ctx.
Proof.
  revert ctx; induction ps as [|p ps IH]; intros ctx He.
  - simpl in *. by rewrite He.
  - destruct He as [Ha He]. rewrite fmap_cons. unfold greedy_choice at 1. cbn [row_of agreed].
    destruct (Z.eqb_spec (pd_draft p) (pd_argmax p)) as [E|E]; simpl.
    + rewrite (IH _ He). rewrite E, Ha. done.
    + by rewrite Ha.
Qed.

Lemma filter_valid_pad vocab w l :
  (forall t, t ∈ l -> 0 <= t < vocab) ->
  filter (fun t => is_valid_token vocab t = true) (pad w l) = l.
Proof.
  intros Hl. unfold pad. rewrite filter_app, filter_all.
  - assert (forall n, filter (fun t => is_valid_token vocab t = true) (replicate n PLACEHOLDER_TOKEN_ID) = []) as ->;
      [|by rewrite app_nil_r].
    intros n. induction n as [|n IH]; [done|]. cbn [replicate]. by rewrite filter_cons_False.
  - intros t Ht. specialize (Hl t Ht). unfold is_valid_token.
    apply andb_true_iff. rewrite negb_true_iff, Z.eqb_neq, Z.ltb_lt. unfold PLACEHOLDER_TOKEN_ID. lia.
Qed.

Lemma parse_output_seq (rows : nat -> list Z) n vocab discard :
  parse_output (rows <$> seq 0 n) vocab discard =
  (fun i => if decide (i ∈ discard) then [] else filter (fun t => is_valid_token vocab t = true) (rows i)) <$> seq 0 n.
Proof.
  unfold parse_output. rewrite length_fmap, length_seq. generalize 0%nat as k.
  induction n as [|n IH]; intros k; [done|]. simpl. f_equal. apply IH.
Qed.

(** Speculative decoding is lossless for greedy requests, whatever the others in the
    batch.  When the target was evaluated on the context and draft of request [i], the
    tokens parsed from its row of the sampler's output are exactly the tokens the target
    model would have produced decoding greedily on its own: one more than the longest
    prefix of the draft it agrees with. *)
Lemma greedy_sampling_lossless batch bonus w vocab next discard order1 order2 (use_draft_probs all_greedy all_random : bool) flags :
  length bonus = length batch -> length flags = length batch ->
  order1 ≡ₚ seq 0 (length batch) -> order2 ≡ₚ seq 0 (length batch) ->
  (all_random = true -> all_greedy = false /\ forall f, f ∈ flags -> f = false) ->
  (forall ps, ps ∈ batch -> (length ps < w)%nat) ->
  (forall ps p, ps ∈ batch -> p ∈ ps -> 0 <= pd_draft p < vocab /\
     Z.of_nat (length (pd_dprobs p)) = vocab /\ Z.of_nat (length (pd_tprobs p)) = vocab) ->
  (forall c, 0 <= next c < vocab) ->
  exists rows, rejection_sample order1 order2 (flat pd_draft batch) (lens batch) (Z.of_nat w - 1) vocab
      (cumsum (lens batch)) (if use_draft_probs then Some (concat (flat pd_dprobs batch)) else None)
      (flat pd_argmax batch) (concat (flat pd_tprobs batch)) bonus
      (flat pd_recovered batch) (flat pd_uniform batch) all_greedy all_random flags = Ok rows /\
    forall i ps b c, batch !! i = Some ps -> bonus !! i = Some b -> all_greedy || default false (flags !! i) = true -> evaluated next c ps b ->
      parse_output rows vocab discard !! i =
        Some (if decide (i ∈ discard) then [] else greedy_decode next (S (agreed ps)) c).
Proof.
  intros Hb Hf Ho1 Ho2 Hr Hw Hp Hn. eexists.
  split; [apply (rejection_sample_rows batch bonus vocab w Hb Hw Hp use_draft_probs all_greedy all_random); done|].
  intros i ps b c Hps Hbi Hg He. rewrite parse_output_seq, list_lookup_fmap, lookup_seq_lt by by eapply lookup_lt_Some.
  cbn. f_equal. case_decide; [done|]. unfold sampled_row, filled. rewrite Hg, Hps, Hbi. simpl default.
  rewrite (greedy_row_decodes next c) by done. apply filter_valid_pad.
  assert (Hdec : forall n c t, t ∈ greedy_decode next n c -> 0 <= t < vocab).
  { intros n. induction n as [|n IH]; intros c' t; simpl; [by intros ?%elem_of_nil|].
    intros [->|?]%elem_of_cons; [apply Hn|by eapply IH]. }
  intros t. exact (Hdec (S (agreed ps)) c t).
Qed.
End Batch.

(** * Expanding per-request values to tokens *)
Section Expand.
Context {A : Type} `{!EqDecision A}.
Implicit Types (segs : list (list A)).

Lemma seqZ_prefix (n : Z) pre a post : seqZ 0 n = pre ++ a :: post -> a = Z.of_nat (length pre).
Proof.
  intros E. assert (Hl : seqZ 0 n !! length pre = Some a) by (rewrite E; apply list_lookup_middle; done).
  apply lookup_seqZ in Hl as [-> _]. lia.
Qed.

Lemma fill_step (s : list A) v k :
  (k < length s)%nat ->
  <[k := v]> (replicate k v ++ drop k s) = replicate (S k) v ++ drop (S k) s.
Proof.
  intros Hk. destruct (lookup_lt_is_Some_2 s k Hk) as [x Hx]. rewrite (drop_S s x k) by done.
  replace k with (length (replicate k v) + 0)%nat at 1 by (rewrite length_replicate; lia).
  rewrite insert_app_r. cbn [insert list_insert]. rewrite replicate_S_end, <- app_assoc. done.
Qed.

Lemma expand_kernel_segment segs rows xs rf rt i s x :
  segs !! i = Some s -> xs !! i = Some x -> (length s <= 128)%nat -> length rows = length segs ->
  shaped (fun j => length (default [] (segs !! j))) rows -> rows !! i = Some s ->
  expand_kernel xs (cumsum ((fun l => Z.of_nat (length l)) <$> segs)) rf rt MAX_SPEC_LEN (concat rows) (Z.of_nat i)
  = Ok (concat (<[i := replicate (length s) (if decide (x = rf) then rt else x)]> rows)).
Proof.
  intros Hs Hx Hl Hn Hsh Hr. unfold expand_kernel, segment_bounds.
  rewrite (load_cumsum_pred _ _ _ Hs). cbn [mbind result_bind]. rewrite (load_cumsum _ _ _ Hs).
  cbn [mbind result_bind]. rewrite (load_Some _ _ _ Hx). cbn [mbind result_bind].
  set (v := if decide (x = rf) then rt else x). rewrite Z.add_simpl_l.
  assert (Hseg : seg_start rows i = seg_start segs i).
  { eapply seg_start_shaped; [done..|]. apply lookup_lt_Some in Hr. lia. }
  assert (Hir : (i < length rows)%nat) by by eapply lookup_lt_Some.
  destruct (foldM_inv (fun out offset => store_masked out (Z.of_nat (seg_start segs i) + offset) v (offset <? Z.of_nat (length s)))
    (fun pre out => out = concat (<[i := replicate (length pre `min` length s) v ++ drop (length pre `min` length s) s]> rows))
    (py_range 0 MAX_SPEC_LEN) (concat rows)) as (out & -> & ->).
  - simpl. rewrite drop_0. by rewrite list_insert_id.
  - intros pre a post out E ->. apply seqZ_prefix in E as ->. rewrite length_app. simpl.
    unfold store_masked. destruct (Z.ltb_spec (Z.of_nat (length pre)) (Z.of_nat (length s))).
    + rewrite !Nat.min_l by lia. eexists. split; [|reflexivity].
      set (s1 := replicate (length pre) v ++ drop (length pre) s).
      rewrite <- Hseg. replace (seg_start rows i) with (seg_start (<[i := s1]> rows) i).
      2:{ unfold seg_start. by rewrite take_insert_ge by lia. }
      rewrite (store_segment _ i s1).
      * rewrite list_insert_insert_eq. unfold s1. rewrite fill_step by lia. by rewrite Nat.add_comm.
      * by rewrite list_lookup_insert_eq.
      * unfold s1. rewrite length_app, length_replicate, length_drop. lia.
    + rewrite !Nat.min_r by lia. eauto.
  - unfold py_range. rewrite length_seqZ. unfold MAX_SPEC_LEN. rewrite Nat.min_r by lia.
    by rewrite drop_all, app_nil_r.
Qed.

(** [expand_batch_to_tokens] repeats each request's value once per token.
    For every split of the token buffer into per-request segments of at most
    [MAX_SPEC_LEN] tokens and every program order, the result is the
    concatenation of constant segments holding the request's value, with
    [replace_from] replaced; nothing is written out of range or left over. *)
Theorem expand_batch_correct order segs (xs : list A) rf rt :
  length xs = length segs -> order ≡ₚ seq 0 (length segs) ->
  (forall s, s ∈ segs -> (length s <= 128)%nat) ->
  expand_batch_to_tokens order xs (cumsum ((fun l => Z.of_nat (length l)) <$> segs)) (concat segs) rf rt
  = Ok (concat (zip_with (fun x s => replicate (length s) (if decide (x = rf) then rt else x)) xs segs)).
Proof.
  intros Hlen Ho Hs. unfold expand_batch_to_tokens.
  assert (Hcs : forall acc l, length (cumsum_from acc l) = length l).
  { intros acc l. revert acc. induction l as [|y l IH]; intros acc; simpl; [done|]. by rewrite IH. }
  assert (py_len (cumsum ((fun l => Z.of_nat (length l)) <$> segs)) = py_len xs) as ->.
  { unfold py_len, cumsum. by rewrite Hcs, length_fmap, Hlen. }
  rewrite Z.eqb_refl. cbn [py_assert mbind result_bind].
  set (final := fun i => match xs !! i with
     | Some x => replicate (length (default [] (segs !! i))) (if decide (x = rf) then rt else x) | None => [] end).
  assert (E1 : segs = (fun i => default [] (segs !! i)) <$> seq 0 (length segs)).
  { apply list_eq. intros i. rewrite list_lookup_fmap. destruct (decide (i < length segs)%nat).
    - rewrite lookup_seq_lt by done. simpl. by destruct (lookup_lt_is_Some_2 segs i) as [s ->].
    - rewrite lookup_seq_ge by lia. apply lookup_ge_None. lia. }
  assert (E2 : zip_with (fun x s => replicate (length s) (if decide (x = rf) then rt else x)) xs segs
               = final <$> seq 0 (length segs)).
  { apply list_eq. intros i. rewrite lookup_zip_with, list_lookup_fmap. unfold final.
    destruct (decide (i < length segs)%nat).
    - rewrite lookup_seq_lt by done. destruct (lookup_lt_is_Some_2 xs i) as [x Hx]; [lia|].
      destruct (lookup_lt_is_Some_2 segs i) as [s Hs']; [done|]. simpl. by rewrite Hx, Hs'.
    - rewrite lookup_seq_ge by lia. by rewrite (proj2 (lookup_ge_None xs i)) by lia. }
  rewrite E2. rewrite E1 at 2.
  apply (launch_segments (fun i => length (default [] (segs !! i)))); [done|..].
  - intros i Hi. split; [done|]. unfold final. destruct (lookup_lt_is_Some_2 xs i) as [x ->]; [lia|].
    apply length_replicate.
  - intros rows i Hsh Hi Hn Hr. destruct (lookup_lt_is_Some_2 xs i) as [x Hx]; [lia|].
    destruct (lookup_lt_is_Some_2 segs i) as [s Hsi]; [done|]. unfold final. rewrite Hx, Hsi in *. simpl in *.
    apply (expand_kernel_segment segs); try done. apply Hs. by eapply list_elem_of_lookup_2.
Qed.
End Expand.

(** * Seeded draws *)
Section Uniform.
Context {FO : FloatOps} {G : Type} (generators : gmap nat G) (draw : G -> Z -> list F).
Hypothesis draw_length : forall g n, 0 <= n -> length (draw g n) = Z.to_nat n.

(** The draws of request [i], whose unseeded draws are [s]. *)
Definition request_draws (i : nat) (s : list F) : list F :=
  match generators !! i with
  | Some g => if (length s =? 0)%nat then s else draw g (Z.of_nat (length s))
  | None => s
  end.

Lemma uniform_loop k segs pre :
  fold_left (uniform_step generators draw)
    (zip (seq k (length segs)) ((fun s => Z.of_nat (length s)) <$> segs))
    (pre ++ concat segs, Z.of_nat (length pre))
  = (pre ++ concat (zip_with request_draws (seq k (length segs)) segs),
     Z.of_nat (length (pre ++ concat segs))).
Proof.
  revert k pre; induction segs as [|s segs IH]; intros k pre; [simpl; by rewrite app_nil_r|].
  cbn [length seq fmap list_fmap zip zip_with fold_left concat].
  assert (E : uniform_step generators draw (pre ++ s ++ concat segs, Z.of_nat (length pre)) (k, Z.of_nat (length s))
    = ((pre ++ request_draws k s) ++ concat segs, Z.of_nat (length (pre ++ request_draws k s)))
    /\ length (request_draws k s) = length s).
  { unfold uniform_step, request_draws. destruct (Z.eqb_spec (Z.of_nat (length s)) 0) as [Hz|Hz].
    - destruct s; [|done]. destruct (generators !! k); simpl; by rewrite app_nil_r.
    - rewrite (proj2 (Nat.eqb_neq _ 0)) by lia. destruct (generators !! k) as [g|].
      + rewrite <- Nat2Z.inj_add, !Nat2Z.id, take_app_length.
        rewrite (app_assoc pre s), drop_app_length' by (rewrite length_app; lia).
        rewrite length_app, draw_length by lia. rewrite <- app_assoc. split; [f_equal; lia|lia].
      + rewrite length_app. split; [|done]. rewrite <- app_assoc. f_equal. lia. }
  destruct E as [E El]. rewrite E, IH, <- !app_assoc. f_equal. rewrite !length_app, El. lia.
Qed.

(** Seeded requests are reproducible.  The uniform draws of a request with
    a generator are that generator's own draws, whatever the rest of the batch
    is, a request without drafts consumes none of its generator, and requests
    without a generator keep the unseeded draws. *)
Theorem uniform_probs_seeded segs :
  generate_uniform_probs ((fun s => Z.of_nat (length s)) <$> segs) generators draw (concat segs)
  = concat (zip_with request_draws (seq 0 (length segs)) segs).
Proof.
  unfold generate_uniform_probs. rewrite length_fmap.
  pose proof (uniform_loop 0 segs []) as E. cbn [app length] in E. change (Z.of_nat 0) with 0 in E. by rewrite E.
Qed.
End Uniform.

(** * Recovered tokens *)
Section Recovered.
Context {FO : FloatOps}.
(** The order on the scores: [fgt] is the strict part of a total preorder (no
    NaN among them). *)
Hypothesis fgt_asym : forall x y, fgt x y = true -> fgt y x = false.
Hypothesis fle_trans : forall x y z, fgt x y = false -> fgt y z = false -> fgt x z = false.

Lemma fgt_trans x y z : fgt x y = true -> fgt z y = false -> fgt x z = true.
Proof.
  intros H1 H2. destruct (fgt x z) eqn:E; [done|]. by rewrite (fle_trans _ _ _ E H2) in H1.
Qed.

Lemma argmax_from_spec best bi i l :
  bi < i -> let r := argmax_from best bi i l in
  (r = bi /\ (forall k x, l !! k = Some x -> fgt x best = false)) \/
  (exists k x, r = i + Z.of_nat k /\ l !! k = Some x /\ fgt x best = true /\
     (forall j y, l !! j = Some y -> fgt y x = false) /\
     (forall j y, (j < k)%nat -> l !! j = Some y -> fgt x y = true)).
Proof.
  revert best bi i; induction l as [|x l IH]; intros best bi i Hb; simpl; [left; split; [done|by intros []]|].
  destruct (fgt x best) eqn:E.
  - right. destruct (IH x i (i + 1)) as [[-> Hmax]|(k & y & -> & Hk & Hg & Hmax & Hfirst)]; [lia|..].
    + exists 0%nat, x. split_and!; [lia|done|done| |lia].
      intros [|j] y; simpl; [intros [= <-]|apply Hmax]. destruct (fgt x x) eqn:Ex; [|done].
      by rewrite (fgt_asym _ _ Ex) in Ex.
    + exists (S k), y. split_and!; [lia|done|..].
      * eapply fgt_trans; [exact Hg|]. by apply fgt_asym.
      * intros [|j] z; simpl; [intros [= <-]; by apply fgt_asym|apply Hmax].
      * intros [|j] z Hj; simpl; [by intros [= <-]|]. apply Hfirst. lia.
  - destruct (IH best bi (i + 1)) as [[-> Hmax]|(k & y & -> & Hk & Hg & Hmax & Hfirst)]; [lia|..].
    + left. split; [done|]. intros [|k] y; simpl; [by intros [= <-]|apply Hmax].
    + right. exists (S k), y. split_and!; [lia|done|done|..].
      * intros [|j] z; simpl; [intros [= <-]|apply Hmax]. apply fgt_asym. eapply fgt_trans; [exact Hg|done].
      * intros [|j] z Hj; simpl; [intros [= <-]; eapply fgt_trans; [exact Hg|done]|]. apply Hfirst. lia.
Qed.

Lemma argmax_spec l :
  l <> [] -> exists k x, argmax l = Z.of_nat k /\ l !! k = Some x /\
    (forall j y, l !! j = Some y -> fgt y x = false) /\
    (forall j y, (j < k)%nat -> l !! j = Some y -> fgt x y = true).
Proof.
  destruct l as [|x l]; [done|]. intros _. unfold argmax.
  destruct (argmax_from_spec x 0 1 l) as [[-> Hmax]|(k & y & -> & Hk & Hg & Hmax & Hfirst)]; [lia|..].
  - exists 0%nat, x. split_and!; [done|done| |lia]. intros [|j] y; simpl; [|apply Hmax]. intros [= <-].
    destruct (fgt x x) eqn:Ex; [|done]. by rewrite (fgt_asym _ _ Ex) in Ex.
  - exists (S k), y. split_and!; [lia|done|..].
    + intros [|j] z; simpl; [intros [= <-]; by apply fgt_asym|apply Hmax].
    + intros [|j] z Hj; simpl; [by intros [= <-]|]. apply Hfirst. lia.
Qed.

(** The score of vocabulary entry [v] at a position, and of a padding entry. *)
Definition score (use_draft_probs : bool) (p : position) (q : list F) (v : nat) : F :=
  let at_v l := default f0 (l !! v) in
  fdiv (if use_draft_probs then residual (at_v (pd_tprobs p)) (at_v (pd_dprobs p))
        else if Z.of_nat v =? pd_draft p then f0 else at_v (pd_tprobs p)) (at_v q).
Definition pad_score (use_draft_probs : bool) : F :=
  fdiv (if use_draft_probs then residual f0 f0 else f0) f_neg_inf.

Section OnBatch.
Variables (batch : list (list position)) (qs : list (list F)) (V : nat) (padded : Z) (use_draft_probs : bool).
Hypothesis probs_ok : forall ps p, ps ∈ batch -> p ∈ ps ->
  0 <= pd_draft p < Z.of_nat V /\ length (pd_dprobs p) = V /\ length (pd_tprobs p) = V.
Hypothesis qs_ok : length qs = length batch /\ uniform V qs.
Hypothesis padded_ok : Z.of_nat V <= padded.

Lemma load_vocab (f : position -> list F) i ps j p v :
  (forall ps p, ps ∈ batch -> p ∈ ps -> length (f p) = V) ->
  batch !! i = Some ps -> ps !! j = Some p -> (v < V)%nat ->
  load (concat (flat f batch))
    ((Z.of_nat (seg_start batch i) + Z.of_nat j) * Z.of_nat V + Z.of_nat v)
  = Ok (default f0 (f p !! v)).
Proof.
  intros Hf Hi Hj Hv. rewrite <- Nat2Z.inj_add.
  destruct (load_row V (flat f batch) (seg_start batch i + j) (f p) (Z.of_nat v)) as (x & Hx & El).
  - intros r (ps' & p' & ? & ? & ->)%flat_elem. by apply (Hf ps').
  - by apply (flat_lookup f batch i ps).
  - lia.
  - rewrite Nat2Z.id in Hx. rewrite Hx. exact El.
Qed.

Lemma scores_ok i ps j p q :
  batch !! i = Some ps -> ps !! j = Some p -> qs !! i = Some q ->
  mapR (fun v =>
      prob ← recovered_prob (flat pd_draft batch)
               (if use_draft_probs then Some (concat (flat pd_dprobs batch)) else None)
               (concat (flat pd_tprobs batch)) (Z.of_nat V)
               (Z.of_nat (seg_start batch i) + Z.of_nat j) v;
      q ← load_masked (concat qs) (Z.of_nat i * Z.of_nat V + v) (v <? Z.of_nat V) f_neg_inf;
      Ok (fdiv prob q)) (py_range 0 padded)
  = Ok ((fun v => if v <? Z.of_nat V then score use_draft_probs p q (Z.to_nat v) else pad_score use_draft_probs)
         <$> py_range 0 padded).
Proof.
  intros Hi Hj Hq. apply mapR_pure. intros v Hv. unfold py_range in Hv. apply elem_of_seqZ in Hv.
  destruct qs_ok as [Hql Hqu].
  unfold recovered_prob, load_masked. destruct (Z.ltb_spec v (Z.of_nat V)) as [Hlt|Hge].
  - assert (HL : forall f : position -> list F, (forall ps p, ps ∈ batch -> p ∈ ps -> length (f p) = V) ->
      load (concat (flat f batch)) ((Z.of_nat (seg_start batch i) + Z.of_nat j) * Z.of_nat V + v)
      = Ok (default f0 (f p !! Z.to_nat v))).
    { intros f Hf. rewrite <- (load_vocab f i ps j p (Z.to_nat v)) by (done || lia). do 2 f_equal. lia. }
    destruct (load_row V qs i q v Hqu Hq) as (x & Hx & Ex); [lia|].
    assert (Hd : forall ps p, ps ∈ batch -> p ∈ ps -> length (pd_dprobs p) = V) by (intros; by eapply probs_ok).
    assert (Ht : forall ps p, ps ∈ batch -> p ∈ ps -> length (pd_tprobs p) = V) by (intros; by eapply probs_ok).
    unfold score. rewrite Z2Nat.id by lia. destruct use_draft_probs.
    + rewrite (HL pd_dprobs Hd), (HL pd_tprobs Ht). simpl. rewrite Ex, Hx. done.
    + rewrite (flat_load pd_draft _ _ _ _ _ Hi Hj). simpl. destruct (v =? pd_draft p); simpl.
      * rewrite Ex, Hx. done.
      * rewrite (HL pd_tprobs Ht). simpl. rewrite Ex, Hx. done.
  - unfold pad_score. destruct use_draft_probs; [done|].
    rewrite (flat_load pd_draft _ _ _ _ _ Hi Hj). done.
Qed.

(** the recovered token.  Program [(i, pos)] of the recovery kernel writes
    one entry, that of its position, and in range; the token it writes is a
    vocabulary entry (never a padding entry) whose score is maximal, the first
    one among equals. *)
Theorem recovered_token_correct i ps j p q rows r :
  batch !! i = Some ps -> ps !! j = Some p -> qs !! i = Some q ->
  length rows = length batch -> shaped (fun k => length (default [] (batch !! k))) rows -> rows !! i = Some r ->
  (exists v, (v < V)%nat /\ fgt (pad_score use_draft_probs) (score use_draft_probs p q v) = false) ->
  exists t, (t < V)%nat /\
    sample_recovered_tokens_kernel (cumsum (lens batch)) (flat pd_draft batch)
      (if use_draft_probs then Some (concat (flat pd_dprobs batch)) else None) (concat (flat pd_tprobs batch))
      (concat qs) (Z.of_nat V) padded (concat rows) (Z.of_nat i) (Z.of_nat j)
    = Ok (concat (<[i := <[j := Z.of_nat t]> r]> rows)) /\
    (forall v, (v < V)%nat -> fgt (score use_draft_probs p q v) (score use_draft_probs p q t) = false) /\
    (forall v, (v < t)%nat -> fgt (score use_draft_probs p q t) (score use_draft_probs p q v) = true).
Proof.
  intros Hi Hj Hq Hn Hsh Hr (v0 & Hv0 & Hpad). unfold sample_recovered_tokens_kernel.
  rewrite (segment_bounds_ok _ _ _ Hi). cbn [mbind result_bind]. rewrite Z.add_simpl_l.
  assert (Hjl : (j < length ps)%nat) by by eapply lookup_lt_Some.
  rewrite (proj2 (Z.leb_gt _ _)) by lia. rewrite (scores_ok i ps j p q Hi Hj Hq). cbn [mbind result_bind].
  set (sc := (fun v => if v <? Z.of_nat V then score use_draft_probs p q (Z.to_nat v) else pad_score use_draft_probs)
     <$> py_range 0 padded).
  assert (Hsc : forall v, (Z.of_nat v < padded) ->
    sc !! v = Some (if Z.of_nat v <? Z.of_nat V then score use_draft_probs p q v else pad_score use_draft_probs)).
  { intros v Hv. unfold sc, py_range. rewrite list_lookup_fmap, lookup_seqZ_lt by lia. rewrite Z.add_0_l. unfold fmap, option_fmap, option_map. by rewrite Nat2Z.id. }
  assert (Hsv : forall v, (v < V)%nat -> sc !! v = Some (score use_draft_probs p q v)).
  { intros v Hv. rewrite Hsc by lia. by rewrite (proj2 (Z.ltb_lt _ _)) by lia. }
  destruct (argmax_spec sc) as (t & x & -> & Ht & Hmax & Hfirst).
  { intros E. specialize (Hsv v0 Hv0). by rewrite E in Hsv. }
  assert (HtV : (t < V)%nat).
  { destruct (decide (t < V)%nat) as [|Hge]; [done|exfalso].
    assert (Z.of_nat t < padded).
    { apply lookup_lt_Some in Ht. unfold sc, py_range in Ht. rewrite length_fmap, length_seqZ in Ht. lia. }
    rewrite Hsc, (proj2 (Z.ltb_ge _ _)) in Ht by lia. injection Ht as <-.
    specialize (Hfirst v0 _ ltac:(lia) (Hsv v0 Hv0)). congruence. }
  rewrite Hsv in Ht by done. injection Ht as <-.
  exists t. split_and!; [done| |intros v Hv; by eapply Hmax, Hsv|intros v Hv; eapply Hfirst; [done|apply Hsv; lia]].
  assert (Hseg : seg_start rows i = seg_start batch i) by (eapply seg_start_shaped; [done..|apply lookup_lt_Some in Hr; lia]).
  rewrite <- Hseg. apply store_segment; [done|]. rewrite (Hsh i r Hr), Hi. done.
Qed.
End OnBatch.
End Recovered.

(** * The output distribution, in exact arithmetic *)

(** The operations over the rationals; the value loaded for padding entries
    only has to make their score not positive. *)
#[export] Instance QOps : FloatOps := {|
  F := Q; f0 := 0%Q; f1 := 1%Q; f_neg_inf := (-1)%Q;
  fdiv := Qdiv; fsub := Qminus;
  fmax := fun a b => if Qle_bool a b then b else a;
  fgt := fun a b => negb (Qle_bool a b);
  fge := fun a b => Qle_bool b a;
|}.

Section Distribution.
Local Open Scope Q_scope.

Fixpoint qsum (f : nat -> Q) (n : nat) : Q :=
  match n with O => 0 | S n => qsum f n + f n end.

Lemma qsum_ext f g n : (forall i, (i < n)%nat -> f i == g i) -> qsum f n == qsum g n.
Proof.
  induction n as [|n IH]; intros H; simpl; [reflexivity|].
  rewrite IH by (intros; apply H; lia). rewrite H by lia. reflexivity.
Qed.

Lemma qsum_minus f g n : qsum (fun i => f i - g i) n == qsum f n - qsum g n.
Proof. induction n as [|n IH]; simpl; [lra|]. rewrite IH. lra. Qed.

Lemma qsum_nonneg f n : (forall i, (i < n)%nat -> 0 <= f i) -> 0 <= qsum f n.
Proof.
  induction n as [|n IH]; intros H; simpl; [lra|].
  assert (0 <= qsum f n) by (apply IH; intros; apply H; lia). assert (0 <= f n) by (apply H; lia). lra.
Qed.

Lemma qsum_zero f n i :
  (forall i, (i < n)%nat -> 0 <= f i) -> qsum f n == 0 -> (i < n)%nat -> f i == 0.
Proof.
  induction n as [|n IH]; intros H Hz Hi; [lia|]. simpl in Hz.
  assert (0 <= qsum f n) by (apply qsum_nonneg; intros; apply H; lia).
  assert (0 <= f n) by (apply H; lia). destruct (decide (i = n)) as [->|]; [lra|].
  apply IH; [intros; apply H; lia|lra|lia].
Qed.

(** The probability with which a drafted token is accepted. *)
Definition accept_prob (q p : Q) : Q :=
  if Qle_bool q 0 then 0 else if Qle_bool 1 (p / q) then 1 else p / q.

Lemma accepts_iff (q p u : Q) :
  0 <= u <= 1 -> accepts q p u = true <-> 0 < q /\ u <= accept_prob q p.
Proof.
  intros Hu. unfold accepts, accept_prob. simpl fgt. simpl fge. simpl f0. simpl fdiv.
  rewrite andb_true_iff, negb_true_iff. rewrite Qle_bool_iff.
  destruct (Qle_bool q 0) eqn:E.
  - apply Qle_bool_iff in E. split; [by intros []|]. intros [? _]. lra.
  - assert (0 < q). { apply Qnot_le_lt. intros H%Qle_bool_iff. congruence. }
    destruct (Qle_bool 1 (p / q)) eqn:E1.
    + apply Qle_bool_iff in E1. split; intros [_ ?]; (split; [done|lra]).
    + split; intros [_ ?]; done.
Qed.

Lemma accepted_mass (q p : Q) :
  0 <= q -> 0 <= p -> q * accept_prob q p == p - residual p q /\ 0 <= residual p q.
Proof.
  intros Hq Hp. unfold accept_prob, residual. simpl fmax. simpl f0. simpl fsub.
  destruct (Qle_bool q 0) eqn:E.
  - apply Qle_bool_iff in E. destruct (Qle_bool (p - q) 0) eqn:E2.
    + apply Qle_bool_iff in E2. split; lra.
    + split; [lra|]. lra.
  - assert (Hq0 : 0 < q). { apply Qnot_le_lt. intros H%Qle_bool_iff. congruence. }
    assert (Hd : q * (p / q) == p) by (apply Qmult_div_r; lra).
    destruct (Qle_bool 1 (p / q)) eqn:E1; destruct (Qle_bool (p - q) 0) eqn:E2.
    + apply Qle_bool_iff in E1, E2. split; [|lra].
      assert (q * 1 <= q * (p / q)) by (apply Qmult_le_l; done). lra.
    + split; [lra|]. apply Qnot_le_lt in E2 || (assert (~ p - q <= 0) as H by (intros H%Qle_bool_iff; congruence); apply Qnot_le_lt in H); lra.
    + split; [lra|lra].
    + assert (~ p - q <= 0) as H by (intros H%Qle_bool_iff; congruence). apply Qnot_le_lt in H.
      assert (~ 1 <= p / q) as H1 by (intros H1%Qle_bool_iff; congruence). apply Qnot_le_lt in H1.
      assert (q * (p / q) < q * 1) by (apply Qmult_lt_l; done). split; lra.
Qed.

(** C26: the random sampler does not change the distribution.  Let [p] and [q]
    be the target's and the draft's distributions over a vocabulary.  For a
    uniform draw [u] the kernel accepts the drafted token [x] exactly when [u]
    is at most [accept_prob], and a token drawn from [q] and accepted with that
    probability, or else replaced by one drawn in proportion to the residual the
    recovery kernel computes, is distributed exactly as [p]. *)
Theorem speculative_sampling_distribution (p q : nat -> Q) (V : nat) :
  (forall x, (x < V)%nat -> 0 <= q x /\ 0 <= p x) -> qsum q V == 1 -> qsum p V == 1 ->
  (forall x u, 0 <= u <= 1 -> accepts (q x) (p x) u = true <-> 0 < q x /\ u <= accept_prob (q x) (p x)) /\
  (forall x, (x < V)%nat ->
     q x * accept_prob (q x) (p x) +
     qsum (fun y => q y * (1 - accept_prob (q y) (p y))) V *
       (residual (p x) (q x) / qsum (fun y => residual (p y) (q y)) V) == p x).
Proof.
  intros Hpos Hq Hp. split; [intros x u; apply accepts_iff|]. intros x Hx.
  set (r := fun y => residual (FO := QOps) (p y) (q y)).
  assert (Hr : forall y, (y < V)%nat -> 0 <= r y) by (intros y Hy; apply accepted_mass; apply Hpos, Hy).
  assert (Hrej : qsum (fun y => q y * (1 - accept_prob (q y) (p y))) V == qsum r V).
  { rewrite (qsum_ext _ (fun y => (q y - p y) - (0 - r y))).
    - rewrite qsum_minus, (qsum_minus q p), (qsum_minus (fun _ => 0) r).
      assert (qsum (fun _ => 0) V == 0) as -> by (clear; induction V as [|n IH]; simpl; [lra|rewrite IH; lra]). lra.
    - intros y Hy. destruct (accepted_mass (q y) (p y)) as [E _]; [apply Hpos, Hy..|]. unfold r.
      assert (q y * (1 - accept_prob (q y) (p y)) == q y - q y * accept_prob (q y) (p y)) as -> by lra.
      rewrite E. lra. }
  rewrite Hrej. destruct (accepted_mass (q x) (p x)) as [-> _]; [apply Hpos, Hx..|]. fold (r x).
  change (qsum (fun y => residual (FO := QOps) (p y) (q y)) V) with (qsum r V).
  destruct (Qeq_dec (qsum r V) 0) as [Hz|Hnz].
  - rewrite (qsum_zero r V x Hr Hz Hx), Hz. lra.
  - rewrite Qmult_div_r by done. lra.
Qed.
End Distribution.

(** * Instances on small batches *)
Module SamplerExamples.

Lemma Q_fgt_asym (x y : @F QOps) : fgt x y = true -> fgt y x = false.
Proof.
  simpl. intros H%negb_true_iff. apply negb_false_iff, Qle_bool_iff, Qlt_le_weak, Qnot_le_lt.
  intros Hle%Qle_bool_iff. congruence.
Qed.

Lemma Q_fle_trans (x y z : @F QOps) : fgt x y = false -> fgt y z = false -> fgt x z = false.
Proof.
  simpl. rewrite !negb_false_iff, !Qle_bool_iff. apply Qle_trans.
Qed.

(** Two requests over a vocabulary of three tokens: a draft of two and an
    empty draft. *)
Definition uniform3 : list Q := [1 # 3; 1 # 3; 1 # 3]%Q.
Definition demo_batch : list (list position) :=
  [[mkPos _ 1 1 0 (1 # 2)%Q uniform3 uniform3; mkPos _ 0 2 1 (1 # 2)%Q uniform3 uniform3]; []].

Lemma demo_width ps : ps ∈ demo_batch -> (length ps < 3)%nat.
Proof. intros [->|[->|[]%elem_of_nil]%elem_of_cons]%elem_of_cons; simpl; lia. Qed.

Lemma demo_probs ps p :
  ps ∈ demo_batch -> p ∈ ps -> 0 <= pd_draft p < 3 /\
  Z.of_nat (length (pd_dprobs p)) = 3 /\ Z.of_nat (length (pd_tprobs p)) = 3.
Proof.
  intros [->|[->|[]%elem_of_nil]%elem_of_cons]%elem_of_cons.
  - intros [->|[->|[]%elem_of_nil]%elem_of_cons]%elem_of_cons; simpl; lia.
  - by intros ?%elem_of_nil.
Qed.

Lemma rejection_sample_correct_witness :
  rejection_sample [1; 0]%nat [0; 1]%nat (flat pd_draft demo_batch) (lens demo_batch) (Z.of_nat 3 - 1) 3
    (cumsum (lens demo_batch)) (Some (concat (flat pd_dprobs demo_batch)))
    (flat pd_argmax demo_batch) (concat (flat pd_tprobs demo_batch)) [0; 2] (flat pd_recovered demo_batch)
    (flat pd_uniform demo_batch) false false [true; false]
  = Ok [[1; 2; -1]; [2; -1; -1]].
Proof.
  etrans; [apply (rejection_sample_correct demo_batch [0; 2] 3 3 eq_refl demo_width demo_probs true false false
    [true; false] [1; 0]%nat [0; 1]%nat)|vm_compute; reflexivity].
  - apply Permutation_swap.
  - done.
  - done.
  - done.
Defined.

Lemma expand_batch_correct_witness :
  expand_batch_to_tokens [2; 0; 1]%nat [7; 0; 9]
    (cumsum ((fun l => Z.of_nat (length l)) <$> [[0; 0]; [0; 0; 0]; [0]])) (concat [[0; 0]; [0; 0; 0]; [0]]) 0 1
  = Ok [7; 7; 1; 1; 1; 9].
Proof.
  etrans; [apply (expand_batch_correct [2; 0; 1]%nat [[0; 0]; [0; 0; 0]; [0]] [7; 0; 9] 0 1)|vm_compute; reflexivity].
  - done.
  - simpl. rewrite Permutation_swap. apply perm_skip, Permutation_swap.
  - intros s Hs. assert (length s <= 3)%nat; [|lia].
    apply elem_of_cons in Hs as [->|[->|[->|[]%elem_of_nil]%elem_of_cons]%elem_of_cons]; simpl; lia.
Defined.

Lemma uniform_probs_seeded_witness :
  generate_uniform_probs [2; 0; 1] {[ 0%nat := 1%Q ]} (fun g n => replicate (Z.to_nat n) g) [0; 0; 0]%Q = [1; 1; 0]%Q.
Proof.
  apply (uniform_probs_seeded {[ 0%nat := 1%Q ]} (fun g n => replicate (Z.to_nat n) g)
    ltac:(intros; apply length_replicate) [[0; 0]; []; [0]]%Q).
Defined.

Lemma recovered_token_correct_witness :
  exists t, (t < 3)%nat /\
    sample_recovered_tokens_kernel (cumsum (lens demo_batch)) (flat pd_draft demo_batch)
      (Some (concat (flat pd_dprobs demo_batch))) (concat (flat pd_tprobs demo_batch))
      (concat [uniform3; uniform3]) 3 4 [8; 9] 0 1 = Ok [8; Z.of_nat t].
Proof.
  destruct (recovered_token_correct
    Q_fgt_asym Q_fle_trans
    demo_batch [uniform3; uniform3] 3 4 true
    ltac:(intros ps p Hps Hp; destruct (demo_probs ps p Hps Hp); lia)
    ltac:(split; [done|by intros r [->|[->|[]%elem_of_nil]%elem_of_cons]%elem_of_cons])
    ltac:(lia) 0%nat _ 1%nat _ _ [[8; 9]; []] [8; 9] eq_refl eq_refl eq_refl eq_refl) as (t & Ht & E & _).
  - intros [|[|i]] r; [intros [= <-]..|]; done.
  - done.
  - by exists 0%nat; split; [lia|].
  - exists t. split; [done|]. exact E.
Defined.

Lemma speculative_sampling_distribution_witness :
  (qsum (fun _ => 1 # 2) 2 == 1)%Q /\
  forall x, (x < 2)%nat ->
    ((1 # 2) * accept_prob (1 # 2) (if (x =? 0)%nat then 1 # 4 else 3 # 4) +
     qsum (fun y => (1 # 2) * (1 - accept_prob (1 # 2) (if (y =? 0)%nat then 1 # 4 else 3 # 4))) 2 *
     (residual (if (x =? 0)%nat then 1 # 4 else 3 # 4) (1 # 2) /
      qsum (fun y => residual (if (y =? 0)%nat then 1 # 4 else 3 # 4) (1 # 2)) 2)
     == if (x =? 0)%nat then 1 # 4 else 3 # 4)%Q.
Proof.
  split; [reflexivity|].
  apply (speculative_sampling_distribution (fun x => if (x =? 0)%nat then 1 # 4 else 3 # 4)%Q (fun _ => 1 # 2)%Q 2);
    [|reflexivity|reflexivity].
  intros [|x] _; split; vm_compute; discriminate.
Defined.
End SamplerExamples.
