(* ===== verification/SpecUtils.v ===== *)
(** Helpers of speculative decoding: [src/vllm/v1/spec_decode/utils.py].

    The kernels that turn the sampler's output into the next draft step: the
    next token and the number of valid tokens per request, the position each
    request resumes from, the slot mapping of new tokens, the extension of the
    attention metadata, and the gather of draft hidden states into a compact
    tensor. *)
From S2P Require Import Prelude Device RejectionSampler.
Local Open Scope Z_scope.

Definition PADDING_SLOT_ID : Z := -1.

(** * Kernels *)

(** [eagle_prepare_inputs_padded_kernel]; the state is the two output buffers
    [token_indices_to_sample] and [num_rejected_tokens_gpu]. *)
Definition prepare_inputs_padded_kernel (cu_num_draft_tokens valid_sampled_tokens_count
    query_start_loc : list Z) (num_reqs : Z) (s : list Z * list Z) (req_idx : Z) :
    result (list Z * list Z) :=
  let '(token_indices_to_sample, num_rejected_tokens_gpu) := s in
  if num_reqs <=? req_idx then Ok s else
  cu_draft_curr ← load cu_num_draft_tokens req_idx;
  num_draft_tokens ← (if req_idx =? 0 then Ok cu_draft_curr else
                      cu_draft_prev ← load cu_num_draft_tokens (req_idx - 1);
                      Ok (cu_draft_curr - cu_draft_prev));
  valid_count ← load valid_sampled_tokens_count req_idx;
  let num_rejected_tokens := num_draft_tokens + 1 - valid_count in
  let num_rejected_tokens := if 0 <? num_draft_tokens then num_rejected_tokens else 0 in
  next_start ← load query_start_loc (req_idx + 1);
  let q_last_tok_idx := next_start - 1 in
  let index_to_sample := q_last_tok_idx - num_rejected_tokens in
  token_indices_to_sample ← store token_indices_to_sample req_idx index_to_sample;
  num_rejected_tokens_gpu ← store num_rejected_tokens_gpu req_idx num_rejected_tokens;
  Ok (token_indices_to_sample, num_rejected_tokens_gpu).

(** [tl.sum] and [tl.max] over the lanes of a program. *)
Definition lane_sum (l : list Z) : Z := fold_left Z.add l 0.
Definition lane_max (l : list Z) : Z := fold_left Z.max l (-1).

(** [eagle_prepare_next_token_padded_kernel]; the state is [next_token_ids] and
    [valid_sampled_tokens_count]. *)
Definition prepare_next_token_padded_kernel (sampled_token_ids : list Z)
    (discard_request_mask : list bool) (backup_next_token_ids : list Z)
    (vocab_size num_sampled_tokens_per_req num_reqs stride block_size_tokens : Z)
    (s : list Z * list Z) (req_idx : Z) : result (list Z * list Z) :=
  let '(next_token_ids, valid_sampled_tokens_count) := s in
  if num_reqs <=? req_idx then Ok s else
  is_discarded ← load discard_request_mask req_idx;
  if is_discarded : bool then
    backup_token ← load backup_next_token_ids req_idx;
    next_token_ids ← store next_token_ids req_idx backup_token;
    valid_sampled_tokens_count ← store valid_sampled_tokens_count req_idx 0;
    Ok (next_token_ids, valid_sampled_tokens_count)
  else
    let token_offs := py_range 0 block_size_tokens in
    token_ids ← mapR (fun off => load_masked sampled_token_ids (req_idx * stride + off)
                                   (off <? num_sampled_tokens_per_req) (-1)) token_offs;
    let is_valid_mask := zip_with (fun t off => negb (t =? -1) && (t <? vocab_size)
                                     && (off <? num_sampled_tokens_per_req)) token_ids token_offs in
    let valid_count := lane_sum ((fun b : bool => if b then 1 else 0) <$> is_valid_mask) in
    next_token_ids ←
      (if 0 <? valid_count then
         let last_valid_index := lane_max (zip_with (fun (m : bool) off => if m then off else -1)
                                             is_valid_mask token_offs) in
         let last_valid_token := lane_sum (zip_with (fun off t => if off =? last_valid_index then t else 0)
                                             token_offs token_ids) in
         store next_token_ids req_idx last_valid_token
       else
         backup_token ← load backup_next_token_ids req_idx;
         store next_token_ids req_idx backup_token);
    valid_sampled_tokens_count ← store valid_sampled_tokens_count req_idx valid_count;
    Ok (next_token_ids, valid_sampled_tokens_count).

(** * Attention metadata *)

(** The fields of [CommonAttentionMetadata] these helpers touch. *)
Record CommonAttentionMetadata := mkCAD {
  query_start_loc : list Z;
  query_start_loc_cpu : list Z;
  seq_lens : list Z;
  num_reqs : Z;
  num_actual_tokens : Z;
  max_query_len : Z;
  max_seq_len : Z;
  block_table_tensor : list (list Z);
  slot_mapping : list Z;
}.

(** [naive_query_lens]: differences of [query_start_loc]. *)
Definition naive_query_lens (cad : CommonAttentionMetadata) : list Z :=
  zip_with Z.sub (drop 1 (query_start_loc cad)) (query_start_loc cad).

(** [torch.repeat_interleave]. *)
Definition repeat_interleave {A} (xs : list A) (ns : list Z) : list A :=
  concat (zip_with (fun x n => replicate (Z.to_nat n) x) xs ns).

(** The slot of one token, before masking. *)
Definition slot_of (block_table : list Z) (req_idx n_blocks_per_req block_size max_model_len pos : Z) :
    result Z :=
  let clamped := Z.min pos (max_model_len - 1) in
  block_num ← load block_table (req_idx * n_blocks_per_req + clamped / block_size);
  Ok (block_num * block_size + clamped mod block_size).

(** [compute_new_slot_mapping]. *)
Definition compute_new_slot_mapping (cad : CommonAttentionMetadata) (new_positions : list Z)
    (is_rejected_token_mask : list bool) (block_size num_new_tokens max_model_len : Z) : result (list Z) :=
  let batch_size := py_len (block_table_tensor cad) in
  let n_blocks_per_req := py_len (default [] (block_table_tensor cad !! 0%nat)) in
  let req_indices := repeat_interleave (py_range 0 batch_size)
                       ((fun n => n + num_new_tokens) <$> naive_query_lens cad) in
  let block_table := concat (block_table_tensor cad) in
  slots ← mapR (fun '(req, pos) => slot_of block_table req n_blocks_per_req block_size max_model_len pos)
            (zip req_indices new_positions);
  let slots := zip_with (fun slot pos => if max_model_len <=? pos then PADDING_SLOT_ID else slot)
                 slots new_positions in
  Ok (zip_with (fun slot (rejected : bool) => if rejected then PADDING_SLOT_ID else slot)
        slots is_rejected_token_mask).

(** [extend_all_queries_by_N]; [arange] is the given tensor [0, 1, 2, ...]. *)
Definition extend_all_queries_by_N (cad : CommonAttentionMetadata) (N : Z) (arange : list Z)
    (new_slot_mapping : list Z) : CommonAttentionMetadata :=
  mkCAD (zip_with (fun q a => q + N * a) (query_start_loc cad) (take (length (query_start_loc cad)) arange))
    (zip_with (fun q a => q + N * a) (query_start_loc_cpu cad) (py_range 0 (py_len (query_start_loc_cpu cad))))
    ((fun x => x + N) <$> seq_lens cad)
    (num_reqs cad)
    (num_actual_tokens cad + py_len (seq_lens cad) * N)
    (max_query_len cad + N)
    (max_seq_len cad + N)
    (block_table_tensor cad)
    new_slot_mapping.

(** * Gathering hidden states *)
Section Gather.
Context {A : Type}.

(** One thread block [(req_idx, token_idx)] of [gather_hidden_kernel]: it copies
    a row; a row of [hidden_size] elements is moved in 16-byte units. *)
Definition gather_hidden_kernel (src : list (list (list A))) (cu_num_tokens : list Z)
    (mapping : option (list Z)) (output : list (list A)) (req_idx token_idx : Z) :
    result (list (list A)) :=
  src_row ← match mapping with Some m => load m req_idx | None => Ok req_idx end;
  start ← (if 0 <? req_idx then load cu_num_tokens (req_idx - 1) else Ok 0);
  end_ ← load cu_num_tokens req_idx;
  if end_ - start <=? token_idx then Ok output else
  rows ← load src src_row;
  row ← load rows token_idx;
  store output (start + token_idx) row.

(** [gather_cuda]: the grid is [batch_size] by [max_spec_tokens]. *)
Definition gather_cuda (src : list (list (list A))) (cu_num_draft_tokens : list Z)
    (total_tokens batch_size max_spec_tokens : Z) (mapping : option (list Z))
    (fresh : list (list A)) (order : list (nat * nat)) : result (list (list A)) :=
  if (total_tokens =? 0) || (batch_size =? 0) then Ok fresh else
  foldM (fun out '(r, t) => gather_hidden_kernel src cu_num_draft_tokens mapping out (Z.of_nat r) (Z.of_nat t))
    order fresh.
End Gather.

(** * Next tokens *)
Section NextToken.
Variable vocab_size : Z.
Local Abbreviation valid t := (is_valid_token vocab_size t = true).

Lemma lane_sum_app l x : lane_sum (l ++ [x]) = lane_sum l + x.
Proof. unfold lane_sum. by rewrite fold_left_app. Qed.

Lemma lane_max_app l x : lane_max (l ++ [x]) = Z.max (lane_max l) x.
Proof. unfold lane_max. by rewrite fold_left_app. Qed.

Lemma zip_with_snoc {X Y W} (f : X -> Y -> W) l1 l2 x y :
  length l1 = length l2 -> zip_with f (l1 ++ [x]) (l2 ++ [y]) = zip_with f l1 l2 ++ [f x y].
Proof. intros. by rewrite zip_with_app. Qed.

Lemma py_range_snoc n : py_range 0 (Z.of_nat (S n)) = py_range 0 (Z.of_nat n) ++ [Z.of_nat n].
Proof.
  unfold py_range. rewrite !Z.sub_0_r, Nat2Z.inj_succ, <- Z.add_1_r, seqZ_app by lia. done.
Qed.

Lemma length_py_range n : length (py_range 0 (Z.of_nat n)) = n.
Proof. unfold py_range. rewrite length_seqZ. lia. Qed.

Lemma count_lanes ids :
  lane_sum ((fun b : bool => if b then 1 else 0) <$> (is_valid_token vocab_size <$> ids))
  = Z.of_nat (length (filter (fun t => valid t) ids)).
Proof.
  induction ids as [|x ids IH] using rev_ind; [done|].
  rewrite !fmap_app, filter_app, length_app. simpl. rewrite lane_sum_app, IH.
  rewrite filter_cons, filter_nil. destruct (is_valid_token vocab_size x); case_decide; simpl; done || lia.
Qed.

(** The sum that selects lane [K] is zero when [K] is past the lanes. *)
Lemma select_past K ids :
  Z.of_nat (length ids) <= K ->
  lane_sum (zip_with (fun off t => if off =? K then t else 0) (py_range 0 (Z.of_nat (length ids))) ids) = 0.
Proof.
  induction ids as [|x ids IH] using rev_ind; [done|]. rewrite length_app. simpl. intros HK.
  rewrite Nat.add_1_r, py_range_snoc, zip_with_snoc, lane_sum_app by apply length_py_range.
  rewrite IH by lia. by rewrite (proj2 (Z.eqb_neq _ _)) by lia.
Qed.

Definition last_valid_lane (ids : list Z) : Z :=
  lane_max (zip_with (fun (m : bool) off => if m then off else -1)
              (is_valid_token vocab_size <$> ids) (py_range 0 (Z.of_nat (length ids)))).

Lemma select_last ids :
  -1 <= last_valid_lane ids < Z.of_nat (length ids) /\
  (filter (fun t => valid t) ids <> [] -> 0 <= last_valid_lane ids) /\
  lane_sum (zip_with (fun off t => if off =? last_valid_lane ids then t else 0)
              (py_range 0 (Z.of_nat (length ids))) ids)
  = default 0 (last (filter (fun t => valid t) ids)).
Proof.
  induction ids as [|x ids IH] using rev_ind; [done|]. destruct IH as (Hb & Hpos & Hs).
  assert (E : last_valid_lane (ids ++ [x]) =
    Z.max (last_valid_lane ids) (if is_valid_token vocab_size x then Z.of_nat (length ids) else -1)).
  { unfold last_valid_lane. rewrite length_app, Nat.add_1_r, fmap_app, py_range_snoc. simpl.
    rewrite zip_with_snoc by (by rewrite length_fmap, length_py_range). apply lane_max_app. }
  rewrite filter_app, filter_cons, filter_nil. rewrite length_app, Nat.add_1_r, py_range_snoc.
  rewrite zip_with_snoc, lane_sum_app by apply length_py_range.
  destruct (is_valid_token vocab_size x) eqn:Ex.
  - rewrite decide_True by done. rewrite E, Z.max_r by lia. rewrite last_snoc, Z.eqb_refl, select_past by lia.
    split_and!; [lia..|intros; lia|done].
  - rewrite decide_False by done. rewrite E, Z.max_l by lia. rewrite app_nil_r, Hs.
    rewrite (proj2 (Z.eqb_neq _ _)) by lia. split_and!; [lia..|done|lia].
Qed.

Lemma filter_valid_padding row n :
  filter (fun t => valid t) (row ++ replicate n (-1)) = filter (fun t => valid t) row.
Proof.
  rewrite filter_app. assert (filter (fun t => valid t) (replicate n (-1)) = []) as ->; [|by rewrite app_nil_r].
  induction n as [|n IH]; [done|]. cbn [replicate]. by rewrite filter_cons_False.
Qed.

Section Rows.
Variables (rows : list (list Z)) (discard : nat -> bool) (backup : nat -> Z) (w B : nat).
Hypothesis rows_ok : uniform w rows.
Hypothesis block_ok : (w <= B)%nat.
Local Abbreviation n := (length rows).
Local Abbreviation row i := (default [] (rows !! i)).

(** What the next draft step starts from, and how many tokens are valid. *)
Definition next_token (i : nat) : Z :=
  if discard i then backup i else default (backup i) (last (filter (fun t => valid t) (row i))).
Definition valid_count (i : nat) : Z :=
  if discard i then 0 else Z.of_nat (length (filter (fun t => valid t) (row i))).

Lemma load_lanes i r :
  rows !! i = Some r ->
  mapR (fun off => load_masked (concat rows) (Z.of_nat i * Z.of_nat w + off) (off <? Z.of_nat w) (-1))
    (py_range 0 (Z.of_nat B)) = Ok (r ++ replicate (B - w) (-1)).
Proof.
  intros Hr. assert (Hlr : length r = w) by (apply rows_ok; by eapply list_elem_of_lookup_2).
  rewrite (mapR_pure _ (fun off => default (-1) (r !! Z.to_nat off))).
  - f_equal. apply list_eq. intros j. rewrite list_lookup_fmap. unfold py_range. rewrite Z.sub_0_r.
    destruct (decide (j < B)%nat) as [Hj|Hj].
    + rewrite lookup_seqZ_lt by lia. rewrite Z.add_0_l. unfold fmap at 1, option_fmap, option_map. rewrite Nat2Z.id.
      destruct (decide (j < w)%nat) as [Hw|Hw].
      * rewrite lookup_app_l by lia. by destruct (lookup_lt_is_Some_2 r j) as [v ->]; [lia|].
      * rewrite (proj2 (lookup_ge_None r j)) by lia. rewrite lookup_app_r, lookup_replicate_2 by lia. done.
    + rewrite lookup_seqZ_ge by lia. symmetry. apply lookup_ge_None. rewrite length_app, length_replicate. lia.
  - intros off Hoff. unfold py_range in Hoff. apply elem_of_seqZ in Hoff. unfold load_masked.
    destruct (Z.ltb_spec off (Z.of_nat w)).
    + destruct (load_row w rows i r off rows_ok Hr) as (v & -> & ->); [lia|done].
    + by rewrite (proj2 (lookup_ge_None r _)) by lia.
Qed.

Lemma lane_mask r :
  length r = w ->
  zip_with (fun t off => negb (t =? -1) && (t <? vocab_size) && (off <? Z.of_nat w))
    (r ++ replicate (B - w) (-1)) (py_range 0 (Z.of_nat B))
  = is_valid_token vocab_size <$> (r ++ replicate (B - w) (-1)).
Proof.
  intros Hr. apply list_eq. intros j. rewrite lookup_zip_with, list_lookup_fmap.
  destruct ((r ++ replicate (B - w) (-1)) !! j) as [t|] eqn:Et; simpl; [|done].
  assert (Hj : (j < B)%nat). { apply lookup_lt_Some in Et. rewrite length_app, length_replicate in Et. lia. }
  unfold py_range. rewrite lookup_seqZ_lt by lia. simpl. f_equal. unfold is_valid_token, PLACEHOLDER_TOKEN_ID.
  rewrite Z.add_0_l. destruct (Z.ltb_spec (Z.of_nat j) (Z.of_nat w)); [by rewrite andb_true_r|].
  rewrite lookup_app_r in Et by lia. apply lookup_replicate in Et as [-> _]. done.
Qed.

(** One program. *)
Lemma next_token_program f g i :
  (i < n)%nat ->
  prepare_next_token_padded_kernel (concat rows) (table discard n) (table backup n) vocab_size (Z.of_nat w)
    (Z.of_nat n) (Z.of_nat w) (Z.of_nat B) (table f n, table g n) (Z.of_nat i)
  = Ok (table (fun j => if decide (j = i) then next_token i else f j) n,
        table (fun j => if decide (j = i) then valid_count i else g j) n).
Proof.
  intros Hi. destruct (lookup_lt_is_Some_2 rows i Hi) as [r Hr].
  assert (Hlr : length r = w) by (apply rows_ok; by eapply list_elem_of_lookup_2).
  unfold prepare_next_token_padded_kernel. rewrite (proj2 (Z.leb_gt _ _)) by lia.
  rewrite (load_table discard) by done. cbn [mbind result_bind]. unfold next_token, valid_count. rewrite Hr. simpl default.
  destruct (discard i).
  - rewrite load_table by done. cbn [mbind result_bind].
      rewrite store_table by done. cbn [mbind result_bind]. by rewrite store_table.
  - rewrite (load_lanes i r Hr). cbn [mbind result_bind]. rewrite lane_mask by done.
    set (ids := r ++ replicate (B - w) (-1)).
    assert (Hids : length ids = B) by (unfold ids; rewrite length_app, length_replicate; lia).
    rewrite count_lanes. pose proof (select_last ids) as (_ & _ & Hsel).
    unfold last_valid_lane in Hsel. rewrite Hids in Hsel. rewrite Hsel.
    assert (Hf : filter (fun t => valid t) ids = filter (fun t => valid t) r) by apply filter_valid_padding.
    rewrite Hf. destruct (filter (fun t => valid t) r) as [|t0 ts] eqn:Ef.
    + simpl. rewrite load_table by done. cbn [mbind result_bind].
      rewrite store_table by done. cbn [mbind result_bind]. by rewrite store_table.
    + rewrite (proj2 (Z.ltb_lt _ _)) by (simpl; lia). cbn [mbind result_bind].
      rewrite store_table by done. cbn [mbind result_bind]. rewrite store_table by done.
      assert (default 0 (last (t0 :: ts)) = default (backup i) (last (t0 :: ts))) as ->; [|done].
      destruct (last (t0 :: ts)) eqn:El; [done|]. by apply last_None in El.
Qed.

(** the next-token kernel.  For every batch of sampled rows and every
    program order it returns, for each request, the number of valid tokens of
    its row and the last valid token (so for a row of the rejection sampler the
    number of accepted tokens plus one and the correction or bonus token); a
    discarded request gets 0 and its backup token, and so does a row with no
    valid token. *)
Theorem next_token_kernel_correct f g order :
  order ≡ₚ seq 0 n ->
  launch (prepare_next_token_padded_kernel (concat rows) (table discard n) (table backup n) vocab_size
    (Z.of_nat w) (Z.of_nat n) (Z.of_nat w) (Z.of_nat B)) order (table f n, table g n)
  = Ok (table next_token n, table valid_count n).
Proof.
  intros Ho.
  apply (launch_state _ (fun d => (table (fun i => if d i : bool then next_token i else f i) n,
                                   table (fun i => if d i : bool then valid_count i else g i) n)) n order Ho).
  - intros d d' Hd. f_equal; apply table_ext; intros i Hi; by rewrite Hd.
  - intros d i Hi Hd. rewrite next_token_program by done. do 2 f_equal; apply table_ext; intros j Hj;
      case_decide; subst; rewrite ?bool_decide_true, ?bool_decide_false by done; done.
Qed.
End Rows.
End NextToken.

(** * Where each request resumes *)
Section PrepareInputs.
Variables (drafts valid start : nat -> Z) (n : nat).
Local Abbreviation cu := (cumsum (table drafts n)).

(** Prefix sums of the draft counts. *)
Fixpoint psum (k : nat) : Z := match k with O => 0 | S k => psum k + drafts k end.

Lemma cumsum_from_app acc l1 l2 :
  cumsum_from acc (l1 ++ l2) = cumsum_from acc l1 ++ cumsum_from (acc + fold_left Z.add l1 0) l2.
Proof.
  revert acc; induction l1 as [|x l1 IH]; intros acc; simpl; [by rewrite Z.add_0_r|].
  rewrite IH. do 3 f_equal. clear. 
  assert (H : forall a b, fold_left Z.add l1 (a + b) = a + fold_left Z.add l1 b).
  { induction l1 as [|y l1 IH]; intros a b; simpl; [done|]. rewrite <- IH. f_equal. lia. }
  rewrite (Z.add_comm 0 x), H. lia.
Qed.

Lemma psum_fold k : fold_left Z.add (table drafts k) 0 = psum k.
Proof.
  induction k as [|k IH]; [done|]. unfold table in *. rewrite seq_S, fmap_app, fold_left_app, IH. done.
Qed.

Lemma cumsum_table k : cumsum (table drafts k) = table (fun i => psum (S i)) k.
Proof.
  induction k as [|k IH]; [done|]. unfold cumsum, table in *.
  rewrite !seq_S, !fmap_app, cumsum_from_app, IH, Z.add_0_l. f_equal. simpl.
  change (drafts <$> seq 0 k) with (table drafts k). by rewrite psum_fold.
Qed.

Definition num_rejected (i : nat) : Z := if 0 <? drafts i then drafts i + 1 - valid i else 0.
Definition index_to_sample (i : nat) : Z := start (S i) - 1 - num_rejected i.

Lemma prepare_inputs_program f g i :
  (i < n)%nat ->
  prepare_inputs_padded_kernel cu (table valid n) (table start (S n)) (Z.of_nat n)
    (table f n, table g n) (Z.of_nat i)
  = Ok (table (fun j => if decide (j = i) then index_to_sample i else f j) n,
        table (fun j => if decide (j = i) then num_rejected i else g j) n).
Proof.
  intros Hi. unfold prepare_inputs_padded_kernel. rewrite (proj2 (Z.leb_gt _ _)), cumsum_table by lia.
  rewrite (load_table (fun i => psum (S i)) n i) by done. cbn [mbind result_bind].
  assert ((if Z.of_nat i =? 0 then Ok (psum (S i)) else
      cu_draft_prev ← load (table (fun i => psum (S i)) n) (Z.of_nat i - 1); Ok (psum (S i) - cu_draft_prev))
      = Ok (drafts i)) as ->.
  { destruct i as [|i]; [done|]. rewrite (proj2 (Z.eqb_neq _ _)) by lia.
    replace (Z.of_nat (S i) - 1) with (Z.of_nat i) by lia. rewrite load_table by lia. cbn [mbind result_bind psum].
    f_equal. lia. }
  cbn [mbind result_bind]. rewrite (load_table valid) by done. cbn [mbind result_bind].
  replace (Z.of_nat i + 1) with (Z.of_nat (S i)) by lia. rewrite load_table by lia. cbn [mbind result_bind].
  rewrite store_table by done. cbn [mbind result_bind]. by rewrite store_table.
Qed.

(** C30: Where drafting resumes.  For every batch and program order the kernel
    computes, per request, the number of rejected tokens and the index of the
    token to sample from; when the request's query is its last token followed by
    the drafts and between one and all-plus-one tokens are valid, that index
    lies inside the request's query and is the position of its last valid
    token. *)
Theorem prepare_inputs_kernel_correct f g order :
  order ≡ₚ seq 0 n ->
  launch (prepare_inputs_padded_kernel cu (table valid n) (table start (S n)) (Z.of_nat n)) order
    (table f n, table g n) = Ok (table index_to_sample n, table num_rejected n) /\
  (forall i, (i < n)%nat -> 0 < drafts i -> start (S i) = start i + drafts i + 1 -> 1 <= valid i <= drafts i + 1 ->
     index_to_sample i = start i + valid i - 1 /\ start i <= index_to_sample i < start (S i)).
Proof.
  intros Ho. split.
  - apply (launch_state _ (fun d => (table (fun i => if d i : bool then index_to_sample i else f i) n,
                                     table (fun i => if d i : bool then num_rejected i else g i) n)) n order Ho).
    + intros d d' Hd. f_equal; apply table_ext; intros i Hi; by rewrite Hd.
    + intros d i Hi Hd. rewrite prepare_inputs_program by done. do 2 f_equal; apply table_ext; intros j Hj;
        case_decide; subst; rewrite ?bool_decide_true, ?bool_decide_false by done; done.
  - intros i Hi Hd Hs Hv. unfold index_to_sample, num_rejected. rewrite (proj2 (Z.ltb_lt _ _) Hd). lia.
Qed.
End PrepareInputs.

(** * Slots *)
Section Slots.
Variables (cad : CommonAttentionMetadata) (block_size max_model_len num_new : Z) (nb : nat).
Hypothesis sizes_ok : 0 < block_size /\ 0 < max_model_len.
Hypothesis table_nonempty : block_table_tensor cad <> [].
Hypothesis table_ok : uniform nb (block_table_tensor cad).
Hypothesis table_covers : max_model_len <= Z.of_nat nb * block_size.

(** The slot of position [pos] of request [req] under the paged layout. *)
Definition paged_slot (req : nat) (pos : Z) : Z :=
  default 0 (default [] (block_table_tensor cad !! req) !! Z.to_nat (pos / block_size)) * block_size
  + pos mod block_size.

Lemma slot_of_ok req pos :
  (req < length (block_table_tensor cad))%nat -> 0 <= pos ->
  slot_of (concat (block_table_tensor cad)) (Z.of_nat req) (Z.of_nat nb) block_size max_model_len pos
  = Ok (paged_slot req (Z.min pos (max_model_len - 1))).
Proof.
  intros Hr Hp. unfold slot_of. set (c := Z.min pos (max_model_len - 1)).
  destruct (lookup_lt_is_Some_2 _ _ Hr) as [row Hrow].
  destruct (load_row nb (block_table_tensor cad) req row (c / block_size) table_ok Hrow) as (v & Hv & ->).
  - split; [apply Z.div_pos; lia|]. apply Z.div_lt_upper_bound; lia.
  - cbn [mbind result_bind]. unfold paged_slot. rewrite Hrow. change (default [] (Some row)) with row. by rewrite Hv.
Qed.

Lemma first_row_length : py_len (default [] (block_table_tensor cad !! 0%nat)) = Z.of_nat nb.
Proof.
  destruct (block_table_tensor cad) as [|r rs]; [done|]. simpl. unfold py_len. f_equal.
  apply table_ok. set_solver.
Qed.

(** The request each new token belongs to. *)
Definition token_requests : list Z :=
  repeat_interleave (py_range 0 (py_len (block_table_tensor cad)))
    ((fun n => n + num_new) <$> naive_query_lens cad).

Lemma token_requests_bound z :
  z ∈ token_requests -> exists req, z = Z.of_nat req /\ (req < length (block_table_tensor cad))%nat.
Proof.
  unfold token_requests, repeat_interleave. intros (l & Hl & Hz)%list_elem_of_In%in_concat.
  apply list_elem_of_In, elem_of_lookup_zip_with in Hl as (i & x & n & -> & Hx & _).
  apply list_elem_of_In, elem_of_replicate_inv in Hz as ->.
  unfold py_range in Hx. apply lookup_seqZ in Hx as [-> Hi]. exists i. unfold py_len in *. lia.
Qed.

(** The slot mapping of new tokens.  When the block table covers
    [max_model_len] positions, the mapping is defined for any non-negative
    positions (even past the end); a live token gets the paged slot of its
    position, a rejected token or one past [max_model_len] gets the padding
    slot; and two live tokens share a slot only if their table entries are the
    same block and their offsets in it agree. *)
Theorem new_slot_mapping_correct positions rejected :
  length token_requests = length positions -> length rejected = length positions ->
  (forall pos, pos ∈ positions -> 0 <= pos) ->
  exists slots, compute_new_slot_mapping cad positions rejected block_size num_new max_model_len = Ok slots /\
    length slots = length positions /\
    (forall k req pos rej, token_requests !! k = Some (Z.of_nat req) -> positions !! k = Some pos ->
       rejected !! k = Some rej ->
       slots !! k = Some (if rej || (max_model_len <=? pos) then PADDING_SLOT_ID else paged_slot req pos)) /\
    (forall r1 p1 r2 p2, 0 <= p1 -> 0 <= p2 -> paged_slot r1 p1 = paged_slot r2 p2 ->
       default 0 (default [] (block_table_tensor cad !! r1) !! Z.to_nat (p1 / block_size)) =
       default 0 (default [] (block_table_tensor cad !! r2) !! Z.to_nat (p2 / block_size)) /\
       p1 mod block_size = p2 mod block_size).
Proof.
  intros Hl1 Hl2 Hpos. unfold compute_new_slot_mapping. fold token_requests. rewrite first_row_length.
  rewrite (mapR_pure _ (fun '(r, p) => paged_slot (Z.to_nat r) (Z.min p (max_model_len - 1)))).
  2:{ intros [r p] Hrp. apply elem_of_lookup_zip_with in Hrp as (k & r' & p' & [= -> ->] & Hr & Hp).
      destruct (token_requests_bound r') as (req & -> & Hreq); [by eapply list_elem_of_lookup_2|].
      rewrite Nat2Z.id. apply slot_of_ok; [done|]. apply Hpos. by eapply list_elem_of_lookup_2. }
  cbn [mbind result_bind]. eexists. split; [reflexivity|]. split_and!.
  - rewrite !length_zip_with, length_fmap, length_zip_with. lia.
  - intros k req pos rej Hr Hp Hj. rewrite !lookup_zip_with, list_lookup_fmap, lookup_zip_with.
    rewrite Hr, Hp, Hj. simpl. rewrite Nat2Z.id. f_equal. destruct rej; [done|]. simpl.
    destruct (Z.leb_spec max_model_len pos); [done|]. f_equal. lia.
  - unfold paged_slot. intros r1 p1 r2 p2 _ _ E.
    set (b1 := default 0 _) in *. set (b2 := default 0 (default [] (_ !! r2) !! _)) in *.
    pose proof (Z.mod_pos_bound p1 block_size ltac:(lia)). pose proof (Z.mod_pos_bound p2 block_size ltac:(lia)).
    assert (b1 = b2) by nia. split; [done|]. subst. nia.
Qed.
End Slots.

(** * Extending the queries *)

Lemma zip_arange (l : list Z) (M N : Z) :
  py_len l <= M ->
  zip_with (fun q a => q + N * a) l (take (length l) (py_range 0 M))
  = zip_with (fun q a => q + N * a) l (py_range 0 (py_len l)).
Proof.
  intros HM. f_equal. unfold py_range, py_len in *. apply list_eq. intros i.
  destruct (decide (i < length l)%nat).
  - rewrite lookup_take_lt, !lookup_seqZ_lt by lia. done.
  - rewrite lookup_take_ge, lookup_seqZ_ge by lia. done.
Qed.

Lemma lookup_shifted (l : list Z) N i x :
  l !! i = Some x ->
  zip_with (fun q a => q + N * a) l (py_range 0 (py_len l)) !! i = Some (x + N * Z.of_nat i).
Proof.
  intros Hx. rewrite lookup_zip_with, Hx. simpl. assert (i < length l)%nat by by eapply lookup_lt_Some.
  unfold py_range, py_len. by rewrite lookup_seqZ_lt by lia.
Qed.

(** Extending every query by [N] tokens.  The new query lengths are the
    old ones plus [N] on the device and the host copy alike, and when the old
    start locations end at the token count with one entry more than requests,
    the new ones do too. *)
Theorem extend_queries_correct cad N M slots :
  py_len (query_start_loc cad) <= M -> query_start_loc_cpu cad = query_start_loc cad ->
  let cad' := extend_all_queries_by_N cad N (py_range 0 M) slots in
  naive_query_lens cad' = (fun n => n + N) <$> naive_query_lens cad /\
  query_start_loc_cpu cad' = query_start_loc cad' /\
  (length (query_start_loc cad) = S (length (seq_lens cad)) ->
   last (query_start_loc cad) = Some (num_actual_tokens cad) ->
   last (query_start_loc cad') = Some (num_actual_tokens cad')).
Proof.
  intros HM Hcpu cad'.
  assert (Hq : query_start_loc cad' = zip_with (fun q a => q + N * a) (query_start_loc cad)
                 (py_range 0 (py_len (query_start_loc cad)))) by (apply zip_arange; done).
  set (l := query_start_loc cad) in *.
  assert (Hlen : length (query_start_loc cad') = length l).
  { rewrite Hq, length_zip_with. unfold py_range, py_len. rewrite length_seqZ. lia. }
  split_and!.
  - unfold naive_query_lens. fold l. apply list_eq. intros i.
    rewrite list_lookup_fmap, !lookup_zip_with, !lookup_drop.
    destruct (l !! (1 + i)%nat) as [y|] eqn:Ey.
    + destruct (lookup_lt_is_Some_2 l i) as [x Ex]; [apply lookup_lt_Some in Ey; lia|].
      rewrite Hq, (lookup_shifted _ _ _ _ Ey), (lookup_shifted _ _ _ _ Ex), Ex. simpl. f_equal. lia.
    + assert (query_start_loc cad' !! (1 + i)%nat = None) as ->; [|done].
      apply lookup_ge_None. rewrite Hlen. by apply lookup_ge_None in Ey.
  - rewrite Hq. unfold cad', extend_all_queries_by_N. simpl. by rewrite Hcpu.
  - intros Hl Hlast. rewrite last_lookup in *. rewrite Hlen, Hq. rewrite (lookup_shifted _ _ _ _ Hlast).
    unfold cad', extend_all_queries_by_N. simpl. unfold py_len. f_equal. rewrite Hl. simpl. lia.
Qed.

(** * Gathering *)
Section GatherFacts.
Context {A : Type}.
Variables (src : list (list (list A))) (segs : list (list (list A))) (mapping : option (list Z)) (K : nat).
(** [segs] is the fresh output split per request; request [i] reads row
    [source i] of the padded buffer, which holds at least as many tokens. *)
Definition source (i : nat) : nat :=
  match mapping with Some m => Z.to_nat (default 0 (m !! i)) | None => i end.
Hypothesis mapping_ok : forall m, mapping = Some m -> forall i, (i < length segs)%nat ->
  exists z, m !! i = Some z /\ 0 <= z.
Hypothesis src_ok : forall i s, segs !! i = Some s ->
  exists rows, src !! source i = Some rows /\ (length s <= length rows)%nat.
Hypothesis grid_ok : forall s, s ∈ segs -> (length s <= K)%nat.

(** The gathered segment of request [i]. *)
Definition gathered (i : nat) : list (list A) :=
  take (length (default [] (segs !! i))) (default [] (src !! source i)).

(** The block reads its segment, then copies one row or stops. *)
Lemma gather_kernel_eq out i t s :
  segs !! i = Some s ->
  gather_hidden_kernel src (cumsum ((fun l => Z.of_nat (length l)) <$> segs)) mapping out (Z.of_nat i) t
  = if Z.of_nat (length s) <=? t then Ok out else
    rows ← load src (Z.of_nat (source i)); row ← load rows t; store out (Z.of_nat (seg_start segs i) + t) row.
Proof.
  intros Hs. assert (Hi : (i < length segs)%nat) by by eapply lookup_lt_Some.
  unfold gather_hidden_kernel.
  assert (match mapping with Some m => load m (Z.of_nat i) | None => Ok (Z.of_nat i) end = Ok (Z.of_nat (source i))) as ->.
  { unfold source. destruct mapping as [m|]; [|done]. destruct (mapping_ok m eq_refl i Hi) as (z & Hz & Hz0).
    rewrite (load_Some _ _ _ Hz), Hz. simpl. f_equal. lia. }
  cbn [mbind result_bind].
  assert ((if 0 <? Z.of_nat i then load (cumsum ((fun l => Z.of_nat (length l)) <$> segs)) (Z.of_nat i - 1) else Ok 0)
    = Ok (Z.of_nat (seg_start segs i))) as ->.
  { rewrite <- (load_cumsum_pred segs i s Hs). destruct i; done. }
  cbn [mbind result_bind]. rewrite (load_cumsum _ _ _ Hs). cbn [mbind result_bind]. by rewrite Z.add_simpl_l.
Qed.

Lemma gather_program rows i s r t :
  segs !! i = Some s -> length rows = length segs ->
  shaped (fun j => length (default [] (segs !! j))) rows -> rows !! i = Some r -> (t < length s)%nat ->
  exists v, gathered i !! t = Some v /\
    gather_hidden_kernel src (cumsum ((fun l => Z.of_nat (length l)) <$> segs)) mapping (concat rows)
      (Z.of_nat i) (Z.of_nat t) = Ok (concat (<[i := <[t := v]> r]> rows)).
Proof.
  intros Hs Hn Hsh Hr Ht. destruct (src_ok i s Hs) as (rs & Hrs & Hle).
  assert (Hi : (i < length segs)%nat) by by eapply lookup_lt_Some.
  destruct (lookup_lt_is_Some_2 rs t) as [v Hv]; [lia|]. exists v. split.
  { unfold gathered. rewrite Hs, Hrs. simpl. by rewrite lookup_take_lt. }
  rewrite (gather_kernel_eq _ _ _ _ Hs), (proj2 (Z.leb_gt _ _)) by lia.
  rewrite (load_Some _ _ _ Hrs). cbn [mbind result_bind]. rewrite (load_Some _ _ _ Hv). cbn [mbind result_bind].
  rewrite <- (seg_start_shaped segs rows i); [|done..|lia]. apply store_segment; [done|].
  rewrite (Hsh i r Hr), Hs. done.
Qed.

(** The output after the blocks in [pre] have run. *)
Definition gather_state (pre : list (nat * nat)) : list (list (list A)) :=
  imap (fun i s => imap (fun t x => if decide ((i, t) ∈ pre) then default x (gathered i !! t) else x) s) segs.

Lemma gather_state_lookup pre i s :
  segs !! i = Some s ->
  gather_state pre !! i = Some (imap (fun t x => if decide ((i, t) ∈ pre) then default x (gathered i !! t) else x) s).
Proof. intros Hs. unfold gather_state. by rewrite list_lookup_imap, Hs. Qed.

Lemma length_gather_state pre : length (gather_state pre) = length segs.
Proof. unfold gather_state. by rewrite length_imap. Qed.

Lemma gather_state_shaped pre : shaped (fun j => length (default [] (segs !! j))) (gather_state pre).
Proof.
  intros j r Hj. unfold gather_state in Hj. rewrite list_lookup_imap in Hj.
  destruct (segs !! j) eqn:E; [|done]. injection Hj as <-. by rewrite length_imap.
Qed.

Lemma gather_state_step pre i t s v :
  segs !! i = Some s -> (t < length s)%nat -> gathered i !! t = Some v ->
  <[i := <[t := v]> (imap (fun t x => if decide ((i, t) ∈ pre) then default x (gathered i !! t) else x) s)]>
    (gather_state pre) = gather_state (pre ++ [(i, t)]).
Proof.
  intros Hs Ht Hv. apply list_eq. intros j. rewrite list_lookup_insert.
  rewrite length_gather_state.
  destruct (decide (i = j /\ (i < length segs)%nat)) as [[<- _]|Hne].
  - rewrite (gather_state_lookup _ _ _ Hs). f_equal. apply list_eq. intros k.
    rewrite list_lookup_insert, length_imap, !list_lookup_imap.
    destruct (decide (t = k /\ (t < length s)%nat)) as [[<- _]|Hk].
    + destruct (lookup_lt_is_Some_2 s t Ht) as [x Hx]. rewrite Hx. simpl.
      rewrite decide_True by set_solver. by rewrite Hv.
    + destruct (s !! k) eqn:Ek; [|done]. simpl. f_equal. apply lookup_lt_Some in Ek.
      assert (t <> k) by lia. assert ((i, k) ∈ pre ++ [(i, t)] <-> (i, k) ∈ pre) as Hiff by set_solver.
      destruct (decide ((i, k) ∈ pre)), (decide ((i, k) ∈ pre ++ [(i, t)])); tauto.
  - destruct (segs !! j) as [s'|] eqn:Ej.
    + rewrite !(gather_state_lookup _ _ _ Ej). f_equal. apply imap_ext. intros k x Hk.
      assert (i <> j). { intros ->. apply Hne. split; [done|]. by eapply lookup_lt_Some. }
      assert ((j, k) ∈ pre ++ [(i, t)] <-> (j, k) ∈ pre) as Hiff by set_solver.
      destruct (decide ((j, k) ∈ pre)), (decide ((j, k) ∈ pre ++ [(i, t)])); tauto.
    + unfold gather_state. by rewrite !list_lookup_imap, Ej.
Qed.

(** The gather is exact.  For every batch, reorder mapping and order of
    the thread blocks (each of the grid once), the compact tensor holds, request
    after request, the first [num_draft_tokens] rows of the request's source row
    in the padded buffer, and every access is in range. *)
Lemma gather_hidden_ok order :
  order ≡ₚ list_prod (seq 0 (length segs)) (seq 0 K) -> concat segs <> [] ->
  gather_cuda src (cumsum ((fun l => Z.of_nat (length l)) <$> segs)) (py_len (concat segs)) (py_len segs)
    (Z.of_nat K) mapping (concat segs) order
  = Ok (concat (table gathered (length segs))).
Proof.
  intros Ho Hne. unfold gather_cuda.
  rewrite (proj2 (Z.eqb_neq _ 0)) by (unfold py_len; destruct (concat segs); simpl; done || lia).
  rewrite (proj2 (Z.eqb_neq _ 0)) by (unfold py_len; destruct segs; simpl; done || lia). simpl orb. cbv iota.
  destruct (foldM_inv (fun out '(r, t) => gather_hidden_kernel src (cumsum ((fun l => Z.of_nat (length l)) <$> segs))
      mapping out (Z.of_nat r) (Z.of_nat t)) (fun pre out => out = concat (gather_state pre)) order (concat segs))
    as (out & -> & ->).
  - f_equal. symmetry. apply imap_ident. intros i s _. by apply imap_ident.
  - intros pre [i t] post out E ->.
    assert (Hin : (i, t) ∈ order) by (rewrite E; set_solver).
    rewrite Ho in Hin. apply list_elem_of_In, in_prod_iff in Hin as [Hi Ht].
    apply in_seq in Hi, Ht. destruct (lookup_lt_is_Some_2 segs i) as [s Hs]; [lia|].
    destruct (decide (t < length s)%nat) as [Hlt|Hge].
    + destruct (gather_program (gather_state pre) i s _ t Hs (length_gather_state pre)
        (gather_state_shaped pre) (gather_state_lookup pre i s Hs) Hlt) as (v & Hv & ->).
      eexists. split; [done|]. by rewrite (gather_state_step pre i t s v).
    + rewrite (gather_kernel_eq _ _ _ _ Hs), (proj2 (Z.leb_le _ _)) by lia.
      eexists. split; [done|]. f_equal. apply imap_ext. intros j s' Hj. apply imap_ext. intros k x Hk.
      assert ((j, k) ∈ pre ++ [(i, t)] <-> (j, k) ∈ pre) as Hiff.
      { rewrite elem_of_app, list_elem_of_singleton. split; [|tauto]. intros [?|[= -> ->]]; [done|].
        simplify_eq. apply lookup_lt_Some in Hk. lia. }
      destruct (decide ((j, k) ∈ pre)), (decide ((j, k) ∈ pre ++ [(i, t)])); tauto.
  - f_equal. f_equal. apply list_eq. intros i.
    destruct (decide (i < length segs)%nat) as [Hi|Hi].
    + rewrite lookup_table by done. destruct (lookup_lt_is_Some_2 segs i Hi) as [s Hs].
      rewrite (gather_state_lookup _ _ _ Hs). f_equal. destruct (src_ok i s Hs) as (rs & Hrs & Hle).
      apply list_eq. intros t. rewrite list_lookup_imap.
      destruct (decide (t < length s)%nat) as [Ht|Ht].
      * destruct (lookup_lt_is_Some_2 s t Ht) as [x Hx]. rewrite Hx. simpl. rewrite decide_True.
        2:{ rewrite Ho. apply list_elem_of_In, in_prod; apply in_seq; [lia|].
            specialize (grid_ok s). assert (s ∈ segs) by by eapply list_elem_of_lookup_2. specialize (grid_ok H). lia. }
        unfold gathered. rewrite Hs, Hrs. simpl. rewrite lookup_take_lt by done.
        destruct (lookup_lt_is_Some_2 rs t) as [y ->]; [lia|done].
      * rewrite (proj2 (lookup_ge_None s t)) by lia. simpl. symmetry. apply lookup_ge_None.
        unfold gathered. rewrite Hs. simpl. rewrite length_take. lia.
    + rewrite !(proj2 (lookup_ge_None _ _)); [done|..]; rewrite ?length_table, ?length_gather_state; lia.
Qed.
End GatherFacts.

(** * Instances *)
Module SpecUtilsExamples.

Lemma next_token_kernel_correct_witness :
  launch (prepare_next_token_padded_kernel (concat [[4; 5; -1]; [7; -1; -1]]) (table (fun i => (i =? 1)%nat) 2)
    (table (fun _ => 9) 2) 10 3 2 3 4) [1; 0]%nat (table (fun _ => 0) 2, table (fun _ => 0) 2)
  = Ok ([5; 9], [2; 0]).
Proof.
  etrans; [apply (next_token_kernel_correct 10 [[4; 5; -1]; [7; -1; -1]] (fun i => (i =? 1)%nat) (fun _ => 9) 3 4)|].
  - by intros r [->|[->|[]%elem_of_nil]%elem_of_cons]%elem_of_cons.
  - lia.
  - apply Permutation_swap.
  - vm_compute. reflexivity.
Defined.

Lemma prepare_inputs_kernel_correct_witness :
  launch (prepare_inputs_padded_kernel (cumsum (table (fun _ => 2) 2)) (table (fun i => Z.of_nat i + 1) 2)
    (table (fun i => 3 * Z.of_nat i) 3) 2) [0; 1]%nat (table (fun _ => 0) 2, table (fun _ => 0) 2)
  = Ok ([0; 4], [2; 1]).
Proof.
  etrans; [apply (proj1 (prepare_inputs_kernel_correct (fun _ => 2) (fun i => Z.of_nat i + 1)
    (fun i => 3 * Z.of_nat i) 2 (fun _ => 0) (fun _ => 0) [0; 1]%nat ltac:(reflexivity)))|].
  vm_compute. reflexivity.
Defined.

(** Two requests with two query tokens each and blocks of four slots. *)
Definition demo_cad : CommonAttentionMetadata :=
  mkCAD [0; 2; 4] [0; 2; 4] [5; 7] 2 4 2 7 [[3; 1]; [2; 5]] [].

Lemma new_slot_mapping_correct_witness :
  exists slots, compute_new_slot_mapping demo_cad [3; 4; 6; 9] [false; false; true; false] 4 0 8 = Ok slots /\
    slots !! 1%nat = Some 4 /\ slots !! 3%nat = Some (-1).
Proof.
  destruct (new_slot_mapping_correct demo_cad 4 8 0 2 ltac:(lia) ltac:(done)
    ltac:(by intros r [->|[->|[]%elem_of_nil]%elem_of_cons]%elem_of_cons) ltac:(lia)
    [3; 4; 6; 9] [false; false; true; false]) as (slots & E & _ & H & _).
  - done.
  - done.
  - intros pos Hp. do 4 (apply elem_of_cons in Hp as [->|Hp]; [lia|]). by apply elem_of_nil in Hp.
  - exists slots. split; [exact E|]. split; [exact (H 1%nat 0%nat 4 false eq_refl eq_refl eq_refl)|].
    exact (H 3%nat 1%nat 9 false eq_refl eq_refl eq_refl).
Defined.

Lemma extend_queries_correct_witness :
  naive_query_lens (extend_all_queries_by_N demo_cad 3 (py_range 0 8) []) = [5; 5].
Proof. exact (proj1 (extend_queries_correct demo_cad 3 8 [] ltac:(vm_compute; discriminate) eq_refl)). Defined.

Example gather_reordered :
  gather_cuda [[[1]; [2]]; [[3]; [4]]] (cumsum [2; 1]) 3 2 2 (Some [1; 0]) [[0]; [0]; [0]] (list_prod (seq 0 2) (seq 0 2))
  = Ok [[3]; [4]; [1]].
Proof. vm_compute. reflexivity. Qed.
End SpecUtilsExamples.
