(* ===== verification/MassSelect.v ===== *)
(** The fused mass-selection kernel:
    [src/vllm/v1/spec_decode/sparse_attn/longspec/kernels/mass_select.py], the
    CUDA source and its launch.

    One thread block handles one row.  The block-wide sums, the shared-memory
    histograms, the bucket scans of thread 0 and the compaction are functions
    over explicit buffers; loops whose threads race on atomics take the order in
    which the elements are processed, and theorems quantify over every order.
    The float operations, the conversion of a metric value to [float] and the
    key mapping of the CUB library are the operations of a class. *)
From S2P Require Import Prelude Device.
Local Open Scope Z_scope.

Definition BitsPerPass : Z := 8.
Definition NumBuckets : Z := 256.
Definition BlockSize : Z := 1024.

(** The metric type [T] with its conversions, and [float]. *)
Class SelectOps (T : Type) := {
  M : Type;
  m0 : M;
  madd : M -> M -> M;
  msub : M -> M -> M;
  mmul : M -> M -> M;
  mge : M -> M -> bool;
  mone : M;
  (** [static_cast<int>(ceilf(a / b))] *)
  ceil_div : M -> M -> Z;
  to_float : T -> M;
  (** [~TwiddleIn(bits)] and [to_float(TwiddleOut(~bits))] *)
  twiddle : T -> Z;
  untwiddle : Z -> M;
  (** number of radix passes, [sizeof(T)] *)
  num_passes : nat;
}.

(** [a <= b] and [a > b] on floats without NaN. *)
Definition mle {T} {SO : SelectOps T} (a b : M) : bool := mge b a.
Definition mgt {T} {SO : SelectOps T} (a b : M) : bool := negb (mge b a).

Section Kernel.
Context {T : Type} {SO : SelectOps T}.

Definition key_bits : Z := 8 * Z.of_nat num_passes.

(** [start_bit_of]. *)
Definition start_bit_of (pass : Z) : Z :=
  let b := key_bits - (pass + 1) * BitsPerPass in if b <? 0 then 0 else b.

(** * Block-wide sums *)

(** [warp_sum] at lane 0: at each offset a lane adds the value [o] lanes up
    (its own when there is none). *)
Definition shfl_add (v : list M) (o : nat) : list M :=
  imap (fun i x => madd x (default x (v !! (i + o)%nat))) v.
Definition warp_sum (v : list M) : M :=
  default m0 (head (fold_left shfl_add [16; 8; 4; 2; 1]%nat v)).

(** The partial sum of thread [t] over its strided indices; [None] is an index
    the thread does not add. *)
Definition thread_sum (f : Z -> option M) (P t : Z) : M :=
  fold_left (fun acc k => match f (t + k * BlockSize) with Some v => madd acc v | None => acc end)
    (py_range 0 (cdiv (Z.max 0 (P - t)) BlockSize)) m0.

(** [block_sum]. *)
Definition block_sum (v : list M) : M :=
  warp_sum ((fun w => warp_sum (take 32 (drop (32 * w) v))) <$> seq 0 32).

(** * Shared state *)
Record State := mkState {
  kth_bits : Z;
  start_bit : Z;
  k_star : Z;
  k : Z;
  num_kth_needed : Z;
  count_before : Z;
  need : M;
  select_all : bool;
  done : bool;
  out_cnt : Z;
  out_back_cnt : Z;
}.

(** * Histogram *)
Definition matches (pass prev_start kth bits : Z) : bool :=
  negb ((0 <? pass) && negb (Z.shiftl (Z.shiftr bits prev_start) prev_start =? kth)).

Definition bucket_of (start bits : Z) : Z := Z.land (Z.shiftr bits start) (NumBuckets - 1).

Definition hist_step (row : list T) (pass kth : Z) (with_mass : bool)
    (s : list Z * list M) (i : Z) : result (list Z * list M) :=
  let '(cnt, mass) := s in
  value ← load row i;
  let bits := twiddle value in
  if negb (matches pass (start_bit_of (pass - 1)) kth bits) then Ok (cnt, mass) else
  let bucket := bucket_of (start_bit_of pass) bits in
  c ← load cnt bucket;
  cnt ← store cnt bucket (c + 1);
  mass ← (if with_mass then m ← load mass bucket; store mass bucket (madd m (to_float value))
          else Ok mass);
  Ok (cnt, mass).

(** [histogram], over the candidates in the order their atomics land. *)
Definition histogram (row : list T) (order : list Z) (st : State) (pass : Z) (with_mass : bool) :
    result (list Z * list M) :=
  foldM (hist_step row pass (kth_bits st) with_mass) order
    (replicate (Z.to_nat NumBuckets) 0, replicate (Z.to_nat NumBuckets) m0).

(** * Bucket scans *)

(** The bucket loop of [choose_by_mass], with its [break]. *)
Fixpoint scan_mass (nd : M) (b : Z) (l : list (Z * M)) (cum : M) (before : Z) : option Z * M * Z :=
  match l with
  | [] => (None, cum, before)
  | (c, ms) :: l =>
      if c =? 0 then scan_mass nd (b + 1) l cum before
      else if mge (madd cum ms) nd then (Some b, cum, before)
      else scan_mass nd (b + 1) l (madd cum ms) (before + c)
  end.

(** [choose_by_mass]. *)
Definition choose_by_mass (st : State) (cnt : list Z) (mass : list M) (pass : Z) : State :=
  let sb := start_bit_of pass in
  let '(chosen, cum, before) := scan_mass (need st) 0 (zip cnt mass) m0 0 in
  match chosen with
  | None =>
      if pass =? 0 then
        mkState (kth_bits st) (start_bit st) (k_star st) (k st) (num_kth_needed st) (count_before st)
          (need st) true true (out_cnt st) (out_back_cnt st)
      else
        let needed := fold_left Z.add cnt 0 in
        mkState (kth_bits st) (start_bit_of (pass - 1)) (count_before st + needed) (k st) needed
          (count_before st) (need st) (select_all st) true (out_cnt st) (out_back_cnt st)
  | Some chosen =>
      let kth := Z.lor (kth_bits st) (Z.shiftl chosen sb) in
      let cb := count_before st + before in
      let nd := msub (need st) cum in
      if pass =? Z.of_nat num_passes - 1 then
        let v := untwiddle kth in
        let ties := default 0 (cnt !! Z.to_nat chosen) in
        let j := if mgt v m0 then ceil_div nd v else ties in
        let j := if j <? 1 then 1 else if ties <? j then ties else j in
        mkState kth sb (cb + j) (k st) j cb nd (select_all st) true (out_cnt st) (out_back_cnt st)
      else
        mkState kth (start_bit st) (k_star st) (k st) (num_kth_needed st) cb nd (select_all st) (done st)
          (out_cnt st) (out_back_cnt st)
  end.

(** The bucket loop of [choose_by_count]: the bucket where the count crosses,
    with the count before it and the bucket's own. *)
Fixpoint scan_count (remaining b : Z) (l : list Z) (before : Z) : option (Z * Z * Z) :=
  match l with
  | [] => None
  | c :: l =>
      if (before <? remaining) && (remaining <=? before + c) then Some (b, before, c)
      else scan_count remaining (b + 1) l (before + c)
  end.

(** [choose_by_count]; returns the state and [remaining]. *)
Definition choose_by_count (st : State) (cnt : list Z) (pass remaining : Z) : State * Z :=
  let sb := start_bit_of pass in
  match scan_count remaining 0 cnt 0 with
  | None => (st, remaining)
  | Some (b, before, c) =>
      let needed := remaining - before in
      (mkState (Z.lor (kth_bits st) (Z.shiftl b sb)) sb (k_star st) (k st) needed (count_before st + before)
         (need st) (select_all st)
         ((c =? needed) || (pass =? Z.of_nat num_passes - 1) || done st) (out_cnt st) (out_back_cnt st),
       remaining - before)
  end.

(** * Compaction *)

(** One candidate: the output row and the two atomic counters. *)
Definition compact_step (row : list T) (kth sb kk needed : Z) (s : list Z * Z * Z) (i : Z) :
    result (list Z * Z * Z) :=
  let '(out, out_cnt, out_back_cnt) := s in
  value ← load row i;
  let bits := Z.shiftl (Z.shiftr (twiddle value) sb) sb in
  if bits <? kth then
    out ← store out out_cnt i; Ok (out, out_cnt + 1, out_back_cnt)
  else if bits =? kth then
    out ← (if out_back_cnt <? needed then store out (kk - 1 - out_back_cnt) i else Ok out);
    Ok (out, out_cnt, out_back_cnt + 1)
  else Ok (out, out_cnt, out_back_cnt).

(** [compact]. *)
Definition compact (row : list T) (order : list Z) (st : State) (out : list Z) : result (list Z) :=
  '(out, _, _) ← foldM (compact_step row (kth_bits st) (start_bit st) (k st) (num_kth_needed st)) order
                   (out, out_cnt st, out_back_cnt st);
  Ok out.

(** * The kernel *)

(** The orders in which the atomics of one row land. *)
Record schedule := mkSched {
  mass_order : nat -> list Z;
  count_order : nat -> list Z;
  compact_order : list Z;
}.

(** The pass loops; [n] passes are left. *)
Fixpoint mass_passes (row : list T) (sch : schedule) (n : nat) (pass : nat) (st : State) : result State :=
  match n with
  | O => Ok st
  | S n =>
      if done st then Ok st else
      '(cnt, mass) ← histogram row (mass_order sch pass) st (Z.of_nat pass) true;
      mass_passes row sch n (S pass) (choose_by_mass st cnt mass (Z.of_nat pass))
  end.

Fixpoint count_passes (row : list T) (sch : schedule) (n : nat) (pass : nat) (st : State)
    (remaining : Z) : result State :=
  match n with
  | O => Ok st
  | S n =>
      if done st then Ok st else
      '(cnt, _) ← histogram row (count_order sch pass) st (Z.of_nat pass) false;
      let '(st, remaining) := choose_by_count st cnt (Z.of_nat pass) remaining in
      count_passes row sch n (S pass) st remaining
  end.

(** The bounds of a row: reserved prefix and suffix, and the candidates. *)
Definition s_eff (P sink : Z) : Z := Z.min sink P.
Definition r_eff (P sink recent : Z) : Z := Z.min recent (P - s_eff P sink).

(** The state thread 0 writes before the passes. *)
Definition init_state (n_cand : Z) (theta total reserved : M) : State :=
  let nd := msub (mmul theta total) reserved in
  if (n_cand =? 0) || mle total m0 || mle nd m0
  then mkState 0 0 0 0 0 0 nd false true 0 0
  else if mge theta mone then mkState 0 0 0 0 0 0 nd true true 0 0
  else mkState 0 0 0 0 0 0 nd false false 0 0.

(** The clamp between the passes. *)
Definition clamp_state (st : State) (k_min k_max n_cand room : Z) : State :=
  let ks := if select_all st then n_cand else k_star st in
  let kk := Z.max ks k_min in
  let kk := Z.min kk k_max in
  let kk := Z.min kk n_cand in
  let kk := Z.min kk room in
  let kk := if kk <? 0 then 0 else kk in
  if kk =? ks
  then mkState (kth_bits st) (start_bit st) ks kk (num_kth_needed st) (count_before st) (need st)
         (select_all st) true (out_cnt st) (out_back_cnt st)
  else mkState 0 (start_bit st) ks kk 0 0 (need st) false false (out_cnt st) (out_back_cnt st).

(** [out[base + j] = v + j] for [j] in [0, n). *)
Definition write_range (out : list Z) (base v n : Z) : result (list Z) :=
  foldM (fun out j => store out (base + j) (v + j)) (py_range 0 n) out.

(** [SelectKernel] on one row: the output row and [used]. *)
Definition SelectKernel (row : list T) (sch : schedule) (P k_min k_max : Z) (out : list Z)
    (width : Z) (theta : M) (sink recent : Z) : result (list Z * Z) :=
  if P <=? 0 then Ok (out, 0) else
  let s := s_eff P sink in
  let r := r_eff P sink recent in
  let c0 := s in
  let c1 := P - r in
  let n_cand := c1 - c0 in
  let room := width - s - r in
  let value i := to_float <$> row !! Z.to_nat i in
  let total := block_sum (thread_sum value P <$> py_range 0 BlockSize) in
  let reserved := block_sum (thread_sum (fun i => if (i <? c0) || (c1 <=? i) then value i else None) P
                               <$> py_range 0 BlockSize) in
  let st := init_state n_cand theta total reserved in
  st ← mass_passes row sch num_passes 0 st;
  let st := clamp_state st k_min k_max n_cand room in
  st ← (if done st then Ok st else count_passes row sch num_passes 0 st (k st));
  out ← (if 0 <? k st then
           if select_all st && (k st =? n_cand) then write_range out 0 c0 n_cand
           else compact row (compact_order sch) st out
         else Ok out);
  out ← write_range out (k st) 0 s;
  out ← write_range out (k st + s) c1 r;
  Ok (out, k st + s + r).

(** One thread block: it reads its row of the arguments and writes its own row of
    the table and its own entry of [used]. *)
Definition select_block (metric : list (list T)) (sch : nat -> schedule) (valid_lens k_min k_max : list Z)
    (width : Z) (theta : M) (sink recent : Z) (s : list (list Z) * list Z) (row_id : Z) :
    result (list (list Z) * list Z) :=
  let '(table, used) := s in
  P ← load valid_lens row_id;
  kmin ← load k_min row_id;
  kmax ← load k_max row_id;
  row ← load metric row_id;
  out ← load table row_id;
  '(out, u) ← SelectKernel row (sch (Z.to_nat row_id)) P kmin kmax out width theta sink recent;
  table ← store table row_id out;
  used ← store used row_id u;
  Ok (table, used).

(** [launch_mass_select]: the row-count check and the launch of one block per
    row, the blocks running in the given order. *)
Definition launch_mass_select (metric : list (list T)) (sch : nat -> schedule) (order : list nat)
    (valid_lens k_min k_max : list Z) (table : list (list Z)) (used : list Z) (width : Z) (theta : M)
    (sink recent : Z) : result (list (list Z) * list Z) :=
  let rows := length metric in
  if negb ((length table =? rows) && (length used =? rows) && (length valid_lens =? rows)
           && (length k_min =? rows) && (length k_max =? rows))%nat then Err RuntimeError else
  launch (select_block metric sch valid_lens k_min k_max width theta sink recent) order (table, used).
End Kernel.

(** * Counting *)

Definition countb (P : Z -> bool) (l : list Z) : Z := sumZ (map (fun i => Z.b2z (P i)) l).

Lemma countb_app P l1 l2 : countb P (l1 ++ l2) = countb P l1 + countb P l2.
Proof. unfold countb. by rewrite map_app, sumZ_app. Qed.

Lemma countb_perm P l1 l2 : l1 ≡ₚ l2 -> countb P l1 = countb P l2.
Proof. unfold countb. induction 1; simpl; lia. Qed.

Lemma countb_nonneg P l : 0 <= countb P l.
Proof. unfold countb. induction l as [|x l IH]; simpl; [lia|]. destruct (P x); simpl; lia. Qed.

Lemma countb_le P l : countb P l <= Z.of_nat (length l).
Proof. unfold countb. induction l as [|x l IH]; simpl length; simpl; [lia|]. destruct (P x); simpl; lia. Qed.

Lemma countb_ext P Q l : (forall i, i ∈ l -> P i = Q i) -> countb P l = countb Q l.
Proof.
  unfold countb. induction l as [|x l IH]; intros H; [done|]. simpl.
  rewrite H by set_solver. rewrite IH; [done|]. set_solver.
Qed.

Lemma countb_add P Q R l :
  (forall i, i ∈ l -> Z.b2z (P i) + Z.b2z (Q i) = Z.b2z (R i)) -> countb P l + countb Q l = countb R l.
Proof.
  unfold countb. induction l as [|x l IH]; intros H; [done|]. simpl.
  specialize (H x ltac:(set_solver)) as Hx. rewrite <- Hx, <- IH; [lia|]. set_solver.
Qed.

Lemma countb_filter P l : countb P l = Z.of_nat (length (filter (fun i => P i = true) l)).
Proof.
  unfold countb. induction l as [|x l IH]; [done|]. simpl. rewrite filter_cons, IH.
  destruct (P x); case_decide; simpl; done || lia.
Qed.

Lemma countb_true P l : (forall i, i ∈ l -> P i = true) -> countb P l = Z.of_nat (length l).
Proof. intros H. rewrite countb_filter, filter_all; done. Qed.

Lemma countb_false l : countb (fun _ => false) l = 0.
Proof. unfold countb. induction l as [|x l IH]; [done|]. change (0 + sumZ (map (fun _ => 0) l) = 0). exact IH. Qed.

(** * Digits of a key *)

Definition lv (s x : Z) : Z := x / 2 ^ s.

Section Digits.
Lemma bucket_of_mod s x : 0 <= s -> bucket_of s x = lv s x mod 256.
Proof.
  intros. unfold bucket_of, NumBuckets, lv. rewrite Z.shiftr_div_pow2 by done.
  change (256 - 1) with (Z.ones 8). by rewrite Z.land_ones by lia.
Qed.

Lemma lv_step s x : 0 <= s -> lv (s + 8) x = lv s x / 256.
Proof.
  intros. unfold lv. rewrite Z.pow_add_r, Z.div_div by lia. done.
Qed.

Lemma prefix_eq s x q : 0 <= s -> (Z.shiftl (Z.shiftr x s) s =? q * 2 ^ s) = (lv s x =? q).
Proof.
  intros. rewrite Z.shiftl_mul_pow2, Z.shiftr_div_pow2 by done. fold (lv s x).
  pose proof (Z.pow_pos_nonneg 2 s ltac:(lia) ltac:(lia)).
  destruct (Z.eqb_spec (lv s x * 2 ^ s) (q * 2 ^ s)), (Z.eqb_spec (lv s x) q); try done; nia.
Qed.

Lemma prefix_lt s x q : 0 <= s -> (Z.shiftl (Z.shiftr x s) s <? q * 2 ^ s) = (lv s x <? q).
Proof.
  intros. rewrite Z.shiftl_mul_pow2, Z.shiftr_div_pow2 by done. fold (lv s x).
  pose proof (Z.pow_pos_nonneg 2 s ltac:(lia) ltac:(lia)).
  destruct (Z.ltb_spec (lv s x * 2 ^ s) (q * 2 ^ s)), (Z.ltb_spec (lv s x) q); try done; nia.
Qed.

(** Appending a digit to a resolved prefix. *)
Lemma append_digit s q b :
  0 <= s -> 0 <= b < 256 -> Z.lor (q * 2 ^ (s + 8)) (Z.shiftl b s) = (256 * q + b) * 2 ^ s.
Proof.
  intros Hs Hb. rewrite Z.shiftl_mul_pow2 by done. rewrite Z.pow_add_r by lia.
  assert (Z.land (q * (2 ^ s * 2 ^ 8)) (b * 2 ^ s) = 0) as Hl.
  { apply Z.bits_inj'. intros n Hn. rewrite Z.land_spec, Z.bits_0.
    rewrite <- Z.pow_add_r, !Z.mul_pow2_bits by lia.
    destruct (Z.ltb_spec n (s + 8)).
    - rewrite (Z.testbit_neg_r q) by lia. done.
    - rewrite (Z.bits_above_log2 b); [by rewrite andb_false_r|lia|].
      destruct (Z.eq_dec b 0) as [->|]; [simpl; lia|]. apply Z.log2_lt_pow2; [lia|].
      assert (2 ^ 8 <= 2 ^ (n - s)) by (apply Z.pow_le_mono_r; lia). lia. }
  rewrite <- Z.lxor_lor by done. rewrite <- Z.add_nocarry_lxor by done.
  change (2 ^ 8) with 256. lia.
Qed.

Lemma digit_eq s x q b :
  0 <= s -> 0 <= b < 256 ->
  (lv s x =? 256 * q + b) = (lv (s + 8) x =? q) && (bucket_of s x =? b).
Proof.
  intros Hs Hb. rewrite bucket_of_mod, lv_step by done. set (y := lv s x).
  pose proof (Z.div_mod y 256 ltac:(lia)). pose proof (Z.mod_pos_bound y 256 ltac:(lia)).
  destruct (Z.eqb_spec y (256 * q + b)), (Z.eqb_spec (y / 256) q), (Z.eqb_spec (y mod 256) b); simpl; try done; lia.
Qed.

Lemma digit_lt s x q b :
  0 <= s -> 0 <= b < 256 ->
  Z.b2z (lv s x <? 256 * q + b) =
  Z.b2z (lv (s + 8) x <? q) + Z.b2z ((lv (s + 8) x =? q) && (bucket_of s x <? b)).
Proof.
  intros Hs Hb. rewrite bucket_of_mod, lv_step by done. set (y := lv s x).
  pose proof (Z.div_mod y 256 ltac:(lia)). pose proof (Z.mod_pos_bound y 256 ltac:(lia)).
  destruct (Z.ltb_spec y (256 * q + b)), (Z.ltb_spec (y / 256) q), (Z.eqb_spec (y / 256) q),
    (Z.ltb_spec (y mod 256) b); simpl; try done; lia.
Qed.
End Digits.

(** * Writes at the end of a built prefix *)

Lemma store_middle {A} (l1 l2 : list A) x y : store (l1 ++ x :: l2) (py_len l1) y = Ok (l1 ++ y :: l2).
Proof.
  unfold py_len. rewrite store_ok by (unfold py_len; rewrite length_app; simpl; lia).
  rewrite Nat2Z.id, insert_app_r_alt, Nat.sub_diag by lia. done.
Qed.

Lemma write_range_spec out base v n :
  0 <= base -> 0 <= n -> base + n <= py_len out ->
  write_range out base v n = Ok (take (Z.to_nat base) out ++ seqZ v n ++ drop (Z.to_nat (base + n)) out).
Proof.
  intros Hb Hn Hl. unfold write_range.
  destruct (foldM_inv (fun out j => store out (base + j) (v + j))
    (fun pre s => s = take (Z.to_nat base) out ++ seqZ v (py_len pre) ++ drop (Z.to_nat (base + py_len pre)) out)
    (py_range 0 n) out) as (s & -> & ->).
  - unfold py_len. simpl. rewrite Z.add_0_r. by rewrite take_drop.
  - intros pre j post s El ->.
    assert (Hj : j = py_len pre /\ py_len pre < n).
    { assert (py_range 0 n !! length pre = Some j) as Hl' by (rewrite El; by apply list_lookup_middle).
      unfold py_range in Hl'. apply lookup_seqZ in Hl'. unfold py_len. lia. }
    destruct Hj as [-> Hlt]. set (m := py_len pre) in *. assert (0 <= m) by (unfold m, py_len; lia).
    destruct (lookup_lt_is_Some_2 out (Z.to_nat (base + m))) as [x Hx]; [unfold py_len in Hl; lia|].
    rewrite (drop_S _ _ _ Hx), app_assoc.
    assert (E : base + m = py_len (take (Z.to_nat base) out ++ seqZ v m)).
    { unfold py_len in *. rewrite length_app, length_take, length_seqZ. lia. }
    eexists. split; [etrans; [|apply store_middle]; by rewrite <- E|].
    assert (Hm' : py_len (pre ++ [m]) = m + 1) by (unfold m, py_len; rewrite length_app; simpl; lia).
    rewrite Hm', seqZ_app by lia. replace (v + m) with (v + m + 0) by lia. rewrite <- !app_assoc. do 3 f_equal.
    f_equal. lia.
  - replace (py_len (py_range 0 n)) with n; [done|]. unfold py_range, py_len. rewrite length_seqZ. lia.
Qed.

(** * One row *)
Section Row.
Context {T : Type} {SO : SelectOps T}.
Variables (row : list T) (c0 c1 : Z).
Hypothesis passes_pos : (0 < num_passes)%nat.
Hypothesis range_ok : 0 <= c0 <= c1 /\ c1 <= py_len row.
(** Keys have [key_bits] bits. *)
Hypothesis twiddle_range : forall v, 0 <= twiddle v < 2 ^ key_bits.

Definition cands : list Z := seqZ c0 (c1 - c0).
Definition key (i : Z) : Z := match row !! Z.to_nat i with Some v => twiddle v | None => 0 end.

Lemma elem_of_cands i : i ∈ cands <-> c0 <= i < c1.
Proof. unfold cands. rewrite elem_of_seqZ. lia. Qed.

Lemma length_cands : Z.of_nat (length cands) = c1 - c0.
Proof. unfold cands. rewrite length_seqZ. lia. Qed.

Lemma load_cand i : i ∈ cands -> exists v, load row i = Ok v /\ twiddle v = key i /\ row !! Z.to_nat i = Some v.
Proof.
  intros Hi%elem_of_cands. destruct (load_ok row i) as (v & E & Hv); [lia|]. exists v.
  unfold key. by rewrite Hv.
Qed.

Lemma key_range i : 0 <= key i < 2 ^ key_bits.
Proof.
  unfold key. destruct (row !! Z.to_nat i); [apply twiddle_range|].
  assert (0 < 2 ^ key_bits) by (apply Z.pow_pos_nonneg; unfold key_bits; lia). lia.
Qed.

(** ** Positions of the passes *)
Lemma start_bit_nonneg p : 0 <= start_bit_of p.
Proof. unfold start_bit_of. destruct (_ <? 0) eqn:E; [lia|]. apply Z.ltb_ge in E. lia. Qed.

Lemma start_bit_step p : (p < num_passes)%nat -> start_bit_of (Z.of_nat p - 1) = start_bit_of (Z.of_nat p) + 8.
Proof.
  intros Hp. unfold start_bit_of, key_bits, BitsPerPass.
  rewrite !(proj2 (Z.ltb_ge _ 0)) by lia. lia.
Qed.

Lemma start_bit_last : start_bit_of (Z.of_nat num_passes - 1) = 0.
Proof. unfold start_bit_of, key_bits, BitsPerPass. rewrite (proj2 (Z.ltb_ge _ 0)) by lia. lia. Qed.

Lemma lv_top i : lv (start_bit_of (0 - 1)) (key i) = 0.
Proof.
  unfold start_bit_of, lv, BitsPerPass. replace (key_bits - (0 - 1 + 1) * 8) with key_bits by lia.
  rewrite (proj2 (Z.ltb_ge _ 0)) by (unfold key_bits; lia). apply Z.div_small, key_range.
Qed.

(** The prefix resolved so far, as a number of the digits read. *)
Definition prefix_ok (p : nat) (kth q : Z) : Prop :=
  kth = q * 2 ^ start_bit_of (Z.of_nat p - 1) /\ 0 <= q /\ (p = 0%nat -> q = 0).

Lemma matches_prefix p kth q i :
  prefix_ok p kth q ->
  matches (Z.of_nat p) (start_bit_of (Z.of_nat p - 1)) kth (key i) = (lv (start_bit_of (Z.of_nat p - 1)) (key i) =? q).
Proof.
  intros (-> & Hq & H0). unfold matches. destruct p as [|p].
  - rewrite H0 by done. simpl. by rewrite lv_top.
  - rewrite (proj2 (Z.ltb_lt 0 _)) by lia. rewrite prefix_eq by apply start_bit_nonneg.
    simpl. by rewrite negb_involutive.
Qed.

(** ** Histograms *)

(** Membership of a candidate in bucket [b] under the prefix. *)
Definition in_bucket (p : nat) (q b i : Z) : bool :=
  (lv (start_bit_of (Z.of_nat p - 1)) (key i) =? q) && (bucket_of (start_bit_of (Z.of_nat p)) (key i) =? b).

Definition bucket_counts (p : nat) (q : Z) (l : list Z) : list Z :=
  table (fun b => countb (in_bucket p q (Z.of_nat b)) l) 256.

Lemma bucket_range p i : 0 <= bucket_of (start_bit_of p) (key i) < 256.
Proof. rewrite bucket_of_mod by apply start_bit_nonneg. apply Z.mod_pos_bound. lia. Qed.

Lemma histogram_counts p q st order wm :
  prefix_ok p (kth_bits st) q -> order ≡ₚ cands ->
  exists mass, histogram row order st (Z.of_nat p) wm = Ok (bucket_counts p q cands, mass) /\ length mass = 256%nat.
Proof.
  intros Hpre Ho. unfold histogram.
  destruct (foldM_inv (hist_step row (Z.of_nat p) (kth_bits st) wm)
    (fun pre s => fst s = bucket_counts p q pre /\ length (snd s) = 256%nat) order
    (replicate (Z.to_nat NumBuckets) 0, replicate (Z.to_nat NumBuckets) m0)) as ([cnt mass] & E & Hc & Hm).
  - split; [|done]. simpl fst. unfold bucket_counts, countb. simpl. unfold table. done.
  - intros pre i post [cnt mass] El [Hc Hm]. simpl in Hc, Hm. subst cnt.
    assert (Hi : i ∈ cands) by (rewrite <- Ho, El; set_solver).
    destruct (load_cand i Hi) as (v & Ev & Ek & _). unfold hist_step. rewrite Ev. cbn [mbind result_bind].
    rewrite Ek, (matches_prefix p _ q) by done.
    assert (Hcount : forall b, countb (in_bucket p q b) (pre ++ [i]) = countb (in_bucket p q b) pre + Z.b2z (in_bucket p q b i)).
    { intros b. rewrite countb_app. unfold countb at 2. simpl. lia. }
    destruct (lv (start_bit_of (Z.of_nat p - 1)) (key i) =? q) eqn:Em; simpl negb; cbv iota.
    + cbv zeta. set (b := bucket_of (start_bit_of (Z.of_nat p)) (key i)).
      pose proof (bucket_range (Z.of_nat p) i) as Hb. fold b in Hb.
      replace b with (Z.of_nat (Z.to_nat b)) by lia. unfold bucket_counts.
      rewrite load_table by lia. cbn [mbind result_bind]. rewrite store_table by lia.
      cbn [mbind result_bind].
      assert (exists mass', (if wm then m ← load mass (Z.of_nat (Z.to_nat b));
         store mass (Z.of_nat (Z.to_nat b)) (madd m (to_float v)) else Ok mass) = Ok mass' /\ length mass' = 256%nat)
        as (mass' & -> & Hm').
      { destruct wm; [|by eauto]. destruct (load_ok mass (Z.of_nat (Z.to_nat b))) as (x & -> & _).
        - unfold py_len. rewrite Hm. lia.
        - cbn [mbind result_bind]. rewrite store_ok by (unfold py_len; rewrite Hm; lia).
          eexists. split; [done|]. by rewrite length_insert. }
      cbn [mbind result_bind]. eexists. split; [done|]. split; [|done]. simpl fst. apply table_ext.
      intros j Hj. rewrite Hcount. unfold in_bucket at 4. rewrite Em. fold b. simpl andb.
      case_decide as Hjb.
      * subst j. rewrite Z2Nat.id by lia. rewrite Z.eqb_refl. done.
      * rewrite (proj2 (Z.eqb_neq b (Z.of_nat j))) by lia. simpl. lia.
    + eexists. split; [done|]. split; [|done]. simpl fst. apply table_ext. intros j Hj. rewrite Hcount.
      unfold in_bucket at 3. rewrite Em. simpl. lia.
  - exists mass. rewrite E. simpl in Hc, Hm. subst cnt. split; [|done]. do 2 f_equal. apply table_ext.
    intros b _. by apply countb_perm.
Qed.

(** The candidates in the first [b] buckets. *)
Lemma sum_buckets p q (b : nat) :
  (b <= 256)%nat ->
  sumZ (take b (bucket_counts p q cands)) =
  countb (fun i => (lv (start_bit_of (Z.of_nat p - 1)) (key i) =? q) &&
                   (bucket_of (start_bit_of (Z.of_nat p)) (key i) <? Z.of_nat b)) cands.
Proof.
  intros Hb. induction b as [|b IH].
  - symmetry. rewrite take_0. simpl. transitivity (countb (fun _ => false) cands).
    + apply countb_ext. intros i _. pose proof (bucket_range (Z.of_nat p) i).
      rewrite (proj2 (Z.ltb_ge _ _)) by lia. apply andb_false_r.
    + apply countb_false.
  - rewrite (take_S_r _ b (countb (in_bucket p q (Z.of_nat b)) cands)) by (unfold bucket_counts; by rewrite lookup_table by lia).
    rewrite sumZ_app, IH by lia. simpl. rewrite Z.add_0_r. apply countb_add. intros i _. unfold in_bucket.
    set (x := bucket_of _ _). destruct (_ =? q); simpl; [|done].
    destruct (Z.ltb_spec x (Z.of_nat b)), (Z.eqb_spec x (Z.of_nat b)), (Z.ltb_spec x (Z.of_nat (S b))); simpl; lia.
Qed.

Lemma sum_all_buckets p q :
  sumZ (bucket_counts p q cands) = countb (fun i => lv (start_bit_of (Z.of_nat p - 1)) (key i) =? q) cands.
Proof.
  rewrite <- (take_ge (bucket_counts p q cands) 256) by (unfold bucket_counts; by rewrite length_table).
  rewrite sum_buckets by lia. apply countb_ext. intros i _. pose proof (bucket_range (Z.of_nat p) i).
  rewrite (proj2 (Z.ltb_lt _ _)) by lia. apply andb_true_r.
Qed.

(** ** Bucket scans *)

Lemma scan_count_spec remaining b l before :
  (forall x, x ∈ l -> 0 <= x) -> before < remaining <= before + sumZ l ->
  exists j c, scan_count remaining b l before = Some (b + Z.of_nat j, before + sumZ (take j l), c) /\
    l !! j = Some c /\ before + sumZ (take j l) < remaining <= before + sumZ (take j l) + c.
Proof.
  revert b before; induction l as [|x l IH]; intros b before Hpos Hr; simpl in *; [lia|].
  rewrite (proj2 (Z.ltb_lt _ _)) by lia. simpl. destruct (Z.leb_spec remaining (before + x)).
  - exists 0%nat, x. simpl. rewrite !Z.add_0_r. split_and!; [done|done|lia..].
  - destruct (IH (b + 1) (before + x)) as (j & c & E & Hj & Hb); [set_solver|lia|].
    exists (S j), c. rewrite E. simpl. split_and!; [|done|lia..]. do 3 f_equal; lia.
Qed.

Lemma scan_mass_spec nd b (l : list (Z * M)) cum before :
  match scan_mass nd b l cum before with
  | (Some ch, _, bf) => exists j c ms, ch = b + Z.of_nat j /\ l !! j = Some (c, ms) /\ c <> 0 /\
                          bf = before + sumZ (take j (fst <$> l))
  | (None, _, _) => True
  end.
Proof.
  revert b cum before; induction l as [|[c ms] l IH]; intros b cum before; [done|]. simpl.
  assert (Hgo : forall cum bf, (c = 0 /\ bf = before) \/ (c <> 0 /\ bf = before + c) ->
    match scan_mass nd (b + 1) l cum bf with
    | (Some ch, _, bf) => exists j c9 ms0, ch = b + Z.of_nat j /\ ((c, ms) :: l) !! j = Some (c9, ms0) /\ c9 <> 0 /\
                          bf = before + sumZ (take j (c :: (fst <$> l)))
    | (None, _, _) => True end).
  { intros cum' bf' Hbf. specialize (IH (b + 1) cum' bf').
    destruct (scan_mass nd (b + 1) l cum' bf') as [[[ch|] ?] bf]; [|done].
    destruct IH as (j & c9 & ms0 & -> & Hj & Hc & ->). exists (S j), c9, ms0. simpl. split_and!; [lia|done|done|lia]. }
  destruct (Z.eqb_spec c 0) as [->|Hc]; [apply Hgo; auto|].
  destruct (mge _ _).
  - exists 0%nat, c, ms. simpl. split_and!; [lia|done|done|lia].
  - apply Hgo. auto.
Qed.

(** ** The resolved threshold *)

(** The threshold prefix [kth] at resolution [sb] selects exactly [kk]: all the
    candidates whose prefix is smaller and [needed] of those with that prefix,
    all of them unless the prefix is the whole key. *)
Definition resolved (kth sb kk needed : Z) : Prop :=
  exists q, kth = q * 2 ^ sb /\ 0 <= sb /\ 0 <= needed <= countb (fun i => lv sb (key i) =? q) cands /\
    countb (fun i => lv sb (key i) <? q) cands + needed = kk /\
    (sb = 0 \/ needed = countb (fun i => lv sb (key i) =? q) cands).

Lemma resolved_bound kth sb kk needed : resolved kth sb kk needed -> 0 <= kk <= c1 - c0.
Proof.
  intros (q & _ & _ & Hn & <- & _). pose proof (countb_nonneg (fun i => lv sb (key i) <? q) cands).
  assert (countb (fun i => lv sb (key i) <? q) cands + countb (fun i => lv sb (key i) =? q) cands
    = countb (fun i => lv sb (key i) <=? q) cands) as Hadd.
  { apply countb_add. intros i _.
    destruct (Z.ltb_spec (lv sb (key i)) q), (Z.eqb_spec (lv sb (key i)) q), (Z.leb_spec (lv sb (key i)) q); simpl; lia. }
  pose proof (countb_le (fun i => lv sb (key i) <=? q) cands). rewrite length_cands in *. lia.
Qed.

(** Before the first pass every candidate is under the empty prefix. *)
Lemma top_prefix :
  prefix_ok 0 0 0 /\ 0 = countb (fun i => lv (start_bit_of (Z.of_nat 0 - 1)) (key i) <? 0) cands /\
  countb (fun i => lv (start_bit_of (Z.of_nat 0 - 1)) (key i) =? 0) cands = c1 - c0.
Proof.
  change (Z.of_nat 0 - 1) with (0 - 1). split_and!.
  - split; [done|]. split; [lia|done].
  - rewrite (countb_ext _ (fun _ => false)); [by rewrite countb_false|]. intros i _. by rewrite lv_top.
  - rewrite countb_true; [apply length_cands|]. intros i _. by rewrite lv_top.
Qed.

(** Reading one more digit. *)
Lemma extend_prefix p kth q b :
  (p < num_passes)%nat -> prefix_ok p kth q -> 0 <= b < 256 ->
  let sb := start_bit_of (Z.of_nat p) in
  Z.lor kth (Z.shiftl b sb) = (256 * q + b) * 2 ^ sb /\
  countb (fun i => lv sb (key i) =? 256 * q + b) cands = countb (in_bucket p q b) cands /\
  countb (fun i => lv sb (key i) <? 256 * q + b) cands =
    countb (fun i => lv (start_bit_of (Z.of_nat p - 1)) (key i) <? q) cands
    + sumZ (take (Z.to_nat b) (bucket_counts p q cands)).
Proof.
  intros Hp (-> & Hq & _) Hb sb. pose proof (start_bit_nonneg (Z.of_nat p)) as Hs. fold sb in Hs.
  assert (Hstep : start_bit_of (Z.of_nat p - 1) = sb + 8) by by apply start_bit_step.
  split_and!.
  - rewrite Hstep. by apply append_digit.
  - apply countb_ext. intros i _. unfold in_bucket. fold sb. rewrite Hstep. by apply digit_eq.
  - rewrite sum_buckets by lia. fold sb. rewrite Hstep. symmetry. apply countb_add. intros i _.
    rewrite Z2Nat.id by lia. symmetry. by apply digit_lt.
Qed.

Lemma prefix_next p kth q b :
  (p < num_passes)%nat -> prefix_ok p kth q -> 0 <= b < 256 ->
  prefix_ok (S p) (Z.lor kth (Z.shiftl b (start_bit_of (Z.of_nat p)))) (256 * q + b).
Proof.
  intros Hp Hpre Hb. destruct (extend_prefix p kth q b Hp Hpre Hb) as (-> & _).
  unfold prefix_ok. replace (Z.of_nat (S p) - 1) with (Z.of_nat p) by lia. destruct Hpre as (_ & ? & _).
  split_and!; [done|lia|done].
Qed.

Lemma lookup_bucket_counts p q j c :
  bucket_counts p q cands !! j = Some c -> (j < 256)%nat /\ c = countb (in_bucket p q (Z.of_nat j)) cands.
Proof.
  intros Hj. assert (Hl : (j < 256)%nat).
  { apply lookup_lt_Some in Hj. unfold bucket_counts in Hj. by rewrite length_table in Hj. }
  split; [done|]. unfold bucket_counts in Hj. rewrite lookup_table in Hj by done. congruence.
Qed.

(** ** The count passes *)

(** A histogram pass runs whatever the prefix; counts are non-negative. *)
Lemma histogram_runs p st order wm :
  order ≡ₚ cands -> exists cnt mass, histogram row order st p wm = Ok (cnt, mass) /\ Forall (Z.le 0) cnt.
Proof.
  intros Ho. unfold histogram.
  destruct (foldM_inv (hist_step row p (kth_bits st) wm)
    (fun _ s => (length (fst s) = 256%nat /\ length (snd s) = 256%nat) /\ Forall (Z.le 0) (fst s)) order
    (replicate (Z.to_nat NumBuckets) 0, replicate (Z.to_nat NumBuckets) m0)) as ([cnt mass] & E & _ & Hc).
  - split; [done|]. apply Forall_replicate. lia.
  - intros pre i post [cnt mass] El [[Hc Hm] Hf]. simpl in Hc, Hm, Hf.
    assert (Hi : i ∈ cands) by (rewrite <- Ho, El; set_solver).
    destruct (load_cand i Hi) as (v & Ev & Ek & _). unfold hist_step. rewrite Ev. cbn [mbind result_bind].
    rewrite Ek. destruct (negb _); [by eauto|]. cbv zeta. pose proof (bucket_range p i) as Hb.
    destruct (load_ok cnt (bucket_of (start_bit_of p) (key i))) as (c & -> & Hlc); [unfold py_len; lia|].
    cbn [mbind result_bind]. rewrite store_ok by (unfold py_len; lia). cbn [mbind result_bind].
    assert (0 <= c) by (eapply Forall_lookup_1 in Hf; eauto).
    assert (Hf' : Forall (Z.le 0) (<[Z.to_nat (bucket_of (start_bit_of p) (key i)):=c + 1]> cnt)).
    { apply Forall_insert; [done|lia]. }
    destruct wm; cbn [mbind result_bind].
    + destruct (load_ok mass (bucket_of (start_bit_of p) (key i))) as (x & -> & _); [unfold py_len; lia|].
      cbn [mbind result_bind]. rewrite store_ok by (unfold py_len; lia). cbn [mbind result_bind].
      eexists. split; [done|]. simpl. by rewrite !length_insert.
    + eexists. split; [done|]. simpl. by rewrite !length_insert.
  - eauto.
Qed.

Lemma scan_count_zero b l bf : Forall (Z.le 0) l -> 0 <= bf -> scan_count 0 b l bf = None.
Proof.
  intros Hl. revert b bf. induction Hl as [|x l Hx Hl IH]; intros b bf Hbf; [done|]. simpl.
  rewrite (proj2 (Z.ltb_ge bf 0)) by lia. simpl. apply IH. lia.
Qed.

(** With nothing to select the passes leave the state alone. *)
Lemma count_passes_zero sch n p st :
  (forall p, count_order sch p ≡ₚ cands) -> count_passes row sch n p st 0 = Ok st.
Proof.
  intros Ho. revert p. induction n as [|n IH]; intros p; [done|]. simpl. destruct (done st); [done|].
  destruct (histogram_runs (Z.of_nat p) st (count_order sch p) false (Ho p)) as (cnt & mass & -> & Hc).
  cbn [mbind result_bind]. unfold choose_by_count. rewrite scan_count_zero by (done || lia). apply IH.
Qed.

Lemma count_passes_spec sch n p st remaining q :
  (n + p = num_passes)%nat -> (0 < n)%nat -> (forall p, count_order sch p ≡ₚ cands) ->
  done st = false -> prefix_ok p (kth_bits st) q ->
  count_before st = countb (fun i => lv (start_bit_of (Z.of_nat p - 1)) (key i) <? q) cands ->
  remaining = k st - count_before st ->
  0 < remaining <= countb (fun i => lv (start_bit_of (Z.of_nat p - 1)) (key i) =? q) cands ->
  exists st', count_passes row sch n p st remaining = Ok st' /\ k st' = k st /\ select_all st' = select_all st /\
    out_cnt st' = out_cnt st /\ out_back_cnt st' = out_back_cnt st /\
    resolved (kth_bits st') (start_bit st') (k st') (num_kth_needed st').
Proof.
  revert p st remaining q. induction n as [|n IH]; intros p st remaining q Hnp Hn Ho Hd Hpre Hcb Hrem Hpos; [lia|].
  simpl. rewrite Hd. destruct (histogram_counts p q st (count_order sch p) false Hpre (Ho p)) as (mass & -> & _).
  cbn [mbind result_bind]. unfold choose_by_count. rewrite <- sum_all_buckets in Hpos.
  destruct (scan_count_spec remaining 0 (bucket_counts p q cands) 0) as (j & c & -> & Hj & Hb).
  { intros x (b & -> & _)%list_elem_of_fmap. apply countb_nonneg. }
  { lia. }
  apply lookup_bucket_counts in Hj as [Hj Hc]. rewrite !Z.add_0_l in *.
  assert (Hp : (p < num_passes)%nat) by lia.
  destruct (extend_prefix p (kth_bits st) q (Z.of_nat j) Hp Hpre) as (Ekth & Eeq & Elt); [lia|].
  rewrite Nat2Z.id in Elt. rewrite <- Hcb in Elt. rewrite <- Hc in Eeq.
  pose proof (prefix_next p (kth_bits st) q (Z.of_nat j) Hp Hpre ltac:(lia)) as Hpre'.
  cbv zeta. set (before := sumZ (take j (bucket_counts p q cands))) in *.
  set (st1 := mkState _ _ _ _ _ _ _ _ _ _ _).
  destruct ((c =? remaining - before) || (Z.of_nat p =? Z.of_nat num_passes - 1) || done st) eqn:Ed.
  - assert (Hst' : count_passes row sch n (S p) st1 (remaining - before) = Ok st1) by (destruct n; [done|]; cbn [count_passes]; done).
    rewrite Hst'. exists st1. split_and!; try done.
    exists (256 * q + Z.of_nat j). unfold st1. simpl. rewrite Eeq, Elt.
    split_and!; [exact Ekth|apply start_bit_nonneg|lia|lia|lia|].
    rewrite Hd, orb_false_r in Ed. apply orb_true_iff in Ed as [Ed%Z.eqb_eq|Ed%Z.eqb_eq]; [right; lia|].
    left. rewrite Ed. apply start_bit_last.
  - assert (Hlast : Z.of_nat p <> Z.of_nat num_passes - 1).
    { rewrite !orb_false_iff in Ed. destruct Ed as [[_ Ed%Z.eqb_neq] _]. lia. }
    apply (IH (S p) st1 (remaining - before) (256 * q + Z.of_nat j)); try done; try lia;
      replace (Z.of_nat (S p) - 1) with (Z.of_nat p) by lia; simpl; rewrite ?Elt, ?Eeq; lia.
Qed.

(** ** The mass passes *)

(** The invariant between two passes, before pass [p]. *)
Definition mass_inv (p : nat) (q : Z) (st : State) : Prop :=
  done st = false /\ select_all st = false /\ prefix_ok p (kth_bits st) q /\
  count_before st = countb (fun i => lv (start_bit_of (Z.of_nat p - 1)) (key i) <? q) cands.

(** What the passes leave: everything, or a resolved threshold. *)
Definition mass_done (st : State) : Prop :=
  done st = true /\
  (select_all st = false -> resolved (kth_bits st) (start_bit st) (k_star st) (num_kth_needed st)).

Lemma choose_by_mass_spec p q st mass :
  (p < num_passes)%nat -> mass_inv p q st -> length mass = 256%nat ->
  let st' := choose_by_mass st (bucket_counts p q cands) mass (Z.of_nat p) in
  out_cnt st' = out_cnt st /\ out_back_cnt st' = out_back_cnt st /\
  (mass_done st' \/ ((S p < num_passes)%nat /\ exists q', mass_inv (S p) q' st')).
Proof.
  intros Hp (Hd & Ha & Hpre & Hcb) Hm. unfold choose_by_mass. set (cnt := bucket_counts p q cands).
  assert (Hlen : length cnt = 256%nat) by apply length_table.
  pose proof (scan_mass_spec (need st) 0 (zip cnt mass) m0 0) as Hscan.
  destruct (scan_mass _ _ _ _ _) as [[[ch|] cum] bf]; cbv zeta.
  - destruct Hscan as (j & c & ms & -> & Hj & Hc & ->). rewrite !Z.add_0_l.
    rewrite fst_zip by (rewrite Hlen, Hm; lia).
    apply lookup_zip_Some in Hj as [Hj _]. rewrite Nat2Z.id, Hj. cbn [default from_option id].
    apply lookup_bucket_counts in Hj as [Hj Ec].
    destruct (extend_prefix p (kth_bits st) q (Z.of_nat j) Hp Hpre) as (Ekth & Eeq & Elt); [lia|].
    rewrite Nat2Z.id, <- Hcb in Elt. fold cnt in Elt. rewrite <- Ec in Eeq.
    pose proof (countb_nonneg (in_bucket p q (Z.of_nat j)) cands).
    destruct (Z.eqb_spec (Z.of_nat p) (Z.of_nat num_passes - 1)) as [Hlast|Hlast].
    + split_and!; [done..|]. left. split; [done|]. intros _. simpl.
      exists (256 * q + Z.of_nat j). rewrite Eeq, Elt.
      assert (Hsb : start_bit_of (Z.of_nat p) = 0) by (rewrite Hlast; apply start_bit_last).
      set (j0 := if mgt _ _ then _ else _).
      split_and!; [exact Ekth|lia| | | |by left];
        destruct (Z.ltb_spec j0 1), (Z.ltb_spec c j0); lia.
    + split_and!; [done..|]. right. split; [lia|]. exists (256 * q + Z.of_nat j).
      split_and!; [done|done|apply prefix_next; done || lia|]. simpl count_before.
      replace (Z.of_nat (S p) - 1) with (Z.of_nat p) by lia. lia.
  - destruct (Z.eqb_spec (Z.of_nat p) 0); [split_and!; [done..|]; left; split; [done|]; intros [=]|].
    split_and!; [done..|]. left. split; [done|]. intros _. cbn [kth_bits start_bit k_star num_kth_needed]. rewrite fold_left_add, Z.add_0_l.
    unfold cnt. rewrite sum_all_buckets. exists q. destruct Hpre as (-> & Hq & _).
    pose proof (countb_nonneg (fun i => lv (start_bit_of (Z.of_nat p - 1)) (key i) =? q) cands).
    split_and!; [done|apply start_bit_nonneg|lia|lia|lia|by right].
Qed.

Lemma mass_passes_spec sch n p st q :
  (n + p = num_passes)%nat -> (0 < n)%nat -> (forall p, mass_order sch p ≡ₚ cands) -> mass_inv p q st ->
  exists st', mass_passes row sch n p st = Ok st' /\ mass_done st' /\
    out_cnt st' = out_cnt st /\ out_back_cnt st' = out_back_cnt st.
Proof.
  revert p st q. induction n as [|n IH]; intros p st q Hnp Hn Ho Hi; [lia|]. simpl.
  pose proof Hi as (Hd & _ & Hpre & _). rewrite Hd.
  destruct (histogram_counts p q st (mass_order sch p) true Hpre (Ho p)) as (mass & -> & Hm).
  cbn [mbind result_bind].
  destruct (choose_by_mass_spec p q st mass ltac:(lia) Hi Hm) as (E1 & E2 & [Hdone|(Hp & q' & Hi')]).
  - set (st' := choose_by_mass _ _ _ _) in *. exists st'. split_and!; [|done..].
    destruct n; [done|]. simpl. destruct Hdone as [-> _]. done.
  - destruct (IH (S p) _ q' ltac:(lia) ltac:(lia) Ho Hi') as (st' & -> & Hdone & E3 & E4).
    exists st'. split_and!; [done|done|congruence..].
Qed.

(** ** Compaction *)

(** The two groups of a selection at threshold [q]. *)
Definition below (sb q : Z) (l : list Z) : list Z := filter (fun i => lv sb (key i) < q) l.
Definition ties (sb q : Z) (l : list Z) : list Z := filter (fun i => lv sb (key i) = q) l.

Lemma length_below sb q l : countb (fun i => lv sb (key i) <? q) l = Z.of_nat (length (below sb q l)).
Proof. rewrite countb_filter. do 2 f_equal. apply list_filter_iff. intros i. apply Z.ltb_lt. Qed.

Lemma length_ties sb q l : countb (fun i => lv sb (key i) =? q) l = Z.of_nat (length (ties sb q l)).
Proof. rewrite countb_filter. do 2 f_equal. apply list_filter_iff. intros i. apply Z.eqb_eq. Qed.

(** The output row while [l] has been processed: the smaller ones in front, the
    taken ties in reverse order before position [kk], old entries elsewhere. *)
Definition compacted (sb q kk nd : Z) (out l : list Z) (s : list Z * Z * Z) : Prop :=
  exists mid, s = (below sb q l ++ mid ++ reverse (take (Z.to_nat nd) (ties sb q l)) ++ drop (Z.to_nat kk) out,
                   py_len (below sb q l), py_len (ties sb q l)) /\
    py_len mid = kk - py_len (below sb q l) - py_len (take (Z.to_nat nd) (ties sb q l)).

Lemma compact_step_spec sb q kk nd out pre i s :
  0 <= sb -> 0 <= nd -> i ∈ cands -> py_len (below sb q (pre ++ [i])) + nd <= kk -> kk <= py_len out ->
  compacted sb q kk nd out pre s ->
  exists s', compact_step row (q * 2 ^ sb) sb kk nd s i = Ok s' /\ compacted sb q kk nd out (pre ++ [i]) s'.
Proof.
  intros Hsb Hnd Hi Hroom Hout (mid & -> & Hmid). unfold compact_step, compacted.
  destruct (load_cand i Hi) as (v & -> & Ek & _). cbn [mbind result_bind].
  rewrite Ek, prefix_lt, prefix_eq by done.
  assert (Hb : below sb q (pre ++ [i]) = below sb q pre ++ (if decide (lv sb (key i) < q) then [i] else [])).
  { unfold below. by rewrite filter_app. }
  assert (Ht : ties sb q (pre ++ [i]) = ties sb q pre ++ (if decide (lv sb (key i) = q) then [i] else [])).
  { unfold ties. by rewrite filter_app. }
  rewrite Hb in Hroom |- *. rewrite Ht. clear Hb Ht.
  set (low := below sb q pre) in *. set (tie := ties sb q pre) in *. unfold py_len in *.
  rewrite length_app in Hroom. rewrite length_take in Hmid.
  destruct (Z.ltb_spec (lv sb (key i)) q) as [Hlt|Hge].
  - rewrite !(decide_True (P := lv sb (key i) < q)) in * by done. rewrite decide_False, app_nil_r by lia. simpl length in Hroom.
    destruct mid as [|x mid]; [simpl length in Hmid; lia|]. rewrite <- app_comm_cons. fold (py_len low).
    rewrite store_middle. cbn [mbind result_bind]. eexists. split; [done|]. exists mid. split.
    + rewrite <- app_assoc. simpl. do 2 f_equal. unfold py_len. rewrite length_app. simpl. lia.
    + rewrite length_app, length_take. simpl length in *. lia.
  - rewrite !(decide_False (P := lv sb (key i) < q)), !app_nil_r in * by lia. simpl length in Hroom.
    destruct (Z.eqb_spec (lv sb (key i)) q) as [Heq|Hne].
    + rewrite decide_True by done. destruct (Z.ltb_spec (Z.of_nat (length tie)) nd) as [Hfew|Hmany].
      * destruct mid as [|x mid] using rev_ind; [simpl length in Hmid; lia|]. clear IHmid.
        rewrite length_app in Hmid. simpl in Hmid. rewrite <- app_assoc, (app_assoc low mid).
        assert (E : kk - 1 - Z.of_nat (length tie) = py_len (low ++ mid)) by (unfold py_len; rewrite length_app; lia).
        rewrite E, <- app_comm_cons, store_middle. cbn [mbind result_bind]. eexists. split; [done|].
        exists mid. rewrite length_take, length_app. simpl. split; [|lia].
        rewrite (take_ge (tie ++ [i])) by (rewrite length_app; simpl; lia).
        rewrite (take_ge tie) by lia. rewrite reverse_app, <- !app_assoc. simpl. do 2 f_equal. lia.
      * cbn [mbind result_bind]. eexists. split; [done|]. exists mid.
        rewrite take_app_le by lia. rewrite length_app, length_take. simpl. split; [do 2 f_equal; lia|lia].
    + rewrite decide_False, app_nil_r by lia. eexists. split; [done|]. exists mid. rewrite length_take. split; [done|lia].
Qed.

Lemma compact_spec st order out q :
  order ≡ₚ cands -> kth_bits st = q * 2 ^ start_bit st -> 0 <= start_bit st ->
  out_cnt st = 0 -> out_back_cnt st = 0 ->
  countb (fun i => lv (start_bit st) (key i) <? q) cands + num_kth_needed st = k st ->
  0 <= num_kth_needed st <= countb (fun i => lv (start_bit st) (key i) =? q) cands -> k st <= py_len out ->
  compact row order st out =
    Ok (below (start_bit st) q order ++ reverse (take (Z.to_nat (num_kth_needed st)) (ties (start_bit st) q order))
        ++ drop (Z.to_nat (k st)) out).
Proof.
  intros Ho Ekth Hsb E0 E1 Hk Hn Hout. unfold compact. rewrite E0, E1, Ekth.
  set (sb := start_bit st) in *. set (nd := num_kth_needed st) in *. set (kk := k st) in *.
  rewrite <- (countb_perm _ _ _ Ho), length_below in Hk. rewrite <- (countb_perm _ _ _ Ho), length_ties in Hn.
  destruct (foldM_inv (compact_step row (q * 2 ^ sb) sb kk nd) (compacted sb q kk nd out) order (out, 0, 0))
    as (s & E & mid & -> & Hmid).
  - exists (take (Z.to_nat kk) out). unfold below, ties. rewrite !filter_nil, take_nil. simpl. rewrite take_drop.
    split; [done|]. unfold py_len in *. rewrite length_take. simpl. lia.
  - intros pre i post s El Hs. apply compact_step_spec; try done; try lia.
    + rewrite <- Ho, El. set_solver.
    + rewrite El in Hk. replace (pre ++ i :: post) with ((pre ++ [i]) ++ post) in Hk by by rewrite <- app_assoc.
      unfold below in *. rewrite filter_app, length_app in Hk. unfold py_len. lia.
  - rewrite E. cbn [mbind result_bind]. do 2 f_equal. unfold py_len in Hmid. rewrite length_take in Hmid.
    destruct mid; [done|]. simpl length in Hmid. lia.
Qed.


(** ** The selection *)

(** [sel] is a set of candidates with no candidate left out that has a strictly
    smaller key (a strictly larger metric value) than a selected one. *)
Definition top_keys (sel : list Z) : Prop :=
  NoDup sel /\ (forall i, i ∈ sel -> i ∈ cands) /\
  (forall i j, i ∈ sel -> j ∈ cands -> j ∉ sel -> key i <= key j).

Lemma NoDup_cands : NoDup cands.
Proof. apply NoDup_seqZ. Qed.

Lemma top_keys_all : top_keys cands.
Proof. split; [apply NoDup_cands|]. split; [done|]. done. Qed.

Lemma lv_lt_key sb x y : 0 <= sb -> lv sb x < lv sb y -> x < y.
Proof.
  unfold lv. intros Hs Hlt. apply Z.nle_gt. intros Hle.
  pose proof (Z.div_le_mono y x (2 ^ sb) ltac:(apply Z.pow_pos_nonneg; lia) Hle). lia.
Qed.

Lemma top_keys_threshold sb q nd order :
  order ≡ₚ cands -> 0 <= sb -> 0 <= nd ->
  (sb = 0 \/ nd = countb (fun i => lv sb (key i) =? q) cands) ->
  top_keys (below sb q order ++ reverse (take (Z.to_nat nd) (ties sb q order))).
Proof.
  intros Ho Hsb Hnd Hor. pose proof NoDup_cands as Hnodup. rewrite <- Ho in Hnodup.
  assert (Htake : forall i, i ∈ take (Z.to_nat nd) (ties sb q order) -> lv sb (key i) = q /\ i ∈ order).
  { intros i Hi. apply elem_of_take in Hi as (n & Hi & _). apply list_elem_of_lookup_2 in Hi.
    unfold ties in Hi. by apply list_elem_of_filter in Hi. }
  split_and!.
  - apply NoDup_app. split_and!.
    + by apply NoDup_filter.
    + intros i Hi%list_elem_of_filter [Hq _]%elem_of_reverse%Htake. lia.
    + rewrite reverse_Permutation. apply (sublist_NoDup _ (ties sb q order)); [by apply NoDup_filter|apply sublist_take].
  - intros i. rewrite elem_of_app, elem_of_reverse, <- Ho. intros [[_ ?]%list_elem_of_filter|[_ ?]%Htake]; done.
  - intros i j Hi Hj Hnj. rewrite elem_of_app, elem_of_reverse in Hi, Hnj. rewrite <- Ho in Hj.
    assert (Hjq : ~ lv sb (key j) < q).
    { intros Hlt. apply Hnj. left. by apply list_elem_of_filter. }
    destruct (decide (lv sb (key i) = lv sb (key j))) as [Heq|Hne].
    + destruct Hi as [[Hi _]%list_elem_of_filter|[Hi _]%Htake]; [lia|].
      destruct Hor as [->|Hall].
      * unfold lv in Heq. rewrite !Z.pow_0_r, !Z.div_1_r in Heq. lia.
      * destruct Hnj. right. rewrite take_ge.
        -- apply list_elem_of_filter. split; [lia|done].
        -- rewrite Hall, <- (countb_perm _ _ _ Ho), length_ties. lia.
    + apply Z.lt_le_incl, (lv_lt_key sb); [done|].
      destruct Hi as [[Hi _]%list_elem_of_filter|[Hi _]%Htake]; lia.
Qed.

(** The compaction of a resolved state writes a top selection of size [k]. *)
Lemma compact_resolved st order out :
  order ≡ₚ cands -> out_cnt st = 0 -> out_back_cnt st = 0 -> k st <= py_len out ->
  resolved (kth_bits st) (start_bit st) (k st) (num_kth_needed st) ->
  exists sel, compact row order st out = Ok (sel ++ drop (Z.to_nat (k st)) out) /\ top_keys sel /\ py_len sel = k st.
Proof.
  intros Ho E0 E1 Hout (q & Ekth & Hsb & Hn & Hk & Hor).
  rewrite (compact_spec st order out q) by done. eexists. split; [by rewrite app_assoc|].
  split; [apply top_keys_threshold; done || lia|].
  rewrite <- (countb_perm _ _ _ Ho), length_ties in Hn. rewrite <- (countb_perm _ _ _ Ho), length_below in Hk.
  unfold py_len. rewrite length_app, length_reverse, length_take. lia.
Qed.
End Row.

(** * The kernel on one row *)

(** The clamp applied to the count the mass passes found. *)
Definition clamped (k_star k_min k_max n_cand room : Z) : Z :=
  Z.max 0 (Z.min (Z.min (Z.min (Z.max k_star k_min) k_max) n_cand) room).

(** Each loop over the candidates processes every candidate once. *)
Definition fair (sch : schedule) (c0 c1 : Z) : Prop :=
  (forall p, mass_order sch p ≡ₚ cands c0 c1) /\ (forall p, count_order sch p ≡ₚ cands c0 c1) /\
  compact_order sch ≡ₚ cands c0 c1.

Section Select.
Context {T : Type} {SO : SelectOps T}.
Hypothesis passes_pos : (0 < num_passes)%nat.
Hypothesis twiddle_range : forall v, 0 <= twiddle v < 2 ^ key_bits.
Variables (row : list T) (P sink recent : Z).
Hypothesis sink_ok : 0 <= sink.
Hypothesis recent_ok : 0 <= recent.
Hypothesis P_ok : 0 < P <= py_len row.

Let c0 := s_eff P sink.
Let c1 := P - r_eff P sink recent.

Lemma bounds_ok : (0 <= c0 <= c1 /\ c1 <= py_len row) /\ 0 <= c0 <= P /\ 0 <= r_eff P sink recent.
Proof. unfold c0, c1, r_eff, s_eff. lia. Qed.

(** The state after the clamp: the state the mass passes leave, or a fresh one
    whose count passes find the threshold of the clamped count. *)
Lemma clamp_passes sch st k_min k_max room :
  fair sch c0 c1 -> mass_done row c0 c1 st -> out_cnt st = 0 -> out_back_cnt st = 0 ->
  0 <= room ->
  let st1 := clamp_state st k_min k_max (c1 - c0) room in
  exists st', (if done st1 then Ok st1 else count_passes row sch num_passes 0 st1 (k st1)) = Ok st' /\
    k st' = clamped (if select_all st then c1 - c0 else k_star st) k_min k_max (c1 - c0) room /\
    out_cnt st' = 0 /\ out_back_cnt st' = 0 /\
    (0 < k st' -> (select_all st' = true /\ k st' = c1 - c0) \/
                  (select_all st' = false /\ resolved row c0 c1 (kth_bits st') (start_bit st') (k st') (num_kth_needed st'))).
Proof.
  destruct bounds_ok as (Hrange & _). intros (_ & Hco & _) (_ & Hres) E0 E1 Hroom.
  unfold clamp_state. set (ks := if select_all st then _ else _). cbv zeta.
  set (kk := if _ <? 0 then _ else _).
  assert (Hkk : kk = clamped ks k_min k_max (c1 - c0) room).
  { unfold kk, clamped. destruct (Z.ltb_spec (Z.min (Z.min (Z.min (Z.max ks k_min) k_max) (c1 - c0)) room) 0); lia. }
  destruct (Z.eqb_spec kk ks) as [Heq|Hne]; cbn [done].
  - eexists. split; [done|]. cbn [k out_cnt out_back_cnt select_all kth_bits start_bit num_kth_needed].
    split_and!; [done..|]. intros _. destruct (select_all st) eqn:Ea.
    + left. split; [done|]. rewrite Heq. done.
    + right. split; [done|]. rewrite Heq. apply Hres, eq_refl.
  - set (st1 := mkState _ _ _ _ _ _ _ _ _ _ _). change (k st1) with kk.
    assert (0 <= kk <= c1 - c0) by (rewrite Hkk; unfold clamped; lia).
    destruct (decide (kk = 0)) as [Hz|Hz].
    + rewrite Hz, (count_passes_zero row c0 c1 passes_pos Hrange) by done.
      exists st1. split_and!; [done| |done|done|]; [exact Hkk|]. intros Hpos. change (0 < kk) in Hpos. lia.
    + destruct (count_passes_spec row c0 c1 passes_pos Hrange twiddle_range sch num_passes 0 st1 kk 0)
        as (st' & -> & Hk' & Hs' & H0 & H1 & Hr); try done.
      * apply (top_prefix row c0 c1); done.
      * change (k st1) with kk. change (count_before st1) with 0. lia.
      * replace (countb _ _) with (c1 - c0) by (symmetry; apply (top_prefix row c0 c1); done). lia.
      * exists st'. rewrite Hk', Hs', H0, H1. split_and!; try done. intros _. right. split; [done|].
        rewrite <- Hk'. done.
Qed.

(** The mass passes from the initial state. *)
Lemma mass_phase sch theta total reserved :
  fair sch c0 c1 ->
  exists st, mass_passes row sch num_passes 0 (init_state (c1 - c0) theta total reserved) = Ok st /\
    mass_done row c0 c1 st /\ out_cnt st = 0 /\ out_back_cnt st = 0 /\
    0 <= (if select_all st then c1 - c0 else k_star st) <= c1 - c0.
Proof.
  destruct bounds_ok as (Hrange & _). intros (Hm & _).
  assert (exists st, mass_passes row sch num_passes 0 (init_state (c1 - c0) theta total reserved) = Ok st /\
    mass_done row c0 c1 st /\ out_cnt st = 0 /\ out_back_cnt st = 0) as (st & E & Hd & E0 & E1).
  { assert (Hstop : forall st, done st = true -> mass_passes row sch num_passes 0 st = Ok st).
    { intros st Hd. destruct num_passes; [done|]. simpl. by rewrite Hd. }
    unfold init_state. destruct (_ || _).
    - rewrite Hstop by done. eexists. split_and!; [done| |done..]. split; [done|]. intros _. simpl.
      exists 0. assert (forall i, (lv 0 (key row i) <? 0) = false) as Hlt.
      { intros i. unfold lv. rewrite Z.pow_0_r, Z.div_1_r. apply Z.ltb_ge.
        by destruct (key_range row passes_pos twiddle_range i). }
      rewrite (countb_ext (fun i => lv 0 (key row i) <? 0) (fun _ => false)) by (intros; apply Hlt). rewrite countb_false.
      pose proof (countb_nonneg (fun i => lv 0 (key row i) =? 0) (cands c0 c1)). split_and!; lia || by left.
    - destruct (mge theta mone).
      + rewrite Hstop by done. eexists. split_and!; [done| |done..]. split; [done|intros [=]].
      + set (st0 := mkState _ _ _ _ _ _ _ _ _ _ _).
        destruct (mass_passes_spec row c0 c1 passes_pos Hrange twiddle_range sch num_passes 0 st0 0)
          as (st & E & Hd & E0 & E1); [lia|done|done| |by exists st].
        destruct (top_prefix row c0 c1 passes_pos Hrange twiddle_range) as (Hp & Hc & _). split; [done|]. by split_and!. }
  exists st. split_and!; try done; destruct (select_all st) eqn:Ea; try lia;
    by apply (resolved_bound row c0 c1 passes_pos Hrange (kth_bits st) (start_bit st) _ (num_kth_needed st)), Hd.
Qed.

(** Writing the selected candidates. *)
Lemma selection_phase sch st out :
  fair sch c0 c1 -> out_cnt st = 0 -> out_back_cnt st = 0 -> 0 <= k st <= py_len out ->
  (0 < k st -> (select_all st = true /\ k st = c1 - c0) \/
               (select_all st = false /\ resolved row c0 c1 (kth_bits st) (start_bit st) (k st) (num_kth_needed st))) ->
  exists sel,
    (if 0 <? k st then
       if select_all st && (k st =? c1 - c0) then write_range out 0 c0 (c1 - c0)
       else compact row (compact_order sch) st out
     else Ok out) = Ok (sel ++ drop (Z.to_nat (k st)) out) /\ top_keys row c0 c1 sel /\ py_len sel = k st.
Proof.
  destruct bounds_ok as (Hrange & _). intros (_ & _ & Ho) E0 E1 Hk Hsel. destruct (Z.ltb_spec 0 (k st)) as [Hpos|Hz].
  - destruct (Hsel Hpos) as [[-> Hn]|[-> Hr]].
    + rewrite Hn, Z.eqb_refl. simpl andb. cbv iota. rewrite write_range_spec by lia. rewrite Z.add_0_l. simpl.
      exists (cands c0 c1). split_and!; [done|apply top_keys_all|]. unfold py_len, cands. rewrite length_seqZ. lia.
    + simpl andb. cbv iota. apply (compact_resolved row c0 c1 passes_pos Hrange); done || lia.
  - exists []. replace (k st) with 0 by lia. split_and!; [done|by split_and!; [apply NoDup_nil_2|intros i Hi%elem_of_nil|intros i j Hi%elem_of_nil]|done].
Qed.

(** Writing the reserved ranges after them. *)
Lemma reserved_phase sel out r :
  let kk := py_len sel in
  0 <= r -> kk + c0 + r <= py_len out ->
  (out1 ← write_range (sel ++ drop (Z.to_nat kk) out) kk 0 c0; write_range out1 (kk + c0) c1 r)
  = Ok (sel ++ seqZ 0 c0 ++ seqZ c1 r ++ drop (Z.to_nat (kk + c0 + r)) out).
Proof.
  intros kk Hr Hout. destruct bounds_ok as (_ & Hc0 & _).
  assert (Hkk : 0 <= kk) by (unfold kk, py_len; lia).
  assert (Hs : Z.to_nat kk = length sel) by (unfold kk, py_len; lia).
  rewrite write_range_spec; [|lia|lia|unfold py_len in *; rewrite length_app, length_drop; lia].
  cbn [mbind result_bind]. rewrite take_app_le, take_ge by lia.
  rewrite drop_app_ge, drop_drop by lia.
  replace (Z.to_nat kk + (Z.to_nat (kk + c0) - length sel))%nat with (Z.to_nat (kk + c0)) by lia.
  rewrite write_range_spec; [|lia|lia|unfold py_len in *; rewrite !length_app, length_seqZ, length_drop; lia].
  rewrite !(app_assoc sel). set (l := sel ++ seqZ 0 c0).
  assert (Hl : length l = Z.to_nat (kk + c0)) by (unfold l; rewrite length_app, length_seqZ; lia).
  rewrite take_app_length', drop_app_ge, drop_drop by lia. do 5 f_equal. lia.
Qed.

(** The sums the kernel starts from, and the count its mass passes choose. *)
Definition row_value (i : Z) : option M := to_float <$> row !! Z.to_nat i.
Definition row_total : M := block_sum (thread_sum row_value P <$> py_range 0 BlockSize).
Definition row_reserved : M :=
  block_sum (thread_sum (fun i => if (i <? c0) || (c1 <=? i) then row_value i else None) P <$> py_range 0 BlockSize).
Definition mass_choice (st : State) : Z := if select_all st then c1 - c0 else k_star st.

(** The kernel on a row with valid entries. *)
Lemma select_row_ok sch k_min k_max out width theta :
  fair sch c0 c1 -> py_len out = width -> c0 + r_eff P sink recent <= width ->
  exists sel st rest,
    SelectKernel row sch P k_min k_max out width theta sink recent
      = Ok (sel ++ seqZ 0 c0 ++ seqZ c1 (r_eff P sink recent) ++ rest, py_len sel + c0 + r_eff P sink recent) /\
    rest = drop (Z.to_nat (py_len sel + c0 + r_eff P sink recent)) out /\
    mass_passes row sch num_passes 0 (init_state (c1 - c0) theta row_total row_reserved) = Ok st /\
    top_keys row c0 c1 sel /\ 0 <= mass_choice st <= c1 - c0 /\
    py_len sel = clamped (mass_choice st) k_min k_max (c1 - c0) (width - c0 - r_eff P sink recent).
Proof.
  intros Hf Hout Hwidth. destruct bounds_ok as (Hrange & Hc0 & Hr). unfold SelectKernel.
  rewrite (proj2 (Z.leb_gt P 0)) by lia. cbv zeta. fold c0. fold c1.
  set (r := r_eff P sink recent) in *. set (room := width - c0 - r).
  match goal with |- context [init_state _ _ ?t ?rs] => destruct (mass_phase sch theta t rs Hf) as (st & Ephase & Hdone & E0 & E1 & Hks) end.
  rewrite Ephase.
  cbn [mbind result_bind].
  destruct (clamp_passes sch st k_min k_max room) as (st' & -> & Hk & E0' & E1' & Hsel); try done; [lia|].
  cbn [mbind result_bind].
  fold (mass_choice st) in Hk, Hks. set (ks := mass_choice st) in *.
  assert (Hkb : 0 <= k st' <= room) by (rewrite Hk; unfold clamped; lia).
  destruct (selection_phase sch st' out) as (sel & -> & Htop & Hlen); try done; [lia|].
  cbn [mbind result_bind].
  exists sel, st, (drop (Z.to_nat (py_len sel + c0 + r)) out).
  split_and!; [|done|exact Ephase|exact Htop|fold ks; lia..].
  pose proof (reserved_phase sel out r Hr ltac:(lia)) as Hres. rewrite Hlen in Hres |- *.
  destruct (write_range (sel ++ _) _ _ _) as [out1|]; [|done]. cbn [mbind result_bind] in Hres |- *. by rewrite Hres.
Qed.

End Select.
