(* ===== verification/MassCount.v ===== *)
(** The count the mass-selection kernel chooses, when its arithmetic is exact.

    [MassSelect.v] holds for any float operations and leaves open how many
    candidates the mass passes choose.  Here the floats stand for rationals and the
    operations compute exactly: the sums of a block are the sums over the row, a
    bucket of the histogram holds the mass of its candidates, and the passes find
    the smallest number of candidates whose mass reaches the target. *)
From S2P Require Import Prelude Device MassSelect.
From Stdlib Require Import QArith Qround Lqa.
Local Open Scope Z_scope.

(** Floats without rounding: every float has a value, the operations compute on
    values, and keys order the metric downwards. *)
Class ExactFloats (T : Type) {SO : SelectOps T} := {
  val : M -> Q;
  val_m0 : (val m0 == 0)%Q;
  val_add a b : (val (madd a b) == val a + val b)%Q;
  val_sub a b : (val (msub a b) == val a - val b)%Q;
  val_mul a b : (val (mmul a b) == val a * val b)%Q;
  val_one : (val mone == 1)%Q;
  val_ge a b : mge a b = true <-> (val b <= val a)%Q;
  val_ceil a b : (0 < val b)%Q -> ceil_div a b = Qceiling (val a / val b);
  val_untwiddle v : (val (untwiddle (twiddle v)) == val (to_float v))%Q;
  val_key v w : twiddle v <= twiddle w -> (val (to_float w) <= val (to_float v))%Q;
}.

(** * Sums of rationals *)
Section Sums.
Context {A : Type}.
Local Open Scope Q_scope.
Implicit Types (f g : A -> Q) (l : list A).

Fixpoint qsum_of f l : Q := match l with [] => 0 | x :: l => f x + qsum_of f l end.

Lemma qsum_of_app f l1 l2 : qsum_of f (l1 ++ l2) == qsum_of f l1 + qsum_of f l2.
Proof. induction l1 as [|x l1 IH]; cbn; [lra|]. rewrite IH. lra. Qed.

Lemma qsum_of_perm f l1 l2 : l1 ≡ₚ l2 -> qsum_of f l1 == qsum_of f l2.
Proof. induction 1; cbn; lra. Qed.

Lemma qsum_of_ext f g l : (forall x, x ∈ l -> f x == g x) -> qsum_of f l == qsum_of g l.
Proof.
  induction l as [|x l IH]; intros H; cbn; [lra|]. rewrite (H x) by by left. rewrite IH; [lra|]. intros y Hy. apply H. by right.
Qed.

Lemma qsum_of_zero f l : (forall x, x ∈ l -> f x == 0) -> qsum_of f l == 0.
Proof. intros H. induction l as [|x l IH]; cbn; [lra|]. rewrite (H x), IH; [lra| |by left]. intros y Hy. apply H. by right. Qed.

Lemma qsum_of_le f g l : (forall x, x ∈ l -> f x <= g x) -> qsum_of f l <= qsum_of g l.
Proof.
  induction l as [|x l IH]; intros H; cbn; [lra|]. assert (f x <= g x) by (apply H; by left).
  assert (qsum_of f l <= qsum_of g l) by (apply IH; intros y Hy; apply H; by right). lra.
Qed.

Lemma qsum_of_nonneg f l : (forall x, x ∈ l -> 0 <= f x) -> 0 <= qsum_of f l.
Proof. intros H. rewrite <- (qsum_of_zero (fun _ => 0) l) by done. by apply qsum_of_le. Qed.

Lemma qsum_of_const f c l : (forall x, x ∈ l -> f x == c) -> qsum_of f l == inject_Z (Z.of_nat (length l)) * c.
Proof.
  induction l as [|x l IH]; intros H; cbn [qsum_of length]; [change (inject_Z (Z.of_nat 0)) with 0; ring|].
  rewrite (H x), IH by (intros; try apply H; by constructor).
  rewrite Nat2Z.inj_succ. unfold Z.succ. rewrite inject_Z_plus. change (inject_Z 1) with 1. ring.
Qed.

Lemma qsum_of_shift f c l : qsum_of (fun x => f x - c) l == qsum_of f l - inject_Z (Z.of_nat (length l)) * c.
Proof.
  induction l as [|x l IH]; cbn [qsum_of length]; [change (inject_Z (Z.of_nat 0)) with 0; ring|].
  rewrite IH, Nat2Z.inj_succ. unfold Z.succ. rewrite inject_Z_plus. change (inject_Z 1) with 1. ring.
Qed.

Lemma qsum_of_filter f (P : A -> Prop) `{!forall x, Decision (P x)} l :
  qsum_of f l == qsum_of f (filter P l) + qsum_of f (filter (fun x => ~ P x) l).
Proof.
  induction l as [|x l IH]; [cbn; lra|]. rewrite !filter_cons. cbn [qsum_of]. rewrite IH.
  destruct (decide (P x)); [rewrite (decide_False (P := ~ P x)) by tauto|rewrite (decide_True (P := ~ P x)) by done]; cbn; lra.
Qed.
End Sums.

Lemma qsum_of_fmap {A B} (f : B -> Q) (g : A -> B) l : (qsum_of f (g <$> l) == qsum_of (fun x => f (g x)) l)%Q.
Proof. induction l as [|x l IH]; cbn; [lra|]. rewrite IH. lra. Qed.

Lemma qsum_of_bind {A B} (f : B -> Q) (g : A -> list B) l : (qsum_of f (l ≫= g) == qsum_of (fun x => qsum_of f (g x)) l)%Q.
Proof. induction l as [|x l IH]; [done|]. rewrite bind_cons, qsum_of_app, IH. done. Qed.

(** * The sums of a block *)
Section BlockSum.
Context {T : Type} {SO : SelectOps T} `{EX : !ExactFloats T}.
Local Open Scope Q_scope.
Implicit Types (v : list M).

Lemma warp_sum_exact v : length v = 32%nat -> val (warp_sum v) == qsum_of val v.
Proof.
  intros Hl. do 32 (destruct v as [|? v]; [done|]). destruct v; [|done].
  unfold warp_sum, shfl_add. cbn. rewrite !val_add. lra.
Qed.

(** Chunks of 32. *)
Lemma chunks_sum v n : length v = (32 * n)%nat ->
  qsum_of (fun w => qsum_of val (take 32 (drop (32 * w) v))) (seq 0 n) == qsum_of val v.
Proof.
  revert v. induction n as [|n IH]; intros v Hl.
  - destruct v; [reflexivity|done].
  - cbn [seq qsum_of foldr].
    assert (E : qsum_of val v == qsum_of val (take 32 v) + qsum_of val (drop 32 v)) by by rewrite <- qsum_of_app, take_drop.
    rewrite E, <- (IH (drop 32 v)) by (rewrite length_drop; lia). rewrite Nat.mul_0_r, drop_0, <- fmap_S_seq, qsum_of_fmap.
    rewrite (qsum_of_ext _ (fun w => qsum_of val (take 32 (drop (32 * w) (drop 32 v))))); [lra|].
    intros w _. rewrite drop_drop. by replace (32 * S w)%nat with (32 + 32 * w)%nat by lia.
Qed.

Lemma block_sum_exact v : length v = 1024%nat -> val (block_sum v) == qsum_of val v.
Proof.
  intros Hl. unfold block_sum. rewrite warp_sum_exact by by rewrite length_fmap, length_seq.
  rewrite qsum_of_fmap, <- (chunks_sum v 32) by done. apply qsum_of_ext. intros w Hw%elem_of_seq.
  apply warp_sum_exact. rewrite length_take, length_drop. lia.
Qed.

Definition opt_val (o : option M) : Q := default 0 (val <$> o).

(** The indices of one thread. *)
Definition thread_indices (P t : Z) : list Z :=
  (fun k => t + k * BlockSize)%Z <$> py_range 0 (cdiv (Z.max 0 (P - t)) BlockSize).

Lemma thread_sum_exact f P t : val (thread_sum f P t) == qsum_of (fun i => opt_val (f i)) (thread_indices P t).
Proof.
  unfold thread_sum, thread_indices. rewrite qsum_of_fmap. set (l := py_range _ _). clearbody l.
  enough (forall l acc, val (fold_left (fun acc k => match f (t + k * BlockSize)%Z with Some v => madd acc v | None => acc end) l acc)
    == val acc + qsum_of (fun x => opt_val (f (t + x * BlockSize)%Z)) l) as -> by (rewrite val_m0; lra).
  clear l. induction l as [|k l IH]; intros acc; cbn; [lra|]. rewrite IH. unfold opt_val at 2.
  destruct (f _); cbn; rewrite ?val_add; lra.
Qed.

(** Every index of the row belongs to one thread. *)
Lemma threads_cover P : (0 <= P)%Z -> (py_range 0 BlockSize ≫= thread_indices P) ≡ₚ seqZ 0 P.
Proof.
  intros HP. apply NoDup_Permutation.
  - apply NoDup_bind.
    + intros t1 t2 i H1 H2 (k1 & E1 & _)%list_elem_of_fmap (k2 & E2 & _)%list_elem_of_fmap.
      unfold py_range in *. apply elem_of_seqZ in H1, H2. unfold BlockSize in *. lia.
    + intros t _. unfold thread_indices. apply NoDup_fmap_2; [|apply NoDup_seqZ]. intros a b. unfold BlockSize. lia.
    + apply NoDup_seqZ.
  - apply NoDup_seqZ.
  - intros i. rewrite elem_of_seqZ, list_elem_of_bind. unfold thread_indices, py_range. split.
    + intros (t & (k & -> & Hk%elem_of_seqZ)%list_elem_of_fmap & Ht%elem_of_seqZ). rewrite cdiv_spec in Hk by done. unfold BlockSize in *. Z.div_mod_to_equations. lia.
    + intros Hi. exists (i mod BlockSize)%Z. rewrite list_elem_of_fmap, cdiv_spec by done. unfold BlockSize in *. split.
      * exists (i / 1024)%Z. split; [|apply elem_of_seqZ]; Z.div_mod_to_equations; lia.
      * apply elem_of_seqZ. Z.div_mod_to_equations. lia.
Qed.

(** The sum of a block over the row. *)
Lemma block_sum_row f P : (0 <= P)%Z ->
  val (block_sum (thread_sum f P <$> py_range 0 BlockSize)) == qsum_of (fun i => opt_val (f i)) (seqZ 0 P).
Proof.
  intros HP. rewrite block_sum_exact by by rewrite length_fmap. rewrite qsum_of_fmap.
  rewrite (qsum_of_ext _ (fun t => qsum_of (fun i => opt_val (f i)) (thread_indices P t))) by (intros; apply thread_sum_exact).
  rewrite <- qsum_of_bind. apply qsum_of_perm, threads_cover, HP.
Qed.
End BlockSum.

(** * The count the passes find *)
Section Count.
Context {T : Type} {SO : SelectOps T} `{EX : !ExactFloats T}.
Context (row : list T) (c0 c1 : Z).
Hypothesis passes_pos : (0 < num_passes)%nat.
Hypothesis range_ok : 0 <= c0 <= c1 /\ c1 <= py_len row.
Hypothesis twiddle_range : forall v, 0 <= twiddle v < 2 ^ key_bits.

#[local] Abbreviation cands := (cands c0 c1).
#[local] Abbreviation key := (key row).

(** The mass of an entry, and of a set of entries. *)
Definition mass_at (i : Z) : Q := opt_val (row_value row i).
Definition mass_of (l : list Z) : Q := qsum_of mass_at l.

(** Attention mass is not negative. *)
Hypothesis mass_nonneg : forall i, i ∈ cands -> (0 <= mass_at i)%Q.

(** [k] is the smallest number of candidates whose mass reaches [target]. *)
Record mass_count (target : Q) (k : Z) : Prop := {
  mc_reached : exists l, NoDup l /\ l ⊆ cands /\ py_len l = k /\ (target <= mass_of l)%Q;
  mc_least l : NoDup l -> l ⊆ cands -> (target <= mass_of l)%Q -> k <= py_len l;
}.

Lemma mass_at_cand i v : row !! Z.to_nat i = Some v -> mass_at i = val (to_float v).
Proof. intros E. unfold mass_at, row_value. by rewrite E. Qed.

Lemma mass_at_key i j : i ∈ cands -> j ∈ cands -> key i <= key j -> (mass_at j <= mass_at i)%Q.
Proof.
  intros Hi Hj Hk. destruct (load_cand row c0 c1 passes_pos range_ok i Hi) as (v & _ & Ev & Hv).
  destruct (load_cand row c0 c1 passes_pos range_ok j Hj) as (w & _ & Ew & Hw).
  rewrite (mass_at_cand i v), (mass_at_cand j w) by done. apply val_key. congruence.
Qed.

Lemma mass_at_untwiddle i : i ∈ cands -> (val (untwiddle (key i)) == mass_at i)%Q.
Proof.
  intros Hi. destruct (load_cand row c0 c1 passes_pos range_ok i Hi) as (v & _ & <- & Hv). rewrite (mass_at_cand i v) by done. apply val_untwiddle.
Qed.

(** The mass of the entries that satisfy a test; it adds up as [countb] does. *)
Definition massb (P : Z -> bool) (l : list Z) : Q := qsum_of (fun i => if P i then mass_at i else 0%Q) l.

Lemma massb_ext P Q l : (forall i, i ∈ l -> P i = Q i) -> (massb P l == massb Q l)%Q.
Proof. intros H. apply qsum_of_ext. intros i Hi. by rewrite H. Qed.

Lemma massb_perm P l1 l2 : l1 ≡ₚ l2 -> (massb P l1 == massb P l2)%Q.
Proof. apply qsum_of_perm. Qed.

Lemma massb_add P Q R l :
  (forall i, i ∈ l -> Z.b2z (P i) + Z.b2z (Q i) = Z.b2z (R i)) -> (massb P l + massb Q l == massb R l)%Q.
Proof.
  unfold massb. induction l as [|x l IH]; intros H; cbn; [lra|]. rewrite <- IH by (intros i Hi; apply H; by right).
  specialize (H x ltac:(by left)). destruct (P x), (Q x), (R x); cbn in H; lia || lra.
Qed.

Lemma massb_filter P l : (massb P l == mass_of (filter (fun i => P i = true) l))%Q.
Proof.
  unfold massb, mass_of. induction l as [|x l IH]; [reflexivity|]. rewrite filter_cons. cbn [qsum_of]. rewrite IH.
  destruct (P x); case_decide; cbn [qsum_of]; done || lra.
Qed.

Lemma massb_false l : (massb (fun _ => false) l == 0)%Q.
Proof. by apply qsum_of_zero. Qed.

(** ** The masses of a histogram *)

Definition bucket_masses (p : nat) (q : Z) (l : list Z) (ms : list M) : Prop :=
  length ms = 256%nat /\ forall b m, ms !! b = Some m -> (val m == massb (in_bucket row p q (Z.of_nat b)) l)%Q.

Lemma hist_step_mass p q kth i pre cnt ms :
  prefix_ok p kth q -> i ∈ cands -> bucket_masses p q pre ms -> length cnt = 256%nat ->
  exists cnt' ms', hist_step row (Z.of_nat p) kth true (cnt, ms) i = Ok (cnt', ms') /\ length cnt' = 256%nat /\
    bucket_masses p q (pre ++ [i]) ms'.
Proof.
  intros Hpre Hi [Hl Hm] Hc. destruct (load_cand row c0 c1 passes_pos range_ok i Hi) as (v & Ev & Ek & Hv). unfold hist_step. rewrite Ev. cbn [mbind result_bind].
  rewrite Ek, (matches_prefix row passes_pos twiddle_range p _ q) by done.
  assert (Hsnoc : forall b, (massb (in_bucket row p q b) (pre ++ [i])
    == massb (in_bucket row p q b) pre + if in_bucket row p q b i then mass_at i else 0)%Q).
  { intros b. unfold massb. rewrite qsum_of_app. cbn. lra. }
  pose proof (bucket_range row passes_pos (Z.of_nat p) i) as Hb. set (b := bucket_of (start_bit_of (Z.of_nat p)) (key i)) in *.
  destruct (lv (start_bit_of (Z.of_nat p - 1)) (key i) =? q) eqn:Eq; cbn [negb].
  - cbv zeta. destruct (load_ok cnt b) as (c & -> & _); [unfold py_len; lia|]. cbn [mbind result_bind].
    rewrite store_ok by (unfold py_len; lia). cbn [mbind result_bind].
    destruct (load_ok ms b) as (m & -> & Em); [unfold py_len; lia|]. cbn [mbind result_bind].
    rewrite store_ok by (unfold py_len; lia). cbn [mbind result_bind]. do 2 eexists. split; [done|]. rewrite length_insert. split; [done|].
    split; [by rewrite length_insert|]. intros b' m' Hm'. rewrite Hsnoc. unfold in_bucket at 2. rewrite Eq. fold b. cbn [andb].
    destruct (decide (b' = Z.to_nat b)) as [->|Hne].
    + rewrite list_lookup_insert_eq in Hm' by lia. injection Hm' as <-. rewrite val_add, (Hm _ _ Em), Z2Nat.id, Z.eqb_refl by lia.
      by rewrite (mass_at_cand i v).
    + rewrite list_lookup_insert_ne in Hm' by done. rewrite (Hm _ _ Hm'). rewrite (proj2 (Z.eqb_neq _ _)) by lia. lra.
  - do 2 eexists. split; [done|]. split; [done|]. split; [done|]. intros b' m' Hm'. rewrite Hsnoc, (Hm _ _ Hm').
    unfold in_bucket at 3. rewrite Eq. cbn. lra.
Qed.

Lemma histogram_mass p q st order :
  prefix_ok p (kth_bits st) q -> order ≡ₚ cands ->
  exists ms, histogram row order st (Z.of_nat p) true = Ok (bucket_counts row p q cands, ms) /\ bucket_masses p q cands ms.
Proof.
  intros Hpre Ho. destruct (histogram_counts row c0 c1 passes_pos range_ok twiddle_range p q st order true Hpre Ho) as (ms & E & _).
  exists ms. split; [done|]. unfold histogram in E.
  destruct (foldM_inv (hist_step row (Z.of_nat p) (kth_bits st) true) (fun pre s => length s.1 = 256%nat /\ bucket_masses p q pre s.2) order
    (replicate (Z.to_nat NumBuckets) 0, replicate (Z.to_nat NumBuckets) m0)) as (s & E' & _ & Hm).
  - split; [done|]. split; [done|]. cbn [snd]. intros b m [-> _]%lookup_replicate_1. rewrite val_m0. reflexivity.
  - intros pre i post [cnt ms'] El [Hc Hm]. destruct (hist_step_mass p q (kth_bits st) i pre cnt ms') as (cnt' & ms'' & E1 & E2 & E3); try done.
    + rewrite <- Ho, El. set_solver.
    + eauto.
  - rewrite E in E'. injection E' as <-. destruct Hm as [Hl Hm]. split; [done|]. intros b m Eb. rewrite (Hm b m Eb). by apply massb_perm.
Qed.

(** ** The bucket scan *)
Lemma scan_mass_exact nd b (l : list (Z * M)) cum before :
  (forall c m, (c, m) ∈ l -> c = 0 -> (val m == 0)%Q) -> (val cum < val nd)%Q ->
  match scan_mass nd b l cum before with
  | (Some ch, cum', _) => exists j c m, ch = b + Z.of_nat j /\ l !! j = Some (c, m) /\
      (val cum' == val cum + qsum_of (fun x => val x.2) (take j l))%Q /\ (val cum' < val nd)%Q /\ (val nd <= val cum' + val m)%Q
  | (None, _, _) => (val cum + qsum_of (fun x => val x.2) l < val nd)%Q
  end.
Proof.
  revert b cum before. induction l as [|[c m] l IH]; intros b cum before Hz Hlt; cbn [scan_mass qsum_of]; [lra|]. cbn [snd].
  assert (Hgo : forall cum' bf, (val cum' == val cum + val m)%Q -> (val cum' < val nd)%Q ->
    match scan_mass nd (b + 1) l cum' bf with
    | (Some ch, cum', _) => exists j c9 m9, ch = b + Z.of_nat j /\ ((c, m) :: l) !! j = Some (c9, m9) /\
        (val cum' == val cum + qsum_of (fun x => val x.2) (take j ((c, m) :: l)))%Q /\ (val cum' < val nd)%Q /\ (val nd <= val cum' + val m9)%Q
    | (None, _, _) => (val cum + (val m + qsum_of (fun x => val x.2) l) < val nd)%Q
    end).
  { intros cum' bf Hc Hl. specialize (IH (b + 1) cum' bf ltac:(intros c9 m9 Hin; apply Hz; by right) Hl).
    destruct (scan_mass nd (b + 1) l cum' bf) as [[[ch|] cum2] bf2]; [|lra]. destruct IH as (j & c9 & m9 & -> & Hj & Hs & H1 & H2).
    exists (S j), c9, m9. cbn [take qsum_of snd]. split_and!; [lia|done|rewrite Hs, Hc; lra|done|done]. }
  destruct (Z.eqb_spec c 0) as [->|Hc].
  - pose proof (Hz 0 m ltac:(by left) eq_refl). apply Hgo; lra.
  - destruct (mge (madd cum m) nd) eqn:Eg.
    + apply val_ge in Eg. rewrite val_add in Eg. exists 0%nat, c, m. cbn [take qsum_of]. split_and!; [lia|done|lra|done|lra].
    + assert (~ val nd <= val cum + val m)%Q by (rewrite <- val_add, <- val_ge; by rewrite Eg).
      apply Hgo; rewrite val_add; lra.
Qed.

(** The masses of the buckets, counted together. *)
Lemma masses_take p q ms j : bucket_masses p q cands ms -> (j <= 256)%nat ->
  (qsum_of (fun x => val x.2) (take j (zip (bucket_counts row p q cands) ms)) ==
   massb (fun i => (lv (start_bit_of (Z.of_nat p - 1)) (key i) =? q) &&
                   (bucket_of (start_bit_of (Z.of_nat p)) (key i) <? Z.of_nat j)) cands)%Q.
Proof.
  intros [Hl Hm] Hj. induction j as [|j IH].
  - cbn [take qsum_of]. rewrite <- (massb_false cands). apply massb_ext. intros i _.
    pose proof (bucket_range row passes_pos (Z.of_nat p) i). rewrite (proj2 (Z.ltb_ge _ _)) by lia. by rewrite andb_false_r.
  - destruct (lookup_lt_is_Some_2 ms j) as [m Em]; [lia|].
    destruct (lookup_lt_is_Some_2 (bucket_counts row p q cands) j) as [c Ec]; [unfold bucket_counts; rewrite length_table; lia|].
    rewrite (take_S_r _ j (c, m)) by by apply lookup_zip_Some. rewrite qsum_of_app, IH by lia. cbn [qsum_of snd].
    rewrite (Hm j m Em), Qplus_0_r. apply massb_add. intros i _. unfold in_bucket. set (x := bucket_of _ _). destruct (_ =? q); cbn; [|done].
    destruct (Z.ltb_spec x (Z.of_nat j)), (Z.eqb_spec x (Z.of_nat j)), (Z.ltb_spec x (Z.of_nat (S j))); cbn; lia.
Qed.

(** An empty bucket has no mass. *)
Lemma masses_empty p q ms c m : bucket_masses p q cands ms -> (c, m) ∈ zip (bucket_counts row p q cands) ms -> c = 0 -> (val m == 0)%Q.
Proof.
  intros [_ Hm] (j & [Hc Em]%lookup_zip_Some)%list_elem_of_lookup_1 ->. apply lookup_bucket_counts in Hc as [_ Hc]. rewrite (Hm j m Em).
  rewrite countb_filter in Hc. rewrite massb_filter. destruct (filter _ _); [reflexivity|cbn in Hc; lia].
Qed.

(** ** The smallest count *)

(** A set that holds all gains and no losses has the largest sum. *)
Lemma best_shift (f : Z -> Q) l low :
  NoDup l -> NoDup low -> (forall i, i ∈ l -> i ∉ low -> (f i <= 0)%Q) -> (forall i, i ∈ low -> (0 <= f i)%Q) ->
  (qsum_of f l <= qsum_of f low)%Q.
Proof.
  intros Hl Hlow Hloss Hgain. rewrite (qsum_of_filter _ (fun i => i ∈ l) low), (qsum_of_filter _ (fun i => i ∈ low) l).
  rewrite (qsum_of_perm _ (filter (fun i => i ∈ l) low) (filter (fun i => i ∈ low) l)).
  2:{ apply NoDup_Permutation; [by apply NoDup_filter..|]. intros i. rewrite !list_elem_of_filter. tauto. }
  assert (qsum_of f (filter (fun i => i ∉ low) l) <= 0)%Q.
  { rewrite <- (qsum_of_zero (fun _ => 0%Q) (filter (fun i => i ∉ low) l)) by done. apply qsum_of_le.
    intros i [Hi Hil]%list_elem_of_filter. by apply Hloss. }
  assert (0 <= qsum_of f (filter (fun i => i ∉ l) low))%Q.
  { apply qsum_of_nonneg. intros i [_ Hi]%list_elem_of_filter. by apply Hgain. }
  lra.
Qed.

(** All candidates before key [q], and [j] of those with key [q], whose mass is [v]
    each. *)
Lemma threshold_count target q j v :
  (forall i, i ∈ cands -> key i = q -> (mass_at i == v)%Q) -> (exists i, i ∈ cands /\ key i = q) ->
  0 <= j <= countb (fun i => key i =? q) cands ->
  (target <= massb (fun i => (key i <? q)%Z) cands + inject_Z j * v)%Q ->
  (massb (fun i => (key i <? q)%Z) cands + inject_Z (j - 1) * v < target)%Q ->
  mass_count target (countb (fun i => key i <? q) cands + j).
Proof.
  intros Hv [i0 [Hi0 Ei0]] Hj Hge Hlt. pose proof (NoDup_cands c0 c1) as Hnd.
  set (low := filter (fun i => (key i <? q)%Z = true) cands). set (eqs := filter (fun i => (key i =? q)%Z = true) cands).
  rewrite countb_filter in Hj |- *. fold low. fold eqs in Hj. rewrite massb_filter in Hge, Hlt. fold low in Hge, Hlt.
  assert (Hel : forall i, i ∈ low <-> i ∈ cands /\ key i < q) by (intros i; unfold low; rewrite list_elem_of_filter, Z.ltb_lt; tauto).
  assert (Hee : forall i, i ∈ eqs <-> i ∈ cands /\ key i = q) by (intros i; unfold eqs; rewrite list_elem_of_filter, Z.eqb_eq; tauto).
  assert (Hv0 : (0 <= v)%Q) by (rewrite <- (Hv i0) by done; by apply mass_nonneg).
  split.
  - exists (low ++ take (Z.to_nat j) eqs). assert (Hsub : take (Z.to_nat j) eqs ⊆ eqs) by apply subseteq_take. split; [|split; [|split]].
    + apply NoDup_app. split; [by apply NoDup_filter|]. split.
      * intros i [_ Hi]%Hel Hi'%Hsub. apply Hee in Hi' as [_ ?]. lia.
      * apply (sublist_NoDup _ eqs); [by apply NoDup_filter|apply sublist_take].
    + intros i [Hi|Hi%Hsub]%elem_of_app; [by apply Hel in Hi as [? _]|by apply Hee in Hi as [? _]].
    + unfold py_len. rewrite length_app, length_take. lia.
    + unfold mass_of at 1. rewrite qsum_of_app. rewrite (qsum_of_const _ v (take _ _)).
      * rewrite length_take, Nat.min_l by lia. rewrite Z2Nat.id by lia. exact Hge.
      * intros i Hi%Hsub. apply Hee in Hi as [? ?]. by apply Hv.
  - intros l Hl Hsub Hm. apply Z.nlt_ge. intros Hshort.
    assert (Hbest : (qsum_of (fun i => mass_at i - v) l <= qsum_of (fun i => mass_at i - v) low)%Q).
    { apply best_shift; [done|by apply NoDup_filter|..].
      - intros i Hil Hi. assert (Hq : key i0 <= key i) by (apply Z.nlt_ge; intros ?; apply Hi, Hel; split; [by apply Hsub|lia]).
        pose proof (mass_at_key i0 i Hi0 (Hsub i Hil) Hq) as Hle. rewrite (Hv i0) in Hle by done. lra.
      - intros i [Hi Hq]%Hel. pose proof (mass_at_key i i0 Hi Hi0 ltac:(lia)) as Hle. rewrite (Hv i0) in Hle by done. lra. }
    rewrite !qsum_of_shift in Hbest. fold (mass_of l) (mass_of low) in Hbest. unfold py_len in Hshort.
    assert (Hz : (inject_Z (Z.of_nat (length l)) <= inject_Z (Z.of_nat (length low)) + inject_Z (j - 1))%Q)
      by (rewrite <- inject_Z_plus, <- Zle_Qle; lia).
    assert ((inject_Z (Z.of_nat (length l)) * v <= (inject_Z (Z.of_nat (length low)) + inject_Z (j - 1)) * v)%Q) by (by apply Qmult_le_compat_r).
    lra.
Qed.

(** ** One pass *)

(** Before pass [p]: what is needed is the target less the mass before the prefix, and
    the candidates with the prefix have it. *)
Definition mass_exact (target : Q) (p : nat) (q : Z) (st : State) : Prop :=
  mass_inv row c0 c1 p q st /\
  let sb := start_bit_of (Z.of_nat p - 1) in
  (val (need st) == target - massb (fun i => (lv sb (key i) <? q)%Z) cands)%Q /\ (0 < val (need st))%Q /\
  (val (need st) <= massb (fun i => (lv sb (key i) =? q)%Z) cands)%Q.

(** The threshold of a finished search. *)
Definition mass_found (target : Q) (st : State) : Prop :=
  done st = true /\ select_all st = false /\ mass_count target (k_star st).

Lemma massb_next p q b : (p < num_passes)%nat -> 0 <= b < 256 ->
  let sb := start_bit_of (Z.of_nat p) in
  let prev := start_bit_of (Z.of_nat p - 1) in
  (massb (fun i => (lv sb (key i) =? 256 * q + b)%Z) cands == massb (in_bucket row p q b) cands)%Q /\
  (massb (fun i => (lv sb (key i) <? 256 * q + b)%Z) cands ==
   massb (fun i => (lv prev (key i) <? q)%Z) cands + massb (fun i => (lv prev (key i) =? q) && (bucket_of sb (key i) <? b)) cands)%Q.
Proof.
  intros Hp Hb sb prev. assert (Hs : 0 <= sb) by by apply start_bit_nonneg.
  assert (Hstep : prev = sb + 8) by by apply start_bit_step. split.
  - apply massb_ext. intros i _. unfold in_bucket. fold sb prev. rewrite Hstep. by apply digit_eq.
  - rewrite Hstep. symmetry. apply massb_add. intros i _. symmetry. by apply digit_lt.
Qed.

(** The last pass: the ties that are needed are counted by a division. *)
Lemma last_count target qf nd ties :
  ties = countb (fun i => key i =? qf) cands ->
  (val nd == target - massb (fun i => (key i <? qf)%Z) cands)%Q -> (0 < val nd)%Q ->
  (val nd <= massb (fun i => (key i =? qf)%Z) cands)%Q ->
  let v := untwiddle qf in
  let j := if mgt v m0 then ceil_div nd v else ties in
  let j := if j <? 1 then 1 else if ties <? j then ties else j in
  mass_count target (countb (fun i => key i <? qf) cands + j).
Proof.
  intros Et Hn Hpos Hle v. cbv zeta.
  assert (Hex : exists i, i ∈ cands /\ key i = qf).
  { destruct (filter (fun i => (key i =? qf)%Z = true) cands) as [|i l] eqn:Ef.
    - rewrite massb_filter, Ef in Hle. cbn in Hle. lra.
    - exists i. assert (Hi : i ∈ filter (fun i => (key i =? qf)%Z = true) cands) by (rewrite Ef; by left).
      apply list_elem_of_filter in Hi as [?%Z.eqb_eq ?]. done. }
  assert (Hv : forall i, i ∈ cands -> key i = qf -> (mass_at i == val v)%Q).
  { intros i Hi <-. symmetry. by apply mass_at_untwiddle. }
  assert (Hmass : (massb (fun i => (key i =? qf)%Z) cands == inject_Z ties * val v)%Q).
  { rewrite massb_filter, Et, countb_filter. apply qsum_of_const. intros i [Hi%Z.eqb_eq ?]%list_elem_of_filter. by apply Hv. }
  rewrite Hmass in Hle.
  assert (Hv0 : (0 < val v)%Q).
  { destruct Hex as (i & Hi & Ei). assert (0 <= val v)%Q by (rewrite <- (Hv i) by done; by apply mass_nonneg).
    destruct (Qlt_le_dec 0 (val v)); [done|]. assert (Hz : (val v == 0)%Q) by lra. rewrite Hz in Hle. lra. }
  assert (mgt v m0 = true) as ->.
  { unfold mgt. apply negb_true_iff, not_true_iff_false. rewrite val_ge, val_m0. lra. }
  rewrite val_ceil by done. set (x := (val nd / val v)%Q). assert (Hx : (x * val v == val nd)%Q) by (unfold x; field; lra).
  pose proof (Qle_ceiling x) as Hc1. pose proof (Qceiling_lt x) as Hc2. set (j := Qceiling x) in *.
  assert (Hj1 : 1 <= j).
  { apply Z.nlt_ge. intros Hlt. assert ((inject_Z j <= 0)%Q) by (change 0%Q with (inject_Z 0); rewrite <- Zle_Qle; lia).
    assert (x * val v <= 0 * val v)%Q by (apply Qmult_le_compat_r; lra). lra. }
  assert (Hj2 : j <= ties).
  { apply Z.nlt_ge. intros Hlt. assert ((inject_Z ties <= inject_Z (j - 1))%Q) by (rewrite <- Zle_Qle; lia).
    assert (inject_Z ties * val v < x * val v)%Q by (apply Qmult_lt_compat_r; lra). lra. }
  rewrite (proj2 (Z.ltb_ge j 1)), (proj2 (Z.ltb_ge ties j)) by lia.
  apply (threshold_count _ _ _ (val v)); [done|done|lia|..].
  - assert (x * val v <= inject_Z j * val v)%Q by (apply Qmult_le_compat_r; lra). lra.
  - assert (inject_Z (j - 1) * val v < x * val v)%Q by (apply Qmult_lt_compat_r; lra). lra.
Qed.

Lemma choose_by_mass_exact target p q st ms : (p < num_passes)%nat -> mass_exact target p q st -> bucket_masses p q cands ms ->
  let st' := choose_by_mass st (bucket_counts row p q cands) ms (Z.of_nat p) in
  mass_found target st' \/ ((S p < num_passes)%nat /\ exists q', mass_exact target (S p) q' st').
Proof.
  intros Hp ((Hd & Ha & Hpre & Hcb) & Hn & Hpos & Hle) Hm. unfold choose_by_mass. set (cnt := bucket_counts row p q cands).
  pose proof (scan_mass_exact (need st) 0 (zip cnt ms) m0 0 (fun c m => masses_empty p q ms c m Hm) ltac:(by rewrite val_m0)) as Hscan.
  pose proof (scan_mass_spec passes_pos (need st) 0 (zip cnt ms) m0 0) as Hspec. pose proof Hm as [Hl Hval]. pose proof (masses_take p q ms) as Htake. fold cnt in Htake.
  assert (Hlen : length cnt = 256%nat) by apply length_table.
  destruct (scan_mass _ _ _ _ _) as [[[ch|] cum] bf].
  2:{ exfalso. rewrite val_m0 in Hscan. rewrite <- (take_ge (zip cnt ms) 256) in Hscan by (rewrite length_zip_with; lia).
      rewrite (Htake 256%nat) in Hscan by done.
      rewrite (massb_ext _ (fun i => lv (start_bit_of (Z.of_nat p - 1)) (key i) =? q)) in Hscan; [lra|].
      intros i _. pose proof (bucket_range row passes_pos (Z.of_nat p) i). rewrite (proj2 (Z.ltb_lt _ _)) by lia. by rewrite andb_true_r. }
  destruct Hscan as (j & c & m & -> & Hj & Hcum & Hlt & Hcross). destruct Hspec as (j' & ? & ? & Ej & _ & _ & ->).
  assert (j' = j) as -> by lia. clear Ej. rewrite !Z.add_0_l, fst_zip by lia.
  apply lookup_zip_Some in Hj as [Hc Em]. rewrite Nat2Z.id, Hc. cbn [default from_option id]. pose proof Hc as [Hj Ec]%lookup_bucket_counts.
  rewrite val_m0, (Htake j) in Hcum by (done || lia). rewrite (Hval j m Em) in Hcross.
  destruct (massb_next p q (Z.of_nat j) Hp) as [Meq Mlt]; [lia|].
  destruct (extend_prefix row c0 c1 passes_pos p (kth_bits st) q (Z.of_nat j) Hp Hpre) as (Ekth & Eeq & Elt); [lia|].
  rewrite Nat2Z.id, <- Hcb in Elt. fold cnt in Elt. rewrite <- Ec in Eeq. rewrite <- Meq in Hcross.
  assert (Hneed : (val (msub (need st) cum) == target - massb (fun i => (lv (start_bit_of (Z.of_nat p)) (key i) <? 256 * q + Z.of_nat j)%Z) cands)%Q)
    by (rewrite val_sub, Mlt; lra).
  assert (Hrest : (0 < val (msub (need st) cum))%Q /\
    (val (msub (need st) cum) <= massb (fun i => (lv (start_bit_of (Z.of_nat p)) (key i) =? 256 * q + Z.of_nat j)%Z) cands)%Q)
    by (rewrite val_sub; lra).
  destruct Hrest as [Hr1 Hr2]. destruct (Z.eqb_spec (Z.of_nat p) (Z.of_nat num_passes - 1)) as [Hlast|Hlast].
  - left. split; [done|]. split; [done|]. cbn [k_star].
    assert (Hsb : start_bit_of (Z.of_nat p) = 0) by (rewrite Hlast; by apply start_bit_last).
    assert (Hlv : forall z, lv 0 z = z) by (intros ?; unfold lv; by rewrite Z.pow_0_r, Z.div_1_r).
    rewrite Hsb in *. set (qf := 256 * q + Z.of_nat j) in *. rewrite Ekth, Z.pow_0_r, Z.mul_1_r, <- Elt.
    rewrite (countb_ext _ (fun i => key i <? qf)) by (intros; by rewrite Hlv). apply last_count.
    + rewrite <- Eeq. apply countb_ext. intros. by rewrite Hlv.
    + rewrite Hneed, (massb_ext _ (fun i => key i <? qf)) by (intros; by rewrite Hlv). reflexivity.
    + exact Hr1.
    + by rewrite (massb_ext _ (fun i => key i =? qf)) in Hr2 by (intros; by rewrite Hlv).
  - right. split; [lia|]. exists (256 * q + Z.of_nat j). split; [split_and!; [done|done|by apply prefix_next; done || lia|]|].
    + cbn [count_before]. replace (Z.of_nat (S p) - 1) with (Z.of_nat p) by lia. lia.
    + cbv zeta. replace (Z.of_nat (S p) - 1) with (Z.of_nat p) by lia. done.
Qed.

Lemma mass_passes_exact target sch n p st q :
  (n + p = num_passes)%nat -> (0 < n)%nat -> (forall p, mass_order sch p ≡ₚ cands) -> mass_exact target p q st ->
  exists st', mass_passes row sch n p st = Ok st' /\ mass_found target st'.
Proof.
  revert p st q. induction n as [|n IH]; intros p st q Hnp Hn Ho Hi; [lia|]. cbn [mass_passes].
  pose proof Hi as ((Hd & _ & Hpre & _) & _). rewrite Hd.
  destruct (histogram_mass p q st (mass_order sch p) Hpre (Ho p)) as (ms & -> & Hm). cbn [mbind result_bind].
  destruct (choose_by_mass_exact target p q st ms ltac:(lia) Hi Hm) as [Hf|(Hp & q' & Hi')].
  - set (st' := choose_by_mass _ _ _ _) in *. exists st'. split; [|done]. destruct n; [done|]. cbn [mass_passes]. by destruct Hf as [-> _].
  - apply (IH (S p) _ q'); done || lia.
Qed.

(** ** The search from the initial state *)

(** The count a search for the threshold [theta] has to return. *)
Definition searched (theta target : Q) (k : Z) : Prop :=
  ((1 <= theta)%Q -> (0 < target)%Q -> k = c1 - c0) /\ ((theta < 1)%Q \/ (target <= 0)%Q -> mass_count target k).

#[global] Instance mass_count_proper : Proper (Qeq ==> eq ==> iff) mass_count.
Proof.
  intros a b E k _ <-. split; intros [(l & H1 & H2 & H3 & H4) Hl]; split; try (intros; apply Hl; try done; lra); exists l; split_and!; try done; lra.
Qed.

#[global] Instance searched_proper theta : Proper (Qeq ==> eq ==> iff) (searched theta).
Proof. intros a b E k _ <-. unfold searched. by rewrite E. Qed.

Lemma mass_count_zero target : (target <= 0)%Q -> mass_count target 0.
Proof.
  intros Ht. split; [|intros; unfold py_len; lia]. exists []. split; [apply NoDup_nil_2|]. split; [apply list_subseteq_nil|]. split; [done|exact Ht].
Qed.

Lemma mass_search sch theta total reserved st :
  (forall p, mass_order sch p ≡ₚ cands) ->
  (val total == val reserved + mass_of cands)%Q -> (0 <= val reserved)%Q ->
  mass_passes row sch num_passes 0 (init_state (c1 - c0) theta total reserved) = Ok st ->
  searched (val theta) (val theta * val total - val reserved) (if select_all st then c1 - c0 else k_star st).
Proof.
  intros Ho Ht Hr. set (target := (val theta * val total - val reserved)%Q).
  assert (Hm : (0 <= mass_of cands)%Q) by (by apply qsum_of_nonneg).
  assert (Hnd : (val (msub (mmul theta total) reserved) == target)%Q) by (unfold target; rewrite val_sub, val_mul; reflexivity).
  assert (Hstop : forall st, done st = true -> mass_passes row sch num_passes 0 st = Ok st).
  { intros st' Hd. destruct num_passes; [done|]. cbn. by rewrite Hd. }
  assert (Htot : (val theta < 1)%Q -> (target <= mass_of cands)%Q).
  { intros Hth. assert (0 <= (1 - val theta) * val total)%Q by (apply Qmult_le_0_compat; lra). unfold target. lra. }
  assert (Hzero : (val total <= 0)%Q -> (target <= 0)%Q).
  { intros H0. assert (Hz : (val total == 0)%Q) by lra. unfold target. rewrite Hz. lra. }
  unfold init_state. destruct ((c1 - c0 =? 0) || mle total m0 || mle (msub (mmul theta total) reserved) m0) eqn:Eo.
  - rewrite Hstop by done. intros [= <-]. cbn [select_all k_star].
    apply orb_true_iff in Eo as [[Eo%Z.eqb_eq|Eo]%orb_true_iff|Eo].
    + split; [done|]. intros Hc. apply mass_count_zero. destruct Hc as [Hc|Hc]; [|done].
      apply Htot in Hc. unfold mass_of, MassSelect.cands in Hc. rewrite Eo in Hc. exact Hc.
    + apply val_ge in Eo. rewrite val_m0 in Eo. apply Hzero in Eo. split; [intros; lra|]. intros _. by apply mass_count_zero.
    + apply val_ge in Eo. rewrite val_m0, Hnd in Eo. split; [intros; lra|]. intros _. by apply mass_count_zero.
  - apply orb_false_iff in Eo as [[_ Et]%orb_false_iff En].
    assert (Hpos : (0 < target)%Q).
    { apply Qnot_le_lt. intros Hle. unfold mle in En. rewrite (proj2 (val_ge _ _)) in En; [done|]. by rewrite val_m0, Hnd. }
    destruct (mge theta mone) eqn:Eth.
    + rewrite Hstop by done. intros [= <-]. cbn [select_all]. apply val_ge in Eth. rewrite val_one in Eth. split; [done|]. intros [?|?]; lra.
    + assert (Hth : (val theta < 1)%Q).
      { apply Qnot_le_lt. intros Hle. rewrite (proj2 (val_ge _ _)) in Eth; [done|]. by rewrite val_one. }
      set (st0 := mkState _ _ _ _ _ _ _ _ _ _ _). intros E.
      destruct (top_prefix row c0 c1 passes_pos range_ok twiddle_range) as (Hp & Hc & _).
      destruct (mass_passes_exact target sch num_passes 0 st0 0) as (st' & E' & _ & Ha & Hk); [lia|done|done| |].
      * split; [by split_and!|]. cbv zeta. change (Z.of_nat 0 - 1) with (0 - 1). cbn [need st0].
        rewrite (massb_ext (fun i => lv _ (key i) <? 0) (fun _ => false)), massb_false by (intros; by rewrite lv_top).
        rewrite (massb_ext (fun i => lv _ (key i) =? 0) (fun _ => true)) by (intros; by rewrite lv_top).
        assert ((massb (fun _ => true) cands == mass_of cands)%Q) as -> by apply qsum_of_ext, (fun _ _ => Qeq_refl _).
        rewrite Hnd. specialize (Htot Hth). split_and!; lra.
      * rewrite E in E'. injection E' as <-. rewrite Ha. split; [intros; lra|done].
Qed.
End Count.

(** * The kernel *)
Section Select.
Context {T : Type} {SO : SelectOps T}.
Hypothesis passes_pos : (0 < num_passes)%nat.
Hypothesis twiddle_range : forall v, 0 <= twiddle v < 2 ^ key_bits.
Context (row : list T) (P sink recent : Z).
Hypothesis sink_ok : 0 <= sink.
Hypothesis recent_ok : 0 <= recent.
Hypothesis P_ok : 0 < P <= py_len row.

Let c0 := s_eff P sink.
Let r := r_eff P sink recent.
Let c1 := P - r.

(** The sums of the block are the mass of the row and of its reserved ranges. *)
Lemma row_sums `{EX : !ExactFloats T} :
  (val (row_total row P) == mass_of row (seqZ 0 P))%Q /\
  (val (row_reserved row P sink recent) == mass_of row (seqZ 0 c0 ++ seqZ c1 r))%Q /\
  (mass_of row (seqZ 0 P) == mass_of row (seqZ 0 c0 ++ seqZ c1 r) + mass_of row (cands c0 c1))%Q.
Proof.
  assert (0 <= c0 <= c1 /\ 0 <= r) as [[Hc0 Hc] Hr] by (unfold c1, r, c0, r_eff, s_eff; lia).
  assert (Hsplit : seqZ 0 P = seqZ 0 c0 ++ cands c0 c1 ++ seqZ c1 r).
  { unfold cands. replace P with (c0 + (c1 - c0 + r)) by (unfold c1; lia). rewrite !seqZ_app by lia. f_equal. f_equal; f_equal; lia. }
  split; [|split].
  - unfold row_total. rewrite block_sum_row by lia. reflexivity.
  - unfold row_reserved. rewrite block_sum_row by lia. fold c0 r c1. rewrite Hsplit. unfold mass_of. rewrite !qsum_of_app.
    rewrite (qsum_of_zero _ (cands c0 c1)).
    2:{ intros i Hi%(elem_of_cands _ _ passes_pos). rewrite (proj2 (Z.ltb_ge _ _)), (proj2 (Z.leb_gt _ _)) by lia. reflexivity. }
    rewrite (qsum_of_ext _ (mass_at row) (seqZ 0 c0)).
    2:{ intros i Hi%elem_of_seqZ. rewrite (proj2 (Z.ltb_lt _ _)) by lia. reflexivity. }
    rewrite (qsum_of_ext _ (mass_at row) (seqZ c1 r)); [lra|].
    intros i Hi%elem_of_seqZ. rewrite (proj2 (Z.leb_le _ _)), orb_true_r by lia. reflexivity.
  - rewrite Hsplit. unfold mass_of. rewrite !qsum_of_app. lra.
Qed.

End Select.

(** * A concrete instance: 16-bit unsigned values with rational masses *)
Module SelectExamples.
#[local] Instance u16_ops : SelectOps Z := {|
  M := Q; m0 := 0%Q; madd := Qplus; msub := Qminus; mmul := Qmult; mge := fun a b => Qle_bool b a;
  mone := 1%Q; ceil_div := fun a b => Qceiling (a / b); to_float := fun x => inject_Z (x mod 65536);
  twiddle := fun x => 65535 - x mod 65536; untwiddle := fun b => inject_Z (65535 - b); num_passes := 2 |}.

#[local] Instance u16_exact : ExactFloats Z.
Proof.
  refine (Build_ExactFloats Z u16_ops (fun x : Q => x) _ _ _ _ _ _ _ _ _); cbn; try reflexivity.
  - intros a b. apply Qle_bool_iff.
  - intros v. replace (65535 - (65535 - v mod 65536)) with (v mod 65536) by lia. reflexivity.
  - intros v w Hk. rewrite <- Zle_Qle. lia.
Defined.

Definition row : list Z := [3; 700; 20; 20; 500; 20; 7; 9].
Definition sch : schedule := mkSched (fun _ => seqZ 1 6) (fun _ => reverse (seqZ 1 6)) [6; 5; 4; 3; 2; 1].

Example select_by_mass :
  SelectKernel row sch 8 0 8 (replicate 8 (-1)) 8 (95 # 100) 1 1 = Ok ([4; 1; 5; 0; 7; -1; -1; -1], 5).
Proof. vm_compute. reflexivity. Qed.

Example select_clamped :
  SelectKernel row sch 8 0 1 (replicate 8 (-1)) 8 (95 # 100) 1 1 = Ok ([1; 0; 7; -1; -1; -1; -1; -1], 3).
Proof. vm_compute. reflexivity. Qed.

End SelectExamples.
