(* ===== verification/EncoderCache.v ===== *)
(** The encoder cache: [src/vllm/v1/core/encoder_cache_manager.py].

    [EncoderCacheManager] keeps which requests reference each cached encoder
    output, the unreferenced entries in the order they became unreferenced, and
    two slot counters.  [EncoderDecoderCacheManager] keeps a counter and two
    buffers of hashes.  The methods are functions on the state. *)
From S2P Require Import Prelude Request.
Local Open Scope Z_scope.

(** * EncoderCacheManager *)

(** The attributes.  [cached] maps an identifier to the ids of the requests that
    reference it; [freeable] is an [OrderedDict], oldest entry first. *)
Record EncoderCacheManager := mkECM {
  cache_size : Z;
  num_free_slots : Z;
  num_freeable_slots : Z;
  cached : gmap (option string) (gset string);
  freeable : list (option string * Z);
  freed : list (option string);
}.

(** [__init__]. *)
Definition ecm_init (size : Z) : EncoderCacheManager := mkECM size size size ∅ [] [].

(** [reset]. *)
Definition ecm_reset (m : EncoderCacheManager) : EncoderCacheManager :=
  mkECM (cache_size m) (cache_size m) (cache_size m) ∅ [] [].

(** [OrderedDict]: [pop(key)], and [d[key] = v] (in place when the key is
    present, at the end otherwise). *)
Fixpoint odict_pop (key : option string) (d : list (option string * Z)) :
    result (Z * list (option string * Z)) :=
  match d with
  | [] => Err KeyError
  | (k, v) :: d =>
      if decide (k = key) then Ok (v, d)
      else '(w, d') ← odict_pop key d; Ok (w, (k, v) :: d')
  end.
Fixpoint odict_set (key : option string) (n : Z) (d : list (option string * Z)) :
    list (option string * Z) :=
  match d with
  | [] => [(key, n)]
  | (k, v) :: d => if decide (k = key) then (k, n) :: d else (k, v) :: odict_set key n d
  end.

(** [check_and_update_cache]. *)
Definition check_and_update_cache (r : Request) (input_id : Z) (m : EncoderCacheManager) :
    result (bool * EncoderCacheManager) :=
  f ← py_index (mm_features r) input_id;
  let mm_hash := identifier f in
  match cached m !! mm_hash with
  | None => Ok (false, m)
  | Some refs =>
      '(fs, fl) ← (if decide (refs = ∅) then
                     '(n, d) ← odict_pop mm_hash (freeable m);
                     Ok (num_freeable_slots m - n, d)
                   else Ok (num_freeable_slots m, freeable m));
      Ok (true, mkECM (cache_size m) (num_free_slots m) fs (<[mm_hash := {[request_id r]} ∪ refs]> (cached m))
                  fl (freed m))
  end.

(** The eviction loop: [popitem(last=False)] until the space is there. *)
Fixpoint evict_loop (num_embeds free : Z) (c : gmap (option string) (gset string))
    (fl : list (option string * Z)) (fr : list (option string)) :
    result (Z * gmap (option string) (gset string) * list (option string * Z) * list (option string)) :=
  if negb (free <? num_embeds) then Ok (free, c, fl, fr) else
  match fl with
  | [] => Err KeyError
  | (mm_hash, n) :: fl =>
      match c !! mm_hash with
      | None => Err KeyError
      | Some _ => evict_loop num_embeds (free + n) (delete mm_hash c) fl (fr ++ [mm_hash])
      end
  end.

(** [can_allocate]. *)
Definition can_allocate (r : Request) (input_id encoder_compute_budget num_embeds_to_schedule : Z)
    (m : EncoderCacheManager) : result (bool * EncoderCacheManager) :=
  num_embeds ← get_num_encoder_embeds input_id r;
  if encoder_compute_budget <? num_embeds then Ok (false, m) else
  let num_embeds := num_embeds + num_embeds_to_schedule in
  if num_embeds <=? num_free_slots m then Ok (true, m) else
  if num_freeable_slots m <? num_embeds then Ok (false, m) else
  '(free, c, fl, fr) ← evict_loop num_embeds (num_free_slots m) (cached m) (freeable m) (freed m);
  Ok (true, mkECM (cache_size m) free (num_freeable_slots m) c fl fr).

(** [allocate]. *)
Definition allocate (r : Request) (input_id : Z) (m : EncoderCacheManager) : result EncoderCacheManager :=
  f ← py_index (mm_features r) input_id;
  let mm_hash := identifier f in
  let c := match cached m !! mm_hash with None => <[mm_hash := ∅]> (cached m) | Some _ => cached m end in
  num_encoder_embeds ← get_num_encoder_embeds input_id r;
  _ ← py_assert (num_encoder_embeds <=? num_free_slots m);
  _ ← py_assert (num_encoder_embeds <=? num_freeable_slots m);
  refs ← of_option KeyError (c !! mm_hash);
  Ok (mkECM (cache_size m) (num_free_slots m - num_encoder_embeds) (num_freeable_slots m - num_encoder_embeds)
        (<[mm_hash := {[request_id r]} ∪ refs]> c) (freeable m) (freed m)).

(** [get_cached_input_ids]. *)
Definition input_cached (r : Request) (m : EncoderCacheManager) (i : Z) : bool :=
  match mm_features r !! Z.to_nat i with
  | Some f => bool_decide (is_Some (cached m !! identifier f))
  | None => false
  end.
Definition get_cached_input_ids (r : Request) (m : EncoderCacheManager) : list Z :=
  filter (fun i => input_cached r m i = true) (py_range 0 (py_len (mm_features r))).

(** [free_encoder_input]. *)
Definition free_encoder_input (r : Request) (input_id : Z) (m : EncoderCacheManager) :
    result EncoderCacheManager :=
  f ← py_index (mm_features r) input_id;
  let mm_hash := identifier f in
  match cached m !! mm_hash with
  | None => Ok m
  | Some refs =>
      if decide (refs = ∅) then Ok m else
      let refs := refs ∖ {[request_id r]} in
      let c := <[mm_hash := refs]> (cached m) in
      if decide (refs = ∅) then
        num_encoder_embeds ← get_num_encoder_embeds input_id r;
        Ok (mkECM (cache_size m) (num_free_slots m) (num_freeable_slots m + num_encoder_embeds) c
              (odict_set mm_hash num_encoder_embeds (freeable m)) (freed m))
      else Ok (mkECM (cache_size m) (num_free_slots m) (num_freeable_slots m) c (freeable m) (freed m))
  end.

(** [free]; [order] lists the set of cached inputs in the order it is iterated. *)
Definition ecm_free (r : Request) (order : list Z) (m : EncoderCacheManager) : result EncoderCacheManager :=
  foldM (fun m input_id => free_encoder_input r input_id m) order m.

(** [get_freed_mm_hashes]. *)
Definition get_freed_mm_hashes (m : EncoderCacheManager) : list (option string) * EncoderCacheManager :=
  (freed m, mkECM (cache_size m) (num_free_slots m) (num_freeable_slots m) (cached m) (freeable m) []).

(** * Budget *)

(** The fields of [SchedulerConfig] the budget reads. *)
Record EncoderConfig := mkEncCfg {
  disable_chunked_mm_input : bool;
  max_num_batched_tokens : Z;
  max_num_encoder_input_tokens : Z;
  encoder_cache_size : Z;
}.

(** [compute_mm_encoder_budget]: compute budget and cache size; the mapping is
    its list of values. *)
Definition compute_mm_encoder_budget (cfg : EncoderConfig) (mm_max_toks_per_item : list Z) : result (Z * Z) :=
  match mm_max_toks_per_item with
  | [] => Ok (0, 0)
  | x :: l =>
      let max_tokens_per_mm_item := fold_left Z.max l x in
      if disable_chunked_mm_input cfg && (max_num_batched_tokens cfg <? max_tokens_per_mm_item)
      then Err ValueError
      else Ok (Z.max (max_num_encoder_input_tokens cfg) max_tokens_per_mm_item,
               Z.max (encoder_cache_size cfg) max_tokens_per_mm_item)
  end.

(** * EncoderDecoderCacheManager *)
Module EncDec.
Record EncoderDecoderCacheManager := mkEDM {
  cache_size : Z;
  num_free_slots : Z;
  allocated : list (option string);
  to_free : list (option string);
}.

Definition init (size : Z) : EncoderDecoderCacheManager := mkEDM size size [] [].
Definition reset (m : EncoderDecoderCacheManager) : EncoderDecoderCacheManager :=
  mkEDM (cache_size m) (cache_size m) [] [].
Definition check_and_update_cache (r : Request) (input_id : Z) (m : EncoderDecoderCacheManager) :
    bool * EncoderDecoderCacheManager := (false, m).

Definition can_allocate (r : Request) (input_id encoder_compute_budget num_embeds_to_schedule : Z)
    (m : EncoderDecoderCacheManager) : result bool :=
  num_encoder_embeds ← get_num_encoder_embeds input_id r;
  if encoder_compute_budget <? num_encoder_embeds then Ok false else
  Ok (num_encoder_embeds + num_embeds_to_schedule <=? num_free_slots m).

Definition allocate (r : Request) (input_id : Z) (m : EncoderDecoderCacheManager) :
    result EncoderDecoderCacheManager :=
  num_encoder_embeds ← get_num_encoder_embeds input_id r;
  f ← py_index (mm_features r) input_id;
  Ok (mkEDM (cache_size m) (num_free_slots m - num_encoder_embeds) (allocated m ++ [identifier f]) (to_free m)).

Definition free_encoder_input (r : Request) (input_id : Z) (m : EncoderDecoderCacheManager) :
    result EncoderDecoderCacheManager :=
  num_encoder_embeds ← get_num_encoder_embeds input_id r;
  Ok (mkEDM (cache_size m) (num_free_slots m + num_encoder_embeds) (allocated m) (to_free m)).

Definition free (r : Request) (m : EncoderDecoderCacheManager) : result EncoderDecoderCacheManager :=
  foldM (fun m input_id => free_encoder_input r input_id m) (py_range 0 (py_len (mm_features r))) m.

Definition get_cached_input_ids (r : Request) (m : EncoderDecoderCacheManager) : list Z :=
  py_range 0 (py_len (mm_features r)).

Definition get_freed_mm_hashes (m : EncoderDecoderCacheManager) :
    list (option string) * EncoderDecoderCacheManager :=
  (to_free m, mkEDM (cache_size m) (num_free_slots m) [] (allocated m)).
End EncDec.

(** * Slot accounting *)

(** Deleting a list of entries. *)
Definition drop_entries (ks : list (option string)) (c : gmap (option string) (gset string)) :
    gmap (option string) (gset string) :=
  fold_left (fun c h => delete h c) ks c.

Lemma lookup_drop_entries ks c h : drop_entries ks c !! h = if decide (h ∈ ks) then None else c !! h.
Proof.
  revert c. induction ks as [|k ks IH]; intros c; [done|]. simpl. unfold drop_entries in *. simpl. rewrite IH.
  destruct (decide (h = k)) as [->|Hne].
  - rewrite lookup_delete_eq. repeat case_decide; set_solver.
  - rewrite lookup_delete_ne by done. repeat case_decide; set_solver.
Qed.

Lemma difference_empty_sub (X Y : gset string) : X ∖ Y = ∅ -> X ⊆ Y.
Proof. intros H x Hx. destruct (decide (x ∈ Y)); [done|]. assert (x ∈ X ∖ Y) as Hd by set_solver. rewrite H in Hd. set_solver. Qed.

Section Accounting.
(** The number of embeddings of an encoder input is determined by its
    identifier. *)
Variable size_of : option string -> Z.
Hypothesis size_nonneg : forall h, 0 <= size_of h.

Definition sized (r : Request) : Prop :=
  forall f, f ∈ mm_features r -> get_num_embeds (mm_position f) = Ok (size_of (identifier f)).

(** Slots taken by the entries of a map, and by a list of entries. *)
Definition slots {A} (c : gmap (option string) A) : Z := sumZ ((fun p => size_of (fst p)) <$> map_to_list c).
Definition fl_slots (fl : list (option string * Z)) : Z := sumZ (snd <$> fl).

Lemma slots_insert {A} (c : gmap (option string) A) h v : c !! h = None -> slots (<[h := v]> c) = slots c + size_of h.
Proof.
  intros Hh. unfold slots.
  rewrite (sumZ_perm _ ((fun p => size_of (fst p)) <$> ((h, v) :: map_to_list c))) by by rewrite map_to_list_insert.
  rewrite fmap_cons. cbn [sumZ fold_right fst]. fold (sumZ ((fun p => size_of (fst p)) <$> map_to_list c)). lia.
Qed.

Lemma slots_delete {A} (c : gmap (option string) A) h v : c !! h = Some v -> slots (delete h c) = slots c - size_of h.
Proof.
  intros Hh. rewrite <- (insert_delete_id c h v Hh) at 2. rewrite slots_insert by apply lookup_delete_eq. lia.
Qed.

Lemma slots_update {A} (c : gmap (option string) A) h v w : c !! h = Some v -> slots (<[h := w]> c) = slots c.
Proof.
  intros Hh. rewrite <- insert_delete_eq, slots_insert by apply lookup_delete_eq.
  rewrite (slots_delete c h v Hh). lia.
Qed.

(** The invariant: the unreferenced entries are the [freeable] ones, each with
    its size, and the counters are what is left. *)
Definition ecm_inv (m : EncoderCacheManager) : Prop :=
  NoDup (fst <$> freeable m) /\
  (forall h, cached m !! h = Some ∅ <-> h ∈ fst <$> freeable m) /\
  (forall h n, (h, n) ∈ freeable m -> n = size_of h) /\
  num_free_slots m = cache_size m - slots (cached m) /\ 0 <= num_free_slots m /\
  num_freeable_slots m = num_free_slots m + fl_slots (freeable m).

(** ** Inputs of a request *)
Lemma feature_at r i :
  sized r -> 0 <= i < py_len (mm_features r) ->
  exists f, mm_features r !! Z.to_nat i = Some f /\ py_index (mm_features r) i = Ok f /\
    get_num_encoder_embeds i r = Ok (size_of (identifier f)).
Proof.
  intros Hs Hi. destruct (py_index_ok (mm_features r) i Hi) as (f & E & Hf). exists f.
  split_and!; [done|done|]. unfold get_num_encoder_embeds, py_assert.
  rewrite (proj2 (Z.ltb_lt _ _)) by lia. cbn [mbind result_bind]. rewrite E. cbn [mbind result_bind].
  apply Hs. by eapply list_elem_of_lookup_2.
Qed.

(** ** The ordered dictionary *)
Definition without (h : option string) (d : list (option string * Z)) : list (option string * Z) :=
  filter (fun p => fst p <> h) d.

Lemma without_notin h d : h ∉ fst <$> d -> without h d = d.
Proof. intros Hn. apply filter_all. intros [k v] Hin Heq. apply Hn. apply list_elem_of_fmap. exists (k, v). by rewrite <- Heq. Qed.

Lemma elem_of_without h d k : k ∈ fst <$> without h d <-> k <> h /\ k ∈ fst <$> d.
Proof.
  unfold without. rewrite !list_elem_of_fmap. split.
  - intros ([k' v] & -> & [Hne Hin]%list_elem_of_filter). split; [done|]. by exists (k', v).
  - intros [Hne ([k' v] & -> & Hin)]. exists (k', v). split; [done|]. by apply list_elem_of_filter.
Qed.

Lemma NoDup_without h d : NoDup (fst <$> d) -> NoDup (fst <$> without h d).
Proof.
  induction d as [|[k v] d IH]; [done|]. rewrite fmap_cons. intros [Hk Hd]%NoDup_cons. unfold without.
  rewrite filter_cons. case_decide; [|by apply IH]. rewrite fmap_cons. apply NoDup_cons. split; [|by apply IH].
  intros [_ ?]%elem_of_without. done.
Qed.

Lemma odict_pop_ok h d :
  NoDup (fst <$> d) -> h ∈ fst <$> d ->
  exists n, odict_pop h d = Ok (n, without h d) /\ (h, n) ∈ d /\ fl_slots d = n + fl_slots (without h d).
Proof.
  induction d as [|[k v] d IH]; [by intros _ ?%elem_of_nil|]. rewrite fmap_cons. intros [Hk Hd]%NoDup_cons Hin. cbn [odict_pop].
  unfold without. rewrite filter_cons. simpl fst in *. destruct (decide (k = h)) as [->|Hne].
  - rewrite decide_False by tauto. fold (without h d). rewrite without_notin by done.
    exists v. split_and!; [done|left|]. done.
  - apply elem_of_cons in Hin as [->|Hin]; [done|]. destruct (IH Hd Hin) as (n & -> & Hn & Hp).
    rewrite decide_True by done. exists n. split_and!; [done|by right|]. unfold fl_slots in *. rewrite !fmap_cons. simpl sumZ.
    fold (without h d). lia.
Qed.

Lemma odict_set_new h n d : h ∉ fst <$> d -> odict_set h n d = d ++ [(h, n)].
Proof.
  induction d as [|[k v] d IH]; intros Hn; [done|]. rewrite fmap_cons in Hn. simpl.
  rewrite decide_False by set_solver. rewrite IH by set_solver. done.
Qed.

Lemma fl_slots_perm d d' : d ≡ₚ d' -> fl_slots d = fl_slots d'.
Proof. intros H. unfold fl_slots. apply sumZ_perm. by rewrite H. Qed.

(** ** Preservation *)

Lemma ecm_init_inv n : 0 <= n -> ecm_inv (ecm_init n).
Proof.
  intros Hn. unfold ecm_inv, ecm_init, slots, fl_slots. simpl. rewrite map_to_list_empty. simpl.
  split_and!; [apply NoDup_nil_2| | |lia..].
  - intros h. rewrite lookup_empty, elem_of_nil. split; [done|by intros []].
  - by intros h k ?%elem_of_nil.
Qed.

(** [check_and_update_cache] reports whether the entry is cached; when it is, the
    request references it, and it is no longer reclaimable. *)
Lemma check_ok r i m :
  sized r -> 0 <= i < py_len (mm_features r) -> ecm_inv m ->
  exists f b m', mm_features r !! Z.to_nat i = Some f /\ check_and_update_cache r i m = Ok (b, m') /\ ecm_inv m' /\
    b = bool_decide (is_Some (cached m !! identifier f)) /\
    cached m' = (if b then <[identifier f := {[request_id r]} ∪ default ∅ (cached m !! identifier f)]> (cached m) else cached m) /\
    num_free_slots m' = num_free_slots m /\ freed m' = freed m /\
    freeable m' = filter (fun p => fst p <> identifier f) (freeable m).
Proof.
  intros Hs Hi (Hnd & Hfr & Hsz & Hfree & Hpos & Hfs). destruct (feature_at r i Hs Hi) as (f & Hf & E & _).
  unfold check_and_update_cache. rewrite E. cbn [mbind result_bind]. set (h := identifier f).
  destruct (cached m !! h) as [refs|] eqn:Hc.
  - assert (Hnew : forall h', <[h := {[request_id r]} ∪ refs]> (cached m) !! h' = Some ∅ <-> h' ∈ fst <$> without h (freeable m)).
    { intros h'. rewrite elem_of_without, <- Hfr. destruct (decide (h' = h)) as [->|Hne].
      - rewrite lookup_insert_eq. split; [intros [=]; set_solver|by intros []].
      - rewrite lookup_insert_ne by done. tauto. }
    assert (Hsz' : forall h' n, (h', n) ∈ without h (freeable m) -> n = size_of h').
    { intros h' n [_ ?]%list_elem_of_filter. by apply Hsz. }
    pose proof (NoDup_without h _ Hnd) as Hnd'.
    exists f, true. destruct (decide (refs = ∅)) as [->|Hne].
    + destruct (odict_pop_ok h (freeable m) Hnd) as (n & -> & Hn & Hsum); [by apply Hfr|].
      cbn [mbind result_bind]. eexists. fold h. rewrite Hc. split_and!; try done. unfold ecm_inv; split_and!; simpl; try done.
      * rewrite (slots_update _ h ∅) by done. done.
      * lia.
    + cbn [mbind result_bind]. assert (h ∉ fst <$> freeable m) as Hnin by (rewrite <- Hfr, Hc; congruence).
      pose proof (without_notin h (freeable m) Hnin) as Hw. rewrite Hw in *.
      eexists. fold h. rewrite Hc. split_and!; try done. unfold ecm_inv; split_and!; simpl; try done.
      rewrite (slots_update _ h refs) by done. done.
  - assert (h ∉ fst <$> freeable m) as Hnin by (rewrite <- Hfr, Hc; congruence).
    exists f, false, m. fold h. rewrite Hc. split_and!; try done. change (freeable m = without h (freeable m)). by rewrite without_notin.
Qed.

(** The eviction loop frees the shortest prefix of the unreferenced entries that
    makes enough room. *)
Lemma evict_loop_ok n free c fl fr :
  NoDup (fst <$> fl) -> (forall h, h ∈ fst <$> fl -> is_Some (c !! h)) ->
  (forall h k, (h, k) ∈ fl -> k = size_of h) -> n <= free + fl_slots fl ->
  exists j, (j <= length fl)%nat /\
    evict_loop n free c fl fr =
      Ok (free + fl_slots (take j fl), drop_entries (fst <$> take j fl) c, drop j fl, fr ++ (fst <$> take j fl)) /\
    n <= free + fl_slots (take j fl) /\ (forall i, (i < j)%nat -> free + fl_slots (take i fl) < n) /\
    slots (drop_entries (fst <$> take j fl) c) = slots c - fl_slots (take j fl).
Proof.
  revert free c fr. induction fl as [|[h k] fl IH]; intros free c fr Hnd Hc Hsz Hn.
  - unfold fl_slots in Hn. simpl in Hn. exists 0%nat. simpl. rewrite (proj2 (Z.ltb_ge _ _)) by lia. simpl.
    unfold fl_slots. simpl. rewrite Z.add_0_r, app_nil_r. split_and!; [lia|done|lia|lia|unfold drop_entries; simpl; lia].
  - simpl evict_loop. rewrite fmap_cons in Hnd, Hc. apply NoDup_cons in Hnd as [Hh Hnd]. simpl fst in *.
    assert (Hcons : forall l, fl_slots ((h, k) :: l) = k + fl_slots l) by done.
    rewrite Hcons in Hn. destruct (Z.ltb_spec free n) as [Hlt|Hge]; simpl negb; cbv iota.
    + destruct (Hc h) as [v Hv]; [left|]. rewrite Hv.
      assert (k = size_of h) as Hk by (apply Hsz; left).
      destruct (IH (free + k) (delete h c) (fr ++ [h])) as (j & Hj & -> & Hge & Hmin & Hsl).
      * done.
      * intros h' Hin. rewrite lookup_delete_ne by set_solver. apply Hc. by right.
      * intros h' k' Hin. apply Hsz. by right.
      * lia.
      * exists (S j). rewrite firstn_cons, skipn_cons, fmap_cons, Hcons. simpl length. split_and!.
        -- lia.
        -- rewrite <- app_assoc. simpl. rewrite Z.add_assoc. done.
        -- lia.
        -- intros [|i] Hi; [rewrite take_0; unfold fl_slots; simpl; lia|]. rewrite firstn_cons, Hcons.
           specialize (Hmin i ltac:(lia)). lia.
        -- unfold drop_entries in *. simpl. rewrite Hsl, (slots_delete c h v Hv). lia.
    + exists 0%nat. rewrite take_0. unfold fl_slots. simpl. rewrite Z.add_0_r, app_nil_r.
      split_and!; [lia|done|lia|lia|unfold drop_entries; simpl; lia].
Qed.

Lemma fl_slots_app l1 l2 : fl_slots (l1 ++ l2) = fl_slots l1 + fl_slots l2.
Proof. unfold fl_slots. by rewrite fmap_app, sumZ_app. Qed.

(** Evicting a prefix of the unreferenced entries keeps the invariant. *)
Lemma evict_prefix_inv m j :
  ecm_inv m ->
  slots (drop_entries (fst <$> take j (freeable m)) (cached m)) = slots (cached m) - fl_slots (take j (freeable m)) ->
  ecm_inv (mkECM (cache_size m) (num_free_slots m + fl_slots (take j (freeable m))) (num_freeable_slots m)
             (drop_entries (fst <$> take j (freeable m)) (cached m)) (drop j (freeable m))
             (freed m ++ (fst <$> take j (freeable m)))).
Proof.
  intros (Hnd & Hfr & Hsz & Hfree & Hpos & Hfs) Hsl.
  set (pre := take j (freeable m)) in *. set (post := drop j (freeable m)).
  assert (Hsplit : freeable m = pre ++ post) by (symmetry; apply take_drop).
  rewrite Hsplit in Hnd. rewrite fmap_app in Hnd. apply NoDup_app in Hnd as (_ & Hdisj & Hnd).
  assert (Hsum : fl_slots (freeable m) = fl_slots pre + fl_slots post) by by rewrite Hsplit, fl_slots_app.
  unfold ecm_inv; split_and!; simpl.
  - done.
  - intros h. rewrite lookup_drop_entries. destruct (decide (h ∈ pre.*1)) as [Hin|Hnin].
    + split; [done|]. intros Hp. by destruct (Hdisj h Hin).
    + rewrite Hfr, Hsplit, fmap_app, elem_of_app. tauto.
  - intros h n Hin. apply Hsz. rewrite Hsplit. set_solver.
  - lia.
  - assert (0 <= fl_slots pre); [|lia]. apply sumZ_nonneg, Forall_forall.
    intros x ([h n] & -> & Hin)%list_elem_of_fmap. simpl. rewrite (Hsz h n); [done|]. rewrite Hsplit. set_solver.
  - lia.
Qed.

(** What [can_allocate] decides and does. *)
Lemma can_allocate_ok r i budget sched m :
  sized r -> 0 <= i < py_len (mm_features r) -> ecm_inv m ->
  exists f b j m', mm_features r !! Z.to_nat i = Some f /\ can_allocate r i budget sched m = Ok (b, m') /\ ecm_inv m' /\
    let n := size_of (identifier f) in
    b = (n <=? budget) && ((n + sched <=? num_free_slots m) || (n + sched <=? num_freeable_slots m)) /\
    (b = true -> n + sched <= num_free_slots m') /\
    (forall l, (l < j)%nat -> num_free_slots m + fl_slots (take l (freeable m)) < n + sched) /\
    freeable m' = drop j (freeable m) /\ freed m' = freed m ++ (fst <$> take j (freeable m)) /\
    cached m' = drop_entries (fst <$> take j (freeable m)) (cached m) /\
    num_free_slots m' = num_free_slots m + fl_slots (take j (freeable m)).
Proof.
  intros Hs Hi Hinv. destruct (feature_at r i Hs Hi) as (f & Hf & _ & En).
  unfold can_allocate. rewrite En. cbn [mbind result_bind]. set (n := size_of (identifier f)).
  assert (Hsame : forall b, b = (n <=? budget) && ((n + sched <=? num_free_slots m) || (n + sched <=? num_freeable_slots m)) ->
    (b = true -> n + sched <= num_free_slots m) -> exists f0 b0 j m', mm_features r !! Z.to_nat i = Some f0 /\
     Ok (b, m) = Ok (b0, m') /\ ecm_inv m' /\ let n := size_of (identifier f0) in
    b0 = (n <=? budget) && ((n + sched <=? num_free_slots m) || (n + sched <=? num_freeable_slots m)) /\
    (b0 = true -> n + sched <= num_free_slots m') /\
    (forall l, (l < j)%nat -> num_free_slots m + fl_slots (take l (freeable m)) < n + sched) /\
    freeable m' = drop j (freeable m) /\ freed m' = freed m ++ (fst <$> take j (freeable m)) /\
    cached m' = drop_entries (fst <$> take j (freeable m)) (cached m) /\
    num_free_slots m' = num_free_slots m + fl_slots (take j (freeable m))).
  { intros b Hb Hfree. exists f, b, 0%nat, m. rewrite take_0. simpl. rewrite app_nil_r. fold n.
    split_and!; try done; [lia|]. unfold fl_slots. simpl. lia. }
  destruct (Z.ltb_spec budget n) as [Hb|Hb].
  { apply Hsame; [|done]. by rewrite (proj2 (Z.leb_gt n budget)). }
  rewrite (proj2 (Z.leb_le n budget)) in Hsame by lia.
  destruct (Z.leb_spec (n + sched) (num_free_slots m)) as [Hf1|Hf1]; [by apply Hsame|].
  destruct (Z.ltb_spec (num_freeable_slots m) (n + sched)) as [Hf2|Hf2].
  { apply Hsame; [|done]. by rewrite (proj2 (Z.leb_gt (n + sched) (num_freeable_slots m))). }
  clear Hsame. pose proof Hinv as (Hnd & Hfr & Hsz & Hfree & Hpos & Hfs).
  destruct (evict_loop_ok (n + sched) (num_free_slots m) (cached m) (freeable m) (freed m))
    as (j & Hj & -> & Hge & Hmin & Hsl); [done| |done|lia|].
  { intros h Hin%Hfr. eauto. }
  cbn [mbind result_bind]. exists f, true, j. eexists. fold n.
  split_and!; [done|done|by apply evict_prefix_inv| |done..].
  symmetry. apply andb_true_iff. split; [apply Z.leb_le; lia|]. apply orb_true_iff. right. apply Z.leb_le. lia.
Qed.

Lemma allocate_ok r i m f :
  sized r -> 0 <= i -> mm_features r !! Z.to_nat i = Some f -> ecm_inv m ->
  cached m !! identifier f = None -> size_of (identifier f) <= num_free_slots m ->
  exists m', allocate r i m = Ok m' /\ ecm_inv m' /\ cached m' = <[identifier f := {[request_id r]}]> (cached m) /\
    num_free_slots m' = num_free_slots m - size_of (identifier f) /\ freeable m' = freeable m /\ freed m' = freed m.
Proof.
  intros Hs Hi Hf (Hnd & Hfr & Hsz & Hfree & Hpos & Hfs) Hc Hroom.
  destruct (feature_at r i Hs) as (f' & Hf' & E & En); [apply lookup_lt_Some in Hf; unfold py_len; lia|].
  rewrite Hf in Hf'. injection Hf' as <-.
  unfold allocate. rewrite E. cbn [mbind result_bind]. rewrite Hc, En. cbn [mbind result_bind].
  assert (0 <= fl_slots (freeable m)).
  { apply sumZ_nonneg, Forall_forall. intros x ([h n] & -> & Hin)%list_elem_of_fmap. simpl. by rewrite (Hsz h n). }
  unfold py_assert. rewrite !(proj2 (Z.leb_le _ _)) by lia. cbn [mbind result_bind].
  rewrite lookup_insert_eq. cbn [of_option mbind result_bind]. eexists. split; [done|]. simpl.
  rewrite insert_insert_eq, union_empty_r_L. split_and!; try done. unfold ecm_inv; split_and!; simpl; try done.
  - intros h. destruct (decide (h = identifier f)) as [->|Hne].
    + rewrite lookup_insert_eq. rewrite <- Hfr, Hc. split; [intros [=]; set_solver|done].
    + rewrite lookup_insert_ne by done. apply Hfr.
  - rewrite slots_insert by done. lia.
  - lia.
  - lia.
Qed.

(** Whether [r] is the only request that references the entry. *)
Definition last_ref (r : Request) (h : option string) (m : EncoderCacheManager) : bool :=
  match cached m !! h with Some refs => bool_decide (refs <> ∅ /\ refs ⊆ {[request_id r]}) | None => false end.

Lemma free_input_ok r i m :
  sized r -> 0 <= i < py_len (mm_features r) -> ecm_inv m ->
  exists f m', mm_features r !! Z.to_nat i = Some f /\ free_encoder_input r i m = Ok m' /\ ecm_inv m' /\
    let h := identifier f in
    cached m' = alter (fun refs => refs ∖ {[request_id r]}) h (cached m) /\
    num_free_slots m' = num_free_slots m /\ freed m' = freed m /\
    freeable m' = freeable m ++ (if last_ref r h m then [(h, size_of h)] else []).
Proof.
  intros Hs Hi Hinv. pose proof Hinv as (Hnd & Hfr & Hsz & Hfree & Hpos & Hfs).
  destruct (feature_at r i Hs Hi) as (f & Hf & E & En). exists f. unfold free_encoder_input, last_ref.
  rewrite E. cbn [mbind result_bind]. set (h := identifier f).
  destruct (cached m !! h) as [refs|] eqn:Hc.
  2: { exists m. rewrite app_nil_r. split_and!; try done. symmetry. apply map_eq. intros h'.
    destruct (decide (h' = h)) as [->|]; [rewrite lookup_alter_eq, Hc|rewrite lookup_alter_ne]; done. }
  destruct (decide (refs = ∅)) as [->|Hne].
  { exists m. rewrite bool_decide_false by tauto. rewrite app_nil_r. split_and!; try done.
    symmetry. apply map_eq. intros h'. destruct (decide (h' = h)) as [->|]; [|by rewrite lookup_alter_ne].
    rewrite lookup_alter_eq, Hc. simpl. by rewrite empty_difference_L. }
  assert (Halter : <[h := refs ∖ {[request_id r]}]> (cached m) = alter (fun refs => refs ∖ {[request_id r]}) h (cached m)).
  { apply map_eq. intros h'. destruct (decide (h' = h)) as [->|]; [|by rewrite lookup_insert_ne, lookup_alter_ne].
    by rewrite lookup_insert_eq, lookup_alter_eq, Hc. }
  assert (Hnin : h ∉ fst <$> freeable m) by (rewrite <- Hfr, Hc; congruence).
  destruct (decide (refs ∖ {[request_id r]} = ∅)) as [Hempty|Hmore].
  - rewrite bool_decide_true by (split; [done|by apply difference_empty_sub]). rewrite En. cbn [mbind result_bind]. fold h.
    rewrite odict_set_new by done. eexists. split_and!; try done. unfold ecm_inv; split_and!; simpl; try done.
    + rewrite fmap_app. apply NoDup_app. split_and!; [done|set_solver|]. apply NoDup_singleton.
    + intros h'. rewrite fmap_app, elem_of_app. change (fst <$> [(h, size_of h)]) with [h]. rewrite list_elem_of_singleton.
      destruct (decide (h' = h)) as [->|Hd].
      * rewrite lookup_insert_eq, Hempty. split; [by right|done].
      * rewrite lookup_insert_ne by done. rewrite Hfr. tauto.
    + intros h' k [Hin|Hin]%elem_of_app; [by apply Hsz|]. apply list_elem_of_singleton in Hin. congruence.
    + rewrite (slots_update _ h refs) by done. done.
    + rewrite fl_slots_app. unfold fl_slots at 2. simpl. lia.
  - rewrite bool_decide_false by (intros [_ Hsub]; apply Hmore, leibniz_equiv, subseteq_empty_difference, Hsub). rewrite app_nil_r. eexists. split_and!; try done.
    unfold ecm_inv; split_and!; simpl; try done.
    + intros h'. destruct (decide (h' = h)) as [->|Hd].
      * rewrite lookup_insert_eq, <- Hfr, Hc. split; congruence.
      * rewrite lookup_insert_ne by done. apply Hfr.
    + rewrite (slots_update _ h refs) by done. done.
Qed.

(** ** Histories of calls *)
Inductive ecm_call :=
| Check (r : Request) (input_id : Z)
| CanAllocate (r : Request) (input_id budget to_schedule : Z)
| Allocate (r : Request) (input_id : Z)
| FreeInput (r : Request) (input_id : Z)
| Free (r : Request) (order : list Z)
| TakeFreed
| ResetCache.

Definition exec (c : ecm_call) (m : EncoderCacheManager) : result EncoderCacheManager :=
  match c with
  | Check r i => '(_, m) ← check_and_update_cache r i m; Ok m
  | CanAllocate r i b n => '(_, m) ← can_allocate r i b n m; Ok m
  | Allocate r i => allocate r i m
  | FreeInput r i => free_encoder_input r i m
  | Free r order => ecm_free r order m
  | TakeFreed => Ok (snd (get_freed_mm_hashes m))
  | ResetCache => Ok (ecm_reset m)
  end.

(** Calls name an input of a request whose sizes are known; [allocate] is called
    for an input that is not cached and fits, as after [can_allocate]. *)
Definition valid_input (r : Request) (i : Z) : Prop := sized r /\ 0 <= i < py_len (mm_features r).
Definition admissible (m : EncoderCacheManager) (c : ecm_call) : Prop :=
  match c with
  | Check r i | CanAllocate r i _ _ | FreeInput r i => valid_input r i
  | Allocate r i => valid_input r i /\ exists f, mm_features r !! Z.to_nat i = Some f /\
      cached m !! identifier f = None /\ size_of (identifier f) <= num_free_slots m
  | Free r order => sized r /\ order ≡ₚ get_cached_input_ids r m
  | TakeFreed | ResetCache => True
  end.

(** The states reached from a cache of [size] slots. *)
Inductive reachable (size : Z) : EncoderCacheManager -> Prop :=
| reach_init : reachable size (ecm_init size)
| reach_call m c m' : reachable size m -> admissible m c -> exec c m = Ok m' -> reachable size m'.

Lemma free_list_ok r ids m :
  sized r -> (forall i, i ∈ ids -> 0 <= i < py_len (mm_features r)) -> ecm_inv m ->
  exists m', ecm_free r ids m = Ok m' /\ ecm_inv m'.
Proof.
  intros Hs Hr Hinv. unfold ecm_free.
  apply (foldM_inv (fun m i => free_encoder_input r i m) (fun _ m => ecm_inv m)); [done|].
  intros pre i post m1 El Hm1. destruct (free_input_ok r i m1 Hs) as (f & m2 & _ & E & Hm2 & _); [|done|by exists m2].
  apply Hr. rewrite El. set_solver.
Qed.

(** The unreferenced entries take at most the slots of all entries. *)
Lemma fl_slots_le (fl : list (option string * Z)) (c : gmap (option string) (gset string)) :
  NoDup (fst <$> fl) -> (forall h, h ∈ fst <$> fl -> is_Some (c !! h)) -> (forall h n, (h, n) ∈ fl -> n = size_of h) ->
  0 <= fl_slots fl <= slots c.
Proof.
  revert c. induction fl as [|[h k] fl IH]; intros c Hnd Hc Hsz.
  - split; [done|]. unfold fl_slots, slots. simpl. apply sumZ_nonneg, Forall_forall.
    intros x (p & -> & _)%list_elem_of_fmap. apply size_nonneg.
  - rewrite fmap_cons in Hnd, Hc. apply NoDup_cons in Hnd as [Hh Hnd]. simpl fst in *.
    destruct (Hc h) as [v Hv]; [left|]. assert (k = size_of h) as -> by (apply Hsz; left).
    destruct (IH (delete h c)) as [H0 H1].
    + done.
    + intros h' Hin. rewrite lookup_delete_ne by set_solver. apply Hc. by right.
    + intros h' n Hin. apply Hsz. by right.
    + rewrite (slots_delete c h v Hv) in H1. unfold fl_slots in *. rewrite fmap_cons, sumZ_cons. simpl snd.
      pose proof (size_nonneg h). lia.
Qed.

(** No call changes the size of the cache. *)
Lemma free_input_size r i m m' : free_encoder_input r i m = Ok m' -> cache_size m' = cache_size m.
Proof.
  unfold free_encoder_input. intros H. inv_ok. destruct (cached m !! _); [|by inv_ok].
  destruct (decide _); [by inv_ok|]. destruct (decide _); by inv_ok.
Qed.

Lemma exec_cache_size c m m' : exec c m = Ok m' -> cache_size m' = cache_size m.
Proof.
  destruct c as [r i|r i b n|r i|r i|r order| |]; simpl; intros H.
  - inv_ok. destruct x as [b m1]. inv_ok. unfold check_and_update_cache in H0. inv_ok.
    destruct (cached m !! _); [|by inv_ok]. inv_ok. destruct x0. by inv_ok.
  - inv_ok. destruct x as [b' m1]. inv_ok. unfold can_allocate in H0. inv_ok.
    destruct (_ <? _); [by inv_ok|]. destruct (_ <=? _); [by inv_ok|]. destruct (_ <? _); [by inv_ok|].
    inv_ok. destruct x0 as [[[? ?] ?] ?]. by inv_ok.
  - unfold allocate in H. by inv_ok.
  - by eapply free_input_size.
  - revert m H. unfold ecm_free. induction order as [|i order IH]; simpl; intros m H; [by inv_ok|].
    inv_ok. rewrite (IH _ H). by eapply free_input_size.
  - by inv_ok.
  - by inv_ok.
Qed.

Lemma exec_ok m c : ecm_inv m -> 0 <= cache_size m -> admissible m c -> exists m', exec c m = Ok m' /\ ecm_inv m'.
Proof.
  intros Hinv Hsize. destruct c as [r i|r i b n|r i|r i|r order| |]; simpl.
  - intros [Hs Hi]. destruct (check_ok r i m Hs Hi Hinv) as (f & b & m' & _ & -> & Hinv' & _). by exists m'.
  - intros [Hs Hi]. destruct (can_allocate_ok r i b n m Hs Hi Hinv) as (f & b' & j & m' & _ & -> & Hinv' & _). by exists m'.
  - intros ([Hs Hi] & f & Hf & Hc & Hroom). destruct (allocate_ok r i m f) as (m' & E & Hinv' & _); [done|lia|done..|]. by exists m'.
  - intros [Hs Hi]. destruct (free_input_ok r i m Hs Hi Hinv) as (f & m' & _ & E & Hinv' & _). by exists m'.
  - intros [Hs Ho]. apply free_list_ok; [done| |done]. intros i. rewrite Ho. unfold get_cached_input_ids.
    intros [_ Hi]%list_elem_of_filter. unfold py_range in Hi. apply elem_of_seqZ in Hi. lia.
  - intros _. eexists. split; [done|]. destruct Hinv as (? & ? & ? & ? & ? & ?). by split_and!.
  - intros _. eexists. split; [done|]. apply (ecm_init_inv (cache_size m) Hsize).
Qed.

(** C20: After any admissible history of calls on an encoder cache of [size]
    slots the next admissible call returns, and in the resulting state the
    reclaimable entries are exactly the unreferenced ones, the free slots are
    the size less the slots of all cached entries, the reclaimable slots add the
    unreferenced entries to them, and both counters lie between 0 and [size]. *)
Theorem encoder_cache_calls_safe size m c :
  0 <= size -> reachable size m -> admissible m c ->
  exists m', exec c m = Ok m' /\ ecm_inv m' /\ 0 <= num_free_slots m' <= num_freeable_slots m' /\
    num_freeable_slots m' <= size.
Proof.
  intros Hsize Hreach Hadm.
  assert (Hinv : ecm_inv m /\ cache_size m = size).
  { clear c Hadm. induction Hreach as [|m c m' Hm [Hinv Hs] Hadm E]; [split; [by apply ecm_init_inv|done]|].
    destruct (exec_ok m c Hinv ltac:(lia) Hadm) as (m1 & E1 & Hinv1). rewrite E in E1. injection E1 as <-.
    split; [done|]. by rewrite (exec_cache_size c m m' E). }
  destruct Hinv as [Hinv Hs]. destruct (exec_ok m c Hinv ltac:(lia) Hadm) as (m' & E & Hinv').
  exists m'. split; [done|]. split; [done|]. apply exec_cache_size in E as Hs'.
  destruct Hinv' as (Hnd & Hfr & Hsz & Hfree & Hpos & Hfs).
  assert (0 <= fl_slots (freeable m') <= slots (cached m')); [|lia].
  apply fl_slots_le; [done| |done]. intros h Hin%Hfr. by exists ∅.
Qed.

(** [can_allocate] answers [true] exactly when the input is within the
    compute budget and, with what is already to be scheduled, within the
    reclaimable slots; it then leaves enough free slots.  It evicts the oldest
    unreferenced entries, no more of them than needed, reports them in [freed],
    and keeps every referenced entry. *)
Theorem can_allocate_correct r i budget sched m :
  sized r -> 0 <= i < py_len (mm_features r) -> ecm_inv m ->
  exists n b j m', get_num_encoder_embeds i r = Ok n /\ can_allocate r i budget sched m = Ok (b, m') /\
    (b = true <-> n <= budget /\ n + sched <= num_freeable_slots m) /\
    (b = true -> n + sched <= num_free_slots m') /\
    freeable m = take j (freeable m) ++ freeable m' /\ freed m' = freed m ++ (fst <$> take j (freeable m)) /\
    (forall l, (l < j)%nat -> num_free_slots m + fl_slots (take l (freeable m)) < n + sched) /\
    (forall h refs, refs <> ∅ -> cached m !! h = Some refs <-> cached m' !! h = Some refs).
Proof.
  intros Hs Hi Hinv. destruct (feature_at r i Hs Hi) as (f & Hf & _ & En).
  destruct (can_allocate_ok r i budget sched m Hs Hi Hinv)
    as (f' & b & j & m' & Hf' & E & Hinv' & Hb & Hroom & Hmin & Hfl & Hfd & Hc & _).
  rewrite Hf in Hf'. injection Hf' as <-. exists (size_of (identifier f)), b, j, m'. cbv zeta in *.
  pose proof Hinv as (Hnd & Hfr & Hsz & _ & _ & Hfs).
  assert (0 <= fl_slots (freeable m)).
  { apply sumZ_nonneg, Forall_forall. intros x ([h n] & -> & Hin)%list_elem_of_fmap. simpl. by rewrite (Hsz h n). }
  split_and!; try done.
  - rewrite Hb, andb_true_iff, orb_true_iff, !Z.leb_le. lia.
  - by rewrite Hfl, take_drop.
  - intros h refs Hne. rewrite Hc, lookup_drop_entries. destruct (decide (h ∈ _)) as [Hin|]; [|done].
    split; [|done]. intros Hl. exfalso. apply Hne.
    assert (Hk : h ∈ fst <$> freeable m) by (rewrite <- (take_drop j (freeable m)), fmap_app, elem_of_app; by left).
    apply Hfr in Hk. congruence.
Qed.
End Accounting.

(** * The budget *)

Lemma fold_max_ge l x y : y = x \/ y ∈ l -> y <= fold_left Z.max l x.
Proof.
  assert (Hge : forall l x, x <= fold_left Z.max l x).
  { clear. intros l. induction l as [|z l IH]; intros x; simpl; [lia|]. specialize (IH (Z.max x z)). lia. }
  revert x. induction l as [|z l IH]; intros x; simpl.
  - intros [->|Hin%elem_of_nil]; [lia|done].
  - intros [->|[->|Hin]%elem_of_cons].
    + specialize (Hge l (Z.max x z)). lia.
    + specialize (Hge l (Z.max x z)). lia.
    + apply IH. by right.
Qed.

(** The encoder budget covers every modality: with both budgets any single
    item can be computed and cached, so an input of an admissible size can be
    scheduled once the cache is empty; the call raises [ValueError] exactly when
    chunking is disabled and an item exceeds the batch. *)
Theorem encoder_budget_covers cfg toks :
  match compute_mm_encoder_budget cfg toks with
  | Ok (budget, size) =>
      (forall n, n ∈ toks -> n <= budget /\ n <= size /\
         (disable_chunked_mm_input cfg = true -> n <= max_num_batched_tokens cfg)) /\
      (forall r i n, get_num_encoder_embeds i r = Ok n -> n ∈ toks ->
         can_allocate r i budget 0 (ecm_init size) = Ok (true, ecm_init size))
  | Err e => e = ValueError /\ disable_chunked_mm_input cfg = true /\
             exists n, n ∈ toks /\ max_num_batched_tokens cfg < n
  end.
Proof.
  unfold compute_mm_encoder_budget. destruct toks as [|x l].
  { split; [by intros n ?%elem_of_nil|by intros r i n _ ?%elem_of_nil]. }
  assert (Hmax : forall n, n ∈ x :: l -> n <= fold_left Z.max l x).
  { intros n Hn%elem_of_cons. apply fold_max_ge. tauto. }
  cbv zeta. destruct (disable_chunked_mm_input cfg && _) eqn:E.
  - apply andb_true_iff in E as [E1 E2%Z.ltb_lt]. split; [done|]. split; [done|].
    exists (fold_left Z.max l x). split; [|done]. clear. revert x. induction l as [|z l IH]; intros x; simpl; [left|].
    specialize (IH (Z.max x z)). apply elem_of_cons in IH as [->|IH]; [|by do 2 right].
    destruct (Z.max_spec x z) as [[_ ->]|[_ ->]]; [right; left|left].
  - split.
    + intros n Hn%Hmax. split; [lia|]. split; [lia|]. intros Ed. rewrite Ed in E. simpl in E. apply Z.ltb_ge in E. lia.
    + intros r i n En Hn%Hmax. unfold can_allocate. rewrite En. cbn [mbind result_bind].
      rewrite (proj2 (Z.ltb_ge _ n)) by lia. simpl num_free_slots. rewrite (proj2 (Z.leb_le _ _)) by lia. done.
Qed.

(** * Concrete runs *)
Module EncoderExamples.
Local Open Scope string_scope.
Local Open Scope list_scope.
Local Open Scope Z_scope.
Definition feat (id : string) (off n : Z) : MultiModalFeatureSpec := mkFeature (Some id) (mkRange off n None).
Definition req (id : string) (fs : list MultiModalFeatureSpec) (computed : Z) : Request :=
  mkRequest id RUNNING 16 (Some []) None 0 [] [] [] 0 computed 0 0 None fs None false [].

(** Identifier a has 4 embeddings, b 3, any other 2. *)
Definition size_of (h : option string) : Z :=
  if decide (h = Some "a") then 4 else if decide (h = Some "b") then 3 else 2.

Definition r1 : Request := req "r1" [feat "a" 0 4; feat "b" 4 3] 0.
Definition r2 : Request := req "r2" [feat "c" 0 2; feat "b" 2 3] 0.

Lemma size_of_nonneg h : 0 <= size_of h.
Proof. unfold size_of. repeat case_decide; lia. Qed.

Lemma sized_cons id id' fs f c :
  get_num_embeds (mm_position f) = Ok (size_of (identifier f)) -> sized size_of (req id' fs c) ->
  sized size_of (req id (f :: fs) c).
Proof. intros Hf Hs g [->|Hg]%elem_of_cons; [done|by apply Hs]. Qed.

Lemma r1_sized : sized size_of r1.
Proof. repeat (apply (sized_cons _ "r1"); [reflexivity|]). intros g Hg%elem_of_nil. done. Qed.

(** A cache of 8 slots in which r1 has computed and released input a. *)
Definition m1 : EncoderCacheManager := mkECM 8 4 8 {[Some "a" := ∅]} [(Some "a", 4)] [].

Example m1_reached :
  (m ← allocate r1 0 (ecm_init 8); free_encoder_input r1 0 m) = Ok m1.
Proof. vm_compute. reflexivity. Qed.

Lemma m1_reachable : reachable size_of 8 m1.
Proof.
  assert (exists m, exec (Allocate r1 0) (ecm_init 8) = Ok m /\ exec (FreeInput r1 0) m = Ok m1) as (m & E1 & E2).
  { eexists. split; vm_compute; reflexivity. }
  apply (reach_call _ _ m (FreeInput r1 0)); [|split; [apply r1_sized|vm_compute; split; [discriminate|reflexivity]]|done].
  apply (reach_call _ _ (ecm_init 8) (Allocate r1 0)); [constructor| |done].
  split; [split; [apply r1_sized|vm_compute; split; [discriminate|reflexivity]]|].
  exists (feat "a" 0 4). split_and!; [reflexivity|reflexivity|vm_compute; discriminate].
Qed.

Lemma m1_inv : ecm_inv size_of m1.
Proof.
  split_and!; [| | |reflexivity|vm_compute; discriminate|reflexivity].
  - apply NoDup_singleton.
  - intros h. simpl. rewrite list_elem_of_singleton. unfold m1. simpl. destruct (decide (h = Some "a")) as [->|Hne].
    + rewrite lookup_singleton_eq. done.
    + rewrite lookup_singleton_ne by done. done.
  - intros h n Hin%list_elem_of_singleton. injection Hin as -> ->. reflexivity.
Qed.

Lemma encoder_cache_calls_safe_witness :
  exists m', exec (CanAllocate r1 1 8 4) m1 = Ok m' /\ ecm_inv size_of m' /\
    0 <= num_free_slots m' <= num_freeable_slots m' /\ num_freeable_slots m' <= 8.
Proof.
  apply (encoder_cache_calls_safe size_of size_of_nonneg); [lia|apply m1_reachable|].
  split; [apply r1_sized|vm_compute; split; [discriminate|reflexivity]].
Defined.

Lemma can_allocate_correct_witness :
  exists n b j m', get_num_encoder_embeds 1 r1 = Ok n /\ can_allocate r1 1 8 4 m1 = Ok (b, m') /\
    (b = true <-> n <= 8 /\ n + 4 <= num_freeable_slots m1) /\
    (b = true -> n + 4 <= num_free_slots m') /\
    freeable m1 = take j (freeable m1) ++ freeable m' /\ freed m' = freed m1 ++ (fst <$> take j (freeable m1)) /\
    (forall l, (l < j)%nat -> num_free_slots m1 + fl_slots (take l (freeable m1)) < n + 4) /\
    (forall h refs, refs <> ∅ -> cached m1 !! h = Some refs <-> cached m' !! h = Some refs).
Proof.
  apply (can_allocate_correct size_of size_of_nonneg);
    [apply r1_sized|vm_compute; split; [discriminate|reflexivity]|apply m1_inv].
Defined.
End EncoderExamples.
