(* ===== verification/EncoderSched.v ===== *)
(** How the scheduler drives the encoder cache: [_try_schedule_encoder_inputs],
    the allocations that follow it, [_free_encoder_inputs] and
    [_get_encoder_cache_usage] of [src/vllm/v1/core/sched/scheduler.py], and
    [PlaceholderRange.get_embeds_indices_in_range].

    The scheduler is written against the interface of an encoder cache; the two
    managers are its instances. *)
From S2P Require Import Prelude Request Device EncoderCache.
Local Open Scope Z_scope.

(** * Placeholder ranges *)

(** [embeds_cumsum]. *)
Definition embeds_cumsum (p : PlaceholderRange) : option (list Z) :=
  (fun mask => cumsum (Z.b2z <$> mask)) <$> is_embed p.

(** [get_embeds_indices_in_range]. *)
Definition get_embeds_indices_in_range (p : PlaceholderRange) (start_idx end_idx : Z) : result (Z * Z) :=
  match embeds_cumsum p with
  | None => Ok (start_idx, end_idx)
  | Some cs =>
      embeds_start_idx ← (if 0 <? start_idx then py_index cs (start_idx - 1) else Ok 0);
      embeds_end_idx ← py_index cs (end_idx - 1);
      Ok (embeds_start_idx, embeds_end_idx)
  end.

(** * The interface of an encoder cache *)
Class EncoderCacheOps (S : Type) := {
  ec_check : Request -> Z -> S -> result (bool * S);
  ec_can_allocate : Request -> Z -> Z -> Z -> S -> result (bool * S);
  ec_allocate : Request -> Z -> S -> result S;
  ec_free_input : Request -> Z -> S -> result S;
  ec_cached_ids : Request -> S -> list Z;
}.

#[export] Instance ecm_ops : EncoderCacheOps EncoderCacheManager := {|
  ec_check := check_and_update_cache;
  ec_can_allocate := can_allocate;
  ec_allocate := allocate;
  ec_free_input := free_encoder_input;
  ec_cached_ids := get_cached_input_ids;
|}.

#[export] Instance edm_ops : EncoderCacheOps EncDec.EncoderDecoderCacheManager := {|
  ec_check := fun r i m => Ok (EncDec.check_and_update_cache r i m);
  ec_can_allocate := fun r i budget sched m => b ← EncDec.can_allocate r i budget sched m; Ok (b, m);
  ec_allocate := EncDec.allocate;
  ec_free_input := EncDec.free_encoder_input;
  ec_cached_ids := EncDec.get_cached_input_ids;
|}.

(** * The scheduler *)

(** The scheduler's settings; [has_cache_item] is the connector's test, when
    there is one. *)
Record SchedSettings := mkSettings {
  is_encoder_decoder : bool;
  disable_chunked_mm_input : bool;
  has_cache_item : option (option string -> bool);
}.

(** The local variables of [_try_schedule_encoder_inputs]. *)
Record locals := mkLocals {
  num_new_tokens : Z;
  compute_budget : Z;
  to_schedule : list Z;
  external_load : list Z;
  hashes_to_schedule : gset (option string);
  embeds_to_schedule : Z;
}.

Section Scheduler.
Context {S : Type} `{EC : EncoderCacheOps S}.
Variable cfg : SchedSettings.

(** The end of the loop body, once the input can be allocated. *)
Definition schedule_input (f : MultiModalFeatureSpec) (i num_computed_tokens : Z) (l : locals) : result locals :=
  let p := mm_position f in
  num_encoder_embeds ← get_num_embeds p;
  let start_idx_rel := Z.max 0 (num_computed_tokens - offset p) in
  let end_idx_rel := Z.min (length_ p) (num_computed_tokens + num_new_tokens l - offset p) in
  '(curr_start, curr_end) ← get_embeds_indices_in_range p start_idx_rel end_idx_rel;
  if curr_end - curr_start =? 0 then Ok l else
  let external := match has_cache_item cfg with Some test => test (identifier f) | None => false end in
  if external then
    Ok (mkLocals (num_new_tokens l) (compute_budget l) (to_schedule l) (external_load l ++ [i])
          ({[identifier f]} ∪ hashes_to_schedule l) (embeds_to_schedule l + num_encoder_embeds))
  else
    Ok (mkLocals (num_new_tokens l) (compute_budget l - num_encoder_embeds) (to_schedule l ++ [i]) (external_load l)
          ({[identifier f]} ∪ hashes_to_schedule l) (embeds_to_schedule l + num_encoder_embeds)).

Definition with_new_tokens (n : Z) (l : locals) : locals :=
  mkLocals n (compute_budget l) (to_schedule l) (external_load l) (hashes_to_schedule l) (embeds_to_schedule l).

(** The loop over the inputs from number [i] on; returning early is [break]. *)
Fixpoint encoder_loop (r : Request) (num_computed_tokens shift : Z) (fs : list MultiModalFeatureSpec) (i : Z)
    (l : locals) (m : S) : result (locals * S) :=
  match fs with
  | [] => Ok (l, m)
  | f :: fs =>
      let start_pos := offset (mm_position f) in
      let num_encoder_tokens := length_ (mm_position f) in
      _ ← get_num_embeds (mm_position f);
      if num_computed_tokens + num_new_tokens l + shift <=? start_pos then Ok (l, m) else
      if is_encoder_decoder cfg && (0 <? num_computed_tokens) then
        _ ← py_assert (start_pos =? 0);
        encoder_loop r num_computed_tokens shift fs (i + 1) l m
      else if start_pos + num_encoder_tokens <=? num_computed_tokens then
        encoder_loop r num_computed_tokens shift fs (i + 1) l m
      else
      '(skip, m) ← (if is_encoder_decoder cfg then Ok (false, m)
                    else if bool_decide (identifier f ∈ hashes_to_schedule l) then Ok (true, m)
                    else ec_check r i m);
      if skip : bool then encoder_loop r num_computed_tokens shift fs (i + 1) l m else
      if disable_chunked_mm_input cfg && (num_computed_tokens <? start_pos)
         && (num_computed_tokens + num_new_tokens l <? start_pos + num_encoder_tokens)
      then Ok (with_new_tokens (start_pos - num_computed_tokens) l, m) else
      '(ok, m) ← ec_can_allocate r i (compute_budget l) (embeds_to_schedule l) m;
      if negb ok then
        if num_computed_tokens + shift <? start_pos
        then Ok (with_new_tokens (start_pos - (num_computed_tokens + shift)) l, m)
        else Ok (with_new_tokens 0 l, m)
      else
        l ← schedule_input f i num_computed_tokens l;
        encoder_loop r num_computed_tokens shift fs (i + 1) l m
  end.

(** [_try_schedule_encoder_inputs]. *)
Definition try_schedule_encoder_inputs (r : Request) (num_computed_tokens num_new encoder_compute_budget shift : Z)
    (m : S) : result (locals * S) :=
  let l := mkLocals num_new encoder_compute_budget [] [] ∅ 0 in
  if (num_new =? 0) || negb (has_encoder_inputs r) then Ok (l, m)
  else encoder_loop r num_computed_tokens shift (mm_features r) 0 l m.

(** The allocations of [schedule] for the inputs chosen. *)
Definition allocate_inputs (r : Request) (l : locals) (m : S) : result S :=
  m ← foldM (fun m i => ec_allocate r i m) (to_schedule l) m;
  foldM (fun m i => ec_allocate r i m) (external_load l) m.

(** [_free_encoder_inputs]; [order] lists the cached inputs as iterated. *)
Definition free_step (r : Request) (m : S) (input_id : Z) : result S :=
  f ← py_index (mm_features r) input_id;
  if (is_encoder_decoder cfg && (0 <? num_computed_tokens r))
     || (offset (mm_position f) + length_ (mm_position f) <=? num_computed_tokens r)
  then ec_free_input r input_id m else Ok m.
Definition free_encoder_inputs (r : Request) (m : S) : result S :=
  foldM (free_step r) (ec_cached_ids r m) m.
End Scheduler.

(** [_get_encoder_cache_usage], as numerator and denominator. *)
Definition get_encoder_cache_usage (cache_size num_free_slots : Z) : Z * Z :=
  if cache_size =? 0 then (0, 1) else (cache_size - num_free_slots, cache_size).

(** * Embedding positions of a placeholder *)

(** Position [k] of the placeholder is filled with an encoder embedding. *)
Definition is_embed_at (p : PlaceholderRange) (k : Z) : Prop :=
  0 <= k < length_ p /\ match is_embed p with None => True | Some mask => mask !! Z.to_nat k = Some true end.

(** A placeholder is not empty and a mask has one entry per position. *)
Definition wf_range (p : PlaceholderRange) : Prop :=
  0 < length_ p /\ match is_embed p with None => True | Some mask => py_len mask = length_ p end.

Lemma cumsum_from_lookup_b acc mask i :
  (i < length mask)%nat ->
  cumsum_from acc (Z.b2z <$> mask) !! i = Some (acc + sumZ (Z.b2z <$> take (S i) mask)).
Proof.
  revert acc i; induction mask as [|b mask IH]; intros acc i Hi; [simpl in Hi; lia|].
  destruct i as [|i]; [simpl; f_equal; lia|]. simpl in Hi.
  change (cumsum_from (acc + Z.b2z b) (Z.b2z <$> mask) !! i = Some (acc + (Z.b2z b + sumZ (Z.b2z <$> take (S i) mask)))).
  rewrite IH by lia. f_equal. lia.
Qed.

Lemma py_index_cumsum mask i :
  0 <= i < py_len mask ->
  py_index (cumsum (Z.b2z <$> mask)) i = Ok (sumZ (Z.b2z <$> take (Z.to_nat (i + 1)) mask)).
Proof.
  unfold py_len. intros Hi. rewrite py_index_nonneg by lia. unfold cumsum.
  rewrite cumsum_from_lookup_b by lia. rewrite Z.add_0_l. by replace (S (Z.to_nat i)) with (Z.to_nat (i + 1)) by lia.
Qed.

Lemma length_cumsum_from acc l : length (cumsum_from acc l) = length l.
Proof. revert acc; induction l as [|x l IH]; intros acc; simpl; [done|]. by rewrite IH. Qed.

Lemma sum_true_zero mask k : sumZ (Z.b2z <$> mask) = 0 -> mask !! k <> Some true.
Proof.
  revert k; induction mask as [|b mask IH]; intros k; [done|]. rewrite fmap_cons. simpl.
  assert (0 <= sumZ (Z.b2z <$> mask)).
  { apply sumZ_nonneg, Forall_forall. intros x (c & -> & _)%list_elem_of_fmap. destruct c; simpl; lia. }
  destruct b; simpl; [lia|]. intros Hs. destruct k; [done|]. apply IH. lia.
Qed.

Lemma sum_range_zero mask a b :
  (a <= b)%nat -> sumZ (Z.b2z <$> take b mask) = sumZ (Z.b2z <$> take a mask) ->
  forall k, (a <= k < b)%nat -> mask !! k <> Some true.
Proof.
  intros Hab Hsum k Hk. rewrite <- (take_drop a (take b mask)) in Hsum.
  rewrite take_take, Nat.min_l, fmap_app, sumZ_app in Hsum by lia.
  assert (Hz : sumZ (Z.b2z <$> drop a (take b mask)) = 0) by lia.
  pose proof (sum_true_zero _ (k - a) Hz) as Hn. rewrite lookup_drop, lookup_take_lt in Hn by lia.
  by replace (a + (k - a))%nat with k in Hn by lia.
Qed.

(** The range query never raises on the ranges the scheduler asks for, and an
    empty answer means the range holds no embedding. *)
Lemma embeds_range_ok p a b :
  wf_range p -> 0 <= a < length_ p -> 0 <= b <= length_ p -> (a <= b \/ a = 0) ->
  exists s e, get_embeds_indices_in_range p a b = Ok (s, e) /\
    (e - s = 0 -> forall k, a <= k < b -> ~ is_embed_at p k).
Proof.
  intros [_ Hwf] Ha Hb Hab. unfold get_embeds_indices_in_range, embeds_cumsum, wf_range, is_embed_at in *.
  destruct (is_embed p) as [mask|]; simpl.
  2: { exists a, b. split; [done|]. lia. }
  assert (exists s, (if 0 <? a then py_index (cumsum (Z.b2z <$> mask)) (a - 1) else Ok 0) = Ok s /\
     s = sumZ (Z.b2z <$> take (Z.to_nat a) mask)) as (s & -> & Hs).
  { destruct (Z.ltb_spec 0 a); [|exists 0; split; [done|]; by replace (Z.to_nat a) with 0%nat by lia].
    rewrite py_index_cumsum by lia. eexists. split; [done|]. by replace (a - 1 + 1) with a by lia. }
  cbn [mbind result_bind]. destruct (decide (b = 0)) as [->|Hb0].
  - destruct (py_index (cumsum (Z.b2z <$> mask)) (0 - 1)) as [e|] eqn:E.
    + cbn [mbind result_bind]. eexists _, _. split; [done|]. intros _ k Hk. lia.
    + exfalso. unfold py_index, cumsum in E. rewrite length_cumsum_from, length_fmap in E. unfold py_len in Hwf.
      change (0 - 1) with (-1) in E. change (-1 <? 0) with true in E. cbv iota zeta in E.
      rewrite (proj2 (Z.ltb_ge _ 0)) in E by lia.
      destruct (lookup_lt_is_Some_2 (cumsum_from 0 (Z.b2z <$> mask)) (Z.to_nat (Z.of_nat (length mask) + -1))) as [x Hx].
      { rewrite length_cumsum_from, length_fmap. lia. }
      by rewrite Hx in E.
  - rewrite py_index_cumsum by lia. cbn [mbind result_bind]. eexists _, _. split; [done|].
    intros Hz k Hk [_ Hm]. rewrite Hs in Hz.
    replace (Z.to_nat (b - 1 + 1)) with (Z.to_nat b) in Hz by lia.
    apply (sum_range_zero mask (Z.to_nat a) (Z.to_nat b) ltac:(lia) ltac:(lia) (Z.to_nat k) ltac:(lia) Hm).
Qed.

(** * Planning and allocating *)
Section Plan.
Variable size_of : option string -> Z.
Hypothesis size_nonneg : forall h, 0 <= size_of h.
Variable cfg : SchedSettings.
Hypothesis not_encdec : is_encoder_decoder cfg = false.
Variable r : Request.
Hypothesis r_sized : sized size_of r.
Hypothesis r_wf : forall f, f ∈ mm_features r -> wf_range (mm_position f).
Variables (nc shift : Z).
Hypothesis shift_ok : 0 <= shift <= 1.

(** The identifier of input [i]. *)
Definition hash_of (i : Z) : option string :=
  match mm_features r !! Z.to_nat i with Some f => identifier f | None => None end.

Definition planned_ids (l : locals) : list Z := to_schedule l ++ external_load l.

(** The inputs planned so far are distinct, not cached, and fit together. *)
Definition plan (l : locals) (m : EncoderCacheManager) : Prop :=
  ecm_inv size_of m /\
  (forall i, i ∈ planned_ids l -> 0 <= i < py_len (mm_features r)) /\
  NoDup (hash_of <$> planned_ids l) /\
  (forall h, h ∈ hashes_to_schedule l <-> h ∈ hash_of <$> planned_ids l) /\
  (forall h, h ∈ hashes_to_schedule l -> cached m !! h = None) /\
  embeds_to_schedule l = sumZ ((fun i => size_of (hash_of i)) <$> planned_ids l) /\
  embeds_to_schedule l <= num_free_slots m.

(** The entry is cached and referenced by the request. *)
Definition referenced (m : EncoderCacheManager) (h : option string) : Prop :=
  exists refs, cached m !! h = Some refs /\ request_id r ∈ refs.

Definition keeps_refs (m m' : EncoderCacheManager) : Prop := forall h, referenced m h -> referenced m' h.

Lemma keeps_refs_refl m : keeps_refs m m.
Proof. by intros h. Qed.

Lemma keeps_refs_trans m1 m2 m3 : keeps_refs m1 m2 -> keeps_refs m2 m3 -> keeps_refs m1 m3.
Proof. intros H1 H2 h Hh. by apply H2, H1. Qed.

Lemma plan_check l m i f :
  0 <= i -> mm_features r !! Z.to_nat i = Some f -> identifier f ∉ hashes_to_schedule l -> plan l m ->
  exists b m', check_and_update_cache r i m = Ok (b, m') /\ plan l m' /\ keeps_refs m m' /\
    (b = true -> referenced m' (identifier f)) /\ (b = false -> cached m' !! identifier f = None).
Proof.
  intros Hi Hf Hnot (Hinv & Hr & Hnd & Hh & Hunc & He & Hfit).
  destruct (check_ok size_of size_nonneg r i m) as (f' & b & m' & Hf' & E & Hinv' & Hb & Hc & Hfree & _ & _); [done| |done|].
  { apply lookup_lt_Some in Hf. unfold py_len. lia. }
  rewrite Hf in Hf'. injection Hf' as <-. exists b, m'. split; [done|].
  destruct b; rewrite Hc.
  - symmetry in Hb. apply bool_decide_eq_true in Hb as [refs Hrefs]. rewrite Hrefs in Hc. simpl in Hc.
    split_and!.
    + split_and!; [apply Hinv'..|done|done|done| |done|lia]. intros h Hin. rewrite Hc.
      rewrite lookup_insert_ne by congruence. by apply Hunc.
    + intros h (rf & Hl & Hrf). unfold referenced. rewrite Hc. destruct (decide (h = identifier f)) as [->|Hne].
      * rewrite lookup_insert_eq. eexists. split; [done|]. set_solver.
      * rewrite lookup_insert_ne by done. by exists rf.
    + intros _. unfold referenced. rewrite Hc, lookup_insert_eq. eexists. split; [done|]. set_solver.
    + done.
  - symmetry in Hb. apply bool_decide_eq_false in Hb. split_and!.
    + split_and!; [apply Hinv'..|done|done|done| |done|lia]. intros h Hin. rewrite Hc. by apply Hunc.
    + intros h. unfold referenced. by rewrite Hc.
    + done.
    + intros _. by apply eq_None_not_Some.
Qed.

Lemma plan_can_allocate l m i f :
  0 <= i -> mm_features r !! Z.to_nat i = Some f -> cached m !! identifier f = None -> plan l m ->
  exists b m', can_allocate r i (compute_budget l) (embeds_to_schedule l) m = Ok (b, m') /\ plan l m' /\ keeps_refs m m' /\
    cached m' !! identifier f = None /\
    (b = true -> size_of (identifier f) <= compute_budget l /\
                 size_of (identifier f) + embeds_to_schedule l <= num_free_slots m').
Proof.
  intros Hi Hf Hnone (Hinv & Hr & Hnd & Hh & Hunc & He & Hfit).
  destruct (can_allocate_ok size_of size_nonneg r i (compute_budget l) (embeds_to_schedule l) m)
    as (f' & b & j & m' & Hf' & E & Hinv' & Hb & Hroom & _ & _ & _ & Hc & Hfree); [done| |done|].
  { apply lookup_lt_Some in Hf. unfold py_len. lia. }
  rewrite Hf in Hf'. injection Hf' as <-. cbv zeta in *.
  assert (Hnone' : forall h, cached m !! h = None -> cached m' !! h = None).
  { intros h Hl. rewrite Hc, lookup_drop_entries. by destruct (decide _). }
  pose proof Hinv as (_ & Hfr & Hsz & _).
  assert (0 <= fl_slots (take j (freeable m))).
  { apply sumZ_nonneg, Forall_forall. intros x ([h n] & -> & Hin)%list_elem_of_fmap. simpl.
    rewrite (Hsz h n); [apply size_nonneg|]. by eapply (sublist_subseteq (take j (freeable m))); [apply sublist_take|]. }
  exists b, m'. split_and!; [done| | |by apply Hnone'|].
  - split_and!; [apply Hinv'..|done|done|done| |done|lia]. intros h Hin. by apply Hnone', Hunc.
  - intros h (refs & Hl & Hrf). exists refs. split; [|done]. rewrite Hc, lookup_drop_entries, decide_False; [done|].
    intros Hin. assert (Hk : h ∈ fst <$> freeable m).
    { rewrite <- (take_drop j (freeable m)), fmap_app, elem_of_app. by left. }
    apply Hfr in Hk. rewrite Hl in Hk. injection Hk as ->. set_solver.
  - intros ->. specialize (Hroom eq_refl). split; [|lia]. symmetry in Hb. apply andb_true_iff in Hb as [Hb _]. lia.
Qed.

(** Every position of the window that needs an embedding of [f] has it: the entry
    is referenced or planned. *)
Definition covered (nn : Z) (m : EncoderCacheManager) (l : locals) (f : MultiModalFeatureSpec) : Prop :=
  forall t, nc <= t < nc + nn -> is_embed_at (mm_position f) (t - offset (mm_position f)) ->
    referenced m (identifier f) \/ identifier f ∈ hashes_to_schedule l.

Lemma plan_add l l' m i f :
  0 <= i -> mm_features r !! Z.to_nat i = Some f -> cached m !! identifier f = None ->
  identifier f ∉ hashes_to_schedule l -> plan l m ->
  size_of (identifier f) + embeds_to_schedule l <= num_free_slots m ->
  planned_ids l' ≡ₚ i :: planned_ids l -> hashes_to_schedule l' = {[identifier f]} ∪ hashes_to_schedule l ->
  embeds_to_schedule l' = embeds_to_schedule l + size_of (identifier f) -> plan l' m.
Proof.
  intros Hi Hf Hnone Hnot (Hinv & Hr & Hnd & Hh & Hunc & He & Hfit) Hroom Hids Hhs Hes.
  assert (Hho : hash_of i = identifier f) by (unfold hash_of; by rewrite Hf).
  assert (Hids' : hash_of <$> planned_ids l' ≡ₚ identifier f :: (hash_of <$> planned_ids l)) by (rewrite Hids; simpl; by rewrite Hho).
  split_and!; try apply Hinv.
  - intros j. rewrite Hids, elem_of_cons. intros [->|Hj]; [|by apply Hr]. apply lookup_lt_Some in Hf. unfold py_len. lia.
  - rewrite Hids'. apply NoDup_cons. split; [|done]. by rewrite <- Hh.
  - intros h. rewrite Hids', elem_of_cons, Hhs, elem_of_union, elem_of_singleton, Hh. done.
  - intros h. rewrite Hhs, elem_of_union, elem_of_singleton. intros [->|Hin]; [done|by apply Hunc].
  - rewrite Hes, He. rewrite (sumZ_perm (_ <$> planned_ids l') ((fun i => size_of (hash_of i)) <$> i :: planned_ids l)) by by rewrite Hids.
    rewrite fmap_cons, sumZ_cons, Hho. lia.
  - lia.
Qed.

Lemma plan_schedule l m i f :
  0 <= i -> mm_features r !! Z.to_nat i = Some f -> cached m !! identifier f = None ->
  identifier f ∉ hashes_to_schedule l -> plan l m ->
  size_of (identifier f) + embeds_to_schedule l <= num_free_slots m ->
  size_of (identifier f) <= compute_budget l -> 0 <= num_new_tokens l ->
  offset (mm_position f) < nc + num_new_tokens l + shift ->
  nc < offset (mm_position f) + length_ (mm_position f) ->
  exists l', schedule_input cfg f i nc l = Ok l' /\ plan l' m /\ num_new_tokens l' = num_new_tokens l /\
    hashes_to_schedule l ⊆ hashes_to_schedule l' /\ covered (num_new_tokens l) m l' f /\ 0 <= compute_budget l'.
Proof.
  intros Hi Hf Hnone Hnot Hplan Hroom Hbud Hnn Hstart Hend. unfold schedule_input.
  assert (Hin : f ∈ mm_features r) by by eapply list_elem_of_lookup_2.
  rewrite (r_sized f Hin). cbn [mbind result_bind]. pose proof (r_wf f Hin) as Hwf. pose proof Hwf as [Hlen _].
  destruct (embeds_range_ok (mm_position f) (Z.max 0 (nc - offset (mm_position f)))
    (Z.min (length_ (mm_position f)) (nc + num_new_tokens l - offset (mm_position f)))) as (a & b & -> & Hnone'); [done|lia..|].
  cbn [mbind result_bind]. destruct (Z.eqb_spec (b - a) 0) as [Hz|Hnz].
  - pose proof (size_nonneg (identifier f)). exists l. split_and!; try done; [|lia].
    intros t Ht Hk. exfalso. pose proof Hk as [? _]. apply (Hnone' Hz (t - offset (mm_position f))); [lia|done].
  - destruct (match has_cache_item cfg with Some test => test (identifier f) | None => false end).
    + eexists. split; [done|]. simpl. split_and!; [|done|set_solver| |pose proof (size_nonneg (identifier f)); lia].
      * apply (plan_add l _ m i f); try done. unfold planned_ids. simpl. by rewrite (app_assoc _ _ [i]), Permutation_app_comm.
      * intros t _ _. right. simpl. set_solver.
    + eexists. split; [done|]. simpl. split_and!; [|done|set_solver| |lia].
      * apply (plan_add l _ m i f); try done. unfold planned_ids. simpl.
        rewrite <- app_assoc. simpl. by rewrite <- Permutation_middle.
      * intros t _ _. right. simpl. set_solver.
Qed.

Lemma covered_mono nn nn' m m' l l' f :
  covered nn m l f -> nn' <= nn -> keeps_refs m m' -> hashes_to_schedule l ⊆ hashes_to_schedule l' ->
  covered nn' m' l' f.
Proof. intros Hc Hn Hk Hh t Ht He. destruct (Hc t ltac:(lia) He); [left; by apply Hk|right; set_solver]. Qed.

Lemma covered_late nn m l f : nc + nn <= offset (mm_position f) -> covered nn m l f.
Proof. intros Hl t Ht [? _]. lia. Qed.

Definition by_offset (f g : MultiModalFeatureSpec) : Prop := offset (mm_position f) <= offset (mm_position g).

(** What the loop establishes. *)
Definition planned (l : locals) (m : EncoderCacheManager) (l' : locals) (m' : EncoderCacheManager) : Prop :=
  plan l' m' /\ 0 <= num_new_tokens l' <= num_new_tokens l /\ 0 <= compute_budget l' /\ keeps_refs m m' /\
  forall f, f ∈ mm_features r -> covered (num_new_tokens l') m' l' f.

(** Leaving the loop at an input: the window shrinks to end before it, or to
    nothing. *)
Lemma break_ok pre f fs l m m' n :
  mm_features r = pre ++ f :: fs -> StronglySorted by_offset (f :: fs) ->
  plan l m' -> keeps_refs m m' -> 0 <= n <= num_new_tokens l -> 0 <= compute_budget l ->
  (forall g, g ∈ pre -> covered (num_new_tokens l) m l g) -> (nc + n <= offset (mm_position f) \/ n = 0) ->
  planned l m (with_new_tokens n l) m'.
Proof.
  intros El Hsort Hplan Hk Hn Hb Hpre Hlate. split; [exact Hplan|]. split; [exact Hn|]. split; [exact Hb|]. split; [done|].
  intros g Hg. rewrite El, elem_of_app in Hg. destruct Hg as [Hg|Hg].
  - apply (covered_mono (num_new_tokens l) _ m _ l); [by apply Hpre|simpl; lia|done|done].
  - simpl num_new_tokens. destruct Hlate as [Hlate| ->]; [|intros t ?; lia]. apply covered_late.
    apply StronglySorted_inv in Hsort as [_ Hall]. rewrite Forall_forall in Hall.
    apply elem_of_cons in Hg as [->|Hg]; [done|]. specialize (Hall g Hg). unfold by_offset in Hall. lia.
Qed.

Lemma encoder_loop_ok fs : forall pre i l m,
  mm_features r = pre ++ fs -> i = py_len pre -> StronglySorted by_offset fs -> plan l m ->
  0 <= num_new_tokens l -> 0 <= compute_budget l -> (forall g, g ∈ pre -> covered (num_new_tokens l) m l g) ->
  exists l' m', encoder_loop cfg r nc shift fs i l m = Ok (l', m') /\ planned l m l' m'.
Proof.
  induction fs as [|f fs IH]; intros pre i l m El -> Hsort Hplan Hnn Hbud Hpre.
  { exists l, m. split; [done|]. rewrite app_nil_r in El. subst pre. split; [done|]. split; [lia|]. split; [done|]. split; [apply keeps_refs_refl|]. done. }
  assert (Hf : mm_features r !! Z.to_nat (py_len pre) = Some f).
  { rewrite El. unfold py_len. rewrite Nat2Z.id. by apply list_lookup_middle. }
  assert (Hi : 0 <= py_len pre) by (unfold py_len; lia).
  assert (Hin : f ∈ mm_features r) by by eapply list_elem_of_lookup_2.
  (* continuing with the next input *)
  assert (Hnext : forall l1 m1, plan l1 m1 -> keeps_refs m m1 -> num_new_tokens l1 = num_new_tokens l ->
    0 <= compute_budget l1 -> hashes_to_schedule l ⊆ hashes_to_schedule l1 -> covered (num_new_tokens l) m1 l1 f ->
    exists l' m', encoder_loop cfg r nc shift fs (py_len pre + 1) l1 m1 = Ok (l', m') /\ planned l m l' m').
  { intros l1 m1 Hp1 Hk1 Hn1 Hb1 Hh1 Hc1.
    destruct (IH (pre ++ [f]) (py_len pre + 1) l1 m1) as (l' & m' & E & Hp' & Hn' & Hb' & Hk' & Hc').
    - by rewrite <- app_assoc.
    - unfold py_len. rewrite length_app. simpl. lia.
    - by apply StronglySorted_inv in Hsort as [Hsort _].
    - done.
    - lia.
    - done.
    - rewrite Hn1. intros g [Hg|Hg%list_elem_of_singleton]%elem_of_app; [|by subst g].
      apply (covered_mono (num_new_tokens l) _ m _ l); [by apply Hpre|lia|done|done].
    - exists l', m'. split; [done|]. split; [done|]. split; [lia|]. split; [done|]. split; [|done]. by apply (keeps_refs_trans m m1). }
  cbn [encoder_loop]. rewrite (r_sized f Hin), not_encdec. cbn [mbind result_bind andb].
  destruct (Z.leb_spec (nc + num_new_tokens l + shift) (offset (mm_position f))) as [Hlate|Hstart].
  { exists l, m. split; [done|]. replace l with (with_new_tokens (num_new_tokens l) l) at 2 by by destruct l.
    apply (break_ok pre f fs); first [done|apply keeps_refs_refl|lia]. }
  destruct (Z.leb_spec (offset (mm_position f) + length_ (mm_position f)) nc) as [Hcomp|Hend].
  { apply Hnext; try done; [apply keeps_refs_refl|]. intros t Ht [? _]. lia. }
  case_bool_decide as Hmem; cbn [mbind result_bind].
  { apply Hnext; try done; [apply keeps_refs_refl|]. intros t _ _. by right. }
  cbn [ec_check ecm_ops].
  destruct (plan_check l m (py_len pre) f Hi Hf Hmem Hplan) as (b & m1 & -> & Hp1 & Hk1 & Hb1 & Hb2). cbn [mbind result_bind].
  destruct b.
  { apply Hnext; try done. intros t _ _. left. by apply Hb1. }
  destruct (_ && _ && _) eqn:Echunk.
  { rewrite !andb_true_iff in Echunk. destruct Echunk as [[_ Hlt%Z.ltb_lt] _].
    eexists _, _. split; [done|]. apply (break_ok pre f fs); try done; lia. }
  cbn [ec_can_allocate ecm_ops].
  destruct (plan_can_allocate l m1 (py_len pre) f Hi Hf (Hb2 eq_refl) Hp1) as (b & m2 & -> & Hp2 & Hk2 & Hnone & Hroom).
  pose proof (keeps_refs_trans _ _ _ Hk1 Hk2) as Hk12. cbn [mbind result_bind]. destruct b; simpl negb; cbv iota.
  - destruct (Hroom eq_refl) as [Hr1 Hr2].
    destruct (plan_schedule l m2 (py_len pre) f) as (l2 & -> & Hp3 & Hn3 & Hh3 & Hc3 & Hb3); try done.
    cbn [mbind result_bind]. by apply Hnext.
  - destruct (Z.ltb_spec (nc + shift) (offset (mm_position f))); eexists _, _; (split; [done|]);
      apply (break_ok pre f fs); try done; lia.
Qed.

(** Allocating distinct uncached inputs that fit together. *)
Lemma allocate_list_ok ids m :
  (forall i, i ∈ ids -> 0 <= i < py_len (mm_features r)) -> NoDup (hash_of <$> ids) ->
  (forall i, i ∈ ids -> cached m !! hash_of i = None) ->
  sumZ ((fun i => size_of (hash_of i)) <$> ids) <= num_free_slots m -> ecm_inv size_of m ->
  exists m', foldM (fun m i => allocate r i m) ids m = Ok m' /\ ecm_inv size_of m' /\
    (forall h, cached m' !! h = if decide (h ∈ hash_of <$> ids) then Some {[request_id r]} else cached m !! h) /\
    num_free_slots m' = num_free_slots m - sumZ ((fun i => size_of (hash_of i)) <$> ids).
Proof.
  revert m. induction ids as [|i ids IH]; intros m Hr Hnd Hunc Hfit Hinv.
  { exists m. split_and!; try done; [apply Hinv..|]. simpl. lia. }
  rewrite fmap_cons in Hnd. rewrite fmap_cons in Hfit. apply NoDup_cons in Hnd as [Hni Hnd]. rewrite sumZ_cons in Hfit.
  assert (Hi : 0 <= i < py_len (mm_features r)) by (apply Hr; left).
  destruct (feature_at size_of r i r_sized Hi) as (f & Hf & _).
  assert (Hho : hash_of i = identifier f) by (unfold hash_of; by rewrite Hf).
  assert (Hsum : 0 <= sumZ ((fun i => size_of (hash_of i)) <$> ids)).
  { apply sumZ_nonneg, Forall_forall. intros x (j & -> & _)%list_elem_of_fmap. apply size_nonneg. }
  destruct (allocate_ok size_of size_nonneg r i m f) as (m1 & E & Hinv1 & Hc1 & Hf1 & _); try done; [lia| |rewrite <- Hho; lia|].
  { rewrite <- Hho. apply Hunc. left. }
  rewrite <- Hho in Hc1, Hf1.
  destruct (IH m1) as (m2 & E2 & Hinv2 & Hc2 & Hf2); try done; [set_solver| |lia|].
  { intros j Hj. rewrite Hc1, lookup_insert_ne; [apply Hunc; by right|]. intros Heq. apply Hni. rewrite Heq.
    apply list_elem_of_fmap. by exists j. }
  exists m2. simpl foldM. rewrite E. cbn [mbind result_bind]. split; [done|]. split; [done|]. split.
  - intros h. rewrite Hc2, fmap_cons. destruct (decide (h ∈ hash_of <$> ids)) as [Hin|Hnin].
    + rewrite decide_True by by right. done.
    + rewrite Hc1. destruct (decide (h = hash_of i)) as [->|Hne].
      * rewrite lookup_insert_eq, decide_True by left. done.
      * rewrite lookup_insert_ne, decide_False by set_solver. done.
  - rewrite fmap_cons, sumZ_cons. lia.
Qed.

Lemma plan_allocate l m :
  plan l m ->
  exists m', allocate_inputs r l m = Ok m' /\ ecm_inv size_of m' /\ keeps_refs m m' /\
    (forall h, h ∈ hashes_to_schedule l -> referenced m' h).
Proof.
  intros (Hinv & Hr & Hnd & Hh & Hunc & He & Hfit).
  destruct (allocate_list_ok (planned_ids l) m) as (m' & E & Hinv' & Hc' & _); try done.
  - intros i Hi. apply Hunc, Hh, list_elem_of_fmap. by exists i.
  - lia.
  - exists m'. unfold allocate_inputs. cbn [ec_allocate ecm_ops]. unfold planned_ids in E. rewrite foldM_app in E.
    split; [done|]. split; [done|]. split.
    + intros h (refs & Hl & Hin). unfold referenced. rewrite Hc', decide_False; [by exists refs|].
      rewrite <- Hh. intros Hs%Hunc. congruence.
    + intros h Hs%Hh. unfold referenced. rewrite Hc', decide_True by done. eexists. split; [done|]. set_solver.
Qed.

(** C19: Scheduling the encoder inputs of a request never raises, neither while
    the inputs are chosen nor in the assertions of the allocations that follow;
    the slot accounting is preserved, the window of new tokens only shrinks, the
    compute budget stays non-negative, and every position of the final window
    that is filled from an encoder output has that output cached and referenced
    by the request. *)
Theorem encoder_scheduling_covers num_new budget m :
  StronglySorted by_offset (mm_features r) -> ecm_inv size_of m -> 0 <= num_new -> 0 <= budget ->
  exists l m1 m2,
    try_schedule_encoder_inputs cfg r nc num_new budget shift m = Ok (l, m1) /\
    allocate_inputs r l m1 = Ok m2 /\ ecm_inv size_of m2 /\
    0 <= num_new_tokens l <= num_new /\ 0 <= compute_budget l /\
    forall f t, f ∈ mm_features r -> nc <= t < nc + num_new_tokens l ->
      is_embed_at (mm_position f) (t - offset (mm_position f)) -> referenced m2 (identifier f).
Proof.
  intros Hsort Hinv Hnn Hbud. set (l0 := mkLocals num_new budget [] [] ∅ 0).
  assert (Hplan : plan l0 m).
  { destruct Hinv as (? & ? & ? & ? & Hpos & ?). unfold plan, planned_ids. simpl.
    split_and!; [by split_and!|by intros ? ?%elem_of_nil|apply NoDup_nil_2| | |done|done].
    - intros h. rewrite elem_of_nil. set_solver.
    - set_solver. }
  assert (exists l m1, try_schedule_encoder_inputs cfg r nc num_new budget shift m = Ok (l, m1) /\ planned l0 m l m1)
    as (l & m1 & E & Hp & Hn & Hb & _ & Hcov).
  { unfold try_schedule_encoder_inputs. fold l0. destruct (_ || _) eqn:Eo.
    - exists l0, m. split; [done|]. split; [done|]. split; [simpl; lia|]. split; [done|]. split; [apply keeps_refs_refl|].
      intros f Hf t Ht. apply orb_true_iff in Eo as [Eo|Eo].
      + apply Z.eqb_eq in Eo. simpl in Ht. lia.
      + unfold has_encoder_inputs, num_encoder_inputs, py_len in Eo.
        destruct (mm_features r); [by apply elem_of_nil in Hf|]. done.
    - by apply (encoder_loop_ok _ []); first [done|intros g Hg%elem_of_nil]. }
  destruct (plan_allocate l m1 Hp) as (m2 & E2 & Hinv2 & Hk2 & Hs2).
  exists l, m1, m2. split; [done|]. split; [done|]. split; [done|]. split; [done|]. split; [done|].
  intros f t Hf Ht He. destruct (Hcov f Hf t Ht He); [by apply Hk2|by apply Hs2].
Qed.
End Plan.

(** * Encoder-decoder models *)

(** The number of embeddings of all inputs of a request. *)
Definition total_embeds (size_of : option string -> Z) (r : Request) : Z :=
  sumZ ((fun f => size_of (identifier f)) <$> mm_features r).

(** [k] scheduler steps of a request: each calls [_free_encoder_inputs]. *)
Fixpoint free_steps (cfg : SchedSettings) (r : Request) (k : nat) (m : EncDec.EncoderDecoderCacheManager) :
    result EncDec.EncoderDecoderCacheManager :=
  match k with
  | O => Ok m
  | S k => m ← free_encoder_inputs cfg r m; free_steps cfg r k m
  end.

Section EncDecFacts.
Variable size_of : option string -> Z.
Variable r : Request.
Hypothesis r_sized : sized size_of r.

(** A loop over all the inputs whose body adds [c] times the size of its input to
    the free slots. *)
Lemma all_inputs_loop (f : EncDec.EncoderDecoderCacheManager -> Z -> result EncDec.EncoderDecoderCacheManager) c m :
  (forall m i ft, mm_features r !! Z.to_nat i = Some ft -> 0 <= i < py_len (mm_features r) ->
     exists m', f m i = Ok m' /\ EncDec.num_free_slots m' = EncDec.num_free_slots m + c * size_of (identifier ft) /\
       EncDec.cache_size m' = EncDec.cache_size m) ->
  exists m', foldM f (py_range 0 (py_len (mm_features r))) m = Ok m' /\
    EncDec.num_free_slots m' = EncDec.num_free_slots m + c * total_embeds size_of r /\
    EncDec.cache_size m' = EncDec.cache_size m.
Proof.
  intros Hf.
  destruct (foldM_inv f (fun pre m' =>
      EncDec.num_free_slots m' = EncDec.num_free_slots m +
        c * sumZ ((fun ft => size_of (identifier ft)) <$> take (length pre) (mm_features r)) /\
      EncDec.cache_size m' = EncDec.cache_size m) (py_range 0 (py_len (mm_features r))) m) as (m' & E & Hn & Hs).
  - simpl. split; [lia|done].
  - intros pre i post m1 El [Hm1 Hs1].
    assert (Hl : py_range 0 (py_len (mm_features r)) !! length pre = Some i) by (rewrite El; by apply list_lookup_middle).
    unfold py_range in Hl. apply lookup_seqZ in Hl as [Hi Hlt]. unfold py_len in Hlt.
    destruct (lookup_lt_is_Some_2 (mm_features r) (length pre)) as [ft Hft]; [lia|].
    destruct (Hf m1 i ft) as (m2 & -> & Hm2 & Hs2).
    + by replace (Z.to_nat i) with (length pre) by lia.
    + unfold py_len. lia.
    + exists m2. split; [done|]. split; [|congruence]. rewrite length_app, Nat.add_1_r, (take_S_r _ _ ft) by done.
      rewrite fmap_app, sumZ_app, Hm2, Hm1. simpl. lia.
  - exists m'. split; [done|]. split; [|done]. rewrite Hn. unfold total_embeds. do 3 f_equal.
    rewrite take_ge; [done|]. unfold py_range, py_len. rewrite length_seqZ. lia.
Qed.

Lemma allocate_all m :
  exists m', foldM (fun m i => EncDec.allocate r i m) (py_range 0 (py_len (mm_features r))) m = Ok m' /\
    EncDec.num_free_slots m' = EncDec.num_free_slots m - total_embeds size_of r /\
    EncDec.cache_size m' = EncDec.cache_size m.
Proof.
  destruct (all_inputs_loop (fun m i => EncDec.allocate r i m) (-1) m) as (m' & E & Hn & Hs).
  - intros m1 i ft Hft Hi. destruct (feature_at size_of r i r_sized Hi) as (f & Hf & E & En).
    rewrite Hft in Hf. injection Hf as <-. unfold EncDec.allocate. rewrite En. cbn [mbind result_bind]. rewrite E.
    eexists. split; [done|]. simpl. split; [lia|done].
  - exists m'. split; [done|]. split; [lia|done].
Qed.

Lemma free_inputs_all cfg m :
  is_encoder_decoder cfg = true -> 0 < num_computed_tokens r ->
  exists m', free_encoder_inputs cfg r m = Ok m' /\
    EncDec.num_free_slots m' = EncDec.num_free_slots m + total_embeds size_of r /\
    EncDec.cache_size m' = EncDec.cache_size m.
Proof.
  intros Hed Hc. unfold free_encoder_inputs. cbn [ec_cached_ids edm_ops]. unfold EncDec.get_cached_input_ids.
  destruct (all_inputs_loop (free_step cfg r) 1 m) as (m' & E & Hn & Hs).
  - intros m1 i ft Hft Hi. destruct (feature_at size_of r i r_sized Hi) as (f & Hf & E & En).
    rewrite Hft in Hf. injection Hf as <-. unfold free_step. rewrite E. cbn [mbind result_bind].
    rewrite Hed, (proj2 (Z.ltb_lt 0 _)) by done. simpl orb. cbv iota. cbn [ec_free_input edm_ops].
    unfold EncDec.free_encoder_input. rewrite En. cbn [mbind result_bind]. eexists. split; [done|]. simpl. split; [lia|done].
  - exists m'. split; [done|]. split; [lia|done].
Qed.

(** The slot counter of the encoder-decoder cache does not return to its
    initial value: a request whose inputs were allocated once releases their
    slots again in every scheduler step after its first computed token, so after
    [k] steps the counter exceeds its value before the request by [k - 1] times
    the request's embeddings (and the usage fraction turns negative). *)
Theorem encdec_slots_inflate cfg size k :
  is_encoder_decoder cfg = true -> 0 < num_computed_tokens r ->
  exists m1 m2,
    foldM (fun m i => EncDec.allocate r i m) (py_range 0 (py_len (mm_features r))) (EncDec.init size) = Ok m1 /\
    free_steps cfg r k m1 = Ok m2 /\
    EncDec.num_free_slots m2 = size + (Z.of_nat k - 1) * total_embeds size_of r /\
    (size <> 0 -> get_encoder_cache_usage (EncDec.cache_size m2) (EncDec.num_free_slots m2)
                  = (- (Z.of_nat k - 1) * total_embeds size_of r, size)).
Proof.
  intros Hed Hc. destruct (allocate_all (EncDec.init size)) as (m1 & E1 & Hn1 & Hs1).
  assert (Hsteps : forall k m, exists m2, free_steps cfg r k m = Ok m2 /\
    EncDec.num_free_slots m2 = EncDec.num_free_slots m + Z.of_nat k * total_embeds size_of r /\
    EncDec.cache_size m2 = EncDec.cache_size m).
  { clear -Hed Hc r_sized. intros k. induction k as [|k IH]; intros m; [exists m; simpl; split_and!; [done|lia|done]|].
    destruct (free_inputs_all cfg m Hed Hc) as (m1 & E & Hn & Hs). destruct (IH m1) as (m2 & E2 & Hn2 & Hs2).
    exists m2. cbn [free_steps]. rewrite E. cbn [mbind result_bind]. split_and!; [done|lia|congruence]. }
  destruct (Hsteps k m1) as (m2 & E2 & Hn2 & Hs2). exists m1, m2. simpl in Hn1, Hs1.
  split_and!; [done|done|lia|]. intros Hz. unfold get_encoder_cache_usage. rewrite Hs2, Hs1.
  rewrite (proj2 (Z.eqb_neq size 0)) by done. rewrite Hn2, Hn1. f_equal. ring.
Qed.
End EncDecFacts.

(** For a range that ends before the placeholder's first position the query
    on a masked placeholder does not answer an empty range: it reads the last
    entry of the cumulative sum and answers all the embeddings; without a mask
    the answer is the empty range. *)
Theorem embeds_range_before_start off mask :
  mask <> [] ->
  get_embeds_indices_in_range (mkRange off (py_len mask) (Some mask)) 0 0 = Ok (0, sumZ (Z.b2z <$> mask)) /\
  get_embeds_indices_in_range (mkRange off (py_len mask) None) 0 0 = Ok (0, 0).
Proof.
  intros Hne. split; [|done]. unfold get_embeds_indices_in_range, embeds_cumsum. simpl.
  destruct mask as [|b mask _] using rev_ind; [done|]. unfold py_index, cumsum.
  rewrite length_cumsum_from, length_fmap, length_app. simpl length.
  change (0 - 1 <? 0) with true. cbv iota zeta. change (0 <? 0) with false. cbv iota. cbn [mbind result_bind].
  replace (Z.of_nat (length mask + 1) + (0 - 1)) with (Z.of_nat (length mask)) by lia.
  rewrite (proj2 (Z.ltb_ge _ 0)) by lia. rewrite Nat2Z.id, cumsum_from_lookup_b by (rewrite length_app; simpl; lia).
  rewrite take_ge by (rewrite length_app; simpl; lia). done.
Qed.

(** * Concrete runs *)
Module EncoderSchedExamples.
Import EncoderExamples.
Local Open Scope string_scope.
Local Open Scope list_scope.
Local Open Scope Z_scope.

Definition cfg : SchedSettings := mkSettings false false None.
Definition ed_cfg : SchedSettings := mkSettings true false None.

(** With 8 slots of which 4 hold the released input a, scheduling 7 tokens of r1
    reuses a and computes b. *)
Example schedule_r1 :
  ('(l, m) ← try_schedule_encoder_inputs cfg r1 0 7 8 0 m1; Ok (num_new_tokens l, to_schedule l, freeable m))
  = Ok (7, [1], []).
Proof. vm_compute. reflexivity. Qed.

Lemma r1_wf : forall f, f ∈ mm_features r1 -> wf_range (mm_position f).
Proof. intros f [->|[->|Hf%elem_of_nil]%elem_of_cons]%elem_of_cons; [done..|]. done. Qed.

Lemma r1_sorted : StronglySorted by_offset (mm_features r1).
Proof.
  constructor; [constructor; [constructor|constructor]|constructor; [|constructor]].
  vm_compute. discriminate.
Qed.

Lemma encoder_scheduling_covers_witness :
  exists l m2 m3,
    try_schedule_encoder_inputs cfg r1 0 7 8 0 m1 = Ok (l, m2) /\
    allocate_inputs r1 l m2 = Ok m3 /\ ecm_inv size_of m3 /\
    0 <= num_new_tokens l <= 7 /\ 0 <= compute_budget l /\
    forall f t, f ∈ mm_features r1 -> 0 <= t < 0 + num_new_tokens l ->
      is_embed_at (mm_position f) (t - offset (mm_position f)) -> referenced r1 m3 (identifier f).
Proof.
  apply (encoder_scheduling_covers size_of size_of_nonneg cfg eq_refl r1 r1_sized r1_wf 0 0).
  - lia.
  - apply r1_sorted.
  - apply m1_inv.
  - lia.
  - lia.
Defined.

(** An encoder-decoder request of 4 embeddings past its first token. *)
Definition r3 : Request := req "r3" [feat "a" 0 4] 1.

Lemma r3_sized : sized size_of r3.
Proof. apply (sized_cons _ "r3"); [reflexivity|]. intros g Hg%elem_of_nil. done. Qed.

Lemma encdec_slots_inflate_witness :
  exists m2 m3,
    foldM (fun m i => EncDec.allocate r3 i m) (py_range 0 (py_len (mm_features r3))) (EncDec.init 8) = Ok m2 /\
    free_steps ed_cfg r3 3 m2 = Ok m3 /\
    EncDec.num_free_slots m3 = 8 + (Z.of_nat 3 - 1) * total_embeds size_of r3 /\
    (8 <> 0 -> get_encoder_cache_usage (EncDec.cache_size m3) (EncDec.num_free_slots m3)
               = (- (Z.of_nat 3 - 1) * total_embeds size_of r3, 8)).
Proof. apply (encdec_slots_inflate size_of r3 r3_sized); [reflexivity|vm_compute; reflexivity]. Defined.

Lemma embeds_range_before_start_witness :
  get_embeds_indices_in_range (mkRange 5 2 (Some [true; true])) 0 0 = Ok (0, 2) /\
  get_embeds_indices_in_range (mkRange 5 2 None) 0 0 = Ok (0, 0).
Proof. apply (embeds_range_before_start 5 [true; true]). discriminate. Defined.
End EncoderSchedExamples.
