(* ===== verification/SingleType.v ===== *)
(** The managers of one KV-cache group:
    [src/vllm/v1/core/single_type_kv_cache_manager.py].

    A manager keeps, per request, the list of its blocks and the number of them
    that are cached.  The subclasses differ in which tokens attention skips, how
    prefix-cache hits are found and, for Mamba, how blocks are allocated; a
    manager carries its spec, and each method dispatches on it.  All managers
    share one block pool, which the methods thread. *)
From S2P Require Import Prelude FreeQueue Request BlockHash BlockPool.
Import BlockPool.BlockPool.
Local Open Scope Z_scope.

(** * Specs and state *)

(** The specs of [kv_cache_interface.py], by the fields the managers read. *)
Inductive KVCacheSpec :=
| FullAttentionSpec (block_size : Z)
| SlidingWindowSpec (block_size sliding_window : Z)
| ChunkedLocalAttentionSpec (block_size attention_chunk_size : Z)
| MambaSpec (block_size : Z) (align : bool) (num_speculative_blocks : Z)
| CrossAttentionSpec (block_size : Z)
| SinkFullAttentionSpec (block_size sink_len : Z).

#[export] Instance KVCacheSpec_eq_dec : EqDecision KVCacheSpec.
Proof. solve_decision. Defined.

Definition spec_block_size (s : KVCacheSpec) : Z :=
  match s with
  | FullAttentionSpec b | SlidingWindowSpec b _ | ChunkedLocalAttentionSpec b _
  | MambaSpec b _ _ | CrossAttentionSpec b | SinkFullAttentionSpec b _ => b
  end.

(** [isinstance(spec, FullAttentionSpec)]; [SinkFullAttentionSpec] is a subclass. *)
Definition is_full_spec (s : KVCacheSpec) : bool :=
  match s with FullAttentionSpec _ | SinkFullAttentionSpec _ _ => true | _ => false end.

(** The attributes of a manager. *)
Record manager := mkManager {
  kv_cache_spec : KVCacheSpec;
  block_size : Z;
  dcp_world_size : Z;
  pcp_world_size : Z;
  caching : bool;
  kv_cache_group_id : Z;
  req_to_blocks : gmap string (list nat);
  num_cached_block : gmap string Z;
  (** [MambaManager], align mode *)
  last_state_block_idx : gmap string Z;
  allocated_block_reqs : gset string;
  (** [SinkFullAttentionManager] *)
  sink_blocks : list nat;
}.

Definition with_blocks (b : gmap string (list nat)) (m : manager) : manager :=
  mkManager (kv_cache_spec m) (block_size m) (dcp_world_size m) (pcp_world_size m) (caching m)
    (kv_cache_group_id m) b (num_cached_block m) (last_state_block_idx m) (allocated_block_reqs m) (sink_blocks m).
Definition with_num_cached (c : gmap string Z) (m : manager) : manager :=
  mkManager (kv_cache_spec m) (block_size m) (dcp_world_size m) (pcp_world_size m) (caching m)
    (kv_cache_group_id m) (req_to_blocks m) c (last_state_block_idx m) (allocated_block_reqs m) (sink_blocks m).
Definition with_mamba (l : gmap string Z) (a : gset string) (m : manager) : manager :=
  mkManager (kv_cache_spec m) (block_size m) (dcp_world_size m) (pcp_world_size m) (caching m)
    (kv_cache_group_id m) (req_to_blocks m) (num_cached_block m) l a (sink_blocks m).

(** [get_manager_for_kv_cache_spec]: the constructors. *)
Definition get_manager_for_kv_cache_spec (spec : KVCacheSpec) (enable_caching : bool)
    (group_id dcp pcp : Z) (p : pool) : result (manager * pool) :=
  let bs := if 1 <? dcp * pcp then spec_block_size spec * (dcp * pcp) else spec_block_size spec in
  let m := mkManager spec bs dcp pcp enable_caching group_id ∅ ∅ ∅ ∅ [] in
  match spec with
  | SinkFullAttentionSpec _ sink_len =>
      _ ← py_assert ((0 <? sink_len) && (sink_len mod bs =? 0));
      '(sink, q) ← FreeKVCacheBlockQueue.popleft_n (sink_len / bs) (free_block_queue p);
      Ok (mkManager spec bs dcp pcp enable_caching group_id ∅ ∅ ∅ ∅ (node_id <$> sink), with_queue q p)
  | _ => Ok (m, p)
  end.

(** [self.req_to_blocks[request_id]] on the [defaultdict]: the list, and the
    entry the access creates. *)
Definition blocks_of (rid : string) (m : manager) : list nat := default [] (req_to_blocks m !! rid).
Definition default_entry (rid : string) (m : manager) : manager :=
  with_blocks (<[rid := blocks_of rid m]> (req_to_blocks m)) m.
Definition set_blocks (rid : string) (bs : list nat) (m : manager) : manager :=
  with_blocks (<[rid := bs]> (req_to_blocks m)) m.

(** * Skipped tokens *)

(** [get_num_skipped_tokens] of the three subclasses. *)
Definition sliding_skipped_tokens (sliding_window num_computed_tokens : Z) : Z :=
  Z.max 0 (num_computed_tokens - sliding_window + 1).
Definition chunked_skipped_tokens (attention_chunk_size num_computed_tokens : Z) : Z :=
  num_computed_tokens / attention_chunk_size * attention_chunk_size.
Definition mamba_skipped_tokens (num_computed_tokens : Z) : Z := num_computed_tokens - 1.

(** [get_num_skipped_tokens]: nothing is skipped by default. *)
Definition get_num_skipped_tokens (spec : KVCacheSpec) (num_computed_tokens : Z) : Z :=
  match spec with
  | SlidingWindowSpec _ sliding_window => sliding_skipped_tokens sliding_window num_computed_tokens
  | ChunkedLocalAttentionSpec _ chunk => chunked_skipped_tokens chunk num_computed_tokens
  | MambaSpec _ _ _ => mamba_skipped_tokens num_computed_tokens
  | _ => 0
  end.

(** * Allocation *)

(** [_get_num_evictable_blocks]. *)
Definition get_num_evictable_blocks (p : pool) (blocks : list nat) : Z :=
  py_len (filter (fun i => is_releasable p i = true) blocks).

(** [SingleTypeKVCacheManager.get_num_blocks_to_allocate]. *)
Definition base_num_blocks_to_allocate (rid : string) (num_tokens : Z) (new_computed_blocks : list nat)
    (total_computed_tokens : Z) (p : pool) (m : manager) : result Z :=
  let num_required_blocks := cdiv num_tokens (block_size m) in
  let num_req_blocks := py_len (blocks_of rid m) in
  match num_cached_block m !! rid with
  | Some _ =>
      _ ← py_assert (py_len new_computed_blocks =? 0);
      Ok (Z.max (num_required_blocks - num_req_blocks) 0)
  | None =>
      let num_skipped_tokens := get_num_skipped_tokens (kv_cache_spec m) total_computed_tokens in
      let num_local_computed_blocks := py_len new_computed_blocks + num_req_blocks in
      let num_skipped_blocks := num_skipped_tokens / block_size m in
      let num_new_blocks := Z.max (num_required_blocks - Z.max num_skipped_blocks num_local_computed_blocks) 0 in
      let num_skipped_new_computed_blocks := Z.max 0 (num_skipped_blocks - num_req_blocks) in
      Ok (num_new_blocks + get_num_evictable_blocks p
            (py_slice new_computed_blocks num_skipped_new_computed_blocks (py_len new_computed_blocks)))
  end.

(** [get_num_blocks_to_allocate] with the override of [MambaManager]; the access
    to [req_to_blocks] there creates the entry. *)
Definition get_num_blocks_to_allocate (rid : string) (num_tokens : Z) (new_computed_blocks : list nat)
    (total_computed_tokens num_tokens_main_model : Z) (p : pool) (m : manager) : result (Z * manager) :=
  match kv_cache_spec m with
  | MambaSpec bs false nspec =>
      let num_tokens := if 0 <? nspec then num_tokens + bs * nspec else num_tokens in
      n ← base_num_blocks_to_allocate rid num_tokens new_computed_blocks total_computed_tokens p m; Ok (n, m)
  | MambaSpec bs true nspec =>
      let num_required_blocks := cdiv num_tokens_main_model (block_size m) + nspec in
      let m := default_entry rid m in
      let num_new_blocks := num_required_blocks - py_len new_computed_blocks - py_len (blocks_of rid m) in
      let num_new_blocks :=
        if 0 <? num_new_blocks
        then if bool_decide (rid ∈ allocated_block_reqs m) then 1 else 1 + nspec
        else num_new_blocks in
      Ok (num_new_blocks + get_num_evictable_blocks p new_computed_blocks, m)
  | _ => n ← base_num_blocks_to_allocate rid num_tokens new_computed_blocks total_computed_tokens p m; Ok (n, m)
  end.

(** [allocate_new_computed_blocks], with the override of [CrossAttentionManager]. *)
Definition allocate_new_computed_blocks (rid : string) (new_computed_blocks : list nat)
    (num_local_computed_tokens num_external_computed_tokens : Z) (p : pool) (m : manager) :
    result (pool * manager) :=
  match kv_cache_spec m, num_cached_block m !! rid with
  | CrossAttentionSpec _, _ => _ ← py_assert (py_len new_computed_blocks =? 0); Ok (p, m)
  | _, Some _ => _ ← py_assert (py_len new_computed_blocks =? 0); Ok (p, m)
  | _, None =>
      let m := default_entry rid m in
      let req_blocks := blocks_of rid m in
      _ ← py_assert (py_len req_blocks =? 0);
      let total := num_local_computed_tokens + num_external_computed_tokens in
      let num_skipped_tokens := get_num_skipped_tokens (kv_cache_spec m) total in
      let num_skipped_blocks := num_skipped_tokens / block_size m in
      let '(ncb, ext) :=
        if 0 <? num_skipped_blocks
        then (py_slice new_computed_blocks num_skipped_blocks (py_len new_computed_blocks),
              Z.min (total - num_skipped_tokens) num_external_computed_tokens)
        else (new_computed_blocks, num_external_computed_tokens) in
      p ← (if caching m then touch ncb p else _ ← py_assert (py_len ncb =? 0); Ok p);
      let req_blocks := req_blocks ++ replicate (Z.to_nat num_skipped_blocks) (null_block p) ++ ncb in
      let m := with_num_cached (<[rid := py_len req_blocks]> (num_cached_block m)) (set_blocks rid req_blocks m) in
      if 0 <? ext then
        '(allocated, p) ← get_new_blocks (cdiv total (block_size m) - py_len req_blocks) p;
        Ok (p, set_blocks rid (req_blocks ++ allocated) m)
      else Ok (p, m)
  end.

(** [SingleTypeKVCacheManager.allocate_new_blocks]. *)
Definition base_allocate_new_blocks (rid : string) (num_tokens : Z) (p : pool) (m : manager) :
    result (list nat * pool * manager) :=
  let m := default_entry rid m in
  let req_blocks := blocks_of rid m in
  let num_new_blocks := cdiv num_tokens (block_size m) - py_len req_blocks in
  if num_new_blocks <=? 0 then Ok ([], p, m) else
  '(new_blocks, p) ← get_new_blocks num_new_blocks p;
  Ok (new_blocks, p, set_blocks rid (req_blocks ++ new_blocks) m).

(** [l[i] = v] for an index that is in range. *)
Definition py_set (l : list nat) (i : Z) (v : nat) : list nat :=
  <[Z.to_nat (if i <? 0 then py_len l + i else i) := v]> l.

(** The reuse loop of [MambaManager.allocate_new_blocks]: speculative blocks of
    the last step move to the end; [true] once the loop has stopped. *)
Definition reuse_step (null : nat) (num_skipped_blocks : Z) (s : list nat * bool) (block_idx : Z) :
    result (list nat * bool) :=
  let '(req, stop) := s in
  if stop : bool then Ok (req, true) else
  if block_idx <? num_skipped_blocks then
    b ← py_index req block_idx;
    let req := req ++ [b] in
    Ok (py_set req block_idx null, false)
  else Ok (req, true).

(** [allocate_new_blocks] with the override of [MambaManager]. *)
Definition allocate_new_blocks (rid : string) (num_tokens num_tokens_main_model : Z) (p : pool) (m : manager) :
    result (list nat * pool * manager) :=
  match kv_cache_spec m with
  | MambaSpec bs false nspec =>
      base_allocate_new_blocks rid (if 0 <? nspec then num_tokens + block_size m * nspec else num_tokens) p m
  | MambaSpec bs true nspec =>
      let m := default_entry rid m in
      let req := blocks_of rid m in
      let num_required_blocks := cdiv num_tokens_main_model (block_size m) + nspec in
      if num_required_blocks =? py_len req then Ok ([], p, m) else
      _ ← py_assert (py_len req <? num_required_blocks);
      let prev := py_len req in
      let blocks_allocated := bool_decide (rid ∈ allocated_block_reqs m) in
      let last := if blocks_allocated then <[rid := prev - 1 - nspec]> (last_state_block_idx m)
                  else if 0 <? prev then <[rid := prev - 1]> (last_state_block_idx m)
                  else last_state_block_idx m in
      let num_skipped_blocks := num_required_blocks - nspec - 1 in
      let req := if prev <? num_skipped_blocks
                 then req ++ replicate (Z.to_nat (num_skipped_blocks - prev)) (null_block p) else req in
      '(req, _) ← (if blocks_allocated
                   then foldM (reuse_step (null_block p) num_skipped_blocks) (py_range (prev - nspec) prev) (req, false)
                   else Ok (req, false));
      let num_new_blocks := num_required_blocks - py_len req in
      _ ← py_assert (num_new_blocks <=? (if blocks_allocated then 1 else nspec + 1));
      '(new_blocks, p) ← get_new_blocks num_new_blocks p;
      let req := req ++ new_blocks in
      let m := with_mamba last ({[rid]} ∪ allocated_block_reqs m) (set_blocks rid req m) in
      Ok (py_slice req prev (py_len req), p, m)
  | _ => base_allocate_new_blocks rid num_tokens p m
  end.

(** * Caching and freeing *)

(** [cache_blocks], with the override of [CrossAttentionManager]. *)
Definition cache_blocks (r : Request) (num_tokens : Z) (p : pool) (m : manager) : result (pool * manager) :=
  match kv_cache_spec m with
  | CrossAttentionSpec _ => Err ValueError
  | _ =>
      let rid := request_id r in
      let num_cached_blocks := default 0 (num_cached_block m !! rid) in
      let num_full_blocks := num_tokens / block_size m in
      if num_full_blocks <=? num_cached_blocks then Ok (p, m) else
      let m := default_entry rid m in
      p ← cache_full_blocks r (blocks_of rid m) num_cached_blocks num_full_blocks (block_size m)
            (kv_cache_group_id m) p;
      Ok (p, with_num_cached (<[rid := num_full_blocks]> (num_cached_block m)) m)
  end.

(** [free], with the override of [MambaManager]. *)
Definition free (rid : string) (p : pool) (m : manager) : result (pool * manager) :=
  let m := match kv_cache_spec m with
           | MambaSpec _ true _ =>
               with_mamba (delete rid (last_state_block_idx m)) (allocated_block_reqs m ∖ {[rid]}) m
           | _ => m
           end in
  let req_blocks := blocks_of rid m in
  let m := with_blocks (delete rid (req_to_blocks m)) m in
  p ← free_blocks (reverse req_blocks) p;
  Ok (p, with_num_cached (delete rid (num_cached_block m)) m).

(** The loop of [remove_skipped_blocks] over descending indices: the blocks with
    nulls written, and the removed ones. *)
Fixpoint remove_loop (null : nat) (n : nat) (blocks removed : list nat) : list nat * list nat :=
  match n with
  | O => (blocks, removed)
  | S i =>
      match blocks !! i with
      | Some b => if decide (b = null) then (blocks, removed)
                  else remove_loop null i (<[i := null]> blocks) (removed ++ [b])
      | None => (blocks, removed)
      end
  end.

(** [SingleTypeKVCacheManager.remove_skipped_blocks]. *)
Definition base_remove_skipped_blocks (rid : string) (total_computed_tokens : Z) (p : pool) (m : manager) :
    result (pool * manager) :=
  let num_skipped_tokens := get_num_skipped_tokens (kv_cache_spec m) total_computed_tokens in
  if num_skipped_tokens <=? 0 then Ok (p, m) else
  let m := default_entry rid m in
  let blocks := blocks_of rid m in
  let num_skipped_blocks := Z.min (num_skipped_tokens / block_size m) (py_len blocks) in
  let '(blocks, removed) := remove_loop (null_block p) (Z.to_nat num_skipped_blocks) blocks [] in
  p ← free_blocks removed p;
  Ok (p, set_blocks rid blocks m).

(** [remove_skipped_blocks] with the override of [MambaManager]. *)
Definition remove_skipped_blocks (rid : string) (total_computed_tokens : Z) (p : pool) (m : manager) :
    result (pool * manager) :=
  '(p, m) ← base_remove_skipped_blocks rid total_computed_tokens p m;
  match kv_cache_spec m with
  | MambaSpec _ true _ =>
      match last_state_block_idx m !! rid with
      | Some idx =>
          if idx <? cdiv total_computed_tokens (block_size m) - 1 then
            let m := default_entry rid m in
            b ← py_index (blocks_of rid m) idx;
            if decide (b = null_block p) then Ok (p, m) else
            p ← free_blocks [b] p;
            Ok (p, set_blocks rid (py_set (blocks_of rid m) idx (null_block p)) m)
          else Ok (p, m)
      | None => Ok (p, m)
      end
  | _ => Ok (p, m)
  end.

(** * Prefix-cache hits *)

(** [len(block_hashes)], and the first [n] hashes of an iteration. *)
Definition hl_len (l : hash_list) : Z :=
  match l with HList hs => py_len hs | HScaled hs scale => BlockHashListWithBlockSize.len hs scale end.
Definition hl_first (l : hash_list) (n : Z) : result (list bytes) :=
  if n <? 0 then Err ValueError else mapR (hl_get l) (py_range 0 (Z.min n (hl_len l))).

(** [for computed, cached in zip(computed_blocks, cached_block): computed.append(cached)]. *)
Definition append_each (computed : list (list nat)) (cached : list nat) : list (list nat) :=
  zip_with (fun c b => c ++ [b]) computed cached.

(** [if cached_block := block_pool.get_cached_block(...)]. *)
Definition cached_blocks_at (p : pool) (h : bytes) (groups : list Z) : result (option (list nat)) :=
  o ← get_cached_block p h groups;
  Ok (match o with Some [] => None | o => o end).

(** [for computed in computed_blocks: computed.pop()]. *)
Definition pop_each (computed : list (list nat)) : list (list nat) :=
  (fun c => take (length c - 1) c) <$> computed.

(** The alignment loop; it stops at length 0 at the latest. *)
Fixpoint align_loop (fuel : nat) (bs alignment : Z) (computed : list (list nat)) : list (list nat) :=
  match fuel with
  | O => computed
  | S fuel =>
      if negb (bs =? alignment) && negb (py_len (default [] (head computed)) * bs mod alignment =? 0)
      then align_loop fuel bs alignment (pop_each computed)
      else computed
  end.
Definition align_blocks (bs alignment : Z) (computed : list (list nat)) : list (list nat) :=
  align_loop (S (length (default [] (head computed)))) bs alignment computed.

Module FullAttentionManager.
(** The left-to-right scan, stopping at the first miss. *)
Fixpoint scan (p : pool) (groups : list Z) (hs : list bytes) (computed : list (list nat)) :
    result (list (list nat)) :=
  match hs with
  | [] => Ok computed
  | h :: hs =>
      o ← cached_blocks_at p h groups;
      match o with
      | Some cached => scan p groups hs (append_each computed cached)
      | None => Ok computed
      end
  end.

(** [find_longest_cache_hit].  The assertion that the group has full or chunked local
    attention is left out: the dispatch below calls it for full attention only. *)
Definition find_longest_cache_hit (hashes : hash_list) (max_length : Z) (groups : list Z) (p : pool)
    (spec : KVCacheSpec) (use_eagle : bool) (alignment dcp pcp : Z) : result (list (list nat)) :=
  let bs := if 1 <? dcp * pcp then spec_block_size spec * (dcp * pcp) else spec_block_size spec in
  hs ← hl_first hashes (max_length / bs);
  computed ← scan p groups hs (replicate (length groups) []);
  first ← (if use_eagle || negb (bs =? alignment) then of_option IndexError (head computed) else Ok []);
  let computed := if use_eagle && (0 <? py_len first) then pop_each computed else computed in
  Ok (align_blocks bs alignment computed).
End FullAttentionManager.

Module SlidingWindowManager.
(** The right-to-left scan over the indices [i], then [i - 1], ...: the blocks,
    the length of the run that ends the prefix, and whether a run of the
    required length was found. *)
Fixpoint scan (p : pool) (hashes : hash_list) (groups : list Z) (bs alignment need : Z) (n : nat)
    (computed : list (list nat)) (run : Z) : result (list (list nat) * Z * bool) :=
  match n with
  | O => Ok (computed, run, false)
  | S i =>
      h ← hl_get hashes (Z.of_nat i);
      o ← cached_blocks_at p h groups;
      match o with
      | Some cached =>
          if (run =? 0) && negb (bs =? alignment) && negb ((Z.of_nat i + 1) * bs mod alignment =? 0)
          then scan p hashes groups bs alignment need i computed run
          else
            let computed := zip_with (fun c b => <[i := b]> c) computed cached in
            let run := run + 1 in
            if need <=? run
            then Ok ((fun c => py_slice c 0 (Z.of_nat i + run)) <$> computed, run, true)
            else scan p hashes groups bs alignment need i computed run
      | None => scan p hashes groups bs alignment need i computed 0
      end
  end.

(** [find_longest_cache_hit]. *)
Definition find_longest_cache_hit (hashes : hash_list) (max_length : Z) (groups : list Z) (p : pool)
    (bs window : Z) (use_eagle : bool) (alignment dcp pcp : Z) : result (list (list nat)) :=
  _ ← py_assert (dcp =? 1);
  _ ← py_assert (pcp =? 1);
  let need := cdiv (window - 1) bs + (if use_eagle then 1 else 0) in
  let max_num_blocks := max_length / bs in
  let computed := replicate (length groups) (replicate (Z.to_nat max_num_blocks) (null_block p)) in
  '(computed, run, match_found) ← scan p hashes groups bs alignment need (Z.to_nat max_num_blocks) computed 0;
  let computed := if match_found : bool then computed
                  else align_blocks bs alignment ((fun c => py_slice c 0 run) <$> computed) in
  first ← (if use_eagle || (negb match_found && negb (bs =? alignment))
           then of_option IndexError (head computed) else Ok []);
  if use_eagle && (0 <? py_len first) then
    _ ← py_assert (bs =? alignment); Ok (pop_each computed)
  else Ok computed.
End SlidingWindowManager.

Module ChunkedLocalAttentionManager.
(** The scan over the blocks of the current chunk. *)
Fixpoint scan (p : pool) (hashes : hash_list) (groups : list Z) (is_ : list Z) (computed : list (list nat)) :
    result (list (list nat)) :=
  match is_ with
  | [] => Ok computed
  | i :: is_ =>
      h ← hl_get hashes i;
      o ← cached_blocks_at p h groups;
      match o with
      | Some cached => scan p hashes groups is_ (append_each computed cached)
      | None => Ok computed
      end
  end.

(** [find_longest_cache_hit]. *)
Definition find_longest_cache_hit (hashes : hash_list) (max_length : Z) (groups : list Z) (p : pool)
    (bs chunk : Z) (use_eagle : bool) (alignment dcp pcp : Z) : result (list (list nat)) :=
  _ ← py_assert (negb use_eagle);
  _ ← py_assert (dcp =? 1);
  _ ← py_assert (pcp =? 1);
  _ ← py_assert (bs =? alignment);
  let max_num_blocks := max_length / bs in
  let start_idx := if 0 <? max_length then max_length / chunk * chunk else 0 in
  let start_block := start_idx / bs in
  scan p hashes groups (py_range start_block max_num_blocks)
    (replicate (length groups) (replicate (Z.to_nat start_block) (null_block p))).
End ChunkedLocalAttentionManager.

Module MambaManager.
(** The right-to-left search for one cached state. *)
Fixpoint scan (p : pool) (hashes : hash_list) (groups : list Z) (bs alignment : Z) (n : nat) :
    result (list (list nat)) :=
  match n with
  | O => Ok (replicate (length groups) [])
  | S i =>
      h ← hl_get hashes (Z.of_nat i);
      o ← cached_blocks_at p h groups;
      match o with
      | Some cached =>
          if negb (bs =? alignment) && negb ((Z.of_nat i + 1) * bs mod alignment =? 0)
          then scan p hashes groups bs alignment i
          else Ok (zip_with (fun c b => c ++ replicate i (null_block p) ++ [b]) (replicate (length groups) []) cached)
      | None => scan p hashes groups bs alignment i
      end
  end.

(** [find_longest_cache_hit]. *)
Definition find_longest_cache_hit (hashes : hash_list) (max_length : Z) (groups : list Z) (p : pool)
    (bs alignment dcp pcp : Z) : result (list (list nat)) :=
  _ ← py_assert (dcp =? 1);
  _ ← py_assert (pcp =? 1);
  scan p hashes groups bs alignment (Z.to_nat (max_length / bs)).
End MambaManager.

(** [manager_cls.find_longest_cache_hit], by class. *)
Definition find_longest_cache_hit (spec : KVCacheSpec) (hashes : hash_list) (max_length : Z) (groups : list Z)
    (use_eagle : bool) (alignment dcp pcp : Z) (p : pool) : result (list (list nat)) :=
  match spec with
  | FullAttentionSpec _ | SinkFullAttentionSpec _ _ =>
      FullAttentionManager.find_longest_cache_hit hashes max_length groups p spec use_eagle alignment dcp pcp
  | SlidingWindowSpec bs window =>
      SlidingWindowManager.find_longest_cache_hit hashes max_length groups p bs window use_eagle alignment dcp pcp
  | ChunkedLocalAttentionSpec bs chunk =>
      ChunkedLocalAttentionManager.find_longest_cache_hit hashes max_length groups p bs chunk use_eagle alignment dcp pcp
  | MambaSpec bs _ _ => MambaManager.find_longest_cache_hit hashes max_length groups p bs alignment dcp pcp
  | CrossAttentionSpec _ => Err NotImplementedError
  end.

(** * Common prefix *)

(** The loop of [FullAttentionManager.get_num_common_prefix_blocks]. *)
Fixpoint count_common (p : pool) (n : Z) (blocks : list nat) : Z :=
  match blocks with
  | [] => 0
  | b :: blocks => if ref_of p b =? n then 1 + count_common p n blocks else 0
  end.

(** [get_num_common_prefix_blocks], by class. *)
Definition get_num_common_prefix_blocks (rid : string) (p : pool) (m : manager) : Z * manager :=
  match kv_cache_spec m with
  | FullAttentionSpec _ | SinkFullAttentionSpec _ _ =>
      let m := default_entry rid m in
      (count_common p (Z.of_nat (size (req_to_blocks m))) (blocks_of rid m), m)
  | _ => (0, m)
  end.
