(* ===== verification/SingleTypeFacts.v ===== *)
(** Ownership of blocks by the managers of [SingleType].

    [wf] says that a manager's lists name known blocks, no real block twice, and
    that the blocks it has not cached yet are its own and carry no hash.
    [owned] ties the reference counts of the pool to the lists: a block has one
    reference per list entry, of this manager or of the others ([ext]).  Every
    operation of a manager keeps both, and [frame] says it does not disturb the
    uncached blocks of other managers. *)
From S2P Require Import Prelude FreeQueue Request BlockHash BlockPool SingleType.
Import BlockPool.BlockPool PoolFacts.
Local Open Scope Z_scope.

Lemma elem_of_take_sub {A} (i : A) k l : i ∈ take k l -> i ∈ l.
Proof. intros Hi. rewrite <- (take_drop k l). apply elem_of_app. by left. Qed.

Lemma elem_of_drop_sub {A} (i : A) k l : i ∈ drop k l -> i ∈ l.
Proof. intros Hi. rewrite <- (take_drop k l). apply elem_of_app. by right. Qed.

(** * Counting list entries *)

(** The entries of block [i] in the lists of a manager. *)
Definition refs (m : manager) (i : nat) : Z :=
  sumZ ((fun kv => occ i (snd kv)) <$> map_to_list (req_to_blocks m)).

Lemma occ_nil i : occ i [] = 0.
Proof. done. Qed.

Lemma occ_app i l1 l2 : occ i (l1 ++ l2) = occ i l1 + occ i l2.
Proof. unfold occ. rewrite filter_app, length_app. lia. Qed.

Lemma occ_pos i l : i ∈ l -> 0 < occ i l.
Proof.
  intros Hi. unfold occ. assert (i ∈ filter (.= i) l) as Hf by (apply list_elem_of_filter; done).
  destruct (filter (.= i) l); [by apply elem_of_nil in Hf|]. simpl. lia.
Qed.

Lemma occ_nodup_1 i l : NoDup l -> i ∈ l -> occ i l = 1.
Proof.
  induction 1 as [|x l Hx Hl IH]; [by intros ?%elem_of_nil|]. rewrite occ_cons. intros [->|Hi]%elem_of_cons.
  - rewrite decide_True by done. rewrite occ_notin by done. done.
  - rewrite decide_False by congruence. rewrite IH by done. done.
Qed.

Lemma occ_le_1 i l : NoDup l -> occ i l <= 1.
Proof. intros Hl. destruct (decide (i ∈ l)); [rewrite occ_nodup_1 by done|rewrite occ_notin by done]; lia. Qed.

Lemma NoDup_occ l : (forall i, i ∈ l -> occ i l <= 1) -> NoDup l.
Proof.
  induction l as [|x l IH]; intros Ho; [apply NoDup_nil_2|]. apply NoDup_cons. split.
  - intros Hx. pose proof (occ_pos x l Hx). specialize (Ho x ltac:(left)). rewrite occ_cons, decide_True in Ho by done. lia.
  - apply IH. intros i Hi. specialize (Ho i ltac:(by right)). rewrite occ_cons in Ho. destruct (decide (x = i)); lia.
Qed.

Lemma occ_filter_real i l : i <> 0%nat -> occ i (filter (.≠ 0%nat) l) = occ i l.
Proof.
  intros Hi. induction l as [|x l IH]; [done|]. rewrite filter_cons, occ_cons.
  destruct (decide (x <> 0%nat)) as [Hx|Hx]; [by rewrite occ_cons, IH|].
  rewrite IH, decide_False; [done|]. intros ->. done.
Qed.

Lemma occ_filter_le i (P : nat -> Prop) `{forall x, Decision (P x)} l : occ i (filter P l) <= occ i l.
Proof.
  induction l as [|x l IH]; [done|]. rewrite filter_cons, occ_cons. destruct (decide (P x)).
  - rewrite occ_cons. lia.
  - destruct (decide (x = i)); lia.
Qed.

Lemma occ_perm i l1 l2 : l1 ≡ₚ l2 -> occ i l1 = occ i l2.
Proof. intros H. unfold occ. by rewrite H. Qed.

Lemma occ_reverse i l : occ i (reverse l) = occ i l.
Proof. apply occ_perm, reverse_Permutation. Qed.

Lemma occ_replicate_null i n : i <> 0%nat -> occ i (replicate n 0%nat) = 0.
Proof. intros Hi. apply occ_notin. intros [-> _]%elem_of_replicate. done. Qed.

Lemma refs_nonneg m i : 0 <= refs m i.
Proof.
  apply sumZ_nonneg, Forall_forall. intros x (kv & -> & _)%list_elem_of_fmap. apply occ_nonneg.
Qed.

Definition refs_of (b : gmap string (list nat)) (i : nat) : Z :=
  sumZ ((fun kv => occ i (snd kv)) <$> map_to_list b).

Lemma refs_of_insert_new b rid bs i : b !! rid = None -> refs_of (<[rid := bs]> b) i = refs_of b i + occ i bs.
Proof.
  intros Hr. unfold refs_of.
  rewrite (sumZ_perm _ ((fun kv => occ i (snd kv)) <$> ((rid, bs) :: map_to_list b))) by by rewrite map_to_list_insert.
  rewrite fmap_cons, sumZ_cons. simpl snd. lia.
Qed.

Lemma refs_of_delete b rid i : refs_of (delete rid b) i = refs_of b i - occ i (default [] (b !! rid)).
Proof.
  destruct (b !! rid) as [bs|] eqn:E; simpl.
  - rewrite <- (insert_delete_id b rid bs E) at 2. rewrite refs_of_insert_new by apply lookup_delete_eq. lia.
  - rewrite delete_id by done. rewrite occ_nil. lia.
Qed.

Lemma refs_of_insert b rid bs i :
  refs_of (<[rid := bs]> b) i = refs_of b i - occ i (default [] (b !! rid)) + occ i bs.
Proof.
  rewrite <- insert_delete_eq, refs_of_insert_new by apply lookup_delete_eq. by rewrite refs_of_delete.
Qed.

Lemma refs_set_blocks rid bs m i : refs (set_blocks rid bs m) i = refs m i - occ i (blocks_of rid m) + occ i bs.
Proof. apply refs_of_insert. Qed.

Lemma refs_default_entry rid m i : refs (default_entry rid m) i = refs m i.
Proof. unfold default_entry. change (refs (set_blocks rid (blocks_of rid m) m) i = refs m i). rewrite refs_set_blocks. lia. Qed.

Lemma blocks_of_set rid rid' bs m :
  blocks_of rid' (set_blocks rid bs m) = if decide (rid = rid') then bs else blocks_of rid' m.
Proof. unfold blocks_of, set_blocks. simpl. rewrite lookup_insert. by case_decide. Qed.

Lemma blocks_of_default rid rid' m : blocks_of rid' (default_entry rid m) = blocks_of rid' m.
Proof.
  change (blocks_of rid' (set_blocks rid (blocks_of rid m) m) = blocks_of rid' m).
  rewrite blocks_of_set. by case_decide; subst.
Qed.

Lemma refs_pos rid m i : i ∈ blocks_of rid m -> 0 < refs m i.
Proof.
  intros Hi. pose proof (occ_pos _ _ Hi). unfold blocks_of in *.
  destruct (req_to_blocks m !! rid) as [bs|] eqn:E; [|done]. simpl in *.
  pose proof (refs_of_delete (req_to_blocks m) rid i) as Hd. rewrite E in Hd. simpl in Hd.
  assert (0 <= refs_of (delete rid (req_to_blocks m)) i).
  { apply sumZ_nonneg, Forall_forall. intros x (kv & -> & _)%list_elem_of_fmap. apply occ_nonneg. }
  unfold refs. fold (refs_of (req_to_blocks m) i). lia.
Qed.

(** * The invariant *)

(** The number of cached blocks of a request, 0 when it has no entry. *)
Definition cached_of (rid : string) (m : manager) : Z := default 0 (num_cached_block m !! rid).

Record wf (p : pool) (m : manager) : Prop := {
  wf_size : 0 < block_size m;
  wf_known : forall rid i, i ∈ blocks_of rid m -> Z.of_nat i < num_gpu_blocks p;
  wf_nodup : forall rid, NoDup (filter (.≠ 0%nat) (blocks_of rid m));
  wf_cached : forall rid, 0 <= cached_of rid m;
  wf_fresh : forall rid i, i ∈ drop (Z.to_nat (cached_of rid m)) (blocks_of rid m) -> i <> 0%nat ->
    hash_of p i = None /\ ref_of p i = 1;
}.

Definition owned (p : pool) (m : manager) (ext : nat -> Z) : Prop :=
  (forall i, 0 <= ext i) /\ forall i, i <> 0%nat -> ref_of p i = ext i + refs m i.

(** Without caching nothing carries a hash. *)
Definition hashes_ok (p : pool) : Prop := enable_caching p = false -> forall i, hash_of p i = None.

(** What an operation of [m] keeps for the others: blocks that are nobody's
    prefix yet and not in the lists of [m]. *)
Definition frame (m : manager) (p p' : pool) : Prop :=
  forall i, i <> 0%nat -> refs m i = 0 -> ref_of p i = 1 -> hash_of p i = None ->
    hash_of p' i = None /\ ref_of p' i = 1.

Lemma wf_default_entry p m rid : wf p m -> wf p (default_entry rid m).
Proof.
  intros [Hs Hk Hn Hc Hf]. split; [done| | |done|]; intros rid'; rewrite blocks_of_default;
    [apply Hk|apply Hn|apply Hf].
Qed.

Lemma owned_default_entry p m ext rid : owned p m ext -> owned p (default_entry rid m) ext.
Proof. intros [He Hr]. split; [done|]. intros i Hi. rewrite refs_default_entry. by apply Hr. Qed.

(** Real blocks of a manager are not free. *)
Lemma owned_not_free p l m ext rid i :
  pool_inv p l -> owned p m ext -> i ∈ blocks_of rid m -> i <> 0%nat -> 0 < ref_of p i /\ i ∉ l.
Proof.
  intros I [He Hr] Hi H0. pose proof (refs_pos rid m i Hi). specialize (Hr i H0). specialize (He i).
  split; [lia|]. intros Hl. apply (inv_free p l i I) in Hl as [_ Hz]. lia.
Qed.

(** * Taking new blocks *)

Definition same_mgr (m m' : manager) : Prop :=
  kv_cache_spec m = kv_cache_spec m' /\ block_size m = block_size m' /\ caching m = caching m' /\
  kv_cache_group_id m = kv_cache_group_id m' /\ dcp_world_size m = dcp_world_size m' /\
  pcp_world_size m = pcp_world_size m'.

Lemma inv_nodup p l : pool_inv p l -> NoDup l.
Proof. intros [_ R]. pose proof (ro_nodup _ _ _ R) as H. by rewrite app_nil_r in H. Qed.

Lemma inv_real p l i : pool_inv p l -> i ∈ l -> real_block p i /\ ref_of p i = 0.
Proof. intros I Hi. by apply (inv_free p l i I). Qed.

(** The result of an operation of [m]: everything the other operations need. *)
Record step_ok (p p' : pool) (l' : list nat) (m m' : manager) (ext : nat -> Z) : Prop := {
  so_inv : pool_inv p' l';
  so_wf : wf p' m';
  so_owned : owned p' m' ext;
  so_hashes : hashes_ok p';
  so_config : same_config p p';
  so_mgr : same_mgr m m';
  so_frame : frame m p p';
}.

(** Blocks taken from the free queue and appended to a request's list. *)
Lemma extend_ok p l m ext rid k :
  pool_inv p l -> wf p m -> owned p m ext -> hashes_ok p -> (k <= length l)%nat ->
  exists p', get_new_blocks (Z.of_nat k) p = Ok (take k l, p') /\
    step_ok p p' (drop k l) m (set_blocks rid (blocks_of rid m ++ take k l) m) ext /\
    (forall i, i ∉ take k l -> ref_of p' i = ref_of p i /\ hash_of p' i = hash_of p i).
Proof.
  intros I W O Hh Hk. pose proof W as [Ws Wk Wn Wc Wf]. pose proof O as [He Hr].
  destruct (get_new_blocks_spec p l k I Hk) as (p' & E & I' & C & R & H). exists p'. split; [done|].
  assert (Hnew : forall i, i ∈ take k l -> real_block p i /\ ref_of p i = 0).
  { intros i Hi. apply (inv_real p l i I). by eapply elem_of_take_sub. }
  assert (Hold : forall i, i ∉ take k l -> ref_of p' i = ref_of p i /\ hash_of p' i = hash_of p i).
  { intros i Hi. rewrite R, H, decide_False by done. by rewrite decide_False by tauto. }
  assert (Hn : forall i, i ∈ take k l -> ref_of p' i = 1 /\ hash_of p' i = None).
  { intros i Hi. rewrite R, H, decide_True by done. split; [done|]. destruct (enable_caching p) eqn:Ec.
    - by rewrite decide_True.
    - rewrite decide_False by (intros [_ ?]; done). by apply Hh. }
  assert (Hdisj : forall rid i, i ∈ blocks_of rid m -> i <> 0%nat -> i ∉ take k l).
  { intros rid' i Hi H0 Hin. destruct (owned_not_free p l m ext rid' i I O Hi H0) as [Hp _].
    destruct (Hnew i Hin). lia. }
  split; [|done]. split; [done| | |intros Ec i|done|done|].
  - split; [done| | |done|].
    + intros rid' i. rewrite blocks_of_set. replace (num_gpu_blocks p') with (num_gpu_blocks p) by apply C.
      destruct (decide (rid = rid')) as [Hd|Hd]; [|apply Wk]. subst rid'. rewrite elem_of_app. intros [Hi|Hi]; [by eapply Wk|].
      destruct (Hnew i Hi) as [[_ ?] _]. done.
    + intros rid'. rewrite blocks_of_set. destruct (decide (rid = rid')); [|done]. rewrite filter_app. apply NoDup_app.
      split_and!; [done| |].
      * intros i [H0 Hi]%list_elem_of_filter [_ Hin]%list_elem_of_filter. by eapply Hdisj.
      * apply NoDup_filter. eapply sublist_NoDup; [apply (inv_nodup p l I)|apply sublist_take].
    + intros rid' i. rewrite blocks_of_set. destruct (decide (rid = rid')) as [Hd|Hd].
      * subst rid'. rewrite drop_app, elem_of_app. intros [Hi|Hi] H0.
        -- destruct (Wf rid i Hi H0) as [Hf1 Hf2]. destruct (Hold i) as [-> ->]; [|done].
           apply (Hdisj rid); [|done]. by eapply elem_of_drop_sub.
        -- destruct (Hn i); [|done]. by eapply elem_of_drop_sub.
      * intros Hi H0. destruct (Wf rid' i Hi H0) as [Hf1 Hf2]. destruct (Hold i) as [-> ->]; [|done].
        apply (Hdisj rid'); [|done]. by eapply elem_of_drop_sub.
  - split; [done|]. intros i H0. rewrite refs_set_blocks, occ_app, R. destruct (decide (i ∈ take k l)) as [Hin|Hin].
    + rewrite (occ_nodup_1 i (take k l)); [|eapply sublist_NoDup; [apply (inv_nodup p l I)|apply sublist_take]|done].
      specialize (Hr i H0). destruct (Hnew i Hin). lia.
    + rewrite (occ_notin i (take k l)) by done. specialize (Hr i H0). lia.
  - destruct (decide (i ∈ take k l)) as [Hin|Hin]; [by apply Hn|]. destruct (Hold i Hin) as [_ ->].
    apply Hh. by replace (enable_caching p) with (enable_caching p') by (symmetry; apply C).
  - intros i H0 _ Hr1 Hh1. destruct (Hold i) as [-> ->]; [|done]. intros Hin. destruct (Hnew i Hin). lia.
Qed.

Lemma base_allocate_ok p l m ext rid n :
  pool_inv p l -> wf p m -> owned p m ext -> hashes_ok p ->
  let k := Z.to_nat (cdiv n (block_size m) - py_len (blocks_of rid m)) in
  (k <= length l)%nat ->
  exists p' m', base_allocate_new_blocks rid n p m = Ok (take k l, p', m') /\
    step_ok p p' (drop k l) m m' ext /\ num_cached_block m' = num_cached_block m /\
    (forall rid', blocks_of rid' m' = if decide (rid = rid') then blocks_of rid m ++ take k l else blocks_of rid' m) /\
    (forall i, i ∉ take k l -> ref_of p' i = ref_of p i /\ hash_of p' i = hash_of p i).
Proof.
  intros I W O Hh k Hk. unfold base_allocate_new_blocks. cbv zeta. rewrite blocks_of_default.
  change (block_size (default_entry rid m)) with (block_size m).
  destruct (Z.leb_spec (cdiv n (block_size m) - py_len (blocks_of rid m)) 0) as [Hle|Hgt].
  - assert (k = 0%nat) as -> by lia. rewrite take_0, drop_0. exists p, (default_entry rid m). split; [done|]. split.
    { split; first [done|by apply wf_default_entry|by apply owned_default_entry|by intros i]. }
    split; [done|]. split; [|done]. intros rid'. rewrite blocks_of_default, app_nil_r.
    by destruct (decide (rid = rid')) as [->|].
  - destruct (extend_ok p l (default_entry rid m) ext rid k) as (p' & E & S & Hold);
      [done|by apply wf_default_entry|by apply owned_default_entry|done|done|].
    rewrite blocks_of_default in S.
    replace (cdiv n (block_size m) - py_len (blocks_of rid m)) with (Z.of_nat k) by lia. rewrite E. cbn [mbind result_bind].
    eexists _, _. split; [done|]. split; [|split; [done|split; [|done]]].
    + destruct S as [S1 S2 S3 S4 S5 S6 S7]. split; try done. intros i H0 Hr. apply S7; [done|]. by rewrite refs_default_entry.
    + intros rid'. rewrite blocks_of_set. by rewrite blocks_of_default.
Qed.

(** * Giving blocks back *)

Lemma refs_split rid m i : refs m i = refs (set_blocks rid [] m) i + occ i (blocks_of rid m).
Proof. rewrite refs_set_blocks, occ_nil. lia. Qed.

Lemma refs_ge rid m i : occ i (blocks_of rid m) <= refs m i.
Proof. rewrite (refs_split rid m i). pose proof (refs_nonneg (set_blocks rid [] m) i). lia. Qed.

Lemma refs_two rid rid' m i :
  rid <> rid' -> occ i (blocks_of rid m) + occ i (blocks_of rid' m) <= refs m i.
Proof.
  intros Hne. rewrite (refs_split rid m i). pose proof (refs_ge rid' (set_blocks rid [] m) i) as H.
  rewrite blocks_of_set, decide_False in H by done. lia.
Qed.

(** A list of known real blocks of a manager, none twice, can be freed. *)
Lemma freeable_own p l m ext rid bs :
  pool_inv p l -> wf p m -> owned p m ext -> bs ≡ₚ blocks_of rid m \/ (forall i, i ∈ bs -> i ∈ blocks_of rid m) ->
  NoDup (filter (.≠ 0%nat) bs) -> freeable p bs.
Proof.
  intros I W O Hbs Hnd. assert (Hin : forall i, i ∈ bs -> i ∈ blocks_of rid m).
  { destruct Hbs as [Hp|]; [|done]. intros i. by rewrite Hp. }
  split_and!; [intros i Hi; eapply wf_known; eauto|done|].
  intros i Hi H0. by eapply owned_not_free; eauto.
Qed.

(** Giving back [bs] and replacing the list of [rid] by [bs'], where [bs'] keeps
    the other entries of the list. *)
Lemma release_ok p l m m' ext rid bs bs' :
  pool_inv p l -> wf p m -> owned p m ext -> hashes_ok p -> freeable p bs ->
  same_mgr m m' ->
  (forall rid', blocks_of rid' m' = if decide (rid = rid') then bs' else blocks_of rid' m) ->
  (forall i, i <> 0%nat -> refs m' i = refs m i - occ i bs) ->
  (forall i, i <> 0%nat -> occ i bs' = occ i (blocks_of rid m) - occ i bs) ->
  (forall rid', 0 <= cached_of rid' m') ->
  (forall rid', rid' <> rid -> cached_of rid' m' = cached_of rid' m) ->
  (forall i, i ∈ drop (Z.to_nat (cached_of rid m')) bs' -> i <> 0%nat ->
     i ∈ drop (Z.to_nat (cached_of rid m)) (blocks_of rid m)) ->
  exists p', free_blocks bs p = Ok p' /\ step_ok p p' (l ++ last_ref p bs) m m' ext /\
    (forall i, ref_of p' i = ref_of p i - occ i bs) /\ (forall i, hash_of p' i = hash_of p i).
Proof.
  intros I W O Hh F M Hb Hrefs Hocc Hc0 Hc Hdrop. pose proof W as [Ws Wk Wn Wc Wf]. pose proof O as [He Hr].
  destruct (free_blocks_spec p l bs I F) as (p' & E & I' & C & R & H). exists p'. split; [done|]. split; [|done].
  assert (Hin : forall i, i ∈ bs' -> i <> 0%nat -> i ∈ blocks_of rid m).
  { intros i Hi H0. destruct (decide (i ∈ blocks_of rid m)); [done|]. exfalso. pose proof (occ_pos i bs' Hi).
    rewrite Hocc, occ_notin in H1 by done. pose proof (occ_nonneg i bs). lia. }
  split; [done| | |intros Ec i|done|done|].
  - destruct M as (_ & M2 & _). split; [by rewrite <- M2| | |done|].
    + intros rid' i. rewrite Hb. replace (num_gpu_blocks p') with (num_gpu_blocks p) by apply C.
      destruct (decide (rid = rid')) as [<-|]; [|apply Wk]. intros Hi. destruct (decide (i = 0%nat)) as [->|H0].
      * pose proof (pb_pos _ _ (proj1 I)). lia.
      * by eapply Wk, Hin.
    + intros rid'. rewrite Hb. destruct (decide (rid = rid')) as [<-|]; [|done].
      apply NoDup_occ. intros i [H0 _]%list_elem_of_filter. rewrite occ_filter_real by done. rewrite Hocc by done.
      pose proof (occ_nonneg i bs). specialize (Wn rid). rewrite <- (occ_filter_real i (blocks_of rid m)) by done.
      pose proof (occ_le_1 i _ Wn). lia.
    + intros rid' i. rewrite Hb. destruct (decide (rid = rid')) as [<-|Hne].
      * intros Hi H0. pose proof (Hdrop i Hi H0) as Hi'. destruct (Wf rid i Hi' H0) as [Hf1 Hf2].
        rewrite R, H. split; [done|]. assert (Hpos := occ_pos i bs' (elem_of_drop_sub _ _ _ Hi)).
        rewrite Hocc in Hpos by done. pose proof (occ_nonneg i bs). pose proof (refs_ge rid m i).
        specialize (Hr i H0). specialize (He i). lia.
      * rewrite Hc by congruence. intros Hi H0. destruct (Wf rid' i Hi H0) as [Hf1 Hf2]. rewrite R, H. split; [done|].
        assert (Hpos := occ_pos i _ (elem_of_drop_sub _ _ _ Hi)). pose proof (refs_two rid rid' m i Hne).
        specialize (Hr i H0). specialize (He i). specialize (Hocc i H0). pose proof (occ_nonneg i bs).
        pose proof (occ_nonneg i bs'). lia.
  - split; [done|]. intros i H0. rewrite R, Hrefs by done. specialize (Hr i H0). lia.
  - rewrite H. apply Hh. by replace (enable_caching p) with (enable_caching p') by (symmetry; apply C).
  - intros i H0 Hz Hr1 Hh1. rewrite R, H. split; [done|]. specialize (Hocc i H0). pose proof (refs_ge rid m i).
    pose proof (occ_nonneg i bs). pose proof (occ_nonneg i bs'). lia.
Qed.

Lemma free_ok p l m ext rid :
  pool_inv p l -> wf p m -> owned p m ext -> hashes_ok p ->
  exists p' m', free rid p m = Ok (p', m') /\ step_ok p p' (l ++ last_ref p (reverse (blocks_of rid m))) m m' ext /\
    req_to_blocks m' = delete rid (req_to_blocks m) /\ num_cached_block m' = delete rid (num_cached_block m) /\
    (forall i, hash_of p' i = hash_of p i).
Proof.
  intros I W O Hh. unfold free. cbv zeta.
  set (m1 := match kv_cache_spec m with MambaSpec _ true _ => _ | _ => _ end).
  assert (Hm1 : req_to_blocks m1 = req_to_blocks m /\ num_cached_block m1 = num_cached_block m /\ same_mgr m m1).
  { unfold m1. destruct (kv_cache_spec m) as [| | |? []| |]; by split_and!. }
  destruct Hm1 as (Hb1 & Hc1 & M1). assert (Hbl : forall rid, blocks_of rid m1 = blocks_of rid m) by (intros; unfold blocks_of; by rewrite Hb1).
  rewrite Hbl. set (m' := with_num_cached _ _).
  assert (Hb' : req_to_blocks m' = delete rid (req_to_blocks m)) by (unfold m'; simpl; by rewrite Hb1).
  assert (Hc' : num_cached_block m' = delete rid (num_cached_block m)) by (unfold m'; simpl; by rewrite Hc1).
  destruct (release_ok p l m m' ext rid (reverse (blocks_of rid m)) []) as (p' & E & S & _ & Hhash); try done.
  - apply (freeable_own p l m ext rid); [done..| |].
    + left. apply reverse_Permutation.
    + rewrite reverse_Permutation. apply (wf_nodup _ _ W).
  - intros rid'. unfold blocks_of at 1. rewrite Hb', lookup_delete. by destruct (decide (rid = rid')).
  - intros i H0. rewrite occ_reverse. unfold refs at 1. fold (refs_of (req_to_blocks m') i). rewrite Hb'. apply refs_of_delete.
  - intros i H0. rewrite occ_reverse, occ_nil. lia.
  - intros rid'. unfold cached_of. rewrite Hc', lookup_delete. destruct (decide (rid = rid')); [done|]. apply (wf_cached _ _ W).
  - intros rid' Hne. unfold cached_of. rewrite Hc', lookup_delete. by rewrite decide_False.
  - intros i. rewrite drop_nil. by intros ?%elem_of_nil.
  - rewrite E. cbn [mbind result_bind]. exists p', m'. by split_and!.
Qed.

(** ** Blocks outside the attention window *)

Lemma remove_loop_spec n blocks removed :
  (n <= length blocks)%nat ->
  exists j, (j <= n)%nat /\
    remove_loop 0 n blocks removed =
      (take j blocks ++ replicate (n - j) 0%nat ++ drop n blocks, removed ++ reverse (drop j (take n blocks))) /\
    (forall i, i ∈ drop j (take n blocks) -> i <> 0%nat) /\ (j = 0%nat \/ blocks !! (j - 1)%nat = Some 0%nat).
Proof.
  revert blocks removed. induction n as [|n IH]; intros blocks removed Hn.
  { exists 0%nat. simpl. rewrite app_nil_r. split_and!; [lia|done|by intros i ?%elem_of_nil|by left]. }
  destruct (lookup_lt_is_Some_2 blocks n) as [b Hb]; [lia|]. simpl. rewrite Hb.
  destruct (decide (b = 0%nat)) as [->|Hne].
  - exists (S n). rewrite Nat.sub_diag. simpl replicate. rewrite (drop_ge (take (S n) blocks)) by (rewrite length_take; lia).
    rewrite app_nil_l, take_drop, app_nil_r. split_and!; [lia|done|by intros i ?%elem_of_nil|].
    right. by replace (S n - 1)%nat with n by lia.
  - destruct (IH (<[n := 0%nat]> blocks) (removed ++ [b])) as (j & Hj & -> & Hnz & Hbefore); [rewrite length_insert; lia|].
    assert (Ht : forall k, (k <= n)%nat -> take k (<[n := 0%nat]> blocks) = take k blocks) by (intros; apply take_insert_ge; lia).
    exists j. rewrite (Ht n) in Hnz by lia. rewrite (Ht n), (Ht j) by lia.
    assert (Htake : drop j (take (S n) blocks) = drop j (take n blocks) ++ [b]).
    { rewrite (take_S_r _ _ b) by done. rewrite drop_app_le; [done|]. rewrite length_take. lia. }
    rewrite Htake, reverse_app. simpl. rewrite <- app_assoc. split_and!.
    + lia.
    + f_equal. f_equal. replace (S n - j)%nat with ((n - j) + 1)%nat by lia. rewrite replicate_add, <- app_assoc.
      f_equal. rewrite (drop_S _ 0%nat n) by (rewrite list_lookup_insert_eq; [done|lia]). simpl. f_equal.
      rewrite drop_insert_lt by lia. done.
    + intros i [Hi|Hi]%elem_of_app; [by apply Hnz|]. apply list_elem_of_singleton in Hi. congruence.
    + destruct Hbefore as [|Hbe]; [by left|]. destruct (decide (j = 0%nat)); [by left|]. right.
      rewrite list_lookup_insert_ne in Hbe by lia. done.
Qed.

Lemma remove_loop_occ n j blocks i :
  (j <= n <= length blocks)%nat -> i <> 0%nat ->
  occ i (take j blocks ++ replicate (n - j) 0%nat ++ drop n blocks)
  = occ i blocks - occ i (drop j (take n blocks)).
Proof.
  intros Hj H0. rewrite !occ_app, occ_replicate_null by done.
  rewrite <- (take_drop n blocks) at 3. rewrite occ_app. rewrite <- (take_drop j (take n blocks)) at 1.
  rewrite occ_app, take_take, Nat.min_l by lia. lia.
Qed.

(** The managers of attention layers: the ones without their own allocation. *)
Definition attention_spec (s : KVCacheSpec) : Prop :=
  match s with
  | FullAttentionSpec _ => True
  | SlidingWindowSpec _ w => 0 < w
  | ChunkedLocalAttentionSpec _ c => 0 < c
  | _ => False
  end.

Lemma skipped_nonneg s n : attention_spec s -> 0 <= n -> 0 <= get_num_skipped_tokens s n.
Proof.
  intros Hs Hn. unfold get_num_skipped_tokens, sliding_skipped_tokens, chunked_skipped_tokens. destruct s; simpl in *; try lia. assert (0 <= n / attention_chunk_size) by (apply Z.div_pos; lia). nia.
Qed.

Lemma remove_base m rid t p :
  attention_spec (kv_cache_spec m) -> remove_skipped_blocks rid t p m = base_remove_skipped_blocks rid t p m.
Proof.
  intros Ha. unfold remove_skipped_blocks, base_remove_skipped_blocks.
  destruct (_ <=? 0); [cbn [mbind result_bind]; by destruct (kv_cache_spec m)|].
  destruct (remove_loop _ _ _ _) as [bl rm]. destruct (free_blocks rm p); [|done]. cbn [mbind result_bind].
  change (kv_cache_spec (set_blocks rid bl (default_entry rid m))) with (kv_cache_spec m). by destruct (kv_cache_spec m).
Qed.

(** The list after the removal: the blocks from position [n] on are kept. *)
Lemma remove_ok p l m ext rid t :
  pool_inv p l -> wf p m -> owned p m ext -> hashes_ok p -> attention_spec (kv_cache_spec m) ->
  exists p' m' n freed,
    remove_skipped_blocks rid t p m = Ok (p', m') /\ step_ok p p' (l ++ freed) m m' ext /\
    Z.of_nat n * block_size m <= Z.max 0 (get_num_skipped_tokens (kv_cache_spec m) t) /\
    (length (blocks_of rid m') = length (blocks_of rid m)) /\
    drop n (blocks_of rid m') = drop n (blocks_of rid m) /\
    (forall q b, blocks_of rid m' !! q = Some b -> b = 0%nat \/ blocks_of rid m !! q = Some b) /\
    (forall rid', rid' <> rid -> blocks_of rid' m' = blocks_of rid' m) /\
    num_cached_block m' = num_cached_block m /\ (forall i, hash_of p' i = hash_of p i).
Proof.
  intros I W O Hh Ha. rewrite remove_base by done. unfold base_remove_skipped_blocks. cbv zeta.
  set (sk := get_num_skipped_tokens _ _). destruct (Z.leb_spec sk 0) as [Hle|Hpos].
  { exists p, m, 0%nat, []. rewrite app_nil_r. split; [done|]. split; [split; first [done|by intros i]|].
    split_and!; first [done|lia|by right]. }
  rewrite blocks_of_default. change (block_size (default_entry rid m)) with (block_size m).
  pose proof (wf_size _ _ W) as Hbs. set (n := Z.to_nat (Z.min (sk / block_size m) (py_len (blocks_of rid m)))).
  assert (Hdiv : 0 <= sk / block_size m) by (apply Z.div_pos; lia).
  assert (Hn : (n <= length (blocks_of rid m))%nat) by (unfold n, py_len; lia).
  assert (Hnbs : Z.of_nat n * block_size m <= sk).
  { pose proof (Z.mul_div_le sk (block_size m) Hbs). unfold n, py_len. nia. }
  replace (null_block p) with 0%nat by (symmetry; apply (pb_null _ _ (proj1 I))).
  destruct (remove_loop_spec n (blocks_of rid m) [] Hn) as (j & Hj & -> & Hnz & _).
  set (bs := reverse (drop j (take n (blocks_of rid m)))). rewrite app_nil_l.
  set (bs' := take j (blocks_of rid m) ++ replicate (n - j) 0%nat ++ drop n (blocks_of rid m)).
  assert (Hocc : forall i, i <> 0%nat -> occ i bs' = occ i (blocks_of rid m) - occ i bs).
  { intros i H0. unfold bs, bs'. rewrite occ_reverse. apply remove_loop_occ; [lia|done]. }
  assert (Hdrop : drop n bs' = drop n (blocks_of rid m)).
  { unfold bs'. rewrite app_assoc, drop_app_length'; [done|]. rewrite length_app, length_take, length_replicate. lia. }
  assert (Hlen : length bs' = length (blocks_of rid m)).
  { unfold bs'. rewrite !length_app, length_take, length_replicate, length_drop. lia. }
  assert (Hpt : forall q b, bs' !! q = Some b -> b = 0%nat \/ blocks_of rid m !! q = Some b).
  { intros q b Hq. unfold bs' in Hq. destruct (decide (q < j)%nat) as [H1|H1].
    - right. rewrite lookup_app_l in Hq by (rewrite length_take; lia). by rewrite lookup_take_lt in Hq by done.
    - rewrite lookup_app_r in Hq by (rewrite length_take; lia). rewrite length_take, Nat.min_l in Hq by lia.
      destruct (decide (q < n)%nat).
      + left. rewrite lookup_app_l, lookup_replicate_2 in Hq by (rewrite ?length_replicate; lia). congruence.
      + right. rewrite lookup_app_r, length_replicate, lookup_drop in Hq by (rewrite length_replicate; lia).
        rewrite <- Hq. f_equal. lia. }
  destruct (release_ok p l m (set_blocks rid bs' (default_entry rid m)) ext rid bs bs') as (p' & E & S & _ & Hhash); try done.
  - apply (freeable_own p l m ext rid); [done..| |].
    + right. intros i Hi. unfold bs in Hi. rewrite elem_of_reverse in Hi. by eapply elem_of_take_sub, elem_of_drop_sub.
    + apply NoDup_occ. intros i [H0 _]%list_elem_of_filter. rewrite occ_filter_real by done.
      pose proof (occ_le_1 i _ (wf_nodup _ _ W rid)) as H1. rewrite occ_filter_real in H1 by done.
      specialize (Hocc i H0). pose proof (occ_nonneg i bs'). lia.
  - intros rid'. rewrite blocks_of_set. destruct (decide (rid = rid')); [done|]. apply blocks_of_default.
  - intros i H0. rewrite refs_set_blocks, refs_default_entry, blocks_of_default, Hocc by done. lia.
  - intros rid'. apply (wf_cached _ _ W).
  - intros i [q Hq]%list_elem_of_lookup_1 H0. rewrite lookup_drop in Hq. apply (list_elem_of_lookup_2 _ q).
    rewrite lookup_drop. by destruct (Hpt _ _ Hq).
  - rewrite E. cbn [mbind result_bind]. exists p', (set_blocks rid bs' (default_entry rid m)), n, (last_ref p bs).
    split; [done|]. split; [done|]. rewrite blocks_of_set, decide_True by done. split_and!; try done; [lia|].
    intros rid' Hne. rewrite blocks_of_set, decide_False by done. apply blocks_of_default.
Qed.

(** * Prefix-cache hits of a new request *)

(** What a list of hits is: known blocks, the real ones distinct and carrying a
    hash; none without caching. *)
Record hits_ok (p : pool) (bs : list nat) : Prop := {
  ho_known : forall i, i ∈ bs -> Z.of_nat i < num_gpu_blocks p;
  ho_hash : forall i, i ∈ bs -> i <> 0%nat -> hash_of p i <> None;
  ho_nodup : NoDup (filter (.≠ 0%nat) bs);
}.

(** The manager after the hits are added. *)
Definition with_hits (rid : string) (bs : list nat) (m : manager) : manager :=
  with_num_cached (<[rid := py_len bs]> (num_cached_block m)) (set_blocks rid bs (default_entry rid m)).

Lemma touch_hits_ok p l m ext rid sb bs :
  pool_inv p l -> wf p m -> owned p m ext -> hashes_ok p -> hits_ok p bs -> blocks_of rid m = [] ->
  exists p', touch bs p = Ok p' /\
    step_ok p p' (filter (fun i => i ∉ bs) l) m (with_hits rid (replicate sb 0%nat ++ bs) m) ext /\
    (forall i, hash_of p' i = hash_of p i /\ ref_of p' i = ref_of p i + occ i bs).
Proof.
  intros I W O Hh Hhit Hnil. pose proof W as [Ws Wk Wn Wc Wf]. pose proof O as [He Hr].
  destruct (touch_spec p l bs I (ho_known _ _ Hhit)) as (p' & E & I' & C & R & H). exists p'. split; [done|]. split; [|done].
  set (bl := replicate sb 0%nat ++ bs).
  assert (Hb : forall rid', blocks_of rid' (with_hits rid bl m) = if decide (rid = rid') then bl else blocks_of rid' m).
  { intros rid'. unfold with_hits. change (blocks_of rid' (set_blocks rid bl (default_entry rid m)) = if decide (rid = rid') then bl else blocks_of rid' m).
    rewrite blocks_of_set, blocks_of_default. done. }
  assert (Hc : forall rid', cached_of rid' (with_hits rid bl m) = if decide (rid = rid') then py_len bl else cached_of rid' m).
  { intros rid'. unfold cached_of, with_hits. simpl. rewrite lookup_insert. by destruct (decide (rid = rid')). }
  assert (Hocc : forall i, i <> 0%nat -> occ i bl = occ i bs).
  { intros i H0. unfold bl. rewrite occ_app, occ_replicate_null by done. lia. }
  assert (Hkeep : forall i, i <> 0%nat -> hash_of p i = None -> ref_of p' i = ref_of p i).
  { intros i H0 Hn. rewrite R, occ_notin; [lia|]. intros Hin. by apply (ho_hash _ _ Hhit i Hin H0). }
  split; [done| | |intros Ec i|done|done|].
  - split; [done| | | |].
    + intros rid' i. rewrite Hb. replace (num_gpu_blocks p') with (num_gpu_blocks p) by apply C.
      destruct (decide (rid = rid')); [|apply Wk]. unfold bl. rewrite elem_of_app. intros [[-> _]%elem_of_replicate|Hi].
      * pose proof (pb_pos _ _ (proj1 I)). lia.
      * by apply (ho_known _ _ Hhit).
    + intros rid'. rewrite Hb. destruct (decide (rid = rid')); [|done]. apply NoDup_occ.
      intros i [H0 _]%list_elem_of_filter. rewrite occ_filter_real, Hocc by done.
      rewrite <- occ_filter_real by done. apply occ_le_1, (ho_nodup _ _ Hhit).
    + intros rid'. rewrite Hc. destruct (decide (rid = rid')); [unfold py_len; lia|done].
    + intros rid' i. rewrite Hb, Hc. destruct (decide (rid = rid')) as [<-|].
      * rewrite drop_ge by (unfold py_len; lia). by intros ?%elem_of_nil.
      * intros Hi H0. destruct (Wf rid' i Hi H0) as [Hf1 Hf2]. rewrite H, Hkeep by done. done.
  - split; [done|]. intros i H0. change (refs (with_hits rid bl m) i) with (refs (set_blocks rid bl (default_entry rid m)) i).
    rewrite R, refs_set_blocks, refs_default_entry, blocks_of_default, Hnil, occ_nil, Hocc by done. specialize (Hr i H0). lia.
  - rewrite H. apply Hh. by replace (enable_caching p) with (enable_caching p') by (symmetry; apply C).
  - intros i H0 _ Hr1 Hh1. rewrite H, Hkeep by done. done.
Qed.

(** The free blocks the hits take out of the queue are the evictable ones. *)
Lemma evictable_count p l bs :
  pool_inv p l -> hits_ok p bs ->
  Z.of_nat (length (filter (fun i => i ∉ bs) l)) = Z.of_nat (length l) - get_num_evictable_blocks p bs.
Proof.
  intros I Hhit. unfold get_num_evictable_blocks, py_len.
  assert (Hrel : forall i, i ∈ bs -> is_releasable p i = true <-> i ∈ l).
  { intros i Hi. rewrite (inv_free p l i I).
    pose proof (ho_known _ _ Hhit i Hi) as Hk. destruct (block_at_ok p l i (proj1 I) Hk) as (b & _ & Hb & Hr & _).
    destruct (pb_attr _ _ (proj1 I) i b Hb) as [_ Hnull]. unfold is_releasable, ref_of, real_block. rewrite Hb.
    rewrite andb_true_iff, Z.eqb_eq, negb_true_iff, Hnull, bool_decide_eq_false. split; [intros [? ?]|intros [[? ?] ?]]; done. }
  assert (Hperm : filter (fun i => i ∈ bs) l ≡ₚ filter (fun i => is_releasable p i = true) bs).
  { apply NoDup_Permutation.
    - apply NoDup_filter, (inv_nodup p l I).
    - apply NoDup_occ. intros i Hi. pose proof Hi as [Hr Hin]%list_elem_of_filter.
      assert (H0 : i <> 0%nat) by (apply Hrel in Hr; [|done]; by apply (inv_real p l i I) in Hr as [[? _] _]).
      transitivity (occ i bs); [|rewrite <- occ_filter_real by done; apply occ_le_1, (ho_nodup _ _ Hhit)].
      apply occ_filter_le.
    - intros i. rewrite !list_elem_of_filter. split; [intros [? ?]|intros [? ?]]; split; try done; by apply Hrel. }
  rewrite <- (Permutation_length Hperm).
  clear. induction l as [|x l IH]; [done|]. rewrite !filter_cons.
  destruct (decide (x ∈ bs)) as [Hx|Hx]; destruct (decide (x ∉ bs)) as [Hy|Hy]; try done; simpl length; lia.
Qed.

Lemma same_mgr_trans m1 m2 m3 : same_mgr m1 m2 -> same_mgr m2 m3 -> same_mgr m1 m3.
Proof. unfold same_mgr. intros (?&?&?&?&?&?) (?&?&?&?&?&?). split_and!; congruence. Qed.

Lemma step_trans p p1 p2 l1 l2 m m1 m2 ext :
  owned p m ext -> step_ok p p1 l1 m m1 ext -> step_ok p1 p2 l2 m1 m2 ext -> step_ok p p2 l2 m m2 ext.
Proof.
  intros [He Hr] [A1 A2 A3 A4 A5 A6 A7] [B1 B2 B3 B4 B5 B6 B7].
  split; try done; [by etrans|by eapply same_mgr_trans|].
  intros i H0 Hz Hr1 Hh1. destruct (A7 i H0 Hz Hr1 Hh1) as [Hh2 Hr2]. apply B7; [done| |done|done].
  specialize (Hr i H0). destruct A3 as [_ A3]. specialize (A3 i H0). pose proof (refs_nonneg m1 i). lia.
Qed.

Lemma hits_drop p bs k : hits_ok p bs -> hits_ok p (drop k bs).
Proof.
  intros [Hk Hh Hn]. split.
  - intros i Hi. by eapply Hk, elem_of_drop_sub.
  - intros i Hi. by eapply Hh, elem_of_drop_sub.
  - apply NoDup_occ. intros i [H0 _]%list_elem_of_filter. rewrite occ_filter_real by done.
    pose proof (occ_le_1 i _ Hn) as H1. rewrite occ_filter_real in H1 by done.
    rewrite <- (take_drop k bs), occ_app in H1. pose proof (occ_nonneg i (take k bs)). lia.
Qed.

(** The blocks a new request starts with: nulls for the skipped ones, then the
    hits inside the window. *)
Definition hit_blocks (sb : nat) (ncb : list nat) : list nat := replicate sb 0%nat ++ drop sb ncb.

Lemma length_hit_blocks sb ncb : py_len (hit_blocks sb ncb) = Z.max (Z.of_nat sb) (py_len ncb).
Proof. unfold hit_blocks, py_len. rewrite length_app, length_replicate, length_drop. lia. Qed.

Lemma skipped_le s n : attention_spec s -> 0 <= n -> get_num_skipped_tokens s n <= n.
Proof.
  intros Hs Hn. unfold get_num_skipped_tokens, sliding_skipped_tokens, chunked_skipped_tokens. destruct s; simpl in *; try lia. pose proof (Z.mul_div_le n attention_chunk_size Hs). lia.
Qed.

Lemma cdiv_ge_div a b : 0 < b -> 0 <= a -> a / b <= cdiv a b.
Proof. intros Hb Ha. rewrite cdiv_spec by done. apply Z.div_le_mono; lia. Qed.

Lemma cdiv_mul_le a b n : 0 < b -> n * b <= a -> n <= cdiv a b.
Proof. intros Hb Hn. rewrite cdiv_spec by done. apply Z.div_le_lower_bound; lia. Qed.

(** The blocks skipped before [total] computed tokens, the external tokens inside
    the window, and the blocks taken for them. *)
Definition skip_blocks (m : manager) (total : Z) : nat :=
  Z.to_nat (get_num_skipped_tokens (kv_cache_spec m) total / block_size m).
Definition ext_tokens (m : manager) (total ne : Z) : Z :=
  if 0 <? get_num_skipped_tokens (kv_cache_spec m) total / block_size m
  then Z.min (total - get_num_skipped_tokens (kv_cache_spec m) total) ne else ne.
Definition ext_blocks (m : manager) (ncb : list nat) (total ne : Z) : nat :=
  if 0 <? ext_tokens m total ne
  then Z.to_nat (cdiv total (block_size m) - py_len (hit_blocks (skip_blocks m total) ncb)) else 0.

(** [allocate_new_computed_blocks] for a request without blocks: the hits are
    taken out of the free queue, and [k] blocks are taken for external tokens. *)
Lemma computed_ok p l m ext rid ncb nl ne :
  pool_inv p l -> wf p m -> owned p m ext -> hashes_ok p -> hits_ok p ncb -> attention_spec (kv_cache_spec m) ->
  num_cached_block m !! rid = None -> blocks_of rid m = [] -> 0 <= nl -> 0 <= ne ->
  py_len ncb * block_size m <= nl + ne -> (caching m = false -> ncb = []) ->
  let total := nl + ne in
  let sb := skip_blocks m total in
  let l1 := filter (fun i => i ∉ drop sb ncb) l in
  let k := ext_blocks m ncb total ne in
  (k <= length l1)%nat ->
  exists p' m', allocate_new_computed_blocks rid ncb nl ne p m = Ok (p', m') /\
    step_ok p p' (drop k l1) m m' ext /\
    num_cached_block m' = <[rid := py_len (hit_blocks sb ncb)]> (num_cached_block m) /\
    (forall rid', blocks_of rid' m' = if decide (rid = rid') then hit_blocks sb ncb ++ take k l1 else blocks_of rid' m) /\
    (forall i, i ∉ l -> hash_of p' i = hash_of p i) /\
    (ne = 0 -> k = 0%nat /\ forall i, hash_of p' i = hash_of p i /\ ref_of p' i = ref_of p i + occ i (drop sb ncb)).
Proof.
  intros I W O Hh Hhit Ha Hnc Hnil Hnl Hne Hlen Hcache total sb l1 k Hroom. pose proof (wf_size _ _ W) as Hbs.
  set (sk := get_num_skipped_tokens (kv_cache_spec m) total) in *.
  assert (Hsk : 0 <= sk <= total) by (split; [apply skipped_nonneg; done || lia|apply skipped_le; done || lia]).
  assert (Hsb : 0 <= sk / block_size m) by (apply Z.div_pos; lia).
  unfold allocate_new_computed_blocks. rewrite Hnc. cbv zeta. rewrite blocks_of_default, Hnil.
  change (block_size (default_entry rid m)) with (block_size m).
  change (kv_cache_spec (default_entry rid m)) with (kv_cache_spec m).
  change (caching (default_entry rid m)) with (caching m). fold total. fold sk.
  set (ext_tok := if 0 <? sk / block_size m then Z.min (total - sk) ne else ne).
  assert (Hk : k = if 0 <? ext_tok then Z.to_nat (cdiv total (block_size m) - py_len (hit_blocks sb ncb)) else 0%nat) by done.
  clearbody k.
  assert (Hpair : (if 0 <? sk / block_size m
     then (py_slice ncb (sk / block_size m) (py_len ncb), Z.min (total - sk) ne) else (ncb, ne)) = (drop sb ncb, ext_tok)).
  { unfold ext_tok, sb, skip_blocks. fold sk. destruct (Z.ltb_spec 0 (sk / block_size m)).
    - f_equal. rewrite py_slice_nonneg by (unfold py_len; lia). apply take_ge. rewrite length_drop. unfold py_len. lia.
    - replace (sk / block_size m) with 0 by lia. done. }
  rewrite Hpair. clear Hpair.
  destruct (touch_hits_ok p l m ext rid sb (drop sb ncb)) as (p1 & Et & S1 & H1); try done; [by apply hits_drop|].
  assert (Hthen : (if caching m then touch (drop sb ncb) p
      else _ ← py_assert (py_len (drop sb ncb) =? 0); Ok p) = Ok p1).
  { destruct (caching m) eqn:Ec; [done|]. rewrite (Hcache eq_refl), drop_nil in Et |- *. exact Et. }
  assert (Hsp : forall A (x y : A), match kv_cache_spec m with CrossAttentionSpec _ => x | _ => y end = y).
  { intros. by destruct (kv_cache_spec m). }
  rewrite Hsp. cbn [py_assert mbind result_bind py_len length]. change (Z.of_nat 0 =? 0) with true. cbn [py_assert mbind result_bind].
  rewrite Hthen. cbn [mbind result_bind]. change (Z.to_nat (sk / block_size m)) with sb. fold l1 in S1. fold (hit_blocks sb ncb) in S1.
  replace (null_block p1) with 0%nat by (symmetry; apply (pb_null _ _ (proj1 (so_inv _ _ _ _ _ _ S1)))).
  rewrite app_nil_l. fold (hit_blocks sb ncb).
  change (with_num_cached _ _) with (with_hits rid (hit_blocks sb ncb) m).
  set (m1 := with_hits rid (hit_blocks sb ncb) m) in *.
  assert (Hb1 : forall rid', blocks_of rid' m1 = if decide (rid = rid') then hit_blocks sb ncb else blocks_of rid' m).
  { intros rid'. change (blocks_of rid' m1) with (blocks_of rid' (set_blocks rid (hit_blocks sb ncb) (default_entry rid m))).
    by rewrite blocks_of_set, blocks_of_default. }
  assert (Hk0 : 0 <= cdiv total (block_size m) - py_len (hit_blocks sb ncb)).
  { rewrite length_hit_blocks. pose proof (cdiv_mul_le total (block_size m) (py_len ncb) Hbs Hlen).
    assert (sk / block_size m <= cdiv total (block_size m)).
    { etrans; [apply Z.div_le_mono; [done|apply (proj2 Hsk)]|]. apply cdiv_ge_div; lia. }
    unfold sb, skip_blocks. fold sk. lia. }
  destruct (0 <? ext_tok) eqn:Eext.
  - destruct S1 as [I1 W1 O1 Hh1 C1 M1 F1].
    destruct (extend_ok p1 l1 m1 ext rid k I1 W1 O1 Hh1 Hroom) as (p2 & E2 & S2 & Hold).
    rewrite Hb1, decide_True in S2 by done.
    change (block_size m1) with (block_size m).
    replace (cdiv total (block_size m) - py_len (hit_blocks sb ncb)) with (Z.of_nat k) by lia. rewrite E2. cbn [mbind result_bind].
    eexists _, _. split; [done|]. split; [|split; [done|split; [|split]]].
    + by apply (step_trans p p1 p2 l1 _ m m1).
    + intros rid'. rewrite blocks_of_set, Hb1. by destruct (decide (rid = rid')).
    + intros i Hi. destruct (Hold i) as [_ ->]; [|apply H1]. intros Hin. apply elem_of_take_sub in Hin.
      unfold l1 in Hin. by apply list_elem_of_filter in Hin as [_ ?].
    + intros Hz. exfalso. apply Z.ltb_lt in Eext. unfold ext_tok in Eext. destruct (0 <? sk / block_size m); lia.
  - subst k. eexists _, _. rewrite drop_0. split; [done|]. split; [done|]. split; [done|].
    split; [|split; [intros i _; apply H1|done]].
    intros rid'. rewrite Hb1, take_0, app_nil_r. done.
Qed.

(** * Caching full blocks *)

Record cacheable (p : pool) (m : manager) (r : Request) (num_tokens : Z) : Prop := {
  ca_on : enable_caching p = true;
  ca_sizes : 0 < hash_block_size p /\ block_size m mod hash_block_size p = 0;
  ca_group : 0 <= kv_cache_group_id m < 2 ^ 32;
  ca_blocks : num_tokens / block_size m <= py_len (blocks_of (request_id r) m);
  ca_hashes : num_tokens / block_size m <= py_len (block_hashes r) / (block_size m / hash_block_size p);
}.

Lemma elem_of_slice {A} (l : list A) a b x :
  0 <= a -> 0 <= b -> x ∈ py_slice l a b -> exists q, l !! q = Some x /\ (Z.to_nat a <= q < Z.to_nat b)%nat.
Proof.
  intros Ha Hb. rewrite py_slice_nonneg by lia. intros [q Hq]%list_elem_of_lookup_1.
  apply lookup_take_Some in Hq as [Hq Hlt]. rewrite lookup_drop in Hq. eexists. split; [done|]. lia.
Qed.

Lemma elem_of_drop_lookup {A} (l : list A) k x : x ∈ drop k l <-> exists q, l !! q = Some x /\ (k <= q)%nat.
Proof.
  split.
  - intros [q Hq]%list_elem_of_lookup_1. rewrite lookup_drop in Hq. exists (k + q)%nat. split; [done|lia].
  - intros (q & Hq & Hk). apply (list_elem_of_lookup_2 _ (q - k)). rewrite lookup_drop. by replace (k + (q - k))%nat with q by lia.
Qed.

(** A real block sits at one position of a list without real repetitions. *)
Lemma nodup_real_pos l q q' (i : nat) :
  NoDup (filter (.≠ 0%nat) l) -> i <> 0%nat -> l !! q = Some i -> l !! q' = Some i -> q = q'.
Proof.
  intros Hnd H0. revert l q q' Hnd.
  assert (Hlt : forall l q q', (q < q')%nat -> NoDup (filter (.≠ 0%nat) l) -> l !! q = Some i -> l !! q' = Some i -> False).
  { intros l q q' Hq Hnd H1 H2. pose proof (occ_le_1 i _ Hnd) as Ho. rewrite occ_filter_real in Ho by done.
    rewrite <- (take_drop (S q) l), occ_app in Ho.
    assert (i ∈ take (S q) l) by (apply (list_elem_of_lookup_2 _ q); rewrite lookup_take_lt by lia; done).
    assert (i ∈ drop (S q) l) by (apply elem_of_drop_lookup; exists q'; split; [done|lia]).
    pose proof (occ_pos i _ H). pose proof (occ_pos i _ H3). lia. }
  intros l q q' Hnd H1 H2. destruct (lt_eq_lt_dec q q') as [[?|?]|?]; [|done|]; exfalso; by eapply Hlt.
Qed.

Lemma cache_ok p l m ext r num_tokens :
  pool_inv p l -> wf p m -> owned p m ext -> hashes_ok p -> attention_spec (kv_cache_spec m) ->
  cacheable p m r num_tokens -> 0 <= num_tokens ->
  exists p' m', cache_blocks r num_tokens p m = Ok (p', m') /\ step_ok p p' l m m' ext /\
    (forall rid', blocks_of rid' m' = blocks_of rid' m) /\ (forall i, ref_of p' i = ref_of p i) /\
    cached_of (request_id r) m' = Z.max (cached_of (request_id r) m) (num_tokens / block_size m) /\
    (forall k blk, cached_of (request_id r) m <= k < num_tokens / block_size m ->
       blocks_of (request_id r) m !! Z.to_nat k = Some blk -> blk <> 0%nat ->
       hash_of p' blk = Some (block_key r (block_size m / hash_block_size p) (kv_cache_group_id m) k)).
Proof.
  intros I W O Hh Ha [Con [Cs1 Cs2] Cg Cb Chs] Ht. pose proof W as [Ws Wk Wn Wc Wf]. pose proof O as [He Hr].
  unfold cache_blocks. set (rid := request_id r) in *. fold (cached_of rid m).
  set (nc := cached_of rid m). set (nf := num_tokens / block_size m) in *.
  assert (Hnf : 0 <= nf) by (apply Z.div_pos; lia).
  assert (Hsp : forall A (x y : A), match kv_cache_spec m with CrossAttentionSpec _ => x | _ => y end = y).
  { intros. by destruct (kv_cache_spec m). }
  rewrite Hsp. cbv zeta. fold nf. destruct (Z.leb_spec nf nc) as [Hle|Hlt].
  { exists p, m. split; [done|]. split; [split; first [done|by intros i]|]. split_and!; try done; lia. }
  rewrite blocks_of_default. change (block_size (default_entry rid m)) with (block_size m).
  change (kv_cache_group_id (default_entry rid m)) with (kv_cache_group_id m).
  assert (Hpos : forall i, i ∈ py_slice (blocks_of rid m) nc nf -> exists q, blocks_of rid m !! q = Some i /\ (Z.to_nat nc <= q < Z.to_nat nf)%nat).
  { intros i. apply elem_of_slice; [apply (Wc rid)|done]. }
  assert (Hfresh : forall i, i ∈ py_slice (blocks_of rid m) nc nf -> i <> 0%nat -> hash_of p i = None /\ ref_of p i = 1).
  { intros i (q & Hq & Hq2)%Hpos. apply (Wf rid), elem_of_drop_lookup. exists q. split; [done|]. unfold nc in Hq2. lia. }
  destruct (cache_full_blocks_spec p l r (blocks_of rid m) nc nf (block_size m) (kv_cache_group_id m) I)
    as (p' & E & I' & C & R & K & H).
  { split; [done|split; [apply (Wc rid)|done]|done|done| | |].
    - intros i (q & Hq & _)%Hpos. eapply Wk, list_elem_of_lookup_2, Hq.
    - intros i Hi H0. by apply Hfresh.
    - apply NoDup_occ. intros i [H0 _]%list_elem_of_filter. rewrite occ_filter_real by done.
      pose proof (occ_le_1 i _ (Wn rid)) as H1. rewrite occ_filter_real in H1 by done.
      rewrite py_slice_nonneg by (apply (Wc rid) || done).
      rewrite <- (take_drop (Z.to_nat nc) (blocks_of rid m)), occ_app in H1.
      rewrite <- (take_drop (Z.to_nat (nf - nc)) (drop (Z.to_nat nc) (blocks_of rid m))), occ_app in H1.
      pose proof (occ_nonneg i (take (Z.to_nat nc) (blocks_of rid m))).
      pose proof (occ_nonneg i (drop (Z.to_nat (nf - nc)) (drop (Z.to_nat nc) (blocks_of rid m)))). lia. }
  rewrite E. cbn [mbind result_bind]. set (m' := with_num_cached _ _). exists p', m'. split; [done|].
  assert (Hb : forall rid', blocks_of rid' m' = blocks_of rid' m) by (intros rid'; apply (blocks_of_default rid rid' m)).
  assert (Hc : forall rid', cached_of rid' m' = if decide (rid = rid') then nf else cached_of rid' m).
  { intros rid'. unfold cached_of, m'. simpl. rewrite lookup_insert. by destruct (decide (rid = rid')). }
  split; [|split; [done|split; [done|split]]].
  - split; [done| | |intros Ec i|done|done|].
    + split; [done| | | |].
      * intros rid' i. rewrite Hb. replace (num_gpu_blocks p') with (num_gpu_blocks p) by apply C. apply Wk.
      * intros rid'. rewrite Hb. apply Wn.
      * intros rid'. rewrite Hc. destruct (decide (rid = rid')); [done|apply Wc].
      * intros rid' i. rewrite Hb, Hc. intros Hi H0. rewrite R. destruct (decide (rid = rid')) as [<-|Hne].
        -- apply elem_of_drop_lookup in Hi as (q & Hq & Hnfq).
           destruct (Wf rid i) as [Hf1 Hf2]; [|done|].
           { apply elem_of_drop_lookup. exists q. split; [done|]. fold nc. lia. }
           split; [|done]. rewrite H; [done|]. right. intros (q' & Hq' & Hlt')%Hpos.
           pose proof (nodup_real_pos _ q q' i (Wn rid) H0 Hq Hq'). lia.
        -- destruct (Wf rid' i Hi H0) as [Hf1 Hf2]. split; [|done]. rewrite H; [done|]. right. intros (q' & Hq' & _)%Hpos.
           apply list_elem_of_lookup_2 in Hq'. apply elem_of_drop_sub in Hi.
           pose proof (occ_pos i _ Hq'). pose proof (occ_pos i _ Hi). pose proof (refs_two rid rid' m i Hne).
           specialize (Hr i H0). specialize (He i). lia.
    + split; [done|]. intros i H0. rewrite R. change (refs m' i) with (refs (default_entry rid m) i).
      rewrite refs_default_entry. by apply Hr.
    + exfalso. destruct C as (_ & C2 & _). congruence.
    + intros i H0 Hz Hr1 Hh1. rewrite R. split; [|done]. rewrite H; [done|]. right. intros (q & Hq & _)%Hpos.
      apply list_elem_of_lookup_2 in Hq. pose proof (refs_pos rid m i Hq). lia.
  - rewrite Hc, decide_True by done. lia.
  - done.
Qed.
