(* ===== verification/KVManager.v ===== *)
(** The coordinator of the KV-cache groups and the KV-cache manager:
    [src/vllm/v1/core/kv_cache_coordinator.py] and
    [src/vllm/v1/core/kv_cache_manager.py].

    A coordinator owns the block pool and one manager per group; its methods run
    the managers one after the other on the shared pool.  The KV-cache manager
    is the scheduler's interface: prefix-cache lookup, slot allocation and
    freeing. *)
From S2P Require Import Prelude FreeQueue Request BlockHash BlockPool SingleType.
Import BlockPool.BlockPool.
Local Open Scope Z_scope.

(** * The coordinator *)

(** The three coordinator classes with their own attributes. *)
Inductive coordinator_kind :=
| NoPrefixCache
| Unitary (spec : KVCacheSpec) (bs dcp pcp : Z)
| Hybrid (hash_bs : Z) (attention_groups : list (KVCacheSpec * list nat)) (lcm_block_size : Z).

Record coordinator := mkCoord {
  block_pool : pool;
  single_type_managers : list manager;
  use_eagle : bool;
  kind : coordinator_kind;
}.

Definition with_state (p : pool) (ms : list manager) (c : coordinator) : coordinator :=
  mkCoord p ms (use_eagle c) (kind c).

(** [for i, manager in enumerate(self.single_type_managers)], with the pool
    threaded and the results collected. *)
Fixpoint each {A} (f : Z -> pool -> manager -> result (A * pool * manager)) (i : Z) (p : pool)
    (ms : list manager) : result (list A * pool * list manager) :=
  match ms with
  | [] => Ok ([], p, [])
  | m :: ms =>
      '(a, p, m) ← f i p m;
      '(rest, p, ms) ← each f (i + 1) p ms;
      Ok (a :: rest, p, m :: ms)
  end.

Definition each_co {A} (f : Z -> pool -> manager -> result (A * pool * manager)) (c : coordinator) :
    result (list A * coordinator) :=
  '(l, p, ms) ← each f 0 (block_pool c) (single_type_managers c);
  Ok (l, with_state p ms c).

Definition is_cross (m : manager) : bool :=
  match kv_cache_spec m with CrossAttentionSpec _ => true | _ => false end.

Module KVCacheCoordinator.

(** [get_num_blocks_to_allocate]. *)
Definition get_num_blocks_to_allocate (rid : string) (num_tokens : Z) (new_computed_blocks : list (list nat))
    (num_encoder_tokens total_computed_tokens num_tokens_main_model : Z) (c : coordinator) :
    result (Z * coordinator) :=
  '(ns, c) ← each_co (fun i p m =>
      if is_cross m then
        '(n, m) ← SingleType.get_num_blocks_to_allocate rid num_encoder_tokens [] 0 num_encoder_tokens p m;
        Ok (n, p, m)
      else
        ncb ← py_index new_computed_blocks i;
        '(n, m) ← SingleType.get_num_blocks_to_allocate rid num_tokens ncb total_computed_tokens
                    num_tokens_main_model p m;
        Ok (n, p, m)) c;
  Ok (sumZ ns, c).

(** [allocate_new_computed_blocks]. *)
Definition allocate_new_computed_blocks (rid : string) (new_computed_blocks : list (list nat))
    (num_local_computed_tokens num_external_computed_tokens : Z) (c : coordinator) : result coordinator :=
  '(_, c) ← each_co (fun i p m =>
      ncb ← py_index new_computed_blocks i;
      '(p, m) ← SingleType.allocate_new_computed_blocks rid ncb num_local_computed_tokens
                  num_external_computed_tokens p m;
      Ok (tt, p, m)) c;
  Ok c.

(** [allocate_new_blocks]. *)
Definition allocate_new_blocks (rid : string) (num_tokens num_tokens_main_model num_encoder_tokens : Z)
    (c : coordinator) : result (list (list nat) * coordinator) :=
  each_co (fun _ p m =>
      SingleType.allocate_new_blocks rid (if is_cross m then num_encoder_tokens else num_tokens)
        num_tokens_main_model p m) c.

(** [cache_blocks], [free] and [remove_skipped_blocks]. *)
Definition cache_blocks (r : Request) (num_computed_tokens : Z) (c : coordinator) : result coordinator :=
  '(_, c) ← each_co (fun _ p m => '(p, m) ← SingleType.cache_blocks r num_computed_tokens p m; Ok (tt, p, m)) c;
  Ok c.
Definition free (rid : string) (c : coordinator) : result coordinator :=
  '(_, c) ← each_co (fun _ p m => '(p, m) ← SingleType.free rid p m; Ok (tt, p, m)) c; Ok c.
Definition remove_skipped_blocks (rid : string) (total_computed_tokens : Z) (c : coordinator) : result coordinator :=
  '(_, c) ← each_co (fun _ p m =>
      '(p, m) ← SingleType.remove_skipped_blocks rid total_computed_tokens p m; Ok (tt, p, m)) c;
  Ok c.

(** [get_num_common_prefix_blocks], overridden without prefix caching. *)
Definition get_num_common_prefix_blocks (rid : string) (c : coordinator) : result (list Z * coordinator) :=
  match kind c with
  | NoPrefixCache => Ok (replicate (length (single_type_managers c)) 0, c)
  | _ => each_co (fun _ p m => let '(n, m) := SingleType.get_num_common_prefix_blocks rid p m in Ok (n, p, m)) c
  end.

(** [get_blocks]. *)
Definition get_blocks (rid : string) (c : coordinator) : list (list nat) :=
  blocks_of rid <$> single_type_managers c.
End KVCacheCoordinator.

(** ** Longest cache hit *)
Module HybridKVCacheCoordinator.

(** [verify_and_split_kv_cache_groups]: the groups of equal spec. *)
Fixpoint add_group (i : nat) (spec : KVCacheSpec) (groups : list (KVCacheSpec * list nat)) :
    list (KVCacheSpec * list nat) :=
  match groups with
  | [] => [(spec, [i])]
  | (s, ids) :: groups => if decide (s = spec) then (s, ids ++ [i]) :: groups else (s, ids) :: add_group i spec groups
  end.
Definition verify_and_split_kv_cache_groups (specs : list KVCacheSpec) :
    result (list (KVCacheSpec * list nat) * Z) :=
  let groups := fold_left (fun g x => add_group (fst x) (snd x) g) (zip (seq 0 (length specs)) specs) [] in
  _ ← py_assert (1 <? py_len groups);
  (* a stable sort on [not isinstance(spec, FullAttentionSpec)] *)
  Ok (filter (fun g => is_full_spec (fst g) = true) groups ++ filter (fun g => is_full_spec (fst g) = false) groups,
      fold_right Z.lcm 1 ((fun g => spec_block_size (fst g)) <$> groups)).

(** [_get_block_hashes]. *)
Definition get_block_hashes (hash_bs : Z) (block_hashes : list bytes) (spec : KVCacheSpec) : result hash_list :=
  if spec_block_size spec =? hash_bs then Ok (HList block_hashes) else
  scale ← BlockHashListWithBlockSize.scale_factor hash_bs (spec_block_size spec);
  Ok (HScaled block_hashes scale).

(** One group of the [for] loop. *)
Definition group_step (hash_bs : Z) (block_hashes : list bytes) (eagle : bool) (lcm : Z) (p : pool)
    (s : Z * list (option (list nat))) (g : KVCacheSpec * list nat) : result (Z * list (option (list nat))) :=
  let '(curr_hit_length, by_group) := s in
  let '(spec, group_ids) := g in
  g0 ← of_option IndexError (head group_ids);
  cached_blocks ← of_option IndexError (by_group !! g0);
  match is_full_spec spec, cached_blocks with
  | true, Some _ => Ok (curr_hit_length / spec_block_size spec * spec_block_size spec, by_group)
  | _, _ =>
      hashes ← get_block_hashes hash_bs block_hashes spec;
      hit_blocks ← find_longest_cache_hit spec hashes curr_hit_length (Z.of_nat <$> group_ids) eagle lcm 1 1 p;
      first ← of_option IndexError (head hit_blocks);
      Ok (py_len first * spec_block_size spec,
          fold_left (fun b x => <[fst x := Some (snd x)]> b) (zip group_ids hit_blocks) by_group)
  end.

(** The [while True] loop; [fuel] bounds the number of rounds. *)
Fixpoint hit_loop (fuel : nat) (hash_bs : Z) (block_hashes : list bytes) (eagle : bool) (lcm : Z) (p : pool)
    (groups : list (KVCacheSpec * list nat)) (simple : bool) (hit_length : Z) (by_group : list (option (list nat))) :
    result (Z * list (option (list nat))) :=
  match fuel with
  | O => Err Diverges
  | S fuel =>
      '(curr, by_group) ← foldM (group_step hash_bs block_hashes eagle lcm p) groups (hit_length, by_group);
      if hit_length <=? curr then Ok (hit_length, by_group)
      else if simple then Ok (curr, by_group)
      else hit_loop fuel hash_bs block_hashes eagle lcm p groups simple curr by_group
  end.

(** The truncation of the full-attention groups to the final length. *)
Definition truncate_groups (num_blocks : Z) (group_ids : list nat) (by_group : list (option (list nat))) :
    list (option (list nat)) :=
  fold_left (fun (b : list (option (list nat))) g =>
    match b !! g with Some (Some blks) => <[g := Some (py_slice blks 0 num_blocks)]> b | _ => b end) group_ids by_group.

(** [find_longest_cache_hit]. *)
Definition find_longest_cache_hit (hash_bs : Z) (groups : list (KVCacheSpec * list nat)) (lcm : Z) (num_groups : nat)
    (eagle : bool) (p : pool) (block_hashes : list bytes) (max_cache_hit_length : Z) :
    result (list (list nat) * Z) :=
  let simple := (length groups =? 2)%nat && match groups with g :: _ => is_full_spec (fst g) | [] => false end in
  '(hit_length, by_group) ←
    hit_loop (S (Z.to_nat max_cache_hit_length)) hash_bs block_hashes eagle lcm p groups simple
      max_cache_hit_length (replicate num_groups None);
  '(spec, group_ids) ← of_option IndexError (head groups);
  let by_group :=
    if is_full_spec spec then
      truncate_groups (hit_length / spec_block_size spec) group_ids by_group
    else by_group in
  Ok (default [] <$> by_group, hit_length).
End HybridKVCacheCoordinator.

(** [find_longest_cache_hit] of the three classes. *)
Definition co_find_longest_cache_hit (block_hashes : list bytes) (max_cache_hit_length : Z) (c : coordinator) :
    result (list (list nat) * Z) :=
  match kind c with
  | NoPrefixCache => Ok (replicate (length (single_type_managers c)) [], 0)
  | Unitary spec bs dcp pcp =>
      hit_blocks ← find_longest_cache_hit spec (HList block_hashes) max_cache_hit_length [0] (use_eagle c) bs dcp pcp
                     (block_pool c);
      first ← of_option IndexError (head hit_blocks);
      Ok (hit_blocks, py_len first * bs)
  | Hybrid hash_bs groups lcm =>
      HybridKVCacheCoordinator.find_longest_cache_hit hash_bs groups lcm (length (single_type_managers c))
        (use_eagle c) (block_pool c) block_hashes max_cache_hit_length
  end.

(** [get_kv_cache_coordinator]: the constructors. *)
Fixpoint make_managers (specs : list KVCacheSpec) (caching : bool) (i dcp pcp : Z) (p : pool) :
    result (list manager * pool) :=
  match specs with
  | [] => Ok ([], p)
  | s :: specs =>
      '(m, p) ← get_manager_for_kv_cache_spec s caching i dcp pcp p;
      '(ms, p) ← make_managers specs caching (i + 1) dcp pcp p;
      Ok (m :: ms, p)
  end.

Definition get_kv_cache_coordinator (num_blocks : Z) (specs : list KVCacheSpec) (eagle enable_caching events use_int : bool)
    (dcp pcp hash_bs : Z) (metrics : bool) : result coordinator :=
  p ← BlockPool.init num_blocks enable_caching hash_bs events use_int metrics;
  '(ms, p) ← make_managers specs enable_caching 0 dcp pcp p;
  if negb enable_caching then Ok (mkCoord p ms eagle NoPrefixCache) else
  match specs with
  | [spec] =>
      let bs := spec_block_size spec in
      let bs := if 1 <? dcp then bs * dcp else bs in
      let bs := if 1 <? pcp then bs * pcp else bs in
      _ ← py_assert (hash_bs =? bs);
      Ok (mkCoord p ms eagle (Unitary spec bs dcp pcp))
  | _ =>
      _ ← py_assert (forallb (fun s => spec_block_size s mod hash_bs =? 0) specs);
      _ ← py_assert (dcp =? 1);
      _ ← py_assert (pcp =? 1);
      '(groups, lcm) ← HybridKVCacheCoordinator.verify_and_split_kv_cache_groups specs;
      Ok (mkCoord p ms eagle (Hybrid hash_bs groups lcm))
  end.

(** * The KV-cache manager *)

(** [KVCacheBlocks]: the shared empty object of the manager, or another one. *)
Inductive KVCacheBlocks := EmptyBlocks | Blocks (blocks : list (list nat)).

(** [PrefixCacheStats]. *)
Record PrefixCacheStats := mkStats {
  st_reset : bool;
  st_requests : Z;
  st_queries : Z;
  st_hits : Z;
  st_preempted_requests : Z;
  st_preempted_queries : Z;
  st_preempted_hits : Z;
}.
Definition new_stats : PrefixCacheStats := mkStats false 0 0 0 0 0 0.
Definition record (num_tokens num_hits : Z) (preempted : bool) (s : PrefixCacheStats) : PrefixCacheStats :=
  if preempted
  then mkStats (st_reset s) (st_requests s) (st_queries s) (st_hits s) (st_preempted_requests s + 1)
         (st_preempted_queries s + num_tokens) (st_preempted_hits s + num_hits)
  else mkStats (st_reset s) (st_requests s + 1) (st_queries s + num_tokens) (st_hits s + num_hits)
         (st_preempted_requests s) (st_preempted_queries s) (st_preempted_hits s).

Record kv_manager := mkKVM {
  max_model_len : Z;
  kv_caching : bool;
  (** [None] without [log_stats] *)
  prefix_cache_stats : option PrefixCacheStats;
  coord : coordinator;
}.
Definition with_coord (c : coordinator) (k : kv_manager) : kv_manager :=
  mkKVM (max_model_len k) (kv_caching k) (prefix_cache_stats k) c.
Definition with_stats (s : option PrefixCacheStats) (k : kv_manager) : kv_manager :=
  mkKVM (max_model_len k) (kv_caching k) s (coord k).

Definition num_kv_cache_groups (k : kv_manager) : nat := length (single_type_managers (coord k)).
Definition blocks_list (k : kv_manager) (b : KVCacheBlocks) : list (list nat) :=
  match b with EmptyBlocks => replicate (num_kv_cache_groups k) [] | Blocks bl => bl end.

Module KVCacheManager.

(** [__init__], [usage]. *)
Definition new_manager (num_blocks : Z) (specs : list KVCacheSpec) (max_len hash_bs : Z)
    (enable_caching eagle log_stats events use_int : bool) (dcp pcp : Z) (metrics : bool) : result kv_manager :=
  c ← get_kv_cache_coordinator num_blocks specs eagle enable_caching events use_int dcp pcp hash_bs metrics;
  Ok (mkKVM max_len enable_caching (if log_stats then Some new_stats else None) c).
Definition usage (k : kv_manager) : QArith_base.Q := get_usage (block_pool (coord k)).

(** [create_kv_cache_blocks]. *)
Definition create_kv_cache_blocks (blocks : list (list nat)) : KVCacheBlocks :=
  if existsb (fun l => negb (length l =? 0)%nat) blocks then Blocks blocks else EmptyBlocks.

(** [KVCacheBlocks.__add__] and [get_block_ids]. *)
Definition add_blocks (k : kv_manager) (a b : KVCacheBlocks) : KVCacheBlocks :=
  Blocks (zip_with app (blocks_list k a) (blocks_list k b)).
Definition get_block_ids (k : kv_manager) (allow_none : bool) (b : KVCacheBlocks) : option (list (list Z)) :=
  if allow_none && forallb (fun g => (length g =? 0)%nat) (blocks_list k b) then None
  else Some (map (map Z.of_nat) (blocks_list k b)).

(** [make_prefix_cache_stats]. *)
Definition make_prefix_cache_stats (k : kv_manager) : option PrefixCacheStats * kv_manager :=
  match prefix_cache_stats k with
  | None => (None, k)
  | Some s => (Some s, with_stats (Some new_stats) k)
  end.

(** [get_computed_blocks]. *)
Definition get_computed_blocks (r : Request) (k : kv_manager) : result (KVCacheBlocks * Z * kv_manager) :=
  if negb (kv_caching k) || skip_reading_prefix_cache r then Ok (EmptyBlocks, 0, k) else
  let max_cache_hit_length := num_tokens r - 1 in
  '(computed_blocks, num_new_computed_tokens) ←
    co_find_longest_cache_hit (block_hashes r) max_cache_hit_length (coord k);
  let k := with_stats (record (num_tokens r) num_new_computed_tokens (0 <? num_preemptions r)
                         <$> prefix_cache_stats k) k in
  Ok (create_kv_cache_blocks computed_blocks, num_new_computed_tokens, k).

(** [allocate_slots]: the new blocks, or [None] when they cannot be allocated. *)
Definition allocate_slots (r : Request) (num_new_tokens num_new_computed_tokens : Z)
    (new_computed_blocks : option KVCacheBlocks) (num_lookahead_tokens num_external_computed_tokens : Z)
    (delay_cache_blocks : bool) (num_encoder_tokens : Z) (k : kv_manager) :
    result (option KVCacheBlocks * kv_manager) :=
  if (num_new_tokens =? 0) && (num_external_computed_tokens =? 0) then Err ValueError else
  let ncb := match new_computed_blocks with Some b => b | None => EmptyBlocks end in
  let new_computed_block_list := blocks_list k ncb in
  let num_local_computed_tokens := num_computed_tokens r + num_new_computed_tokens in
  let total_computed_tokens := Z.min (num_local_computed_tokens + num_external_computed_tokens) (max_model_len k) in
  let num_tokens_main_model := total_computed_tokens + num_new_tokens in
  let num_tokens_need_slot := Z.min (num_tokens_main_model + num_lookahead_tokens) (max_model_len k) in
  c ← KVCacheCoordinator.remove_skipped_blocks (request_id r) total_computed_tokens (coord k);
  '(num_blocks_to_allocate, c) ←
    KVCacheCoordinator.get_num_blocks_to_allocate (request_id r) num_tokens_need_slot new_computed_block_list
      num_encoder_tokens (num_local_computed_tokens + num_external_computed_tokens) num_tokens_main_model c;
  if get_num_free_blocks (block_pool c) <? num_blocks_to_allocate then Ok (None, with_coord c k) else
  c ← (if (match ncb with EmptyBlocks => false | Blocks _ => true end) || (0 <? num_external_computed_tokens)
       then KVCacheCoordinator.allocate_new_computed_blocks (request_id r) new_computed_block_list
              num_local_computed_tokens num_external_computed_tokens c
       else Ok c);
  '(new_blocks, c) ←
    KVCacheCoordinator.allocate_new_blocks (request_id r) num_tokens_need_slot num_tokens_main_model
      num_encoder_tokens c;
  if negb (kv_caching k) || delay_cache_blocks then Ok (Some (create_kv_cache_blocks new_blocks), with_coord c k) else
  let num_tokens_to_cache := Z.min (total_computed_tokens + num_new_tokens) (num_tokens r) in
  c ← KVCacheCoordinator.cache_blocks r num_tokens_to_cache c;
  Ok (Some (create_kv_cache_blocks new_blocks), with_coord c k).

(** [free], [remove_skipped_blocks], [evict_blocks], [cache_blocks]. *)
Definition free (r : Request) (k : kv_manager) : result kv_manager :=
  c ← KVCacheCoordinator.free (request_id r) (coord k); Ok (with_coord c k).
Definition remove_skipped_blocks (rid : string) (total_computed_tokens : Z) (k : kv_manager) : result kv_manager :=
  c ← KVCacheCoordinator.remove_skipped_blocks rid total_computed_tokens (coord k); Ok (with_coord c k).
Definition evict_blocks (block_ids : list Z) (k : kv_manager) : result kv_manager :=
  p ← BlockPool.evict_blocks block_ids (block_pool (coord k));
  Ok (with_coord (with_state p (single_type_managers (coord k)) (coord k)) k).
Definition cache_blocks (r : Request) (num_computed_tokens : Z) (k : kv_manager) : result kv_manager :=
  if kv_caching k then
    c ← KVCacheCoordinator.cache_blocks r num_computed_tokens (coord k); Ok (with_coord c k)
  else Ok k.

(** [reset_prefix_cache]. *)
Definition reset_prefix_cache (k : kv_manager) : bool * kv_manager :=
  let '(ok, p) := BlockPool.reset_prefix_cache (block_pool (coord k)) in
  let k := with_coord (with_state p (single_type_managers (coord k)) (coord k)) k in
  if negb ok then (false, k) else
  (true, with_stats ((fun s => mkStats true (st_requests s) (st_queries s) (st_hits s) (st_preempted_requests s)
                       (st_preempted_queries s) (st_preempted_hits s)) <$> prefix_cache_stats k) k).

(** [get_blocks] and [get_num_common_prefix_blocks]. *)
Definition get_blocks (rid : string) (k : kv_manager) : KVCacheBlocks :=
  create_kv_cache_blocks (KVCacheCoordinator.get_blocks rid (coord k)).
Definition get_num_common_prefix_blocks (rid : string) (k : kv_manager) : result (list Z * kv_manager) :=
  '(l, c) ← KVCacheCoordinator.get_num_common_prefix_blocks rid (coord k); Ok (l, with_coord c k).
End KVCacheManager.
