(* ===== verification/KVManagerFacts.v ===== *)
(** Correctness of the KV-cache manager of [KVManager].

    [kv_inv] is the ownership invariant of the whole cache: the reference count
    of a real block is the number of its entries in the block lists of all
    requests in all groups, and the free queue holds exactly the blocks without
    an entry.  The theorems say that allocation, freeing and the removal of
    skipped blocks keep it, that the capacity check of [allocate_slots] is exact,
    and what a request holds afterwards. *)
From S2P Require Import Prelude FreeQueue Request BlockHash BlockPool SingleType SingleTypeFacts KVManager.
Import BlockPool.BlockPool PoolFacts.
Local Open Scope Z_scope.

(** * The invariant *)
Definition all_refs (ms : list manager) (i : nat) : Z := sumZ ((fun m => refs m i) <$> ms).

Record kv_inv (p : pool) (l : list nat) (ms : list manager) : Prop := {
  ki_pool : pool_inv p l;
  ki_hashes : hashes_ok p;
  ki_refs : forall i, i <> 0%nat -> ref_of p i = all_refs ms i;
  ki_wf : Forall (wf p) ms;
}.

Lemma all_refs_app ms1 ms2 i : all_refs (ms1 ++ ms2) i = all_refs ms1 i + all_refs ms2 i.
Proof. unfold all_refs. by rewrite fmap_app, sumZ_app. Qed.

Lemma all_refs_nonneg ms i : 0 <= all_refs ms i.
Proof. apply sumZ_nonneg, Forall_forall. intros x (m & -> & _)%list_elem_of_fmap. apply refs_nonneg. Qed.

(** The references of the other managers. *)
Definition others (pre post : list manager) (i : nat) : Z := all_refs pre i + all_refs post i.

Lemma kv_owned p l pre m post : kv_inv p l (pre ++ m :: post) -> owned p m (others pre post).
Proof.
  intros [_ _ Hr _]. split.
  - intros i. pose proof (all_refs_nonneg pre i). pose proof (all_refs_nonneg post i). unfold others. lia.
  - intros i H0. rewrite Hr by done. rewrite all_refs_app. unfold others, all_refs. rewrite fmap_cons, sumZ_cons. lia.
Qed.

Lemma kv_mgr_wf p l pre m post : kv_inv p l (pre ++ m :: post) -> wf p m.
Proof. intros [_ _ _ Hw]. rewrite Forall_app, Forall_cons in Hw. tauto. Qed.

(** A step of one manager keeps the invariant of all. *)
Lemma kv_step p p' l l' pre m m' post :
  kv_inv p l (pre ++ m :: post) -> step_ok p p' l' m m' (others pre post) -> kv_inv p' l' (pre ++ m' :: post).
Proof.
  intros K S. pose proof (kv_owned _ _ _ _ _ K) as [He Hown]. pose proof K as [I Hh Hr Hw].
  destruct S as [I' W' [_ O'] Hh' C M F]. rewrite Forall_app, Forall_cons in Hw. destruct Hw as (Hw1 & Hwm & Hw2).
  assert (Hframe : forall m2, wf p m2 -> (forall i, refs m2 i <= others pre post i) -> wf p' m2).
  { intros m2 [Ws Wk Wn Wc Wf] Hle. split; [done| |done|done|].
    - replace (num_gpu_blocks p') with (num_gpu_blocks p) by apply C. done.
    - intros rid i Hi H0. destruct (Wf rid i Hi H0) as [Hf1 Hf2]. apply F; [done| |done|done].
      specialize (Hown i H0). specialize (Hle i). pose proof (refs_pos rid m2 i (elem_of_drop_sub _ _ _ Hi)).
      pose proof (refs_nonneg m i). lia. }
  assert (Hin : forall ms m2 i, m2 ∈ ms -> refs m2 i <= all_refs ms i).
  { intros ms m2 i (l1 & l2 & ->)%list_elem_of_split. rewrite all_refs_app. pose proof (all_refs_nonneg l1 i).
    unfold all_refs at 2. rewrite fmap_cons, sumZ_cons. pose proof (all_refs_nonneg l2 i). unfold all_refs in *. lia. }
  split; [done|done| |].
  - intros i H0. rewrite O' by done. rewrite all_refs_app. unfold others, all_refs. rewrite fmap_cons, sumZ_cons. lia.
  - rewrite Forall_app, Forall_cons. split_and!; [|done|]; rewrite Forall_forall in *; intros m2 Hm2; apply Hframe;
      [by apply Hw1| |by apply Hw2|]; intros i; unfold others; pose proof (all_refs_nonneg pre i);
      pose proof (all_refs_nonneg post i); [specialize (Hin pre m2 i Hm2)|specialize (Hin post m2 i Hm2)]; lia.
Qed.

(** * Loops over the managers *)

(** The managers before and after a loop, with what each step returned. *)
Inductive each_rel {A} (R : Z -> manager -> A -> manager -> Prop) : Z -> list manager -> list A -> list manager -> Prop :=
| each_nil i : each_rel R i [] [] []
| each_cons i m a m' ms as_ ms' :
    R i m a m' -> each_rel R (i + 1) ms as_ ms' -> each_rel R i (m :: ms) (a :: as_) (m' :: ms').

Lemma each_rel_trans {A B} (R1 : Z -> manager -> A -> manager -> Prop) (R2 : Z -> manager -> B -> manager -> Prop)
    i ms as_ ms1 bs ms2 :
  each_rel R1 i ms as_ ms1 -> each_rel R2 i ms1 bs ms2 ->
  each_rel (fun i m b m2 => exists a m1, R1 i m a m1 /\ R2 i m1 b m2) i ms bs ms2.
Proof.
  intros H. revert bs ms2. induction H as [|i m a m' ms as_ ms' HR H IH]; intros bs ms2 H2; inversion H2; subst; constructor;
    [eauto|by apply IH].
Qed.

Lemma each_rel_join {A B} (R1 : Z -> manager -> A -> manager -> Prop) (R2 : Z -> manager -> B -> manager -> Prop)
    i ms as_ ms1 bs ms2 :
  each_rel R1 i ms as_ ms1 -> each_rel R2 i ms1 bs ms2 ->
  each_rel (fun i m a m2 => exists m1, R1 i m a m1 /\ exists b, R2 i m1 b m2) i ms as_ ms2.
Proof.
  intros H. revert bs ms2. induction H as [|i m a m' ms as_ ms' HR H IH]; intros bs ms2 H2; inversion H2; subst; constructor;
    [eauto|by eapply IH].
Qed.

(** Sums and conditions over the managers from index [i] on. *)
Fixpoint costs (cost : Z -> manager -> Z) (i : Z) (ms : list manager) : Z :=
  match ms with [] => 0 | m :: ms => cost i m + costs cost (i + 1) ms end.
Fixpoint all_C (C : Z -> manager -> Prop) (i : Z) (ms : list manager) : Prop :=
  match ms with [] => True | m :: ms => C i m /\ all_C C (i + 1) ms end.

Lemma all_C_intro (C : Z -> manager -> Prop) i ms :
  (forall j m, ms !! j = Some m -> C (i + Z.of_nat j) m) -> all_C C i ms.
Proof.
  revert i. induction ms as [|m ms IH]; intros i H; simpl; [done|]. split.
  - specialize (H 0%nat m eq_refl). by rewrite Z.add_0_r in H.
  - apply IH. intros j m' Hj. replace (i + 1 + Z.of_nat j) with (i + Z.of_nat (S j)) by lia. by apply H.
Qed.

Lemma all_C_elim (C : Z -> manager -> Prop) i ms j m : all_C C i ms -> ms !! j = Some m -> C (i + Z.of_nat j) m.
Proof.
  revert i j. induction ms as [|m' ms IH]; intros i j H Hj; [done|]. destruct H as [H1 H2]. destruct j as [|j].
  - simplify_eq/=. by rewrite Z.add_0_r.
  - replace (i + Z.of_nat (S j)) with (i + 1 + Z.of_nat j) by lia. by apply IH.
Qed.

Lemma all_C_rel {A} (R : Z -> manager -> A -> manager -> Prop) (C C' : Z -> manager -> Prop) i ms as_ ms' :
  each_rel R i ms as_ ms' -> (forall j m a m', C j m -> R j m a m' -> C' j m') -> all_C C i ms -> all_C C' i ms'.
Proof. intros H HC. induction H; simpl; [done|]. intros [? ?]. split; eauto. Qed.

Lemma all_C_impl (C C' : Z -> manager -> Prop) i ms : (forall j m, C j m -> C' j m) -> all_C C i ms -> all_C C' i ms.
Proof. intros HC. revert i. induction ms; simpl; naive_solver. Qed.

Lemma all_C_and (C C' : Z -> manager -> Prop) i ms : all_C C i ms -> all_C C' i ms -> all_C (fun j m => C j m /\ C' j m) i ms.
Proof. revert i. induction ms; simpl; naive_solver. Qed.

Lemma all_C_Forall (C : manager -> Prop) i ms : Forall C ms -> all_C (fun _ => C) i ms.
Proof. intros H. revert i. induction H; simpl; naive_solver. Qed.

Lemma each_rel_C {A} (R : Z -> manager -> A -> manager -> Prop) (C : Z -> manager -> Prop) i ms as_ ms' :
  each_rel R i ms as_ ms' -> all_C C i ms -> each_rel (fun i m a m' => C i m /\ R i m a m') i ms as_ ms'.
Proof. induction 1; intros HC; constructor; destruct HC; auto. Qed.

Lemma each_rel_mono {A} (R R' : Z -> manager -> A -> manager -> Prop) i ms as_ ms' :
  (forall i m a m', R i m a m' -> R' i m a m') -> each_rel R i ms as_ ms' -> each_rel R' i ms as_ ms'.
Proof. intros Himp. induction 1; constructor; auto. Qed.

Lemma each_rel_refl {A} (R : Z -> manager -> A -> manager -> Prop) (a : A) i ms :
  (forall i m, R i m a m) -> exists as_, each_rel R i ms as_ ms.
Proof.
  intros HR. revert i. induction ms as [|m ms IH]; intros i; [exists []; constructor|].
  destruct (IH (i + 1)) as [as_ H]. exists (a :: as_). by constructor.
Qed.

Lemma costs_ext (C : Z -> manager -> Prop) (c1 c2 : Z -> manager -> Z) i ms :
  all_C C i ms -> (forall j m, C j m -> c1 j m = c2 j m) -> costs c1 i ms = costs c2 i ms.
Proof. intros HC Hc. revert i HC. induction ms as [|m ms IH]; intros i; simpl; [done|]. intros [? ?]. rewrite Hc, IH by done. done. Qed.

Lemma costs_le (C : Z -> manager -> Prop) (c1 c2 : Z -> manager -> Z) i ms :
  all_C C i ms -> (forall j m, C j m -> c1 j m <= c2 j m) -> costs c1 i ms <= costs c2 i ms.
Proof.
  intros HC Hc. revert i HC. induction ms as [|m ms IH]; intros i; simpl; [done|]. intros [H1 H2].
  specialize (Hc i m H1). specialize (IH (i + 1) H2). lia.
Qed.

Lemma costs_rel {A} (R : Z -> manager -> A -> manager -> Prop) (C : Z -> manager -> Prop) (c1 c2 c3 : Z -> manager -> Z) i ms as_ ms' :
  each_rel R i ms as_ ms' -> all_C C i ms -> (forall j m a m', C j m -> R j m a m' -> c1 j m = c2 j m + c3 j m') ->
  costs c1 i ms = costs c2 i ms + costs c3 i ms'.
Proof.
  intros H HC Hc. revert HC. induction H as [|j m a m' ms as_ ms' HR H IH]; simpl; [done|]. intros [H1 H2].
  rewrite (Hc _ _ _ _ H1 HR), IH by done. lia.
Qed.

Lemma costs_nonneg cost i ms : (forall i m, 0 <= cost i m) -> 0 <= costs cost i ms.
Proof. intros Hc. revert i; induction ms as [|m ms IH]; intros i; simpl; [lia|]. specialize (Hc i m). specialize (IH (i + 1)). lia. Qed.

Lemma costs_zero i ms : costs (fun _ _ => 0) i ms = 0.
Proof. revert i; induction ms as [|m ms IH]; intros i; simpl; [done|]. by rewrite IH. Qed.

Section Loops.
Context {A : Type}.
Variable f : Z -> pool -> manager -> result (A * pool * manager).
(** What the loop body needs of manager [i], the free blocks it takes, what it
    does, and what it does to the pool. *)
Variable C : pool -> Z -> manager -> Prop.
Variable cost : pool -> Z -> manager -> Z.
Variable R : Z -> manager -> A -> manager -> Prop.
Variable P : pool -> pool -> Prop.
Context `{PreOrder pool P}.

(** One step, in any context; [C] and [cost] of the later managers survive. *)
Hypothesis body : forall i p l m ext,
  pool_inv p l -> wf p m -> owned p m ext -> hashes_ok p -> C p i m -> cost p i m <= Z.of_nat (length l) ->
  exists a p' m' l', f i p m = Ok (a, p', m') /\ step_ok p p' l' m m' ext /\
    Z.of_nat (length l) - cost p i m <= Z.of_nat (length l') /\ R i m a m' /\ P p p' /\
    (forall j m2, i < j -> C p j m2 -> C p' j m2 /\ cost p' j m2 = cost p j m2).

Hypothesis cost_nonneg : forall p i m, 0 <= cost p i m.

Lemma each_ok ms : forall pre i p l,
  kv_inv p l (pre ++ ms) -> all_C (C p) i ms -> costs (cost p) i ms <= Z.of_nat (length l) ->
  exists as_ p' ms' l', each f i p ms = Ok (as_, p', ms') /\ kv_inv p' l' (pre ++ ms') /\
    Z.of_nat (length l) - costs (cost p) i ms <= Z.of_nat (length l') /\ each_rel R i ms as_ ms' /\
    same_config p p' /\ P p p'.
Proof.
  induction ms as [|m ms IH]; intros pre i p l K HC Hc; simpl in *.
  { exists [], p, [], l. split; [done|]. split; [done|]. split; [lia|]. split; [constructor|]. split; [done|]. reflexivity. }
  destruct HC as [HCm HC]. pose proof (costs_nonneg (cost p) (i + 1) ms (cost_nonneg p)).
  destruct (body i p l m (others pre ms)) as (a & p1 & m1 & l1 & E & S & Hl & HR & HP & Hst);
    [apply K|by eapply kv_mgr_wf|by eapply kv_owned|apply K|done|lia|].
  pose proof (kv_step _ _ _ _ _ _ _ _ K S) as K1.
  assert (Hrest : forall j ms2, i < j -> all_C (C p) j ms2 -> all_C (C p1) j ms2 /\ costs (cost p1) j ms2 = costs (cost p) j ms2).
  { intros j ms2. revert j. induction ms2 as [|m2 ms2 IH2]; intros j Hj; [done|]. simpl. intros [HC2 HCs].
    destruct (Hst j m2 Hj HC2) as [? ->]. destruct (IH2 (j + 1) ltac:(lia) HCs) as [? ->]. done. }
  destruct (Hrest (i + 1) ms ltac:(lia) HC) as [HC1 Hcost1].
  replace (pre ++ m1 :: ms) with ((pre ++ [m1]) ++ ms) in K1 by by rewrite <- app_assoc.
  destruct (IH (pre ++ [m1]) (i + 1) p1 l1 K1 HC1) as (as_ & p2 & ms2 & l2 & E2 & K2 & Hl2 & HR2 & C2 & HP2); [lia|].
  exists (a :: as_), p2, (m1 :: ms2), l2. rewrite E. cbn [mbind result_bind]. rewrite E2. cbn [mbind result_bind].
  rewrite <- app_assoc in K2. split; [done|]. split; [done|]. split; [lia|]. split; [by constructor|].
  pose proof (so_config _ _ _ _ _ _ S). split; by etrans.
Qed.
End Loops.

(** The same for all managers of a coordinator. *)
Lemma each_all {A} f C cost R P `{PreOrder pool P} ms p l :
  (forall i p l m ext,
    pool_inv p l -> wf p m -> owned p m ext -> hashes_ok p -> C p i m -> cost p i m <= Z.of_nat (length l) ->
    exists (a : A) p' m' l', f i p m = Ok (a, p', m') /\ step_ok p p' l' m m' ext /\
      Z.of_nat (length l) - cost p i m <= Z.of_nat (length l') /\ R i m a m' /\ P p p' /\
      (forall j m2, i < j -> C p j m2 -> C p' j m2 /\ cost p' j m2 = cost p j m2)) ->
  (forall p i m, 0 <= cost p i m) ->
  kv_inv p l ms -> all_C (C p) 0 ms -> costs (cost p) 0 ms <= Z.of_nat (length l) ->
  exists as_ p' ms' l', each f 0 p ms = Ok (as_, p', ms') /\ kv_inv p' l' ms' /\
    Z.of_nat (length l) - costs (cost p) 0 ms <= Z.of_nat (length l') /\ each_rel R 0 ms as_ ms' /\
    same_config p p' /\ P p p'.
Proof. intros body Hn K HC Hc. by apply (each_ok f C cost R P body Hn ms []). Qed.

(** * The stages of an allocation *)
Definition same_hashes (p p' : pool) : Prop := forall i, hash_of p' i = hash_of p i.
#[export] Instance same_hashes_preorder : PreOrder same_hashes.
Proof. split; unfold same_hashes; repeat intro; naive_solver congruence. Qed.
Definition any_pool (p p' : pool) : Prop := True.
#[export] Instance any_pool_preorder : PreOrder any_pool.
Proof. by split. Qed.

Definition attention (m : manager) : Prop := attention_spec (kv_cache_spec m).

(** The other requests keep their lists and their cached counts. *)
Definition others_kept (rid : string) (m m' : manager) : Prop :=
  forall rid', rid' <> rid -> blocks_of rid' m' = blocks_of rid' m /\ num_cached_block m' !! rid' = num_cached_block m !! rid'.

Lemma others_kept_trans rid m1 m2 m3 : others_kept rid m1 m2 -> others_kept rid m2 m3 -> others_kept rid m1 m3.
Proof. intros H1 H2 rid' Hr. destruct (H1 rid' Hr), (H2 rid' Hr). split; congruence. Qed.

(** Removal of skipped blocks: the list keeps its length, and its entries from
    the first token inside the window on. *)
Record removed (rid : string) (t : Z) (m m' : manager) : Prop := {
  re_mgr : same_mgr m m';
  re_len : length (blocks_of rid m') = length (blocks_of rid m);
  re_kept : forall q, Z.max 0 (get_num_skipped_tokens (kv_cache_spec m) t) <= Z.of_nat q * block_size m ->
    blocks_of rid m' !! q = blocks_of rid m !! q;
  re_null : forall q b, blocks_of rid m' !! q = Some b -> b = 0%nat \/ blocks_of rid m !! q = Some b;
  re_cached : num_cached_block m' = num_cached_block m;
  re_other : others_kept rid m m';
}.

Lemma removed_intro p m p' rid t n l ext m' :
  wf p m -> step_ok p p' l m m' ext ->
  Z.of_nat n * block_size m <= Z.max 0 (get_num_skipped_tokens (kv_cache_spec m) t) ->
  length (blocks_of rid m') = length (blocks_of rid m) -> drop n (blocks_of rid m') = drop n (blocks_of rid m) ->
  (forall q b, blocks_of rid m' !! q = Some b -> b = 0%nat \/ blocks_of rid m !! q = Some b) ->
  (forall rid', rid' <> rid -> blocks_of rid' m' = blocks_of rid' m) -> num_cached_block m' = num_cached_block m -> removed rid t m m'.
Proof.
  intros W S Hn Hlen Hd Hb Ho Hc. split; try done; [apply (so_mgr _ _ _ _ _ _ S)| |by intros rid' Hr; rewrite Ho, Hc].
  intros q Hq. pose proof (wf_size _ _ W). assert (n <= q)%nat by nia.
  replace q with (n + (q - n))%nat by lia. rewrite <- !lookup_drop. by rewrite Hd.
Qed.

Lemma remove_stage rid t p l ms :
  kv_inv p l ms -> all_C (fun _ => attention) 0 ms ->
  exists us p' ms' l',
    each (fun _ p m => '(p, m) ← SingleType.remove_skipped_blocks rid t p m; Ok (tt, p, m)) 0 p ms = Ok (us, p', ms') /\
    kv_inv p' l' ms' /\ Z.of_nat (length l) <= Z.of_nat (length l') /\
    each_rel (fun _ m _ m' => removed rid t m m') 0 ms us ms' /\ same_config p p' /\ same_hashes p p'.
Proof.
  intros K HC.
  destruct (each_all (fun _ p m => '(p, m) ← SingleType.remove_skipped_blocks rid t p m; Ok (tt, p, m))
    (fun _ _ => attention) (fun _ _ _ => 0) (fun _ m _ m' => removed rid t m m') same_hashes ms p l)
    as (us & p' & ms' & l' & E & K' & Hl & HR & C' & H'); try done; [|rewrite costs_zero; lia|].
  - intros i q lq m ext I W O Hh Ha _.
    destruct (remove_ok q lq m ext rid t I W O Hh Ha) as (q' & m' & n & freed & Er & S & Hn & Hlen & Hd & Hb & Ho & Hc & Hhash).
    exists tt, q', m', (lq ++ freed). rewrite Er. split; [done|]. split; [done|]. split; [rewrite length_app; lia|].
    split; [by eapply removed_intro|]. split; [done|]. done.
  - rewrite costs_zero in Hl. exists us, p', ms', l'. split; [done|]. split; [done|]. split; [lia|]. done.
Qed.

(** The blocks a group needs: the missing ones, and the hits that are free now. *)
Definition group_need (rid : string) (need total : Z) (ncb : list nat) (p : pool) (m : manager) : Z :=
  Z.max (cdiv need (block_size m) - Z.max (Z.of_nat (skip_blocks m total)) (py_len ncb + py_len (blocks_of rid m))) 0
  + get_num_evictable_blocks p (drop (skip_blocks m total - length (blocks_of rid m)) ncb).

(** A request starts in a group with these hits, or goes on without any. *)
Definition starts (rid : string) (m : manager) : Prop := num_cached_block m !! rid = None /\ blocks_of rid m = [].
Definition goes_on (rid : string) (total : Z) (m : manager) : Prop :=
  total <= py_len (blocks_of rid m) * block_size m.

Lemma skip_blocks_le p m total : wf p m -> attention m -> 0 <= total ->
  Z.of_nat (skip_blocks m total) * block_size m <= get_num_skipped_tokens (kv_cache_spec m) total <= total.
Proof.
  intros W Ha Ht. pose proof (wf_size _ _ W). pose proof (skipped_nonneg _ total Ha Ht).
  pose proof (skipped_le _ total Ha Ht). pose proof (Z.mul_div_le (get_num_skipped_tokens (kv_cache_spec m) total) (block_size m)).
  unfold skip_blocks. rewrite Z2Nat.id by (apply Z.div_pos; lia). lia.
Qed.

Lemma need_ok rid need total main ncb p m :
  wf p m -> attention m -> 0 <= total -> starts rid m \/ ncb = [] /\ goes_on rid total m ->
  SingleType.get_num_blocks_to_allocate rid need ncb total main p m = Ok (group_need rid need total ncb p m, m).
Proof.
  intros W Ha Ht Hreq. pose proof (wf_size _ _ W) as Hbs. pose proof (skip_blocks_le p m total W Ha Ht) as Hsb.
  assert (Hb : base_num_blocks_to_allocate rid need ncb total p m = Ok (group_need rid need total ncb p m)).
  { unfold base_num_blocks_to_allocate, group_need. cbv zeta.
    assert (Hd : 0 <= get_num_skipped_tokens (kv_cache_spec m) total / block_size m)
      by (apply Z.div_pos; [by apply skipped_nonneg|done]).
    replace (Z.of_nat (skip_blocks m total)) with (get_num_skipped_tokens (kv_cache_spec m) total / block_size m)
      by (unfold skip_blocks; lia).
    destruct Hreq as [[Hn Hnil]|[-> Hg]].
    - rewrite Hn, Hnil. f_equal. f_equal. f_equal.
      rewrite py_slice_nonneg by (unfold py_len; lia). rewrite take_ge by (rewrite length_drop; unfold py_len; lia).
      f_equal. unfold skip_blocks, py_len. simpl length. lia.
    - unfold goes_on in Hg. assert (Hle : Z.of_nat (skip_blocks m total) <= py_len (blocks_of rid m)) by nia.
      unfold skip_blocks in Hle. destruct (num_cached_block m !! rid).
      + rewrite drop_nil. unfold get_num_evictable_blocks. rewrite filter_nil. change (py_len (@nil nat)) with 0.
        change (0 =? 0) with true. cbn [py_assert mbind result_bind]. f_equal. lia.
      + rewrite drop_nil. unfold py_slice. by rewrite drop_nil, take_nil. }
  unfold get_num_blocks_to_allocate, attention in *. rewrite Hb. by destruct (kv_cache_spec m).
Qed.

(** The hits of group [i]. *)
Definition hits_at (ncbs : list (list nat)) (i : Z) : list nat := default [] (ncbs !! Z.to_nat i).

Lemma index_hits ncbs i : 0 <= i < py_len ncbs -> py_index ncbs i = Ok (hits_at ncbs i).
Proof.
  intros Hi. unfold py_index, hits_at. destruct (Z.ltb_spec i 0); [lia|]. destruct (Z.ltb_spec i 0); [lia|].
  destruct (lookup_lt_is_Some_2 ncbs (Z.to_nat i)) as [x ->]; [unfold py_len in *; lia|done].
Qed.

Lemma attention_not_cross m : attention m -> is_cross m = false.
Proof. unfold attention, is_cross. by destruct (kv_cache_spec m). Qed.

Lemma need_stage rid need total main enc ncbs p ms : forall i,
  Forall (wf p) ms -> 0 <= total ->
  all_C (fun i m => 0 <= i < py_len ncbs /\ attention m /\ (starts rid m \/ hits_at ncbs i = [] /\ goes_on rid total m)) i ms ->
  exists ns,
    each (fun i p m =>
      if is_cross m then
        '(n, m) ← SingleType.get_num_blocks_to_allocate rid enc [] 0 enc p m; Ok (n, p, m)
      else
        ncb ← py_index ncbs i;
        '(n, m) ← SingleType.get_num_blocks_to_allocate rid need ncb total main p m;
        Ok (n, p, m)) i p ms = Ok (ns, p, ms) /\
    sumZ ns = costs (fun i m => group_need rid need total (hits_at ncbs i) p m) i ms.
Proof.
  induction ms as [|m ms IH]; intros i Hw Ht; simpl; [by exists []|]. intros [(Hi & Ha & Hr) HC].
  apply Forall_cons in Hw as [Wm Hw]. destruct (IH (i + 1) Hw Ht HC) as (ns & E & Hs).
  rewrite attention_not_cross, index_hits by done. cbn [mbind result_bind]. rewrite need_ok by done. cbn [mbind result_bind].
  rewrite E. cbn [mbind result_bind]. eexists. split; [done|]. rewrite sumZ_cons. by rewrite Hs.
Qed.

(** ** The hits of a new request *)
Section Computed.
Context (rid : string) (ncbs : list (list nat)) (nl ne : Z).
Let total := nl + ne.

(** Hits of different groups are different blocks: their hashes name the group. *)
Definition disjoint_hits : Prop :=
  forall i j x, 0 <= i < j -> x ∈ hits_at ncbs i -> x ∈ hits_at ncbs j -> x = 0%nat.

(** Blocks for external tokens are taken in the same loop, so with them the
    hits of later groups are only safe when there is no later group. *)
Definition starts_at (p : pool) (i : Z) (m : manager) : Prop :=
  0 <= i < py_len ncbs /\ (ne = 0 \/ py_len ncbs = 1) /\ attention m /\ starts rid m /\
  hits_ok p (hits_at ncbs i) /\ py_len (hits_at ncbs i) * block_size m <= total /\
  (caching m = false -> hits_at ncbs i = []).

Definition computed_cost (p : pool) (i : Z) (m : manager) : Z :=
  get_num_evictable_blocks p (drop (skip_blocks m total) (hits_at ncbs i)) + Z.of_nat (ext_blocks m (hits_at ncbs i) total ne).

(** The group after the hits: nulls, hits and blocks for external tokens. *)
Record computed (i : Z) (m m' : manager) : Prop := {
  co_mgr : same_mgr m m';
  co_blocks : exists new, blocks_of rid m' = hit_blocks (skip_blocks m total) (hits_at ncbs i) ++ new /\
    length new = ext_blocks m (hits_at ncbs i) total ne;
  co_cached : num_cached_block m' = <[rid := py_len (hit_blocks (skip_blocks m total) (hits_at ncbs i))]> (num_cached_block m);
  co_other : others_kept rid m m';
}.

Lemma computed_body i p l m ext :
  disjoint_hits -> 0 <= nl -> 0 <= ne ->
  pool_inv p l -> wf p m -> owned p m ext -> hashes_ok p -> starts_at p i m ->
  computed_cost p i m <= Z.of_nat (length l) ->
  exists a p' m' l',
    (ncb ← py_index ncbs i; '(p, m) ← SingleType.allocate_new_computed_blocks rid ncb nl ne p m; Ok (tt, p, m)) = Ok (a, p', m') /\
    step_ok p p' l' m m' ext /\ Z.of_nat (length l) - computed_cost p i m <= Z.of_nat (length l') /\ computed i m m' /\
    any_pool p p' /\
    (forall j m2, i < j -> starts_at p j m2 -> starts_at p' j m2 /\ computed_cost p' j m2 = computed_cost p j m2).
Proof.
  intros Hdis Hnl Hne I W O Hh (Hi & Hone & Ha & [Hnc Hnil] & Hhit & Hlen & Hcache) Hc.
  unfold computed_cost in *. set (ncb := hits_at ncbs i) in *. set (sb := skip_blocks m total) in *.
  pose proof (evictable_count p l (drop sb ncb) I (hits_drop p ncb sb Hhit)) as Hev.
  destruct (computed_ok p l m ext rid ncb nl ne) as (p' & m' & E & S & Hcd & Hb & Hhl & Hz); try done.
  { fold total. fold sb. fold total in Hev. lia. }
  fold total in E, S, Hcd, Hb, Hhl, Hz. fold sb in E, S, Hcd, Hb, Hhl, Hz.
  eexists tt, p', m', _. rewrite index_hits by done. cbn [mbind result_bind]. fold ncb. rewrite E. cbn [mbind result_bind].
  split; [done|]. split; [exact S|]. split.
  { rewrite length_drop. lia. }
  split; [|split; [done|]].
  - split; [apply (so_mgr _ _ _ _ _ _ S)| |done|].
    + eexists. rewrite Hb, decide_True by done. split; [done|]. rewrite length_take. fold ncb. lia.
    + intros rid' Hr. rewrite Hb, decide_False by done. split; [done|]. rewrite Hcd. by rewrite lookup_insert_ne.
  - intros j m2 Hj (Hj2 & _ & Ha2 & Hs2 & Hhit2 & Hlen2 & Hcache2).
    destruct Hone as [Hz0|Hone]; [|lia]. destruct (Hz Hz0) as [_ Hpool]. clear Hz.
    pose proof (so_config _ _ _ _ _ _ S) as C. destruct C as (Cn & _).
    assert (Hhit2' : hits_ok p' (hits_at ncbs j)).
    { destruct Hhit2 as [H1 H2 H3]. split; [|intros x Hx H0; destruct (Hpool x) as [-> _]; by apply H2|done].
      rewrite <- Cn. done. }
    split; [exact (conj Hj2 (conj (or_introl Hz0) (conj Ha2 (conj Hs2 (conj Hhit2' (conj Hlen2 Hcache2))))))|]. f_equal. unfold get_num_evictable_blocks. f_equal.
    apply filter_ext_in. intros x Hx%elem_of_drop_sub. pose proof (ho_known _ _ Hhit2 x Hx) as Hk.
    rewrite (is_releasable_spec p l x (proj1 I) Hk).
    rewrite (is_releasable_spec p' _ x (proj1 (so_inv _ _ _ _ _ _ S))) by (rewrite <- Cn; done).
    unfold real_block. rewrite <- Cn. destruct (Hpool x) as [_ ->].
    destruct (decide (x = 0%nat)) as [->|H0]; [tauto|]. rewrite occ_notin; [by rewrite Z.add_0_r|].
    intros Hin%elem_of_drop_sub. apply H0, (Hdis i j); [lia|done|done].
Qed.

Lemma computed_stage p l ms :
  disjoint_hits -> 0 <= nl -> 0 <= ne -> kv_inv p l ms -> all_C (starts_at p) 0 ms ->
  costs (computed_cost p) 0 ms <= Z.of_nat (length l) ->
  exists us p' ms' l',
    each (fun i p m => ncb ← py_index ncbs i;
      '(p, m) ← SingleType.allocate_new_computed_blocks rid ncb nl ne p m; Ok (tt, p, m)) 0 p ms = Ok (us, p', ms') /\
    kv_inv p' l' ms' /\ Z.of_nat (length l) - costs (computed_cost p) 0 ms <= Z.of_nat (length l') /\
    each_rel (fun i m _ m' => computed i m m') 0 ms us ms' /\ same_config p p'.
Proof.
  intros Hdis Hnl Hne K HC Hc.
  destruct (each_all _ starts_at computed_cost (fun i m (_ : unit) m' => computed i m m') any_pool ms p l
    (fun i p l m ext => computed_body i p l m ext Hdis Hnl Hne)) as (us & p' & ms' & l' & E & K' & Hl & HR & C' & _); try done.
  - intros. unfold computed_cost, get_num_evictable_blocks, py_len. lia.
  - exists us, p', ms', l'. split; [exact E|]. done.
Qed.
End Computed.

(** ** New blocks *)

Definition missing (rid : string) (need : Z) (m : manager) : Z :=
  Z.max 0 (cdiv need (block_size m) - py_len (blocks_of rid m)).

Record extended (rid : string) (need : Z) (m : manager) (new : list nat) (m' : manager) : Prop := {
  ex_mgr : same_mgr m m';
  ex_blocks : blocks_of rid m' = blocks_of rid m ++ new;
  ex_len : py_len new = missing rid need m;
  ex_real : 0%nat ∉ new;
  ex_cached : num_cached_block m' = num_cached_block m;
  ex_other : others_kept rid m m';
}.

Lemma allocate_base rid n main p m :
  attention m -> SingleType.allocate_new_blocks rid n main p m = base_allocate_new_blocks rid n p m.
Proof. unfold attention, SingleType.allocate_new_blocks. by destruct (kv_cache_spec m). Qed.

Lemma allocate_stage rid need main enc p l ms :
  kv_inv p l ms -> all_C (fun _ => attention) 0 ms ->
  costs (fun _ => missing rid need) 0 ms <= Z.of_nat (length l) ->
  exists new p' ms' l',
    each (fun _ p m => SingleType.allocate_new_blocks rid (if is_cross m then enc else need) main p m) 0 p ms
      = Ok (new, p', ms') /\
    kv_inv p' l' ms' /\ each_rel (fun _ => extended rid need) 0 ms new ms' /\ same_config p p'.
Proof.
  intros K HC Hc.
  destruct (each_all (fun _ p m => SingleType.allocate_new_blocks rid (if is_cross m then enc else need) main p m)
    (fun _ _ => attention) (fun _ _ => missing rid need) (fun _ => extended rid need) any_pool ms p l)
    as (new & p' & ms' & l' & E & K' & _ & HR & C' & _); try done.
  - intros i q lq m ext I W O Hh Ha Hle. rewrite attention_not_cross, allocate_base by done.
    destruct (base_allocate_ok q lq m ext rid need I W O Hh) as (q' & m' & E & S & Hnc & Hb & _); [unfold missing in Hle; lia|].
    set (k := Z.to_nat (cdiv need (block_size m) - py_len (blocks_of rid m))) in *.
    eexists _, q', m', _. split; [exact E|]. split; [exact S|]. unfold missing in *. split; [rewrite length_drop; lia|].
    split; [|split; [done|done]]. split; [apply (so_mgr _ _ _ _ _ _ S)| | | |done|].
    + by rewrite Hb, decide_True.
    + unfold py_len at 1. rewrite length_take. unfold missing. lia.
    + intros Hin%elem_of_take_sub. by apply (inv_real q lq 0 I) in Hin as [[? _] _].
    + intros rid' Hr. by rewrite Hb, decide_False, Hnc.
  - intros. unfold missing. lia.
  - exists new, p', ms', l'. done.
Qed.

(** ** Caching *)
Record committed (r : Request) (n : Z) (m m' : manager) : Prop := {
  cm_mgr : same_mgr m m';
  cm_blocks : forall rid, blocks_of rid m' = blocks_of rid m;
  cm_cached : cached_of (request_id r) m' = Z.max (cached_of (request_id r) m) (n / block_size m);
  cm_other : others_kept (request_id r) m m';
}.

Lemma cache_others r n p m p' m' : attention m -> SingleType.cache_blocks r n p m = Ok (p', m') ->
  forall rid, rid <> request_id r -> num_cached_block m' !! rid = num_cached_block m !! rid.
Proof.
  intros Ha E rid Hr. unfold SingleType.cache_blocks in E. cbv zeta in E. destruct (kv_cache_spec m) eqn:Es; try (unfold attention in Ha; by rewrite Es in Ha);
    (destruct (_ <=? _); [by injection E as <- <-|]; destruct (cache_full_blocks _ _ _ _ _ _ _); [|done]; cbn [mbind result_bind] in E;
     injection E as <- <-; cbn; by rewrite lookup_insert_ne).
Qed.

Lemma cacheable_config p p' m r n : same_config p p' -> cacheable p m r n -> cacheable p' m r n.
Proof.
  intros (_ & C1 & C2 & _) [A [B1 B2] D E F]. rewrite C1 in A. rewrite C2 in B1, B2, F. by split.
Qed.

Lemma cache_stage r n p l ms :
  kv_inv p l ms -> all_C (fun _ m => attention m /\ cacheable p m r n) 0 ms -> 0 <= n ->
  exists us p' ms' l',
    each (fun _ p m => '(p, m) ← SingleType.cache_blocks r n p m; Ok (tt, p, m)) 0 p ms = Ok (us, p', ms') /\
    kv_inv p' l' ms' /\ each_rel (fun _ m _ m' => committed r n m m') 0 ms us ms' /\ same_config p p'.
Proof.
  intros K HC Hn.
  destruct (each_all (fun _ p m => '(p, m) ← SingleType.cache_blocks r n p m; Ok (tt, p, m))
    (fun p _ m => attention m /\ cacheable p m r n) (fun _ _ _ => 0) (fun _ m _ m' => committed r n m m') any_pool ms p l)
    as (us & p' & ms' & l' & E & K' & _ & HR & C' & _); try done; [|rewrite costs_zero; lia|].
  - intros i q lq m ext I W O Hh [Ha Hca] _.
    destruct (cache_ok q lq m ext r n I W O Hh Ha Hca Hn) as (q' & m' & E & S & Hb & _ & Hcd & _).
    exists tt, q', m', lq. rewrite E. split; [done|]. split; [exact S|]. split; [lia|].
    split; [split; [apply (so_mgr _ _ _ _ _ _ S)|done|done|]|].
    { intros rid' Hr. split; [done|]. by eapply cache_others. }
    split; [done|]. intros j m2 _ [Ha2 Hca2]. split; [|done]. split; [done|]. eapply cacheable_config; [apply (so_config _ _ _ _ _ _ S)|done].
  - exists us, p', ms', l'. done.
Qed.
