(* ===== verification/KVSlots.v ===== *)
(** Slot allocation and freeing of the KV-cache manager.

    [allocate_slots_correct] is the contract of [KVCacheManager.allocate_slots]
    for attention groups: it fails exactly when the groups together need more
    blocks than are free, and otherwise leaves every group with enough blocks for
    the tokens that need a slot, keeping the hits and the blocks inside the
    attention window in place and the lists of other requests untouched.
    [request_freed] and [no_leak] are the contract of [free]. *)
From S2P Require Import Prelude FreeQueue Request BlockHash BlockPool SingleType SingleTypeFacts KVManager KVManagerFacts.
Import BlockPool.BlockPool PoolFacts.
Local Open Scope Z_scope.

(** * The state of the manager *)

Definition kv_pool (k : kv_manager) : pool := block_pool (coord k).
Definition kv_groups (k : kv_manager) : list manager := single_type_managers (coord k).

(** A group of attention layers of this manager. *)
Record group_ok (caching_on : bool) (p : pool) (m : manager) : Prop := {
  go_attention : attention m;
  go_caching : caching m = caching_on;
  go_hash : caching_on = true -> block_size m mod hash_block_size p = 0 /\ 0 <= kv_cache_group_id m < 2 ^ 32;
}.

Record kv_ok (k : kv_manager) (l : list nat) : Prop := {
  ko_inv : kv_inv (kv_pool k) l (kv_groups k);
  ko_groups : all_C (fun _ => group_ok (kv_caching k) (kv_pool k)) 0 (kv_groups k);
  ko_caching : enable_caching (kv_pool k) = kv_caching k;
  ko_hashes : 0 < hash_block_size (kv_pool k);
}.

Lemma group_ok_same on p p' m m' : same_config p p' -> same_mgr m m' -> group_ok on p m -> group_ok on p' m'.
Proof.
  intros (_ & _ & C & _) (M1 & M2 & M3 & M4 & _) [G1 G2 G3]. unfold attention in *. split; unfold attention; try congruence.
  by rewrite <- M2, <- M4, <- C.
Qed.

Lemma kv_free_count p l ms : kv_inv p l ms -> get_num_free_blocks p = Z.of_nat (length l).
Proof. intros K. apply (qr_num _ _ (pb_queue _ _ (proj1 (ki_pool _ _ _ K)))). Qed.

(** What no call changes. *)
Definition kv_same (k k' : kv_manager) : Prop :=
  max_model_len k' = max_model_len k /\ kv_caching k' = kv_caching k /\ kind (coord k') = kind (coord k) /\ same_config (kv_pool k) (kv_pool k').

(** * Filling a request up *)
Section Fill.
Context (rid : string) (ncbs : list (list nat)) (nl ne need : Z).
Let total := nl + ne.

(** A request that goes on in group [i], without hits and external tokens. *)
Definition goes_on_at (i : Z) (m : manager) : Prop :=
  0 <= i < py_len ncbs /\ attention m /\ hits_at ncbs i = [] /\ goes_on rid total m.

(** The call either starts the request in all groups or goes on in all. *)
Definition request_at (start : bool) (p : pool) (ms : list manager) : Prop :=
  if start then disjoint_hits ncbs /\ all_C (starts_at rid ncbs nl ne p) 0 ms
  else all_C goes_on_at 0 ms.

Definition slots_needed (p : pool) (ms : list manager) : Z :=
  costs (fun i m => group_need rid need total (hits_at ncbs i) p m) 0 ms.

Record filled (i : Z) (m : manager) (new : list nat) (m' : manager) : Prop := {
  fi_mgr : same_mgr m m';
  fi_len : cdiv need (block_size m) <= py_len (blocks_of rid m') <= Z.max (py_len (blocks_of rid m)) (cdiv need (block_size m));
  fi_blocks : exists tail, blocks_of rid m' =
    blocks_of rid m ++ hit_blocks (skip_blocks m total - length (blocks_of rid m)) (hits_at ncbs i) ++ tail;
  fi_new : new `suffix_of` blocks_of rid m';
  fi_other : others_kept rid m m';
}.

Lemma request_attention start p ms :
  request_at start p ms -> all_C (fun i m => 0 <= i < py_len ncbs /\ attention m /\
    (starts rid m \/ hits_at ncbs i = [] /\ goes_on rid total m)) 0 ms.
Proof.
  destruct start; simpl; [intros [_ H]; revert H|]; apply all_C_impl.
  - intros j m (H1 & _ & H2 & H3 & _). tauto.
  - intros j m (H1 & H2 & H3). tauto.
Qed.

Lemma request_start start p ms :
  request_at start p ms -> all_C (fun i m => if start then starts rid m else hits_at ncbs i = []) 0 ms.
Proof.
  destruct start; simpl; [intros [_ H]; revert H|]; apply all_C_impl.
  - by intros j m (_ & _ & _ & ? & _).
  - by intros j m (_ & _ & ? & _).
Qed.

Lemma starts_need p i m m' :
  wf p m -> 0 <= nl -> 0 <= ne -> total <= need -> starts_at rid ncbs nl ne p i m -> computed rid ncbs nl ne i m m' ->
  group_need rid need total (hits_at ncbs i) p m = computed_cost ncbs nl ne p i m + missing rid need m'.
Proof.
  intros W Hnl Hne Hle (_ & _ & Ha & [_ Hnil] & _ & _ & _) [M (new & Hb & Hl) _ _]. fold total in Hb, Hl.
  pose proof (wf_size _ _ W) as Hbs. destruct M as (_ & Hsz & _). unfold group_need, computed_cost, missing. fold total.
  rewrite Hb, Hnil, <- Hsz. simpl length. rewrite Nat.sub_0_r. unfold py_len at 2 3. rewrite length_app, Hl.
  pose proof (length_hit_blocks (skip_blocks m total) (hits_at ncbs i)) as Hlen. unfold py_len in *. simpl length.
  pose proof (cdiv_mono total need (block_size m) Hbs Hle).
  unfold ext_blocks, py_len. destruct (0 <? ext_tokens m total ne); lia.
Qed.

Lemma starts_cost_le p i m :
  wf p m -> total <= need -> starts_at rid ncbs nl ne p i m ->
  computed_cost ncbs nl ne p i m <= group_need rid need total (hits_at ncbs i) p m.
Proof.
  intros W Hle (_ & _ & _ & [_ Hnil] & _). pose proof (wf_size _ _ W) as Hbs.
  unfold group_need, computed_cost. fold total. rewrite Hnil. simpl length. rewrite Nat.sub_0_r.
  pose proof (length_hit_blocks (skip_blocks m total) (hits_at ncbs i)). pose proof (cdiv_mono total need (block_size m) Hbs Hle).
  unfold ext_blocks. change (py_len (@nil nat)) with 0. destruct (0 <? ext_tokens m total ne); lia.
Qed.

(** The hits and the blocks for external tokens are not more than needed. *)
Lemma computed_len p i m m1 :
  wf p m -> 0 <= nl -> 0 <= ne -> total <= need -> starts_at rid ncbs nl ne p i m -> computed rid ncbs nl ne i m m1 ->
  py_len (blocks_of rid m1) <= cdiv need (block_size m).
Proof.
  intros W Hnl Hne Hle (_ & _ & Ha & _ & _ & Hhits & _) [_ (ext & -> & Hl) _ _]. fold total in Hl, Hhits |- *. pose proof (wf_size _ _ W) as Hbs.
  assert (Hfit : forall n, n * block_size m <= total -> n <= cdiv total (block_size m)).
  { intros n Hn. apply Z.le_ngt. intros Hlt. assert (Hc : cdiv total (block_size m) <= n - 1) by lia. apply cdiv_le in Hc; nia. }
  pose proof (skip_blocks_le p m total W Ha ltac:(unfold total; lia)) as Hskip. pose proof (cdiv_mono total need (block_size m) Hbs Hle).
  pose proof (Hfit (Z.of_nat (skip_blocks m total)) ltac:(lia)). pose proof (Hfit (py_len (hits_at ncbs i)) Hhits).
  pose proof (length_hit_blocks (skip_blocks m total) (hits_at ncbs i)) as Hlen. unfold ext_blocks in Hl. unfold py_len in *. rewrite length_app, Hl.
  destruct (0 <? ext_tokens m total ne); lia.
Qed.

Lemma starts_filled p i m m1 new m' :
  wf p m -> 0 <= nl -> 0 <= ne -> total <= need -> starts_at rid ncbs nl ne p i m -> computed rid ncbs nl ne i m m1 -> extended rid need m1 new m' -> filled i m new m'.
Proof.
  intros W Hnl Hne Hle Hst Hcomp [M2 Hb2 Hl2 _ _ Ho2]. pose proof (computed_len p i m m1 W Hnl Hne Hle Hst Hcomp) as Hmax.
  destruct Hst as (_ & _ & _ & [_ Hnil] & _), Hcomp as [M1 (ext & Hb & _) _ Ho1]. fold total in Hb.
  split; [by eapply same_mgr_trans| | |rewrite Hb2; by eexists|].
  - rewrite Hb2. unfold missing in Hl2. destruct M1 as (_ & <- & _) in Hl2. unfold py_len in *. rewrite length_app. lia.
  - exists (ext ++ new). rewrite Hb2, Hb, Hnil. simpl length. rewrite Nat.sub_0_r. by rewrite <- app_assoc.
  - by eapply others_kept_trans.
Qed.

Lemma goes_on_skip p i m : wf p m -> 0 <= total -> goes_on_at i m -> (skip_blocks m total <= length (blocks_of rid m))%nat.
Proof.
  intros W Ht (_ & Ha & _ & Hg). pose proof (skip_blocks_le p m total W Ha Ht). pose proof (wf_size _ _ W).
  unfold goes_on, py_len in Hg. nia.
Qed.

Lemma goes_on_need p i m : wf p m -> 0 <= total -> goes_on_at i m ->
  group_need rid need total (hits_at ncbs i) p m = missing rid need m.
Proof.
  intros W Ht Hg. pose proof (goes_on_skip p i m W Ht Hg). destruct Hg as (_ & _ & -> & _).
  unfold group_need, missing, get_num_evictable_blocks. rewrite drop_nil, filter_nil. unfold py_len. simpl length. lia.
Qed.

Lemma goes_on_filled p i m new m' :
  wf p m -> 0 <= total -> goes_on_at i m -> extended rid need m new m' -> filled i m new m'.
Proof.
  intros W Ht Hg [M Hb Hl _ _ Ho]. pose proof (goes_on_skip p i m W Ht Hg). destruct Hg as (_ & _ & Hh & _).
  split; [done| | |rewrite Hb; by eexists|done].
  - rewrite Hb. unfold missing, py_len in *. rewrite length_app. lia.
  - exists new. rewrite Hh, Hb. by replace (skip_blocks m total - length (blocks_of rid m))%nat with 0%nat by lia.
Qed.

(** The two allocation stages, when the blocks suffice. *)
Lemma fill_stage start main enc c l :
  kv_inv (block_pool c) l (single_type_managers c) -> request_at start (block_pool c) (single_type_managers c) ->
  0 <= nl -> 0 <= ne -> total <= need -> slots_needed (block_pool c) (single_type_managers c) <= Z.of_nat (length l) ->
  exists new p' ms' l',
    (c ← (if start then KVCacheCoordinator.allocate_new_computed_blocks rid ncbs nl ne c else Ok c);
     KVCacheCoordinator.allocate_new_blocks rid need main enc c) = Ok (new, with_state p' ms' c) /\
    kv_inv p' l' ms' /\ each_rel filled 0 (single_type_managers c) new ms' /\ same_config (block_pool c) p'.
Proof.
  intros K Hreq Hnl Hne Hle Hc. set (p := block_pool c) in *. set (ms := single_type_managers c) in *.
  pose proof (all_C_Forall (wf p) 0 ms (ki_wf _ _ _ K)) as Hwf. unfold slots_needed in Hc.
  unfold KVCacheCoordinator.allocate_new_computed_blocks, KVCacheCoordinator.allocate_new_blocks, each_co.
  assert (Ht : 0 <= total) by (unfold total; lia).
  destruct start; simpl in Hreq.
  - destruct Hreq as [Hdis HC]. pose proof (all_C_and _ _ _ _ Hwf HC) as HWC.
    assert (Hfirst : forall as_ ms', each_rel (fun i m (_ : unit) m' => computed rid ncbs nl ne i m m') 0 ms as_ ms' ->
      costs (fun i m => group_need rid need total (hits_at ncbs i) p m) 0 ms =
      costs (computed_cost ncbs nl ne p) 0 ms + costs (fun _ => missing rid need) 0 ms').
    { intros us ms1 HR. eapply costs_rel; [exact HR|exact HWC|]. intros j m u m' [W S] HR1. by apply starts_need. }
    assert (Hcc : costs (computed_cost ncbs nl ne p) 0 ms <= Z.of_nat (length l)).
    { etrans; [|exact Hc]. apply costs_le with (C := fun i m => wf p m /\ starts_at rid ncbs nl ne p i m); [done|].
      intros j m [W S]. by apply starts_cost_le. }
    destruct (computed_stage rid ncbs nl ne p l ms) as (us & p1 & ms1 & l1 & E1 & K1 & Hl1 & HR1 & C1); try done.
    assert (Ha1 : all_C (fun _ => attention) 0 ms1).
    { eapply all_C_rel; [exact HR1| |exact HC]. intros j m u m' (_ & _ & Ha & _) [(M & _) _ _ _]. unfold attention. by rewrite <- M. }
    rewrite (Hfirst us ms1 HR1) in Hc.
    destruct (allocate_stage rid need main enc p1 l1 ms1 K1 Ha1) as (new & p2 & ms2 & l2 & E2 & K2 & HR2 & C2); [lia|].
    exists new, p2, ms2, l2. fold p ms. rewrite E1. cbn [mbind result_bind]. cbn [with_state block_pool single_type_managers].
    rewrite E2. cbn [mbind result_bind]. split; [done|]. split; [done|]. split; [|by etrans].
    eapply each_rel_mono; [|exact (each_rel_C _ _ _ _ _ _ (each_rel_trans _ _ _ _ _ _ _ _ HR1 HR2) HWC)].
    intros j m a m' [[W S] (u & m1 & HR & Hx)]. by apply (starts_filled p j m m1).
  - pose proof (all_C_and _ _ _ _ Hwf Hreq) as HWC.
    rewrite (costs_ext _ _ (fun _ => missing rid need) 0 ms HWC) in Hc
      by (intros j m [W Hg]; by apply goes_on_need).
    destruct (allocate_stage rid need main enc p l ms K) as (new & p2 & ms2 & l2 & E2 & K2 & HR2 & C2); [|lia|].
    { eapply all_C_impl; [|exact Hreq]. by intros j m (_ & ? & _). }
    exists new, p2, ms2, l2. cbn [mbind result_bind]. fold p ms. rewrite E2. cbn [mbind result_bind].
    split; [done|]. split; [done|]. split; [|done].
    eapply each_rel_mono; [|exact (each_rel_C _ _ _ _ _ _ HR2 HWC)].
    intros j m a m' [[W Hg] Hx]. by apply (goes_on_filled p).
Qed.
End Fill.

(** * [allocate_slots] *)

(** What a group gives the request, compared with the group before the call. *)
Record group_slots (rid : string) (total need : Z) (ncbs : list (list nat)) (i : Z) (m : manager)
    (new : list nat) (m' : manager) : Prop := {
  gs_mgr : same_mgr m m';
  gs_len : cdiv need (block_size m) <= py_len (blocks_of rid m') <= Z.max (py_len (blocks_of rid m)) (cdiv need (block_size m));
  gs_kept : forall q b, get_num_skipped_tokens (kv_cache_spec m) total <= Z.of_nat q * block_size m ->
    blocks_of rid m !! q = Some b -> blocks_of rid m' !! q = Some b;
  gs_hits : forall q b, get_num_skipped_tokens (kv_cache_spec m) total <= Z.of_nat q * block_size m ->
    hits_at ncbs i !! q = Some b -> blocks_of rid m' !! q = Some b;
  gs_new : new `suffix_of` blocks_of rid m';
  gs_other : others_kept rid m m';
}.

Lemma lookup_hit_blocks sb ncb q b : (sb <= q)%nat -> ncb !! q = Some b -> hit_blocks sb ncb !! q = Some b.
Proof.
  intros Hq Hb. unfold hit_blocks. rewrite lookup_app_r by (rewrite length_replicate; lia).
  rewrite length_replicate, lookup_drop. by replace (sb + (q - sb))%nat with q by lia.
Qed.

Lemma slots_intro rid nl ne need ncbs start p i m m1 new m2 m3 :
  wf p m -> 0 <= nl + ne -> attention m ->
  (if start : bool then starts rid m else hits_at ncbs i = []) ->
  removed rid (nl + ne) m m1 -> filled rid ncbs nl ne need i m1 new m2 -> same_mgr m2 m3 ->
  (forall rid, blocks_of rid m3 = blocks_of rid m2) -> others_kept rid m2 m3 -> group_slots rid (nl + ne) need ncbs i m new m3.
Proof.
  intros W Ht Ha Hs [M1 Hl1 Hk1 _ _ Ho1] [M2 Hl2 (tail & Hb2) Hnew Ho2] M3 Hb3 Ho3.
  assert (Hsz : block_size m1 = block_size m) by (symmetry; apply M1).
  assert (Hsp : kv_cache_spec m1 = kv_cache_spec m) by (symmetry; apply M1).
  assert (Hsk : skip_blocks m1 (nl + ne) = skip_blocks m (nl + ne)) by (unfold skip_blocks; by rewrite Hsz, Hsp).
  pose proof (skip_blocks_le p m (nl + ne) W Ha Ht) as Hle. pose proof (wf_size _ _ W) as Hbs.
  pose proof (skipped_nonneg (kv_cache_spec m) (nl + ne) Ha Ht) as Hsn. split.
  - eapply same_mgr_trans; [exact M1|]. by eapply same_mgr_trans.
  - rewrite Hb3, <- Hsz. unfold py_len in *. by rewrite <- Hl1.
  - intros q b Hq Hb. rewrite Hb3, Hb2. rewrite <- Hk1 in Hb by lia.
    rewrite lookup_app_l; [done|]. by eapply lookup_lt_Some.
  - intros q b Hq Hb. destruct start; [|by rewrite Hs in Hb].
    destruct Hs as [_ Hnil]. rewrite Hnil in Hl1. simpl in Hl1. apply nil_length_inv in Hl1.
    rewrite Hb3, Hb2, Hl1, Hsk. rewrite app_nil_l. simpl length. rewrite Nat.sub_0_r.
    assert (Hlook : hit_blocks (skip_blocks m (nl + ne)) (hits_at ncbs i) !! q = Some b).
    { apply lookup_hit_blocks; [nia|done]. }
    rewrite lookup_app_l; [done|]. by eapply lookup_lt_Some.
  - by rewrite Hb3.
  - eapply others_kept_trans; [exact Ho1|]. by eapply others_kept_trans.
Qed.

(** The call of [allocate_slots] as the scheduler makes it. *)
Record slots_call (k : kv_manager) (r : Request) (num_new_tokens nnc : Z) (ncb : option KVCacheBlocks)
    (lookahead ne : Z) (start : bool) : Prop := {
  sc_new : 0 <= num_new_tokens /\ 0 <= lookahead /\ (num_new_tokens = 0 -> 0 < ne);
  sc_computed : 0 <= num_computed_tokens r + nnc /\ 0 <= ne;
  sc_len : num_computed_tokens r + nnc + ne <= max_model_len k /\ 0 <= num_tokens r <= max_model_len k;
  sc_hashed : kv_caching k = true -> num_tokens r / hash_block_size (kv_pool k) <= py_len (block_hashes r);
  sc_start : start = negb (match default EmptyBlocks ncb with EmptyBlocks => true | _ => false end) || (0 <? ne);
  sc_request : request_at (request_id r) (blocks_list k (default EmptyBlocks ncb)) (num_computed_tokens r + nnc) ne
    start (kv_pool k) (kv_groups k);
}.

(** Removing skipped blocks keeps the request startable or running. *)
Lemma request_removed rid t ncbs nl ne start p p' ms us ms' :
  each_rel (fun _ m (_ : unit) m' => removed rid t m m') 0 ms us ms' -> same_config p p' -> same_hashes p p' ->
  request_at rid ncbs nl ne start p ms -> request_at rid ncbs nl ne start p' ms'.
Proof.
  intros HR C H. destruct start; simpl.
  - intros [Hd HC]. split; [done|]. eapply all_C_rel; [exact HR| |exact HC].
    intros j m u m' (H1 & H2 & H3 & [H4 H5] & [K1 K2 K3] & H7 & H8) [M Hl _ _ Hc _].
    destruct M as (M1 & M2 & M3 & _). unfold starts_at, attention, starts in *. rewrite <- M1, <- M2, <- M3, Hc.
    rewrite H5 in Hl. apply nil_length_inv in Hl. do 4 (split; [done|]). split; [|done].
    split; [|intros x Hx; rewrite H; by apply K2|done]. destruct C as (<- & _). done.
  - intros HC. eapply all_C_rel; [exact HR| |exact HC]. intros j m u m' (H1 & H2 & H3 & H4) [M Hl _ _ Hc _].
    destruct M as (M1 & M2 & M3 & _). unfold goes_on_at, attention, goes_on, py_len in *. by rewrite <- M1, <- M2, Hl.
Qed.

Lemma group_ok_rel {A} (R : Z -> manager -> A -> manager -> Prop) on p p' i ms as_ ms' :
  each_rel R i ms as_ ms' -> (forall i m a m', R i m a m' -> same_mgr m m') -> same_config p p' ->
  all_C (fun _ => group_ok on p) i ms -> all_C (fun _ => group_ok on p') i ms'.
Proof. intros HR HM C. eapply all_C_rel; [exact HR|]. intros j m a m' Hg Hr. by eapply group_ok_same, Hg; [|eapply HM]. Qed.

Lemma kv_ok_with k p l ms :
  kv_inv p l ms -> all_C (fun _ => group_ok (kv_caching k) p) 0 ms -> same_config (kv_pool k) p -> 
  enable_caching (kv_pool k) = kv_caching k -> 0 < hash_block_size (kv_pool k) ->
  kv_ok (with_coord (with_state p ms (coord k)) k) l.
Proof. intros K G (_ & C1 & C2 & _) H1 H2. split; [done|done| |]; unfold kv_pool in *; simpl; congruence. Qed.

Lemma cacheable_filled p m r n need on :
  group_ok on p m -> wf p m -> on = true -> enable_caching p = true -> 0 < hash_block_size p ->
  n <= num_tokens r -> n <= need -> 0 <= n -> num_tokens r / hash_block_size p <= py_len (block_hashes r) ->
  cdiv need (block_size m) <= py_len (blocks_of (request_id r) m) -> cacheable p m r n.
Proof.
  intros [_ _ Gh] W Hon Hen Hhb H1 H2 H3 Hhs Hlen. pose proof (wf_size _ _ W) as Hbs. destruct (Gh Hon) as [Hm Hg].
  split; try done.
  - etrans; [|exact Hlen]. etrans; [apply cdiv_ge_div; lia|]. by apply cdiv_mono.
  - apply Z.mod_divide in Hm as [c Hc]; [|lia]. rewrite Hc, Z.div_mul by lia.
    assert (0 < c) by nia. rewrite (Z.mul_comm c), <- Z.div_div by lia. apply Z.div_le_mono; [done|].
    etrans; [|exact Hhs]. by apply Z.div_le_mono.
Qed.

(** The last stage: cache the full blocks, or not. *)
Lemma commit_stage k r n delay c l out :
  kv_inv (block_pool c) l (single_type_managers c) -> 0 <= n ->
  (kv_caching k = true -> all_C (fun _ m => attention m /\ cacheable (block_pool c) m r n) 0 (single_type_managers c)) ->
  exists us p' ms' l',
    (if negb (kv_caching k) || delay then Ok (Some out : option KVCacheBlocks, with_coord c k) else
     c ← KVCacheCoordinator.cache_blocks r n c; Ok (Some out, with_coord c k))
    = Ok (Some out, with_coord (with_state p' ms' c) k) /\
    kv_inv p' l' ms' /\ same_config (block_pool c) p' /\
    each_rel (fun _ m (_ : unit) m' => same_mgr m m' /\ (forall rid, blocks_of rid m' = blocks_of rid m) /\ others_kept (request_id r) m m') 0
      (single_type_managers c) us ms'.
Proof.
  intros K Hn HC. destruct (negb (kv_caching k) || delay) eqn:E.
  - destruct (each_rel_refl (fun _ m (_ : unit) m' => same_mgr m m' /\ (forall rid, blocks_of rid m' = blocks_of rid m) /\ others_kept (request_id r) m m') tt
      0 (single_type_managers c)) as [us HR]; [done|].
    exists us, (block_pool c), (single_type_managers c), l. split; [by destruct c|]. done.
  - apply orb_false_iff in E as [Ec _]. apply negb_false_iff in Ec.
    destruct (cache_stage r n (block_pool c) l (single_type_managers c) K (HC Ec) Hn) as (us & p' & ms' & l' & E & K' & HR & C').
    unfold KVCacheCoordinator.cache_blocks, each_co. rewrite E. cbn [mbind result_bind].
    exists us, p', ms', l'. split; [done|]. split; [done|]. split; [done|].
    eapply each_rel_mono; [|exact HR]. intros j m u m' [M Hb _ Ho]. done.
Qed.

Lemma result_bind_ok2 {A B C} (x : result A) (f : A -> result B) (g : B -> result C) v :
  (x ≫= f) = Ok v -> (x ≫= fun a => f a ≫= g) = g v.
Proof. destruct x as [a|e]; simpl; [|done]. by intros ->. Qed.

(** What follows the capacity check, from the state [c] after the removal. *)
Lemma fill_and_commit k l0 r total need num_new_tokens nl ne ncbs delay enc start us p1 ms1 l1 :
  kv_ok k l0 -> total = nl + ne -> 0 <= nl -> 0 <= ne -> 0 <= num_new_tokens ->
  total <= need -> Z.min (total + num_new_tokens) (num_tokens r) <= need -> 0 <= num_tokens r ->
  (kv_caching k = true -> num_tokens r / hash_block_size (kv_pool k) <= py_len (block_hashes r)) ->
  request_at (request_id r) ncbs nl ne start (kv_pool k) (kv_groups k) ->
  each_rel (fun _ m (_ : unit) m' => removed (request_id r) total m m') 0 (kv_groups k) us ms1 ->
  same_config (kv_pool k) p1 -> same_hashes (kv_pool k) p1 -> kv_inv p1 l1 ms1 ->
  slots_needed (request_id r) ncbs nl ne need p1 ms1 <= Z.of_nat (length l1) ->
  let c := with_state p1 ms1 (coord k) in
  exists k' l' new,
    (c ← (if start then KVCacheCoordinator.allocate_new_computed_blocks (request_id r) ncbs nl ne c else Ok c);
     '(new_blocks, c) ← KVCacheCoordinator.allocate_new_blocks (request_id r) need (total + num_new_tokens) enc c;
     if negb (kv_caching k) || delay then Ok (Some (KVCacheManager.create_kv_cache_blocks new_blocks), with_coord c k) else
     c ← KVCacheCoordinator.cache_blocks r (Z.min (total + num_new_tokens) (num_tokens r)) c;
     Ok (Some (KVCacheManager.create_kv_cache_blocks new_blocks), with_coord c k))
    = Ok (Some (KVCacheManager.create_kv_cache_blocks new), k') /\ kv_ok k' l' /\
    each_rel (group_slots (request_id r) total need ncbs) 0 (kv_groups k) new (kv_groups k') /\ kv_same k k'.
Proof.
  intros [K HG Hen Hhb] -> Hnl Hne Hnew Hle Hn Hnt Hhs Hreq HR1 C1 H1 K1 Hge c.
  pose proof (request_removed _ _ _ _ _ _ _ p1 _ _ ms1 HR1 C1 H1 Hreq) as Hreq1.
  assert (HG1 : all_C (fun _ => group_ok (kv_caching k) p1) 0 ms1) by (eapply group_ok_rel; [exact HR1|by intros ???? [? _ _ _ _ _]|done|done]).
  destruct (fill_stage (request_id r) ncbs nl ne need start (nl + ne + num_new_tokens) enc c l1 K1 Hreq1)
    as (new & p2 & ms2 & l2 & E3 & K2 & HR2 & C2); [done..|].
  change (single_type_managers c) with ms1 in HR2. change (block_pool c) with p1 in C2.
  assert (HG2 : all_C (fun _ => group_ok (kv_caching k) p2) 0 ms2) by (eapply group_ok_rel; [exact HR2|by intros ???? [? _ _ _ _]|done|done]).
  destruct (commit_stage k r (Z.min (nl + ne + num_new_tokens) (num_tokens r)) delay (with_state p2 ms2 c) l2
    (KVCacheManager.create_kv_cache_blocks new) K2) as (us3 & p3 & ms3 & l3 & E4 & K3 & C3 & HR3); [lia| |].
  { intros Hon. assert (Hlen : all_C (fun _ m => cdiv need (block_size m) <= py_len (blocks_of (request_id r) m)) 0 ms2).
    { eapply (all_C_rel _ (fun _ _ => True)); [exact HR2| |exact (all_C_Forall _ _ _ (Forall_true _ _ (fun _ => I)))].
      intros j m a m' _ [(_ & Hsz & _) [Hl _] _ _ _]. by rewrite <- Hsz. }
    eapply all_C_impl; [|exact (all_C_and _ _ _ _ (all_C_and _ _ _ _ HG2 (all_C_Forall _ 0 _ (ki_wf _ _ _ K2))) Hlen)].
    intros j m [[G W] Hl]. split; [apply G|]. pose proof (transitivity C1 C2) as (_ & Ce & Ch & _).
    apply (cacheable_filled p2 m r _ need (kv_caching k)); rewrite <- ?Ce, <- ?Ch; try done; [congruence|lia|lia|by apply Hhs]. }
  change (single_type_managers _) with ms2 in HR3.
  exists (with_coord (with_state p3 ms3 (coord k)) k), l3, new. split; [etrans; [exact (result_bind_ok2 _ _ _ _ E3)|exact E4]|]. split; [|split].
  - apply kv_ok_with; [done| |by etrans; [|etrans]|done|done].
    eapply group_ok_rel; [exact HR3|by intros ???? [? _]|done|done].
  - pose proof (all_C_and _ _ _ _ (all_C_Forall _ 0 _ (ki_wf _ _ _ K)) (all_C_and _ _ _ _ HG (request_start _ _ _ _ _ _ _ Hreq))) as HC.
    pose proof (each_rel_C _ _ _ _ _ _ (each_rel_join _ _ _ _ _ _ _ _ (each_rel_trans _ _ _ _ _ _ _ _ HR1 HR2) HR3) HC) as HR.
    eapply each_rel_mono; [|exact HR].
    intros j m a m' [(W & G & Hs) (m2 & (u & m1 & Hr1 & Hr2) & u3 & M3 & Hb3 & Ho3)].
    apply (slots_intro _ _ _ _ _ start (kv_pool k) _ _ m1 _ m2); try done; [lia|apply G].
  - do 3 (split; [done|]). etrans; [exact C1|]. by etrans.
Qed.

(** What a call of [allocate_slots] leaves, by its result: [None] only when the
    groups together need more blocks than are free, and then only skipped blocks
    have been released; otherwise every group serves the request. *)
Definition slots_post (k : kv_manager) (r : Request) (num_new_tokens nnc : Z) (ncb : option KVCacheBlocks)
    (lookahead ne : Z) (res : option KVCacheBlocks) (k' : kv_manager) : Prop :=
  let total := num_computed_tokens r + nnc + ne in
  let need := Z.min (total + num_new_tokens + lookahead) (max_model_len k) in
  let ncbs := blocks_list k (default EmptyBlocks ncb) in
  match res with
  | None =>
      get_num_free_blocks (kv_pool k')
        < slots_needed (request_id r) ncbs (num_computed_tokens r + nnc) ne need (kv_pool k') (kv_groups k') /\
      exists us, each_rel (fun _ m (_ : unit) m' => removed (request_id r) total m m') 0 (kv_groups k) us (kv_groups k')
  | Some out =>
      exists new, out = KVCacheManager.create_kv_cache_blocks new /\
        each_rel (group_slots (request_id r) total need ncbs) 0 (kv_groups k) new (kv_groups k')
  end.

Lemma allocate_slots_ok k l r num_new_tokens nnc ncb lookahead ne delay enc start :
  kv_ok k l -> slots_call k r num_new_tokens nnc ncb lookahead ne start ->
  exists res k' l',
    KVCacheManager.allocate_slots r num_new_tokens nnc ncb lookahead ne delay enc k = Ok (res, k') /\ kv_ok k' l' /\
    slots_post k r num_new_tokens nnc ncb lookahead ne res k' /\ kv_same k k'.
Proof.
  intros [K HG Hen Hhb] [(S1 & S2 & S3) (S4 & S5) (S6 & S7) S8 S9 S10].
  unfold slots_post. set (total := num_computed_tokens r + nnc + ne).
  set (need := Z.min (total + num_new_tokens + lookahead) (max_model_len k)). set (ncbs := blocks_list k (default EmptyBlocks ncb)).
  set (nl := num_computed_tokens r + nnc) in *. assert (Ht : 0 <= total) by (unfold total; lia).
  assert (Ha0 : all_C (fun _ => attention) 0 (kv_groups k)) by (eapply all_C_impl; [|exact HG]; by intros j m [? _ _]).
  unfold KVCacheManager.allocate_slots. cbv zeta. fold nl.
  destruct (andb _ _) eqn:Ez; [apply andb_true_iff in Ez as [?%Z.eqb_eq ?%Z.eqb_eq]; lia|]. clear Ez.
  replace (match ncb with Some b => b | None => EmptyBlocks end) with (default EmptyBlocks ncb) by by destruct ncb.
  fold ncbs. rewrite (Z.min_l (nl + ne)) by done. change (nl + ne) with total. fold need.
  destruct (remove_stage (request_id r) total (kv_pool k) l (kv_groups k) K Ha0) as (us & p1 & ms1 & l1 & E1 & K1 & _ & HR1 & C1 & H1).
  unfold KVCacheCoordinator.remove_skipped_blocks, each_co. fold (kv_pool k) (kv_groups k). rewrite E1. cbn [mbind result_bind].
  pose proof (request_removed _ _ _ _ _ _ _ p1 _ _ ms1 HR1 C1 H1 S10) as Hreq1.
  assert (HG1 : all_C (fun _ => group_ok (kv_caching k) p1) 0 ms1) by (eapply group_ok_rel; [exact HR1|by intros ???? [? _ _ _ _ _]|done|done]).
  set (c1 := with_state p1 ms1 (coord k)).
  destruct (need_stage (request_id r) need total (total + num_new_tokens) enc ncbs p1 ms1 0) as (ns & E2 & Hns);
    [apply K1|done|by apply (request_attention _ _ _ _ _ _ _ Hreq1)|].
  unfold KVCacheCoordinator.get_num_blocks_to_allocate, each_co.
  change (block_pool c1) with p1. change (single_type_managers c1) with ms1. rewrite E2. cbn [mbind result_bind].
  change (with_state p1 ms1 c1) with c1. change (block_pool c1) with p1. rewrite (kv_free_count p1 l1 ms1 K1), Hns.
  change (costs _ 0 ms1) with (slots_needed (request_id r) ncbs nl ne need p1 ms1).
  destruct (Z.ltb_spec (Z.of_nat (length l1)) (slots_needed (request_id r) ncbs nl ne need p1 ms1)) as [Hlt|Hge].
  { exists None, (with_coord c1 k), l1. split; [done|]. split; [by apply kv_ok_with|].
    change (kv_pool (with_coord c1 k)) with p1. rewrite (kv_free_count p1 l1 ms1 K1). split; [split; [done|by exists us]|]. done. }
  replace (match default EmptyBlocks ncb with EmptyBlocks => false | Blocks _ => true end || (0 <? ne)) with start
    by (rewrite S9; by destruct (default EmptyBlocks ncb)).
  destruct (fill_and_commit k l r total need num_new_tokens nl ne ncbs delay enc start us p1 ms1 l1)
    as (k' & l' & new & E3 & K' & HR' & Hsame); try done; [unfold need; lia..|].
  exists (Some (KVCacheManager.create_kv_cache_blocks new)), k', l'. split; [exact E3|]. split; [done|]. split; [by exists new|done].
Qed.

(** * Freeing *)

Lemma free_stage rid p l ms :
  kv_inv p l ms ->
  exists us p' ms' l',
    each (fun _ p m => '(p, m) ← SingleType.free rid p m; Ok (tt, p, m)) 0 p ms = Ok (us, p', ms') /\
    kv_inv p' l' ms' /\ Z.of_nat (length l) <= Z.of_nat (length l') /\
    each_rel (fun _ m (_ : unit) m' => same_mgr m m' /\ req_to_blocks m' = delete rid (req_to_blocks m) /\
      num_cached_block m' = delete rid (num_cached_block m)) 0 ms us ms' /\ same_config p p' /\ same_hashes p p'.
Proof.
  intros K.
  destruct (each_all (fun _ p m => '(p, m) ← SingleType.free rid p m; Ok (tt, p, m)) (fun _ _ _ => True) (fun _ _ _ => 0)
    (fun _ m _ m' => same_mgr m m' /\ req_to_blocks m' = delete rid (req_to_blocks m) /\
      num_cached_block m' = delete rid (num_cached_block m)) same_hashes ms p l)
    as (us & p' & ms' & l' & E & K' & Hl & HR & C' & H'); try done;
    [|exact (all_C_Forall _ _ _ (Forall_true _ _ (fun _ => I)))|rewrite costs_zero; lia|].
  - intros i q lq m ext I W O Hh _ _.
    destruct (free_ok q lq m ext rid I W O Hh) as (q' & m' & Er & S & Hb & Hc & Hhash).
    eexists tt, q', m', _. rewrite Er. split; [done|]. split; [exact S|]. split; [rewrite length_app; lia|].
    split; [split; [apply (so_mgr _ _ _ _ _ _ S)|done]|]. done.
  - rewrite costs_zero in Hl. exists us, p', ms', l'. split; [done|]. split; [done|]. split; [lia|]. done.
Qed.

(** A group after the request is gone: nothing of it is left, the rest is kept. *)
Record forgotten (rid : string) (m m' : manager) : Prop := {
  fg_mgr : same_mgr m m';
  fg_blocks : req_to_blocks m' = delete rid (req_to_blocks m);
  fg_cached : num_cached_block m' = delete rid (num_cached_block m);
}.

Lemma kv_free_ok k l r :
  kv_ok k l ->
  exists k' l' us, KVCacheManager.free r k = Ok k' /\ kv_ok k' l' /\ Z.of_nat (length l) <= Z.of_nat (length l') /\
    each_rel (fun _ m (_ : unit) m' => forgotten (request_id r) m m') 0 (kv_groups k) us (kv_groups k') /\ kv_same k k'.
Proof.
  intros [K HG Hen Hhb].
  destruct (free_stage (request_id r) (kv_pool k) l (kv_groups k) K) as (us & p' & ms' & l' & E & K' & Hl & HR & C & _).
  unfold KVCacheManager.free, KVCacheCoordinator.free, each_co. fold (kv_pool k) (kv_groups k). rewrite E. cbn [mbind result_bind].
  eexists _, l', us. split; [done|]. split; [|split; [done|split; [|done]]].
  - apply kv_ok_with; try done. eapply group_ok_rel; [exact HR|by intros ???? [? _]|done|done].
  - eapply each_rel_mono; [|exact HR]. intros j m u m' (? & ? & ?). done.
Qed.

(** * Resetting the prefix cache *)

(** All real blocks are free exactly when the free queue has full length. *)
Lemma all_free_iff p l :
  pool_inv p l -> Z.of_nat (length l) = num_gpu_blocks p - 1 <-> (forall i, real_block p i -> ref_of p i = 0).
Proof.
  intros I. pose proof (inv_nodup p l I) as Hnd. pose proof (pb_pos _ _ (proj1 I)) as Hpos.
  set (s := seq 1 (Z.to_nat (num_gpu_blocks p) - 1)).
  assert (Hs : forall i, i ∈ s <-> real_block p i) by (intros i; unfold s, real_block; rewrite elem_of_seq; lia).
  assert (Hsub : l ⊆+ s) by (apply NoDup_submseteq; [done|]; intros i Hi; apply Hs, (inv_real p l i I Hi)).
  split.
  - intros Hl i Hr. assert (Hp : l ≡ₚ s) by (apply submseteq_length_Permutation; [done|]; unfold s; rewrite length_seq; lia).
    apply Hs in Hr. rewrite <- Hp in Hr. by apply (inv_real p l i I).
  - intros Hz. assert (Hp : l ≡ₚ s).
    { apply NoDup_Permutation; [done|apply NoDup_seq|]. intros i. rewrite Hs, (inv_free p l i I). naive_solver. }
    rewrite (Permutation_length Hp). unfold s. rewrite length_seq. lia.
Qed.

Lemma all_refs_pos ms m rid i : m ∈ ms -> i ∈ blocks_of rid m -> 0 < all_refs ms i.
Proof.
  intros (l1 & l2 & ->)%list_elem_of_split Hi. rewrite all_refs_app. pose proof (all_refs_nonneg l1 i).
  pose proof (all_refs_nonneg l2 i). pose proof (refs_pos rid m i Hi). unfold all_refs in *. rewrite fmap_cons, sumZ_cons. lia.
Qed.

Lemma all_refs_zero ms i : (forall m rid, m ∈ ms -> i ∉ blocks_of rid m) -> all_refs ms i = 0.
Proof.
  intros Hn. induction ms as [|m ms IH]; [done|]. unfold all_refs. rewrite fmap_cons, sumZ_cons. fold (all_refs ms i).
  rewrite IH by (intros m' rid Hm; apply Hn; by right). rewrite Z.add_0_r.
  assert (Hz : forall b : gmap string (list nat), (forall rid bs, b !! rid = Some bs -> i ∉ bs) -> refs_of b i = 0).
  { intros b. induction b as [|rid bs b Hb IHb] using map_ind; intros Hnb; [done|].
    rewrite refs_of_insert_new by done. rewrite IHb.
    - rewrite occ_notin; [done|]. apply (Hnb rid). by rewrite lookup_insert_eq.
    - intros rid' bs' H'. apply (Hnb rid'). rewrite lookup_insert_ne by congruence. done. }
  apply Hz. intros rid bs Hb. specialize (Hn m rid ltac:(left)). unfold blocks_of in Hn. by rewrite Hb in Hn.
Qed.

Lemma kv_inv_pool p p' l ms :
  kv_inv p l ms -> pool_inv p' l -> same_config p p' -> (forall j, ref_of p' j = ref_of p j) ->
  (forall j, hash_of p' j = None \/ hash_of p' j = hash_of p j) -> kv_inv p' l ms.
Proof.
  intros [I Hh Hr Hw] I' C R H. split; [done| | |].
  - intros Ec i. destruct (H i) as [E|E]; [done|rewrite E]. apply Hh. destruct C as (_ & -> & _). done.
  - intros i H0. by rewrite R, Hr.
  - eapply Forall_impl; [exact Hw|]. intros m [W1 W2 W3 W4 W5]. split; try done.
    + destruct C as (<- & _). done.
    + intros rid i Hi H0. destruct (W5 rid i Hi H0) as [Hn ?]. rewrite R. split; [|done]. by destruct (H i) as [E|E]; rewrite E.
Qed.

Lemma kv_ok_pool k l p' :
  kv_ok k l -> pool_inv p' l -> same_config (kv_pool k) p' -> (forall j, ref_of p' j = ref_of (kv_pool k) j) ->
  (forall j, hash_of p' j = None \/ hash_of p' j = hash_of (kv_pool k) j) ->
  kv_ok (with_coord (with_state p' (kv_groups k) (coord k)) k) l.
Proof.
  intros [K HG Hen Hhb] I' C R H. apply kv_ok_with; try done; [by eapply kv_inv_pool|].
  eapply all_C_impl; [|exact HG]. intros j m Hg. by eapply group_ok_same.
Qed.

(** [reset_prefix_cache]: what it answers, and the blocks afterwards. *)
Definition reset_post (k : kv_manager) (ok : bool) (k' : kv_manager) : Prop :=
  (ok = true <-> forall m rid i, m ∈ kv_groups k -> i ∈ blocks_of rid m -> i = 0%nat) /\
  kv_groups k' = kv_groups k /\ (forall i, hash_of (kv_pool k') i = if ok then None else hash_of (kv_pool k) i).

Lemma kv_reset_ok k l :
  kv_ok k l -> let '(ok, k') := KVCacheManager.reset_prefix_cache k in kv_ok k' l /\ reset_post k ok k' /\ kv_same k k'.
Proof.
  intros Hk. pose proof Hk as [K HG Hen Hhb]. pose proof K as [I _ Hr Hw].
  unfold KVCacheManager.reset_prefix_cache. fold (kv_pool k) (kv_groups k).
  pose proof (reset_prefix_cache_spec (kv_pool k) l I) as Hsp. destruct (BlockPool.reset_prefix_cache (kv_pool k)) as [ok p'].
  destruct Hsp as (Hok & I' & C & R & H). assert (Hiff : ok = true <-> forall m rid i, m ∈ kv_groups k -> i ∈ blocks_of rid m -> i = 0%nat).
  { rewrite Hok, bool_decide_eq_true, (all_free_iff _ _ I). split.
    - intros Hz m rid i Hm Hi. destruct (decide (i = 0%nat)) as [|H0]; [done|]. exfalso.
      pose proof (all_refs_pos _ m rid i Hm Hi) as Hpos. rewrite <- Hr, Hz in Hpos; [done| |done].
      split; [done|]. rewrite Forall_forall in Hw. by apply (wf_known _ _ (Hw m Hm) rid).
    - intros Hz i [H0 _]. rewrite Hr by done. apply all_refs_zero. intros m rid Hm Hi. by apply H0, (Hz m rid). }
  assert (Hk' : kv_ok (with_coord (with_state p' (kv_groups k) (coord k)) k) l).
  { apply kv_ok_pool; try done. intros j. rewrite H. destruct ok; auto. }
  unfold reset_post. destruct ok; simpl; (split; [|done]); [|done]. by destruct Hk' as [? ? ? ?].
Qed.

(** * Histories *)

(** A configuration of attention groups that [__init__] accepts. *)
Definition attention_config (specs : list KVCacheSpec) (dcp pcp : Z) : Prop :=
  Forall (fun s => attention_spec s /\ 0 < spec_block_size s) specs /\ 1 <= dcp /\ 1 <= pcp /\
  Z.of_nat (length specs) < 2 ^ 32.

Definition empty_group (caching : bool) (dcp pcp i : Z) (s : KVCacheSpec) : manager :=
  mkManager s (if 1 <? dcp * pcp then spec_block_size s * (dcp * pcp) else spec_block_size s) dcp pcp caching i ∅ ∅ ∅ ∅ [].

Lemma make_managers_ok specs caching dcp pcp p : forall i,
  Forall (fun s => attention_spec s /\ 0 < spec_block_size s) specs ->
  make_managers specs caching i dcp pcp p = Ok (imap (fun j s => empty_group caching dcp pcp (i + Z.of_nat j) s) specs, p).
Proof.
  induction specs as [|s specs IH]; intros i Hs; [done|]. apply Forall_cons in Hs as [[Ha Hb] Hs]. cbn [make_managers].
  assert (E : get_manager_for_kv_cache_spec s caching i dcp pcp p = Ok (empty_group caching dcp pcp i s, p)).
  { unfold get_manager_for_kv_cache_spec. by destruct s. }
  rewrite E. cbn [mbind result_bind]. rewrite IH by done. cbn [mbind result_bind]. rewrite imap_cons. f_equal. f_equal. f_equal.
  - by rewrite Z.add_0_r.
  - apply imap_ext. intros j x _. unfold compose. by replace (i + 1 + Z.of_nat j) with (i + Z.of_nat (S j)) by lia.
Qed.

(** No manager holds anything yet. *)
Lemma kv_inv_init p l specs caching dcp pcp :
  pool_inv p l -> (forall i, ref_of p i = 0 /\ hash_of p i = None) ->
  Forall (fun s => attention_spec s /\ 0 < spec_block_size s) specs -> 1 <= dcp -> 1 <= pcp ->
  kv_inv p l (imap (fun j s => empty_group caching dcp pcp (0 + Z.of_nat j) s) specs).
Proof.
  intros I Hz Hs Hd Hp. set (ms := imap _ _).
  assert (Hms : forall m, m ∈ ms -> exists j s, s ∈ specs /\ m = empty_group caching dcp pcp (0 + Z.of_nat j) s).
  { intros m [j Hj]%list_elem_of_lookup_1. unfold ms in Hj. rewrite list_lookup_imap in Hj.
    destruct (specs !! j) as [s|] eqn:Es; [|done]. injection Hj as <-. exists j, s. split; [by eapply list_elem_of_lookup_2|done]. }
  split; [done|by intros _ i; apply Hz| |].
  - intros i _. rewrite (proj1 (Hz i)). symmetry. apply all_refs_zero. intros m rid (j & s & _ & ->)%Hms. by intros ?%elem_of_nil.
  - apply Forall_forall. intros m (j & s & Hin & ->)%Hms. rewrite Forall_forall in Hs. destruct (Hs s Hin) as [_ Hb].
    split; [|intros rid i; by intros ?%elem_of_nil|intros rid; apply NoDup_nil_2|done|].
    + simpl. destruct (Z.ltb_spec 1 (dcp * pcp)); nia.
    + intros rid i. change (blocks_of rid _) with (@nil nat). rewrite drop_nil. by intros ?%elem_of_nil.
Qed.

Lemma groups_init p specs caching dcp pcp hbs :
  hash_block_size p = hbs -> attention_config specs dcp pcp ->
  (caching = true -> Forall (fun s => (if 1 <? dcp * pcp then spec_block_size s * (dcp * pcp) else spec_block_size s) mod hbs = 0) specs) ->
  all_C (fun _ => group_ok caching p) 0 (imap (fun j s => empty_group caching dcp pcp (0 + Z.of_nat j) s) specs).
Proof.
  intros Hh (Hs & Hd & Hp & Hn) Hm. apply all_C_intro. intros j m Hj. rewrite list_lookup_imap in Hj.
  destruct (specs !! j) as [s|] eqn:Es; [|done]. injection Hj as <-. pose proof (list_elem_of_lookup_2 _ _ _ Es) as Hin.
  apply lookup_lt_Some in Es. rewrite Forall_forall in Hs. split; [apply (Hs s Hin)|done|].
  intros Hc. simpl. rewrite Hh. split; [|lia]. specialize (Hm Hc). rewrite Forall_forall in Hm. by apply Hm.
Qed.

Lemma new_manager_ok n specs max_len hbs caching eagle log events use_int dcp pcp mc k :
  attention_config specs dcp pcp -> 0 < hbs ->
  KVCacheManager.new_manager n specs max_len hbs caching eagle log events use_int dcp pcp mc = Ok k ->
  kv_ok k (seq 1 (Z.to_nat n - 1)).
Proof.
  intros Hcf Hhb. pose proof Hcf as (Hs & Hd & Hp & Hn). unfold KVCacheManager.new_manager, get_kv_cache_coordinator.
  destruct (Z.ltb_spec 0 n) as [Hn0|Hn0].
  2:{ unfold BlockPool.init. rewrite (proj2 (Z.ltb_ge _ _) Hn0). discriminate. }
  destruct (init_spec n caching hbs events use_int mc Hn0) as (p & -> & I & Hg & Hc & Hh & Hz). cbn [mbind result_bind].
  rewrite make_managers_ok by done. cbn [mbind result_bind].
  set (ms := imap _ _). assert (K : kv_inv p (seq 1 (Z.to_nat n - 1)) ms) by by apply kv_inv_init.
  assert (Hfin : forall kd, (caching = true -> Forall (fun s => (if 1 <? dcp * pcp then spec_block_size s * (dcp * pcp) else spec_block_size s) mod hbs = 0) specs) ->
    kv_ok (mkKVM max_len caching (if log then Some new_stats else None) (mkCoord p ms eagle kd)) (seq 1 (Z.to_nat n - 1))).
  { intros kd Hm. split; [exact K|by apply (groups_init p specs caching dcp pcp hbs)|done|]. unfold kv_pool. simpl. lia. }
  destruct caching; cbn [negb]; [|intros [= <-]; by apply Hfin].
  destruct specs as [|s [|s2 specs]].
  - unfold HybridKVCacheCoordinator.verify_and_split_kv_cache_groups. cbn. destruct (dcp =? 1); [|done]. by destruct (pcp =? 1).
  - cbv zeta. set (bs := if 1 <? pcp then _ else _). destruct (Z.eqb_spec hbs bs) as [E|]; [|done]. cbn [py_assert mbind result_bind].
    intros [= <-]. apply Hfin. intros _. apply Forall_singleton. rewrite E. unfold bs.
    replace (if 1 <? dcp * pcp then spec_block_size s * (dcp * pcp) else spec_block_size s) with bs; [apply Z_mod_same_full|].
    unfold bs. destruct (Z.ltb_spec 1 dcp), (Z.ltb_spec 1 pcp), (Z.ltb_spec 1 (dcp * pcp)); nia.
  - destruct (forallb _ _) eqn:Ef; [|done]. cbn [py_assert mbind result_bind]. destruct (Z.eqb_spec dcp 1) as [->|]; [|done].
    cbn [py_assert mbind result_bind]. destruct (Z.eqb_spec pcp 1) as [->|]; [|done]. cbn [py_assert mbind result_bind].
    destruct (HybridKVCacheCoordinator.verify_and_split_kv_cache_groups _) as [[groups lcm]|]; [|done]. cbn [mbind result_bind].
    intros [= <-]. apply Hfin. intros _. apply Forall_forall. intros x Hx. simpl.
    rewrite forallb_forall in Ef. apply Z.eqb_eq, Ef. by apply list_elem_of_In.
Qed.

Lemma kv_remove_ok k l rid t :
  kv_ok k l -> exists k' l', KVCacheManager.remove_skipped_blocks rid t k = Ok k' /\ kv_ok k' l'.
Proof.
  intros [K HG Hen Hhb].
  destruct (remove_stage rid t (kv_pool k) l (kv_groups k) K) as (us & p' & ms' & l' & E & K' & _ & HR & C & _).
  { eapply all_C_impl; [|exact HG]. by intros j m [? _ _]. }
  unfold KVCacheManager.remove_skipped_blocks, KVCacheCoordinator.remove_skipped_blocks, each_co. fold (kv_pool k) (kv_groups k).
  rewrite E. cbn [mbind result_bind]. eexists _, l'. split; [done|]. apply kv_ok_with; try done.
  eapply group_ok_rel; [exact HR|by intros ???? [? _ _ _ _ _]|done|done].
Qed.

Lemma kv_evict_ok k l ids :
  kv_ok k l -> (forall i, i ∈ ids -> Z.of_nat i < num_gpu_blocks (kv_pool k)) ->
  exists k', KVCacheManager.evict_blocks (Z.of_nat <$> ids) k = Ok k' /\ kv_ok k' l.
Proof.
  intros Hk Hids. pose proof Hk as [[I _ _ _] _ _ _].
  destruct (evict_blocks_spec (kv_pool k) l ids I Hids) as (p' & E & I' & C & R & H).
  unfold KVCacheManager.evict_blocks. fold (kv_pool k) (kv_groups k). rewrite E. cbn [mbind result_bind]. eexists. split; [done|].
  apply kv_ok_pool; try done. intros j. rewrite H. destruct (decide (j ∈ ids)); auto.
Qed.

Lemma kv_cache_ok k l r n :
  kv_ok k l -> 0 <= n ->
  (kv_caching k = true -> all_C (fun _ m => cacheable (kv_pool k) m r n) 0 (kv_groups k)) ->
  exists k' l', KVCacheManager.cache_blocks r n k = Ok k' /\ kv_ok k' l'.
Proof.
  intros Hk Hn Hca. pose proof Hk as [K HG Hen Hhb]. unfold KVCacheManager.cache_blocks. destruct (kv_caching k) eqn:Ec; [|by eauto].
  destruct (cache_stage r n (kv_pool k) l (kv_groups k) K) as (us & p' & ms' & l' & E & K' & HR & C); [|done|].
  { eapply all_C_impl; [|exact (all_C_and _ _ _ _ HG (Hca eq_refl))]. by intros j m [[? _ _] ?]. }
  unfold KVCacheCoordinator.cache_blocks, each_co. fold (kv_pool k) (kv_groups k). rewrite E. cbn [mbind result_bind].
  eexists _, l'. split; [done|]. apply kv_ok_with; rewrite ?Ec; try done.
  eapply group_ok_rel; [exact HR|by intros ???? [? _ _]|done|done].
Qed.

(** The calls of the scheduler. *)
Inductive kv_call :=
| CallAllocate (r : Request) (num_new_tokens nnc : Z) (ncb : option KVCacheBlocks) (lookahead ne : Z) (delay : bool)
    (enc : Z) (start : bool)
| CallFree (r : Request)
| CallRemove (rid : string) (t : Z)
| CallEvict (ids : list nat)
| CallCache (r : Request) (n : Z)
| CallReset.

Definition run_kv (c : kv_call) (k : kv_manager) : result kv_manager :=
  match c with
  | CallAllocate r new nnc ncb look ne delay enc _ =>
      '(_, k) ← KVCacheManager.allocate_slots r new nnc ncb look ne delay enc k; Ok k
  | CallFree r => KVCacheManager.free r k
  | CallRemove rid t => KVCacheManager.remove_skipped_blocks rid t k
  | CallEvict ids => KVCacheManager.evict_blocks (Z.of_nat <$> ids) k
  | CallCache r n => KVCacheManager.cache_blocks r n k
  | CallReset => Ok (snd (KVCacheManager.reset_prefix_cache k))
  end.

Definition kv_pre (c : kv_call) (k : kv_manager) : Prop :=
  match c with
  | CallAllocate r new nnc ncb look ne _ _ start => slots_call k r new nnc ncb look ne start
  | CallFree _ | CallRemove _ _ | CallReset => True
  | CallEvict ids => forall i, i ∈ ids -> Z.of_nat i < num_gpu_blocks (kv_pool k)
  | CallCache r n => 0 <= n /\ (kv_caching k = true -> all_C (fun _ m => cacheable (kv_pool k) m r n) 0 (kv_groups k))
  end.

Inductive kv_history : kv_manager -> Prop :=
| kv_new n specs max_len hbs caching eagle log events use_int dcp pcp mc k :
    attention_config specs dcp pcp -> 0 < hbs ->
    KVCacheManager.new_manager n specs max_len hbs caching eagle log events use_int dcp pcp mc = Ok k -> kv_history k
| kv_next k c k' : kv_history k -> kv_pre c k -> run_kv c k = Ok k' -> kv_history k'.

Lemma run_kv_ok c k l : kv_ok k l -> kv_pre c k -> exists k' l', run_kv c k = Ok k' /\ kv_ok k' l'.
Proof.
  intros K Hpre. destruct c; simpl in *.
  - destruct (allocate_slots_ok k l r num_new_tokens nnc ncb lookahead ne delay enc start K Hpre) as (res & k' & l' & -> & K' & _).
    cbn [mbind result_bind]. eauto.
  - destruct (kv_free_ok k l r K) as (k' & l' & _ & ? & ? & _). eauto.
  - by apply (kv_remove_ok k l).
  - destruct (kv_evict_ok k l ids K Hpre) as (k' & ? & ?). eauto.
  - destruct Hpre. by apply (kv_cache_ok k l).
  - pose proof (kv_reset_ok k l K) as H. destruct (KVCacheManager.reset_prefix_cache k) as [ok k']. destruct H as [? _]. eauto.
Qed.

Lemma kv_history_ok k : kv_history k -> exists l, kv_ok k l.
Proof.
  induction 1 as [n specs max_len hbs caching eagle log events use_int dcp pcp mc k Hcf Hhb E|k c k' _ [l IH] Hpre E].
  - eexists. by eapply new_manager_ok.
  - destruct (run_kv_ok c k l IH Hpre) as (k2 & l' & E2 & K2). rewrite E2 in E. injection E as <-. eauto.
Qed.

(** C5: the KV-cache manager is safe to drive: after any history of admissible
    calls on a freshly constructed manager with attention groups, the next
    admissible call returns without an exception and leaves the ownership
    invariant: every real block has exactly one reference per list entry over
    all requests and groups, the free queue holds exactly the unreferenced
    blocks, no list has a real block twice, and blocks not yet cached are private
    and unhashed. *)
Theorem kv_calls_safe k c :
  kv_history k -> kv_pre c k -> exists k' l', run_kv c k = Ok k' /\ kv_ok k' l'.
Proof. intros [l K]%kv_history_ok. by apply (run_kv_ok c k l). Qed.

(** C4: [KVCacheManager.allocate_slots], for the calls the scheduler makes in any
    reachable state: it returns without an exception; it returns [None] only
    when the groups together need more blocks than are free, and then only
    skipped blocks have been released; otherwise every group ends with at least
    [cdiv(need, block_size)] blocks for the request, with all prefix-cache hits
    and all previous blocks inside the attention window at their positions, the
    returned new blocks at the end, and the lists of all other requests
    unchanged. *)
Theorem allocate_slots_correct k r num_new_tokens nnc ncb lookahead ne delay enc start :
  kv_history k -> slots_call k r num_new_tokens nnc ncb lookahead ne start ->
  exists res k', KVCacheManager.allocate_slots r num_new_tokens nnc ncb lookahead ne delay enc k = Ok (res, k') /\
    slots_post k r num_new_tokens nnc ncb lookahead ne res k'.
Proof.
  intros [l K]%kv_history_ok Hc. destruct (allocate_slots_ok k l r num_new_tokens nnc ncb lookahead ne delay enc start K Hc)
    as (res & k' & l' & E & _ & Hp & _). eauto.
Qed.

(** C36: In any reachable state [KVCacheManager.free] returns, removes every trace
    of the request from every group and keeps all other lists; and
    [reset_prefix_cache] succeeds exactly when no request holds a real block in
    any group -- so freeing all requests leaks nothing -- after which no block
    carries a hash and every lookup misses, and otherwise changes nothing. *)
Theorem free_and_reset_correct k r :
  kv_history k ->
  (exists k' us, KVCacheManager.free r k = Ok k' /\
     each_rel (fun _ m (_ : unit) m' => forgotten (request_id r) m m') 0 (kv_groups k) us (kv_groups k')) /\
  let '(ok, k') := KVCacheManager.reset_prefix_cache k in reset_post k ok k'.
Proof.
  intros [l K]%kv_history_ok. split.
  - destruct (kv_free_ok k l r K) as (k' & l' & us & E & _ & _ & HR & _). eauto.
  - pose proof (kv_reset_ok k l K) as H. destruct (KVCacheManager.reset_prefix_cache k). by destruct H as (_ & ? & _).
Qed.
