(* ===== verification/PrefixHits.v ===== *)
(** Prefix-cache hits: what the [find_longest_cache_hit] methods of
    [SingleType] and [KVManager] return.

    A hash list is viewed as the list of its hashes at the granularity of the
    group ([hl_view]); block [k] is [cached] when every group has a block for
    hash [k].  Full attention takes the longest cached prefix, sliding-window
    attention the longest prefix whose last window is cached; the hybrid
    coordinator iterates the two to a common length. *)
From S2P Require Import Prelude FreeQueue Request BlockHash BlockPool SingleType SingleTypeFacts KVManager.
Import BlockPool.BlockPool PoolFacts.
Local Open Scope Z_scope.

(** * Hash lists *)
Definition hl_view (hl : hash_list) : list bytes :=
  match hl with
  | HList hs => hs
  | HScaled hs scale => (fun i => concat (HashListFacts.group hs scale i)) <$> py_range 0 (BlockHashListWithBlockSize.len hs scale)
  end.
Definition hl_ok (hl : hash_list) : Prop := match hl with HList _ => True | HScaled _ scale => 0 < scale end.

Lemma hl_len_view hl : hl_ok hl -> hl_len hl = py_len (hl_view hl).
Proof.
  destruct hl as [hs|hs scale]; simpl; [done|]. intros Hs. unfold py_len, py_range. rewrite length_fmap, length_seqZ.
  unfold BlockHashListWithBlockSize.len. pose proof (Z.div_pos (py_len hs) scale). unfold py_len in *. lia.
Qed.

Lemma hl_get_view hl i : hl_ok hl -> (i < length (hl_view hl))%nat ->
  exists h, hl_view hl !! i = Some h /\ hl_get hl (Z.of_nat i) = Ok h.
Proof.
  intros Hok Hi. destruct (lookup_lt_is_Some_2 _ _ Hi) as [h Hh]. exists h. split; [done|].
  pose proof (hl_len_view hl Hok) as Hl. destruct hl as [hs|hs scale]; simpl in *.
  - rewrite py_index_nonneg by lia. rewrite Nat2Z.id, Hh. done.
  - rewrite list_lookup_fmap in Hh. unfold py_len in Hl.
    rewrite (proj2 (HashListFacts.coarse_hashes_ok hs scale 0 Hok ltac:(lia))) by lia.
    destruct (py_range _ _ !! i) as [j|] eqn:Ej; [|done]. simpl in Hh. unfold py_range in Ej.
    apply lookup_seqZ in Ej as [-> _]. injection Hh as <-. by rewrite Z.add_0_l.
Qed.

(** * Lookups *)
Section Hits.
Context (p : pool) (l : list nat) (I : pool_inv p l).
Context (hl : hash_list) (Hhl : hl_ok hl).
Context (gs : list Z) (Hgs : gs <> []) (Hrange : forall g, g ∈ gs -> 0 <= g < 2 ^ 32).

(** Block [b] is the cached block [k] of group [g]. *)
Definition key_block (k : nat) (g : Z) (b : nat) : Prop :=
  exists h, hl_view hl !! k = Some h /\ hash_of p b = Some (h ++ be_bytes 4 g).

(** All groups have block [k]. *)
Definition cached (k : nat) : Prop := forall g, g ∈ gs -> exists b, key_block k g b.

Lemma cached_at_spec k h :
  hl_view hl !! k = Some h ->
  exists o, cached_blocks_at p h gs = Ok o /\
    match o with Some ids => cached k /\ Forall2 (key_block k) gs ids | None => ~ cached k end.
Proof.
  intros Hk. unfold cached_blocks_at, get_cached_block.
  destruct (get_cached_loop_spec p l h gs [] (proj1 I) Hrange) as (o & -> & Ho). cbn [mbind result_bind].
  destruct o as [ids|].
  - destruct Ho as (ids' & -> & HF). rewrite app_nil_l.
    assert (HF' : Forall2 (key_block k) gs ids') by (eapply Forall2_impl; [exact HF|]; intros g b Hb; by exists h).
    destruct ids' as [|i ids]; [apply Forall2_nil_inv_r in HF; congruence|].
    eexists. split; [done|]. split; [|done]. intros g Hg.
    destruct (list_elem_of_lookup_1 _ _ Hg) as [q Hq]. destruct (Forall2_lookup_l _ _ _ _ _ HF' Hq) as (b & _ & Hb). by exists b.
  - eexists. split; [done|]. destruct Ho as (g & Hg & Hno). intros Hc. destruct (Hc g Hg) as (b & h' & Hk' & Hb).
    rewrite Hk in Hk'. injection Hk' as <-. by apply (Hno b).
Qed.

(** The lists of the groups hold the cached blocks [0 .. n-1]. *)
Definition rows (n : nat) (computed : list (list nat)) : Prop :=
  Forall2 (fun g bl => length bl = n /\ forall k b, bl !! k = Some b -> key_block k g b) gs computed.

Lemma rows_nil : rows 0 (replicate (length gs) []).
Proof.
  apply Forall2_same_length_lookup_2; [by rewrite length_replicate|].
  intros i g bl _ Hb. apply lookup_replicate in Hb as [-> _]. done.
Qed.

Lemma rows_append n computed ids : rows n computed -> Forall2 (key_block n) gs ids -> rows (S n) (append_each computed ids).
Proof.
  clear Hgs Hrange. intros HR. revert ids. unfold rows, append_each in *. induction HR as [|g bl gs' computed [Hl Hk] _ IH]; intros ids Hi.
  - constructor.
  - apply Forall2_cons_inv_l in Hi as (i & ids' & Hki & Hi & ->). simpl. constructor; [|by apply IH]. split; [rewrite length_app; simpl; lia|].
    intros k b [Hb|[Hge Hb]]%lookup_app_Some; [by apply Hk|]. apply list_lookup_singleton_Some in Hb as [? <-].
    by replace k with n by lia.
Qed.

Lemma rows_pop n computed : rows n computed -> rows (n - 1) (pop_each computed).
Proof.
  unfold rows, pop_each. intros HR. apply Forall2_fmap_r. eapply Forall2_impl; [exact HR|].
  intros g bl [Hl Hk]. split; [rewrite length_take; lia|]. intros k b [Hb _]%lookup_take_Some. by apply Hk.
Qed.

Lemma rows_head n computed : rows n computed -> exists first, head computed = Some first /\ length first = n.
Proof. intros HR. destruct HR as [|g bl gs' computed [Hl _] _]; [done|]. by exists bl. Qed.

(** ** Full attention *)
Lemma full_scan_ok hs : forall n computed,
  (forall j h, hs !! j = Some h -> hl_view hl !! (n + j)%nat = Some h) -> rows n computed ->
  (forall k, (k < n)%nat -> cached k) ->
  exists m computed', FullAttentionManager.scan p gs hs computed = Ok computed' /\ rows m computed' /\
    (n <= m <= n + length hs)%nat /\ (forall k, (k < m)%nat -> cached k) /\ ((m < n + length hs)%nat -> ~ cached m).
Proof.
  induction hs as [|h hs IH]; intros n computed Hv HR Hc; simpl.
  { exists n, computed. split_and!; try done; lia. }
  pose proof (Hv 0%nat h eq_refl) as H0. rewrite Nat.add_0_r in H0.
  destruct (cached_at_spec n h H0) as (o & -> & Ho). cbn [mbind result_bind]. destruct o as [ids|].
  - destruct Ho as [Hcn Hids]. destruct (IH (S n) (append_each computed ids)) as (m & c' & E & HR' & Hm & Hcm & Hno).
    + intros j h' Hj. replace (S n + j)%nat with (n + S j)%nat by lia. by apply Hv.
    + by apply rows_append.
    + intros k Hk. destruct (decide (k = n)) as [->|]; [done|]. apply Hc. lia.
    + exists m, c'. split_and!; try done; try lia. intros. apply Hno. lia.
  - exists n, computed. split_and!; try done; lia.
Qed.

(** The number of blocks is right for the alignment. *)
Definition aligned (bs alignment : Z) (n : nat) : Prop := bs = alignment \/ Z.of_nat n * bs mod alignment = 0.

Lemma align_blocks_ok bs alignment n computed :
  rows n computed ->
  exists m, (m <= n)%nat /\ rows m (align_blocks bs alignment computed) /\ aligned bs alignment m /\
    (forall k, (m < k <= n)%nat -> ~ aligned bs alignment k).
Proof.
  intros HR. destruct (rows_head n computed HR) as (first & Hh & Hl). unfold align_blocks. rewrite Hh. simpl default. rewrite Hl.
  clear first Hh Hl. revert computed HR. induction n as [|n IH]; intros computed HR;
    destruct (rows_head _ computed HR) as (first & Hh & Hl); cbn [align_loop]; rewrite Hh; simpl default; unfold py_len; rewrite Hl.
  - replace (Z.of_nat 0 * bs mod alignment =? 0) with true by (by rewrite Z.mul_0_l, Zmod_0_l).
    rewrite andb_false_r. exists 0%nat. split_and!; try done; [right|lia]. by rewrite Z.mul_0_l, Zmod_0_l.
  - destruct (negb (bs =? alignment) && _) eqn:E.
    + apply andb_true_iff in E as [E1 E2]. apply negb_true_iff, Z.eqb_neq in E1, E2.
      pose proof (rows_pop _ _ HR) as HR1. rewrite Nat.sub_1_r in HR1. simpl in HR1.
      destruct (IH _ HR1) as (m & Hm & HRm & Ha & Hno). exists m. split_and!; [lia|done|done|].
      intros k Hk. destruct (decide (k = S n)) as [->|]; [|apply Hno; lia]. intros [?|?]; done.
    + exists (S n). split_and!; [lia|done| |lia]. apply andb_false_iff in E as [E|E]; apply negb_false_iff, Z.eqb_eq in E; [by left|by right].
Qed.

(** [m0] is the longest cached prefix within [limit] blocks; of it, without the
    last block for EAGLE, the longest aligned part is taken. *)
Record full_hit (bs alignment : Z) (eagle : bool) (limit m0 m : nat) : Prop := {
  fh_limit : (m0 <= limit)%nat;
  fh_cached : forall k, (k < m0)%nat -> cached k;
  fh_longest : (m0 < limit)%nat -> ~ cached m0;
  fh_le : (m <= m0 - (if eagle then 1 else 0))%nat;
  fh_aligned : aligned bs alignment m;
  fh_max : forall k, (m < k <= m0 - (if eagle then 1 else 0))%nat -> ~ aligned bs alignment k;
}.

Lemma hl_first_view n : 0 <= n -> hl_first hl n = Ok (take (Z.to_nat n) (hl_view hl)).
Proof.
  intros Hn. unfold hl_first. rewrite (proj2 (Z.ltb_ge n 0)) by done. rewrite (hl_len_view hl Hhl).
  rewrite (mapR_pure _ (fun i => default [] (hl_view hl !! Z.to_nat i))).
  - f_equal. apply list_eq. intros i. rewrite list_lookup_fmap. unfold py_range, py_len.
    destruct (decide (i < Z.to_nat n)%nat) as [H1|H1]; [destruct (decide (i < length (hl_view hl))%nat) as [H2|H2]|].
    + rewrite lookup_take_lt by done. rewrite lookup_seqZ_lt by lia. simpl. rewrite Z.add_0_l, Nat2Z.id.
      destruct (lookup_lt_is_Some_2 _ _ H2) as [h ->]. done.
    + rewrite lookup_seqZ_ge by lia. simpl. symmetry. apply lookup_ge_None. rewrite length_take. lia.
    + rewrite lookup_seqZ_ge by lia. simpl. symmetry. apply lookup_ge_None. rewrite length_take. lia.
  - intros i Hi. unfold py_range in Hi. apply elem_of_seqZ in Hi. unfold py_len in Hi.
    destruct (hl_get_view hl (Z.to_nat i) Hhl) as (h & Hv & Hg); [lia|]. rewrite Z2Nat.id in Hg by lia. by rewrite Hg, Hv.
Qed.

Lemma full_hit_ok spec max_length eagle alignment dcp pcp :
  let bs := if 1 <? dcp * pcp then spec_block_size spec * (dcp * pcp) else spec_block_size spec in
  0 < bs -> 0 <= max_length ->
  exists m0 m computed,
    FullAttentionManager.find_longest_cache_hit hl max_length gs p spec eagle alignment dcp pcp = Ok computed /\
    rows m computed /\
    full_hit bs alignment eagle (Nat.min (Z.to_nat (max_length / bs)) (length (hl_view hl))) m0 m.
Proof.
  intros bs Hbs Hmax. unfold FullAttentionManager.find_longest_cache_hit. cbv zeta. fold bs.
  rewrite hl_first_view by (by apply Z.div_pos). cbn [mbind result_bind]. set (hs := take _ _).
  assert (Hlen : length hs = Nat.min (Z.to_nat (max_length / bs)) (length (hl_view hl))) by (unfold hs; by rewrite length_take).
  destruct (full_scan_ok hs 0 (replicate (length gs) [])) as (m0 & c0 & -> & HR0 & Hm0 & Hc0 & Hno).
  { intros j h Hj. simpl. unfold hs in Hj. by apply lookup_take_Some in Hj as [? _]. }
  { apply rows_nil. }
  { intros k Hk. lia. }
  cbn [mbind result_bind]. destruct (rows_head m0 c0 HR0) as (first & Hh & Hl). rewrite Hh. cbn [of_option].
  assert (HR1 : rows (m0 - (if eagle then 1 else 0)) (if eagle && (0 <? py_len first) then pop_each c0 else c0)).
  { destruct eagle; simpl; [|by rewrite Nat.sub_0_r]. unfold py_len. rewrite Hl. destruct (Z.ltb_spec 0 (Z.of_nat m0)); [by apply rows_pop|].
    by replace (m0 - 1)%nat with m0 by lia. }
  assert (Hf : (if eagle || negb (bs =? alignment) then Ok first else Ok []) = Ok (if eagle || negb (bs =? alignment) then first else []))
    by by destruct (eagle || negb (bs =? alignment)).
  destruct (align_blocks_ok bs alignment _ _ HR1) as (m & Hm & HRm & Ha & Hmx).
  exists m0, m, (align_blocks bs alignment (if eagle && (0 <? py_len first) then pop_each c0 else c0)).
  split; [|split; [done|split; try done; [lia|intros; apply Hno; lia]]].
  rewrite Hf. cbn [mbind result_bind]. destruct eagle; done.
Qed.

(** ** Sliding window *)

(** The last [need] blocks of the first [m] are cached. *)
Definition good (need m : nat) : Prop := forall k, (k < m <= k + need)%nat -> cached k.

(** The lists of length [n] hold the cached blocks [lo .. hi-1]. *)
Definition window_rows (n lo hi : nat) (computed : list (list nat)) : Prop :=
  Forall2 (fun g bl => length bl = n /\ forall k b, (lo <= k < hi)%nat -> bl !! k = Some b -> key_block k g b) gs computed.

Lemma window_rows_set n hi i computed ids :
  (i < n)%nat -> window_rows n (S i) hi computed -> Forall2 (key_block i) gs ids ->
  window_rows n i (Nat.max hi (S i)) (zip_with (fun c b => <[i := b]> c) computed ids).
Proof.
  clear Hgs Hrange. intros Hi HR. revert ids. unfold window_rows in *.
  induction HR as [|g bl gs' computed [Hl Hk] _ IH]; intros ids Hids; [constructor|].
  apply Forall2_cons_inv_l in Hids as (b & ids' & Hb & Hids & ->). simpl. constructor; [|by apply IH].
  split; [by rewrite length_insert|]. intros k b' Hlt. destruct (decide (k = i)) as [->|Hne].
  - rewrite list_lookup_insert_eq by lia. by intros [= <-].
  - rewrite list_lookup_insert_ne by done. intros Hb'. apply Hk; [|done]. lia.
Qed.

Lemma window_rows_take n m lo computed :
  (m <= n)%nat -> window_rows n lo m computed ->
  window_rows m lo m ((fun c => py_slice c 0 (Z.of_nat m)) <$> computed).
Proof.
  intros Hm HR. unfold window_rows in *. apply Forall2_fmap_r.
  eapply Forall2_impl; [exact HR|]. intros g bl [Hl Hk]. unfold compose. rewrite py_slice_nonneg by lia. simpl. rewrite drop_0.
  split; [rewrite length_take; lia|]. intros k b Hlt [Hb _]%lookup_take_Some. apply Hk; [lia|done].
Qed.

Lemma window_rows_empty n lo hi x computed : window_rows n lo hi computed -> window_rows n x x computed.
Proof. intros HR. eapply Forall2_impl; [exact HR|]. intros g bl [Hl Hk]. split; [done|]. intros k b Hlt. lia. Qed.

(** What the scan leaves: [m] blocks, the last [need] of them (or all) cached,
    and no longer aligned choice. *)
Record window_hit (bs alignment : Z) (limit need m : nat) : Prop := {
  wh_limit : (m <= limit)%nat;
  wh_good : good need m;
  wh_aligned : aligned bs alignment m;
  wh_longest : forall k, (m < k <= limit)%nat -> aligned bs alignment k -> ~ good need k;
}.

Lemma window_scan_ok bs alignment limit need n : forall computed run,
  (0 < need)%nat -> (limit <= length (hl_view hl))%nat -> (n + run <= limit)%nat -> (run < need)%nat ->
  window_rows limit n (n + run) computed -> (forall k, (n <= k < n + run)%nat -> cached k) ->
  ((0 < run)%nat -> aligned bs alignment (n + run)) ->
  (forall k, (n + run < k <= limit)%nat -> aligned bs alignment k -> ~ good need k) ->
  exists computed' r found m,
    SlidingWindowManager.scan p hl gs bs alignment (Z.of_nat need) n computed (Z.of_nat run)
      = Ok (computed', Z.of_nat r, found) /\ window_hit bs alignment limit need m /\
    if found : bool then window_rows m (m - need) m computed' else m = r /\ window_rows limit 0 m computed'.
Proof.
  induction n as [|i IH]; intros computed run Hneed Hlim Hle Hrun HR Hc Hal Hno; cbn [SlidingWindowManager.scan].
  { exists computed, run, false, run. split; [done|]. split; [|done]. split; [lia| | |done].
    - intros k Hk. apply Hc. lia.
    - destruct run; [by right|]. apply Hal. lia. }
  destruct (hl_get_view hl i Hhl) as (h & Hv & ->); [lia|]. cbn [mbind result_bind].
  destruct (cached_at_spec i h Hv) as (o & -> & Ho). cbn [mbind result_bind]. destruct o as [ids|].
  2:{ apply (IH computed 0%nat Hneed Hlim ltac:(lia) Hneed).
      - rewrite Nat.add_0_r. by eapply window_rows_empty.
      - intros k Hk. lia.
      - lia.
      - intros k Hk Ha Hg. destruct (decide (S i + run < k)%nat); [by apply (Hno k); [lia|..]|]. apply Ho, Hg. lia. }
  destruct Ho as [Hci Hids].
  destruct ((Z.of_nat run =? 0) && negb (bs =? alignment) && negb ((Z.of_nat i + 1) * bs mod alignment =? 0)) eqn:Eskip.
  - apply andb_true_iff in Eskip as [[E1 E2]%andb_true_iff E3]. apply Z.eqb_eq in E1. apply negb_true_iff, Z.eqb_neq in E2, E3.
    assert (run = 0%nat) as -> by lia. apply (IH computed 0%nat Hneed Hlim ltac:(lia) Hneed).
    + rewrite Nat.add_0_r. by eapply window_rows_empty.
    + intros k Hk. lia.
    + lia.
    + intros k Hk Ha Hg. destruct (decide (k = S i)) as [->|]; [|by apply (Hno k); [lia|..]].
      destruct Ha as [?|Ha]; [done|]. rewrite Nat2Z.inj_succ in Ha. unfold Z.succ in Ha. done.
  - pose proof (window_rows_set limit (S i + run) i computed ids ltac:(lia) HR Hids) as HR'.
    rewrite Nat.max_l in HR' by lia. set (c' := zip_with _ _ _) in *.
    assert (Hc' : forall k, (i <= k < S i + run)%nat -> cached k).
    { intros k Hk. destruct (decide (k = i)) as [->|]; [done|]. apply Hc. lia. }
    assert (Hal' : aligned bs alignment (S i + run)).
    { destruct run as [|run]; [|apply Hal; lia]. rewrite Nat.add_0_r. change (Z.of_nat 0 =? 0) with true in Eskip. cbn [andb] in Eskip.
      apply andb_false_iff in Eskip as [E|E]; apply negb_false_iff, Z.eqb_eq in E; [by left|right].
      by rewrite Nat2Z.inj_succ. }
    replace (Z.of_nat run + 1) with (Z.of_nat (S run)) by lia. destruct (Z.leb_spec (Z.of_nat need) (Z.of_nat (S run))) as [Hge|Hlt].
    + exists ((fun c => py_slice c 0 (Z.of_nat (S i + run))) <$> c'), (S run), true, (S i + run)%nat.
      split; [by replace (Z.of_nat i + Z.of_nat (S run)) with (Z.of_nat (S i + run)) by lia|]. split.
      * split; [lia| |done|done]. intros k Hk. apply Hc'. lia.
      * replace (S i + run - need)%nat with i by lia. apply (window_rows_take limit); [lia|done].
    + apply (IH c' (S run) Hneed Hlim ltac:(lia) ltac:(lia)); replace (i + S run)%nat with (S i + run)%nat by lia; done.
Qed.

Lemma window_rows_head n lo hi computed :
  window_rows n lo hi computed -> exists first, head computed = Some first /\ length first = n.
Proof. intros HR. destruct HR as [|g bl gs' computed [Hl _] _]; [done|]. by exists bl. Qed.

Lemma window_rows_pop n lo computed : window_rows n lo n computed -> window_rows (n - 1) lo (n - 1) (pop_each computed).
Proof.
  unfold window_rows, pop_each. intros HR. apply Forall2_fmap_r. eapply Forall2_impl; [exact HR|].
  intros g bl [Hl Hk]. unfold compose. split; [rewrite length_take; lia|].
  intros k b Hlt [Hb _]%lookup_take_Some. apply Hk; [lia|done].
Qed.

Lemma align_blocks_id bs alignment computed first :
  head computed = Some first -> aligned bs alignment (length first) -> align_blocks bs alignment computed = computed.
Proof.
  intros Hh Ha. unfold align_blocks. rewrite Hh. cbn [align_loop]. rewrite Hh. simpl default. unfold py_len.
  destruct Ha as [->|Ha]; [by rewrite Z.eqb_refl|]. by rewrite Ha, andb_false_r.
Qed.

Lemma window_rows_null n : window_rows n n n (replicate (length gs) (replicate n (null_block p))).
Proof.
  apply Forall2_same_length_lookup_2; [by rewrite length_replicate|].
  intros i g bl _ Hb. apply lookup_replicate in Hb as [-> _]. split; [by rewrite length_replicate|]. intros. lia.
Qed.

Lemma sliding_hit_ok bs window max_length eagle alignment :
  let limit := Z.to_nat (max_length / bs) in
  let e := (if eagle : bool then 1 else 0)%nat in
  let need := (Z.to_nat (cdiv (window - 1) bs) + e)%nat in
  0 < bs -> 0 <= max_length -> (limit <= length (hl_view hl))%nat -> 0 < window -> (0 < need)%nat ->
  (eagle = true -> bs = alignment) ->
  exists m computed,
    SlidingWindowManager.find_longest_cache_hit hl max_length gs p bs window eagle alignment 1 1 = Ok computed /\
    window_hit bs alignment limit need m /\ window_rows (m - e) (m - need) (m - e) computed.
Proof.
  intros limit e need Hbs Hmax Hlim Hw Hneed Heagle. unfold SlidingWindowManager.find_longest_cache_hit.
  change (1 =? 1) with true. cbn [py_assert mbind result_bind]. fold limit.
  replace (cdiv (window - 1) bs + (if eagle then 1 else 0)) with (Z.of_nat need)
    by (pose proof (cdiv_nonneg (window - 1) bs Hbs ltac:(lia)); unfold need, e; destruct eagle; lia).
  destruct (window_scan_ok bs alignment limit need limit (replicate (length gs) (replicate limit (null_block p))) 0%nat)
    as (c1 & r & found & m & E & Hhit & Hrows); try done; try lia.
  { rewrite Nat.add_0_r. apply window_rows_null. }
  change (Z.of_nat 0) with 0 in E. rewrite E. cbn [mbind result_bind].
  assert (H2 : window_rows m (m - need) m (if found then c1 else align_blocks bs alignment ((fun c => py_slice c 0 (Z.of_nat r)) <$> c1))).
  { destruct found; [done|]. destruct Hrows as [-> Hrows]. pose proof (wh_limit _ _ _ _ _ Hhit) as Hml.
    pose proof (window_rows_take limit r 0 c1 Hml Hrows) as Ht. destruct (window_rows_head _ _ _ _ Ht) as (first & Hh & Hl).
    rewrite (align_blocks_id bs alignment _ first Hh); [|rewrite Hl; apply (wh_aligned _ _ _ _ _ Hhit)].
    eapply Forall2_impl; [exact Ht|]. intros g bl [? Hk]. split; [done|]. intros k b Hlt. apply Hk. lia. }
  set (c2 := if found then c1 else _) in *. destruct (window_rows_head _ _ _ _ H2) as (first & Hh & Hl). rewrite Hh. cbn [of_option].
  assert (Hf : exists x, (if eagle || negb found && negb (bs =? alignment) then Ok first else Ok []) = Ok x /\ (eagle = true -> x = first)).
  { destruct eagle; simpl; [by eexists|]. destruct (negb found && _); by eexists. }
  destruct Hf as (x & -> & Hx). cbn [mbind result_bind]. unfold e. destruct eagle; cbn [andb].
  - rewrite Hx by done. unfold py_len. rewrite Hl. destruct (Z.ltb_spec 0 (Z.of_nat m)) as [Hpos|Hz].
    + rewrite (proj2 (Z.eqb_eq _ _) (Heagle eq_refl)). cbn [py_assert mbind result_bind]. eexists m, _. split; [done|]. split; [done|].
      pose proof (window_rows_pop _ _ _ H2). done.
    + exists m, c2. split; [done|]. split; [done|]. replace (m - 1)%nat with m by lia. done.
  - exists m, c2. split; [done|]. split; [done|]. by rewrite Nat.sub_0_r.
Qed.
End Hits.

(** * The hybrid coordinator *)
Module HybridHits.
Import HybridKVCacheCoordinator.

Section Hybrid.
Context (p : pool) (l : list nat) (I : pool_inv p l).
Context (hash_bs : Z) (block_hashes : list bytes) (Hhash : 0 < hash_bs).
Context (eagle : bool) (lcm : Z) (num_groups : nat) (max_length : Z).
Context (Hlcm : 0 < lcm) (Hmax : 0 <= max_length).
Context (Hmany : Z.of_nat num_groups < 2 ^ 32).
(** Every full block of the request below [max_length] has its hash. *)
Context (Hashed : max_length / hash_bs <= py_len block_hashes).

(** The hashes a group looks up. *)
Definition hashes_of (spec : KVCacheSpec) : hash_list :=
  if spec_block_size spec =? hash_bs then HList block_hashes
  else HScaled block_hashes (spec_block_size spec / hash_bs).

(** Block sizes, and the ids of the managers of a group. *)
Record group_fits (g : KVCacheSpec * list nat) : Prop := {
  gf_size : 0 < spec_block_size (fst g) /\ spec_block_size (fst g) mod hash_bs = 0 /\ lcm mod spec_block_size (fst g) = 0;
  gf_ids : snd g <> [] /\ NoDup (snd g) /\ forall i, i ∈ snd g -> (i < num_groups)%nat;
}.
Definition is_sliding (spec : KVCacheSpec) : Prop :=
  match spec with SlidingWindowSpec bs w => 1 < w /\ (eagle = true -> bs = lcm) | _ => False end.

Lemma hashes_of_ok g : group_fits g ->
  get_block_hashes hash_bs block_hashes (fst g) = Ok (hashes_of (fst g)) /\ hl_ok (hashes_of (fst g)) /\
  py_len (hl_view (hashes_of (fst g))) = py_len block_hashes / (spec_block_size (fst g) / hash_bs).
Proof.
  intros [(Hbs & Hmod & _) _]. unfold get_block_hashes, hashes_of.
  assert (Hs : 0 < spec_block_size (fst g) / hash_bs) 
    by (apply Z.mod_divide in Hmod as [c Hc]; [rewrite Hc, Z.div_mul by lia; nia|lia]).
  destruct (Z.eqb_spec (spec_block_size (fst g)) hash_bs) as [E|E].
  - split; [done|]. split; [done|]. simpl. by rewrite E, Z_div_same_full, Z.div_1_r by lia.
  - unfold BlockHashListWithBlockSize.scale_factor. rewrite Hmod. split; [done|]. split; [done|].
    rewrite <- hl_len_view by done. done.
Qed.

Lemma limit_ok g curr : group_fits g -> 0 <= curr <= max_length ->
  (Z.to_nat (curr / spec_block_size (fst g)) <= length (hl_view (hashes_of (fst g))))%nat.
Proof.
  intros Hg Hc. destruct (hashes_of_ok g Hg) as (_ & _ & Hl). destruct Hg as [(Hbs & Hmod & _) _].
  apply Z.mod_divide in Hmod as [c Hmod]; [|lia]. assert (0 < c) by nia. unfold py_len in *. rewrite Hmod in *. rewrite Z.div_mul in Hl by lia.
  assert (curr / (c * hash_bs) <= max_length / hash_bs / c).
  { rewrite Z.div_div by lia. rewrite (Z.mul_comm hash_bs). apply Z.div_le_mono; lia. }
  pose proof (Z.div_le_mono _ _ c ltac:(lia) Hashed). lia.
Qed.

(** The lists of the managers [ids] are written, the others kept. *)
Lemma set_lists ids hits : forall bg : list (option (list nat)),
  NoDup ids -> length hits = length ids -> (forall i, i ∈ ids -> (i < length bg)%nat) ->
  let bg' := fold_left (fun b x => <[fst x := Some (snd x)]> b) (zip ids hits) bg in
  length bg' = length bg /\ (forall i, i ∉ ids -> bg' !! i = bg !! i) /\
  (forall j i bl, ids !! j = Some i -> hits !! j = Some bl -> bg' !! i = Some (Some bl)).
Proof.
  revert hits. induction ids as [|i ids IH]; intros [|bl hits] bg Hnd Hl Hin; simpl in *; try done.
  apply NoDup_cons in Hnd as [Hni Hnd].
  destruct (IH hits (<[i := Some bl]> bg) Hnd ltac:(lia)) as (H1 & H2 & H3).
  { intros j Hj. rewrite length_insert. apply Hin. by right. }
  rewrite length_insert in H1. split; [done|]. split.
  - intros j [Hne Hj]%not_elem_of_cons. rewrite H2 by done. by rewrite list_lookup_insert_ne by done.
  - intros [|j] k bl' Hk Hb; simpl in *; [|by apply (H3 j)]. simplify_eq. rewrite H2 by done.
    apply list_lookup_insert_eq, Hin. left.
Qed.

(** The list [bl] of manager [i] serves a hit of [c] tokens: full attention
    needs all blocks, a sliding window its last ones. *)
Definition serves (spec : KVCacheSpec) (c : Z) (i : nat) (bl : list nat) : Prop :=
  Z.of_nat (length bl) * spec_block_size spec = c /\
  forall k b, bl !! k = Some b ->
    match spec with SlidingWindowSpec bs w => (length bl <= k + Z.to_nat (cdiv (w - 1) bs))%nat | _ => True end ->
    key_block p (hashes_of spec) k (Z.of_nat i) b.

Definition group_serves (bg : list (option (list nat))) (c : Z) (g : KVCacheSpec * list nat) : Prop :=
  forall i, i ∈ snd g -> exists bl, bg !! i = Some (Some bl) /\ serves (fst g) c i bl.

(** A full-attention group found at least [c] tokens. *)
Definition full_ready (bg : list (option (list nat))) (c : Z) (g : KVCacheSpec * list nat) : Prop :=
  forall i, i ∈ snd g -> exists bl c', bg !! i = Some (Some bl) /\ serves (fst g) c' i bl /\ c <= c'.

Lemma aligned_lcm bs n : lcm mod bs = 0 -> 0 < bs -> aligned bs lcm n -> (Z.of_nat n * bs) mod lcm = 0.
Proof. intros Hm Hbs [->|?]; [|done]. by apply Z_mod_mult. Qed.

Lemma ids_range g i : group_fits g -> i ∈ Z.of_nat <$> snd g -> 0 <= i < 2 ^ 32.
Proof. intros [_ (_ & _ & Hr)] (j & -> & Hj)%list_elem_of_fmap. specialize (Hr j Hj). lia. Qed.

(** A step that looks the hashes up. *)
Lemma find_step spec ids bg curr hits first :
  group_fits (spec, ids) -> length bg = num_groups ->
  (is_full_spec spec = true -> forall i, i ∈ ids -> bg !! i = Some None) ->
  SingleType.find_longest_cache_hit spec (hashes_of spec) curr (Z.of_nat <$> ids) eagle lcm 1 1 p = Ok hits ->
  head hits = Some first ->
  group_step hash_bs block_hashes eagle lcm p (curr, bg) (spec, ids)
    = Ok (Z.of_nat (length first) * spec_block_size spec,
          fold_left (fun b x => <[fst x := Some (snd x)]> b) (zip ids hits) bg).
Proof.
  intros Hg Hlen Hnone E Hh. destruct (hashes_of_ok _ Hg) as (Eh & _). destruct Hg as [_ (Hne & _ & Hin)]. simpl in *.
  destruct ids as [|i0 ids]; [done|]. destruct (lookup_lt_is_Some_2 bg i0) as [x Hx]; [rewrite Hlen; apply Hin; left|].
  unfold group_step. cbn [head of_option mbind result_bind]. rewrite Hx. cbn [of_option mbind result_bind].
  assert (Hfin : (hashes ← get_block_hashes hash_bs block_hashes spec;
    hit_blocks ← SingleType.find_longest_cache_hit spec hashes curr (Z.of_nat <$> i0 :: ids) eagle lcm 1 1 p;
    first ← of_option IndexError (head hit_blocks);
    Ok (py_len first * spec_block_size spec, fold_left (fun b x => <[fst x := Some (snd x)]> b) (zip (i0 :: ids) hit_blocks) bg))
    = Ok (Z.of_nat (length first) * spec_block_size spec,
          fold_left (fun b x => <[fst x := Some (snd x)]> b) (zip (i0 :: ids) hits) bg)).
  { rewrite Eh. cbn [mbind result_bind]. rewrite E. cbn [mbind result_bind]. rewrite Hh. done. }
  destruct (is_full_spec spec); [|exact Hfin]. rewrite (Hnone eq_refl i0) in Hx by left. injection Hx as <-. exact Hfin.
Qed.

Lemma sliding_step g bg curr :
  group_fits g -> is_sliding (fst g) -> length bg = num_groups -> 0 <= curr <= max_length ->
  exists curr' bg', group_step hash_bs block_hashes eagle lcm p (curr, bg) g = Ok (curr', bg') /\
    0 <= curr' <= curr /\ curr' mod lcm = 0 /\ length bg' = num_groups /\ (forall i, i ∉ snd g -> bg' !! i = bg !! i) /\
    group_serves bg' curr' g.
Proof.
  intros Hg Hs Hlen Hc. destruct (hashes_of_ok g Hg) as (Eh & Hok & _). pose proof (limit_ok g curr Hg Hc) as Hlim.
  pose proof Hg as Hg0. pose proof (fun i => ids_range g i Hg) as Hrange. destruct g as [spec ids]. simpl in *. destruct spec as [|bs w| | | |]; try done. destruct Hs as [Hw He].
  destruct Hg as [(Hbs & _ & Hdiv) (Hne & Hnd & Hin)]. simpl in *.
  assert (Hneed : 0 < cdiv (w - 1) bs) by (rewrite cdiv_spec by done; apply Z.div_str_pos; lia).
  destruct (sliding_hit_ok p l I (hashes_of (SlidingWindowSpec bs w)) Hok (Z.of_nat <$> ids)) with
    (bs := bs) (window := w) (max_length := curr) (eagle := eagle) (alignment := lcm)
    as (m & hits & E & Hhit & Hrows); try done; try lia.
  { by destruct ids. }
  set (e := (if eagle then 1 else 0)%nat) in *.
  assert (Hlh : length hits = length ids) by (apply Forall2_length in Hrows; by rewrite length_fmap in Hrows).
  edestruct window_rows_head as (first & Hh & Hl); [| |exact Hrows|]; [by destruct ids|exact Hrange|].
  destruct (set_lists ids hits bg Hnd Hlh) as (H1 & H2 & H3); [intros i Hi; rewrite Hlen; by apply Hin|].
  exists (Z.of_nat (m - e) * bs), (fold_left (fun b x => <[fst x := Some (snd x)]> b) (zip ids hits) bg). split.
  { etrans; [apply (find_step (SlidingWindowSpec bs w) ids bg curr hits first); done|]. by rewrite Hl. }
  pose proof (wh_limit _ _ _ _ _ _ _ _ Hhit) as Hml. pose proof (wh_aligned _ _ _ _ _ _ _ _ Hhit) as Hal.
  split; [|split; [|split; [by rewrite H1|split; [done|]]]].
  - pose proof (Z.mul_div_le curr bs Hbs). assert (Z.of_nat (m - e) <= curr / bs) by (pose proof (Z.div_pos curr bs); lia). nia.
  - unfold e. destruct eagle; [rewrite (He eq_refl); apply Z_mod_mult|]. rewrite Nat.sub_0_r. by apply aligned_lcm.
  - intros i Hi. destruct (list_elem_of_lookup_1 _ _ Hi) as [j Hj]. simpl in Hj.
    destruct (lookup_lt_is_Some_2 hits j) as [bl Hbl]; [rewrite Hlh; by eapply lookup_lt_Some|].
    exists bl. split; [by apply (H3 j)|].
    assert (Hj' : (Z.of_nat <$> ids) !! j = Some (Z.of_nat i)) by (by rewrite list_lookup_fmap, Hj).
    destruct (Forall2_lookup_lr _ _ _ _ _ _ Hrows Hj' Hbl) as [Hlb Hk].
    split; [simpl; by rewrite Hlb|]. intros k b Hb Hwin. apply Hk; [|done]. cbn in Hwin. apply lookup_lt_Some in Hb. rewrite Hlb in Hwin, Hb. lia.
Qed.

(** Full attention: the first lookup, and the later rounds. *)
Lemma full_step_first bs ids bg curr :
  group_fits (FullAttentionSpec bs, ids) -> length bg = num_groups -> 0 <= curr <= max_length ->
  (forall i, i ∈ ids -> bg !! i = Some None) ->
  exists curr' bg', group_step hash_bs block_hashes eagle lcm p (curr, bg) (FullAttentionSpec bs, ids) = Ok (curr', bg') /\
    0 <= curr' <= curr /\ length bg' = num_groups /\ (forall i, i ∉ ids -> bg' !! i = bg !! i) /\
    group_serves bg' curr' (FullAttentionSpec bs, ids).
Proof.
  intros Hg Hlen Hc Hnone. destruct (hashes_of_ok _ Hg) as (Eh & Hok & _). pose proof (fun i => ids_range _ i Hg) as Hrange.
  pose proof Hg as [(Hbs & _ & Hdiv) (Hne & Hnd & Hin)]. cbn [fst snd spec_block_size] in *.
  assert (Hne' : Z.of_nat <$> ids <> []) by by destruct ids.
  destruct (full_hit_ok p l I (hashes_of (FullAttentionSpec bs)) Hok (Z.of_nat <$> ids) Hne' Hrange (FullAttentionSpec bs) curr eagle lcm 1 1)
    as (m0 & m & hits & E & Hrows & Hhit); [done|lia|].
  edestruct rows_head as (first & Hh & Hl); [exact Hne'|exact Hrange|exact Hrows|].
  assert (Hlh : length hits = length ids) by (apply Forall2_length in Hrows; by rewrite length_fmap in Hrows).
  destruct (set_lists ids hits bg Hnd Hlh) as (H1 & H2 & H3); [intros i Hi; rewrite Hlen; by apply Hin|].
  exists (Z.of_nat m * bs), (fold_left (fun b x => <[fst x := Some (snd x)]> b) (zip ids hits) bg). split.
  { etrans; [apply (find_step (FullAttentionSpec bs) ids bg curr hits first); done|]. by rewrite Hl. }
  pose proof (fh_limit _ _ _ _ _ _ _ _ _ Hhit). pose proof (fh_le _ _ _ _ _ _ _ _ _ Hhit).
  split; [|split; [by rewrite H1|split; [done|]]].
  - pose proof (Z.mul_div_le curr bs Hbs). change (if 1 <? 1 * 1 then _ else _) with bs in *. assert (Z.of_nat m <= curr / bs) by (pose proof (Z.div_pos curr bs); lia). nia.
  - intros i Hi. destruct (list_elem_of_lookup_1 _ _ Hi) as [j Hj]. simpl in Hj.
    destruct (lookup_lt_is_Some_2 hits j) as [bl Hbl]; [rewrite Hlh; by eapply lookup_lt_Some|].
    exists bl. split; [by apply (H3 j)|].
    assert (Hj' : (Z.of_nat <$> ids) !! j = Some (Z.of_nat i)) by (by rewrite list_lookup_fmap, Hj).
    destruct (Forall2_lookup_lr _ _ _ _ _ _ Hrows Hj' Hbl) as [Hlb Hk]. split; [simpl; by rewrite Hlb|]. intros k b Hb _. by apply Hk.
Qed.

Lemma full_step_again bs ids bg curr :
  group_fits (FullAttentionSpec bs, ids) -> full_ready bg curr (FullAttentionSpec bs, ids) ->
  group_step hash_bs block_hashes eagle lcm p (curr, bg) (FullAttentionSpec bs, ids) = Ok (curr / bs * bs, bg).
Proof.
  intros [_ (Hne & _)] Hf. destruct ids as [|i0 ids]; [done|]. destruct (Hf i0) as (bl & c & Hb & _); [left|].
  unfold group_step. cbn [head of_option mbind result_bind]. rewrite Hb. done.
Qed.

Lemma full_ready_le bg c c' g : c' <= c -> full_ready bg c g -> full_ready bg c' g.
Proof. intros Hle Hf i Hi. destruct (Hf i Hi) as (bl & c0 & ? & ? & ?). exists bl, c0. split; [done|]. split; [done|]. lia. Qed.

Lemma full_ready_keep bg bg' c g : (forall i, i ∈ snd g -> bg' !! i = bg !! i) -> full_ready bg c g -> full_ready bg' c g.
Proof. intros Hk Hf i Hi. rewrite Hk by done. by apply Hf. Qed.

Lemma group_serves_keep bg bg' c g : (forall i, i ∈ snd g -> bg' !! i = bg !! i) -> group_serves bg c g -> group_serves bg' c g.
Proof. intros Hk Hf i Hi. rewrite Hk by done. by apply Hf. Qed.

Definition all_ids (groups : list (KVCacheSpec * list nat)) : list nat := concat (snd <$> groups).

(** The sliding-window groups of one round. *)
Lemma sliding_round groups : forall bg curr,
  Forall group_fits groups -> Forall (fun g => is_sliding (fst g)) groups -> NoDup (all_ids groups) ->
  length bg = num_groups -> 0 <= curr <= max_length ->
  exists curr' bg', foldM (group_step hash_bs block_hashes eagle lcm p) groups (curr, bg) = Ok (curr', bg') /\
    0 <= curr' <= curr /\ (groups <> [] -> curr' mod lcm = 0) /\ length bg' = num_groups /\
    (forall i, i ∉ all_ids groups -> bg' !! i = bg !! i) /\
    (forall g, g ∈ groups -> exists c, curr' <= c <= curr /\ group_serves bg' c g) /\
    (forall g, groups = [g] -> group_serves bg' curr' g).
Proof.
  induction groups as [|g groups IH]; intros bg curr Hf Hs Hnd Hlen Hc.
  { exists curr, bg. split; [done|]. split; [lia|]. split; [done|]. split; [done|]. split; [done|].
    split; [by intros g ?%elem_of_nil|done]. }
  apply Forall_cons in Hf as [Hfg Hf]. apply Forall_cons in Hs as [Hsg Hs]. unfold all_ids in Hnd. rewrite fmap_cons in Hnd.
  cbn [concat] in Hnd. apply NoDup_app in Hnd as (Hndg & Hdis & Hnd).
  destruct (sliding_step g bg curr Hfg Hsg Hlen Hc) as (c1 & bg1 & E1 & Hc1 & Ha1 & Hl1 & Hk1 & Hg1).
  destruct (IH bg1 c1 Hf Hs Hnd Hl1 ltac:(lia)) as (c2 & bg2 & E2 & Hc2 & Ha2 & Hl2 & Hk2 & Hg2 & Hlast2).
  exists c2, bg2. cbn [foldM]. rewrite E1. cbn [mbind result_bind]. rewrite E2.
  assert (Hkeep : group_serves bg2 c1 g) by (eapply group_serves_keep; [|exact Hg1]; intros i Hi; apply Hk2; by apply Hdis).
  split; [done|]. split; [lia|]. split; [|split; [done|split; [|split]]].
  - intros _. destruct groups as [|g2 groups]; [|by apply Ha2]. simpl in E2. by injection E2 as -> ->.
  - intros i Hi. unfold all_ids in Hi. rewrite fmap_cons in Hi. cbn [concat] in Hi. apply not_elem_of_app in Hi as [Hi1 Hi2].
    rewrite Hk2 by done. by apply Hk1.
  - intros g' [->|Hg']%elem_of_cons; [exists c1; split; [lia|done]|]. destruct (Hg2 g' Hg') as (c & ? & ?). exists c. split; [lia|done].
  - intros g' [= <- ->]. simpl in E2. by injection E2 as -> ->.
Qed.

(** At most one full-attention group, at the head; some sliding-window groups. *)
Context (fulls slidings : list (KVCacheSpec * list nat)).
Definition is_full_group (g : KVCacheSpec * list nat) : Prop := match fst g with FullAttentionSpec _ => True | _ => False end.
Record hybrid_groups : Prop := {
  hg_fulls : Forall is_full_group fulls /\ (length fulls <= 1)%nat;
  hg_slidings : Forall (fun g => is_sliding (fst g)) slidings /\ slidings <> [];
  hg_fits : Forall group_fits (fulls ++ slidings);
  hg_disjoint : NoDup (all_ids (fulls ++ slidings));
}.
Context (HG : hybrid_groups).

Definition full_state (bg : list (option (list nat))) (c : Z) : Prop :=
  forall g, g ∈ fulls -> (forall i, i ∈ snd g -> bg !! i = Some None) \/ full_ready bg c g.

Lemma all_ids_app g1 g2 : all_ids (g1 ++ g2) = all_ids g1 ++ all_ids g2.
Proof. unfold all_ids. by rewrite fmap_app, concat_app. Qed.

Lemma all_ids_elem g groups i : g ∈ groups -> i ∈ snd g -> i ∈ all_ids groups.
Proof.
  intros (g1 & g2 & ->)%list_elem_of_split Hi. rewrite all_ids_app. unfold all_ids at 2. rewrite fmap_cons. cbn [concat]. set_solver.
Qed.

(** The full-attention step of a round. *)
Lemma full_round bg curr :
  length bg = num_groups -> 0 <= curr <= max_length -> full_state bg curr ->
  exists curr' bg', foldM (group_step hash_bs block_hashes eagle lcm p) fulls (curr, bg) = Ok (curr', bg') /\
    0 <= curr' <= curr /\ length bg' = num_groups /\ (forall g, g ∈ fulls -> full_ready bg' curr' g).
Proof.
  intros Hlen Hc Hst. destruct HG as [[Hf Hone] _ Hfit _]. apply Forall_app in Hfit as [Hfit _]. unfold full_state in Hst. clear HG.
  destruct fulls as [|[spec ids] [|]]; [|destruct spec as [bs| | | | |]; try by (apply Forall_cons in Hf as [[] _])|simpl in Hone; lia].
  { exists curr, bg. split; [done|]. split; [lia|]. split; [done|]. by intros g ?%elem_of_nil. }
  apply Forall_cons in Hfit as [Hg _]. cbn [foldM].
  assert (Hin : forall P : KVCacheSpec * list nat -> Prop, P (FullAttentionSpec bs, ids) -> forall g, g ∈ [(FullAttentionSpec bs, ids)] -> P g).
  { intros P HP g Hgin. apply list_elem_of_singleton in Hgin. by subst. }
  destruct (Hst (FullAttentionSpec bs, ids)) as [Hnone|Hready]; [left|..].
  - destruct (full_step_first bs ids bg curr Hg Hlen Hc Hnone) as (c & bg' & -> & Hc' & Hl & _ & Hs). cbn [mbind result_bind].
    exists c, bg'. split; [done|]. split; [done|]. split; [done|]. apply Hin. intros i Hi. destruct (Hs i Hi) as (bl & ? & ?). by exists bl, c.
  - rewrite (full_step_again bs ids bg curr Hg Hready). cbn [mbind result_bind]. exists (curr / bs * bs), bg. split; [done|].
    destruct Hg as [(Hbs & _) _]. simpl in Hbs. pose proof (Z.mul_div_le curr bs Hbs). pose proof (Z.div_pos curr bs).
    split; [nia|]. split; [done|]. apply Hin. eapply full_ready_le; [|exact Hready]. lia.
Qed.

Lemma round_ok bg curr :
  length bg = num_groups -> 0 <= curr <= max_length -> full_state bg curr ->
  exists curr' bg', foldM (group_step hash_bs block_hashes eagle lcm p) (fulls ++ slidings) (curr, bg) = Ok (curr', bg') /\
    0 <= curr' <= curr /\ curr' mod lcm = 0 /\ length bg' = num_groups /\ (forall g, g ∈ fulls -> full_ready bg' curr' g) /\
    (forall g, g ∈ slidings -> exists c, curr' <= c <= curr /\ group_serves bg' c g) /\
    (forall g, slidings = [g] -> group_serves bg' curr' g).
Proof.
  intros Hlen Hc Hst. destruct (full_round bg curr Hlen Hc Hst) as (c1 & bg1 & E1 & Hc1 & Hl1 & Hf1).
  destruct HG as [_ [Hs Hne] Hfit Hnd]. apply Forall_app in Hfit as [_ Hfit]. rewrite all_ids_app in Hnd.
  apply NoDup_app in Hnd as (_ & Hdis & Hnd).
  destruct (sliding_round slidings bg1 c1 Hfit Hs Hnd Hl1 ltac:(lia)) as (c2 & bg2 & E2 & Hc2 & Ha2 & Hl2 & Hk2 & Hg2 & Hlast).
  exists c2, bg2. rewrite foldM_app, E1. cbn [mbind result_bind]. split; [done|]. split; [lia|]. split; [by apply Ha2|]. split; [done|].
  split; [|split; [|done]].
  - intros g Hg. apply (full_ready_le _ c1); [lia|]. eapply full_ready_keep; [|by apply Hf1]. intros i Hi. apply Hk2, Hdis. by eapply all_ids_elem.
  - intros g Hg. destruct (Hg2 g Hg) as (c & ? & ?). exists c. split; [lia|done].
Qed.

Lemma hit_loop_ok simple : forall fuel hit bg,
  (Z.to_nat hit < fuel)%nat -> 0 <= hit <= max_length -> length bg = num_groups -> full_state bg hit ->
  (simple = true -> exists g, slidings = [g]) ->
  exists hit' bg', hit_loop fuel hash_bs block_hashes eagle lcm p (fulls ++ slidings) simple hit bg = Ok (hit', bg') /\
    0 <= hit' <= max_length /\ hit' mod lcm = 0 /\ length bg' = num_groups /\ (forall g, g ∈ fulls -> full_ready bg' hit' g) /\
    (forall g, g ∈ slidings -> group_serves bg' hit' g).
Proof.
  induction fuel as [|fuel IH]; intros hit bg Hfuel Hhit Hlen Hst Hsimple; [lia|]. cbn [hit_loop].
  destruct (round_ok bg hit Hlen Hhit Hst) as (c & bg' & -> & Hc & Ha & Hl & Hf & Hs & Hone). cbn [mbind result_bind].
  destruct (Z.leb_spec hit c) as [Hge|Hlt].
  - assert (c = hit) as -> by lia. exists hit, bg'. split; [done|]. split; [done|]. split; [done|]. split; [done|]. split; [done|].
    intros g Hg. destruct (Hs g Hg) as (c' & Hc' & ?). by replace hit with c' by lia.
  - destruct simple.
    + destruct (Hsimple eq_refl) as [g0 Hg0]. exists c, bg'. split; [done|]. split; [lia|]. split; [done|]. split; [done|]. split; [done|].
      intros g Hg. rewrite Hg0 in Hg. apply list_elem_of_singleton in Hg as ->. by apply Hone.
    + apply IH; try done; [lia|lia|]. intros g Hg. right. by apply Hf.
Qed.

Lemma truncate_lists n ids : forall bg : list (option (list nat)), NoDup ids ->
  let bg' := truncate_groups n ids bg in
  length bg' = length bg /\ (forall i, i ∉ ids -> bg' !! i = bg !! i) /\
  (forall i bl, i ∈ ids -> bg !! i = Some (Some bl) -> bg' !! i = Some (Some (py_slice bl 0 n))).
Proof.
  unfold truncate_groups. induction ids as [|i ids IH]; intros bg Hnd; simpl; [split_and!; try done; by intros i bl ?%elem_of_nil|].
  apply NoDup_cons in Hnd as [Hni Hnd].
  set (b1 := match bg !! i with Some (Some blks) => <[i := Some (py_slice blks 0 n)]> bg | _ => bg end).
  destruct (IH b1 Hnd) as (H1 & H2 & H3).
  assert (Hb1 : length b1 = length bg /\ forall j, j <> i -> b1 !! j = bg !! j).
  { unfold b1. destruct (bg !! i) as [[bl|]|]; [|done|done]. rewrite length_insert. split; [done|]. intros j Hj.
    by rewrite list_lookup_insert_ne. }
  destruct Hb1 as [Hl1 Hk1]. split; [lia|]. split.
  - intros j [Hne Hj]%not_elem_of_cons. rewrite H2 by done. by apply Hk1.
  - intros j bl [->|Hj]%elem_of_cons Hb; [|apply H3; [done|]; rewrite Hk1 by congruence; done].
    rewrite H2 by done. unfold b1. rewrite Hb. apply list_lookup_insert_eq. by eapply lookup_lt_Some.
Qed.

Lemma serves_truncate bs c c' i bl :
  0 < bs -> serves (FullAttentionSpec bs) c' i bl -> 0 <= c <= c' -> c mod bs = 0 ->
  serves (FullAttentionSpec bs) c i (py_slice bl 0 (c / bs)).
Proof.
  intros Hbs [Hl Hk] Hc Hm. cbn [spec_block_size] in *. pose proof (Z.div_pos c bs ltac:(lia) Hbs) as Hd.
  pose proof (Z.div_mod c bs ltac:(lia)) as Hdm. rewrite py_slice_nonneg by lia. simpl. rewrite drop_0, Z.sub_0_r. split.
  - cbn [spec_block_size]. rewrite length_take. assert (c / bs <= Z.of_nat (length bl)) by nia. nia.
  - intros k b [Hb _]%lookup_take_Some _. by apply Hk.
Qed.

Definition result_serves (blocks : list (list nat)) (hit : Z) (g : KVCacheSpec * list nat) : Prop :=
  forall i, i ∈ snd g -> exists bl, blocks !! i = Some bl /\ serves (fst g) hit i bl.

Lemma group_serves_result bg c g : group_serves bg c g -> result_serves (default [] <$> bg) c g.
Proof. intros Hs i Hi. destruct (Hs i Hi) as (bl & Hb & ?). exists bl. by rewrite list_lookup_fmap, Hb. Qed.

Lemma hybrid_hit_ok :
  exists blocks hit,
    HybridKVCacheCoordinator.find_longest_cache_hit hash_bs (fulls ++ slidings) lcm num_groups eagle p block_hashes max_length
      = Ok (blocks, hit) /\
    0 <= hit <= max_length /\ hit mod lcm = 0 /\ (forall g, g ∈ fulls ++ slidings -> result_serves blocks hit g).
Proof.
  unfold HybridKVCacheCoordinator.find_longest_cache_hit. set (simple := _ && _).
  pose proof HG as [[Hf Hone] [Hs Hne] Hfit Hnd].
  destruct (hit_loop_ok simple (S (Z.to_nat max_length)) max_length (replicate num_groups None)) as (hit & bg & -> & Hhit & Hm & Hl & Hfr & Hsr);
    [lia|lia|by rewrite length_replicate| | |].
  { intros g Hg. left. intros i Hi. apply lookup_replicate_2. rewrite Forall_app, !Forall_forall in Hfit.
    by apply (gf_ids _ (proj1 Hfit g Hg)). }
  { unfold simple. intros [H2 Hh]%andb_true_iff. apply Nat.eqb_eq in H2. rewrite length_app in H2.
    destruct fulls as [|f0 [|]], slidings as [|s0 [|s1 ss]]; simpl in *; try lia; try done; [|by eexists].
    apply Forall_cons in Hs as [Hs _]. by destruct (fst s0). }
  cbn [mbind result_bind]. destruct fulls as [|[spec ids] fs].
  - destruct slidings as [|[spec ids] ss]; [done|]. cbn [app head of_option mbind result_bind].
    assert (Hns : is_full_spec spec = false) by (apply Forall_cons in Hs as [Hs _]; by destruct spec). rewrite Hns.
    eexists _, hit. split; [done|]. split; [done|]. split; [done|]. intros g Hg. by apply group_serves_result, Hsr.
  - destruct fs; [|simpl in Hone; lia]. destruct spec as [bs| | | | |]; try by (apply Forall_cons in Hf as [[] _]).
    cbn [app head of_option mbind result_bind is_full_spec]. cbn [app] in Hfit, Hnd. apply Forall_cons in Hfit as [Hg0 Hfit].
    destruct Hg0 as [(Hbs & _ & Hdiv) (_ & Hnd0 & _)]. cbn [fst snd spec_block_size] in *.
    destruct (truncate_lists (hit / bs) ids bg Hnd0) as (T1 & T2 & T3). unfold all_ids in Hnd. rewrite fmap_cons in Hnd. cbn [concat snd] in Hnd.
    apply NoDup_app in Hnd as (_ & Hdis & _).
    eexists _, hit. split; [done|]. split; [done|]. split; [done|]. intros g [->|Hg]%elem_of_cons.
    + intros i Hi. simpl in Hi. destruct (Hfr (FullAttentionSpec bs, ids) ltac:(left) i Hi) as (bl & c' & Hb & Hsv & Hle).
      exists (py_slice bl 0 (hit / bs)). rewrite list_lookup_fmap, (T3 i bl Hi Hb). split; [done|].
      apply (serves_truncate bs hit c'); [done|done|lia|]. apply Z.mod_divide in Hdiv as [q Hq]; [|lia].
      apply Z.mod_divide in Hm as [q' Hq']; [|lia]. rewrite Hq', Hq, Z.mul_assoc. apply Z_mod_mult.
    + apply group_serves_result. apply (group_serves_keep bg); [|by apply Hsr]. intros i Hi. apply T2.
      intros Hin. apply (Hdis i Hin). by eapply (all_ids_elem g slidings).
Qed.
End Hybrid.
End HybridHits.

(** * What the lookups promise *)

(** C24: [FullAttentionManager.find_longest_cache_hit] returns for every group the
    cached blocks of the request's leading hashes, in order: [m0] is the length
    of the longest prefix of hashes, within [max_length] tokens, that every group
    has cached; the result has [m] blocks, the largest aligned number that is
    at most [m0], or [m0 - 1] for EAGLE. *)
Theorem full_attention_hit_longest p l hl gs spec max_length eagle alignment dcp pcp :
  let bs := if 1 <? dcp * pcp then spec_block_size spec * (dcp * pcp) else spec_block_size spec in
  pool_inv p l -> hl_ok hl -> gs <> [] -> (forall g, g ∈ gs -> 0 <= g < 2 ^ 32) -> 0 < bs -> 0 <= max_length ->
  exists m0 m computed,
    FullAttentionManager.find_longest_cache_hit hl max_length gs p spec eagle alignment dcp pcp = Ok computed /\
    rows p hl gs m computed /\
    full_hit p hl gs bs alignment eagle (Nat.min (Z.to_nat (max_length / bs)) (length (hl_view hl))) m0 m.
Proof. intros bs I Hhl Hgs Hr Hbs Hmax. by apply (full_hit_ok p l I hl Hhl gs Hgs Hr). Qed.

(** C25: [SlidingWindowManager.find_longest_cache_hit] finds the longest aligned
    prefix, within [max_length] tokens, whose last [need] blocks (those a window
    ending there reads, one more for EAGLE) are all cached, and returns lists of
    that length, less the block dropped for EAGLE, that hold exactly the cached
    blocks at the positions of the window. *)
Theorem sliding_window_hit_longest p l hl gs bs window max_length eagle alignment :
  let limit := Z.to_nat (max_length / bs) in
  let e := (if eagle : bool then 1 else 0)%nat in
  let need := (Z.to_nat (cdiv (window - 1) bs) + e)%nat in
  pool_inv p l -> hl_ok hl -> gs <> [] -> (forall g, g ∈ gs -> 0 <= g < 2 ^ 32) ->
  0 < bs -> 0 <= max_length -> (limit <= length (hl_view hl))%nat -> 0 < window -> (0 < need)%nat ->
  (eagle = true -> bs = alignment) ->
  exists m computed,
    SlidingWindowManager.find_longest_cache_hit hl max_length gs p bs window eagle alignment 1 1 = Ok computed /\
    window_hit p hl gs bs alignment limit need m /\ window_rows p hl gs (m - e) (m - need) (m - e) computed.
Proof. intros limit e need I Hhl Hgs Hr. by apply (sliding_hit_ok p l I hl Hhl gs Hgs Hr). Qed.

(** C23: the fixed-point loop of [HybridKVCacheCoordinator.find_longest_cache_hit]
    terminates: for a model with sliding-window groups and at most one group of
    full attention, [max_cache_hit_length + 1] rounds always suffice, and the
    result is a length that is a multiple of every block size and lists of that
    length for every manager, which hold cached blocks everywhere full attention
    or the sliding window of that position reads. *)
Theorem hybrid_hit_converges p l hash_bs block_hashes eagle lcm num_groups max_length fulls slidings :
  pool_inv p l -> 0 < hash_bs -> 0 < lcm -> 0 <= max_length -> Z.of_nat num_groups < 2 ^ 32 ->
  max_length / hash_bs <= py_len block_hashes ->
  HybridHits.hybrid_groups hash_bs eagle lcm num_groups fulls slidings ->
  exists blocks hit,
    HybridKVCacheCoordinator.find_longest_cache_hit hash_bs (fulls ++ slidings) lcm num_groups eagle p block_hashes max_length
      = Ok (blocks, hit) /\
    0 <= hit <= max_length /\ hit mod lcm = 0 /\
    (forall g, g ∈ fulls ++ slidings -> HybridHits.result_serves p hash_bs block_hashes blocks hit g).
Proof. intros I H1 H2 H3 H4 H5 HG. by apply (HybridHits.hybrid_hit_ok p l). Qed.
