(* ===== verification/KVExamples.v ===== *)
(** Concrete runs of the KV-cache manager: a hybrid model with a full-attention
    and a sliding-window group, a request that fills the cache and a second one
    that hits its prefix; and the run in which two groups end with the same
    block. *)
From S2P Require Import Prelude FreeQueue Request BlockHash BlockPool SingleType SingleTypeFacts KVManager KVManagerFacts KVSlots PrefixHits.
Import BlockPool.BlockPool PoolFacts.
Local Open Scope string_scope.
Local Open Scope list_scope.
Local Open Scope Z_scope.

(** A text request with given block hashes. *)
Definition demo_request (id : string) (n : nat) (computed : Z) (hashes : list bytes) : Request :=
  mkRequest id WAITING 16 (Some (Z.of_nat <$> seq 0 n)) None (Z.of_nat n) [] (Z.of_nat <$> seq 0 n) [] 0 computed (-1) 0
    None [] None false hashes.

Definition the {A} (d : A) (r : result A) : A := match r with Ok a => a | Err _ => d end.
Definition no_kv : kv_manager :=
  mkKVM 0 false None (mkCoord (mkPool 0 false 0 (FreeKVCacheBlockQueue.init 0 ∅) ∅ 0 false false [] None) [] false NoPrefixCache).

Definition hybrid_specs : list KVCacheSpec := [FullAttentionSpec 4; SlidingWindowSpec 4 6].
Definition kv0 : kv_manager :=
  the no_kv (KVCacheManager.new_manager 12 hybrid_specs 64 4 true false true false false 1 1 false).
Definition req_a : Request := demo_request "a" 9 0 [[10]; [20]].
Definition req_b : Request := demo_request "b" 10 0 [[10]; [20]].

(** The first request: nine tokens, no hits. *)
Definition kv1 : kv_manager :=
  the no_kv (k ← KVCacheManager.allocate_slots req_a 9 0 None 0 0 false 0 kv0; Ok (snd k)).

Definition show_groups (k : kv_manager) (rid : string) : list (list nat) := blocks_of rid <$> kv_groups k.

Example kv1_blocks : show_groups kv1 "a" = [[1; 2; 3]%nat; [4; 5; 6]%nat].
Proof. vm_compute. reflexivity. Qed.

(** The second one hits the first two blocks of both groups. *)
Definition hits_b : KVCacheBlocks := Blocks [[1; 2]%nat; [4; 5]%nat].
Example hits_of_b :
  (r ← KVCacheManager.get_computed_blocks req_b kv1; Ok (fst r)) = Ok (hits_b, 8).
Proof. vm_compute. reflexivity. Qed.

Definition kv2 : kv_manager :=
  the no_kv (k ← KVCacheManager.allocate_slots req_b 2 8 (Some hits_b) 0 0 false 0 kv1; Ok (snd k)).
Example kv2_blocks : show_groups kv2 "b" = [[1; 2; 7]%nat; [4; 5; 8]%nat] /\ show_groups kv2 "a" = show_groups kv1 "a".
Proof. vm_compute. done. Qed.

(** ** The run as a history *)
Lemma hybrid_config : attention_config hybrid_specs 1 1.
Proof. split; [|vm_compute; done]. repeat (apply Forall_cons; split; [vm_compute; done|]). apply Forall_nil_2. Qed.

Lemma kv0_history : kv_history kv0.
Proof.
  apply (kv_new 12 hybrid_specs 64 4 true false true false false 1 1 false); [apply hybrid_config|lia|].
  vm_compute. reflexivity.
Qed.

Lemma call_a : slots_call kv0 req_a 9 0 None 0 0 false.
Proof.
  split; [vm_compute; intuition congruence|vm_compute; intuition congruence|vm_compute; intuition congruence
    |intros _; vm_compute; congruence|done|].
  vm_compute. intuition congruence.
Qed.

Lemma kv1_history : kv_history kv1.
Proof.
  apply (kv_next kv0 (CallAllocate req_a 9 0 None 0 0 false 0 false)); [apply kv0_history|apply call_a|].
  vm_compute. reflexivity.
Qed.

Lemma hits_b_disjoint : disjoint_hits [[1; 2]%nat; [4; 5]%nat].
Proof.
  intros i j x Hij. unfold hits_at. destruct (Z.to_nat j) as [|[|n]] eqn:Ej; [lia| |by intros _ ?%elem_of_nil].
  replace (Z.to_nat i) with 0%nat by lia. simpl. rewrite !elem_of_cons. intros [->|[->|[]%elem_of_nil]] [?|[?|[]%elem_of_nil]]; done.
Qed.

(** A list of known, hashed and distinct blocks, by computation. *)
Definition hits_okb (p : pool) (bs : list nat) : bool :=
  forallb (fun i => (Z.of_nat i <? num_gpu_blocks p) && bool_decide (i = 0%nat \/ hash_of p i <> None)) bs
  && bool_decide (NoDup (filter (.≠ 0%nat) bs)).

Lemma hits_okb_ok p bs : hits_okb p bs = true -> hits_ok p bs.
Proof.
  unfold hits_okb. rewrite andb_true_iff, forallb_forall, bool_decide_eq_true. intros [H Hn]. split; [| |done].
  - intros i Hi%list_elem_of_In. specialize (H i Hi). apply andb_true_iff in H as [H _]. by apply Z.ltb_lt.
  - intros i Hi%list_elem_of_In H0. specialize (H i Hi). apply andb_true_iff in H as [_ H].
    apply bool_decide_eq_true in H. tauto.
Qed.

Definition kv1_groups : list manager := Eval vm_compute in kv_groups kv1.
Lemma kv1_groups_eq : kv_groups kv1 = kv1_groups.
Proof. vm_compute. reflexivity. Qed.

Lemma call_b : slots_call kv1 req_b 2 8 (Some hits_b) 0 0 true.
Proof.
  split; [vm_compute; intuition congruence|vm_compute; intuition congruence|vm_compute; intuition congruence
    |intros _; vm_compute; congruence|done|].
  split; [apply hits_b_disjoint|]. change (blocks_list kv1 _) with [[1; 2]%nat; [4; 5]%nat].
  rewrite kv1_groups_eq. split; [|split; [|exact I]]; (split; [vm_compute; intuition congruence|]); (split; [by left|]);
    (split; [vm_compute; done|]); (split; [split; vm_compute; reflexivity|]);
    (split; [apply hits_okb_ok; vm_compute; reflexivity|]); (split; [vm_compute; congruence|vm_compute; done]).
Qed.

(** ** Witnesses *)
Lemma kv_calls_safe_witness :
  exists k' l', run_kv (CallFree req_a) kv1 = Ok k' /\ kv_ok k' l'.
Proof. apply (kv_calls_safe kv1 (CallFree req_a)); [apply kv1_history|vm_compute; exact I]. Defined.

Lemma allocate_slots_correct_witness :
  exists res k', KVCacheManager.allocate_slots req_b 2 8 (Some hits_b) 0 0 false 0 kv1 = Ok (res, k') /\
    slots_post kv1 req_b 2 8 (Some hits_b) 0 0 res k'.
Proof. apply (allocate_slots_correct kv1 req_b 2 8 (Some hits_b) 0 0 false 0 true); [apply kv1_history|apply call_b]. Defined.

Lemma free_and_reset_correct_witness :
  let '(ok, k') := KVCacheManager.reset_prefix_cache kv1 in reset_post kv1 ok k'.
Proof. apply (free_and_reset_correct kv1 req_a), kv1_history. Defined.

(** ** External tokens with several groups *)
Definition run_all (cs : list kv_call) (k : kv_manager) : result kv_manager :=
  foldM (fun k c => run_kv c k) cs k.

Definition req_c : Request := demo_request "c" 10 0 [[10]; [30]].
(** One request caches one block in each group, another takes the other blocks,
    and both are freed, the first one first. *)
Definition kv_before : kv_manager :=
  the no_kv (run_all
    [CallAllocate (demo_request "a" 4 0 [[10]]) 4 0 None 0 0 false 0 false;
     CallAllocate (demo_request "b" 16 0 [[40]; [41]; [42]; [43]]) 16 0 None 0 0 false 0 false;
     CallFree (demo_request "a" 4 0 [[10]]); CallFree (demo_request "b" 16 0 [[40]; [41]; [42]; [43]])]
    (the no_kv (KVCacheManager.new_manager 11 hybrid_specs 64 4 true false true false false 1 1 false))).

(** With two groups and tokens from a KV connector, the loop of
    [allocate_new_computed_blocks] takes blocks for the external tokens of the
    first group before it touches the hits of the second: a hit that is at the
    head of the free queue is evicted, overwritten as a new block of the first
    group and then entered as a hit of the second, so one block serves two
    groups of the same request. *)
Example external_tokens_share_block :
  exists hits k', (r ← KVCacheManager.get_computed_blocks req_c kv_before; Ok (fst r)) = Ok (hits, 4) /\
    (r ← KVCacheManager.allocate_slots req_c 2 4 (Some hits) 0 4 false 0 kv_before; Ok (snd r)) = Ok k' /\
    show_groups k' "c" = [[1; 2; 5]%nat; [2; 6; 4]%nat].
Proof. eexists _, _. split; [vm_compute; reflexivity|]. split; [vm_compute; reflexivity|]. vm_compute. reflexivity. Qed.

(** ** Prefix hits *)
Lemma kv1_pool : exists l, pool_inv (kv_pool kv1) l.
Proof. destruct (kv_history_ok kv1 kv1_history) as [l [[I _ _ _] _ _ _]]. by exists l. Qed.

Lemma group_id_range (gs : list Z) : forallb (fun g => (0 <=? g) && (g <? 2 ^ 32)) gs = true -> forall g, g ∈ gs -> 0 <= g < 2 ^ 32.
Proof. intros H g Hg%list_elem_of_In. rewrite forallb_forall in H. specialize (H g Hg). lia. Qed.

Lemma full_attention_hit_longest_witness :
  exists m0 m computed,
    FullAttentionManager.find_longest_cache_hit (HList [[10]; [20]]) 9 [0] (kv_pool kv1) (FullAttentionSpec 4) false 4 1 1 = Ok computed /\
    rows (kv_pool kv1) (HList [[10]; [20]]) [0] m computed /\
    full_hit (kv_pool kv1) (HList [[10]; [20]]) [0] 4 4 false 2 m0 m.
Proof.
  destruct kv1_pool as [l I].
  apply (full_attention_hit_longest (kv_pool kv1) l (HList [[10]; [20]]) [0] (FullAttentionSpec 4) 9 false 4 1 1 I);
    [done|done|by apply group_id_range|done|lia].
Defined.

Lemma sliding_window_hit_longest_witness :
  exists m computed,
    SlidingWindowManager.find_longest_cache_hit (HList [[10]; [20]]) 9 [1] (kv_pool kv1) 4 6 false 4 1 1 = Ok computed /\
    window_hit (kv_pool kv1) (HList [[10]; [20]]) [1] 4 4 2 2 m /\
    window_rows (kv_pool kv1) (HList [[10]; [20]]) [1] (m - 0) (m - 2) (m - 0) computed.
Proof.
  destruct kv1_pool as [l I].
  apply (sliding_window_hit_longest (kv_pool kv1) l (HList [[10]; [20]]) [1] 4 6 9 false 4 I);
    [done|done|by apply group_id_range|lia|lia|vm_compute; lia|lia|vm_compute; lia|done].
Defined.

Lemma hybrid_hit_converges_witness :
  exists blocks hit,
    HybridKVCacheCoordinator.find_longest_cache_hit 4 [(FullAttentionSpec 4, [0%nat]); (SlidingWindowSpec 4 6, [1%nat])] 4 2 false
      (kv_pool kv1) [[10]; [20]] 9 = Ok (blocks, hit) /\ 0 <= hit <= 9.
Proof.
  destruct kv1_pool as [l I].
  destruct (hybrid_hit_converges (kv_pool kv1) l 4 [[10]; [20]] false 4 2 9 [(FullAttentionSpec 4, [0%nat])] [(SlidingWindowSpec 4 6, [1%nat])] I)
    as (blocks & hit & E & Hh & _); [lia|lia|lia|lia|vm_compute; congruence| |exists blocks, hit; split; [exact E|exact Hh]].
  split; [split; [by repeat constructor|simpl; lia]|split; [|done]| |].
  - apply Forall_singleton. done.
  - assert (Hone : forall i : nat, NoDup [i]) by (intros; apply NoDup_singleton).
    apply Forall_cons. split; [|apply Forall_singleton]; (split; [vm_compute; done|]); split; [done|split; [apply Hone|]| done|split; [apply Hone|]];
      intros i Hi%list_elem_of_singleton; simpl in Hi; subst i; lia.
  - by apply (bool_decide_unpack (NoDup [0; 1]%nat)).
Defined.

(** Three groups: two kinds of full attention and a sliding window.  Sixteen
    tokens are cached for full attention but only eight for the window. *)
Definition two_full_specs : list KVCacheSpec := [FullAttentionSpec 4; FullAttentionSpec 8; SlidingWindowSpec 4 6].
Definition req_d (id : string) (n : nat) : Request := demo_request id n 0 [[10]; [20]; [30]; [40]].
Definition kv_two_full : kv_manager :=
  the no_kv (run_all
    [CallAllocate (req_d "a" 17) 17 0 None 0 0 false 0 false; CallEvict [12]%nat]
    (the no_kv (KVCacheManager.new_manager 30 two_full_specs 64 4 true false true false false 1 1 false))).

(** with two kinds of full attention the coordinator truncates only the
    first: the hit is 8 tokens, but the second full-attention group keeps two
    blocks of 8 tokens, so its list covers 16 tokens and does not match the
    length that is returned. *)
Theorem second_full_group_untruncated :
  (r ← KVCacheManager.get_computed_blocks (req_d "b" 20) kv_two_full; Ok (fst r))
    = Ok (Blocks [[1; 2]%nat; [6; 7]%nat; [9; 10]%nat], 8).
Proof. vm_compute. reflexivity. Qed.
