(* ===== verification/Ngram.v ===== *)
(** The n-gram proposer: [src/vllm/v1/spec_decode/ngram_proposer.py].

    The matcher runs a Knuth-Morris-Pratt scan over the reversed tokens with the
    prefix table cut at [max_ngram]; the batch loop writes the drafts of the
    requests into buffers that are kept between calls.  The theorems say that
    the scan finds exactly the longest admissible n-gram at its earliest
    position, and that what a request gets does not depend on the buffers or on
    the order of the parallel loop. *)
From S2P Require Import Prelude.
Local Open Scope Z_scope.

(** * The matcher *)

(** The variables of the [while] loop. *)
Record kmp := mkKmp {
  lps : list nat;
  longest_ngram : nat;
  position : nat;
  prev_lps : nat;
  idx : nat;
}.

(** One round; [None] when [i < total_token] fails. *)
Definition kmp_step (tokens : list Z) (max_ngram : nat) (s : kmp) : result (option kmp) :=
  if (length tokens <=? idx s)%nat then Ok None else
  a ← of_option IndexError (tokens !! prev_lps s);
  b ← of_option IndexError (tokens !! idx s);
  if a =? b then
    let prev := S (prev_lps s) in
    let '(longest, pos) := if (longest_ngram s <=? prev)%nat then (prev, idx s) else (longest_ngram s, position s) in
    let table := if (idx s <? max_ngram)%nat then <[idx s := prev]> (lps s) else lps s in
    prev ← (if (prev =? max_ngram)%nat then of_option IndexError (table !! (max_ngram - 1)%nat) else Ok prev);
    Ok (Some (mkKmp table longest pos prev (S (idx s))))
  else if negb (prev_lps s =? 0)%nat then
    prev ← of_option IndexError (lps s !! (prev_lps s - 1)%nat);
    Ok (Some (mkKmp (lps s) (longest_ngram s) (position s) prev (idx s)))
  else Ok (Some (mkKmp (lps s) (longest_ngram s) (position s) (prev_lps s) (S (idx s)))).

(** The loop; [fuel] bounds the rounds. *)
Fixpoint kmp_loop (fuel : nat) (tokens : list Z) (max_ngram : nat) (s : kmp) : result kmp :=
  match fuel with
  | O => Err Diverges
  | S fuel =>
      o ← kmp_step tokens max_ngram s;
      match o with None => Ok s | Some s => kmp_loop fuel tokens max_ngram s end
  end.

(** [_find_longest_matched_ngram_and_propose_tokens]. *)
Definition find_longest_matched_ngram (origin_tokens : list Z) (min_ngram max_ngram : nat) (max_model_len k : Z) :
    result (list Z) :=
  let total_token := length origin_tokens in
  if (total_token <? min_ngram)%nat then Ok [] else
  let k := Z.min k (max_model_len - Z.of_nat total_token) in
  if k <=? 0 then Ok [] else
  let tokens := reverse origin_tokens in
  s ← kmp_loop (2 * total_token + 1) tokens max_ngram (mkKmp (replicate max_ngram 0%nat) 0 0 0 1);
  if (longest_ngram s <? min_ngram)%nat then Ok [] else
  let start_position := Z.of_nat total_token - 1 - Z.of_nat (position s) + Z.of_nat (longest_ngram s) in
  let k := Z.min k (Z.of_nat total_token - start_position) in
  Ok (py_slice origin_tokens start_position (start_position + k)).

(** * The batch *)
Record NgramProposer := mkNgram {
  min_n : nat;
  max_n : nat;
  ng_k : Z;
  ng_max_model_len : Z;
  valid_ngram_draft : list (list Z);
  valid_ngram_num_drafts : list Z;
}.

(** [row[: len(out)] = out]; numpy refuses an [out] that is longer. *)
Definition set_prefix (row out : list Z) : result (list Z) :=
  if (length out <=? length row)%nat then Ok (out ++ drop (length out) row) else Err ValueError.

(** One iteration of the [prange] loop of [batch_propose_numba]. *)
Definition propose_one (p : NgramProposer) (num_tokens_no_spec : list Z) (token_ids_cpu : list (list Z))
    (s : list (list Z) * list Z) (i : nat) : result (list (list Z) * list Z) :=
  let '(drafts, nums) := s in
  num_tokens ← of_option IndexError (num_tokens_no_spec !! i);
  row ← of_option IndexError (token_ids_cpu !! i);
  out ← find_longest_matched_ngram (py_slice row 0 num_tokens) (min_n p) (max_n p) (ng_max_model_len p) (ng_k p);
  nums ← (if (i <? length nums)%nat then Ok (<[i := py_len out]> nums) else Err IndexError);
  if (length out =? 0)%nat then Ok (drafts, nums) else
  drow ← of_option IndexError (drafts !! i);
  drow ← set_prefix drow out;
  Ok (<[i := drow]> drafts, nums).

(** The result of [batch_propose] for request [i]. *)
Definition read_draft (valid : list nat) (drafts : list (list Z)) (nums : list Z) (i : nat) : result (list Z) :=
  if bool_decide (i ∈ valid) then
    n ← of_option IndexError (nums !! i);
    if 0 <? n then row ← of_option IndexError (drafts !! i); Ok (py_slice row 0 n) else Ok []
  else Ok [].

(** [batch_propose]; [order] is the order in which the parallel loop runs. *)
Definition batch_propose (num_requests : nat) (valid order : list nat) (num_tokens_no_spec : list Z)
    (token_ids_cpu : list (list Z)) (p : NgramProposer) : result (list (list Z) * NgramProposer) :=
  '(drafts, nums) ← foldM (propose_one p num_tokens_no_spec token_ids_cpu) order
                      (valid_ngram_draft p, valid_ngram_num_drafts p);
  out ← mapR (read_draft valid drafts nums) (seq 0 num_requests);
  Ok (out, mkNgram (min_n p) (max_n p) (ng_k p) (ng_max_model_len p) drafts nums).

(** The requests [propose] drafts for. *)
Fixpoint valid_requests (max_model_len : Z) (num_tokens_no_spec : list Z) (i : nat) (sampled : list (list Z)) :
    result (list nat) :=
  match sampled with
  | [] => Ok []
  | ids :: sampled =>
      if (length ids =? 0)%nat then valid_requests max_model_len num_tokens_no_spec (S i) sampled else
      n ← of_option IndexError (num_tokens_no_spec !! i);
      rest ← valid_requests max_model_len num_tokens_no_spec (S i) sampled;
      Ok (if max_model_len <=? n then rest else i :: rest)
  end.

(** [propose]. *)
Definition propose (sampled_token_ids : list (list Z)) (num_tokens_no_spec : list Z) (token_ids_cpu : list (list Z))
    (reorder : list nat -> list nat) (p : NgramProposer) : result (list (list Z) * NgramProposer) :=
  valid ← valid_requests (ng_max_model_len p) num_tokens_no_spec 0 sampled_token_ids;
  batch_propose (length sampled_token_ids) valid (reorder valid) num_tokens_no_spec token_ids_cpu p.

(** [__init__]: zeroed buffers, then the warm-up call on 1024 requests that
    sampled nothing. *)
Definition ngram_init (prompt_lookup_min prompt_lookup_max : nat) (num_speculative_tokens max_model_len : Z)
    (max_num_seqs : nat) : result NgramProposer :=
  let p := mkNgram prompt_lookup_min prompt_lookup_max num_speculative_tokens max_model_len
             (replicate max_num_seqs (replicate (Z.to_nat num_speculative_tokens) 0)) (replicate max_num_seqs 0) in
  '(_, p) ← propose (replicate 1024 []) (replicate 1024 0)
              (replicate 1024 (replicate (Z.to_nat max_model_len) 0)) id p;
  Ok p.

Example ngram_example : find_longest_matched_ngram [1; 2; 3; 4; 1; 2; 3; 5; 1; 2; 3] 2 3 100 3 = Ok [4; 1; 2].
Proof. vm_compute. reflexivity. Qed.

(** * The scan finds the longest n-gram *)

(** [tokens[:v]] is a suffix of [tokens[:i]]. *)
Definition border (t : list Z) (v i : nat) : Prop :=
  (v ≤ i)%nat ∧ ∀ x, (x < v)%nat → t !! x = t !! (i - v + x)%nat.

Lemma border_0 t i : border t 0 i.
Proof. split; [lia|]. intros x; lia. Qed.

Lemma border_shorter t w v i : border t v i → border t w i → (w ≤ v)%nat → border t w v.
Proof.
  intros [Hv Ev] [Hw Ew] Hle. split; [done|]. intros x Hx.
  rewrite (Ew x Hx), (Ev (v - w + x)%nat) by lia. f_equal; lia.
Qed.

Lemma border_trans t w v i : border t w v → border t v i → border t w i.
Proof.
  intros [Hw Ew] [Hv Ev]. split; [lia|]. intros x Hx.
  rewrite (Ew x Hx), (Ev (v - w + x)%nat) by lia. f_equal; lia.
Qed.

Lemma border_S t v i : border t (S v) (S i) ↔ border t v i ∧ t !! v = t !! i.
Proof.
  split.
  - intros [Hv E]. split.
    + split; [lia|]. intros x Hx. rewrite E by lia. f_equal; lia.
    + rewrite E by lia. f_equal; lia.
  - intros [[Hv E] El]. split; [lia|]. intros x Hx.
    destruct (decide (x = v)) as [->|Hne].
    + rewrite El. f_equal; lia.
    + rewrite E by lia. f_equal; lia.
Qed.

(** [l] is the longest proper border of [tokens[:j]]. *)
Definition longest_border (t : list Z) (j l : nat) : Prop :=
  border t l j ∧ (l < j)%nat ∧ ∀ v, (v < j)%nat → border t v j → (v ≤ l)%nat.

(** An admissible n-gram of length [v] that ends at position [e]. *)
Definition candidate (t : list Z) (max_ngram v e : nat) : Prop :=
  (1 ≤ v ≤ max_ngram)%nat ∧ (v ≤ e)%nat ∧ border t v (S e).

(** The best candidate among those that end before [i]: the longest, and the
    last of that length. *)
Definition best_before (t : list Z) (max_ngram i longest pos : nat) : Prop :=
  (longest = 0%nat ∨ (candidate t max_ngram longest pos ∧ (pos < i)%nat))
  ∧ ∀ v e, (e < i)%nat → candidate t max_ngram v e → (v < longest ∨ (v = longest ∧ e ≤ pos))%nat.

(** The table of the first [max_ngram] prefixes, filled below [i]. *)
Definition table_ok (t : list Z) (max_ngram i : nat) (table : list nat) : Prop :=
  length table = max_ngram
  ∧ ∀ j l, table !! j = Some l → if decide (j < i)%nat then longest_border t (S j) l else l = 0%nat.

(** The loop invariant. *)
Record kmp_inv (t : list Z) (max_ngram : nat) (s : kmp) : Prop := {
  ki_idx : (1 ≤ idx s ≤ length t)%nat;
  ki_prev : border t (prev_lps s) (idx s) ∧ (prev_lps s < idx s)%nat ∧ (prev_lps s < max_ngram)%nat;
  ki_max : ∀ v, (v < max_ngram)%nat → (v < idx s)%nat → border t v (idx s) → t !! v = t !! idx s →
                (v ≤ prev_lps s)%nat;
  ki_table : table_ok t max_ngram (idx s) (lps s);
  ki_best : best_before t max_ngram (idx s) (longest_ngram s) (position s);
}.

Lemma table_lookup t m i table j :
  table_ok t m i table → (j < m)%nat → (j < i)%nat → ∃ l, table !! j = Some l ∧ longest_border t (S j) l.
Proof.
  intros [Hl H] Hj Hi. destruct (lookup_lt_is_Some_2 table j) as [l El]; [lia|].
  exists l. split; [done|]. specialize (H j l El). by rewrite decide_True in H.
Qed.

(** Position [i] is settled with the longest border [l] of [tokens[:i+1]]: the
    table entry is written when it is inside the table. *)
Lemma table_settle t m i table table' l :
  table_ok t m i table → ((i < m)%nat → longest_border t (S i) l) →
  length table' = length table →
  (∀ j, j ≠ i → table' !! j = table !! j) → ((i < m)%nat → table' !! i = Some l) →
  table_ok t m (S i) table'.
Proof.
  intros [Hl H] Hlb Hlen Hne Heq. split; [congruence|]. intros j x Ej.
  destruct (decide (j = i)) as [->|Hji].
  - pose proof (lookup_lt_Some _ _ _ Ej). rewrite decide_True by lia.
    rewrite Heq in Ej by lia. injection Ej as <-. apply Hlb; lia.
  - rewrite Hne in Ej by done. specialize (H j x Ej).
    destruct (decide (j < i)%nat); [rewrite decide_True by lia|rewrite decide_False by lia]; done.
Qed.

(** What is known about position [i] once its character has been compared: [l]
    is the longest border of [tokens[:i+1]] of length at most [max_ngram]. *)
Lemma best_settle t m i longest pos l :
  best_before t m i longest pos →
  (∀ v, (v ≤ m)%nat → (v < S i)%nat → border t v (S i) → (v ≤ l)%nat) →
  border t l (S i) → (l ≤ m)%nat → (l ≤ i)%nat →
  (l = 0%nat → best_before t m (S i) longest pos)
  ∧ ((1 ≤ l)%nat →
     best_before t m (S i) (if (longest <=? l)%nat then l else longest) (if (longest <=? l)%nat then i else pos)).
Proof.
  intros [Hb Hm] Hmax Hbl Hlm Hli. split.
  - intros ->. split.
    + destruct Hb as [?|[? ?]]; [by left|right; split; [done|lia]].
    + intros v e He Hc. destruct (decide (e = i)) as [->|]; [|apply Hm; [lia|done]].
      destruct Hc as (Hv & He' & Hbv). specialize (Hmax v ltac:(lia) ltac:(lia) Hbv). lia.
  - intros H1. destruct (Nat.leb_spec longest l) as [Hle|Hgt].
    + split.
      * right. split; [|lia]. split; [lia|]. by split.
      * intros v e He Hc. destruct (decide (e = i)) as [->|].
        -- destruct Hc as (Hv & He' & Hbv). specialize (Hmax v ltac:(lia) ltac:(lia) Hbv). lia.
        -- specialize (Hm v e ltac:(lia) Hc). lia.
    + split.
      * destruct Hb as [?|[? ?]]; [lia|right; split; [done|lia]].
      * intros v e He Hc. destruct (decide (e = i)) as [->|]; [|apply Hm; [lia|done]].
        destruct Hc as (Hv & He' & Hbv). specialize (Hmax v ltac:(lia) ltac:(lia) Hbv). lia.
Qed.

(** The longest border of [tokens[:i+1]] (up to [max_ngram]) after a match. *)
Lemma border_after_match t m s :
  kmp_inv t m s → t !! prev_lps s = t !! idx s →
  border t (S (prev_lps s)) (S (idx s))
  ∧ ∀ v, (v ≤ m)%nat → (v < S (idx s))%nat → border t v (S (idx s)) → (v ≤ S (prev_lps s))%nat.
Proof.
  intros I E. destruct (ki_prev _ _ _ I) as (Hb & Hlt & Hm). split; [by apply border_S|].
  intros [|v] Hv Hi Hbv; [lia|]. apply border_S in Hbv as [Hbv Ev].
  pose proof (ki_max _ _ _ I v ltac:(lia) ltac:(lia) Hbv Ev). lia.
Qed.

(** Without a match of the empty border there is no border at all. *)
Lemma border_after_mismatch t m s :
  kmp_inv t m s → t !! prev_lps s ≠ t !! idx s → prev_lps s = 0%nat →
  ∀ v, (v ≤ m)%nat → (v < S (idx s))%nat → border t v (S (idx s)) → (v ≤ 0)%nat.
Proof.
  intros I E E0 [|v] Hv Hi Hbv; [lia|]. apply border_S in Hbv as [Hbv Ev].
  pose proof (ki_max _ _ _ I v ltac:(lia) ltac:(lia) Hbv Ev). exfalso.
  apply E. by replace (prev_lps s) with v by lia.
Qed.

Definition kmp_measure (t : list Z) (s : kmp) : nat := (2 * (length t - idx s) + prev_lps s)%nat.

(** A round that matches. *)
Lemma kmp_step_match t m s a :
  kmp_inv t m s → (idx s < length t)%nat → t !! prev_lps s = Some a → t !! idx s = Some a →
  ∃ s', kmp_step t m s = Ok (Some s') ∧ kmp_inv t m s' ∧ (kmp_measure t s' < kmp_measure t s)%nat.
Proof.
  intros I Hi Ea Eb. destruct (border_after_match t m s I ltac:(congruence)) as [Hbd Hmax].
  destruct (ki_prev _ _ _ I) as (Hb & Hlt & Hm). destruct (ki_table _ _ _ I) as [Hlen _].
  set (table := if (idx s <? m)%nat then <[idx s := S (prev_lps s)]> (lps s) else lps s).
  assert (Htab : table_ok t m (S (idx s)) table).
  { apply (table_settle t m (idx s) (lps s) table (S (prev_lps s)) (ki_table _ _ _ I)); unfold table.
    - intros Him. split; [done|]. split; [lia|]. intros v Hv. apply Hmax; lia.
    - destruct (_ <? _)%nat; [by rewrite length_insert|done].
    - intros j Hj. destruct (_ <? _)%nat; [by rewrite list_lookup_insert_ne|done].
    - intros Him. apply Nat.ltb_lt in Him as Him'. rewrite Him'. apply list_lookup_insert_eq. lia. }
  destruct (best_settle t m (idx s) _ _ (S (prev_lps s)) (ki_best _ _ _ I) Hmax Hbd ltac:(lia) ltac:(lia))
    as [_ Hbest]. specialize (Hbest ltac:(lia)).
  unfold kmp_step. apply Nat.leb_gt in Hi as Hi'. rewrite Hi', Ea, Eb. cbn [mbind result_bind of_option].
  rewrite Z.eqb_refl. fold table.
  assert (Hnext : ∃ p, (if (S (prev_lps s) =? m)%nat then of_option IndexError (table !! (m - 1)%nat)
                        else Ok (S (prev_lps s))) = Ok p
    ∧ border t p (S (idx s)) ∧ (p ≤ S (prev_lps s))%nat ∧ (p < m)%nat
    ∧ ∀ v, (v < m)%nat → (v < S (idx s))%nat → border t v (S (idx s)) → (v ≤ p)%nat).
  { destruct (Nat.eqb_spec (S (prev_lps s)) m) as [Em|Em].
    - destruct (table_lookup t m _ table (m - 1) Htab) as (l & El & Hl); [lia..|].
      replace (S (m - 1)) with m in Hl by lia. destruct Hl as (Hl1 & Hl2 & Hl3).
      rewrite Em in Hbd. exists l. rewrite El. split; [done|]. split; [by apply (border_trans _ _ m)|].
      split; [lia|]. split; [lia|]. intros v Hv Hv' Hbv. apply Hl3; [done|].
      apply (border_shorter _ _ _ (S (idx s))); [done..|lia].
    - exists (S (prev_lps s)). split; [done|]. split; [done|]. split; [lia|]. split; [lia|].
      intros v Hv. apply Hmax; lia. }
  destruct Hnext as (p & -> & Hp1 & Hp2 & Hp3 & Hp4).
  destruct (longest_ngram s <=? S (prev_lps s))%nat; (eexists; split; [reflexivity|]); split;
    try (unfold kmp_measure; cbn [idx prev_lps]; lia);
    (split; cbn [idx prev_lps lps longest_ngram position];
     [lia | split; [done|lia] | intros v Hv Hv' Hbv _; by apply Hp4 | done | done]).
Qed.

(** A round that falls back to a shorter border. *)
Lemma kmp_step_fallback t m s a b :
  kmp_inv t m s → t !! prev_lps s = Some a → t !! idx s = Some b → a ≠ b → prev_lps s ≠ 0%nat →
  ∃ s', kmp_step t m s = Ok (Some s') ∧ kmp_inv t m s' ∧ (kmp_measure t s' < kmp_measure t s)%nat.
Proof.
  intros I Ea Eb Hne H0. pose proof (lookup_lt_Some _ _ _ Eb) as Hi.
  destruct (ki_prev _ _ _ I) as (Hb & Hlt & Hm).
  destruct (table_lookup t m _ _ (prev_lps s - 1) (ki_table _ _ _ I)) as (l & El & Hl); [lia..|].
  replace (S (prev_lps s - 1)) with (prev_lps s) in Hl by lia. destruct Hl as (Hl1 & Hl2 & Hl3).
  unfold kmp_step. apply Nat.leb_gt in Hi as Hi'. rewrite Hi', Ea, Eb. cbn [mbind result_bind of_option].
  apply Z.eqb_neq in Hne as Hne'. rewrite Hne'. apply Nat.eqb_neq in H0 as H0'. rewrite H0', El.
  cbn [negb mbind result_bind of_option]. eexists. split; [reflexivity|].
  split; [|unfold kmp_measure; cbn [idx prev_lps]; lia].
  split; cbn [idx prev_lps lps longest_ngram position];
    [apply I | | | apply I | apply I].
  - split; [by apply (border_trans _ _ (prev_lps s))|lia].
  - intros v Hv Hv' Hbv Ev. pose proof (ki_max _ _ _ I v Hv Hv' Hbv Ev) as Hle.
    apply Hl3; [|by apply (border_shorter _ _ _ (idx s))].
    destruct (decide (v = prev_lps s)) as [->|]; [congruence|lia].
Qed.

(** A round that gives up on a position. *)
Lemma kmp_step_skip t m s a b :
  kmp_inv t m s → t !! prev_lps s = Some a → t !! idx s = Some b → a ≠ b → prev_lps s = 0%nat →
  ∃ s', kmp_step t m s = Ok (Some s') ∧ kmp_inv t m s' ∧ (kmp_measure t s' < kmp_measure t s)%nat.
Proof.
  intros I Ea Eb Hne H0. pose proof (lookup_lt_Some _ _ _ Eb) as Hi.
  pose proof (border_after_mismatch t m s I ltac:(congruence) H0) as Hmax.
  destruct (ki_prev _ _ _ I) as (Hb & Hlt & Hm).
  unfold kmp_step. apply Nat.leb_gt in Hi as Hi'. rewrite Hi', Ea, Eb. cbn [mbind result_bind of_option].
  apply Z.eqb_neq in Hne as Hne'. rewrite Hne', H0.
  cbn [negb Nat.eqb mbind result_bind of_option]. eexists. split; [reflexivity|].
  split; [|unfold kmp_measure; cbn [idx prev_lps]; lia].
  split; cbn [idx prev_lps lps longest_ngram position].
  - lia.
  - split; [apply border_0|lia].
  - intros v Hv Hv' Hbv _. apply Hmax; [lia..|done].
  - apply (table_settle t m (idx s) (lps s) (lps s) 0 (ki_table _ _ _ I)); [|done..|].
    + intros Him. split; [apply border_0|]. split; [lia|]. intros v Hv. apply Hmax; lia.
    + intros Him. destruct (ki_table _ _ _ I) as [Hlen Ht].
      destruct (lookup_lt_is_Some_2 (lps s) (idx s)) as [l El]; [lia|].
      specialize (Ht _ _ El). rewrite decide_False in Ht by lia. by subst l.
  - apply (best_settle t m (idx s) _ _ 0 (ki_best _ _ _ I) Hmax (border_0 _ _)); lia.
Qed.

(** Every round succeeds, keeps the invariant and makes progress. *)
Lemma kmp_step_ok t m s :
  kmp_inv t m s → (idx s < length t)%nat →
  ∃ s', kmp_step t m s = Ok (Some s') ∧ kmp_inv t m s' ∧ (kmp_measure t s' < kmp_measure t s)%nat.
Proof.
  intros I Hi. destruct (ki_prev _ _ _ I) as (Hb & Hlt & Hm).
  destruct (lookup_lt_is_Some_2 t (prev_lps s)) as [a Ea]; [lia|].
  destruct (lookup_lt_is_Some_2 t (idx s)) as [b Eb]; [lia|].
  destruct (decide (a = b)) as [->|Hne]; [by apply (kmp_step_match t m s b)|].
  destruct (decide (prev_lps s = 0%nat)); [by apply (kmp_step_skip t m s a b)|by apply (kmp_step_fallback t m s a b)].
Qed.

Lemma kmp_loop_ok t m fuel s :
  kmp_inv t m s → (kmp_measure t s < fuel)%nat →
  ∃ s', kmp_loop fuel t m s = Ok s' ∧ kmp_inv t m s' ∧ idx s' = length t.
Proof.
  revert s. induction fuel as [|fuel IH]; intros s I Hf; [lia|]. cbn [kmp_loop].
  destruct (decide (idx s < length t)%nat) as [Hi|Hi].
  - destruct (kmp_step_ok t m s I Hi) as (s' & -> & I' & Hlt). cbn [mbind result_bind]. apply IH; [done|lia].
  - unfold kmp_step. destruct (Nat.leb_spec (length t) (idx s)); [|lia]. cbn [mbind result_bind].
    exists s. split; [done|]. split; [done|]. pose proof (ki_idx _ _ _ I). lia.
Qed.

Lemma kmp_init t m : (1 ≤ m)%nat → (1 ≤ length t)%nat → kmp_inv t m (mkKmp (replicate m 0%nat) 0 0 0 1).
Proof.
  intros Hm Ht. split; cbn [idx prev_lps lps longest_ngram position].
  - lia.
  - split; [apply border_0|lia].
  - intros v Hv. lia.
  - split; [by rewrite length_replicate|]. intros j l [-> Hj]%lookup_replicate.
    destruct (decide (j < 1)%nat) as [Hj1|]; [|done]. assert (j = 0%nat) as -> by lia.
    split; [apply border_0|]. split; [lia|]. intros v Hv. lia.
  - split; [by left|]. intros v e He (Hv & Hve & _). lia.
Qed.

(** The scan as a whole: it ends and returns the best candidate. *)
Lemma kmp_scan t m :
  (1 ≤ m)%nat → (1 ≤ length t)%nat →
  ∃ s, kmp_loop (2 * length t + 1) t m (mkKmp (replicate m 0%nat) 0 0 0 1) = Ok s
       ∧ best_before t m (length t) (longest_ngram s) (position s).
Proof.
  intros Hm Ht.
  destruct (kmp_loop_ok t m (2 * length t + 1) _ (kmp_init t m Hm Ht)) as (s & E & I & Hi);
    [unfold kmp_measure; cbn [idx prev_lps]; lia|].
  exists s. split; [done|]. rewrite <- Hi. apply I.
Qed.

(** * The reference definition *)

(** The last [v] tokens occur at [j]. *)
Definition occurs (s : list Z) (v j : nat) : Prop := take v (drop j s) = drop (length s - v) s.

#[export] Instance occurs_dec s v j : Decision (occurs s v j).
Proof. unfold occurs. apply _. Defined.

(** The first earlier occurrence of the last [v] tokens. *)
Definition first_occurrence (s : list Z) (v : nat) : option nat :=
  snd <$> list_find (occurs s v) (seq 0 (length s - v)).

(** The longest suffix of length between [min] and [max] that occurs earlier,
    with its first occurrence. *)
Fixpoint longest_match (s : list Z) (min max : nat) : option (nat * nat) :=
  match max with
  | O => None
  | S m =>
      if (S m <? min)%nat then None else
      match first_occurrence s (S m) with
      | Some j => Some (S m, j)
      | None => longest_match s min m
      end
  end.

(** What the drafter should propose: the tokens that followed that occurrence. *)
Definition ngram_reference (s : list Z) (min max : nat) (max_model_len k : Z) : list Z :=
  match longest_match s min max with
  | Some (v, j) => take (Z.to_nat (Z.min k (max_model_len - py_len s))) (drop (j + v) s)
  | None => []
  end.

Lemma first_occurrence_None s v : (∀ j, (j < length s - v)%nat → ¬ occurs s v j) → first_occurrence s v = None.
Proof.
  intros H. unfold first_occurrence. apply fmap_None, list_find_None, Forall_forall.
  intros j Hj%elem_of_seq. apply H. lia.
Qed.

Lemma first_occurrence_Some s v j :
  (j < length s - v)%nat → occurs s v j → (∀ j', (j' < j)%nat → ¬ occurs s v j') →
  first_occurrence s v = Some j.
Proof.
  intros Hj Ho Hf. unfold first_occurrence. apply fmap_Some. exists (j, j). split; [|done].
  apply list_find_Some. split; [by rewrite lookup_seq_lt|]. split; [done|].
  intros i y [-> _]%lookup_seq Hi. by apply Hf.
Qed.

Lemma longest_match_None s min max :
  (∀ v j, (1 ≤ v)%nat → (min ≤ v ≤ max)%nat → (j < length s - v)%nat → ¬ occurs s v j) → longest_match s min max = None.
Proof.
  induction max as [|m IH]; intros H; [done|]. cbn [longest_match].
  destruct (Nat.ltb_spec (S m) min); [done|].
  rewrite first_occurrence_None by (intros; apply H; lia). apply IH. intros v j Hv1 Hv Hj. apply H; lia.
Qed.

Lemma longest_match_Some s min max v j :
  (1 ≤ v)%nat → (min ≤ v ≤ max)%nat → (j < length s - v)%nat → occurs s v j →
  (∀ j', (j' < j)%nat → ¬ occurs s v j') →
  (∀ v' j', (v < v' ≤ max)%nat → (j' < length s - v')%nat → ¬ occurs s v' j') →
  longest_match s min max = Some (v, j).
Proof.
  induction max as [|m IH]; intros H1 Hv Hj Ho Hf Hl; [lia|]. cbn [longest_match].
  destruct (Nat.ltb_spec (S m) min); [lia|].
  destruct (decide (v = S m)) as [->|Hne].
  - by rewrite (first_occurrence_Some s (S m) j).
  - rewrite first_occurrence_None by (intros; apply Hl; lia).
    apply IH; [done|lia|done..|]. intros v' j' Hv' Hj'. apply Hl; lia.
Qed.

(** Occurrences in the tokens are candidates in the reversed tokens. *)
Lemma occurs_lookup s v j :
  (j < length s - v)%nat →
  (occurs s v j ↔ ∀ y, (y < v)%nat → s !! (j + y)%nat = s !! (length s - v + y)%nat).
Proof.
  intros Hj. unfold occurs. split.
  - intros E y Hy. rewrite <- !lookup_drop, <- E. by rewrite lookup_take_lt.
  - intros H. apply list_eq. intros y. rewrite lookup_drop.
    destruct (decide (y < v)%nat) as [Hy|Hy].
    + rewrite lookup_take_lt, lookup_drop by done. by apply H.
    + rewrite lookup_take_ge by lia. symmetry. apply lookup_ge_None. lia.
Qed.

Lemma candidate_occurs s m v e :
  (e < length s)%nat → (1 ≤ v ≤ m)%nat → (v ≤ e)%nat →
  (candidate (reverse s) m v e ↔ occurs s v (length s - 1 - e)).
Proof.
  intros He Hv Hve. rewrite occurs_lookup by lia. unfold candidate, border. split.
  - intros (_ & _ & _ & H) y Hy. specialize (H (v - 1 - y)%nat ltac:(lia)).
    rewrite !reverse_lookup in H by lia. etrans; [|etrans; [symmetry; apply H|]]; f_equal; lia.
  - intros H. split; [done|]. split; [done|]. split; [lia|]. intros x Hx.
    specialize (H (v - 1 - x)%nat ltac:(lia)). rewrite !reverse_lookup by lia.
    etrans; [|etrans; [symmetry; apply H|]]; f_equal; lia.
Qed.

(** The result of the scan is the result of the reference search. *)
Lemma best_is_longest s min max longest pos :
  (1 ≤ min ≤ max)%nat → best_before (reverse s) max (length s) longest pos →
  if (longest <? min)%nat then longest_match s min max = None
  else longest_match s min max = Some (longest, (length s - 1 - pos)%nat)
       ∧ (longest ≤ pos < length s)%nat ∧ (longest ≤ max)%nat.
Proof.
  intros Hm [Hb Hmax].
  assert (Hocc : ∀ v j, (1 ≤ v ≤ max)%nat → (j < length s - v)%nat → occurs s v j →
                        (v < longest ∨ (v = longest ∧ length s - 1 - j ≤ pos))%nat).
  { intros v j Hv Hj Ho. apply (Hmax v (length s - 1 - j)%nat); [lia|].
    apply candidate_occurs; [lia..|]. by replace (length s - 1 - (length s - 1 - j))%nat with j by lia. }
  destruct (Nat.ltb_spec longest min) as [Hlt|Hge].
  - apply longest_match_None. intros v j Hv1 Hv Hj Ho. specialize (Hocc v j ltac:(lia) Hj Ho). lia.
  - destruct Hb as [?|[Hc Hp]]; [lia|]. pose proof Hc as (Hv & Hvp & _).
    split; [|lia]. apply candidate_occurs in Hc; [|lia..].
    apply longest_match_Some; [lia..|done| |].
    + intros j' Hj' Ho. specialize (Hocc longest j' ltac:(lia) ltac:(lia) Ho). lia.
    + intros v' j' Hv' Hj' Ho. specialize (Hocc v' j' ltac:(lia) Hj' Ho). lia.
Qed.

Lemma reference_too_short s min max max_model_len k :
  (1 ≤ min)%nat → (length s < min)%nat → ngram_reference s min max max_model_len k = [].
Proof.
  intros H1 Hs. unfold ngram_reference. rewrite longest_match_None; [done|]. intros v j Hv Hm Hj. lia.
Qed.

Lemma reference_no_room s min max max_model_len k :
  Z.min k (max_model_len - py_len s) <= 0 → ngram_reference s min max max_model_len k = [].
Proof.
  intros H. unfold ngram_reference. destruct (longest_match s min max) as [[v j]|]; [|done].
  by replace (Z.to_nat _) with 0%nat by lia.
Qed.

(** The linear-time scan ends without an exception and proposes exactly what the
    naive search proposes. *)
Lemma find_ngram_eq s min max max_model_len k :
  (1 ≤ min ≤ max)%nat →
  find_longest_matched_ngram s min max max_model_len k = Ok (ngram_reference s min max max_model_len k).
Proof.
  intros Hm. unfold find_longest_matched_ngram.
  destruct (Nat.ltb_spec (length s) min) as [Hs|Hs]; [by rewrite reference_too_short by lia|].
  change (Z.of_nat (length s)) with (py_len s).
  destruct (Z.leb_spec (Z.min k (max_model_len - py_len s)) 0) as [Hk|Hk]; [by rewrite reference_no_room|].
  destruct (kmp_scan (reverse s) max) as (st & E & Hbest); [lia|rewrite length_reverse; lia|].
  rewrite length_reverse in E, Hbest. rewrite E. cbn [mbind result_bind].
  pose proof (best_is_longest s min max _ _ Hm Hbest) as Hl. unfold ngram_reference.
  destruct (Nat.ltb_spec (longest_ngram st) min); [by rewrite Hl|].
  destruct Hl as (-> & Hp & Hlm). f_equal.
  set (j := (length s - 1 - position st)%nat).
  replace (py_len s - 1 - Z.of_nat (position st) + Z.of_nat (longest_ngram st))
    with (Z.of_nat (j + longest_ngram st)) by (unfold py_len, j; lia).
  set (w := Z.min k (max_model_len - py_len s)) in *.
  assert (Hj : (j + longest_ngram st < length s)%nat) by (unfold j; lia).
  rewrite py_slice_nonneg by (unfold py_len; lia). rewrite Nat2Z.id.
  destruct (Z.min_spec w (py_len s - Z.of_nat (j + longest_ngram st))) as [[_ ->]|[Hw ->]].
  - f_equal. lia.
  - unfold py_len in *. rewrite !take_ge by (rewrite length_drop; lia). done.
Qed.

Lemma reference_length s min max max_model_len k :
  0 <= k → py_len (ngram_reference s min max max_model_len k) <= k.
Proof.
  intros Hk. unfold ngram_reference. destruct (longest_match s min max) as [[v j]|]; [|done].
  unfold py_len. rewrite length_take. lia.
Qed.

(** * The batch *)
Section batch.
Context (p : NgramProposer) (num_tokens_no_spec : list Z) (token_ids_cpu : list (list Z)).
Context (Hn : (1 ≤ min_n p ≤ max_n p)%nat) (Hk : 0 <= ng_k p).

(** The draft request [i] should get: the reference on its own tokens. *)
Definition own_draft (i : nat) : list Z :=
  ngram_reference (py_slice (token_ids_cpu !!! i) 0 (num_tokens_no_spec !!! i))
    (min_n p) (max_n p) (ng_max_model_len p) (ng_k p).

(** The shape of the two buffers for [m] requests. *)
Definition buffers_ok (m : nat) (s : list (list Z) * list Z) : Prop :=
  length s.1 = m ∧ length s.2 = m ∧ Forall (λ row, py_len row = ng_k p) s.1.

(** The buffers hold the draft of request [i]. *)
Definition holds_draft (s : list (list Z) * list Z) (i : nat) : Prop :=
  s.2 !! i = Some (py_len (own_draft i)) ∧ take (length (own_draft i)) (s.1 !!! i) = own_draft i.

Lemma own_draft_length i : py_len (own_draft i) <= ng_k p.
Proof using Hk. by apply reference_length. Qed.

Lemma propose_one_ok m s i :
  buffers_ok m s → (i < m)%nat → (i < length num_tokens_no_spec)%nat → (i < length token_ids_cpu)%nat →
  ∃ s', propose_one p num_tokens_no_spec token_ids_cpu s i = Ok s' ∧ buffers_ok m s' ∧ holds_draft s' i
        ∧ ∀ j, holds_draft s j → holds_draft s' j.
Proof using Hn Hk.
  destruct s as [drafts nums]. intros (Hd & Hs & Hrows) Hi Hi1 Hi2. cbn [fst snd] in *.
  unfold propose_one.
  destruct (lookup_lt_is_Some_2 num_tokens_no_spec i Hi1) as [n En].
  destruct (lookup_lt_is_Some_2 token_ids_cpu i Hi2) as [row Er].
  destruct (lookup_lt_is_Some_2 drafts i) as [drow Ed]; [lia|].
  rewrite En, Er. cbn [mbind result_bind of_option]. rewrite find_ngram_eq by done. cbn [mbind result_bind].
  assert (Eo : ngram_reference (py_slice row 0 n) (min_n p) (max_n p) (ng_max_model_len p) (ng_k p) = own_draft i).
  { unfold own_draft. by rewrite (list_lookup_total_correct _ _ _ En), (list_lookup_total_correct _ _ _ Er). }
  rewrite Eo. destruct (Nat.ltb_spec i (length nums)); [|lia]. cbn [mbind result_bind].
  pose proof (own_draft_length i) as Hlen.
  destruct (Nat.eqb_spec (length (own_draft i)) 0) as [E0|E0].
  - eexists. split; [reflexivity|]. split; [split; [done|split; [|done]]; cbn [snd]; by rewrite length_insert|].
    apply nil_length_inv in E0. split.
    + split; cbn [fst snd]; [by apply list_lookup_insert_eq|]. by rewrite E0.
    + intros j [Hj1 Hj2]. split; cbn [fst snd] in *; [|done].
      destruct (decide (i = j)) as [<-|]; [by apply list_lookup_insert_eq|by rewrite list_lookup_insert_ne].
  - rewrite Ed. cbn [mbind result_bind of_option]. unfold set_prefix.
    pose proof (Forall_lookup_1 _ _ _ _ Hrows Ed) as Hdrow. cbn beta in Hdrow. unfold py_len in *.
    destruct (Nat.leb_spec (length (own_draft i)) (length drow)); [|lia]. cbn [mbind result_bind].
    assert (Hhere : holds_draft (<[i:=own_draft i ++ drop (length (own_draft i)) drow]> drafts,
                                 <[i:=Z.of_nat (length (own_draft i))]> nums) i).
    { split; cbn [fst snd]; [by apply list_lookup_insert_eq|].
      rewrite list_lookup_total_insert_eq by lia. by rewrite take_app_length. }
    eexists. split; [reflexivity|]. split.
    { split; cbn [fst snd]; rewrite ?length_insert; [done|]. split; [done|].
      apply Forall_insert; [done|]. unfold py_len. rewrite length_app, length_drop. lia. }
    split; [exact Hhere|]. intros j Hj. destruct (decide (i = j)) as [<-|Hij]; [exact Hhere|].
    destruct Hj as [Hj1 Hj2]. split; cbn [fst snd] in *.
    + by rewrite list_lookup_insert_ne.
    + by rewrite list_lookup_total_insert_ne.
Qed.

(** The parallel loop, in any order: every request of the list gets its own
    draft, and drafts that are already there stay. *)
Lemma propose_loop_ok m order s :
  buffers_ok m s →
  Forall (λ i, (i < m)%nat ∧ (i < length num_tokens_no_spec)%nat ∧ (i < length token_ids_cpu)%nat) order →
  ∃ s', foldM (propose_one p num_tokens_no_spec token_ids_cpu) order s = Ok s' ∧ buffers_ok m s'
        ∧ (∀ i, i ∈ order → holds_draft s' i) ∧ ∀ j, holds_draft s j → holds_draft s' j.
Proof using Hn Hk.
  revert s. induction order as [|i order IH]; intros s Hb Ho.
  - exists s. split; [done|]. split; [done|]. split; [|done]. intros i Hi. by apply elem_of_nil in Hi.
  - apply Forall_cons in Ho as [(H1 & H2 & H3) Ho].
    destruct (propose_one_ok m s i Hb H1 H2 H3) as (s1 & E1 & Hb1 & Hi1 & Hk1).
    destruct (IH s1 Hb1 Ho) as (s2 & E2 & Hb2 & Hi2 & Hk2).
    exists s2. cbn [foldM]. rewrite E1. cbn [mbind result_bind]. split; [done|]. split; [done|].
    split; [|by eauto]. intros j [->|Hj]%elem_of_cons; [by apply Hk2|by apply Hi2].
Qed.

Lemma read_draft_ok valid m s i :
  buffers_ok m s → (i ∈ valid → holds_draft s i ∧ (i < m)%nat) →
  read_draft valid s.1 s.2 i = Ok (if bool_decide (i ∈ valid) then own_draft i else []).
Proof using.
  clear Hn Hk. intros (Hd & Hs & Hrows) Hv. unfold read_draft. case_bool_decide as Hi; [|done].
  destruct (Hv Hi) as [[H1 H2] Hm]. rewrite H1. cbn [mbind result_bind of_option].
  destruct (lookup_lt_is_Some_2 (s.1) i) as [drow Ed]; [lia|].
  rewrite (list_lookup_total_correct _ _ _ Ed) in H2. rewrite Ed. cbn [mbind result_bind of_option].
  unfold py_len in *. destruct (Z.ltb_spec 0 (Z.of_nat (length (own_draft i)))) as [Hl|Hl].
  - rewrite py_slice_nonneg by lia. f_equal. rewrite <- H2 at 2. cbn [drop Z.to_nat]. f_equal. lia.
  - f_equal. symmetry. apply nil_length_inv. lia.
Qed.
End batch.

(** The requests [propose] skips: nothing was sampled, or no room is left. *)
Definition drafts_for (max_model_len : Z) (num_tokens_no_spec : list Z) (i : nat) (ids : list Z) : bool :=
  negb (length ids =? 0)%nat && (num_tokens_no_spec !!! i <? max_model_len).

Lemma valid_requests_ok max_model_len nts i sampled :
  (i + length sampled ≤ length nts)%nat →
  ∃ valid, valid_requests max_model_len nts i sampled = Ok valid
    ∧ ∀ j, j ∈ valid ↔ ∃ o ids, j = (i + o)%nat ∧ sampled !! o = Some ids ∧ drafts_for max_model_len nts j ids = true.
Proof.
  revert i. induction sampled as [|ids sampled IH]; intros i Hl; cbn [valid_requests].
  - exists []. split; [done|]. intros j. split; [by intros ?%elem_of_nil|]. intros (o & ids & _ & ? & _). done.
  - cbn [length] in Hl. destruct (IH (S i) ltac:(lia)) as (valid & E & Hv).
    destruct (lookup_lt_is_Some_2 nts i) as [n En]; [lia|].
    assert (Hrest : ∀ j, j ∈ valid ↔ ∃ o ids', j = (i + S o)%nat ∧ (ids :: sampled) !! S o = Some ids'
                                     ∧ drafts_for max_model_len nts j ids' = true).
    { intros j. rewrite Hv. split; intros (o & ids' & Ej & ? & ?); exists o, ids'; (split; [lia|done]). }
    assert (Hhead : drafts_for max_model_len nts i ids = negb (length ids =? 0)%nat && (n <? max_model_len)).
    { unfold drafts_for. by rewrite (list_lookup_total_correct _ _ _ En). }
    exists (if drafts_for max_model_len nts i ids then i :: valid else valid). split.
    + rewrite Hhead, En, E. cbn [mbind result_bind of_option].
      destruct (length ids =? 0)%nat; cbn [negb andb]; [done|].
      rewrite Z.ltb_antisym. by destruct (max_model_len <=? n).
    + intros j. transitivity (j ∈ valid ∨ (j = i ∧ drafts_for max_model_len nts i ids = true)).
      { destruct (drafts_for max_model_len nts i ids); rewrite ?elem_of_cons; naive_solver. }
      rewrite Hrest. split.
      * intros [(o & ids' & H1 & H2 & H3)|[-> H]]; [by exists (S o), ids'|].
        exists 0%nat, ids. split; [lia|done].
      * intros ([|o] & ids' & H1 & H2 & H3); [right|left; by exists o, ids'].
        simplify_eq/=. rewrite Nat.add_0_r in *. done.
Qed.

(** C16: whatever the parallel loop's order and whatever earlier calls left in the
    shared buffers, [propose] returns without an exception, in order, for every
    request that sampled a token and has room left, the draft the naive n-gram
    search finds in that request's own tokens (the longest suffix of
    [min_n..max_n] tokens that occurs earlier, at its first occurrence, and the
    tokens that followed it, cut at [k] and at the maximum model length), and
    the empty draft for the others; the buffers keep their shape. *)
Theorem ngram_propose_correct p sampled nts rows reorder m :
  (1 ≤ min_n p ≤ max_n p)%nat → 0 <= ng_k p →
  (length sampled ≤ length nts)%nat → (length sampled ≤ length rows)%nat → (length sampled ≤ m)%nat →
  buffers_ok p m (valid_ngram_draft p, valid_ngram_num_drafts p) →
  (∀ valid, reorder valid ≡ₚ valid) →
  ∃ p', propose sampled nts rows reorder p
        = Ok (imap (λ i ids, if drafts_for (ng_max_model_len p) nts i ids then own_draft p nts rows i else []) sampled, p')
    ∧ buffers_ok p' m (valid_ngram_draft p', valid_ngram_num_drafts p').
Proof.
  intros Hn Hk Hl1 Hl2 Hm Hb Hr. unfold propose.
  destruct (valid_requests_ok (ng_max_model_len p) nts 0 sampled ltac:(lia)) as (valid & -> & Hv).
  cbn [mbind result_bind]. unfold batch_propose.
  assert (Hin : ∀ i, i ∈ valid → (i < length sampled)%nat).
  { intros i (o & ids & -> & Ho & _)%Hv. by apply lookup_lt_Some in Ho. }
  destruct (propose_loop_ok p nts rows Hn Hk m (reorder valid) _ Hb) as ([drafts nums] & -> & Hb' & Hd & _).
  { apply Forall_forall. intros i Hi. rewrite Hr in Hi. apply Hin in Hi. lia. }
  cbn [mbind result_bind].
  rewrite (mapR_pure _ (λ i, if bool_decide (i ∈ valid) then own_draft p nts rows i else [])).
  2: { intros i _. apply (read_draft_ok p nts rows valid m (drafts, nums)); [done|].
       intros Hi. split; [apply Hd; by rewrite Hr|]. apply Hin in Hi. lia. }
  cbn [mbind result_bind].
  exists (mkNgram (min_n p) (max_n p) (ng_k p) (ng_max_model_len p) drafts nums). split; [|exact Hb']. do 2 f_equal.
  apply list_eq. intros i. rewrite list_lookup_fmap, list_lookup_imap.
  destruct (sampled !! i) as [ids|] eqn:E.
  - pose proof (lookup_lt_Some _ _ _ E). rewrite lookup_seq_lt by done. cbn. f_equal.
    assert (Hiff : i ∈ valid ↔ drafts_for (ng_max_model_len p) nts i ids = true).
    { rewrite Hv. split; [intros (o & ids' & -> & Eo & Hdf); cbn in *; by simplify_eq|]. intros Hdf. by exists i, ids. }
    rewrite (bool_decide_ext _ _ Hiff). by destruct (drafts_for _ _ _ _).
  - apply lookup_ge_None in E. rewrite lookup_seq_ge by lia. done.
Qed.

Lemma valid_requests_nothing_sampled max_model_len nts i n :
  valid_requests max_model_len nts i (replicate n []) = Ok [].
Proof. revert i. induction n as [|n IH]; intros i; [done|]. apply IH. Qed.

(** The proposer starts with buffers of the right shape; the warm-up call does
    not touch them. *)
Lemma ngram_init_ok lo hi k max_model_len seqs :
  0 <= k →
  ∃ p, ngram_init lo hi k max_model_len seqs = Ok p
    ∧ buffers_ok p seqs (valid_ngram_draft p, valid_ngram_num_drafts p)
    ∧ min_n p = lo ∧ max_n p = hi ∧ ng_k p = k ∧ ng_max_model_len p = max_model_len.
Proof.
  intros Hk. unfold ngram_init, propose. cbn [ng_max_model_len]. rewrite valid_requests_nothing_sampled.
  cbn [mbind result_bind]. unfold batch_propose. cbn [id foldM mbind result_bind]. rewrite length_replicate.
  rewrite (mapR_pure _ (λ _, [])) by done. cbn [mbind result_bind].
  eexists. split; [reflexivity|]. split; [|done].
  split; [apply length_replicate|]. split; [apply length_replicate|].
  apply Forall_replicate. unfold py_len. rewrite length_replicate. cbn. lia.
Qed.

(** The buffers after an earlier call still hold its drafts. *)
Definition stale_proposer : NgramProposer := mkNgram 1 2 2 16 [[7; 7]; [8; 8]; [9; 9]] [2; 2; 2].

(** Three requests: one repeats itself, one sampled nothing, one has no match; the
    loop runs backwards over buffers that hold old drafts. *)
Lemma ngram_propose_correct_witness :
  ∃ p', propose [[2]; []; [5]] [5; 4; 3] [[1; 2; 3; 1; 2; 0]; [1; 1; 1; 1; 0; 0]; [3; 4; 5; 0; 0; 0]]
          reverse stale_proposer = Ok ([[3; 1]; []; []], p')
        ∧ buffers_ok p' 3 (valid_ngram_draft p', valid_ngram_num_drafts p').
Proof.
  apply (ngram_propose_correct stale_proposer [[2]; []; [5]] [5; 4; 3]
           [[1; 2; 3; 1; 2; 0]; [1; 1; 1; 1; 0; 0]; [3; 4; 5; 0; 0; 0]] reverse 3);
    [cbn; lia..| |intros valid; apply reverse_Permutation].
  split; [reflexivity|]. split; [reflexivity|]. repeat constructor.
Defined.
