(* ===== verification/Tensor.v ===== *)
(** Tensors as nested lists, and kernels that update them cell by cell.

    A contiguous tensor of [n] dimensions is an [n]-fold nested list, addressed by
    a tuple of indices.  The class [Cells] states what a kernel proof needs from
    such a store; the launches below are proved against the class, for any order
    in which the programs run. *)
From S2P Require Import Prelude.
Local Open Scope nat_scope.

(** * Stores with addressable cells *)
Class Cells (K S V : Type) := {
  cell_get : K -> S -> option V;
  cell_put : K -> V -> S -> S;
}.

Class CellsLaws (K S V : Type) `{!Cells K S V} := {
  cell_get_put_eq k v s : is_Some (cell_get k s) -> cell_get k (cell_put k v s) = Some v;
  cell_get_put_ne k k' v s : k ≠ k' -> cell_get k' (cell_put k v s) = cell_get k' s;
}.

(** One dimension. *)
#[export] Instance list_cells {V} : Cells nat (list V) V := {|
  cell_get i l := l !! i;
  cell_put i v l := <[i := v]> l;
|}.

#[export] Instance list_cells_laws {V} : CellsLaws nat (list V) V.
Proof.
  split.
  - intros i v l Hi. apply list_lookup_insert_eq. by apply lookup_lt_is_Some.
  - intros i j v l Hij. by apply list_lookup_insert_ne.
Qed.

(** One more dimension. *)
#[export] Instance nested_cells {K S V} `{!Cells K S V} : Cells (nat * K) (list S) V := {|
  cell_get k l := l !! k.1 ≫= cell_get k.2;
  cell_put k v l := alter (cell_put k.2 v) k.1 l;
|}.

#[export] Instance nested_cells_laws {K S V} `{!Cells K S V} `{!CellsLaws K S V} : CellsLaws (nat * K) (list S) V.
Proof.
  split.
  - intros [i k] v l [x Hx]. cbn in *. rewrite list_lookup_alter_eq.
    destruct (l !! i) as [s|]; [|done]. cbn in *. apply cell_get_put_eq. eauto.
  - intros [i k] [j k'] v l Hne. cbn. destruct (decide (i = j)) as [->|Hij].
    + rewrite list_lookup_alter_eq. destruct (l !! j) as [s|]; [|done]. cbn. apply cell_get_put_ne. congruence.
    + by rewrite list_lookup_alter_ne.
Qed.

(** Two tensors addressed together. *)
#[export] Instance pair_cells {K S V S' V'} `{!Cells K S V} `{!Cells K S' V'} : Cells K (S * S') (V * V') := {|
  cell_get k s := x ← cell_get k s.1; y ← cell_get k s.2; Some (x, y);
  cell_put k v s := (cell_put k v.1 s.1, cell_put k v.2 s.2);
|}.

#[export] Instance pair_cells_laws {K S V S' V'} `{!Cells K S V} `{!CellsLaws K S V} `{!Cells K S' V'} `{!CellsLaws K S' V'} :
  CellsLaws K (S * S') (V * V').
Proof.
  split.
  - intros k [v w] [s t] [x Hx]. cbn in *.
    destruct (cell_get k s) as [a|] eqn:Ea; [|done]. destruct (cell_get k t) as [b|] eqn:Eb; [|done].
    rewrite !cell_get_put_eq; [done|eauto..].
  - intros k k' [v w] [s t] Hne. cbn. by rewrite !cell_get_put_ne.
Qed.

(** * Programs that update cells *)
Section Updates.
Context {K S V : Type} `{!EqDecision K} `{!Cells K S V} `{!CellsLaws K S V}.
Implicit Types (s : S) (k : K).

(** Read cell [k], compute, write it back; [IndexError] outside the store. *)
Definition cell_update (g : K -> V -> result V) (s : S) (k : K) : result S :=
  v ← of_option IndexError (cell_get k s);
  v ← g k v;
  Ok (cell_put k v s).

(** [s'] has every property of [s] that writing cells preserves: its shape. *)
Definition keeps_shape (s s' : S) : Prop :=
  forall P : S -> Prop, (forall k v s, P s -> P (cell_put k v s)) -> P s -> P s'.

(** A run over a list of cells, each updated once or idempotently: the order does
    not matter. *)
Lemma foldM_cells g (h : K -> V) ks s :
  (forall k, k ∈ ks -> exists v, cell_get k s = Some v /\ g k v = Ok (h k)) ->
  NoDup ks \/ (forall k, k ∈ ks -> g k (h k) = Ok (h k)) ->
  exists s', foldM (cell_update g) ks s = Ok s' /\
    (forall k, cell_get k s' = if decide (k ∈ ks) then Some (h k) else cell_get k s) /\
    keeps_shape s s'.
Proof.
  intros Hok Honce.
  destruct (foldM_inv (cell_update g)
    (fun pre s' => (forall k, cell_get k s' = if decide (k ∈ pre) then Some (h k) else cell_get k s) /\ keeps_shape s s') ks s)
    as (s' & E & Hs' & Hsh); [| |by eauto].
  - split; [|by intros P _]. intros k. by rewrite decide_False by set_solver.
  - intros pre k post s1 E [H1 Hsh1].
    assert (exists w, cell_get k s1 = Some w /\ g k w = Ok (h k)) as (w & E1 & Eg).
    { rewrite H1. case_decide as Hk; [|apply Hok; set_solver]. exists (h k). split; [done|].
      destruct Honce as [Hnd|Hi]; [|apply Hi; set_solver].
      rewrite E in Hnd. apply NoDup_app in Hnd as (_ & Hd & _). set_solver. }
    unfold cell_update. rewrite E1. cbn [of_option mbind result_bind]. rewrite Eg. cbn [mbind result_bind].
    eexists. split; [done|]. split; [|intros P HP Hs; by apply HP, Hsh1].
    intros k'. destruct (decide (k = k')) as [<-|Hne].
    + rewrite cell_get_put_eq by eauto. by rewrite decide_True by set_solver.
    + rewrite cell_get_put_ne, H1 by done. destruct (decide (k' ∈ pre)).
      * by rewrite decide_True by set_solver.
      * rewrite decide_False; [done|]. set_solver.
Qed.

Lemma foldM_cell_update g (h : K -> V) ks s :
  NoDup ks -> (forall k, k ∈ ks -> exists v, cell_get k s = Some v /\ g k v = Ok (h k)) ->
  exists s', foldM (cell_update g) ks s = Ok s' /\
    (forall k, cell_get k s' = if decide (k ∈ ks) then Some (h k) else cell_get k s) /\
    keeps_shape s s'.
Proof. intros Hnd Hok. apply foldM_cells; [done|by left]. Qed.

(** Writes of values that do not depend on the store may repeat. *)
Lemma foldM_cell_write g (h : K -> V) ks s :
  (forall k, k ∈ ks -> is_Some (cell_get k s) /\ forall v, g k v = Ok (h k)) ->
  exists s', foldM (cell_update g) ks s = Ok s' /\
    (forall k, cell_get k s' = if decide (k ∈ ks) then Some (h k) else cell_get k s) /\
    keeps_shape s s'.
Proof.
  intros Hok. apply foldM_cells; [|right; intros k Hk; by apply Hok].
  intros k Hk. destruct (Hok k Hk) as ([v Ev] & Eg). eauto.
Qed.
End Updates.

(** * Nested and masked loops *)
Lemma foldM_nested {S A B} (f : S -> B -> result S) (g : A -> list B) l s :
  foldM (fun s a => foldM f (g a) s) l s = foldM f (l ≫= g) s.
Proof.
  revert s. induction l as [|a l IH]; intros s; [done|]. cbn [foldM]. rewrite bind_cons, foldM_app.
  destruct (foldM f (g a) s); [apply IH|done].
Qed.

Lemma foldM_masked {S A} (f : S -> A -> result S) (m : A -> bool) l s :
  foldM (fun s a => if m a then f s a else Ok s) l s = foldM f (filter m l) s.
Proof.
  revert s. induction l as [|a l IH]; intros s; [done|]. cbn [foldM]. rewrite filter_cons.
  destruct (m a) eqn:E.
  - rewrite decide_True by done. cbn [foldM]. destruct (f s a); [apply IH|done].
  - rewrite decide_False by (by intros []). apply IH.
Qed.

Lemma foldM_fmap {S A B} (f : S -> B -> result S) (g : A -> B) l s :
  foldM f (g <$> l) s = foldM (fun s a => f s (g a)) l s.
Proof.
  revert s. induction l as [|a l IH]; intros s; [done|]. rewrite fmap_cons. cbn [foldM].
  destruct (f s (g a)); [apply IH|done].
Qed.

(** * Flattened views *)

(** A tensor of rows of length [w], seen flat. *)
Lemma lookup_concat_uniform {A} (w : nat) (ls : list (list A)) i j :
  Forall (fun l => length l = w) ls -> j < w -> concat ls !! (i * w + j) = ls !! i ≫= (.!! j).
Proof.
  intros H Hj. revert i. induction H as [|l ls Hl _ IH]; intros i; [done|]. cbn [concat].
  destruct i as [|i].
  - rewrite lookup_app_l by lia. done.
  - rewrite lookup_app_r by lia. cbn [lookup list_lookup]. rewrite <- IH. f_equal. lia.
Qed.

Lemma length_concat_same {A} (w : nat) (ls : list (list A)) :
  Forall (fun l => length l = w) ls -> length (concat ls) = length ls * w.
Proof. induction 1 as [|l ls Hl _ IH]; [done|]. cbn [concat length]. rewrite length_app, IH. lia. Qed.
