(* ===== verification/SlotTable.v ===== *)
(** The slot table and the gather of the draft pass:
    [src/vllm/v1/spec_decode/sparse_attn/longspec/kernels/slot_table.py] and
    [draft_gather.py].

    [index_to_slots] rewrites rows of selected positions to physical slots and
    appends the slots of the positions after the scored prefix; [gather_tokens]
    copies K and V rows of given slots into page-aligned scratch.  Both are
    launches over grids whose programs run in any order.  Divisions are on
    non-negative numbers, where the device's truncation is [Z.div]. *)
From S2P Require Import Prelude Device Tensor.
Local Open Scope Z_scope.

(** * [index_to_slots] *)
Definition BLOCK_SIZE : nat := 256.

(** [tl.range(0, n, BLOCK_SIZE)]. *)
Definition block_starts (n : Z) : list Z :=
  (fun k => Z.of_nat BLOCK_SIZE * Z.of_nat k) <$> seq 0 (Z.to_nat (cdiv n (Z.of_nat BLOCK_SIZE))).

(** [start + tl.arange(0, BLOCK_SIZE)]. *)
Definition lanes (start : Z) : list Z := (fun i => start + Z.of_nat i) <$> seq 0 BLOCK_SIZE.

(** The two gathers and the store of one block of lanes; [index_of] is the load
    of part 1 or the arithmetic of part 2, [base] where the block is stored. *)
Definition slot_block (bt_row : list Z) (page_size : Z) (index_of : list Z -> Z -> result Z) (n base : Z)
    (row : list Z) (start : Z) : result (list Z) :=
  lane ← mapR (fun offset =>
                 let mask := offset <? n in
                 index ← (if mask then index_of row offset else Ok 0);
                 physical_page ← load_masked bt_row (index / page_size) mask 0;
                 Ok (offset, physical_page * page_size + index mod page_size)) (lanes start);
  foldM (fun row '(offset, slot) => store_masked row (base + offset) slot (offset <? n)) lane row.

(** [_index_to_slot_kernel] on the row of one layer and request. *)
Definition index_to_slot_row (bt_row : list Z) (page_size used valid_len seqlen : Z) (row : list Z) :
    result (list Z) :=
  let num_recent := seqlen - valid_len in
  row ← foldM (slot_block bt_row page_size load used 0) (block_starts used) row;
  foldM (slot_block bt_row page_size (fun _ offset => Ok (valid_len + offset)) num_recent used)
    (block_starts num_recent) row.

(** [used]: one count per layer and request, or one per request (stride 0). *)
Inductive used_tensor :=
| PerLayer (used : list (list Z))
| Shared (used : list Z).

Definition used_at (used : used_tensor) (layer_idx batch_idx : nat) : option Z :=
  match used with
  | PerLayer used => used !! layer_idx ≫= (.!! batch_idx)
  | Shared used => used !! batch_idx
  end.

(** [_index_to_slot_kernel]: program [(layer_idx, batch_idx)] works on its row. *)
Definition index_to_slot_kernel (block_table : list (list Z)) (used : used_tensor) (valid_lens seqlens : list Z)
    (page_size : Z) (k : nat * nat) (row : list Z) : result (list Z) :=
  u ← of_option IndexError (used_at used k.1 k.2);
  valid_len ← of_option IndexError (valid_lens !! k.2);
  seqlen ← of_option IndexError (seqlens !! k.2);
  bt_row ← of_option IndexError (block_table !! k.2);
  index_to_slot_row bt_row page_size u valid_len seqlen row.

(** The programs of the grid [(layers, batch)]. *)
Definition grid (layers batch : nat) : list (nat * nat) :=
  l ← seq 0 layers; (fun b => (l, b)) <$> seq 0 batch.

(** [index_to_slots]; [order] is the order in which the grid runs. *)
Definition index_to_slots (order : list (nat * nat)) (table : list (list (list Z))) (block_table : list (list Z))
    (used : used_tensor) (valid_lens seqlens : list Z) (page_size : Z) : result (list (list (list Z))) :=
  foldM (cell_update (index_to_slot_kernel block_table used valid_lens seqlens page_size)) order table.

(** * [gather_tokens] *)
Section Gather.
Context {A : Type}.

(** [t0 + tl.arange(0, TOK)] and [c + tl.arange(0, CHUNK)]. *)
Definition span (start len : nat) : list nat := seq start len.

(** [tl.static_range(0, INNER, CHUNK)]. *)
Definition chunk_starts (INNER CHUNK : nat) : list nat :=
  (fun k => (CHUNK * k)%nat) <$> seq 0 (Z.to_nat (cdiv (Z.of_nat INNER) (Z.of_nat CHUNK))).

(** Element [i] of the K and V rows of a slot. *)
Definition load_kv (src : list (list A) * list (list A)) (slot : Z) (i : nat) : result (A * A) :=
  if slot <? 0 then Err IndexError else of_option IndexError (cell_get (Z.to_nat slot, i) src).

(** [_gather_kernel], program [(b, p)]; the state is [(dst_k, dst_v)]. *)
Definition gather_kernel (src : list (list A) * list (list A)) (slots : list (list Z)) (starts ends : list Z)
    (INNER CHUNK TOK : nat) (dst : list (list (list A)) * list (list (list A))) (pid : nat * nat) :
    result (list (list (list A)) * list (list (list A))) :=
  let '(b, p) := pid in
  let t0 := (p * TOK)%nat in
  start_ ← of_option IndexError (starts !! b);
  end_ ← of_option IndexError (ends !! b);
  if end_ <=? Z.of_nat t0 then Ok dst else
  if Z.of_nat (t0 + TOK) <=? start_ then Ok dst else
  let tmask t := (start_ <=? Z.of_nat t) && (Z.of_nat t <? end_) in
  row ← of_option IndexError (slots !! b);
  lane ← mapR (fun t => slot ← load_masked row (Z.of_nat t) (tmask t) 0; Ok (t, slot)) (span t0 TOK);
  foldM (fun dst c =>
    foldM (fun dst '(t, slot) =>
      foldM (fun dst i =>
        if tmask t && (i <? INNER)%nat then
          cell_update (K := nat * (nat * nat)) (fun _ _ => load_kv src slot i) dst (b, (t, i))
        else Ok dst) (span c CHUNK) dst) lane dst) (chunk_starts INNER CHUNK) dst.

(** [triton.next_power_of_2]. *)
Definition next_power_of_2 (n : nat) : nat := (2 ^ Nat.log2_up n)%nat.

(** [gather_tokens]: a grid of one program per request and 16 tokens. *)
Definition TOK : nat := 16.

Definition gather_grid (batch width : nat) : list (nat * nat) :=
  b ← seq 0 batch; (fun p => (b, p)) <$> seq 0 (Z.to_nat (cdiv (Z.of_nat width) (Z.of_nat TOK))).

Definition gather_tokens (order : list (nat * nat)) (src : list (list A) * list (list A)) (slots : list (list Z))
    (starts ends : list Z) (INNER : nat) (dst : list (list (list A)) * list (list (list A))) :
    result (list (list (list A)) * list (list (list A))) :=
  foldM (gather_kernel src slots starts ends INNER (Nat.min 256 (next_power_of_2 INNER)) TOK) order dst.
End Gather.

(** * What the slot table holds *)

(** The physical slot of a position. *)
Definition pos_slot (bt_row : list Z) (page_size pos : Z) : Z :=
  (bt_row !!! Z.to_nat (pos / page_size)) * page_size + pos mod page_size.

Lemma store_cell {A} (buf : list A) a v :
  0 <= a -> store buf a v = cell_update (fun _ _ => Ok v) buf (Z.to_nat a).
Proof.
  intros Ha. unfold store, cell_update, py_len. rewrite (proj2 (Z.ltb_ge a 0)) by lia. cbn [orb cell_get list_cells].
  destruct (Z.leb_spec (Z.of_nat (length buf)) a).
  - by rewrite lookup_ge_None_2 by lia.
  - destruct (lookup_lt_is_Some_2 buf (Z.to_nat a)) as [x ->]; [lia|]. done.
Qed.

Lemma elem_of_lanes start o : o ∈ lanes start <-> start <= o < start + Z.of_nat BLOCK_SIZE.
Proof.
  unfold lanes. rewrite list_elem_of_fmap. setoid_rewrite elem_of_seq. split.
  - intros (i & -> & Hi). lia.
  - intros Ho. exists (Z.to_nat (o - start)). lia.
Qed.

Section SlotRows.
Context (bt_row : list Z) (page_size : Z) (Hpage : 0 < page_size).

(** The position has a page in the row of the block table. *)
Definition has_page (pos : Z) : Prop := 0 <= pos /\ pos / page_size < py_len bt_row.

Lemma load_page pos : has_page pos -> load bt_row (pos / page_size) = Ok (bt_row !!! Z.to_nat (pos / page_size)).
Proof using Hpage.
  intros [H0 Hp]. assert (0 <= pos / page_size) by (apply Z.div_pos; lia).
  destruct (load_ok bt_row (pos / page_size)) as (v & -> & Ev); [lia|].
  by rewrite (list_lookup_total_correct _ _ _ Ev).
Qed.

(** A row in which the offsets of [P] hold the slots of their positions. *)
Definition rewritten (P : Z -> Prop) `{!forall o, Decision (P o)} (ix : Z -> Z) (base : Z) (row row' : list Z) : Prop :=
  length row' = length row /\
  forall i, row' !! i = if decide (P (Z.of_nat i - base)) then Some (pos_slot bt_row page_size (ix (Z.of_nat i - base)))
                        else row !! i.

(** One block of lanes. *)
Lemma slot_block_ok index_of ix n base row start :
  0 <= start -> 0 <= base -> base + n <= py_len row ->
  (forall o, start <= o < n -> index_of row o = Ok (ix o) /\ has_page (ix o)) ->
  exists row', slot_block bt_row page_size index_of n base row start = Ok row' /\
    rewritten (fun o => start <= o < start + Z.of_nat BLOCK_SIZE /\ o < n) ix base row row'.
Proof using Hpage.
  intros Hs Hb Hn Hix. unfold slot_block, py_len in *.
  rewrite (mapR_pure _ (fun o => (o, if o <? n then pos_slot bt_row page_size (ix o) else 0 mod page_size))).
  2: { intros o Ho%elem_of_lanes. cbv zeta. destruct (Z.ltb_spec o n) as [Hon|Hon]; [|done].
       destruct (Hix o) as [-> Hp]; [lia|]. cbn [mbind result_bind]. unfold load_masked.
       rewrite load_page by done. done. }
  cbn [mbind result_bind]. rewrite foldM_fmap.
  rewrite (foldM_ext _ (fun row o => if o <? n then
     cell_update (fun k _ => Ok (pos_slot bt_row page_size (ix (Z.of_nat k - base)))) row (Z.to_nat (base + o)) else Ok row)).
  2: { intros row1 o Ho%elem_of_lanes. unfold store_masked. destruct (o <? n); [|done].
       rewrite store_cell by lia. unfold cell_update. by replace (Z.of_nat (Z.to_nat (base + o)) - base) with o by lia. }
  rewrite foldM_masked, <- (foldM_fmap (cell_update _) (fun o => Z.to_nat (base + o))).
  set (ks := (fun o => Z.to_nat (base + o)) <$> filter (fun o => o <? n) (lanes start)).
  assert (Hks : forall k, k ∈ ks <-> (start <= Z.of_nat k - base < start + Z.of_nat BLOCK_SIZE /\ Z.of_nat k - base < n)).
  { intros k. unfold ks. rewrite list_elem_of_fmap. setoid_rewrite list_elem_of_filter. setoid_rewrite elem_of_lanes.
    split.
    - intros (o & -> & Ho%Is_true_true & Hl). apply Z.ltb_lt in Ho. lia.
    - intros Hk. exists (Z.of_nat k - base). split; [lia|]. split; [|lia]. apply Is_true_true, Z.ltb_lt. lia. }
  destruct (foldM_cell_write (fun k _ => Ok (pos_slot bt_row page_size (ix (Z.of_nat k - base))))
    (fun k => pos_slot bt_row page_size (ix (Z.of_nat k - base))) ks row) as (row' & E & Hrow' & _).
  { intros k Hk%Hks. split; [|done]. apply lookup_lt_is_Some_2. lia. }
  exists row'. split; [exact E|]. cbn [cell_get list_cells] in Hrow'.
  assert (Hrow : forall i, row' !! i = if decide (start <= Z.of_nat i - base < start + Z.of_nat BLOCK_SIZE /\ Z.of_nat i - base < n)
     then Some (pos_slot bt_row page_size (ix (Z.of_nat i - base))) else row !! i).
  { intros i. rewrite Hrow'. by rewrite (decide_ext _ _ _ _ (Hks i)). }
  split; [|exact Hrow]. apply Nat.le_antisymm.
  - destruct (decide (length row' <= length row)%nat) as [|Hgt]; [done|].
    destruct (lookup_lt_is_Some_2 row' (length row)) as [x Ex]; [lia|]. rewrite Hrow in Ex.
    rewrite decide_False in Ex by lia. by rewrite lookup_ge_None_2 in Ex.
  - destruct (decide (length row <= length row')%nat) as [|Hgt]; [done|].
    assert (Hx : row' !! length row' = None) by by apply lookup_ge_None_2.
    rewrite Hrow in Hx. case_decide; [done|]. apply lookup_ge_None in Hx. lia.
Qed.

(** All blocks of one part; a block reads only entries no earlier block wrote. *)
Lemma slot_part_ok index_of ix n base row :
  0 <= base -> base + n <= py_len row ->
  (forall o row', 0 <= o < n -> (forall i, base + o <= Z.of_nat i -> row' !! i = row !! i) ->
     index_of row' o = Ok (ix o) /\ has_page (ix o)) ->
  exists row', foldM (slot_block bt_row page_size index_of n base) (block_starts n) row = Ok row' /\
    rewritten (fun o => 0 <= o < n) ix base row row'.
Proof using Hpage.
  intros Hb Hn Hix.
  destruct (foldM_inv (slot_block bt_row page_size index_of n base)
    (fun pre row' => rewritten (fun o => 0 <= o < Z.min n (Z.of_nat BLOCK_SIZE * Z.of_nat (length pre))) ix base row row')
    (block_starts n) row) as (row' & E & Hl & Hrow').
  - split; [done|]. intros i. by rewrite decide_False by (cbn [length]; lia).
  - intros pre start post row1 E [Hl1 Hr1].
    assert (Es : block_starts n !! length pre = Some start) by (rewrite E; by rewrite lookup_app_r, Nat.sub_diag by lia).
    unfold block_starts in Es. rewrite list_lookup_fmap, fmap_Some in Es.
    destruct Es as (k & [-> Hk]%lookup_seq & ->). cbn [Nat.add] in *.
    set (m := length pre) in *.
    assert (Hmn : Z.of_nat BLOCK_SIZE * Z.of_nat m < n).
    { pose proof (cdiv_le n (Z.of_nat BLOCK_SIZE) (Z.of_nat m) ltac:(unfold BLOCK_SIZE; lia)) as Hc. lia. }
    destruct (slot_block_ok index_of ix n base row1 (Z.of_nat BLOCK_SIZE * Z.of_nat m)) as (row2 & E2 & Hl2 & Hr2);
      [lia|done|unfold py_len in *; lia| |].
    { intros o Ho. apply Hix; [lia|]. intros i Hi. rewrite Hr1. by rewrite decide_False by lia. }
    exists row2. split; [exact E2|]. split; [lia|]. intros i. rewrite Hr2, Hr1, length_app. cbn [length]. fold m.
    repeat case_decide; try done; lia.
  - exists row'. split; [done|]. split; [done|]. intros i. rewrite Hrow'. unfold block_starts.
    rewrite length_fmap, length_seq.
    destruct (decide (n <= 0)); [by rewrite !decide_False by lia|].
    pose proof (proj1 (cdiv_le n (Z.of_nat BLOCK_SIZE) _ ltac:(unfold BLOCK_SIZE; lia)) (Z.le_refl _)) as Hc.
    pose proof (cdiv_nonneg n (Z.of_nat BLOCK_SIZE) ltac:(unfold BLOCK_SIZE; lia) ltac:(lia)).
    rewrite (decide_ext _ (0 <= Z.of_nat i - base < n)) by (rewrite Z2Nat.id by lia; lia). done.
Qed.

(** The row of one request: the slots of the selection, then those of the
    positions after the scored prefix. *)
Definition slot_row (sel : list Z) (valid_len seqlen : Z) : list Z :=
  (pos_slot bt_row page_size <$> sel) ++ (pos_slot bt_row page_size <$> py_range valid_len seqlen).

Lemma length_slot_row sel valid_len seqlen :
  length (slot_row sel valid_len seqlen) = (length sel + Z.to_nat (seqlen - valid_len))%nat.
Proof. unfold slot_row, py_range. by rewrite length_app, !length_fmap, length_seqZ. Qed.

Lemma index_to_slot_row_ok sel rest valid_len seqlen :
  Forall has_page sel -> 0 <= valid_len -> (forall pos, valid_len <= pos < seqlen -> has_page pos) ->
  py_len sel + (seqlen - valid_len) <= py_len (sel ++ rest) ->
  index_to_slot_row bt_row page_size (py_len sel) valid_len seqlen (sel ++ rest)
  = Ok (slot_row sel valid_len seqlen ++ drop (Z.to_nat (seqlen - valid_len)) rest).
Proof using Hpage.
  intros Hsel Hv Hpos Hlen. unfold index_to_slot_row.
  destruct (slot_part_ok load (fun o => sel !!! Z.to_nat o) (py_len sel) 0 (sel ++ rest))
    as (row1 & -> & Hl1 & Hr1); [lia|unfold py_len; rewrite length_app; lia| |].
  { intros o row' Ho Hrow'. destruct (lookup_lt_is_Some_2 sel (Z.to_nat o)) as [x Ex]; [unfold py_len in Ho; lia|].
    rewrite (list_lookup_total_correct _ _ _ Ex). split; [|by apply (Forall_lookup_1 _ _ _ _ Hsel Ex)].
    unfold load. rewrite (proj2 (Z.ltb_ge o 0)), Hrow', lookup_app_l, Ex by (unfold py_len in Ho; lia). done. }
  cbn [mbind result_bind].
  destruct (slot_part_ok (fun _ o => Ok (valid_len + o)) (fun o => valid_len + o) (seqlen - valid_len) (py_len sel) row1)
    as (row2 & E & Hl2 & Hr2); [unfold py_len; lia|unfold py_len in *; lia| |].
  { intros o _ Ho _. split; [done|]. apply Hpos. lia. }
  rewrite E. f_equal. apply list_eq. intros i. unfold py_len in *.
  destruct (decide (i < length sel)%nat) as [Hi|Hi].
  - rewrite Hr2, decide_False, Hr1, decide_True by lia.
    rewrite lookup_app_l by (rewrite length_slot_row; lia). unfold slot_row.
    rewrite lookup_app_l, list_lookup_fmap by (rewrite length_fmap; lia).
    replace (Z.to_nat (Z.of_nat i - 0)) with i by lia.
    destruct (lookup_lt_is_Some_2 sel i Hi) as [x Ex]. by rewrite (list_lookup_total_correct _ _ _ Ex), Ex.
  - destruct (decide (Z.of_nat i < Z.of_nat (length sel) + (seqlen - valid_len))) as [Hi2|Hi2].
    + rewrite Hr2, decide_True by lia. rewrite lookup_app_l by (rewrite length_slot_row; lia). unfold slot_row.
      rewrite lookup_app_r, length_fmap, list_lookup_fmap by (rewrite length_fmap; lia). unfold py_range.
      rewrite lookup_seqZ_lt by lia. cbn. do 2 f_equal. lia.
    + rewrite Hr2, decide_False, Hr1, decide_False by lia. rewrite lookup_app_r by lia.
      rewrite lookup_app_r, length_slot_row, lookup_drop by (rewrite length_slot_row; lia). f_equal. lia.
Qed.
End SlotRows.

Lemma elem_of_grid layers batch l b : (l, b) ∈ grid layers batch <-> (l < layers)%nat /\ (b < batch)%nat.
Proof.
  unfold grid. rewrite list_elem_of_bind. setoid_rewrite list_elem_of_fmap. setoid_rewrite elem_of_seq. split.
  - intros (l' & (b' & [= -> ->] & Hb) & Hl). lia.
  - intros [Hl Hb]. exists l. split; [|lia]. exists b. split; [done|lia].
Qed.

Lemma NoDup_grid layers batch : NoDup (grid layers batch).
Proof.
  unfold grid. assert (Hnd := NoDup_seq 0 layers). induction Hnd as [|l ls Hl _ IH]; [constructor|].
  rewrite bind_cons. apply NoDup_app. split; [|split; [|done]].
  - apply NoDup_fmap_2; [intros ? ? [= ?]; done|apply NoDup_seq].
  - intros x (b & -> & _)%list_elem_of_fmap (l2 & (b2 & [= <- <-] & _)%list_elem_of_fmap & Hin)%list_elem_of_bind.
    done.
Qed.

(** The rows [index_to_slots] is called on: [sel l b] positions are selected for
    layer [l] and request [b], and there is room for the positions that follow. *)
Record slots_pre (layers batch : nat) (table : list (list (list Z))) (block_table : list (list Z))
    (used : used_tensor) (valid_lens seqlens : list Z) (page_size : Z) (sel : nat -> nat -> list Z) : Prop := {
  sp_row l b : (l < layers)%nat -> (b < batch)%nat ->
    exists rest, cell_get (l, b) table = Some (sel l b ++ rest)
      /\ py_len (sel l b) + (seqlens !!! b - valid_lens !!! b) <= py_len (sel l b ++ rest);
  sp_used l b : (l < layers)%nat -> (b < batch)%nat -> used_at used l b = Some (py_len (sel l b));
  sp_lens : (batch <= length block_table)%nat /\ (batch <= length valid_lens)%nat /\ (batch <= length seqlens)%nat;
  sp_pages l b : (l < layers)%nat -> (b < batch)%nat ->
    Forall (has_page (block_table !!! b) page_size) (sel l b)
    /\ 0 <= valid_lens !!! b
    /\ forall pos, valid_lens !!! b <= pos < seqlens !!! b -> has_page (block_table !!! b) page_size pos;
}.

(** [index_to_slots] in any program order: each row of the grid holds the slots of
    its selection and of the positions after it; all other rows are unchanged. *)
Lemma index_to_slots_ok layers batch order table block_table used valid_lens seqlens page_size sel :
  0 < page_size -> order ≡ₚ grid layers batch ->
  slots_pre layers batch table block_table used valid_lens seqlens page_size sel ->
  exists table', index_to_slots order table block_table used valid_lens seqlens page_size = Ok table' /\
    (forall l b, (l < layers)%nat -> (b < batch)%nat -> exists rest rest',
       cell_get (l, b) table = Some (sel l b ++ rest) /\
       cell_get (l, b) table'
       = Some (slot_row (block_table !!! b) page_size (sel l b) (valid_lens !!! b) (seqlens !!! b) ++ rest') /\
       length (slot_row (block_table !!! b) page_size (sel l b) (valid_lens !!! b) (seqlens !!! b) ++ rest')
       = length (sel l b ++ rest)) /\
    (forall l b, ~ ((l < layers)%nat /\ (b < batch)%nat) -> cell_get (l, b) table' = cell_get (l, b) table) /\
    keeps_shape (K := nat * nat) table table'.
Proof.
  intros Hp Hperm Hpre. unfold index_to_slots.
  assert (Hin : forall l b, (l, b) ∈ order <-> (l < layers)%nat /\ (b < batch)%nat)
    by (intros l b; rewrite Hperm; apply elem_of_grid).
  set (final := fun k : nat * nat => slot_row (block_table !!! k.2) page_size (sel k.1 k.2) (valid_lens !!! k.2) (seqlens !!! k.2)
    ++ drop (Z.to_nat (seqlens !!! k.2 - valid_lens !!! k.2)) (drop (length (sel k.1 k.2)) (default [] (cell_get k table)))).
  destruct (foldM_cell_update (index_to_slot_kernel block_table used valid_lens seqlens page_size) final order table)
    as (table' & E & Ht' & Hsh).
  - rewrite Hperm. apply NoDup_grid.
  - intros [l b] [Hl Hb]%Hin. destruct (sp_row _ _ _ _ _ _ _ _ _ Hpre l b Hl Hb) as (rest & Er & Hroom).
    destruct (sp_lens _ _ _ _ _ _ _ _ _ Hpre) as (H1 & H2 & H3).
    destruct (sp_pages _ _ _ _ _ _ _ _ _ Hpre l b Hl Hb) as (Hs & Hv & Hpos).
    exists (sel l b ++ rest). split; [exact Er|]. unfold index_to_slot_kernel, final. cbn [fst snd].
    rewrite (sp_used _ _ _ _ _ _ _ _ _ Hpre l b Hl Hb). cbn [of_option mbind result_bind].
    rewrite (list_lookup_lookup_total_lt valid_lens), (list_lookup_lookup_total_lt seqlens),
      (list_lookup_lookup_total_lt block_table) by lia. cbn [of_option mbind result_bind].
    rewrite index_to_slot_row_ok by done. rewrite Er. cbn [from_option id]. by rewrite drop_app_length.
  - exists table'. split; [exact E|]. split.
    + intros l b Hl Hb. destruct (sp_row _ _ _ _ _ _ _ _ _ Hpre l b Hl Hb) as (rest & Er & Hroom).
      exists rest. eexists. split; [exact Er|]. split.
      * rewrite Ht', decide_True by (by apply Hin). unfold final. cbn [fst snd]. reflexivity.
      * rewrite Er. cbn [from_option id]. rewrite drop_app_length, !length_app, length_slot_row, length_drop.
        unfold py_len in Hroom. rewrite length_app in Hroom. lia.
    + split; [|exact Hsh]. intros l b Hn. rewrite Ht', decide_False; [done|]. by rewrite Hin.
Qed.

(** * What the gather copies *)
Section GatherFacts.
Context {A : Type} `{!Inhabited A}.
Context (src : list (list A) * list (list A)) (slots : list (list Z)) (starts ends : list Z) (INNER CHUNK : nat).
Context (HCHUNK : (1 <= CHUNK)%nat).

(** Token [t] of request [b] is copied. *)
Definition copied (b t : nat) : Prop := starts !!! b <= Z.of_nat t /\ Z.of_nat t < ends !!! b.

#[local] Instance copied_dec b t : Decision (copied b t).
Proof. unfold copied. apply _. Defined.

(** The slot of token [t] of request [b]. *)
Definition token_slot (b t : nat) : Z := (slots !!! b) !!! t.

(** The value the kernel stores into a cell. *)
Definition gather_value (k : nat * (nat * nat)) : A * A :=
  default inhabitant (cell_get (Z.to_nat (token_slot k.1 k.2.1), k.2.2) src).

Record gather_pre (batch width : nat) (dst : list (list (list A)) * list (list (list A))) : Prop := {
  gp_lens : (batch <= length starts)%nat /\ (batch <= length ends)%nat /\ (batch <= length slots)%nat;
  gp_ends b : (b < batch)%nat -> ends !!! b <= Z.of_nat width;
  gp_slots b t : (b < batch)%nat -> copied b t -> (t < length (slots !!! b))%nat /\ 0 <= token_slot b t;
  gp_src b t i : (b < batch)%nat -> copied b t -> (i < INNER)%nat ->
    is_Some (cell_get (Z.to_nat (token_slot b t), i) src);
  gp_dst b t i : (b < batch)%nat -> copied b t -> (i < INNER)%nat ->
    is_Some (cell_get (K := nat * (nat * nat)) (b, (t, i)) dst);
}.

Lemma elem_of_chunk_starts c : c ∈ chunk_starts INNER CHUNK <-> exists k, c = (CHUNK * k)%nat /\ (c < INNER)%nat.
Proof using HCHUNK.
  unfold chunk_starts. rewrite list_elem_of_fmap. setoid_rewrite elem_of_seq.
  assert (Hc : forall k, (k < Z.to_nat (cdiv (Z.of_nat INNER) (Z.of_nat CHUNK)))%nat <-> (CHUNK * k < INNER)%nat).
  { intros k. pose proof (cdiv_le (Z.of_nat INNER) (Z.of_nat CHUNK) (Z.of_nat k) ltac:(lia)). lia. }
  split; intros (k & -> & Hk).
  - exists k. split; [done|]. apply Hc. lia.
  - exists k. split; [done|]. apply Hc in Hk. lia.
Qed.

(** The cells program [(b, p)] writes, in order. *)
Definition program_cells (p : nat * nat) : list (nat * (nat * nat)) :=
  c ← chunk_starts INNER CHUNK;
  t ← span (p.2 * TOK) TOK;
  i ← filter (fun i => bool_decide (copied p.1 t) && (i <? INNER)%nat) (span c CHUNK);
  [(p.1, (t, i))].

Lemma elem_of_program_cells b p b' t i :
  (b', (t, i)) ∈ program_cells (b, p) <->
  b' = b /\ (p * TOK <= t < p * TOK + TOK)%nat /\ copied b t /\ (i < INNER)%nat.
Proof using HCHUNK.
  unfold program_cells. rewrite list_elem_of_bind. setoid_rewrite list_elem_of_bind. setoid_rewrite list_elem_of_bind.
  setoid_rewrite list_elem_of_filter. setoid_rewrite list_elem_of_singleton. unfold span. setoid_rewrite elem_of_seq.
  setoid_rewrite elem_of_chunk_starts. cbn [fst snd]. split.
  - intros (c & (t' & (i' & [= -> -> ->] & Hm & Hi) & Ht) & _). apply Is_true_true, andb_prop in Hm as [Hm1 Hm2].
    apply bool_decide_eq_true in Hm1. apply Nat.ltb_lt in Hm2. lia || (split; [done|]; split; [lia|]; done).
  - intros (-> & Ht & Hc & Hi). exists (CHUNK * (i / CHUNK))%nat.
    pose proof (Nat.div_mod i CHUNK ltac:(lia)). pose proof (Nat.mod_upper_bound i CHUNK ltac:(lia)).
    split.
    + exists t. split; [|lia]. exists i. split; [done|]. split; [|lia].
      apply Is_true_true, andb_true_intro. split; [by apply bool_decide_eq_true|by apply Nat.ltb_lt].
    + exists (i / CHUNK)%nat. lia.
Qed.

(** A program writes exactly its cells. *)
Lemma gather_kernel_cells batch width dst0 dst b p :
  gather_pre batch width dst0 -> (b < batch)%nat ->
  gather_kernel src slots starts ends INNER CHUNK TOK dst (b, p)
  = foldM (cell_update (fun k _ => Ok (gather_value k))) (program_cells (b, p)) dst.
Proof using HCHUNK.
  intros Hpre Hb. destruct (gp_lens _ _ _ Hpre) as (H1 & H2 & H3). unfold gather_kernel.
  rewrite (list_lookup_lookup_total_lt starts), (list_lookup_lookup_total_lt ends) by lia.
  cbn [of_option mbind result_bind].
  assert (Hnone : (forall t, (p * TOK <= t < p * TOK + TOK)%nat -> ~ copied b t) ->
    Ok dst = foldM (cell_update (fun k _ => Ok (gather_value k))) (program_cells (b, p)) dst).
  { intros Hn. destruct (program_cells (b, p)) as [|[b' [t i]] l] eqn:E; [done|]. exfalso.
    assert (Hin : (b', (t, i)) ∈ program_cells (b, p)) by (rewrite E; set_solver).
    apply elem_of_program_cells in Hin as (_ & Ht & Hc & _). by apply (Hn t). }
  destruct (Z.leb_spec (ends !!! b) (Z.of_nat (p * TOK))); [apply Hnone; unfold copied; lia|].
  destruct (Z.leb_spec (Z.of_nat (p * TOK + TOK)) (starts !!! b)); [apply Hnone; unfold copied; lia|].
  rewrite (list_lookup_lookup_total_lt slots) by lia. cbn [of_option mbind result_bind].
  assert (Hmask : forall t, (starts !!! b <=? Z.of_nat t) && (Z.of_nat t <? ends !!! b) = bool_decide (copied b t)).
  { intros t. unfold copied. case_bool_decide; apply Bool.eq_true_iff_eq; rewrite andb_true_iff, Z.leb_le, Z.ltb_lt; naive_solver. }
  rewrite (mapR_pure _ (fun t => (t, if bool_decide (copied b t) then token_slot b t else 0))).
  2: { intros t _. rewrite Hmask. case_bool_decide as Hc; [|done]. cbn [load_masked].
       destruct (gp_slots _ _ _ Hpre b t Hb Hc) as [Ht _].
       rewrite (load_Some _ t (token_slot b t)); [done|]. by apply list_lookup_lookup_total_lt. }
  cbn [mbind result_bind]. unfold program_cells. rewrite <- foldM_nested. apply foldM_ext. intros s c _.
  rewrite foldM_fmap, <- foldM_nested. apply foldM_ext. intros s1 t _.
  rewrite <- foldM_nested. rewrite <- foldM_masked. apply foldM_ext. intros s2 i _. rewrite Hmask. cbn [fst snd].
  destruct (bool_decide (copied b t)) eqn:Hc; [|done]. apply bool_decide_eq_true in Hc.
  destruct (Nat.ltb_spec i INNER) as [Hi|Hi]; [|done]. cbn [andb foldM].
  destruct (gp_slots _ _ _ Hpre b t Hb Hc) as [_ Hs].
  destruct (gp_src _ _ _ Hpre b t i Hb Hc Hi) as [v Ev].
  unfold cell_update, load_kv, gather_value. rewrite (proj2 (Z.ltb_ge _ 0)) by done. cbn [fst snd]. rewrite Ev.
  cbn [of_option from_option id mbind result_bind]. by destruct (of_option IndexError (cell_get _ s2)).
Qed.

(** The whole launch, in any program order. *)
Lemma gather_launch_ok batch width order dst :
  order ≡ₚ gather_grid batch width -> gather_pre batch width dst ->
  exists dst', foldM (gather_kernel src slots starts ends INNER CHUNK TOK) order dst = Ok dst' /\
    (forall b t i, cell_get (b, (t, i)) dst'
      = if decide ((b < batch)%nat /\ copied b t /\ (i < INNER)%nat)
        then cell_get (Z.to_nat (token_slot b t), i) src else cell_get (b, (t, i)) dst) /\
    keeps_shape (K := nat * (nat * nat)) dst dst'.
Proof using HCHUNK Inhabited0.
  intros Hperm Hpre.
  assert (Hin : forall b p, (b, p) ∈ order <-> (b < batch)%nat /\ (p < Z.to_nat (cdiv (Z.of_nat width) (Z.of_nat TOK)))%nat).
  { intros b p. rewrite Hperm. unfold gather_grid. rewrite list_elem_of_bind. setoid_rewrite list_elem_of_fmap.
    setoid_rewrite elem_of_seq. split; [intros (b' & (p' & [= -> ->] & ?) & ?); lia|].
    intros [? ?]. exists b. split; [|lia]. exists p. split; [done|lia]. }
  rewrite (foldM_ext _ (fun dst p => foldM (cell_update (fun k _ => Ok (gather_value k))) (program_cells p) dst)).
  2: { intros s [b p] [Hb _]%Hin. by apply (gather_kernel_cells batch width dst). }
  rewrite foldM_nested.
  assert (Hcells : forall b t i, (b, (t, i)) ∈ (order ≫= program_cells) <->
            (b < batch)%nat /\ copied b t /\ (i < INNER)%nat).
  { intros b t i. rewrite list_elem_of_bind. split.
    - intros ([b' p] & (-> & _ & ? & ?)%elem_of_program_cells & [? _]%Hin). done.
    - intros (Hb & Hc & Hi). exists (b, (t / TOK)%nat).
      pose proof (Nat.div_mod t TOK ltac:(done)). pose proof (Nat.mod_upper_bound t TOK ltac:(done)).
      split; [apply elem_of_program_cells; split; [done|]; split; [lia|done]|]. apply Hin. split; [done|].
      pose proof (gp_ends _ _ _ Hpre b Hb). unfold copied in Hc.
      pose proof (cdiv_le (Z.of_nat width) (Z.of_nat TOK) (Z.of_nat (t / TOK)) ltac:(done)). lia. }
  destruct (foldM_cell_write (fun k _ => Ok (gather_value k)) (gather_value)
    (order ≫= program_cells) dst) as (dst' & E & Hd' & Hsh).
  - intros [b [t i]] (Hb & Hc & Hi)%Hcells. split; [|done]. by apply (gp_dst _ _ _ Hpre).
  - exists dst'. split; [exact E|]. split; [|exact Hsh]. intros b t i. rewrite Hd'. rewrite (decide_ext _ _ _ _ (Hcells b t i)).
    destruct (decide _) as [(Hb & Hc & Hi)|]; [|done]. unfold gather_value. cbn [fst snd].
    destruct (gp_src _ _ _ Hpre b t i Hb Hc Hi) as [v Ev]. rewrite Ev. done.
Qed.
End GatherFacts.

(** The launch of [gather_tokens]. *)
Lemma gather_tokens_ok {A} `{!Inhabited A} (src : list (list A) * list (list A)) slots starts ends INNER batch width order dst :
  order ≡ₚ gather_grid batch width -> gather_pre src slots starts ends INNER batch width dst ->
  exists dst', gather_tokens order src slots starts ends INNER dst = Ok dst' /\
    (forall b t i, cell_get (b, (t, i)) dst'
      = if decide ((b < batch)%nat /\ copied starts ends b t /\ (i < INNER)%nat)
        then cell_get (Z.to_nat (token_slot slots b t), i) src else cell_get (b, (t, i)) dst) /\
    keeps_shape (K := nat * (nat * nat)) dst dst'.
Proof.
  apply gather_launch_ok. unfold next_power_of_2.
  pose proof (Nat.pow_nonzero 2 (Nat.log2_up INNER) ltac:(done)). lia.
Qed.

(** * Rows instead of elements *)
Section GatherRows.
Context {A : Type} `{!Inhabited A}.
Implicit Types (d : list (list (list A))).

(** A tensor of shape [B x W x I]. *)
Definition shape3 (B W I : nat) d : Prop :=
  length d = B /\ Forall (fun rows => length rows = W /\ Forall (fun row => length row = I) rows) d.

Lemma shape3_put B W I k v d : shape3 B W I d -> shape3 B W I (cell_put (K := nat * (nat * nat)) k v d).
Proof using.
  destruct k as [b [t i]]. intros [Hl Hf]. cbn. split; [by rewrite length_alter|].
  apply Forall_alter; [done|]. intros rows _ [H1 H2]. split; [by rewrite length_alter|].
  apply Forall_alter; [done|]. intros row _ H3. cbn. by rewrite length_insert.
Qed.

Lemma shape3_row B W I d b t :
  shape3 B W I d -> (b < B)%nat -> (t < W)%nat ->
  exists row, cell_get (K := nat * nat) (b, t) d = Some row /\ length row = I /\
    forall i, cell_get (K := nat * (nat * nat)) (b, (t, i)) d = row !! i.
Proof using.
  intros [Hl Hf] Hb Ht. destruct (lookup_lt_is_Some_2 d b) as [rows Er]; [lia|].
  destruct (Forall_lookup_1 _ _ _ _ Hf Er) as [H1 H2].
  destruct (lookup_lt_is_Some_2 rows t) as [row Et]; [lia|]. exists row. cbn. rewrite Er. cbn. rewrite Et.
  split; [done|]. split; [by apply (Forall_lookup_1 _ _ _ _ H2 Et)|done].
Qed.

Lemma shape3_take B W I d n : shape3 B W I d -> (n <= B)%nat -> shape3 n W I (take n d).
Proof using. intros [Hl Hf] Hn. split; [rewrite length_take; lia|by apply Forall_take]. Qed.

(** Two pairs of rows that agree on every element. *)
Lemma rows_eq I (r1 r2 x1 x2 : list A) :
  length r1 = I -> length r2 = I -> length x1 = I -> length x2 = I ->
  (forall i, (i < I)%nat -> cell_get i (r1, r2) = cell_get i (x1, x2)) -> (r1, r2) = (x1, x2).
Proof using.
  intros H1 H2 H3 H4 Heq. cbn in Heq.
  assert (forall i, (i < I)%nat -> r1 !! i = x1 !! i /\ r2 !! i = x2 !! i) as Hi.
  { intros i Hi. specialize (Heq i Hi).
    destruct (lookup_lt_is_Some_2 r1 i) as [a Ea]; [lia|]. destruct (lookup_lt_is_Some_2 r2 i) as [b Eb]; [lia|].
    rewrite Ea, Eb in Heq |- *. destruct (x1 !! i), (x2 !! i); cbn in Heq; naive_solver. }
  f_equal; (apply list_eq_same_length with I; [lia|lia|]); intros i u v Hlt Hu Hv; destruct (Hi i Hlt); congruence.
Qed.

Lemma shape3_rows B W I d1 d2 b t :
  shape3 B W I d1 -> shape3 B W I d2 -> (b < B)%nat -> (t < W)%nat ->
  exists r1 r2, cell_get (K := nat * nat) (b, t) (d1, d2) = Some (r1, r2) /\ length r1 = I /\ length r2 = I /\
    forall i, cell_get (K := nat * (nat * nat)) (b, (t, i)) (d1, d2) = cell_get i (r1, r2).
Proof using.
  intros H1 H2 Hb Ht. destruct (shape3_row _ _ _ _ b t H1 Hb Ht) as (r1 & E1 & L1 & C1).
  destruct (shape3_row _ _ _ _ b t H2 Hb Ht) as (r2 & E2 & L2 & C2). exists r1, r2.
  split; [cbn [cell_get pair_cells fst snd]; by rewrite E1, E2|]. split; [done|]. split; [done|].
  intros i. cbn [cell_get pair_cells fst snd]. by rewrite C1, C2.
Qed.

(** The gather in terms of whole rows. *)
Lemma gather_tokens_rows (src : list (list A) * list (list A)) slots starts ends I batch W order dst :
  order ≡ₚ gather_grid batch W -> gather_pre src slots starts ends I batch W dst ->
  Forall (fun row => length row = I) src.1 -> Forall (fun row => length row = I) src.2 ->
  shape3 batch W I dst.1 -> shape3 batch W I dst.2 ->
  (forall b t, (b < batch)%nat -> copied starts ends b t -> is_Some (cell_get (Z.to_nat (token_slot slots b t)) src)) ->
  exists dst', gather_tokens order src slots starts ends I dst = Ok dst' /\
    shape3 batch W I dst'.1 /\ shape3 batch W I dst'.2 /\
    forall b t, (b < batch)%nat -> (t < W)%nat ->
      cell_get (K := nat * nat) (b, t) dst'
      = if decide (copied starts ends b t) then cell_get (Z.to_nat (token_slot slots b t)) src
        else cell_get (K := nat * nat) (b, t) dst.
Proof using Inhabited0.
  intros Hperm Hpre Hs1 Hs2 Hd1 Hd2 Hsrc.
  destruct (gather_tokens_ok src slots starts ends I batch W order dst Hperm Hpre) as (dst' & E & Hcell & Hsh).
  exists dst'. split; [exact E|].
  assert (shape3 batch W I dst'.1 /\ shape3 batch W I dst'.2) as [Hd1' Hd2'].
  { apply (Hsh (fun dst => shape3 batch W I dst.1 /\ shape3 batch W I dst.2)); [|done].
    intros k v s [H1 H2]. cbn [cell_put pair_cells fst snd]. split; by apply shape3_put. }
  split; [done|]. split; [done|]. intros b t Hb Ht. destruct dst' as [dk' dv'], dst as [dk dv]. cbn [fst snd] in *.
  destruct (shape3_rows _ _ _ dk' dv' b t Hd1' Hd2' Hb Ht) as (r1 & r2 & -> & L1 & L2 & C).
  destruct (decide (copied starts ends b t)) as [Hc|Hc].
  - destruct (Hsrc b t Hb Hc) as [[x1 x2] Ex]. rewrite Ex. f_equal.
    assert (src.1 !! Z.to_nat (token_slot slots b t) = Some x1 /\ src.2 !! Z.to_nat (token_slot slots b t) = Some x2)
      as [Ey1 Ey2] by (cbn in Ex; destruct (src.1 !! _), (src.2 !! _); naive_solver).
    apply (rows_eq I); [done|done|exact (Forall_lookup_1 _ _ _ _ Hs1 Ey1)|exact (Forall_lookup_1 _ _ _ _ Hs2 Ey2)|].
    intros i Hi. rewrite <- C, Hcell, decide_True by done. cbn. by rewrite Ey1, Ey2.
  - destruct (shape3_rows _ _ _ dk dv b t Hd1 Hd2 Hb Ht) as (q1 & q2 & -> & M1 & M2 & D). f_equal.
    apply (rows_eq I); [done..|]. intros i Hi. rewrite <- C, Hcell, decide_False by tauto. apply D.
Qed.
End GatherRows.
