(* ===== verification/StreamingLLM.v ===== *)
(** The StreamingLLM overrider:
    [src/vllm/v1/spec_decode/sparse_attn/attn_overrider/streamingllm.py] with its
    base class in [attn_overrider/__init__.py].

    At the first layer of a draft step the block table is replaced by one that keeps
    the first block (the attention sink) and the last blocks of the window, and the
    sequence lengths, a tensor the layers of the step share, are shortened in place.
    The value [ceil(max(len * ratio, min_tokens) / block_size)] of the float
    arithmetic is a parameter; the attention function is not modelled, the calls
    record the block table and the lengths it is given. *)
From S2P Require Import Prelude Device Tensor SlotTable.
Local Open Scope Z_scope.

(** * The kernel *)
Definition TILE : nat := 128.

(** [range(0, length, BLOCK_SIZE)] and [off + tl.arange(0, BLOCK_SIZE)]. *)
Definition tile_starts (length : Z) : list Z :=
  (fun k => Z.of_nat TILE * Z.of_nat k) <$> seq 0 (Z.to_nat (cdiv length (Z.of_nat TILE))).
Definition tile (off : Z) : list Z := (fun i => off + Z.of_nat i) <$> seq 0 TILE.

(** One turn of the copy loop: the masked load of a tile, then its store. *)
Definition copy_tile (src_row : list Z) (start_idx length : Z) (dst_row : list Z) (off : Z) : result (list Z) :=
  vals ← mapR (fun o => v ← load_masked src_row (start_idx + o) (o <? length) 0; Ok (o, v)) (tile off);
  foldM (fun dst_row '(o, v) => store_masked dst_row (1 + o) v (o <? length)) vals dst_row.

(** [copy_blocks_kernel] on the rows of one sequence. *)
Definition copy_blocks_row (src_row : list Z) (start_idx length : Z) (dst_row : list Z) : result (list Z) :=
  sink_block ← load src_row 0;
  dst_row ← store dst_row 0 sink_block;
  foldM (copy_tile src_row start_idx length) (tile_starts length) dst_row.

Definition copy_blocks_kernel (src : list (list Z)) (start_indices lengths : list Z) (pid : nat) (dst_row : list Z) : result (list Z) :=
  src_row ← of_option IndexError (src !! pid);
  start_idx ← of_option IndexError (start_indices !! pid);
  length ← of_option IndexError (lengths !! pid);
  copy_blocks_row src_row start_idx length dst_row.

(** * The overrider *)
Record stream_params := mkStream {
  st_block_size : Z;
  st_max_blocks : Z;
  st_max_batch_size : nat;
  st_num_layers : nat;
  (** [ceil(max(seqlen * sparse_ratio, min_tokens) / block_size)] *)
  ceil_blocks : Z -> Z;
}.

Record stream_state := mkStreamState {
  st_curr_layer : nat;
  st_in_propose : bool;
  block_table_tensor : list (list Z);
  (** the number of rows of the slice [block_table], once it is set *)
  st_block_table : option nat;
}.

(** [BaseAttnOverrider.__init__] and [__init__]; [max_ratio_tokens] is
    [ceil(max_model_len * sparse_ratio)], [garbage] the contents of [torch.empty]. *)
Definition stream_init (max_ratio_tokens min_tokens block_size : Z) (max_batch_size num_layers : nat) (ceil_blocks : Z -> Z)
    (garbage : list (list Z)) : result (stream_params * stream_state) :=
  let max_tokens := Z.max max_ratio_tokens min_tokens in
  let max_blocks := (max_tokens + block_size - 1) / block_size in
  _ ← py_assert (0 <? max_blocks - 1);
  Ok (mkStream block_size max_blocks max_batch_size num_layers ceil_blocks, mkStreamState 0 false garbage None).

(** The calls of the attention function. *)
Record stream_call := mkCall { call_block_table : list (list Z); call_seqlens : list Z }.

Section Overrider.
Context (p : stream_params).
Let bs := st_block_size p.

(** The window of one request: its first block and its number of blocks. *)
Definition start_block (seqlen : Z) : Z :=
  let budget_blocks := Z.min (ceil_blocks p seqlen) (st_max_blocks p - 1) in
  let last_block := (seqlen - 1) / bs in
  Z.max (last_block - budget_blocks + 1) 1.
Definition num_sliding_blocks (seqlen : Z) : Z := Z.max ((seqlen - 1) / bs - start_block seqlen + 1) 0.

(** [_may_update_attn_metadata]; [order] is the order in which the grid runs. *)
Definition may_update_attn_metadata (order : list nat) (block_table : list (list Z)) (seqlens : list Z) (st : stream_state) :
    result (list Z * stream_state) :=
  if (0 <? st_curr_layer st)%nat then Ok (seqlens, st) else
  let batch_size := length seqlens in
  tensor ← foldM (cell_update (copy_blocks_kernel block_table (start_block <$> seqlens) (num_sliding_blocks <$> seqlens)))
             order (block_table_tensor st);
  Ok ((fun n => n - (start_block n - 1) * bs) <$> seqlens,
      mkStreamState (st_curr_layer st) (st_in_propose st) tensor (Some batch_size)).

(** [_draft_attention] and [_verify_attention]. *)
Definition stream_draft_attention (order : list nat) (block_table : list (list Z)) (seqlens : list Z) (st : stream_state) :
    result (stream_call * list Z * stream_state) :=
  '(seqlens, st) ← may_update_attn_metadata order block_table seqlens st;
  rows ← of_option AttributeError (st_block_table st);
  Ok (mkCall (take rows (block_table_tensor st)) seqlens, seqlens, st).

(** [_attention]. *)
Definition stream_attention (order : list nat) (block_table : list (list Z)) (seqlens : list Z) (st : stream_state) :
    result (stream_call * list Z * stream_state) :=
  '(call, seqlens, st) ←
    (if st_in_propose st then stream_draft_attention order block_table seqlens st
     else Ok (mkCall block_table seqlens, seqlens, st));
  Ok (call, seqlens,
      mkStreamState ((st_curr_layer st + 1) mod st_num_layers p)%nat (st_in_propose st) (block_table_tensor st) (st_block_table st)).

(** [enter_propose] and [exit_propose]. *)
Definition stream_enter (st : stream_state) : result stream_state :=
  _ ← py_assert (st_curr_layer st =? 0)%nat; Ok (mkStreamState (st_curr_layer st) true (block_table_tensor st) (st_block_table st)).
Definition stream_exit (st : stream_state) : result stream_state :=
  _ ← py_assert (st_curr_layer st =? 0)%nat; Ok (mkStreamState (st_curr_layer st) false (block_table_tensor st) (st_block_table st)).

(** The forward pass: every layer attends, with the metadata of the step. *)
Definition stream_pass (order : list nat) (block_table : list (list Z)) (seqlens : list Z) (st : stream_state) :
    result (list stream_call * list Z * stream_state) :=
  foldM (fun '(calls, seqlens, st) (_ : nat) =>
           '(call, seqlens, st) ← stream_attention order block_table seqlens st; Ok (calls ++ [call], seqlens, st))
    (seq 0 (st_num_layers p)) ([], seqlens, st).
End Overrider.

(** * What the kernel copies *)
Lemma elem_of_tiles len o : o ∈ filter (fun o => o <? len) (tile_starts len ≫= tile) <-> 0 <= o < len.
Proof.
  rewrite list_elem_of_filter. unfold tile_starts, tile. rewrite list_elem_of_bind. setoid_rewrite list_elem_of_fmap. setoid_rewrite elem_of_seq.
  rewrite Is_true_true, Z.ltb_lt. split.
  - intros [Ho (y & (i & -> & _) & (k & -> & _))]. lia.
  - intros Ho. split; [lia|]. exists (Z.of_nat TILE * (o / Z.of_nat TILE)).
    pose proof (Z.div_mod o (Z.of_nat TILE) ltac:(unfold TILE; lia)) as Hdm. pose proof (Z.mod_pos_bound o (Z.of_nat TILE) ltac:(unfold TILE; lia)) as Hm.
    pose proof (Z.div_pos o (Z.of_nat TILE) ltac:(lia) ltac:(unfold TILE; lia)) as Hd. split.
    + exists (Z.to_nat (o mod Z.of_nat TILE)). lia.
    + exists (Z.to_nat (o / Z.of_nat TILE)). split; [lia|]. split; [lia|]. pose proof (proj1 (cdiv_le len (Z.of_nat TILE) _ ltac:(unfold TILE; lia)) (Z.le_refl _)) as Hc.
      apply Nat2Z.inj_lt. nia.
Qed.

Lemma copy_blocks_row_ok src start len dst :
  src <> [] -> 0 <= start -> 0 <= len -> start + len <= py_len src -> 1 + len <= py_len dst ->
  copy_blocks_row src start len dst = Ok (take 1 src ++ take (Z.to_nat len) (drop (Z.to_nat start) src) ++ drop (S (Z.to_nat len)) dst).
Proof.
  intros Hne Hs Hl Hsrc Hdst. unfold copy_blocks_row. destruct src as [|x src']; [done|]. set (src := x :: src') in *. change (load src 0) with (Ok x : result Z).
  cbn [mbind result_bind]. destruct dst as [|y dst']; [unfold py_len in Hdst; cbn in Hdst; lia|]. change (store (y :: dst') 0 x) with (Ok (x :: dst') : result (list Z)).
  cbn [mbind result_bind]. set (val := fun k : nat => src !!! Z.to_nat (start + (Z.of_nat k - 1))).
  rewrite (foldM_ext _ (fun row off => foldM (fun row o => if o <? len then cell_update (fun k _ => Ok (val k)) row (Z.to_nat (1 + o)) else Ok row) (tile off) row)).
  2:{ intros row off Hoff. assert (Hpos : 0 <= off) by (unfold tile_starts in Hoff; apply list_elem_of_fmap in Hoff as (k & -> & _); lia). unfold copy_tile.
      rewrite (mapR_pure _ (fun o => (o, if o <? len then val (Z.to_nat (1 + o)) else 0))).
      2:{ intros o (i & -> & _)%list_elem_of_fmap. unfold load_masked. destruct (Z.ltb_spec (off + Z.of_nat i) len) as [Hlt|]; [|done].
          destruct (load_ok src (start + (off + Z.of_nat i))) as (v & -> & Ev); [lia|]. cbn [mbind result_bind]. unfold val.
          replace (start + (Z.of_nat (Z.to_nat (1 + (off + Z.of_nat i))) - 1)) with (start + (off + Z.of_nat i)) by lia. by rewrite (list_lookup_total_correct _ _ _ Ev). }
      cbn [mbind result_bind]. rewrite foldM_fmap. apply foldM_ext. intros row' o (i & -> & _)%list_elem_of_fmap. unfold store_masked.
      destruct (off + Z.of_nat i <? len); [|done]. rewrite store_cell by lia. done. }
  rewrite foldM_nested, foldM_masked, <- (foldM_fmap (cell_update _) (fun o => Z.to_nat (1 + o))). set (ks := _ <$> _).
  assert (Hks : forall k, k ∈ ks <-> (1 <= k <= Z.to_nat len)%nat).
  { intros k. unfold ks. rewrite list_elem_of_fmap. setoid_rewrite elem_of_tiles. split; [intros (o & -> & Ho); lia|]. intros Hk. exists (Z.of_nat k - 1). lia. }
  destruct (foldM_cell_write (fun k _ => Ok (val k)) val ks (x :: dst')) as (row & -> & Hrow & _).
  { intros k Hk%Hks. split; [|done]. apply lookup_lt_is_Some_2. unfold py_len in Hdst. cbn in *. lia. }
  f_equal. cbn [cell_get list_cells] in Hrow. apply list_eq. intros i. rewrite Hrow.
  assert (Hlen : length (take (Z.to_nat len) (drop (Z.to_nat start) src)) = Z.to_nat len) by (rewrite length_take, length_drop; unfold py_len in Hsrc; lia).
  destruct i as [|i]; [rewrite decide_False by (rewrite Hks; lia); done|]. cbn [take app]. cbn [lookup list_lookup].
  destruct (decide (S i ∈ ks)) as [Hi%Hks|Hi]; [|rewrite Hks in Hi].
  - change (take 1 src) with [x]. rewrite (lookup_app_r [x]) by (cbn; lia). replace (S i - length [x])%nat with i by (cbn; lia). rewrite lookup_app_l, lookup_take_lt, lookup_drop by lia. unfold val.
    replace (Z.to_nat (start + (Z.of_nat (S i) - 1))) with (Z.to_nat start + i)%nat by lia.
    destruct (lookup_lt_is_Some_2 src (Z.to_nat start + i)) as [v Ev]; [unfold py_len in Hsrc; lia|]. by rewrite Ev, (list_lookup_total_correct _ _ _ Ev).
  - change (take 1 src) with [x]. rewrite (lookup_app_r [x]) by (cbn; lia). replace (S i - length [x])%nat with i by (cbn; lia).
    cbn [drop]. rewrite lookup_app_r, Hlen, lookup_drop by lia. f_equal. lia.
Qed.

(** * What a draft step attends to *)
Section Facts.
Context (p : stream_params).
Let bs := st_block_size p.
(** The settings: blocks are not empty, a window block fits beside the sink, and the
    budget is at least one block (there is at least one token to keep). *)
Record stream_ok : Prop := {
  so_block : 0 < st_block_size p;
  so_blocks : 1 < st_max_blocks p;
  so_layers : (0 < st_num_layers p)%nat;
  so_budget n : 1 <= ceil_blocks p n;
}.
Context (Hp : stream_ok).

(** The shape of the preallocated table. *)
Definition stream_shape (st : stream_state) : Prop :=
  length (block_table_tensor st) = st_max_batch_size p /\ forall r, r ∈ block_table_tensor st -> py_len r = st_max_blocks p.

(** The request's blocks: all its tokens have one, and the table has an entry. *)
Definition row_ok (row : list Z) (n : Z) : Prop := 0 <= n /\ row <> [] /\ (n - 1) / bs < py_len row.

(** The positions kept: the sink block and the window. *)
Definition kept_positions (n : Z) : list Z := py_range 0 (Z.min n bs) ++ py_range (start_block p n * bs) n.

(** The slots a call reads for request [b], in order. *)
Definition attended_slots (c : stream_call) (b : nat) : option (list Z) :=
  row ← call_block_table c !! b; n ← call_seqlens c !! b; Some (pos_slot row bs <$> py_range 0 n).

Definition short_row (row : list Z) (n : Z) : list Z := take 1 row ++ take (Z.to_nat (num_sliding_blocks p n)) (drop (Z.to_nat (start_block p n)) row).

Lemma window_fits n : 0 <= n -> 1 <= start_block p n /\ 0 <= num_sliding_blocks p n <= st_max_blocks p - 1 /\
  (0 < num_sliding_blocks p n -> start_block p n + num_sliding_blocks p n = (n - 1) / bs + 1) /\
  (num_sliding_blocks p n = 0 -> start_block p n = 1 /\ n <= bs).
Proof.
  intros Hn. pose proof (so_block Hp) as Hbs. pose proof (so_blocks Hp) as Hmb. pose proof (so_budget Hp n) as Hb. unfold num_sliding_blocks, start_block. fold bs in Hbs |- *.
  set (w := Z.min (ceil_blocks p n) (st_max_blocks p - 1)). assert (1 <= w <= st_max_blocks p - 1) by lia. set (lst := (n - 1) / bs).
  assert (Hlst : -1 <= lst) by (apply Z.div_le_lower_bound; lia). split; [lia|]. split; [lia|]. split; [lia|]. intros H0. assert (Hl0 : lst <= 0) by lia. split; [lia|].
  pose proof (Z.mul_succ_div_gt (n - 1) bs Hbs) as Hm. fold lst in Hm. nia.
Qed.

(** A shortened row holds the slots of the kept positions. *)
Lemma short_row_slots row n rest : row_ok row n ->
  pos_slot (short_row row n ++ rest) bs <$> py_range 0 (n - (start_block p n - 1) * bs) = pos_slot row bs <$> kept_positions n.
Proof.
  intros (Hn & Hne & Hrow). pose proof (so_block Hp) as Hbs. fold bs in Hbs. destruct (window_fits n Hn) as (Hs & Hnum & Hw & H0).
  unfold kept_positions. set (s := start_block p n) in *. set (m := num_sliding_blocks p n) in *.
  destruct row as [|x row']; [done|]. set (row := x :: row') in *. unfold short_row. fold s m. change (take 1 row) with [x].
  assert (Hsink : forall q, 0 <= q < bs -> pos_slot (([x] ++ take (Z.to_nat m) (drop (Z.to_nat s) row)) ++ rest) bs q = pos_slot row bs q).
  { intros q Hq. unfold pos_slot. by rewrite Z.div_small. }
  assert (Hext : forall a b, 0 <= a -> b <= bs -> pos_slot (([x] ++ take (Z.to_nat m) (drop (Z.to_nat s) row)) ++ rest) bs <$> py_range a b = pos_slot row bs <$> py_range a b).
  { intros a b Ha Hb. apply list_fmap_ext. intros i q Hq. apply Hsink. unfold py_range in Hq. apply lookup_seqZ in Hq. lia. }
  destruct (decide (m = 0)) as [Hm|Hm].
  { destruct (H0 Hm) as [-> Hle]. rewrite Z.min_l by done. unfold py_range at 3. rewrite (seqZ_nil (1 * bs)), app_nil_r by lia.
    replace (n - (1 - 1) * bs) with n by lia. by apply Hext. }
  assert (Hlt : (s + m - 1) * bs < n /\ s * bs < n).
  { pose proof (Z.mul_div_le (n - 1) bs Hbs). specialize (Hw ltac:(lia)). nia. }
  rewrite Z.min_r by nia. assert (Hsplit : py_range 0 (n - (s - 1) * bs) = py_range 0 bs ++ py_range bs (n - (s - 1) * bs)).
  { unfold py_range. replace (n - (s - 1) * bs - 0) with ((bs - 0) + (n - (s - 1) * bs - bs)) by lia. rewrite seqZ_app by nia. do 2 f_equal. lia. }
  rewrite Hsplit, !fmap_app. f_equal; [by apply Hext|].
  assert (Hrange : py_range (s * bs) n = Z.add ((s - 1) * bs) <$> py_range bs (n - (s - 1) * bs)).
  { unfold py_range. rewrite fmap_add_seqZ. f_equal; lia. }
  rewrite Hrange, <- list_fmap_compose. apply list_fmap_ext. intros i t Ht. unfold py_range in Ht. apply lookup_seqZ in Ht. cbn [compose].
  unfold pos_slot. rewrite (Z.add_comm ((s - 1) * bs) t), Z.div_add, Z.mod_add by lia. f_equal. f_equal.
  assert (Hj : 1 <= t / bs <= m).
  { split; [apply Z.div_le_lower_bound; lia|]. specialize (Hw ltac:(lia)).
    assert (t / bs + (s - 1) <= (n - 1) / bs); [|lia]. rewrite <- Z.div_add by lia. apply Z.div_le_mono; lia. }
  assert (Hlen : (Z.to_nat s + Z.to_nat m <= length row)%nat) by (specialize (Hw ltac:(lia)); unfold py_len in Hrow; lia).
  rewrite !list_lookup_total_alt. f_equal. rewrite lookup_app_l by (rewrite length_app, length_take, length_drop; cbn [length]; lia).
  rewrite lookup_app_r by (cbn; lia). rewrite lookup_take_lt, lookup_drop by (cbn; lia). f_equal. cbn [length]. lia.
Qed.

Lemma row_fits row n : row_ok row n -> start_block p n + num_sliding_blocks p n <= py_len row /\ py_len (short_row row n) = 1 + num_sliding_blocks p n.
Proof.
  intros (H0 & Hne & Hrow). destruct (window_fits n H0) as (W1 & W2 & W3 & W4).
  assert (Hle : start_block p n + num_sliding_blocks p n <= py_len row).
  { destruct (decide (num_sliding_blocks p n = 0)) as [Hz|Hz]; [|rewrite W3 by lia; unfold py_len in *; lia].
    destruct (W4 Hz) as [-> _]. destruct row; [done|]. unfold py_len. cbn. lia. }
  split; [done|]. unfold short_row, py_len in *. rewrite length_app, !length_take, length_drop. destruct row; [done|]. cbn [length] in *. lia.
Qed.

(** The launch. *)
Lemma copy_launch order block_table seqlens st : (length seqlens <= st_max_batch_size p)%nat -> stream_shape st -> order ≡ₚ seq 0 (length seqlens) ->
  (forall b n, seqlens !! b = Some n -> exists row, block_table !! b = Some row /\ row_ok row n) ->
  exists tensor, foldM (cell_update (copy_blocks_kernel block_table (start_block p <$> seqlens) (num_sliding_blocks p <$> seqlens))) order (block_table_tensor st) = Ok tensor /\
    length tensor = st_max_batch_size p /\ (forall r, r ∈ tensor -> py_len r = st_max_blocks p) /\
    forall b n row, seqlens !! b = Some n -> block_table !! b = Some row -> exists rest, tensor !! b = Some (short_row row n ++ rest).
Proof.
  intros Hb [Hl Hw] Ho Hrows.
  set (final := fun b : nat => short_row (block_table !!! b) (seqlens !!! b) ++ drop (S (Z.to_nat (num_sliding_blocks p (seqlens !!! b)))) (block_table_tensor st !!! b)).
  destruct (foldM_cell_update (copy_blocks_kernel block_table (start_block p <$> seqlens) (num_sliding_blocks p <$> seqlens)) final order (block_table_tensor st))
    as (tensor & E & Ht & Hsh).
  - rewrite Ho. apply NoDup_seq.
  - intros b Hin. rewrite Ho, elem_of_seq in Hin. destruct (lookup_lt_is_Some_2 seqlens b) as [n En]; [lia|]. destruct (Hrows b n En) as (row & Er & Hok).
    destruct (lookup_lt_is_Some_2 (block_table_tensor st) b) as [d Ed]; [lia|]. exists d. split; [done|]. unfold copy_blocks_kernel. rewrite Er, !list_lookup_fmap, En. cbn [of_option mbind result_bind fmap option_fmap option_map].
    unfold final. rewrite !(list_lookup_total_correct _ _ _ Er), !(list_lookup_total_correct _ _ _ En), (list_lookup_total_correct _ _ _ Ed).
    destruct Hok as (H0 & Hne & Hrow). destruct (window_fits n H0) as (W1 & W2 & W3 & W4). pose proof (Hw d ltac:(by eapply list_elem_of_lookup_2)) as Hd.
    rewrite copy_blocks_row_ok; [unfold short_row; by rewrite <- app_assoc|done|lia|lia| |lia]. by apply row_fits.
  - exists tensor. split; [done|]. cbn [cell_get list_cells] in Ht.
    assert (Hlt : length tensor = st_max_batch_size p) by (apply (Hsh (fun t => length t = st_max_batch_size p)); [|done]; intros k v t Hk; cbn; by rewrite length_insert).
    assert (Hin : forall b n row, seqlens !! b = Some n -> block_table !! b = Some row -> exists d, block_table_tensor st !! b = Some d /\
      tensor !! b = Some (short_row row n ++ drop (S (Z.to_nat (num_sliding_blocks p n))) d)).
    { intros b n row En Er. pose proof (lookup_lt_Some _ _ _ En) as Hbn. destruct (lookup_lt_is_Some_2 (block_table_tensor st) b) as [d Ed]; [lia|].
      exists d. split; [done|]. rewrite Ht, decide_True by (rewrite Ho, elem_of_seq; lia). unfold final.
      by rewrite !(list_lookup_total_correct _ _ _ Er), !(list_lookup_total_correct _ _ _ En), (list_lookup_total_correct _ _ _ Ed). }
    split; [done|]. split.
    + intros r [b Eb]%list_elem_of_lookup. destruct (seqlens !! b) as [n|] eqn:En.
      * destruct (Hrows b n En) as (row & Er & Hok). destruct (Hin b n row En Er) as (d & Ed & Et). rewrite Et in Eb. injection Eb as <-.
        destruct (row_fits row n Hok) as [_ Hs]. destruct Hok as (H0 & _). destruct (window_fits n H0) as (_ & W2 & _).
        pose proof (Hw d ltac:(by eapply list_elem_of_lookup_2)) as Hd. unfold py_len in *. rewrite length_app, length_drop. lia.
      * rewrite Ht, decide_False in Eb by (rewrite Ho, elem_of_seq; apply lookup_ge_None in En; lia). apply Hw. by eapply list_elem_of_lookup_2.
    + intros b n row En Er. destruct (Hin b n row En Er) as (d & _ & Et). by eexists.
Qed.

(** The first layer of a step rewrites the metadata, the others find it rewritten. *)
Lemma first_layer order block_table seqlens st : (length seqlens <= st_max_batch_size p)%nat -> stream_shape st -> order ≡ₚ seq 0 (length seqlens) ->
  (forall b n, seqlens !! b = Some n -> exists row, block_table !! b = Some row /\ row_ok row n) ->
  st_curr_layer st = 0%nat -> st_in_propose st = true ->
  exists call seqlens' st', stream_attention p order block_table seqlens st = Ok (call, seqlens', st') /\ stream_shape st' /\ st_in_propose st' = true /\
    st_curr_layer st' = (1 mod st_num_layers p)%nat /\ st_block_table st' = Some (length seqlens) /\
    call = mkCall (take (length seqlens) (block_table_tensor st')) seqlens' /\
    forall b n row, seqlens !! b = Some n -> block_table !! b = Some row -> attended_slots call b = Some (pos_slot row bs <$> kept_positions n).
Proof.
  intros Hb Hsh Ho Hrows Hl Hpr. unfold stream_attention, stream_draft_attention, may_update_attn_metadata. rewrite Hpr, Hl. cbn [Nat.ltb Nat.leb].
  destruct (copy_launch order block_table seqlens st Hb Hsh Ho Hrows) as (tensor & -> & T1 & T2 & T3). cbn [mbind result_bind st_block_table of_option].
  eexists _, _, _. split; [reflexivity|]. split; [done|]. split; [done|]. split; [done|]. split; [done|]. split; [done|].
  intros b n row En Er. destruct (T3 b n row En Er) as (rest & Et). destruct (Hrows b n En) as (row' & Er' & Hok). rewrite Er in Er'. injection Er' as <-.
  unfold attended_slots. cbn [call_block_table call_seqlens block_table_tensor]. rewrite lookup_take_lt by (by eapply lookup_lt_Some). rewrite Et, list_lookup_fmap, En. cbn.
  f_equal. by apply short_row_slots.
Qed.

Lemma next_layer order block_table seqlens st k : (0 < st_curr_layer st)%nat -> st_in_propose st = true -> st_block_table st = Some k ->
  stream_attention p order block_table seqlens st = Ok (mkCall (take k (block_table_tensor st)) seqlens, seqlens,
    mkStreamState ((st_curr_layer st + 1) mod st_num_layers p)%nat true (block_table_tensor st) (Some k)).
Proof.
  intros Hl Hpr Hk. unfold stream_attention, stream_draft_attention, may_update_attn_metadata. rewrite Hpr, (proj2 (Nat.ltb_lt _ _) Hl).
  cbn [mbind result_bind]. rewrite Hk. cbn [of_option mbind result_bind]. by rewrite Hk, Hpr.
Qed.

(** The window ends with the last token and fits the table. *)
Lemma kept_window n : 0 < n -> n - 1 ∈ kept_positions n /\ py_len (kept_positions n) <= st_max_blocks p * bs.
Proof.
  intros Hn. pose proof (so_block Hp) as Hbs. fold bs in Hbs. pose proof (so_blocks Hp). destruct (window_fits n ltac:(lia)) as (W1 & W2 & W3 & W4).
  unfold kept_positions, py_len, py_range. set (s := start_block p n) in *. set (m := num_sliding_blocks p n) in *.
  rewrite elem_of_app, !elem_of_seqZ, length_app, !length_seqZ. destruct (decide (m = 0)) as [Hm|Hm].
  - destruct (W4 Hm) as [-> Hle]. split; [left; lia|]. nia.
  - specialize (W3 ltac:(lia)). pose proof (Z.mul_div_le (n - 1) bs Hbs). pose proof (Z.mul_succ_div_gt (n - 1) bs Hbs). split; [right; nia|].
    assert (n <= (s + m) * bs) by nia. nia.
Qed.

(** C21: A StreamingLLM draft step.  Whatever the order in which the programs of
    the copy run, each of the model's layers attends with the same block table and
    lengths, which make it read, for every request, exactly the slots of the first
    block and of the window of its last blocks, in order.  The window starts where the
    budget puts it ([start_block]), contains the last token, and never needs more
    blocks than are preallocated.  The step leaves the overrider ready for the next
    one. *)
Theorem streaming_step_correct order block_table seqlens st :
  (length seqlens <= st_max_batch_size p)%nat -> stream_shape st -> order ≡ₚ seq 0 (length seqlens) ->
  (forall b n, seqlens !! b = Some n -> exists row, block_table !! b = Some row /\ row_ok row n) ->
  st_curr_layer st = 0%nat -> st_in_propose st = true ->
  exists calls seqlens' st', stream_pass p order block_table seqlens st = Ok (calls, seqlens', st') /\
    stream_shape st' /\ st_curr_layer st' = 0%nat /\ st_in_propose st' = true /\ length calls = st_num_layers p /\
    forall call b n row, call ∈ calls -> seqlens !! b = Some n -> block_table !! b = Some row ->
      attended_slots call b = Some (pos_slot row bs <$> kept_positions n) /\
      (0 < n -> n - 1 ∈ kept_positions n /\ py_len (kept_positions n) <= st_max_blocks p * bs).
Proof.
  intros Hb Hsh Ho Hrows Hl Hpr. unfold stream_pass. pose proof (so_layers Hp) as HL.
  destruct (st_num_layers p) as [|L] eqn:EL; [lia|]. cbn [seq foldM].
  destruct (first_layer order block_table seqlens st Hb Hsh Ho Hrows Hl Hpr) as (call & seqlens1 & st1 & -> & S1 & P1 & C1 & B1 & Ec & Hatt).
  cbn [mbind result_bind app]. rewrite EL in C1.
  match goal with |- context [foldM ?f _ _] => destruct (foldM_inv f (fun pre '(calls, sl, st') =>
      calls = replicate (S (length pre)) call /\ sl = seqlens1 /\ st_in_propose st' = true /\ st_block_table st' = Some (length seqlens) /\
      block_table_tensor st' = block_table_tensor st1 /\ st_curr_layer st' = (S (length pre) mod S L)%nat)
    (seq 1 L) ([call], seqlens1, st1)) as ([[calls sl] st2] & -> & H1 & -> & H3 & H4 & H5 & H6) end.
  - done.
  - intros pre a post [[calls sl] st2] El (-> & -> & H3 & H4 & H5 & H6).
    assert (Hpre : (length pre < L)%nat) by (apply (f_equal length) in El; rewrite length_seq, length_app in El; cbn in El; lia).
    rewrite Nat.mod_small in H6 by lia. rewrite (next_layer _ _ _ _ (length seqlens)) by (try done; lia). cbn [mbind result_bind].
    eexists. split; [reflexivity|]. rewrite H5, <- Ec, length_app. cbn [length]. split; [|split; [done|split; [done|split; [done|split; [done|]]]]].
    + replace (length pre + 1)%nat with (S (length pre)) by lia. change (replicate (S (length pre)) call ++ [call]) with (replicate (S (length pre)) call ++ replicate 1 call).
      rewrite <- replicate_add. f_equal; lia.
    + cbn [st_curr_layer]. rewrite H6, EL. f_equal; lia.
  - eexists _, _, st2. split; [reflexivity|]. rewrite length_seq in H1, H6. subst calls. unfold stream_shape. rewrite H5, length_replicate.
    split; [exact S1|]. split; [by rewrite H6, Nat.Div0.mod_same|]. split; [done|]. split; [done|].
    intros c b n row [-> _]%elem_of_replicate En Er. split; [by apply Hatt|apply kept_window].
Qed.
End Facts.

(** * A concrete step *)

(** Two requests, blocks of four tokens, a table of three blocks. *)
Definition demo_stream : stream_params := mkStream 4 3 2 2 (fun n => Z.max 1 (cdiv n 8)).
Definition demo_stream_state : stream_state := mkStreamState 0 true [[-1; -1; -1]; [-1; -1; -1]] None.
Definition demo_tables : list (list Z) := [[10; 11; 12; 13; 14]; [20; 21]].

Example demo_stream_calls :
  stream_pass demo_stream [1; 0]%nat demo_tables [18; 3] demo_stream_state
  = Ok (replicate 2 (mkCall [[10; 13; 14]; [20; -1; -1]] [10; 3]), [10; 3], mkStreamState 0 true [[10; 13; 14]; [20; -1; -1]] (Some 2%nat)).
Proof. vm_compute. reflexivity. Qed.

Lemma demo_stream_ok : stream_ok demo_stream.
Proof. split; cbn; [done|done|lia|]. intros n. lia. Qed.

Lemma streaming_step_correct_witness :
  exists calls seqlens' st', stream_pass demo_stream [1; 0]%nat demo_tables [18; 3] demo_stream_state = Ok (calls, seqlens', st') /\
    stream_shape demo_stream st' /\ st_curr_layer st' = 0%nat /\ st_in_propose st' = true /\ length calls = 2%nat /\
    forall call b n row, call ∈ calls -> [18; 3] !! b = Some n -> demo_tables !! b = Some row ->
      attended_slots demo_stream call b = Some (pos_slot row 4 <$> kept_positions demo_stream n) /\
      (0 < n -> n - 1 ∈ kept_positions demo_stream n /\ py_len (kept_positions demo_stream n) <= 3 * 4).
Proof.
  apply (streaming_step_correct demo_stream demo_stream_ok [1; 0]%nat demo_tables [18; 3] demo_stream_state); try done.
  - split; [done|]. intros r Hr. cbn in Hr. by repeat (apply elem_of_cons in Hr as [->|Hr]; [done|]); apply elem_of_nil in Hr.
  - cbn. apply Permutation_swap.
  - intros [|[|b]] n; cbn; intros [= <-]; eexists; (split; [reflexivity|]); (split; [lia|]); (split; [done|]); vm_compute; reflexivity.
Defined.
