(* ===== verification/LongSpec.v ===== *)
(** The attention overrider of LongSpec drafting:
    [src/vllm/v1/spec_decode/sparse_attn/longspec/overrider.py] with [config.py],
    [stats.py], [layer_skip.py], [portable/draft_kv.py] and the base class in
    [attn_overrider/__init__.py].

    The overrider is a state machine driven by the attention calls of the model:
    a verify pass scores every layer and ends with the selection; a propose runs
    draft passes whose attention sees only the selected tokens and the tokens
    written since.  What is left a parameter: the attention function itself (the
    model records the arguments it is called with), the float score collectors
    (the metric rows they produce are arguments) and [ceil(len * ratio)]. *)
From S2P Require Import Prelude Device Tensor MassSelect SlotTable.
Local Open Scope Z_scope.

(** * Configuration *)

(** The fields of the speculative and model configuration that are read. *)
Record VllmConfig {F : Type} := mkVllmConfig {
  sparse_attn_algorithm : string;
  sparse_attn_theta : F;
  sparse_attn_sink : Z;
  sparse_attn_recent : Z;
  sparse_attn_min_tokens : Z;
  sparse_attn_ratio : F;
  num_speculative_tokens : Z;
  sparse_attn_packed_verify : bool;
  sparse_attn_skip_attn_layers : list Z;
  sparse_attn_skip_layers : list Z;
  get_num_layers : Z;
  enforce_eager : bool;
}.
Arguments VllmConfig : clear implicits.

Record LongSpecConfig {F : Type} := mkLongSpecConfig {
  variant : string;
  theta : F;
  sink : Z;
  recent : Z;
  min_tokens : Z;
  ratio : F;
  num_spec_tokens : Z;
  num_layers : Z;
  packed_verify : bool;
  skip_attn_layers : gset Z;
  skip_layers : gset Z;
}.
Arguments LongSpecConfig : clear implicits.

(** [_check_layers]. *)
Definition check_layers (layers : gset Z) (num_layers : Z) : result unit :=
  if bool_decide (filter (fun l => l < 0 \/ num_layers <= l) layers = ∅) then Ok tt else Err ValueError.

(** [LongSpecConfig.from_vllm_config]. *)
Definition from_vllm_config {F} (c : VllmConfig F) : result (LongSpecConfig F) :=
  let skip_attn : gset Z := list_to_set (sparse_attn_skip_attn_layers c) in
  let skip : gset Z := list_to_set (sparse_attn_skip_layers c) in
  if bool_decide (sparse_attn_algorithm c = "coverage"%string) && negb (bool_decide (skip_attn = ∅) && bool_decide (skip = ∅))
  then Err ValueError else
  _ ← check_layers skip_attn (get_num_layers c);
  _ ← check_layers skip (get_num_layers c);
  if negb (bool_decide (skip_attn ∩ skip = ∅)) then Err ValueError else
  if negb (bool_decide (skip = ∅)) && negb (enforce_eager c) then Err ValueError else
  Ok (mkLongSpecConfig F (sparse_attn_algorithm c) (sparse_attn_theta c) (sparse_attn_sink c) (sparse_attn_recent c)
        (sparse_attn_min_tokens c) (sparse_attn_ratio c) (num_speculative_tokens c) (get_num_layers c) (sparse_attn_packed_verify c)
        skip_attn skip).

Lemma list_to_set_empty (l : list Z) : (list_to_set l : gset Z) = ∅ <-> l = [].
Proof. destruct l as [|x l]; [done|]. split; [|done]. intros H. assert (x ∈ (∅ : gset Z)) by (rewrite <- H; set_solver). set_solver. Qed.

Lemma check_layers_cases (X : gset Z) n :
  (check_layers X n = Ok tt /\ forall l, l ∈ X -> 0 <= l < n) \/
  (check_layers X n = Err ValueError /\ exists l, l ∈ X /\ ~ 0 <= l < n).
Proof.
  unfold check_layers. destruct (bool_decide (filter (fun l => l < 0 \/ n <= l) X = ∅)) eqn:E; [left|right].
  - split; [done|]. apply bool_decide_eq_true in E. intros l Hl.
    assert (~ (l < 0 \/ n <= l)); [|lia]. intros H. assert (Hf : l ∈ filter (fun l => l < 0 \/ n <= l) X) by (by apply elem_of_filter).
    rewrite E in Hf. set_solver.
  - split; [done|]. apply bool_decide_eq_false, set_choose_L in E as [l [H1 H2]%elem_of_filter]. exists l. split; [done|lia].
Qed.

(** The configuration is accepted exactly when "coverage" has no masks, both
    masks name layers of the model, no layer is in both, and whole-layer skips run
    eagerly; what is accepted carries the fields unchanged, what is refused raises
    [ValueError]. *)
Theorem longspec_config_checks {F} (c : VllmConfig F) :
  match from_vllm_config c with
  | Ok cf =>
      (sparse_attn_algorithm c = "coverage"%string -> sparse_attn_skip_attn_layers c = [] /\ sparse_attn_skip_layers c = [])
      /\ (forall l, l ∈ sparse_attn_skip_attn_layers c \/ l ∈ sparse_attn_skip_layers c -> 0 <= l < get_num_layers c)
      /\ (forall l, l ∈ sparse_attn_skip_attn_layers c -> l ∈ sparse_attn_skip_layers c -> False)
      /\ (sparse_attn_skip_layers c <> [] -> enforce_eager c = true)
      /\ (forall l, l ∈ skip_attn_layers cf <-> l ∈ sparse_attn_skip_attn_layers c)
      /\ (forall l, l ∈ skip_layers cf <-> l ∈ sparse_attn_skip_layers c)
      /\ num_layers cf = get_num_layers c /\ theta cf = sparse_attn_theta c /\ ratio cf = sparse_attn_ratio c
      /\ sink cf = sparse_attn_sink c /\ recent cf = sparse_attn_recent c /\ min_tokens cf = sparse_attn_min_tokens c
      /\ num_spec_tokens cf = num_speculative_tokens c
  | Err e => e = ValueError
      /\ ((sparse_attn_algorithm c = "coverage"%string /\ (sparse_attn_skip_attn_layers c <> [] \/ sparse_attn_skip_layers c <> []))
          \/ (exists l, (l ∈ sparse_attn_skip_attn_layers c \/ l ∈ sparse_attn_skip_layers c) /\ ~ 0 <= l < get_num_layers c)
          \/ (exists l, l ∈ sparse_attn_skip_attn_layers c /\ l ∈ sparse_attn_skip_layers c)
          \/ (sparse_attn_skip_layers c <> [] /\ enforce_eager c = false))
  end.
Proof.
  unfold from_vllm_config. cbv zeta.
  set (A := list_to_set (sparse_attn_skip_attn_layers c) : gset Z). set (B := list_to_set (sparse_attn_skip_layers c) : gset Z).
  assert (HA : forall l, l ∈ A <-> l ∈ sparse_attn_skip_attn_layers c) by (intros; apply elem_of_list_to_set).
  assert (HB : forall l, l ∈ B <-> l ∈ sparse_attn_skip_layers c) by (intros; apply elem_of_list_to_set).
  assert (HA0 : A = ∅ <-> sparse_attn_skip_attn_layers c = []) by apply list_to_set_empty.
  assert (HB0 : B = ∅ <-> sparse_attn_skip_layers c = []) by apply list_to_set_empty.
  destruct (bool_decide (sparse_attn_algorithm c = "coverage"%string) && negb (bool_decide (A = ∅) && bool_decide (B = ∅))) eqn:E1.
  { apply andb_prop in E1 as [E1%bool_decide_eq_true E2]. apply negb_true_iff, andb_false_iff in E2. rewrite !bool_decide_eq_false in E2. tauto. }
  destruct (check_layers_cases A (get_num_layers c)) as [[-> Hin1]|[-> (l & Hl & Hn)]]; cbn [mbind result_bind].
  2: { split; [done|]. right. left. exists l. rewrite <- HA. tauto. }
  destruct (check_layers_cases B (get_num_layers c)) as [[-> Hin2]|[-> (l & Hl & Hn)]]; cbn [mbind result_bind].
  2: { split; [done|]. right. left. exists l. rewrite <- HB. tauto. }
  destruct (bool_decide (A ∩ B = ∅)) eqn:E3; cbn [negb].
  2: { apply bool_decide_eq_false, set_choose_L in E3 as [l [Hl1 Hl2]%elem_of_intersection]. split; [done|]. right. right. left. exists l. by rewrite <- HA, <- HB. }
  apply bool_decide_eq_true in E3.
  destruct (negb (bool_decide (B = ∅)) && negb (enforce_eager c)) eqn:E4.
  { apply andb_prop in E4 as [E4%negb_true_iff%bool_decide_eq_false E5%negb_true_iff]. split; [done|]. tauto. }
  cbn. split; [|split; [|split; [|split; [|done]]]].
  - intros Hcov. rewrite bool_decide_true in E1 by done. apply negb_false_iff, andb_prop in E1. rewrite !bool_decide_eq_true in E1. tauto.
  - intros l. rewrite <- HA, <- HB. intros [?|?]; auto.
  - intros l. rewrite <- HA, <- HB. intros H1 H2. set_solver.
  - intros Hne. apply andb_false_iff in E4. rewrite !negb_false_iff, bool_decide_eq_true in E4. tauto.
Qed.

(** * Statistics *)
Record SelectionStats := mkStats {
  sum_used : list Z;
  sum_valid : Z;
  request_rounds : Z;
}.

Definition stats_init (num_layers : nat) : SelectionStats := mkStats (replicate num_layers 0) 0 0.

(** [accumulate]. *)
Definition accumulate (used : list (list Z)) (valid : list Z) (s : SelectionStats) : SelectionStats :=
  mkStats (zip_with Z.add (sum_used s) (sumZ <$> used)) (sum_valid s + sumZ valid)
    (request_rounds s + py_len (filter (fun v => 0 < v) valid)).

(** [reset]. *)
Definition stats_reset (s : SelectionStats) : SelectionStats := mkStats ((fun _ => 0) <$> sum_used s) 0 0.

(** * How the draft pass sees the selected tokens *)
Section DraftKV.
Context {A : Type}.

(** The arguments of the attention call the overrider rewrites: the paged K and V
    caches, the used lengths, the page table and the maximum length. *)
Record attn_args := mkArgs {
  aa_k : list (list (list A));
  aa_v : list (list (list A));
  seqused_k : list Z;
  aa_block_table : list (list Z);
  max_seqlen_k : option Z;
}.

(** [t.view(-1, page, ...)] of a tensor of rows. *)
Definition view_pages {B} (page : nat) (rows : list B) : list (list B) :=
  (fun i => take page (drop (i * page) rows)) <$> seq 0 (length rows / page).

Record GatheredDraftKV := mkGathered {
  g_page : nat;
  g_pages : nat;
  fresh : list bool;
  g_k : list (list (list (list A)));
  g_v : list (list (list (list A)));
  g_block_table : list (list (list Z));
}.

(** [GatheredDraftKV.__init__]; [zero] is the zero of the cache's type. *)
Definition gathered_init (zero : A) (num_layers max_batch_size width page inner : nat) : GatheredDraftKV :=
  let pages := ((width + page - 1) / page)%nat in
  let scratch := replicate num_layers (replicate max_batch_size (replicate (pages * page) (replicate inner zero))) in
  mkGathered page pages (replicate num_layers false) scratch scratch
    ((fun l => (fun b => (fun j => Z.of_nat ((l * max_batch_size + b) * pages + j)) <$> seq 0 pages)
                 <$> seq 0 max_batch_size) <$> seq 0 num_layers).

Inductive DraftKV :=
| TokenPaged
| Gathered (g : GatheredDraftKV).

(** [supports_token_pages] and [build_draft_kv]. *)
Definition supports_token_pages (fa_version : Z) : bool := fa_version =? 3.

Definition build_draft_kv (mode : string) (fa_version : Z) (zero : A)
    (num_layers max_batch_size width page inner : nat) : result DraftKV :=
  let available := supports_token_pages fa_version in
  if bool_decide (mode = "token_pages"%string) && negb available then Err ValueError else
  if bool_decide (mode = "gather"%string) || (bool_decide (mode = "auto"%string) && negb available)
  then Ok (Gathered (gathered_init zero num_layers max_batch_size width page inner))
  else Ok TokenPaged.

(** [begin_propose]. *)
Definition begin_propose (d : DraftKV) : DraftKV :=
  match d with
  | TokenPaged => TokenPaged
  | Gathered g => Gathered (mkGathered (g_page g) (g_pages g) (replicate (length (fresh g)) false)
                              (g_k g) (g_v g) (g_block_table g))
  end.

(** [TokenPagedDraftKV.attention_kwargs]. *)
Definition token_paged_kwargs (kwargs : attn_args) (slots : list (list Z)) (used : list Z) : attn_args :=
  mkArgs ((fun row => [row]) <$> concat (aa_k kwargs)) ((fun row => [row]) <$> concat (aa_v kwargs))
    used slots (max_seqlen_k kwargs).

(** [GatheredDraftKV.attention_kwargs]; [order] is the order of the gather's grid. *)
Definition gathered_kwargs (order : list (nat * nat)) (inner : nat) (kwargs : attn_args) (layer : nat)
    (slots : list (list Z)) (used : list Z) (g : GatheredDraftKV) : result (attn_args * GatheredDraftKV) :=
  let batch := length slots in
  is_fresh ← of_option IndexError (fresh g !! layer);
  let starts := if is_fresh : bool then (fun u => Z.max (u - 1) 0) <$> used else replicate batch 0 in
  lk ← of_option IndexError (g_k g !! layer);
  lv ← of_option IndexError (g_v g !! layer);
  bt ← of_option IndexError (g_block_table g !! layer);
  '(dk, dv) ← gather_tokens order (concat (aa_k kwargs), concat (aa_v kwargs)) slots starts used inner
                (take batch lk, take batch lv);
  let g := mkGathered (g_page g) (g_pages g) (<[layer := true]> (fresh g))
             (<[layer := dk ++ drop batch lk]> (g_k g)) (<[layer := dv ++ drop batch lv]> (g_v g)) (g_block_table g) in
  Ok (mkArgs (view_pages (g_page g) (concat (concat (g_k g)))) (view_pages (g_page g) (concat (concat (g_v g))))
        used (take batch bt)
        (match max_seqlen_k kwargs with
         | Some m => Some (Z.min m (Z.of_nat (g_pages g * g_page g)))
         | None => None
         end), g).

(** [attention_kwargs] of the chosen strategy. *)
Definition attention_kwargs (order : list (nat * nat)) (inner : nat) (kwargs : attn_args) (layer : nat)
    (slots : list (list Z)) (used : list Z) (d : DraftKV) : result (attn_args * DraftKV) :=
  match d with
  | TokenPaged => Ok (token_paged_kwargs kwargs slots used, TokenPaged)
  | Gathered g => '(args, g) ← gathered_kwargs order inner kwargs layer slots used g; Ok (args, Gathered g)
  end.
End DraftKV.
Arguments attn_args : clear implicits.
Arguments GatheredDraftKV : clear implicits.
Arguments DraftKV : clear implicits.

(** * The overrider *)
Section Overrider.
Context {A T F : Type} {SO : SelectOps T}.
(** [torch.ceil(n * ratio).int()] and the conversion of [theta] to the kernel's type. *)
Context (ceil_mul : Z -> F -> Z) (to_mass : F -> M).

(** What is fixed at construction. *)
Record ov_params := mkParams {
  cfg : LongSpecConfig F;
  max_batch_size : nat;
  max_model_len : Z;
  block_size : Z;
  inner : nat;
}.

Definition layers (p : ov_params) : nat := Z.to_nat (num_layers (cfg p)).

(** [max_tokens] of the base class and the table width. *)
Definition max_tokens (p : ov_params) : Z := Z.max (ceil_mul (max_model_len p) (ratio (cfg p))) (min_tokens (cfg p)).
Definition width (p : ov_params) : Z :=
  max_tokens p + sink (cfg p) + recent (cfg p) + 2 * num_spec_tokens (cfg p) + 1.

(** The state. *)
Record overrider := mkOv {
  curr_layer : nat;
  in_propose : bool;
  batch_size : nat;
  metric : list (list (list T));
  tbl : list (list (list Z));
  used : list (list Z);
  valid_lens : list Z;
  k_min : list Z;
  k_max : list Z;
  reduce_entry : list Z;
  metadata_initialized : bool;
  draft_kv : DraftKV A;
  ov_stats : SelectionStats;
}.

(** [__init__]: zeroed buffers. *)
Definition ov_init (p : ov_params) (zero : T) (d : DraftKV A) : overrider :=
  let n := layers p in
  let b := max_batch_size p in
  mkOv 0 false 0 (replicate n (replicate b (replicate (Z.to_nat (max_model_len p)) zero)))
    (replicate n (replicate b (replicate (Z.to_nat (width p)) 0))) (replicate n (replicate b 0))
    (replicate b 0) (replicate b 0) (replicate b 0) (replicate b 0) false d (stats_init n).

(** [enter_propose]; the assertion is the base class's. *)
Definition enter_propose (st : overrider) : result overrider :=
  _ ← py_assert (curr_layer st =? 0)%nat;
  Ok (mkOv (curr_layer st) true (batch_size st) (metric st) (tbl st) (used st) (valid_lens st) (k_min st) (k_max st)
        (reduce_entry st) false (begin_propose (draft_kv st)) (ov_stats st)).

(** [exit_propose]. *)
Definition exit_propose (st : overrider) : result overrider :=
  _ ← py_assert (curr_layer st =? 0)%nat;
  Ok (mkOv (curr_layer st) false (batch_size st) (metric st) (tbl st) (used st) (valid_lens st) (k_min st) (k_max st)
        (reduce_entry st) (metadata_initialized st) (draft_kv st) (ov_stats st)).

(** [self.curr_layer = (self.curr_layer + 1) % self.num_layers]. *)
Definition next_layer (p : ov_params) (st : overrider) : overrider :=
  mkOv ((curr_layer st + 1) mod layers p) (in_propose st) (batch_size st) (metric st) (tbl st) (used st) (valid_lens st)
    (k_min st) (k_max st) (reduce_entry st) (metadata_initialized st) (draft_kv st) (ov_stats st).

(** ** The verify pass *)

(** A buffer of the maximum batch size with its first entries set, the rest zero. *)
Definition fill_buffer (p : ov_params) (l : list Z) : list Z := l ++ replicate (max_batch_size p - length l) 0.

(** The length of the scored prefix of one request. *)
Definition valid_len (p : ov_params) (seqlen_k seqlen_q : Z) : Z :=
  if seqlen_q =? 0 then 0
  else seqlen_k + 1 - (if num_spec_tokens (cfg p) + 1 <? seqlen_q then 1 else seqlen_q).

(** [k_max] of one request. *)
Definition k_max_of (p : ov_params) (seqlen_k valid : Z) : Z :=
  Z.min (Z.min (Z.max (ceil_mul seqlen_k (ratio (cfg p))) (min_tokens (cfg p))) (max_tokens p)) valid.

(** [_begin_verify]; [copy_] of more requests than the buffers hold raises. *)
Definition begin_verify (p : ov_params) (seqlens_k cu_seqlens_q : list Z) (st : overrider) : result overrider :=
  let seqlens_q := zip_with Z.sub (drop 1 cu_seqlens_q) cu_seqlens_q in
  let batch := length seqlens_k in
  if negb (length seqlens_q =? batch)%nat || (max_batch_size p <? batch)%nat then Err RuntimeError else
  let entry := (fun q => if num_spec_tokens (cfg p) + 1 <? q then 2 else if q =? 1 then 1 else 0) <$> seqlens_q in
  let valid := zip_with (valid_len p) seqlens_k seqlens_q in
  Ok (mkOv (curr_layer st) (in_propose st) batch (metric st) (tbl st) (used st)
        (fill_buffer p valid)
        (fill_buffer p ((fun v => Z.min v (min_tokens (cfg p))) <$> valid))
        (fill_buffer p (zip_with (k_max_of p) seqlens_k valid))
        (fill_buffer p entry) false (draft_kv st) (ov_stats st)).

(** [_select]: one launch over all layers and requests; [sch] and [order] are the
    schedules of the rows and of the grid. *)
Definition select (p : ov_params) (sch : nat -> schedule) (order : list nat) (st : overrider) : result overrider :=
  let all l := concat (replicate (layers p) l) in
  '(table, u) ← launch_mass_select (concat (metric st)) sch order (all (valid_lens st)) (all (k_min st)) (all (k_max st))
                  (concat (tbl st)) (concat (used st)) (width p) (to_mass (theta (cfg p))) (sink (cfg p)) (recent (cfg p));
  let table := view_pages (max_batch_size p) table in
  let u := view_pages (max_batch_size p) u in
  Ok (mkOv (curr_layer st) (in_propose st) (batch_size st) (metric st) table u (valid_lens st) (k_min st) (k_max st)
        (reduce_entry st) (metadata_initialized st) (draft_kv st) (accumulate u (valid_lens st) (ov_stats st))).

(** [_verify_attention] and the layer step; [reduced] are the metric rows the
    score collector leaves for the batch. *)
Definition verify_attention (p : ov_params) (sch : nat -> schedule) (order : list nat) (seqlens_k cu_seqlens_q : list Z)
    (reduced : list (list T)) (st : overrider) : result overrider :=
  st ← (if (curr_layer st =? 0)%nat then begin_verify p seqlens_k cu_seqlens_q st else Ok st);
  rows ← of_option IndexError (metric st !! curr_layer st);
  let st := mkOv (curr_layer st) (in_propose st) (batch_size st)
              (<[curr_layer st := reduced ++ drop (batch_size st) rows]> (metric st)) (tbl st) (used st) (valid_lens st)
              (k_min st) (k_max st) (reduce_entry st) (metadata_initialized st) (draft_kv st) (ov_stats st) in
  st ← (if (curr_layer st =? layers p - 1)%nat then select p sch order st else Ok st);
  Ok (next_layer p st).

(** The verify pass: the model's forward over its layers. *)
Definition verify_pass (p : ov_params) (sch : nat -> schedule) (order : list nat) (seqlens_k cu_seqlens_q : list Z)
    (reduced : nat -> list (list T)) (st : overrider) : result overrider :=
  foldM (fun st l => verify_attention p sch order seqlens_k cu_seqlens_q (reduced l) st) (seq 0 (layers p)) st.

(** ** The draft pass *)

(** What a draft step hands to every layer. *)
Record step_input := mkStep {
  si_seqlens : list Z;
  si_block_table : list (list Z);
  si_k : nat -> list (list (list A));
  si_v : nat -> list (list (list A));
  si_max_seqlen : option Z;
}.

(** [_begin_draft_layer]. *)
Definition begin_draft_layer (p : ov_params) (order : list (nat * nat)) (seqlens_k : list Z) (block_table : list (list Z))
    (st : overrider) : result overrider :=
  if negb (curr_layer st =? 0)%nat then Ok st else
  let batch := batch_size st in
  let on_batch f rows := (fun row : list Z => f (take batch row) ++ drop batch row) <$> rows in
  if metadata_initialized st then
    Ok (mkOv (curr_layer st) (in_propose st) batch (metric st) (tbl st)
          (on_batch (fmap (fun u => u + 1)) (used st)) (valid_lens st) (k_min st) (k_max st) (reduce_entry st) true
          (draft_kv st) (ov_stats st))
  else
    let valid := take batch (valid_lens st) in
    table ← index_to_slots order (tbl st) block_table (PerLayer (used st)) valid
              ((fun n => n - 1 + num_spec_tokens (cfg p)) <$> seqlens_k) (block_size p);
    Ok (mkOv (curr_layer st) (in_propose st) batch (metric st) table
          (on_batch (fun us => zip_with (fun u d => Z.max (u + d) 0) us (zip_with Z.sub seqlens_k valid)) (used st))
          (valid_lens st) (k_min st) (k_max st) (reduce_entry st) true (draft_kv st) (ov_stats st)).

(** What a layer of a draft pass does with attention. *)
Inductive layer_out :=
| Bypassed
| Zeroed
| Attended (args : attn_args A).

Definition with_batch (b : nat) (st : overrider) : overrider :=
  mkOv (curr_layer st) (in_propose st) b (metric st) (tbl st) (used st) (valid_lens st) (k_min st) (k_max st)
    (reduce_entry st) (metadata_initialized st) (draft_kv st) (ov_stats st).

Definition with_draft_kv (d : DraftKV A) (st : overrider) : overrider :=
  mkOv (curr_layer st) (in_propose st) (batch_size st) (metric st) (tbl st) (used st) (valid_lens st) (k_min st) (k_max st)
    (reduce_entry st) (metadata_initialized st) d (ov_stats st).

(** [_draft_attention] and the layer step of [_attention]. *)
Definition draft_attention (p : ov_params) (order gorder : list (nat * nat)) (si : step_input) (st : overrider) :
    result (layer_out * overrider) :=
  let st := with_batch (length (si_seqlens si)) st in
  st ← begin_draft_layer p order (si_seqlens si) (si_block_table si) st;
  let layer := curr_layer st in
  let batch := batch_size st in
  if bool_decide (Z.of_nat layer ∈ skip_attn_layers (cfg p)) then Ok (Zeroed, next_layer p st) else
  rows ← of_option IndexError (tbl st !! layer);
  us ← of_option IndexError (used st !! layer);
  '(args, d) ← attention_kwargs gorder (inner p)
                 (mkArgs (si_k si layer) (si_v si layer) (si_seqlens si) (si_block_table si) (si_max_seqlen si))
                 layer (take batch rows) (take batch us) (draft_kv st);
  Ok (Attended args, next_layer p (with_draft_kv d st)).

(** [note_skipped_layer]. *)
Definition note_skipped_layer (p : ov_params) (order : list (nat * nat)) (si : step_input) (st : overrider) :
    result overrider :=
  let st := with_batch (length (si_seqlens si)) st in
  st ← begin_draft_layer p order (si_seqlens si) (si_block_table si) st;
  Ok (next_layer p st).

(** One decoder layer of a draft pass: [_skipping_forward] bypasses the layers of
    [skip_layers], the others call attention. *)
Definition draft_layer (p : ov_params) (order : list (nat * nat)) (gorder : nat -> list (nat * nat)) (si : step_input)
    (s : list layer_out * overrider) (l : nat) : result (list layer_out * overrider) :=
  let '(outs, st) := s in
  if bool_decide (Z.of_nat l ∈ skip_layers (cfg p)) then
    st ← note_skipped_layer p order si st;
    Ok (outs ++ [Bypassed], st)
  else
    '(o, st) ← draft_attention p order (gorder l) si st;
    Ok (outs ++ [o], st).

(** One draft step: the model's forward over its layers; [gorder] gives the order
    of the gather's grid at each layer. *)
Definition draft_pass (p : ov_params) (order : list (nat * nat)) (gorder : nat -> list (nat * nat)) (si : step_input) (st : overrider) :
    result (list layer_out * overrider) :=
  foldM (draft_layer p order gorder si) (seq 0 (layers p)) ([], st).

(** The draft steps of a propose, between [enter_propose] and [exit_propose]. *)
Definition draft_step (p : ov_params) (order : nat -> list (nat * nat)) (gorder : nat -> nat -> list (nat * nat))
    (si : nat -> step_input) (s : list (list layer_out) * overrider) (step : nat) : result (list (list layer_out) * overrider) :=
  let '(outs, st) := s in
  '(o, st) ← draft_pass p (order step) (gorder step) (si step) st;
  Ok (outs ++ [o], st).

Definition propose_steps (p : ov_params) (order : nat -> list (nat * nat)) (gorder : nat -> nat -> list (nat * nat))
    (si : nat -> step_input) (steps : nat) (st : overrider) : result (list (list layer_out) * overrider) :=
  st ← enter_propose st;
  '(outs, st) ← foldM (draft_step p order gorder si) (seq 0 steps) ([], st);
  st ← exit_propose st;
  Ok (outs, st).
End Overrider.
Arguments ov_params : clear implicits.
Arguments overrider : clear implicits.
Arguments layer_out : clear implicits.
Arguments step_input : clear implicits.
