(* ===== verification/DraftAttention.v ===== *)
(** What the rewritten attention calls of the draft read
    ([src/vllm/v1/spec_decode/sparse_attn/longspec/portable/draft_kv.py]).

    [attends args cache b slots] says that a paged attention call with the given
    arguments reads, for request [b], exactly the cache rows of the given slots,
    in that order.  Both strategies are shown to produce such calls: the token
    pages directly, the gather through its scratch, which it refreshes
    incrementally. *)
From S2P Require Import Prelude Device Tensor MassSelect SlotTable LongSpec.
Local Open Scope Z_scope.

Section DraftAttention.
Context {A : Type} `{!Inhabited A}.
Implicit Types (args kwargs : attn_args A) (cache : list (list A) * list (list A)).

(** The K and V rows of a slot of the cache. *)
Definition slot_kv cache (slot : Z) : option (list A * list A) :=
  if slot <? 0 then None else cell_get (Z.to_nat slot) cache.

(** [k.shape[1]] of the paged cache a call is given. *)
Definition page_size_of args : nat := match aa_k args with page :: _ => length page | [] => 0 end.

(** The row a paged attention kernel reads for token [t] of request [b]: page
    [block_table[b][t / page_size]], offset [t mod page_size]. *)
Definition paged_read args (b t : nat) : option (list A * list A) :=
  let ps := page_size_of args in
  bt ← aa_block_table args !! b;
  page ← bt !! (t / ps)%nat;
  if page <? 0 then None else cell_get (K := nat * nat) (Z.to_nat page, (t mod ps)%nat) (aa_k args, aa_v args).

(** The call reads, for request [b], the rows of [slots] and nothing else, within
    the announced maximum length. *)
Definition attends args cache (b : nat) (slots : list Z) : Prop :=
  seqused_k args !! b = Some (py_len slots) /\
  (forall t slot, slots !! t = Some slot -> exists kv, slot_kv cache slot = Some kv /\ paged_read args b t = Some kv) /\
  (forall m, max_seqlen_k args = Some m -> py_len slots <= m).

(** ** Token pages *)
Lemma token_paged_attends kwargs rows used b row slots :
  rows !! b = Some row -> used !! b = Some (py_len slots) -> slots = take (length slots) row ->
  Forall (fun slot => is_Some (slot_kv (concat (aa_k kwargs), concat (aa_v kwargs)) slot)) slots ->
  (forall m, max_seqlen_k kwargs = Some m -> py_len slots <= m) ->
  attends (token_paged_kwargs kwargs rows used) (concat (aa_k kwargs), concat (aa_v kwargs)) b slots.
Proof using.
  intros Hr Hu Hs Hkv Hm. split; [done|]. split; [|done]. intros t slot Et.
  destruct (Forall_lookup_1 _ _ _ _ Hkv Et) as [kv Ekv]. exists kv. split; [done|].
  unfold paged_read, token_paged_kwargs. cbn [aa_block_table aa_k aa_v]. rewrite Hr. cbn [mbind option_bind].
  unfold slot_kv in Ekv. destruct (Z.ltb_spec slot 0) as [|Hpos]; [done|]. cbn [cell_get pair_cells list_cells fst snd] in Ekv.
  destruct (concat (aa_k kwargs) !! Z.to_nat slot) as [x|] eqn:Ex; [|done].
  destruct (concat (aa_v kwargs) !! Z.to_nat slot) as [y|] eqn:Ey; [|done].
  assert (Hps : page_size_of (mkArgs ((fun row => [row]) <$> concat (aa_k kwargs)) ((fun row => [row]) <$> concat (aa_v kwargs))
                                used rows (max_seqlen_k kwargs)) = 1%nat).
  { unfold page_size_of. cbn [aa_k]. destruct (concat (aa_k kwargs)); [by rewrite lookup_nil in Ex|done]. }
  rewrite Hps, Nat.div_1_r, Nat.mod_1_r.
  assert (row !! t = Some slot) as ->.
  { rewrite Hs in Et. apply lookup_take_Some in Et as [Et _]. exact Et. }
  cbn [mbind option_bind]. rewrite (proj2 (Z.ltb_ge slot 0)) by lia.
  cbn [cell_get pair_cells nested_cells list_cells fst snd]. rewrite !list_lookup_fmap, Ex, Ey. done.
Qed.

(** ** Views *)
Lemma view_pages_lookup {B} (page : nat) (rows : list B) i j :
  (j < page)%nat -> (i < length rows / page)%nat ->
  cell_get (K := nat * nat) (i, j) (view_pages page rows) = rows !! (i * page + j)%nat.
Proof using.
  intros Hj Hi. unfold view_pages. cbn. rewrite list_lookup_fmap, lookup_seq_lt by done. cbn.
  rewrite lookup_take_lt, lookup_drop by done. done.
Qed.

(** ** The scratch of the gather *)

(** [g] belongs to [L] layers, batches of up to [B] requests and rows of [I]
    elements. *)
Record gathered_ok (L B I : nat) (g : GatheredDraftKV A) : Prop := {
  go_page : (0 < g_page g)%nat;
  go_fresh : length (fresh g) = L;
  go_k : length (g_k g) = L /\ Forall (shape3 B (g_pages g * g_page g) I) (g_k g);
  go_v : length (g_v g) = L /\ Forall (shape3 B (g_pages g * g_page g) I) (g_v g);
  go_table : g_block_table g = (fun l => (fun b => (fun j => Z.of_nat ((l * B + b) * g_pages g + j)) <$> seq 0 (g_pages g))
                 <$> seq 0 B) <$> seq 0 L;
}.

Lemma shape3_concat B W I (k : list (list (list (list A)))) :
  Forall (shape3 B W I) k -> Forall (fun rows => length rows = W) (concat k) /\ Forall (fun d => length d = B) k.
Proof using.
  induction 1 as [|d k [Hl Hf] _ [IH1 IH2]]; [done|]. cbn [concat]. split.
  - apply Forall_app. split; [|done]. eapply Forall_impl; [exact Hf|]. by intros x [? _].
  - by constructor.
Qed.

(** The flattened scratch, page by page. *)
Lemma scratch_flat L B W I (k : list (list (list (list A)))) l b t :
  length k = L -> Forall (shape3 B W I) k -> (l < L)%nat -> (b < B)%nat -> (t < W)%nat ->
  concat (concat k) !! ((l * B + b) * W + t)%nat = cell_get (K := nat * (nat * nat)) (l, (b, t)) k.
Proof using.
  intros HL Hk Hl Hb Ht. destruct (shape3_concat B W I k Hk) as [H1 H2].
  rewrite (lookup_concat_uniform W), (lookup_concat_uniform B) by done. cbn. by destruct (k !! l).
Qed.

Lemma scratch_length L B W I (k : list (list (list (list A)))) :
  length k = L -> Forall (shape3 B W I) k -> length (concat (concat k)) = (L * B * W)%nat.
Proof using.
  intros HL Hk. destruct (shape3_concat B W I k Hk) as [H1 H2].
  rewrite (length_concat_same W), (length_concat_same B) by done. lia.
Qed.

(** The arguments the gather hands to attention. *)
Definition gathered_args (g : GatheredDraftKV A) (layer batch : nat) (used : list Z) (m : option Z) : attn_args A :=
  mkArgs (view_pages (g_page g) (concat (concat (g_k g)))) (view_pages (g_page g) (concat (concat (g_v g))))
    used (take batch (g_block_table g !!! layer)) m.

(** Attention reads token [t] of request [b] from its place in the scratch. *)
Lemma gathered_read L B I g l b t batch used m :
  gathered_ok L B I g -> (l < L)%nat -> (b < batch)%nat -> (batch <= B)%nat -> (t < g_pages g * g_page g)%nat ->
  paged_read (gathered_args g l batch used m) b t
  = cell_get (K := nat * (nat * nat)) (l, (b, t)) (g_k g, g_v g).
Proof using.
  intros [Hp Hf [HkL Hk] [HvL Hv] Ht] Hl Hb HB HtW. set (W := (g_pages g * g_page g)%nat) in *.
  pose proof (scratch_length L B W I _ HkL Hk) as Hlk. pose proof (scratch_length L B W I _ HvL Hv) as Hlv.
  assert (Hdiv : (L * B * W / g_page g = L * B * g_pages g)%nat).
  { unfold W. rewrite Nat.mul_assoc. by apply Nat.div_mul; lia. }
  pose proof (Nat.div_mod t (g_page g) ltac:(lia)) as Hdm. pose proof (Nat.mod_upper_bound t (g_page g) ltac:(lia)) as Hmod.
  assert (Htp : (t / g_page g < g_pages g)%nat) by (apply Nat.Div0.div_lt_upper_bound; unfold W in HtW; lia).
  assert (Hidx : ((l * B + b) * g_pages g + t / g_page g < L * B * g_pages g)%nat).
  { assert (l * B + b + 1 <= L * B)%nat by nia. pose proof (Nat.mul_le_mono_r _ _ (g_pages g) H). lia. }
  assert (Hps : page_size_of (gathered_args g l batch used m) = g_page g).
  { unfold page_size_of, gathered_args. cbn [aa_k]. unfold view_pages. rewrite Hlk, Hdiv.
    destruct (L * B * g_pages g)%nat as [|n] eqn:En; [lia|]. cbn [seq fmap list_fmap].
    rewrite length_take, drop_0, Hlk. unfold W. rewrite Nat.mul_assoc, En. nia. }
  unfold paged_read. rewrite Hps. cbn [gathered_args aa_block_table aa_k aa_v].
  rewrite (list_lookup_total_correct _ l ((fun b => (fun j => Z.of_nat ((l * B + b) * g_pages g + j)) <$> seq 0 (g_pages g)) <$> seq 0 B))
    by (rewrite Ht, list_lookup_fmap, lookup_seq_lt by done; done).
  rewrite lookup_take_lt, list_lookup_fmap, lookup_seq_lt by lia. cbn [mbind option_bind fmap option_fmap option_map].
  rewrite list_lookup_fmap, lookup_seq_lt by done. cbn [mbind option_bind fmap option_fmap option_map].
  rewrite (proj2 (Z.ltb_ge _ 0)), Nat2Z.id by lia. cbn [Nat.add].
  cbn [cell_get pair_cells fst snd]. rewrite !view_pages_lookup by (rewrite ?Hlk, ?Hlv, ?Hdiv; done).
  replace (((l * B + b) * g_pages g + t / g_page g) * g_page g + t mod g_page g)%nat with ((l * B + b) * W + t)%nat
    by (unfold W; nia).
  by rewrite !(scratch_flat L B W I) by (done || lia).
Qed.

(** The scratch of layer [l] holds the rows of the slots of every request. *)
Definition scratch_holds (g : GatheredDraftKV A) cache (l batch : nat) (slots : nat -> list Z) : Prop :=
  forall b t slot, (b < batch)%nat -> slots b !! t = Some slot ->
    exists kv, slot_kv cache slot = Some kv /\ cell_get (K := nat * (nat * nat)) (l, (b, t)) (g_k g, g_v g) = Some kv.

(** Whether or not the newest token only is copied, the old rows are there. *)
Definition scratch_ready (g : GatheredDraftKV A) cache (l batch : nat) (slots : nat -> list Z) : Prop :=
  fresh g !! l = Some false \/
  (fresh g !! l = Some true /\ scratch_holds g cache l batch (fun b => take (length (slots b) - 1) (slots b))).

(** The call of layer [l]: one row of the table and one count per request. *)
Record call_ok (cache : list (list A) * list (list A)) (I batch : nat) (rows : list (list Z)) (used : list Z)
    (m : option Z) (slots : nat -> list Z) : Prop := {
  co_lens : length rows = batch /\ length used = batch;
  co_rows b : (b < batch)%nat -> slots b = take (length (slots b)) (rows !!! b);
  co_used b : (b < batch)%nat -> used !! b = Some (py_len (slots b));
  co_cache : Forall (fun row => length row = I) cache.1 /\ Forall (fun row => length row = I) cache.2;
  co_slots b : (b < batch)%nat -> Forall (fun slot => is_Some (slot_kv cache slot)) (slots b);
  co_max b x : (b < batch)%nat -> m = Some x -> py_len (slots b) <= x;
}.

Section Gathered.
Context (L B I batch : nat) (g : GatheredDraftKV A) (l : nat).
Context (cache : list (list A) * list (list A)) (rows : list (list Z)) (used : list Z) (m : option Z) (slots : nat -> list Z).
Context (Hg : gathered_ok L B I g) (Hl : (l < L)%nat) (HB : (batch <= B)%nat).
Context (Hc : call_ok cache I batch rows used m slots).
Context (Hw : forall b, (b < batch)%nat -> (length (slots b) <= g_pages g * g_page g)%nat).

(** The slot the kernel loads for token [t]. *)
Lemma call_token b t :
  (b < batch)%nat -> (t < length (slots b))%nat ->
  slots b !! t = Some (token_slot rows b t) /\ (t < length (rows !!! b))%nat.
Proof using Hc.
  intros Hb Ht. destruct (lookup_lt_is_Some_2 (slots b) t Ht) as [x Ex].
  pose proof Ex as Ex'. rewrite (co_rows _ _ _ _ _ _ _ Hc b Hb) in Ex'. apply lookup_take_Some in Ex' as [Er _].
  unfold token_slot. rewrite (list_lookup_total_correct _ _ _ Er). split; [done|]. by eapply lookup_lt_Some.
Qed.

Lemma call_kv b t :
  (b < batch)%nat -> (t < length (slots b))%nat ->
  0 <= token_slot rows b t /\ exists kv, slot_kv cache (token_slot rows b t) = Some kv
    /\ cell_get (Z.to_nat (token_slot rows b t)) cache = Some kv.
Proof using Hc.
  intros Hb Ht. destruct (call_token b t Hb Ht) as [Es _].
  destruct (Forall_lookup_1 _ _ _ _ (co_slots _ _ _ _ _ _ _ Hc b Hb) Es) as [kv Ekv].
  unfold slot_kv in *. destruct (Z.ltb_spec (token_slot rows b t) 0); [done|]. split; [done|]. by exists kv.
Qed.

(** The precondition of the gather holds for any start positions. *)
Lemma call_gather_pre starts lk lv :
  length starts = batch -> (forall b, (b < batch)%nat -> 0 <= starts !!! b) ->
  shape3 batch (g_pages g * g_page g) I lk -> shape3 batch (g_pages g * g_page g) I lv ->
  gather_pre cache rows starts used I batch (g_pages g * g_page g) (lk, lv).
Proof using Hc Hw.
  clear Hg Hl HB. intros Hs Hs0 Hk Hv. destruct (co_lens _ _ _ _ _ _ _ Hc) as [H1 H2].
  assert (Hu : forall b, (b < batch)%nat -> used !!! b = py_len (slots b)).
  { intros b Hb. apply list_lookup_total_correct. by apply (co_used _ _ _ _ _ _ _ Hc). }
  assert (Ht : forall b t, (b < batch)%nat -> copied starts used b t -> (t < length (slots b))%nat).
  { intros b t Hb [_ H']. rewrite Hu in H' by done. unfold py_len in H'. lia. }
  split.
  - lia.
  - intros b Hb. rewrite Hu by done. specialize (Hw b Hb). unfold py_len. lia.
  - intros b t Hb Hcp. split; [apply call_token; [done|by apply Ht]|apply call_kv; [done|by apply Ht]].
  - intros b t i Hb Hcp Hi. destruct (call_kv b t Hb (Ht b t Hb Hcp)) as (_ & [x y] & _ & Ekv).
    destruct (co_cache _ _ _ _ _ _ _ Hc) as [C1 C2]. cbn in Ekv |- *.
    destruct (cache.1 !! Z.to_nat (token_slot rows b t)) as [r1|] eqn:E1; [|done].
    destruct (cache.2 !! Z.to_nat (token_slot rows b t)) as [r2|] eqn:E2; [|done]. cbn in *.
    destruct (lookup_lt_is_Some_2 r1 i) as [? ->]; [by rewrite (Forall_lookup_1 _ _ _ _ C1 E1)|].
    destruct (lookup_lt_is_Some_2 r2 i) as [? ->]; [by rewrite (Forall_lookup_1 _ _ _ _ C2 E2)|]. by eexists.
  - intros b t i Hb Hcp Hi. specialize (Ht b t Hb Hcp). specialize (Hw b Hb).
    destruct (shape3_rows _ _ _ lk lv b t Hk Hv Hb ltac:(lia)) as (r1 & r2 & _ & L1 & L2 & Er). rewrite Er. cbn.
    destruct (lookup_lt_is_Some_2 r1 i) as [? ->]; [lia|]. destruct (lookup_lt_is_Some_2 r2 i) as [? ->]; [lia|]. by eexists.
Qed.

(** The scratch after the call. *)
Definition put_layer (dk dv : list (list (list A))) : GatheredDraftKV A :=
  mkGathered (g_page g) (g_pages g) (<[l := true]> (fresh g))
    (<[l := dk ++ drop batch (g_k g !!! l)]> (g_k g)) (<[l := dv ++ drop batch (g_v g !!! l)]> (g_v g)) (g_block_table g).

Lemma put_layer_shape d (k : list (list (list (list A)))) :
  length k = L -> Forall (shape3 B (g_pages g * g_page g) I) k -> shape3 batch (g_pages g * g_page g) I d ->
  length (<[l := d ++ drop batch (k !!! l)]> k) = L /\
  Forall (shape3 B (g_pages g * g_page g) I) (<[l := d ++ drop batch (k !!! l)]> k).
Proof using Hl HB.
  intros HkL Hk [Hd1 Hd2]. split; [by rewrite length_insert|]. apply Forall_insert; [done|].
  destruct (Forall_lookup_1 _ _ _ _ Hk (list_lookup_lookup_total_lt k l ltac:(lia))) as [H1 H2].
  split; [rewrite length_app, length_drop; lia|]. apply Forall_app. split; [done|by apply Forall_drop].
Qed.

Lemma put_layer_ok dk dv :
  shape3 batch (g_pages g * g_page g) I dk -> shape3 batch (g_pages g * g_page g) I dv -> gathered_ok L B I (put_layer dk dv).
Proof using Hg Hl HB.
  intros Hdk Hdv. destruct Hg as [Hp Hf [HkL Hk] [HvL Hv] Ht].
  split; cbn [put_layer g_page g_pages fresh g_k g_v g_block_table]; [done|by rewrite length_insert|..|done].
  - by apply put_layer_shape.
  - by apply put_layer_shape.
Qed.

Lemma put_layer_get dk dv b t :
  length dk = batch -> length dv = batch -> (b < batch)%nat ->
  cell_get (K := nat * (nat * nat)) (l, (b, t)) (g_k (put_layer dk dv), g_v (put_layer dk dv))
  = cell_get (K := nat * nat) (b, t) (dk, dv).
Proof using Hg Hl.
  clear HB. intros H1 H2 Hb. destruct Hg as [_ _ [HkL _] [HvL _] _]. cbn.
  rewrite !list_lookup_insert_eq by lia. cbn. by rewrite !lookup_app_l by lia.
Qed.

Lemma put_layer_other dk dv l' b t :
  l' <> l ->
  cell_get (K := nat * (nat * nat)) (l', (b, t)) (g_k (put_layer dk dv), g_v (put_layer dk dv))
  = cell_get (K := nat * (nat * nat)) (l', (b, t)) (g_k g, g_v g).
Proof using. intros Hne. cbn. by rewrite !list_lookup_insert_ne by done. Qed.

(** The positions the call starts copying at. *)
Definition call_starts (is_fresh : bool) : list Z :=
  if is_fresh then (fun u => Z.max (u - 1) 0) <$> used else replicate batch 0.

Lemma call_starts_ok is_fresh :
  length (call_starts is_fresh) = batch /\
  forall b, (b < batch)%nat -> call_starts is_fresh !!! b = if is_fresh then Z.max (py_len (slots b) - 1) 0 else 0.
Proof using Hc.
  destruct (co_lens _ _ _ _ _ _ _ Hc) as [_ H2]. unfold call_starts. destruct is_fresh.
  - rewrite length_fmap. split; [done|]. intros b Hb. apply list_lookup_total_correct.
    by rewrite list_lookup_fmap, (co_used _ _ _ _ _ _ _ Hc b Hb).
  - rewrite length_replicate. split; [done|]. intros b Hb. apply list_lookup_total_correct. by apply lookup_replicate_2.
Qed.

(** The gather refreshes the scratch of the layer. *)
Lemma gather_refreshes order is_fresh :
  order ≡ₚ gather_grid batch (g_pages g * g_page g) -> fresh g !! l = Some is_fresh ->
  scratch_ready g cache l batch slots ->
  exists dk dv, gather_tokens order cache rows (call_starts is_fresh) used I (take batch (g_k g !!! l), take batch (g_v g !!! l))
      = Ok (dk, dv) /\
    gathered_ok L B I (put_layer dk dv) /\ scratch_holds (put_layer dk dv) cache l batch slots.
Proof using All.
  intros Hperm Hf Hready. destruct (call_starts_ok is_fresh) as [Hsl Hs]. pose proof Hg as [Hp Hfl [HkL Hk] [HvL Hv] Ht].
  assert (Hlk : shape3 batch (g_pages g * g_page g) I (take batch (g_k g !!! l))).
  { apply (shape3_take B); [|lia]. apply (Forall_lookup_1 _ _ _ _ Hk (list_lookup_lookup_total_lt (g_k g) l ltac:(lia))). }
  assert (Hlv : shape3 batch (g_pages g * g_page g) I (take batch (g_v g !!! l))).
  { apply (shape3_take B); [|lia]. apply (Forall_lookup_1 _ _ _ _ Hv (list_lookup_lookup_total_lt (g_v g) l ltac:(lia))). }
  assert (Hu : forall b, (b < batch)%nat -> used !!! b = py_len (slots b)).
  { intros b Hb. apply list_lookup_total_correct. by apply (co_used _ _ _ _ _ _ _ Hc). }
  destruct (gather_tokens_rows cache rows (call_starts is_fresh) used I batch (g_pages g * g_page g) order
    (take batch (g_k g !!! l), take batch (g_v g !!! l))) as ([dk dv] & E & Hdk & Hdv & Hrow);
    [done| |apply (co_cache _ _ _ _ _ _ _ Hc)..|exact Hlk|exact Hlv| |].
  { apply call_gather_pre; [done| |done|done]. intros b Hb. rewrite Hs by done. destruct is_fresh; lia. }
  { intros b t Hb [_ Hlt]. rewrite Hu in Hlt by done. destruct (call_kv b t Hb ltac:(unfold py_len in Hlt; lia)) as (_ & kv & _ & Ekv).
    by exists kv. }
  cbn [fst snd] in Hdk, Hdv. exists dk, dv. split; [exact E|]. split; [by apply put_layer_ok|].
  intros b t slot Hb Et. pose proof (lookup_lt_Some _ _ _ Et) as Htl. specialize (Hw b Hb).
  rewrite put_layer_get by (apply Hdk || apply Hdv || done). rewrite Hrow by lia.
  destruct (call_token b t Hb Htl) as [Ets _]. rewrite Ets in Et. injection Et as <-.
  destruct (call_kv b t Hb Htl) as (_ & kv & Ekv & Ecell). exists kv. split; [done|].
  destruct (decide (copied (call_starts is_fresh) used b t)) as [Hcp|Hcp]; [done|].
  destruct is_fresh; [|exfalso; apply Hcp; unfold copied; rewrite Hs, Hu by done; unfold py_len; lia].
  destruct Hready as [?|[_ Hold]]; [congruence|].
  assert (Hlt : (t < length (slots b) - 1)%nat).
  { destruct (decide (t < length (slots b) - 1)%nat) as [|Hge]; [done|]. exfalso. apply Hcp. unfold copied.
    rewrite Hs, Hu by done. unfold py_len. lia. }
  destruct (Hold b t (token_slot rows b t) Hb) as (kv' & Ekv' & Ecell'); [by rewrite lookup_take_lt|].
  rewrite Ekv in Ekv'. injection Ekv' as <-. rewrite <- Ecell'. cbn.
  rewrite !lookup_take_lt by done.
  rewrite (list_lookup_lookup_total_lt (g_k g)), (list_lookup_lookup_total_lt (g_v g)) by lia. done.
Qed.
End Gathered.

(** ** What a strategy promises to the overrider *)
Section Strategy.
Context (L B I PW : nat).

(** The strategy is set up for the overrider; a scratch row holds [PW] tokens. *)
Definition kv_ok (d : DraftKV A) : Prop :=
  match d with TokenPaged => True | Gathered g => gathered_ok L B I g /\ (g_pages g * g_page g)%nat = PW end.

(** Layer [l] can serve the next call for [slots]. *)
Definition kv_ready (d : DraftKV A) cache (l batch : nat) (slots : nat -> list Z) : Prop :=
  match d with TokenPaged => True | Gathered g => scratch_ready g cache l batch slots end.

(** Layer [l] has served a call for [slots]. *)
Definition kv_holds (d : DraftKV A) cache (l batch : nat) (slots : nat -> list Z) : Prop :=
  match d with
  | TokenPaged => True
  | Gathered g => fresh g !! l = Some true /\ scratch_holds g cache l batch slots
  end.

(** The strategy's state for layer [l] is the same. *)
Definition kv_same (d d' : DraftKV A) (l : nat) : Prop :=
  match d, d' with
  | TokenPaged, TokenPaged => True
  | Gathered g, Gathered g' =>
      fresh g' !! l = fresh g !! l /\
      forall b t, cell_get (K := nat * (nat * nat)) (l, (b, t)) (g_k g', g_v g') = cell_get (K := nat * (nat * nat)) (l, (b, t)) (g_k g, g_v g)
  | _, _ => False
  end.

Lemma kv_same_refl d l : kv_same d d l.
Proof using. by destruct d. Qed.

Lemma kv_same_trans d d' d'' l : kv_same d d' l -> kv_same d' d'' l -> kv_same d d'' l.
Proof using.
  destruct d, d', d''; try done. intros [H1 H2] [H3 H4]. split; [congruence|]. intros b t. by rewrite H4, H2.
Qed.

Lemma kv_same_holds d d' cache l batch slots : kv_same d d' l -> kv_holds d cache l batch slots -> kv_holds d' cache l batch slots.
Proof using.
  destruct d, d'; try done. intros [H1 H2] [Hf Hs]. split; [congruence|]. intros b t slot Hb Et.
  destruct (Hs b t slot Hb Et) as (kv & E1 & E2). exists kv. split; [done|]. by rewrite H2.
Qed.

Lemma kv_same_ready d d' cache l batch slots : kv_same d d' l -> kv_ready d cache l batch slots -> kv_ready d' cache l batch slots.
Proof using.
  destruct d, d'; try done. intros [H1 H2] [Hf|[Hf Hs]]; [left; congruence|right]. split; [congruence|].
  intros b t slot Hb Et. destruct (Hs b t slot Hb Et) as (kv & E1 & E2). exists kv. split; [done|]. by rewrite H2.
Qed.

(** A layer that has served a call is ready for the next one when the cache only
    changed outside the rows it holds and one slot was added. *)
Lemma kv_holds_ready d cache cache' l batch slots slots' :
  kv_holds d cache l batch slots ->
  (forall b, (b < batch)%nat -> take (length (slots' b) - 1) (slots' b) = slots b) ->
  (forall b slot, (b < batch)%nat -> slot ∈ slots b -> slot_kv cache' slot = slot_kv cache slot) ->
  kv_ready d cache' l batch slots'.
Proof using.
  destruct d as [|g]; [done|]. intros [Hf Hs] Hsl Hc. right. split; [done|]. intros b t slot Hb Et. rewrite Hsl in Et by done.
  destruct (Hs b t slot Hb Et) as (kv & E1 & E2). exists kv. split; [|done].
  rewrite (Hc b slot); [done|done|by eapply list_elem_of_lookup_2].
Qed.

(** Both strategies hand attention exactly the given slots, and are left ready. *)
Lemma attention_kwargs_ok order kwargs l rows used batch slots d :
  order ≡ₚ gather_grid batch PW -> kv_ok d -> (l < L)%nat -> (batch <= B)%nat ->
  call_ok (concat (aa_k kwargs), concat (aa_v kwargs)) I batch rows used (max_seqlen_k kwargs) slots ->
  (forall b, (b < batch)%nat -> (length (slots b) <= PW)%nat) ->
  kv_ready d (concat (aa_k kwargs), concat (aa_v kwargs)) l batch slots ->
  exists args d', attention_kwargs order I kwargs l rows used d = Ok (args, d') /\ kv_ok d' /\
    kv_holds d' (concat (aa_k kwargs), concat (aa_v kwargs)) l batch slots /\
    (forall l', l' <> l -> kv_same d d' l') /\
    forall b, (b < batch)%nat -> attends args (concat (aa_k kwargs), concat (aa_v kwargs)) b (slots b).
Proof using Inhabited0.
  intros Hperm Hok Hl HB Hc Hw Hready. destruct (co_lens _ _ _ _ _ _ _ Hc) as [Hrl Hul]. destruct d as [|g].
  - eexists _, _. split; [reflexivity|]. split; [done|]. split; [done|]. split; [done|]. intros b Hb.
    apply (token_paged_attends kwargs rows used b (rows !!! b)).
    + apply list_lookup_lookup_total_lt. lia.
    + by apply (co_used _ _ _ _ _ _ _ Hc).
    + by apply (co_rows _ _ _ _ _ _ _ Hc).
    + by apply (co_slots _ _ _ _ _ _ _ Hc).
    + intros x Hx. by apply (co_max _ _ _ _ _ _ _ Hc b x).
  - destruct Hok as [Hg HPW]. cbn [attention_kwargs]. unfold gathered_kwargs. rewrite Hrl.
    pose proof Hg as [Hp Hfl [HkL Hk] [HvL Hv] Ht].
    destruct (lookup_lt_is_Some_2 (fresh g) l) as [is_fresh Ef]; [lia|]. rewrite Ef.
    rewrite (list_lookup_lookup_total_lt (g_k g)), (list_lookup_lookup_total_lt (g_v g)) by lia.
    rewrite (list_lookup_lookup_total_lt (g_block_table g)) by (rewrite Ht, length_fmap, length_seq; lia).
    cbn [of_option mbind result_bind].
    destruct (gather_refreshes L B I batch g l _ rows used (max_seqlen_k kwargs) slots Hg Hl HB Hc
      ltac:(intros b Hb; rewrite HPW; by apply Hw) order is_fresh) as (dk & dv & E & Hok' & Hholds); [by rewrite HPW|done|done|].
    unfold call_starts in E. rewrite E. cbn [mbind result_bind].
    eexists _, _. split; [reflexivity|]. split; [by split|]. split; [|split].
    + split; [|exact Hholds]. cbn. apply list_lookup_insert_eq. lia.
    + intros l' Hl'. split; [cbn; by rewrite list_lookup_insert_ne|]. intros b t. by apply put_layer_other.
    + intros b Hb. split; [by apply (co_used _ _ _ _ _ _ _ Hc)|]. split.
      * intros t slot Et. destruct (Hholds b t slot Hb Et) as (kv & E1 & E2). exists kv. split; [done|]. rewrite <- E2.
        apply (gathered_read L B I (put_layer batch g l dk dv)); [done..|]. cbn [put_layer g_pages g_page].
        apply lookup_lt_Some in Et. specialize (Hw b Hb). lia.
      * intros x Hx. cbn [max_seqlen_k] in Hx. destruct (max_seqlen_k kwargs) as [x0|] eqn:Ex; [|done].
        injection Hx as <-. pose proof (co_max _ _ _ _ _ _ _ Hc b x0 Hb eq_refl). specialize (Hw b Hb).
        cbn [g_pages g_page]. unfold py_len in *. lia.
Qed.
End Strategy.
End DraftAttention.
