(* ===== verification/LongSpecFacts.v ===== *)
(** The draft passes of a propose ([src/vllm/v1/spec_decode/sparse_attn/longspec/overrider.py]):
    from the state a verify pass leaves, every draft step hands every layer that
    attends exactly the slots of that layer's selection followed by those of the
    positions from the end of the scored prefix to the newest token. *)
From S2P Require Import Prelude Device Tensor MassSelect SlotTable LongSpec DraftAttention.
Local Open Scope Z_scope.

(** The shapes of the overrider's buffers. *)
Record buffers_shaped {A T F} (ceil_mul : Z -> F -> Z) (p : ov_params F) (st : overrider A T) : Prop := {
  bs_metric : length (metric st) = layers p /\
    Forall (fun rows => length rows = max_batch_size p /\ Forall (fun row => py_len row = max_model_len p) rows) (metric st);
  bs_tbl : length (tbl st) = layers p /\
    Forall (fun rows => length rows = max_batch_size p /\ Forall (fun row => py_len row = width ceil_mul p) rows) (tbl st);
  bs_used : length (used st) = layers p /\ Forall (fun us => length us = max_batch_size p) (used st);
}.

Section Propose.
Context {A T F : Type} {SO : SelectOps T} `{!Inhabited A}.
Context (ceil_mul : Z -> F -> Z).
Context (p : ov_params F) (batch PW : nat) (sel : nat -> nat -> list Z) (valid n : list Z) (bt : list (list Z)).
Implicit Types (st : overrider A T).

Let L := layers p.
Let spec := num_spec_tokens (cfg p).

(** The parameters: at least one layer, room for every token in a scratch row. *)
Record params_ok : Prop := {
  po_layers : (0 < L)%nat;
  po_page : 0 < block_size p;
  po_spec : 1 <= spec;
  po_batch : (batch <= max_batch_size p)%nat;
  po_scratch : width ceil_mul p <= Z.of_nat PW;
}.

(** The selection a verify pass leaves for the first [batch] requests. *)
Record selection_ok : Prop := {
  so_valid : length valid = batch /\ forall b, (b < batch)%nat -> 0 <= valid !!! b;
  so_sel l b : (l < L)%nat -> (b < batch)%nat ->
    Forall (fun pos => 0 <= pos < valid !!! b) (sel l b) /\ py_len (sel l b) <= valid !!! b
    /\ py_len (sel l b) <= max_tokens ceil_mul p + sink (cfg p) + recent (cfg p);
}.

(** The requests of the propose: lengths at the first step, block table. *)
Record requests_ok : Prop := {
  ro_lens : length n = batch /\ length bt = batch;
  ro_n b : (b < batch)%nat -> valid !!! b <= n !!! b <= valid !!! b + spec + 1;
  ro_pages b pos : (b < batch)%nat -> 0 <= pos < n !!! b - 1 + spec -> has_page (bt !!! b) (block_size p) pos;
}.

(** The slots request [b] attends to at layer [l] of draft step [s]. *)
Definition step_slots (s l b : nat) : list Z :=
  slot_row (bt !!! b) (block_size p) (sel l b) (valid !!! b) (n !!! b + Z.of_nat s).

(** The cache of a layer at a step, as a list of rows. *)
Definition step_cache (si : nat -> step_input A) (s l : nat) : list (list A) * list (list A) :=
  (concat (si_k (si s) l), concat (si_v (si s) l)).

(** The inputs of the steps: the requests grow by one token per step, which the
    model has written into the cache; rows of older tokens do not change. *)
Record inputs_ok (steps : nat) (si : nat -> step_input A) : Prop := {
  io_steps : Z.of_nat steps <= spec;
  io_seqlens s : (s < steps)%nat -> si_seqlens (si s) = (fun x => x + Z.of_nat s) <$> n /\ si_block_table (si s) = bt;
  io_rows s l : (s < steps)%nat -> (l < L)%nat ->
    Forall (fun row => length row = inner p) (step_cache si s l).1 /\ Forall (fun row => length row = inner p) (step_cache si s l).2;
  io_slots s l b : (s < steps)%nat -> (l < L)%nat -> (b < batch)%nat ->
    Forall (fun slot => is_Some (slot_kv (step_cache si s l) slot)) (step_slots s l b);
  io_kept s l b slot : (S s < steps)%nat -> (l < L)%nat -> (b < batch)%nat -> slot ∈ step_slots s l b ->
    slot_kv (step_cache si (S s) l) slot = slot_kv (step_cache si s l) slot;
  io_max s b m : (s < steps)%nat -> (b < batch)%nat -> si_max_seqlen (si s) = Some m -> n !!! b + Z.of_nat s <= m;
}.

(** The buffers before the first layer of the first step. *)
Record fresh_tables st : Prop := {
  ft_meta : metadata_initialized st = false;
  ft_valid : take batch (valid_lens st) = valid;
  ft_shapes : buffers_shaped ceil_mul p st;
  ft_row l b : (l < L)%nat -> (b < batch)%nat ->
    exists rest, cell_get (l, b) (tbl st) = Some (sel l b ++ rest) /\ py_len (sel l b ++ rest) = width ceil_mul p;
  ft_count l : (l < L)%nat -> exists us, used st !! l = Some us /\ (batch <= length us)%nat /\
    forall b, (b < batch)%nat -> us !! b = Some (py_len (sel l b));
}.

(** The buffers during step [s]. *)
Record ready_tables (s : nat) st : Prop := {
  rt_meta : metadata_initialized st = true;
  rt_shapes : buffers_shaped ceil_mul p st;
  rt_row l b : (l < L)%nat -> (b < batch)%nat ->
    exists rest, cell_get (l, b) (tbl st)
      = Some (slot_row (bt !!! b) (block_size p) (sel l b) (valid !!! b) (n !!! b - 1 + spec) ++ rest);
  rt_count l : (l < L)%nat -> exists us, used st !! l = Some us /\ (batch <= length us)%nat /\
    forall b, (b < batch)%nat -> us !! b = Some (py_len (step_slots s l b));
}.

Context (Hp : params_ok) (Hsel : selection_ok) (Hr : requests_ok).

Lemma step_slots_length s l b :
  (l < L)%nat -> (b < batch)%nat ->
  py_len (step_slots s l b) = py_len (sel l b) + (n !!! b + Z.of_nat s - valid !!! b).
Proof using Hr.
  intros Hl Hb. unfold step_slots, py_len. rewrite length_slot_row. destruct (ro_n Hr b Hb). lia.
Qed.

(** The slots of a step are a prefix of the row the first step wrote. *)
Lemma step_slots_prefix s l b :
  (l < L)%nat -> (b < batch)%nat -> Z.of_nat s < spec ->
  exists rest, slot_row (bt !!! b) (block_size p) (sel l b) (valid !!! b) (n !!! b - 1 + spec) = step_slots s l b ++ rest.
Proof using Hr.
  intros Hl Hb Hs. unfold step_slots, slot_row, py_range. destruct (ro_n Hr b Hb) as [H1 H2].
  exists (pos_slot (bt !!! b) (block_size p) <$> seqZ (n !!! b + Z.of_nat s) (spec - 1 - Z.of_nat s)).
  rewrite <- app_assoc. f_equal.
  replace (n !!! b - 1 + spec - valid !!! b) with ((n !!! b + Z.of_nat s - valid !!! b) + (spec - 1 - Z.of_nat s)) by lia.
  rewrite seqZ_app, fmap_app by lia. do 3 f_equal. lia.
Qed.

(** Every step adds the newest token. *)
Lemma step_slots_grow s l b :
  (l < L)%nat -> (b < batch)%nat ->
  take (length (step_slots (S s) l b) - 1) (step_slots (S s) l b) = step_slots s l b.
Proof using Hr.
  intros Hl Hb. pose proof (step_slots_length (S s) l b Hl Hb) as H1. pose proof (step_slots_length s l b Hl Hb) as H0.
  unfold py_len in H1, H0.
  assert (step_slots (S s) l b = step_slots s l b ++ [pos_slot (bt !!! b) (block_size p) (n !!! b + Z.of_nat s)]) as ->.
  { unfold step_slots, slot_row, py_range. rewrite <- app_assoc. f_equal. destruct (ro_n Hr b Hb).
    replace (n !!! b + Z.of_nat (S s) - valid !!! b) with ((n !!! b + Z.of_nat s - valid !!! b) + 1) by lia.
    rewrite seqZ_app, fmap_app by lia. f_equal. cbn [seqZ]. rewrite seqZ_cons by lia. cbn. do 2 f_equal. lia. }
  rewrite length_app. cbn [length]. rewrite Nat.add_sub. by rewrite take_app_length.
Qed.

(** The tables depend only on these fields. *)
Definition same_tables st st' : Prop :=
  metadata_initialized st' = metadata_initialized st /\ valid_lens st' = valid_lens st /\ metric st' = metric st /\
  tbl st' = tbl st /\ used st' = used st.

Lemma same_shapes st st' : same_tables st st' -> buffers_shaped ceil_mul p st -> buffers_shaped ceil_mul p st'.
Proof using. intros (_ & _ & E1 & E2 & E3) [H1 H2 H3]. split; rewrite ?E1, ?E2, ?E3; done. Qed.

Lemma same_fresh st st' : same_tables st st' -> fresh_tables st -> fresh_tables st'.
Proof using.
  intros Hs [H1 H2 H3 H4 H5]. pose proof (same_shapes _ _ Hs H3). destruct Hs as (E1 & E2 & _ & E4 & E5).
  split; rewrite ?E1, ?E2, ?E4, ?E5; done.
Qed.

Lemma same_ready s st st' : same_tables st st' -> ready_tables s st -> ready_tables s st'.
Proof using.
  intros Hs [H1 H2 H3 H4]. pose proof (same_shapes _ _ Hs H2). destruct Hs as (E1 & _ & _ & E4 & E5).
  split; rewrite ?E1, ?E4, ?E5; done.
Qed.

(** [begin_draft_layer] leaves the rest of the state alone. *)
Definition same_frame st st' : Prop :=
  curr_layer st' = curr_layer st /\ in_propose st' = in_propose st /\ batch_size st' = batch_size st /\ draft_kv st' = draft_kv st.

(** In-place arithmetic on the first [batch] counts of every layer. *)
Lemma counts_update (f : list Z -> list Z) (us : list (list Z)) (old new : nat -> nat -> Z) :
  length us = L /\ Forall (fun us => length us = max_batch_size p) us -> (batch <= max_batch_size p)%nat ->
  (forall l, (l < L)%nat -> exists u, us !! l = Some u /\ (batch <= length u)%nat /\ forall b, (b < batch)%nat -> u !! b = Some (old l b)) ->
  (forall l u, (l < L)%nat -> length u = batch -> (forall b, (b < batch)%nat -> u !! b = Some (old l b)) ->
     length (f u) = batch /\ forall b, (b < batch)%nat -> f u !! b = Some (new l b)) ->
  let us' := (fun row => f (take batch row) ++ drop batch row) <$> us in
  (length us' = L /\ Forall (fun us => length us = max_batch_size p) us') /\
  forall l, (l < L)%nat -> exists u, us' !! l = Some u /\ (batch <= length u)%nat /\ forall b, (b < batch)%nat -> u !! b = Some (new l b).
Proof using.
  intros [HL HF] HbB Hold Hf us'.
  assert (Hnew : forall l, (l < L)%nat -> exists u, us !! l = Some u /\ length (f (take batch u)) = batch /\
            forall b, (b < batch)%nat -> f (take batch u) !! b = Some (new l b)).
  { intros l Hl. destruct (Hold l Hl) as (u & Eu & Hlen & Hu). exists u. split; [done|]. apply (Hf l); [done|rewrite length_take; lia|].
    intros b Hb. rewrite lookup_take_lt by done. by apply Hu. }
  split.
  - split; [unfold us'; by rewrite length_fmap|]. apply Forall_lookup_2. intros l u' El. unfold us' in El.
    rewrite list_lookup_fmap, fmap_Some in El. destruct El as (u & Eu & ->). pose proof (Forall_lookup_1 _ _ _ _ HF Eu) as Hlu. cbn in Hlu.
    destruct (Hnew l ltac:(apply lookup_lt_Some in Eu; lia)) as (u2 & Eu2 & H1 & _). rewrite Eu in Eu2. injection Eu2 as <-.
    rewrite length_app, length_drop. lia.
  - intros l Hl. destruct (Hnew l Hl) as (u & Eu & H1 & H2). exists (f (take batch u) ++ drop batch u). unfold us'.
    rewrite list_lookup_fmap, Eu. split; [done|]. split; [rewrite length_app; lia|].
    intros b Hb. rewrite lookup_app_l by lia. by apply H2.
Qed.

(** A table whose rows kept their lengths has the same shape. *)
Lemma table_shape (t t' : list (list (list Z))) (w : Z) :
  length t = L /\ Forall (fun rows => length rows = max_batch_size p /\ Forall (fun row => py_len row = w) rows) t ->
  keeps_shape (K := nat * nat) t t' ->
  (forall l b row row', cell_get (K := nat * nat) (l, b) t = Some row -> cell_get (K := nat * nat) (l, b) t' = Some row' -> length row' = length row) ->
  length t' = L /\ Forall (fun rows => length rows = max_batch_size p /\ Forall (fun row => py_len row = w) rows) t'.
Proof using.
  intros [HL HF] Hsh Hrow.
  assert (Hs : length t' = L /\ Forall (fun rows => length rows = max_batch_size p) t').
  { apply (Hsh (fun x => length x = L /\ Forall (fun rows => length rows = max_batch_size p) x)).
    - intros [l b] v x [H1 H2]. cbn. split; [by rewrite length_alter|]. apply Forall_alter; [done|]. intros y _ Hy. by rewrite length_insert.
    - split; [done|]. eapply Forall_impl; [exact HF|]. by intros x [? _]. }
  destruct Hs as [HL' HF']. split; [done|]. apply Forall_lookup_2. intros l rows' El'.
  pose proof (Forall_lookup_1 _ _ _ _ HF' El') as Hl'. cbn in Hl'. split; [done|]. apply Forall_lookup_2. intros b row' Eb'.
  destruct (lookup_lt_is_Some_2 t l) as [rows El]; [apply lookup_lt_Some in El'; lia|].
  destruct (Forall_lookup_1 _ _ _ _ HF El) as [Hl1 Hl2].
  destruct (lookup_lt_is_Some_2 rows b) as [row Eb]; [apply lookup_lt_Some in Eb'; lia|].
  unfold py_len. rewrite (Hrow l b row row'); [apply (Forall_lookup_1 _ _ _ _ Hl2 Eb)|cbn; by rewrite El|cbn; by rewrite El'].
Qed.

(** The rows [index_to_slots] is given at the first step. *)
Lemma first_step_pre st :
  fresh_tables st ->
  slots_pre L batch (tbl st) bt (PerLayer (used st)) valid ((fun x => x - 1 + spec) <$> n) (block_size p) sel.
Proof using Hp Hsel Hr.
  intros Hft. destruct (ro_lens Hr) as [Hnl Hbl]. destruct (so_valid Hsel) as [Hvl Hv0].
  assert (Hn : forall b, (b < batch)%nat -> ((fun x => x - 1 + spec) <$> n) !!! b = n !!! b - 1 + spec).
  { intros b Hb. apply list_lookup_total_correct. rewrite list_lookup_fmap, (list_lookup_lookup_total_lt n) by lia. done. }
  split.
  - intros l b Hl Hb. destruct (ft_row _ Hft l b Hl Hb) as (rest & Er & Hw). exists rest. split; [done|]. rewrite Hn by done.
    destruct (so_sel Hsel l b Hl Hb) as (_ & _ & Hle). destruct (ro_n Hr b Hb). rewrite Hw. unfold width. fold spec. lia.
  - intros l b Hl Hb. destruct (ft_count _ Hft l Hl) as (us & Eu & _ & Hu). cbn. rewrite Eu. cbn. by apply Hu.
  - rewrite length_fmap. lia.
  - intros l b Hl Hb. destruct (so_sel Hsel l b Hl Hb) as (Hpos & _ & _). destruct (ro_n Hr b Hb) as [H1 H2].
    pose proof (po_spec Hp) as Hs1. fold spec in Hs1. split; [|split; [by apply Hv0|]].
    + eapply Forall_impl; [exact Hpos|]. cbn beta. intros pos Hpos'. apply (ro_pages Hr b pos Hb). lia.
    + intros pos Hpos'. rewrite Hn in Hpos' by done. apply (ro_pages Hr b pos Hb). specialize (Hv0 b Hb). lia.
Qed.

(** The first layer of the first step builds the tables. *)
Lemma begin_first_step order st :
  order ≡ₚ grid L batch -> fresh_tables st -> curr_layer st = 0%nat -> batch_size st = batch ->
  exists st', begin_draft_layer p order n bt st = Ok st' /\ ready_tables 0 st' /\ same_frame st st'.
Proof using Hp Hsel Hr.
  intros Hperm Hft Hcl Hbs. unfold begin_draft_layer. rewrite Hcl, Hbs, (ft_meta _ Hft), (ft_valid _ Hft). cbn [Nat.eqb negb].
  destruct (index_to_slots_ok L batch order (tbl st) bt (PerLayer (used st)) valid _ (block_size p) sel (po_page Hp) Hperm
    (first_step_pre st Hft)) as (table' & E & Hrow & Hother & Hsh). fold spec.
  rewrite E. cbn [mbind result_bind]. eexists. split; [reflexivity|]. split; [|done].
  destruct (ro_lens Hr) as [Hnl Hbl]. destruct (so_valid Hsel) as [Hvl Hv0].
  destruct (counts_update (fun us => zip_with (fun u d => Z.max (u + d) 0) us (zip_with Z.sub n valid)) (used st)
    (fun l b => py_len (sel l b)) (fun l b => py_len (step_slots 0 l b))) as [Hul Hu].
  { apply (bs_used _ _ _ (ft_shapes _ Hft)). } { apply (po_batch Hp). } { apply (ft_count _ Hft). }
  { intros l u Hl Hlu Hu. split; [rewrite !length_zip_with; lia|]. intros b Hb.
    rewrite lookup_zip_with, (Hu b Hb). cbn. rewrite lookup_zip_with.
    rewrite (list_lookup_lookup_total_lt n), (list_lookup_lookup_total_lt valid) by lia. cbn. f_equal.
    rewrite step_slots_length by done. destruct (ro_n Hr b Hb). unfold py_len. lia. }
  split; cbn [metadata_initialized tbl used]; [done| | |done].
  - destruct (ft_shapes _ Hft) as [Hm Ht _]. split; cbn [metric tbl used]; [done| |done].
    apply (table_shape (tbl st)); [done|done|]. intros l b row row' E1 E2.
    destruct (decide ((l < L)%nat /\ (b < batch)%nat)) as [[Hl Hb]|Hn].
    + destruct (Hrow l b Hl Hb) as (rest & rest' & E1' & E2' & Hlen). congruence.
    + rewrite Hother in E2 by done. congruence.
  - intros l b Hl Hb. destruct (Hrow l b Hl Hb) as (rest & rest' & _ & E' & _). exists rest'. rewrite E'.
    rewrite (list_lookup_total_correct ((fun x => x - 1 + spec) <$> n) b (n !!! b - 1 + spec)); [done|].
    rewrite list_lookup_fmap, (list_lookup_lookup_total_lt n) by lia. done.
Qed.

(** The first layer of a later step counts the newest token. *)
Lemma begin_next_step order seqlens s st :
  ready_tables s st -> curr_layer st = 0%nat -> batch_size st = batch ->
  exists st', begin_draft_layer p order seqlens bt st = Ok st' /\ ready_tables (S s) st' /\ same_frame st st'.
Proof using Hp Hr.
  intros Hrt Hcl Hbs. unfold begin_draft_layer. rewrite Hcl, Hbs, (rt_meta _ _ Hrt). cbn [Nat.eqb negb].
  eexists. split; [reflexivity|]. split; [|done].
  destruct (counts_update (fmap (fun u => u + 1)) (used st) (fun l b => py_len (step_slots s l b))
    (fun l b => py_len (step_slots (S s) l b))) as [Hul Hu].
  { apply (bs_used _ _ _ (rt_shapes _ _ Hrt)). } { apply (po_batch Hp). } { apply (rt_count _ _ Hrt). }
  { intros l u Hl Hlu Hu. split; [by rewrite length_fmap|]. intros b Hb. rewrite list_lookup_fmap, (Hu b Hb). cbn. f_equal.
    rewrite !step_slots_length by done. lia. }
  split; cbn [metadata_initialized tbl used]; [done| |apply (rt_row _ _ Hrt)|done].
  destruct (rt_shapes _ _ Hrt) as [Hm Ht _]. by split.
Qed.

(** The tables before layer [l] of step [s]. *)
Definition step_tables (s l : nat) st : Prop :=
  match l, s with
  | O, O => fresh_tables st
  | O, S s => ready_tables s st
  | S _, _ => ready_tables s st
  end.

(** The layer calls attention in the draft pass. *)
Definition attending (l : nat) : Prop :=
  (Z.of_nat l ∉ skip_layers (cfg p)) /\ (Z.of_nat l ∉ skip_attn_layers (cfg p)).

Section Steps.
Context (steps : nat) (si : nat -> step_input A) (order : nat -> list (nat * nat)) (gorder : nat -> nat -> list (nat * nat)).
Context (Hin : inputs_ok steps si).
Context (Horder : forall s, order s ≡ₚ grid L batch) (Hgorder : forall s l, gorder s l ≡ₚ gather_grid batch PW).

(** The strategy before layer [l] of step [s]: the layers done hold the slots of
    this step, the others are ready for them. *)
Definition kv_phase (s l : nat) (d : DraftKV A) : Prop :=
  forall l', (l' < L)%nat -> attending l' ->
    if decide (l' < l)%nat then kv_holds d (step_cache si s l') l' batch (step_slots s l')
    else kv_ready d (step_cache si s l') l' batch (step_slots s l').

(** What layer [l] of step [s] must do. *)
Definition out_ok (s l : nat) (out : layer_out A) : Prop :=
  if decide (Z.of_nat l ∈ skip_layers (cfg p)) then out = Bypassed else
  if decide (Z.of_nat l ∈ skip_attn_layers (cfg p)) then out = Zeroed else
  exists args, out = Attended args /\
    forall b, (b < batch)%nat -> attends args (step_cache si s l) b (step_slots s l b).

(** The state between two layers. *)
Record between (s l : nat) st : Prop := {
  bw_tables : step_tables s l st;
  bw_layer : curr_layer st = (l mod L)%nat;
  bw_propose : in_propose st = true;
  bw_kv : kv_ok L (max_batch_size p) (inner p) PW (draft_kv st);
  bw_phase : kv_phase s l (draft_kv st);
}.

Lemma enter_layer s l st :
  (s < steps)%nat -> (l < L)%nat -> between s l st ->
  exists st', begin_draft_layer p (order s) (si_seqlens (si s)) (si_block_table (si s))
                (with_batch (length (si_seqlens (si s))) st) = Ok st' /\
    ready_tables s st' /\ same_frame (with_batch batch st) st'.
Proof using Hp Hsel Hr Hin Horder.
  intros Hs Hl [Ht Hcl _ _ _]. destruct (io_seqlens _ _ Hin s Hs) as [-> ->]. destruct (ro_lens Hr) as [Hnl _].
  rewrite length_fmap, Hnl. rewrite Nat.mod_small in Hcl by done. destruct l as [|l].
  - destruct s as [|s]; cbn [step_tables] in Ht.
    + rewrite (list_fmap_ext _ id) by (intros; cbn; lia). rewrite list_fmap_id.
      apply begin_first_step; [done|by apply (same_fresh st)|done|done].
    + apply begin_next_step; [by apply (same_ready s st)|done|done].
  - exists (with_batch batch st). unfold begin_draft_layer. cbn [with_batch curr_layer]. rewrite Hcl. cbn [Nat.eqb negb].
    split; [done|]. split; [|done]. by apply (same_ready s st).
Qed.

(** The attention call of a layer is well formed. *)
Lemma layer_call s l st rows us :
  (s < steps)%nat -> (l < L)%nat -> ready_tables s st -> tbl st !! l = Some rows -> used st !! l = Some us ->
  call_ok (step_cache si s l) (inner p) batch (take batch rows) (take batch us) (si_max_seqlen (si s)) (step_slots s l).
Proof using Hp Hsel Hr Hin.
  intros Hs Hl Hrt Er Eu. pose proof (io_steps _ _ Hin) as Hsp.
  destruct (rt_count _ _ Hrt l Hl) as (us' & Eu' & Hul & Hu). rewrite Eu in Eu'. injection Eu' as <-.
  assert (Hrow : forall b, (b < batch)%nat -> exists row rest, rows !! b = Some row /\ row = step_slots s l b ++ rest).
  { intros b Hb. destruct (rt_row _ _ Hrt l b Hl Hb) as (rest & Erow). cbn in Erow. rewrite Er in Erow. cbn in Erow.
    destruct (step_slots_prefix s l b Hl Hb ltac:(lia)) as (rest' & Epre). eexists _, (rest' ++ rest).
    split; [exact Erow|]. by rewrite Epre, <- app_assoc. }
  assert (Hrl : (batch <= length rows)%nat).
  { destruct (decide (batch = 0)%nat) as [|Hne]; [lia|]. destruct (Hrow (batch - 1)%nat ltac:(lia)) as (row & _ & E & _).
    apply lookup_lt_Some in E. lia. }
  split.
  - rewrite !length_take. lia.
  - intros b Hb. destruct (Hrow b Hb) as (row & rest & E & ->).
    rewrite (list_lookup_total_correct (take batch rows) b (step_slots s l b ++ rest)) by (by rewrite lookup_take_lt).
    by rewrite take_app_length.
  - intros b Hb. rewrite lookup_take_lt by done. by apply Hu.
  - by apply (io_rows _ _ Hin).
  - intros b Hb. by apply (io_slots _ _ Hin).
  - intros b m Hb Hm. pose proof (io_max _ _ Hin s b m Hs Hb Hm). rewrite step_slots_length by done.
    destruct (so_sel Hsel l b Hl Hb) as (_ & H1 & _). lia.
Qed.

(** The slots of a step fit into a row of the scratch. *)
Lemma step_slots_fit s l b : (s < steps)%nat -> (l < L)%nat -> (b < batch)%nat -> (length (step_slots s l b) <= PW)%nat.
Proof using Hp Hsel Hr Hin.
  intros Hs Hl Hb. pose proof (step_slots_length s l b Hl Hb) as Hlen. pose proof (io_steps _ _ Hin) as Hsp.
  destruct (so_sel Hsel l b Hl Hb) as (_ & _ & H1). destruct (ro_n Hr b Hb) as [H2 H3].
  pose proof (po_scratch Hp) as H4. unfold width in H4. fold spec in H4. unfold py_len in *. lia.
Qed.

Lemma kv_phase_skip s l d : ~ attending l -> kv_phase s l d -> kv_phase s (S l) d.
Proof using.
  intros Hna Hph l' Hl' Ha. specialize (Hph l' Hl' Ha). destruct (decide (l' = l)) as [->|]; [done|].
  destruct (decide (l' < l)%nat); [rewrite decide_True by lia|rewrite decide_False by lia]; done.
Qed.

Lemma kv_phase_done s l d d' :
  kv_phase s l d -> (forall l', l' <> l -> kv_same d d' l') ->
  kv_holds d' (step_cache si s l) l batch (step_slots s l) -> kv_phase s (S l) d'.
Proof using.
  intros Hph Hsame Hh l' Hl' Ha. specialize (Hph l' Hl' Ha). destruct (decide (l' = l)) as [->|Hne].
  - by rewrite decide_True by lia.
  - destruct (decide (l' < l)%nat); [rewrite decide_True by lia|rewrite decide_False by lia].
    + by apply (kv_same_holds d); [apply Hsame|].
    + by apply (kv_same_ready d); [apply Hsame|].
Qed.

(** The state after a layer. *)
Lemma leave_layer s l st st' d :
  (l < L)%nat -> between s l st -> ready_tables s st' -> same_frame (with_batch batch st) st' ->
  kv_ok L (max_batch_size p) (inner p) PW d -> kv_phase s (S l) d ->
  between s (S l) (next_layer p (with_draft_kv d st')).
Proof using.
  intros Hl [_ Hcl Hip _ _] Hrt (F1 & F2 & F3 & F4) Hd Hph. cbn [with_batch curr_layer in_propose batch_size draft_kv] in *.
  split; cbn [next_layer with_draft_kv curr_layer in_propose draft_kv]; [|fold L; rewrite F1, Hcl|congruence|done|done].
  - cbn [step_tables]. by apply (same_ready s st').
  - rewrite (Nat.mod_small l) by done. by rewrite Nat.add_1_r.
Qed.

(** One layer of a draft step. *)
Lemma draft_layer_ok s l outs st :
  (s < steps)%nat -> (l < L)%nat -> between s l st ->
  exists out st', draft_layer p (order s) (gorder s) (si s) (outs, st) l = Ok (outs ++ [out], st') /\
    out_ok s l out /\ between s (S l) st'.
Proof using All.
  intros Hs Hl Hb. destruct (enter_layer s l st Hs Hl Hb) as (st1 & E1 & Hrt & Hfr).
  pose proof Hfr as (F1 & F2 & F3 & F4). cbn [with_batch curr_layer in_propose batch_size draft_kv] in F1, F2, F3, F4.
  pose proof (bw_layer _ _ _ Hb) as Hcl. rewrite Nat.mod_small in Hcl by done. rewrite Hcl in F1.
  pose proof (bw_kv _ _ _ Hb) as Hkv. pose proof (bw_phase _ _ _ Hb) as Hph.
  assert (Hsame : st1 = with_draft_kv (draft_kv st) st1) by (rewrite <- F4; by destruct st1).
  unfold draft_layer, out_ok. destruct (decide (Z.of_nat l ∈ skip_layers (cfg p))) as [Hsk|Hsk].
  { rewrite bool_decide_true by done. unfold note_skipped_layer. rewrite E1. cbn [mbind result_bind].
    eexists _, _. split; [reflexivity|]. split; [done|]. rewrite Hsame. apply (leave_layer s l st); [done..|].
    apply kv_phase_skip; [|done]. by intros [? _]. }
  rewrite bool_decide_false by done. unfold draft_attention. rewrite E1. cbn [mbind result_bind]. rewrite F1, F3.
  destruct (decide (Z.of_nat l ∈ skip_attn_layers (cfg p))) as [Hsa|Hsa].
  { rewrite bool_decide_true by done. cbn [mbind result_bind]. eexists _, _. split; [reflexivity|]. split; [done|].
    rewrite Hsame. apply (leave_layer s l st); [done..|]. apply kv_phase_skip; [|done]. by intros [_ ?]. }
  rewrite bool_decide_false by done.
  destruct (lookup_lt_is_Some_2 (tbl st1) l) as [rows Er]; [destruct (bs_tbl _ _ _ (rt_shapes _ _ Hrt)) as [-> _]; done|].
  destruct (lookup_lt_is_Some_2 (used st1) l) as [us Eu]; [destruct (bs_used _ _ _ (rt_shapes _ _ Hrt)) as [-> _]; done|].
  rewrite Er, Eu. cbn [of_option mbind result_bind].
  pose proof (layer_call s l st1 rows us Hs Hl Hrt Er Eu) as Hcall.
  specialize (Hph l Hl ltac:(by split)) as Hready. rewrite decide_False in Hready by lia.
  destruct (attention_kwargs_ok L (max_batch_size p) (inner p) PW (gorder s l)
    (mkArgs (si_k (si s) l) (si_v (si s) l) (si_seqlens (si s)) (si_block_table (si s)) (si_max_seqlen (si s)))
    l (take batch rows) (take batch us) batch (step_slots s l) (draft_kv st)) as (args & d' & E2 & Hok' & Hh & Hsame' & Hatt);
    [apply Hgorder|done|done|apply (po_batch Hp)|exact Hcall|intros b Hb'; by apply step_slots_fit|exact Hready|].
  rewrite F4, E2. cbn [mbind result_bind]. eexists _, _. split; [reflexivity|]. split; [by exists args|].
  apply (leave_layer s l st); [done..|]. by apply (kv_phase_done s l (draft_kv st)).
Qed.

(** All layers of a draft step. *)
Lemma draft_pass_ok s st :
  (s < steps)%nat -> between s 0 st ->
  exists outs st', draft_pass p (order s) (gorder s) (si s) st = Ok (outs, st') /\ length outs = L /\
    (forall l out, outs !! l = Some out -> out_ok s l out) /\ between s L st'.
Proof using All.
  intros Hs Hb.
  destruct (foldM_inv (draft_layer p (order s) (gorder s) (si s))
    (fun pre x => length x.1 = length pre /\ (forall l out, x.1 !! l = Some out -> out_ok s l out) /\ between s (length pre) x.2)
    (seq 0 L) ([], st)) as ([outs st'] & E & Hlen & Hout & Hb'); [done| |].
  - intros pre l post [outs st1] Eq (Hlen & Hout & Hb1). cbn [fst snd] in *.
    destruct (seq_split _ _ _ _ Eq) as [-> Hl].
    destruct (draft_layer_ok s (length pre) outs st1 Hs Hl Hb1) as (out & st2 & E & Ho & Hb2).
    eexists. split; [exact E|]. cbn [fst snd]. rewrite !length_app. cbn [length]. split; [lia|].
    split; [|by rewrite Nat.add_1_r]. intros l' out' [Ho'|[Hge [Hz <-]%list_lookup_singleton_Some]]%lookup_app_Some; [by apply Hout|].
    by replace l' with (length pre) by lia.
  - exists outs, st'. cbn [fst snd] in *. rewrite length_seq in Hlen, Hb'. done.
Qed.

(** The next step starts where this one ended. *)
Lemma next_step s st : (S s < steps)%nat -> between s L st -> between (S s) 0 st.
Proof using Hp Hr Hin.
  clear Horder Hgorder. intros Hs [Ht Hcl Hip Hkv Hph]. pose proof (po_layers Hp) as HL. fold L in HL.
  split; [|rewrite Hcl, Nat.Div0.mod_same, Nat.mod_small; lia|done|done|].
  - destruct L as [|L']; [lia|]. exact Ht.
  - intros l' Hl' Ha. specialize (Hph l' Hl' Ha). rewrite decide_True in Hph by done. rewrite decide_False by lia.
    apply (kv_holds_ready _ (step_cache si s l') _ _ _ (step_slots s l')); [done| |].
    + intros b Hb. by apply step_slots_grow.
    + intros b slot Hb Hslot. by apply (io_kept _ _ Hin s l' b).
Qed.

(** All steps. *)
Lemma draft_steps_ok st :
  (0 < steps)%nat -> between 0 0 st ->
  exists outs st', foldM (draft_step p order gorder si) (seq 0 steps) ([], st) = Ok (outs, st') /\ length outs = steps /\
    (forall s os, outs !! s = Some os -> length os = L /\ forall l out, os !! l = Some out -> out_ok s l out) /\
    curr_layer st' = 0%nat /\ buffers_shaped ceil_mul p st' /\ kv_ok L (max_batch_size p) (inner p) PW (draft_kv st').
Proof using All.
  intros Hpos Hb.
  destruct (foldM_inv (draft_step p order gorder si)
    (fun pre x => length x.1 = length pre /\
       (forall s os, x.1 !! s = Some os -> length os = L /\ forall l out, os !! l = Some out -> out_ok s l out) /\
       (if decide (length pre < steps)%nat then between (length pre) 0 x.2 else between (steps - 1) L x.2))
    (seq 0 steps) ([], st)) as ([outs st'] & E & Hlen & Hout & Hend).
  - cbn [fst snd length]. rewrite decide_True by done. done.
  - intros pre s post [outs st1] Eq (Hlen & Hout & Hb1). cbn [fst snd] in *.
    destruct (seq_split _ _ _ _ Eq) as [-> Hs].
    rewrite decide_True in Hb1 by done.
    destruct (draft_pass_ok (length pre) st1 Hs Hb1) as (os & st2 & E & Hl & Ho & Hb2).
    unfold draft_step. rewrite E. cbn [mbind result_bind]. eexists. split; [reflexivity|]. cbn [fst snd].
    rewrite !length_app. cbn [length]. split; [lia|]. split.
    + intros s' os' [Ho'|[Hge [Hz <-]%list_lookup_singleton_Some]]%lookup_app_Some; [by apply Hout|].
      replace s' with (length pre) by lia. done.
    + destruct (decide (length pre + 1 < steps)%nat).
      * rewrite Nat.add_1_r. apply next_step; [lia|done].
      * replace (steps - 1)%nat with (length pre) by lia. done.
  - exists outs, st'. cbn [fst snd] in *. rewrite length_seq in Hlen, Hend. rewrite decide_False in Hend by lia.
    split; [exact E|]. split; [done|]. split; [done|]. destruct Hend as [Ht Hcl _ Hkv _].
    rewrite Nat.Div0.mod_same in Hcl. split; [done|]. split; [|done]. pose proof (po_layers Hp) as HL. fold L in HL.
    destruct L as [|L']; [lia|]. apply (rt_shapes _ _ Ht).
Qed.
End Steps.
End Propose.
