(* ===== verification/LongSpecVerify.v ===== *)
(** The verify pass ([src/vllm/v1/spec_decode/sparse_attn/longspec/overrider.py]):
    the layers of a verify pass end with one selection over all layers and
    requests, and leave the state the draft passes start from. *)
From S2P Require Import Prelude Device Tensor MassSelect SlotTable LongSpec DraftAttention LongSpecFacts.
Local Open Scope Z_scope.

(** * The launch of the selection *)
Section Launch.
Context {T : Type} {SO : SelectOps T}.
Context (metric : list (list T)) (sch : nat -> schedule) (valid_lens k_min k_max : list Z) (table : list (list Z)) (used : list Z).
Context (width : Z) (theta : M) (sink recent : Z).

(** The kernel on row [r]. *)
Definition select_at (r : nat) (out : list Z) : result (list Z * Z) :=
  SelectKernel (metric !!! r) (sch r) (valid_lens !!! r) (k_min !!! r) (k_max !!! r) out width theta sink recent.

Lemma select_block_cell s (r : nat) :
  (r < length metric)%nat -> length valid_lens = length metric -> length k_min = length metric -> length k_max = length metric ->
  length s.1 = length metric -> length s.2 = length metric ->
  select_block metric sch valid_lens k_min k_max width theta sink recent s (Z.of_nat r)
  = cell_update (fun r v => select_at r v.1) s r.
Proof using.
  destruct s as [t u]. cbn [fst snd]. intros Hr H1 H2 H3 H4 H5. unfold select_block, cell_update, select_at.
  rewrite (load_Some valid_lens r (valid_lens !!! r)), (load_Some k_min r (k_min !!! r)), (load_Some k_max r (k_max !!! r)),
    (load_Some metric r (metric !!! r)), (load_Some t r (t !!! r)) by (apply list_lookup_lookup_total_lt; lia).
  cbn [mbind result_bind cell_get pair_cells list_cells fst snd]. rewrite Nat2Z.id.
  rewrite (list_lookup_lookup_total_lt t), (list_lookup_lookup_total_lt u) by lia. cbn [mbind option_bind of_option result_bind fst].
  destruct (SelectKernel _ _ _ _ _ _ _ _ _ _) as [[out c]|]; [|done]. cbn [mbind result_bind].
  rewrite !store_ok by (unfold py_len; lia). cbn [mbind result_bind]. by rewrite !Nat2Z.id.
Qed.

(** When the kernel returns on every row, the launch returns every row's result. *)
Lemma launch_mass_select_ok order :
  order ≡ₚ seq 0 (length metric) ->
  length table = length metric -> length used = length metric -> length valid_lens = length metric ->
  length k_min = length metric -> length k_max = length metric ->
  (forall r, (r < length metric)%nat -> exists x, select_at r (table !!! r) = Ok x) ->
  exists table' used', launch_mass_select metric sch order valid_lens k_min k_max table used width theta sink recent
      = Ok (table', used') /\ length table' = length metric /\ length used' = length metric /\
    forall r, (r < length metric)%nat -> select_at r (table !!! r) = Ok (table' !!! r, used' !!! r).
Proof using.
  intros Hperm H1 H2 H3 H4 H5 Hk. unfold launch_mass_select. cbv zeta.
  rewrite H1, H2, H3, H4, H5, !Nat.eqb_refl. cbn [andb negb].
  assert (Hmem : forall r, r ∈ order <-> (r < length metric)%nat) by (intros r; rewrite Hperm, elem_of_seq; lia).
  set (h := fun r => match select_at r (table !!! r) with Ok x => x | Err _ => ([], 0) end).
  destruct (foldM_cell_update (fun r v => select_at r v.1) h order (table, used)) as ([table' used'] & E & Hget & Hsh).
  { rewrite Hperm. apply NoDup_seq. }
  { intros r Hr%Hmem. exists (table !!! r, used !!! r). cbn.
    rewrite (list_lookup_lookup_total_lt table), (list_lookup_lookup_total_lt used) by lia. split; [done|].
    destruct (Hk r Hr) as [x Ex]. unfold h. by rewrite Ex. }
  assert (length table' = length metric /\ length used' = length metric) as [L1 L2].
  { apply (Hsh (fun s => length s.1 = length metric /\ length s.2 = length metric)); [|done].
    intros k v s. cbn. by rewrite !length_insert. }
  exists table', used'. split; [|split; [done|split; [done|]]].
  - rewrite <- E. unfold launch.
    assert (Hext : forall l s, (forall r, r ∈ l -> r ∈ order) -> length s.1 = length metric /\ length s.2 = length metric ->
      foldM (fun s pid => select_block metric sch valid_lens k_min k_max width theta sink recent s (Z.of_nat pid)) l s
      = foldM (cell_update (fun r v => select_at r v.1)) l s); [|by apply Hext].
    induction l as [|r l IH]; intros s Hl [Hs1 Hs2]; [done|]. cbn [foldM].
    rewrite select_block_cell by (done || (apply Hmem, Hl; set_solver)).
    destruct (cell_update _ s r) as [s'|] eqn:Es; [|done]. cbn [mbind result_bind]. apply IH; [set_solver|].
    unfold cell_update in Es. apply bind_Ok in Es as (v & _ & Es). apply bind_Ok in Es as (v' & _ & Es). injection Es as <-.
    cbn. by rewrite !length_insert.
  - intros r Hr. specialize (Hget r). cbn in Hget. rewrite decide_True in Hget by (by apply Hmem).
    rewrite (list_lookup_lookup_total_lt table'), (list_lookup_lookup_total_lt used') in Hget by lia. cbn in Hget.
    injection Hget as Hh. destruct (Hk r Hr) as [x Ex]. rewrite Ex. unfold h in Hh. rewrite Ex in Hh. by rewrite Hh.
Qed.
End Launch.

(** * What a row of the table holds *)

(** [sel] are the positions selected among the first [P] entries of a metric row:
    the top candidates by the metric, then the reserved prefix and suffix. *)
Definition row_selected {T} {SO : SelectOps T} (row : list T) (P sink recent k_min k_max width : Z) (sel : list Z) : Prop :=
  let c0 := s_eff P sink in
  let r := r_eff P sink recent in
  exists top k_star, sel = top ++ seqZ 0 c0 ++ seqZ (P - r) r /\ top_keys row c0 (P - r) top /\
    0 <= k_star <= P - r - c0 /\ py_len top = clamped k_star k_min k_max (P - r - c0) (width - c0 - r).

Section RowFacts.
Context {T : Type} {SO : SelectOps T}.
Context (passes_pos : (0 < num_passes)%nat) (twiddle_range : forall v, 0 <= twiddle v < 2 ^ key_bits).
Context (row : list T) (P sink recent k_min k_max width : Z).
Context (Hs : 0 <= sink) (Hrec : 0 <= recent) (HP : 0 <= P <= py_len row).

Lemma kernel_row sch out theta :
  fair sch (s_eff P sink) (P - r_eff P sink recent) -> py_len out = width -> s_eff P sink + r_eff P sink recent <= width ->
  exists sel rest, SelectKernel row sch P k_min k_max out width theta sink recent = Ok (sel ++ rest, py_len sel) /\
    py_len (sel ++ rest) = width /\ row_selected row P sink recent k_min k_max width sel.
Proof using All.
  intros Hf Hout Hw. assert (Hb : 0 <= s_eff P sink /\ 0 <= r_eff P sink recent /\ s_eff P sink <= P - r_eff P sink recent)
    by (unfold r_eff, s_eff; lia). destruct Hb as (Hb0 & Hb1 & Hb2).
  destruct (decide (P = 0)) as [->|HP0].
  - exists [], out. split; [done|]. split; [done|]. exists [], 0.
    assert (s_eff 0 sink = 0 /\ r_eff 0 sink recent = 0) as [-> ->] by (unfold r_eff, s_eff; lia).
    split; [done|]. split; [split; [constructor|]; split; [by intros i ?%elem_of_nil|by intros i j ?%elem_of_nil]|].
    split; [lia|]. unfold clamped, py_len. cbn. lia.
  - destruct (select_row_ok passes_pos twiddle_range row P sink recent Hs Hrec ltac:(lia) sch k_min k_max out width theta Hf Hout Hw)
      as (top & st & rest & E & Erest & _ & Htop & Hk & Hlen).
    assert (Hsl : py_len (top ++ seqZ 0 (s_eff P sink) ++ seqZ (P - r_eff P sink recent) (r_eff P sink recent))
                  = py_len top + s_eff P sink + r_eff P sink recent)
      by (unfold py_len; rewrite !length_app, !length_seqZ; lia).
    eexists (top ++ seqZ 0 _ ++ seqZ _ _), rest. split; [rewrite Hsl, E; by rewrite <- !app_assoc|]. split.
    + unfold py_len in *. rewrite length_app, Erest, length_drop.
      assert (Z.of_nat (length top) <= width - s_eff P sink - r_eff P sink recent) by (rewrite Hlen; unfold clamped; lia). lia.
    + by eexists top, _.
Qed.

(** The selected positions are distinct valid positions, and there are no more of
    them than the cap and the reserved ranges allow. *)
Lemma row_selected_bounds sel :
  row_selected row P sink recent k_min k_max width sel ->
  Forall (fun pos => 0 <= pos < P) sel /\ NoDup sel /\ py_len sel <= P /\ py_len sel <= Z.max 0 k_max + sink + recent.
Proof using Hs Hrec HP.
  clear passes_pos twiddle_range. intros (top & k_star & -> & (Hnd & Hin & _) & Hk & Hlen).
  assert (Hb : 0 <= s_eff P sink <= sink /\ 0 <= r_eff P sink recent <= recent /\ s_eff P sink <= P - r_eff P sink recent)
    by (unfold r_eff, s_eff; lia). set (c0 := s_eff P sink) in *. set (r := r_eff P sink recent) in *.
  assert (Hlt : forall i, i ∈ top -> c0 <= i < P - r) by (intros i Hi; apply Hin in Hi; unfold cands in Hi; apply elem_of_seqZ in Hi; lia).
  split; [|split; [|split]].
  - apply Forall_forall. intros i. rewrite !elem_of_app, !elem_of_seqZ. intros [?%Hlt|?]; lia.
  - apply NoDup_app. split; [done|]. split.
    + intros i Hi%Hlt. rewrite elem_of_app, !elem_of_seqZ. lia.
    + apply NoDup_app. split; [apply NoDup_seqZ|]. split; [|apply NoDup_seqZ]. intros i. rewrite !elem_of_seqZ. lia.
  - unfold py_len in *. rewrite !length_app, !length_seqZ. unfold clamped in Hlen. lia.
  - unfold py_len in *. rewrite !length_app, !length_seqZ. unfold clamped in Hlen. lia.
Qed.
End RowFacts.

(** * The verify pass *)
Section Verify.
Context {A T F : Type} {SO : SelectOps T} `{!Inhabited A}.
Context (ceil_mul : Z -> F -> Z) (to_mass : F -> M).
Context (p : ov_params F) (sch : nat -> schedule) (order : list nat) (seqlens_k cu_seqlens_q : list Z) (reduced : nat -> list (list T)).
Implicit Types (st : overrider A T).

Let L := layers p.
Let B := max_batch_size p.
Let batch := length seqlens_k.

(** The number of query tokens and the scored prefix of each request. *)
Definition seqlens_q : list Z := zip_with Z.sub (drop 1 cu_seqlens_q) cu_seqlens_q.
Definition verify_valid : list Z := zip_with (valid_len p) seqlens_k seqlens_q.

(** The parameters of the configuration and the inputs of the pass. *)
Record verify_ok : Prop := {
  vo_layers : (0 < L)%nat;
  vo_config : 0 <= sink (cfg p) /\ 0 <= recent (cfg p) /\ 0 <= min_tokens (cfg p) /\ 0 <= num_spec_tokens (cfg p);
  vo_batch : (0 < B)%nat /\ (batch <= B)%nat /\ length cu_seqlens_q = S batch;
  vo_lens b : (b < batch)%nat -> 0 <= seqlens_q !!! b <= seqlens_k !!! b /\ seqlens_k !!! b <= max_model_len p;
  vo_reduced l : (l < L)%nat -> length (reduced l) = batch /\ Forall (fun row => py_len row = max_model_len p) (reduced l);
  vo_order : order ≡ₚ seq 0 (L * B);
  vo_fair l b : (l < L)%nat -> (b < batch)%nat ->
    fair (sch (l * B + b)%nat) (s_eff (verify_valid !!! b) (sink (cfg p)))
      (verify_valid !!! b - r_eff (verify_valid !!! b) (sink (cfg p)) (recent (cfg p)));
}.

(** After the scores of the first [k] layers: the metadata of the batch is set and
    the metric rows of those layers are in place. *)
Record scored (st0 : overrider A T) (k : nat) st : Prop := {
  sc_shapes : buffers_shaped ceil_mul p st;
  sc_frame : in_propose st = in_propose st0 /\ draft_kv st = draft_kv st0 /\ metadata_initialized st = false;
  sc_valid : valid_lens st = fill_buffer p verify_valid;
  sc_kmin : k_min st = fill_buffer p ((fun v => Z.min v (min_tokens (cfg p))) <$> verify_valid);
  sc_kmax : k_max st = fill_buffer p (zip_with (k_max_of ceil_mul p) seqlens_k verify_valid);
  sc_batch : batch_size st = batch;
  sc_rows l : (l < k)%nat -> exists rest, metric st !! l = Some (reduced l ++ rest);
}.

Context (Hv : verify_ok).

Lemma length_seqlens_q : length seqlens_q = batch.
Proof using Hv. destruct (vo_batch Hv) as (_ & _ & Hc). unfold seqlens_q. rewrite length_zip_with, length_drop, Hc. lia. Qed.

Lemma length_verify_valid : length verify_valid = batch.
Proof using Hv. unfold verify_valid. rewrite length_zip_with, length_seqlens_q. unfold batch. lia. Qed.

Lemma verify_valid_at b : (b < batch)%nat -> verify_valid !!! b = valid_len p (seqlens_k !!! b) (seqlens_q !!! b).
Proof using Hv.
  intros Hb. apply list_lookup_total_correct. unfold verify_valid. rewrite lookup_zip_with.
  rewrite (list_lookup_lookup_total_lt seqlens_k), (list_lookup_lookup_total_lt seqlens_q) by (rewrite ?length_seqlens_q; done). done.
Qed.

Lemma verify_valid_bounds b :
  (b < batch)%nat -> 0 <= verify_valid !!! b <= seqlens_k !!! b /\ verify_valid !!! b <= max_model_len p.
Proof using Hv.
  intros Hb. rewrite verify_valid_at by done. destruct (vo_lens Hv b Hb) as [H1 H2]. destruct (vo_config Hv) as (_ & _ & _ & H3).
  unfold valid_len. destruct (Z.eqb_spec (seqlens_q !!! b) 0); [lia|]. destruct (Z.ltb_spec (num_spec_tokens (cfg p) + 1) (seqlens_q !!! b)); lia.
Qed.

(** A layer up to the selection. *)
Lemma begin_verify_ok st :
  buffers_shaped ceil_mul p st -> exists st', begin_verify ceil_mul p seqlens_k cu_seqlens_q st = Ok st' /\ scored st 0 st' /\ curr_layer st' = curr_layer st.
Proof using Hv.
  intros Hs. unfold begin_verify. fold batch. fold seqlens_q. rewrite length_seqlens_q, Nat.eqb_refl. destruct (vo_batch Hv) as (_ & H1 & _).
  fold B. rewrite (proj2 (Nat.ltb_ge B batch)) by done. cbn [negb orb]. eexists. split; [reflexivity|]. split; [|done].
  fold verify_valid. split; cbn; [by destruct Hs|done|done|done|done|done|]. intros l Hl. lia.
Qed.

Lemma score_layer st0 st k :
  (k < L)%nat -> scored st0 k st -> curr_layer st = k ->
  exists rows, metric st !! curr_layer st = Some rows /\
    scored st0 (S k) (mkOv (curr_layer st) (in_propose st) (batch_size st)
              (<[curr_layer st := reduced k ++ drop (batch_size st) rows]> (metric st)) (tbl st) (used st) (valid_lens st)
              (k_min st) (k_max st) (reduce_entry st) (metadata_initialized st) (draft_kv st) (ov_stats st)).
Proof using Hv.
  intros Hk [Hsh Hfr H1 H2 H3 Hb Hrows] Hcl. destruct Hsh as [[Hm1 Hm2] Ht Hu]. rewrite Hcl, Hb.
  destruct (lookup_lt_is_Some_2 (metric st) k) as [rows Er]; [lia|]. exists rows. split; [done|].
  destruct (Forall_lookup_1 _ _ _ _ Hm2 Er) as [Hr1 Hr2]. destruct (vo_reduced Hv k Hk) as [Hred1 Hred2].
  destruct (vo_batch Hv) as (_ & HbB & _).
  split; cbn; [|done|done|done|done|done|].
  - split; [|done|done]. cbn. split; [by rewrite length_insert|]. apply Forall_insert; [done|].
    split; [rewrite length_app, length_drop; lia|]. apply Forall_app. split; [done|by apply Forall_drop].
  - intros l Hl. destruct (decide (l = k)) as [->|Hne].
    + rewrite list_lookup_insert_eq by lia. eauto.
    + rewrite list_lookup_insert_ne by done. apply Hrows. lia.
Qed.

(** Entry [b] of a buffer filled for the batch. *)
Lemma fill_buffer_at l b : length l = batch -> (b < B)%nat -> fill_buffer p l !!! b = if decide (b < batch)%nat then l !!! b else 0.
Proof using Hv.
  intros Hl Hb. apply list_lookup_total_correct. unfold fill_buffer. fold B. rewrite Hl. destruct (decide (b < batch)%nat).
  - rewrite lookup_app_l by lia. apply list_lookup_lookup_total_lt. lia.
  - rewrite lookup_app_r by lia. apply lookup_replicate_2. lia.
Qed.

Lemma length_fill_buffer l : length l = batch -> length (fill_buffer p l) = B.
Proof using Hv. intros Hl. destruct (vo_batch Hv) as (_ & H & _). unfold fill_buffer. fold B. rewrite length_app, length_replicate. lia. Qed.

(** Row [(l, b)] of flattened buffers. *)
Lemma flat_at {X} `{!Inhabited X} (rows : list (list X)) l b :
  length rows = L -> Forall (fun r => length r = B) rows -> (l < L)%nat -> (b < B)%nat ->
  concat rows !!! (l * B + b)%nat = (rows !!! l) !!! b.
Proof using.
  clear Hv batch. intros HL HB Hl Hb. apply list_lookup_total_correct. rewrite (lookup_concat_uniform B) by done.
  rewrite (list_lookup_lookup_total_lt rows) by lia. cbn.
  apply list_lookup_lookup_total_lt. rewrite (Forall_lookup_1 _ _ _ _ HB (list_lookup_lookup_total_lt rows l ltac:(lia))). done.
Qed.

Lemma all_at (x : list Z) l b : length x = B -> (l < L)%nat -> (b < B)%nat -> concat (replicate L x) !!! (l * B + b)%nat = x !!! b.
Proof using.
  intros Hx Hl Hb. rewrite flat_at; [|apply length_replicate|by apply Forall_replicate|done|done].
  by rewrite lookup_total_replicate_2.
Qed.

Lemma length_all (x : list Z) : length x = B -> length (concat (replicate L x)) = (L * B)%nat.
Proof using. intros Hx. rewrite (length_concat_same B) by (by apply Forall_replicate). by rewrite length_replicate. Qed.

(** The positions selected for layer [l] and request [b]. *)
Definition verify_selected (l b : nat) : list Z -> Prop :=
  row_selected (reduced l !!! b) (verify_valid !!! b) (sink (cfg p)) (recent (cfg p))
    (Z.min (verify_valid !!! b) (min_tokens (cfg p))) (k_max_of ceil_mul p (seqlens_k !!! b) (verify_valid !!! b)) (width ceil_mul p).

Lemma width_room P : 0 <= P -> s_eff P (sink (cfg p)) + r_eff P (sink (cfg p)) (recent (cfg p)) <= width ceil_mul p.
Proof using Hv.
  intros HP. destruct (vo_config Hv) as (H1 & H2 & H3 & H4). unfold width, max_tokens, s_eff, r_eff. lia.
Qed.

Lemma view_shape {X} (xs : list X) :
  length xs = (L * B)%nat -> length (view_pages B xs) = L /\ Forall (fun r => length r = B) (view_pages B xs).
Proof using Hv.
  intros Hx. destruct (vo_batch Hv) as (HB & _ & _). unfold view_pages. rewrite Hx, Nat.div_mul by lia.
  split; [by rewrite length_fmap, length_seq|]. apply Forall_forall. intros r (i & -> & Hi%elem_of_seq)%list_elem_of_fmap.
  rewrite length_take, length_drop, Hx. nia.
Qed.

Lemma view_at {X} `{!Inhabited X} (xs : list X) l b :
  length xs = (L * B)%nat -> (l < L)%nat -> (b < B)%nat -> cell_get (K := nat * nat) (l, b) (view_pages B xs) = Some (xs !!! (l * B + b)%nat).
Proof using Hv.
  intros Hx Hl Hb. rewrite view_pages_lookup by (done || (rewrite Hx, Nat.div_mul by lia; done)).
  apply list_lookup_lookup_total_lt. rewrite Hx. nia.
Qed.

(** The state a verify pass leaves: the tables of [sel] for the batch. *)
Record verified (st0 : overrider A T) (sel : nat -> nat -> list Z) st : Prop := {
  vd_tables : fresh_tables ceil_mul p batch sel verify_valid st;
  vd_selected l b : (l < L)%nat -> (b < batch)%nat -> verify_selected l b (sel l b);
  vd_frame : in_propose st = in_propose st0 /\ draft_kv st = draft_kv st0;
}.

(** The flat outputs of the launch hold the selection of every row. *)
Definition holds_selection (table' : list (list Z)) (used' : list Z) (sel : nat -> nat -> list Z) : Prop :=
  forall l b, (l < L)%nat -> (b < B)%nat -> exists rest, table' !!! (l * B + b)%nat = sel l b ++ rest /\
    used' !!! (l * B + b)%nat = py_len (sel l b) /\ py_len (sel l b ++ rest) = width ceil_mul p /\
    ((b < batch)%nat -> verify_selected l b (sel l b)).

Lemma selected_state st0 st table' used' sel stats :
  scored st0 L st -> length table' = (L * B)%nat -> length used' = (L * B)%nat -> holds_selection table' used' sel ->
  verified st0 sel (mkOv (curr_layer st) (in_propose st) (batch_size st) (metric st) (view_pages B table') (view_pages B used')
    (valid_lens st) (k_min st) (k_max st) (reduce_entry st) (metadata_initialized st) (draft_kv st) stats).
Proof using Hv.
  intros [[Hm [Ht1 Ht2] [Hu1 Hu2]] Hfr H1 H2 H3 Hb Hrows] Hl1 Hl2 Hcell. destruct (vo_batch Hv) as (HB & HbB & _).
  pose proof length_verify_valid as Hvl.
  destruct (view_shape table' Hl1) as [V1 V2]. destruct (view_shape used' Hl2) as [V3 V4].
  destruct Hfr as (F1 & F2 & F3).
  split; cbn [in_propose draft_kv]; [|intros l b Hl Hb'; destruct (Hcell l b Hl ltac:(lia)) as (? & _ & _ & _ & H); by apply H|done].
  split; cbn [metadata_initialized valid_lens tbl used]; [done|rewrite H1; unfold fill_buffer; by rewrite <- Hvl, take_app_length|..].
  - split; cbn [metric tbl used]; [done| |done]. split; [done|]. apply Forall_lookup_2. intros l rows El.
    pose proof (lookup_lt_Some _ _ _ El) as Hl. rewrite V1 in Hl. split; [by apply (Forall_lookup_1 _ _ _ _ V2 El)|].
    apply Forall_lookup_2. intros b row Eb. pose proof (lookup_lt_Some _ _ _ Eb) as Hb'. rewrite (Forall_lookup_1 _ _ _ _ V2 El) in Hb'.
    pose proof (view_at table' l b Hl1 Hl Hb') as Ecell. cbn in Ecell. rewrite El in Ecell. cbn in Ecell. rewrite Eb in Ecell. injection Ecell as ->.
    destruct (Hcell l b Hl Hb') as (rest & Et & _ & Hw & _). by rewrite Et.
  - intros l b Hl Hb'. destruct (Hcell l b Hl ltac:(lia)) as (rest & Et & _ & Hw & _). exists rest. split; [|done].
    rewrite view_at by (done || lia). by rewrite Et.
  - intros l Hl. exists (view_pages B used' !!! l). pose proof (list_lookup_lookup_total_lt (view_pages B used') l ltac:(lia)) as El.
    split; [done|]. split; [rewrite (Forall_lookup_1 _ _ _ _ V4 El); done|]. intros b Hb'.
    destruct (Hcell l b Hl ltac:(lia)) as (rest & _ & Eu & _ & _).
    pose proof (view_at used' l b Hl2 Hl ltac:(lia)) as Ecell. cbn in Ecell. rewrite El in Ecell. cbn in Ecell. by rewrite Ecell, Eu.
Qed.

Context (passes_pos : (0 < num_passes)%nat) (twiddle_range : forall v : T, 0 <= twiddle v < 2 ^ key_bits).

(** The kernel on row [(l, b)] of the launch. *)
Lemma select_row_at st0 st l b :
  scored st0 L st -> (l < L)%nat -> (b < B)%nat ->
  exists sel rest, select_at (concat (metric st)) sch (concat (replicate L (valid_lens st))) (concat (replicate L (k_min st)))
      (concat (replicate L (k_max st))) (width ceil_mul p) (to_mass (theta (cfg p))) (sink (cfg p)) (recent (cfg p))
      (l * B + b)%nat (concat (tbl st) !!! (l * B + b)%nat) = Ok (sel ++ rest, py_len sel) /\
    py_len (sel ++ rest) = width ceil_mul p /\ ((b < batch)%nat -> verify_selected l b sel).
Proof using Hv passes_pos twiddle_range.
  intros [[[Hm1 Hm2] [Ht1 Ht2] Hu] _ H1 H2 H3 _ Hrows] Hl Hb. destruct (vo_config Hv) as (C1 & C2 & C3 & C4).
  pose proof length_verify_valid as Hvl. unfold select_at.
  assert (Hlen2 : length ((fun v => Z.min v (min_tokens (cfg p))) <$> verify_valid) = batch) by (by rewrite length_fmap).
  assert (Hlen3 : length (zip_with (k_max_of ceil_mul p) seqlens_k verify_valid) = batch)
    by (rewrite length_zip_with, Hvl; unfold batch; lia).
  rewrite H1, H2, H3, !all_at, !fill_buffer_at by (done || by apply length_fill_buffer).
  rewrite (flat_at (metric st)), (flat_at (tbl st)) by (done || (eapply Forall_impl; [done|by intros ? [? _]])).
  assert (Hout : py_len ((tbl st !!! l) !!! b) = width ceil_mul p).
  { destruct (Forall_lookup_1 _ _ _ _ Ht2 (list_lookup_lookup_total_lt (tbl st) l ltac:(lia))) as [Hl1 Hl2].
    apply (Forall_lookup_1 _ _ _ _ Hl2 (list_lookup_lookup_total_lt (tbl st !!! l) b ltac:(lia))). }
  assert (Hml : py_len ((metric st !!! l) !!! b) = max_model_len p).
  { destruct (Forall_lookup_1 _ _ _ _ Hm2 (list_lookup_lookup_total_lt (metric st) l ltac:(lia))) as [Hl1 Hl2].
    apply (Forall_lookup_1 _ _ _ _ Hl2 (list_lookup_lookup_total_lt (metric st !!! l) b ltac:(lia))). }
  destruct (decide (b < batch)%nat) as [Hbb|Hbb].
  - destruct (Hrows l Hl) as (rest0 & Emet). destruct (vo_reduced Hv l Hl) as [Hr1 Hr2].
    assert (Emb : (metric st !!! l) !!! b = reduced l !!! b).
    { rewrite (list_lookup_total_correct _ _ _ Emet). apply list_lookup_total_correct. rewrite lookup_app_l by lia.
      apply list_lookup_lookup_total_lt. lia. }
    destruct (verify_valid_bounds b Hbb) as [V1 V2]. rewrite Emb in Hml |- *.
    assert (HP : 0 <= verify_valid !!! b <= py_len (reduced l !!! b)) by (rewrite Hml; lia).
    destruct (kernel_row passes_pos twiddle_range (reduced l !!! b) (verify_valid !!! b) (sink (cfg p)) (recent (cfg p))
      (((fun v => Z.min v (min_tokens (cfg p))) <$> verify_valid) !!! b)
      (zip_with (k_max_of ceil_mul p) seqlens_k verify_valid !!! b) (width ceil_mul p) C1 C2 HP
      (sch (l * B + b)%nat) ((tbl st !!! l) !!! b) (to_mass (theta (cfg p))) (vo_fair Hv l b Hl Hbb) Hout (width_room _ (proj1 HP)))
      as (sel & rest & E & Hw & Hsel). exists sel, rest. split; [exact E|]. split; [done|]. intros _. unfold verify_selected.
    rewrite (list_lookup_total_correct ((fun v => Z.min v (min_tokens (cfg p))) <$> verify_valid) b
      (Z.min (verify_valid !!! b) (min_tokens (cfg p)))) in Hsel
      by (rewrite list_lookup_fmap, (list_lookup_lookup_total_lt verify_valid) by lia; done).
    rewrite (list_lookup_total_correct (zip_with (k_max_of ceil_mul p) seqlens_k verify_valid) b
      (k_max_of ceil_mul p (seqlens_k !!! b) (verify_valid !!! b))) in Hsel
      by (rewrite lookup_zip_with, (list_lookup_lookup_total_lt seqlens_k), (list_lookup_lookup_total_lt verify_valid) by (fold batch; lia); done).
    exact Hsel.
  - exists [], ((tbl st !!! l) !!! b). split; [done|]. split; [exact Hout|]. lia.
Qed.

(** The launch over all layers and requests. *)
Lemma select_ok st0 st :
  scored st0 L st ->
  exists st' sel, select ceil_mul to_mass p sch order st = Ok st' /\ verified st0 sel st' /\ curr_layer st' = curr_layer st.
Proof using Hv passes_pos twiddle_range.
  intros Hsc. pose proof Hsc as [[[Hm1 Hm2] [Ht1 Ht2] [Hu1 Hu2]] Hfr H1 H2 H3 Hb Hrows]. destruct (vo_batch Hv) as (HB & HbB & _).
  assert (Hflat : forall X (P : X -> Prop) (rows : list (list X)), length rows = L -> Forall (fun r => length r = B /\ Forall P r) rows ->
    length (concat rows) = (L * B)%nat).
  { intros X P rows HL HF. rewrite (length_concat_same B), HL; [done|]. eapply Forall_impl; [exact HF|]. by intros r [? _]. }
  assert (Hml : length (concat (metric st)) = (L * B)%nat) by (by eapply Hflat).
  assert (Htl : length (concat (tbl st)) = (L * B)%nat) by (by eapply Hflat).
  assert (Hul : length (concat (used st)) = (L * B)%nat) by (by rewrite (length_concat_same B), Hu1).
  pose proof length_verify_valid as Hvl.
  assert (Hk2 : length (k_min st) = B) by (rewrite H2; apply length_fill_buffer; by rewrite length_fmap).
  assert (Hk3 : length (k_max st) = B) by (rewrite H3; apply length_fill_buffer; rewrite length_zip_with, Hvl; unfold batch; lia).
  assert (Hk1 : length (valid_lens st) = B) by (rewrite H1; by apply length_fill_buffer).
  destruct (launch_mass_select_ok (concat (metric st)) sch (concat (replicate L (valid_lens st))) (concat (replicate L (k_min st)))
    (concat (replicate L (k_max st))) (concat (tbl st)) (concat (used st)) (width ceil_mul p) (to_mass (theta (cfg p)))
    (sink (cfg p)) (recent (cfg p)) order) as (table' & used' & E & Hl1 & Hl2 & Hrow).
  { rewrite Hml. apply (vo_order Hv). }
  1-5: rewrite Hml; done || by apply length_all.
  { rewrite Hml. intros r Hr. pose proof (Nat.div_mod r B ltac:(lia)). pose proof (Nat.mod_upper_bound r B ltac:(lia)).
    destruct (select_row_at st0 st (r / B) (r mod B) Hsc) as (sel & rest & Es & _); [apply Nat.Div0.div_lt_upper_bound; lia|done|].
    replace (r / B * B + r mod B)%nat with r in Es by lia. eauto. }
  rewrite Hml in Hl1, Hl2, Hrow. unfold select. fold L. rewrite E. cbn [mbind result_bind]. fold B.
  set (sel := fun l b => take (Z.to_nat (used' !!! (l * B + b)%nat)) (table' !!! (l * B + b)%nat)).
  assert (Hcell : holds_selection table' used' sel).
  { intros l b Hl Hb'. destruct (select_row_at st0 st l b Hsc Hl Hb') as (s & rest & Es & Hw & Hsel).
    rewrite Hrow in Es by nia. injection Es as Etab Eus. exists rest.
    assert (sel l b = s) as -> by (unfold sel, py_len in *; by rewrite Etab, Eus, Nat2Z.id, take_app_length). done. }
  eexists _, sel. split; [reflexivity|]. split; [|done]. by apply selected_state.
Qed.

(** One layer of the verify pass. *)
Lemma verify_layer_ok st0 st l :
  (l < L)%nat -> buffers_shaped ceil_mul p st0 -> curr_layer st0 = 0%nat ->
  (if decide (l = 0)%nat then st = st0 else scored st0 l st /\ curr_layer st = l) ->
  exists st', verify_attention ceil_mul to_mass p sch order seqlens_k cu_seqlens_q (reduced l) st = Ok st' /\
    if decide (S l < L)%nat then scored st0 (S l) st' /\ curr_layer st' = S l
    else curr_layer st' = 0%nat /\ exists sel, verified st0 sel st'.
Proof using Hv passes_pos twiddle_range.
  intros Hl Hsh Hcl0 Hst.
  assert (exists st1, (if (curr_layer st =? 0)%nat then begin_verify ceil_mul p seqlens_k cu_seqlens_q st else Ok st) = Ok st1
            /\ scored st0 l st1 /\ curr_layer st1 = l) as (st1 & E1 & Hsc & Hc1).
  { destruct (decide (l = 0)%nat) as [->|Hne].
    - subst st. rewrite Hcl0. cbn [Nat.eqb]. destruct (begin_verify_ok st0 Hsh) as (st1 & E & Hs & Hc). exists st1. rewrite Hc, Hcl0. done.
    - destruct Hst as [Hs Hc]. exists st. rewrite (proj2 (Nat.eqb_neq (curr_layer st) 0)) by lia. done. }
  unfold verify_attention. rewrite E1. cbn [mbind result_bind].
  destruct (score_layer st0 st1 l Hl Hsc Hc1) as (rows & Er & Hsc'). rewrite Er. cbn [of_option mbind result_bind].
  set (st2 := mkOv _ _ _ _ _ _ _ _ _ _ _ _ _) in *. assert (Hc2 : curr_layer st2 = l) by done. fold L. rewrite Hc2.
  destruct (decide (S l < L)%nat) as [Hlt|Hge].
  - rewrite (proj2 (Nat.eqb_neq l (L - 1))) by lia. cbn [mbind result_bind]. eexists. split; [reflexivity|]. split.
    + destruct Hsc' as [h1 h2 h3 h4 h5 h6 h7]. split; [by apply (same_shapes _ _ st2)|done..].
    + cbn [next_layer curr_layer]. fold L. fold st2. rewrite Hc2, Nat.mod_small; lia.
  - assert (S l = L) as HSl by lia. rewrite (proj2 (Nat.eqb_eq l (L - 1))) by lia. rewrite HSl in Hsc'.
    destruct (select_ok st0 st2 Hsc') as (st3 & sel & E3 & Hvd & Hc3). rewrite E3. cbn [mbind result_bind].
    eexists. split; [reflexivity|]. cbn [next_layer curr_layer]. fold L. rewrite Hc3, Hc2, Nat.add_1_r, HSl, Nat.Div0.mod_same.
    split; [done|]. exists sel. destruct Hvd as [t1 h3 h4]. split; [by apply (same_fresh _ _ _ _ _ st3)|done|done].
Qed.

(** The verify pass leaves the selection of every layer and request, and the
    layer counter at zero. *)
Lemma verify_pass_ok st :
  buffers_shaped ceil_mul p st -> curr_layer st = 0%nat ->
  exists st' sel, verify_pass ceil_mul to_mass p sch order seqlens_k cu_seqlens_q reduced st = Ok st' /\
    verified st sel st' /\ curr_layer st' = 0%nat.
Proof using Hv passes_pos twiddle_range.
  intros Hsh Hcl. pose proof (vo_layers Hv) as HL. unfold verify_pass. fold L.
  destruct (foldM_inv (fun st l => verify_attention ceil_mul to_mass p sch order seqlens_k cu_seqlens_q (reduced l) st)
    (fun pre st' => if decide (length pre < L)%nat then
         if decide (length pre = 0)%nat then st' = st else scored st (length pre) st' /\ curr_layer st' = length pre
       else curr_layer st' = 0%nat /\ exists sel, verified st sel st') (seq 0 L) st) as (st' & E & Hend).
  - by rewrite decide_True by done.
  - intros pre l post st1 Eq Hst.
    destruct (seq_split _ _ _ _ Eq) as [-> Hs].
    rewrite decide_True in Hst by done.
    destruct (verify_layer_ok st st1 (length pre) Hs Hsh Hcl Hst) as (st2 & E & H2). exists st2. split; [done|].
    rewrite length_app. cbn [length]. rewrite Nat.add_1_r. destruct (decide (S (length pre) < L)%nat); [|done].
    by rewrite decide_False by lia.
  - rewrite length_seq, decide_False in Hend by lia. destruct Hend as [Hc (sel & Hvd)]. by exists st', sel.
Qed.

(** The selection meets what the draft passes rely on. *)
Lemma verified_selection st sel st' : verified st sel st' -> selection_ok ceil_mul p batch sel verify_valid.
Proof using Hv.
  clear passes_pos twiddle_range. intros Hvd. destruct (vo_config Hv) as (C1 & C2 & C3 & C4). split.
  - split; [apply length_verify_valid|]. intros b Hb. apply verify_valid_bounds, Hb.
  - intros l b Hl Hb. destruct (verify_valid_bounds b Hb) as [V1 V2]. destruct (vo_reduced Hv l Hl) as [R1 R2].
    assert (Hrow : py_len (reduced l !!! b) = max_model_len p)
      by (apply (Forall_lookup_1 _ _ _ _ R2 (list_lookup_lookup_total_lt (reduced l) b ltac:(lia)))).
    assert (HP : 0 <= verify_valid !!! b <= py_len (reduced l !!! b)) by (rewrite Hrow; lia).
    destruct (row_selected_bounds (reduced l !!! b) (verify_valid !!! b) (sink (cfg p)) (recent (cfg p)) _ _ _ C1 C2
      HP _ (vd_selected _ _ _ Hvd l b Hl Hb)) as (B1 & _ & B3 & B4).
    split; [done|]. split; [done|]. unfold k_max_of, max_tokens in *. lia.
Qed.
End Verify.
