(* ===== verification/LongSpecRound.v ===== *)
(** A round of LongSpec drafting: a verify pass and the propose that follows it.

    The theorem joins the selection of the verify pass ([LongSpecVerify.v]) with
    the draft passes ([LongSpecFacts.v]); the configuration checks of
    [src/vllm/v1/spec_decode/sparse_attn/longspec/config.py] and the construction
    of the overrider establish what it needs. *)
From S2P Require Import Prelude Device Tensor MassSelect SlotTable LongSpec DraftAttention LongSpecFacts LongSpecVerify.
Local Open Scope Z_scope.

(** * The propose on a part of the batch *)
Section Smaller.
Context {A T F : Type} (ceil_mul : Z -> F -> Z) (p : ov_params F) (batch live : nat) (sel : nat -> nat -> list Z) (valid : list Z).
Context (Hle : (live <= batch)%nat) (Hvalid : length valid = batch).

Lemma take_valid_at b : (b < live)%nat -> take live valid !!! b = valid !!! b.
Proof using Hle Hvalid.
  intros Hb. apply list_lookup_total_correct. rewrite lookup_take_lt by done. apply list_lookup_lookup_total_lt. lia.
Qed.

Lemma fresh_tables_live (st : overrider A T) :
  fresh_tables ceil_mul p batch sel valid st -> fresh_tables ceil_mul p live sel (take live valid) st.
Proof using Hle.
  clear Hvalid. intros [H1 H2 H3 H4 H5]. split; [done|by rewrite <- H2, take_take, Nat.min_l by lia|done|intros l b Hl Hb; apply H4; [done|lia]|].
  intros l Hl. destruct (H5 l Hl) as (us & E & Hlen & Hu). exists us. split; [done|]. split; [lia|]. intros b Hb. apply Hu. lia.
Qed.

Lemma selection_ok_live : selection_ok ceil_mul p batch sel valid -> selection_ok ceil_mul p live sel (take live valid).
Proof using Hle Hvalid.
  intros [[_ H1] H2]. split.
  - split; [rewrite length_take; lia|]. intros b Hb. rewrite take_valid_at by done. apply H1. lia.
  - intros l b Hl Hb. rewrite take_valid_at by done. apply H2; [done|lia].
Qed.
End Smaller.

(** * A round *)
Section Round.
Context {A T F : Type} {SO : SelectOps T} `{!Inhabited A}.
Context (ceil_mul : Z -> F -> Z) (to_mass : F -> M) (p : ov_params F) (PW : nat).
Implicit Types (st : overrider A T).

(** The overrider between rounds. *)
Record idle st : Prop := {
  id_shapes : buffers_shaped ceil_mul p st;
  id_layer : curr_layer st = 0%nat;
  id_kv : kv_ok (layers p) (max_batch_size p) (inner p) PW (draft_kv st);
}.

(** The live requests of the propose: the first [length n] of the verify batch.
    Request [b] has [rejected] of its draft tokens rejected and draws its next
    token, so the first draft step sees [seqlens_k - rejected + 1] tokens. *)
Record live_ok (seqlens_k cu_seqlens_q rejected n : list Z) (bt : list (list Z)) : Prop := {
  lo_lens : (length n <= length seqlens_k)%nat /\ length bt = length n;
  lo_rejected b : (b < length n)%nat ->
    1 <= seqlens_q cu_seqlens_q !!! b /\ 0 <= rejected !!! b < seqlens_q cu_seqlens_q !!! b /\
    (num_spec_tokens (cfg p) + 1 < seqlens_q cu_seqlens_q !!! b -> rejected !!! b = 0);
  lo_n b : (b < length n)%nat -> n !!! b = seqlens_k !!! b - rejected !!! b + 1;
  lo_pages b pos : (b < length n)%nat -> 0 <= pos < n !!! b - 1 + num_spec_tokens (cfg p) ->
    has_page (bt !!! b) (block_size p) pos;
}.

(** The draft steps: every request grows by one token per step; the cache holds
    the rows of all positions so far and keeps those of older positions. *)
Record caches_ok (n : list Z) (bt : list (list Z)) (steps : nat) (si : nat -> step_input A) : Prop := {
  ch_steps : (0 < steps)%nat /\ Z.of_nat steps <= num_spec_tokens (cfg p);
  ch_seqlens s : (s < steps)%nat -> si_seqlens (si s) = (fun x => x + Z.of_nat s) <$> n /\ si_block_table (si s) = bt;
  ch_rows s l : (s < steps)%nat -> (l < layers p)%nat ->
    Forall (fun row => length row = inner p) (step_cache si s l).1 /\ Forall (fun row => length row = inner p) (step_cache si s l).2;
  ch_slots s l b pos : (s < steps)%nat -> (l < layers p)%nat -> (b < length n)%nat -> 0 <= pos < n !!! b + Z.of_nat s ->
    is_Some (slot_kv (step_cache si s l) (pos_slot (bt !!! b) (block_size p) pos));
  ch_kept s l b pos : (S s < steps)%nat -> (l < layers p)%nat -> (b < length n)%nat -> 0 <= pos < n !!! b + Z.of_nat s ->
    slot_kv (step_cache si (S s) l) (pos_slot (bt !!! b) (block_size p) pos)
    = slot_kv (step_cache si s l) (pos_slot (bt !!! b) (block_size p) pos);
  ch_max s b m : (s < steps)%nat -> (b < length n)%nat -> si_max_seqlen (si s) = Some m -> n !!! b + Z.of_nat s <= m;
}.

(** The slots of a step are slots of positions of the request. *)
Lemma step_slots_positions sel valid n bt s l b slot :
  selection_ok ceil_mul p (length n) sel valid -> (l < layers p)%nat -> (b < length n)%nat -> valid !!! b <= n !!! b ->
  slot ∈ step_slots p sel valid n bt s l b ->
  exists pos, 0 <= pos < n !!! b + Z.of_nat s /\ slot = pos_slot (bt !!! b) (block_size p) pos.
Proof using.
  intros Hsel Hl Hb Hle. unfold step_slots, slot_row, py_range. rewrite elem_of_app, !list_elem_of_fmap.
  destruct (so_valid _ _ _ _ _ Hsel) as [_ Hv]. specialize (Hv b Hb). destruct (so_sel _ _ _ _ _ Hsel l b Hl Hb) as (Hpos & _ & _).
  intros [(pos & -> & Hin)|(pos & -> & Hin%elem_of_seqZ)]; exists pos; (split; [|done]).
  - pose proof (proj1 (Forall_forall _ _) Hpos pos Hin). cbn beta in *. lia.
  - lia.
Qed.

Lemma caches_inputs sel valid n bt steps si :
  selection_ok ceil_mul p (length n) sel valid -> (forall b, (b < length n)%nat -> valid !!! b <= n !!! b) ->
  caches_ok n bt steps si -> inputs_ok p (length n) sel valid n bt steps si.
Proof using.
  intros Hsel Hvn [[_ H1] H2 H3 H4 H5 H6]. split; [done|done|done| | |done].
  - intros s l b Hs Hl Hb. apply Forall_forall. intros slot Hin.
    destruct (step_slots_positions sel valid n bt s l b slot Hsel Hl Hb (Hvn b Hb) Hin) as (pos & Hpos & ->). by apply H4.
  - intros s l b slot Hs Hl Hb Hin.
    destruct (step_slots_positions sel valid n bt s l b slot Hsel Hl Hb (Hvn b Hb) Hin) as (pos & Hpos & ->). by apply (H5 s l b pos).
Qed.

(** The first draft step starts right after the scored prefix. *)
Lemma live_requests sch order seqlens_k cu_seqlens_q reduced rejected n bt :
  verify_ok p sch order seqlens_k cu_seqlens_q (T := T) reduced -> live_ok seqlens_k cu_seqlens_q rejected n bt ->
  requests_ok p (length n) (take (length n) (verify_valid p seqlens_k cu_seqlens_q)) n bt.
Proof using.
  intros Hv [[H1 H2] H3 H4 H5]. destruct (vo_config _ _ _ _ _ _ Hv) as (_ & _ & _ & Hspec). split; [done| |done].
  intros b Hb. rewrite (take_valid_at (length seqlens_k)) by (done || by rewrite (length_verify_valid p sch order _ _ reduced Hv)).
  rewrite (verify_valid_at p sch order _ _ reduced Hv) by lia. rewrite H4 by done. destruct (H3 b Hb) as (Q1 & Q2 & Q3).
  unfold valid_len. rewrite (proj2 (Z.eqb_neq _ 0)) by lia.
  destruct (Z.ltb_spec (num_spec_tokens (cfg p) + 1) (seqlens_q cu_seqlens_q !!! b)) as [Hlt|Hge]; [rewrite (Q3 Hlt)|]; lia.
Qed.

(** [begin_propose] makes every layer start over. *)
Lemma begin_propose_ok L B I (d : DraftKV A) : kv_ok L B I PW d -> kv_ok L B I PW (begin_propose d).
Proof using.
  destruct d as [|g]; [done|]. intros [[H1 H2 H3 H4 H5] HPW]. split; [|done]. split; cbn; [done|by rewrite length_replicate|done..].
Qed.

Lemma begin_propose_ready L B I (d : DraftKV A) cache l batch slots :
  kv_ok L B I PW d -> (l < L)%nat -> kv_ready (begin_propose d) cache l batch slots.
Proof using.
  destruct d as [|g]; [done|]. intros [[_ H2 _ _ _] _] Hl. left. cbn. apply lookup_replicate_2. lia.
Qed.

(** What every layer of every draft step of a propose does. *)
Definition draft_correct (sel : nat -> nat -> list Z) (valid n : list Z) (bt : list (list Z)) (steps : nat) (si : nat -> step_input A)
    (outs : list (list (layer_out A))) : Prop :=
  length outs = steps /\
  forall s os, outs !! s = Some os -> length os = layers p /\
    forall l out, os !! l = Some out -> out_ok p (length n) sel valid n bt si s l out.

Section Propose.
Context (sel : nat -> nat -> list Z) (valid n : list Z) (bt : list (list Z)) (steps : nat) (si : nat -> step_input A).
Context (order : nat -> list (nat * nat)) (gorder : nat -> nat -> list (nat * nat)).

Lemma propose_steps_ok st :
  params_ok ceil_mul p (length n) PW -> selection_ok ceil_mul p (length n) sel valid -> requests_ok p (length n) valid n bt ->
  (0 < steps)%nat -> inputs_ok p (length n) sel valid n bt steps si ->
  (forall s, order s ≡ₚ grid (layers p) (length n)) -> (forall s l, gorder s l ≡ₚ gather_grid (length n) PW) ->
  fresh_tables ceil_mul p (length n) sel valid st -> curr_layer st = 0%nat ->
  kv_ok (layers p) (max_batch_size p) (inner p) PW (draft_kv st) ->
  exists outs st', propose_steps p order gorder si steps st = Ok (outs, st') /\ draft_correct sel valid n bt steps si outs /\
    idle st' /\ in_propose st' = false.
Proof using Inhabited0 SO.
  intros Hp Hsel Hr Hst Hin Ho Hg Hft Hcl Hkv. unfold propose_steps, enter_propose. rewrite Hcl. cbn [Nat.eqb py_assert mbind result_bind].
  set (st1 := mkOv _ _ _ _ _ _ _ _ _ _ _ _ _).
  assert (Hbw : between ceil_mul p (length n) PW sel valid n bt si 0 0 st1).
  { split; [|rewrite Nat.mod_small; [done|apply (po_layers _ _ _ _ Hp)]|done|by apply begin_propose_ok|].
    - cbn [step_tables]. apply (same_fresh _ _ _ _ _ st); [|done]. split; [symmetry; apply (ft_meta _ _ _ _ _ _ Hft)|done].
    - intros l Hl _. rewrite decide_False by lia. by apply (begin_propose_ready (layers p) (max_batch_size p) (inner p)). }
  destruct (draft_steps_ok ceil_mul p (length n) PW sel valid n bt Hp Hsel Hr steps si order gorder Hin Ho Hg st1 Hst Hbw)
    as (outs & st2 & E & Hlen & Hout & Hcl2 & Hsh & Hkv2).
  rewrite E. cbn [mbind result_bind]. unfold exit_propose. rewrite Hcl2. cbn [Nat.eqb py_assert mbind result_bind].
  eexists outs, _. split; [reflexivity|]. split; [by split|]. split; [|done].
  split; [by apply (same_shapes _ _ st2)|done|done].
Qed.
End Propose.

(** C6: a round of drafting.  From any state between rounds, the verify pass
    returns and leaves for every layer and request a selection of distinct
    positions of the scored prefix: the sink, the recent window and the top ones
    by that layer's metric, their number between the minimum and the budget (how
    the attention mass decides it within these is [MassCount.select_row_correct]);
    then up to [num_speculative_tokens] draft steps run
    without an exception, and at every step every layer that is not skipped
    calls attention so that, for every live request, it reads exactly the cache
    rows of that selection followed by those of all positions from the end of the
    scored prefix to the newest token, whichever way the selected rows reach the
    kernel (token pages or the incremental gather) and whatever the order of the
    kernels' programs; skipped layers are bypassed or return zero.  The layer
    counter is back at zero and the next round can start. *)
Theorem longspec_round_correct sch sel_order seqlens_k cu_seqlens_q reduced rejected n bt steps si order gorder st :
  (0 < num_passes)%nat -> (forall v : T, 0 <= twiddle v < 2 ^ key_bits) ->
  1 <= num_spec_tokens (cfg p) -> 0 < block_size p -> width ceil_mul p <= Z.of_nat PW ->
  idle st ->
  verify_ok p sch sel_order seqlens_k cu_seqlens_q reduced ->
  live_ok seqlens_k cu_seqlens_q rejected n bt ->
  caches_ok n bt steps si ->
  (forall s, order s ≡ₚ grid (layers p) (length n)) -> (forall s l, gorder s l ≡ₚ gather_grid (length n) PW) ->
  exists st1 sel outs st2,
    verify_pass ceil_mul to_mass p sch sel_order seqlens_k cu_seqlens_q reduced st = Ok st1 /\
    (forall l b, (l < layers p)%nat -> (b < length n)%nat -> verify_selected ceil_mul p seqlens_k cu_seqlens_q reduced l b (sel l b)) /\
    propose_steps p order gorder si steps st1 = Ok (outs, st2) /\
    draft_correct sel (take (length n) (verify_valid p seqlens_k cu_seqlens_q)) n bt steps si outs /\
    idle st2.
Proof using Inhabited0.
  intros Hpass Htw Hspec Hpage Hwidth [Hsh Hcl Hkv] Hv Hlive Hch Ho Hg.
  destruct (verify_pass_ok ceil_mul to_mass p sch sel_order seqlens_k cu_seqlens_q reduced Hv Hpass Htw st Hsh Hcl)
    as (st1 & sel & E1 & Hvd & Hcl1).
  pose proof (lo_lens _ _ _ _ _ Hlive) as [Hn _]. pose proof (length_verify_valid p sch sel_order _ _ reduced Hv) as Hvl.
  assert (Hsel : selection_ok ceil_mul p (length n) sel (take (length n) (verify_valid p seqlens_k cu_seqlens_q))).
  { apply (selection_ok_live _ _ (length seqlens_k)); [done|done|]. by eapply verified_selection. }
  assert (Hreq := live_requests sch sel_order _ _ reduced rejected n bt Hv Hlive).
  destruct (vd_frame _ _ _ _ _ _ _ _ Hvd) as [_ Hkv1].
  destruct (propose_steps_ok sel (take (length n) (verify_valid p seqlens_k cu_seqlens_q)) n bt steps si order gorder st1)
    as (outs & st2 & E2 & Hdc & Hid & _).
  - destruct (vo_batch _ _ _ _ _ _ Hv) as (_ & HB & _). split; [apply (vo_layers _ _ _ _ _ _ Hv)|done|done|lia|done].
  - done.
  - done.
  - apply (ch_steps _ _ _ _ Hch).
  - apply caches_inputs; [done| |done]. intros b Hb. apply (ro_n _ _ _ _ _ Hreq b Hb).
  - done.
  - done.
  - apply (fresh_tables_live _ _ (length seqlens_k)); [done|]. apply (vd_tables _ _ _ _ _ _ _ _ Hvd).
  - done.
  - by rewrite Hkv1.
  - exists st1, sel, outs, st2. split; [done|]. split; [|done]. intros l b Hl Hb. apply (vd_selected _ _ _ _ _ _ _ _ Hvd); [done|lia].
Qed.
End Round.

(** * Construction *)

(** The gather's scratch is laid out as its block table says, and a row of it
    holds the whole slot table. *)
Lemma gathered_init_ok {A} (zero : A) (L B w page I : nat) :
  (0 < page)%nat ->
  gathered_ok L B I (gathered_init zero L B w page I) /\
  (w <= g_pages (gathered_init zero L B w page I) * g_page (gathered_init zero L B w page I))%nat.
Proof.
  intros Hp. split.
  - assert (Hs : forall W, shape3 B W I (replicate B (replicate W (replicate I zero)))).
    { intros W. split; [apply length_replicate|]. apply Forall_replicate. split; [apply length_replicate|].
      apply Forall_replicate, length_replicate. }
    split; cbn; [done|apply length_replicate|..|done]; (split; [apply length_replicate|by apply Forall_replicate]).
  - cbn. pose proof (Nat.div_mod (w + page - 1) page ltac:(lia)). pose proof (Nat.mod_upper_bound (w + page - 1) page ltac:(lia)). nia.
Qed.

(** The tokens a scratch row of the chosen strategy holds. *)
Definition scratch_width {A} (w : nat) (d : DraftKV A) : nat := match d with TokenPaged => w | Gathered g => g_pages g * g_page g end.

(** C38: Choosing the strategy fails, with [ValueError], exactly when token pages are asked
    for and the kernel has none; the gather is chosen exactly when it is asked for, or left
    to choose with a kernel without token pages; and the new overrider is ready for its
    first round, with scratch rows that hold the whole slot table. *)
Theorem longspec_init_idle {A T F} ceil_mul (p : ov_params F) (zero : T) (kv_zero : A) mode fa_version :
  0 < block_size p -> 0 <= max_model_len p -> 0 <= width ceil_mul p ->
  match build_draft_kv mode fa_version kv_zero (layers p) (max_batch_size p) (Z.to_nat (width ceil_mul p)) (Z.to_nat (block_size p)) (inner p) with
  | Ok d => let PW := scratch_width (Z.to_nat (width ceil_mul p)) d in
      (mode = "token_pages"%string -> fa_version = 3) /\
      idle ceil_mul p PW (ov_init ceil_mul p zero d) /\ width ceil_mul p <= Z.of_nat PW
      /\ ((exists g, d = Gathered g) <-> mode = "gather"%string \/ (mode = "auto"%string /\ fa_version <> 3))
  | Err e => e = ValueError /\ mode = "token_pages"%string /\ fa_version <> 3
  end.
Proof.
  intros Hp Hm Hw. unfold build_draft_kv, supports_token_pages.
  assert (Hshape : forall d : DraftKV A, buffers_shaped ceil_mul p (ov_init ceil_mul p zero d)).
  { intros d. split; cbn; (split; [apply length_replicate|]); apply Forall_replicate.
    - split; [apply length_replicate|]. apply Forall_replicate. unfold py_len. rewrite length_replicate. lia.
    - split; [apply length_replicate|]. apply Forall_replicate. unfold py_len. rewrite length_replicate. lia.
    - apply length_replicate. }
  destruct (bool_decide (mode = "token_pages"%string) && negb (fa_version =? 3)) eqn:E1.
  { apply andb_prop in E1 as [E1%bool_decide_eq_true E2]. apply negb_true_iff, Z.eqb_neq in E2. done. }
  assert (Htp : mode = "token_pages"%string -> fa_version = 3).
  { intros Em. rewrite (bool_decide_true _ Em) in E1. by apply negb_false_iff, Z.eqb_eq in E1. }
  destruct (bool_decide (mode = "gather"%string) || (bool_decide (mode = "auto"%string) && negb (fa_version =? 3))) eqn:E2; (split; [exact Htp|]).
  - destruct (gathered_init_ok kv_zero (layers p) (max_batch_size p) (Z.to_nat (width ceil_mul p)) (Z.to_nat (block_size p)) (inner p) ltac:(lia))
      as [H1 H2]. split; [|split; [cbn [scratch_width]; lia|]].
    + split; [apply Hshape|done|]. by split.
    + split; [intros _|intros _; eauto]. apply orb_prop in E2 as [E2|E2].
      * left. by apply bool_decide_eq_true in E2.
      * right. apply andb_prop in E2 as [E2%bool_decide_eq_true E3]. apply negb_true_iff, Z.eqb_neq in E3. done.
  - apply orb_false_elim in E2 as [E2 E3]. apply bool_decide_eq_false in E2.
    split; [split; [apply Hshape|done|done]|]. split; [cbn [scratch_width]; lia|]. split; [by intros [g ?]|].
    intros [?|[Ha Hf]]; [done|]. apply andb_false_iff in E3 as [E3%bool_decide_eq_false|E3]; [done|].
    apply negb_false_iff, Z.eqb_eq in E3. done.
Qed.

(** * A concrete round *)
Module RoundExample.
#[local] Instance u16_ops : SelectOps Z := {|
  M := Z; m0 := 0; madd := Z.add; msub := Z.sub; mmul := fun a b => a * b / 100; mge := fun a b => b <=? a;
  mone := 100; ceil_div := fun a b => cdiv a b; to_float := fun x => x mod 65536;
  twiddle := fun x => 65535 - x mod 65536; untwiddle := fun b => 65535 - b; num_passes := 2 |}.

(** Ratios in percent. *)
Definition ceil_percent (n r : Z) : Z := cdiv (n * r) 100.

(** Two layers, the second without attention in the draft; pages of two tokens. *)
Definition config : LongSpecConfig Z :=
  mkLongSpecConfig Z "longspec" 60 1 1 1 50 2 2 true {[ 1 ]} ∅.
Definition params : ov_params Z := mkParams config 1 8 2 1.

Definition sched : nat -> schedule := fun _ => mkSched (fun _ => seqZ 1 3) (fun _ => seqZ 1 3) (reverse (seqZ 1 3)).

(** One request: six tokens, two of them queries, one draft rejected. *)
Definition rows : nat -> list (list Z) := fun l => [[3; 700; 20; 90 + Z.of_nat l; 500; 0; 0; 0]].
Definition pages : list (list (list Z)) := [[[10]; [11]]; [[12]; [13]]; [[14]; [15]]; [[16]; [17]]].
Definition steps_in : nat -> step_input Z := fun s => mkStep [6 + Z.of_nat s] [[3; 0; 2; 1]] (fun _ => pages) (fun _ => pages) (Some 8).

Definition start : overrider Z Z := ov_init ceil_percent params 0 (Gathered (gathered_init 0 2 1 11 2 1)).

Lemma params_verify : verify_ok params sched (seq 0 2) [6] [0; 2] rows.
Proof.
  split.
  - vm_compute. lia.
  - vm_compute. repeat split; discriminate.
  - vm_compute. split; [lia|]. split; [lia|done].
  - intros b Hb. assert (b = 0%nat) as -> by (cbn in Hb; lia). vm_compute. repeat split; discriminate.
  - intros l Hl. split; [done|]. repeat constructor.
  - done.
  - intros l b Hl Hb. assert (b = 0%nat) as -> by (cbn in Hb; lia). split; [|split].
    + intros q. reflexivity.
    + intros q. reflexivity.
    + apply (reverse_Permutation (seqZ 1 3)).
Qed.

Lemma has_page_below pos : 0 <= pos < 8 -> has_page [3; 0; 2; 1] 2 pos.
Proof. intros H. split; [lia|]. change (py_len [3; 0; 2; 1]) with 4. apply Z.div_lt_upper_bound; lia. Qed.

Lemma slots_in_cache pos : 0 <= pos < 8 -> is_Some (slot_kv (concat pages, concat pages) (pos_slot [3; 0; 2; 1] 2 pos)).
Proof.
  intros H. assert (pos ∈ seqZ 0 8) as Hin by (apply elem_of_seqZ; lia).
  assert (Hall : Forall (fun pos => is_Some (slot_kv (concat pages, concat pages) (pos_slot [3; 0; 2; 1] 2 pos))) (seqZ 0 8)).
  { vm_compute. repeat constructor; eexists; reflexivity. }
  by apply (proj1 (Forall_forall _ _) Hall).
Qed.

Lemma steps_caches : caches_ok params [6] [[3; 0; 2; 1]] 2 steps_in.
Proof.
  assert (Hb0 : forall b, (b < length [6])%nat -> b = 0%nat) by (cbn; lia).
  split.
  - cbn. lia.
  - intros s Hs. done.
  - intros s l Hs Hl. split; repeat constructor.
  - intros s l b pos Hs Hl Hb Hpos. rewrite (Hb0 b Hb) in *. cbn in Hpos. apply slots_in_cache. lia.
  - done.
  - intros s b m Hs Hb. rewrite (Hb0 b Hb). cbn. intros [= <-]. lia.
Qed.

Lemma start_idle : idle ceil_percent params 12 start.
Proof.
  split; [|done|].
  - split; vm_compute; (split; [reflexivity|]); repeat constructor.
  - split; [|done]. apply (gathered_init_ok 0 2 1 11 2 1). lia.
Qed.

Lemma longspec_round_correct_witness :
  exists st1 sel outs st2,
    verify_pass ceil_percent id params sched (seq 0 2) [6] [0; 2] rows start = Ok st1 /\
    (forall l b, (l < 2)%nat -> (b < 1)%nat -> verify_selected ceil_percent params [6] [0; 2] rows l b (sel l b)) /\
    propose_steps params (fun _ => grid 2 1) (fun _ _ => gather_grid 1 12) steps_in 2 st1 = Ok (outs, st2) /\
    draft_correct params sel [5] [6] [[3; 0; 2; 1]] 2 steps_in outs /\ idle ceil_percent params 12 st2.
Proof.
  apply (longspec_round_correct (SO := u16_ops) ceil_percent id params 12 sched (seq 0 2) [6] [0; 2] rows [1] [6] [[3; 0; 2; 1]] 2 steps_in
    (fun _ => grid 2 1) (fun _ _ => gather_grid 1 12) start).
  - vm_compute. lia.
  - intros v. unfold key_bits. cbn. pose proof (Z.mod_pos_bound v 65536 ltac:(lia)). lia.
  - vm_compute. discriminate.
  - reflexivity.
  - vm_compute. discriminate.
  - exact start_idle.
  - exact params_verify.
  - assert (Hb0 : forall b, (b < length [6])%nat -> b = 0%nat) by (cbn; lia). split.
    + done.
    + intros b Hb. rewrite (Hb0 b Hb). vm_compute. split; [discriminate|]. split; [split; [discriminate|reflexivity]|discriminate].
    + intros b Hb. rewrite (Hb0 b Hb). reflexivity.
    + intros b pos Hb Hpos. rewrite (Hb0 b Hb) in *. apply has_page_below. cbn in Hpos. lia.
  - exact steps_caches.
  - done.
  - done.
Defined.

(** The round run; position 1 is selected (the largest metric), with the sink 0 and
    the recent position 4, then the new positions 5 and 6. *)
Definition run : result (list (list (layer_out Z)) * overrider Z Z) :=
  st ← verify_pass ceil_percent id params sched (seq 0 2) [6] [0; 2] rows start;
  propose_steps params (fun _ => grid 2 1) (fun _ _ => gather_grid 1 12) steps_in 2 st.

Definition reads (o : layer_out Z) (len : nat) : list (option (list Z * list Z)) :=
  match o with Attended args => (fun t => paged_read args 0 t) <$> seq 0 len | _ => [] end.

Example run_reads :
  (match run with
   | Ok (outs, _) => map (map (fun o => reads o 5)) outs
   | Err _ => []
   end)
  = [[[Some ([17], [17]); Some ([16], [16]); Some ([14], [14]); Some ([15], [15]); Some ([0], [0])]; []];
     [[Some ([17], [17]); Some ([16], [16]); Some ([14], [14]); Some ([15], [15]); Some ([12], [12])]; []]].
Proof. vm_compute. reflexivity. Qed.

Lemma longspec_init_idle_witness :
  match build_draft_kv "auto" 2 0 2 1 11 2 1 with
  | Ok d => idle ceil_percent params 12 (ov_init ceil_percent params 0 d)
  | Err _ => False
  end.
Proof.
  exact (proj1 (proj2 (longspec_init_idle ceil_percent params 0 0 "auto" 2 ltac:(reflexivity) ltac:(discriminate) ltac:(vm_compute; discriminate)))).
Defined.
End RoundExample.
