(* ===== verification/Proposer.v ===== *)
(** The self-speculative proposer:
    [src/vllm/v1/spec_decode/sparse_attn/proposer.py].

    [propose] runs the draft steps: it advances positions, lengths and slots,
    feeds every sampled token back and keeps the hidden states; before the next
    verification [update_batch_order] and [get_draft_probs] bring the kept states
    into the order of the new batch.  The model and the sampler are parameters. *)
From S2P Require Import Prelude Device Tensor SpecUtils SlotTable.
Local Open Scope Z_scope.

Section Proposer.
(** [A]: the elements of a hidden state. *)
Context {A : Type}.
(** The state that outlives a call. *)
Record SparseAttnProposer := mkProposer {
  prev_req_id_to_index : option (gmap string nat);
  need_batch_reorder : bool;
  batch_reorder_mapping : list Z;
  mapping_gpu : list Z;
  draft_hidden_states : list (list (list A));
  sampled_ids : list (list Z);
}.

(** ** Batch order *)

(** One entry of the reorder mapping. *)
Definition map_request (prev : gmap string nat) (mapping : list Z) (item : string * nat) : result (list Z) :=
  let '(req_id, new_index) := item in
  store mapping (Z.of_nat new_index)
    (match prev !! req_id with Some prev_index => Z.of_nat prev_index | None => Z.of_nat new_index end).

(** [update_batch_order]; [items] are the entries of [req_id_to_index] in the
    dictionary's order. *)
Definition update_batch_order (items : list (string * nat)) (p : SparseAttnProposer) : result SparseAttnProposer :=
  let req_id_to_index : gmap string nat := list_to_map items in
  match prev_req_id_to_index p with
  | None => Ok (mkProposer (Some req_id_to_index) false (batch_reorder_mapping p) (mapping_gpu p)
                  (draft_hidden_states p) (sampled_ids p))
  | Some prev =>
      if bool_decide (req_id_to_index = prev) then
        Ok (mkProposer (Some req_id_to_index) false (batch_reorder_mapping p) (mapping_gpu p)
              (draft_hidden_states p) (sampled_ids p))
      else
        mapping ← foldM (map_request prev) items (batch_reorder_mapping p);
        Ok (mkProposer (Some req_id_to_index) true mapping mapping (draft_hidden_states p) (sampled_ids p))
  end.

(** The hidden states [get_draft_probs] computes the draft logits from; [fresh] is
    the uninitialised output of the gather, [order] the order of its grid. *)
Definition get_draft_hidden (num_speculative_tokens : nat) (arange : list Z) (num_draft_tokens : list Z)
    (fresh : list (list A)) (order : list (nat * nat)) (p : SparseAttnProposer) : result (list (list A)) :=
  let batch_size := length num_draft_tokens in
  let total_tokens := sumZ num_draft_tokens in
  if negb (need_batch_reorder p) && (Z.of_nat (batch_size * num_speculative_tokens) =? total_tokens) then
    Ok (concat (take batch_size (draft_hidden_states p)))
  else
    let reorder_mapping := if need_batch_reorder p then take batch_size (mapping_gpu p) else take batch_size arange in
    gather_cuda (draft_hidden_states p) (cumsum num_draft_tokens) total_tokens (Z.of_nat batch_size)
      (Z.of_nat num_speculative_tokens) (Some reorder_mapping) fresh order.

(** ** Draft steps *)

(** What a draft step hands to the model. *)
Record draft_inputs := mkInputs {
  di_input_ids : list Z;
  di_positions : list Z;
  di_seq_lens : list Z;
  di_slot_mapping : list Z;
  di_max_seq_len : Z;
}.

(** [torch.where(positions >= max_model_len, 0, positions)]. *)
Definition clamp_position (max_model_len pos : Z) : Z := if max_model_len <=? pos then 0 else pos.

(** The slot of one position, [PADDING_SLOT_ID] when the position exceeds the
    maximum length. *)
Definition step_slot (max_model_len block_size : Z) (bt_row : list Z) (pos : Z) : result Z :=
  let clamped := clamp_position max_model_len pos in
  block_id ← load bt_row (clamped / block_size);
  Ok (if max_model_len <=? pos then PADDING_SLOT_ID else block_id * block_size + clamped mod block_size).

(** The metadata of a step from the positions before clamping. *)
Definition step_inputs (max_model_len block_size : Z) (block_table : list (list Z)) (input_ids positions : list Z)
    (max_seq_len : Z) : result draft_inputs :=
  let clamped := clamp_position max_model_len <$> positions in
  slots ← mapR (fun '(row, pos) => step_slot max_model_len block_size row pos) (zip block_table positions);
  Ok (mkInputs input_ids clamped ((fun c => c + 1) <$> clamped) slots (Z.min (max_seq_len + 1) max_model_len)).

(** [_save_hidden_states_and_sample] at one depth. *)
Definition save_at {X} (depth : nat) (rows : list (list X)) (xs : list X) : list (list X) :=
  zip_with (fun row x => <[depth := x]> row) rows xs ++ drop (length xs) rows.

Definition save_hidden_states_and_sample (sampler : list (list A) -> list Z) (depth : nat) (hidden : list (list A))
    (p : SparseAttnProposer) : SparseAttnProposer :=
  mkProposer (prev_req_id_to_index p) (need_batch_reorder p) (batch_reorder_mapping p) (mapping_gpu p)
    (save_at depth (draft_hidden_states p) hidden) (save_at depth (sampled_ids p) (sampler hidden)).

Context (model : draft_inputs -> list (list A)) (sampler : list (list A) -> list Z).
Context (max_model_len block_size : Z).

(** One iteration of the draft loop: the state is the proposer, the positions the
    runner's buffer holds and the running maximum length. *)
Definition propose_step (batch_size : nat) (block_table : list (list Z))
    (s : list draft_inputs * SparseAttnProposer * list Z * Z) (step : nat) :
    result (list draft_inputs * SparseAttnProposer * list Z * Z) :=
  let '(ins, p, positions, max_seq_len) := s in
  input_ids ← mapR (fun row => of_option IndexError (row !! (step - 1)%nat)) (take batch_size (sampled_ids p));
  di ← step_inputs max_model_len block_size block_table input_ids ((fun x => x + 1) <$> positions) max_seq_len;
  let p := save_hidden_states_and_sample sampler step (model di) p in
  Ok (ins ++ [di], p, di_positions di, di_max_seq_len di).

(** [propose]; the first component records what the model was run on. *)
Definition propose (num_speculative_tokens : nat) (next_token_ids : list Z) (seq_lens : list Z)
    (num_rejected_tokens : option (list Z)) (max_seq_len : Z) (block_table : list (list Z)) (p : SparseAttnProposer) :
    result (list draft_inputs * list (list Z) * SparseAttnProposer) :=
  let batch_size := length seq_lens in
  let positions := match num_rejected_tokens with
                   | Some rejected => zip_with Z.sub seq_lens rejected
                   | None => seq_lens
                   end in
  di ← step_inputs max_model_len block_size block_table next_token_ids positions max_seq_len;
  let p := save_hidden_states_and_sample sampler 0 (model di) p in
  if (num_speculative_tokens =? 1)%nat then Ok ([di], take batch_size (sampled_ids p), p) else
  '(ins, p, _, _) ← foldM (propose_step batch_size block_table) (seq 1 (num_speculative_tokens - 1))
                      ([di], p, di_positions di, di_max_seq_len di);
  Ok (ins, take batch_size (sampled_ids p), p).
End Proposer.
Arguments SparseAttnProposer : clear implicits.

(** * The draft steps *)
Section SaveAt.
Context {X : Type}.

(** At least [batch] rows of [gamma] entries each. *)
Definition rows_ok (batch gamma : nat) (rows : list (list X)) : Prop :=
  (batch <= length rows)%nat /\ Forall (fun row => length row = gamma) rows.

Lemma save_at_ok batch gamma depth rows xs :
  rows_ok batch gamma rows -> length xs = batch -> (depth < gamma)%nat ->
  rows_ok batch gamma (save_at depth rows xs) /\
  forall b s, (b < batch)%nat -> cell_get (K := nat * nat) (b, s) (save_at depth rows xs)
    = if decide (s = depth) then xs !! b else cell_get (K := nat * nat) (b, s) rows.
Proof.
  intros [Hl Hf] Hx Hd. unfold save_at. split.
  - split; [rewrite length_app, length_zip_with, length_drop; lia|]. apply Forall_app. split; [|by apply Forall_drop].
    apply Forall_lookup_2. intros b row Eb. rewrite lookup_zip_with in Eb. apply bind_Some in Eb as (r & Er & Eb).
    apply bind_Some in Eb as (x & _ & [= <-]). rewrite length_insert. apply (Forall_lookup_1 _ _ _ _ Hf Er).
  - intros b s Hb. cbn. rewrite lookup_app_l by (rewrite length_zip_with; lia). rewrite lookup_zip_with.
    destruct (lookup_lt_is_Some_2 rows b) as [row Er]; [lia|]. destruct (lookup_lt_is_Some_2 xs b) as [x Ex]; [lia|].
    rewrite Er, Ex. cbn. pose proof (Forall_lookup_1 _ _ _ _ Hf Er) as Hlr. cbn in Hlr.
    destruct (decide (s = depth)) as [->|Hne]; [by rewrite list_lookup_insert_eq by lia|by rewrite list_lookup_insert_ne].
Qed.
End SaveAt.

(** Running a step on positions below the maximum length. *)
Lemma step_inputs_ok max_model_len block_size block_table input_ids positions max_seq_len :
  0 < block_size -> length block_table = length positions ->
  (forall b row pos, block_table !! b = Some row -> positions !! b = Some pos ->
     0 <= pos < max_model_len /\ has_page row block_size pos) ->
  step_inputs max_model_len block_size block_table input_ids positions max_seq_len
  = Ok (mkInputs input_ids positions ((fun x => x + 1) <$> positions)
          (zip_with (fun row pos => pos_slot row block_size pos) block_table positions) (Z.min (max_seq_len + 1) max_model_len)).
Proof.
  intros Hb Hl Hpos. unfold step_inputs.
  assert (Hc : clamp_position max_model_len <$> positions = positions).
  { apply list_eq. intros b. rewrite list_lookup_fmap. destruct (positions !! b) as [pos|] eqn:Ep; [|done]. cbn.
    destruct (lookup_lt_is_Some_2 block_table b) as [row Er]; [apply lookup_lt_Some in Ep; lia|].
    destruct (Hpos b row pos Er Ep) as [Hp _]. unfold clamp_position. by rewrite (proj2 (Z.leb_gt _ _)) by lia. }
  rewrite Hc. rewrite (mapR_pure _ (fun '(row, pos) => pos_slot row block_size pos)).
  - cbn [mbind result_bind]. by rewrite (zip_with_zip (fun row pos => pos_slot row block_size pos)).
  - intros [row pos] Hin. apply list_elem_of_lookup_1 in Hin as (b & Eb). rewrite lookup_zip_with in Eb.
    apply bind_Some in Eb as (r & Er & Eb). apply bind_Some in Eb as (q & Eq & [= -> ->]).
    destruct (Hpos b row pos Er Eq) as [Hp Hpage]. unfold step_slot, clamp_position.
    rewrite (proj2 (Z.leb_gt _ _)) by lia. rewrite (load_page row block_size Hb pos Hpage). done.
Qed.

Section Draft.
Context {A : Type} (model : draft_inputs -> list (list A)) (sampler : list (list A) -> list Z).
Context (max_model_len block_size : Z) (gamma : nat) (next_token_ids pos0 : list Z) (max_seq_len : Z) (block_table : list (list Z)).
Let batch := length pos0.
Context (Hmodel : forall di, length (model di) = batch) (Hsampler : forall h, length (sampler h) = length h).
Context (Hbs : 0 < block_size) (Hbt : length block_table = batch).
Context (Hpos : forall b row pos, block_table !! b = Some row -> pos0 !! b = Some pos ->
  0 <= pos /\ pos + Z.of_nat gamma <= max_model_len /\ forall q, 0 <= q < pos + Z.of_nat gamma -> has_page row block_size q).

(** The inputs of draft step [s] after the tokens [ids]: every request is one
    token further, its lengths include the new token, its slot is the paged slot
    of its position. *)
Definition expected (s : nat) (ids : list Z) : draft_inputs :=
  mkInputs ids ((fun x => x + Z.of_nat s) <$> pos0) ((fun x => x + Z.of_nat s + 1) <$> pos0)
    (zip_with (fun row pos => pos_slot row block_size (pos + Z.of_nat s)) block_table pos0)
    (Z.min (max_seq_len + Z.of_nat s + 1) max_model_len).

(** The inputs of all steps: every sampled token is fed back. *)
Fixpoint chain (s : nat) : draft_inputs :=
  match s with
  | O => expected 0 next_token_ids
  | S s => expected (S s) (sampler (model (chain s)))
  end.

Lemma chain_positions s : di_positions (chain s) = (fun x => x + Z.of_nat s) <$> pos0.
Proof using. by destruct s. Qed.

Lemma chain_max s : di_max_seq_len (chain s) = Z.min (max_seq_len + Z.of_nat s + 1) max_model_len.
Proof using. by destruct s. Qed.

Lemma step_expected s ids m :
  (s < gamma)%nat -> Z.min (m + 1) max_model_len = Z.min (max_seq_len + Z.of_nat s + 1) max_model_len ->
  step_inputs max_model_len block_size block_table ids ((fun x => x + Z.of_nat s) <$> pos0) m = Ok (expected s ids).
Proof using Hbs Hbt Hpos.
  intros Hs Hm. rewrite step_inputs_ok; [|done|by rewrite length_fmap|].
  - unfold expected. rewrite Hm, <- list_fmap_compose, zip_with_fmap_r. done.
  - intros b row pos Er Ep. rewrite list_lookup_fmap in Ep. apply fmap_Some in Ep as (x & Ex & ->).
    destruct (Hpos b row x Er Ex) as (H1 & H2 & H3). split; [lia|]. apply H3. lia.
Qed.

(** The proposer holds the results of the first [k] steps. *)
Record saved (k : nat) (p : SparseAttnProposer A) : Prop := {
  sv_tokens : rows_ok batch gamma (sampled_ids p);
  sv_hidden : rows_ok batch gamma (draft_hidden_states p);
  sv_tok s b : (s < k)%nat -> (b < batch)%nat -> cell_get (K := nat * nat) (b, s) (sampled_ids p) = sampler (model (chain s)) !! b;
  sv_hid s b : (s < k)%nat -> (b < batch)%nat -> cell_get (K := nat * nat) (b, s) (draft_hidden_states p) = model (chain s) !! b;
}.

Lemma save_step k p :
  saved k p -> (k < gamma)%nat -> saved (S k) (save_hidden_states_and_sample sampler k (model (chain k)) p).
Proof using Hmodel Hsampler.
  clear Hbt Hpos Hbs. intros [H1 H2 H3 H4] Hk.
  destruct (save_at_ok batch gamma k (sampled_ids p) (sampler (model (chain k))) H1 ltac:(by rewrite Hsampler) Hk) as [G1 G2].
  destruct (save_at_ok batch gamma k (draft_hidden_states p) (model (chain k)) H2 (Hmodel _) Hk) as [G3 G4].
  split; cbn [save_hidden_states_and_sample sampled_ids draft_hidden_states]; [done|done|..]; intros s b Hs Hb.
  - rewrite G2 by done. destruct (decide (s = k)) as [->|]; [done|]. apply H3; [lia|done].
  - rewrite G4 by done. destruct (decide (s = k)) as [->|]; [done|]. apply H4; [lia|done].
Qed.

(** The tokens fed back are those of the previous step. *)
Lemma fed_back k p :
  saved (S k) p -> mapR (fun row => of_option IndexError (row !! k)) (take batch (sampled_ids p)) = Ok (sampler (model (chain k))).
Proof using Hmodel Hsampler.
  clear Hbt Hpos Hbs. intros [[Hl Hf] _ H3 _]. apply mapR_Ok. apply Forall2_same_length_lookup. split.
  - rewrite length_take, Hsampler, Hmodel. lia.
  - intros b row tok Er Et. apply lookup_take_Some in Er as [Er Hb]. specialize (H3 k b ltac:(lia) Hb). cbn in H3.
    rewrite Er in H3. cbn in H3. by rewrite H3, Et.
Qed.

(** The loop after the first step. *)
Lemma proposer_loop_ok p :
  saved 1 p -> (1 <= gamma)%nat ->
  exists p', foldM (propose_step model sampler max_model_len block_size batch block_table) (seq 1 (gamma - 1))
      ([chain 0], p, di_positions (chain 0), di_max_seq_len (chain 0))
    = Ok (chain <$> seq 0 gamma, p', di_positions (chain (gamma - 1)), di_max_seq_len (chain (gamma - 1))) /\ saved gamma p'.
Proof using Hmodel Hsampler Hbs Hbt Hpos.
  intros Hp Hg.
  destruct (foldM_inv (propose_step model sampler max_model_len block_size batch block_table)
    (fun pre s => exists p', s = (chain <$> seq 0 (S (length pre)), p', di_positions (chain (length pre)), di_max_seq_len (chain (length pre)))
       /\ saved (S (length pre)) p')
    (seq 1 (gamma - 1)) ([chain 0], p, di_positions (chain 0), di_max_seq_len (chain 0))) as (s & E & p' & -> & Hp').
  - exists p. done.
  - intros pre k post s Eq (p1 & -> & Hp1).
    assert (k = S (length pre) /\ (S (length pre) < gamma)%nat) as [-> Hk].
    { assert (Hx : seq 1 (gamma - 1) !! length pre = Some k) by (rewrite Eq, lookup_app_r, Nat.sub_diag by lia; done).
      apply lookup_seq in Hx. lia. }
    unfold propose_step. replace (S (length pre) - 1)%nat with (length pre) by lia.
    rewrite fed_back by done. cbn [mbind result_bind]. rewrite chain_positions, chain_max, <- list_fmap_compose.
    assert (Hsh : (fun x => x + 1) ∘ (fun x => x + Z.of_nat (length pre)) <$> pos0 = (fun x => x + Z.of_nat (S (length pre))) <$> pos0)
      by (apply list_fmap_ext; intros ? x _; unfold compose; lia).
    rewrite Hsh, step_expected by lia. cbn [mbind result_bind].
    eexists. split; [reflexivity|]. rewrite length_app. cbn [length]. rewrite Nat.add_1_r. eexists. split.
    + rewrite (seq_S (S (length pre))), fmap_app. reflexivity.
    + by apply (save_step (S (length pre))).
  - rewrite length_seq in Hp', E. exists p'. replace (S (gamma - 1)) with gamma in * by lia. done.
Qed.
End Draft.

(** The position of each request's first draft token. *)
Definition first_positions (seq_lens : list Z) (rejected : option (list Z)) : list Z :=
  match rejected with Some r => zip_with Z.sub seq_lens r | None => seq_lens end.

(** C27: the draft loop.  When every request has room for all draft tokens (which
    the runner checks before it calls the drafter), [propose] returns without an
    exception; step [s] runs the model on every request's previous token at
    position [seq_len - rejected + s], with the length that includes it and the
    paged slot of exactly that position, never a padding slot; the tokens it
    returns are the sampled tokens of every step, and the buffers hold the hidden
    states they were sampled from. *)
Theorem draft_loop_correct {A} model sampler max_model_len block_size gamma next_token_ids seq_lens rejected max_seq_len
    block_table (p : SparseAttnProposer A) :
  let pos0 := first_positions seq_lens rejected in
  let steps := chain model sampler max_model_len block_size next_token_ids pos0 max_seq_len block_table in
  length pos0 = length seq_lens ->
  (forall di, length (model di) = length pos0) -> (forall h, length (sampler h) = length h) ->
  0 < block_size -> length block_table = length pos0 -> (1 <= gamma)%nat ->
  (forall b row pos, block_table !! b = Some row -> pos0 !! b = Some pos ->
     0 <= pos /\ pos + Z.of_nat gamma <= max_model_len /\ forall q, 0 <= q < pos + Z.of_nat gamma -> has_page row block_size q) ->
  rows_ok (length pos0) gamma (sampled_ids p) -> rows_ok (length pos0) gamma (draft_hidden_states p) ->
  exists toks p', propose model sampler max_model_len block_size gamma next_token_ids seq_lens rejected max_seq_len block_table p
      = Ok (steps <$> seq 0 gamma, toks, p') /\
    length toks = length seq_lens /\
    (forall b s, (b < length seq_lens)%nat -> (s < gamma)%nat ->
       cell_get (K := nat * nat) (b, s) toks = sampler (model (steps s)) !! b /\
       cell_get (K := nat * nat) (b, s) (draft_hidden_states p') = model (steps s) !! b).
Proof.
  intros pos0 steps Hlen Hmodel Hsampler Hbs Hbt Hg Hpos Ht Hh. unfold propose. cbv zeta. fold (first_positions seq_lens rejected). fold pos0.
  assert (Hp0 : pos0 = (fun x => x + Z.of_nat 0) <$> pos0).
  { symmetry. rewrite (list_fmap_ext _ id) by (intros; cbn; lia). apply list_fmap_id. }
  pose proof (step_expected max_model_len block_size gamma pos0 max_seq_len block_table Hbs Hbt Hpos 0 next_token_ids max_seq_len
    ltac:(lia) ltac:(f_equal; lia)) as E0.
  rewrite <- Hp0 in E0. rewrite E0. cbn [mbind result_bind]. change (expected _ _ _ _ _ 0 next_token_ids) with (steps 0%nat).
  assert (Hs0 : saved model sampler max_model_len block_size gamma next_token_ids pos0 max_seq_len block_table 0 p).
  { split; [done|done|intros; lia..]. }
  pose proof (save_step model sampler max_model_len block_size gamma next_token_ids pos0 max_seq_len block_table Hmodel Hsampler 0 p Hs0 ltac:(lia)) as Hs1.
  assert (Hend : exists p', (if (gamma =? 1)%nat then Ok ([steps 0%nat], take (length seq_lens) (sampled_ids (save_hidden_states_and_sample sampler 0 (model (steps 0%nat)) p)),
         save_hidden_states_and_sample sampler 0 (model (steps 0%nat)) p)
      else '(ins, p0, _, _) ← foldM (propose_step model sampler max_model_len block_size (length seq_lens) block_table) (seq 1 (gamma - 1))
           ([steps 0%nat], save_hidden_states_and_sample sampler 0 (model (steps 0%nat)) p, di_positions (steps 0%nat), di_max_seq_len (steps 0%nat));
           Ok (ins, take (length seq_lens) (sampled_ids p0), p0)) = Ok (steps <$> seq 0 gamma, take (length seq_lens) (sampled_ids p'), p')
      /\ saved model sampler max_model_len block_size gamma next_token_ids pos0 max_seq_len block_table gamma p').
  { destruct (Nat.eqb_spec gamma 1) as [->|Hne]; [by eexists|].
    destruct (proposer_loop_ok model sampler max_model_len block_size gamma next_token_ids pos0 max_seq_len block_table Hmodel Hsampler Hbs Hbt Hpos
      _ Hs1 Hg) as (p' & E & Hp'). rewrite Hlen in E. fold steps in E. rewrite E. cbn [mbind result_bind]. by exists p'. }
  destruct Hend as (p' & E & [[T1 T2] _ T3 T4]). exists (take (length seq_lens) (sampled_ids p')), p'. split; [exact E|].
  split; [rewrite length_take; lia|]. intros b s Hb Hs. split; [|apply T4; lia].
  rewrite <- T3 by lia. cbn. by rewrite lookup_take_lt.
Qed.

(** ** The runner's check *)

(** [input_fits_in_drafter] of the model runner. *)
Definition input_fits_in_drafter (max_seq_len num_spec_tokens drafter_max_model_len : Z) : bool :=
  max_seq_len + num_spec_tokens <=? drafter_max_model_len.

(** When the check passes, every request has room for all draft tokens. *)
Lemma fits_has_room max_seq_len max_model_len gamma seq_lens rejected b pos :
  input_fits_in_drafter max_seq_len (Z.of_nat gamma) max_model_len = true ->
  Forall (fun n => n <= max_seq_len) seq_lens -> (forall r, rejected = Some r -> Forall (Z.le 0) r) ->
  first_positions seq_lens rejected !! b = Some pos -> pos + Z.of_nat gamma <= max_model_len.
Proof.
  unfold input_fits_in_drafter. intros Hf%Z.leb_le Hs Hr Hb. destruct rejected as [r|]; cbn in Hb.
  - rewrite lookup_zip_with in Hb. apply bind_Some in Hb as (n & En & Hb). apply bind_Some in Hb as (x & Ex & [= <-]).
    pose proof (Forall_lookup_1 _ _ _ _ Hs En). pose proof (Forall_lookup_1 _ _ _ _ (Hr r eq_refl) Ex). cbn in *. lia.
  - pose proof (Forall_lookup_1 _ _ _ _ Hs Hb). cbn in *. lia.
Qed.

(** ** Past the maximum length *)
Lemma step_inputs_one max_model_len block_size row ids pos m :
  0 < block_size -> has_page row block_size (clamp_position max_model_len pos) ->
  step_inputs max_model_len block_size [row] ids [pos] m
  = Ok (mkInputs ids [clamp_position max_model_len pos] [clamp_position max_model_len pos + 1]
          [if max_model_len <=? pos then PADDING_SLOT_ID else pos_slot row block_size pos] (Z.min (m + 1) max_model_len)).
Proof.
  intros Hb Hp. unfold step_inputs, step_slot. cbn [zip zip_with mapR mbind result_bind].
  rewrite (load_page row block_size Hb _ Hp). cbn [mbind result_bind fmap list_fmap]. unfold pos_slot, clamp_position.
  by destruct (max_model_len <=? pos).
Qed.

Lemma save_at_one {X} depth (row : list X) rest x : save_at depth (row :: rest) [x] = <[depth := x]> row :: rest.
Proof. by destruct rest. Qed.

(** Without the runner's check the masking of long requests does not last.  A
    request that reaches the maximum length during the draft is masked for one
    step only: its position was reset to 0 in the buffer the next step increments,
    so the step after runs at position 1 and writes the KV of a draft token into
    the slot of the request's second token. *)
Theorem draft_past_max_overwrites {A} (hidden : draft_inputs -> list A) (token : list A -> Z) max_model_len block_size row m x0 x1 x2 h0 h1 h2
    (p : SparseAttnProposer A) :
  2 <= max_model_len -> 0 < block_size -> (forall pos, 0 <= pos < max_model_len -> has_page row block_size pos) ->
  sampled_ids p = [[x0; x1; x2]] -> draft_hidden_states p = [[h0; h1; h2]] ->
  exists ins toks p',
    propose (fun di => [hidden di]) (fmap token) max_model_len block_size 3 [x0] [max_model_len - 1] None m [row] p = Ok (ins, toks, p') /\
    (di_slot_mapping <$> ins) = [[pos_slot row block_size (max_model_len - 1)]; [PADDING_SLOT_ID]; [pos_slot row block_size 1]].
Proof.
  intros Hm Hb Hp Hs Hh. unfold propose. cbv zeta. cbn [length].
  assert (Hc : forall pos, 0 <= pos -> has_page row block_size (clamp_position max_model_len pos)).
  { intros pos H0. apply Hp. unfold clamp_position. destruct (Z.leb_spec max_model_len pos); lia. }
  assert (C0 : clamp_position max_model_len (max_model_len - 1) = max_model_len - 1)
    by (unfold clamp_position; by rewrite (proj2 (Z.leb_gt _ _)) by lia).
  assert (C1 : clamp_position max_model_len (max_model_len - 1 + 1) = 0)
    by (unfold clamp_position; by rewrite (proj2 (Z.leb_le _ _)) by lia).
  destruct p as [pr nb mp mg dh sm]. cbn [sampled_ids draft_hidden_states] in Hs, Hh. subst dh sm.
  rewrite step_inputs_one by (done || (apply Hc; lia)). rewrite C0.
  cbn -[step_inputs]. rewrite step_inputs_one by (done || (apply Hc; lia)). rewrite C1.
  cbn -[step_inputs]. rewrite step_inputs_one by (done || (apply Hc; lia)).
  eexists _, _, _. split; [reflexivity|]. cbn [fmap list_fmap di_slot_mapping app].
  by rewrite (proj2 (Z.leb_gt _ (max_model_len - 1))), (proj2 (Z.leb_le _ (max_model_len - 1 + 1))), (proj2 (Z.leb_gt _ (0 + 1))) by lia.
Qed.

(** * The kept hidden states *)

(** A list cut into pieces of given lengths. *)
Fixpoint cut {X} (ns : list Z) (l : list X) : list (list X) :=
  match ns with [] => [] | n :: ns => take (Z.to_nat n) l :: cut ns (drop (Z.to_nat n) l) end.

Lemma cut_ok {X} ns (l : list X) :
  Forall (Z.le 0) ns -> py_len l = sumZ ns -> concat (cut ns l) = l /\ ((fun x => Z.of_nat (length x)) <$> cut ns l) = ns.
Proof.
  revert l. induction ns as [|n ns IH]; intros l Hn Hl.
  - cbn in *. split; [|done]. symmetry. apply nil_length_inv. unfold py_len in Hl. lia.
  - apply Forall_cons in Hn as [H0 Hn]. rewrite sumZ_cons in Hl. pose proof (sumZ_nonneg ns Hn). unfold py_len in Hl.
    destruct (IH (drop (Z.to_nat n) l) Hn) as [E1 E2]; [unfold py_len; rewrite length_drop; lia|].
    cbn [cut concat]. rewrite fmap_cons, E1, E2, take_drop, length_take. split; [done|]. f_equal. lia.
Qed.

(** All counts are at their maximum when their sum is. *)
Lemma sumZ_full ns g : Forall (fun n => 0 <= n <= g) ns -> sumZ ns = Z.of_nat (length ns) * g -> Forall (eq g) ns.
Proof.
  induction 1 as [|n ns Hn Hf IH]; [done|]. rewrite sumZ_cons. cbn [length]. intros Hs.
  assert (Hle : sumZ ns <= Z.of_nat (length ns) * g).
  { clear -Hf. induction Hf as [|m ms Hm _ IH']; [cbn; lia|]. rewrite sumZ_cons. cbn [length]. lia. }
  constructor; [lia|]. apply IH. lia.
Qed.

Lemma sumZ_zero ns : Forall (Z.le 0) ns -> sumZ ns = 0 -> Forall (eq 0) ns.
Proof.
  induction 1 as [|n ns Hn Hf IH]; [done|]. rewrite sumZ_cons. intros Hs. pose proof (sumZ_nonneg ns Hf).
  constructor; [lia|]. apply IH. lia.
Qed.

Section Hidden.
Context {A : Type} (p : SparseAttnProposer A) (items : list (string * nat)) (gamma batch : nat) (row_of : nat -> nat).

(** The new batch: [batch] requests at the indices [0 .. batch - 1]; [row_of i] is
    the row the request at index [i] had when the drafts were made. *)
Record new_batch : Prop := {
  nb_ids : NoDup items.*1;
  nb_indices i : (i < batch)%nat <-> exists r, (r, i) ∈ items;
  nb_rows r i : (r, i) ∈ items ->
    row_of i = match prev_req_id_to_index p with Some prev => default i (prev !! r) | None => i end;
  nb_bounds i : (i < batch)%nat -> (row_of i < length (draft_hidden_states p))%nat;
  nb_size : (batch <= length (draft_hidden_states p))%nat /\ length (batch_reorder_mapping p) = length (draft_hidden_states p);
  nb_states : Forall (fun row => length row = gamma) (draft_hidden_states p);
}.

Context (Hb : new_batch).

(** The mapping the loop builds. *)
Lemma mapping_ok prev :
  prev_req_id_to_index p = Some prev ->
  exists mapping, foldM (map_request prev) items (batch_reorder_mapping p) = Ok mapping /\
    length mapping = length (batch_reorder_mapping p) /\ forall i, (i < batch)%nat -> mapping !! i = Some (Z.of_nat (row_of i)).
Proof using Hb.
  intros Hprev. destruct (nb_size Hb) as [Hsz Hml].
  destruct (foldM_inv (map_request prev)
    (fun pre m => length m = length (batch_reorder_mapping p) /\ forall r i, (r, i) ∈ pre -> m !! i = Some (Z.of_nat (row_of i)))
    items (batch_reorder_mapping p)) as (m & E & Hlen & Hm).
  - split; [done|]. by intros r i ?%elem_of_nil.
  - intros pre [r i] post m Eq [Hlen Hm]. assert (Hin : (r, i) ∈ items) by (rewrite Eq; set_solver).
    assert (Hi : (i < batch)%nat) by (apply (nb_indices Hb); by exists r).
    unfold map_request. rewrite store_ok by (unfold py_len; lia). eexists. split; [reflexivity|]. rewrite Nat2Z.id.
    split; [by rewrite length_insert|]. intros r' i' Hin'. destruct (decide (i' = i)) as [->|Hne].
    + rewrite list_lookup_insert_eq by lia. rewrite (nb_rows Hb r i Hin), Hprev. by destruct (prev !! r).
    + rewrite list_lookup_insert_ne by done. apply elem_of_app in Hin' as [Hin'|[= -> ->]%list_elem_of_singleton]; [by apply (Hm r')|done].
  - exists m. split; [done|]. split; [done|]. intros i Hi. apply (nb_indices Hb) in Hi as [r Hr]. by apply (Hm r).
Qed.

(** The order is unchanged: every request keeps its row. *)
Lemma same_order prev i : prev_req_id_to_index p = Some prev -> list_to_map items = prev -> (i < batch)%nat -> row_of i = i.
Proof using Hb.
  intros Hprev Heq Hi. apply (nb_indices Hb) in Hi as [r Hr]. rewrite (nb_rows Hb r i Hr), Hprev, <- Heq.
  by rewrite (elem_of_list_to_map_1 _ r i (nb_ids Hb) Hr).
Qed.

(** What the order update leaves for [get_draft_probs]. *)
Lemma update_batch_order_ok :
  exists p', update_batch_order items p = Ok p' /\ draft_hidden_states p' = draft_hidden_states p /\
    prev_req_id_to_index p' = Some (list_to_map items) /\
    if need_batch_reorder p' then forall i, (i < batch)%nat -> mapping_gpu p' !! i = Some (Z.of_nat (row_of i))
    else forall i, (i < batch)%nat -> row_of i = i.
Proof using Hb.
  unfold update_batch_order. destruct (prev_req_id_to_index p) as [prev|] eqn:Hprev.
  - case_bool_decide as Heq.
    + eexists. split; [reflexivity|]. split; [done|]. split; [done|]. cbn. intros i Hi. by apply (same_order prev).
    + destruct (mapping_ok prev Hprev) as (m & -> & _ & Hm). cbn [mbind result_bind]. eexists. split; [reflexivity|]. done.
  - eexists. split; [reflexivity|]. split; [done|]. split; [done|]. cbn. intros i Hi. apply (nb_indices Hb) in Hi as [r Hr].
    by rewrite (nb_rows Hb r i Hr), Hprev.
Qed.

(** The states verification must see for the request at index [i]: the first
    [num_draft] states of the row they were drafted in. *)
Definition kept_states (nums : list Z) (hidden : list (list (list A))) (i : nat) : list (list A) :=
  take (Z.to_nat (nums !!! i)) (hidden !!! row_of i).

(** The rows of the buffer that [get_draft_hidden] reads. *)
Lemma row_states i : (i < batch)%nat ->
  draft_hidden_states p !! row_of i = Some (draft_hidden_states p !!! row_of i) /\
  length (draft_hidden_states p !!! row_of i) = gamma.
Proof using Hb.
  intros Hi. pose proof (list_lookup_lookup_total_lt (draft_hidden_states p) (row_of i) (nb_bounds Hb i Hi)) as E.
  split; [done|]. apply (Forall_lookup_1 _ _ _ _ (nb_states Hb) E).
Qed.

Context (num_draft : list Z) (fresh : list (list A)) (order : list (nat * nat)) (arange : list Z).
Context (Hnd : length num_draft = batch) (Hcount : Forall (fun n => 0 <= n <= Z.of_nat gamma) num_draft).
Context (Hfresh : py_len fresh = sumZ num_draft).
Context (Horder : order ≡ₚ list_prod (seq 0 batch) (seq 0 gamma)).

Lemma count_at i : (i < batch)%nat -> num_draft !! i = Some (num_draft !!! i) /\ 0 <= num_draft !!! i <= Z.of_nat gamma.
Proof using Hcount Hnd.
  clear Hb Hfresh Horder. intros Hi. assert (E : num_draft !! i = Some (num_draft !!! i)) by (apply list_lookup_lookup_total_lt; lia).
  split; [done|]. exact (Forall_lookup_1 _ _ _ _ Hcount E).
Qed.

(** Every request drafted all tokens and none moved: the buffer's rows are the
    states themselves. *)
Lemma kept_full :
  (forall i, (i < batch)%nat -> row_of i = i) -> Forall (eq (Z.of_nat gamma)) num_draft ->
  take batch (draft_hidden_states p) = table (kept_states num_draft (draft_hidden_states p)) batch.
Proof using Hb Hcount Hnd.
  clear Hfresh Horder. intros Hrow Hall. apply list_eq. intros i. destruct (decide (i < batch)%nat) as [Hi|Hi].
  - rewrite lookup_take_lt, lookup_table by done. unfold kept_states.
    pose proof (row_states i Hi) as [E Hl]. rewrite (Hrow i Hi) in *.
    destruct (count_at i Hi) as [Ec _]. pose proof (Forall_lookup_1 _ _ _ _ Hall Ec) as Hc. cbn in Hc.
    rewrite <- Hc, Nat2Z.id, take_ge by lia. done.
  - rewrite lookup_take_ge by lia. symmetry. apply lookup_ge_None. rewrite length_table. lia.
Qed.

(** The gather returns the kept states for a mapping that names every row. *)
Lemma gather_kept mapping :
  (forall i, (i < batch)%nat -> mapping !! i = Some (Z.of_nat (row_of i))) ->
  gather_cuda (draft_hidden_states p) (cumsum num_draft) (sumZ num_draft) (Z.of_nat batch) (Z.of_nat gamma) (Some mapping) fresh order
  = Ok (concat (table (kept_states num_draft (draft_hidden_states p)) batch)).
Proof using Hb Hnd Hcount Hfresh Horder.
  intros Hmap. assert (Hpos : Forall (Z.le 0) num_draft) by (eapply Forall_impl; [exact Hcount|]; cbn; lia).
  destruct (cut_ok num_draft fresh Hpos Hfresh) as [Ec El].
  assert (Hlc : length (cut num_draft fresh) = batch) by (rewrite <- Hnd; pose proof (f_equal length El) as Hf; by rewrite length_fmap in Hf).
  assert (Hseg : forall i s, cut num_draft fresh !! i = Some s -> (i < batch)%nat /\ Z.of_nat (length s) = num_draft !!! i).
  { intros i s Es. split; [rewrite <- Hlc; by eapply lookup_lt_Some|]. symmetry. apply list_lookup_total_correct.
    pose proof (f_equal (lookup i) El) as Hf. rewrite list_lookup_fmap, Es in Hf. by rewrite <- Hf. }
  destruct (decide (sumZ num_draft = 0)) as [Hz|Hz].
  - assert (fresh = []) as -> by (apply nil_length_inv; unfold py_len in Hfresh; lia).
    unfold gather_cuda. rewrite Hz, Z.eqb_refl. cbn [orb]. f_equal. symmetry. apply concat_nil_Forall, Forall_lookup_2.
    intros i x Hx. pose proof (lookup_lt_Some _ _ _ Hx) as Hi. rewrite length_table in Hi.
    rewrite lookup_table in Hx by done. injection Hx as <-. unfold kept_states.
    destruct (count_at i Hi) as [E _]. by rewrite <- (Forall_lookup_1 _ _ _ _ (sumZ_zero _ Hpos Hz) E).
  - pose proof (gather_hidden_ok (draft_hidden_states p) (cut num_draft fresh) (Some mapping) gamma) as HG.
    rewrite Ec, El in HG. rewrite Hfresh in HG. unfold py_len in HG. rewrite Hlc in HG. rewrite HG.
    + f_equal. f_equal. apply table_ext. intros i Hi. unfold gathered, kept_states, source. rewrite (Hmap i Hi). cbn [from_option id].
      rewrite Nat2Z.id. destruct (row_states i Hi) as [-> _]. cbn [from_option id].
      destruct (lookup_lt_is_Some_2 (cut num_draft fresh) i) as [s Es]; [lia|]. rewrite Es. cbn [from_option id].
      destruct (Hseg i s Es) as [_ <-]. by rewrite Nat2Z.id.
    + intros m [= <-] i Hi. rewrite Hmap by done. eexists. split; [done|]. lia.
    + intros i s Es. destruct (Hseg i s Es) as [Hi Hl]. unfold source. rewrite (Hmap i Hi). cbn [from_option id]. rewrite Nat2Z.id.
      destruct (row_states i Hi) as [-> Hg]. eexists. split; [done|]. destruct (count_at i Hi) as [_ Hc]. lia.
    + intros s [i Es]%list_elem_of_lookup_1. destruct (Hseg i s Es) as [Hi Hl]. destruct (count_at i Hi) as [_ Hc]. lia.
    + done.
    + intros ->. unfold py_len in Hfresh. cbn in Hfresh. lia.
Qed.
End Hidden.

(** C28: the draft states verification sees.  After any change of the batch order
    (requests finished, new ones arrived, indices permuted), [update_batch_order]
    succeeds and [get_draft_probs] computes its logits, request after request in
    the new order, from exactly the first [num_draft_tokens] hidden states of the
    row the request was drafted in: on the fast path, on the gather with the
    identity mapping, on the gather with the reorder mapping and when nothing was
    drafted, for every order of the gather's thread blocks. *)
Theorem draft_hidden_correct {A} (p : SparseAttnProposer A) items gamma batch row_of num_draft fresh order arange :
  new_batch p items gamma batch row_of ->
  length num_draft = batch -> Forall (fun n => 0 <= n <= Z.of_nat gamma) num_draft -> py_len fresh = sumZ num_draft ->
  order ≡ₚ list_prod (seq 0 batch) (seq 0 gamma) -> (forall i, (i < batch)%nat -> arange !! i = Some (Z.of_nat i)) ->
  exists p', update_batch_order items p = Ok p' /\ prev_req_id_to_index p' = Some (list_to_map items) /\
    get_draft_hidden gamma arange num_draft fresh order p'
    = Ok (concat (table (kept_states row_of num_draft (draft_hidden_states p)) batch)).
Proof.
  intros Hb Hnd Hcount Hfresh Horder Har.
  destruct (update_batch_order_ok p items gamma batch row_of Hb) as (p' & E & Hh & Hprev & Hm).
  exists p'. split; [done|]. split; [done|]. unfold get_draft_hidden. rewrite Hh, Hnd.
  destruct (need_batch_reorder p') eqn:Hr; cbn [negb andb].
  - apply (gather_kept p items gamma batch row_of Hb); [done..|]. intros i Hi. rewrite lookup_take_lt by done. by apply Hm.
  - destruct (Z.eqb_spec (Z.of_nat (batch * gamma)) (sumZ num_draft)) as [Hfull|_].
    + f_equal. f_equal. apply (kept_full p items gamma batch row_of Hb num_draft); [done..|].
      apply sumZ_full; [done|]. rewrite Hnd, <- Hfull. lia.
    + apply (gather_kept p items gamma batch row_of Hb); [done..|]. intros i Hi. rewrite lookup_take_lt by done.
      rewrite Har, Hm by done. done.
Qed.

Module ProposerExamples.
(** Two requests, two draft tokens, pages of two slots. *)
Definition demo_proposer : SparseAttnProposer Z :=
  mkProposer (Some {["a"%string := 0%nat; "b"%string := 1%nat]}) false [0; 0; 0] [0; 0; 0]
    [[[10]; [11]]; [[20]; [21]]; [[0]; [0]]] [[0; 0]; [0; 0]; [0; 0]].

Definition demo_model (di : draft_inputs) : list (list Z) := (fun b => [default 0 (di_positions di !! b)]) <$> seq 0 2.

Definition demo_sampler (h : list (list Z)) : list Z := (fun x => default 0 (x !! 0%nat) + 100) <$> h.

Lemma draft_loop_correct_witness :
  exists toks p', propose demo_model demo_sampler 8 2 2 [7; 9] [3; 5] (Some [1; 0]) 5 [[4; 6; 8; 9]; [1; 3; 5; 7]] demo_proposer
      = Ok ([mkInputs [7; 9] [2; 5] [3; 6] [12; 11] 6; mkInputs [102; 105] [3; 6] [4; 7] [13; 14] 7], toks, p') /\
    length toks = 2%nat.
Proof.
  destruct (draft_loop_correct demo_model demo_sampler 8 2 2 [7; 9] [3; 5] (Some [1; 0]) 5 [[4; 6; 8; 9]; [1; 3; 5; 7]] demo_proposer)
    as (toks & p' & E & Hl & _).
  - reflexivity.
  - reflexivity.
  - intros h. apply length_fmap.
  - lia.
  - reflexivity.
  - lia.
  - intros b row pos Er Ep. destruct b as [|[|b]]; cbn in Er, Ep; [injection Er as <-; injection Ep as <-..|done];
      (split; [lia|]; split; [lia|]; intros q Hq; split;
       [lia|apply Z.div_lt_upper_bound; unfold py_len; cbn [length]; lia]).
  - split; [cbn; lia|]. repeat constructor.
  - split; [cbn; lia|]. repeat constructor.
  - exists toks, p'. split; [exact E|exact Hl].
Defined.

Lemma draft_past_max_overwrites_witness :
  exists ins toks p',
    propose (fun di => [[1]]) (fmap (fun _ => 5)) 4 2 3 [0] [3] None 3 [[6; 7]]
      (mkProposer None false [0] [0] [[[0]; [0]; [0]]] [[0; 0; 0]]) = Ok (ins, toks, p') /\
    (di_slot_mapping <$> ins) = [[15]; [-1]; [13]].
Proof.
  exact (draft_past_max_overwrites (fun _ => [1]) (fun _ => 5) 4 2 [6; 7] 3 0 0 0 [0] [0] [0]
    (mkProposer None false [0] [0] [[[0]; [0]; [0]]] [[0; 0; 0]]) ltac:(lia) ltac:(lia)
    ltac:(intros q Hq; split; [lia|apply Z.div_lt_upper_bound; unfold py_len; cbn [length]; lia]) eq_refl eq_refl).
Defined.

(** Request [a] finished, [b] moved to the front and drafted one token, [c] is new. *)
Lemma draft_hidden_correct_witness :
  exists p', update_batch_order [("b"%string, 0%nat); ("c"%string, 1%nat)] demo_proposer = Ok p' /\
    prev_req_id_to_index p' = Some (list_to_map [("b"%string, 0%nat); ("c"%string, 1%nat)]) /\
    get_draft_hidden 2 [0; 1; 2; 3] [1; 0] [[0]] [(1, 1); (0, 1); (1, 0); (0, 0)]%nat p' = Ok [[20]].
Proof.
  apply (draft_hidden_correct demo_proposer [("b"%string, 0%nat); ("c"%string, 1%nat)] 2 2 (fun _ => 1%nat) [1; 0] [[0]]
    [(1, 1); (0, 1); (1, 0); (0, 0)]%nat [0; 1; 2; 3]).
  - split; cbn [demo_proposer prev_req_id_to_index draft_hidden_states batch_reorder_mapping].
    + apply (bool_decide_unpack _). vm_compute. exact I.
    + intros i. split.
      * intros Hi. destruct i as [|[|i]]; [exists "b"%string; left|exists "c"%string; right; left|lia].
      * intros [r Hr]. apply elem_of_cons in Hr as [[= -> ->]|Hr]; [lia|]. apply list_elem_of_singleton in Hr as [= -> ->]. lia.
    + intros r i Hr. apply elem_of_cons in Hr as [[= -> ->]|Hr]; [reflexivity|]. apply list_elem_of_singleton in Hr as [= -> ->]. reflexivity.
    + intros i Hi. cbn. lia.
    + split; [cbn; lia|reflexivity].
    + repeat constructor.
  - reflexivity.
  - repeat constructor; cbn; lia.
  - reflexivity.
  - apply (bool_decide_unpack _). vm_compute. exact I.
  - intros i Hi. destruct i as [|[|i]]; [reflexivity..|lia].
Defined.
End ProposerExamples.
