(* ===== verification/Heapq.v ===== *)
(** Binary heaps as [heapq] keeps them in a list: [heappush], [heappop] and
    [heapify], which the priority queue of
    [src/vllm/v1/core/sched/request_queue.py] is built on.

    The functions are those of the Python standard library, with the comparison
    as a parameter; the fuel of a sift is the length of the list, which bounds
    the depth of the walk. *)
From S2P Require Import Prelude.

Module Heap.
Section Heapq.
Context {A : Type} (lt : A -> A -> bool).

Definition get (heap : list A) (i : nat) : result A := of_option IndexError (heap !! i).

(** [_siftdown]: moves [newitem] up from [pos], at most to [startpos]. *)
Fixpoint siftdown (fuel startpos pos : nat) (newitem : A) (heap : list A) : result (list A) :=
  if (startpos <? pos)%nat then
    match fuel with
    | O => Err Diverges
    | S fuel =>
        let parentpos := ((pos - 1) / 2)%nat in
        parent ← get heap parentpos;
        if lt newitem parent then siftdown fuel startpos parentpos newitem (<[pos := parent]> heap)
        else Ok (<[pos := newitem]> heap)
    end
  else Ok (<[pos := newitem]> heap).

(** The loop of [_siftup]: the smaller child moves up until the hole is a leaf. *)
Fixpoint siftup_loop (fuel pos : nat) (heap : list A) : result (nat * list A) :=
  let childpos := (2 * pos + 1)%nat in
  if (childpos <? length heap)%nat then
    match fuel with
    | O => Err Diverges
    | S fuel =>
        left ← get heap childpos;
        childpos ← (if (S childpos <? length heap)%nat then
                      right ← get heap (S childpos);
                      Ok (if negb (lt left right) then S childpos else childpos)
                    else Ok childpos);
        child ← get heap childpos;
        siftup_loop fuel childpos (<[pos := child]> heap)
    end
  else Ok (pos, heap).

Definition siftup (startpos : nat) (heap : list A) : result (list A) :=
  newitem ← get heap startpos;
  '(pos, heap) ← siftup_loop (length heap) startpos heap;
  siftdown (length heap) startpos pos newitem (<[pos := newitem]> heap).

Definition heappush (item : A) (heap : list A) : result (list A) :=
  siftdown (S (length heap)) 0 (length heap) item (heap ++ [item]).

Definition heappop (heap : list A) : result (A * list A) :=
  match last heap with
  | None => Err IndexError
  | Some lastelt =>
      let heap := removelast heap in
      match heap with
      | [] => Ok (lastelt, [])
      | returnitem :: _ => heap ← siftup 0 (<[0 := lastelt]> heap); Ok (returnitem, heap)
      end
  end.

Definition heapify (x : list A) : result (list A) :=
  foldM (fun x i => siftup i x) (reverse (seq 0 (length x / 2))) x.

(** * The heap order *)
Definition le (x y : A) : Prop := lt y x = false.

Context (le_trans : forall x y z, le x y -> le y z -> le x z) (lt_le : forall x y, lt x y = true -> le x y).

Lemma le_refl x : le x x.
Proof using lt_le.
  unfold le. destruct (lt x x) eqn:E; [|done]. pose proof (lt_le _ _ E) as H. unfold le in H. congruence.
Qed.

Definition edge (p c : nat) : Prop := c = (2 * p + 1)%nat \/ c = (2 * p + 2)%nat.

(** The heap order below position [s]. *)
Definition heap_from (s : nat) (l : list A) : Prop :=
  forall p c x y, (s <= p)%nat -> edge p c -> l !! p = Some x -> l !! c = Some y -> le x y.

Inductive below (s : nat) : nat -> Prop :=
| below_here : below s s
| below_child p c : below s p -> edge p c -> below s c.

Lemma edge_parent p c : edge p c -> ((c - 1) / 2)%nat = p.
Proof using.
  intros [-> | ->].
  - replace (2 * p + 1 - 1)%nat with (p * 2)%nat by lia. by apply Nat.div_mul.
  - replace (2 * p + 2 - 1)%nat with (1 + p * 2)%nat by lia. by rewrite Nat.div_add.
Qed.

Lemma parent_edge c : (0 < c)%nat -> edge ((c - 1) / 2) c.
Proof using.
  intros Hc. pose proof (Nat.div_mod (c - 1) 2 ltac:(lia)). pose proof (Nat.mod_upper_bound (c - 1) 2 ltac:(lia)).
  unfold edge. lia.
Qed.

Lemma below_ge s i : below s i -> (s <= i)%nat.
Proof using. induction 1 as [|p c _ IH [-> | ->]]; lia. Qed.

Lemma below_parent s i : below s i -> (s < i)%nat -> below s ((i - 1) / 2).
Proof using. intros Hb Hi. inversion Hb as [|p c Hp He]; subst; [lia|]. by rewrite (edge_parent p i He). Qed.

(** Moving an item to the hole and the hole to the item's place. *)
Lemma hole_moves (l : list A) i j x y :
  l !! j = Some y -> (i < length l)%nat -> i <> j -> <[j := x]> (<[i := y]> l) ≡ₚ <[i := x]> l.
Proof using.
  intros Hj Hi Hne. destruct (lookup_lt_is_Some_2 l i Hi) as [z Hz].
  assert (Hd : forall (l : list A) k a b, l !! k = Some a -> b :: l ≡ₚ a :: <[k := b]> l).
  { intros m k a b Hk. pose proof (lookup_lt_Some _ _ _ Hk). rewrite (insert_take_drop _ k) by done.
    rewrite <- (take_drop_middle m k a Hk) at 1. rewrite <- !Permutation_middle. constructor. }
  pose proof (Hd l i z y Hz) as H1. pose proof (Hd l i z x Hz) as H2.
  assert (Hj' : <[i := y]> l !! j = Some y) by by rewrite list_lookup_insert_ne.
  pose proof (Hd (<[i := y]> l) j y x Hj') as H3.
  apply (Permutation_cons_inv (a := y)). apply (Permutation_cons_inv (a := z)).
  rewrite <- H3. transitivity (x :: z :: <[i := y]> l); [constructor|]. rewrite <- H1.
  transitivity (y :: x :: l); [constructor|]. rewrite H2. constructor.
Qed.

(** The order holds everywhere but between the hole and its parent. *)
Record hole_up (s pos : nat) (l : list A) : Prop := {
  hu_edges p c x y : (s <= p)%nat -> edge p c -> c <> pos -> l !! p = Some x -> l !! c = Some y -> le x y;
  hu_skip p c x y : (s <= p)%nat -> edge p pos -> edge pos c -> l !! p = Some x -> l !! c = Some y -> le x y;
}.

Lemma edge_lt p c : edge p c -> (p < c)%nat.
Proof using. unfold edge. lia. Qed.

Lemma edge_fun p p' c : edge p c -> edge p' c -> p = p'.
Proof using. unfold edge. lia. Qed.

Lemma hole_up_step s p pos x y l :
  hole_up s pos (<[pos := x]> l) -> (s <= p)%nat -> edge p pos -> (pos < length l)%nat -> l !! p = Some y -> lt x y = true ->
  hole_up s p (<[p := x]> (<[pos := y]> l)).
Proof using le_trans lt_le.
  intros [H1 H2] Hs He Hlt Hp Hxy. pose proof (edge_lt _ _ He) as Hpp.
  assert (L : forall i, <[p := x]> (<[pos := y]> l) !! i
    = if decide (i = p) then Some x else if decide (i = pos) then Some y else <[pos := x]> l !! i).
  { intros i. destruct (decide (i = p)) as [->|Hip]; [rewrite list_lookup_insert_eq; [done|rewrite length_insert; lia]|].
    rewrite list_lookup_insert_ne by done.
    destruct (decide (i = pos)) as [->|Hin]; [by rewrite list_lookup_insert_eq|by rewrite !list_lookup_insert_ne]. }
  assert (Hp' : <[pos := x]> l !! p = Some y) by (by rewrite list_lookup_insert_ne by lia).
  split; intros q c a b Hq; setoid_rewrite L.
  - intros Hec Hcp. rewrite (decide_False (P := c = p)) by done. pose proof (edge_lt _ _ Hec).
    destruct (decide (q = p)) as [->|Hqp].
    + intros [= <-]. destruct (decide (c = pos)) as [->|Hcn]; [intros [= <-]; by apply lt_le|].
      intros Hb. apply (le_trans x y b); [by apply lt_le|]. by apply (H1 p c).
    + destruct (decide (q = pos)) as [->|Hqn].
      * rewrite (decide_False (P := c = pos)) by lia. intros [= <-] Hb. by apply (H2 p c).
      * destruct (decide (c = pos)) as [->|Hcn]; [exfalso; apply Hqp; by eapply edge_fun|]. intros. by apply (H1 q c).
  - intros Heq Hec. pose proof (edge_lt _ _ Heq). pose proof (edge_lt _ _ Hec).
    rewrite (decide_False (P := q = p)), (decide_False (P := q = pos)), (decide_False (P := c = p)) by lia. intros Ha.
    pose proof (H1 q p a y Hq Heq ltac:(lia) Ha Hp') as Hay.
    destruct (decide (c = pos)) as [->|Hcn]; [by intros [= <-]|]. intros Hb.
    apply (le_trans a y b Hay). apply (H1 p c); [lia|done..].
Qed.

Lemma siftdown_ok fuel : forall s pos x l,
  (pos <= fuel)%nat -> (pos < length l)%nat -> below s pos -> hole_up s pos (<[pos := x]> l) ->
  exists l', siftdown fuel s pos x l = Ok l' /\ l' ≡ₚ <[pos := x]> l /\ heap_from s l'.
Proof using le_trans lt_le.
  induction fuel as [|fuel IH]; intros s pos x l Hf Hl Hb Hh.
  - assert (pos = 0)%nat as -> by lia. pose proof (below_ge _ _ Hb). assert (s = 0)%nat as -> by lia. cbn.
    eexists. split; [done|]. split; [done|]. intros p c a b Hp He. apply (hu_edges _ _ _ Hh); [lia|done|]. apply edge_lt in He. lia.
  - cbn [siftdown]. destruct (Nat.ltb_spec s pos) as [Hs|Hs].
    + pose proof (below_parent _ _ Hb Hs) as Hbp. pose proof (parent_edge pos ltac:(lia)) as He.
      set (p := ((pos - 1) / 2)%nat) in *. pose proof (edge_lt _ _ He) as Hpp. pose proof (below_ge _ _ Hbp) as Hsp.
      destruct (lookup_lt_is_Some_2 l p) as [y Hy]; [lia|]. unfold get. rewrite Hy. cbn [of_option mbind result_bind].
      destruct (lt x y) eqn:Hxy.
      * destruct (IH s p x (<[pos := y]> l)) as (l' & E & Hperm & Hh'); [lia|rewrite length_insert; lia|done|by apply hole_up_step|].
        exists l'. split; [done|]. split; [|done]. rewrite Hperm. apply hole_moves; [done|done|lia].
      * eexists. split; [done|]. split; [done|]. intros q c a b Hq Hec Ha Hc'.
        destruct (decide (c = pos)) as [->|Hcn]; [|by apply (hu_edges _ _ _ Hh q c)].
        pose proof (edge_fun _ _ _ Hec He) as ->. rewrite list_lookup_insert_eq in Hc' by done. injection Hc' as <-.
        rewrite list_lookup_insert_ne in Ha by lia. rewrite Hy in Ha. by injection Ha as <-.
    + pose proof (below_ge _ _ Hb). assert (pos = s) as -> by lia. eexists. split; [done|]. split; [done|].
      intros p c a b Hp Hec. apply (hu_edges _ _ _ Hh); [done..|]. apply edge_lt in Hec. lia.
Qed.

(** The order holds everywhere but around the hole. *)
Record hole_down (s pos : nat) (l : list A) : Prop := {
  hd_edges p c x y : (s <= p)%nat -> edge p c -> p <> pos -> c <> pos -> l !! p = Some x -> l !! c = Some y -> le x y;
  hd_skip p c x y : (s <= p)%nat -> edge p pos -> edge pos c -> l !! p = Some x -> l !! c = Some y -> le x y;
}.

Lemma hole_down_step s pos m v l :
  hole_down s pos l -> (s <= pos)%nat -> edge pos m -> (pos < length l)%nat -> l !! m = Some v ->
  (forall c b, edge pos c -> l !! c = Some b -> le v b) -> hole_down s m (<[pos := v]> l).
Proof using.
  intros [H1 H2] Hs He Hlt Hm Hmin. pose proof (edge_lt _ _ He) as Hpm.
  assert (L : forall i, <[pos := v]> l !! i = if decide (i = pos) then Some v else l !! i).
  { intros i. destruct (decide (i = pos)) as [->|]; [by rewrite list_lookup_insert_eq|by rewrite list_lookup_insert_ne]. }
  split; intros q c a b Hq; setoid_rewrite L.
  - intros Hec Hqm Hcm. pose proof (edge_lt _ _ Hec). destruct (decide (q = pos)) as [->|Hqp].
    + rewrite decide_False by lia. intros [= <-] Hb. by apply (Hmin c).
    + destruct (decide (c = pos)) as [->|Hcp]; [|intros; by apply (H1 q c)]. intros Ha [= <-]. by apply (H2 q m).
  - intros Heq Hec. pose proof (edge_fun _ _ _ Heq He) as ->. pose proof (edge_lt _ _ Hec).
    rewrite decide_True, decide_False by (done || lia). intros [= <-] Hb. apply (H1 m c); (done || lia).
Qed.

Lemma siftup_loop_ok fuel : forall s pos l,
  (length l <= fuel + pos)%nat -> (pos < length l)%nat -> below s pos -> hole_down s pos l ->
  exists pos' l', siftup_loop fuel pos l = Ok (pos', l') /\ length l' = length l /\ (pos' < length l)%nat /\ below s pos' /\
    (length l <= 2 * pos' + 1)%nat /\ hole_down s pos' l' /\ forall x, <[pos' := x]> l' ≡ₚ <[pos := x]> l.
Proof using le_trans lt_le.
  induction fuel as [|fuel IH]; intros s pos l Hf Hl Hb Hh; [lia|]. cbn [siftup_loop].
  destruct (Nat.ltb_spec (2 * pos + 1) (length l)) as [Hc|Hc].
  2:{ exists pos, l. split; [done|]. split; [done|]. split; [done|]. split; [done|]. split; [lia|]. done. }
  destruct (lookup_lt_is_Some_2 l (2 * pos + 1) Hc) as [a Ha]. unfold get. rewrite Ha. cbn [of_option mbind result_bind].
  assert (Hpick : exists m v, (if (S (2 * pos + 1) <? length l)%nat
      then right ← of_option IndexError (l !! S (2 * pos + 1)); Ok (if negb (lt a right) then S (2 * pos + 1) else (2 * pos + 1)%nat)
      else Ok (2 * pos + 1)%nat) = Ok m /\ edge pos m /\ l !! m = Some v /\ (m < length l)%nat /\
      forall c b, edge pos c -> l !! c = Some b -> le v b).
  { destruct (Nat.ltb_spec (S (2 * pos + 1)) (length l)) as [Hr|Hr].
    - destruct (lookup_lt_is_Some_2 l _ Hr) as [b Hb']. rewrite Hb'. cbn [of_option mbind result_bind].
      destruct (lt a b) eqn:Hab; cbn [negb]; eexists _, _; (split; [done|]); (split; [unfold edge; lia|]);
        (split; [done|]); (split; [lia|]); intros c z Hec Hz.
      + destruct Hec as [-> | ->]; [rewrite Ha in Hz; injection Hz as <-; apply le_refl|].
        replace (2 * pos + 2)%nat with (S (2 * pos + 1)) in Hz by lia. rewrite Hb' in Hz. injection Hz as <-. by apply lt_le.
      + destruct Hec as [-> | ->]; [rewrite Ha in Hz; by injection Hz as <-|].
        replace (2 * pos + 2)%nat with (S (2 * pos + 1)) in Hz by lia. rewrite Hb' in Hz. injection Hz as <-. apply le_refl.
    - eexists _, _. split; [done|]. split; [unfold edge; lia|]. split; [done|]. split; [lia|]. intros c z [-> | ->] Hz.
      + rewrite Ha in Hz. injection Hz as <-. apply le_refl.
      + apply lookup_lt_Some in Hz. lia. }
  destruct Hpick as (m & v & -> & He & Hm & Hml & Hmin). cbn [mbind result_bind]. rewrite Hm. cbn [of_option mbind result_bind].
  pose proof (edge_lt _ _ He).
  destruct (IH s m (<[pos := v]> l)) as (pos' & l' & E & Hlen & Hp' & Hb' & Hleaf & Hh' & Hperm).
  - rewrite length_insert. lia.
  - rewrite length_insert. lia.
  - by eapply below_child.
  - apply hole_down_step; try done. by apply below_ge.
  - rewrite length_insert in *. exists pos', l'. split; [done|]. do 5 (split; [done|]).
    intros x. rewrite Hperm. apply hole_moves; [done|done|lia].
Qed.

Lemma siftup_ok s l :
  (s < length l)%nat -> heap_from (S s) l -> exists l', siftup s l = Ok l' /\ l' ≡ₚ l /\ heap_from s l'.
Proof using le_trans lt_le.
  intros Hs Hh. unfold siftup. destruct (lookup_lt_is_Some_2 l s Hs) as [x Hx]. unfold get. rewrite Hx. cbn [of_option mbind result_bind].
  destruct (siftup_loop_ok (length l) s s l) as (pos & l1 & E & Hlen & Hp & Hb & Hleaf & Hh1 & Hperm); [lia|done|constructor| |].
  - split.
    + intros p c a b Hp He Hps Hcs Ha Hc. apply (Hh p c); [lia|done..].
    + intros p c a b Hp He%edge_lt. lia.
  - rewrite E. cbn [mbind result_bind]. rewrite Hlen.
    assert (Hnone : forall c, edge pos c -> <[pos := x]> l1 !! c = None).
    { intros c He. apply lookup_ge_None. rewrite length_insert. destruct He; lia. }
    destruct (siftdown_ok (length l) s pos x (<[pos := x]> l1)) as (l' & E' & Hperm' & Hh'); [lia|rewrite length_insert; lia|done| |].
    + rewrite list_insert_insert_eq. split.
      * intros p c a b Hp' He Hcn Ha Hc'. rewrite list_lookup_insert_ne in Hc' by done.
        destruct (decide (p = pos)) as [->|Hpn]; [specialize (Hnone c He); by rewrite list_lookup_insert_ne, Hc' in Hnone|].
        rewrite list_lookup_insert_ne in Ha by done. by apply (hd_edges _ _ _ Hh1 p c).
      * intros p c a b _ _ He _ Hc'. by rewrite (Hnone c He) in Hc'.
    + exists l'. split; [done|]. split; [|done]. rewrite list_insert_insert_eq in Hperm'. rewrite Hperm', Hperm.
      by rewrite list_insert_id.
Qed.

Lemma heap_from_mono s s' l : (s <= s')%nat -> heap_from s l -> heap_from s' l.
Proof using. intros Hs H p c x y Hp. apply H. lia. Qed.

(** The root of a heap is least. *)
Lemma heap_root l x : heap_from 0 l -> l !! 0%nat = Some x -> forall i y, l !! i = Some y -> le x y.
Proof using le_trans lt_le.
  intros Hh H0 i. induction i as [i IH] using lt_wf_ind. intros y Hy. destruct (decide (i = 0)%nat) as [->|Hi].
  - rewrite H0 in Hy. injection Hy as <-. apply le_refl.
  - pose proof (parent_edge i ltac:(lia)) as He. set (p := ((i - 1) / 2)%nat) in *. pose proof (edge_lt _ _ He).
    destruct (lookup_lt_is_Some_2 l p) as [z Hz]; [apply lookup_lt_Some in Hy; lia|].
    apply (le_trans x z y); [by apply (IH p)|]. by apply (Hh p i); [lia|..].
Qed.

Lemma heappush_ok x l : heap_from 0 l -> exists l', heappush x l = Ok l' /\ l' ≡ₚ x :: l /\ heap_from 0 l'.
Proof using le_trans lt_le.
  intros Hh. unfold heappush.
  assert (Hins : <[length l := x]> (l ++ [x]) = l ++ [x]) by (apply list_insert_id; rewrite lookup_app_r, Nat.sub_diag by lia; done).
  destruct (siftdown_ok (S (length l)) 0 (length l) x (l ++ [x])) as (l' & E & Hperm & Hh').
  - lia.
  - rewrite length_app. cbn. lia.
  - assert (Hall : forall i, below 0 i).
    { intros i. induction i as [i IH] using lt_wf_ind. destruct (decide (i = 0)%nat) as [->|Hi]; [constructor|].
      pose proof (parent_edge i ltac:(lia)) as He. eapply below_child; [|exact He]. apply IH. by apply edge_lt in He. }
    apply Hall.
  - rewrite Hins. split.
    + intros p c a b Hp He Hcn Ha Hb. pose proof (edge_lt _ _ He). assert (Hc : (c < length l)%nat).
      { apply lookup_lt_Some in Hb. rewrite length_app in Hb. cbn in Hb. lia. }
      rewrite lookup_app_l in Ha, Hb by lia. by apply (Hh p c).
    + intros p c a b _ _ He%edge_lt _ Hb%lookup_lt_Some. rewrite length_app in Hb. cbn in Hb. lia.
  - exists l'. split; [done|]. split; [|done]. rewrite Hperm, Hins. symmetry. apply Permutation_cons_append.
Qed.

Lemma heappop_ok l : l <> [] -> heap_from 0 l ->
  exists x l', heappop l = Ok (x, l') /\ l ≡ₚ x :: l' /\ heap_from 0 l' /\ (forall y, y ∈ l -> le x y) /\ l !! 0%nat = Some x.
Proof using le_trans lt_le.
  intros Hne Hh. unfold heappop. destruct (exists_last Hne) as (l0 & z & ->). rewrite last_snoc, removelast_last.
  destruct l0 as [|x l0].
  - exists z, []. split; [done|]. split; [done|]. split; [by intros ????? _ ?|]. split; [|done].
    intros y ->%list_elem_of_singleton. apply le_refl.
  - destruct (siftup_ok 0 (<[0%nat := z]> (x :: l0))) as (l' & E & Hperm & Hh').
    + cbn. lia.
    + intros p c a b Hp He Ha Hb. pose proof (edge_lt _ _ He). rewrite list_lookup_insert_ne in Ha, Hb by lia.
      apply (Hh p c); [lia|done|by apply lookup_app_l_Some..].
    + change ((x :: l0) ++ [z]) with (x :: (l0 ++ [z])). rewrite E. cbn [mbind result_bind]. exists x, l'. split; [done|].
      split; [|split; [done|split; [|done]]].
      * rewrite Hperm. cbn. constructor. symmetry. apply Permutation_cons_append.
      * intros y [i Hy]%list_elem_of_lookup_1. by apply (heap_root ((x :: l0) ++ [z]) x Hh eq_refl i).
Qed.

Lemma heapify_ok l : exists l', heapify l = Ok l' /\ l' ≡ₚ l /\ heap_from 0 l'.
Proof using le_trans lt_le.
  unfold heapify. set (n := length l).
  destruct (foldM_inv (fun x i => siftup i x) (fun pre x => x ≡ₚ l /\ heap_from (n / 2 - length pre)%nat x) (reverse (seq 0 (n / 2))) l)
    as (l' & E & Hperm & Hh).
  - split; [done|]. cbn [length]. rewrite Nat.sub_0_r. intros p c a b Hp He Ha Hb. apply lookup_lt_Some in Hb. fold n in Hb.
    pose proof (Nat.div_mod n 2 ltac:(lia)). pose proof (Nat.mod_upper_bound n 2 ltac:(lia)). destruct He; lia.
  - intros pre i post x Eq [Hperm Hh].
    assert (Hi : (length pre < n / 2)%nat /\ i = (n / 2 - S (length pre))%nat).
    { assert (Hlk : reverse (seq 0 (n / 2)) !! length pre = Some i) by (rewrite Eq, lookup_app_r, Nat.sub_diag by lia; done).
      pose proof (lookup_lt_Some _ _ _ Hlk) as Hlt. rewrite length_reverse, length_seq in Hlt.
      rewrite reverse_lookup in Hlk by (rewrite length_seq; lia). apply lookup_seq in Hlk. rewrite length_seq in Hlk. lia. }
    destruct Hi as [Hpl ->]. pose proof (Permutation_length Hperm) as Hlen.
    destruct (siftup_ok (n / 2 - S (length pre)) x) as (x' & E' & Hperm' & Hh').
    + fold n in Hlen. pose proof (Nat.Div0.div_le_upper_bound n 2 n ltac:(lia)). rewrite Hlen. lia.
    + by replace (S (n / 2 - S (length pre))) with (n / 2 - length pre)%nat by lia.
    + exists x'. split; [done|]. rewrite length_app. cbn [length]. rewrite Nat.add_1_r. split; [by rewrite Hperm'|done].
  - exists l'. split; [done|]. split; [done|]. rewrite length_reverse, length_seq in Hh.
    eapply heap_from_mono; [|exact Hh]. lia.
Qed.
End Heapq.
End Heap.
