(* ===== verification/RequestQueue.v ===== *)
(** The waiting queues: [src/vllm/v1/core/sched/request_queue.py] and the
    ordering of requests in [src/vllm/v1/request.py].

    A queue holds references to requests; the attributes that order them do
    not change while they are queued (streaming sessions, which are not modelled,
    change the arrival time), so a reference carries them.  [FCFSRequestQueue] is a deque,
    [PriorityRequestQueue] a binary heap.  [request_queue_refines] shows that both
    implement one abstract queue, a list in the order of the policy. *)
From S2P Require Import Prelude Heapq.
Local Open Scope Z_scope.

(** * Requests in a queue *)

(** A reference to a request object.  Arrival times are only compared. *)
Record req_ref := mkRef {
  ref_id : string;
  priority : Z;
  arrival_time : Z;
}.

#[export] Instance req_ref_eq_dec : EqDecision req_ref.
Proof. solve_decision. Defined.

(** [Request.__lt__]; the comparison of object identities is only reached for a
    request compared with itself. *)
Definition request_lt (a b : req_ref) : bool :=
  if negb (priority a =? priority b) then priority a <? priority b
  else if negb (arrival_time a =? arrival_time b) then arrival_time a <? arrival_time b
  else match String.compare (ref_id a) (ref_id b) with Lt => true | _ => false end.

(** * The queues *)
Inductive SchedulingPolicy := FCFS | PRIORITY.

#[export] Instance policy_eq_dec : EqDecision SchedulingPolicy.
Proof. solve_decision. Defined.

Inductive RequestQueue :=
| FCFSRequestQueue (deque : list req_ref)
| PriorityRequestQueue (heap : list req_ref).

(** [create_request_queue]. *)
Definition create_request_queue (policy : SchedulingPolicy) : RequestQueue :=
  match policy with PRIORITY => PriorityRequestQueue [] | FCFS => FCFSRequestQueue [] end.

Definition add_request (r : req_ref) (q : RequestQueue) : result RequestQueue :=
  match q with
  | FCFSRequestQueue l => Ok (FCFSRequestQueue (l ++ [r]))
  | PriorityRequestQueue h => PriorityRequestQueue <$> Heap.heappush request_lt r h
  end.

Definition pop_request (q : RequestQueue) : result (req_ref * RequestQueue) :=
  match q with
  | FCFSRequestQueue [] => Err IndexError
  | FCFSRequestQueue (r :: l) => Ok (r, FCFSRequestQueue l)
  | PriorityRequestQueue h =>
      if bool_decide (h = []) then Err IndexError else
      '(r, h) ← Heap.heappop request_lt h; Ok (r, PriorityRequestQueue h)
  end.

Definition peek_request (q : RequestQueue) : result req_ref :=
  match q with FCFSRequestQueue l | PriorityRequestQueue l => of_option IndexError (l !! 0%nat) end.

Definition prepend_request (r : req_ref) (q : RequestQueue) : result RequestQueue :=
  match q with
  | FCFSRequestQueue l => Ok (FCFSRequestQueue (r :: l))
  | PriorityRequestQueue _ => add_request r q
  end.

(** [__iter__]: a copy of the heap is emptied. *)
Fixpoint heap_iter (fuel : nat) (heap : list req_ref) : result (list req_ref) :=
  match heap with
  | [] => Ok []
  | _ =>
      match fuel with
      | O => Err Diverges
      | S fuel => '(r, heap) ← Heap.heappop request_lt heap; rest ← heap_iter fuel heap; Ok (r :: rest)
      end
  end.

Definition queue_iter (q : RequestQueue) : result (list req_ref) :=
  match q with
  | FCFSRequestQueue l => Ok l
  | PriorityRequestQueue h => heap_iter (length h) h
  end.

(** [prepend_requests]; [extendleft] pushes one request after the other. *)
Definition prepend_requests (requests q : RequestQueue) : result RequestQueue :=
  rs ← queue_iter requests;
  match q with
  | FCFSRequestQueue l => Ok (FCFSRequestQueue (rev rs ++ l))
  | PriorityRequestQueue _ => foldM (fun q r => add_request r q) rs q
  end.

(** [list.remove] and [deque.remove]. *)
Definition py_remove (r : req_ref) (l : list req_ref) : result (list req_ref) :=
  of_option ValueError (list_remove r l).

Definition remove_request (r : req_ref) (q : RequestQueue) : result RequestQueue :=
  match q with
  | FCFSRequestQueue l => FCFSRequestQueue <$> py_remove r l
  | PriorityRequestQueue h => h ← py_remove r h; PriorityRequestQueue <$> Heap.heapify request_lt h
  end.

Definition remove_requests (rs : list req_ref) (q : RequestQueue) : result RequestQueue :=
  match q with
  | FCFSRequestQueue l => Ok (FCFSRequestQueue (filter (fun r => r ∉ rs) l))
  | PriorityRequestQueue h => PriorityRequestQueue <$> Heap.heapify request_lt (filter (fun r => r ∉ rs) h)
  end.

Definition queue_len (q : RequestQueue) : Z :=
  match q with FCFSRequestQueue l | PriorityRequestQueue l => py_len l end.

(** * The order of requests *)
Definition ref_le (a b : req_ref) : Prop := Heap.le request_lt a b.

Lemma compare_string a b : (String.compare a b = Lt <-> String.compare b a = Gt) /\ (String.compare a b = Eq <-> a = b).
Proof.
  split.
  - rewrite (String.compare_antisym b a). destruct (String.compare a b); split; done.
  - split; [apply String.compare_eq_iff|]. intros ->. pose proof (String.compare_antisym b b) as H.
    by destruct (String.compare b b).
Qed.

Lemma string_le_compare a b : String.compare a b <> Gt <-> String.le a b.
Proof. unfold String.le, String.leb. destruct (String.compare a b); split; done. Qed.

(** The order, unfolded: smaller priority first, then earlier arrival, then the id. *)
Lemma ref_le_iff a b :
  ref_le a b <-> priority a < priority b \/ (priority a = priority b /\
    (arrival_time a < arrival_time b \/ (arrival_time a = arrival_time b /\ String.le (ref_id a) (ref_id b)))).
Proof.
  unfold ref_le, Heap.le, request_lt.
  destruct (Z.eqb_spec (priority b) (priority a)) as [Ep|Ep]; cbn [negb]; [|rewrite Z.ltb_ge; lia].
  destruct (Z.eqb_spec (arrival_time b) (arrival_time a)) as [Ea|Ea]; cbn [negb]; [|rewrite Z.ltb_ge; lia].
  rewrite <- string_le_compare. pose proof (compare_string (ref_id b) (ref_id a)) as [H _].
  destruct (String.compare (ref_id b) (ref_id a)), (String.compare (ref_id a) (ref_id b)); naive_solver lia.
Qed.

#[export] Instance ref_le_dec : RelDecision ref_le.
Proof. intros a b. unfold ref_le, Heap.le. apply _. Defined.

#[export] Instance ref_le_trans : Transitive ref_le.
Proof.
  intros a b c. rewrite !ref_le_iff. intros H1 H2.
  destruct H1 as [?|[? [?|[? S1]]]], H2 as [?|[? [?|[? S2]]]]; try lia.
  right. split; [lia|]. right. split; [lia|]. by transitivity (ref_id b).
Qed.

#[export] Instance ref_le_total : Total ref_le.
Proof.
  intros a b. rewrite !ref_le_iff. pose proof (total String.le (ref_id a) (ref_id b)).
  destruct (Z.lt_trichotomy (priority a) (priority b)) as [?|[?|?]], (Z.lt_trichotomy (arrival_time a) (arrival_time b)) as [?|[?|?]];
    intuition lia.
Qed.

#[export] Instance ref_le_anti : AntiSymm (=) ref_le.
Proof.
  intros a b. rewrite !ref_le_iff. intros H1 H2. destruct a as [i p t], b as [j q u]. cbn in *.
  assert (p = q /\ t = u) as [-> ->] by lia. f_equal. apply (anti_symm String.le); intuition lia.
Qed.

Lemma lt_ref_le a b : request_lt a b = true -> ref_le a b.
Proof.
  intros H. destruct (total ref_le a b) as [|Hba]; [done|]. unfold ref_le, Heap.le in Hba. congruence.
Qed.

(** * The abstract queue *)

(** The place of a request among ordered ones. *)
Fixpoint insert_sorted (r : req_ref) (l : list req_ref) : list req_ref :=
  match l with
  | [] => [r]
  | x :: l => if decide (ref_le r x) then r :: x :: l else x :: insert_sorted r l
  end.

Definition spec_add (policy : SchedulingPolicy) (r : req_ref) (l : list req_ref) : list req_ref :=
  match policy with FCFS => l ++ [r] | PRIORITY => insert_sorted r l end.
Definition spec_prepend (policy : SchedulingPolicy) (r : req_ref) (l : list req_ref) : list req_ref :=
  match policy with FCFS => r :: l | PRIORITY => insert_sorted r l end.

(** [q] holds the requests [l], in the order they will be popped. *)
Definition queue_view (policy : SchedulingPolicy) (q : RequestQueue) (l : list req_ref) : Prop :=
  match policy, q with
  | FCFS, FCFSRequestQueue d => d = l
  | PRIORITY, PriorityRequestQueue h => Heap.heap_from request_lt 0 h /\ h ≡ₚ l /\ StronglySorted ref_le l
  | _, _ => False
  end.

Lemma insert_sorted_perm r l : insert_sorted r l ≡ₚ r :: l.
Proof. induction l as [|x l IH]; [done|]. cbn. destruct (decide _); [done|]. rewrite IH. constructor. Qed.

Lemma insert_sorted_ok r l : StronglySorted ref_le l -> StronglySorted ref_le (insert_sorted r l).
Proof.
  induction 1 as [|x l Hs IH Hx]; cbn; [repeat constructor|]. destruct (decide (ref_le r x)) as [Hr|Hr].
  - constructor; [by constructor|]. constructor; [done|]. eapply Forall_impl; [exact Hx|]. intros y Hy. by transitivity x.
  - constructor; [done|]. rewrite insert_sorted_perm. constructor; [|done]. by destruct (total ref_le r x).
Qed.

(** The two kinds of queue, each with its own policy. *)
Ltac queue_cases policy q :=
  destruct policy, q as [d|h];
  cbn [queue_view add_request pop_request peek_request queue_iter queue_len remove_request remove_requests spec_add];
  try done.

Lemma add_view policy r q l : queue_view policy q l ->
  exists q', add_request r q = Ok q' /\ queue_view policy q' (spec_add policy r l).
Proof.
  queue_cases policy q; [intros ->; by eexists|]. intros (Hh & Hp & Hs).
  destruct (Heap.heappush_ok request_lt ref_le_trans lt_ref_le r h Hh) as (h' & -> & Hp' & Hh').
  eexists. split; [done|]. cbn. split; [done|]. split; [by rewrite Hp', insert_sorted_perm, Hp|by apply insert_sorted_ok].
Qed.

Lemma prepend_view policy r q l : queue_view policy q l ->
  exists q', prepend_request r q = Ok q' /\ queue_view policy q' (spec_prepend policy r l).
Proof.
  intros Hv. destruct policy, q as [d|h]; try done; [cbn in *; subst; by eexists|]. by apply (add_view PRIORITY r _ l).
Qed.

(** A heap pops the head of its sorted view. *)
Lemma heappop_view h l : Heap.heap_from request_lt 0 h -> h ≡ₚ l -> StronglySorted ref_le l ->
  match l with
  | [] => h = []
  | r :: l' => h <> [] /\ h !! 0%nat = Some r /\ exists h', Heap.heappop request_lt h = Ok (r, h') /\
      Heap.heap_from request_lt 0 h' /\ h' ≡ₚ l' /\ StronglySorted ref_le l'
  end.
Proof.
  intros Hh Hp Hs. destruct l as [|r l]; [by apply Permutation_nil_r in Hp|].
  assert (Hne : h <> []) by (intros ->; by apply Permutation_nil_cons in Hp).
  destruct (Heap.heappop_ok request_lt ref_le_trans lt_ref_le h Hne Hh) as (x & h' & E & Hp' & Hh' & Hmin & H0).
  inversion Hs as [|? ? Hs' Hr]; subst. assert (x = r) as ->.
  { apply (anti_symm ref_le).
    - apply Hmin. rewrite Hp. left.
    - assert (Hx : x ∈ r :: l) by (rewrite <- Hp, Hp'; left). apply elem_of_cons in Hx as [->|Hx]; [by destruct (total ref_le r r)|].
      rewrite Forall_forall in Hr. by apply Hr. }
  split; [done|]. split; [done|]. exists h'. split; [done|]. split; [done|]. split; [|done].
  apply (Permutation_cons_inv (a := r)). by rewrite <- Hp', Hp.
Qed.

Lemma pop_view policy q l : queue_view policy q l ->
  match l with
  | [] => pop_request q = Err IndexError /\ peek_request q = Err IndexError
  | r :: l' => peek_request q = Ok r /\ exists q', pop_request q = Ok (r, q') /\ queue_view policy q' l'
  end.
Proof.
  queue_cases policy q.
  - intros ->. destruct l; [done|]. split; [done|]. by eexists.
  - intros (Hh & Hp & Hs). pose proof (heappop_view h l Hh Hp Hs) as H. destruct l as [|r l]; [by subst|].
    destruct H as (Hne & H0 & h' & E & Hh' & Hp' & Hs'). rewrite H0, bool_decide_false, E by done. split; [done|]. cbn. by eexists.
Qed.

Lemma heap_iter_view h : forall l, Heap.heap_from request_lt 0 h -> h ≡ₚ l -> StronglySorted ref_le l ->
  heap_iter (length h) h = Ok l.
Proof.
  remember (length h) as n eqn:Hn. revert h Hn. induction n as [|n IH]; intros h Hn l Hh Hp Hs.
  - destruct h as [|x h]; [|done]. apply Permutation_nil_l in Hp. by subst.
  - pose proof (heappop_view h l Hh Hp Hs) as H. destruct l as [|r l]; [by subst|].
    destruct H as (Hne & H0 & h' & E & Hh' & Hp' & Hs'). destruct h as [|x h]; [done|]. cbn [heap_iter].
    rewrite E. cbn [mbind result_bind].
    assert (Hn' : n = length h') by (apply Permutation_length in Hp, Hp'; cbn in *; lia). by rewrite (IH h' Hn' l).
Qed.

Lemma iter_view policy q l : queue_view policy q l -> queue_iter q = Ok l.
Proof. queue_cases policy q; [by intros ->|]. intros (Hh & Hp & Hs). by apply heap_iter_view. Qed.

Lemma len_view policy q l : queue_view policy q l -> queue_len q = py_len l.
Proof.
  queue_cases policy q; [by intros ->|]. intros (_ & Hp & _). unfold py_len. by rewrite Hp.
Qed.

(** Prepending a queue of skipped requests puts them back, in their order, before
    the others. *)
Definition spec_prepend_all (policy : SchedulingPolicy) (rs l : list req_ref) : list req_ref :=
  match policy with FCFS => rev rs ++ l | PRIORITY => fold_left (fun l r => insert_sorted r l) rs l end.

Lemma prepend_all_view policy qs rs q l : queue_view policy qs rs -> queue_view policy q l ->
  exists q', prepend_requests qs q = Ok q' /\ queue_view policy q' (spec_prepend_all policy rs l).
Proof.
  intros Hs Hq. unfold prepend_requests. rewrite (iter_view _ _ _ Hs). cbn [mbind result_bind].
  destruct policy, q as [d|h]; try done; [cbn in *; subst; by eexists|]. cbn [spec_prepend_all]. clear Hs qs.
  revert h l Hq. induction rs as [|r rs IH]; intros h l Hq; [by eexists|]. cbn [foldM fold_left].
  destruct (add_view PRIORITY r _ l Hq) as (q' & -> & Hq'). cbn [mbind result_bind].
  destruct q' as [|h']; [done|]. by apply IH.
Qed.

Lemma list_remove_view r (h l : list req_ref) : h ≡ₚ l ->
  match list_remove r l with
  | None => list_remove r h = None
  | Some l' => exists h', list_remove r h = Some h' /\ h' ≡ₚ l'
  end.
Proof.
  intros Hp. destruct (list_remove r l) as [l'|] eqn:E.
  - apply list_remove_Some in E. destruct (list_remove r h) as [h'|] eqn:E'.
    + apply list_remove_Some in E'. exists h'. split; [done|]. apply (Permutation_cons_inv (a := r)). by rewrite <- E', Hp.
    + apply list_remove_None in E' as []. rewrite Hp, E. left.
  - apply list_remove_None. apply list_remove_None in E. by rewrite Hp.
Qed.

Lemma StronglySorted_remove r (l l' : list req_ref) : StronglySorted ref_le l -> list_remove r l = Some l' -> StronglySorted ref_le l'.
Proof.
  intros Hs. revert l'. induction Hs as [|x l Hs IH Hx]; intros l' E; [done|]. cbn in E. destruct (decide (r = x)); [by injection E as <-|].
  apply fmap_Some in E as (l1 & E & ->). constructor; [by apply IH|]. apply list_remove_Some in E. rewrite E in Hx.
  by apply Forall_cons in Hx as [_ ?].
Qed.

Lemma StronglySorted_filter (P : req_ref -> Prop) `{!forall x, Decision (P x)} l : StronglySorted ref_le l -> StronglySorted ref_le (filter P l).
Proof.
  induction 1 as [|x l Hs IH Hx]; [constructor|]. rewrite filter_cons. destruct (decide (P x)); [|done].
  constructor; [done|]. rewrite Forall_forall in *. intros y [_ Hy]%list_elem_of_filter. by apply Hx.
Qed.

Lemma remove_view policy r q l : queue_view policy q l ->
  match list_remove r l with
  | None => remove_request r q = Err ValueError
  | Some l' => exists q', remove_request r q = Ok q' /\ queue_view policy q' l'
  end.
Proof.
  queue_cases policy q.
  - intros ->. unfold py_remove. destruct (list_remove r l); cbn; [by eexists|done].
  - intros (Hh & Hp & Hs). unfold py_remove. pose proof (list_remove_view r h l Hp) as H. destruct (list_remove r l) as [l'|] eqn:E.
    + destruct H as (h' & -> & Hp'). cbn [of_option mbind result_bind].
      destruct (Heap.heapify_ok request_lt ref_le_trans lt_ref_le h') as (h2 & -> & Hp2 & Hh2). eexists. split; [done|]. cbn.
      split; [done|]. split; [by rewrite Hp2|]. by eapply StronglySorted_remove.
    + rewrite H. done.
Qed.

Lemma remove_all_view policy rs q l : queue_view policy q l ->
  exists q', remove_requests rs q = Ok q' /\ queue_view policy q' (filter (fun r => r ∉ rs) l).
Proof.
  queue_cases policy q; [intros ->; by eexists|]. intros (Hh & Hp & Hs).
  destruct (Heap.heapify_ok request_lt ref_le_trans lt_ref_le (filter (fun r => r ∉ rs) h)) as (h2 & -> & Hp2 & Hh2).
  eexists. split; [done|]. cbn. split; [done|]. split; [|by apply StronglySorted_filter]. by rewrite Hp2, Hp.
Qed.

(** * Refinement *)

(** The operations of the scheduler on its waiting queue.  [PrependSkipped] is the
    way [schedule] puts requests back: it collects them with [prepend_request] in
    a queue of their own and prepends that queue. *)
Inductive queue_op :=
| Add (r : req_ref)
| Pop
| Peek
| Prepend (r : req_ref)
| PrependSkipped (rs : list req_ref)
| Remove (r : req_ref)
| RemoveAll (rs : list req_ref)
| Iterate.

(** What an operation returns, and the queue after it. *)
Definition run_queue_op (policy : SchedulingPolicy) (op : queue_op) (q : RequestQueue) : result (list req_ref * RequestQueue) :=
  match op with
  | Add r => q ← add_request r q; Ok ([], q)
  | Pop => '(r, q) ← pop_request q; Ok ([r], q)
  | Peek => r ← peek_request q; Ok ([r], q)
  | Prepend r => q ← prepend_request r q; Ok ([], q)
  | PrependSkipped rs =>
      skipped ← foldM (fun s r => prepend_request r s) rs (create_request_queue policy);
      q ← prepend_requests skipped q; Ok ([], q)
  | Remove r => q ← remove_request r q; Ok ([], q)
  | RemoveAll rs => q ← remove_requests rs q; Ok ([], q)
  | Iterate => rs ← queue_iter q; Ok (rs, q)
  end.

(** The abstract queue: a list in the order of the policy. *)
Definition spec_queue_op (policy : SchedulingPolicy) (op : queue_op) (l : list req_ref) : result (list req_ref * list req_ref) :=
  match op with
  | Add r => Ok ([], spec_add policy r l)
  | Pop => match l with [] => Err IndexError | r :: l => Ok ([r], l) end
  | Peek => match l with [] => Err IndexError | r :: _ => Ok ([r], l) end
  | Prepend r => Ok ([], spec_prepend policy r l)
  | PrependSkipped rs => Ok ([], match policy with FCFS => rs ++ l | PRIORITY => fold_right insert_sorted l rs end)
  | Remove r => match list_remove r l with None => Err ValueError | Some l => Ok ([], l) end
  | RemoveAll rs => Ok ([], filter (fun r => r ∉ rs) l)
  | Iterate => Ok (l, l)
  end.

(** All operations; an exception leaves the queue as it was. *)
Fixpoint run_ops {S} (f : queue_op -> S -> result (list req_ref * S)) (ops : list queue_op) (s : S) : list (result (list req_ref)) * S :=
  match ops with
  | [] => ([], s)
  | op :: ops =>
      match f op s with
      | Ok (out, s') => let '(outs, s'') := run_ops f ops s' in (Ok out :: outs, s'')
      | Err e => let '(outs, s'') := run_ops f ops s in (Err e :: outs, s'')
      end
  end.

Lemma skipped_view policy rs : forall s l, queue_view policy s l ->
  exists s', foldM (fun s r => prepend_request r s) rs s = Ok s' /\
    queue_view policy s' (match policy with FCFS => rev rs ++ l | PRIORITY => fold_left (fun l r => insert_sorted r l) rs l end).
Proof.
  induction rs as [|r rs IH]; intros s l Hv; cbn [foldM]; [exists s; by destruct policy|].
  destruct (prepend_view policy r s l Hv) as (s1 & -> & Hv1). cbn [mbind result_bind].
  destruct (IH s1 _ Hv1) as (s' & E & Hv'). exists s'. split; [done|]. destruct policy; cbn [rev fold_left spec_prepend] in *; [|done].
  by rewrite <- app_assoc.
Qed.

Lemma inserts_perm rs l : fold_left (fun l r => insert_sorted r l) rs l ≡ₚ rs ++ l.
Proof.
  revert l; induction rs as [|r rs IH]; intros l; [done|]. cbn [fold_left app]. rewrite IH, insert_sorted_perm. symmetry. apply Permutation_middle.
Qed.

Lemma inserts_right_perm rs l : fold_right insert_sorted l rs ≡ₚ rs ++ l.
Proof. induction rs as [|r rs IH]; [done|]. cbn [fold_right app]. by rewrite insert_sorted_perm, IH. Qed.

Lemma inserts_right_sorted rs l : StronglySorted ref_le l -> StronglySorted ref_le (fold_right insert_sorted l rs).
Proof. intros. induction rs as [|r rs IH]; [done|]. by apply insert_sorted_ok. Qed.

Lemma inserts_sorted rs l : StronglySorted ref_le l -> StronglySorted ref_le (fold_left (fun l r => insert_sorted r l) rs l).
Proof. revert l. induction rs as [|r rs IH]; intros l Hl; [done|]. by apply IH, insert_sorted_ok. Qed.

(** A sorted view does not depend on the order of the insertions. *)
Lemma sorted_view_unique q l l' : queue_view PRIORITY q l -> l ≡ₚ l' -> StronglySorted ref_le l' -> l = l'.
Proof.
  destruct q as [|h]; [done|]. intros (_ & _ & Hs) Hp Hs'. by apply (StronglySorted_unique ref_le).
Qed.

(** One operation agrees with the abstract queue. *)
Lemma queue_op_view policy op q l : queue_view policy q l ->
  match spec_queue_op policy op l with
  | Ok (out, l') => exists q', run_queue_op policy op q = Ok (out, q') /\ queue_view policy q' l'
  | Err e => run_queue_op policy op q = Err e
  end.
Proof.
  intros Hv. destruct op as [r| | |r|rs|r|rs|]; cbn [spec_queue_op run_queue_op].
  - destruct (add_view policy r q l Hv) as (q' & -> & ?). by eexists.
  - pose proof (pop_view policy q l Hv) as H. destruct l as [|r l]; [by destruct H as [-> _]|]. destruct H as (_ & q' & -> & ?). by eexists.
  - pose proof (pop_view policy q l Hv) as H. destruct l as [|r l]; [by destruct H as [_ ->]|]. destruct H as (-> & _). by eexists.
  - destruct (prepend_view policy r q l Hv) as (q' & -> & ?). by eexists.
  - assert (H0 : queue_view policy (create_request_queue policy) []).
    { destruct policy; cbn; [done|]. split; [by intros ???? _ _ ?|]. split; [done|constructor]. }
    destruct (skipped_view policy rs _ _ H0) as (s & -> & Hs). cbn [mbind result_bind].
    destruct (prepend_all_view policy _ _ _ _ Hs Hv) as (q' & -> & Hq'). cbn [mbind result_bind]. exists q'. split; [done|].
    destruct policy; cbn [spec_prepend_all] in Hq'; [by rewrite app_nil_r, rev_involutive in Hq'|].
    erewrite <- sorted_view_unique; [exact Hq'|exact Hq'| |].
    + rewrite inserts_perm, inserts_perm, inserts_right_perm, app_nil_r. done.
    + apply inserts_right_sorted. destruct q; [done|]. apply Hv.
  - pose proof (remove_view policy r q l Hv) as H. destruct (list_remove r l) as [l'|]; [destruct H as (q' & -> & ?); by eexists|by rewrite H].
  - destruct (remove_all_view policy rs q l Hv) as (q' & -> & ?). by eexists.
  - rewrite (iter_view policy q l Hv). by eexists.
Qed.

(** C8: both waiting queues implement the abstract queue of their policy.  For any
    sequence of operations on a new queue, every operation returns what the
    abstract list returns (and raises where it raises): under [FCFS] the list in
    arrival order, under [PRIORITY] the list sorted by priority, arrival time and
    id, although the heap is kept in array order and [remove_request] rebuilds it.
    Requests the scheduler skipped go back to the head of the queue in their old
    order. *)
Theorem request_queue_refines policy ops :
  fst (run_ops (run_queue_op policy) ops (create_request_queue policy)) = fst (run_ops (spec_queue_op policy) ops []) /\
  queue_view policy (snd (run_ops (run_queue_op policy) ops (create_request_queue policy))) (snd (run_ops (spec_queue_op policy) ops [])).
Proof.
  assert (H0 : queue_view policy (create_request_queue policy) []).
  { destruct policy; cbn; [done|]. split; [by intros ???? _ _ ?|]. split; [done|constructor]. }
  revert H0. generalize (create_request_queue policy) as q, (@nil req_ref) as l.
  induction ops as [|op ops IH]; intros q l Hv; [done|]. cbn [run_ops].
  pose proof (queue_op_view policy op q l Hv) as H. destruct (spec_queue_op policy op l) as [[out l']|e].
  - destruct H as (q' & -> & Hv'). specialize (IH q' l' Hv').
    destruct (run_ops _ ops q'), (run_ops _ ops l'). cbn in *. destruct IH as [-> ?]. done.
  - rewrite H. specialize (IH q l Hv). destruct (run_ops _ ops q), (run_ops _ ops l). cbn in *. destruct IH as [-> ?]. done.
Qed.

(** Three requests of two priorities. *)
Example priority_order :
  let a := mkRef "a" 1 10 in let b := mkRef "b" 0 20 in let c := mkRef "c" 1 5 in
  fst (run_ops (run_queue_op PRIORITY) [Add a; Add b; Add c; Iterate; Remove c; Pop; Pop; Pop] (create_request_queue PRIORITY))
  = [Ok []; Ok []; Ok []; Ok [b; c; a]; Ok []; Ok [b]; Ok [a]; Err IndexError].
Proof. vm_compute. reflexivity. Qed.
