(* ===== verification/Dict.v ===== *)
(** Python dictionaries in insertion order; [dict] has string keys, as most of them do. *)
From S2P Require Import Prelude.
Local Open Scope Z_scope.

Abbreviation dict V := (list (string * V)).

Section Dict.
Context {K V : Type} `{EqDecision K}.
Implicit Types (key : K) (d : list (K * V)).

(** [d.get(key)]. *)
Fixpoint dict_get (key : K) (d : list (K * V)) : option V :=
  match d with [] => None | (k, v) :: d => if decide (k = key) then Some v else dict_get key d end.

(** [d[key] = v]: in place when the key is present, at the end otherwise. *)
Fixpoint dict_set (key : K) (v : V) (d : list (K * V)) : list (K * V) :=
  match d with [] => [(key, v)] | (k, w) :: d => if decide (k = key) then (k, v) :: d else (k, w) :: dict_set key v d end.

(** [d.pop(key, None)]: the rest of the dictionary. *)
Definition dict_del (key : K) (d : list (K * V)) : list (K * V) := filter (fun x => x.1 <> key) d.

(** [d.pop(key)]. *)
Definition dict_pop (key : K) (d : list (K * V)) : result (V * list (K * V)) :=
  v ← of_option KeyError (dict_get key d); Ok (v, dict_del key d).

(** [d.move_to_end(key)] of an ordered dictionary. *)
Definition dict_move_to_end (key : K) (d : list (K * V)) : result (list (K * V)) :=
  '(v, d) ← dict_pop key d; Ok (d ++ [(key, v)]).

Definition keys (d : list (K * V)) : list K := d.*1.

Lemma dict_get_Some key d v : dict_get key d = Some v -> (key, v) ∈ d.
Proof. induction d as [|[k w] d IH]; [done|]. cbn. destruct (decide (k = key)) as [->|]; [intros [= ->]; left|right; auto]. Qed.

Lemma dict_get_None key d : dict_get key d = None <-> key ∉ keys d.
Proof.
  induction d as [|[k w] d IH]; [split; [intros _; apply not_elem_of_nil|done]|]. cbn. rewrite not_elem_of_cons.
  destruct (decide (k = key)); [naive_solver|]. rewrite IH. naive_solver.
Qed.

Lemma dict_get_elem key v d : NoDup (keys d) -> (key, v) ∈ d -> dict_get key d = Some v.
Proof.
  induction d as [|[k w] d IH]; [by intros _ ?%elem_of_nil|]. cbn. intros [Hk Hd]%NoDup_cons Hin.
  apply elem_of_cons in Hin as [[= -> ->]|Hin]; [by rewrite decide_True|].
  rewrite decide_False; [by apply IH|]. intros ->. apply Hk. by apply (list_elem_of_fmap_2 fst _ _ Hin).
Qed.

Lemma dict_set_new key v d : key ∉ keys d -> dict_set key v d = d ++ [(key, v)].
Proof.
  induction d as [|[k w] d IH]; [done|]. cbn. rewrite not_elem_of_cons. intros [Hk Hd]. rewrite decide_False by congruence. by rewrite IH.
Qed.

Lemma keys_set_new key v d : key ∉ keys d -> keys (dict_set key v d) = keys d ++ [key].
Proof. intros H. rewrite dict_set_new by done. unfold keys. by rewrite fmap_app. Qed.

Lemma elem_keys_del key d k : k ∈ keys (dict_del key d) <-> k ∈ keys d /\ k <> key.
Proof.
  unfold keys, dict_del. rewrite !list_elem_of_fmap. setoid_rewrite list_elem_of_filter. naive_solver.
Qed.

Lemma NoDup_keys_del key d : NoDup (keys d) -> NoDup (keys (dict_del key d)).
Proof.
  induction d as [|[k w] d IH]; [done|]. intros H. change (keys ((k, w) :: d)) with (k :: keys d) in H.
  apply NoDup_cons in H as [Hk Hd]. unfold dict_del.
  rewrite filter_cons. destruct (decide _); [|by apply IH]. apply NoDup_cons. split; [|by apply IH].
  change (k ∉ keys (dict_del key d)). rewrite elem_keys_del. tauto.
Qed.

Lemma dict_get_del key k d : dict_get k (dict_del key d) = if decide (k = key) then None else dict_get k d.
Proof.
  unfold dict_del. induction d as [|[k' w] d IH]; [by destruct (decide _)|]. rewrite filter_cons. cbn [fst dict_get].
  destruct (decide (k' <> key)) as [Hne|He]; cbn [dict_get]; rewrite IH.
  - destruct (decide (k' = k)) as [->|]; [by rewrite decide_False|done].
  - destruct (decide (k = key)) as [->|]; [done|]. rewrite decide_False; [done|]. intros ->. tauto.
Qed.

Lemma dict_get_set key v k d : dict_get k (dict_set key v d) = if decide (k = key) then Some v else dict_get k d.
Proof.
  induction d as [|[k' w] d IH]; cbn; [destruct (decide (key = k)), (decide (k = key)); congruence|].
  destruct (decide (k' = key)) as [->|]; cbn; [destruct (decide (key = k)), (decide (k = key)); congruence|].
  rewrite IH. destruct (decide (k' = k)), (decide (k = key)); congruence.
Qed.

Lemma keys_set_old key v w d : dict_get key d = Some w -> keys (dict_set key v d) = keys d.
Proof.
  induction d as [|[k x] d IH]; [done|]. cbn. destruct (decide (k = key)) as [->|]; [done|]. intros Hg. cbn. f_equal. by apply IH.
Qed.

(** An update that keeps a view of the value keeps the view of the dictionary. *)
Lemma fmap_set_same {A} (f : V -> A) key v w d :
  dict_get key d = Some w -> f v = f w -> f <$> (dict_set key v d).*2 = f <$> d.*2.
Proof.
  intros Hg Hf. induction d as [|[k x] d IH]; [done|]. cbn in Hg |- *. destruct (decide (k = key)) as [->|].
  - injection Hg as ->. cbn. by rewrite Hf.
  - cbn. by rewrite IH.
Qed.

Lemma dict_del_perm key v d : NoDup (keys d) -> dict_get key d = Some v -> d ≡ₚ (key, v) :: dict_del key d.
Proof.
  induction d as [|[k w] d IH]; [done|]. cbn [dict_get]. intros [Hk Hd]%NoDup_cons. unfold dict_del. rewrite filter_cons. cbn [fst].
  destruct (decide (k = key)) as [->|Hne].
  - intros [= ->]. rewrite decide_False by tauto. rewrite filter_all; [done|].
    intros [k' v'] Hin Heq. cbn in Heq. subst k'. apply Hk. by apply (list_elem_of_fmap_2 fst _ _ Hin).
  - intros Hg. rewrite decide_True by done. rewrite (IH Hd Hg) at 1. apply Permutation_swap.
Qed.

Lemma dict_get_perm d d' key : d ≡ₚ d' -> NoDup (keys d) -> dict_get key d = dict_get key d'.
Proof.
  intros E Hnd. assert (Hnd' : NoDup (keys d')) by (unfold keys in *; by rewrite <- E).
  destruct (dict_get key d) as [v|] eqn:Ed.
  - apply dict_get_Some in Ed. rewrite E in Ed. symmetry. by apply dict_get_elem.
  - symmetry. apply dict_get_None in Ed. apply dict_get_None. unfold keys in *. by rewrite <- E.
Qed.

Lemma move_to_end_perm key v d :
  NoDup (keys d) -> dict_get key d = Some v -> exists d', dict_move_to_end key d = Ok d' /\ d' ≡ₚ d.
Proof.
  intros Hnd Hg. unfold dict_move_to_end, dict_pop. rewrite Hg. cbn. eexists. split; [done|].
  rewrite (dict_del_perm key v d Hnd Hg) at 2. by rewrite Permutation_app_comm.
Qed.

Lemma dict_get_app key d d' : dict_get key (d ++ d') = match dict_get key d with Some v => Some v | None => dict_get key d' end.
Proof. induction d as [|[k w] d IH]; [done|]. cbn. destruct (decide (k = key)); [done|apply IH]. Qed.

Lemma length_del key v d : NoDup (keys d) -> dict_get key d = Some v -> length d = S (length (dict_del key d)).
Proof. intros Hnd Hg. by rewrite (dict_del_perm key v d Hnd Hg) at 1. Qed.

Lemma length_without (ks : list K) d :
  NoDup (keys d) -> NoDup ks -> (forall k, k ∈ ks -> is_Some (dict_get k d)) ->
  length d = (length ks + length (filter (fun x => x.1 ∉ ks) d))%nat.
Proof.
  revert d. induction ks as [|k ks IH]; intros d Hd Hks Hin.
  { rewrite filter_all; [done|]. intros x _. apply not_elem_of_nil. }
  apply NoDup_cons in Hks as [Hk Hks]. destruct (Hin k) as [v Hv]; [left|]. rewrite (length_del k v) by done.
  rewrite (IH (dict_del k d)); [|by apply NoDup_keys_del|done|].
  - cbn. do 2 f_equal. unfold dict_del. rewrite list_filter_filter. f_equal. apply list_filter_iff. intros x. rewrite not_elem_of_cons. tauto.
  - intros k' Hk'. rewrite dict_get_del, decide_False by (intros ->; done). apply Hin. by right.
Qed.

Lemma dict_get_filter (P : K * V -> Prop) (Q : K -> Prop) `{!forall x, Decision (P x), !forall k, Decision (Q k)} key d :
  (forall x, P x <-> Q x.1) -> dict_get key (filter P d) = if decide (Q key) then dict_get key d else None.
Proof.
  intros HPQ. induction d as [|[k v] d IH]; [by destruct (decide _)|]. rewrite filter_cons. specialize (HPQ (k, v)). cbn [fst dict_get] in *.
  destruct (decide (P (k, v))) as [Hk|Hk]; cbn [dict_get]; destruct (decide (k = key)) as [->|]; rewrite ?IH.
  - by rewrite decide_True by tauto.
  - done.
  - by rewrite !decide_False by tauto.
  - done.
Qed.

Lemma dict_set_app_l key v w d d' : dict_get key d = Some w -> dict_set key v (d ++ d') = dict_set key v d ++ d'.
Proof.
  induction d as [|[k x] d IH]; [done|]. cbn. destruct (decide (k = key)); [done|]. intros Hg. cbn. by rewrite IH.
Qed.

Lemma dict_set_app_r key v d d' : dict_get key d = None -> dict_set key v (d ++ d') = d ++ dict_set key v d'.
Proof.
  induction d as [|[k x] d IH]; [done|]. cbn. destruct (decide (k = key)); [done|]. intros Hg. cbn. by rewrite IH.
Qed.

Lemma dict_del_app key d d' : dict_del key (d ++ d') = dict_del key d ++ dict_del key d'.
Proof. apply filter_app. Qed.

Lemma dict_del_absent key d : dict_get key d = None -> dict_del key d = d.
Proof.
  intros Hg. apply filter_all. intros [k v] Hin Heq. cbn in Heq. subst k. apply (dict_get_None key d) in Hg.
  apply Hg. by apply (list_elem_of_fmap_2 fst _ _ Hin).
Qed.

Lemma dict_get_is_Some key d : is_Some (dict_get key d) <-> key ∈ keys d.
Proof.
  destruct (dict_get key d) as [v|] eqn:E.
  - split; [|eauto]. intros _. apply dict_get_Some in E. by apply (list_elem_of_fmap_2 fst _ _ E).
  - apply dict_get_None in E. split; [by intros []|done].
Qed.
End Dict.

(** Budgets: the sum of the values. *)
Lemma sum_set_new key n (d : dict Z) : key ∉ keys d -> sumZ (d.*2) + n = sumZ ((dict_set key n d).*2).
Proof. intros H. rewrite dict_set_new by done. rewrite fmap_app, sumZ_app. cbn. lia. Qed.

Lemma sum_del key n (d : dict Z) : NoDup (keys d) -> dict_get key d = Some n -> sumZ (d.*2) = sumZ ((dict_del key d).*2) + n.
Proof.
  induction d as [|[k w] d IH]; [done|]. cbn [dict_get]. intros [Hk Hd]%NoDup_cons. unfold dict_del. rewrite filter_cons. cbn [fst].
  destruct (decide (k = key)) as [->|Hne].
  - intros [= ->]. rewrite decide_False by tauto. rewrite filter_all; [rewrite fmap_cons, sumZ_cons; cbn; lia|].
    intros [k' v] Hin Heq. cbn in Heq. subst k'. apply Hk. by apply (list_elem_of_fmap_2 fst _ _ Hin).
  - rewrite decide_True by done. rewrite !fmap_cons, !sumZ_cons. cbn [snd]. intros Hg. rewrite (IH Hd Hg). unfold dict_del. lia.
Qed.
