(* ===== verification/RunnerInputs.v ===== *)
(** The inputs of a step in the model runner: [_prepare_inputs], [_prepare_input_ids],
    [_get_cumsum_and_arange] and [_calc_spec_decode_metadata] of
    [src/vllm/v1/worker/gpu_model_runner.py], [CpuGpuBuffer] of [src/vllm/v1/utils.py] and
    [SpecDecodeMetadata] of [src/vllm/v1/spec_decode/metadata.py].

    The runner flattens the scheduled tokens of the requests of the persistent batch
    into one sequence, with the positions, slots and lengths the attention reads, and
    selects the rows of the logits that verify the draft tokens.  The models with M-RoPE
    or XD-RoPE positions and the activation of LoRA adapters are left out. *)
From S2P Require Import Prelude Device NumPy Dict BlockTable RejectionSampler.
Local Open Scope Z_scope.

(** [CpuGpuBuffer]. *)
Record buffer (A : Type) := mkBuffer { cpu : list A; gpu : list A }.
Arguments mkBuffer {A} cpu gpu.
Arguments cpu {A} b.
Arguments gpu {A} b.

Definition buffer_to_gpu {A} (n : Z) (b : buffer A) : result (buffer A) :=
  gpu ← copy_to_gpu (cpu b) (gpu b) n; Ok (mkBuffer (cpu b) gpu).
Definition set_gpu {A} (b : buffer A) (gpu : list A) : buffer A := mkBuffer (cpu b) gpu.

(** * Segments *)

(** [_get_cumsum_and_arange]; [w] is the width of the cumulative sum. *)
Definition get_cumsum_and_arange (arange_np num_tokens : list Z) (w : Z) : result (list Z * list Z) :=
  let cu_num_tokens := np_cumsum w num_tokens in
  total_num_tokens ← py_index cu_num_tokens (-1);
  starts ← np_zip Z.sub cu_num_tokens num_tokens;
  cumsums_offsets ← np_repeat starts num_tokens;
  arange ← np_zip Z.sub (py_slice arange_np 0 total_num_tokens) cumsums_offsets;
  Ok (cu_num_tokens, arange).

(** * Metadata of speculative decoding *)
Record SpecDecodeMetadata := mkMetadata {
  draft_token_ids : list Z;
  num_draft_tokens : list Z;
  cu_num_draft_tokens : list Z;
  cu_num_sampled_tokens : list Z;
  target_logits_indices : list Z;
  bonus_logits_indices : list Z;
  logits_indices : list Z;
  max_spec_len : Z;
}.

(** [max(l)] of a list: [ValueError] when it is empty. *)
Definition py_list_max (l : list Z) : result Z :=
  match l with [] => Err ValueError | x :: l => Ok (fold_left Z.max l x) end.

(** The constructor with [__post_init__]. *)
Definition new_metadata (draft num cu_draft cu_sampled target bonus logits : list Z) : result SpecDecodeMetadata :=
  m ← py_list_max num; Ok (mkMetadata draft num cu_draft cu_sampled target bonus logits m).

(** [_calc_spec_decode_metadata]. *)
Definition calc_spec_decode_metadata (arange_np input_ids_gpu num_draft_tokens cu_num_scheduled_tokens : list Z) :
    result SpecDecodeMetadata :=
  let num_sampled_tokens := (fun n => n + 1) <$> num_draft_tokens in
  '(cu_num_sampled_tokens, arange) ← get_cumsum_and_arange arange_np num_sampled_tokens 32;
  first ← np_zip Z.sub cu_num_scheduled_tokens num_sampled_tokens;
  logits_indices ← np_repeat first num_sampled_tokens;
  logits_indices ← np_zip Z.add logits_indices arange;
  let bonus_logits_indices := (fun n => n - 1) <$> cu_num_sampled_tokens in
  '(cu_num_draft_tokens, arange) ← get_cumsum_and_arange arange_np num_draft_tokens 32;
  first ← np_zip Z.sub cu_num_sampled_tokens num_sampled_tokens;
  target_logits_indices ← np_repeat first num_draft_tokens;
  target_logits_indices ← np_zip Z.add target_logits_indices arange;
  draft_token_ids ← np_take input_ids_gpu logits_indices;
  draft_token_ids ← np_take draft_token_ids ((fun i => i + 1) <$> target_logits_indices);
  new_metadata draft_token_ids num_draft_tokens cu_num_draft_tokens cu_num_sampled_tokens
    target_logits_indices bonus_logits_indices logits_indices.

(** The rows of a flat output of the model that are verified and that give the bonus
    tokens: the runner keeps the rows [logits_indices], the sampler splits them. *)
Definition verify_rows {A} (metadata : SpecDecodeMetadata) (hidden_states : list A) : result (list A * list A) :=
  logits ← np_take hidden_states (logits_indices metadata);
  bonus ← np_take logits (bonus_logits_indices metadata);
  target ← np_take logits (target_logits_indices metadata);
  Ok (target, bonus).

(** * Input ids *)
Section Inputs.
(** [E]: rows of prompt embeddings. *)
Context {E : Type}.

Record id_buffers := mkIds {
  input_ids : buffer Z;
  is_token_ids : buffer bool;
  inputs_embeds : buffer E;
}.

(** [tensor.scatter_(0, index, src)]. *)
Definition scatter {A} (a : list A) (index : list Z) (src : list A) : result (list A) :=
  foldM (fun a '(i, x) => store a i x) (zip index src) a.

(** The lists the loop of [_prepare_input_ids] builds. *)
Record common := mkCommon {
  sample_flattened_indices : list Z;
  spec_flattened_indices : list Z;
  prev_common_req_indices : list Z;
  prev_draft_token_indices : list Z;
  indices_match : bool;
  max_flattened_index : Z;
  total_num_spec_tokens : Z;
}.
Definition no_common : common := mkCommon [] [] [] [] true (-1) 0.

Definition common_step (num_spec_tokens : Z) (prev_req_id_to_index : dict Z) (scheduled_spec_tokens : dict (list Z))
    (cu_num_tokens : list Z) (c : common) (item : string * Z) : result common :=
  let '(req_id, cur_index) := item in
  match dict_get req_id prev_req_id_to_index with
  | None => Ok c
  | Some prev_index =>
      let draft_len := py_len (default [] (dict_get req_id scheduled_spec_tokens)) in
      end_ ← py_index cu_num_tokens cur_index;
      let flattened_index := end_ - 1 in
      let start := prev_index * num_spec_tokens in
      Ok (mkCommon
            (sample_flattened_indices c ++ [flattened_index - draft_len])
            (spec_flattened_indices c ++ py_range (flattened_index - draft_len + 1) (flattened_index + 1))
            (prev_common_req_indices c ++ [prev_index])
            (prev_draft_token_indices c ++ py_range start (start + draft_len))
            (indices_match c && (prev_index =? flattened_index))
            (Z.max (max_flattened_index c) flattened_index)
            (total_num_spec_tokens c + draft_len))
  end.

(** [copy_to_gpu] of the buffers of [_prepare_input_ids]. *)
Definition copy_ids (enable_prompt_embeds : bool) (total : Z) (b : id_buffers) : result id_buffers :=
  ids ← buffer_to_gpu total (input_ids b);
  if enable_prompt_embeds then
    embeds ← buffer_to_gpu total (inputs_embeds b);
    is_token ← buffer_to_gpu total (is_token_ids b);
    Ok (mkIds ids is_token embeds)
  else Ok (mkIds ids (is_token_ids b) (inputs_embeds b)).

Definition set_ids_gpu (ids : list Z) (b : id_buffers) : id_buffers :=
  mkIds (set_gpu (input_ids b) ids) (is_token_ids b) (inputs_embeds b).

(** [prev_sampled_token_ids[rows, 0]]. *)
Definition first_column (rows : list (list Z)) : result (list Z) := mapR (fun row => py_index row 0) rows.

(** The part of [_prepare_input_ids] after the loop. *)
Definition scatter_ids (enable_prompt_embeds : bool) (prev_sampled_token_ids : list (list Z))
    (draft_token_ids : option (list (list Z))) (c : common) (b : id_buffers) : result id_buffers :=
  let num_common_tokens := py_len (sample_flattened_indices c) in
  if num_common_tokens =? 0 then Ok b else
  if indices_match c && (max_flattened_index c =? num_common_tokens - 1) then
    ids ← first_column (py_slice prev_sampled_token_ids 0 num_common_tokens);
    ids ← np_set_slice (gpu (input_ids b)) 0 num_common_tokens ids;
    let b := set_ids_gpu ids b in
    if enable_prompt_embeds then
      is_token ← np_set_slice (gpu (is_token_ids b)) 0 num_common_tokens [true];
      Ok (mkIds (input_ids b) (set_gpu (is_token_ids b) is_token) (inputs_embeds b))
    else Ok b
  else
    rows ← np_take prev_sampled_token_ids (prev_common_req_indices c);
    src ← first_column rows;
    ids ← scatter (gpu (input_ids b)) (sample_flattened_indices c) src;
    let b := set_ids_gpu ids b in
    match draft_token_ids, spec_flattened_indices c with
    | None, _ | _, [] => Ok b
    | Some draft_token_ids, _ :: _ =>
        src ← np_take (concat draft_token_ids) (prev_draft_token_indices c);
        ids ← scatter (gpu (input_ids b)) (spec_flattened_indices c) src;
        Ok (set_ids_gpu ids b)
    end.

(** [_prepare_input_ids]; [prev] holds [prev_sampled_token_ids] and
    [prev_req_id_to_index] of the batch. *)
Definition prepare_input_ids (enable_prompt_embeds : bool) (num_spec_tokens : Z)
    (prev : option (list (list Z)) * option (dict Z)) (draft_token_ids : option (list (list Z)))
    (req_id_to_index : dict Z) (scheduled_spec_tokens : dict (list Z)) (total_num_scheduled_tokens : Z)
    (cu_num_tokens : list Z) (b : id_buffers) : result id_buffers :=
  match prev.1 with
  | None => copy_ids enable_prompt_embeds total_num_scheduled_tokens b
  | Some prev_sampled_token_ids =>
      prev_req_id_to_index ← of_option AssertionError prev.2;
      c ← foldM (common_step num_spec_tokens prev_req_id_to_index scheduled_spec_tokens cu_num_tokens)
            req_id_to_index no_common;
      let num_common_tokens := py_len (sample_flattened_indices c) in
      let total_without_spec := total_num_scheduled_tokens - total_num_spec_tokens c in
      b ← (if num_common_tokens <? total_without_spec
           then copy_ids enable_prompt_embeds total_num_scheduled_tokens b else Ok b);
      scatter_ids enable_prompt_embeds prev_sampled_token_ids draft_token_ids c b
  end.

(** * [_prepare_inputs] *)

(** What the step reads of the input batch and of the cached requests. *)
Record batch := mkBatch {
  req_ids : list string;
  req_id_to_index : dict Z;
  token_ids_cpu : list (list Z);
  batch_is_token_ids : list (list bool);
  req_prompt_embeds : gmap Z (list E);
  num_computed_tokens_cpu : list Z;
  num_prompt_tokens : list Z;
  prev_sampled_token_ids : option (list (list Z));
  prev_req_id_to_index : option (dict Z);
  request_num_tokens : dict Z;  (* [self.requests[r].num_tokens] *)
}.

(** The persistent buffers the step writes. *)
Record buffers := mkBuffers {
  ids : id_buffers;
  positions : buffer Z;
  query_start_loc : buffer Z;
  seq_lens : buffer Z;
  discard_request_mask : buffer bool;
  num_decode_draft_tokens : buffer Z;
  block_tables : list BlockTable;
}.

Record config := mkConfig {
  arange_np : list Z;
  max_model_len : Z;  (* [token_ids_cpu.shape[1]] *)
  enable_prompt_embeds : bool;
  num_spec_tokens : Z;
  drafts : option (list (list Z));  (* [self._draft_token_ids] *)
}.

(** The loop that copies prompt embeddings. *)
Definition embeds_step (b : batch) (num_scheduled_tokens : list Z) (s : list E * Z) (req_idx : Z) : result (list E * Z) :=
  let '(embeds, output_idx) := s in
  num_sched ← py_index num_scheduled_tokens req_idx;
  let skip := Ok (embeds, output_idx + num_sched) in
  match req_prompt_embeds b !! req_idx with
  | None => skip
  | Some req_embeds =>
      if num_sched <=? 0 then skip else
      start_pos ← py_index (num_computed_tokens_cpu b) req_idx;
      if py_len req_embeds <=? start_pos then skip else
      let actual_end := Z.min (start_pos + num_sched) (py_len req_embeds) in
      let actual_num_sched := actual_end - start_pos in
      if 0 <? actual_num_sched then
        embeds ← np_set_slice embeds output_idx (output_idx + actual_num_sched) (py_slice req_embeds start_pos actual_end);
        Ok (embeds, output_idx + num_sched)
      else skip
  end.

(** The draft counts of the batch, and those of requests past their prompt. *)
Definition draft_count_step (b : batch) (s : list Z * list Z) (item : string * list Z) : result (list Z * list Z) :=
  let '(num_draft_tokens, num_decode) := s in
  let '(req_id, draft_token_ids) := item in
  req_idx ← of_option KeyError (dict_get req_id (req_id_to_index b));
  num_draft_tokens ← np_put num_draft_tokens req_idx (py_len draft_token_ids);
  computed ← py_index (num_computed_tokens_cpu b) req_idx;
  prompt ← py_index (num_prompt_tokens b) req_idx;
  if prompt <=? computed then
    num_decode ← np_put num_decode req_idx (py_len draft_token_ids);
    Ok (num_draft_tokens, num_decode)
  else Ok (num_draft_tokens, num_decode).

(** Positions, token ids and prompt embeddings. *)
Definition prepare_tokens (c : config) (b : batch) (total : Z) (num_scheduled_tokens req_indices arange : list Z)
    (s : buffers) : result (list Z * buffer Z * id_buffers) :=
  computed ← np_take (num_computed_tokens_cpu b) req_indices;
  pos ← np_zip Z.add computed arange;
  pos ← np_set_slice (cpu (positions s)) 0 total pos;
  let positions_np := py_slice pos 0 total in
  token_indices ← np_zip (fun p r => p + r * max_model_len c) positions_np req_indices;
  tokens ← index_select (concat (token_ids_cpu b)) token_indices;
  tokens ← np_set_slice (cpu (input_ids (ids s))) 0 total tokens;
  is_token ← (if enable_prompt_embeds c then
                l ← index_select (concat (batch_is_token_ids b)) token_indices;
                np_set_slice (cpu (is_token_ids (ids s))) 0 total l
              else Ok (cpu (is_token_ids (ids s))));
  embeds ← (if decide (req_prompt_embeds b = ∅) then Ok (cpu (inputs_embeds (ids s))) else
            '(embeds, _) ← foldM (embeds_step b num_scheduled_tokens) (py_range 0 (py_len (req_id_to_index b)))
                             (cpu (inputs_embeds (ids s)), 0);
            Ok embeds);
  Ok (positions_np, mkBuffer pos (gpu (positions s)),
      mkIds (mkBuffer tokens (gpu (input_ids (ids s)))) (mkBuffer is_token (gpu (is_token_ids (ids s))))
        (mkBuffer embeds (gpu (inputs_embeds (ids s))))).

(** [query_start_loc], [seq_lens] and the mask of requests that are not sampled. *)
Definition prepare_lengths (b : batch) (num_reqs : Z) (num_scheduled_tokens cu_num_tokens : list Z) (s : buffers) :
    result (buffer Z * buffer Z * buffer bool) :=
  last_ ← py_index cu_num_tokens (-1);
  qsl ← np_put (cpu (query_start_loc s)) 0 0;
  qsl ← np_set_slice qsl 1 (num_reqs + 1) (c_int 32 <$> cu_num_tokens);
  let qsl := np_fill_from qsl (num_reqs + 1) (c_int 32 last_) in
  lens ← np_zip (fun x y => c_int 32 (x + y)) (py_slice (num_computed_tokens_cpu b) 0 num_reqs) num_scheduled_tokens;
  seq ← np_set_slice (cpu (seq_lens s)) 0 num_reqs lens;
  let seq := np_fill_from seq num_reqs 0 in
  num_tokens ← mapR (fun r => of_option KeyError (dict_get r (request_num_tokens b))) (req_ids b);
  mask ← np_zip Z.ltb (py_slice seq 0 num_reqs) num_tokens;
  mask ← np_set_slice (cpu (discard_request_mask s)) 0 num_reqs mask;
  discard ← buffer_to_gpu num_reqs (mkBuffer mask (gpu (discard_request_mask s)));
  Ok (mkBuffer qsl qsl, mkBuffer seq seq, discard).

(** The rows of the logits that are sampled. *)
Definition prepare_sampling (c : config) (b : batch) (num_reqs : Z) (scheduled_spec : dict (list Z))
    (cu_num_tokens qsl ids_gpu : list Z) (ndd : buffer Z) :
    result (list Z * option SpecDecodeMetadata * buffer Z) :=
  match scheduled_spec with
  | [] => Ok ((fun x => x - 1) <$> drop 1 (py_slice qsl 0 (num_reqs + 1)), None, ndd)
  | _ =>
      '(num_draft, num_decode) ← foldM (draft_count_step b) scheduled_spec
                                   (replicate (Z.to_nat num_reqs) 0, replicate (Z.to_nat num_reqs) (-1));
      metadata ← calc_spec_decode_metadata (arange_np c) ids_gpu num_draft cu_num_tokens;
      ndd_cpu ← np_set_slice (cpu ndd) 0 num_reqs num_decode;
      let ndd_cpu := np_fill_from ndd_cpu num_reqs (-1) in
      Ok (logits_indices metadata, Some metadata, mkBuffer ndd_cpu ndd_cpu)
  end.

(** [_prepare_inputs]. *)
Definition prepare_inputs (c : config) (b : batch) (total : Z) (scheduled_spec : dict (list Z))
    (num_scheduled_tokens : list Z) (s : buffers) : result (buffers * list Z * option SpecDecodeMetadata) :=
  _ ← py_assert (0 <? total);
  let num_reqs := py_len (req_id_to_index b) in
  _ ← py_assert (0 <? num_reqs);
  tables ← MultiGroupBlockTable.commit_block_table num_reqs (block_tables s);
  req_indices ← np_repeat (py_slice (arange_np c) 0 num_reqs) num_scheduled_tokens;
  '(cu_num_tokens, arange) ← get_cumsum_and_arange (arange_np c) num_scheduled_tokens 64;
  '(positions_np, pos, ids) ← prepare_tokens c b total num_scheduled_tokens req_indices arange s;
  tables ← MultiGroupBlockTable.compute_slot_mapping req_indices positions_np tables;
  tables ← MultiGroupBlockTable.commit_slot_mapping total tables;
  '(qsl, seq, discard) ← prepare_lengths b num_reqs num_scheduled_tokens cu_num_tokens s;
  ids ← prepare_input_ids (enable_prompt_embeds c) (num_spec_tokens c) (prev_sampled_token_ids b, prev_req_id_to_index b)
          (drafts c) (req_id_to_index b) scheduled_spec total cu_num_tokens ids;
  pos ← buffer_to_gpu total pos;
  '(logits_indices, metadata, ndd) ← prepare_sampling c b num_reqs scheduled_spec cu_num_tokens (gpu qsl)
                                       (gpu (input_ids ids)) (num_decode_draft_tokens s);
  Ok (mkBuffers ids pos qsl seq discard ndd tables, logits_indices, metadata).
End Inputs.
