(* ===== verification/RunnerInputsFacts.v ===== *)
(** The inputs of a step are the scheduled tokens of the requests, and the verified rows
    are those of the draft tokens: theorems about [RunnerInputs.v]. *)
From S2P Require Import Prelude Device NumPy Dict BlockTable RejectionSampler RunnerInputs.
Local Open Scope Z_scope.

(** * Segments *)
Section Segments.
Context {K : Type}.
Implicit Types (l : list K) (n d : K -> nat).

Lemma bind_starts {A} n acc l (h : K -> list A) : l ≫= h = starts_from n acc l ≫= (fun x => h x.2).
Proof. revert acc. induction l as [|k l IH]; intros acc; [done|]. cbn [starts_from]. rewrite !bind_cons. by rewrite (IH (acc + n k)%nat). Qed.

Lemma fmap_starts {A} n acc l (h : K -> A) : h <$> l = (fun x => h x.2) <$> starts_from n acc l.
Proof. rewrite <- (starts_from_snd n acc l) at 1. by rewrite <- list_fmap_compose. Qed.

Lemma zip_replicate_seqZ (a b : Z) (m : nat) :
  zip_with Z.add (replicate m a) (seqZ b (Z.of_nat m)) = seqZ (a + b) (Z.of_nat m).
Proof.
  rewrite zip_with_replicate_l by by rewrite length_seqZ, Nat2Z.id. unfold seqZ. rewrite <- list_fmap_compose.
  apply list_fmap_ext. intros. cbn. lia.
Qed.

Lemma length_starts_bind {A} n acc l (g : nat * K -> list A) :
  (forall x, length (g x) = n x.2) -> length (starts_from n acc l ≫= g) = total n l.
Proof.
  intros H. revert acc. induction l as [|k l IH]; intros acc; [done|]. cbn [starts_from].
  by rewrite bind_cons, length_app, H, IH.
Qed.

Definition ends n l : list Z := (fun x => Z.of_nat (x.1 + n x.2)) <$> starts n l.

Lemma ends_last n l : l <> [] -> py_index (ends n l) (-1) = Ok (Z.of_nat (total n l)).
Proof.
  intros Hl. destruct (exists_last (l := starts n l)) as (st & x & Es); [by destruct l|].
  assert (Ex : (x.1 + n x.2)%nat = total n l) by (apply (last_starts n 0); unfold starts in Es; rewrite Es; apply last_snoc).
  unfold ends. rewrite Es, fmap_app. cbn [fmap list_fmap]. by rewrite py_index_last, Ex.
Qed.

Lemma ends_bound n l z : z ∈ ends n l -> 0 <= z <= Z.of_nat (total n l).
Proof. intros (x & -> & Hx%starts_bound)%list_elem_of_fmap. lia. Qed.

Lemma length_ends n l : length (ends n l) = length l.
Proof. unfold ends, starts. by rewrite <- (starts_from_snd n 0 l) at 2; rewrite !length_fmap. Qed.

Lemma arange_slice (m N : nat) : (m <= N)%nat -> py_slice (seqZ 0 (Z.of_nat N)) 0 (Z.of_nat m) = seqZ 0 (Z.of_nat m).
Proof.
  intros H. replace (Z.of_nat N) with (Z.of_nat m + Z.of_nat (N - m)) by lia. rewrite seqZ_app by lia.
  apply py_slice_prefix. rewrite length_seqZ. lia.
Qed.

(** [_get_cumsum_and_arange] gives the ends of the segments and counts within each. *)
Lemma get_cumsum_and_arange_ok n l w N :
  l <> [] -> 0 < w -> Z.of_nat (total n l) < 2 ^ (w - 1) -> (total n l <= N)%nat ->
  get_cumsum_and_arange (seqZ 0 (Z.of_nat N)) ((fun k => Z.of_nat (n k)) <$> l) w
  = Ok ((fun x => Z.of_nat (x.1 + n x.2)) <$> starts n l, l ≫= (fun k => seqZ 0 (Z.of_nat (n k)))).
Proof.
  intros Hl Hw Ht HN. unfold get_cumsum_and_arange. rewrite np_cumsum_starts by done.
  fold (ends n l). rewrite ends_last by done. cbn [mbind result_bind].
  unfold ends.
  rewrite (fmap_starts n 0 l). fold (starts n l). rewrite np_zip_fmap. cbn [mbind result_bind].
  rewrite (list_fmap_ext (fun x => Z.of_nat (x.1 + n x.2) - Z.of_nat (n x.2)) (fun x => Z.of_nat x.1) (starts n l)) by (intros; lia).
  rewrite np_repeat_fmap. cbn [mbind result_bind].
  rewrite arange_slice by done. rewrite np_zip_same.
  - cbn [mbind result_bind]. do 2 f_equal. apply (seqZ_starts n 0).
  - rewrite length_seqZ, Nat2Z.id. symmetry. apply length_starts_bind. intros. by rewrite length_replicate.
Qed.

(** Reading a part of every segment of a buffer. *)
Lemma take_segments_from {A} n (o m : K -> nat) (g : K -> list A) pre l rest :
  (forall k, k ∈ l -> length (g k) = n k /\ (o k + m k <= n k)%nat) ->
  np_take (pre ++ (l ≫= g) ++ rest)
    (starts_from n (length pre) l ≫= (fun x => seqZ (Z.of_nat (x.1 + o x.2)) (Z.of_nat (m x.2))))
  = Ok (l ≫= (fun k => take (m k) (drop (o k) (g k)))).
Proof.
  revert pre. induction l as [|k l IH]; intros pre H; [done|].
  destruct (H k ltac:(set_solver)) as [Hk Ho]. cbn [starts_from]. rewrite !bind_cons. cbn [fst snd].
  rewrite np_take_app, np_take_seqZ by (rewrite !length_app, Hk; lia). cbn [mbind result_bind].
  specialize (IH (pre ++ g k) ltac:(set_solver)). rewrite length_app, Hk, <- !app_assoc in IH.
  rewrite <- !app_assoc, IH. cbn [mbind result_bind]. do 2 f_equal.
  rewrite drop_app_add', drop_app_le, take_app_le by (rewrite ?length_drop; lia). done.
Qed.

Lemma take_segments {A} n (o m : K -> nat) (g : K -> list A) l rest :
  (forall k, k ∈ l -> length (g k) = n k /\ (o k + m k <= n k)%nat) ->
  np_take ((l ≫= g) ++ rest) (starts n l ≫= (fun x => seqZ (Z.of_nat (x.1 + o x.2)) (Z.of_nat (m x.2))))
  = Ok (l ≫= (fun k => take (m k) (drop (o k) (g k)))).
Proof. apply (take_segments_from n o m g []). Qed.

Lemma bind_ext_in {A B} (f g : A -> list B) (xs : list A) : (forall x, x ∈ xs -> f x = g x) -> xs ≫= f = xs ≫= g.
Proof. induction xs as [|x xs IH]; intros H; [done|]. rewrite !bind_cons, (H x), IH; set_solver. Qed.

Lemma elem_starts n acc l x : x ∈ starts_from n acc l -> x.2 ∈ l.
Proof. intros H. rewrite <- (starts_from_snd n acc l). by apply (list_elem_of_fmap_2 snd). Qed.

Lemma fmap_replicate_const {A B} (f : A -> B) (xs : list A) v : (forall x, x ∈ xs -> f x = v) -> f <$> xs = replicate (length xs) v.
Proof. induction xs as [|x xs IH]; intros H; [done|]. rewrite fmap_cons, (H x), IH by set_solver. done. Qed.

(** Shifting an index array made of ranges. *)
Lemma fmap_bind_seqZ (z : Z) (st : list (nat * K)) (a m : nat * K -> nat) :
  (fun i => i + z) <$> (st ≫= (fun x => seqZ (Z.of_nat (a x)) (Z.of_nat (m x))))
  = st ≫= (fun x => seqZ (Z.of_nat (a x) + z) (Z.of_nat (m x))).
Proof.
  induction st as [|x st IH]; [done|]. rewrite !bind_cons, fmap_app, IH. f_equal. unfold seqZ. rewrite <- list_fmap_compose.
  apply list_fmap_ext. intros. cbn. lia.
Qed.

(** Adding the counts within the segments to a value per segment. *)
Lemma add_arange n l (a : nat * K -> Z) (m : K -> nat) :
  np_zip Z.add (starts n l ≫= (fun x => replicate (m x.2) (a x))) (l ≫= (fun k => seqZ 0 (Z.of_nat (m k))))
  = Ok (starts n l ≫= (fun x => seqZ (a x) (Z.of_nat (m x.2)))).
Proof.
  rewrite (bind_starts n 0 l (fun k => seqZ 0 (Z.of_nat (m k)))). fold (starts n l).
  rewrite np_zip_bind by (intros; rewrite length_replicate, length_seqZ; lia). f_equal.
  apply list_bind_ext; [|done]. intros x. by rewrite zip_replicate_seqZ, Z.add_0_r.
Qed.

(** The rows of the logits that are kept, and which of them verify a draft token or
    follow the last one. *)
Definition sampled_rows n d l : list Z :=
  starts n l ≫= (fun x => seqZ (Z.of_nat (x.1 + (n x.2 - S (d x.2)))) (Z.of_nat (S (d x.2)))).
Definition target_rows d l : list Z :=
  starts (fun k => S (d k)) l ≫= (fun x => seqZ (Z.of_nat (x.1 + 0)) (Z.of_nat (d x.2))).
Definition bonus_rows d l : list Z := (fun x => Z.of_nat (x.1 + d x.2)) <$> starts (fun k => S (d k)) l.
Definition max_drafts d l : Z := fold_left Z.max (tail ((fun k => Z.of_nat (d k)) <$> l)) (default 0 (head ((fun k => Z.of_nat (d k)) <$> l))).

Lemma total_mono n d l : (forall k, k ∈ l -> (d k <= n k)%nat) -> (total d l <= total n l)%nat.
Proof.
  induction l as [|k l IH]; intros H; [done|]. rewrite !total_cons. specialize (H k) as Hk. specialize (IH ltac:(set_solver)).
  specialize (Hk ltac:(set_solver)). lia.
Qed.

(** The draft tokens among the sampled positions: all but the first of each request. *)
Lemma take_drafts n d (g : K -> list Z) l :
  (forall k, k ∈ l -> length (g k) = n k /\ (S (d k) <= n k)%nat) ->
  np_take (l ≫= (fun k => take (S (d k)) (drop (n k - S (d k)) (g k)))) ((fun i => i + 1) <$> target_rows d l)
  = Ok (l ≫= (fun k => drop (n k - d k) (g k))).
Proof.
  intros Hk.
  assert (ET1 : (fun i => i + 1) <$> target_rows d l
    = starts (fun k => S (d k)) l ≫= (fun x => seqZ (Z.of_nat (x.1 + 1)) (Z.of_nat (d x.2)))).
  { unfold target_rows. rewrite (fmap_bind_seqZ 1 _ (fun x => x.1 + 0)%nat (fun x => d x.2)).
    apply bind_ext_in. intros. f_equal. lia. }
  rewrite ET1.
  rewrite <- (app_nil_r (l ≫= (fun k => take (S (d k)) (drop (n k - S (d k)) (g k))))).
  rewrite (take_segments (fun k => S (d k)) (fun _ => 1%nat) d).
  2:{ intros k Hin. destruct (Hk k Hin). rewrite length_take, length_drop. lia. }
  f_equal. apply bind_ext_in. intros k Hin. destruct (Hk k Hin).
  rewrite take_ge by (rewrite length_drop, length_take, length_drop; lia).
  rewrite skipn_firstn_comm, drop_drop, take_ge by (rewrite length_drop; lia). f_equal. lia.
Qed.

Lemma calc_spec_decode_metadata_ok n d (g : K -> list Z) l rest N :
  l <> [] -> (total n l <= N)%nat -> Z.of_nat (total n l) < 2 ^ 31 ->
  (forall k, k ∈ l -> length (g k) = n k /\ (S (d k) <= n k)%nat) ->
  calc_spec_decode_metadata (seqZ 0 (Z.of_nat N)) ((l ≫= g) ++ rest) ((fun k => Z.of_nat (d k)) <$> l) (ends n l)
  = Ok (mkMetadata (l ≫= (fun k => drop (n k - d k) (g k))) ((fun k => Z.of_nat (d k)) <$> l) (ends d l)
          (ends (fun k => S (d k)) l) (target_rows d l) (bonus_rows d l) (sampled_rows n d l) (max_drafts d l)).
Proof.
  intros Hl HN Hb Hk. unfold calc_spec_decode_metadata.
  assert (Hs : (total (fun k => S (d k)) l <= total n l)%nat) by (apply total_mono; intros; by apply Hk).
  assert (Hd : (total d l <= total n l)%nat) by (apply total_mono; intros; destruct (Hk k); [done|lia]).
  assert (E1 : (fun z => z + 1) <$> ((fun k => Z.of_nat (d k)) <$> l) = (fun k => Z.of_nat (S (d k))) <$> l)
    by (rewrite <- list_fmap_compose; apply list_fmap_ext; intros; cbn; lia).
  rewrite E1, (get_cumsum_and_arange_ok (fun k => S (d k)) l 32 N) by (done || change (32 - 1) with 31; lia). cbn [mbind result_bind].
  assert (E2 : forall m, np_zip Z.sub (ends m l) ((fun k => Z.of_nat (S (d k))) <$> l)
    = Ok ((fun x => Z.of_nat (x.1 + m x.2) - Z.of_nat (S (d x.2))) <$> starts m l)).
  { intros m. unfold ends, starts. rewrite (fmap_starts m 0 l (fun k => Z.of_nat (S (d k)))). by rewrite np_zip_fmap. }
  rewrite E2. cbn [mbind result_bind].
  rewrite (fmap_starts n 0 l (fun k => Z.of_nat (S (d k)))) at 1. fold (starts n l).
  rewrite np_repeat_fmap. cbn [mbind result_bind].
  rewrite (add_arange n l _ (fun k => S (d k))). cbn [mbind result_bind].
  rewrite (get_cumsum_and_arange_ok d l 32 N) by (done || change (32 - 1) with 31; lia). cbn [mbind result_bind].
  change ((fun x => Z.of_nat (x.1 + S (d x.2))) <$> starts (fun k => S (d k)) l) with (ends (fun k => S (d k)) l).
  rewrite E2. cbn [mbind result_bind].
  rewrite (fmap_starts (fun k => S (d k)) 0 l (fun k => Z.of_nat (d k))) at 1. fold (starts (fun k => S (d k)) l).
  rewrite np_repeat_fmap. cbn [mbind result_bind].
  rewrite (add_arange (fun k => S (d k)) l _ d). cbn [mbind result_bind].
  assert (EL : (starts n l ≫= (fun x => seqZ (Z.of_nat (x.1 + n x.2) - Z.of_nat (S (d x.2))) (Z.of_nat (S (d x.2)))))
    = sampled_rows n d l).
  { apply bind_ext_in. intros x Hx%elem_starts. destruct (Hk _ Hx). f_equal. lia. }
  assert (ET : (starts (fun k => S (d k)) l ≫= (fun x => seqZ (Z.of_nat (x.1 + S (d x.2)) - Z.of_nat (S (d x.2))) (Z.of_nat (d x.2))))
    = target_rows d l).
  { apply bind_ext_in. intros x _. f_equal. lia. }
  assert (EB : (fun z => z - 1) <$> ends (fun k => S (d k)) l = bonus_rows d l).
  { unfold ends, bonus_rows. rewrite <- list_fmap_compose. apply list_fmap_ext. intros. cbn. lia. }
  rewrite EL, ET, EB. unfold sampled_rows at 1.
  rewrite (take_segments n (fun k => n k - S (d k))%nat (fun k => S (d k)) g) by (intros k Hin; destruct (Hk k Hin); split; [done|lia]).
  cbn [mbind result_bind].
  rewrite (take_drafts n d g) by done. cbn [mbind result_bind].
  unfold new_metadata, max_drafts. destruct l as [|k l]; [done|]. done.
Qed.
End Segments.

(** Three passes over a list, each pass on the results of the one before. *)
Lemma mapR_chain {A B C D} (f : A -> result B) (g : B -> result C) (h : C -> result D) (R : A -> D -> Prop) xs :
  (forall x, x ∈ xs -> exists y z w, f x = Ok y /\ g y = Ok z /\ h z = Ok w /\ R x w) ->
  exists ys zs ws, mapR f xs = Ok ys /\ mapR g ys = Ok zs /\ mapR h zs = Ok ws /\ Forall2 R xs ws.
Proof.
  induction xs as [|x xs IH]; intros H; [by exists [], [], []|].
  destruct (H x ltac:(set_solver)) as (y & z & w & E1 & E2 & E3 & Hr).
  destruct IH as (ys & zs & ws & F1 & F2 & F3 & Hrs); [set_solver|].
  exists (y :: ys), (z :: zs), (w :: ws). cbn. rewrite E1, E2, E3, F1, F2, F3. repeat split. by constructor.
Qed.

(** * The requests of a batch *)

(** A row of the input batch: the request, its row of token ids, what is computed and
    scheduled, and the lengths of its prompt and of its tokens. *)
Record row := mkRow {
  r_id : string;
  r_tokens : list Z;
  r_computed : nat;
  r_sched : nat;
  r_prompt : nat;
  r_num_tokens : nat;
}.

(** Rows with their indices. *)
Abbreviation irow := (nat * row)%type.
Definition enum (l : list row) : list irow := imap pair l.
Definition sched (x : irow) : nat := r_sched x.2.

Lemma enum_lookup l i x : enum l !! i = Some x <-> x.1 = i /\ l !! i = Some x.2.
Proof.
  unfold enum. rewrite list_lookup_imap. destruct (l !! i) as [r|]; cbn; [|naive_solver].
  destruct x as [j r']. cbn. naive_solver.
Qed.

Lemma elem_enum l x : x ∈ enum l <-> l !! x.1 = Some x.2.
Proof.
  rewrite list_elem_of_lookup. split.
  - intros [i [<- E]%enum_lookup]. done.
  - intros E. exists x.1. by apply enum_lookup.
Qed.

Lemma length_enum l : length (enum l) = length l.
Proof. apply length_imap. Qed.

Lemma fmap_enum {A} (f : row -> A) l : (fun x => f x.2) <$> enum l = f <$> l.
Proof. unfold enum. rewrite fmap_imap. apply list_eq. intros i. rewrite list_lookup_imap, list_lookup_fmap. done. Qed.

Lemma index_enum l : (fun x : irow => Z.of_nat x.1) <$> enum l = seqZ 0 (Z.of_nat (length l)).
Proof.
  apply list_eq. intros i. rewrite list_lookup_fmap. destruct (decide (i < length l)%nat) as [Hi|Hi].
  - destruct (lookup_lt_is_Some_2 l i Hi) as [r Hr]. rewrite lookup_seqZ_lt by lia.
    rewrite (proj2 (enum_lookup l i (i, r))) by done. done.
  - rewrite lookup_seqZ_ge by lia. rewrite (proj2 (lookup_ge_None _ _)) by (rewrite length_enum; lia). done.
Qed.

(** Writing the entry of one row. *)
Lemma insert_enum {A} (f : irow -> A) l i v :
  <[i := v]> (f <$> enum l) = (fun x => if decide (x.1 = i) then v else f x) <$> enum l.
Proof.
  apply list_eq. intros j. rewrite list_lookup_insert, !list_lookup_fmap, length_fmap, length_enum.
  destruct (enum l !! j) as [x|] eqn:Ex.
  - apply enum_lookup in Ex as [<- E]. cbn. apply lookup_lt_Some in E as Hlt. repeat case_decide; naive_solver lia.
  - cbn. rewrite decide_False; [done|]. intros [-> Hlt]. apply lookup_ge_None in Ex. rewrite length_enum in Ex. lia.
Qed.

Section Batch.
Context {E : Type}.
Implicit Types (b : @batch E) (l : list row) (spec : dict (list Z)).

(** Draft tokens scheduled for a row. *)
Definition drafts_of spec (x : irow) : nat := length (default [] (dict_get (r_id x.2) spec)).

(** What the batch keeps of its rows. *)
Record batch_ok (c : @config) b l spec : Prop := {
  ok_nonempty : l <> [];
  ok_ids : req_ids b = r_id <$> l;
  ok_index : forall i r, l !! i = Some r -> dict_get (r_id r) (req_id_to_index b) = Some (Z.of_nat i);
  ok_index_len : length (req_id_to_index b) = length l;
  ok_tokens : exists rest, token_ids_cpu b = (r_tokens <$> l) ++ rest;
  ok_width : 0 <= max_model_len c /\ forall r, r ∈ l -> Z.of_nat (length (r_tokens r)) = max_model_len c;
  ok_computed : exists rest, num_computed_tokens_cpu b = ((fun r => Z.of_nat (r_computed r)) <$> l) ++ rest;
  ok_prompt : exists rest, num_prompt_tokens b = ((fun r => Z.of_nat (r_prompt r)) <$> l) ++ rest;
  ok_num_tokens : forall r, r ∈ l -> dict_get (r_id r) (request_num_tokens b) = Some (Z.of_nat (r_num_tokens r));
  ok_sched : forall r, r ∈ l -> (0 < r_sched r)%nat /\ (r_computed r + r_sched r <= length (r_tokens r))%nat;
  ok_total : Z.of_nat (total r_sched l) < 2 ^ 31 /\ max_model_len c < 2 ^ 31;
  ok_arange : exists N, arange_np c = seqZ 0 (Z.of_nat N) /\ (total r_sched l <= N)%nat /\ (length l <= N)%nat;
  ok_embeds : req_prompt_embeds b = ∅;
  ok_spec : NoDup (keys spec) /\ (forall q, q ∈ keys spec -> exists i r, l !! i = Some r /\ r_id r = q) /\
    NoDup (r_id <$> l) /\ forall x, x ∈ enum l -> (drafts_of spec x < sched x)%nat;
}.

Section Ok.
Context (c : @config) b l spec (Hok : batch_ok c b l spec).

Lemma total_enum : total sched (enum l) = total r_sched l.
Proof. unfold total. f_equal. apply (fmap_enum r_sched). Qed.

Lemma enum_nonempty : enum l <> [].
Proof. destruct Hok as [Hne _ _ _ _ _ _ _ _ _ _ _ _ _]. by destruct l. Qed.

(** Reading the entries of per-row arrays. *)
Lemma row_entry {A} (f : row -> A) rest x : x ∈ enum l -> py_index ((f <$> l) ++ rest) (Z.of_nat x.1) = Ok (f x.2).
Proof.
  intros Hx%elem_enum. apply py_index_nat. rewrite lookup_app_l by (rewrite length_fmap; by eapply lookup_lt_Some).
  by rewrite list_lookup_fmap, Hx.
Qed.

Lemma take_rows {A} (f : row -> A) rest :
  np_take ((f <$> l) ++ rest) (enum l ≫= (fun x => replicate (sched x) (Z.of_nat x.1)))
  = Ok (enum l ≫= (fun x => replicate (sched x) (f x.2))).
Proof.
  apply mapR_bind. intros x Hx. induction (sched x) as [|m IH]; [done|]. cbn [replicate mapR].
  rewrite row_entry by done. cbn [mbind result_bind]. by rewrite IH.
Qed.

(** The scheduled token ids of a row. *)
Definition row_ids (x : irow) : list Z := take (sched x) (drop (r_computed x.2) (r_tokens x.2)).
Definition row_positions (x : irow) : list Z := seqZ (Z.of_nat (r_computed x.2)) (Z.of_nat (sched x)).

Lemma row_ok x : x ∈ enum l ->
  (0 < sched x)%nat /\ (r_computed x.2 + sched x <= length (r_tokens x.2))%nat /\ length (row_ids x) = sched x /\
  Z.of_nat (length (r_tokens x.2)) = max_model_len c.
Proof.
  intros Hx%elem_enum%list_elem_of_lookup_2. destruct (ok_sched _ _ _ _ Hok _ Hx) as [H1 H2].
  destruct (ok_width _ _ _ _ Hok) as [_ Hw]. unfold row_ids, sched. rewrite length_take, length_drop.
  split; [done|]. split; [done|]. split; [lia|by apply Hw].
Qed.

(** The flattened token table. *)
Lemma select_tokens rest :
  index_select (concat ((r_tokens <$> l) ++ rest))
    (enum l ≫= (fun x => seqZ (Z.of_nat (r_computed x.2) + Z.of_nat x.1 * max_model_len c) (Z.of_nat (sched x))))
  = Ok (enum l ≫= row_ids).
Proof.
  apply mapR_bind. intros x Hx. destruct (row_ok x Hx) as (_ & Hle & _ & Hw). apply elem_enum in Hx.
  set (W := length (r_tokens x.2)) in *.
  assert (Hl : ((r_tokens <$> l) ++ rest) !! x.1 = Some (r_tokens x.2)).
  { rewrite lookup_app_l by (rewrite length_fmap; by eapply lookup_lt_Some). by rewrite list_lookup_fmap, Hx. }
  assert (Hs : seg_start ((r_tokens <$> l) ++ rest) x.1 = (x.1 * W)%nat).
  { unfold seg_start. rewrite take_app_le by (rewrite length_fmap; apply lookup_lt_Some in Hx; lia).
    rewrite (length_concat_uniform W).
    - rewrite length_take, length_fmap. apply lookup_lt_Some in Hx. lia.
    - intros t Ht.
      assert (t ∈ r_tokens <$> l) as (r & -> & Hr)%list_elem_of_fmap by (eapply elem_of_submseteq; [done|apply submseteq_take]).
      destruct (ok_width _ _ _ _ Hok) as [_ Hw']. specialize (Hw' r Hr). lia. }
  replace (Z.of_nat (r_computed x.2) + Z.of_nat x.1 * max_model_len c) with (Z.of_nat (x.1 * W + r_computed x.2)) by lia.
  rewrite <- Hs, (concat_split _ _ _ Hl). change (mapR (load ?a) ?i) with (index_select a i).
  rewrite index_select_seqZ by (rewrite !length_app; unfold seg_start; lia). unfold row_ids, seg_start.
  rewrite drop_app_add', drop_app_le, take_app_le by (rewrite ?length_drop; lia). done.
Qed.

(** Buffers with room for the batch. *)
Record bufs_ok (s : @buffers E) : Prop := {
  ok_pos : (total r_sched l <= length (cpu (positions s)))%nat /\ (total r_sched l <= length (gpu (positions s)))%nat;
  ok_in : (total r_sched l <= length (cpu (input_ids (ids s))))%nat /\ (total r_sched l <= length (gpu (input_ids (ids s))))%nat;
  ok_qsl : (length l < length (cpu (query_start_loc s)))%nat;
  ok_lens : (length l <= length (cpu (seq_lens s)))%nat;
  ok_mask : (length l <= length (cpu (discard_request_mask s)))%nat /\ (length l <= length (gpu (discard_request_mask s)))%nat;
  ok_ndd : (length l <= length (cpu (num_decode_draft_tokens s)))%nat;
}.

Lemma length_rows {A} (g : irow -> list A) :
  (forall x, x ∈ enum l -> length (g x) = sched x) -> length (enum l ≫= g) = total r_sched l.
Proof. intros H. rewrite <- total_enum. by apply length_bind_total. Qed.

Lemma row_positions_length x : length (row_positions x) = sched x.
Proof. unfold row_positions. rewrite length_seqZ. lia. Qed.

Lemma prepare_tokens_ok s :
  bufs_ok s -> enable_prompt_embeds c = false ->
  exists pos ids', prepare_tokens c b (Z.of_nat (total r_sched l)) ((fun r => Z.of_nat (r_sched r)) <$> l)
      (enum l ≫= (fun x => replicate (sched x) (Z.of_nat x.1))) (enum l ≫= (fun x => seqZ 0 (Z.of_nat (sched x)))) s
    = Ok (enum l ≫= row_positions, mkBuffer ((enum l ≫= row_positions) ++ pos) (gpu (positions s)),
          mkIds (mkBuffer ((enum l ≫= row_ids) ++ ids') (gpu (input_ids (ids s)))) (is_token_ids (ids s)) (inputs_embeds (ids s))).
Proof.
  intros [[Hp _] [Hi _] _ _ _ _] Hemb. unfold prepare_tokens.
  destruct (ok_computed _ _ _ _ Hok) as [rc ->]. destruct (ok_tokens _ _ _ _ Hok) as [rt ->].
  rewrite take_rows. cbn [mbind result_bind].
  rewrite np_zip_bind by (intros; rewrite length_replicate, length_seqZ; lia). cbn [mbind result_bind].
  rewrite (bind_ext_in (fun x => zip_with Z.add (replicate (sched x) (Z.of_nat (r_computed x.2))) (seqZ 0 (Z.of_nat (sched x)))) row_positions)
    by (intros; by rewrite zip_replicate_seqZ, Z.add_0_r).
  assert (Hpl : length (enum l ≫= row_positions) = total r_sched l) by (apply length_rows; intros; apply row_positions_length).
  rewrite np_set_prefix by done. cbn [mbind result_bind]. rewrite py_slice_prefix by done.
  rewrite np_zip_bind by (intros; by rewrite length_replicate, row_positions_length). cbn [mbind result_bind].
  rewrite (bind_ext_in (fun x => zip_with (fun p r => p + r * max_model_len c) (row_positions x) (replicate (sched x) (Z.of_nat x.1)))
    (fun x => seqZ (Z.of_nat (r_computed x.2) + Z.of_nat x.1 * max_model_len c) (Z.of_nat (sched x)))).
  2:{ intros x _. unfold row_positions. rewrite zip_with_replicate_r by by rewrite length_seqZ, Nat2Z.id.
      unfold seqZ. rewrite <- list_fmap_compose. apply list_fmap_ext. intros. cbn. lia. }
  rewrite select_tokens. cbn [mbind result_bind].
  rewrite np_set_prefix by (try done; apply length_rows; intros x Hx; by apply row_ok). cbn [mbind result_bind].
  rewrite Hemb. cbn [mbind result_bind]. rewrite decide_True by apply (ok_embeds _ _ _ _ Hok). cbn [mbind result_bind].
  eexists _, _. f_equal. f_equal. by destruct (is_token_ids (ids s)), (inputs_embeds (ids s)).
Qed.

Lemma fmap_c_int (zs : list Z) : (forall z, z ∈ zs -> 0 <= z < 2 ^ 31) -> c_int 32 <$> zs = zs.
Proof.
  intros H. induction zs as [|z zs IH]; [done|]. rewrite fmap_cons, IH by set_solver. f_equal.
  apply c_int_id; [lia|]. change (32 - 1) with 31. specialize (H z ltac:(set_solver)). lia.
Qed.

Definition row_len (r : row) : Z := Z.of_nat (r_computed r + r_sched r).

Lemma prepare_lengths_ok s :
  bufs_ok s ->
  exists q sl m mg, prepare_lengths b (Z.of_nat (length l)) ((fun r => Z.of_nat (r_sched r)) <$> l) (ends sched (enum l)) s
    = Ok (mkBuffer ((0 :: ends sched (enum l)) ++ q) ((0 :: ends sched (enum l)) ++ q),
          mkBuffer ((row_len <$> l) ++ sl) ((row_len <$> l) ++ sl),
          mkBuffer (((fun r => row_len r <? Z.of_nat (r_num_tokens r)) <$> l) ++ m)
            (((fun r => row_len r <? Z.of_nat (r_num_tokens r)) <$> l) ++ mg)).
Proof.
  intros [_ _ Hq Hs [Hm Hmg] _]. unfold prepare_lengths. rewrite ends_last by apply enum_nonempty. cbn [mbind result_bind].
  destruct (ok_total _ _ _ _ Hok) as [Ht HM].
  assert (He : length (ends sched (enum l)) = length l) by by rewrite length_ends, length_enum.
  destruct (cpu (query_start_loc s)) as [|q0 qs]; [cbn in Hq; lia|]. cbn in Hq.
  rewrite (np_put_nat (q0 :: qs) 0 0 : _ -> np_put (q0 :: qs) 0 0 = _) by (cbn; lia). cbn [mbind result_bind list_insert insert].
  rewrite fmap_c_int by (intros z Hz%ends_bound; rewrite total_enum in Hz; lia).
  replace (Z.of_nat (length l) + 1) with (Z.of_nat (1 + length (ends sched (enum l)))) by lia.
  rewrite (np_set_slice_ok (0 :: qs) 1 (ends sched (enum l)) : _ -> np_set_slice (0 :: qs) 1 _ _ = _) by (cbn; lia). cbn [mbind result_bind take drop Nat.add app].
  rewrite c_int_id by (change (32 - 1) with 31; rewrite ?total_enum; lia).
  assert (Ef : forall w x, np_fill_from (0 :: ends sched (enum l) ++ w) (Z.of_nat (S (length (ends sched (enum l))))) x
    = 0 :: ends sched (enum l) ++ replicate (length w) x) by (intros; by apply (np_fill_from_app (0 :: ends sched (enum l)))).
  rewrite take_0. cbn [app]. rewrite Ef.
  destruct (ok_computed _ _ _ _ Hok) as [rc ->]. rewrite py_slice_prefix by by rewrite length_fmap.
  rewrite np_zip_fmap. cbn [mbind result_bind].
  assert (El : (fun k => c_int 32 (Z.of_nat (r_computed k) + Z.of_nat (r_sched k))) <$> l = row_len <$> l).
  { apply list_fmap_ext. intros i r Hr%list_elem_of_lookup_2. unfold row_len. destruct (ok_sched _ _ _ _ Hok r Hr).
    destruct (ok_width _ _ _ _ Hok) as [_ Hw]. specialize (Hw r Hr). rewrite c_int_id; [lia|lia|]. change (32 - 1) with 31. lia. }
  rewrite El, np_set_prefix by (rewrite ?length_fmap; done). cbn [mbind result_bind].
  rewrite np_fill_from_app by by rewrite length_fmap.
  rewrite (ok_ids _ _ _ _ Hok), mapR_fmap.
  rewrite (mapR_pure _ (fun r => Z.of_nat (r_num_tokens r)))
    by (intros r Hr; by rewrite (ok_num_tokens _ _ _ _ Hok r Hr)). cbn [mbind result_bind].
  rewrite py_slice_prefix, np_zip_fmap by by rewrite length_fmap. cbn [mbind result_bind].
  rewrite np_set_prefix by (rewrite ?length_fmap; done). cbn [mbind result_bind]. unfold buffer_to_gpu. cbn [cpu gpu].
  rewrite copy_to_gpu_ok by (rewrite ?length_fmap; done). cbn [mbind result_bind]. by eexists _, _, _, _.
Qed.

(** The counts of draft tokens of the rows, and [-1] for rows within their prompt. *)
Definition decode_drafts (sp : dict (list Z)) (x : irow) : Z :=
  if decide (r_id x.2 ∈ keys sp) then if (r_prompt x.2 <=? r_computed x.2)%nat then Z.of_nat (drafts_of sp x) else -1 else -1.

(** One more request with draft tokens. *)
Lemma drafts_snoc pre i r toks x :
  NoDup (r_id <$> l) -> l !! i = Some r -> r_id r ∉ keys pre -> x ∈ enum l ->
  drafts_of (pre ++ [(r_id r, toks)]) x = (if decide (x.1 = i) then length toks else drafts_of pre x) /\
  decode_drafts (pre ++ [(r_id r, toks)]) x
  = (if decide (x.1 = i) then if Z.of_nat (r_prompt r) <=? Z.of_nat (r_computed r) then py_len toks else -1 else decode_drafts pre x).
Proof.
  intros Hids Hr Hq Hx%elem_enum.
  assert (Hi : x.1 = i <-> r_id x.2 = r_id r).
  { split; [intros <-; congruence|]. intros E'. eapply NoDup_lookup; [exact Hids|by rewrite list_lookup_fmap, Hx|].
    rewrite list_lookup_fmap, Hr. cbn. by rewrite E'. }
  assert (Hd : drafts_of (pre ++ [(r_id r, toks)]) x = if decide (x.1 = i) then length toks else drafts_of pre x).
  { unfold drafts_of. rewrite <- dict_set_new, dict_get_set by done. repeat case_decide; try tauto; done. }
  split; [done|]. unfold decode_drafts at 1. rewrite Hd. unfold keys. rewrite fmap_app. cbn [fmap list_fmap fst].
  destruct (decide (x.1 = i)) as [Ei|Hne].
  - rewrite decide_True by (rewrite <- (proj1 Hi Ei); set_solver). assert (x.2 = r) as -> by congruence.
    unfold py_len. destruct (Nat.leb_spec (r_prompt r) (r_computed r)), (Z.leb_spec (Z.of_nat (r_prompt r)) (Z.of_nat (r_computed r))); done || lia.
  - unfold decode_drafts, keys. repeat case_decide; set_solver.
Qed.

Lemma draft_counts_ok :
  foldM (draft_count_step b) spec (replicate (length l) 0, replicate (length l) (-1))
  = Ok ((fun x => Z.of_nat (drafts_of spec x)) <$> enum l, decode_drafts spec <$> enum l).
Proof.
  destruct (ok_spec _ _ _ _ Hok) as (Hnd & Hin & Hids & _).
  destruct (foldM_inv (draft_count_step b) (fun pre s => s = ((fun x => Z.of_nat (drafts_of pre x)) <$> enum l, decode_drafts pre <$> enum l))
    spec (replicate (length l) 0, replicate (length l) (-1))) as (s & -> & ->); [| |done].
  - rewrite <- (length_enum l). f_equal; symmetry.
    + by apply fmap_replicate_const.
    + apply fmap_replicate_const. intros x _. unfold decode_drafts. rewrite decide_False; [done|]. apply not_elem_of_nil.
  - intros pre [q toks] post s Es ->. rewrite Es in Hnd, Hin. unfold keys in Hnd, Hin. rewrite fmap_app in Hnd, Hin.
    assert (Hq : q ∉ keys pre). { apply NoDup_app in Hnd as (_ & Hd & _). intros H. apply (Hd q H). cbn. left. }
    destruct (Hin q) as (i & r & Hr & <-); [cbn; set_solver|].
    pose proof (fun x => drafts_snoc pre i r toks x Hids Hr Hq) as Hsn.
    assert (Hlt : (i < length l)%nat) by by eapply lookup_lt_Some.
    unfold draft_count_step. rewrite (ok_index _ _ _ _ Hok i r Hr). cbn [of_option mbind result_bind].
    rewrite !np_put_nat by by rewrite length_fmap, length_enum. cbn [mbind result_bind].
    destruct (ok_computed _ _ _ _ Hok) as [rc ->]. destruct (ok_prompt _ _ _ _ Hok) as [rp ->].
    rewrite !(row_entry _ _ (i, r)) by by apply elem_enum. cbn [mbind result_bind snd]. rewrite !insert_enum.
    eexists. split; [|reflexivity].
    rewrite (list_fmap_ext (fun x => Z.of_nat (drafts_of (pre ++ [(r_id r, toks)]) x))
      (fun x => if decide (x.1 = i) then py_len toks else Z.of_nat (drafts_of pre x)) (enum l)).
    2:{ intros ? x Hx%list_elem_of_lookup_2. destruct (Hsn x Hx) as [-> _]. by case_decide. }
    rewrite (list_fmap_ext (decode_drafts (pre ++ [(r_id r, toks)])) _ (enum l)
      (fun _ x Hx => proj2 (Hsn x (list_elem_of_lookup_2 _ _ _ Hx)))).
    destruct (_ <=? _); [done|]. do 2 f_equal. apply list_fmap_ext. intros ? x Hx%list_elem_of_lookup_2.
    case_decide as Ei; [|done]. unfold decode_drafts. apply elem_enum in Hx. rewrite Ei, Hr in Hx. injection Hx as <-.
    by rewrite decide_False.
Qed.

(** The metadata of the batch. *)
Definition batch_metadata : SpecDecodeMetadata :=
  let d := drafts_of spec in
  mkMetadata (enum l ≫= (fun x => drop (sched x - d x) (row_ids x))) ((fun x => Z.of_nat (d x)) <$> enum l) (ends d (enum l))
    (ends (fun x => S (d x)) (enum l)) (target_rows d (enum l)) (bonus_rows d (enum l)) (sampled_rows sched d (enum l))
    (max_drafts d (enum l)).

Lemma prepare_sampling_ok rest q s :
  bufs_ok s ->
  exists ndd, prepare_sampling c b (Z.of_nat (length l)) spec (ends sched (enum l)) ((0 :: ends sched (enum l)) ++ q)
      ((enum l ≫= row_ids) ++ rest) (num_decode_draft_tokens s)
    = Ok (sampled_rows sched (drafts_of spec) (enum l), match spec with [] => None | _ => Some batch_metadata end, ndd) /\
    (spec <> [] -> take (length l) (gpu ndd) = decode_drafts spec <$> enum l).
Proof.
  intros [_ _ _ _ _ Hn]. unfold prepare_sampling. pose proof draft_counts_ok as Hd.
  destruct (decide (spec = [])) as [Esp|Hne].
  - rewrite Esp. eexists. split; [|done]. f_equal. f_equal. f_equal.
    replace (Z.of_nat (length l) + 1) with (Z.of_nat (S (length l))) by lia.
    rewrite py_slice_prefix by (cbn; by rewrite length_ends, length_enum). cbn [drop]. rewrite drop_0.
    unfold ends, sampled_rows. rewrite <- list_fmap_compose.
    assert (Hs : forall x, x ∈ starts sched (enum l) -> (0 < sched x.2)%nat).
    { intros x Hx%elem_starts. by apply row_ok. }
    induction (starts sched (enum l)) as [|x st IH]; [done|]. rewrite fmap_cons, bind_cons, IH by set_solver.
    specialize (Hs x ltac:(set_solver)).
    change (drafts_of [] x.2) with 0%nat. rewrite seqZ_cons, seqZ_nil by lia. cbn [app]. f_equal. unfold compose. lia.
  - assert (Em : forall A (x y : A), match spec with [] => x | _ => y end = y) by (intros; by destruct spec).
    rewrite !Em, Nat2Z.id, Hd. cbn [mbind result_bind].
    destruct (ok_arange _ _ _ _ Hok) as (N & -> & HN & _). destruct (ok_total _ _ _ _ Hok) as [Ht _].
    rewrite (calc_spec_decode_metadata_ok sched (drafts_of spec) row_ids (enum l) rest N);
      [|apply enum_nonempty|by rewrite total_enum|by rewrite total_enum|].
    2:{ intros x Hx. split; [by apply row_ok|]. destruct (ok_spec _ _ _ _ Hok) as (_ & _ & _ & Hsp). by apply Hsp. }
    cbn [mbind result_bind]. rewrite np_set_prefix by (rewrite ?length_fmap, ?length_enum; done). cbn [mbind result_bind].
    eexists. split; [done|]. intros _. rewrite np_fill_from_app by by rewrite length_fmap, length_enum. cbn [gpu].
    rewrite take_app_length'; [done|]. by rewrite length_fmap, length_enum.
Qed.

(** * Block tables *)

(** The scheduled tokens as pairs of row and position. *)
Definition batch_toks : list (nat * Z) := enum l ≫= (fun x => pair x.1 <$> row_positions x).

Lemma batch_toks_fst : (fun t : nat * Z => Z.of_nat t.1) <$> batch_toks = enum l ≫= (fun x => replicate (sched x) (Z.of_nat x.1)).
Proof.
  unfold batch_toks. induction (enum l) as [|x xs IH]; [done|]. rewrite !bind_cons, fmap_app, IH. f_equal.
  rewrite <- list_fmap_compose. rewrite (fmap_replicate_const _ _ (Z.of_nat x.1)) by done. by rewrite row_positions_length.
Qed.

Lemma batch_toks_snd : batch_toks.*2 = enum l ≫= row_positions.
Proof.
  unfold batch_toks. induction (enum l) as [|x xs IH]; [done|]. rewrite !bind_cons, fmap_app, IH. f_equal.
  rewrite <- list_fmap_compose. by rewrite list_fmap_id.
Qed.

(** A table with blocks for every scheduled token, and what the step leaves on the device. *)
Definition table_ready (t : BlockTable) (rows : list (list Z)) : Prop :=
  table_wf t /\ holds t rows /\ Forall (token_in_row t rows) batch_toks /\
  (total r_sched l <= length (slot_mapping t))%nat /\ (total r_sched l <= length (slot_mapping_gpu t))%nat /\
  (length l <= length rows)%nat /\ (length l <= length (block_table_gpu t))%nat.

Definition table_prepared (rows : list (list Z)) (t t' : BlockTable) : Prop :=
  take (length l) (block_table_gpu t') = take (length l) (block_table t) /\
  take (total r_sched l) (slot_mapping_gpu t') = (fun x => token_slot t (default [] (rows !! x.1)) x.2) <$> batch_toks.

Lemma length_batch_toks : length batch_toks = total r_sched l.
Proof. apply length_rows. intros x _. by rewrite length_fmap, row_positions_length. Qed.

Lemma prepare_table rows t :
  table_ready t rows -> exists t1 t2 t3, commit_block_table (Z.of_nat (length l)) t = Ok t1 /\
    compute_slot_mapping ((fun x => Z.of_nat x.1) <$> batch_toks) batch_toks.*2 t1 = Ok t2 /\
    commit_slot_mapping (Z.of_nat (total r_sched l)) t2 = Ok t3 /\ table_prepared rows t t3.
Proof.
  intros (Hwf & Hh & Ht & Hs & Hsg & Hr & Hg). unfold commit_block_table.
  rewrite <- (take_drop (length l) (block_table t)).
  assert (Hl : length (take (length l) (block_table t)) = length l) by (rewrite length_take; destruct Hh as [-> _]; lia).
  rewrite copy_to_gpu_ok by done. cbn [mbind result_bind].
  eexists _, _, _. split; [done|].
  split; [apply (compute_slot_mapping_ok (set_rows_gpu _ t) rows); [by destruct Hwf|done|done|by rewrite length_batch_toks]|].
  unfold commit_slot_mapping. cbn [slot_mapping slot_mapping_gpu set_slots].
  rewrite copy_to_gpu_ok by (rewrite ?length_fmap, ?length_batch_toks; done). cbn [mbind result_bind]. split; [done|].
  split; cbn.
  - by rewrite take_app_length'.
  - rewrite take_app_length'; [done|]. by rewrite length_fmap, length_batch_toks.
Qed.

(** * The whole step *)
Lemma prepare_inputs_ok s (rows : BlockTable -> list (list Z)) :
  bufs_ok s -> enable_prompt_embeds c = false -> prev_sampled_token_ids b = None ->
  Forall (fun t => table_ready t (rows t)) (block_tables s) ->
  exists i p q sl m ndd tables,
    prepare_inputs c b (Z.of_nat (total r_sched l)) spec ((fun r => Z.of_nat (r_sched r)) <$> l) s
    = Ok (mkBuffers (mkIds (mkBuffer ((enum l ≫= row_ids) ++ i.1) ((enum l ≫= row_ids) ++ i.2)) (is_token_ids (ids s)) (inputs_embeds (ids s)))
            (mkBuffer ((enum l ≫= row_positions) ++ p.1) ((enum l ≫= row_positions) ++ p.2))
            (mkBuffer ((0 :: ends sched (enum l)) ++ q) ((0 :: ends sched (enum l)) ++ q))
            (mkBuffer ((row_len <$> l) ++ sl) ((row_len <$> l) ++ sl))
            (mkBuffer (((fun r => row_len r <? Z.of_nat (r_num_tokens r)) <$> l) ++ m.1)
               (((fun r => row_len r <? Z.of_nat (r_num_tokens r)) <$> l) ++ m.2)) ndd tables,
          sampled_rows sched (drafts_of spec) (enum l), match spec with [] => None | _ => Some batch_metadata end) /\
    (spec <> [] -> take (length l) (gpu ndd) = decode_drafts spec <$> enum l) /\
    Forall2 (fun t t' => table_prepared (rows t) t t') (block_tables s) tables.
Proof.
  intros Hb Hemb Hprev Htab. rewrite Forall_forall in Htab. unfold prepare_inputs.
  destruct (ok_arange _ _ _ _ Hok) as (N & Ea & HN & HlN). destruct (ok_total _ _ _ _ Hok) as [Ht _].
  assert (Hl : (0 < length l)%nat) by (pose proof enum_nonempty as H; rewrite <- length_enum; destruct (enum l); [done|cbn; lia]).
  assert (Htot : (0 < total r_sched l)%nat).
  { pose proof (ok_nonempty _ _ _ _ Hok). pose proof (ok_sched _ _ _ _ Hok) as Hs. destruct l as [|r l'] eqn:El; [done|].
    rewrite total_cons. destruct (Hs r ltac:(set_solver)). lia. }
  assert (En : py_len (req_id_to_index b) = Z.of_nat (length l)) by (unfold py_len; by rewrite (ok_index_len _ _ _ _ Hok)).
  rewrite En, !(proj2 (Z.ltb_lt 0 (Z.of_nat _))) by lia. cbn [py_assert mbind result_bind].
  destruct (mapR_chain (commit_block_table (Z.of_nat (length l)))
    (compute_slot_mapping ((fun x => Z.of_nat x.1) <$> batch_toks) batch_toks.*2)
    (commit_slot_mapping (Z.of_nat (total r_sched l))) (fun t t' => table_prepared (rows t) t t') (block_tables s))
    as (ts1 & ts2 & ts3 & E1 & E2 & E3 & HR); [intros t Hin; by apply prepare_table, Htab|].
  rewrite batch_toks_fst, batch_toks_snd in E2.
  unfold MultiGroupBlockTable.commit_block_table, MultiGroupBlockTable.compute_slot_mapping, MultiGroupBlockTable.commit_slot_mapping.
  rewrite E1. cbn [mbind result_bind].
  assert (Es : (fun r => Z.of_nat (r_sched r)) <$> l = (fun x => Z.of_nat (sched x)) <$> enum l)
    by (symmetry; apply (fmap_enum (fun r => Z.of_nat (r_sched r)))).
  assert (Erep : np_repeat (py_slice (arange_np c) 0 (Z.of_nat (length l))) ((fun r => Z.of_nat (r_sched r)) <$> l)
    = Ok (enum l ≫= (fun x => replicate (sched x) (Z.of_nat x.1)))).
  { rewrite Ea, arange_slice, <- index_enum, Es by done. apply np_repeat_fmap. }
  assert (Ecu : get_cumsum_and_arange (arange_np c) ((fun r => Z.of_nat (r_sched r)) <$> l) 64
    = Ok (ends sched (enum l), enum l ≫= (fun x => seqZ 0 (Z.of_nat (sched x))))).
  { rewrite Ea, Es. apply get_cumsum_and_arange_ok; rewrite ?total_enum; [apply enum_nonempty|lia| |done]. change (64 - 1) with 63. lia. }
  rewrite Erep. cbn [mbind result_bind]. rewrite Ecu. cbn [mbind result_bind].
  destruct (prepare_tokens_ok s Hb Hemb) as (pos & ids' & ->). cbn [mbind result_bind].
  rewrite E2. cbn [mbind result_bind]. rewrite E3. cbn [mbind result_bind].
  destruct (prepare_lengths_ok s Hb) as (q & sl & m & mg & ->). cbn [mbind result_bind].
  unfold prepare_input_ids. rewrite Hprev. cbn [fst]. unfold copy_ids, buffer_to_gpu. rewrite Hemb. cbn [input_ids cpu gpu].
  destruct (ok_pos s Hb) as [_ Hpg]. destruct (ok_in s Hb) as [_ Hig].
  assert (Hli : length (enum l ≫= row_ids) = total r_sched l) by (apply length_rows; intros x Hx; by apply row_ok).
  assert (Hlp : length (enum l ≫= row_positions) = total r_sched l) by (apply length_rows; intros; apply row_positions_length).
  rewrite (copy_to_gpu_ok (enum l ≫= row_ids)), (copy_to_gpu_ok (enum l ≫= row_positions)) by done. cbn [mbind result_bind].
  cbn [input_ids is_token_ids inputs_embeds cpu gpu].
  destruct (prepare_sampling_ok (drop (total r_sched l) (gpu (input_ids (ids s)))) q s Hb) as (ndd & -> & Hndd). cbn [mbind result_bind].
  exists (ids', drop (total r_sched l) (gpu (input_ids (ids s)))), (pos, drop (total r_sched l) (gpu (positions s))), q, sl, (m, mg), ndd, ts3.
  done.
Qed.
End Ok.

(** C13: the inputs of a step.  For a batch whose rows hold the tokens of their requests,
    with blocks for every scheduled token, [_prepare_inputs] returns: the ids on the device
    are, request after request, the scheduled tokens, at their positions; the slots are
    those of these positions in the block lists of the requests, for every KV-cache group;
    the query starts, the sequence lengths and the mask of unfinished prompts are those of
    the requests; and the rows of the logits that are kept are the last scheduled token
    and those before it that verify a draft token. *)
Theorem prepare_inputs_correct c b l spec s (rows : BlockTable -> list (list Z)) :
  batch_ok c b l spec -> bufs_ok l s -> enable_prompt_embeds c = false -> prev_sampled_token_ids b = None ->
  Forall (fun t => table_ready l t (rows t)) (block_tables s) ->
  exists s', prepare_inputs c b (Z.of_nat (total r_sched l)) spec ((fun r => Z.of_nat (r_sched r)) <$> l) s
      = Ok (s', sampled_rows sched (drafts_of spec) (enum l), match spec with [] => None | _ => Some (batch_metadata l spec) end) /\
    take (total r_sched l) (gpu (input_ids (ids s'))) = enum l ≫= row_ids /\
    take (total r_sched l) (gpu (positions s')) = enum l ≫= row_positions /\
    take (S (length l)) (gpu (query_start_loc s')) = 0 :: ends sched (enum l) /\
    take (length l) (gpu (seq_lens s')) = (fun r => Z.of_nat (r_computed r + r_sched r)) <$> l /\
    take (length l) (gpu (discard_request_mask s')) = (fun r => bool_decide (r_computed r + r_sched r < r_num_tokens r)%nat) <$> l /\
    Forall2 (fun t t' => table_prepared l (rows t) t t') (block_tables s) (block_tables s').
Proof.
  intros Hok Hb Hemb Hprev Htab.
  destruct (prepare_inputs_ok c b l spec Hok s rows Hb Hemb Hprev Htab) as (i & p & q & sl & m & ndd & tables & -> & _ & HT).
  eexists. split; [reflexivity|]. cbn [gpu ids input_ids positions query_start_loc seq_lens discard_request_mask block_tables].
  rewrite !take_app_length'; rewrite ?length_fmap; try done.
  - split; [done|]. split; [done|]. split; [done|]. split; [done|]. split; [|done]. apply list_fmap_ext. intros ? r _.
    unfold row_len. case_bool_decide; [apply Z.ltb_lt|apply Z.ltb_ge]; lia.
  - cbn [length]. by rewrite length_ends, length_enum.
  - symmetry. apply length_rows. intros. apply row_positions_length.
  - symmetry. apply length_rows. intros x Hx. by apply (row_ok c b l spec Hok).
Qed.
End Batch.
