(* ===== verification/RunnerVerify.v ===== *)
(** A verification step from the runner's inputs to the sampled tokens: the inputs of
    [RunnerInputs.v], a target model evaluated on them and the rejection sampler. *)
From S2P Require Import Prelude Device NumPy Dict BlockTable RejectionSampler RunnerInputs RunnerInputsFacts.
Local Open Scope Z_scope.

(** * What a causal model computes *)
Section Model.
Context (next : list Z -> Z).

(** The tokens the model predicts along a draft: after the context, after the context and
    the first draft token, and so on. *)
Fixpoint predictions (ctx ds : list Z) : list Z :=
  match ds with [] => [] | t :: ds => next ctx :: predictions (ctx ++ [t]) ds end.

(** How many draft tokens are the model's own. *)
Fixpoint accepted (ctx ds : list Z) : nat :=
  match ds with [] => 0 | t :: ds => if t =? next ctx then S (accepted (ctx ++ [t]) ds) else 0 end.

Lemma length_predictions ctx ds : length (predictions ctx ds) = length ds.
Proof. revert ctx. induction ds as [|t ds IH]; intros ctx; [done|]. cbn. by rewrite IH. Qed.

Lemma predictions_take toks m d :
  (m + d <= length toks)%nat ->
  (fun j => next (take (m + j) toks)) <$> seq 0 d = predictions (take m toks) (take d (drop m toks)).
Proof.
  revert m. induction d as [|d IH]; intros m Hm; [done|].
  destruct (lookup_lt_is_Some_2 toks m) as [t Ht]; [lia|]. rewrite (drop_S toks t m Ht). cbn [take predictions].
  change (seq 0 (S d)) with (0%nat :: seq 1 d). rewrite fmap_cons, Nat.add_0_r. f_equal.
  rewrite <- fmap_S_seq, <- list_fmap_compose, <- (take_S_r _ _ _ Ht), <- IH by lia.
  apply list_fmap_ext. intros. cbn. do 2 f_equal. lia.
Qed.

Context {FO : FloatOps}.

(** The sampler's view of a draft: its tokens, the predictions along it, and what the
    random sampler draws, of which the greedy one reads nothing. *)
Definition with_target (ta : Z * Z) (p : position) : position :=
  mkPos _ ta.1 ta.2 (pd_recovered p) (pd_uniform p) (pd_dprobs p) (pd_tprobs p).
Definition draft_positions (ctx ds : list Z) (draws : list position) : list position :=
  zip_with with_target (zip ds (predictions ctx ds)) draws.

Lemma draft_positions_evaluated ctx ds draws : length draws = length ds ->
  evaluated next ctx (draft_positions ctx ds draws) (next (ctx ++ ds)).
Proof.
  revert ctx draws. induction ds as [|t ds IH]; intros ctx [|p draws] Hl; try done; cbn; [by rewrite app_nil_r|].
  split; [done|]. replace (ctx ++ t :: ds) with ((ctx ++ [t]) ++ ds) by by rewrite <- app_assoc. apply IH. by injection Hl.
Qed.

Lemma draft_positions_agreed ctx ds draws : length draws = length ds -> agreed (draft_positions ctx ds draws) = accepted ctx ds.
Proof.
  revert ctx draws. induction ds as [|t ds IH]; intros ctx [|p draws] Hl; try done. cbn. destruct (_ =? _); [|done]. f_equal. apply IH. by injection Hl.
Qed.

Lemma draft_positions_target {A} (f : position -> A) (g : Z * Z -> A) ctx ds draws : (forall ta p, f (with_target ta p) = g ta) ->
  length draws = length ds -> map f (draft_positions ctx ds draws) = map g (zip ds (predictions ctx ds)).
Proof.
  intros Hf. revert ctx draws. induction ds as [|t ds IH]; intros ctx [|p draws] Hl; try done. cbn. rewrite Hf. f_equal. apply IH. by injection Hl.
Qed.

Lemma draft_positions_draws {A} (f : position -> A) ctx ds draws : (forall ta p, f (with_target ta p) = f p) ->
  length draws = length ds -> map f (draft_positions ctx ds draws) = map f draws.
Proof.
  intros Hf. revert ctx draws. induction ds as [|t ds IH]; intros ctx [|p draws] Hl; try done. cbn. rewrite Hf. f_equal. apply IH. by injection Hl.
Qed.

Lemma draft_positions_draft ctx ds draws : length draws = length ds -> map pd_draft (draft_positions ctx ds draws) = ds.
Proof.
  intros Hl. rewrite (draft_positions_target _ fst) by done. apply fst_zip. by rewrite length_predictions.
Qed.

Lemma draft_positions_argmax ctx ds draws : length draws = length ds -> map pd_argmax (draft_positions ctx ds draws) = predictions ctx ds.
Proof.
  intros Hl. rewrite (draft_positions_target _ snd) by done. apply snd_zip. by rewrite length_predictions.
Qed.

Lemma length_draft_positions ctx ds draws : length draws = length ds -> length (draft_positions ctx ds draws) = length ds.
Proof. intros Hl. unfold draft_positions. rewrite length_zip_with, length_zip_with, length_predictions. lia. Qed.
End Model.

(** * The rows that are verified *)
Section Verify.
Context {E : Type} (next : list Z -> Z) (c : @config) (b : @batch E) (l : list row) (spec : dict (list Z)).
Context (Hok : batch_ok c b l spec).
Let d := drafts_of spec.

(** The context of a row up to its draft tokens, and the draft tokens. *)
Definition row_ctx (x : irow) : list Z := take (r_computed x.2 + (sched x - d x)) (r_tokens x.2).
Definition row_drafts (x : irow) : list Z := drop (sched x - d x) (row_ids x).

(** What a causal model predicts after every scheduled token. *)
Definition row_output (x : irow) : list Z := (fun o => next (take (r_computed x.2 + o + 1) (r_tokens x.2))) <$> seq 0 (sched x).
Definition model_output : list Z := enum l ≫= row_output.

Lemma row_bounds x : x ∈ enum l -> (S (d x) <= sched x)%nat /\ (r_computed x.2 + sched x <= length (r_tokens x.2))%nat.
Proof.
  intros Hx. destruct (ok_spec _ _ _ _ Hok) as (_ & _ & _ & Hsp). split; [by apply Hsp|]. by apply (row_ok c b l spec Hok).
Qed.

Lemma row_drafts_take x : x ∈ enum l ->
  row_drafts x = take (d x) (drop (r_computed x.2 + (sched x - d x)) (r_tokens x.2)) /\ length (row_drafts x) = d x.
Proof.
  intros Hx. destruct (row_bounds x Hx). unfold row_drafts, row_ids. rewrite skipn_firstn_comm, drop_drop, length_take, length_drop.
  split; [|lia]. replace (sched x - (sched x - d x))%nat with (d x) by lia. do 2 f_equal.
Qed.

(** Along its draft, a row is verified by the predictions after the context. *)
Lemma row_output_drafts x : x ∈ enum l ->
  take (S (d x)) (drop (sched x - S (d x)) (row_output x)) = predictions next (row_ctx x) (row_drafts x) ++ [next (row_ctx x ++ row_drafts x)].
Proof.
  intros Hx. destruct (row_bounds x Hx) as [Hd Hw]. destruct (row_drafts_take x Hx) as [Er _]. rewrite Er. unfold row_ctx, row_output.
  set (m := (r_computed x.2 + (sched x - d x))%nat).
  rewrite <- predictions_take by (unfold m; lia). rewrite take_take_drop.
  rewrite <- fmap_drop, <- fmap_take, drop_seq, take_seq, Nat.min_l by lia. rewrite seq_S, fmap_app. cbn [fmap list_fmap].
  assert (Eseq : forall k, seq (0 + k) (d x) = Nat.add k <$> seq 0 (d x)) by (intros; rewrite fmap_add_seq; f_equal; lia).
  rewrite Eseq, <- list_fmap_compose. f_equal.
  - apply list_fmap_ext. intros. cbn. do 2 f_equal. unfold m. lia.
  - do 3 f_equal. unfold m. lia.
Qed.

Lemma verify_rows_ok :
  verify_rows (batch_metadata l spec) model_output
  = Ok (enum l ≫= (fun x => predictions next (row_ctx x) (row_drafts x)),
        (fun x => next (row_ctx x ++ row_drafts x)) <$> enum l).
Proof.
  unfold verify_rows, model_output. cbn [logits_indices batch_metadata target_logits_indices bonus_logits_indices]. fold d.
  rewrite <- (app_nil_r (enum l ≫= row_output)). unfold sampled_rows.
  rewrite (take_segments sched (fun x => sched x - S (d x))%nat (fun x => S (d x)) row_output).
  2:{ intros x Hx. destruct (row_bounds x Hx). unfold row_output. rewrite length_fmap, length_seq. lia. }
  cbn [mbind result_bind].
  rewrite (bind_ext_in (fun k => take (S (d k)) (drop (sched k - S (d k)) (row_output k)))
    (fun x => predictions next (row_ctx x) (row_drafts x) ++ [next (row_ctx x ++ row_drafts x)])) by apply row_output_drafts.
  set (g := fun x => _ ++ _).
  assert (Hg : forall x, x ∈ enum l -> length (g x) = S (d x)).
  { intros x Hx. unfold g. rewrite length_app, length_predictions. destruct (row_drafts_take x Hx) as [_ ->]. cbn. lia. }
  rewrite <- (app_nil_r (enum l ≫= g)). unfold bonus_rows, target_rows.
  assert (Eb : (fun x => Z.of_nat (x.1 + d x.2)) <$> starts (fun k => S (d k)) (enum l)
    = starts (fun k => S (d k)) (enum l) ≫= (fun x => seqZ (Z.of_nat (x.1 + d x.2)) (Z.of_nat 1))).
  { induction (starts _ _) as [|x st IH]; [done|]. rewrite fmap_cons, bind_cons, IH. done. }
  rewrite Eb, (take_segments (fun x => S (d x)) d (fun _ => 1%nat) g) by (intros x Hx; rewrite Hg by done; lia).
  cbn [mbind result_bind].
  rewrite (take_segments (fun x => S (d x)) (fun _ => 0%nat) d g) by (intros x Hx; rewrite Hg by done; lia).
  cbn [mbind result_bind]. f_equal. f_equal.
  - apply bind_ext_in. intros x Hx. destruct (row_drafts_take x Hx) as [_ Hl]. unfold g. rewrite drop_0, take_app_length'; [done|].
    by rewrite length_predictions.
  - rewrite (bind_ext_in _ (fun x => [next (row_ctx x ++ row_drafts x)])).
    + clear. induction (enum l) as [|x xs IH]; [done|]. rewrite bind_cons, fmap_cons, IH. done.
    + intros x Hx. destruct (row_drafts_take x Hx) as [_ Hl]. unfold g. rewrite drop_app_length'; [done|]. by rewrite length_predictions.
Qed.
End Verify.

(** * From inputs to sampled tokens *)

Lemma flat_bind {FO : FloatOps} {A X} (f : position -> A) (g : X -> list position) (xs : list X) :
  flat f (g <$> xs) = xs ≫= (fun x => map f (g x)).
Proof. unfold flat. induction xs as [|x xs IH]; [done|]. cbn. by rewrite <- IH. Qed.

Lemma max_drafts_bound {K} (d : K -> nat) (l : list K) k : k ∈ l -> Z.of_nat (d k) <= max_drafts d l.
Proof.
  unfold max_drafts. destruct l as [|k0 l]; [by intros ?%elem_of_nil|]. cbn [fmap list_fmap tail head default].
  assert (Hm : forall zs z, z <= fold_left Z.max zs z /\ forall y, y ∈ zs -> y <= fold_left Z.max zs z).
  { induction zs as [|z' zs IH]; intros z; cbn; [split; [lia|by intros ? ?%elem_of_nil]|].
    destruct (IH (Z.max z z')) as [H1 H2]. split; [lia|]. intros y [->|Hy]%elem_of_cons; [lia|by apply H2]. }
  intros [->|Hk]%elem_of_cons; [apply (proj1 (Hm _ _))|]. apply (proj2 (Hm _ _)). by apply (list_elem_of_fmap_2 (fun k => Z.of_nat (d k))).
Qed.

Section Lossless.
Context {E : Type} {FO : FloatOps} (next : list Z -> Z) (vocab : Z).
Context (Hnext : forall ctx, 0 <= next ctx < vocab).

(** What the random sampler draws for a draft: rows of probabilities over the
    vocabulary, a recovered token and a uniform number for every position. *)
Definition draws_ok (spec : dict (list Z)) (l : list row) (draws : irow -> list position) : Prop :=
  forall x, x ∈ enum l -> length (draws x) = drafts_of spec x /\
    forall p, p ∈ draws x -> Z.of_nat (length (pd_dprobs p)) = vocab /\ Z.of_nat (length (pd_tprobs p)) = vocab.

Lemma draft_positions_probs ctx ds draws p :
  Forall (fun t => 0 <= t < vocab) ds ->
  (forall p, p ∈ draws -> Z.of_nat (length (pd_dprobs p)) = vocab /\ Z.of_nat (length (pd_tprobs p)) = vocab) ->
  p ∈ draft_positions next ctx ds draws ->
  0 <= pd_draft p < vocab /\ Z.of_nat (length (pd_dprobs p)) = vocab /\ Z.of_nat (length (pd_tprobs p)) = vocab.
Proof.
  intros Hd Hp [j Hj]%list_elem_of_lookup_1. unfold draft_positions in Hj.
  apply lookup_zip_with_Some in Hj as ([t a] & q & -> & [Ht _]%lookup_zip_Some & Hq). cbn.
  split; [exact (Forall_lookup_1 _ _ _ _ Hd Ht)|]. apply Hp. by eapply list_elem_of_lookup_2.
Qed.

(** The draft positions of a batch, and their flat arrays. *)
Definition batch_positions (l : list row) (spec : dict (list Z)) (draws : irow -> list position) : list (list position) :=
  (fun x => draft_positions next (row_ctx spec x) (row_drafts spec x) (draws x)) <$> enum l.
Definition drawn {A} (f : position -> A) (l : list row) (draws : irow -> list position) : list A := enum l ≫= (fun x => map f (draws x)).

Section Batch.
Context (c : @config) (b : @batch E) (l : list row) (spec : dict (list Z)) (draws : irow -> list position).
Context (Hok : batch_ok c b l spec) (Hdraws : draws_ok spec l draws).

Lemma draws_length x : x ∈ enum l -> length (draws x) = length (row_drafts spec x).
Proof using Hok Hdraws.
  intros Hx. rewrite (proj1 (Hdraws x Hx)). by destruct (row_drafts_take c b l spec Hok x Hx) as [_ ->].
Qed.

Lemma batch_positions_drawn {A} (f : position -> A) : (forall ta p, f (with_target ta p) = f p) ->
  flat f (batch_positions l spec draws) = drawn f l draws.
Proof using Hok Hdraws.
  intros Hf. unfold batch_positions. rewrite flat_bind. apply bind_ext_in. intros x Hx. apply draft_positions_draws; [done|by apply draws_length].
Qed.

Lemma batch_positions_flat :
  let m := batch_metadata l spec in
  let ps := batch_positions l spec draws in
  flat pd_draft ps = draft_token_ids m /\ lens ps = num_draft_tokens m /\ cumsum (lens ps) = cu_num_draft_tokens m /\
  flat pd_argmax ps = enum l ≫= (fun x => predictions next (row_ctx spec x) (row_drafts spec x)).
Proof using Hok Hdraws.
  intros m ps. unfold ps, batch_positions. rewrite !flat_bind.
  assert (Hl : lens ((fun x => draft_positions next (row_ctx spec x) (row_drafts spec x) (draws x)) <$> enum l)
    = (fun x => Z.of_nat (drafts_of spec x)) <$> enum l).
  { unfold lens. rewrite <- list_fmap_compose. apply list_fmap_ext. intros ? x Hx%list_elem_of_lookup_2. cbn.
    rewrite length_draft_positions by by apply draws_length. by destruct (row_drafts_take c b l spec Hok x Hx) as [_ ->]. }
  rewrite Hl. split; [|split; [done|split]].
  - apply bind_ext_in. intros. by apply draft_positions_draft, draws_length.
  - apply (cumsum_from_starts (drafts_of spec) 0).
  - apply bind_ext_in. intros. by apply draft_positions_argmax, draws_length.
Qed.

(** Whether row [i] is sampled greedily. *)
Definition greedy_row (all_greedy : bool) (flags : list bool) (i : nat) : bool := all_greedy || default false (flags !! i).

(** The sampler on the draft positions of a batch. *)
Lemma sample_batch order1 order2 discard sampled (use_draft_probs all_greedy all_random : bool) flags :
  (forall r t, r ∈ l -> t ∈ r_tokens r -> 0 <= t < vocab) ->
  length flags = length l -> order1 ≡ₚ seq 0 (length l) -> order2 ≡ₚ seq 0 (length l) ->
  (all_random = true -> all_greedy = false /\ forall f, f ∈ flags -> f = false) ->
  length sampled = length l ->
  (forall x, x ∈ enum l -> greedy_row all_greedy flags x.1 = true -> sampled !! x.1 = Some (next (row_ctx spec x ++ row_drafts spec x))) ->
  let m := batch_metadata l spec in
  exists out,
    rejection_sample order1 order2 (draft_token_ids m) (num_draft_tokens m) (max_spec_len m) vocab (cu_num_draft_tokens m)
      (if use_draft_probs then Some (concat (drawn pd_dprobs l draws)) else None)
      (enum l ≫= (fun x => predictions next (row_ctx spec x) (row_drafts spec x))) (concat (drawn pd_tprobs l draws))
      sampled (drawn pd_recovered l draws) (drawn pd_uniform l draws) all_greedy all_random flags = Ok out /\
    forall x, x ∈ enum l -> greedy_row all_greedy flags x.1 = true ->
      parse_output out vocab discard !! x.1 =
        Some (if decide (x.1 ∈ discard) then [] else
                greedy_decode next (S (accepted next (row_ctx spec x) (row_drafts spec x))) (row_ctx spec x)).
Proof using All.
  intros Htok Hf Ho1 Ho2 Hr Hsl Hs. cbv zeta. set (d := drafts_of spec).
  destruct batch_positions_flat as (<- & <- & <- & <-). rewrite <- !batch_positions_drawn by done.
  set (ps := batch_positions l spec draws).
  assert (Hlen : length ps = length l) by (unfold ps, batch_positions; by rewrite length_fmap, length_enum).
  assert (Hdl : forall x, x ∈ enum l -> length (row_drafts spec x) = d x)
    by (intros x Hx; by apply (row_drafts_take c b l spec Hok)).
  assert (Hmax : 0 <= max_drafts d (enum l)).
  { destruct (enum l) as [|x xs] eqn:Ex; [by destruct (enum_nonempty c b l spec Hok)|].
    pose proof (max_drafts_bound d (x :: xs) x ltac:(set_solver)). lia. }
  destruct (greedy_sampling_lossless ps sampled (S (Z.to_nat (max_drafts d (enum l)))) vocab next discard order1 order2
    use_draft_probs all_greedy all_random flags) as (out & Eo & Ep); try (rewrite Hlen; done); try done.
  - intros y (x & -> & Hx)%list_elem_of_fmap. rewrite length_draft_positions, Hdl by (done || by apply draws_length).
    pose proof (max_drafts_bound d (enum l) x Hx). lia.
  - intros y p0 (x & -> & Hx)%list_elem_of_fmap. apply draft_positions_probs; [|apply (Hdraws x Hx)]. apply Forall_forall. intros t Ht.
    destruct (row_drafts_take c b l spec Hok x Hx) as [Er _]. rewrite Er in Ht.
    apply elem_enum in Hx. apply (Htok x.2); [by eapply list_elem_of_lookup_2|].
    eapply elem_of_submseteq; [exact Ht|]. etrans; [apply submseteq_take|apply submseteq_drop].
  - exists out. split.
    + rewrite <- Eo. cbn [max_spec_len batch_metadata]. fold d.
      by replace (Z.of_nat (S (Z.to_nat (max_drafts d (enum l)))) - 1) with (max_drafts d (enum l)) by lia.
    + intros x Hx Hg. apply elem_enum in Hx as Hx'.
      rewrite (Ep x.1 (draft_positions next (row_ctx spec x) (row_drafts spec x) (draws x)) (next (row_ctx spec x ++ row_drafts spec x)) (row_ctx spec x)).
      * by rewrite draft_positions_agreed by by apply draws_length.
      * unfold ps, batch_positions. by rewrite list_lookup_fmap, (proj2 (enum_lookup l x.1 x)).
      * by apply Hs.
      * exact Hg.
      * by apply draft_positions_evaluated, draws_length.
Qed.
End Batch.

(** C12: a verification step is lossless for greedy requests, whatever other requests
    share the batch.  The runner flattens the scheduled tokens of every request and
    selects the rows of the model's output that verify the draft tokens; when the model
    has predicted the next token after every scheduled token, and the bonus tokens of
    greedy requests are the predictions after their drafts, the rejection sampler
    returns one row per request, and the tokens parsed from the row of a greedy request
    that is not discarded are exactly those the model produces decoding greedily on its
    own from the tokens before the draft: the accepted draft tokens and one more.  What
    the other requests draw does not matter. *)
Theorem verify_step_lossless (c : @config) (b : @batch E) l spec s (rows : BlockTable -> list (list Z)) draws
    order1 order2 discard (use_draft_probs all_greedy all_random : bool) flags :
  batch_ok c b l spec -> bufs_ok l s -> enable_prompt_embeds c = false -> prev_sampled_token_ids b = None ->
  Forall (fun t => table_ready l t (rows t)) (block_tables s) -> spec <> [] ->
  (forall r t, r ∈ l -> t ∈ r_tokens r -> 0 <= t < vocab) -> draws_ok spec l draws ->
  length flags = length l -> order1 ≡ₚ seq 0 (length l) -> order2 ≡ₚ seq 0 (length l) ->
  (all_random = true -> all_greedy = false /\ forall f, f ∈ flags -> f = false) ->
  exists s' metadata target bonus,
    prepare_inputs c b (Z.of_nat (total r_sched l)) spec ((fun r => Z.of_nat (r_sched r)) <$> l) s
      = Ok (s', logits_indices metadata, Some metadata) /\
    take (total r_sched l) (gpu (input_ids (ids s'))) = enum l ≫= row_ids /\
    verify_rows metadata (model_output next l) = Ok (target, bonus) /\ length bonus = length l /\
    forall sampled, length sampled = length l -> (forall i, greedy_row all_greedy flags i = true -> sampled !! i = bonus !! i) ->
      exists out,
        rejection_sample order1 order2 (draft_token_ids metadata) (num_draft_tokens metadata) (max_spec_len metadata) vocab
          (cu_num_draft_tokens metadata) (if use_draft_probs then Some (concat (drawn pd_dprobs l draws)) else None) target
          (concat (drawn pd_tprobs l draws)) sampled (drawn pd_recovered l draws) (drawn pd_uniform l draws) all_greedy all_random flags = Ok out /\
        forall x, x ∈ enum l -> greedy_row all_greedy flags x.1 = true ->
          parse_output out vocab discard !! x.1 =
            Some (if decide (x.1 ∈ discard) then [] else
                    greedy_decode next (S (accepted next (row_ctx spec x) (row_drafts spec x))) (row_ctx spec x)).
Proof.
  intros Hok Hb Hemb Hprev Htab Hspec Htok Hdraws Hf Ho1 Ho2 Hr.
  destruct (prepare_inputs_ok c b l spec Hok s rows Hb Hemb Hprev Htab) as (i & p & q & sl & m & ndd & tables & Ei & _ & _).
  assert (Em : forall A (x y : A), match spec with [] => x | _ => y end = y) by (intros; by destruct spec).
  rewrite Em in Ei. eexists _, (batch_metadata l spec), _, _. split; [exact Ei|]. split.
  { cbn. rewrite take_app_length'; [done|]. symmetry. apply length_rows. intros x Hx. by apply (row_ok c b l spec Hok). }
  split; [exact (verify_rows_ok next c b l spec Hok)|]. split; [by rewrite length_fmap, length_enum|].
  intros sampled Hsl Hs. apply (sample_batch c b l spec draws Hok Hdraws); try done.
  intros x Hx Hg. rewrite (Hs _ Hg), list_lookup_fmap. apply elem_enum in Hx. by rewrite (proj2 (enum_lookup l x.1 x)).
Qed.
End Lossless.
