(* ===== verification/RunnerAsync.v ===== *)
(** Input ids with asynchronous scheduling: [_prepare_input_ids] of
    [src/vllm/v1/worker/gpu_model_runner.py].

    The tokens sampled in the previous step are still on the device when the inputs of
    the next step are built.  The runner copies them, and the draft tokens, to the places
    of their requests, which may have moved in the batch; it leaves out the copy of the
    host's ids when every id comes from the device, and replaces the scatter by one slice
    when no request has moved.  The theorem shows the ids are right on every path,
    whatever the device buffer held before. *)
From S2P Require Import Prelude Device NumPy Dict BlockTable RunnerInputs RunnerInputsFacts.
Local Open Scope Z_scope.

(** * Scatter *)
Lemma scatter_ok {A} (a : list A) idx src :
  NoDup idx -> Forall (fun i => 0 <= i < py_len a) idx -> length idx = length src ->
  exists a', scatter a idx src = Ok a' /\ length a' = length a /\
    (forall n i v, idx !! n = Some i -> src !! n = Some v -> a' !! Z.to_nat i = Some v) /\
    (forall j, Z.of_nat j ∉ idx -> a' !! j = a !! j).
Proof.
  unfold scatter. revert a src. induction idx as [|i idx IH]; intros a [|v src]; try done.
  - intros _ _ _. exists a. split; [done|]. split; [done|]. split; [|done]. by intros [].
  - intros [Hi Hnd]%NoDup_cons [Hr Hrs]%Forall_cons [= Hl]. cbn [zip_with foldM]. rewrite store_ok by done. cbn [mbind result_bind].
    destruct (IH (<[Z.to_nat i := v]> a) src) as (a' & -> & Hla & Hin & Hout); [done| |done|].
    { unfold py_len in *. by rewrite length_insert. }
    rewrite length_insert in Hla. exists a'. split; [done|]. split; [done|]. split.
    + intros [|n] i' v'; [|apply Hin]. intros [= <-] [= <-]. rewrite Hout by by rewrite Z2Nat.id by lia.
      apply list_lookup_insert_eq. unfold py_len in Hr. lia.
    + intros j [Hne Hj]%not_elem_of_cons. rewrite Hout by done. apply list_lookup_insert_ne. lia.
Qed.

(** * Positions of the scheduled tokens *)
Lemma bind_lookup {K A} (n : K -> nat) (f : K -> list A) (xs : list K) i x o :
  (forall y, y ∈ xs -> length (f y) = n y) -> xs !! i = Some x -> (o < n x)%nat ->
  (xs ≫= f) !! (total n (take i xs) + o)%nat = f x !! o.
Proof.
  intros Hf. revert i. induction xs as [|y xs IH]; intros i Hi Ho; [done|]. rewrite bind_cons.
  specialize (Hf y ltac:(set_solver)) as Hy. destruct i as [|i].
  - injection Hi as ->. cbn. rewrite lookup_app_l by lia. done.
  - cbn [take]. rewrite total_cons, lookup_app_r by lia. rewrite <- (IH ltac:(set_solver) i Hi Ho). f_equal. lia.
Qed.

Lemma take_segments_lookup {K A} (n : K -> nat) (f : K -> list A) (xs : list K) (buf : list A) :
  (forall x, x ∈ xs -> length (f x) = n x) ->
  (forall i x o, xs !! i = Some x -> (o < n x)%nat -> buf !! (total n (take i xs) + o)%nat = f x !! o) ->
  take (total n xs) buf = xs ≫= f.
Proof.
  revert buf. induction xs as [|x xs IH]; intros buf Hf Hb; [done|].
  rewrite total_cons, <- take_take_drop, bind_cons. specialize (Hf x ltac:(set_solver)) as Hx. f_equal.
  - apply list_eq. intros o. destruct (decide (o < n x)%nat).
    + rewrite lookup_take_lt by done. by apply (Hb 0%nat x o).
    + rewrite lookup_take_ge by lia. symmetry. apply lookup_ge_None. lia.
  - apply IH; [set_solver|]. intros i y o Hi Ho. rewrite lookup_drop, <- (Hb (S i) y o) by done. f_equal.
    cbn [take]. rewrite total_cons. lia.
Qed.

Section Places.
Context (l : list row).
Implicit Types (x y : irow).

(** Where the tokens of a row start. *)
Definition start_of x : nat := total sched (take x.1 (enum l)).

Lemma start_lookup x : x ∈ enum l -> starts sched (enum l) !! x.1 = Some (start_of x, x).
Proof. intros Hx%elem_enum. apply (starts_from_lookup sched 0). by apply enum_lookup. Qed.

Lemma end_index x : x ∈ enum l -> py_index (ends sched (enum l)) (Z.of_nat x.1) = Ok (Z.of_nat (start_of x + sched x)).
Proof. intros Hx. apply py_index_nat. unfold ends. by rewrite list_lookup_fmap, start_lookup. Qed.

Lemma start_next x j : x ∈ enum l -> (x.1 < j)%nat -> (start_of x + sched x <= total sched (take j (enum l)))%nat.
Proof.
  intros Hx%elem_enum Hj. assert (E : enum l !! x.1 = Some x) by by apply enum_lookup.
  replace j with (S x.1 + (j - S x.1))%nat by lia. rewrite <- take_take_drop, (take_S_r _ _ _ E).
  unfold start_of. rewrite !total_app, total_cons. lia.
Qed.

(** A place belongs to one row. *)
Lemma place_inj x y o o' :
  x ∈ enum l -> y ∈ enum l -> (o < sched x)%nat -> (o' < sched y)%nat -> (start_of x + o = start_of y + o')%nat -> x = y /\ o = o'.
Proof.
  intros Hx Hy Ho Ho' E. assert (x.1 = y.1) as E1.
  { destruct (Nat.lt_trichotomy x.1 y.1) as [Hlt|[?|Hlt]]; [|done|].
    - pose proof (start_next x y.1 Hx Hlt). unfold start_of at 2 in E. lia.
    - pose proof (start_next y x.1 Hy Hlt). unfold start_of at 1 in E. lia. }
  assert (x = y) as ->.
  { apply elem_enum in Hx, Hy. rewrite E1 in Hx. destruct x, y. cbn in *. congruence. }
  split; [done|lia].
Qed.

Lemma place_bound x o : x ∈ enum l -> (o < sched x)%nat -> (start_of x + o < total r_sched l)%nat.
Proof.
  intros Hx Ho. apply start_lookup, list_elem_of_lookup_2, starts_bound in Hx. cbn in Hx. rewrite total_enum in Hx. lia.
Qed.

Lemma start_index x : (forall y, y ∈ enum l -> (0 < sched y)%nat) -> x ∈ enum l -> (x.1 <= start_of x)%nat.
Proof.
  intros Hpos Hx%elem_enum%lookup_lt_Some. unfold start_of. rewrite <- length_enum in Hx.
  assert (H : forall xs : list irow, (forall y, y ∈ xs -> (0 < sched y)%nat) -> (length xs <= total sched xs)%nat).
  { induction xs as [|y xs IH]; intros Hp; [done|]. rewrite total_cons. cbn. specialize (IH ltac:(set_solver)).
    specialize (Hp y ltac:(set_solver)). lia. }
  etrans; [|apply H]; [rewrite length_take; lia|]. intros y Hy. apply Hpos.
  eapply elem_of_submseteq; [exact Hy|apply submseteq_take].
Qed.

(** A buffer is determined by the tokens at every place. *)
Lemma take_places {A} (buf : list A) (f : irow -> list A) :
  (forall x, x ∈ enum l -> length (f x) = sched x) ->
  (forall x o, x ∈ enum l -> (o < sched x)%nat -> buf !! (start_of x + o)%nat = f x !! o) ->
  take (total r_sched l) buf = enum l ≫= f.
Proof.
  intros Hf Hb. rewrite <- total_enum. apply take_segments_lookup; [done|]. intros i x o [<- Hx]%enum_lookup Ho.
  apply Hb; [by apply elem_enum|done].
Qed.
End Places.

(** * The requests kept from the previous step *)
Section Async.
Context (l : list row) (spec : dict (list Z)) (prev : dict Z) (prev_sampled : list (list Z)).
Context (table : option (list (list Z))) (width : nat).
Implicit Types (x y : irow) (xs cs : list irow).
Let d := drafts_of spec.

Definition prev_of x : option Z := dict_get (r_id x.2) prev.
Definition prev_index x : Z := default 0 (prev_of x).
Definition sampled x : Z := default 0 (prev_sampled !! Z.to_nat (prev_index x) ≫= head).
Definition drafted x : list Z := take (d x) (default [] (table ≫= (.!! Z.to_nat (prev_index x)))).

(** The ids of a row: a request of the previous step runs its sampled token and the
    draft tokens after it. *)
Definition final_ids x : list Z :=
  match prev_of x with
  | Some _ => take (sched x - S (d x)) (row_ids x) ++ sampled x :: drafted x
  | None => row_ids x
  end.

(** Requests of the previous step were sampled, and drafted for where drafts are
    scheduled. *)
Record async_ok xs : Prop := {
  as_perm : xs ≡ₚ enum l;
  as_sched : forall x, x ∈ enum l -> (d x < sched x)%nat /\ length (row_ids x) = sched x;
  as_prev : forall x p, x ∈ enum l -> prev_of x = Some p -> 0 <= p /\ exists t row, prev_sampled !! Z.to_nat p = Some (t :: row);
  as_drafts : forall x, x ∈ enum l -> is_Some (prev_of x) -> d x <> 0%nat ->
    exists t r, table = Some t /\ t !! Z.to_nat (prev_index x) = Some r /\ uniform width t /\ (d x <= width)%nat;
}.

(** The last token of a row, in the flat batch. *)
Definition last_place x : Z := Z.of_nat (start_of l x + sched x) - 1.

(** The lists after the loop over the rows [xs] of the batch. *)
Definition extend (c : common) cs : common :=
  mkCommon (sample_flattened_indices c ++ ((fun x => last_place x - Z.of_nat (d x)) <$> cs))
    (spec_flattened_indices c ++ (cs ≫= (fun x => seqZ (last_place x - Z.of_nat (d x) + 1) (Z.of_nat (d x)))))
    (prev_common_req_indices c ++ (prev_index <$> cs))
    (prev_draft_token_indices c ++ (cs ≫= (fun x => seqZ (prev_index x * Z.of_nat width) (Z.of_nat (d x)))))
    (indices_match c && forallb (fun x => prev_index x =? last_place x) cs)
    (fold_left Z.max (last_place <$> cs) (max_flattened_index c))
    (total_num_spec_tokens c + Z.of_nat (total d cs)).

Definition kept xs : list irow := filter (fun x => is_Some (prev_of x)) xs.

Lemma common_loop xs c :
  (forall x, x ∈ xs -> x ∈ enum l) ->
  foldM (common_step (Z.of_nat width) prev spec (ends sched (enum l))) ((fun x => (r_id x.2, Z.of_nat x.1)) <$> xs) c
  = Ok (extend c (kept xs)).
Proof.
  revert c. induction xs as [|x xs IH]; intros c Hin.
  - unfold extend. cbn. rewrite !app_nil_r, andb_true_r, Z.add_0_r. by destruct c.
  - rewrite fmap_cons. cbn [foldM common_step]. unfold kept. rewrite filter_cons. fold (prev_of x).
    destruct (prev_of x) as [p|] eqn:Ep.
    + rewrite end_index by set_solver. cbn [mbind result_bind]. rewrite IH by set_solver.
      rewrite decide_True by done. fold (kept xs). unfold extend. cbn [sample_flattened_indices spec_flattened_indices
        prev_common_req_indices prev_draft_token_indices indices_match max_flattened_index total_num_spec_tokens].
      assert (Hp : prev_index x = p) by (unfold prev_index; by rewrite Ep).
      rewrite !fmap_cons, !bind_cons, <- !app_assoc, Hp. cbn [app forallb fold_left]. rewrite Hp, andb_assoc, total_cons.
      unfold py_len, py_range. fold (drafts_of spec x). fold d. fold (last_place x).
      replace (last_place x + 1 - (last_place x - Z.of_nat (d x) + 1)) with (Z.of_nat (d x)) by lia.
      replace (p * Z.of_nat width + Z.of_nat (d x) - p * Z.of_nat width) with (Z.of_nat (d x)) by lia.
      do 2 f_equal. lia.
    + cbn [mbind result_bind]. rewrite IH by set_solver. rewrite decide_False by by intros [].  done.
Qed.

(** * Leaving out the copy *)
Lemma kept_bound xs :
  (forall x, x ∈ xs -> (d x < sched x)%nat) -> (length (kept xs) + total d (kept xs) <= total sched xs)%nat /\
  ((total sched xs <= length (kept xs) + total d (kept xs))%nat -> forall x, x ∈ xs -> is_Some (prev_of x) /\ sched x = S (d x)).
Proof.
  induction xs as [|x xs IH]; intros H; [split; [done|]; by intros _ ? ?%elem_of_nil|].
  destruct IH as [IH1 IH2]; [set_solver|]. specialize (H x ltac:(set_solver)). unfold kept in *. rewrite filter_cons, total_cons.
  case_decide as Hp.
  - rewrite total_cons. cbn [length]. split; [lia|]. intros Hle y [->|Hy]%elem_of_cons; [split; [done|lia]|]. apply IH2; [lia|done].
  - split; [lia|]. intros Hle. lia.
Qed.

(** The ids that do not come from the device are those of the host. *)
Definition host_ids (buf : list Z) : Prop :=
  (total r_sched l <= length buf)%nat /\
  forall x o, x ∈ enum l -> (o < sched x)%nat -> prev_of x = None \/ (o < sched x - S (d x))%nat ->
    buf !! (start_of l x + o)%nat = row_ids x !! o.

Lemma copied_host_ids rest : (forall x, x ∈ enum l -> length (row_ids x) = sched x) -> host_ids ((enum l ≫= row_ids) ++ rest).
Proof.
  intros Hr. assert (Hl : length (enum l ≫= row_ids) = total r_sched l) by by apply length_rows.
  split; [rewrite length_app; lia|]. intros x o Hx Ho _. pose proof (place_bound l x o Hx Ho).
  rewrite lookup_app_l by lia. apply elem_enum in Hx. by apply bind_lookup; [|apply enum_lookup|].
Qed.

Lemma uncopied_host_ids xs buf :
  async_ok xs -> (total r_sched l <= length buf)%nat ->
  (total r_sched l <= length (kept xs) + total d (kept xs))%nat -> host_ids buf.
Proof.
  intros [Hp Hs _ _] Hl Hle. split; [done|]. intros x o Hx Ho Hc. exfalso.
  destruct (kept_bound xs) as [_ Hall]; [intros y Hy; rewrite Hp in Hy; by apply Hs|].
  destruct (Hall) with (x := x) as [[p Ep] Esd]; [|by rewrite Hp|destruct Hc; [congruence|lia]].
  rewrite <- total_enum in Hle. assert (total sched xs = total sched (enum l)) as ->; [|done].
  unfold total. by rewrite Hp.
Qed.

(** * The scatter *)
Section Scatter.
Context xs (Hok : async_ok xs).

Lemma elem_kept x : x ∈ kept xs <-> x ∈ enum l /\ is_Some (prev_of x).
Proof. unfold kept. rewrite list_elem_of_filter, (as_perm _ Hok). tauto. Qed.

Lemma NoDup_kept : NoDup (kept xs).
Proof.
  apply NoDup_filter. rewrite (as_perm _ Hok). apply (NoDup_fmap_1 (fun x : irow => Z.of_nat x.1)). rewrite index_enum. apply NoDup_seqZ.
Qed.

Lemma last_place_sub x : x ∈ enum l -> last_place x - Z.of_nat (d x) = Z.of_nat (start_of l x + (sched x - S (d x))).
Proof. intros Hx. destruct (as_sched _ Hok x Hx). unfold last_place. lia. Qed.

Lemma NoDup_places (f : irow -> nat) :
  (forall x, x ∈ kept xs -> (f x < sched x)%nat) -> NoDup ((fun x => Z.of_nat (start_of l x + f x)) <$> kept xs).
Proof.
  intros Hf. apply NoDup_fmap_2_strong; [|apply NoDup_kept]. intros x y Hx Hy E. pose proof (Hf x Hx). pose proof (Hf y Hy).
  apply elem_kept in Hx as [Hx _], Hy as [Hy _]. destruct (place_inj l x y (f x) (f y)); [done..|lia|done].
Qed.

Lemma first_column_cons t row rows : first_column ((t :: row) :: rows) = (ts ← first_column rows; Ok (t :: ts)).
Proof. done. Qed.

Lemma sampled_column :
  exists rows, np_take prev_sampled (prev_index <$> kept xs) = Ok rows /\ first_column rows = Ok (sampled <$> kept xs).
Proof.
  assert (Hrow : forall x, x ∈ kept xs -> exists row, py_index prev_sampled (prev_index x) = Ok (sampled x :: row)).
  { intros x [Hx [p Ep]]%elem_kept. destruct (as_prev _ Hok x p Hx Ep) as (Hp & t & row & E). exists row.
    unfold sampled, prev_index. rewrite Ep. cbn. rewrite E. cbn. by rewrite py_index_nonneg, E. }
  unfold np_take. rewrite mapR_fmap. clear -Hrow. induction (kept xs) as [|x cs IH]; [by exists []|].
  destruct (Hrow x ltac:(set_solver)) as [row Ex]. destruct IH as (rows & E1 & E2); [set_solver|].
  exists ((sampled x :: row) :: rows). cbn [mapR]. rewrite Ex, E1, first_column_cons, E2. done.
Qed.

(** Entries of the ids of a row. *)
Lemma final_ids_host x o :
  x ∈ enum l -> (o < sched x)%nat -> prev_of x = None \/ (o < sched x - S (d x))%nat -> final_ids x !! o = row_ids x !! o.
Proof.
  intros Hx Ho Hc. destruct (as_sched _ Hok x Hx). unfold final_ids. destruct (prev_of x); [|done].
  destruct Hc as [?|Hc]; [done|]. rewrite lookup_app_l by (rewrite length_take; lia). by rewrite lookup_take_lt.
Qed.

Lemma final_ids_device x j :
  x ∈ enum l -> is_Some (prev_of x) -> final_ids x !! (sched x - S (d x) + j)%nat = (sampled x :: drafted x) !! j.
Proof.
  intros Hx [p Ep]. destruct (as_sched _ Hok x Hx). unfold final_ids. rewrite Ep.
  rewrite lookup_app_r by (rewrite length_take; lia). f_equal. rewrite length_take. lia.
Qed.

(** The sampled tokens. *)
Lemma scatter_sampled buf :
  host_ids buf ->
  exists rows src buf', np_take prev_sampled (prev_index <$> kept xs) = Ok rows /\ first_column rows = Ok src /\
    scatter buf ((fun x => last_place x - Z.of_nat (d x)) <$> kept xs) src = Ok buf' /\ length buf' = length buf /\
    forall x o, x ∈ enum l -> (o < sched x)%nat -> prev_of x = None \/ (o <= sched x - S (d x))%nat ->
      buf' !! (start_of l x + o)%nat = final_ids x !! o.
Proof.
  intros [Hlen Hbuf].
  destruct sampled_column as (rows & Er & Ec).
  rewrite (list_fmap_ext (fun x => last_place x - Z.of_nat (d x)) (fun x => Z.of_nat (start_of l x + (sched x - S (d x)))) (kept xs))
    by (intros ? x Hx%list_elem_of_lookup_2; apply last_place_sub; by apply elem_kept).
  assert (Hlt : forall x, x ∈ enum l -> (sched x - S (d x) < sched x)%nat) by (intros x Hx; destruct (as_sched _ Hok x Hx); lia).
  destruct (scatter_ok buf ((fun x => Z.of_nat (start_of l x + (sched x - S (d x)))) <$> kept xs) (sampled <$> kept xs))
    as (buf' & Es & Hl & Hin & Hout).
  - apply (NoDup_places (fun x => sched x - S (d x))%nat). intros x [Hx _]%elem_kept. by apply Hlt.
  - apply Forall_forall. intros i (x & -> & [Hx _]%elem_kept)%list_elem_of_fmap.
    pose proof (place_bound l x _ Hx (Hlt x Hx)). unfold py_len. lia.
  - by rewrite !length_fmap.
  - exists rows, (sampled <$> kept xs), buf'. split; [done|]. split; [done|]. split; [done|]. split; [done|].
    intros x o Hx Ho Hc. destruct (decide (is_Some (prev_of x) /\ o = sched x - S (d x))%nat) as [[Hp ->]|Hne].
    + destruct (proj1 (list_elem_of_lookup _ _) (proj2 (elem_kept x) (conj Hx Hp))) as [n Hn].
      rewrite <- (Nat.add_0_r (sched x - S (d x))) at 2. rewrite final_ids_device by done.
      rewrite <- (Nat2Z.id (start_of l x + _)). apply (Hin n); by rewrite list_lookup_fmap, Hn.
    + assert (Hc' : prev_of x = None \/ (o < sched x - S (d x))%nat).
      { destruct (prev_of x) as [p|] eqn:Ep; [right|by left]. destruct Hc as [?|?]; [done|].
        assert (o <> sched x - S (d x))%nat by (intros ->; apply Hne; split; [by eexists|done]). lia. }
      rewrite final_ids_host by done. rewrite Hout; [by apply Hbuf|].
      intros (y & E & [Hy Hpy]%elem_kept)%list_elem_of_fmap.
      destruct (place_inj l x y o (sched y - S (d y))) as [-> ->]; [done|done|done|by apply Hlt|lia|]. naive_solver.
Qed.

(** The draft tokens, from the flat table of the proposer. *)
Lemma draft_values t :
  table = Some t ->
  np_take (concat t) (kept xs ≫= (fun x => seqZ (prev_index x * Z.of_nat width) (Z.of_nat (d x)))) = Ok (kept xs ≫= drafted).
Proof.
  intros Et. apply mapR_bind. intros x [Hx [p Ep]]%elem_kept. unfold drafted. rewrite Et. cbn.
  destruct (decide (d x = 0%nat)) as [->|Hd]; [done|].
  destruct (as_drafts _ Hok x Hx (mk_is_Some _ _ Ep) Hd) as (t' & r & Et' & Er & Hu & Hw). rewrite Et in Et'. injection Et' as <-.
  rewrite Er. cbn [default]. destruct (as_prev _ Hok x p Hx Ep) as [Hp _].
  assert (Epi : prev_index x = p) by (unfold prev_index; by rewrite Ep). rewrite Epi in *.
  assert (Hlr : length r = width) by (apply Hu; by eapply list_elem_of_lookup_2).
  assert (Hs : seg_start t (Z.to_nat p) = (Z.to_nat p * width)%nat).
  { apply seg_start_uniform; [done|]. apply lookup_lt_Some in Er. lia. }
  replace (p * Z.of_nat width) with (Z.of_nat (Z.to_nat p * width)) by lia. rewrite <- Hs, (concat_split _ _ _ Er).
  change (np_take (concat (take (Z.to_nat p) t) ++ r ++ concat (drop (S (Z.to_nat p)) t))
    (seqZ (Z.of_nat (seg_start t (Z.to_nat p))) (Z.of_nat (d x))) = Ok (take (d x) r)).
  rewrite np_take_seqZ by (rewrite !length_app; unfold seg_start; lia). unfold seg_start.
  by rewrite drop_app_length, take_app_le by lia.
Qed.

Lemma length_drafted x : x ∈ kept xs -> length (drafted x) = d x.
Proof.
  intros [Hx Hp]%elem_kept. unfold drafted. destruct (decide (d x = 0%nat)) as [->|Hd]; [done|].
  destruct (as_drafts _ Hok x Hx Hp Hd) as (t & r & -> & Er & Hu & Hw). cbn. rewrite Er. cbn. rewrite length_take.
  rewrite (Hu r) by by eapply list_elem_of_lookup_2. lia.
Qed.

(** Where the draft tokens of a row go. *)
Definition draft_places x : list Z := seqZ (Z.of_nat (start_of l x + (sched x - d x))) (Z.of_nat (d x)).

Lemma draft_places_code :
  kept xs ≫= (fun x => seqZ (last_place x - Z.of_nat (d x) + 1) (Z.of_nat (d x))) = kept xs ≫= draft_places.
Proof.
  apply bind_ext_in. intros x [Hx _]%elem_kept. unfold draft_places. f_equal. rewrite last_place_sub by done.
  destruct (as_sched _ Hok x Hx). lia.
Qed.

Lemma elem_draft_places x i :
  x ∈ kept xs -> i ∈ draft_places x -> exists o, i = Z.of_nat (start_of l x + o) /\ (sched x - d x <= o < sched x)%nat.
Proof.
  intros [Hx _]%elem_kept Hi. destruct (as_sched _ Hok x Hx). apply elem_of_seqZ in Hi as [].
  exists (Z.to_nat i - start_of l x)%nat. lia.
Qed.

Lemma NoDup_draft_places : NoDup (kept xs ≫= draft_places).
Proof.
  apply NoDup_bind; [|intros; apply NoDup_seqZ|apply NoDup_kept].
  intros x y i Hx Hy Hix Hiy. destruct (elem_draft_places x i Hx Hix) as (o & -> & Ho).
  destruct (elem_draft_places y _ Hy Hiy) as (o' & E & Ho').
  apply elem_kept in Hx as [Hx _], Hy as [Hy _]. destruct (place_inj l x y o o'); [done|done|lia|lia|lia|done].
Qed.

Lemma scatter_drafted buf :
  (total r_sched l <= length buf)%nat ->
  (forall x o, x ∈ enum l -> (o < sched x)%nat -> prev_of x = None \/ (o <= sched x - S (d x))%nat ->
     buf !! (start_of l x + o)%nat = final_ids x !! o) ->
  exists buf', scatter buf (kept xs ≫= (fun x => seqZ (last_place x - Z.of_nat (d x) + 1) (Z.of_nat (d x)))) (kept xs ≫= drafted) = Ok buf' /\
    forall x o, x ∈ enum l -> (o < sched x)%nat -> buf' !! (start_of l x + o)%nat = final_ids x !! o.
Proof.
  intros Hlen Hbuf. rewrite draft_places_code.
  assert (Hpl : forall x, length (draft_places x) = d x) by (intros; unfold draft_places; rewrite length_seqZ; lia).
  destruct (scatter_ok buf (kept xs ≫= draft_places) (kept xs ≫= drafted)) as (buf' & Es & _ & Hin & Hout).
  - apply NoDup_draft_places.
  - apply Forall_forall. intros i (x & Hi & Hx)%list_elem_of_bind. destruct (elem_draft_places x i Hx Hi) as (o & -> & Ho).
    apply elem_kept in Hx as [Hx _]. pose proof (place_bound l x o Hx). unfold py_len. lia.
  - apply length_bind_eq. intros x Hx. by rewrite length_drafted, Hpl.
  - exists buf'. split; [done|]. intros x o Hx Ho. destruct (as_sched _ Hok x Hx) as [Hds _].
    destruct (decide (is_Some (prev_of x) /\ (sched x - d x <= o)%nat)) as [[Hp Hge]|Hne].
    + pose proof (proj2 (elem_kept x) (conj Hx Hp)) as Hk. destruct (proj1 (list_elem_of_lookup _ _) Hk) as [n Hn].
      set (j := (o - (sched x - d x))%nat). destruct (lookup_lt_is_Some_2 (drafted x) j) as [v Hv]; [rewrite length_drafted; unfold j; [lia|done]|].
      replace o with (sched x - S (d x) + S j)%nat at 2 by (unfold j; lia). rewrite final_ids_device by done.
      change ((sampled x :: drafted x) !! S j) with (drafted x !! j). rewrite Hv.
      rewrite <- (Nat2Z.id (start_of l x + o)). apply (Hin (total d (take n (kept xs)) + j)%nat).
      * rewrite (bind_lookup d draft_places _ n x j) by (try done; unfold j; lia). unfold draft_places.
        rewrite lookup_seqZ_lt by (unfold j; lia). f_equal. unfold j. lia.
      * rewrite (bind_lookup d drafted _ n x j); [done|apply length_drafted|done|unfold j; lia].
    + rewrite Hout; [apply Hbuf; [done|done|]|].
      * destruct (prev_of x) as [p|] eqn:Ep; [right|by left]. destruct (decide (sched x - d x <= o)%nat); [|lia].
        destruct Hne. split; [by eexists|done].
      * intros (y & Hi & Hy)%list_elem_of_bind. destruct (elem_draft_places y _ Hy Hi) as (o' & E & Ho').
        apply elem_kept in Hy as [Hy Hpy]. destruct (place_inj l x y o o') as [-> ->]; [done|done|done|lia|lia|]. apply Hne. split; [done|lia].
Qed.

(** * The slice *)

Lemma fold_max_bound (zs : list Z) z0 : z0 <= fold_left Z.max zs z0 /\ forall z, z ∈ zs -> z <= fold_left Z.max zs z0.
Proof.
  revert z0. induction zs as [|z zs IH]; intros z0; cbn; [split; [lia|by intros ? ?%elem_of_nil]|].
  destruct (IH (Z.max z0 z)) as [H1 H2]. split; [lia|]. intros y [->|Hy]%elem_of_cons; [lia|by apply H2].
Qed.

Lemma last_place_nat x : x ∈ enum l -> last_place x = Z.of_nat (start_of l x + (sched x - 1)).
Proof. intros Hx. destruct (as_sched _ Hok x Hx). unfold last_place. lia. Qed.

(** When the last places of the kept rows are the first places of the batch, the kept rows
    are its first rows, with one token each. *)
Lemma first_rows :
  fold_left Z.max (last_place <$> kept xs) (-1) = Z.of_nat (length (kept xs)) - 1 ->
  (forall x, x ∈ kept xs -> (x.1 < length (kept xs))%nat) /\
  forall i, (i < length (kept xs))%nat -> exists x, enum l !! i = Some x /\ x ∈ kept xs /\ start_of l x = i /\ sched x = 1%nat.
Proof.
  intros Hmax. assert (Hpos : forall y, y ∈ enum l -> (0 < sched y)%nat) by (intros y Hy; destruct (as_sched _ Hok y Hy); lia).
  set (place := fun x => (start_of l x + (sched x - 1))%nat).
  assert (Hlt : forall x, x ∈ kept xs -> (place x < length (kept xs))%nat).
  { intros x Hx. destruct (fold_max_bound (last_place <$> kept xs) (-1)) as [_ H].
    specialize (H (last_place x) (list_elem_of_fmap_2 _ _ _ Hx)). apply elem_kept in Hx as [Hx _].
    rewrite last_place_nat in H by done. fold (place x) in H. lia. }
  assert (Hperm : place <$> kept xs ≡ₚ seq 0 (length (kept xs))).
  { apply submseteq_length_Permutation; [|by rewrite length_fmap, length_seq]. apply NoDup_submseteq.
    - apply (NoDup_fmap_1 Z.of_nat). rewrite <- list_fmap_compose. apply (NoDup_places (fun x => sched x - 1)%nat).
      intros x [Hx _]%elem_kept. specialize (Hpos x Hx). lia.
    - intros i (x & -> & Hx)%list_elem_of_fmap. apply elem_of_seq. specialize (Hlt x Hx). lia. }
  split.
  - intros x Hx. specialize (Hlt x Hx). apply elem_kept in Hx as [Hx _]. pose proof (start_index l x Hpos Hx). unfold place in Hlt. lia.
  - intros i. induction i as [i IH] using lt_wf_ind. intros Hi.
    assert (i ∈ place <$> kept xs) as (x & Ex & Hx)%list_elem_of_fmap by (rewrite Hperm; apply elem_of_seq; lia).
    pose proof (proj1 (elem_kept x) Hx) as [He _]. pose proof (start_index l x Hpos He) as Hs. pose proof (Hpos x He).
    unfold place in Ex. assert (x.1 = i) as E1.
    { destruct (decide (x.1 < i)%nat) as [Hj|]; [|lia]. destruct (IH x.1 Hj ltac:(lia)) as (y & Ey & _ & Sy & Sc).
      rewrite (proj2 (enum_lookup l x.1 x)) in Ey by (split; [done|by apply elem_enum]). injection Ey as <-. lia. }
    exists x. split; [apply enum_lookup; split; [done|rewrite <- E1; by apply elem_enum]|]. split; [done|]. lia.
Qed.

Lemma first_sampled n :
  (forall i, (i < n)%nat -> exists t row, prev_sampled !! i = Some (t :: row)) ->
  first_column (py_slice prev_sampled 0 (Z.of_nat n)) = Ok ((fun i => default 0 (prev_sampled !! i ≫= head)) <$> seq 0 n).
Proof.
  intros H. assert (Hl : (n <= length prev_sampled)%nat).
  { destruct n as [|n]; [lia|]. destruct (H n ltac:(lia)) as (t & row & E). apply lookup_lt_Some in E. lia. }
  rewrite py_slice_nonneg, Z.sub_0_r, Nat2Z.id by lia. change (Z.to_nat 0) with 0%nat. rewrite drop_0.
  apply mapR_Ok, Forall2_same_length_lookup_2; [rewrite length_fmap, length_seq, length_take; lia|].
  intros i row v [Hr Hi]%lookup_take_Some Hv. rewrite list_lookup_fmap, lookup_seq_lt in Hv by done. injection Hv as <-.
  destruct (H i Hi) as (t & row' & E). cbn in Hr |- *. rewrite Hr in E. injection E as ->. by rewrite Hr.
Qed.

Section Slice.
Context (Hall : forallb (fun x => prev_index x =? last_place x) (kept xs) = true).
Context (Hmax : fold_left Z.max (last_place <$> kept xs) (-1) = Z.of_nat (length (kept xs)) - 1).

Lemma slice_row x :
  x ∈ kept xs -> prev_index x = Z.of_nat x.1 /\ start_of l x = x.1 /\ sched x = 1%nat /\ (x.1 < length (kept xs))%nat.
Proof.
  intros Hx. destruct (first_rows Hmax) as [Hidx Hrows]. destruct (Hrows x.1 (Hidx x Hx)) as (y & Ey & _ & Hs & Hc).
  pose proof (proj1 (elem_kept x) Hx) as [He%elem_enum _]. rewrite (proj2 (enum_lookup l x.1 x)) in Ey by done. injection Ey as <-.
  specialize (Hidx x Hx). pose proof Hall as H. rewrite forallb_forall in H.
  apply list_elem_of_In, H, Z.eqb_eq in Hx as Hp. rewrite Hp. unfold last_place. lia.
Qed.

Lemma slice_other x : x ∈ enum l -> prev_of x = None -> (length (kept xs) <= x.1)%nat.
Proof.
  intros Hx Hno. destruct (decide (x.1 < length (kept xs))%nat) as [Hlt|]; [|lia].
  destruct (first_rows Hmax) as [_ Hrows]. destruct (Hrows _ Hlt) as (y & Ey & Hy & _).
  rewrite (proj2 (enum_lookup l x.1 x)) in Ey by (split; [done|by apply elem_enum]). injection Ey as <-.
  apply elem_kept in Hy as [_ [p Ep]]. congruence.
Qed.

Lemma slice_sampled buf :
  host_ids buf ->
  exists src buf', first_column (py_slice prev_sampled 0 (Z.of_nat (length (kept xs)))) = Ok src /\
    np_set_slice buf 0 (Z.of_nat (length (kept xs))) src = Ok buf' /\
    forall x o, x ∈ enum l -> (o < sched x)%nat -> buf' !! (start_of l x + o)%nat = final_ids x !! o.
Proof.
  intros [Hlen Hbuf]. destruct (first_rows Hmax) as [_ Hrows].
  assert (Hn : (length (kept xs) <= length buf)%nat).
  { destruct (length (kept xs)) as [|m] eqn:En; [lia|]. destruct (Hrows m ltac:(lia)) as (x & Ex & Hx & Hs & Hc).
    apply elem_kept in Hx as [Hx _]. pose proof (place_bound l x 0 Hx ltac:(lia)). lia. }
  eexists _, _. split; [apply first_sampled|split; [apply np_set_prefix; [by rewrite length_fmap, length_seq|done]|]].
  - intros i Hi. destruct (Hrows i Hi) as (x & [Ei _]%enum_lookup & Hx & _). destruct (slice_row x Hx) as (Hp & _).
    apply elem_kept in Hx as [Hx [p Ep]]. destruct (as_prev _ Hok x p Hx Ep) as (_ & t & row & E).
    unfold prev_index in Hp. rewrite Ep in Hp. cbn in Hp. exists t, row. by replace i with (Z.to_nat p) by lia.
  - intros x o Hx Ho. destruct (prev_of x) as [p|] eqn:Ep.
    + destruct (slice_row x) as (Hp & Hs & Hc & Hlt); [apply elem_kept; by split; [|eexists]|]. assert (o = 0%nat) as -> by lia.
      pose proof (final_ids_device x 0 Hx (mk_is_Some _ _ Ep)) as Ef. replace (sched x - S (d x) + 0)%nat with 0%nat in Ef by lia.
      rewrite Ef, Hs, Nat.add_0_r, lookup_app_l by (rewrite length_fmap, length_seq; lia).
      rewrite list_lookup_fmap, lookup_seq_lt by done. cbn. unfold sampled. by rewrite Hp, Nat2Z.id.
    + pose proof (slice_other x Hx Ep).
      pose proof (start_index l x ltac:(intros y Hy; destruct (as_sched _ Hok y Hy); lia) Hx).
      rewrite lookup_app_r by (rewrite length_fmap, length_seq; lia). rewrite lookup_drop, length_fmap, length_seq, final_ids_host by auto.
      rewrite <- Hbuf by auto. f_equal. lia.
Qed.
End Slice.

(** The draft tokens after the sampled ones, when there are any. *)
Lemma scatter_rest {E} (b : @id_buffers E) buf :
  (total r_sched l <= length buf)%nat ->
  (forall x o, x ∈ enum l -> (o < sched x)%nat -> prev_of x = None \/ (o <= sched x - S (d x))%nat ->
     buf !! (start_of l x + o)%nat = final_ids x !! o) ->
  let idx := kept xs ≫= (fun x => seqZ (last_place x - Z.of_nat (d x) + 1) (Z.of_nat (d x))) in
  exists b', match table, idx with
    | None, _ | _, [] => Ok (set_ids_gpu buf b)
    | Some t, _ :: _ =>
        src ← np_take (concat t) (kept xs ≫= (fun x => seqZ (prev_index x * Z.of_nat width) (Z.of_nat (d x))));
        ids ← scatter buf idx src;
        Ok (set_ids_gpu ids (set_ids_gpu buf b))
    end = Ok b' /\
    forall x o, x ∈ enum l -> (o < sched x)%nat -> gpu (input_ids b') !! (start_of l x + o)%nat = final_ids x !! o.
Proof.
  intros Hlen Hbuf idx. assert (Hz : (forall x, x ∈ kept xs -> d x = 0%nat) -> forall x o, x ∈ enum l -> (o < sched x)%nat ->
    buf !! (start_of l x + o)%nat = final_ids x !! o).
  { intros Hd x o Hx Ho. apply Hbuf; [done..|]. destruct (prev_of x) as [p|] eqn:Ep; [right|by left].
    rewrite (Hd x); [lia|]. apply elem_kept. by split; [|eexists]. }
  destruct table as [t|] eqn:Et; [destruct idx as [|i is_] eqn:Ei|].
  - eexists. split; [done|]. apply Hz. intros x Hx. destruct (decide (d x = 0%nat)) as [|Hd]; [done|].
    assert (Hin : last_place x - Z.of_nat (d x) + 1 ∈ idx); [|rewrite Ei in Hin; by apply elem_of_nil in Hin].
    apply list_elem_of_bind. exists x. split; [|done]. apply elem_of_seqZ. lia.
  - rewrite draft_values by done. cbn [mbind result_bind]. rewrite <- Ei.
    destruct (scatter_drafted buf Hlen Hbuf) as (buf' & Es & Hf). fold idx in Es. rewrite Es. cbn [mbind result_bind]. by eexists.
  - eexists. split; [done|]. apply Hz. intros x [Hx Hp]%elem_kept. destruct (decide (d x = 0%nat)) as [|Hd]; [done|].
    destruct (as_drafts _ Hok x Hx Hp Hd) as (t & r & E' & _). congruence.
Qed.

(** The ids after the loop, on every path. *)
Lemma scatter_ids_ok {E} (b : @id_buffers E) :
  host_ids (gpu (input_ids b)) -> kept xs <> [] ->
  exists b', scatter_ids false prev_sampled table (extend no_common (kept xs)) b = Ok b' /\
    forall x o, x ∈ enum l -> (o < sched x)%nat -> gpu (input_ids b') !! (start_of l x + o)%nat = final_ids x !! o.
Proof.
  intros Hb Hne. unfold scatter_ids, extend, no_common. cbn [sample_flattened_indices spec_flattened_indices prev_common_req_indices
    prev_draft_token_indices indices_match max_flattened_index app andb]. unfold py_len. rewrite length_fmap.
  rewrite (proj2 (Z.eqb_neq _ 0)) by (destruct (kept xs); [done|cbn; lia]).
  destruct (forallb _ (kept xs)) eqn:Hall; [destruct (Z.eqb_spec (fold_left Z.max (last_place <$> kept xs) (-1))
    (Z.of_nat (length (kept xs)) - 1)) as [Hmax|_]|]; cbn [andb].
  { destruct (slice_sampled Hall Hmax _ Hb) as (src & buf' & -> & E2 & Hf). cbn [mbind result_bind]. rewrite E2. by eexists. }
  all: destruct (scatter_sampled _ Hb) as (rows & src & buf1 & -> & E2 & E3 & Hl1 & H1); cbn [mbind result_bind];
    rewrite E2; cbn [mbind result_bind]; rewrite E3; cbn [mbind result_bind set_ids_gpu set_gpu input_ids gpu cpu].
  all: apply scatter_rest; [destruct Hb; lia|done].
Qed.
End Scatter.

Lemma length_final xs : async_ok xs -> forall x, x ∈ enum l -> length (final_ids x) = sched x.
Proof.
  intros Hok x Hx. destruct (as_sched _ Hok x Hx) as [Hd Hl]. unfold final_ids. destruct (prev_of x) as [p|] eqn:Ep; [|done].
  rewrite length_app, length_take. cbn [length]. rewrite (length_drafted xs Hok); [lia|]. apply elem_kept; [done|]. by split; [|eexists].
Qed.

(** C14: the input ids with asynchronous scheduling.  Whatever the device buffer holds, the
    ids of the step are the host's ids for new requests, and for the requests of the
    previous step the host's ids before the last sampled token, then the token sampled and
    the tokens drafted for that request on the device, wherever the request was in the
    previous batch; on every path: with and without the copy, slice and scatter. *)
Theorem async_input_ids_correct {E} (b : @id_buffers E) xs rest :
  async_ok xs -> l <> [] -> cpu (input_ids b) = (enum l ≫= row_ids) ++ rest ->
  (total r_sched l <= length (gpu (input_ids b)))%nat ->
  exists b', prepare_input_ids false (Z.of_nat width) (Some prev_sampled, Some prev) table
      ((fun x => (r_id x.2, Z.of_nat x.1)) <$> xs) spec (Z.of_nat (total r_sched l)) (ends sched (enum l)) b = Ok b' /\
    take (total r_sched l) (gpu (input_ids b')) = enum l ≫= final_ids.
Proof.
  intros Hok Hl Hcpu Hgpu. pose proof Hok as [Hp Hs _ _]. unfold prepare_input_ids. cbn [fst snd of_option mbind result_bind].
  rewrite common_loop by (intros x Hx; by rewrite <- Hp). cbn [mbind result_bind].
  assert (Hlen : forall x, x ∈ enum l -> length (row_ids x) = sched x) by (intros x Hx; by apply Hs).
  assert (exists b1, (if py_len (sample_flattened_indices (extend no_common (kept xs))) <?
      Z.of_nat (total r_sched l) - total_num_spec_tokens (extend no_common (kept xs))
    then copy_ids false (Z.of_nat (total r_sched l)) b else Ok b) = Ok b1 /\ host_ids (gpu (input_ids b1))) as (b1 & -> & Hb1).
  { unfold extend, no_common. cbn [sample_flattened_indices total_num_spec_tokens app]. unfold py_len. rewrite length_fmap.
    destruct (Z.ltb_spec (Z.of_nat (length (kept xs))) (Z.of_nat (total r_sched l) - (0 + Z.of_nat (total d (kept xs))))).
    - unfold copy_ids, buffer_to_gpu. rewrite Hcpu, copy_to_gpu_ok by (done || by apply length_rows). cbn [mbind result_bind].
      eexists. split; [done|]. by apply copied_host_ids.
    - eexists. split; [done|]. eapply uncopied_host_ids; [done..|lia]. }
  cbn [mbind result_bind]. destruct (decide (kept xs = [])) as [Ek|Hk].
  - exists b1. rewrite Ek. split; [done|]. apply take_places; [by apply (length_final xs)|].
    intros x o Hx Ho. assert (Hno : prev_of x = None).
    { destruct (prev_of x) eqn:Ep; [|done]. assert (Hin : x ∈ kept xs) by (apply elem_kept; [done|]; by split; [|eexists]).
      rewrite Ek in Hin. by apply elem_of_nil in Hin. }
    rewrite (final_ids_host xs Hok) by auto. apply Hb1; auto.
  - destruct (scatter_ids_ok xs Hok b1 Hb1 Hk) as (b2 & -> & H2). exists b2. split; [done|]. apply take_places; [by apply (length_final xs)|done].
Qed.
End Async.
