(* ===== verification/RunnerExamples.v ===== *)
(** Concrete steps of the model runner: two requests, one verifying a draft token, one
    within its prompt; a step after the batch has been reordered; and a mask the
    asynchronous path leaves behind. *)
From S2P Require Import Prelude Device NumPy Dict BlockTable RejectionSampler RunnerInputs RunnerInputsFacts RunnerVerify RunnerAsync.
Local Open Scope Z_scope.
Local Open Scope string_scope.

Module RunnerExamples.

(** * A step with draft tokens *)
Definition row_a : row := mkRow "a" [5; 6; 7; 8; 0; 0] 2 2 3 3.
Definition row_b : row := mkRow "b" [9; 4; 0; 0; 0; 0] 0 1 2 2.
Definition demo_rows : list row := [row_a; row_b].
Definition demo_spec : dict (list Z) := [("a", [8])].

Definition demo_config : config := mkConfig (seqZ 0 8) 6 false 2 None.
Definition demo_batch : @batch unit :=
  mkBatch ["a"; "b"] [("b", 1); ("a", 0)] [[5; 6; 7; 8; 0; 0]; [9; 4; 0; 0; 0; 0]; [0; 0; 0; 0; 0; 0]] [] ∅ [2; 0; 0] [3; 2; 0]
    None None [("a", 3); ("b", 2)].

Definition demo_blocks : list (list Z) := [[1]; [2]].
Definition demo_table : BlockTable :=
  mkTable 4 1 false 2 [[1; 0]; [2; 0]] [[0; 0]; [0; 0]] [1; 1] [0; 0; 0; 0] [0; 0; 0; 0] 1 0 1 0 1.
Definition zeros (n : nat) : buffer Z := mkBuffer (replicate n 0) (replicate n 0).
Definition demo_buffers : @buffers unit :=
  mkBuffers (mkIds (zeros 5) (mkBuffer [] []) (mkBuffer [] [])) (zeros 5) (zeros 4) (zeros 3)
    (mkBuffer [false; false; false] [false; false; false]) (zeros 3) [demo_table].

Lemma demo_rows_cases (P : row -> Prop) : P row_a -> P row_b -> forall r, r ∈ demo_rows -> P r.
Proof. intros Ha Hb r [->|[->|[]%elem_of_nil]%elem_of_cons]%elem_of_cons; done. Qed.

Lemma demo_ok : batch_ok demo_config demo_batch demo_rows demo_spec.
Proof.
  split; try done.
  - intros [|[|i]] r; [intros [= <-]..|]; done.
  - by exists [[0; 0; 0; 0; 0; 0]].
  - split; [done|]. by apply demo_rows_cases.
  - by exists [0].
  - by exists [0].
  - by apply demo_rows_cases.
  - apply demo_rows_cases; cbn; lia.
  - exists 8%nat. repeat split; cbn; lia.
  - split; [repeat constructor; set_solver|]. split.
    + intros q [->|[]%elem_of_nil]%elem_of_cons. by exists 0%nat, row_a.
    + split; [repeat constructor; set_solver|]. intros x Hx. apply list_elem_of_lookup in Hx as [[|[|i]] Hi]; [injection Hi as <-..|done];
      apply Nat.ltb_lt; reflexivity.
Qed.

Lemma demo_bufs : bufs_ok demo_rows demo_buffers.
Proof. split; cbn; lia. Qed.

Lemma demo_ready : Forall (fun t => table_ready demo_rows t demo_blocks) (block_tables demo_buffers).
Proof.
  constructor; [|constructor]. split; [|split; [|split]].
  - split; cbn; unfold total_cp_world_size, total_cp_rank; cbn; try lia; try done. by exists 4.
  - split; [done|]. split; [done|]. intros [|[|i]] ids; [intros [= <-]..|]; [by exists [0]..|done].
  - change (batch_toks demo_rows) with [(0%nat, 2); (0%nat, 3); (1%nat, 0)].
    apply Forall_cons_2; [|apply Forall_cons_2; [|apply Forall_cons_2; [|by constructor]]].
    + exists [1], 1. vm_compute. intuition congruence.
    + exists [1], 1. vm_compute. intuition congruence.
    + exists [2], 2. vm_compute. intuition congruence.
  - cbn. lia.
Qed.

Lemma prepare_inputs_correct_witness :
  exists s', prepare_inputs demo_config demo_batch 3 demo_spec [2; 1] demo_buffers = Ok (s', [0; 1; 2], Some (batch_metadata demo_rows demo_spec)) /\
    take 3 (gpu (input_ids (ids s'))) = [7; 8; 9] /\ take 3 (gpu (positions s')) = [2; 3; 0] /\
    take 2 (gpu (discard_request_mask s')) = [false; true].
Proof.
  destruct (prepare_inputs_correct demo_config demo_batch demo_rows demo_spec demo_buffers (fun _ => demo_blocks) demo_ok demo_bufs eq_refl eq_refl demo_ready)
    as (s' & E & H1 & H2 & _ & _ & H3 & _).
  exists s'. split; [exact E|]. split; [exact H1|]. split; [exact H2|exact H3].
Defined.

(** * Verification *)
Definition next_token (ctx : list Z) : Z := fold_left Z.add ctx 0 mod 10.

#[local] Instance unit_floats : FloatOps := {|
  F := Z; f0 := 0; f1 := 1; f_neg_inf := -1; fdiv := Z.div; fsub := Z.sub; fmax := Z.max; fgt := Z.gtb; fge := Z.geb;
|}.

(** The first request is greedy and drafts one token; the second is sampled at random. *)
Definition demo_draws (x : irow) : list position :=
  if (x.1 =? 0)%nat then [mkPos _ 0 0 3 1 (replicate 10 0) (replicate 10 1)] else [].

Lemma demo_draws_ok : draws_ok 10 demo_spec demo_rows demo_draws.
Proof.
  intros x Hx. apply elem_enum in Hx. destruct x as [[|[|i]] r]; cbn in Hx; [injection Hx as <-..|done]; (split; [done|]).
  - intros p Hp. apply list_elem_of_singleton in Hp as ->. done.
  - by intros p Hp%elem_of_nil.
Qed.

Lemma verify_step_lossless_witness :
  exists s' metadata target bonus,
    prepare_inputs demo_config demo_batch 3 demo_spec [2; 1] demo_buffers = Ok (s', logits_indices metadata, Some metadata) /\
    verify_rows metadata (model_output next_token demo_rows) = Ok (target, bonus) /\ bonus = [6; 9] /\
    exists out,
      rejection_sample [1; 0]%nat [0; 1]%nat (draft_token_ids metadata) (num_draft_tokens metadata) (max_spec_len metadata) 10
        (cu_num_draft_tokens metadata) (Some (replicate 10 0)) target (replicate 10 1) [6; 5] [3] [1] false false [true; false] = Ok out /\
      parse_output out 10 [] !! 0%nat = Some [8; 6].
Proof.
  destruct (verify_step_lossless next_token 10 ltac:(intros; apply Z.mod_pos_bound; lia) demo_config demo_batch demo_rows demo_spec
    demo_buffers (fun _ => demo_blocks) demo_draws [1; 0]%nat [0; 1]%nat [] true false false [true; false])
    as (s' & m & target & bonus & E1 & _ & E2 & _ & E3).
  - exact demo_ok.
  - exact demo_bufs.
  - done.
  - done.
  - exact demo_ready.
  - done.
  - intros r t Hr. revert t. revert r Hr.
    apply (demo_rows_cases (fun r => forall t, t ∈ r_tokens r -> 0 <= t < 10)); apply Forall_forall; repeat constructor; lia.
  - exact demo_draws_ok.
  - done.
  - apply Permutation_swap.
  - done.
  - done.
  - assert (Eb : bonus = [6; 9]).
    { pose proof (f_equal (fun r => match r with Ok (_, _, o) => o | Err _ => None end) E1) as Em. vm_compute in Em.
      injection Em as Em. rewrite <- Em in E2. vm_compute in E2. by injection E2. }
    exists s', m, target, bonus. split; [exact E1|]. split; [exact E2|]. split; [exact Eb|].
    destruct (E3 [6; 5] eq_refl) as (out & E4 & E5).
    + rewrite Eb. intros [|[|i]] Hi; [done|discriminate Hi|by destruct i].
    + exists out. split; [exact E4|]. exact (E5 (0%nat, row_a) (proj2 (elem_enum demo_rows (0%nat, row_a)) eq_refl) eq_refl).
Defined.

(** * Asynchronous scheduling *)

(** The first request of the previous batch has finished: "a" and "b" have moved, "n" is new. *)
Definition moved_a : row := mkRow "a" [5; 6; 7; 0] 2 2 1 3.
Definition moved_b : row := mkRow "b" [9; 4; 0; 0] 2 1 1 3.
Definition moved_n : row := mkRow "n" [1; 3; 0; 0] 0 2 2 2.
Definition moved_rows : list row := [moved_a; moved_b; moved_n].
Definition moved_spec : dict (list Z) := [("a", [-1])].
Definition moved_prev : dict Z := [("a", 1); ("b", 2)].
Definition moved_sampled : list (list Z) := [[40]; [41]; [42]].
Definition moved_table : list (list Z) := [[50; 51]; [60; 61]; [70; 71]].
Definition moved_order : list irow := [(1%nat, moved_b); (0%nat, moved_a); (2%nat, moved_n)].
Definition moved_buffers : @id_buffers unit :=
  mkIds (mkBuffer [7; 0; 0; 1; 3] [99; 99; 99; 99; 99; 99]) (mkBuffer [] []) (mkBuffer [] []).

Lemma moved_ok : async_ok moved_rows moved_spec moved_prev moved_sampled (Some moved_table) 2 moved_order.
Proof.
  assert (Hc : forall P : irow -> Prop, P (0%nat, moved_a) -> P (1%nat, moved_b) -> P (2%nat, moved_n) -> forall x, x ∈ enum moved_rows -> P x).
  { intros P Ha Hb Hn x Hx. apply list_elem_of_lookup in Hx as [[|[|[|i]]] Hi]; [injection Hi as <-..|]; done. }
  split.
  - apply Permutation_swap.
  - apply Hc; (split; [apply Nat.ltb_lt|]; reflexivity).
  - intros x p Hx. revert p. revert x Hx.
    apply (Hc (fun x => forall p, prev_of moved_prev x = Some p -> 0 <= p /\ exists t row, moved_sampled !! Z.to_nat p = Some (t :: row)));
      intros p; [intros [= <-]..|intros [=]]; (split; [lia|by eexists _, _]).
  - apply (Hc (fun x => is_Some (prev_of moved_prev x) -> drafts_of moved_spec x <> 0%nat -> exists t r, Some moved_table = Some t /\
      t !! Z.to_nat (prev_index moved_prev x) = Some r /\ uniform 2 t /\ (drafts_of moved_spec x <= 2)%nat)).
    + intros _ _. exists moved_table, [60; 61]. split; [done|]. split; [done|]. split; [|apply Nat.leb_le; reflexivity].
      intros r Hr. by apply list_elem_of_lookup in Hr as [[|[|[|i]]] Hi]; [injection Hi as <-..|].
    + intros _ []. reflexivity.
    + intros _ []. reflexivity.
Qed.

Lemma async_input_ids_correct_witness :
  exists b', prepare_input_ids false 2 (Some moved_sampled, Some moved_prev) (Some moved_table) [("b", 1); ("a", 0); ("n", 2)]
      moved_spec 5 [2; 3; 5] moved_buffers = Ok b' /\ take 5 (gpu (input_ids b')) = [41; 60; 42; 1; 3].
Proof.
  destruct (async_input_ids_correct moved_rows moved_spec moved_prev moved_sampled (Some moved_table) 2 moved_buffers moved_order [] moved_ok) as (b' & E & H).
  - done.
  - reflexivity.
  - cbn. lia.
  - exists b'. split; [exact E|exact H].
Defined.

(** With prompt embeddings, a step whose requests all ran in the previous step, in another
    order, leaves the mask of token ids of the previous step on the device: the host has
    marked both tokens, the device still says both are embeddings. *)
Lemma async_mask_stale :
  exists b', prepare_input_ids true 0 (Some [[41]; [42]], Some [("a", 1); ("b", 0)]) None [("a", 0); ("b", 1)] [] 2 [1; 2]
      (mkIds (mkBuffer [0; 0] [7; 7]) (mkBuffer [true; true] [false; false]) (mkBuffer [tt; tt] [tt; tt])) = Ok b' /\
    gpu (input_ids b') = [42; 41] /\ cpu (is_token_ids b') = [true; true] /\ gpu (is_token_ids b') = [false; false].
Proof. eexists. vm_compute. done. Qed.
End RunnerExamples.
