(* ===== verification/Offload.v ===== *)
(** Offloading of KV blocks to the host ([src/vllm/v1/kv_offload/]): the data of
    [abstract.py], [backend.py] and [mediums.py], the interfaces a backend and a manager
    implement with the laws their clients rely on, and the CPU backend of
    [backends/cpu.py].  [LRUOffload.v] and [ARCOffload.v] hold the two managers,
    [OffloadConnector.v] the client in the scheduler. *)
From S2P Require Import Prelude Dict Request.
Local Open Scope Z_scope.

(** * Data *)

(** [BlockStatus] with the field of [CPUBlockStatus], the address of the block in the
    backend.  [ref_cnt] is a [c_int32], [block_id] a [c_int64]. *)
Record BlockStatus := mkStatus { ref_cnt : Z; block_id : Z }.

#[export] Instance BlockStatus_eq_dec : EqDecision BlockStatus.
Proof. solve_decision. Defined.

Definition set_ref_cnt (n : Z) (s : BlockStatus) : BlockStatus := mkStatus (c_int 32 n) (block_id s).
Definition is_ready (s : BlockStatus) : bool := 0 <=? ref_cnt s.
Definition new_status (block_id : Z) : BlockStatus := set_ref_cnt (-1) (mkStatus 0 (c_int 64 block_id)).

(** [BlockIDsLoadStoreSpec] and its two subclasses, told apart by the medium. *)
Record LoadStoreSpec := mkSpec { sp_medium : string; sp_block_ids : list Z }.
Definition CPULoadStoreSpec (ids : list Z) : LoadStoreSpec := mkSpec "CPU" ids.
Definition GPULoadStoreSpec (ids : list Z) : LoadStoreSpec := mkSpec "GPU" ids.

Record PrepareStoreOutput := mkStoreOutput {
  block_hashes_to_store : list bytes;
  store_spec : LoadStoreSpec;
  block_hashes_evicted : list bytes;
}.

Record OffloadingEvent := mkEvent { ev_hashes : list bytes; ev_block_size : Z; ev_medium : string; ev_removed : bool }.

(** * Interfaces *)

(** [Backend]. *)
Class Backend (B : Type) := {
  bk_block_size : B -> Z;
  bk_medium : B -> string;
  bk_num_free : B -> Z;
  bk_allocate : list bytes -> B -> result (list BlockStatus * B);
  bk_free : BlockStatus -> B -> result B;
  bk_spec : list bytes -> list BlockStatus -> B -> LoadStoreSpec;
}.

(** What a backend promises: [bk_holds b ids] says that the blocks [ids] are given out and
    the others are free. *)
Class BackendLaws (B : Type) `{Backend B} := {
  bk_holds : B -> list Z -> Prop;
  bk_capacity : B -> Z;
  bk_holds_perm b l l' : l ≡ₚ l' -> bk_holds b l -> bk_holds b l';
  bk_holds_nodup b l : bk_holds b l -> NoDup l;
  bk_holds_range b l i : bk_holds b l -> i ∈ l -> 0 <= i < bk_capacity b;
  bk_holds_count b l : bk_holds b l -> bk_num_free b = bk_capacity b - Z.of_nat (length l) /\ 0 <= bk_num_free b;
  bk_allocate_ok b l hs :
    bk_holds b l -> Z.of_nat (length hs) <= bk_num_free b ->
    exists sts b', bk_allocate hs b = Ok (sts, b') /\ length sts = length hs /\
      Forall (fun s => ref_cnt s = -1) sts /\ bk_holds b' (l ++ (block_id <$> sts)) /\ bk_capacity b' = bk_capacity b;
  bk_free_ok b l s :
    bk_holds b (block_id s :: l) -> exists b', bk_free s b = Ok b' /\ bk_holds b' l /\ bk_capacity b' = bk_capacity b;
  bk_spec_ids hs sts b : sp_block_ids (bk_spec hs sts b) = block_id <$> sts;
}.

#[export] Instance bk_holds_proper `{BackendLaws B} (b : B) : Proper ((≡ₚ) ==> iff) (bk_holds b).
Proof. intros l l' E. split; by apply bk_holds_perm. Qed.

(** [OffloadingManager]. *)
Class OffloadingManager (M : Type) := {
  om_lookup : list bytes -> M -> option Z;
  om_prepare_load : list bytes -> M -> result (LoadStoreSpec * M);
  om_touch : list bytes -> M -> result M;
  om_complete_load : list bytes -> M -> result M;
  om_prepare_store : list bytes -> M -> result (option PrepareStoreOutput * M);
  om_complete_store : list bytes -> bool -> M -> result M;
  om_take_events : M -> list OffloadingEvent * M;
}.

(** The prefix of hashes [lookup] counts. *)
Fixpoint ready_prefix (get : bytes -> option BlockStatus) (hs : list bytes) : Z :=
  match hs with
  | [] => 0
  | h :: hs => match get h with Some s => if is_ready s then 1 + ready_prefix get hs else 0 | None => 0 end
  end.

(** What a manager promises, in terms of the blocks it keeps by hash ([om_get]).  Loads and
    stores take distinct hashes, as the block hashes of a request are. *)
Class OffloadLaws (M : Type) `{OffloadingManager M} := {
  om_inv : M -> Prop;
  om_get : M -> bytes -> option BlockStatus;
  om_capacity : M -> Z;
  (** the touches the manager supports *)
  om_touchable : M -> list bytes -> Prop;
  om_status_ok m h s : om_inv m -> om_get m h = Some s -> -1 <= ref_cnt s < 2 ^ 31 /\ 0 <= block_id s < om_capacity m;
  om_distinct m h h' s s' :
    om_inv m -> om_get m h = Some s -> om_get m h' = Some s' -> block_id s = block_id s' -> h = h';
  om_lookup_ok m hs : om_inv m -> om_lookup hs m = Some (ready_prefix (om_get m) hs);
  om_prepare_load_ok m hs :
    om_inv m -> NoDup hs -> (forall h, h ∈ hs -> exists s, om_get m h = Some s /\ 0 <= ref_cnt s < 2 ^ 31 - 1) ->
    exists sp m', om_prepare_load hs m = Ok (sp, m') /\ om_inv m' /\ om_capacity m' = om_capacity m /\
      Forall2 (fun h i => block_id <$> om_get m h = Some i) hs (sp_block_ids sp) /\
      forall h, om_get m' h = if decide (h ∈ hs) then (fun s => mkStatus (ref_cnt s + 1) (block_id s)) <$> om_get m h else om_get m h;
  om_touch_ok m hs :
    om_inv m -> om_touchable m hs ->
    exists m', om_touch hs m = Ok m' /\ om_inv m' /\ om_capacity m' = om_capacity m /\ forall h, om_get m' h = om_get m h;
  om_complete_load_ok m hs :
    om_inv m -> NoDup hs -> (forall h, h ∈ hs -> exists s, om_get m h = Some s /\ 0 < ref_cnt s) ->
    exists m', om_complete_load hs m = Ok m' /\ om_inv m' /\ om_capacity m' = om_capacity m /\
      forall h, om_get m' h = if decide (h ∈ hs) then (fun s => mkStatus (ref_cnt s - 1) (block_id s)) <$> om_get m h else om_get m h;
  om_prepare_store_ok m hs :
    om_inv m -> NoDup hs ->
    exists o m', om_prepare_store hs m = Ok (o, m') /\ om_inv m' /\ om_capacity m' = om_capacity m /\
    match o with
    | None => forall h, om_get m' h = om_get m h \/ (om_get m' h = None /\ ref_cnt <$> om_get m h = Some 0)
    | Some out =>
        block_hashes_to_store out = filter (fun h => om_get m h = None) hs /\
        Forall (fun h => ref_cnt <$> om_get m h = Some 0) (block_hashes_evicted out) /\
        Forall2 (fun h i => om_get m' h = Some (mkStatus (-1) i)) (block_hashes_to_store out) (sp_block_ids (store_spec out)) /\
        forall h, h ∉ block_hashes_to_store out -> om_get m' h = if decide (h ∈ block_hashes_evicted out) then None else om_get m h
    end;
  om_complete_store_ok m hs :
    om_inv m -> (forall h, h ∈ hs -> ref_cnt <$> om_get m h = Some (-1)) -> NoDup hs ->
    exists m', om_complete_store hs true m = Ok m' /\ om_inv m' /\ om_capacity m' = om_capacity m /\
      forall h, om_get m' h = if decide (h ∈ hs) then (fun s => mkStatus 0 (block_id s)) <$> om_get m h else om_get m h;
  om_fail_store_ok m hs :
    om_inv m -> (forall h, h ∈ hs -> ref_cnt <$> om_get m h = Some (-1)) -> NoDup hs ->
    exists m', om_complete_store hs false m = Ok m' /\ om_inv m' /\ om_capacity m' = om_capacity m /\
      forall h, om_get m' h = if decide (h ∈ hs) then None else om_get m h;
  om_take_events_ok m :
    om_inv m -> om_inv (om_take_events m).2 /\ om_capacity (om_take_events m).2 = om_capacity m /\
      forall h, om_get (om_take_events m).2 h = om_get m h;
}.

(** * The CPU backend *)

Record CPUBackend := mkCPU {
  cpu_block_size : Z;
  num_blocks : Z;
  num_allocated_blocks : Z;
  allocated_blocks_free_list : list Z;
}.

Definition new_cpu_backend (block_size num_blocks : Z) : CPUBackend := mkCPU block_size num_blocks 0 [].

Definition cpu_num_free_blocks (b : CPUBackend) : Z :=
  Z.of_nat (length (allocated_blocks_free_list b)) + num_blocks b - num_allocated_blocks b.

(** One iteration of each loop of [allocate_blocks]. *)
Definition allocate_fresh (s : list BlockStatus * CPUBackend) (_ : nat) : result (list BlockStatus * CPUBackend) :=
  let '(blocks, b) := s in
  Ok (blocks ++ [new_status (num_allocated_blocks b)],
      mkCPU (cpu_block_size b) (num_blocks b) (num_allocated_blocks b + 1) (allocated_blocks_free_list b)).
Definition allocate_reused (s : list BlockStatus * CPUBackend) (_ : nat) : result (list BlockStatus * CPUBackend) :=
  let '(blocks, b) := s in
  id ← of_option IndexError (last (allocated_blocks_free_list b));
  Ok (blocks ++ [new_status id],
      mkCPU (cpu_block_size b) (num_blocks b) (num_allocated_blocks b) (removelast (allocated_blocks_free_list b))).

Definition cpu_allocate_blocks (block_hashes : list bytes) (b : CPUBackend) : result (list BlockStatus * CPUBackend) :=
  let n := Z.of_nat (length block_hashes) in
  let num_fresh_blocks := Z.min n (num_blocks b - num_allocated_blocks b) in
  let num_reused_blocks := n - num_fresh_blocks in
  _ ← py_assert (num_reused_blocks <=? Z.of_nat (length (allocated_blocks_free_list b)));
  s ← foldM allocate_fresh (seq 0 (Z.to_nat num_fresh_blocks)) ([], b);
  foldM allocate_reused (seq 0 (Z.to_nat num_reused_blocks)) s.

Definition cpu_free (s : BlockStatus) (b : CPUBackend) : result CPUBackend :=
  Ok (mkCPU (cpu_block_size b) (num_blocks b) (num_allocated_blocks b) (allocated_blocks_free_list b ++ [block_id s])).

#[export] Instance cpu_backend : Backend CPUBackend := {|
  bk_block_size := cpu_block_size;
  bk_medium _ := "CPU"%string;
  bk_num_free := cpu_num_free_blocks;
  bk_allocate := cpu_allocate_blocks;
  bk_free := cpu_free;
  bk_spec _ blocks _ := CPULoadStoreSpec (block_id <$> blocks);
|}.

Lemma set_ref_cnt_id n s : -1 <= n < 2 ^ 31 -> set_ref_cnt n s = mkStatus n (block_id s).
Proof. intros Hn. unfold set_ref_cnt. by rewrite c_int_id by (change (32 - 1) with 31; lia). Qed.

Lemma new_status_id i : 0 <= i < 2 ^ 63 -> new_status i = mkStatus (-1) i.
Proof.
  intros Hi. unfold new_status. rewrite set_ref_cnt_id by lia. cbn [block_id].
  by rewrite c_int_id by (change (64 - 1) with 63; lia).
Qed.

Lemma allocate_fresh_loop k n bl b :
  foldM allocate_fresh (seq k n) (bl, b) =
  Ok (bl ++ (new_status <$> seqZ (num_allocated_blocks b) (Z.of_nat n)),
      mkCPU (cpu_block_size b) (num_blocks b) (num_allocated_blocks b + Z.of_nat n) (allocated_blocks_free_list b)).
Proof.
  revert k bl b. induction n as [|n IH]; intros k bl b.
  { cbn. rewrite app_nil_r, Z.add_0_r. by destruct b. }
  cbn [seq foldM allocate_fresh mbind result_bind]. rewrite IH. cbn -[Z.of_nat]. rewrite (seqZ_cons _ (Z.of_nat (S n))) by lia.
  rewrite <- app_assoc, Nat2Z.inj_succ, Z.pred_succ, <- Z.add_1_r, <- Z.add_assoc, (Z.add_comm 1). done.
Qed.

Lemma allocate_reused_loop k n bl b :
  (n <= length (allocated_blocks_free_list b))%nat ->
  exists pre post, allocated_blocks_free_list b = pre ++ post /\ length post = n /\
  foldM allocate_reused (seq k n) (bl, b) =
  Ok (bl ++ (new_status <$> reverse post), mkCPU (cpu_block_size b) (num_blocks b) (num_allocated_blocks b) pre).
Proof.
  revert k bl b. induction n as [|n IH]; intros k bl b Hn.
  { exists (allocated_blocks_free_list b), []. rewrite app_nil_r. cbn. rewrite app_nil_r. by destruct b. }
  destruct (allocated_blocks_free_list b) as [|x l _] eqn:E using rev_ind; [cbn in Hn; lia|].
  rewrite length_app in Hn. cbn in Hn. cbn [seq foldM allocate_reused]. rewrite E, last_snoc, removelast_last.
  cbn [of_option mbind result_bind].
  destruct (IH (S k) (bl ++ [new_status x]) (mkCPU (cpu_block_size b) (num_blocks b) (num_allocated_blocks b) l))
    as (pre & post & El & Hpost & ->); [cbn; lia|].
  cbn in El. subst l. exists pre, (post ++ [x]). rewrite app_assoc, length_app, reverse_snoc. cbn.
  split; [done|]. split; [lia|]. by rewrite <- app_assoc.
Qed.

(** The ids given out and the free list are the ids handed out so far. *)
Definition cpu_holds (b : CPUBackend) (held : list Z) : Prop :=
  held ++ allocated_blocks_free_list b ≡ₚ seqZ 0 (num_allocated_blocks b) /\
  0 <= num_allocated_blocks b <= num_blocks b /\ num_blocks b <= 2 ^ 63.

Lemma cpu_new_status_ids l :
  Forall (fun i => 0 <= i < 2 ^ 63) l ->
  block_id <$> (new_status <$> l) = l /\ Forall (fun s => ref_cnt s = -1) (new_status <$> l).
Proof.
  intros Hl. rewrite <- list_fmap_compose. split.
  - rewrite <- (list_fmap_id l) at 2. apply list_fmap_ext. intros i x Hx. unfold compose.
    rewrite new_status_id; [done|]. by apply (proj1 (Forall_lookup _ _) Hl i).
  - apply Forall_fmap. eapply Forall_impl; [exact Hl|]. intros x Hx. unfold compose. by rewrite new_status_id.
Qed.

Lemma cpu_held_range b held i : cpu_holds b held -> i ∈ held ++ allocated_blocks_free_list b -> 0 <= i < num_blocks b.
Proof. intros (E & Hn & _) Hi. rewrite E in Hi. apply elem_of_seqZ in Hi. lia. Qed.

Lemma cpu_allocate_ok b held hs :
  cpu_holds b held -> Z.of_nat (length hs) <= cpu_num_free_blocks b ->
  exists sts b', cpu_allocate_blocks hs b = Ok (sts, b') /\ length sts = length hs /\
    Forall (fun s => ref_cnt s = -1) sts /\ cpu_holds b' (held ++ (block_id <$> sts)) /\ num_blocks b' = num_blocks b.
Proof.
  intros Hb Hn. assert (Hr := fun i => cpu_held_range b held i Hb). destruct Hb as (E & Ha & H63). unfold cpu_num_free_blocks in Hn.
  unfold cpu_allocate_blocks. set (f := Z.min _ _). assert (Hf : 0 <= f <= num_blocks b - num_allocated_blocks b) by lia.
  rewrite (proj2 (Z.leb_le _ _)) by lia. cbn [py_assert mbind result_bind]. rewrite allocate_fresh_loop. rewrite Z2Nat.id by lia. cbn [mbind result_bind].
  destruct (allocate_reused_loop 0 (Z.to_nat (Z.of_nat (length hs) - f)) ([] ++ (new_status <$> seqZ (num_allocated_blocks b) f))
    (mkCPU (cpu_block_size b) (num_blocks b) (num_allocated_blocks b + f) (allocated_blocks_free_list b)))
    as (pre & post & El & Hpost & ->); [cbn; lia|]. cbn in El |- *. rewrite <- fmap_app.
  destruct (cpu_new_status_ids (seqZ (num_allocated_blocks b) f ++ reverse post)) as [Eids Hids].
  { apply Forall_app. split; apply Forall_forall; intros i Hi.
    - apply elem_of_seqZ in Hi. lia.
    - assert (0 <= i < num_blocks b); [|lia]. apply Hr. rewrite El, elem_of_reverse in *. set_solver. }
  eexists _, _. split; [done|]. rewrite length_fmap, length_app, length_seqZ, length_reverse, Hpost. split; [lia|]. split; [done|]. split; [|done].
  rewrite Eids. unfold cpu_holds. cbn. split; [|lia].
  rewrite (seqZ_app 0 (num_allocated_blocks b) f), <- E, El by lia. rewrite Z.add_0_l, reverse_Permutation. solve_Permutation.
Qed.

#[export] Program Instance cpu_backend_laws : BackendLaws CPUBackend := {|
  bk_holds := cpu_holds;
  bk_capacity := num_blocks;
|}.
Next Obligation. intros b l l' E (H & Hn). unfold cpu_holds. by rewrite <- E. Qed.
Next Obligation. intros b l (E & _). assert (H := NoDup_seqZ 0 (num_allocated_blocks b)). rewrite <- E in H. apply NoDup_app in H. tauto. Qed.
Next Obligation. intros b l i Hb Hi. apply (cpu_held_range b l); [done|]. set_solver. Qed.
Next Obligation.
  intros b l (E & Hn). apply Permutation_length in E. rewrite length_app, length_seqZ in E. cbn. unfold cpu_num_free_blocks. lia.
Qed.
Next Obligation. intros b l hs Hb Hn. by apply cpu_allocate_ok. Qed.
Next Obligation.
  intros b l s (E & Hn). eexists. split; [done|]. split; [|done]. unfold cpu_holds. cbn. split; [|done].
  rewrite <- E. solve_Permutation.
Qed.
Next Obligation. done. Qed.

Lemma new_cpu_holds bs n : 0 <= n <= 2 ^ 63 -> cpu_holds (new_cpu_backend bs n) [].
Proof. intros Hn. unfold cpu_holds. cbn. split; [done|lia]. Qed.

(** * Histories of calls *)

(** A client's ledger: by hash, [-1] while a store is pending and the number of pending
    loads otherwise. *)
Definition ledger := bytes -> Z.

Inductive offload_call :=
| Lookup (hs : list bytes)
| PrepareLoad (hs : list bytes)
| Touch (hs : list bytes)
| CompleteLoad (hs : list bytes)
| PrepareStore (hs : list bytes)
| CompleteStore (hs : list bytes) (success : bool)
| TakeEvents.

Section Histories.
Context {M : Type} `{OffloadLaws M}.
Implicit Types (m : M) (led : ledger) (c : offload_call).

(** A call, with the hashes [prepare_store] asks the client to store. *)
Definition offload_step c m : result (M * list bytes) :=
  match c with
  | Lookup hs => Ok (m, [])
  | PrepareLoad hs => '(_, m) ← om_prepare_load hs m; Ok (m, [])
  | Touch hs => m ← om_touch hs m; Ok (m, [])
  | CompleteLoad hs => m ← om_complete_load hs m; Ok (m, [])
  | PrepareStore hs =>
      '(o, m) ← om_prepare_store hs m; Ok (m, match o with Some out => block_hashes_to_store out | None => [] end)
  | CompleteStore hs success => m ← om_complete_store hs success m; Ok (m, [])
  | TakeEvents => Ok ((om_take_events m).2, [])
  end.

Definition ledger_step c (stored : list bytes) led : ledger := fun h =>
  match c with
  | PrepareLoad hs => if decide (h ∈ hs) then led h + 1 else led h
  | CompleteLoad hs => if decide (h ∈ hs) then led h - 1 else led h
  | PrepareStore _ => if decide (h ∈ stored) then -1 else led h
  | CompleteStore hs _ => if decide (h ∈ hs) then 0 else led h
  | _ => led h
  end.

(** What the interface asks of its client: load only what [lookup] reports, complete only
    what was prepared. *)
Definition admissible c m led : Prop :=
  match c with
  | PrepareLoad hs => NoDup hs /\ om_lookup hs m = Some (Z.of_nat (length hs)) /\ forall h, h ∈ hs -> led h < 2 ^ 31 - 1
  | Touch hs => om_touchable m hs
  | CompleteLoad hs => NoDup hs /\ forall h, h ∈ hs -> 0 < led h
  | PrepareStore hs => NoDup hs
  | CompleteStore hs _ => NoDup hs /\ forall h, h ∈ hs -> led h = -1
  | _ => True
  end.

Inductive reachable (m0 : M) : M -> ledger -> Prop :=
| reach_init : reachable m0 m0 (fun _ => 0)
| reach_step c m led m' stored :
    reachable m0 m led -> admissible c m led -> offload_step c m = Ok (m', stored) ->
    reachable m0 m' (ledger_step c stored led).

(** The manager's counters are the client's ledger. *)
Definition ledger_ok m led : Prop :=
  forall h, ref_cnt <$> om_get m h = Some (led h) \/ (om_get m h = None /\ led h = 0).

(** A step keeps every block in use where it is. *)
Definition pinned m led m' led' : Prop :=
  forall h, led h <> 0 -> led' h <> 0 -> block_id <$> om_get m' h = block_id <$> om_get m h.

Lemma ready_prefix_le get hs : ready_prefix get hs <= Z.of_nat (length hs).
Proof. induction hs as [|h hs IH]; [done|]. cbn -[Z.of_nat]. repeat case_match; lia. Qed.

Lemma ready_prefix_all get hs :
  ready_prefix get hs = Z.of_nat (length hs) <-> forall h, h ∈ hs -> exists s, get h = Some s /\ 0 <= ref_cnt s.
Proof.
  induction hs as [|h hs IH]; [split; [intros _ h Hh; by apply elem_of_nil in Hh|done]|].
  assert (Hp := ready_prefix_le get hs). cbn -[Z.of_nat]. split.
  - intros E h' [->|Hh']%elem_of_cons.
    + destruct (get h) as [s|]; [|lia]. unfold is_ready in E. destruct (0 <=? ref_cnt s) eqn:Es; [|lia]. apply Z.leb_le in Es. eauto.
    + apply IH; [|done]. repeat case_match; lia.
  - intros Hall. destruct (Hall h) as (s & -> & Hs); [left|]. unfold is_ready. rewrite (proj2 (Z.leb_le _ _)) by done.
    rewrite (proj2 IH); [cbn [length]; lia|]. intros h' Hh'. apply Hall. by right.
Qed.

Lemma ledger_nonzero m led h : ledger_ok m led -> led h <> 0 -> exists s, om_get m h = Some s /\ ref_cnt s = led h.
Proof. intros Hl Hne. destruct (Hl h) as [E|[_ E]]; [|done]. apply fmap_Some in E as (s & Es & ->). eauto. Qed.

Lemma ledger_of_status m led h s : ledger_ok m led -> om_get m h = Some s -> led h = ref_cnt s.
Proof. intros Hl E. destruct (Hl h) as [E'|[E' _]]; rewrite E in E'; [by injection E'|done]. Qed.

(** Every block kept after a step is new or was kept at the same address. *)
Definition stable (stored : list bytes) m m' : Prop :=
  (forall h, h ∈ stored -> om_get m h = None) /\
  forall h s', om_get m' h = Some s' -> h ∈ stored \/ exists s, om_get m h = Some s /\ block_id s = block_id s'.

Definition step_ok c m led : Prop :=
  exists m' stored, offload_step c m = Ok (m', stored) /\ om_inv m' /\ om_capacity m' = om_capacity m /\
    ledger_ok m' (ledger_step c stored led) /\ stable stored m m'.

Lemma stable_updated (P : bytes -> Prop) `{!forall h, Decision (P h)} (f : Z -> Z) m m' :
  (forall h, om_get m' h = if decide (P h) then (fun s => mkStatus (f (ref_cnt s)) (block_id s)) <$> om_get m h else om_get m h) ->
  stable [] m m'.
Proof.
  intros Hg. split; [by intros h []%elem_of_nil|]. intros h s' E. right. rewrite Hg in E.
  destruct (decide (P h)); [|by exists s']. apply fmap_Some in E as (s & Es & ->). by exists s.
Qed.

Lemma stable_kept m m' : (forall h s, om_get m' h = Some s -> om_get m h = Some s) -> stable [] m m'.
Proof. intros Hg. split; [by intros h []%elem_of_nil|]. intros h s' E. right. exists s'. split; [by apply Hg|done]. Qed.

Lemma prepare_load_step m led hs : om_inv m -> ledger_ok m led -> admissible (PrepareLoad hs) m led -> step_ok (PrepareLoad hs) m led.
Proof.
  intros Hi Hl (Hnd & Hlk & Hov). rewrite om_lookup_ok in Hlk by done. injection Hlk as Hlk. rewrite ready_prefix_all in Hlk.
  destruct (om_prepare_load_ok m hs Hi Hnd) as (sp & m' & E & Hi' & Hc & _ & Hg).
  { intros h Hh. destruct (Hlk h Hh) as (s & Es & Hs). exists s. split; [done|]. specialize (Hov h Hh). rewrite (ledger_of_status m led h s) in Hov by done. lia. }
  exists m', []. cbn. rewrite E. split; [done|]. split; [done|]. split; [done|]. split; [|by apply (stable_updated (fun h => h ∈ hs) (fun n => n + 1))].
  intros h. cbn. rewrite Hg. destruct (decide (h ∈ hs)) as [Hh|]; [|by apply Hl].
  destruct (Hlk h Hh) as (s & Es & _). left. rewrite Es. cbn. by rewrite (ledger_of_status m led h s).
Qed.

Lemma complete_load_step m led hs : om_inv m -> ledger_ok m led -> admissible (CompleteLoad hs) m led -> step_ok (CompleteLoad hs) m led.
Proof.
  intros Hi Hl (Hnd & Hpos). assert (Hget : forall h, h ∈ hs -> exists s, om_get m h = Some s /\ 0 < ref_cnt s /\ led h = ref_cnt s).
  { intros h Hh. specialize (Hpos h Hh). destruct (ledger_nonzero m led h) as (s & Es & E); [done|lia|]. exists s. split; [done|]. lia. }
  destruct (om_complete_load_ok m hs Hi Hnd) as (m' & E & Hi' & Hc & Hg).
  { intros h Hh. destruct (Hget h Hh) as (s & ? & ? & _). eauto. }
  exists m', []. cbn. rewrite E. split; [done|]. split; [done|]. split; [done|]. split; [|by apply (stable_updated (fun h => h ∈ hs) (fun n => n - 1))].
  intros h. cbn. rewrite Hg. destruct (decide (h ∈ hs)) as [Hh|]; [|by apply Hl].
  destruct (Hget h Hh) as (s & Es & _ & ->). left. by rewrite Es.
Qed.

Lemma prepare_store_step m led hs : om_inv m -> ledger_ok m led -> admissible (PrepareStore hs) m led -> step_ok (PrepareStore hs) m led.
Proof.
  intros Hi Hl Hnd. destruct (om_prepare_store_ok m hs Hi Hnd) as (o & m' & E & Hi' & Hc & Ho).
  exists m', (match o with Some out => block_hashes_to_store out | None => [] end). cbn. rewrite E. split; [done|]. split; [done|]. split; [done|].
  destruct o as [out|].
  - destruct Ho as (Est & Hev & Hnew & Hg). rewrite Forall_forall in Hev. split; [|split].
    + intros h. cbn. destruct (decide (h ∈ block_hashes_to_store out)) as [Hh|Hh].
      { left. apply list_elem_of_lookup in Hh as [i Hi1]. destruct (Forall2_lookup_l _ _ _ _ _ Hnew Hi1) as (j & _ & ->). done. }
      rewrite Hg by done. destruct (decide (h ∈ block_hashes_evicted out)) as [He|]; [|by apply Hl].
      right. split; [done|]. specialize (Hev h He). destruct (om_get m h) as [s|] eqn:Es; [|done].
      rewrite (ledger_of_status m led h s) by done. by injection Hev.
    + intros h. rewrite Est, list_elem_of_filter. by intros [? _].
    + intros h s' Es. destruct (decide (h ∈ block_hashes_to_store out)) as [Hh|Hh]; [by left|]. right. rewrite Hg in Es by done.
      destruct (decide _); [done|]. by exists s'.
  - split.
    + intros h. cbn. rewrite decide_False by apply not_elem_of_nil. destruct (Ho h) as [-> |[-> Hz]]; [by apply Hl|].
      right. split; [done|]. destruct (Hl h) as [E'|[_ ?]]; [congruence|done].
    + apply stable_kept. intros h s Es. destruct (Ho h) as [<-|[E' _]]; [done|congruence].
Qed.

Lemma complete_store_step m led hs ok : om_inv m -> ledger_ok m led -> admissible (CompleteStore hs ok) m led -> step_ok (CompleteStore hs ok) m led.
Proof.
  intros Hi Hl (Hnd & Hst). assert (Hget : forall h, h ∈ hs -> ref_cnt <$> om_get m h = Some (-1)).
  { intros h Hh. specialize (Hst h Hh). destruct (Hl h) as [-> |[_ ?]]; [by rewrite Hst|lia]. }
  destruct ok.
  - destruct (om_complete_store_ok m hs Hi Hget Hnd) as (m' & E & Hi' & Hc & Hg).
    exists m', []. cbn. rewrite E. split; [done|]. split; [done|]. split; [done|]. split; [|by apply (stable_updated (fun h => h ∈ hs) (fun _ => 0))].
    intros h. cbn. rewrite Hg. destruct (decide (h ∈ hs)) as [Hh|]; [|by apply Hl]. left. specialize (Hget h Hh). by destruct (om_get m h).
  - destruct (om_fail_store_ok m hs Hi Hget Hnd) as (m' & E & Hi' & Hc & Hg).
    exists m', []. cbn. rewrite E. split; [done|]. split; [done|]. split; [done|]. split.
    + intros h. cbn. rewrite Hg. destruct (decide (h ∈ hs)) as [Hh|]; [by right|by apply Hl].
    + apply stable_kept. intros h s. rewrite Hg. by destruct (decide _).
Qed.

Lemma offload_step_ok c m led : om_inv m -> ledger_ok m led -> admissible c m led -> step_ok c m led.
Proof.
  intros Hi Hl Ha. destruct c as [hs|hs|hs|hs|hs|hs ok|].
  - exists m, []. cbn. repeat (split; [done|]). by apply stable_kept.
  - by apply prepare_load_step.
  - destruct (om_touch_ok m hs Hi Ha) as (m' & E & Hi' & Hc & Hg). exists m', []. cbn. rewrite E. repeat (split; [done|]).
    split; [intros h; cbn; rewrite Hg; apply Hl|]. apply stable_kept. intros h s. by rewrite Hg.
  - by apply complete_load_step.
  - by apply prepare_store_step.
  - by apply complete_store_step.
  - destruct (om_take_events_ok m Hi) as (Hi' & Hc & Hg). eexists _, []. cbn. repeat (split; [done|]).
    split; [intros h; cbn; rewrite Hg; apply Hl|]. apply stable_kept. intros h s. by rewrite Hg.
Qed.

(** A block in use stays where it is. *)
Lemma stable_pinned c m led m' stored :
  ledger_ok m led -> ledger_ok m' (ledger_step c stored led) -> stable stored m m' -> pinned m led m' (ledger_step c stored led).
Proof.
  intros Hl Hl' [Hnew Hs] h Hne Hne'. destruct (ledger_nonzero m led h Hl Hne) as (s & Es & _).
  destruct (ledger_nonzero m' _ h Hl' Hne') as (s' & Es' & _). destruct (Hs h s' Es') as [Hh|(s1 & Es1 & E)]; [apply Hnew in Hh; congruence|].
  rewrite Es, Es'. rewrite Es1 in Es. injection Es as ->. cbn. by rewrite E.
Qed.

(** Every reachable manager is consistent with its client's ledger. *)
Lemma reachable_ok m0 m led :
  om_inv m0 -> (forall h, om_get m0 h = None) -> reachable m0 m led ->
  om_inv m /\ om_capacity m = om_capacity m0 /\ ledger_ok m led.
Proof.
  intros Hi0 Hnone. induction 1 as [|c m led m' stored _ (Hi & Hc & Hl) Ha E].
  - split; [done|]. split; [done|]. intros h. right. by rewrite Hnone.
  - destruct (offload_step_ok c m led Hi Hl Ha) as (m1 & st1 & E1 & Hi1 & Hc1 & Hl1 & _). rewrite E1 in E. injection E as <- <-.
    split; [done|]. split; [congruence|done].
Qed.
End Histories.

(** * Dictionaries of blocks in a backend *)

Section Blocks.
Context {B : Type} `{BackendLaws B}.
Implicit Types (b : B) (d : list (bytes * BlockStatus)).

(** A dictionary holds exactly the blocks the backend gave out. *)
Definition blocks_ok b d : Prop :=
  NoDup (keys d) /\ bk_holds b (block_id <$> d.*2) /\ Forall (fun s => -1 <= ref_cnt s < 2 ^ 31) d.*2.

Lemma blocks_ok_perm b d d' : d ≡ₚ d' -> blocks_ok b d -> blocks_ok b d'.
Proof.
  intros E (Hk & Hh & Hr). unfold blocks_ok, keys in *. rewrite <- E. done.
Qed.

Lemma blocks_ok_status b d h s : blocks_ok b d -> dict_get h d = Some s -> -1 <= ref_cnt s < 2 ^ 31 /\ 0 <= block_id s < bk_capacity b.
Proof.
  intros (_ & Hh & Hr) Hg. apply dict_get_Some in Hg. apply (list_elem_of_fmap_2 snd) in Hg. split.
  - rewrite Forall_forall in Hr. by apply Hr.
  - eapply bk_holds_range; [done|]. by apply (list_elem_of_fmap_2 block_id).
Qed.

Lemma blocks_ok_distinct b d h h' s s' :
  blocks_ok b d -> dict_get h d = Some s -> dict_get h' d = Some s' -> block_id s = block_id s' -> h = h'.
Proof.
  intros (Hk & Hh & _) E1%dict_get_Some E2%dict_get_Some Eid. apply bk_holds_nodup in Hh.
  apply list_elem_of_lookup in E1 as [i Hi]. apply list_elem_of_lookup in E2 as [j Hj].
  assert (i = j) as ->; [|congruence].
  eapply NoDup_lookup; [exact Hh| |]; rewrite !list_lookup_fmap; [by rewrite Hi|rewrite Hj]. cbn. by rewrite Eid.
Qed.

Lemma blocks_ok_set b d h s n :
  blocks_ok b d -> dict_get h d = Some s -> -1 <= n < 2 ^ 31 -> blocks_ok b (dict_set h (mkStatus n (block_id s)) d).
Proof.
  intros (Hk & Hh & Hr) Hg Hn. split; [by rewrite (keys_set_old _ _ s)|]. split; [by rewrite (fmap_set_same block_id _ _ s)|].
  clear Hh Hk. induction d as [|[k w] d IH]; [done|]. cbn in Hg, Hr |- *. apply Forall_cons in Hr as [Hw Hr].
  destruct (decide (k = h)) as [->|]; cbn; constructor; auto.
Qed.

Lemma blocks_ok_del b d h s :
  blocks_ok b d -> dict_get h d = Some s ->
  exists b', bk_free s b = Ok b' /\ blocks_ok b' (dict_del h d) /\ bk_capacity b' = bk_capacity b.
Proof.
  intros (Hk & Hh & Hr) Hg. assert (E := dict_del_perm h s d Hk Hg). rewrite E in Hh, Hr.
  rewrite fmap_cons in Hr. apply Forall_cons in Hr as [_ Hr]. rewrite !fmap_cons in Hh.
  destruct (bk_free_ok b _ s Hh) as (b' & Eb & Hb & Hc). exists b'. split; [done|]. split; [|done].
  split; [by apply NoDup_keys_del|done].
Qed.

Lemma blocks_ok_count b d : blocks_ok b d -> bk_num_free b = bk_capacity b - Z.of_nat (length d) /\ 0 <= bk_num_free b.
Proof. intros (_ & Hh & _). apply bk_holds_count in Hh. by rewrite !length_fmap in Hh. Qed.

Lemma fold_set_new hs (sts : list BlockStatus) d :
  NoDup hs -> (forall h, h ∈ hs -> dict_get h d = None) -> length sts = length hs ->
  fold_left (fun d x => dict_set x.1 x.2 d) (zip hs sts) d = d ++ zip hs sts.
Proof.
  revert sts d. induction hs as [|h hs IH]; intros sts d Hnd Hnew Hlen; [by rewrite app_nil_r|].
  destruct sts as [|s sts]; [done|]. apply NoDup_cons in Hnd as [Hh Hnd]. cbn. rewrite IH; [|done| |cbn in Hlen; lia].
  - rewrite dict_set_new; [by rewrite <- app_assoc|]. apply dict_get_None, Hnew. left.
  - intros h' Hh'. rewrite dict_get_set, decide_False by (intros ->; done). apply Hnew. by right.
Qed.

Lemma blocks_ok_new b d hs :
  blocks_ok b d -> NoDup hs -> (forall h, h ∈ hs -> dict_get h d = None) -> Z.of_nat (length hs) <= bk_num_free b ->
  exists sts b', bk_allocate hs b = Ok (sts, b') /\ length sts = length hs /\ Forall (fun s => ref_cnt s = -1) sts /\
    blocks_ok b' (d ++ zip hs sts) /\ bk_capacity b' = bk_capacity b.
Proof.
  intros (Hk & Hh & Hr) Hnd Hnew Hn. destruct (bk_allocate_ok b _ hs Hh Hn) as (sts & b' & E & Hlen & Hst & Hb & Hc).
  exists sts, b'. split; [done|]. split; [done|]. split; [done|]. split; [|done].
  unfold blocks_ok, keys. rewrite !fmap_app, fst_zip, snd_zip by lia. split; [|split].
  - apply NoDup_app. split; [done|]. split; [|done]. intros h Hin Hh'. apply (dict_get_None h d); [|done]. by apply Hnew.
  - done.
  - apply Forall_app. split; [done|]. eapply Forall_impl; [exact Hst|]. cbn. intros s ->. lia.
Qed.

Lemma dict_get_zip_new hs (sts : list BlockStatus) d h i :
  NoDup hs -> (forall h, h ∈ hs -> dict_get h d = None) -> length sts = length hs ->
  hs !! i = Some h -> dict_get h (d ++ zip hs sts) = sts !! i.
Proof.
  intros Hnd Hnew Hlen Hi. rewrite dict_get_app, Hnew by (by eapply list_elem_of_lookup_2).
  destruct (lookup_lt_is_Some_2 sts i) as [s Hs]; [rewrite Hlen; by eapply lookup_lt_Some|].
  rewrite Hs. apply dict_get_elem; [unfold keys; by rewrite fst_zip by lia|].
  apply list_elem_of_lookup. exists i. by rewrite lookup_zip_Some.
Qed.

(** A loop that updates the counters of distinct blocks, in a state with other parts. *)
Lemma counter_loop {S} (step : S -> bytes -> result S) (dict_of : S -> list (bytes * BlockStatus)) (Q : list bytes -> S -> Prop)
    (f : Z -> Z) b hs st0 :
  let d := dict_of st0 in
  let upd s := mkStatus (f (ref_cnt s)) (block_id s) in
  blocks_ok b d -> NoDup hs -> Q [] st0 ->
  (forall h, h ∈ hs -> exists s, dict_get h d = Some s /\ -1 <= f (ref_cnt s) < 2 ^ 31) ->
  (forall pre st h s, h ∈ hs -> blocks_ok b (dict_of st) -> dict_get h d = Some s -> dict_get h (dict_of st) = Some s -> Q pre st ->
     exists st', step st h = Ok st' /\ dict_of st' = dict_set h (upd s) (dict_of st) /\ Q (pre ++ [h]) st') ->
  exists st', foldM step hs st0 = Ok st' /\ Q hs st' /\ blocks_ok b (dict_of st') /\
    forall h, dict_get h (dict_of st') = if decide (h ∈ hs) then upd <$> dict_get h d else dict_get h d.
Proof.
  intros d upd Hd Hnd HQ Hs Hstep.
  pose (P := fun pre st => Q pre st /\ blocks_ok b (dict_of st) /\
    forall h, dict_get h (dict_of st) = if decide (h ∈ pre) then upd <$> dict_get h d else dict_get h d).
  apply (foldM_inv step P).
  { split; [done|]. split; [done|]. intros h. by rewrite decide_False by apply not_elem_of_nil. }
  intros pre h post st -> (HQ' & Hd' & Hg). destruct (Hs h) as (s & Es & Hf); [set_solver|].
  apply NoDup_app in Hnd as (_ & Hdis & _). assert (Hh : h ∉ pre) by (intros Hh; apply (Hdis h); [done|left]).
  assert (Es' : dict_get h (dict_of st) = Some s) by (by rewrite Hg, decide_False).
  destruct (Hstep pre st h s) as (st' & E & Ed & HQ2); [set_solver|done..|].
  exists st'. split; [done|]. split; [done|]. rewrite Ed. split; [by apply blocks_ok_set|].
  intros k. rewrite dict_get_set, Hg. destruct (decide (k = h)) as [->|Hk].
  - rewrite decide_True by set_solver. by rewrite Es.
  - destruct (decide (k ∈ pre)), (decide (k ∈ pre ++ [h])); set_solver.
Qed.

(** A loop that gives distinct blocks back. *)
Lemma give_back_loop {S} (step : S -> bytes -> result S) (dict_of : S -> list (bytes * BlockStatus)) (backend_of : S -> B)
    (Q : list bytes -> S -> Prop) hs st0 :
  let d := dict_of st0 in
  blocks_ok (backend_of st0) d -> NoDup hs -> Q [] st0 -> (forall h, h ∈ hs -> is_Some (dict_get h d)) ->
  (forall pre st h s b', h ∈ hs -> dict_get h d = Some s -> dict_get h (dict_of st) = Some s -> NoDup (keys (dict_of st)) ->
     bk_free s (backend_of st) = Ok b' -> Q pre st ->
     exists st', step st h = Ok st' /\ dict_of st' = dict_del h (dict_of st) /\ backend_of st' = b' /\ Q (pre ++ [h]) st') ->
  exists st', foldM step hs st0 = Ok st' /\ Q hs st' /\ blocks_ok (backend_of st') (dict_of st') /\
    bk_capacity (backend_of st') = bk_capacity (backend_of st0) /\
    dict_of st' = filter (fun x => x.1 ∉ hs) d /\
    (forall h, dict_get h (dict_of st') = if decide (h ∈ hs) then None else dict_get h d).
Proof.
  intros d Hd Hnd HQ Hs Hstep.
  pose (P := fun pre st => Q pre st /\ blocks_ok (backend_of st) (dict_of st) /\ bk_capacity (backend_of st) = bk_capacity (backend_of st0) /\
    dict_of st = filter (fun x => x.1 ∉ pre) d /\
    forall h, dict_get h (dict_of st) = if decide (h ∈ pre) then None else dict_get h d).
  destruct (foldM_inv step P hs st0) as (st' & E & HQ' & Hb & Hc & Ef & Hg).
  { split; [done|]. split; [done|]. split; [done|]. split; [|intros h; by rewrite decide_False by apply not_elem_of_nil].
    rewrite filter_all; [done|]. intros x _. apply not_elem_of_nil. }
  2: { exists st'. split; [done|]. split; [done|]. split; [done|]. done. }
  intros pre h post st -> (HQ' & Hd' & Hc & Ef & Hg). destruct (Hs h) as [s Es]; [set_solver|].
  apply NoDup_app in Hnd as (_ & Hdis & _). assert (Hh : h ∉ pre) by (intros Hh; apply (Hdis h); [done|left]).
  assert (Es' : dict_get h (dict_of st) = Some s) by (by rewrite Hg, decide_False).
  destruct (blocks_ok_del _ _ h s Hd' Es') as (b' & Eb & Hb' & Hc').
  destruct (Hstep pre st h s b') as (st' & E & Ed & Eb' & HQ2); [set_solver|done|done|by destruct Hd'|done|done|].
  exists st'. split; [done|]. split; [done|]. rewrite Ed, Eb'. split; [done|]. split; [congruence|]. split.
  - unfold dict_del. rewrite Ef, list_filter_filter. apply list_filter_iff. intros x. set_solver.
  - intros k. rewrite dict_get_del, Hg. destruct (decide (k = h)), (decide (k ∈ pre)), (decide (k ∈ pre ++ [h])); set_solver.
Qed.
End Blocks.
