(* ===== verification/LRUOffload.v ===== *)
(** The offloading manager with least-recently-used eviction
    ([src/vllm/v1/kv_offload/lru_manager.py]) over any backend, and the laws of
    [OffloadingManager] for it. *)
From S2P Require Import Prelude Dict Request Offload.
Local Open Scope Z_scope.

Section LRU.
Context {B : Type} `{Backend B}.

(** [LRUOffloadingManager].  [lru_blocks] is an [OrderedDict], least recently used first. *)
Record LRU := mkLRU {
  lru_backend : B;
  lru_blocks : list (bytes * BlockStatus);
  lru_events : option (list OffloadingEvent);
}.

Definition new_lru (backend : B) (enable_events : bool) : LRU := mkLRU backend [] (if enable_events then Some [] else None).

Fixpoint lru_lookup_loop (block_hashes : list bytes) (blocks : list (bytes * BlockStatus)) (hit_count : Z) : Z :=
  match block_hashes with
  | [] => hit_count
  | h :: hs =>
      match dict_get h blocks with
      | None => hit_count
      | Some block => if negb (is_ready block) then hit_count else lru_lookup_loop hs blocks (hit_count + 1)
      end
  end.
Definition lru_lookup (block_hashes : list bytes) (m : LRU) : option Z := Some (lru_lookup_loop block_hashes (lru_blocks m) 0).

Definition lru_load_one (s : list BlockStatus * list (bytes * BlockStatus)) (h : bytes) :
    result (list BlockStatus * list (bytes * BlockStatus)) :=
  let '(blocks, d) := s in
  block ← of_option KeyError (dict_get h d);
  _ ← py_assert (is_ready block);
  let block := set_ref_cnt (ref_cnt block + 1) block in
  Ok (blocks ++ [block], dict_set h block d).
Definition lru_prepare_load (block_hashes : list bytes) (m : LRU) : result (LoadStoreSpec * LRU) :=
  '(blocks, d) ← foldM lru_load_one block_hashes ([], lru_blocks m);
  Ok (bk_spec block_hashes blocks (lru_backend m), mkLRU (lru_backend m) d (lru_events m)).

Definition lru_touch_one (d : list (bytes * BlockStatus)) (h : bytes) : result (list (bytes * BlockStatus)) :=
  match dict_get h d with Some _ => dict_move_to_end h d | None => Ok d end.
Definition lru_touch (block_hashes : list bytes) (m : LRU) : result LRU :=
  d ← foldM lru_touch_one (reverse block_hashes) (lru_blocks m);
  Ok (mkLRU (lru_backend m) d (lru_events m)).

Definition lru_unload_one (d : list (bytes * BlockStatus)) (h : bytes) : result (list (bytes * BlockStatus)) :=
  block ← of_option KeyError (dict_get h d);
  _ ← py_assert (0 <? ref_cnt block);
  Ok (dict_set h (set_ref_cnt (ref_cnt block - 1) block) d).
Definition lru_complete_load (block_hashes : list bytes) (m : LRU) : result LRU :=
  d ← foldM lru_unload_one block_hashes (lru_blocks m);
  Ok (mkLRU (lru_backend m) d (lru_events m)).

(** The scan for blocks to evict; [None] is the [else] of the loop. *)
Fixpoint lru_scan (items : list (bytes * BlockStatus)) (num_blocks_to_evict : Z) : option (list bytes) :=
  match items with
  | [] => None
  | (h, block) :: items =>
      if ref_cnt block =? 0 then
        if num_blocks_to_evict - 1 =? 0 then Some [h] else (h ::.) <$> lru_scan items (num_blocks_to_evict - 1)
      else lru_scan items num_blocks_to_evict
  end.

Definition lru_evict_one (s : B * list (bytes * BlockStatus)) (h : bytes) : result (B * list (bytes * BlockStatus)) :=
  let '(b, d) := s in
  '(block, d) ← dict_pop h d;
  b ← bk_free block b;
  Ok (b, d).

(** [if hashes and self.events is not None: self.events.append(...)]. *)
Definition add_event (hashes : list bytes) (removed : bool) (b : B) (events : option (list OffloadingEvent)) :
    option (list OffloadingEvent) :=
  match hashes, events with
  | _ :: _, Some evs => Some (evs ++ [mkEvent hashes (bk_block_size b) (bk_medium b) removed])
  | _, _ => events
  end.

Definition store_one (d : list (bytes * BlockStatus)) (x : bytes * BlockStatus) : list (bytes * BlockStatus) := dict_set x.1 x.2 d.

Definition lru_prepare_store (block_hashes : list bytes) (m : LRU) : result (option PrepareStoreOutput * LRU) :=
  let to_store := filter (fun h => dict_get h (lru_blocks m) = None) block_hashes in
  let num_blocks_to_evict := Z.of_nat (length to_store) - bk_num_free (lru_backend m) in
  match (if 0 <? num_blocks_to_evict then lru_scan (lru_blocks m) num_blocks_to_evict else Some []) with
  | None => Ok (None, m)
  | Some to_evict =>
      '(b, d) ← foldM lru_evict_one to_evict (lru_backend m, lru_blocks m);
      let events := add_event to_evict true b (lru_events m) in
      '(blocks, b) ← bk_allocate to_store b;
      _ ← py_assert (length blocks =? length to_store)%nat;
      let d := fold_left store_one (zip to_store blocks) d in
      Ok (Some (mkStoreOutput to_store (bk_spec to_store blocks b) to_evict), mkLRU b d events)
  end.

Definition lru_store_ok_one (s : list bytes * list (bytes * BlockStatus)) (h : bytes) :
    result (list bytes * list (bytes * BlockStatus)) :=
  let '(stored, d) := s in
  block ← of_option KeyError (dict_get h d);
  if is_ready block then Ok (stored, d) else Ok (stored ++ [h], dict_set h (set_ref_cnt 0 block) d).
Definition lru_store_failed_one (s : B * list (bytes * BlockStatus)) (h : bytes) : result (B * list (bytes * BlockStatus)) :=
  let '(b, d) := s in
  block ← of_option KeyError (dict_get h d);
  if is_ready block then Ok (b, d) else b ← bk_free block b; Ok (b, dict_del h d).
Definition lru_complete_store (block_hashes : list bytes) (success : bool) (m : LRU) : result LRU :=
  if success then
    '(stored, d) ← foldM lru_store_ok_one block_hashes ([], lru_blocks m);
    Ok (mkLRU (lru_backend m) d (add_event stored false (lru_backend m) (lru_events m)))
  else
    '(b, d) ← foldM lru_store_failed_one block_hashes (lru_backend m, lru_blocks m);
    Ok (mkLRU b d (lru_events m)).

Definition lru_take_events (m : LRU) : list OffloadingEvent * LRU :=
  match lru_events m with
  | Some evs => (evs, mkLRU (lru_backend m) (lru_blocks m) (Some []))
  | None => ([], m)
  end.

#[export] Instance lru_manager : OffloadingManager LRU := {|
  om_lookup := lru_lookup;
  om_prepare_load := lru_prepare_load;
  om_touch := lru_touch;
  om_complete_load := lru_complete_load;
  om_prepare_store := lru_prepare_store;
  om_complete_store := lru_complete_store;
  om_take_events := lru_take_events;
|}.
End LRU.
Arguments LRU : clear implicits.

(** * The laws *)

Section LRUFacts.
Context {B : Type} `{BackendLaws B}.
Implicit Types (m : LRU B) (b : B) (d : list (bytes * BlockStatus)).

Definition lru_inv m : Prop := blocks_ok (lru_backend m) (lru_blocks m).

Lemma lru_lookup_loop_ok hs d n : lru_lookup_loop hs d n = n + ready_prefix (fun h => dict_get h d) hs.
Proof.
  revert n. induction hs as [|h hs IH]; intros n; cbn; [lia|]. destruct (dict_get h d) as [s|]; [|lia].
  destruct (is_ready s); cbn; [rewrite IH|]; lia.
Qed.


Lemma lru_prepare_load_ok m hs :
  lru_inv m -> NoDup hs -> (forall h, h ∈ hs -> exists s, dict_get h (lru_blocks m) = Some s /\ 0 <= ref_cnt s < 2 ^ 31 - 1) ->
  exists sp m', lru_prepare_load hs m = Ok (sp, m') /\ lru_inv m' /\ lru_backend m' = lru_backend m /\
    Forall2 (fun h i => block_id <$> dict_get h (lru_blocks m) = Some i) hs (sp_block_ids sp) /\
    forall h, dict_get h (lru_blocks m') =
      if decide (h ∈ hs) then (fun s => mkStatus (ref_cnt s + 1) (block_id s)) <$> dict_get h (lru_blocks m) else dict_get h (lru_blocks m).
Proof.
  intros Hi Hnd Hs.
  destruct (counter_loop lru_load_one snd
    (fun pre st => Forall2 (fun h i => block_id <$> dict_get h (lru_blocks m) = Some i) pre (block_id <$> st.1))
    (fun n => n + 1) (lru_backend m) hs ([], lru_blocks m)) as ([bl d] & E & HQ & Hb & Hg).
  - done.
  - done.
  - constructor.
  - intros h Hh. destruct (Hs h Hh) as (s & Es & ?). exists s. split; [done|]. lia.
  - intros pre [bl d] h s Hh Hd Es Es' HQ. cbn in Es, Es', HQ. destruct (Hs h Hh) as (s' & Es2 & Hr). rewrite Es in Es2. injection Es2 as <-.
    unfold lru_load_one. rewrite Es'. cbn. unfold is_ready. rewrite (proj2 (Z.leb_le _ _)) by lia. cbn.
    rewrite set_ref_cnt_id by lia. eexists. split; [done|]. split; [done|]. cbn. rewrite fmap_app. apply Forall2_app; [done|].
    constructor; [|constructor]. by rewrite Es.
  - unfold lru_prepare_load. rewrite E. cbn [mbind result_bind]. eexists _, _. split; [done|]. split; [done|]. split; [done|].
    split; [by rewrite bk_spec_ids|done].
Qed.

Lemma lru_touch_ok m hs :
  lru_inv m -> exists m', lru_touch hs m = Ok m' /\ lru_inv m' /\ lru_backend m' = lru_backend m /\
    forall h, dict_get h (lru_blocks m') = dict_get h (lru_blocks m).
Proof.
  intros Hi.
  destruct (foldM_inv lru_touch_one (fun _ d => d ≡ₚ lru_blocks m) (reverse hs) (lru_blocks m)) as (d & E & Hp); [done| |].
  - intros pre h post d _ Hp. unfold lru_touch_one. destruct (dict_get h d) as [s|] eqn:Es; [|by exists d].
    destruct (move_to_end_perm h s d) as (d' & -> & Hd'); [|done|].
    + assert (Hd := blocks_ok_perm _ _ d (symmetry Hp) Hi). by destruct Hd.
    + exists d'. split; [done|]. by rewrite Hd'.
  - unfold lru_touch. rewrite E. eexists. split; [done|]. assert (Hd := blocks_ok_perm _ _ d (symmetry Hp) Hi).
    split; [done|]. split; [done|]. intros h. apply dict_get_perm; [done|by destruct Hd].
Qed.

Lemma lru_complete_load_ok m hs :
  lru_inv m -> NoDup hs -> (forall h, h ∈ hs -> exists s, dict_get h (lru_blocks m) = Some s /\ 0 < ref_cnt s) ->
  exists m', lru_complete_load hs m = Ok m' /\ lru_inv m' /\ lru_backend m' = lru_backend m /\
    forall h, dict_get h (lru_blocks m') =
      if decide (h ∈ hs) then (fun s => mkStatus (ref_cnt s - 1) (block_id s)) <$> dict_get h (lru_blocks m) else dict_get h (lru_blocks m).
Proof.
  intros Hi Hnd Hs.
  destruct (counter_loop lru_unload_one (fun d => d) (fun _ _ => True) (fun n => n - 1) (lru_backend m) hs (lru_blocks m))
    as (d & E & _ & Hb & Hg).
  - done.
  - done.
  - done.
  - intros h Hh. destruct (Hs h Hh) as (s & Es & ?). exists s. split; [done|]. destruct (blocks_ok_status _ _ _ _ Hi Es). lia.
  - intros pre d h s Hh Hd Es Es' _. destruct (Hs h Hh) as (s' & Es2 & Hr). rewrite Es in Es2. injection Es2 as <-.
    unfold lru_unload_one. rewrite Es'. cbn. rewrite (proj2 (Z.ltb_lt _ _)) by lia. cbn.
    destruct (blocks_ok_status _ _ _ _ Hi Es). rewrite set_ref_cnt_id by lia. by eexists.
  - unfold lru_complete_load. rewrite E. eexists. split; [done|]. split; [done|]. done.
Qed.

Lemma lru_complete_store_ok m hs :
  lru_inv m -> (forall h, h ∈ hs -> ref_cnt <$> dict_get h (lru_blocks m) = Some (-1)) -> NoDup hs ->
  exists m', lru_complete_store hs true m = Ok m' /\ lru_inv m' /\ lru_backend m' = lru_backend m /\
    forall h, dict_get h (lru_blocks m') =
      if decide (h ∈ hs) then (fun s => mkStatus 0 (block_id s)) <$> dict_get h (lru_blocks m) else dict_get h (lru_blocks m).
Proof.
  intros Hi Hs Hnd.
  destruct (counter_loop lru_store_ok_one snd (fun _ _ => True) (fun _ => 0) (lru_backend m) hs ([], lru_blocks m))
    as ([stored d] & E & _ & Hb & Hg).
  - done.
  - done.
  - done.
  - intros h Hh. apply Hs, fmap_Some in Hh as (s & Es & _). exists s. split; [done|]. lia.
  - intros pre [bl d] h s Hh Hd Es Es' _. cbn in Es, Es'. apply Hs in Hh. rewrite Es in Hh. injection Hh as Hr.
    unfold lru_store_ok_one. rewrite Es'. cbn. unfold is_ready. rewrite (proj2 (Z.leb_gt _ _)) by lia.
    rewrite set_ref_cnt_id by lia. by eexists.
  - unfold lru_complete_store. rewrite E. eexists. split; [done|]. split; [done|]. done.
Qed.

Lemma lru_fail_store_ok m hs :
  lru_inv m -> (forall h, h ∈ hs -> ref_cnt <$> dict_get h (lru_blocks m) = Some (-1)) -> NoDup hs ->
  exists m', lru_complete_store hs false m = Ok m' /\ lru_inv m' /\ bk_capacity (lru_backend m') = bk_capacity (lru_backend m) /\
    forall h, dict_get h (lru_blocks m') = if decide (h ∈ hs) then None else dict_get h (lru_blocks m).
Proof.
  intros Hi Hs Hnd.
  destruct (give_back_loop lru_store_failed_one snd fst (fun _ _ => True) hs (lru_backend m, lru_blocks m)) as ([b d] & E & _ & Hb & Hc & _ & Hg).
  - done.
  - done.
  - done.
  - intros h Hh. apply Hs, fmap_Some in Hh as (s & Es & _). by exists s.
  - intros pre [b d] h s b' Hh Es Es' _ Eb _. cbn in Es, Es', Eb. apply Hs in Hh. rewrite Es in Hh. injection Hh as Hr.
    unfold lru_store_failed_one. rewrite Es'. cbn. unfold is_ready. rewrite (proj2 (Z.leb_gt _ _)) by lia. rewrite Eb. by eexists.
  - unfold lru_complete_store. rewrite E. eexists. split; [done|]. split; [done|]. done.
Qed.

(** The scan finds the oldest idle blocks. *)
Definition idle_hashes (d : list (bytes * BlockStatus)) : list bytes := (filter (fun x => ref_cnt x.2 = 0) d).*1.

Lemma lru_scan_ok d n :
  0 < n -> lru_scan d n = if n <=? Z.of_nat (length (idle_hashes d)) then Some (take (Z.to_nat n) (idle_hashes d)) else None.
Proof.
  revert n. unfold idle_hashes. induction d as [|[h s] d IH]; intros n Hn.
  { cbn. by rewrite (proj2 (Z.leb_gt _ _)) by lia. }
  cbn [lru_scan]. rewrite filter_cons. cbn [snd]. destruct (decide (ref_cnt s = 0)) as [E|E].
  - rewrite E. cbn [Z.eqb fmap list_fmap length fst]. destruct (n - 1 =? 0) eqn:E1.
    + apply Z.eqb_eq in E1. assert (n = 1) as -> by lia. rewrite (proj2 (Z.leb_le _ _)) by lia. by destruct (filter _ d).
    + apply Z.eqb_neq in E1. rewrite IH by lia. change (list_fmap _ _ fst) with (@fmap list _ _ _ (@fst bytes BlockStatus)).
      destruct (n - 1 <=? _) eqn:E2; [apply Z.leb_le in E2; rewrite (proj2 (Z.leb_le _ _)) by lia|apply Z.leb_gt in E2; by rewrite (proj2 (Z.leb_gt _ _)) by lia].
      replace (Z.to_nat n) with (S (Z.to_nat (n - 1))) by lia. done.
  - rewrite (proj2 (Z.eqb_neq _ _)) by done. by apply IH.
Qed.

Lemma idle_hashes_spec d h : NoDup (keys d) -> h ∈ idle_hashes d <-> ref_cnt <$> dict_get h d = Some 0.
Proof.
  intros Hk. unfold idle_hashes. rewrite list_elem_of_fmap. split.
  - intros ([k s] & -> & [Hs Hin]%list_elem_of_filter). cbn in *. rewrite (dict_get_elem k s) by done. cbn. by rewrite Hs.
  - intros (s & Es & Hs)%fmap_Some. exists (h, s). split; [done|]. apply list_elem_of_filter. split; [done|]. by apply dict_get_Some.
Qed.

Lemma idle_hashes_nodup d : NoDup (keys d) -> NoDup (idle_hashes d).
Proof. intros Hk. eapply sublist_NoDup; [exact Hk|]. apply fmap_sublist, sublist_filter. Qed.

Lemma evict_loop b d hs :
  blocks_ok b d -> NoDup hs -> (forall h, h ∈ hs -> is_Some (dict_get h d)) ->
  exists b', foldM lru_evict_one hs (b, d) = Ok (b', filter (fun x => x.1 ∉ hs) d) /\ blocks_ok b' (filter (fun x => x.1 ∉ hs) d) /\
    bk_capacity b' = bk_capacity b /\ (forall h, dict_get h (filter (fun x => x.1 ∉ hs) d) = if decide (h ∈ hs) then None else dict_get h d).
Proof.
  intros Hd Hnd Hs.
  destruct (give_back_loop lru_evict_one snd fst (fun _ _ => True) hs (b, d)) as ([b' d'] & E & _ & Hb & Hc & Ef & Hg).
  - done.
  - done.
  - done.
  - done.
  - intros pre [b1 d1] h s b' Hh Es Es' _ Eb _. cbn in Es', Eb. unfold lru_evict_one, dict_pop. rewrite Es'. cbn. rewrite Eb. by eexists.
  - cbn in *. subst d'. by exists b'.
Qed.

(** [prepare_store] evicts the least recently used idle blocks, as many as are missing, and
    appends the new ones; without enough idle blocks it changes nothing. *)
Lemma lru_prepare_store_spec m hs :
  lru_inv m -> NoDup hs ->
  let to_store := filter (fun h => dict_get h (lru_blocks m) = None) hs in
  let missing := Z.of_nat (length to_store) - bk_num_free (lru_backend m) in
  let idle := idle_hashes (lru_blocks m) in
  if missing <=? Z.of_nat (length idle) then
    let evicted := take (Z.to_nat missing) idle in
    exists sts b1 b', length sts = length to_store /\ Forall (fun s => ref_cnt s = -1) sts /\
      let d := filter (fun x => x.1 ∉ evicted) (lru_blocks m) in
      lru_prepare_store hs m =
        Ok (Some (mkStoreOutput to_store (bk_spec to_store sts b') evicted),
            mkLRU b' (d ++ zip to_store sts) (add_event evicted true b1 (lru_events m))) /\
      blocks_ok b' (d ++ zip to_store sts) /\ bk_capacity b' = bk_capacity (lru_backend m) /\
      (forall h, dict_get h d = if decide (h ∈ evicted) then None else dict_get h (lru_blocks m))
  else lru_prepare_store hs m = Ok (None, m).
Proof.
  intros Hi Hnd to_store missing idle.
  assert (Hscan : (if 0 <? missing then lru_scan (lru_blocks m) missing else Some []) =
    if missing <=? Z.of_nat (length idle) then Some (take (Z.to_nat missing) idle) else None).
  { destruct (0 <? missing) eqn:E0; [apply lru_scan_ok; by apply Z.ltb_lt|]. apply Z.ltb_ge in E0.
    rewrite (proj2 (Z.leb_le _ _)) by lia. by rewrite Z2Nat.nonpos. }
  destruct (missing <=? Z.of_nat (length idle)) eqn:El.
  2: { unfold lru_prepare_store. fold to_store. fold missing. by rewrite Hscan. }
  apply Z.leb_le in El. intros evicted. assert (Hk : NoDup (keys (lru_blocks m))) by (by destruct Hi).
  assert (Hev : NoDup evicted) by (eapply sublist_NoDup; [by apply idle_hashes_nodup|apply sublist_take]).
  assert (Hidle : forall h, h ∈ evicted -> is_Some (dict_get h (lru_blocks m))).
  { intros h Hh'. apply (subseteq_take (Z.to_nat missing) idle), idle_hashes_spec in Hh'; [|done]. apply fmap_Some in Hh' as (s & Es & _). by exists s. }
  destruct (evict_loop (lru_backend m) (lru_blocks m) evicted) as (b1 & E1 & Hb1 & Hc1 & Hg1); [done..|].
  assert (Hlen : Z.of_nat (length to_store) <= bk_num_free b1).
  { apply blocks_ok_count in Hb1 as [-> _], Hi as [Hf _]. assert (Hl := length_without evicted (lru_blocks m) Hk Hev Hidle).
    assert (length evicted = Z.to_nat missing) by (unfold evicted; rewrite length_take; lia). lia. }
  assert (Hnd' : NoDup to_store) by by apply NoDup_filter.
  assert (Hnew : forall h, h ∈ to_store -> dict_get h (filter (fun x => x.1 ∉ evicted) (lru_blocks m)) = None).
  { intros h [Hh' _]%list_elem_of_filter. rewrite Hg1, Hh'. by destruct (decide _). }
  destruct (blocks_ok_new b1 _ to_store Hb1 Hnd' Hnew Hlen) as (sts & b' & Ea & Hls & Hst & Hb' & Hc').
  exists sts, b1, b'. split; [done|]. split; [done|]. cbv zeta. split; [|split; [done|split; [congruence|done]]].
  unfold lru_prepare_store. fold to_store. fold missing. rewrite Hscan. fold evicted. rewrite E1. cbn [mbind result_bind]. rewrite Ea. cbn [mbind result_bind].
  rewrite (proj2 (Nat.eqb_eq _ _)) by done. cbn [py_assert mbind result_bind]. unfold store_one. by rewrite fold_set_new.
Qed.

(** The blocks of [hs] a dictionary has, in the order of [hs]. *)
Definition present (d : list (bytes * BlockStatus)) (hs : list bytes) : list (bytes * BlockStatus) :=
  omap (fun h => pair h <$> dict_get h d) hs.

Lemma keys_present d hs : keys (present d hs) = filter (fun h => is_Some (dict_get h d)) hs.
Proof.
  induction hs as [|h hs IH]; [done|]. rewrite filter_cons.
  change (present d (h :: hs)) with (match pair h <$> dict_get h d with Some x => x :: present d hs | None => present d hs end).
  destruct (dict_get h d) as [s|]; cbn [fmap option_fmap option_map].
  - rewrite decide_True by done. rewrite <- IH. done.
  - rewrite decide_False by (by intros []). done.
Qed.

Lemma present_snoc d hs h : present d (hs ++ [h]) = present d hs ++ match dict_get h d with Some s => [(h, s)] | None => [] end.
Proof. unfold present. rewrite omap_app. cbn. by destruct (dict_get h d). Qed.

(** [touch] moves the blocks to the recent end, the first of them last. *)
Lemma lru_touch_order m hs :
  lru_inv m -> NoDup hs ->
  lru_touch hs m = Ok (mkLRU (lru_backend m)
    (filter (fun x => x.1 ∉ hs) (lru_blocks m) ++ present (lru_blocks m) (reverse hs)) (lru_events m)).
Proof.
  intros (Hk & _) Hnd. set (d0 := lru_blocks m) in *. assert (Hnd' : NoDup (reverse hs)) by (by rewrite reverse_Permutation).
  destruct (foldM_inv lru_touch_one (fun pre d => d = filter (fun x => x.1 ∉ pre) d0 ++ present d0 pre) (reverse hs) d0) as (d & E & ->).
  - rewrite filter_all; [by rewrite app_nil_r|]. intros x _. apply not_elem_of_nil.
  - intros pre h post d Epre ->. rewrite Epre in Hnd'. apply NoDup_app in Hnd' as (_ & Hdis & _).
    assert (Hh : h ∉ pre) by (intros Hh; apply (Hdis h); [done|left]).
    assert (Hg : dict_get h (filter (fun x => x.1 ∉ pre) d0 ++ present d0 pre) = dict_get h d0).
    { rewrite dict_get_app, (proj2 (dict_get_None h (present d0 pre))).
      2: { rewrite keys_present. intros [_ ?]%list_elem_of_filter. done. }
      rewrite (dict_get_filter _ (fun k : bytes => k ∉ pre)), decide_True by done. by destruct (dict_get h d0). }
    unfold lru_touch_one, dict_move_to_end, dict_pop. rewrite Hg, present_snoc. destruct (dict_get h d0) as [s|] eqn:Es.
    + cbn. eexists. split; [done|]. unfold dict_del. rewrite filter_app, list_filter_filter, <- app_assoc. f_equal.
      * apply list_filter_iff. intros x. rewrite not_elem_of_app, not_elem_of_cons. set_solver.
      * f_equal. apply filter_all. intros [k s'] Hin. cbn. intros ->. apply (list_elem_of_fmap_2 fst) in Hin.
        change (h ∈ keys (present d0 pre)) in Hin. rewrite keys_present in Hin. apply list_elem_of_filter in Hin. naive_solver.
    + eexists. split; [done|]. rewrite app_nil_r. f_equal. apply filter_ext_in. intros [k s'] Hin. cbn.
      rewrite not_elem_of_app, list_elem_of_singleton. split; [|tauto]. intros ?. split; [done|]. intros ->.
      apply (dict_get_None h d0) in Es. apply Es. by apply (list_elem_of_fmap_2 fst _ _ Hin).
  - unfold lru_touch. fold d0. rewrite E. cbn. do 3 f_equal. apply list_filter_iff. intros x. by rewrite elem_of_reverse.
Qed.

#[export] Program Instance lru_laws : OffloadLaws (LRU B) := {|
  om_inv := lru_inv;
  om_get m h := dict_get h (lru_blocks m);
  om_capacity m := bk_capacity (lru_backend m);
  om_touchable _ _ := True;
|}.
Next Obligation. intros m h s Hi Hg. exact (blocks_ok_status _ _ _ _ Hi Hg). Qed.
Next Obligation. intros m h h' s s' Hi. by apply (blocks_ok_distinct (lru_backend m)). Qed.
Next Obligation. intros m hs _. cbn. unfold lru_lookup. by rewrite lru_lookup_loop_ok. Qed.
Next Obligation.
  intros m hs Hi Hnd Hs. destruct (lru_prepare_load_ok m hs Hi Hnd Hs) as (sp & m' & E & Hi' & Eb & H2 & Hg).
  exists sp, m'. by rewrite Eb.
Qed.
Next Obligation. intros m hs Hi _. destruct (lru_touch_ok m hs Hi) as (m' & E & Hi' & Eb & Hg). exists m'. by rewrite Eb. Qed.
Next Obligation.
  intros m hs Hi Hnd Hs. destruct (lru_complete_load_ok m hs Hi Hnd Hs) as (m' & E & Hi' & Eb & Hg). exists m'. by rewrite Eb.
Qed.
Next Obligation.
  intros m hs Hi Hnd. assert (Hs := lru_prepare_store_spec m hs Hi Hnd). cbv zeta in Hs. case_match.
  2: { exists None, m. split; [done|]. split; [done|]. split; [done|]. intros h. by left. }
  destruct Hs as (sts & b1 & b' & Hls & Hst & E & Hb & Hc & Hg). eexists (Some _), _. split; [done|]. split; [done|]. split; [done|].
  cbn. set (to_store := filter _ hs) in *. set (evicted := take _ _) in *.
  assert (Hnew : forall h, h ∈ to_store -> dict_get h (lru_blocks m) = None) by (intros h; by intros [? _]%list_elem_of_filter).
  assert (Hnew' : forall h, h ∈ to_store -> dict_get h (filter (fun x => x.1 ∉ evicted) (lru_blocks m)) = None).
  { intros h Hh. rewrite Hg, Hnew by done. by destruct (decide _). }
  split; [done|]. split; [|split].
  - apply Forall_forall. intros h Hh. apply idle_hashes_spec; [by destruct Hi|]. by apply (subseteq_take _ _ _ Hh).
  - rewrite bk_spec_ids. apply Forall2_same_length_lookup_2; [by rewrite length_fmap|]. intros i h x Hh Hx.
    rewrite list_lookup_fmap in Hx. apply fmap_Some in Hx as (s & Hs & ->).
    rewrite (dict_get_zip_new _ _ _ h i); [|by apply NoDup_filter|done..]. rewrite Hs. f_equal.
    rewrite Forall_forall in Hst. destruct s as [r i']. f_equal. by apply (Hst (mkStatus r i')), (list_elem_of_lookup_2 _ i).
  - intros h Hh. rewrite dict_get_app, Hg. rewrite (proj2 (dict_get_None h (zip to_store sts))); [|unfold keys; by rewrite fst_zip by lia].
    destruct (decide _); [done|]. by destruct (dict_get h (lru_blocks m)).
Qed.
Next Obligation.
  intros m hs Hi Hs Hnd. destruct (lru_complete_store_ok m hs Hi Hs Hnd) as (m' & E & Hi' & Eb & Hg). exists m'. by rewrite Eb.
Qed.
Next Obligation. intros m hs. apply lru_fail_store_ok. Qed.
Next Obligation. intros m Hi. cbn. unfold lru_take_events. by destruct (lru_events m). Qed.
End LRUFacts.

(** * Theorems *)

Lemma new_lru_inv bs n ev : 0 <= n <= 2 ^ 63 -> lru_inv (new_lru (new_cpu_backend bs n) ev).
Proof. intros Hn. split; [constructor|]. split; [by apply new_cpu_holds|constructor]. Qed.

Lemma new_lru_om_inv bs n ev : 0 <= n <= 2 ^ 63 -> om_inv (new_lru (new_cpu_backend bs n) ev).
Proof. apply new_lru_inv. Qed.

(** C32: In every state a client that loads only what [lookup] reports and completes only
    what it prepared can bring a new manager with a CPU backend of [n] blocks to: the
    manager's counters are the client's pending loads and stores, the blocks kept have
    distinct addresses below [n], every further such call returns, and no call moves or
    evicts a block with a pending load or store. *)
Theorem lru_calls_safe bs n ev m led :
  0 <= n <= 2 ^ 63 -> reachable (new_lru (new_cpu_backend bs n) ev) m led ->
  (forall h, (exists s, dict_get h (lru_blocks m) = Some s /\ ref_cnt s = led h /\ 0 <= block_id s < n) \/
             (dict_get h (lru_blocks m) = None /\ led h = 0)) /\
  (forall h h' s s', dict_get h (lru_blocks m) = Some s -> dict_get h' (lru_blocks m) = Some s' -> block_id s = block_id s' -> h = h') /\
  forall c, admissible c m led ->
    exists m' stored, offload_step c m = Ok (m', stored) /\
      forall h, led h <> 0 -> ledger_step c stored led h <> 0 ->
        block_id <$> dict_get h (lru_blocks m') = block_id <$> dict_get h (lru_blocks m).
Proof.
  intros Hn Hr. destruct (reachable_ok _ m led (new_lru_om_inv bs n ev Hn) (fun _ => eq_refl) Hr) as (Hi & Hc & Hl).
  split; [|split].
  - intros h. destruct (Hl h) as [(s & Es & E)%fmap_Some|?]; [left; exists s|by right].
    destruct (om_status_ok m h s Hi Es) as [_ Hid]. rewrite Hc in Hid. done.
  - intros h h' s s'. apply (om_distinct m h h' s s' Hi).
  - intros c Ha. destruct (offload_step_ok c m led Hi Hl Ha) as (m' & st & E & _ & _ & Hl' & Hs). assert (Hp := stable_pinned c m led m' st Hl Hl' Hs). exists m', st. done.
Qed.

(** C33: A touch moves the blocks it names to the recent end of the order, the first of them
    last; a store of distinct hashes asks for the ones not kept, evicts the oldest blocks
    without pending transfers, exactly as many as the backend is short of, and puts the new
    ones at the recent end as not ready; if there are not enough it returns [None] and
    changes nothing.  The blocks the call names and that are kept already count among the
    candidates for eviction, against the contract of the interface (see
    [prepare_store_evicts_given]). *)
Theorem lru_eviction_correct {B} `{BackendLaws B} (m : LRU B) hs :
  lru_inv m -> NoDup hs ->
  lru_touch hs m = Ok (mkLRU (lru_backend m)
    (filter (fun x => x.1 ∉ hs) (lru_blocks m) ++ present (lru_blocks m) (reverse hs)) (lru_events m)) /\
  let to_store := filter (fun h => dict_get h (lru_blocks m) = None) hs in
  let missing := Z.of_nat (length to_store) - bk_num_free (lru_backend m) in
  let idle := idle_hashes (lru_blocks m) in
  let evicted := take (Z.to_nat missing) idle in
  if missing <=? Z.of_nat (length idle) then
    exists sts m' sp, lru_prepare_store hs m = Ok (Some (mkStoreOutput to_store sp evicted), m') /\ lru_inv m' /\
      lru_blocks m' = filter (fun x => x.1 ∉ evicted) (lru_blocks m) ++ zip to_store sts /\
      length sts = length to_store /\ Forall (fun s => ref_cnt s = -1) sts /\ sp_block_ids sp = block_id <$> sts
  else lru_prepare_store hs m = Ok (None, m).
Proof.
  intros Hi Hnd. split; [by apply lru_touch_order|]. intros to_store missing idle evicted. assert (Hs := lru_prepare_store_spec m hs Hi Hnd).
  cbv zeta in Hs. fold to_store missing idle evicted in Hs. destruct (missing <=? _); [|done].
  destruct Hs as (sts & b1 & b' & Hls & Hst & E & Hb & _). eexists sts, _, _. split; [exact E|]. rewrite bk_spec_ids. done.
Qed.

(** C34: [OffloadingManager.prepare_store] promises that the given blocks are protected from
    eviction until [complete_store].  This manager breaks the promise for the given blocks
    it keeps already: whenever a store misses more blocks than the backend has free, enough
    idle blocks are there to evict, and the oldest idle block is one of the given ones, the
    call succeeds by evicting that block, which it does not store either. *)
Theorem prepare_store_evicts_given {B} `{BackendLaws B} (m : LRU B) hs h older :
  lru_inv m -> NoDup hs -> idle_hashes (lru_blocks m) = h :: older -> h ∈ hs ->
  bk_num_free (lru_backend m) < Z.of_nat (length (filter (fun k => dict_get k (lru_blocks m) = None) hs)) <=
    bk_num_free (lru_backend m) + Z.of_nat (length (h :: older)) ->
  exists out m', lru_prepare_store hs m = Ok (Some out, m') /\ h ∈ block_hashes_evicted out /\ is_Some (dict_get h (lru_blocks m)) /\ dict_get h (lru_blocks m') = None.
Proof.
  intros Hi Hnd Eidle Hh Hlen. assert (Hs := lru_prepare_store_spec m hs Hi Hnd). cbv zeta in Hs. rewrite Eidle in Hs.
  rewrite (proj2 (Z.leb_le _ _)) in Hs by lia. destruct Hs as (sts & b1 & b' & Hls & _ & E & _ & _ & Hg).
  assert (Hev : h ∈ take (Z.to_nat (Z.of_nat (length (filter (fun k => dict_get k (lru_blocks m) = None) hs)) - bk_num_free (lru_backend m))) (h :: older)).
  { destruct (Z.to_nat _) eqn:En; [lia|by left]. }
  assert (Hin : is_Some (dict_get h (lru_blocks m))).
  { assert (h ∈ idle_hashes (lru_blocks m)) as (s & E1 & _)%idle_hashes_spec%fmap_Some by (rewrite Eidle; by left); [by exists s|apply Hi]. }
  eexists _, _. split; [exact E|]. split; [exact Hev|]. split; [done|]. cbn. rewrite dict_get_app, Hg, decide_True by done.
  apply dict_get_None. intros ([k s] & -> & Hk)%list_elem_of_fmap. apply elem_of_zip_l in Hk. apply list_elem_of_filter in Hk as [Hk _].
  cbn in Hin. rewrite Hk in Hin. by destruct Hin.
Qed.

Module LRUExamples.
(** The scenario of [test_cpu_manager] in [tests/v1/kv_offload/test_cpu_manager.py]. *)
Definition hash (i : Z) : bytes := [i].
Definition four : LRU CPUBackend := new_lru (new_cpu_backend 256 4) true.

Definition stored (o : option PrepareStoreOutput) : option (list bytes * list Z * list bytes) :=
  (fun out => (block_hashes_to_store out, sp_block_ids (store_spec out), block_hashes_evicted out)) <$> o.

Definition first_stores : result (list (option (list bytes * list Z * list bytes)) * LRU CPUBackend) :=
  '(o1, m) ← lru_prepare_store [hash 1; hash 2] four;
  m ← lru_complete_store [hash 1; hash 2] true m;
  '(o2, m) ← lru_prepare_store [hash 2; hash 3; hash 4; hash 5] m;
  '(o3, m) ← lru_prepare_store [hash 1; hash 6] m;
  m ← lru_complete_store [hash 2; hash 3; hash 4; hash 5] true m;
  '(_, m) ← lru_prepare_load [hash 2; hash 3] m;
  '(o4, m) ← lru_prepare_store [hash 6; hash 7; hash 8] m;
  m ← lru_complete_load [hash 2; hash 3] m;
  '(o5, m) ← lru_prepare_store [hash 6; hash 7; hash 8] m;
  m ← lru_complete_store [hash 6; hash 7; hash 8] true m;
  m ← lru_touch [hash 5; hash 6; hash 7] m;
  '(o6, m) ← lru_prepare_store [hash 9] m;
  m ← lru_complete_store [hash 7; hash 9] false m;
  Ok (stored <$> [o1; o2; o3; o4; o5; o6], m).

Example first_stores_run :
  exists m, first_stores =
    Ok ([Some ([hash 1; hash 2], [0; 1], []); Some ([hash 3; hash 4; hash 5], [2; 3; 0], [hash 1]); None; None;
         Some ([hash 6; hash 7; hash 8], [3; 2; 1], [hash 2; hash 3; hash 4]); Some ([hash 9], [1], [hash 8])], m) /\
    lru_lookup [hash 7] m = Some 1 /\ lru_lookup [hash 9] m = Some 0.
Proof. eexists. split; [vm_compute; reflexivity|]. split; reflexivity. Qed.

Definition two_stored : LRU CPUBackend :=
  match lru_prepare_store [hash 1; hash 2] four with Ok (_, m) => m | Err _ => four end.

Lemma two_stored_reachable : reachable four two_stored (ledger_step (PrepareStore [hash 1; hash 2]) [hash 1; hash 2] (fun _ => 0)).
Proof.
  eapply reach_step; [apply reach_init| |vm_compute; reflexivity].
  apply (bool_decide_eq_true_1 (NoDup [hash 1; hash 2])). vm_compute. reflexivity.
Qed.

Lemma lru_calls_safe_witness :
  exists m' st, offload_step (CompleteStore [hash 1; hash 2] true) two_stored = Ok (m', st).
Proof.
  destruct (lru_calls_safe 256 4 true two_stored (ledger_step (PrepareStore [hash 1; hash 2]) [hash 1; hash 2] (fun _ => 0))
    ltac:(lia) two_stored_reachable) as (_ & _ & Hc).
  destruct (Hc (CompleteStore [hash 1; hash 2] true)) as (m' & st & E & _); [|by exists m', st].
  split; [apply (bool_decide_eq_true_1 (NoDup [hash 1; hash 2])); vm_compute; reflexivity|].
  intros h [->|[->|[]%elem_of_nil]%elem_of_cons]%elem_of_cons; vm_compute; reflexivity.
Defined.

Lemma lru_eviction_correct_witness : lru_prepare_store [hash 5] two_stored <> Ok (None, two_stored).
Proof.
  destruct (lru_eviction_correct two_stored [hash 5]) as [_ Hs].
  - apply (reachable_ok four two_stored _ (new_lru_om_inv 256 4 true ltac:(lia)) (fun _ => eq_refl) two_stored_reachable).
  - apply NoDup_singleton.
  - cbv zeta in Hs. destruct (_ <=? _) eqn:E; [|vm_compute in E; discriminate E].
    destruct Hs as (sts & m' & sp & -> & _). discriminate.
Defined.

(** Two blocks stored in a cache of two; storing the first of them with a third evicts it. *)
Definition two : LRU CPUBackend := new_lru (new_cpu_backend 256 2) true.
Definition pending : LRU CPUBackend := match lru_prepare_store [hash 1; hash 2] two with Ok (_, m) => m | Err _ => two end.
Definition full : LRU CPUBackend := match lru_complete_store [hash 1; hash 2] true pending with Ok m => m | Err _ => two end.

Lemma full_inv : lru_inv full.
Proof.
  assert (Hnd : NoDup [hash 1; hash 2]) by (apply (bool_decide_eq_true_1 (NoDup [hash 1; hash 2])); vm_compute; reflexivity).
  set (led := ledger_step (PrepareStore [hash 1; hash 2]) [hash 1; hash 2] (fun _ => 0)).
  assert (Hp : reachable two pending led) by (eapply reach_step; [apply reach_init|exact Hnd|vm_compute; reflexivity]).
  assert (Hf : reachable two full (ledger_step (CompleteStore [hash 1; hash 2] true) [] led)).
  { eapply reach_step; [exact Hp| |vm_compute; reflexivity]. split; [exact Hnd|].
    intros h [->|[->|[]%elem_of_nil]%elem_of_cons]%elem_of_cons; vm_compute; reflexivity. }
  exact (proj1 (reachable_ok _ _ _ (new_lru_om_inv 256 2 true ltac:(lia)) (fun _ => eq_refl) Hf)).
Qed.

Lemma prepare_store_evicts_given_witness :
  exists out m', lru_prepare_store [hash 1; hash 3] full = Ok (Some out, m') /\ hash 1 ∈ block_hashes_evicted out /\ dict_get (hash 1) (lru_blocks m') = None.
Proof.
  destruct (prepare_store_evicts_given full [hash 1; hash 3] (hash 1) [hash 2]) as (out & m' & E & Hev & _ & Hg).
  - exact full_inv.
  - apply (bool_decide_eq_true_1 (NoDup [hash 1; hash 3])). vm_compute. reflexivity.
  - vm_compute. reflexivity.
  - by left.
  - vm_compute. split; [reflexivity|discriminate].
  - by exists out, m'.
Defined.
End LRUExamples.
