(* ===== verification/ARCOffload.v ===== *)
(** The offloading manager with adaptive replacement
    ([src/vllm/v1/kv_offload/arc_manager.py]) over any backend, the laws of
    [OffloadingManager] for it, and three calls that do not do what they should. *)
From Stdlib Require Import QArith.
From S2P Require Import Prelude Dict Request Offload LRUOffload.
Local Open Scope Z_scope.

(** * Floats *)

(** The arithmetic on [target_t1_size], a [float] mixed with small integers. *)
Class PyFloat (F : Type) := {
  f_of_int : Z -> F;
  f_add : F -> F -> F;
  f_sub : F -> F -> F;
  f_ltb : F -> F -> bool;
  (** [a / b] of integers *)
  f_div : Z -> Z -> F;
  (** [int(x)] *)
  f_int : F -> result Z;
}.

(** What is used of it: [f_fin] are finite numbers that are not negative.  Binary64 and exact
    rationals satisfy these. *)
Class PyFloatLaws (F : Type) `{PyFloat F} := {
  f_fin : F -> Prop;
  f_fin_int z : 0 <= z -> f_fin (f_of_int z);
  f_fin_div a b : 0 <= a -> 0 < b -> f_fin (f_div a b);
  f_fin_add x d c : f_fin x -> f_fin d -> f_ltb (f_of_int c) (f_add x d) = false -> f_fin (f_add x d);
  f_fin_sub x d : f_fin x -> f_fin d -> f_ltb (f_sub x d) (f_of_int 0) = false -> f_fin (f_sub x d);
  f_int_fin x : f_fin x -> exists z, f_int x = Ok z;
}.

(** Python's [max(a, b)] and [min(a, b)]: the first argument unless the second one wins. *)
Definition py_max `{PyFloat F} (a b : F) : F := if f_ltb a b then b else a.
Definition py_min `{PyFloat F} (a b : F) : F := if f_ltb b a then b else a.

(** Exact rationals. *)
#[export] Instance q_float : PyFloat Q := {|
  f_of_int := inject_Z;
  f_add := Qplus;
  f_sub := Qminus;
  f_ltb a b := negb (Qle_bool b a);
  f_div a b := inject_Z a / inject_Z b;
  f_int x := Ok (Z.quot (Qnum x) (Zpos (Qden x)));
|}%Q.

#[export] Program Instance q_float_laws : PyFloatLaws Q := {| f_fin x := (0 <= x)%Q |}.
Next Obligation. intros z Hz. cbn. unfold Qle. cbn. lia. Qed.
Next Obligation.
  intros a b Ha Hb. cbn. apply Qle_shift_div_l; [unfold Qlt; cbn; lia|]. rewrite Qmult_0_l. unfold Qle. cbn. lia.
Qed.
Next Obligation. intros x d c Hx Hd _. cbn. rewrite <- (Qplus_0_l 0). by apply Qplus_le_compat. Qed.
Next Obligation.
  intros x d _ _ Hlt. cbn in Hlt |- *. apply negb_false_iff in Hlt. apply Qle_bool_imp_le in Hlt. done.
Qed.
Next Obligation. intros x _. cbn. eauto. Qed.

(** * The manager *)

Section ARC.
Context {B F : Type} `{Backend B} `{PyFloat F}.

(** [ARCOffloadingManager]. *)
Record ARC := mkARC {
  arc_backend : B;
  target_t1_size : F;
  t1 : list (bytes * BlockStatus);
  t2 : list (bytes * BlockStatus);
  b1 : list (bytes * unit);
  b2 : list (bytes * unit);
  arc_events : option (list OffloadingEvent);
  cache_capacity : Z;
}.

Definition new_arc (backend : B) (enable_events : bool) : ARC :=
  mkARC backend (f_of_int 0) [] [] [] [] (if enable_events then Some [] else None) (bk_num_free backend).

Definition set_target (x : F) (m : ARC) : ARC := mkARC (arc_backend m) x (t1 m) (t2 m) (b1 m) (b2 m) (arc_events m) (cache_capacity m).
Definition set_t1 (d : list (bytes * BlockStatus)) (m : ARC) : ARC :=
  mkARC (arc_backend m) (target_t1_size m) d (t2 m) (b1 m) (b2 m) (arc_events m) (cache_capacity m).
Definition set_t2 (d : list (bytes * BlockStatus)) (m : ARC) : ARC :=
  mkARC (arc_backend m) (target_t1_size m) (t1 m) d (b1 m) (b2 m) (arc_events m) (cache_capacity m).
Definition set_b1 (d : list (bytes * unit)) (m : ARC) : ARC :=
  mkARC (arc_backend m) (target_t1_size m) (t1 m) (t2 m) d (b2 m) (arc_events m) (cache_capacity m).
Definition set_b2 (d : list (bytes * unit)) (m : ARC) : ARC :=
  mkARC (arc_backend m) (target_t1_size m) (t1 m) (t2 m) (b1 m) d (arc_events m) (cache_capacity m).
Definition set_arc_backend (b : B) (m : ARC) : ARC :=
  mkARC b (target_t1_size m) (t1 m) (t2 m) (b1 m) (b2 m) (arc_events m) (cache_capacity m).
Definition set_arc_events (e : option (list OffloadingEvent)) (m : ARC) : ARC :=
  mkARC (arc_backend m) (target_t1_size m) (t1 m) (t2 m) (b1 m) (b2 m) e (cache_capacity m).

(** [self.t1.get(h) or self.t2.get(h)]. *)
Definition arc_get (h : bytes) (m : ARC) : option BlockStatus :=
  match dict_get h (t1 m) with Some s => Some s | None => dict_get h (t2 m) end.
(** The object found there is updated in place. *)
Definition arc_put (h : bytes) (s : BlockStatus) (m : ARC) : ARC :=
  match dict_get h (t1 m) with Some _ => set_t1 (dict_set h s (t1 m)) m | None => set_t2 (dict_set h s (t2 m)) m end.

Fixpoint arc_lookup_loop (block_hashes : list bytes) (m : ARC) (hit_count : Z) : Z :=
  match block_hashes with
  | [] => hit_count
  | h :: hs =>
      match arc_get h m with
      | None => hit_count
      | Some block => if negb (is_ready block) then hit_count else arc_lookup_loop hs m (hit_count + 1)
      end
  end.
Definition arc_lookup (block_hashes : list bytes) (m : ARC) : option Z := Some (arc_lookup_loop block_hashes m 0).

Definition arc_load_one (s : list BlockStatus * ARC) (h : bytes) : result (list BlockStatus * ARC) :=
  let '(blocks, m) := s in
  block ← of_option AssertionError (arc_get h m);
  _ ← py_assert (is_ready block);
  let block := set_ref_cnt (ref_cnt block + 1) block in
  Ok (blocks ++ [block], arc_put h block m).
Definition arc_prepare_load (block_hashes : list bytes) (m : ARC) : result (LoadStoreSpec * ARC) :=
  '(blocks, m) ← foldM arc_load_one block_hashes ([], m);
  Ok (bk_spec block_hashes blocks (arc_backend m), m).

Definition arc_touch_one (m : ARC) (h : bytes) : result ARC :=
  match dict_get h (t1 m) with
  | Some _ =>
      '(block, d) ← dict_pop h (t1 m);
      if negb (is_ready block) then d ← dict_move_to_end h d; Ok (set_t1 d m)
      else Ok (set_t2 (dict_set h block (t2 m)) (set_t1 d m))
  | None =>
  match dict_get h (t2 m) with
  | Some _ => d ← dict_move_to_end h (t2 m); Ok (set_t2 d m)
  | None =>
  match dict_get h (b1 m) with
  | Some _ =>
      let delta := py_max (f_of_int 1) (f_div (Z.of_nat (length (b2 m))) (Z.of_nat (length (b1 m)))) in
      let m := set_target (py_min (f_add (target_t1_size m) delta) (f_of_int (cache_capacity m))) m in
      d ← dict_move_to_end h (b1 m); Ok (set_b1 d m)
  | None =>
  match dict_get h (b2 m) with
  | Some _ =>
      let delta := py_max (f_of_int 1) (f_div (Z.of_nat (length (b1 m))) (Z.of_nat (length (b2 m)))) in
      let m := set_target (py_max (f_sub (target_t1_size m) delta) (f_of_int 0)) m in
      d ← dict_move_to_end h (b2 m); Ok (set_b2 d m)
  | None => Ok m
  end end end end.
Definition arc_touch (block_hashes : list bytes) (m : ARC) : result ARC := foldM arc_touch_one (reverse block_hashes) m.

Definition arc_unload_one (m : ARC) (h : bytes) : result ARC :=
  block ← of_option AssertionError (arc_get h m);
  _ ← py_assert (0 <? ref_cnt block);
  Ok (arc_put h (set_ref_cnt (ref_cnt block - 1) block) m).
Definition arc_complete_load (block_hashes : list bytes) (m : ARC) : result ARC := foldM arc_unload_one block_hashes m.

(** The scan of [t1] or [t2] for the oldest block without a pending transfer. *)
Fixpoint find_idle (d : list (bytes * BlockStatus)) : option (bytes * BlockStatus) :=
  match d with [] => None | (h, s) :: d => if ref_cnt s =? 0 then Some (h, s) else find_idle d end.

(** The eviction loop, [num_blocks_to_evict] rounds; [None] is its [return None]. *)
Fixpoint arc_evict_loop (num_blocks_to_evict : nat) (m : ARC) (to_evict : list bytes) : result (option (list bytes) * ARC) :=
  match num_blocks_to_evict with
  | O => Ok (Some to_evict, m)
  | S n =>
      bound ← f_int (target_t1_size m);
      match (if bound <=? Z.of_nat (length (t1 m)) then find_idle (t1 m) else None) with
      | Some (h, block) =>
          b ← bk_free block (arc_backend m);
          arc_evict_loop n (set_arc_backend b (set_b1 (dict_set h tt (b1 m)) (set_t1 (dict_del h (t1 m)) m))) (to_evict ++ [h])
      | None =>
      match find_idle (t2 m) with
      | Some (h, block) =>
          b ← bk_free block (arc_backend m);
          arc_evict_loop n (set_arc_backend b (set_b2 (dict_set h tt (b2 m)) (set_t2 (dict_del h (t2 m)) m))) (to_evict ++ [h])
      | None => Ok (None, m)
      end end
  end.

(** [for i in range(len(b) - self.cache_capacity): b.popitem(last=False)]. *)
Definition popitem_first (b : list (bytes * unit)) (_ : nat) : result (list (bytes * unit)) :=
  match b with [] => Err KeyError | _ :: b => Ok b end.
Definition trim_ghosts (capacity : Z) (b : list (bytes * unit)) : result (list (bytes * unit)) :=
  foldM popitem_first (seq 0 (Z.to_nat (Z.of_nat (length b) - capacity))) b.

Definition arc_store_one (m : ARC) (x : bytes * BlockStatus) : ARC :=
  let m := set_t1 (dict_set x.1 x.2 (t1 m)) m in
  let m := set_b1 (dict_del x.1 (b1 m)) m in
  set_b2 (dict_del x.1 (b2 m)) m.

Definition arc_prepare_store (block_hashes : list bytes) (m : ARC) : result (option PrepareStoreOutput * ARC) :=
  let to_store := filter (fun h => dict_get h (t1 m) = None /\ dict_get h (t2 m) = None) block_hashes in
  match to_store with
  | [] => Ok (Some (mkStoreOutput [] (bk_spec [] [] (arc_backend m)) []), m)
  | _ :: _ =>
      let num_blocks_to_evict := Z.of_nat (length to_store) - bk_num_free (arc_backend m) in
      '(o, m) ← arc_evict_loop (Z.to_nat num_blocks_to_evict) m [];
      match o with
      | None => Ok (None, m)
      | Some to_evict =>
          d1 ← trim_ghosts (cache_capacity m) (b1 m);
          d2 ← trim_ghosts (cache_capacity m) (b2 m);
          let m := set_b2 d2 (set_b1 d1 m) in
          let m := set_arc_events (add_event to_evict true (arc_backend m) (arc_events m)) m in
          '(blocks, b) ← bk_allocate to_store (arc_backend m);
          _ ← py_assert (length blocks =? length to_store)%nat;
          let m := fold_left arc_store_one (zip to_store blocks) (set_arc_backend b m) in
          Ok (Some (mkStoreOutput to_store (bk_spec to_store blocks b) to_evict), m)
      end
  end.

Definition arc_store_ok_one (s : list bytes * ARC) (h : bytes) : result (list bytes * ARC) :=
  let '(stored, m) := s in
  match arc_get h m with
  | Some block => if is_ready block then Ok (stored, m) else Ok (stored ++ [h], arc_put h (set_ref_cnt 0 block) m)
  | None => Ok (stored, m)
  end.
Definition arc_store_failed_one (m : ARC) (h : bytes) : result ARC :=
  let '(block, m) :=
    match dict_get h (t1 m) with
    | Some s => (Some s, set_t1 (dict_del h (t1 m)) m)
    | None => (dict_get h (t2 m), set_t2 (dict_del h (t2 m)) m)
    end in
  match block with
  | Some s => if is_ready s then Ok m else b ← bk_free s (arc_backend m); Ok (set_arc_backend b m)
  | None => Ok m
  end.
Definition arc_complete_store (block_hashes : list bytes) (success : bool) (m : ARC) : result ARC :=
  if success then
    '(stored, m) ← foldM arc_store_ok_one block_hashes ([], m);
    Ok (set_arc_events (add_event stored false (arc_backend m) (arc_events m)) m)
  else foldM arc_store_failed_one block_hashes m.

Definition arc_take_events (m : ARC) : list OffloadingEvent * ARC :=
  match arc_events m with Some evs => (evs, set_arc_events (Some []) m) | None => ([], m) end.

#[export] Instance arc_manager : OffloadingManager ARC := {|
  om_lookup := arc_lookup;
  om_prepare_load := arc_prepare_load;
  om_touch := arc_touch;
  om_complete_load := arc_complete_load;
  om_prepare_store := arc_prepare_store;
  om_complete_store := arc_complete_store;
  om_take_events := arc_take_events;
|}.
End ARC.
Arguments ARC : clear implicits.

(** * The laws *)

Section ARCFacts.
Context {B F : Type} `{BackendLaws B} `{PyFloatLaws F}.
Implicit Types (m : ARC B F) (d : list (bytes * BlockStatus)).

Definition arc_blocks m : list (bytes * BlockStatus) := t1 m ++ t2 m.
Definition ghosts m : list bytes := keys (b1 m) ++ keys (b2 m).

(** The four lists share no hash, the two of blocks hold what the backend gave out. *)
Definition arc_inv m : Prop :=
  blocks_ok (arc_backend m) (arc_blocks m) /\
  (forall h, h ∈ ghosts m -> dict_get h (arc_blocks m) = None) /\ NoDup (ghosts m) /\
  f_fin (target_t1_size m) /\ cache_capacity m = bk_capacity (arc_backend m).

(** The part of the state the transfers leave alone. *)
Definition same_rest m m' : Prop :=
  arc_backend m' = arc_backend m /\ target_t1_size m' = target_t1_size m /\ b1 m' = b1 m /\ b2 m' = b2 m /\
  cache_capacity m' = cache_capacity m.

Lemma arc_get_blocks h m : arc_get h m = dict_get h (arc_blocks m).
Proof. unfold arc_blocks. by rewrite dict_get_app. Qed.

Lemma arc_put_blocks h s s' m : arc_get h m = Some s -> arc_blocks (arc_put h s' m) = dict_set h s' (arc_blocks m) /\ same_rest m (arc_put h s' m).
Proof.
  unfold arc_get, arc_put, arc_blocks. destruct (dict_get h (t1 m)) as [w|] eqn:E; intros Hg; (split; [|done]); cbn.
  - by rewrite (dict_set_app_l _ _ w).
  - by rewrite dict_set_app_r.
Qed.

Lemma arc_inv_rest m m' :
  arc_inv m -> same_rest m m' -> blocks_ok (arc_backend m') (arc_blocks m') ->
  (forall h, dict_get h (arc_blocks m) = None -> dict_get h (arc_blocks m') = None) -> arc_inv m'.
Proof.
  intros (_ & Hg & Hnd & Hf & Hc) (Eb & Et & E1 & E2 & Ec) Hok Hget. unfold arc_inv, ghosts. rewrite E1, E2, Et, Ec, Eb in *.
  split; [done|]. split; [|done]. intros h Hh. apply Hget, Hg, Hh.
Qed.

Lemma same_rest_trans m1 m2 m3 : same_rest m1 m2 -> same_rest m2 m3 -> same_rest m1 m3.
Proof. unfold same_rest. intuition congruence. Qed.

Lemma arc_lookup_loop_ok hs m n : arc_lookup_loop hs m n = n + ready_prefix (fun h => dict_get h (arc_blocks m)) hs.
Proof.
  revert n. induction hs as [|h hs IH]; intros n; cbn; [lia|]. rewrite arc_get_blocks. destruct (dict_get h (arc_blocks m)) as [s|]; [|lia].
  destruct (is_ready s); cbn; [rewrite IH|]; lia.
Qed.

(** What a counter update does to the rest. *)
Lemma arc_inv_counters m m' (hs : list bytes) (f : BlockStatus -> BlockStatus) :
  arc_inv m -> same_rest m m' -> blocks_ok (arc_backend m) (arc_blocks m') ->
  (forall h, dict_get h (arc_blocks m') = if decide (h ∈ hs) then f <$> dict_get h (arc_blocks m) else dict_get h (arc_blocks m)) ->
  arc_inv m'.
Proof.
  intros Hi Hr Hb Hg. eapply arc_inv_rest; [exact Hi|done| |].
  - destruct Hr as (-> & _). done.
  - intros h E. rewrite Hg, E. by destruct (decide _).
Qed.

Lemma arc_prepare_load_ok m hs :
  arc_inv m -> NoDup hs -> (forall h, h ∈ hs -> exists s, dict_get h (arc_blocks m) = Some s /\ 0 <= ref_cnt s < 2 ^ 31 - 1) ->
  exists sp m', arc_prepare_load hs m = Ok (sp, m') /\ arc_inv m' /\ arc_backend m' = arc_backend m /\
    Forall2 (fun h i => block_id <$> dict_get h (arc_blocks m) = Some i) hs (sp_block_ids sp) /\
    forall h, dict_get h (arc_blocks m') =
      if decide (h ∈ hs) then (fun s => mkStatus (ref_cnt s + 1) (block_id s)) <$> dict_get h (arc_blocks m) else dict_get h (arc_blocks m).
Proof.
  intros Hi Hnd Hs.
  destruct (counter_loop arc_load_one (fun st => arc_blocks st.2)
    (fun pre st => same_rest m st.2 /\ Forall2 (fun h i => block_id <$> dict_get h (arc_blocks m) = Some i) pre (block_id <$> st.1))
    (fun n => n + 1) (arc_backend m) hs ([], m)) as ([bl m'] & E & [Hr HQ] & Hb & Hg).
  - by destruct Hi.
  - done.
  - split; [done|constructor].
  - intros h Hh. destruct (Hs h Hh) as (s & Es & ?). exists s. split; [done|]. lia.
  - intros pre [bl m1] h s Hh Hd Es Es' [Hr HQ]. cbn in Es, Es', HQ, Hr. destruct (Hs h Hh) as (s' & Es2 & Hn). rewrite Es in Es2. injection Es2 as <-.
    unfold arc_load_one. rewrite arc_get_blocks, Es'. cbn. unfold is_ready. rewrite (proj2 (Z.leb_le _ _)) by lia. cbn.
    rewrite set_ref_cnt_id by lia. eexists. split; [done|]. cbn.
    destruct (arc_put_blocks h s (mkStatus (ref_cnt s + 1) (block_id s)) m1) as [-> Hr']; [by rewrite arc_get_blocks|].
    split; [done|]. split; [by eapply same_rest_trans|]. rewrite fmap_app. apply Forall2_app; [done|].
    constructor; [|constructor]. by rewrite Es.
  - unfold arc_prepare_load. rewrite E. cbn [mbind result_bind]. eexists _, _. split; [done|]. cbn in Hg.
    split; [by eapply arc_inv_counters|]. split; [by destruct Hr|]. split; [by rewrite bk_spec_ids|done].
Qed.

Lemma arc_complete_load_ok m hs :
  arc_inv m -> NoDup hs -> (forall h, h ∈ hs -> exists s, dict_get h (arc_blocks m) = Some s /\ 0 < ref_cnt s) ->
  exists m', arc_complete_load hs m = Ok m' /\ arc_inv m' /\ arc_backend m' = arc_backend m /\
    forall h, dict_get h (arc_blocks m') =
      if decide (h ∈ hs) then (fun s => mkStatus (ref_cnt s - 1) (block_id s)) <$> dict_get h (arc_blocks m) else dict_get h (arc_blocks m).
Proof.
  intros Hi Hnd Hs. assert (Hok : blocks_ok (arc_backend m) (arc_blocks m)) by (by destruct Hi).
  destruct (counter_loop arc_unload_one arc_blocks (fun _ => same_rest m) (fun n => n - 1) (arc_backend m) hs m) as (m' & E & Hr & Hb & Hg).
  - done.
  - done.
  - done.
  - intros h Hh. destruct (Hs h Hh) as (s & Es & ?). exists s. split; [done|]. destruct (blocks_ok_status _ _ _ _ Hok Es). lia.
  - intros pre m1 h s Hh Hd Es Es' Hr. destruct (Hs h Hh) as (s' & Es2 & Hn). rewrite Es in Es2. injection Es2 as <-.
    unfold arc_unload_one. rewrite arc_get_blocks, Es'. cbn. rewrite (proj2 (Z.ltb_lt _ _)) by lia. cbn.
    destruct (blocks_ok_status _ _ _ _ Hok Es). rewrite set_ref_cnt_id by lia. eexists. split; [done|].
    destruct (arc_put_blocks h s (mkStatus (ref_cnt s - 1) (block_id s)) m1) as [-> Hr']; [by rewrite arc_get_blocks|].
    split; [done|by eapply same_rest_trans].
  - exists m'. split; [done|]. split; [by eapply arc_inv_counters|]. split; [by destruct Hr|done].
Qed.

Lemma arc_complete_store_ok m hs :
  arc_inv m -> (forall h, h ∈ hs -> ref_cnt <$> dict_get h (arc_blocks m) = Some (-1)) -> NoDup hs ->
  exists m', arc_complete_store hs true m = Ok m' /\ arc_inv m' /\ arc_backend m' = arc_backend m /\
    forall h, dict_get h (arc_blocks m') =
      if decide (h ∈ hs) then (fun s => mkStatus 0 (block_id s)) <$> dict_get h (arc_blocks m) else dict_get h (arc_blocks m).
Proof.
  intros Hi Hs Hnd.
  destruct (counter_loop arc_store_ok_one (fun st => arc_blocks st.2) (fun _ st => same_rest m st.2) (fun _ => 0) (arc_backend m) hs ([], m))
    as ([stored m'] & E & Hr & Hb & Hg).
  - by destruct Hi.
  - done.
  - done.
  - intros h Hh. apply Hs, fmap_Some in Hh as (s & Es & _). exists s. split; [done|]. lia.
  - intros pre [st m1] h s Hh Hd Es Es' Hr. cbn in Es, Es', Hr. apply Hs in Hh. rewrite Es in Hh. injection Hh as Hn.
    unfold arc_store_ok_one. rewrite arc_get_blocks, Es'. unfold is_ready. rewrite (proj2 (Z.leb_gt _ _)) by lia.
    rewrite set_ref_cnt_id by lia. eexists. split; [done|]. cbn.
    destruct (arc_put_blocks h s (mkStatus 0 (block_id s)) m1) as [-> Hr']; [by rewrite arc_get_blocks|].
    split; [done|by eapply same_rest_trans].
  - unfold arc_complete_store. rewrite E. eexists. split; [done|]. cbn in Hg. split; [|split; [by destruct Hr|done]].
    by eapply (arc_inv_counters m _ hs (fun s => mkStatus 0 (block_id s))).
Qed.

Lemma arc_fail_store_ok m hs :
  arc_inv m -> (forall h, h ∈ hs -> ref_cnt <$> dict_get h (arc_blocks m) = Some (-1)) -> NoDup hs ->
  exists m', arc_complete_store hs false m = Ok m' /\ arc_inv m' /\ bk_capacity (arc_backend m') = bk_capacity (arc_backend m) /\
    forall h, dict_get h (arc_blocks m') = if decide (h ∈ hs) then None else dict_get h (arc_blocks m).
Proof.
  intros Hi Hs Hnd.
  destruct (give_back_loop arc_store_failed_one arc_blocks arc_backend
    (fun _ m' => target_t1_size m' = target_t1_size m /\ ghosts m' = ghosts m /\ cache_capacity m' = cache_capacity m) hs m)
    as (m' & E & (Et & Egh & Ec) & Hb & Hc & _ & Hg).
  - by destruct Hi.
  - done.
  - done.
  - intros h Hh. apply Hs, fmap_Some in Hh as (s & Es & _). by exists s.
  - intros pre m1 h s b' Hh Es Es' Hk Eb Hr. apply Hs in Hh. rewrite Es in Hh. injection Hh as Hn.
    unfold arc_store_failed_one. rewrite <- arc_get_blocks in Es'. unfold arc_get in Es'. unfold arc_blocks in *.
    rewrite dict_del_app. destruct (dict_get h (t1 m1)) as [w|] eqn:E1.
    + injection Es' as ->. unfold is_ready. rewrite (proj2 (Z.leb_gt _ _)) by lia. cbn. rewrite Eb. eexists. split; [done|]. cbn. split; [|done].
      rewrite (dict_del_absent h (t2 m1)); [done|]. apply dict_get_None. unfold keys in Hk. rewrite fmap_app in Hk.
      apply NoDup_app in Hk as (_ & Hdis & _). apply Hdis, (list_elem_of_fmap_2 fst _ (h, s)). by apply dict_get_Some.
    + rewrite Es'. unfold is_ready. rewrite (proj2 (Z.leb_gt _ _)) by lia. cbn. rewrite Eb. eexists. split; [done|]. cbn. split; [|done].
      by rewrite (dict_del_absent h (t1 m1)).
  - exists m'. split; [done|]. split; [|done]. destruct Hi as (_ & Hgh & Hnd' & Hf & Hcap). unfold arc_inv. rewrite Et, Egh, Ec, Hc.
    split; [done|]. split; [|done]. intros h Hh. rewrite Hg, Hgh by done. by destruct (decide _).
Qed.

(** An invariant that only looks at the lists up to their order. *)
Lemma arc_inv_perm m m' :
  arc_inv m -> arc_backend m' = arc_backend m -> cache_capacity m' = cache_capacity m -> f_fin (target_t1_size m') ->
  arc_blocks m' ≡ₚ arc_blocks m -> ghosts m' ≡ₚ ghosts m -> arc_inv m'.
Proof.
  intros (Hok & Hg & Hnd & Hf & Hc) Eb Ec Ht Ebl Egh. unfold arc_inv. rewrite Eb, Ec, Egh.
  assert (Hok' := blocks_ok_perm _ _ _ (symmetry Ebl) Hok). split; [done|]. split; [|done].
  intros h Hh. rewrite Egh in Hh. rewrite (dict_get_perm _ (arc_blocks m)); [by apply Hg|done|by destruct Hok'].
Qed.

Lemma arc_capacity_nonneg m : arc_inv m -> 0 <= cache_capacity m.
Proof. intros (Hok & _ & _ & _ & ->). apply blocks_ok_count in Hok. lia. Qed.

Lemma delta_fin a b : 0 <= a -> 0 < b -> f_fin (py_max (f_of_int 1) (f_div a b)).
Proof. intros Ha Hb. unfold py_max. case_match; [by apply f_fin_div|by apply f_fin_int]. Qed.

Lemma length_present {V} (h : bytes) (d : list (bytes * V)) v : dict_get h d = Some v -> 0 < Z.of_nat (length d).
Proof. by destruct d; [|cbn; lia]. Qed.

Lemma arc_touch_one_ok m h :
  arc_inv m -> (forall s, dict_get h (arc_blocks m) = Some s -> is_ready s = true) ->
  exists m', arc_touch_one m h = Ok m' /\ arc_inv m' /\ arc_backend m' = arc_backend m /\ arc_blocks m' ≡ₚ arc_blocks m.
Proof.
  intros Hi Hready. assert (Hcap := arc_capacity_nonneg m Hi). destruct Hi as (Hok & Hg & Hnd & Hf & Hc) eqn:EHi.
  assert (Hk := proj1 Hok). unfold keys, arc_blocks in Hk. rewrite fmap_app in Hk. apply NoDup_app in Hk as (Hk1 & Hdis & Hk2).
  assert (Hnd' := Hnd). apply NoDup_app in Hnd' as (Hb1 & _ & Hb2).
  assert (Hperm : forall m', arc_backend m' = arc_backend m -> cache_capacity m' = cache_capacity m -> f_fin (target_t1_size m') ->
    arc_blocks m' ≡ₚ arc_blocks m -> ghosts m' ≡ₚ ghosts m ->
    exists m'', Ok m' = Ok m'' /\ arc_inv m'' /\ arc_backend m'' = arc_backend m /\ arc_blocks m'' ≡ₚ arc_blocks m).
  { intros m' E1 E2 Hf' E3 E4. exists m'. split; [done|]. split; [by apply (arc_inv_perm m)|done]. }
  clear EHi. unfold arc_touch_one. destruct (dict_get h (t1 m)) as [s|] eqn:E1; [|destruct (dict_get h (t2 m)) as [s|] eqn:E2;
    [|destruct (dict_get h (b1 m)) as [[]|] eqn:E3; [|destruct (dict_get h (b2 m)) as [[]|] eqn:E4]]].
  - unfold dict_pop. rewrite E1. cbn [of_option mbind result_bind]. rewrite Hready by (unfold arc_blocks; by rewrite dict_get_app, E1).
    cbn [negb]. apply Hperm; try done. unfold arc_blocks. cbn.
    rewrite dict_set_new.
    + rewrite (dict_del_perm h s (t1 m) Hk1 E1) at 2. rewrite app_assoc, Permutation_app_comm. done.
    + apply Hdis, (list_elem_of_fmap_2 fst _ (h, s)). by apply dict_get_Some.
  - destruct (move_to_end_perm h s (t2 m) Hk2 E2) as (d & -> & Hd). cbn [mbind result_bind]. apply Hperm; try done.
    unfold arc_blocks. cbn. by rewrite Hd.
  - cbn zeta. destruct (move_to_end_perm h tt (b1 m) Hb1 E3) as (d & Ed & Hd). cbn [b1 set_target]. rewrite Ed. cbn [mbind result_bind].
    apply Hperm; try done; [|unfold ghosts, keys; cbn; by rewrite Hd]. cbn. unfold py_min. case_match; [by apply f_fin_int|].
    eapply f_fin_add; [done| |done]. apply delta_fin; [lia|]. by eapply length_present.
  - cbn zeta. destruct (move_to_end_perm h tt (b2 m) Hb2 E4) as (d & Ed & Hd). cbn [b2 set_target]. rewrite Ed. cbn [mbind result_bind].
    apply Hperm; try done; [|unfold ghosts, keys; cbn; by rewrite Hd]. cbn. unfold py_max at 1. case_match; [by apply f_fin_int|].
    apply f_fin_sub; [done| |done]. apply delta_fin; [lia|]. by eapply length_present.
  - by apply Hperm.
Qed.

Lemma arc_touch_ok m hs :
  arc_inv m -> (forall h s, h ∈ hs -> dict_get h (arc_blocks m) = Some s -> is_ready s = true) ->
  exists m', arc_touch hs m = Ok m' /\ arc_inv m' /\ arc_backend m' = arc_backend m /\
    forall h, dict_get h (arc_blocks m') = dict_get h (arc_blocks m).
Proof.
  intros Hi Hready.
  destruct (foldM_inv arc_touch_one (fun _ m' => arc_inv m' /\ arc_backend m' = arc_backend m /\ arc_blocks m' ≡ₚ arc_blocks m) (reverse hs) m)
    as (m' & E & Hi' & Eb & Hp); [done| |].
  - intros pre h post m1 Epre (Hi1 & Eb1 & Hp1). destruct (arc_touch_one_ok m1 h Hi1) as (m2 & E2 & Hi2 & Eb2 & Hp2).
    { intros s. rewrite (dict_get_perm _ (arc_blocks m)); [|done|by destruct Hi1 as [[? _] _]]. apply Hready. apply elem_of_reverse. rewrite Epre. set_solver. }
    exists m2. split; [done|]. split; [done|]. split; [congruence|]. by rewrite Hp2.
  - exists m'. split; [done|]. split; [done|]. split; [done|]. intros h. apply dict_get_perm; [done|]. by destruct Hi' as [[? _] _].
Qed.

Lemma find_idle_Some d h s : find_idle d = Some (h, s) -> NoDup (keys d) -> dict_get h d = Some s /\ ref_cnt s = 0.
Proof.
  induction d as [|[k w] d IH]; [done|]. cbn. intros E [Hk Hd]%NoDup_cons. destruct (ref_cnt w =? 0) eqn:Ew.
  - injection E as -> ->. rewrite decide_True by done. apply Z.eqb_eq in Ew. done.
  - destruct (IH E Hd) as [Hg Hr]. rewrite decide_False; [done|]. intros ->. apply Hk.
    apply (list_elem_of_fmap_2 fst _ (h, s)). by apply dict_get_Some.
Qed.

(** A block that moves to a ghost list. *)
Lemma arc_inv_evict m m' h s :
  arc_inv m -> dict_get h (arc_blocks m) = Some s -> bk_free s (arc_backend m) = Ok (arc_backend m') ->
  arc_blocks m' = dict_del h (arc_blocks m) -> ghosts m' ≡ₚ h :: ghosts m ->
  target_t1_size m' = target_t1_size m -> cache_capacity m' = cache_capacity m ->
  arc_inv m' /\ bk_capacity (arc_backend m') = bk_capacity (arc_backend m) /\ bk_num_free (arc_backend m') = bk_num_free (arc_backend m) + 1.
Proof.
  intros (Hok & Hg & Hnd & Hf & Hc) Es Eb Ebl Egh Et Ec. destruct (blocks_ok_del _ _ h s Hok Es) as (b' & Eb' & Hok' & Hcap).
  rewrite Eb in Eb'. injection Eb' as <-. assert (Hh : h ∉ ghosts m) by (intros Hh; apply Hg in Hh; congruence). split; [|split; [done|]].
  - unfold arc_inv. rewrite Ebl, Et, Ec, Hcap, Egh. split; [done|]. split; [|split; [by apply NoDup_cons|done]].
    intros k Hk. rewrite Egh in Hk. rewrite dict_get_del. case_decide; [done|]. apply Hg. set_solver.
  - apply blocks_ok_count in Hok' as [-> _]. destruct (blocks_ok_count _ _ Hok) as [-> _]. rewrite (length_del h s (arc_blocks m)); [|by destruct Hok|done]. lia.
Qed.

(** One round: the victim, if there is one, moves from its list to that list's ghosts. *)
Lemma arc_victim_ok m h s (from_t1 : bool) :
  arc_inv m -> find_idle (if from_t1 then t1 m else t2 m) = Some (h, s) ->
  exists b', bk_free s (arc_backend m) = Ok b' /\ dict_get h (arc_blocks m) = Some s /\ ref_cnt s = 0 /\
    let m' := if from_t1 then set_arc_backend b' (set_b1 (dict_set h tt (b1 m)) (set_t1 (dict_del h (t1 m)) m))
              else set_arc_backend b' (set_b2 (dict_set h tt (b2 m)) (set_t2 (dict_del h (t2 m)) m)) in
    arc_inv m' /\ bk_capacity b' = bk_capacity (arc_backend m) /\ bk_num_free b' = bk_num_free (arc_backend m) + 1 /\
    arc_blocks m' = dict_del h (arc_blocks m).
Proof.
  intros Hi E. assert (Hk := proj1 (proj1 Hi)). unfold keys, arc_blocks in Hk. rewrite fmap_app in Hk. apply NoDup_app in Hk as (Hk1 & Hdis & Hk2).
  destruct (find_idle_Some _ _ _ E) as [Hg Hr]; [by destruct from_t1|].
  assert (Hin := list_elem_of_fmap_2 fst _ (h, s) (dict_get_Some _ _ _ Hg)). cbn in Hin.
  assert (Hother : dict_get h (if from_t1 then t2 m else t1 m) = None).
  { apply dict_get_None. destruct from_t1; [by apply Hdis|]. intros Hin'. by apply (Hdis h). }
  assert (Hgm : dict_get h (arc_blocks m) = Some s).
  { unfold arc_blocks. rewrite dict_get_app. by destruct from_t1; [rewrite Hg|rewrite Hother]. }
  assert (Hgh : h ∉ keys (b1 m) ++ keys (b2 m)) by (intros Hh; apply (proj1 (proj2 Hi)) in Hh; congruence).
  apply not_elem_of_app in Hgh as [Hgh1 Hgh2].
  destruct (blocks_ok_del _ _ h s (proj1 Hi) Hgm) as (b' & Eb & _). exists b'. split; [done|]. split; [done|]. split; [done|]. intros m'.
  assert (Ebl : arc_blocks m' = dict_del h (arc_blocks m)).
  { unfold m', arc_blocks. rewrite dict_del_app. destruct from_t1; cbn; by rewrite (dict_del_absent h _ Hother). }
  destruct (arc_inv_evict m m' h s) as (Hi' & Hc & Hf); try done; unfold m' in *.
  - by destruct from_t1.
  - unfold ghosts. destruct from_t1; cbn [b1 b2 set_b1 set_b2 set_t1 set_t2 set_arc_backend]; rewrite keys_set_new by done; solve_Permutation.
  - by destruct from_t1.
  - by destruct from_t1.
  - split; [done|]. destruct from_t1; done.
Qed.

(** The idle blocks [ev] are gone and their space is free. *)
Definition arc_evicts m (ev : list bytes) m' : Prop :=
  arc_inv m' /\ bk_capacity (arc_backend m') = bk_capacity (arc_backend m) /\
  bk_num_free (arc_backend m') = bk_num_free (arc_backend m) + Z.of_nat (length ev) /\
  (forall h, h ∈ ev -> ref_cnt <$> dict_get h (arc_blocks m) = Some 0) /\
  (forall h, dict_get h (arc_blocks m') = if decide (h ∈ ev) then None else dict_get h (arc_blocks m)).

Lemma arc_evicts_nil m : arc_inv m -> arc_evicts m [] m.
Proof. intros Hi. split; [done|]. split; [done|]. split; [cbn; lia|]. split; [intros h []%elem_of_nil|done]. Qed.

Lemma arc_evicts_cons m h s m1 ev m' :
  dict_get h (arc_blocks m) = Some s -> ref_cnt s = 0 -> bk_capacity (arc_backend m1) = bk_capacity (arc_backend m) ->
  bk_num_free (arc_backend m1) = bk_num_free (arc_backend m) + 1 -> arc_blocks m1 = dict_del h (arc_blocks m) ->
  arc_evicts m1 ev m' -> arc_evicts m (h :: ev) m'.
Proof.
  intros Hg Hr Hc Hf Hbl (Hi' & Hc' & Hf' & Hev & Hg'). rewrite Hbl in Hev, Hg'. split; [done|]. split; [congruence|]. split; [cbn [length]; lia|]. split.
  - intros k [->|Hk]%elem_of_cons; [by rewrite Hg; cbn; rewrite Hr|]. specialize (Hev k Hk). rewrite dict_get_del in Hev. by destruct (decide (k = h)).
  - intros k. rewrite Hg', dict_get_del. destruct (decide (k ∈ ev)), (decide (k = h)), (decide (k ∈ h :: ev)); set_solver.
Qed.

Lemma arc_evict_loop_ok n m acc :
  arc_inv m ->
  exists r m' ev, arc_evict_loop n m acc = Ok (r, m') /\ arc_evicts m ev m' /\ (r = Some (acc ++ ev) /\ length ev = n \/ r = None).
Proof.
  revert m acc. induction n as [|n IH]; intros m acc Hi.
  { exists (Some acc), m, []. split; [done|]. split; [by apply arc_evicts_nil|]. rewrite app_nil_r. by left. }
  destruct (f_int_fin (target_t1_size m)) as [bound Eb]; [by apply Hi|]. cbn [arc_evict_loop]. rewrite Eb. cbn [mbind result_bind].
  assert (Hgo : forall from_t1 h s, find_idle (if from_t1 : bool then t1 m else t2 m) = Some (h, s) ->
    exists r m' ev, (b ← bk_free s (arc_backend m);
        arc_evict_loop n (if from_t1 then set_arc_backend b (set_b1 (dict_set h tt (b1 m)) (set_t1 (dict_del h (t1 m)) m))
              else set_arc_backend b (set_b2 (dict_set h tt (b2 m)) (set_t2 (dict_del h (t2 m)) m))) (acc ++ [h])) = Ok (r, m') /\
      arc_evicts m ev m' /\ (r = Some (acc ++ ev) /\ length ev = S n \/ r = None)).
  { intros from_t1 h s Ef. destruct (arc_victim_ok m h s from_t1 Hi Ef) as (b' & -> & Hg & Hr & Hi' & Hc & Hfree & Hbl). cbn [mbind result_bind].
    clear Ef. set (m1 := if from_t1 then _ else _) in *. assert (Eb1 : arc_backend m1 = b') by (unfold m1; by destruct from_t1). rewrite <- Eb1 in Hc, Hfree.
    destruct (IH m1 (acc ++ [h]) Hi') as (r & m' & ev & -> & Hev & Hres). exists r, m', (h :: ev). split; [done|].
    split; [by apply (arc_evicts_cons m h s m1)|]. destruct Hres as [[-> <-]| ->]; [left|by right]. by rewrite <- app_assoc. }
  destruct (if bound <=? Z.of_nat (length (t1 m)) then find_idle (t1 m) else None) as [[h s]|] eqn:E1.
  { apply (Hgo true). by destruct (bound <=? _). }
  destruct (find_idle (t2 m)) as [[h s]|] eqn:E2; [by apply (Hgo false)|].
  exists None, m, []. split; [done|]. split; [by apply arc_evicts_nil|by right].
Qed.

Lemma trim_ghosts_ok c (b : list (bytes * unit)) : 0 <= c -> trim_ghosts c b = Ok (drop (Z.to_nat (Z.of_nat (length b) - c)) b).
Proof.
  intros Hc. unfold trim_ghosts. set (n := Z.to_nat _). assert (Hn : (n <= length b)%nat) by lia. clearbody n. revert b Hn. generalize 0%nat as k.
  induction n as [|n IH]; intros k b Hn; [done|]. destruct b as [|x b]; [cbn in Hn; lia|]. cbn. apply IH. cbn in Hn. lia.
Qed.

Lemma arc_store_fold hs sts m :
  NoDup hs -> (forall h, h ∈ hs -> dict_get h (t1 m) = None) -> length sts = length hs ->
  fold_left arc_store_one (zip hs sts) m =
  mkARC (arc_backend m) (target_t1_size m) (t1 m ++ zip hs sts) (t2 m)
    (filter (fun x => x.1 ∉ hs) (b1 m)) (filter (fun x => x.1 ∉ hs) (b2 m)) (arc_events m) (cache_capacity m).
Proof.
  revert sts m. induction hs as [|h hs IH]; intros sts m Hnd Hnew Hlen.
  { cbn. rewrite app_nil_r, !filter_all by (intros x _; apply not_elem_of_nil). by destruct m. }
  destruct sts as [|s sts]; [done|]. apply NoDup_cons in Hnd as [Hh Hnd]. cbn [zip zip_with fold_left]. rewrite IH; [|done| |cbn in Hlen; lia].
  - cbn. rewrite dict_set_new by (apply dict_get_None, Hnew; left). rewrite <- app_assoc. unfold dict_del. rewrite !list_filter_filter.
    f_equal; apply list_filter_iff; intros x; rewrite not_elem_of_cons; tauto.
  - intros h' Hh'. cbn. rewrite dict_get_set, decide_False by (intros ->; done). apply Hnew. by right.
Qed.

(** Shorter ghost lists and new blocks. *)
Lemma arc_inv_stored m m' hs sts :
  arc_inv m -> length sts = length hs -> blocks_ok (arc_backend m') (arc_blocks m ++ zip hs sts) ->
  arc_blocks m' ≡ₚ arc_blocks m ++ zip hs sts -> sublist (ghosts m') (ghosts m) -> (forall h, h ∈ ghosts m' -> h ∉ hs) ->
  target_t1_size m' = target_t1_size m -> cache_capacity m' = cache_capacity m ->
  bk_capacity (arc_backend m') = bk_capacity (arc_backend m) -> arc_inv m'.
Proof.
  intros (_ & Hg & Hnd & Hf & Hc) Hlen Hok Ebl Hsub Hhs Et Ec Ecap. assert (Hok' := blocks_ok_perm _ _ _ (symmetry Ebl) Hok).
  unfold arc_inv. rewrite Et, Ec, Ecap. split; [done|]. split; [|split; [by eapply sublist_NoDup|done]].
  intros h Hh. rewrite (dict_get_perm _ _ h Ebl) by (by destruct Hok'). rewrite dict_get_app, Hg by (by eapply sublist_subseteq).
  apply dict_get_None. unfold keys. rewrite fst_zip by lia. by apply Hhs.
Qed.

Lemma arc_prepare_store_spec m hs :
  arc_inv m -> NoDup hs ->
  let to_store := filter (fun h => dict_get h (arc_blocks m) = None) hs in
  exists o m' ev, arc_prepare_store hs m = Ok (o, m') /\ arc_inv m' /\ bk_capacity (arc_backend m') = bk_capacity (arc_backend m) /\
    (forall h, h ∈ ev -> ref_cnt <$> dict_get h (arc_blocks m) = Some 0) /\
    match o with
    | None => forall h, dict_get h (arc_blocks m') = if decide (h ∈ ev) then None else dict_get h (arc_blocks m)
    | Some out =>
        exists sts, block_hashes_to_store out = to_store /\ block_hashes_evicted out = ev /\
        sp_block_ids (store_spec out) = block_id <$> sts /\ length sts = length to_store /\ Forall (fun s => ref_cnt s = -1) sts /\
        (to_store <> [] -> (length (b1 m') <= Z.to_nat (cache_capacity m'))%nat /\ (length (b2 m') <= Z.to_nat (cache_capacity m'))%nat) /\
        length ev = Z.to_nat (Z.of_nat (length to_store) - bk_num_free (arc_backend m)) /\
        (forall i h, to_store !! i = Some h -> dict_get h (t1 m') = sts !! i) /\
        exists d, arc_blocks m' ≡ₚ d ++ zip to_store sts /\ NoDup (keys (d ++ zip to_store sts)) /\
          forall h, dict_get h d = if decide (h ∈ ev) then None else dict_get h (arc_blocks m)
    end.
Proof.
  intros Hi Hnd to_store. assert (Ets : to_store = filter (fun h => dict_get h (t1 m) = None /\ dict_get h (t2 m) = None) hs).
  { apply list_filter_iff. intros h. unfold arc_blocks. rewrite dict_get_app. destruct (dict_get h (t1 m)), (dict_get h (t2 m)); intuition congruence. }
  unfold arc_prepare_store. rewrite <- Ets. destruct to_store as [|h0 hs0] eqn:Eto.
  { exists (Some (mkStoreOutput [] (bk_spec [] [] (arc_backend m)) [])), m, []. split; [done|]. split; [done|]. split; [done|].
    split; [intros h []%elem_of_nil|]. exists []. cbn [block_hashes_to_store block_hashes_evicted store_spec]. rewrite bk_spec_ids. split; [done|]. split; [done|]. split; [done|]. split; [done|]. split; [constructor|].
    split; [done|]. split; [destruct (blocks_ok_count _ _ (proj1 Hi)); cbn; lia|]. split; [done|]. exists (arc_blocks m). cbn. rewrite app_nil_r. split; [done|]. split; [apply Hi|done]. }
  rewrite <- Eto in *. clear h0 hs0 Eto. set (n := Z.to_nat _).
  destruct (arc_evict_loop_ok n m [] Hi) as (r & m1 & ev & -> & (Hi1 & Hc1 & Hf1 & Hev & Hg1) & Hr). cbn [mbind result_bind].
  destruct Hr as [[-> Hn]| ->]; [cbn [app]|by exists None, m1, ev].
  assert (Hcap := arc_capacity_nonneg m1 Hi1). rewrite !trim_ghosts_ok by done. cbn [mbind result_bind arc_backend set_arc_events set_b2 set_b1].
  assert (Hnd' : NoDup to_store) by by apply NoDup_filter.
  assert (Hnew : forall h, h ∈ to_store -> dict_get h (arc_blocks m1) = None).
  { intros h [Hh _]%list_elem_of_filter. rewrite Hg1, Hh. by destruct (decide _). }
  destruct (blocks_ok_new (arc_backend m1) _ to_store (proj1 Hi1) Hnd' Hnew) as (sts & b' & -> & Hlen & Hst & Hok' & Hc').
  { rewrite Hf1, Hn. unfold n. lia. }
  cbn [mbind result_bind]. rewrite (proj2 (Nat.eqb_eq _ _)) by done. cbn [py_assert mbind result_bind].
  rewrite arc_store_fold; [|done| |done].
  2: { intros h Hh. apply Hnew in Hh. unfold arc_blocks in Hh. rewrite dict_get_app in Hh. cbn. by destruct (dict_get h (t1 m1)). }
  eexists (Some _), _, ev. split; [done|]. set (m' := mkARC _ _ _ _ _ _ _ _).
  assert (Ebl : arc_blocks m' ≡ₚ arc_blocks m1 ++ zip to_store sts).
  { unfold arc_blocks, m'. cbn. rewrite <- !app_assoc. by rewrite (Permutation_app_comm (zip _ _)). }
  split; [|split; [cbn; congruence|split; [done|]]].
  - apply (arc_inv_stored m1 m' to_store sts); try done.
    + unfold ghosts, m', keys. cbn. apply sublist_app; apply fmap_sublist; (etransitivity; [apply sublist_filter|apply sublist_drop]).
    + intros h. unfold ghosts, m', keys. cbn. rewrite elem_of_app, !list_elem_of_fmap. by intros [(x & -> & [? _]%list_elem_of_filter)|(x & -> & [? _]%list_elem_of_filter)].
  - exists sts. cbn. rewrite bk_spec_ids. split; [done|]. split; [done|]. split; [done|]. split; [done|]. split; [done|]. split.
    + intros _. split; (etransitivity; [apply length_filter|]); rewrite length_drop; lia.
    + split; [done|]. split; [|exists (arc_blocks m1); split; [done|]; split; [apply Hok'|done]].
      intros i h Hh. apply dict_get_zip_new; [done| |done|done]. intros k Hk. apply Hnew in Hk. unfold arc_blocks in Hk.
      rewrite dict_get_app in Hk. by destruct (dict_get k (t1 m1)).
Qed.

#[export] Program Instance arc_laws : OffloadLaws (ARC B F) := {|
  om_inv := arc_inv;
  om_get m h := dict_get h (arc_blocks m);
  om_capacity m := bk_capacity (arc_backend m);
  om_touchable m hs := forall h s, h ∈ hs -> dict_get h (arc_blocks m) = Some s -> is_ready s = true;
|}.
Next Obligation. intros m h s Hi Hg. exact (blocks_ok_status _ _ _ _ (proj1 Hi) Hg). Qed.
Next Obligation. intros m h h' s s' Hi. apply (blocks_ok_distinct (arc_backend m)), Hi. Qed.
Next Obligation. intros m hs _. cbn. unfold arc_lookup. by rewrite arc_lookup_loop_ok. Qed.
Next Obligation.
  intros m hs Hi Hnd Hs. destruct (arc_prepare_load_ok m hs Hi Hnd Hs) as (sp & m' & E & Hi' & Eb & H3 & Hg).
  exists sp, m'. by rewrite Eb.
Qed.
Next Obligation. intros m hs Hi Ht. destruct (arc_touch_ok m hs Hi Ht) as (m' & E & Hi' & Eb & Hg). exists m'. by rewrite Eb. Qed.
Next Obligation.
  intros m hs Hi Hnd Hs. destruct (arc_complete_load_ok m hs Hi Hnd Hs) as (m' & E & Hi' & Eb & Hg). exists m'. by rewrite Eb.
Qed.
Next Obligation.
  intros m hs Hi Hnd. destruct (arc_prepare_store_spec m hs Hi Hnd) as (o & m' & ev & E & Hi' & Hc & Hev & Ho).
  exists o, m'. split; [done|]. split; [done|]. split; [done|]. destruct o as [out|].
  2: { intros h. rewrite Ho. destruct (decide (h ∈ ev)) as [Hh|]; [right; split; [done|by apply Hev]|by left]. }
  destruct Ho as (sts & Eto & Eev & Eids & Hlen & Hst & _ & _ & _ & d & Ebl & Hk & Hg). rewrite Eto, Eev, Eids. set (to_store := filter _ hs) in *.
  assert (Hnew : forall h, h ∈ to_store -> dict_get h d = None).
  { intros h [Hh _]%list_elem_of_filter. rewrite Hg, Hh. by destruct (decide _). }
  assert (Hget : forall h, dict_get h (arc_blocks m') = dict_get h (d ++ zip to_store sts)).
  { intros h. apply dict_get_perm; [done|]. by destruct Hi' as [[? _] _]. }
  split; [done|]. split; [by apply Forall_forall|]. split.
  - apply Forall2_same_length_lookup_2; [by rewrite length_fmap|]. intros i h x Hh Hx.
    rewrite list_lookup_fmap in Hx. apply fmap_Some in Hx as (s & Hs & ->).
    rewrite Hget, (dict_get_zip_new _ _ _ h i); [|by apply NoDup_filter|done..]. rewrite Hs. f_equal.
    rewrite Forall_forall in Hst. destruct s as [r i']. f_equal. by apply (Hst (mkStatus r i')), (list_elem_of_lookup_2 _ i).
  - intros h Hh. rewrite Hget, dict_get_app, Hg. rewrite (proj2 (dict_get_None h (zip to_store sts))); [|unfold keys; by rewrite fst_zip by lia].
    destruct (decide _); [done|]. by destruct (dict_get h (arc_blocks m)).
Qed.
Next Obligation.
  intros m hs Hi Hs Hnd. destruct (arc_complete_store_ok m hs Hi Hs Hnd) as (m' & E & Hi' & Eb & Hg). exists m'. by rewrite Eb.
Qed.
Next Obligation. intros m hs. apply arc_fail_store_ok. Qed.
Next Obligation. intros m Hi. cbn. unfold arc_take_events. by destruct (arc_events m). Qed.

Lemma new_arc_inv (b : B) ev : bk_holds b [] -> om_inv (new_arc (F:=F) b ev).
Proof.
  intros Hb. destruct (bk_holds_count b [] Hb) as [E _]. split; [split; [constructor|]; split; [done|constructor]|].
  split; [intros h []%elem_of_nil|]. split; [constructor|]. split; [by apply f_fin_int|]. cbn. rewrite E. cbn. lia.
Qed.
End ARCFacts.

(** * Theorems *)

(** C35: In every state a client that loads only what [lookup] reports, completes only what it
    prepared and touches no block whose store is pending can bring a new manager with a CPU
    backend of [n] blocks to: recent, frequent and both ghost lists share no hash, the
    counters are the client's pending transfers, and every further such call returns
    without moving or evicting a block in use. *)
Theorem arc_calls_safe {F} `{PyFloatLaws F} bs n ev (m : ARC CPUBackend F) led :
  0 <= n <= 2 ^ 63 -> reachable (new_arc (new_cpu_backend bs n) ev) m led ->
  NoDup (keys (t1 m) ++ keys (t2 m) ++ keys (b1 m) ++ keys (b2 m)) /\
  (forall h, (exists s, arc_get h m = Some s /\ ref_cnt s = led h /\ 0 <= block_id s < n) \/ (arc_get h m = None /\ led h = 0)) /\
  forall c, admissible c m led ->
    exists m' stored, offload_step c m = Ok (m', stored) /\
      forall h, led h <> 0 -> ledger_step c stored led h <> 0 -> block_id <$> arc_get h m' = block_id <$> arc_get h m.
Proof.
  intros Hn Hr. assert (Hi0 := new_arc_inv (F:=F) (new_cpu_backend bs n) ev (new_cpu_holds bs n Hn)).
  destruct (reachable_ok _ m led Hi0 (fun _ => eq_refl) Hr) as (Hi & Hc & Hl). split; [|split].
  - destruct Hi as ((Hk & _) & Hg & Hnd & _). unfold arc_blocks, keys in Hk. rewrite fmap_app in Hk. rewrite app_assoc. apply NoDup_app.
    split; [done|]. split; [|done]. intros h Hh Hgh. apply Hg, dict_get_None in Hgh. apply Hgh. unfold arc_blocks, keys. by rewrite fmap_app.
  - intros h. rewrite arc_get_blocks. destruct (Hl h) as [(s & Es & E)%fmap_Some|?]; [left; exists s|by right].
    destruct (om_status_ok m h s Hi Es) as [_ Hid]. rewrite Hc in Hid. done.
  - intros c Ha. destruct (offload_step_ok c m led Hi Hl Ha) as (m' & st & E & _ & _ & Hl' & Hs). assert (Hp := stable_pinned c m led m' st Hl Hl' Hs). exists m', st. split; [done|].
    intros h. rewrite !arc_get_blocks. apply Hp.
Qed.

Lemma arc_touch_one_pending {B F} `{Backend B} `{PyFloat F} (m : ARC B F) k h s :
  dict_get h (t1 m) = Some s -> is_ready s = false ->
  arc_touch_one m k = Err KeyError \/ (k <> h /\ exists m', arc_touch_one m k = Ok m' /\ dict_get h (t1 m') = Some s).
Proof.
  assert (Hmove : forall V (d : list (bytes * V)), (exists d', dict_move_to_end k d = Ok d') \/ dict_move_to_end k d = Err KeyError).
  { intros V d. unfold dict_move_to_end, dict_pop. destruct (dict_get k d); cbn; eauto. }
  intros Hg Hs. unfold arc_touch_one. destruct (decide (k = h)) as [->|Hne].
  - rewrite Hg. unfold dict_pop at 1. rewrite Hg. cbn. rewrite Hs. cbn. unfold dict_move_to_end, dict_pop.
    rewrite dict_get_del, decide_True by done. by left.
  - destruct (dict_get k (t1 m)) as [s'|] eqn:E1.
    { assert (dict_pop k (t1 m) = Ok (s', dict_del k (t1 m))) as -> by (unfold dict_pop; by rewrite E1). cbn. destruct (is_ready s'); cbn.
      - right. split; [done|]. eexists. split; [reflexivity|]. cbn. rewrite dict_get_del, decide_False; congruence.
      - left. unfold dict_move_to_end, dict_pop. by rewrite dict_get_del, decide_True. }
    destruct (dict_get k (t2 m)); [|destruct (dict_get k (b1 m)); [|destruct (dict_get k (b2 m)); [|right; eauto]]].
    + destruct (Hmove _ (t2 m)) as [[d' ->]| ->]; [right; eauto|by left].
    + cbn zeta. cbn [b1 set_target]. destruct (Hmove _ (b1 m)) as [[d' ->]| ->]; [right; eauto|by left].
    + cbn zeta. cbn [b2 set_target]. destruct (Hmove _ (b2 m)) as [[d' ->]| ->]; [right; eauto|by left].
Qed.

(** A touch that names a block of the recent list whose store is pending raises
    [KeyError], whatever else it names: the block is popped before it is moved to the end. *)
Lemma arc_touch_pending_raises {B F} `{Backend B} `{PyFloat F} (m : ARC B F) hs h s :
  dict_get h (t1 m) = Some s -> is_ready s = false -> h ∈ hs -> arc_touch hs m = Err KeyError.
Proof.
  intros Hg Hs Hh. unfold arc_touch. rewrite <- elem_of_reverse in Hh. revert m Hg Hh. generalize (reverse hs) as l. clear hs.
  induction l as [|k l IH]; intros m Hg Hh; [by apply elem_of_nil in Hh|]. cbn.
  destruct (arc_touch_one_pending m k h s Hg Hs) as [-> |(Hne & m' & -> & Hg')]; [done|]. cbn. apply IH; [done|]. by apply elem_of_cons in Hh as [->|].
Qed.

Module ARCExamples.
Definition hash (i : Z) : bytes := [i].
Definition two : ARC CPUBackend Q := new_arc (new_cpu_backend 256 2) true.

(** Both blocks are stored, and the first is being loaded. *)
Definition one_loading : result (ARC CPUBackend Q) :=
  '(_, m) ← arc_prepare_store [hash 1; hash 2] two;
  m ← arc_complete_store [hash 1; hash 2] true m;
  let '(_, m) := arc_take_events m in
  '(_, m) ← arc_prepare_load [hash 1] m;
  Ok m.

(** A store that is refused has already evicted a block, and reports no event of it; the
    manager with least-recently-used eviction keeps its state ([lru_eviction_correct]). *)
Lemma arc_refused_store_evicts :
  exists m m', one_loading = Ok m /\ arc_lookup [hash 2] m = Some 1 /\
    arc_prepare_store [hash 3; hash 4] m = Ok (None, m') /\ arc_lookup [hash 2] m' = Some 0 /\ arc_events m' = Some [].
Proof. eexists _, _. split; [vm_compute; reflexivity|]. split; [reflexivity|]. split; [vm_compute; reflexivity|]. split; reflexivity. Qed.

(** A failed store that names a block stored before drops that block and never frees its
    space in the backend. *)
Definition failed_store : result (ARC CPUBackend Q) :=
  '(_, m) ← arc_prepare_store [hash 1] two;
  m ← arc_complete_store [hash 1] true m;
  '(_, m) ← arc_prepare_store [hash 1; hash 2] m;
  arc_complete_store [hash 1; hash 2] false m.
Lemma arc_failed_store_leaks :
  exists m, failed_store = Ok m /\ t1 m = [] /\ t2 m = [] /\ bk_num_free (arc_backend m) = 1 /\ num_blocks (arc_backend m) = 2.
Proof. eexists. split; [vm_compute; reflexivity|]. repeat split; reflexivity. Qed.

Definition pending : ARC CPUBackend Q :=
  match arc_prepare_store [hash 1; hash 2] two with Ok (_, m) => m | Err _ => two end.

Lemma pending_reachable : reachable two pending (ledger_step (PrepareStore [hash 1; hash 2]) [hash 1; hash 2] (fun _ => 0)).
Proof.
  eapply reach_step; [apply reach_init| |vm_compute; reflexivity].
  apply (bool_decide_eq_true_1 (NoDup [hash 1; hash 2])). vm_compute. reflexivity.
Qed.

Lemma arc_calls_safe_witness :
  exists m' st, offload_step (CompleteStore [hash 1; hash 2] false) pending = Ok (m', st).
Proof.
  destruct (arc_calls_safe 256 2 true pending (ledger_step (PrepareStore [hash 1; hash 2]) [hash 1; hash 2] (fun _ => 0))
    ltac:(lia) pending_reachable) as (_ & _ & Hc).
  destruct (Hc (CompleteStore [hash 1; hash 2] false)) as (m' & st & E & _); [|by exists m', st].
  split; [apply (bool_decide_eq_true_1 (NoDup [hash 1; hash 2])); vm_compute; reflexivity|].
  intros h [->|[->|[]%elem_of_nil]%elem_of_cons]%elem_of_cons; vm_compute; reflexivity.
Defined.

(** The adaptive part, as in [test_arc_manager_adaptive_target]: a touch of a ghost of the
    recent list raises its target size. *)
Example target_adapts :
  exists m, ('(_, m) ← arc_prepare_store [hash 1; hash 2] two; m ← arc_complete_store [hash 1; hash 2] true m;
             '(_, m) ← arc_prepare_store [hash 3] m; m ← arc_complete_store [hash 3] true m; arc_touch [hash 1] m) = Ok m /\
    keys (b1 m) = [hash 1] /\ (target_t1_size m == 1)%Q.
Proof. eexists. split; [vm_compute; reflexivity|]. split; reflexivity. Qed.
End ARCExamples.
