(* ===== verification/OffloadTransfer.v ===== *)
(** Transfers between host and device ([src/vllm/v1/kv_offload/worker/cpu_gpu.py]): the
    expansion of block ids, the mapping a transfer copies by, and the copy of
    [swap_blocks].  Streams and events are left out: the copies of a handler run in the
    order of their submission. *)
From S2P Require Import Prelude Dict Request Offload.
Local Open Scope Z_scope.

(** * The mapping *)

(** [out[a:a+len(vals)] = vals] of numpy: the slice is clipped to the array, and one value
    fits a slice of any length. *)
Definition assign_slice (out : list Z) (a : nat) (vals : list Z) : result (list Z) :=
  let k := Nat.min (length out - a) (length vals) in
  if (k =? length vals)%nat then Ok (take a out ++ vals ++ drop (a + k) out)
  else match vals with [_] => Ok out | _ => Err ValueError end.

Definition expand_one (block_size_factor skip_count : Z) (s : list Z * nat) (x : nat * Z) : result (list Z * nat) :=
  let '(output, output_idx) := s in
  let '(i, block_id) := x in
  let base_block_id := block_id * block_size_factor in
  let indices := if (i =? 0)%nat then py_range skip_count block_size_factor else py_range 0 block_size_factor in
  output ← assign_slice output output_idx ((fun j => base_block_id + j) <$> indices);
  Ok (output, (output_idx + length indices)%nat).

Definition expand_block_ids (block_ids : list Z) (block_size_factor : Z) (output : list Z) (skip_count : Z) : result (list Z) :=
  _ ← py_assert (skip_count <? block_size_factor);
  s ← foldM (expand_one block_size_factor skip_count) (imap pair block_ids) (output, 0%nat);
  Ok s.1.

(** [SingleDirectionOffloadingHandler], the part that decides what is copied. *)
Record handler := mkHandler { src_block_size_factor : Z; dst_block_size_factor : Z }.

Definition new_handler (src_factor dst_factor : Z) : handler :=
  let m := Z.min src_factor dst_factor in mkHandler (src_factor / m) (dst_factor / m).

(** The two handlers of [CpuGpuOffloadingHandlers]: GPU to CPU, CPU to GPU. *)
Definition cpu_gpu_handlers (gpu_block_size cpu_block_size kernel_block_size : Z) : result (handler * handler) :=
  _ ← py_assert (cpu_block_size mod gpu_block_size =? 0);
  _ ← py_assert (gpu_block_size mod kernel_block_size =? 0);
  let cpu_block_size_factor := cpu_block_size / kernel_block_size in
  let gpu_block_size_factor := gpu_block_size / kernel_block_size in
  Ok (new_handler gpu_block_size_factor cpu_block_size_factor, new_handler cpu_block_size_factor gpu_block_size_factor).

(** The array [src_to_dst]; [junk] is what [np.empty] leaves in it. *)
Definition src_to_dst (h : handler) (junk : Z) (src_blocks dst_blocks : list Z) : result (list (Z * Z)) :=
  let src_sub_block_count := py_len src_blocks * src_block_size_factor h in
  let dst_sub_block_count := py_len dst_blocks * dst_block_size_factor h in
  let src_sub_blocks_to_skip := (- py_len dst_blocks) mod src_block_size_factor h in
  _ ← py_assert (dst_sub_block_count =? src_sub_block_count - src_sub_blocks_to_skip);
  let column := replicate (Z.to_nat dst_sub_block_count) junk in
  src ← expand_block_ids src_blocks (src_block_size_factor h) column src_sub_blocks_to_skip;
  dst ← expand_block_ids dst_blocks (dst_block_size_factor h) column 0;
  Ok (zip src dst).

(** * The copy *)

Section Copy.
Context {A : Type}.

(** [swap_blocks] on one tensor, in units of the smaller block.  The source copies raw
    memory; here an index outside a tensor is an error, and the theorems show there is
    none. *)
Definition copy_one (src dst : list A) (p : Z * Z) : result (list A) :=
  v ← (if 0 <=? p.1 then of_option IndexError (src !! Z.to_nat p.1) else Err IndexError);
  if (0 <=? p.2) && (p.2 <? py_len dst) then Ok (<[Z.to_nat p.2 := v]> dst) else Err IndexError.
Definition swap_blocks (src dst : list A) (block_mapping : list (Z * Z)) : result (list A) :=
  foldM (copy_one src) block_mapping dst.

(** [transfer_async]: every tensor is copied by the same mapping. *)
Definition transfer_async (h : handler) (junk : Z) (src_spec dst_spec : LoadStoreSpec) (src_tensors dst_tensors : list (list A)) :
    result (list (list A)) :=
  mapping ← src_to_dst h junk (sp_block_ids src_spec) (sp_block_ids dst_spec);
  mapR (fun t => swap_blocks t.1 t.2 mapping) (zip src_tensors dst_tensors).
End Copy.

(** * What they compute *)

(** Block [i] is the [f] smaller blocks from [i * f]. *)
Definition sub_blocks (f : Z) (ids : list Z) : list Z := ids ≫= fun i => seqZ (i * f) f.

Lemma length_sub_blocks f ids : length (sub_blocks f ids) = (length ids * Z.to_nat f)%nat.
Proof. unfold sub_blocks. induction ids as [|i ids IH]; [done|]. rewrite bind_cons, length_app, length_seqZ, IH. done. Qed.

Lemma sub_blocks_cons f i ids : sub_blocks f (i :: ids) = seqZ (i * f) f ++ sub_blocks f ids.
Proof. done. Qed.

Lemma sub_blocks_one ids : sub_blocks 1 ids = ids.
Proof. induction ids as [|i ids IH]; [done|]. rewrite sub_blocks_cons, IH, Z.mul_1_r. done. Qed.

(** Concatenation of pieces of one length. *)
Lemma bind_lookup_uniform {X Y} (g : X -> list Y) (l : list X) n k :
  (0 < n)%nat -> (forall x, x ∈ l -> length (g x) = n) -> (l ≫= g) !! k = x ← l !! (k / n)%nat; g x !! (k mod n)%nat.
Proof.
  intros Hn. revert k. induction l as [|x l IH]; intros k Hl; [done|]. rewrite bind_cons.
  assert (Hx : length (g x) = n) by (apply Hl; left). destruct (decide (k < n)%nat) as [Hk|Hk].
  - rewrite lookup_app_l by lia. by rewrite Nat.div_small, Nat.mod_small by done.
  - rewrite lookup_app_r by lia. rewrite Hx, IH by (intros y Hy; apply Hl; by right).
    assert (Ek : k = ((k - n) + 1 * n)%nat) by lia.
    assert (Em : (k mod n = (k - n) mod n)%nat) by (rewrite Ek at 1; apply Nat.Div0.mod_add).
    assert (Ed : (k / n = S ((k - n) / n))%nat) by (rewrite Ek at 1; rewrite Nat.div_add by lia; lia).
    by rewrite Em, Ed.
Qed.

Lemma length_bind_uniform {X Y} (g : X -> list Y) (l : list X) n : (forall x, x ∈ l -> length (g x) = n) -> length (l ≫= g) = (length l * n)%nat.
Proof.
  induction l as [|x l IH]; intros Hl; [done|]. rewrite bind_cons, length_app, IH, (Hl x) by (set_solver || left). done.
Qed.

Lemma sub_blocks_lookup f ids k :
  0 < f -> sub_blocks f ids !! k = (fun i => i * f + Z.of_nat (k mod Z.to_nat f)) <$> ids !! (k / Z.to_nat f)%nat.
Proof.
  intros Hf. unfold sub_blocks. rewrite (bind_lookup_uniform _ _ (Z.to_nat f)) by (lia || (intros; by rewrite length_seqZ)).
  destruct (ids !! _) as [i|]; [|done]. cbn. assert (Hm : (k mod Z.to_nat f < Z.to_nat f)%nat) by (apply Nat.mod_upper_bound; lia).
  apply lookup_seqZ. lia.
Qed.

Lemma assign_slice_ok pre old vals post : length old = length vals -> assign_slice (pre ++ old ++ post) (length pre) vals = Ok (pre ++ vals ++ post).
Proof.
  intros Hl. unfold assign_slice. rewrite !length_app. replace (Nat.min _ _) with (length vals) by lia. rewrite Nat.eqb_refl.
  assert (drop (length pre + length vals) (pre ++ old ++ post) = post) as -> by (rewrite app_assoc; apply drop_app_length'; rewrite length_app; lia).
  by rewrite take_app_length.
Qed.

Lemma range_shift a f s : 0 <= s <= f -> (fun j => a * f + j) <$> py_range s f = drop (Z.to_nat s) (seqZ (a * f) f).
Proof.
  intros Hs. unfold py_range. apply list_eq. intros k. rewrite list_lookup_fmap, lookup_drop.
  destruct (decide (Z.of_nat k < f - s)) as [Hk|Hk].
  - rewrite !(proj2 (lookup_seqZ _ _ _ _)) by (split; [reflexivity|lia]). cbn. f_equal. lia.
  - rewrite !lookup_seqZ_ge by lia. done.
Qed.

Lemma expand_rest f skip k ids pre old post :
  0 < f -> (0 < k)%nat -> length old = length (sub_blocks f ids) ->
  foldM (expand_one f skip) (imap (fun i => pair (k + i)%nat) ids) (pre ++ old ++ post, length pre) =
  Ok (pre ++ sub_blocks f ids ++ post, length (pre ++ sub_blocks f ids)).
Proof.
  intros Hf. revert k pre old. induction ids as [|i ids IH]; intros k pre old Hk Hl.
  { apply nil_length_inv in Hl as ->. cbn. by rewrite app_nil_r. }
  rewrite length_sub_blocks in Hl. cbn [length] in Hl.
  rewrite <- (take_drop (Z.to_nat f) old), <- (app_assoc _ _ post). set (o1 := take _ old). set (o2 := drop _ old).
  assert (Hl1 : length o1 = Z.to_nat f) by (unfold o1; rewrite length_take; lia).
  assert (Hl2 : length o2 = length (sub_blocks f ids)) by (unfold o2; rewrite length_drop, length_sub_blocks; lia).
  cbn [imap foldM expand_one]. rewrite (proj2 (Nat.eqb_neq _ _)) by lia.
  assert (Er := range_shift i f 0 ltac:(lia)). change (drop (Z.to_nat 0) (seqZ (i * f) f)) with (seqZ (i * f) f) in Er. rewrite Er.
  rewrite assign_slice_ok by (rewrite length_seqZ; lia). cbn [mbind result_bind]. rewrite app_assoc.
  assert (Hlen : (length pre + length (py_range 0 f))%nat = length (pre ++ seqZ (i * f) f)) by (unfold py_range; rewrite length_app, !length_seqZ; lia).
  rewrite Hlen.
  rewrite (imap_ext _ (fun j => pair (S k + j)%nat)) by (intros; cbn; f_equal; lia).
  rewrite IH by (done || lia). rewrite sub_blocks_cons, <- !app_assoc. done.
Qed.

Lemma expand_block_ids_ok f skip ids out :
  0 <= skip < f -> length out = (length ids * Z.to_nat f - Z.to_nat skip)%nat ->
  expand_block_ids ids f out skip = Ok (drop (Z.to_nat skip) (sub_blocks f ids)).
Proof.
  intros Hs Hl. unfold expand_block_ids. rewrite (proj2 (Z.ltb_lt _ _)) by lia. cbn [py_assert mbind result_bind].
  destruct ids as [|i ids]; [apply nil_length_inv in Hl as ->; cbn; by rewrite drop_nil|].
  cbn [length] in Hl. rewrite <- (take_drop (Z.to_nat (f - skip)) out). set (o1 := take _ out). set (o2 := drop _ out).
  assert (Hl1 : length o1 = Z.to_nat (f - skip)) by (unfold o1; rewrite length_take; lia).
  assert (Hl2 : length o2 = length (sub_blocks f ids)) by (unfold o2; rewrite length_drop, length_sub_blocks; lia).
  cbn [imap foldM expand_one]. rewrite Nat.eqb_refl, range_shift by lia.
  assert (Hld : length (drop (Z.to_nat skip) (seqZ (i * f) f)) = Z.to_nat (f - skip)) by (rewrite length_drop, length_seqZ; lia).
  assert (Ea := assign_slice_ok [] o1 (drop (Z.to_nat skip) (seqZ (i * f) f)) o2 ltac:(lia)). cbn [app length] in Ea. rewrite Ea.
  cbn [mbind result_bind Nat.add]. assert (length (py_range skip f) = length (drop (Z.to_nat skip) (seqZ (i * f) f))) as -> by (unfold py_range; rewrite Hld, length_seqZ; done).
  rewrite (imap_ext _ (fun j => pair (1 + j)%nat)) by done. rewrite <- (app_nil_r o2).
  rewrite expand_rest by (done || lia). cbn [mbind result_bind fst]. rewrite app_nil_r, sub_blocks_cons, drop_app_le by (rewrite length_seqZ; lia). done.
Qed.

Lemma src_to_dst_ok h junk src dst :
  let skip := (- py_len dst) mod src_block_size_factor h in
  0 < src_block_size_factor h -> 0 < dst_block_size_factor h ->
  py_len dst * dst_block_size_factor h = py_len src * src_block_size_factor h - skip ->
  src_to_dst h junk src dst =
  Ok (zip (drop (Z.to_nat skip) (sub_blocks (src_block_size_factor h) src)) (sub_blocks (dst_block_size_factor h) dst)).
Proof.
  intros skip Hs Hd E. unfold src_to_dst. fold skip. rewrite (proj2 (Z.eqb_eq _ _)) by done. cbn [py_assert mbind result_bind].
  assert (Hskip : 0 <= skip < src_block_size_factor h) by (apply Z.mod_pos_bound; lia). unfold py_len in E |- *.
  rewrite !expand_block_ids_ok; [done|lia|rewrite length_replicate; lia|done|rewrite length_replicate; lia].
Qed.

(** The factors of the two handlers: one block of the device, [f] to a block of the host. *)
Lemma cpu_gpu_handlers_ok gpu k f :
  0 < k -> 0 < gpu -> gpu mod k = 0 -> 0 < f -> cpu_gpu_handlers gpu (gpu * f) k = Ok (mkHandler 1 f, mkHandler f 1).
Proof.
  intros Hk Hg Hm Hf. apply Z.mod_divide in Hm as [a ->]; [|lia]. assert (Ha : 0 < a) by nia.
  unfold cpu_gpu_handlers. rewrite (Z.mul_comm (a * k) f), Z.mod_mul by lia. rewrite Z.mod_mul by lia. cbn [Z.eqb py_assert mbind result_bind].
  rewrite Z.mul_assoc, !Z.div_mul by lia. unfold new_handler.
  rewrite Z.min_l, Z.min_r by nia. rewrite Z.div_same, Z.div_mul by lia. done.
Qed.

Section CopyFacts.
Context {A : Type}.
Implicit Types (src dst : list A).

Lemma copy_one_ok src dst i j v :
  0 <= i -> src !! Z.to_nat i = Some v -> 0 <= j < py_len dst -> copy_one src dst (i, j) = Ok (<[Z.to_nat j := v]> dst).
Proof.
  intros Hi Hv Hj. unfold copy_one. cbn [fst snd]. destruct Hj as [Hj Hl].
  by rewrite (proj2 (Z.leb_le 0 i) Hi), Hv, (proj2 (Z.leb_le 0 j) Hj), (proj2 (Z.ltb_lt _ _) Hl).
Qed.

(** A mapping with distinct targets in range moves every block it names and no other. *)
Lemma swap_blocks_ok src dst mapping :
  NoDup (mapping.*2) -> (forall i j, (i, j) ∈ mapping -> 0 <= i < py_len src /\ 0 <= j < py_len dst) ->
  exists dst', swap_blocks src dst mapping = Ok dst' /\ length dst' = length dst /\
    (forall i j, (i, j) ∈ mapping -> dst' !! Z.to_nat j = src !! Z.to_nat i) /\
    (forall k, Z.of_nat k ∉ mapping.*2 -> dst' !! k = dst !! k).
Proof.
  intros Hnd Hr.
  destruct (foldM_inv (copy_one src) (fun pre d => length d = length dst /\
    (forall i j, (i, j) ∈ pre -> d !! Z.to_nat j = src !! Z.to_nat i) /\ (forall k, Z.of_nat k ∉ pre.*2 -> d !! k = dst !! k)) mapping dst)
    as (d & E & Hd); [|intros pre [i j] post d -> (Hl & Hc & Ho)|by exists d].
  - split; [done|]. split; [by intros i j ?%elem_of_nil|done].
  - destruct (Hr i j) as [Hi Hj]; [set_solver|]. destruct (lookup_lt_is_Some_2 src (Z.to_nat i)) as [v Hv]; [unfold py_len in Hi; lia|].
    exists (<[Z.to_nat j := v]> d). split; [apply copy_one_ok; [lia|done|unfold py_len in *; rewrite Hl; lia]|].
    rewrite fmap_app, fmap_cons in Hnd. apply NoDup_app in Hnd as (_ & Hdis & _). split; [by rewrite length_insert|]. split.
    + intros i' j' [Hin|[= -> ->]%list_elem_of_singleton]%elem_of_app.
      * destruct (Hr i' j') as [_ Hj']; [set_solver|]. rewrite list_lookup_insert_ne; [by apply Hc|]. intros Eq. assert (j = j') as -> by lia.
        apply (Hdis j'); [by apply (list_elem_of_fmap_2 snd _ (i', j'))|left].
      * rewrite list_lookup_insert_eq; [done|]. unfold py_len in Hj. lia.
    + intros k Hk. rewrite fmap_app, not_elem_of_app in Hk. destruct Hk as [Hk1 Hk2]. rewrite list_lookup_insert_ne; [by apply Ho|].
      intros <-. apply Hk2. cbn. rewrite Z2Nat.id by lia. left.
Qed.
End CopyFacts.

(** * Whole transfers *)

Section Transfers.
Context {A : Type} (f : Z) (Hf : 0 < f).
Implicit Types (src dst : list A).

Lemma sub_blocks_elem ids j : j ∈ sub_blocks f ids <-> exists d b, d ∈ ids /\ 0 <= b < f /\ j = d * f + b.
Proof.
  unfold sub_blocks. rewrite list_elem_of_bind. split.
  - intros (d & Hj%elem_of_seqZ & Hd). exists d, (j - d * f). split; [done|]. lia.
  - intros (d & b & Hd & Hb & ->). exists d. split; [|done]. apply elem_of_seqZ. lia.
Qed.

Lemma NoDup_sub_blocks ids : NoDup ids -> NoDup (sub_blocks f ids).
Proof.
  induction ids as [|d ids IH]; [constructor|]. intros [Hd Hnd]%NoDup_cons. rewrite sub_blocks_cons. apply NoDup_app.
  split; [apply NoDup_seqZ|]. split; [|by apply IH]. intros j Hj%elem_of_seqZ (d' & b & Hd' & Hb & ->)%sub_blocks_elem.
  assert (d = d') by nia. congruence.
Qed.

Lemma elem_of_zip_lookup {X Y} (l : list X) (k : list Y) x y : (x, y) ∈ zip l k <-> exists i, l !! i = Some x /\ k !! i = Some y.
Proof.
  rewrite list_elem_of_lookup. split; intros [i Hi]; exists i; by apply lookup_zip_Some.
Qed.

Lemma concat_bind {X} (l : list (list X)) : concat l = l ≫= id.
Proof. induction l as [|p l IH]; [done|]. cbn. by rewrite IH. Qed.

(** Device to host: the [f] device blocks of each piece go to one host block. *)
Lemma store_transfer_ok (h : handler) junk (pieces : list (list Z)) (ids : list Z) src dst cap :
  h = mkHandler 1 f -> length pieces = length ids -> Forall (fun p => length p = Z.to_nat f) pieces ->
  NoDup ids -> Forall (fun d => 0 <= d < cap) ids -> Z.of_nat (length dst) = cap * f ->
  (forall p i, p ∈ pieces -> i ∈ p -> 0 <= i < py_len src) ->
  exists mapping dst', src_to_dst h junk (concat pieces) ids = Ok mapping /\ swap_blocks src dst mapping = Ok dst' /\
    length dst' = length dst /\
    (forall a p d b, pieces !! a = Some p -> ids !! a = Some d -> 0 <= b < f -> dst' !! Z.to_nat (d * f + b) = src !! Z.to_nat (p !!! Z.to_nat b)) /\
    (forall d b, d ∉ ids -> 0 <= d -> 0 <= b < f -> dst' !! Z.to_nat (d * f + b) = dst !! Z.to_nat (d * f + b)).
Proof.
  intros -> Hlen Hp Hnd Hr Hdst Hsrc. rewrite Forall_forall in Hp. rewrite Forall_forall in Hr.
  assert (Ec := concat_bind pieces).
  assert (Hl : length (concat pieces) = (length ids * Z.to_nat f)%nat) by (rewrite Ec, (length_bind_uniform _ _ (Z.to_nat f)) by done; by rewrite Hlen).
  rewrite src_to_dst_ok; cbn [src_block_size_factor dst_block_size_factor]; [|lia|lia|rewrite Z.mod_1_r; unfold py_len; rewrite Hl; nia].
  rewrite Z.mod_1_r, sub_blocks_one. cbn [Z.to_nat drop]. change (drop (Z.to_nat 0) ?l) with l.
  assert (Hmap : forall i j, (i, j) ∈ zip (concat pieces) (sub_blocks f ids) <->
    exists a p d b, pieces !! a = Some p /\ ids !! a = Some d /\ 0 <= b < f /\ p !! Z.to_nat b = Some i /\ j = d * f + b).
  { intros i j. rewrite elem_of_zip_lookup. rewrite Ec. split.
    - intros (k & Hi & Hj). rewrite (bind_lookup_uniform _ _ (Z.to_nat f)) in Hi by (done || lia). rewrite sub_blocks_lookup in Hj by done.
      apply bind_Some in Hi as (p & Hp' & Hi). apply fmap_Some in Hj as (d & Hd & ->).
      assert (Hm : (k mod Z.to_nat f < Z.to_nat f)%nat) by (apply Nat.mod_upper_bound; lia).
      exists (k / Z.to_nat f)%nat, p, d, (Z.of_nat (k mod Z.to_nat f)). rewrite Nat2Z.id. repeat split; [done|done|lia|lia|done].
    - intros (a & p & d & b & Hp' & Hd & Hb & Hi & ->). exists (a * Z.to_nat f + Z.to_nat b)%nat.
      rewrite (bind_lookup_uniform _ _ (Z.to_nat f)), sub_blocks_lookup by (done || lia).
      rewrite (Nat.add_comm (a * _)), Nat.div_add, Nat.Div0.mod_add, Nat.div_small, Nat.mod_small by lia. cbn. rewrite Hp', Hd. cbn.
      split; [done|]. f_equal. lia. }
  assert (Hfst : (zip (concat pieces) (sub_blocks f ids)).*2 = sub_blocks f ids) by (apply snd_zip; rewrite length_sub_blocks; lia).
  destruct (swap_blocks_ok src dst (zip (concat pieces) (sub_blocks f ids))) as (dst' & E & Hl' & Hc & Ho).
  - rewrite Hfst. by apply NoDup_sub_blocks.
  - intros i j (a & p & d & b & Hp' & Hd & Hb & Hi & ->)%Hmap. split; [eapply Hsrc; by eapply list_elem_of_lookup_2|].
    assert (0 <= d < cap) by (apply Hr; by eapply list_elem_of_lookup_2). unfold py_len. rewrite Hdst. nia.
  - eexists _, dst'. split; [reflexivity|]. split; [done|]. split; [done|]. split.
    + intros a p d b Hp' Hd Hb. apply Hc, Hmap. exists a, p, d, b. repeat split; try done; try lia.
      apply list_lookup_lookup_total_lt. rewrite Hp by (by eapply list_elem_of_lookup_2). lia.
    + intros d b Hd Hd0 Hb. apply Ho. rewrite Hfst, Z2Nat.id by nia. intros (d' & b' & Hd' & Hb' & E')%sub_blocks_elem.
      assert (d = d') by nia. congruence.
Qed.

(** Host to device: host blocks, without the first [skip] device blocks, go to device blocks. *)
Lemma load_transfer_ok (h : handler) junk (ids targets : list Z) src dst cap :
  let skip := (- py_len targets) mod f in
  h = mkHandler f 1 -> py_len targets = py_len ids * f - skip ->
  NoDup targets -> Forall (fun d => 0 <= d < py_len dst) targets -> Forall (fun d => 0 <= d < cap) ids -> Z.of_nat (length src) = cap * f ->
  exists mapping dst', src_to_dst h junk ids targets = Ok mapping /\ swap_blocks src dst mapping = Ok dst' /\ length dst' = length dst /\
    (forall k t d, targets !! k = Some t -> ids !! Z.to_nat ((skip + Z.of_nat k) / f) = Some d ->
       dst' !! Z.to_nat t = src !! Z.to_nat (d * f + (skip + Z.of_nat k) mod f)) /\
    (forall t, t ∉ targets -> 0 <= t -> dst' !! Z.to_nat t = dst !! Z.to_nat t).
Proof.
  intros skip -> Hlen Hnd Ht Hr Hsrc. rewrite Forall_forall in Ht. rewrite Forall_forall in Hr. assert (Hskip : 0 <= skip < f) by (apply Z.mod_pos_bound; lia).
  rewrite src_to_dst_ok; cbn [src_block_size_factor dst_block_size_factor]; fold skip; [|lia|lia|lia]. rewrite sub_blocks_one.
  set (from := drop (Z.to_nat skip) (sub_blocks f ids)).
  assert (Hfl : length from = length targets).
  { unfold from. rewrite length_drop, length_sub_blocks. unfold py_len in Hlen. nia. }
  assert (Hfrom : forall k, from !! k = (fun d => d * f + (skip + Z.of_nat k) mod f) <$> ids !! Z.to_nat ((skip + Z.of_nat k) / f)).
  { intros k. unfold from. rewrite lookup_drop, sub_blocks_lookup by done. assert (E0 : skip + Z.of_nat k = Z.of_nat (Z.to_nat skip + k)) by lia.
    assert (Ed : Z.of_nat (Z.to_nat skip + k) / f = Z.of_nat ((Z.to_nat skip + k) / Z.to_nat f)) by (rewrite Nat2Z.inj_div, Z2Nat.id; lia).
    assert (Em : Z.of_nat (Z.to_nat skip + k) mod f = Z.of_nat ((Z.to_nat skip + k) mod Z.to_nat f)) by (rewrite Nat2Z.inj_mod, (Z2Nat.id f); lia).
    by rewrite E0, Ed, Em, Nat2Z.id. }
  assert (Hfst : (zip from targets).*2 = targets) by (apply snd_zip; lia).
  destruct (swap_blocks_ok src dst (zip from targets)) as (dst' & E & Hl' & Hc & Ho).
  - by rewrite Hfst.
  - intros i j (k & Hi & Hj)%elem_of_zip_lookup. split; [|apply Ht; by eapply list_elem_of_lookup_2].
    rewrite Hfrom in Hi. apply fmap_Some in Hi as (d & Hd & ->). assert (0 <= d < cap) by (apply Hr; by eapply list_elem_of_lookup_2).
    assert (0 <= (skip + Z.of_nat k) mod f < f) by (apply Z.mod_pos_bound; lia). unfold py_len. rewrite Hsrc. nia.
  - eexists _, dst'. split; [reflexivity|]. split; [done|]. split; [done|]. split.
    + intros k t d Hk Hd. apply Hc, elem_of_zip_lookup. exists k. split; [|done]. rewrite Hfrom, Hd. done.
    + intros t Hnt H0. apply Ho. by rewrite Hfst, Z2Nat.id.
Qed.
End Transfers.
