(* ===== verification/Scheduler.v ===== *)
(** The scheduler: [src/vllm/v1/core/sched/scheduler.py], with the stop test of
    [sched/utils.py] and the data it sends to the workers ([sched/output.py]).

    The state is the store of requests, the waiting queue, the running list, the
    KV-cache manager and the encoder cache.  The two caches are used through their
    interfaces.  [schedule] picks the tokens of a step: running requests first,
    preempting others when the cache is full, then waiting ones; [update_from_output]
    appends the sampled tokens and takes back rejected drafts.  KV and encoder
    connectors, streaming sessions, event logging and statistics are left out:
    the model is the scheduler with [connector], [ec_connector] and
    [routed_experts_reader] unset and no resumable requests. *)
From S2P Require Import Prelude Dict Request BlockHash BlockPool SingleType KVManager EncoderCache EncoderSched RequestQueue.
Local Open Scope Z_scope.

(** The attribute writes of the scheduler. *)
Definition set_status (st : RequestStatus) (r : Request) : Request :=
  mkRequest (request_id r) st (max_tokens r) (prompt_token_ids r) (prompt_embeds r) (num_prompt_tokens r)
    (output_token_ids r) (all_token_ids r) (spec_token_ids r) (num_output_placeholders r) (num_computed_tokens r) (num_cached_tokens r)
    (num_preemptions r) (cache_salt r) (mm_features r) (lora_request r) (skip_reading_prefix_cache r) (block_hashes r).
Definition set_spec (ids : list Z) (r : Request) : Request :=
  mkRequest (request_id r) (status r) (max_tokens r) (prompt_token_ids r) (prompt_embeds r) (num_prompt_tokens r)
    (output_token_ids r) (all_token_ids r) ids (num_output_placeholders r) (num_computed_tokens r) (num_cached_tokens r)
    (num_preemptions r) (cache_salt r) (mm_features r) (lora_request r) (skip_reading_prefix_cache r) (block_hashes r).
Definition set_placeholders (n : Z) (r : Request) : Request :=
  mkRequest (request_id r) (status r) (max_tokens r) (prompt_token_ids r) (prompt_embeds r) (num_prompt_tokens r)
    (output_token_ids r) (all_token_ids r) (spec_token_ids r) n (num_computed_tokens r) (num_cached_tokens r)
    (num_preemptions r) (cache_salt r) (mm_features r) (lora_request r) (skip_reading_prefix_cache r) (block_hashes r).
Definition set_computed (n : Z) (r : Request) : Request :=
  mkRequest (request_id r) (status r) (max_tokens r) (prompt_token_ids r) (prompt_embeds r) (num_prompt_tokens r)
    (output_token_ids r) (all_token_ids r) (spec_token_ids r) (num_output_placeholders r) n (num_cached_tokens r)
    (num_preemptions r) (cache_salt r) (mm_features r) (lora_request r) (skip_reading_prefix_cache r) (block_hashes r).
Definition set_cached (n : Z) (r : Request) : Request :=
  mkRequest (request_id r) (status r) (max_tokens r) (prompt_token_ids r) (prompt_embeds r) (num_prompt_tokens r)
    (output_token_ids r) (all_token_ids r) (spec_token_ids r) (num_output_placeholders r) (num_computed_tokens r) n
    (num_preemptions r) (cache_salt r) (mm_features r) (lora_request r) (skip_reading_prefix_cache r) (block_hashes r).
Definition set_preemptions (n : Z) (r : Request) : Request :=
  mkRequest (request_id r) (status r) (max_tokens r) (prompt_token_ids r) (prompt_embeds r) (num_prompt_tokens r)
    (output_token_ids r) (all_token_ids r) (spec_token_ids r) (num_output_placeholders r) (num_computed_tokens r) (num_cached_tokens r)
    n (cache_salt r) (mm_features r) (lora_request r) (skip_reading_prefix_cache r) (block_hashes r).

(** * Requests as the scheduler sees them *)

(** The sampling parameters the stop test reads. *)
Record stop_params := mkStop {
  min_tokens : Z;
  ignore_eos : bool;
  stop_token_ids : list Z;
}.

(** A request object: the part shared with the caches, and the rest. *)
Record sreq := mkSreq {
  base : Request;
  ref_of : req_ref;
  (** [None] for a pooling request *)
  sampling_params : option stop_params;
  eos_token_id : option Z;
  stop_reason : option Z;
  is_prefill_chunk : bool;
}.

Definition with_base (f : Request -> Request) (r : sreq) : sreq :=
  mkSreq (f (base r)) (ref_of r) (sampling_params r) (eos_token_id r) (stop_reason r) (is_prefill_chunk r).
Definition with_stop_reason (t : Z) (r : sreq) : sreq :=
  mkSreq (base r) (ref_of r) (sampling_params r) (eos_token_id r) (Some t) (is_prefill_chunk r).
Definition with_prefill_chunk (b : bool) (r : sreq) : sreq :=
  mkSreq (base r) (ref_of r) (sampling_params r) (eos_token_id r) (stop_reason r) b.

(** [check_stop]. *)
Definition check_stop (max_model_len : Z) (r : sreq) : result (bool * sreq) :=
  sp ← of_option AssertionError (sampling_params r);
  if num_output_tokens (base r) <? min_tokens sp then Ok (false, r) else
  last_token_id ← py_index (output_token_ids (base r)) (-1);
  if negb (ignore_eos sp) && bool_decide (eos_token_id r = Some last_token_id) then
    Ok (true, with_base (set_status FINISHED_STOPPED) r)
  else if bool_decide (last_token_id ∈ stop_token_ids sp) then
    Ok (true, with_stop_reason last_token_id (with_base (set_status FINISHED_STOPPED) r))
  else if (max_model_len <=? num_tokens (base r)) || (max_tokens (base r) <=? num_output_tokens (base r)) then
    Ok (true, with_base (set_status FINISHED_LENGTH_CAPPED) r)
  else Ok (false, r).

(** [remove_all] of [sched/utils.py]. *)
Definition remove_all (lst items_to_remove : list req_ref) : list req_ref :=
  match items_to_remove with
  | [] => lst
  | [item] => default lst (list_remove item lst)
  | _ => filter (fun x => x ∉ items_to_remove) lst
  end.

(** * The interfaces of the two caches *)
Class KVCacheOps (K : Type) := {
  kv_get_computed_blocks : Request -> K -> result (KVCacheBlocks * Z * K);
  kv_allocate_slots : Request -> Z -> Z -> option KVCacheBlocks -> Z -> Z -> bool -> Z -> K -> result (option KVCacheBlocks * K);
  kv_free : Request -> K -> result K;
  kv_get_blocks : string -> K -> KVCacheBlocks;
  kv_block_ids : K -> bool -> KVCacheBlocks -> option (list (list Z));
  kv_common_prefix : string -> K -> result (list Z * K);
  kv_reset : K -> bool * K;
  kv_num_groups : K -> nat;
}.

#[export] Instance kv_manager_ops : KVCacheOps kv_manager := {|
  kv_get_computed_blocks := KVCacheManager.get_computed_blocks;
  kv_allocate_slots := KVCacheManager.allocate_slots;
  kv_free := KVCacheManager.free;
  kv_get_blocks := KVCacheManager.get_blocks;
  kv_block_ids := KVCacheManager.get_block_ids;
  kv_common_prefix := KVCacheManager.get_num_common_prefix_blocks;
  kv_reset := KVCacheManager.reset_prefix_cache;
  kv_num_groups := num_kv_cache_groups;
|}.

(** What the scheduler calls besides [EncoderCacheOps]. *)
Class EncoderCacheFree (E : Type) := {
  ec_free : Request -> E -> result E;
  ec_take_freed : E -> list (option string) * E;
  ec_reset : E -> E;
}.

#[export] Instance ecm_free_ops : EncoderCacheFree EncoderCacheManager := {|
  ec_free := fun r m => ecm_free r (get_cached_input_ids r m) m;
  ec_take_freed := get_freed_mm_hashes;
  ec_reset := ecm_reset;
|}.

#[export] Instance edm_free_ops : EncoderCacheFree EncDec.EncoderDecoderCacheManager := {|
  ec_free := EncDec.free;
  ec_take_freed := EncDec.get_freed_mm_hashes;
  ec_reset := EncDec.reset;
|}.

(** * State *)

(** The settings [__init__] reads from the configuration. *)
Record sched_config := mkCfg {
  policy : SchedulingPolicy;
  max_num_running_reqs : Z;
  max_num_scheduled_tokens : Z;
  cfg_max_model_len : Z;
  long_prefill_token_threshold : Z;
  enable_chunked_prefill : bool;
  num_lookahead_tokens : Z;
  cfg_use_eagle : bool;
  (** [None] without LoRA *)
  max_loras : option Z;
  encoder_budget : Z;
  encoder_settings : SchedSettings;
  num_encoder_max_input_tokens : Z;
  (** the block size when [need_mamba_block_aligned_split] *)
  mamba_split : option Z;
  use_pp : bool;
  use_v2_model_runner : bool;
  block_hasher : option hasher;
}.

Section Scheduler.
Context {K E : Type} `{KV : KVCacheOps K} `{EC : EncoderCacheOps E} `{EF : EncoderCacheFree E}.

Record scheduler := mkSched {
  requests : gmap string sreq;
  waiting : RequestQueue;
  running : list req_ref;
  finished_req_ids : gset string;
  prev_step_scheduled_req_ids : gset string;
  kv : K;
  enc : E;
}.

Definition set_requests (m : gmap string sreq) (s : scheduler) : scheduler :=
  mkSched m (waiting s) (running s) (finished_req_ids s) (prev_step_scheduled_req_ids s) (kv s) (enc s).
Definition set_waiting (q : RequestQueue) (s : scheduler) : scheduler :=
  mkSched (requests s) q (running s) (finished_req_ids s) (prev_step_scheduled_req_ids s) (kv s) (enc s).
Definition set_running (l : list req_ref) (s : scheduler) : scheduler :=
  mkSched (requests s) (waiting s) l (finished_req_ids s) (prev_step_scheduled_req_ids s) (kv s) (enc s).
Definition set_finished (l : gset string) (s : scheduler) : scheduler :=
  mkSched (requests s) (waiting s) (running s) l (prev_step_scheduled_req_ids s) (kv s) (enc s).
Definition set_prev (l : gset string) (s : scheduler) : scheduler :=
  mkSched (requests s) (waiting s) (running s) (finished_req_ids s) l (kv s) (enc s).
Definition set_kv (k : K) (s : scheduler) : scheduler :=
  mkSched (requests s) (waiting s) (running s) (finished_req_ids s) (prev_step_scheduled_req_ids s) k (enc s).
Definition set_enc (e : E) (s : scheduler) : scheduler :=
  mkSched (requests s) (waiting s) (running s) (finished_req_ids s) (prev_step_scheduled_req_ids s) (kv s) e.

(** Reading and writing the object behind a reference. *)
Definition get_req (rid : string) (s : scheduler) : result sreq := of_option KeyError (requests s !! rid).
Definition put_req (r : sreq) (s : scheduler) : scheduler :=
  set_requests (<[request_id (base r) := r]> (requests s)) s.

Context (cfg : sched_config).

(** ** Preemption *)

(** [_preempt_request]. *)
Definition preempt_request (r : sreq) (s : scheduler) : result scheduler :=
  _ ← py_assert (bool_decide (status (base r) = RUNNING));
  k ← kv_free (base r) (kv s);
  e ← ec_free (base r) (enc s);
  let r := with_base (fun b => set_preemptions (num_preemptions b + 1)
             (set_spec [] (set_computed 0 (set_status PREEMPTED b)))) r in
  q ← prepend_request (ref_of r) (waiting s);
  Ok (set_waiting q (put_req r (set_enc e (set_kv k s)))).

(** [max(self.running, key=lambda r: (r.priority, r.arrival_time))]: the first of
    the greatest. *)
Definition key_lt (a b : req_ref) : bool :=
  (priority a <? priority b) || ((priority a =? priority b) && (arrival_time a <? arrival_time b)).
Definition lowest_priority (l : list req_ref) : result req_ref :=
  match l with
  | [] => Err ValueError
  | r :: l => Ok (fold_left (fun best r => if key_lt best r then r else best) l r)
  end.

(** The local variables of [schedule]. *)
Record locals_ := mkLoc {
  scheduled_new : list req_ref;
  scheduled_resumed : list req_ref;
  scheduled_running : list req_ref;
  preempted : list req_ref;
  req_to_new_blocks : dict KVCacheBlocks;
  num_scheduled_tokens : dict Z;
  token_budget : Z;
  scheduled_encoder_inputs : dict (list Z);
  encoder_compute_budget : Z;
  scheduled_spec_decode_tokens : dict (list Z);
  req_index : nat;
}.

(** A preempted request that was scheduled in this step gives everything back. *)
Definition unschedule (r : sreq) (l : locals_) : result locals_ :=
  let id := request_id (base r) in
  running' ← of_option ValueError (list_remove (ref_of r) (scheduled_running l));
  '(n, nst) ← dict_pop id (num_scheduled_tokens l);
  '(_, blocks) ← dict_pop id (req_to_new_blocks l);
  restore ← match dict_get id (scheduled_encoder_inputs l) with
            | Some inputs => ns ← mapR (fun i => get_num_encoder_embeds i (base r)) inputs; Ok (sumZ ns)
            | None => Ok 0
            end;
  Ok (mkLoc (scheduled_new l) (scheduled_resumed l) running' (preempted l) blocks nst (token_budget l + n)
        (dict_del id (scheduled_encoder_inputs l)) (encoder_compute_budget l + restore)
        (dict_del id (scheduled_spec_decode_tokens l)) (req_index l - 1)).

Definition add_preempted (ref : req_ref) (l : locals_) : locals_ :=
  mkLoc (scheduled_new l) (scheduled_resumed l) (scheduled_running l) (preempted l ++ [ref]) (req_to_new_blocks l)
    (num_scheduled_tokens l) (token_budget l) (scheduled_encoder_inputs l) (encoder_compute_budget l)
    (scheduled_spec_decode_tokens l) (req_index l).

(** Choosing the victim. *)
Definition pick_victim (s : scheduler) (l : locals_) : result (req_ref * scheduler * locals_) :=
  match policy cfg with
  | PRIORITY =>
      ref ← lowest_priority (running s);
      rest ← of_option ValueError (list_remove ref (running s));
      let s := set_running rest s in
      if bool_decide (ref ∈ scheduled_running l) then
        r ← get_req (ref_id ref) s; l ← unschedule r l; Ok (ref, s, l)
      else Ok (ref, s, l)
  | FCFS =>
      match last (running s) with
      | None => Err IndexError
      | Some ref => Ok (ref, set_running (removelast (running s)) s, l)
      end
  end.

(** The [while True] loop: allocate, or preempt and try again. *)
Fixpoint allocate_or_preempt (fuel : nat) (ref : req_ref) (num_new_tokens : Z) (s : scheduler) (l : locals_) :
    result (option KVCacheBlocks * scheduler * locals_) :=
  match fuel with
  | O => Err Diverges
  | S fuel =>
      r ← get_req (ref_id ref) s;
      '(new_blocks, k) ← kv_allocate_slots (base r) num_new_tokens 0 None (num_lookahead_tokens cfg) 0 false 0 (kv s);
      let s := set_kv k s in
      match new_blocks with
      | Some b => Ok (Some b, s, l)
      | None =>
          '(victim, s, l) ← pick_victim s l;
          v ← get_req (ref_id victim) s;
          s ← preempt_request v s;
          let l := add_preempted victim l in
          if bool_decide (victim = ref) then Ok (None, s, l)
          else allocate_or_preempt fuel ref num_new_tokens s l
      end
  end.

(** [_mamba_block_aligned_split]. *)
Definition mamba_block_aligned_split (r : Request) (num_new_tokens num_new_local_computed_tokens : Z) : Z :=
  match mamba_split cfg with
  | None => num_new_tokens
  | Some block_size =>
      if num_output_tokens r =? 0 then
        let last_cache_position := num_prompt_tokens r - num_prompt_tokens r mod block_size in
        let last_cache_position := if cfg_use_eagle cfg then Z.max (last_cache_position - block_size) 0 else last_cache_position in
        let num_computed := num_computed_tokens r + num_new_local_computed_tokens in
        let after := num_computed + num_new_tokens in
        if after <? last_cache_position then num_new_tokens / block_size * block_size
        else if (num_computed <? last_cache_position) && (last_cache_position <? after)
        then last_cache_position - num_computed
        else num_new_tokens
      else num_new_tokens
  end.

(** The encoder inputs of a request in this step: the inputs and the budget left. *)
Definition plan_encoder (r : Request) (num_computed num_new budget : Z) (e : E) : result (EncoderSched.locals * E) :=
  if has_encoder_inputs r then
    try_schedule_encoder_inputs (encoder_settings cfg) r num_computed num_new budget (if cfg_use_eagle cfg then 1 else 0) e
  else Ok (EncoderSched.mkLocals num_new budget [] [] ∅ 0, e).

(** The encoder inputs scheduled in this step and the budget left. *)
Definition record_inputs (id : string) (plan : EncoderSched.locals) (l : locals_) : dict (list Z) * Z :=
  match EncoderSched.to_schedule plan with
  | [] => (scheduled_encoder_inputs l, encoder_compute_budget l)
  | ids => (dict_set id ids (scheduled_encoder_inputs l), EncoderSched.compute_budget plan)
  end.

(** ** Running requests *)

Definition next_index (l : locals_) : locals_ :=
  mkLoc (scheduled_new l) (scheduled_resumed l) (scheduled_running l) (preempted l) (req_to_new_blocks l)
    (num_scheduled_tokens l) (token_budget l) (scheduled_encoder_inputs l) (encoder_compute_budget l)
    (scheduled_spec_decode_tokens l) (S (req_index l)).

(** The tokens of a running request before encoder inputs are considered. *)
Definition running_tokens (r : Request) (budget : Z) : Z :=
  let n := num_tokens_with_spec r + num_output_placeholders r - num_computed_tokens r in
  let n := if (0 <? long_prefill_token_threshold cfg) && (long_prefill_token_threshold cfg <? n)
           then long_prefill_token_threshold cfg else n in
  Z.min (Z.min n budget) (cfg_max_model_len cfg - 1 - num_computed_tokens r).

(** The draft tokens that fit in the scheduled tokens. *)
Definition scheduled_drafts (r : Request) (num_new : Z) : option (list Z) :=
  match spec_token_ids r with
  | [] => None
  | spec =>
      let k := num_new + num_computed_tokens r - num_tokens r - num_output_placeholders r in
      if 0 <? k then Some (if k <? py_len spec then py_slice spec 0 k else spec) else None
  end.

(** The bookkeeping once a running request has its blocks. *)
Definition schedule_running (ref : req_ref) (blocks : KVCacheBlocks) (plan : EncoderSched.locals) (s : scheduler) (l : locals_) :
    result (scheduler * locals_) :=
  r ← get_req (ref_id ref) s;
  let id := ref_id ref in
  let num_new := EncoderSched.num_new_tokens plan in
  let spec := match scheduled_drafts (base r) num_new with
              | Some ids => dict_set id ids (scheduled_spec_decode_tokens l)
              | None => scheduled_spec_decode_tokens l
              end in
  let s := put_req (with_base (set_spec []) r) s in
  e ← allocate_inputs (base r) plan (enc s);
  let s := set_enc e s in
  let '(inputs, budget) := record_inputs id plan l in
  Ok (s, mkLoc (scheduled_new l) (scheduled_resumed l) (scheduled_running l ++ [ref]) (preempted l)
           (dict_set id blocks (req_to_new_blocks l)) (dict_set id num_new (num_scheduled_tokens l))
           (token_budget l - num_new) inputs budget spec (S (req_index l))).

(** The [while] loop over the running requests. *)
Fixpoint running_loop (fuel : nat) (s : scheduler) (l : locals_) : result (scheduler * locals_) :=
  match running s !! req_index l with
  | None => Ok (s, l)
  | Some ref =>
      if token_budget l <=? 0 then Ok (s, l) else
      match fuel with
      | O => Err Diverges
      | S fuel =>
          r ← get_req (ref_id ref) s;
          let b := base r in
          if (0 <? num_output_placeholders b)
             && (num_prompt_tokens b + max_tokens b <=? num_computed_tokens b + 2 - num_output_placeholders b)
          then running_loop fuel s (next_index l) else
          '(plan, e) ← plan_encoder b (num_computed_tokens b) (running_tokens b (token_budget l)) (encoder_compute_budget l) (enc s);
          let s := set_enc e s in
          let num_new := mamba_block_aligned_split b (EncoderSched.num_new_tokens plan) 0 in
          if num_new =? 0 then running_loop fuel s (next_index l) else
          '(blocks, s, l) ← allocate_or_preempt (S (length (running s))) ref num_new s l;
          match blocks with
          | None => Ok (s, l)
          | Some blocks =>
              '(s, l) ← schedule_running ref blocks (with_new_tokens num_new plan) s l;
              running_loop fuel s l
          end
      end
  end.

(** ** Waiting requests *)

(** The LoRA adapters in use. *)
Definition lora_id (r : Request) : option Z := lora_int_id <$> lora_request r.
Definition running_loras (s : scheduler) (l : locals_) : result (gset Z) :=
  match max_loras cfg with
  | None => Ok ∅
  | Some m =>
      ids ← mapR (fun ref => r ← get_req (ref_id ref) s; Ok (lora_id (base r))) (scheduled_running l);
      let loras : gset Z := list_to_set (filter (fun i => 0 < i) (omap id ids)) in
      _ ← py_assert (Z.of_nat (size loras) <=? m);
      Ok loras
  end.

Definition too_many_loras (r : Request) (loras : gset Z) : bool :=
  match max_loras cfg, lora_id r with
  | Some m, Some i => (Z.of_nat (size loras) =? m) && negb (bool_decide (i ∈ loras))
  | _, _ => false
  end.

(** [grammar_ready]: the compiled grammars of structured-output requests. *)
Context (grammar_ready : string -> bool).

(** Why the head of the queue is passed over, after its status has been updated. *)
Definition admit_head (r : sreq) (loras : gset Z) : result (bool * sreq) :=
  match status (base r) with
  | WAITING_FOR_REMOTE_KVS => Err AssertionError
  | WAITING_FOR_FSM =>
      if grammar_ready (request_id (base r)) then
        let r := with_base (set_status WAITING) r in Ok (negb (too_many_loras (base r) loras), r)
      else Ok (false, r)
  | WAITING_FOR_STREAMING_REQ => Ok (false, r)
  | _ => Ok (negb (too_many_loras (base r) loras), r)
  end.

(** The tokens of a waiting request; [None] is the [break] without chunked
    prefill. *)
Definition waiting_tokens (r : Request) (num_computed budget : Z) : result (option Z) :=
  let n := num_tokens r - num_computed in
  let n := if (0 <? long_prefill_token_threshold cfg) && (long_prefill_token_threshold cfg <? n)
           then long_prefill_token_threshold cfg else n in
  if negb (enable_chunked_prefill cfg) && (budget <? n) then Ok None else
  let n := Z.min n budget in
  _ ← py_assert (0 <? n);
  Ok (Some n).

(** Moving the head of the queue to the running list. *)
Definition start_request (r : sreq) (num_computed : Z) (plan : EncoderSched.locals) (loras : gset Z) (s : scheduler) (l : locals_) :
    result (scheduler * locals_ * gset Z) :=
  let id := request_id (base r) in
  '(ref, q) ← pop_request (waiting s);
  let s := set_running (running s ++ [ref]) (set_waiting q s) in
  '(new, resumed) ← match status (base r) with
                    | WAITING => Ok (scheduled_new l ++ [ref], scheduled_resumed l)
                    | PREEMPTED => Ok (scheduled_new l, scheduled_resumed l ++ [ref])
                    | _ => Err RuntimeError
                    end;
  let loras := match max_loras cfg, lora_id (base r) with Some _, Some i => {[i]} ∪ loras | _, _ => loras end in
  let num_new := EncoderSched.num_new_tokens plan in
  let r := with_base (fun b => set_cached (if num_cached_tokens b <? 0 then num_computed else num_cached_tokens b)
             (set_computed num_computed (set_status RUNNING b))) r in
  let s := put_req r s in
  e ← allocate_inputs (base r) plan (enc s);
  let '(inputs, budget) := record_inputs id plan l in
  Ok (set_enc e s,
      mkLoc new resumed (scheduled_running l) (preempted l) (dict_set id (kv_get_blocks id (kv s)) (req_to_new_blocks l))
        (dict_set id num_new (num_scheduled_tokens l)) (token_budget l - num_new) inputs budget
        (scheduled_spec_decode_tokens l) (req_index l),
      loras).

(** One turn of the loop over the waiting requests, for the admitted head:
    [None] is [break]. *)
Definition schedule_waiting (r : sreq) (loras : gset Z) (s : scheduler) (l : locals_) :
    result (option (scheduler * locals_ * gset Z) * scheduler) :=
  let b := base r in
  '(blocks, num_local, num_computed, k) ←
    (if num_computed_tokens b =? 0 then
       '(blocks, n, k) ← kv_get_computed_blocks b (kv s); Ok (blocks, n, n, k)
     else Ok (EmptyBlocks, 0, num_computed_tokens b, kv s));
  let s := set_kv k s in
  n ← waiting_tokens b num_computed (token_budget l);
  match n with
  | None => Ok (None, s)
  | Some n =>
      '(plan, e) ← plan_encoder b num_computed n (encoder_compute_budget l) (enc s);
      let s := set_enc e s in
      if has_encoder_inputs b && (EncoderSched.num_new_tokens plan =? 0) then Ok (None, s) else
      let n := mamba_block_aligned_split b (EncoderSched.num_new_tokens plan) num_local in
      if match mamba_split cfg with Some _ => n =? 0 | None => false end then Ok (None, s) else
      let lookahead := if num_computed_tokens b =? 0 then 0 else num_lookahead_tokens cfg in
      let enc_tokens := if is_encoder_decoder (encoder_settings cfg) && has_encoder_inputs b
                        then num_encoder_max_input_tokens cfg else 0 in
      '(new_blocks, k) ← kv_allocate_slots b n num_local (Some blocks) lookahead 0 false enc_tokens (kv s);
      let s := set_kv k s in
      match new_blocks with
      | None =>
          e ← (if has_encoder_inputs b then ec_free b (enc s) else Ok (enc s));
          Ok (None, set_enc e s)
      | Some _ =>
          res ← start_request r num_computed (with_new_tokens n plan) loras s l;
          Ok (Some res, s)
      end
  end.

(** The [while] loop over the waiting queue, with the skipped requests. *)
Fixpoint waiting_loop (fuel : nat) (skipped : RequestQueue) (loras : gset Z) (s : scheduler) (l : locals_) :
    result (RequestQueue * scheduler * locals_) :=
  if (queue_len (waiting s) =? 0) || (token_budget l <=? 0) then Ok (skipped, s, l) else
  if py_len (running s) =? max_num_running_reqs cfg then Ok (skipped, s, l) else
  match fuel with
  | O => Err Diverges
  | S fuel =>
      ref ← peek_request (waiting s);
      r ← get_req (ref_id ref) s;
      '(admitted, r) ← admit_head r loras;
      let s := put_req r s in
      if negb admitted then
        '(_, q) ← pop_request (waiting s);
        skipped ← prepend_request ref skipped;
        waiting_loop fuel skipped loras (set_waiting q s) l
      else
        '(res, s) ← schedule_waiting r loras s l;
        match res with
        | None => Ok (skipped, s, l)
        | Some (s, l, loras) => waiting_loop fuel skipped loras s l
        end
  end.

(** ** The step *)

Record CachedRequestData := mkCached {
  cd_req_ids : list string;
  cd_resumed_req_ids : list string;
  cd_new_token_ids : list (list Z);
  cd_all_token_ids : dict (list Z);
  cd_new_block_ids : list (option (list (list Z)));
  cd_num_computed_tokens : list Z;
  cd_num_output_tokens : list Z;
}.

Record NewRequestData := mkNew {
  nd_req_id : string;
  nd_prompt_token_ids : option (list Z);
  nd_mm_features : list MultiModalFeatureSpec;
  nd_block_ids : list (list Z);
  nd_num_computed_tokens : Z;
  nd_lora_request : option LoRARequest;
  nd_prefill_token_ids : option (list Z);
}.

Record SchedulerOutput := mkOutput {
  so_new_reqs : list NewRequestData;
  so_cached_reqs : CachedRequestData;
  so_num_scheduled_tokens : dict Z;
  so_total : Z;
  so_spec_decode_tokens : dict (list Z);
  so_encoder_inputs : dict (list Z);
  so_common_prefix_blocks : list Z;
  so_preempted : list string;
  so_finished : gset string;
  so_freed_hashes : list (option string);
  so_num_invalid : option (dict Z);
}.

(** [_make_cached_request_data], one request. *)
Definition add_cached (resumed : bool) (s : scheduler) (l : locals_) (d : CachedRequestData) (ref : req_ref) : result CachedRequestData :=
  let id := ref_id ref in
  r ← get_req id s;
  let b := base r in
  new_tokens ← (if use_pp cfg then
                  n ← of_option KeyError (dict_get id (num_scheduled_tokens l));
                  let n := n - match dict_get id (scheduled_spec_decode_tokens l) with Some t => py_len t | None => 0 end in
                  Ok (cd_new_token_ids d ++ [py_slice (all_token_ids b) (num_computed_tokens b) (num_computed_tokens b + n)])
                else Ok (cd_new_token_ids d));
  let in_prev := bool_decide (id ∈ prev_step_scheduled_req_ids s) in
  _ ← (if resumed then py_assert (negb in_prev) else Ok tt);
  blocks ← of_option KeyError (dict_get id (req_to_new_blocks l));
  Ok (mkCached (cd_req_ids d ++ [id]) (if resumed then cd_resumed_req_ids d ++ [id] else cd_resumed_req_ids d) new_tokens
        (if in_prev then cd_all_token_ids d else dict_set id (all_token_ids b) (cd_all_token_ids d))
        (cd_new_block_ids d ++ [kv_block_ids (kv s) true blocks])
        (cd_num_computed_tokens d ++ [num_computed_tokens b])
        (cd_num_output_tokens d ++ [num_output_tokens b + num_output_placeholders b])).

Definition make_cached_request_data (running_reqs resumed_reqs : list req_ref) (s : scheduler) (l : locals_) : result CachedRequestData :=
  d ← foldM (add_cached false s l) running_reqs (mkCached [] [] [] [] [] [] []);
  foldM (add_cached true s l) resumed_reqs d.

(** [NewRequestData.from_request]. *)
Definition new_request_data (s : scheduler) (l : locals_) (ref : req_ref) : result NewRequestData :=
  r ← get_req (ref_id ref) s;
  blocks ← of_option KeyError (dict_get (ref_id ref) (req_to_new_blocks l));
  let b := base r in
  Ok (mkNew (request_id b) (prompt_token_ids b) (mm_features b) (default [] (kv_block_ids (kv s) false blocks)) (num_computed_tokens b)
        (lora_request b) (if use_v2_model_runner cfg then Some (all_token_ids b) else None)).

(** [_update_after_schedule]. *)
Definition advance (s : scheduler) (x : string * Z) : result scheduler :=
  let '(id, n) := x in
  r ← get_req id s;
  let r := with_base (fun b => set_computed (num_computed_tokens b + n) b) r in
  let b := base r in
  let r := with_prefill_chunk (num_computed_tokens b <? num_tokens b + num_output_placeholders b) r in
  let s := put_req r s in
  if has_encoder_inputs b then e ← free_encoder_inputs (encoder_settings cfg) b (enc s); Ok (set_enc e s) else Ok s.

Definition update_after_schedule (num_scheduled : dict Z) (s : scheduler) : result scheduler :=
  s ← foldM advance num_scheduled s; Ok (set_finished ∅ s).

(** [schedule]. *)
Definition initial_locals : locals_ :=
  mkLoc [] [] [] [] [] [] (max_num_scheduled_tokens cfg) [] (encoder_budget cfg) [] 0.

Definition schedule (s : scheduler) : result (SchedulerOutput * scheduler) :=
  '(s, l) ← running_loop (S (length (running s))) s initial_locals;
  loras ← running_loras s l;
  '(skipped, s, l) ← (match preempted l with
                      | [] => waiting_loop (S (Z.to_nat (queue_len (waiting s)))) (create_request_queue (policy cfg)) loras s l
                      | _ => Ok (create_request_queue (policy cfg), s, l)
                      end);
  q ← (if queue_len skipped =? 0 then Ok (waiting s) else prepend_requests skipped (waiting s));
  let s := set_waiting q s in
  let total := sumZ ((num_scheduled_tokens l).*2) in
  _ ← py_assert (total <=? max_num_scheduled_tokens cfg);
  _ ← py_assert (0 <=? token_budget l);
  _ ← py_assert (py_len (running s) <=? max_num_running_reqs cfg);
  _ ← py_assert (py_len (scheduled_new l) + py_len (scheduled_resumed l) + py_len (scheduled_running l) <=? py_len (running s));
  '(common, k) ← match running s with
                 | [] => Ok (replicate (kv_num_groups (kv s)) 0, kv s)
                 | ref :: _ => kv_common_prefix (ref_id ref) (kv s)
                 end;
  let s := set_kv k s in
  let '(new_refs, resumed_refs) := if use_v2_model_runner cfg then (scheduled_new l ++ scheduled_resumed l, [])
                                   else (scheduled_new l, scheduled_resumed l) in
  new_data ← mapR (new_request_data s l) new_refs;
  cached_data ← make_cached_request_data (scheduled_running l) resumed_refs s l;
  let s := set_prev (list_to_set (keys (num_scheduled_tokens l))) s in
  let '(freed, e) := ec_take_freed (enc s) in
  let s := set_enc e s in
  let out := mkOutput new_data cached_data (num_scheduled_tokens l) total (scheduled_spec_decode_tokens l)
               (scheduled_encoder_inputs l) common (ref_id <$> preempted l) (finished_req_ids s) freed None in
  s ← update_after_schedule (num_scheduled_tokens l) s;
  Ok (out, s).
(** ** After the model ran *)

(** The part of [ModelRunnerOutput] that is read; a pooling request with an
    output has [true]. *)
Record ModelRunnerOutput := mkRunner {
  req_id_to_index : dict nat;
  sampled_token_ids : list (list Z);
  pooler_output : option (list bool);
}.

(** [EngineCoreOutput]. *)
Record EngineCoreOutput := mkCoreOutput {
  eo_request_id : string;
  eo_new_token_ids : list Z;
  eo_finish_reason : option FinishReason;
  eo_stop_reason : option Z;
  eo_num_cached_tokens : Z;
}.

(** [_update_request_with_output]: the tokens kept, and whether the request
    stopped. *)
Fixpoint update_request_with_output (r : sreq) (new_token_ids : list Z) : result (list Z * bool * sreq) :=
  match new_token_ids with
  | [] => Ok ([], false, r)
  | t :: ts =>
      b ← append_output_token_ids (block_hasher cfg) [t] (base r);
      '(stopped, r) ← check_stop (cfg_max_model_len cfg) (with_base (fun _ => b) r);
      if stopped : bool then Ok ([t], true, r) else
      '(rest, stopped, r) ← update_request_with_output r ts; Ok (t :: rest, stopped, r)
  end.

(** [_free_request] and [_free_blocks], without a connector. *)
Definition free_request (r : sreq) (s : scheduler) : result scheduler :=
  _ ← py_assert (status_is_finished (status (base r)));
  e ← ec_free (base r) (enc s);
  let s := set_finished ({[request_id (base r)]} ∪ finished_req_ids s) (set_enc e s) in
  k ← kv_free (base r) (kv s);
  Ok (set_requests (delete (request_id (base r)) (requests s)) (set_kv k s)).

(** The rejected draft tokens of the step are taken back. *)
Definition take_back_rejected (scheduled_spec generated : list Z) (b : Request) : Request :=
  match scheduled_spec, generated with
  | [], _ | _, [] => b
  | _, _ =>
      let num_rejected := py_len scheduled_spec - (py_len generated - 1) in
      let b := if 0 <? num_computed_tokens b then set_computed (num_computed_tokens b - num_rejected) b else b in
      if 0 <? num_output_placeholders b then set_placeholders (num_output_placeholders b - num_rejected) b else b
  end.

(** What [update_from_output] accumulates over the scheduled requests. *)
Record outcome := mkOutcome {
  oc_sched : scheduler;
  stopped_running_reqs : list req_ref;
  stopped_preempted_reqs : list req_ref;
  oc_outputs : list EngineCoreOutput;
}.

(** The entries of the model output at a request's index. *)
Definition generated_at (mo : ModelRunnerOutput) (req_index : nat) : result (list Z) :=
  match sampled_token_ids mo with [] => Ok [] | l => of_option IndexError (l !! req_index) end.
Definition pooled_at (mo : ModelRunnerOutput) (req_index : nat) : result bool :=
  match pooler_output mo with None | Some [] => Ok false | Some l => of_option IndexError (l !! req_index) end.

(** The tokens a request keeps, and whether it stops: a pooling request stops with
    its output. *)
Definition take_output (generated : list Z) (pooled : bool) (r : sreq) : result (list Z * bool * sreq) :=
  match generated with
  | [] => if match sampling_params r with None => true | Some _ => false end && pooled
          then Ok ([], true, with_base (set_status FINISHED_STOPPED) r) else Ok ([], false, r)
  | _ => update_request_with_output r generated
  end.

(** The body of the loop for one scheduled request. *)
Definition process_request (out : SchedulerOutput) (mo : ModelRunnerOutput) (o : outcome) (x : string * Z) : result outcome :=
  let '(id, n) := x in
  let s := oc_sched o in
  _ ← py_assert (0 <? n);
  match requests s !! id with
  | None => Ok o
  | Some r =>
      if status_is_finished (status (base r)) then Ok o else
      req_index ← of_option KeyError (dict_get id (req_id_to_index mo));
      generated ← generated_at mo req_index;
      let r := with_base (take_back_rejected (default [] (dict_get id (so_spec_decode_tokens out))) generated) r in
      pooled ← pooled_at mo req_index;
      let status_before_stop := status (base r) in
      '(tokens, stopped, r) ← take_output generated pooled r;
      let s := put_req r s in
      s ← (if stopped : bool then free_request r s else Ok s);
      let outputs := if stopped || pooled || negb (bool_decide (tokens = []))
        then oc_outputs o ++ [mkCoreOutput id tokens (if stopped then get_finished_reason (status (base r)) else None)
                                (stop_reason r) (num_cached_tokens (base r))]
        else oc_outputs o in
      Ok (if stopped then
            if bool_decide (status_before_stop = RUNNING)
            then mkOutcome s (stopped_running_reqs o ++ [ref_of r]) (stopped_preempted_reqs o) outputs
            else mkOutcome s (stopped_running_reqs o) (stopped_preempted_reqs o ++ [ref_of r]) outputs
          else mkOutcome s (stopped_running_reqs o) (stopped_preempted_reqs o) outputs)
  end.

(** [update_from_output]. *)
Definition update_from_output (out : SchedulerOutput) (mo : ModelRunnerOutput) (s : scheduler) :
    result (list EngineCoreOutput * scheduler) :=
  o ← foldM (process_request out mo) (so_num_scheduled_tokens out) (mkOutcome s [] [] []);
  let s := oc_sched o in
  let s := set_running (remove_all (running s) (stopped_running_reqs o)) s in
  q ← (match stopped_preempted_reqs o with [] => Ok (waiting s) | rs => remove_requests rs (waiting s) end);
  Ok (oc_outputs o, set_waiting q s).

(** [update_draft_token_ids]; [validate] is the grammar's filter, for the
    requests whose grammar advances. *)
Definition set_drafts (validate : string -> option (list Z -> list Z)) (s : scheduler) (x : string * list Z) : scheduler :=
  let '(id, ids) := x in
  match requests s !! id with
  | None => s
  | Some r =>
      if status_is_finished (status (base r)) then s
      else if is_prefill_chunk r then put_req (with_base (set_spec []) r) s
      else put_req (with_base (set_spec (match validate id with Some f => f ids | None => ids end)) r) s
  end.
Definition update_draft_token_ids (validate : string -> option (list Z -> list Z)) (drafts : dict (list Z)) (s : scheduler) : scheduler :=
  fold_left (set_drafts validate) drafts s.

(** [update_draft_token_ids_in_output]: the draft tokens take the places that were
    scheduled for them, padded with -1. *)
Definition fill_drafts (validate : string -> option (list Z -> list Z)) (s : scheduler) (acc : dict (list Z) * dict Z)
    (x : string * list Z) : dict (list Z) * dict Z :=
  let '(sched_spec_tokens, num_invalid_spec_tokens) := acc in
  let '(id, ids) := x in
  match requests s !! id with
  | None => acc
  | Some r =>
      if status_is_finished (status (base r)) then acc else
      match dict_get id sched_spec_tokens with
      | None | Some [] => acc
      | Some placeholders =>
          let orig_num_spec_tokens := py_len placeholders in
          let ids := take (length placeholders) ids in
          let ids := match validate id with Some f => f ids | None => ids end in
          let num_invalid_tokens := orig_num_spec_tokens - py_len ids in
          if num_invalid_tokens =? 0 then (dict_set id ids sched_spec_tokens, num_invalid_spec_tokens)
          else (dict_set id (ids ++ replicate (Z.to_nat num_invalid_tokens) (-1)) sched_spec_tokens,
                dict_set id num_invalid_tokens num_invalid_spec_tokens)
      end
  end.
Definition update_draft_token_ids_in_output (validate : string -> option (list Z -> list Z)) (drafts : dict (list Z))
    (out : SchedulerOutput) (s : scheduler) : SchedulerOutput :=
  let '(spec, invalid) := fold_left (fill_drafts validate s) drafts (so_spec_decode_tokens out, []) in
  mkOutput (so_new_reqs out) (so_cached_reqs out) (so_num_scheduled_tokens out) (so_total out) spec (so_encoder_inputs out)
    (so_common_prefix_blocks out) (so_preempted out) (so_finished out) (so_freed_hashes out) (Some invalid).

(** ** Requests coming and going *)

(** [add_request]; only a resumable request may be added twice. *)
Definition add_request (r : sreq) (s : scheduler) : result scheduler :=
  match requests s !! request_id (base r) with
  | Some _ => Err AssertionError
  | None => q ← RequestQueue.add_request (ref_of r) (waiting s); Ok (put_req r (set_waiting q s))
  end.

(** [finish_requests]; [ids] is the set of ids in the order it is iterated. *)
Definition unfinished (s : scheduler) (ids : list string) : list sreq :=
  filter (fun r => status_is_finished (status (base r)) = false) (omap (fun id => requests s !! id) ids).
Definition finish_one (finished_status : RequestStatus) (s : scheduler) (r : sreq) : result scheduler :=
  let r := with_base (set_status finished_status) r in
  free_request r (put_req r s).
Definition finish_requests (ids : list string) (finished_status : RequestStatus) (s : scheduler) : result scheduler :=
  _ ← py_assert (status_is_finished finished_status);
  let valid := unfinished s ids in
  let from_running := ref_of <$> filter (fun r => status (base r) = RUNNING) valid in
  let from_waiting := ref_of <$> filter (fun r => status (base r) <> RUNNING) valid in
  let s := set_running (remove_all (running s) from_running) s in
  q ← (match from_waiting with [] => Ok (waiting s) | rs => remove_requests rs (waiting s) end);
  foldM (finish_one finished_status) valid (set_waiting q s).

(** [reset_prefix_cache], without a connector. *)
Definition preempt_for_reset (s : scheduler) (ref : req_ref) : result scheduler :=
  r ← get_req (ref_id ref) s;
  s ← preempt_request r (set_running (removelast (running s)) s);
  r ← get_req (ref_id ref) s;
  Ok (put_req (with_base (set_placeholders 0) r) s).
Definition reset_prefix_cache (reset_running_requests : bool) (s : scheduler) : result (bool * scheduler) :=
  s ← (if reset_running_requests then
         s ← foldM preempt_for_reset (reverse (running s)) s; Ok (set_prev ∅ s)
       else Ok s);
  let '(ok, k) := kv_reset (kv s) in
  let s := set_kv k s in
  if reset_running_requests && negb ok then Err RuntimeError else Ok (ok, s).

(** [reset_encoder_cache]. *)
Definition reset_encoder_cache (s : scheduler) : scheduler := set_enc (ec_reset (enc s)) s.

(** [get_request_counts], [get_num_unfinished_requests], [has_finished_requests]. *)
Definition get_request_counts (s : scheduler) : Z * Z := (py_len (running s), queue_len (waiting s)).
Definition get_num_unfinished_requests (s : scheduler) : Z := queue_len (waiting s) + py_len (running s).
Definition has_finished_requests (s : scheduler) : bool := bool_decide (finished_req_ids s <> ∅).

(** [__init__]: the empty scheduler over new caches. *)
Definition new_scheduler (k : K) (e : E) : scheduler := mkSched ∅ (create_request_queue (policy cfg)) [] ∅ ∅ k e.
End Scheduler.
Arguments scheduler : clear implicits.
Arguments outcome : clear implicits.
