(* ===== verification/SchedulerFacts.v ===== *)
(** The scheduler's invariant and its loops.

    The scheduler is proved against what the two caches promise: [KVCacheLaws] and
    [EncoderCacheLaws].  [state_ok] is the invariant between calls, [step_ok] what
    [schedule] keeps about its local variables. *)
From S2P Require Import Prelude Dict Request BlockHash BlockPool SingleType KVManager EncoderCache EncoderSched RequestQueue Scheduler.
Local Open Scope Z_scope.

(** Reading a field of an updated state. *)
Ltac sched :=
  cbn [requests waiting running finished_req_ids prev_step_scheduled_req_ids kv enc set_requests set_waiting set_running
       set_finished set_prev set_kv set_enc put_req] in *.

(** * What the caches promise *)

(** The views of the KV cache the scheduler depends on: a request that holds slots
    for [t] tokens, one that holds nothing, and prefix-cache hits that are still
    valid for a request about to start. *)
Class KVCacheView (K : Type) := {
  kv_wf : K -> Prop;
  kv_slots : K -> string -> Z -> Prop;
  kv_fresh : K -> string -> Prop;
  kv_ready : K -> string -> KVCacheBlocks -> Z -> Prop;
}.

(** What request [id] holds survives. *)
Definition kv_kept `{KVCacheView K} (id : string) (k k' : K) : Prop :=
  (forall t, kv_slots k id t -> kv_slots k' id t) /\ (kv_fresh k id -> kv_fresh k' id).

(** What the block hashes of a request depend on: everything but the fields the
    scheduler writes. *)
Definition hash_view (r : Request) : Request :=
  mkRequest (request_id r) WAITING (max_tokens r) (prompt_token_ids r) (prompt_embeds r) (num_prompt_tokens r)
    (output_token_ids r) (all_token_ids r) [] 0 0 0 0 (cache_salt r) (mm_features r) (lora_request r)
    (skip_reading_prefix_cache r) (block_hashes r).

(** The hashes of a request are right, for a notion [hc] of right hashes. *)
Definition hashed (hc : Request -> Prop) (r : Request) : Prop := hc (hash_view r).

Class KVCacheLaws (K : Type) `{KVCacheOps K, KVCacheView K} (max_len : Z) (hc : Request -> Prop) := {
  kv_slots_le (k : K) id t t' : kv_slots k id t -> t' <= t -> kv_slots k id t';
  kv_computed_ok (k : K) r : kv_wf k -> kv_fresh k (request_id r) -> hashed hc r -> 1 <= num_tokens r <= max_len ->
    exists b n k', kv_get_computed_blocks r k = Ok (b, n, k') /\ kv_wf k' /\ 0 <= n < num_tokens r /\
      kv_ready k' (request_id r) b n /\ forall id, kv_kept id k k';
  kv_start_ok (k : K) r b nl n look enc : kv_wf k -> kv_fresh k (request_id r) -> kv_ready k (request_id r) b nl -> hashed hc r ->
    num_computed_tokens r = 0 -> 0 <= nl -> 1 <= n -> nl + n <= num_tokens r <= max_len -> 0 <= look ->
    exists res k', kv_allocate_slots r n nl (Some b) look 0 false enc k = Ok (res, k') /\ kv_wf k' /\
      (forall id, id <> request_id r \/ res = None -> kv_kept id k k') /\ (res <> None -> kv_slots k' (request_id r) (nl + n));
  kv_grow_ok (k : K) r n look : kv_wf k -> kv_slots k (request_id r) (num_computed_tokens r) -> hashed hc r ->
    0 <= num_computed_tokens r -> 1 <= n -> num_computed_tokens r + n <= max_len -> 0 <= num_tokens r <= max_len -> 0 <= look ->
    exists res k', kv_allocate_slots r n 0 None look 0 false 0 k = Ok (res, k') /\ kv_wf k' /\
      (forall id, id <> request_id r \/ res = None -> kv_kept id k k') /\
      (res <> None -> kv_slots k' (request_id r) (num_computed_tokens r + n));
  kv_free_law (k : K) r : kv_wf k -> exists k', kv_free r k = Ok k' /\ kv_wf k' /\ kv_fresh k' (request_id r) /\
    forall id, id <> request_id r -> kv_kept id k k';
  kv_common_ok (k : K) id : kv_wf k -> exists x k', kv_common_prefix id k = Ok (x, k') /\ kv_wf k' /\ forall id, kv_kept id k k';
  kv_reset_law (k : K) : kv_wf k -> let '(ok, k') := kv_reset k in
    kv_wf k' /\ (forall id, kv_kept id k k') /\ ((forall id, kv_fresh k id) -> ok = true);
}.

(** The views of the encoder cache: requests whose inputs it can hold, and inputs
    chosen for a request that can be allocated. *)
Class EncoderCacheView (E : Type) := {
  ec_wf : E -> Prop;
  ec_good : list MultiModalFeatureSpec -> Prop;
  ec_planned : string -> list MultiModalFeatureSpec -> EncoderSched.locals -> E -> Prop;
}.

Class EncoderCacheLaws (E : Type) `{EncoderCacheOps E, EncoderCacheFree E, EncoderCacheView E} (settings : SchedSettings) := {
  ec_plan_ok (e : E) r nc n budget shift : ec_wf e -> ec_good (mm_features r) -> 0 <= nc -> 0 <= n -> 0 <= budget -> 0 <= shift <= 1 ->
    exists l e', try_schedule_encoder_inputs settings r nc n budget shift e = Ok (l, e') /\ ec_wf e' /\
      ec_planned (request_id r) (mm_features r) l e' /\ 0 <= EncoderSched.num_new_tokens l <= n /\ 0 <= EncoderSched.compute_budget l;
  ec_plan_none (e : E) id fs n budget : ec_wf e -> ec_planned id fs (EncoderSched.mkLocals n budget [] [] ∅ 0) e;
  ec_plan_tokens (e : E) id fs l n : ec_planned id fs l e -> ec_planned id fs (with_new_tokens n l) e;
  ec_plan_free (e : E) id fs l v : ec_wf e -> ec_planned id fs l e -> ec_good (mm_features v) ->
    exists e', ec_free v e = Ok e' /\ ec_wf e' /\ ec_planned id fs l e';
  ec_plan_inputs (e : E) r l : ec_good (mm_features r) -> ec_planned (request_id r) (mm_features r) l e ->
    exists ns, mapR (fun i => get_num_encoder_embeds i r) (EncoderSched.to_schedule l) = Ok ns /\ 0 <= sumZ ns;
  ec_plan_alloc (e : E) r l : ec_wf e -> ec_good (mm_features r) -> ec_planned (request_id r) (mm_features r) l e ->
    exists e', allocate_inputs r l e = Ok e' /\ ec_wf e';
  ec_free_inputs_ok (e : E) r : ec_wf e -> ec_good (mm_features r) -> exists e', free_encoder_inputs settings r e = Ok e' /\ ec_wf e';
  ec_taken_ok (e : E) : ec_wf e -> ec_wf (snd (ec_take_freed e));
  ec_reset_ok (e : E) : ec_wf e -> ec_wf (ec_reset e);
}.

Section Facts.
Context {K E : Type} `{KV : KVCacheOps K} `{EC : EncoderCacheOps E} `{EF : EncoderCacheFree E}.
Context `{!KVCacheView K} `{!EncoderCacheView E}.
Context (cfg : sched_config) (hc : Request -> Prop).
Let max_len := cfg_max_model_len cfg.
Context `{KL : !KVCacheLaws K max_len hc} `{EL : !EncoderCacheLaws E (encoder_settings cfg)}.

(** The settings of an attention model: no split of Mamba blocks. *)
Record config_ok : Prop := {
  co_running : 0 <= max_num_running_reqs cfg;
  co_tokens : 0 <= max_num_scheduled_tokens cfg;
  co_lookahead : 0 <= num_lookahead_tokens cfg;
  co_encoder : 0 <= encoder_budget cfg;
  co_mamba : mamba_split cfg = None;
  co_loras : max_loras cfg = None;
}.

(** * The invariant *)

(** What never changes about a request, and the bound the frontend and the stop
    test keep. *)
Record req_ok (id : string) (r : sreq) : Prop := {
  ro_id : request_id (base r) = id;
  ro_ref : ref_id (ref_of r) = id;
  ro_good : ec_good (mm_features (base r));
  ro_hashed : hashed hc (base r);
  ro_tokens : 1 <= num_tokens (base r) < max_len;
  ro_placeholders : num_output_placeholders (base r) = 0;
  ro_min sp : sampling_params r = Some sp -> num_tokens (base r) - num_output_tokens (base r) + min_tokens sp <= max_len;
}.

Definition waiting_status (st : RequestStatus) : Prop := st = WAITING \/ st = WAITING_FOR_FSM \/ st = PREEMPTED.

(** A waiting request has computed nothing and holds nothing; a preempted one was
    not scheduled in the last step, unless it was preempted in this one ([ex]). *)
Record waits (k : K) (prev : gset string) (ex : list req_ref) (r : sreq) : Prop := {
  wa_status : waiting_status (status (base r));
  wa_computed : num_computed_tokens (base r) = 0;
  wa_fresh : kv_fresh k (request_id (base r));
  wa_prev : status (base r) = PREEMPTED -> ref_of r ∉ ex -> request_id (base r) ∉ prev;
}.

(** A running request holds slots for what it has computed. *)
Record runs (k : K) (r : sreq) : Prop := {
  ru_status : status (base r) = RUNNING;
  ru_computed : 0 <= num_computed_tokens (base r);
  ru_slots : kv_slots k (request_id (base r)) (num_computed_tokens (base r));
}.

(** Every known request is either running or waiting, exactly once; [wl] lists
    the waiting queue in the order of the policy. *)
Record store_ok (ex : list req_ref) (s : scheduler K E) (wl : list req_ref) : Prop := {
  st_view : queue_view (policy cfg) (waiting s) wl;
  st_nodup : NoDup (running s ++ wl);
  st_refs ref : ref ∈ running s ++ wl -> exists r, requests s !! ref_id ref = Some r /\ ref_of r = ref;
  st_reqs id r : requests s !! id = Some r -> req_ok id r /\ ref_of r ∈ running s ++ wl;
  st_wait r : requests s !! ref_id (ref_of r) = Some r -> ref_of r ∈ wl -> waits (kv s) (prev_step_scheduled_req_ids s) ex r;
  st_run r : requests s !! ref_id (ref_of r) = Some r -> ref_of r ∈ running s -> runs (kv s) r;
  st_gone id : requests s !! id = None -> kv_fresh (kv s) id;
  st_kv : kv_wf (kv s);
  st_enc : ec_wf (enc s);
}.

(** ** Basic consequences *)

Lemma store_ref ex s wl ref : store_ok ex s wl -> ref ∈ running s ++ wl ->
  exists r, requests s !! ref_id ref = Some r /\ ref_of r = ref /\ req_ok (ref_id ref) r /\ get_req (ref_id ref) s = Ok r.
Proof.
  intros Hs Hin. destruct (st_refs _ _ _ Hs ref Hin) as (r & Er & Hr). exists r. destruct (st_reqs _ _ _ Hs _ _ Er) as [Hok _].
  unfold get_req. by rewrite Er.
Qed.

(** Writing a request back. *)
Lemma store_put ex s wl r r' :
  store_ok ex s wl -> requests s !! ref_id (ref_of r) = Some r -> ref_of r' = ref_of r -> req_ok (ref_id (ref_of r)) r' ->
  (ref_of r ∈ wl -> waits (kv s) (prev_step_scheduled_req_ids s) ex r') -> (ref_of r ∈ running s -> runs (kv s) r') -> store_ok ex (put_req r' s) wl.
Proof.
  intros Hs Er Href Hok Hw Hr. destruct Hs as [V N R Q W U G KW EW]. pose proof (ro_id _ _ Hok) as Hid.
  assert (L : forall id, requests (put_req r' s) !! id = if decide (id = ref_id (ref_of r)) then Some r' else requests s !! id).
  { intros id. unfold put_req. cbn. rewrite Hid. destruct (decide (id = _)) as [->|]; [by rewrite lookup_insert_eq|by rewrite lookup_insert_ne]. }
  split; [exact V|exact N|..|exact KW|exact EW].
  - intros ref Hin. rewrite L. destruct (R ref Hin) as (x & Ex & Hx). destruct (decide (ref_id ref = _)) as [Hd|]; [|by eauto].
    exists r'. split; [done|]. rewrite Hd, Er in Ex. injection Ex as <-. congruence.
  - intros id x. rewrite L. destruct (decide (id = _)) as [->|].
    + intros [= <-]. split; [done|]. rewrite Href. by apply (Q _ _ Er).
    + by apply Q.
  - intros x. rewrite L. destruct (decide (ref_id (ref_of x) = _)) as [Hd|].
    + intros [= <-] Hin. rewrite Href in Hin. exact (Hw Hin).
    + by apply W.
  - intros x. rewrite L. destruct (decide (ref_id (ref_of x) = _)) as [Hd|].
    + intros [= <-] Hin. rewrite Href in Hin. exact (Hr Hin).
    + by apply U.
  - intros id. rewrite L. destruct (decide (id = _)); [done|]. apply G.
Qed.

(** Requests with equal references are equal in the store. *)
Lemma ref_inj ex s wl a b : store_ok ex s wl -> a ∈ running s ++ wl -> b ∈ running s ++ wl -> ref_id a = ref_id b -> a = b.
Proof.
  intros Hs Ha Hb Hab. destruct (st_refs _ _ _ Hs a Ha) as (x & Ex & <-). destruct (st_refs _ _ _ Hs b Hb) as (y & Ey & <-). congruence.
Qed.

(** The caches may change as long as every request keeps what it holds. *)
Lemma store_kv ex s wl k : store_ok ex s wl -> kv_wf k -> (forall id, kv_kept id (kv s) k) -> store_ok ex (set_kv k s) wl.
Proof.
  intros [V N R Q W U G KW EW] Hk Hkept. split; try done.
  - intros r Er Hin. destruct (W r Er Hin) as [? ? Hf ?]. split; try done. by apply Hkept.
  - intros r Er Hin. destruct (U r Er Hin) as [? ? Hf]. split; try done. by apply Hkept.
  - intros id Hid. apply Hkept. by apply G.
Qed.

Lemma store_enc ex s wl e : store_ok ex s wl -> ec_wf e -> store_ok ex (set_enc e s) wl.
Proof.
  intros [V N R Q W U G KW EW] He. by split.
Qed.

(** ** Preemption *)

(** The request as preemption leaves it. *)
Definition preempted_req (r : sreq) : sreq :=
  with_base (fun b => set_preemptions (num_preemptions b + 1) (set_spec [] (set_computed 0 (set_status PREEMPTED b)))) r.

Lemma preempted_ok id r : req_ok id r -> req_ok id (preempted_req r).
Proof. intros [? ? ? ? ? ? ?]. by split. Qed.

(** What a change of the state leaves alone: other requests and the plans made for
    them. *)
Record frame (id : string) (s s' : scheduler K E) : Prop := {
  fr_requests : forall id', id' <> id -> requests s' !! id' = requests s !! id';
  fr_kv : forall id', id' <> id -> kv_kept id' (kv s) (kv s');
  fr_plans : forall id' fs l, ec_planned id' fs l (enc s) -> ec_planned id' fs l (enc s');
  fr_prev : prev_step_scheduled_req_ids s' = prev_step_scheduled_req_ids s;
}.

(** The place of the preempted request in the waiting queue. *)
Lemma prepend_perm p r l : spec_prepend p r l ≡ₚ r :: l.
Proof. destruct p; [done|]. apply insert_sorted_perm. Qed.

Lemma preempt_ok ex s wl v rest :
  store_ok ex s wl -> requests s !! ref_id (ref_of v) = Some v -> ref_of v ∈ running s -> running s ≡ₚ ref_of v :: rest ->
  exists s', preempt_request v (set_running rest s) = Ok s' /\ store_ok (ref_of v :: ex) s' (spec_prepend (policy cfg) (ref_of v) wl) /\
    running s' = rest /\ requests s' = <[ref_id (ref_of v) := preempted_req v]> (requests s) /\ frame (ref_id (ref_of v)) s s'.
Proof.
  intros [V N R Q W U G KW EW] Ev Hin Hperm. destruct (Q _ _ Ev) as [Hok _]. destruct (U v Ev Hin) as [Hst Hc Hsl].
  pose proof (ro_id _ _ Hok) as Hid. pose proof (ro_good _ _ Hok) as Hgood.
  unfold preempt_request. rewrite Hst. cbn [py_assert bool_decide mbind result_bind kv enc set_running].
  destruct (kv_free_law (kv s) (base v) KW) as (k' & -> & KW' & Hf & Hkept). rewrite Hid in Hf, Hkept. cbn [mbind result_bind].
  destruct (ec_plan_free (enc s) "" [] (EncoderSched.mkLocals 0 0 [] [] ∅ 0) (base v) EW) as (e' & Ee & EW' & _);
    [by apply ec_plan_none|done|]. rewrite Ee. cbn [mbind result_bind waiting set_running ref_of with_base].
  destruct (prepend_view (policy cfg) (ref_of v) (waiting s) wl V) as (q' & -> & V'). cbn [mbind result_bind].
  fold (preempted_req v). set (wl' := spec_prepend (policy cfg) (ref_of v) wl) in *. pose proof (prepend_perm (policy cfg) (ref_of v) wl) as Hwl.
  fold wl' in Hwl. assert (Hall : rest ++ wl' ≡ₚ running s ++ wl) by (rewrite Hwl, Hperm; cbn; symmetry; apply Permutation_middle).
  assert (Nr : (ref_of v ∉ rest) /\ (ref_of v ∉ wl)).
  { rewrite Hperm in N. cbn in N. apply NoDup_cons in N as [Hn _]. rewrite elem_of_app in Hn. tauto. }
  eexists. split; [reflexivity|]. split; [|split; [done|split; [cbn; by rewrite Hid|]]].
  - split; cbn [waiting running requests kv enc set_waiting put_req set_requests set_enc set_kv set_running prev_step_scheduled_req_ids].
    + exact V'.
    + by rewrite Hall.
    + intros ref. rewrite Hall. intros Hr. destruct (R ref Hr) as (x & Ex & Hx). cbn. rewrite Hid.
      destruct (decide (ref_id ref = ref_id (ref_of v))) as [Hd|Hne].
      * rewrite Hd in *. rewrite lookup_insert_eq. rewrite Ev in Ex. injection Ex as <-. by eexists.
      * rewrite lookup_insert_ne by done. by eexists.
    + intros id x. cbn. rewrite Hid, Hall. destruct (decide (id = ref_id (ref_of v))) as [->|Hne].
      * rewrite lookup_insert_eq. intros [= <-]. split; [by apply preempted_ok|]. apply (Q _ _ Ev).
      * rewrite lookup_insert_ne by done. apply Q.
    + intros x. cbn. rewrite Hid. destruct (decide (ref_id (ref_of x) = ref_id (ref_of v))) as [Hd|Hne].
      * rewrite Hd, lookup_insert_eq. intros [= <-] _. split; cbn; [by right; right|done|by rewrite Hid|]. intros _ Hx. set_solver.
      * rewrite lookup_insert_ne by done. rewrite Hwl, elem_of_cons. intros Ex [Hx|Hx]; [congruence|].
        destruct (W x Ex Hx) as [W1 W2 W3 W4]. destruct (Q _ _ Ex) as [Hokx _]. pose proof (ro_id _ _ Hokx) as Hidx. split; try done.
        -- apply Hkept; [by rewrite Hidx|done].
        -- intros Hp Hx'. apply W4; [done|]. set_solver.
    + intros x. cbn. rewrite Hid. destruct (decide (ref_id (ref_of x) = ref_id (ref_of v))) as [Hd|Hne].
      * rewrite Hd, lookup_insert_eq. intros [= <-] Hx. cbn in Hx. tauto.
      * rewrite lookup_insert_ne by done. intros Ex Hx. assert (Hx' : ref_of x ∈ running s) by (rewrite Hperm; by right).
        destruct (U x Ex Hx') as [U1 U2 U3]. destruct (Q _ _ Ex) as [Hokx _]. pose proof (ro_id _ _ Hokx) as Hidx. split; try done.
        apply Hkept; [by rewrite Hidx|done].
    + intros id. cbn. rewrite Hid. destruct (decide (id = ref_id (ref_of v))) as [->|Hne]; [by rewrite lookup_insert_eq|].
      rewrite lookup_insert_ne by done. intros Hn. apply Hkept; [done|]. by apply G.
    + exact KW'.
    + exact EW'.
  - split; cbn; try done.
    + intros id' Hne. by rewrite Hid, lookup_insert_ne.
    + intros id' fs l Hp. destruct (ec_plan_free (enc s) id' fs l (base v) EW Hp Hgood) as (e2 & E2 & _ & Hp2). congruence.
Qed.

(** More requests may be exempt. *)
Lemma store_ex ex ex' s wl : ex ⊆ ex' -> store_ok ex s wl -> store_ok ex' s wl.
Proof.
  intros He [V N R Q W U G KW EW]. split; try done. intros r Er Hin. destruct (W r Er Hin) as [? ? ? W4]. split; try done.
  intros Hp Hx. apply W4; [done|]. set_solver.
Qed.

(** The cache may also change what one running request holds. *)
Lemma store_kv_one ex s wl k r :
  store_ok ex s wl -> requests s !! ref_id (ref_of r) = Some r -> ref_of r ∈ running s -> kv_wf k ->
  (forall id, id <> ref_id (ref_of r) -> kv_kept id (kv s) k) -> kv_slots k (ref_id (ref_of r)) (num_computed_tokens (base r)) ->
  store_ok ex (set_kv k s) wl.
Proof.
  intros [V N R Q W U G KW EW] Er Hin Hk Hkept Hsl. split; sched; try done.
  - intros x Ex Hx. destruct (W x Ex Hx) as [? ? Hf ?]. split; try done. destruct (Q _ _ Ex) as [Hok _].
    pose proof (ro_id _ _ Hok) as Hid. apply Hkept; [|done]. rewrite Hid. intros He. rewrite He, Er in Ex. injection Ex as ->.
    apply NoDup_app in N as (_ & Hd & _). by apply (Hd (ref_of x)).
  - intros x Ex Hx. destruct (U x Ex Hx) as [? ? Hf]. split; try done. destruct (Q _ _ Ex) as [Hok _].
    pose proof (ro_id _ _ Hok) as Hid. rewrite Hid. destruct (decide (ref_id (ref_of x) = ref_id (ref_of r))) as [He|Hne].
    + rewrite He, Er in Ex. by injection Ex as ->.
    + apply Hkept; [done|]. by rewrite <- Hid.
  - intros id Hn. apply Hkept; [congruence|]. by apply G.
Qed.

(** * The local variables of a step *)

Definition scheduled_refs (l : locals_) : list req_ref := scheduled_running l ++ scheduled_new l ++ scheduled_resumed l.

(** [n] tokens of a request reach into its tokens, or exactly to the end of its
    draft tokens. *)
Definition reaches (r : Request) (total : Z) (drafts : option (list Z)) : Prop :=
  (total < num_tokens r /\ drafts = None) \/ total = num_tokens r + py_len (default [] drafts).

(** A request scheduled with [n] tokens. *)
Record scheduled (s : scheduler K E) (l : locals_) (r : sreq) (n : Z) : Prop := {
  sd_pos : 1 <= n;
  sd_tokens : dict_get (request_id (base r)) (num_scheduled_tokens l) = Some n;
  sd_slots : kv_slots (kv s) (request_id (base r)) (num_computed_tokens (base r) + n);
  sd_reach : reaches (base r) (num_computed_tokens (base r) + n) (dict_get (request_id (base r)) (scheduled_spec_decode_tokens l));
  sd_blocks : is_Some (dict_get (request_id (base r)) (req_to_new_blocks l));
  sd_inputs ids : dict_get (request_id (base r)) (scheduled_encoder_inputs l) = Some ids ->
    exists ns, mapR (fun i => get_num_encoder_embeds i (base r)) ids = Ok ns /\ 0 <= sumZ ns;
}.

Record step_ok (s : scheduler K E) (l : locals_) : Prop := {
  sp_budget : token_budget l + sumZ ((num_scheduled_tokens l).*2) = max_num_scheduled_tokens cfg /\ 0 <= token_budget l;
  sp_encoder : 0 <= encoder_compute_budget l;
  sp_nodup : NoDup (scheduled_refs l);
  sp_keys : keys (num_scheduled_tokens l) ≡ₚ ref_id <$> scheduled_refs l;
  sp_running ref : ref ∈ scheduled_refs l -> ref ∈ running s;
  sp_each r : requests s !! ref_id (ref_of r) = Some r -> ref_of r ∈ scheduled_refs l -> exists n, scheduled s l r n;
  sp_idle r : requests s !! ref_id (ref_of r) = Some r -> ref_of r ∈ running s -> num_computed_tokens (base r) < num_tokens (base r);
  sp_spec id : id ∉ keys (num_scheduled_tokens l) ->
    dict_get id (scheduled_spec_decode_tokens l) = None /\ dict_get id (scheduled_encoder_inputs l) = None;
}.

(** While the running requests are scheduled. *)
Record running_phase (s : scheduler K E) (l : locals_) : Prop := {
  rp_step : step_ok s l;
  rp_new : scheduled_new l = [] /\ scheduled_resumed l = [];
  rp_index ref : ref ∈ scheduled_running l -> exists i, (i < req_index l)%nat /\ running s !! i = Some ref;
}.

(** The ids of scheduled requests, and the keys of the step, are distinct. *)
Lemma scheduled_ids ex s wl l : store_ok ex s wl -> step_ok s l -> NoDup (keys (num_scheduled_tokens l)).
Proof.
  intros Hs Hl. rewrite (sp_keys _ _ Hl). apply NoDup_fmap_2_strong; [|apply (sp_nodup _ _ Hl)].
  intros a b Ha Hb Hab. apply (ref_inj ex s wl); [done|..|done]; apply elem_of_app; left; by apply (sp_running _ _ Hl).
Qed.

Lemma scheduled_key ex s wl l ref : store_ok ex s wl -> step_ok s l -> ref ∈ running s ++ wl ->
  ref_id ref ∈ keys (num_scheduled_tokens l) <-> ref ∈ scheduled_refs l.
Proof.
  intros Hs Hl Hin. rewrite (sp_keys _ _ Hl), list_elem_of_fmap. split; [|by eauto]. intros (x & Hid & Hx).
  replace ref with x; [done|]. apply (ref_inj ex s wl); [done|apply elem_of_app; left; by apply (sp_running _ _ Hl)|done..].
Qed.

(** What a request is scheduled with survives a change elsewhere. *)
Lemma scheduled_frame s s' l l' r n :
  scheduled s l r n -> (forall t, kv_slots (kv s) (request_id (base r)) t -> kv_slots (kv s') (request_id (base r)) t) ->
  dict_get (request_id (base r)) (num_scheduled_tokens l') = dict_get (request_id (base r)) (num_scheduled_tokens l) ->
  dict_get (request_id (base r)) (scheduled_spec_decode_tokens l') = dict_get (request_id (base r)) (scheduled_spec_decode_tokens l) ->
  dict_get (request_id (base r)) (req_to_new_blocks l') = dict_get (request_id (base r)) (req_to_new_blocks l) ->
  dict_get (request_id (base r)) (scheduled_encoder_inputs l') = dict_get (request_id (base r)) (scheduled_encoder_inputs l) ->
  scheduled s' l' r n.
Proof. intros [S1 S2 S3 S4 S5 S6] Hk H1 H2 H3 H4. split; [done|by rewrite H1|by apply Hk|by rewrite H2|by rewrite H3|by rewrite H4]. Qed.

(** ** Taking a request out of the step *)

(** The local variables without request [v]. *)
Record without (v : req_ref) (l l1 : locals_) : Prop := {
  wo_refs ref : ref ∈ scheduled_refs l1 <-> ref ∈ scheduled_refs l /\ ref <> v;
  wo_nodup : NoDup (scheduled_refs l1);
  wo_keys : keys (num_scheduled_tokens l1) ≡ₚ ref_id <$> scheduled_refs l1;
  wo_budget : token_budget l1 + sumZ ((num_scheduled_tokens l1).*2) = token_budget l + sumZ ((num_scheduled_tokens l).*2) /\
    token_budget l <= token_budget l1;
  wo_encoder : encoder_compute_budget l <= encoder_compute_budget l1;
  wo_gets id : id <> ref_id v ->
    dict_get id (num_scheduled_tokens l1) = dict_get id (num_scheduled_tokens l) /\
    dict_get id (scheduled_spec_decode_tokens l1) = dict_get id (scheduled_spec_decode_tokens l) /\
    dict_get id (req_to_new_blocks l1) = dict_get id (req_to_new_blocks l) /\
    dict_get id (scheduled_encoder_inputs l1) = dict_get id (scheduled_encoder_inputs l);
  wo_spec : dict_get (ref_id v) (scheduled_spec_decode_tokens l1) = None /\ dict_get (ref_id v) (scheduled_encoder_inputs l1) = None;
  wo_rest : scheduled_new l1 = scheduled_new l /\ scheduled_resumed l1 = scheduled_resumed l /\ preempted l1 = preempted l;
}.

(** A request that is not scheduled is not there. *)
Lemma without_self ex s wl l v : store_ok ex s wl -> step_ok s l -> v ∈ running s ++ wl -> v ∉ scheduled_refs l -> without v l l.
Proof.
  intros Hs Hl Hin Hv. split; try done.
  - intros ref. split; [|tauto]. intros Hr. split; [done|]. by intros ->.
  - apply (sp_nodup _ _ Hl).
  - apply (sp_keys _ _ Hl).
  - apply (sp_spec _ _ Hl). by rewrite (scheduled_key ex s wl l v).
Qed.

Lemma unschedule_ok ex s wl l v :
  store_ok ex s wl -> step_ok s l -> requests s !! ref_id (ref_of v) = Some v -> ref_of v ∈ scheduled_running l ->
  exists l1, unschedule v l = Ok l1 /\ without (ref_of v) l l1 /\ req_index l1 = (req_index l - 1)%nat /\
    (forall ref, ref ∈ scheduled_running l1 <-> ref ∈ scheduled_running l /\ ref <> ref_of v).
Proof.
  intros Hs Hl Ev Hin. destruct (st_reqs _ _ _ Hs _ _ Ev) as [Hok _]. pose proof (ro_id _ _ Hok) as Hid.
  assert (Hin' : ref_of v ∈ scheduled_refs l) by (unfold scheduled_refs; set_solver).
  destruct (sp_each _ _ Hl v Ev Hin') as (n & [_ S2 _ _ [bl S5] S6]).
  pose proof (scheduled_ids ex s wl l Hs Hl) as Hnd. unfold unschedule.
  destruct (list_remove (ref_of v) (scheduled_running l)) as [run'|] eqn:Erm; [|by apply list_remove_None in Erm].
  cbn [of_option mbind result_bind]. unfold dict_pop. rewrite S2, S5. cbn [of_option mbind result_bind].
  assert (exists c, (match dict_get (request_id (base v)) (scheduled_encoder_inputs l) with
      | Some inputs => ns ← mapR (fun i => get_num_encoder_embeds i (base v)) inputs; Ok (sumZ ns) | None => Ok 0 end) = Ok c /\ 0 <= c) as (c & -> & Hc).
  { destruct (dict_get _ (scheduled_encoder_inputs l)) as [ids|] eqn:Ei; [|by exists 0].
    destruct (S6 ids eq_refl) as (ns & -> & Hns). by eexists. }
  cbn [mbind result_bind]. eexists. split; [reflexivity|].
  apply list_remove_split in Erm as (pre & post & Ep & ->). pose proof (sp_nodup _ _ Hl) as Hdup. unfold scheduled_refs in Hdup. rewrite Ep in Hdup.
  assert (Hsplit : (pre ++ ref_of v :: post) ++ scheduled_new l ++ scheduled_resumed l
    ≡ₚ ref_of v :: ((pre ++ post) ++ scheduled_new l ++ scheduled_resumed l)) by by rewrite <- Permutation_middle.
  pose proof Hdup as Hdup2. rewrite Hsplit in Hdup2. apply NoDup_cons in Hdup2 as [Hnv Hnd2].
  rewrite Hid in *. split; [|split; [done|]].
  - split; unfold scheduled_refs; cbn [scheduled_running scheduled_new scheduled_resumed num_scheduled_tokens token_budget encoder_compute_budget
      scheduled_spec_decode_tokens req_to_new_blocks scheduled_encoder_inputs preempted]; [| |..|done].
    + intros ref. rewrite Ep, Hsplit, elem_of_cons. split; [|tauto]. intros Hr. split; [by right|]. by intros ->.
    + done.
    + assert (Hk : keys (num_scheduled_tokens l) ≡ₚ ref_id (ref_of v) :: (ref_id <$> (pre ++ post) ++ scheduled_new l ++ scheduled_resumed l)).
      { rewrite (sp_keys _ _ Hl). unfold scheduled_refs. by rewrite Ep, Hsplit. }
      apply NoDup_Permutation; [by apply NoDup_keys_del|..].
      * rewrite Hk in Hnd. by apply NoDup_cons in Hnd as [_ ?].
      * intros id. rewrite elem_keys_del, Hk, elem_of_cons. split; [tauto|]. intros Hx. split; [by right|]. intros ->.
        rewrite Hk in Hnd. by apply NoDup_cons in Hnd as [? _].
    + rewrite (sum_del _ _ _ Hnd S2). split; [lia|]. destruct (sp_each _ _ Hl v Ev Hin') as (n' & [S1 S2' _ _ _ _]).
      rewrite Hid in S2'. rewrite S2 in S2'. injection S2' as <-. lia.
    + lia.
    + intros id Hne. rewrite !dict_get_del, !decide_False by done. done.
    + by rewrite !dict_get_del, !decide_True.
  - cbn [scheduled_running]. intros ref. rewrite Ep. rewrite !elem_of_app in Hnv. rewrite !elem_of_app, !elem_of_cons. naive_solver.
Qed.

(** The step without the preempted request. *)
Lemma step_without ex s wl s' l l1 v :
  store_ok ex s wl -> step_ok s l -> ref_of v ∈ running s -> frame (ref_id (ref_of v)) s s' -> running s ≡ₚ ref_of v :: running s' ->
  without (ref_of v) l l1 -> step_ok s' l1.
Proof.
  intros Hs Hl Hv [F1 F2 F3 F4] Hrun [W1 W2 W3 W4 W5 W6 W7 W8].
  assert (Hdiff : forall ref, ref ∈ running s -> ref <> ref_of v -> ref_id ref <> ref_id (ref_of v)).
  { intros ref Hr Hne Heq. apply Hne. apply (ref_inj ex s wl); [done|set_solver|set_solver|done]. }
  assert (Hnv : ref_of v ∉ running s').
  { pose proof (st_nodup _ _ _ Hs) as N. apply NoDup_app in N as (N & _). rewrite Hrun in N. by apply NoDup_cons in N as [? _]. }
  split.
  - destruct W4 as [-> ?], (sp_budget _ _ Hl). split; [done|lia].
  - pose proof (sp_encoder _ _ Hl). lia.
  - done.
  - done.
  - intros ref [Hr Hne]%W1. apply (sp_running _ _ Hl) in Hr. rewrite Hrun in Hr. apply elem_of_cons in Hr as [|]; done.
  - intros r Er [Hr Hne]%W1. pose proof (sp_running _ _ Hl _ Hr) as Hr'. pose proof (Hdiff _ Hr' Hne) as Hd. rewrite F1 in Er by done.
    destruct (sp_each _ _ Hl r Er Hr) as (n & Hn). exists n. destruct (st_reqs _ _ _ Hs _ _ Er) as [Hok _].
    pose proof (ro_id _ _ Hok) as Hid. destruct (W6 (ref_id (ref_of r)) Hd) as (G1 & G2 & G3 & G4).
    apply (scheduled_frame s s' l l1); [done|rewrite Hid..]; try done. by apply F2.
  - intros r Er Hr. assert (Hne : ref_of r <> ref_of v) by (intros Heq; by rewrite Heq in Hr).
    assert (Hr' : ref_of r ∈ running s) by (rewrite Hrun; by right). rewrite F1 in Er by (by apply Hdiff). by apply (sp_idle _ _ Hl).
  - intros id Hid. destruct (decide (id = ref_id (ref_of v))) as [->|Hne]; [done|]. destruct (W6 id Hne) as (G1 & -> & _ & ->).
    apply (sp_spec _ _ Hl). apply dict_get_None. rewrite <- G1. by apply dict_get_None.
Qed.

(** ** The victim *)

Lemma lowest_in l : l <> [] -> exists r, lowest_priority l = Ok r /\ r ∈ l.
Proof.
  destruct l as [|x l]; [done|]. intros _. cbn [lowest_priority]. eexists. split; [done|].
  assert (Hg : forall b l, fold_left (fun best r => if key_lt best r then r else best) l b ∈ b :: l).
  { clear. intros b l. revert b. induction l as [|y l IH]; intros b; [left|]. cbn [fold_left].
    specialize (IH (if key_lt b y then y else b)). destruct (key_lt b y); set_solver. }
  apply Hg.
Qed.

(** The request that is being scheduled: at the index of the loop, or before it
    once a request that was passed over has been preempted. *)
Record current (s : scheduler K E) (l : locals_) (ref : req_ref) : Prop := {
  cu_index : exists i, running s !! i = Some ref /\ (i <= req_index l)%nat /\ (policy cfg = FCFS -> i = req_index l);
  cu_new : ref ∉ scheduled_running l;
}.

(** A victim leaves the running list; the scheduled requests and the current one
    keep their places before and at the index. *)
Lemma running_get ex s wl x : store_ok ex s wl -> x ∈ running s -> exists v, ref_of v = x /\ requests s !! ref_id x = Some v.
Proof. intros Hs Hx. destruct (st_refs _ _ _ Hs x ltac:(set_solver)) as (v & Ev & Hv). by exists v. Qed.

(** What taking a victim out of the running list leaves. *)
Definition picks_victim (s : scheduler K E) (l : locals_) (ref : req_ref) : Prop :=
  exists v rest l1, pick_victim cfg s l = Ok (ref_of v, set_running rest s, l1) /\
    requests s !! ref_id (ref_of v) = Some v /\ ref_of v ∈ running s /\ running s ≡ₚ ref_of v :: rest /\ without (ref_of v) l l1 /\
    (forall x, x ∈ scheduled_running l1 -> exists i, (i < req_index l1)%nat /\ rest !! i = Some x) /\
    (length rest - req_index l1 <= length (running s) - req_index l)%nat /\
    (ref_of v <> ref -> (exists i, rest !! i = Some ref /\ (i <= req_index l1)%nat /\ (policy cfg = FCFS -> i = req_index l1)) /\
       ref ∉ scheduled_running l1).

Lemma pick_last_ok s wl l ref : policy cfg = FCFS ->
  store_ok (preempted l) s wl -> running_phase s l -> current s l ref -> picks_victim s l ref.
Proof.
  intros Hp Hs [Hl [Hn1 Hn2] Hidx] [(i & Hi & Hle & Hfc) Hcur]. unfold picks_victim, pick_victim. rewrite Hp in *.
  assert (Hrefs : scheduled_refs l = scheduled_running l) by (unfold scheduled_refs; by rewrite Hn1, Hn2, !app_nil_r).
  pose proof (st_nodup _ _ _ Hs) as N. apply NoDup_app in N as (N & _).
  specialize (Hfc eq_refl) as ->. clear Hle. destruct (last (running s)) as [x|] eqn:Elast.
  2:{ apply last_None in Elast. by rewrite Elast in Hi. }
  apply last_Some in Elast as (init & Er). destruct (running_get _ s wl x Hs ltac:(rewrite Er; set_solver)) as (v & Hv & Ev). subst x.
  assert (Hrl : removelast (running s) = init) by (rewrite Er; apply removelast_last).
  assert (Hil : (req_index l <= length init)%nat) by (apply lookup_lt_Some in Hi; rewrite Er, length_app in Hi; cbn in Hi; lia).
  assert (Hnot : ref_of v ∉ scheduled_running l).
  { intros (j & Hj & Hjr)%Hidx. rewrite Er in Hjr, N. rewrite lookup_app_l in Hjr by lia. apply NoDup_app in N as (_ & Hd & _).
    apply (Hd (ref_of v)); [by eapply list_elem_of_lookup_2|left]. }
  exists v, init, l. rewrite Hrl. split; [done|]. split; [done|]. split; [rewrite Er; set_solver|].
  split; [rewrite Er; symmetry; apply Permutation_cons_append|].
  split; [apply (without_self (preempted l) s wl); [done|done|rewrite Er; set_solver|by rewrite Hrefs]|].
  split; [|split; [rewrite Er, length_app; cbn; lia|]].
  - intros y (j & Hj & Hjr)%Hidx. exists j. split; [done|]. rewrite Er, lookup_app_l in Hjr by lia. done.
  - intros Hne. split; [|done]. exists (req_index l). split; [|done]. rewrite Er in Hi.
    destruct (decide (req_index l < length init)%nat) as [Hlt|Hge]; [by rewrite lookup_app_l in Hi|].
    rewrite lookup_app_r in Hi by lia. destruct (req_index l - length init)%nat as [|k]; [|done]. exfalso. apply Hne. by injection Hi.
Qed.

Lemma pick_lowest_ok s wl l ref : policy cfg = PRIORITY ->
  store_ok (preempted l) s wl -> running_phase s l -> current s l ref -> picks_victim s l ref.
Proof.
  intros Hp Hs [Hl [Hn1 Hn2] Hidx] [(i & Hi & Hle & Hfc) Hcur]. unfold picks_victim, pick_victim. rewrite Hp in *.
  assert (Hrefs : scheduled_refs l = scheduled_running l) by (unfold scheduled_refs; by rewrite Hn1, Hn2, !app_nil_r).
  pose proof (st_nodup _ _ _ Hs) as N. apply NoDup_app in N as (N & _).
  clear Hfc. destruct (lowest_in (running s)) as (x & -> & Hx); [by intros Hn; rewrite Hn in Hi|]. cbn [mbind result_bind].
  destruct (list_remove x (running s)) as [rest|] eqn:Erm; [|by apply list_remove_None in Erm]. cbn [of_option mbind result_bind].
  destruct (running_get _ s wl x Hs Hx) as (v & Hv & Ev). subst x.
  pose proof (list_remove_Some _ _ _ Erm) as Hperm. apply list_remove_split in Erm as (pre & post & Er & Hrest).
  assert (Hlen : length (running s) = S (length rest)) by (rewrite Hperm; done).
  case_bool_decide as Hsch.
  - assert (Hgr : get_req (ref_id (ref_of v)) (set_running rest s) = Ok v) by (unfold get_req; sched; by rewrite Ev).
    rewrite Hgr. cbn [mbind result_bind].
    destruct (unschedule_ok (preempted l) s wl l v Hs Hl Ev Hsch) as (l1 & -> & Hwo & Hri & Hsr). cbn [mbind result_bind].
    assert (Hj : (length pre < req_index l)%nat).
    { destruct (Hidx _ Hsch) as (j & Hj & Hjr). replace (length pre) with j; [done|]. rewrite Er in Hjr, N.
      apply (NoDup_lookup _ _ _ _ N Hjr). rewrite lookup_app_r, Nat.sub_diag by lia. done. }
    exists v, rest, l1. split; [done|]. split; [done|]. split; [done|]. split; [done|]. split; [done|]. rewrite Hri. split; [|split; [lia|]].
    + intros y [Hy Hne]%Hsr. destruct (Hidx y Hy) as (j & Hj' & Hjr). rewrite Er in Hjr.
      destruct (lookup_removed pre post (ref_of v) y j Hjr Hne) as (j' & Hl' & H1 & H2 & H3). rewrite Hrest. exists j'. split; [|done].
      destruct (decide (length pre < j)%nat) as [Hp'|Hp']; [specialize (H2 Hp'); lia|].
      destruct (decide (j = length pre)) as [->|Hne']; [|specialize (H3 ltac:(lia)); lia].
      rewrite lookup_app_r, Nat.sub_diag in Hjr by lia. exfalso. apply Hne. by injection Hjr.
    + intros Hne. split; [|rewrite Hsr; tauto]. rewrite Er in Hi. destruct (lookup_removed pre post (ref_of v) ref i Hi ltac:(congruence)) as (j' & Hl' & H1 & H2 & H3).
      rewrite Hrest. exists j'. split; [done|]. split; [|done].
      destruct (decide (length pre < i)%nat) as [Hp'|Hp']; [specialize (H2 Hp'); lia|lia].
  - exists v, rest, l. split; [done|]. split; [done|]. split; [done|]. split; [done|].
    split; [apply (without_self (preempted l) s wl); [done|done|set_solver|by rewrite Hrefs]|]. split; [|split; [lia|]].
    + intros y Hy. destruct (Hidx y Hy) as (j & Hj & Hjr). rewrite Er in Hjr.
      destruct (lookup_removed pre post (ref_of v) y j Hjr ltac:(congruence)) as (j' & Hl' & H1 & _). rewrite Hrest. exists j'. split; [lia|done].
    + intros Hne. split; [|done]. rewrite Er in Hi. destruct (lookup_removed pre post (ref_of v) ref i Hi ltac:(congruence)) as (j' & Hl' & H1 & _).
      rewrite Hrest. exists j'. split; [done|]. split; [lia|done].
Qed.

Lemma pick_victim_ok s wl l ref :
  store_ok (preempted l) s wl -> running_phase s l -> current s l ref -> picks_victim s l ref.
Proof. destruct (policy cfg) eqn:Hp; [by apply pick_last_ok|by apply pick_lowest_ok]. Qed.

(** ** Allocating, with preemption *)

(** The index and the list of preempted requests do not matter. *)
Lemma step_same s l p i : step_ok s l ->
  step_ok s (mkLoc (scheduled_new l) (scheduled_resumed l) (scheduled_running l) p (req_to_new_blocks l) (num_scheduled_tokens l)
    (token_budget l) (scheduled_encoder_inputs l) (encoder_compute_budget l) (scheduled_spec_decode_tokens l) i).
Proof. intros [B EB N Q R EA I SP]. split; try done. intros r Er Hin. destruct (EA r Er Hin) as (n & [? ? ? ? ? ?]). exists n. by split. Qed.

(** A change of the caches that keeps what the scheduled requests hold. *)
Lemma step_caches ex s wl l k e :
  store_ok ex s wl -> step_ok s l -> (forall ref, ref ∈ scheduled_refs l -> kv_kept (ref_id ref) (kv s) k) -> step_ok (set_enc e (set_kv k s)) l.
Proof.
  intros Hs [B EB N Q R EA I SP] Hk. split; sched; try done. intros r Er Hin. destruct (EA r Er Hin) as (n & Hn). exists n.
  destruct (st_reqs _ _ _ Hs _ _ Er) as [Hok _]. apply (scheduled_frame s _ l l); try done. sched.
  rewrite (ro_id _ _ Hok). by apply Hk.
Qed.

(** The request was refused when, under FCFS, it was the last of the requests
    [run] still running. *)
Definition refused (ref : req_ref) (r : sreq) (n : Z) (run : list req_ref) : Prop :=
  exists ex s wl k, store_ok ex s wl /\ requests s !! ref_id ref = Some r /\
    kv_allocate_slots (base r) n 0 None (num_lookahead_tokens cfg) 0 false 0 (kv s) = Ok (None, k) /\
    (policy cfg = FCFS -> running s `prefix_of` run /\ last (running s) = Some ref).

Lemma victim_last (s s' : scheduler K E) l v l1 : pick_victim cfg s l = Ok (v, s', l1) -> policy cfg = FCFS ->
  last (running s) = Some v /\ s' = set_running (removelast (running s)) s /\ l1 = l /\ running s = running s' ++ [v].
Proof.
  unfold pick_victim. intros H Hp. rewrite Hp in H. destruct (last (running s)) as [x|] eqn:El; [|done]. injection H as <- <- <-.
  split; [done|]. split; [done|]. split; [done|]. cbn. apply last_Some in El as [pre ->]. by rewrite removelast_last.
Qed.

Lemma refused_app ref r n run tail : refused ref r n run -> (policy cfg = FCFS -> exists t, tail = run ++ t) -> refused ref r n tail.
Proof.
  intros (ex & s & wl & k & H1 & H2 & H3 & H4) Ht. exists ex, s, wl, k. split; [done|]. split; [done|]. split; [done|]. intros Hp.
  destruct (H4 Hp) as [H5 H6], (Ht Hp) as [t ->]. split; [|done]. by apply prefix_app_r.
Qed.

(** One preemption: the victim moves to the waiting queue. *)
Record preempts (s : scheduler K E) (wl : list req_ref) (l : locals_) (ref : req_ref) (v : sreq) (s' : scheduler K E) (l' : locals_) : Prop := {
  pe_store : store_ok (preempted l') s' (spec_prepend (policy cfg) (ref_of v) wl);
  pe_phase : running_phase s' l';
  pe_shorter : (length (running s') < length (running s))%nat;
  pe_measure : (length (running s') - req_index l' <= length (running s) - req_index l)%nat;
  pe_budget : token_budget l <= token_budget l';
  pe_frame : frame (ref_id (ref_of v)) s s';
  pe_preempted : preempted l' <> [];
  pe_last : policy cfg = FCFS -> last (running s) = Some (ref_of v) /\ running s = running s' ++ [ref_of v];
  pe_current : ref_of v <> ref -> current s' l' ref /\ ref_id ref <> ref_id (ref_of v);
}.

Lemma preempt_one_ok s wl l ref : store_ok (preempted l) s wl -> running_phase s l -> current s l ref ->
  exists v s1 l1 s2, pick_victim cfg s l = Ok (ref_of v, s1, l1) /\ get_req (ref_id (ref_of v)) s1 = Ok v /\ preempt_request v s1 = Ok s2 /\
    preempts s wl l ref v s2 (add_preempted (ref_of v) l1).
Proof.
  intros Hs Hp Hc. pose proof Hp as [Hst [Hn1 Hn2] _].
  destruct (pick_victim_ok s wl l ref Hs Hp Hc) as (v & rest & l1 & Evic & Ev & Hv & Hperm & Hwo & Hix & Hmeas & Hcur).
  assert (Hgv : get_req (ref_id (ref_of v)) (set_running rest s) = Ok v) by (unfold get_req; sched; by rewrite Ev).
  destruct (preempt_ok (preempted l) s wl v rest Hs Ev Hv Hperm) as (s2 & E2 & Hs2 & Hr2 & Hq2 & Hfr).
  exists v, (set_running rest s), l1, s2. split; [done|]. split; [done|]. split; [done|].
  pose proof (step_without _ _ _ _ _ _ _ Hs Hst Hv Hfr ltac:(by rewrite Hr2) Hwo) as Hst2.
  destruct Hwo as [_ _ _ [_ Hbud] _ _ _ (Wn & Wr & Wp)]. split.
  - eapply store_ex; [|exact Hs2]. cbn. rewrite Wp. set_solver.
  - split; [by apply step_same|cbn; by rewrite Wn, Wr|]. cbn. rewrite Hr2. exact Hix.
  - pose proof (Permutation_length Hperm) as HL. rewrite Hr2, HL. cbn. lia.
  - rewrite Hr2. exact Hmeas.
  - cbn. lia.
  - done.
  - cbn. by destruct (preempted l1).
  - intros Hp0. destruct (victim_last _ _ _ _ _ Evic Hp0) as (H1 & _ & _ & H2). rewrite Hr2. done.
  - intros Hne. destruct (Hcur Hne) as [Hc1 Hc2]. split; [split; [rewrite Hr2; exact Hc1|done]|]. intros Heq. apply Hne. symmetry.
    destruct (cu_index _ _ _ Hc) as (i & Hi & _). apply list_elem_of_lookup_2 in Hi. apply (ref_inj (preempted l) s wl); [done|set_solver|set_solver|done].
Qed.

Lemma allocate_or_preempt_ok fuel : config_ok -> forall s wl l ref r n,
  (length (running s) < fuel)%nat -> store_ok (preempted l) s wl -> running_phase s l -> current s l ref ->
  requests s !! ref_id ref = Some r -> 1 <= n -> num_computed_tokens (base r) + n <= max_len ->
  exists res s' l' wl', allocate_or_preempt cfg fuel ref n s l = Ok (res, s', l') /\ store_ok (preempted l') s' wl' /\ running_phase s' l' /\
    (length (running s') - req_index l' <= length (running s) - req_index l /\ length (running s') <= length (running s))%nat /\
    token_budget l <= token_budget l' /\
    (forall id fs p, ec_planned id fs p (enc s) -> ec_planned id fs p (enc s')) /\
    prev_step_scheduled_req_ids s' = prev_step_scheduled_req_ids s /\
    match res with
    | None => preempted l' <> [] /\ refused ref r n (running s)
    | Some _ => current s' l' ref /\ requests s' !! ref_id ref = Some r /\ kv_slots (kv s') (ref_id ref) (num_computed_tokens (base r) + n)
    end.
Proof.
  intros Hcfg. induction fuel as [|fuel IH]; intros s wl l ref r n Hf Hs Hp Hc Er Hn Hmax; [lia|]. cbn [allocate_or_preempt].
  assert (Hg : get_req (ref_id ref) s = Ok r) by (unfold get_req; by rewrite Er). rewrite Hg. cbn [mbind result_bind].
  destruct (cu_index _ _ _ Hc) as (i & Hi & _). assert (Hin : ref ∈ running s) by by eapply list_elem_of_lookup_2.
  destruct (st_refs _ _ _ Hs ref ltac:(set_solver)) as (r' & Er' & Href). rewrite Er in Er'. injection Er' as <-. subst ref.
  destruct (st_reqs _ _ _ Hs _ _ Er) as [Hok _]. pose proof (ro_id _ _ Hok) as Hid. destruct (st_run _ _ _ Hs r Er Hin) as [U1 U2 U3].
  destruct (kv_grow_ok (kv s) (base r) n (num_lookahead_tokens cfg)) as (res & k & Ek & Hkw & Hkept & Hgrow).
  { apply (st_kv _ _ _ Hs). } { done. } { apply (ro_hashed _ _ Hok). } { done. } { done. } { done. }
  { pose proof (ro_tokens _ _ Hok). lia. } { apply (co_lookahead Hcfg). }
  rewrite Ek. cbn [mbind result_bind]. rewrite Hid in *. destruct Hp as [Hst [Hn1 Hn2] Hidx].
  assert (Hrefs : scheduled_refs l = scheduled_running l) by (unfold scheduled_refs; by rewrite Hn1, Hn2, !app_nil_r).
  assert (Hsk : forall x, x ∈ scheduled_refs l -> kv_kept (ref_id x) (kv s) k).
  { intros x Hx. apply Hkept. left. intros Heq. assert (x = ref_of r) as ->.
    { apply (ref_inj (preempted l) s wl); [done|pose proof (sp_running _ _ Hst x Hx); set_solver|set_solver|done]. }
    rewrite Hrefs in Hx. by apply (cu_new _ _ _ Hc). }
  assert (Hst' : step_ok (set_kv k s) l) by exact (step_caches _ _ _ _ k (enc s) Hs Hst Hsk).
  assert (Hp' : running_phase (set_kv k s) l) by by split.
  destruct res as [b|].
  - specialize (Hgrow ltac:(done)). exists (Some b), (set_kv k s), l, wl. split; [done|].
    split; [|split; [done|split; [sched; lia|split; [lia|split; [done|split; [done|split; [by destruct Hc|done]]]]]]].
    apply (store_kv_one _ _ _ _ r); try done.
    + intros id Hne. apply Hkept. by left.
    + apply (kv_slots_le k _ _ _ Hgrow). lia.
  - assert (Hs' : store_ok (preempted l) (set_kv k s) wl) by (apply store_kv; [done|done|intros id; apply Hkept; by right]).
    destruct (preempt_one_ok (set_kv k s) wl l (ref_of r) Hs' Hp') as (v & s1 & l1 & s2 & -> & Hgv & Hpv & Hpe); [by destruct Hc|].
    cbn [mbind result_bind]. rewrite Hgv. cbn [mbind result_bind]. rewrite Hpv. cbn [mbind result_bind]. set (l2 := add_preempted (ref_of v) l1) in *.
    destruct Hpe as [Hs2 Hp2 Hlen Hm2 Hbud Hfr Hpr Hlast Hcur]. sched.
    assert (Hpl : forall id fs p, ec_planned id fs p (enc s) -> ec_planned id fs p (enc s2)) by (intros id fs p; apply (fr_plans _ _ _ Hfr)).
    assert (Hpv2 : prev_step_scheduled_req_ids s2 = prev_step_scheduled_req_ids s) by apply (fr_prev _ _ _ Hfr).
    destruct (decide (ref_of v = ref_of r)) as [Heq|Hne].
    + rewrite bool_decide_true by done. exists None, s2, l2, (spec_prepend (policy cfg) (ref_of v) wl).
      split; [done|]. split; [done|]. split; [done|]. split; [lia|]. split; [done|]. split; [done|]. split; [done|].
      split; [done|]. exists (preempted l), s, wl, k. do 3 (split; [done|]). intros Hp0. split; [done|]. rewrite <- Heq. by destruct (Hlast Hp0).
    + rewrite bool_decide_false by done. destruct (Hcur Hne) as [Hc1 Hd].
      destruct (IH s2 (spec_prepend (policy cfg) (ref_of v) wl) l2 (ref_of r) r n) as (res & s3 & l3 & wl3 & E3 & H1 & H2 & H3 & H4 & H5 & H6 & H7); try done.
      * lia.
      * by rewrite (fr_requests _ _ _ Hfr).
      * exists res, s3, l3, wl3. split; [exact E3|]. split; [done|]. split; [done|]. split; [lia|]. split; [lia|].
        split; [by intros id fs p Hx; apply H5, Hpl|]. split; [congruence|]. destruct res; [done|]. destruct H7 as [H7 H8]. split; [done|].
        apply (refused_app _ _ _ _ _ H8). intros Hp0. destruct (Hlast Hp0) as [_ Hl]. rewrite Hl. by eexists.
Qed.

(** ** Adding a request to the step *)
Lemma step_add ex s wl s' wl' l l' ref r' n :
  store_ok ex s wl -> store_ok ex s' wl' -> step_ok s l -> ref_of r' = ref -> requests s' !! ref_id ref = Some r' ->
  ref ∈ running s ++ wl -> ref ∉ scheduled_refs l ->
  scheduled_refs l' ≡ₚ ref :: scheduled_refs l -> num_scheduled_tokens l' = dict_set (ref_id ref) n (num_scheduled_tokens l) ->
  token_budget l' = token_budget l - n -> n <= token_budget l -> 0 <= encoder_compute_budget l' ->
  (forall x, x ∈ running s' <-> x ∈ running s \/ x = ref) ->
  (forall id, id <> ref_id ref -> requests s' !! id = requests s !! id /\ kv_kept id (kv s) (kv s') /\
     dict_get id (scheduled_spec_decode_tokens l') = dict_get id (scheduled_spec_decode_tokens l) /\
     dict_get id (req_to_new_blocks l') = dict_get id (req_to_new_blocks l) /\
     dict_get id (scheduled_encoder_inputs l') = dict_get id (scheduled_encoder_inputs l)) ->
  scheduled s' l' r' n -> num_computed_tokens (base r') < num_tokens (base r') -> step_ok s' l'.
Proof.
  intros Hs Hs' Hl Href Er' Hin Hnew Hrefs Hnst Hb Hle Heb Hrun Hoth Hsd Hidle.
  assert (Hk : ref_id ref ∉ keys (num_scheduled_tokens l)) by by rewrite (scheduled_key ex s wl).
  assert (Hdiff : forall x, x ∈ running s -> x <> ref -> ref_id x <> ref_id ref).
  { intros x Hx Hne Heq. apply Hne. apply (ref_inj ex s wl); [done|set_solver|done|done]. }
  split.
  - destruct (sp_budget _ _ Hl) as [H1 H2]. rewrite Hnst, Hb, <- sum_set_new by done. lia.
  - done.
  - rewrite Hrefs. constructor; [done|]. apply (sp_nodup _ _ Hl).
  - rewrite Hnst, keys_set_new, Hrefs, (sp_keys _ _ Hl) by done. rewrite <- Permutation_cons_append. done.
  - intros x. rewrite Hrefs, elem_of_cons, Hrun. intros [->|Hx]; [by right|]. left. by apply (sp_running _ _ Hl).
  - intros x Ex. rewrite Hrefs, elem_of_cons. intros Hx. destruct (decide (ref_of x = ref)) as [Heq|Hne].
    + rewrite Heq, Er' in Ex. injection Ex as <-. by exists n.
    + destruct Hx as [|Hx]; [done|]. pose proof (Hdiff _ (sp_running _ _ Hl _ Hx) Hne) as Hd.
      destruct (Hoth _ Hd) as (G1 & [G2 _] & G3 & G4 & G5). rewrite G1 in Ex. destruct (sp_each _ _ Hl x Ex Hx) as (m & Hm). exists m.
      destruct (st_reqs _ _ _ Hs _ _ Ex) as [Hok _]. pose proof (ro_id _ _ Hok) as Hid.
      apply (scheduled_frame s s' l l'); [done|rewrite Hid..]; try done. by rewrite Hnst, dict_get_set, decide_False.
  - intros x Ex Hx. destruct (decide (ref_of x = ref)) as [Heq|Hne]; [rewrite Heq, Er' in Ex; by injection Ex as <-|].
    apply Hrun in Hx as [Hx|]; [|done]. destruct (Hoth _ (Hdiff _ Hx Hne)) as (G1 & _). rewrite G1 in Ex. by apply (sp_idle _ _ Hl).
  - intros id. rewrite Hnst, keys_set_new, elem_of_app, list_elem_of_singleton by done. intros Hid.
    destruct (Hoth id ltac:(tauto)) as (_ & _ & -> & _ & ->). apply (sp_spec _ _ Hl). tauto.
Qed.

(** The scheduled tokens reach into the request's tokens or exactly to the end of
    the drafts scheduled with them. *)
Lemma drafts_reach r n :
  num_output_placeholders r = 0 -> n <= num_tokens_with_spec r - num_computed_tokens r ->
  reaches r (num_computed_tokens r + n) (scheduled_drafts r n).
Proof.
  intros Hp Hn. unfold reaches, scheduled_drafts, num_tokens_with_spec, num_tokens in *. rewrite Hp.
  destruct (spec_token_ids r) as [|t ts] eqn:Es; cbn [from_option id].
  { change (py_len (@nil Z)) with 0 in *. destruct (decide (num_computed_tokens r + n < py_len (all_token_ids r))); [by left|right; lia]. }
  rewrite <- Es in *. clear Es t ts. set (k := n + num_computed_tokens r - py_len (all_token_ids r) - 0).
  destruct (Z.ltb_spec 0 k) as [Hk|Hk]; cbn [from_option id].
  - right. destruct (Z.ltb_spec k (py_len (spec_token_ids r))) as [Hlt|Hge]; [|unfold k in *; lia].
    rewrite py_slice_nonneg by lia. change (Z.to_nat 0) with 0%nat; rewrite drop_0. unfold py_len in *. rewrite length_take. unfold k in *. lia.
  - change (py_len (@nil Z)) with 0. destruct (decide (num_computed_tokens r + n < py_len (all_token_ids r))); [by left|right; unfold k in *; lia].
Qed.

(** The record of the encoder inputs. *)
Lemma record_inputs_ok ex s wl l ref p :
  store_ok ex s wl -> step_ok s l -> ref ∈ running s ++ wl -> ref ∉ scheduled_refs l -> 0 <= EncoderSched.compute_budget p ->
  let '(inputs, budget) := record_inputs (ref_id ref) p l in
  0 <= budget /\ (forall id, id <> ref_id ref -> dict_get id inputs = dict_get id (scheduled_encoder_inputs l)) /\
  (forall ids, dict_get (ref_id ref) inputs = Some ids -> ids = EncoderSched.to_schedule p).
Proof.
  intros Hs Hst Hin Hnew Hcb. unfold record_inputs. destruct (EncoderSched.to_schedule p) as [|z zs] eqn:Ez.
  - split; [apply (sp_encoder _ _ Hst)|]. split; [done|]. intros ids.
    destruct (sp_spec _ _ Hst (ref_id ref)) as [_ ->]; [|done]. by rewrite (scheduled_key ex s wl).
  - split; [done|]. split; [intros id Hne; by rewrite dict_get_set, decide_False|]. intros ids. by rewrite dict_get_set, decide_True by done; intros [= <-].
Qed.

(** Scheduling a running request. *)
Lemma schedule_running_ok s wl l r p b :
  store_ok (preempted l) s wl -> running_phase s l -> current s l (ref_of r) -> requests s !! ref_id (ref_of r) = Some r ->
  ec_planned (ref_id (ref_of r)) (mm_features (base r)) p (enc s) -> 0 <= EncoderSched.compute_budget p ->
  1 <= EncoderSched.num_new_tokens p <= token_budget l ->
  EncoderSched.num_new_tokens p <= num_tokens_with_spec (base r) - num_computed_tokens (base r) ->
  kv_slots (kv s) (ref_id (ref_of r)) (num_computed_tokens (base r) + EncoderSched.num_new_tokens p) ->
  exists s' l', schedule_running (ref_of r) b p s l = Ok (s', l') /\ store_ok (preempted l') s' wl /\ running_phase s' l' /\
    running s' = running s /\ req_index l' = S (req_index l) /\ preempted l' = preempted l /\
    prev_step_scheduled_req_ids s' = prev_step_scheduled_req_ids s.
Proof.
  intros Hs Hp Hc Er Hpl Hcb Hn Hspec Hsl. set (n := EncoderSched.num_new_tokens p) in *.
  destruct (st_reqs _ _ _ Hs _ _ Er) as [Hok _]. pose proof (ro_id _ _ Hok) as Hid. pose proof (ro_good _ _ Hok) as Hgood.
  destruct Hp as [Hst [Hn1 Hn2] Hidx]. destruct (cu_index _ _ _ Hc) as (i & Hi & Hile & _).
  assert (Hin : ref_of r ∈ running s) by by eapply list_elem_of_lookup_2. destruct (st_run _ _ _ Hs r Er Hin) as [U1 U2 U3].
  assert (Hrefs : scheduled_refs l = scheduled_running l) by (unfold scheduled_refs; by rewrite Hn1, Hn2, !app_nil_r).
  assert (Hnew : ref_of r ∉ scheduled_refs l) by (rewrite Hrefs; apply (cu_new _ _ _ Hc)).
  unfold schedule_running. assert (Hg : get_req (ref_id (ref_of r)) s = Ok r) by (unfold get_req; by rewrite Er). rewrite Hg.
  cbn [mbind result_bind]. fold n. set (r' := with_base (set_spec []) r). set (s1 := put_req r' s).
  assert (Hok' : req_ok (ref_id (ref_of r)) r') by (destruct Hok; by split).
  assert (Hs1 : store_ok (preempted l) s1 wl).
  { apply (store_put _ _ _ r); try done. intros Hw. destruct (st_wait _ _ _ Hs r Er Hw). by split. }
  change (enc s1) with (enc s).
  destruct (ec_plan_alloc (enc s) (base r) p (st_enc _ _ _ Hs) Hgood) as (e & Ee & Hew); [by rewrite Hid|]. rewrite Ee. cbn [mbind result_bind].
  destruct (ec_plan_inputs (enc s) (base r) p Hgood) as (ns & Hns & Hnn); [by rewrite Hid|].
  pose proof (record_inputs_ok (preempted l) s wl l (ref_of r) p Hs Hst ltac:(set_solver) Hnew Hcb) as Hinp.
  destruct (record_inputs (ref_id (ref_of r)) p l) as [inputs budget]. destruct Hinp as (Hb0 & Hio & Hii).
  eexists _, _. split; [reflexivity|]. sched.
  assert (Hs2 : store_ok (preempted l) (set_enc e s1) wl) by by apply store_enc.
  split; [exact Hs2|]. split; [|done]. split; [|by cbn [scheduled_new scheduled_resumed]|].
  2:{ cbn [scheduled_running req_index]. intros x [Hx|Hx%list_elem_of_singleton]%elem_of_app.
      - destruct (Hidx x Hx) as (j & Hj & Hjr). exists j. split; [lia|done].
      - subst x. exists i. split; [lia|done]. }
  apply (step_add (preempted l) s wl _ wl l _ (ref_of r) r' n); try done.
  - sched. cbn. by rewrite Hid, lookup_insert_eq.
  - set_solver.
  - unfold scheduled_refs. cbn [scheduled_running scheduled_new scheduled_resumed]. rewrite Hn1, Hn2, !app_nil_r.
    symmetry. apply Permutation_cons_append.
  - lia.
  - intros x. sched. split; [by left|]. intros [?| ->]; done.
  - intros id Hne. sched. cbn. rewrite Hid, lookup_insert_ne by done. split; [done|]. split; [done|].
    split; [|split; [by rewrite dict_get_set, decide_False|by apply Hio]].
    destruct (scheduled_drafts (base r) n); [by rewrite dict_get_set, decide_False|done].
  - split; cbn [base r' with_base]; change (request_id (set_spec [] (base r))) with (request_id (base r)); rewrite ?Hid; cbn.
    + lia.
    + by rewrite dict_get_set, decide_True.
    + done.
    + pose proof (drafts_reach (base r) n (ro_placeholders _ _ Hok) Hspec) as Hr.
      destruct (scheduled_drafts (base r) n) as [ids|] eqn:Ed; [by rewrite dict_get_set, decide_True|].
      destruct (sp_spec _ _ Hst (ref_id (ref_of r))) as [-> _]; [|done]. rewrite (scheduled_key (preempted l) s wl); [done..|set_solver].
    + rewrite dict_get_set, decide_True by done. by eexists.
    + intros ids ->%Hii. by exists ns.
  - by apply (sp_idle _ _ Hst r Er).
Qed.

(** * The running requests *)

Lemma plan_encoder_ok ex s wl r nc n budget :
  store_ok ex s wl -> ec_good (mm_features r) -> 0 <= nc -> 0 <= n -> 0 <= budget ->
  exists p e, plan_encoder cfg r nc n budget (enc s) = Ok (p, e) /\ ec_wf e /\ ec_planned (request_id r) (mm_features r) p e /\
    0 <= EncoderSched.num_new_tokens p <= n /\ 0 <= EncoderSched.compute_budget p /\
    (has_encoder_inputs r = false -> EncoderSched.num_new_tokens p = n).
Proof.
  intros Hs Hg Hnc Hn Hb. unfold plan_encoder. pose proof (st_enc _ _ _ Hs) as He. destruct (has_encoder_inputs r).
  - destruct (ec_plan_ok (enc s) r nc n budget (if cfg_use_eagle cfg then 1 else 0) He Hg Hnc Hn Hb) as (p & e & ? & ? & ? & ? & ?);
      [destruct (cfg_use_eagle cfg); lia|]. by exists p, e.
  - eexists _, _. split; [done|]. split; [done|]. split; [by apply ec_plan_none|]. cbn. lia.
Qed.

Lemma running_tokens_ok r budget :
  num_output_placeholders r = 0 -> num_computed_tokens r < num_tokens r < max_len -> 0 < budget ->
  let n := running_tokens cfg r budget in
  1 <= n <= budget /\ n <= num_tokens_with_spec r - num_computed_tokens r /\ num_computed_tokens r + n <= max_len.
Proof.
  intros Hp Hn Hb. unfold running_tokens, num_tokens_with_spec, num_tokens in *. rewrite Hp. subst max_len.
  assert (0 <= py_len (spec_token_ids r)) by (unfold py_len; lia). cbv zeta.
  destruct (Z.ltb_spec 0 (long_prefill_token_threshold cfg)); cbn [andb]; [|lia].
  match goal with |- context [?a <? ?b] => destruct (Z.ltb_spec a b) end; lia.
Qed.

(** Moving on to the next running request. *)
Lemma next_phase s l : running_phase s l -> running_phase s (next_index l).
Proof.
  intros [H1 H2 H3]. split; [by apply step_same|done|]. intros x (i & Hi & Hx)%H3. exists i. cbn. split; [lia|done].
Qed.

Lemma running_loop_ok fuel : config_ok -> forall s wl l,
  (length (running s) - req_index l < fuel)%nat -> store_ok (preempted l) s wl -> running_phase s l ->
  exists s' l' wl', running_loop cfg fuel s l = Ok (s', l') /\ store_ok (preempted l') s' wl' /\ running_phase s' l' /\
    prev_step_scheduled_req_ids s' = prev_step_scheduled_req_ids s /\ (length (running s') <= length (running s))%nat.
Proof.
  intros Hcfg. induction fuel as [|fuel IH]; intros s wl l Hf Hs Hp; [lia|]. cbn [running_loop].
  destruct (running s !! req_index l) as [ref|] eqn:Hi; [|by exists s, l, wl].
  destruct (Z.leb_spec (token_budget l) 0) as [Hb|Hb]; [by exists s, l, wl|].
  assert (Hin : ref ∈ running s) by by eapply list_elem_of_lookup_2.
  destruct (store_ref _ _ _ ref Hs ltac:(set_solver)) as (r & Er & Href & Hok & ->). subst ref. cbn [mbind result_bind].
  pose proof (lookup_lt_Some _ _ _ Hi) as Hlt. destruct (st_run _ _ _ Hs r Er Hin) as [U1 U2 U3].
  pose proof (rp_step _ _ Hp) as Hst. pose proof (sp_idle _ _ Hst r Er Hin) as Hidle.
  rewrite (ro_placeholders _ _ Hok). cbn [Z.ltb Z.compare andb].
  destruct (running_tokens_ok (base r) (token_budget l)) as (Hn & Hsp & Hmax);
    [apply (ro_placeholders _ _ Hok)|pose proof (ro_tokens _ _ Hok); lia|done|].
  destruct (plan_encoder_ok _ _ _ (base r) (num_computed_tokens (base r)) (running_tokens cfg (base r) (token_budget l)) (encoder_compute_budget l) Hs)
    as (p & e & -> & Hew & Hpl & Hpn & Hpb & _); [apply (ro_good _ _ Hok)|done|lia|apply (sp_encoder _ _ Hst)|]. cbn [mbind result_bind].
  assert (Hms : forall n m, mamba_block_aligned_split cfg (base r) n m = n) by (intros n m; unfold mamba_block_aligned_split; by rewrite (co_mamba Hcfg)).
  rewrite Hms. set (n := EncoderSched.num_new_tokens p) in *. set (s1 := set_enc e s).
  assert (Hs1 : store_ok (preempted l) s1 wl) by by apply store_enc.
  assert (Hp1 : running_phase s1 l).
  { destruct Hp as [P1 P2 P3]. split; [|done|done]. exact (step_caches _ _ _ _ (kv s) e Hs P1 (fun _ _ => conj (fun _ H => H) (fun H => H))). }
  destruct (Z.eqb_spec n 0) as [Hz|Hnz].
  - apply (IH s1 wl (next_index l)); [cbn; lia|done|by apply next_phase].
  - rewrite (ro_id _ _ Hok) in Hpl.
    assert (Hcur : current s1 l (ref_of r)).
    { split; [by exists (req_index l)|]. intros (j & Hj & Hjr)%(rp_index _ _ Hp). pose proof (st_nodup _ _ _ Hs) as N.
      apply NoDup_app in N as (N & _). pose proof (NoDup_lookup _ _ _ _ N Hi Hjr). lia. }
    destruct (allocate_or_preempt_ok (S (length (running s1))) Hcfg s1 wl l (ref_of r) r n)
      as (res & s2 & l2 & wl2 & -> & Hs2 & Hp2 & Hm2 & Hb2 & Hpl2 & Hv2 & Hres); try done; [lia|lia|lia|]. cbn [mbind result_bind].
    destruct res as [b|]; [|exists s2, l2, wl2; split; [done|]; split; [done|]; split; [done|]; split; [done|]; change (running s1) with (running s) in Hm2; lia]. destruct Hres as (Hc2 & Er2 & Hsl2).
    destruct (schedule_running_ok s2 wl2 l2 r (with_new_tokens n p) b)
      as (s3 & l3 & -> & Hs3 & Hp3 & Hr3 & Hi3 & _ & Hv3); try done; [by apply ec_plan_tokens, Hpl2|cbn; lia|cbn; lia|]. cbn [mbind result_bind].
    destruct (IH s3 wl2 l3) as (s4 & l4 & wl4 & E4 & H1 & H2 & H3 & H4); [|done|done|].
    + rewrite Hr3, Hi3. change (running s1) with (running s) in Hm2. destruct (cu_index _ _ _ Hc2) as (j & Hj & Hjl & _). apply lookup_lt_Some in Hj. lia.
    + exists s4, l4, wl4. split; [done|]. split; [done|]. split; [done|]. rewrite Hr3 in H4. change (running s1) with (running s) in Hm2. split; [by rewrite H3, Hv3, Hv2|lia].
Qed.
End Facts.
