(* ===== verification/SchedulerStep.v ===== *)
(** [schedule]: the waiting requests and the whole step.

    [schedule_ok]: in every state that satisfies the invariant, [schedule] returns
    without an exception and leaves the state in flight: every scheduled request
    holds slots for its tokens, within the budgets. *)
From S2P Require Import Prelude Dict Request BlockHash BlockPool SingleType KVManager EncoderCache EncoderSched RequestQueue Scheduler SchedulerFacts.
Local Open Scope Z_scope.

(** A queue with given requests exists for both policies. *)
Lemma sorted_heap l : StronglySorted ref_le l -> Heapq.Heap.heap_from request_lt 0 l.
Proof.
  intros Hs p c x y _ He Hx Hy. pose proof (Heapq.Heap.edge_lt _ _ He) as Hlt. clear He. revert p c Hx Hy Hlt.
  induction Hs as [|z l Hs IH Hz]; intros p c Hx Hy Hlt; [done|]. destruct c as [|c]; [lia|]. cbn in Hy. destruct p as [|p]; cbn in Hx.
  - injection Hx as <-. rewrite Forall_forall in Hz. apply Hz. by eapply list_elem_of_lookup_2.
  - by apply (IH p c); [..|lia].
Qed.

Lemma queue_exists policy l : exists q l', queue_view policy q l' /\ l' ≡ₚ l.
Proof.
  destruct policy; [by exists (FCFSRequestQueue l), l|].
  pose proof (StronglySorted_merge_sort ref_le l) as Hs. pose proof (merge_sort_Permutation ref_le l) as Hp.
  exists (PriorityRequestQueue (merge_sort ref_le l)), (merge_sort ref_le l). split; [|done]. split; [by apply sorted_heap|done].
Qed.

Section Step.
Context {K E : Type} `{KV : KVCacheOps K} `{EC : EncoderCacheOps E} `{EF : EncoderCacheFree E}.
Context `{!KVCacheView K} `{!EncoderCacheView E}.
Context (cfg : sched_config) (hc : Request -> Prop).
Let max_len := cfg_max_model_len cfg.
Context `{KL : !KVCacheLaws K max_len hc} `{EL : !EncoderCacheLaws E (encoder_settings cfg)}.

(** Only the requests of the queue matter. *)
Lemma store_queue ex (s : scheduler K E) wl q wl' :
  store_ok cfg hc ex s wl -> queue_view (policy cfg) q wl' -> wl' ≡ₚ wl -> store_ok cfg hc ex (set_waiting q s) wl'.
Proof.
  intros [V N R Q W U G KW EW] Hq Hp. split; sched; try done.
  - by rewrite Hp.
  - intros ref. rewrite Hp. apply R.
  - intros id r. rewrite Hp. apply Q.
  - intros r Er. rewrite Hp. by apply W.
Qed.

Lemma step_queue (s : scheduler K E) l q : step_ok cfg s l -> step_ok cfg (set_waiting q s) l.
Proof. intros [B EB N Q R EA I SP]. split; try done. intros r Er Hin. destruct (EA r Er Hin) as (n & [? ? ? ? ? ?]). exists n. by split. Qed.

(** A waiting request starts to run. *)
Lemma store_start ex s wl k r r' q wl2 :
  store_ok cfg hc ex s wl -> requests s !! ref_id (ref_of r) = Some r -> wl ≡ₚ ref_of r :: wl2 -> queue_view (policy cfg) q wl2 ->
  kv_wf k -> (forall id, id <> ref_id (ref_of r) -> kv_kept id (kv s) k) -> ref_of r' = ref_of r -> req_ok cfg hc (ref_id (ref_of r)) r' ->
  runs k r' -> store_ok cfg hc ex (put_req r' (set_running (running s ++ [ref_of r]) (set_waiting q (set_kv k s)))) wl2.
Proof.
  intros [V N R Q W U G KW EW] Er Hwl Hq Hk Hkept Href Hok Hrun. pose proof (ro_id _ _ _ _ Hok) as Hid.
  assert (Hall : (running s ++ [ref_of r]) ++ wl2 ≡ₚ running s ++ wl) by (rewrite Hwl, <- app_assoc; done).
  assert (N2 := N). rewrite Hwl in N2. apply NoDup_app in N2 as (_ & Nd & Nw). apply NoDup_cons in Nw as [Nw _].
  assert (L : forall id, requests (put_req r' (set_running (running s ++ [ref_of r]) (set_waiting q (set_kv k s)))) !! id
    = if decide (id = ref_id (ref_of r)) then Some r' else requests s !! id).
  { intros id. sched. cbn. rewrite Hid. destruct (decide (id = _)) as [->|]; [by rewrite lookup_insert_eq|by rewrite lookup_insert_ne]. }
  assert (Hkid : forall x, requests s !! ref_id (ref_of x) = Some x -> ref_id (ref_of x) <> ref_id (ref_of r) -> request_id (base x) <> ref_id (ref_of r)).
  { intros x Ex Hne. destruct (Q _ _ Ex) as [Hokx _]. by rewrite (ro_id _ _ _ _ Hokx). }
  remember (put_req r' (set_running (running s ++ [ref_of r]) (set_waiting q (set_kv k s)))) as s' eqn:Es'.
  assert (waiting s' = q /\ running s' = running s ++ [ref_of r] /\ kv s' = k /\ enc s' = enc s /\
    prev_step_scheduled_req_ids s' = prev_step_scheduled_req_ids s) as (F1 & F2 & F3 & F4 & F5) by by subst.
  clear Es'. split; rewrite ?F1, ?F2, ?F3, ?F4, ?F5; try setoid_rewrite L; [exact Hq|by rewrite Hall|..|exact Hk|exact EW].
  - intros ref. rewrite Hall. intros Hin. destruct (R ref Hin) as (x & Ex & Hx). destruct (decide (ref_id ref = _)) as [Hd|]; [|by eauto].
    exists r'. split; [done|]. rewrite Hd, Er in Ex. injection Ex as <-. congruence.
  - intros id x. rewrite Hall. destruct (decide (id = _)) as [->|]; [intros [= <-]; split; [done|]; rewrite Href; by apply (Q _ _ Er)|apply Q].
  - intros x. destruct (decide (ref_id (ref_of x) = _)) as [Hd|Hne].
    + intros [= <-] Hin. rewrite Href in Hin. by destruct Nw.
    + intros Ex Hin. destruct (W x Ex) as [W1 W2 W3 W4]; [rewrite Hwl; by right|]. split; try done. apply Hkept; [by apply Hkid|done].
  - intros x. destruct (decide (ref_id (ref_of x) = _)) as [Hd|Hne]; [by intros [= <-] _|].
    intros Ex [Hin|Hin%list_elem_of_singleton]%elem_of_app; [|by rewrite Hin in Hne].
    destruct (U x Ex Hin) as [U1 U2 U3]. split; try done. apply Hkept; [by apply Hkid|done].
  - intros id. destruct (decide (id = _)); [done|]. intros Hn. apply Hkept; [done|]. by apply G.
Qed.

(** * The waiting requests *)

(** While the waiting requests are scheduled: [ws] are those still in the queue,
    [sk] those passed over. *)
Record wait_phase (s : scheduler K E) (l : locals_) (skipped : RequestQueue) (ws sk : list req_ref) : Prop := {
  wp_store : exists q wl, store_ok cfg hc [] (set_waiting q s) wl /\ wl ≡ₚ sk ++ ws;
  wp_view : queue_view (policy cfg) (waiting s) ws;
  wp_skip : exists skv, queue_view (policy cfg) skipped skv /\ skv ≡ₚ sk;
  wp_step : step_ok cfg s l;
  wp_resumed ref : ref ∈ scheduled_resumed l -> ref_id ref ∉ prev_step_scheduled_req_ids s;
  wp_len : py_len (running s) <= max_num_running_reqs cfg;
}.

Lemma waiting_tokens_ok r nc budget :
  nc < num_tokens r -> 0 < budget ->
  exists o, waiting_tokens cfg r nc budget = Ok o /\ forall n, o = Some n -> 1 <= n <= budget /\ nc + n <= num_tokens r.
Proof.
  intros Hn Hb. unfold waiting_tokens. cbv zeta.
  set (m := if (0 <? long_prefill_token_threshold cfg) && (long_prefill_token_threshold cfg <? num_tokens r - nc)
            then long_prefill_token_threshold cfg else num_tokens r - nc).
  assert (Hm : 1 <= m <= num_tokens r - nc).
  { subst m. destruct (Z.ltb_spec 0 (long_prefill_token_threshold cfg)); cbn [andb]; [|lia].
    destruct (Z.ltb_spec (long_prefill_token_threshold cfg) (num_tokens r - nc)); lia. }
  destruct (negb (enable_chunked_prefill cfg) && (budget <? m)); [by eexists|].
  rewrite (proj2 (Z.ltb_lt 0 (Z.min m budget))) by lia. cbn [py_assert mbind result_bind]. eexists. split; [done|]. intros n [= <-]. lia.
Qed.

(** Changes of the two caches that keep what every request holds. *)
Lemma wait_caches s l sk ws skq k e : wait_phase s l skq ws sk -> kv_wf k -> ec_wf e -> (forall id, kv_kept id (kv s) k) ->
  wait_phase (set_enc e (set_kv k s)) l skq ws sk.
Proof.
  intros [(q & wl & Hs & Hwl) V S ST RS LN] Hk He Hkept. split; try done.
  - exists q, wl. split; [|done]. apply (store_enc _ _ _ (set_kv k (set_waiting q s))); [|done]. by apply (store_kv _ _ _ (set_waiting q s)).
  - apply (step_queue _ _ q) in ST. pose proof (step_caches _ _ _ _ _ _ k e Hs ST (fun x _ => Hkept (ref_id x))) as H.
    exact (step_queue _ _ (waiting s) H).
Qed.

(** A started request joins the new or the resumed ones. *)
Lemma started_list r l : status (base r) = WAITING \/ status (base r) = PREEMPTED ->
  exists new resumed, (match status (base r) with
      | WAITING => Ok (scheduled_new l ++ [ref_of r], scheduled_resumed l)
      | PREEMPTED => Ok (scheduled_new l, scheduled_resumed l ++ [ref_of r]) | _ => Err RuntimeError end) = Ok (new, resumed) /\
      new ++ resumed ≡ₚ ref_of r :: scheduled_new l ++ scheduled_resumed l /\
      forall x, x ∈ resumed -> x ∈ scheduled_resumed l \/ (x = ref_of r /\ status (base r) = PREEMPTED).
Proof.
  intros [-> | ->]; eexists _, _; (split; [done|]); split.
  - rewrite <- app_assoc. symmetry. apply Permutation_middle.
  - by left.
  - rewrite app_assoc. symmetry. apply Permutation_cons_append.
  - intros x [Hx|Hx%list_elem_of_singleton]%elem_of_app; [by left|by right].
Qed.

(** The head of the queue starts with [nl] computed and [n] scheduled tokens, once
    the cache [k] holds its slots. *)
Lemma start_request_ok loras s l skq ws sk r k p nl n :
  config_ok cfg -> wait_phase s l skq (ref_of r :: ws) sk -> requests s !! ref_id (ref_of r) = Some r ->
  status (base r) = WAITING \/ status (base r) = PREEMPTED -> py_len (running s) <> max_num_running_reqs cfg ->
  kv_wf k -> (forall id, id <> ref_id (ref_of r) -> kv_kept id (kv s) k) -> kv_slots k (ref_id (ref_of r)) (nl + n) ->
  0 <= nl -> 1 <= n <= token_budget l -> nl + n <= num_tokens (base r) ->
  ec_planned (ref_id (ref_of r)) (mm_features (base r)) p (enc s) -> 0 <= EncoderSched.compute_budget p ->
  exists s' l' loras', start_request cfg r nl (with_new_tokens n p) loras (set_kv k s) l = Ok (s', l', loras') /\
    wait_phase s' l' skq ws sk /\ prev_step_scheduled_req_ids s' = prev_step_scheduled_req_ids s /\ preempted l' = preempted l.
Proof.
  intros Hcfg [(q2 & wl2 & Hs2 & Hwl2) V2 S2 ST2 RS2 LN2] Er Hst Hlen Hk2 Hkept2 Hres Hnl Hn Hnn Hpl Hpb.
  destruct (st_reqs _ _ _ _ _ Hs2 _ _ Er) as [Hok _]. pose proof (ro_id _ _ _ _ Hok) as Hid. pose proof (st_enc _ _ _ _ _ Hs2) as Hew.
  destruct (st_wait _ _ _ _ _ Hs2 r Er ltac:(rewrite Hwl2; set_solver)) as [_ _ _ W4]. rewrite Hid in W4.
  destruct (pop_view (policy cfg) (waiting (set_kv k s)) (ref_of r :: ws) V2) as (_ & q3 & Epop & V3).
  unfold start_request. rewrite Epop. cbn [mbind result_bind].
  destruct (started_list r l Hst) as (new & resumed & -> & Hnew & Hresumed).
  cbn [mbind result_bind]. rewrite (co_loras _ Hcfg). cbn [EncoderSched.num_new_tokens with_new_tokens EncoderSched.to_schedule EncoderSched.compute_budget].
  set (r' := with_base _ r).
  assert (Hok' : req_ok cfg hc (ref_id (ref_of r)) r') by (destruct Hok; by split).
  destruct (ec_plan_alloc (enc s) (base r') (with_new_tokens n p) Hew) as (e' & Ee & Hew');
    [apply (ro_good _ _ _ _ Hok')|apply ec_plan_tokens; cbn; by rewrite Hid|].
  change (enc (put_req _ _)) with (enc s). rewrite Ee. cbn [mbind result_bind]. rewrite Hid.
  destruct (queue_exists (policy cfg) (sk ++ ws)) as (q4 & wl4 & V4 & Hwl4).
  assert (Hw2w : wl2 ≡ₚ ref_of r :: wl4) by (rewrite Hwl2, Hwl4; symmetry; apply Permutation_middle).
  pose proof (store_start [] (set_waiting q2 s) wl2 k r r' q4 wl4 Hs2 Er Hw2w V4 Hk2 Hkept2 eq_refl Hok') as Hfin.
  specialize (Hfin ltac:(split; [done|cbn; lia|cbn; rewrite Hid; eapply kv_slots_le; [exact Hres|lia]])).
  apply (store_enc _ _ _ _ _ e') in Hfin; [|done].
  assert (Hnr : ref_of r ∉ running s).
  { pose proof (st_nodup _ _ _ _ _ Hs2) as N. apply NoDup_app in N as (_ & Hd & _). intros Hx. apply (Hd (ref_of r) Hx). rewrite Hw2w. left. }
  assert (Hnsch : ref_of r ∉ scheduled_refs l) by (intros Hx; by apply Hnr, (sp_running _ _ _ ST2)).
  assert (Hin2 : ref_of r ∈ running (set_waiting q2 s) ++ wl2) by (apply elem_of_app; right; rewrite Hw2w; left).
  pose proof (record_inputs_ok cfg hc [] (set_waiting q2 s) wl2 l (ref_of r) (with_new_tokens n p) Hs2 (step_queue _ _ q2 ST2) Hin2 Hnsch Hpb) as Hinp.
  destruct (ec_plan_inputs (enc s) (base r) p) as (ns & Hns & Hns0); [apply (ro_good _ _ _ _ Hok)|by rewrite Hid|].
  destruct (record_inputs (ref_id (ref_of r)) (with_new_tokens n p) l) as [inputs budget]. destruct Hinp as (Hb0 & Hio & Hii).
  eexists _, _, _. split; [reflexivity|]. split; [|done].
  assert (Hstep : step_ok cfg (set_waiting q4 (set_enc e' (put_req r' (set_running (running s ++ [ref_of r]) (set_waiting q3 (set_kv k s))))))
    (mkLoc new resumed (scheduled_running l) (preempted l)
       (dict_set (ref_id (ref_of r)) (kv_get_blocks (ref_id (ref_of r)) k) (req_to_new_blocks l))
       (dict_set (ref_id (ref_of r)) n (num_scheduled_tokens l)) (token_budget l - n) inputs budget (scheduled_spec_decode_tokens l) (req_index l))).
  { apply (step_add cfg hc [] (set_waiting q2 s) wl2 _ wl4 l _ (ref_of r) r' n Hs2 Hfin (step_queue _ _ q2 ST2)); try done.
    - sched. cbn. by rewrite Hid, lookup_insert_eq.
    - unfold scheduled_refs. cbn [scheduled_running scheduled_new scheduled_resumed]. rewrite Hnew. symmetry. apply Permutation_middle.
    - lia.
    - intros x. sched. rewrite elem_of_app, list_elem_of_singleton. done.
    - intros id Hne. sched. cbn. rewrite Hid, lookup_insert_ne by done. split; [done|].
      split; [split; [intros t Ht; by apply Hkept2|intros Hf; by apply Hkept2]|]. split; [done|]. split; [by rewrite dict_get_set, decide_False|by apply Hio].
    - split; cbn [base r' with_base]; change (request_id _) with (request_id (base r)); rewrite ?Hid; cbn.
      + lia.
      + by rewrite dict_get_set, decide_True.
      + done.
      + destruct (sp_spec _ _ _ ST2 (ref_id (ref_of r))) as [-> _].
        * by rewrite (scheduled_key cfg hc [] (set_waiting q2 s) wl2 l (ref_of r) Hs2 (step_queue _ _ q2 ST2) Hin2).
        * unfold reaches. change (num_tokens _) with (num_tokens (base r)). change (py_len (default [] None)) with 0.
          destruct (decide (nl + n < num_tokens (base r))); [by left|right; lia].
      + rewrite dict_get_set, decide_True by done. by eexists.
      + intros ids ->%Hii. by exists ns.
    - cbn. change (num_tokens _) with (num_tokens (base r)). lia. }
  split.
  - exists q4, wl4. split; [exact Hfin|done].
  - exact V3.
  - done.
  - exact (step_queue _ _ q3 Hstep).
  - cbn [scheduled_resumed]. sched. intros x [Hx|[-> Hpre]]%Hresumed; [by apply RS2|]. apply W4; [done|]. apply not_elem_of_nil.
  - sched. unfold py_len in *. rewrite length_app. cbn [length]. lia.
Qed.

Lemma schedule_waiting_ok loras s l skq ws sk r :
  config_ok cfg -> wait_phase s l skq (ref_of r :: ws) sk -> requests s !! ref_id (ref_of r) = Some r ->
  status (base r) = WAITING \/ status (base r) = PREEMPTED -> 0 < token_budget l -> py_len (running s) <> max_num_running_reqs cfg ->
  exists res s', schedule_waiting cfg r loras s l = Ok (res, s') /\
    match res with
    | None => wait_phase s' l skq (ref_of r :: ws) sk /\ prev_step_scheduled_req_ids s' = prev_step_scheduled_req_ids s
    | Some (s2, l2, _) => wait_phase s2 l2 skq ws sk /\ prev_step_scheduled_req_ids s2 = prev_step_scheduled_req_ids s /\
        preempted l2 = preempted l
    end.
Proof.
  intros Hcfg Hw Er Hst Hb Hlen. pose proof Hw as [(q & wl & Hs & Hwl) V S ST RS LN].
  destruct (st_reqs _ _ _ _ _ Hs _ _ Er) as [Hok _]. pose proof (ro_id _ _ _ _ Hok) as Hid.
  assert (Hinw : ref_of r ∈ wl) by (rewrite Hwl; set_solver). destruct (st_wait _ _ _ _ _ Hs r Er Hinw) as [W1 W2 W3 W4].
  pose proof (ro_tokens _ _ _ _ Hok) as Htok. unfold schedule_waiting. rewrite W2. cbn [Z.eqb].
  destruct (kv_computed_ok (kv s) (base r)) as (b & nl & k1 & -> & Hk1 & Hnl & Hready & Hkept1).
  { apply (st_kv _ _ _ _ _ Hs). } { done. } { apply (ro_hashed _ _ _ _ Hok). } { unfold max_len in *; lia. }
  cbn [mbind result_bind].
  pose proof (wait_caches s l sk _ skq k1 (enc s) Hw Hk1 (st_enc _ _ _ _ _ Hs) Hkept1) as Hw1.
  assert (Hse : set_enc (enc s) (set_kv k1 s) = set_kv k1 s) by by destruct s. rewrite Hse in Hw1. set (s1 := set_kv k1 s) in *.
  destruct (waiting_tokens_ok (base r) nl (token_budget l) ltac:(lia) Hb) as (o & -> & Ho). cbn [mbind result_bind].
  destruct o as [n|]; [|by exists None, s1]. destruct (Ho n eq_refl) as [Hn Hnn].
  destruct Hw1 as [(q1 & wl1 & Hs1 & Hwl1) V1 S1 ST1 RS1 LN1].
  destruct (plan_encoder_ok cfg hc [] (set_waiting q1 s1) wl1 (base r) nl n (encoder_compute_budget l) Hs1)
    as (p & e & Ep & Hew & Hpl & Hpn & Hpb & Hne0); [apply (ro_good _ _ _ _ Hok)|lia|lia|apply (sp_encoder _ _ _ ST1)|].
  change (enc (set_waiting q1 s1)) with (enc s1) in Ep. rewrite Ep. cbn [mbind result_bind].
  set (n' := EncoderSched.num_new_tokens p) in *. set (s2 := set_enc e s1).
  assert (Hw2 : wait_phase s2 l skq (ref_of r :: ws) sk).
  { pose proof (wait_caches s1 l sk (ref_of r :: ws) skq k1 e) as H. replace (set_kv k1 s1) with s1 in H by by destruct s.
    apply H; [by split; eauto|done|done|]. by intros id; split. }
  destruct (has_encoder_inputs (base r) && (n' =? 0)) eqn:Ez; [by exists None, s2|].
  unfold mamba_block_aligned_split. rewrite (co_mamba _ Hcfg).
  assert (Hn1 : 1 <= n').
  { destruct (has_encoder_inputs (base r)) eqn:Eh; cbn [andb] in Ez; [apply Z.eqb_neq in Ez; lia|]. rewrite Hne0 by done. lia. }
  destruct (kv_start_ok (kv s2) (base r) b nl n' 0
    (if is_encoder_decoder (encoder_settings cfg) && has_encoder_inputs (base r) then num_encoder_max_input_tokens cfg else 0))
    as (res & k2 & -> & Hk2 & Hkept2 & Hres).
  { done. } { by apply Hkept1. } { done. } { apply (ro_hashed _ _ _ _ Hok). } { done. } { lia. } { done. } { unfold max_len in *; lia. } { done. }
  cbn [mbind result_bind]. set (s3 := set_kv k2 s2). rewrite Hid in *.
  destruct res as [nb|].
  2:{ assert (Hw3 : forall e', ec_wf e' -> wait_phase (set_enc e' s3) l skq (ref_of r :: ws) sk).
      { intros e' He'. apply wait_caches; [done|done|done|]. intros id. apply Hkept2. by right. }
      change (enc s3) with e. destruct (has_encoder_inputs (base r)).
      - destruct (ec_plan_free e "" [] (EncoderSched.mkLocals 0 0 [] [] ∅ 0) (base r) Hew) as (e' & -> & Hew' & _);
          [by apply ec_plan_none|apply (ro_good _ _ _ _ Hok)|]. cbn [mbind result_bind]. exists None, (set_enc e' s3). split; [done|]. split; [by apply Hw3|done].
      - cbn [mbind result_bind]. exists None, (set_enc e s3). split; [done|]. split; [by apply Hw3|done]. }
  specialize (Hres ltac:(done)).
  destruct (start_request_ok loras s2 l skq ws sk r k2 p nl n' Hcfg Hw2 Er Hst Hlen Hk2 (fun id H => Hkept2 id (or_introl H)) Hres)
    as (s4 & l4 & loras4 & Est & Hw4 & Hp4 & Hpre4); [lia|lia|lia|done|done|].
  change (set_kv k2 s2) with s3 in Est. rewrite Est. cbn [mbind result_bind]. by exists (Some (s4, l4, loras4)), s3.
Qed.

(** Writing a waiting request back with another waiting status. *)
Lemma wait_put s l skq ws sk r r' :
  wait_phase s l skq ws sk -> requests s !! ref_id (ref_of r) = Some r -> ref_of r ∈ sk ++ ws ->
  r' = r \/ (r' = with_base (set_status WAITING) r /\ status (base r) = WAITING_FOR_FSM) -> wait_phase (put_req r' s) l skq ws sk.
Proof.
  intros Hw Er Hin Hr'. pose proof Hw as [(q & wl & Hs & Hwl) V S ST RS LN].
  destruct (st_reqs _ _ _ _ _ Hs _ _ Er) as [Hok _]. pose proof (ro_id _ _ _ _ Hok) as Hid.
  assert (Hinw : ref_of r ∈ wl) by by rewrite Hwl. pose proof (st_wait _ _ _ _ _ Hs r Er Hinw) as Hwait.
  destruct Hr' as [->|[-> Hst]].
  - replace (put_req r s) with s; [done|]. destruct s. unfold put_req, set_requests. cbn. f_equal. symmetry. apply insert_id. by rewrite Hid.
  - set (r' := with_base (set_status WAITING) r).
    assert (Hok' : req_ok cfg hc (ref_id (ref_of r)) r') by (destruct Hok; by split).
    assert (Hnr : ref_of r ∉ running s).
    { pose proof (st_nodup _ _ _ _ _ Hs) as N. apply NoDup_app in N as (_ & Hd & _). intros Hx. by apply (Hd (ref_of r)). }
    split; try done.
    + exists q, wl. split; [|done]. apply (store_put cfg hc [] (set_waiting q s) wl r r'); try done.
      intros _. destruct Hwait as [W1 W2 W3 W4]. split; cbn; [by left|done|done|done].
    + destruct ST as [B EB N Q R EA I SP]. split; try done.
      * intros x Ex Hx. assert (Hne : ref_id (ref_of x) <> ref_id (ref_of r)).
        { intros Heq. apply Hnr. replace (ref_of r) with (ref_of x); [by apply R|].
          apply (ref_inj cfg hc [] (set_waiting q s) wl); [done|apply R in Hx; set_solver|set_solver|done]. }
        sched. cbn in Ex. rewrite Hid, lookup_insert_ne in Ex by done. destruct (EA x Ex Hx) as (n & [? ? ? ? ? ?]). exists n. by split.
      * intros x Ex Hx. sched. cbn in Ex. assert (Hne : ref_id (ref_of x) <> ref_id (ref_of r)).
        { intros Heq. apply Hnr. replace (ref_of r) with (ref_of x); [done|].
          apply (ref_inj cfg hc [] (set_waiting q s) wl); [done|sched; set_solver|set_solver|done]. }
        rewrite Hid, lookup_insert_ne in Ex by done. by apply I.
Qed.

Context (grammar_ready : string -> bool).

Lemma admit_head_ok r loras :
  max_loras cfg = None -> waiting_status (status (base r)) ->
  exists b r', admit_head cfg grammar_ready r loras = Ok (b, r') /\
    (r' = r \/ (r' = with_base (set_status WAITING) r /\ status (base r) = WAITING_FOR_FSM)) /\
    (b = true -> status (base r') = WAITING \/ status (base r') = PREEMPTED).
Proof.
  intros Hl Hst. unfold admit_head, too_many_loras. rewrite Hl.
  destruct (status (base r)) eqn:Es; try (by destruct Hst as [?|[?|?]]); cbn [negb].
  - exists true, r. split; [done|]. split; [by left|]. by left.
  - destruct (grammar_ready _); [exists true, (with_base (set_status WAITING) r)|exists false, r]; (split; [done|]).
    + split; [by right|]. by left.
    + split; [by left|done].
  - exists true, r. split; [done|]. split; [by left|]. by right.
Qed.

Lemma waiting_loop_ok fuel : config_ok cfg -> forall s l skq ws sk loras,
  (length ws < fuel)%nat -> wait_phase s l skq ws sk ->
  exists skq' s' l' ws' sk', waiting_loop cfg grammar_ready fuel skq loras s l = Ok (skq', s', l') /\ wait_phase s' l' skq' ws' sk' /\
    prev_step_scheduled_req_ids s' = prev_step_scheduled_req_ids s /\ preempted l' = preempted l.
Proof.
  intros Hcfg. induction fuel as [|fuel IH]; intros s l skq ws sk loras Hf Hw; [lia|]. cbn [waiting_loop].
  pose proof Hw as [(q & wl & Hs & Hwl) V (skv & S & Hsk) ST RS LN]. rewrite (len_view _ _ _ V).
  destruct (Z.eqb_spec (py_len ws) 0) as [|Hne]; cbn [orb]; [by exists skq, s, l, ws, sk|].
  destruct (Z.leb_spec (token_budget l) 0) as [|Hb]; [by exists skq, s, l, ws, sk|].
  destruct (Z.eqb_spec (py_len (running s)) (max_num_running_reqs cfg)) as [|Hlen]; [by exists skq, s, l, ws, sk|].
  destruct ws as [|ref ws]; [done|]. destruct (pop_view _ _ _ V) as (-> & q' & Epop & V'). cbn [mbind result_bind].
  destruct (store_ref cfg hc [] (set_waiting q s) wl ref Hs) as (r & Er & Href & Hok & Hg); [rewrite Hwl; set_solver|].
  change (get_req (ref_id ref) s) with (get_req (ref_id ref) (set_waiting q s)). rewrite Hg. subst ref. cbn [mbind result_bind].
  assert (Hin : ref_of r ∈ sk ++ ref_of r :: ws) by set_solver. sched.
  destruct (st_wait _ _ _ _ _ Hs r Er ltac:(by rewrite Hwl)) as [W1 _ _ _].
  destruct (admit_head_ok r loras (co_loras _ Hcfg) W1) as (b & r' & -> & Hr' & Hst). cbn [mbind result_bind].
  pose proof (wait_put s l skq (ref_of r :: ws) sk r r' Hw Er Hin Hr') as Hw'.
  assert (Href' : ref_of r' = ref_of r) by by destruct Hr' as [->|[-> _]].
  assert (Hid' : request_id (base r') = ref_id (ref_of r)) by (rewrite <- (ro_id _ _ _ _ Hok); by destruct Hr' as [->|[-> _]]).
  change (waiting (set_requests _ s)) with (waiting s). change (set_requests (<[request_id (base r') := r']> (requests s)) s) with (put_req r' s).
  destruct b; cbn [negb].
  - destruct (schedule_waiting_ok loras (put_req r' s) l skq ws sk r' Hcfg) as (res & s1 & -> & Hres).
    { by rewrite Href'. } { sched. cbn. by rewrite Href', Hid', lookup_insert_eq. } { by apply Hst. } { done. } { done. }
    cbn [mbind result_bind]. destruct res as [[[s2 l2] loras2]|].
    + destruct Hres as (Hw2 & Hp2 & Hpre2). destruct (IH s2 l2 skq ws sk loras2 ltac:(cbn in Hf; lia) Hw2) as (a & s3 & l3 & ws3 & sk3 & E3 & H1 & H2 & H3).
      exists a, s3, l3, ws3, sk3. split; [done|]. split; [done|]. rewrite H2, H3. done.
    + destruct Hres as [Hw1 Hp1]. exists skq, s1, l, (ref_of r' :: ws), sk. done.
  - rewrite Epop. cbn [mbind result_bind]. destruct (prepend_view _ (ref_of r) _ _ S) as (skq' & -> & S'). cbn [mbind result_bind].
    destruct (IH (set_waiting q' (put_req r' s)) l skq' ws (ref_of r :: sk) loras) as (a & s3 & l3 & ws3 & sk3 & E3 & H1 & H2 & H3).
    + cbn in Hf. lia.
    + destruct Hw' as [(q2 & wl2 & Hs2 & Hwl2) V2 _ ST2 RS2 LN2]. split; try done.
      * exists q2, wl2. split; [exact Hs2|]. rewrite Hwl2. cbn. symmetry. apply Permutation_middle.
      * exists (spec_prepend (policy cfg) (ref_of r) skv). split; [done|]. by rewrite prepend_perm, Hsk.
      * by apply step_queue.
    + exists a, s3, l3, ws3, sk3. done.
Qed.

(** * Between the calls *)

(** A request that was scheduled in the step [spec] belongs to: its new tokens are
    counted as computed. *)
Record in_flight (spec : dict (list Z)) (r : sreq) : Prop := {
  if_computed : 1 <= num_computed_tokens (base r);
  if_reach : reaches (base r) (num_computed_tokens (base r)) (dict_get (request_id (base r)) spec);
  if_chunk : is_prefill_chunk r = (num_computed_tokens (base r) <? num_tokens (base r));
}.

(** The invariant between two calls; [nst] and [spec] are the tokens and the draft
    tokens the last [schedule] handed out, as long as their output is missing. *)
Record state_ok (nst : dict Z) (spec : dict (list Z)) (s : scheduler K E) (wl : list req_ref) : Prop := {
  so_store : store_ok cfg hc [] s wl;
  so_len : py_len (running s) <= max_num_running_reqs cfg;
  so_keys : NoDup (keys nst);
  so_pos id n : (id, n) ∈ nst -> 1 <= n;
  so_each r : requests s !! ref_id (ref_of r) = Some r -> ref_of r ∈ running s ->
    if decide (ref_id (ref_of r) ∈ keys nst) then in_flight spec r else num_computed_tokens (base r) < num_tokens (base r);
}.

(** ** [_update_after_schedule] *)

(** Once the requests of [pre] have advanced. *)
Record advanced (nst : dict Z) (spec : dict (list Z)) (pre : dict Z) (s : scheduler K E) (wl : list req_ref) : Prop := {
  av_store : store_ok cfg hc [] s wl;
  av_each r : requests s !! ref_id (ref_of r) = Some r -> ref_of r ∈ running s ->
    if decide (ref_id (ref_of r) ∈ keys pre) then in_flight spec r
    else match dict_get (ref_id (ref_of r)) nst with
         | Some n => 1 <= n /\ kv_slots (kv s) (ref_id (ref_of r)) (num_computed_tokens (base r) + n) /\
             reaches (base r) (num_computed_tokens (base r) + n) (dict_get (ref_id (ref_of r)) spec)
         | None => num_computed_tokens (base r) < num_tokens (base r)
         end;
  av_known id : id ∈ keys nst -> exists ref, ref ∈ running s /\ ref_id ref = id;
}.

Lemma advance_ok nst spec pre id n post s wl :
  nst = pre ++ (id, n) :: post -> NoDup (keys nst) -> advanced nst spec pre s wl ->
  exists s', advance cfg s (id, n) = Ok s' /\ advanced nst spec (pre ++ [(id, n)]) s' wl /\ running s' = running s /\
    finished_req_ids s' = finished_req_ids s /\ prev_step_scheduled_req_ids s' = prev_step_scheduled_req_ids s /\ kv s' = kv s.
Proof.
  intros En Hnd [Hs Hea Hkn]. assert (Hin : (id, n) ∈ nst) by (subst nst; set_solver).
  pose proof (dict_get_elem _ _ _ Hnd Hin) as Hg.
  destruct (Hkn id ltac:(by apply (list_elem_of_fmap_2 fst _ _ Hin))) as (ref & Hrun & <-).
  destruct (store_ref cfg hc [] s wl ref Hs) as (r & Er & Href & Hok & Hgr); [set_solver|]. subst ref. pose proof (ro_id _ _ _ _ Hok) as Hid.
  unfold advance. rewrite Hgr. cbn [mbind result_bind]. set (r' := with_prefill_chunk _ _).
  change (base (with_base (fun b => set_computed (num_computed_tokens b + n) b) r)) with (base r').
  assert (Hnp : ref_id (ref_of r) ∉ keys pre).
  { intros Hp. subst nst. unfold keys in *. rewrite fmap_app in Hnd. apply NoDup_app in Hnd as (_ & Hd & _). apply (Hd _ Hp). rewrite fmap_cons. left. }
  pose proof (Hea r Er Hrun) as Hr. rewrite decide_False, Hg in Hr by done. destruct Hr as (Hn & Hsl & Hre).
  pose proof (st_run _ _ _ _ _ Hs r Er Hrun) as [U1 U2 U3].
  assert (Hok' : req_ok cfg hc (ref_id (ref_of r)) r') by (destruct Hok; by split).
  assert (Hs1 : store_ok cfg hc [] (put_req r' s) wl).
  { apply (store_put cfg hc [] s wl r r'); try done.
    - intros Hw. pose proof (st_nodup _ _ _ _ _ Hs) as N. apply NoDup_app in N as (_ & Hd & _). by destruct (Hd _ Hrun).
    - intros _. split; [done|cbn; lia|]. cbn. by rewrite Hid. }
  assert (exists e, (if has_encoder_inputs (base r') then e ← free_encoder_inputs (encoder_settings cfg) (base r') (enc (put_req r' s)); Ok (set_enc e (put_req r' s))
    else Ok (put_req r' s)) = Ok (set_enc e (put_req r' s)) /\ ec_wf e) as (e & -> & He).
  { pose proof (st_enc _ _ _ _ _ Hs) as Hew. change (enc (put_req r' s)) with (enc s). destruct (has_encoder_inputs (base r')).
    - destruct (ec_free_inputs_ok (enc s) (base r') Hew) as (e & -> & He); [apply (ro_good _ _ _ _ Hok')|]. by exists e.
    - exists (enc s). by destruct s. }
  eexists. split; [reflexivity|]. split; [|done]. split; [by apply store_enc|sched|sched; done].
  intros x Ex Hx. cbn in Ex. rewrite Hid in Ex. unfold keys. rewrite fmap_app. change ((pre.*1) ++ [(ref_id (ref_of r), n)].*1) with (keys pre ++ [ref_id (ref_of r)]).
  destruct (decide (ref_id (ref_of x) = ref_id (ref_of r))) as [Hd|Hne].
  - rewrite Hd, lookup_insert_eq in Ex. injection Ex as <-. rewrite decide_True by set_solver.
    split; cbn; [lia|by rewrite Hid|]. by rewrite (ro_placeholders _ _ _ _ Hok), Z.add_0_r.
  - rewrite lookup_insert_ne in Ex by done. pose proof (Hea x Ex Hx) as Hxx.
    destruct (decide (ref_id (ref_of x) ∈ keys pre)); [rewrite decide_True by set_solver|rewrite decide_False by set_solver]; done.
Qed.

Lemma update_after_schedule_ok nst spec s wl :
  NoDup (keys nst) -> advanced nst spec [] s wl ->
  exists s', update_after_schedule cfg nst s = Ok s' /\ advanced nst spec nst s' wl /\ running s' = running s /\
    prev_step_scheduled_req_ids s' = prev_step_scheduled_req_ids s.
Proof.
  intros Hnd Ha. unfold update_after_schedule.
  destruct (foldM_inv (advance cfg) (fun pre s' => advanced nst spec pre s' wl /\ running s' = running s /\
    prev_step_scheduled_req_ids s' = prev_step_scheduled_req_ids s) nst s) as (s' & -> & Ha' & Hr & Hp); [done|..].
  - intros pre [id n] post s1 En (H1 & H2 & H3). destruct (advance_ok nst spec pre id n post s1 wl En Hnd H1) as (s2 & E2 & A2 & R2 & _ & P2 & _).
    exists s2. split; [done|]. split; [done|]. by rewrite R2, P2.
  - cbn [mbind result_bind]. eexists. split; [reflexivity|]. split; [|done].
    destruct Ha' as [[V N R Q W U G KW EW] A1 A2]. split; [by split|done|done].
Qed.

(** ** The loops *)

Lemma initial_phase s wl : config_ok cfg -> state_ok [] [] s wl -> running_phase cfg s (initial_locals cfg).
Proof.
  intros Hcfg [Hs Hl _ _ He]. split; [split|done|by intros ref ?%elem_of_nil]; try done.
  - split; [cbn; lia|apply (co_tokens _ Hcfg)].
  - apply (co_encoder _ Hcfg).
  - constructor.
  - by intros ref ?%elem_of_nil.
  - by intros r _ ?%elem_of_nil.
Qed.

(** What the two loops leave, once the skipped requests are back in the queue. *)
Record loops_done (s : scheduler K E) (l : locals_) (wl : list req_ref) : Prop := {
  ld_store : store_ok cfg hc (preempted l) s wl;
  ld_step : step_ok cfg s l;
  ld_resumed ref : ref ∈ scheduled_resumed l -> ref_id ref ∉ prev_step_scheduled_req_ids s;
  ld_len : py_len (running s) <= max_num_running_reqs cfg;
}.

Lemma prepend_all_perm p rs l : spec_prepend_all p rs l ≡ₚ rs ++ l.
Proof. destruct p; cbn; [by rewrite <- Permutation_rev|apply inserts_perm]. Qed.

(** The skipped requests go back. *)
Lemma put_back_ok s l skq ws sk : wait_phase s l skq ws sk -> preempted l = [] ->
  exists q wl, (if queue_len skq =? 0 then Ok (waiting s) else prepend_requests skq (waiting s)) = Ok q /\ loops_done (set_waiting q s) l wl.
Proof.
  intros [(q & wl & Hs & Hwl) V (skv & S & Hsk) ST RS LN] Hp. rewrite (len_view _ _ _ S).
  assert (exists q' wl', (if py_len skv =? 0 then Ok (waiting s) else prepend_requests skq (waiting s)) = Ok q' /\
    queue_view (policy cfg) q' wl' /\ wl' ≡ₚ wl) as (q' & wl' & -> & V' & Hwl').
  { destruct (Z.eqb_spec (py_len skv) 0) as [He|He].
    - exists (waiting s), ws. split; [done|]. split; [done|]. destruct skv; [|done]. apply Permutation_nil_l in Hsk. subst sk. by rewrite Hwl.
    - destruct (prepend_all_view _ _ _ _ _ S V) as (q' & -> & V'). eexists _, _. split; [done|]. split; [done|].
      by rewrite prepend_all_perm, Hwl, Hsk. }
  exists q', wl'. split; [done|]. split; [|by apply step_queue|done|done]. rewrite Hp.
  exact (store_queue [] (set_waiting q s) wl q' wl' Hs V' Hwl').
Qed.

(** Both loops of [schedule]. *)
Lemma schedule_loops_ok s wl : config_ok cfg -> state_ok [] [] s wl ->
  exists s1 l1 skq s2 l2 q wl2,
    running_loop cfg (S (length (running s))) s (initial_locals cfg) = Ok (s1, l1) /\ running_loras cfg s1 l1 = Ok ∅ /\
    (match preempted l1 with
     | [] => waiting_loop cfg grammar_ready (S (Z.to_nat (queue_len (waiting s1)))) (create_request_queue (policy cfg)) ∅ s1 l1
     | _ => Ok (create_request_queue (policy cfg), s1, l1)
     end) = Ok (skq, s2, l2) /\
    (if queue_len skq =? 0 then Ok (waiting s2) else prepend_requests skq (waiting s2)) = Ok q /\
    loops_done (set_waiting q s2) l2 wl2.
Proof.
  intros Hcfg Hst. pose proof (initial_phase s wl Hcfg Hst) as Hph. destruct Hst as [Hs Hl _ _ He].
  destruct (running_loop_ok cfg hc (S (length (running s))) Hcfg s wl (initial_locals cfg)) as (s1 & l1 & wl1 & -> & Hs1 & Hph1 & Hp1 & Hlen1);
    [cbn; lia|done|done|].
  assert (Hl1 : py_len (running s1) <= max_num_running_reqs cfg) by (unfold py_len in *; lia).
  destruct (rp_new _ _ _ Hph1) as [Hn1 Hr1]. pose proof (rp_step _ _ _ Hph1) as Hstep1.
  assert (Hres : forall ref, ref ∈ scheduled_resumed l1 -> ref_id ref ∉ prev_step_scheduled_req_ids s1) by (rewrite Hr1; by intros ref ?%elem_of_nil).
  assert (Hlo : running_loras cfg s1 l1 = Ok ∅) by (unfold running_loras; by rewrite (co_loras _ Hcfg)).
  destruct (preempted l1) as [|p ps] eqn:Ep.
  - assert (Hw : wait_phase s1 l1 (create_request_queue (policy cfg)) wl1 []).
    { pose proof (st_view _ _ _ _ _ Hs1) as V1. split; try done.
      - exists (waiting s1), wl1. split; [|done]. by destruct s1.
      - exists []. split; [|done]. destruct (policy cfg); [done|]. split; [|by split; [|constructor]]. intros ? ? ? ? _ _ ?; by rewrite lookup_nil. }
    destruct (waiting_loop_ok (S (Z.to_nat (queue_len (waiting s1)))) Hcfg s1 l1 (create_request_queue (policy cfg)) wl1 [] ∅) as (skq & s2 & l2 & ws2 & sk2 & E2 & Hw2 & _ & Hp2).
    { rewrite (len_view _ _ _ (st_view _ _ _ _ _ Hs1)). unfold py_len. lia. } { done. }
    destruct (put_back_ok s2 l2 skq ws2 sk2 Hw2) as (q & wl2 & Eq & Hd); [congruence|].
    exists s1, l1, skq, s2, l2, q, wl2. by rewrite Ep.
  - exists s1, l1, (create_request_queue (policy cfg)), s1, l1, (waiting s1), wl1. rewrite Ep.
    assert (H0 : queue_len (create_request_queue (policy cfg)) = 0) by by destruct (policy cfg). rewrite H0.
    replace (set_waiting (waiting s1) s1) with s1 by by destruct s1. split; [done|]. split; [done|]. split; [done|]. split; [done|]. split; try done. by rewrite Ep.
Qed.

(** ** The data for the workers *)

Lemma done_lookup s l wl ref : loops_done s l wl -> ref ∈ scheduled_refs l ->
  exists r n, get_req (ref_id ref) s = Ok r /\ ref_of r = ref /\ requests s !! ref_id ref = Some r /\ req_ok cfg hc (ref_id ref) r /\ scheduled s l r n.
Proof.
  intros [Hs Hst _ _] Hin. pose proof (sp_running _ _ _ Hst _ Hin) as Hr.
  destruct (store_ref cfg hc (preempted l) s wl ref Hs) as (r & Er & Href & Hok & Hg); [set_solver|]. subst ref.
  destruct (sp_each _ _ _ Hst r Er Hin) as (n & Hn). by exists r, n.
Qed.

Lemma loops_done_kv s l wl k : loops_done s l wl -> kv_wf k -> (forall id, kv_kept id (kv s) k) -> loops_done (set_kv k s) l wl.
Proof.
  intros [Hs Hst Hr Hl] Hk Hkept. split; [by apply store_kv| |done|done].
  assert (H : set_enc (enc s) (set_kv k s) = set_kv k s) by by destruct s. rewrite <- H.
  exact (step_caches cfg hc (preempted l) s wl l k (enc s) Hs Hst (fun x _ => Hkept (ref_id x))).
Qed.

Lemma new_data_ok s l wl refs : loops_done s l wl -> refs ⊆ scheduled_refs l -> exists ds, mapR (new_request_data cfg s l) refs = Ok ds.
Proof.
  intros Hd. induction refs as [|ref refs IH]; intros Hsub; [by eexists|]. cbn [mapR].
  destruct (done_lookup s l wl ref Hd) as (r & n & Hg & Href & _ & Hok & [_ _ _ _ [b S5] _]); [set_solver|].
  rewrite (ro_id _ _ _ _ Hok) in S5. assert (exists d, new_request_data cfg s l ref = Ok d) as [d ->].
  { unfold new_request_data. rewrite Hg, S5. cbn [of_option mbind result_bind]. by eexists. }
  destruct IH as [ds ->]; [set_solver|]. cbn [mbind result_bind]. by eexists.
Qed.

Lemma add_cached_ok b s l wl d ref : loops_done s l wl -> ref ∈ scheduled_refs l -> (b = true -> ref_id ref ∉ prev_step_scheduled_req_ids s) ->
  exists d', add_cached cfg b s l d ref = Ok d'.
Proof.
  intros Hd Hin Hb. destruct (done_lookup s l wl ref Hd Hin) as (r & n & Hg & Href & _ & Hok & [_ S2 _ _ [bl S5] _]).
  rewrite (ro_id _ _ _ _ Hok) in S2, S5. unfold add_cached. rewrite Hg, S2, S5. cbn [of_option mbind result_bind].
  destruct (use_pp cfg), b; cbn [of_option mbind result_bind py_assert]; rewrite ?bool_decide_eq_false_2 by (by apply Hb); cbn; by eexists.
Qed.

Lemma cached_data_ok s l wl resumed : loops_done s l wl -> resumed ⊆ scheduled_resumed l ->
  exists d, make_cached_request_data cfg (scheduled_running l) resumed s l = Ok d.
Proof.
  intros Hd Hsub. unfold make_cached_request_data.
  destruct (foldM_inv (add_cached cfg false s l) (fun _ _ => True) (scheduled_running l) (mkCached [] [] [] [] [] [] [])) as (d & -> & _); [done|..].
  - intros pre a post d Hl _. destruct (add_cached_ok false s l wl d a Hd) as (d' & ->); [|done|by eexists]. unfold scheduled_refs. rewrite Hl. set_solver.
  - cbn [mbind result_bind]. destruct (foldM_inv (add_cached cfg true s l) (fun _ _ => True) resumed d) as (d' & -> & _); [done|..|by eexists].
    intros pre a post d0 Hl _. assert (Ha : a ∈ scheduled_resumed l) by (apply Hsub; rewrite Hl; set_solver).
    destruct (add_cached_ok true s l wl d0 a Hd) as (d' & ->); [unfold scheduled_refs; set_solver|intros _; by apply (ld_resumed _ _ _ Hd)|by eexists].
Qed.

(** The ids of the step replace those of the last one: a request preempted in this
    step is not among them. *)
Lemma set_prev_ok s l wl e : loops_done s l wl -> ec_wf e ->
  advanced (num_scheduled_tokens l) (scheduled_spec_decode_tokens l) [] (set_enc e (set_prev (list_to_set (keys (num_scheduled_tokens l))) s)) wl.
Proof.
  intros Hd He. pose proof Hd as [Hs Hst _ _]. split; sched.
  - pose proof Hs as [V N R Q W U G KW EW]. split; sched; try done. intros r Er Hw. destruct (W r Er Hw) as [W1 W2 W3 _]. split; try done.
    intros _ _. rewrite elem_of_list_to_set. destruct (Q _ _ Er) as [Hok _]. rewrite (ro_id _ _ _ _ Hok).
    rewrite (scheduled_key cfg hc (preempted l) s wl l (ref_of r) Hs Hst) by set_solver.
    intros Hx%(sp_running _ _ _ Hst). apply NoDup_app in N as (_ & Hdis & _). by apply (Hdis (ref_of r)).
  - intros r Er Hr. rewrite decide_False by apply not_elem_of_nil. destruct (st_reqs _ _ _ _ _ Hs _ _ Er) as [Hok _]. pose proof (ro_id _ _ _ _ Hok) as Hid.
    destruct (dict_get (ref_id (ref_of r)) (num_scheduled_tokens l)) as [n|] eqn:Eg; [|by apply (sp_idle _ _ _ Hst)].
    assert (Hin : ref_of r ∈ scheduled_refs l).
    { apply (scheduled_key cfg hc (preempted l) s wl l (ref_of r) Hs Hst); [set_solver|].
      apply dict_get_Some in Eg. by apply (list_elem_of_fmap_2 fst _ _ Eg). }
    destruct (sp_each _ _ _ Hst r Er Hin) as (m & [S1 S2 S3 S4 _ _]). rewrite Hid in *. rewrite Eg in S2. injection S2 as <-. done.
  - intros id. rewrite (sp_keys _ _ _ Hst), list_elem_of_fmap. intros (ref & -> & Hin). exists ref. split; [|done]. by apply (sp_running _ _ _ Hst).
Qed.

(** ** The whole step *)

Lemma asserts_ok s l wl : loops_done s l wl ->
  (sumZ ((num_scheduled_tokens l).*2) <=? max_num_scheduled_tokens cfg) = true /\ (0 <=? token_budget l) = true /\
  (py_len (running s) <=? max_num_running_reqs cfg) = true /\
  (py_len (scheduled_new l) + py_len (scheduled_resumed l) + py_len (scheduled_running l) <=? py_len (running s)) = true.
Proof.
  intros [Hs Hst _ Hl]. destruct (sp_budget _ _ _ Hst) as [Hb Hb0]. rewrite !Z.leb_le. split; [lia|]. split; [done|]. split; [done|].
  assert (Hsub : scheduled_refs l ⊆+ running s) by (apply NoDup_submseteq; [apply (sp_nodup _ _ _ Hst)|apply (sp_running _ _ _ Hst)]).
  apply submseteq_length in Hsub. unfold scheduled_refs in Hsub. rewrite !length_app in Hsub. unfold py_len. lia.
Qed.

Lemma schedule_ok s wl : config_ok cfg -> state_ok [] [] s wl ->
  exists out s' wl', schedule cfg grammar_ready s = Ok (out, s') /\
    state_ok (so_num_scheduled_tokens out) (so_spec_decode_tokens out) s' wl' /\
    so_total out = sumZ ((so_num_scheduled_tokens out).*2) /\ so_total out <= max_num_scheduled_tokens cfg /\
    (forall id, id ∈ keys (so_num_scheduled_tokens out) -> exists r, requests s' !! id = Some r /\ status (base r) = RUNNING).
Proof.
  intros Hcfg Hst. destruct (schedule_loops_ok s wl Hcfg Hst) as (s1 & l1 & skq & s2 & l2 & q & wl2 & E1 & E2 & E3 & E4 & Hd).
  unfold schedule. rewrite E1. cbn [mbind result_bind]. rewrite E2. cbn [mbind result_bind]. rewrite E3. cbn [mbind result_bind].
  rewrite E4. cbn [mbind result_bind]. set (s3 := set_waiting q s2) in *.
  destruct (asserts_ok s3 l2 wl2 Hd) as (A1 & A2 & A3 & A4). rewrite A1, A2, A3, A4. cbn [mbind result_bind py_assert].
  assert (exists common k, (match running s3 with [] => Ok (replicate (kv_num_groups (kv s3)) 0, kv s3) | ref :: _ => kv_common_prefix (ref_id ref) (kv s3) end)
    = Ok (common, k) /\ kv_wf k /\ forall id, kv_kept id (kv s3) k) as (common & k & -> & Hk & Hkept).
  { pose proof (st_kv _ _ _ _ _ (ld_store _ _ _ Hd)) as Hk. destruct (running s3) as [|ref rs].
    - eexists _, _. split; [reflexivity|]. split; [done|]. by split.
    - by apply kv_common_ok. }
  cbn [mbind result_bind]. pose proof (loops_done_kv s3 l2 wl2 k Hd Hk Hkept) as Hd4. set (s4 := set_kv k s3) in *.
  assert (exists nr rr, (if use_v2_model_runner cfg then (scheduled_new l2 ++ scheduled_resumed l2, []) else (scheduled_new l2, scheduled_resumed l2)) = (nr, rr) /\
    nr ⊆ scheduled_refs l2 /\ rr ⊆ scheduled_resumed l2) as (nr & rr & -> & Hnr & Hrr).
  { unfold scheduled_refs. destruct (use_v2_model_runner cfg); eexists _, _; (split; [reflexivity|]); set_solver. }
  destruct (new_data_ok s4 l2 wl2 nr Hd4 Hnr) as (nd & ->). cbn [mbind result_bind].
  destruct (cached_data_ok s4 l2 wl2 rr Hd4 Hrr) as (cd & ->). cbn [mbind result_bind].
  set (s5 := set_prev _ s4). pose proof (ec_taken_ok (enc s5) (st_enc _ _ _ _ _ (ld_store _ _ _ Hd4))) as Het.
  destruct (ec_take_freed (enc s5)) as [freed e]. cbn [snd] in Het.
  assert (Hnd : NoDup (keys (num_scheduled_tokens l2))) by exact (scheduled_ids cfg hc _ s4 wl2 l2 (ld_store _ _ _ Hd4) (ld_step _ _ _ Hd4)).
  pose proof (set_prev_ok s4 l2 wl2 e Hd4 Het) as Hadv. fold s5 in Hadv.
  destruct (update_after_schedule_ok (num_scheduled_tokens l2) (scheduled_spec_decode_tokens l2) _ wl2 Hnd Hadv) as (s6 & -> & [B1 B2 B3] & Hr6 & _).
  cbn [mbind result_bind]. eexists _, s6, wl2. split; [reflexivity|]. cbn [so_num_scheduled_tokens so_spec_decode_tokens so_total].
  apply Z.leb_le in A1, A3. change (running (set_enc e s5)) with (running s3) in Hr6. split; [|split; [done|split; [done|]]].
  - split; [done|by rewrite Hr6|done|..].
    + intros id n Hin. assert (Hik : id ∈ keys (num_scheduled_tokens l2)) by by apply (list_elem_of_fmap_2 fst _ _ Hin).
      rewrite (sp_keys _ _ _ (ld_step _ _ _ Hd4)), list_elem_of_fmap in Hik. destruct Hik as (ref & -> & Hsch).
      destruct (done_lookup s4 l2 wl2 ref Hd4 Hsch) as (r & m & _ & Href & _ & Hok & [S1 S2 _ _ _ _]). rewrite (ro_id _ _ _ _ Hok) in S2.
      rewrite (dict_get_elem _ _ _ Hnd Hin) in S2. congruence.
    + intros r Er Hr. pose proof (B2 r Er Hr) as H. destruct (decide (ref_id (ref_of r) ∈ keys (num_scheduled_tokens l2))) as [Hi|Hi]; [done|].
      by rewrite (proj2 (dict_get_None _ _) Hi) in H.
  - intros id (ref & Hr & <-)%B3. destruct (store_ref cfg hc [] s6 wl2 ref B1) as (r & Er & Href & _); [set_solver|]. exists r. split; [done|].
    subst ref. apply (st_run _ _ _ _ _ B1 r Er Hr).
Qed.
End Step.
