(* ===== verification/SchedulerCalls.v ===== *)
(** The calls between two steps: the output of the model, new and aborted
    requests, draft tokens and the reset of the prefix cache.

    Each call is shown to return and to keep [state_ok].  [update_from_output] is
    proved for every output that satisfies the contract [output_ok] with the model
    runner: nothing for an unfinished prefill, and otherwise between one token and
    one more than the draft tokens. *)
From S2P Require Import Prelude Dict Request BlockHash BlockPool SingleType KVManager EncoderCache EncoderSched RequestQueue Scheduler SchedulerFacts SchedulerStep.
Local Open Scope Z_scope.

(** * Lists of requests *)

Lemma list_remove_filter (x : req_ref) l : NoDup l -> default l (list_remove x l) = filter (fun y => y <> x) l.
Proof.
  intros Hnd. destruct (list_remove x l) as [l'|] eqn:E; cbn [default].
  - apply list_remove_split in E as (pre & post & -> & ->). assert (x ∉ pre ++ post) as Hx.
    { rewrite <- Permutation_middle in Hnd. by apply NoDup_cons in Hnd as [? _]. }
    rewrite filter_app, filter_cons, decide_False, <- filter_app by tauto. symmetry. apply filter_all. by intros y Hy ->.
  - apply list_remove_None in E. symmetry. apply filter_all. by intros y Hy ->.
Qed.

(** [remove_all] removes exactly the given requests. *)
Lemma remove_all_filter l items : NoDup l -> remove_all l items = filter (fun x => x ∉ items) l.
Proof.
  intros Hnd. destruct items as [|x [|y items]]; cbn [remove_all].
  - symmetry. apply filter_all. intros y _. apply not_elem_of_nil.
  - rewrite list_remove_filter by done. apply list_filter_iff. intros y. rewrite list_elem_of_singleton. done.
  - done.
Qed.

(** Only the elements of the list matter. *)
Lemma filter_in_iff {A} (P Q : A -> Prop) `{!forall x, Decision (P x), !forall x, Decision (Q x)} (l : list A) :
  (forall x, x ∈ l -> P x <-> Q x) -> filter P l = filter Q l.
Proof.
  induction l as [|x l IH]; intros Hiff; [done|]. rewrite !filter_cons, IH by (intros y Hy; apply Hiff; by right).
  assert (P x <-> Q x) by (apply Hiff; left).
  destruct (decide (P x)), (decide (Q x)); tauto.
Qed.

(** Requests leave the queue they are in. *)
Lemma drop_split (run wl a b : list req_ref) : NoDup (run ++ wl) -> a ⊆ run -> b ⊆ wl ->
  filter (fun x => x ∉ a ++ b) run = filter (fun x => x ∉ a) run /\ filter (fun x => x ∉ a ++ b) wl = filter (fun x => x ∉ b) wl.
Proof. intros (_ & Hd & _)%NoDup_app Ha Hb. split; apply filter_in_iff; set_solver. Qed.

Lemma drop_waiting policy q wl b : queue_view policy q wl ->
  exists q', (match b with [] => Ok q | r :: l => remove_requests (r :: l) q end) = Ok q' /\ queue_view policy q' (filter (fun x => x ∉ b) wl).
Proof.
  intros V. destruct b as [|x b].
  - exists q. split; [done|]. rewrite filter_all; [done|]. intros x _. apply not_elem_of_nil.
  - apply remove_all_view, V.
Qed.

(** [l[-1]]. *)
Lemma py_index_end {A} (l : list A) : l <> [] -> exists x, py_index l (-1) = Ok x /\ last l = Some x.
Proof.
  intros Hl. destruct l as [|x l] using rev_ind; [done|]. exists x. rewrite last_snoc. split; [|done]. unfold py_index. cbn [Z.ltb Z.compare].
  rewrite length_app. cbn [length]. rewrite (proj2 (Z.ltb_ge _ _)) by lia.
  replace (Z.to_nat (Z.of_nat (length l + 1) + -1)) with (length l) by lia. by rewrite list_lookup_middle.
Qed.

(** * What a request gains *)

(** The tokens [kept] have been appended to a request; its status may have
    changed. *)
Record grown (hc : Request -> Prop) (kept : list Z) (r r' : sreq) : Prop := {
  gr_ref : ref_of r' = ref_of r;
  gr_id : request_id (base r') = request_id (base r);
  gr_features : mm_features (base r') = mm_features (base r);
  gr_computed : num_computed_tokens (base r') = num_computed_tokens (base r);
  gr_placeholders : num_output_placeholders (base r') = num_output_placeholders (base r);
  gr_params : sampling_params r' = sampling_params r;
  gr_output : output_token_ids (base r') = output_token_ids (base r) ++ kept;
  gr_all : all_token_ids (base r') = all_token_ids (base r) ++ kept;
  gr_hashed : hashed hc (base r');
  gr_eos : eos_token_id r' = eos_token_id r;
  gr_max : max_tokens (base r') = max_tokens (base r);
}.

Lemma grown_refl hc r : hashed hc (base r) -> grown hc [] r r.
Proof. intros H. split; try done; by rewrite app_nil_r. Qed.

Lemma grown_trans hc k1 k2 a b c : grown hc k1 a b -> grown hc k2 b c -> grown hc (k1 ++ k2) a c.
Proof.
  intros [A1 A2 A3 A4 A5 A6 A7 A8 A9 A10 A11] [B1 B2 B3 B4 B5 B6 B7 B8 B9 B10 B11].
  split; try done; try congruence; by rewrite ?B7, ?B8, ?A7, ?A8, app_assoc.
Qed.

Lemma grown_num_tokens hc k a b : grown hc k a b ->
  num_tokens (base b) = num_tokens (base a) + py_len k /\ num_output_tokens (base b) = num_output_tokens (base a) + py_len k.
Proof. intros [_ _ _ _ _ _ B7 B8 _ _ _]. unfold num_tokens, num_output_tokens, py_len. rewrite B7, B8, !length_app. lia. Qed.

Lemma grown_status hc k a b st : grown hc k a b -> grown hc k a (with_base (set_status st) b).
Proof. intros [? ? ? ? ? ? ? ? ? ? ?]. by split. Qed.

(** Appending one token. *)
Lemma append_one h t r b : append_output_token_ids h [t] r = Ok b ->
  exists hs, b = with_block_hashes hs (with_tokens (output_token_ids r ++ [t]) (all_token_ids r ++ [t]) r).
Proof.
  unfold append_output_token_ids, update_block_hashes. destruct h as [f|].
  - destruct (f _) as [new|]; [|done]. cbn [mbind result_bind]. intros [= <-]. by eexists.
  - intros [= <-]. exists (block_hashes r). by destruct r.
Qed.

(** * Where a request stops *)

(** Whether request [r] stops once the tokens [k] have been appended to it, with the
    status and the stop reason it then has: never below its minimum; at its
    end-of-sequence token unless that is ignored, at one of its stop tokens, at the
    length of the model or at its maximum. *)
Definition ends_with (max_len : Z) (r : sreq) (k : list Z) : option (RequestStatus * option Z) :=
  match sampling_params r, last k with
  | Some sp, Some t =>
      let n := py_len (output_token_ids (base r) ++ k) in
      if decide (n < min_tokens sp) then None
      else if decide (ignore_eos sp = false /\ eos_token_id r = Some t) then Some (FINISHED_STOPPED, stop_reason r)
      else if decide (t ∈ stop_token_ids sp) then Some (FINISHED_STOPPED, Some t)
      else if decide (max_len <= py_len (all_token_ids (base r) ++ k) \/ max_tokens (base r) <= n) then Some (FINISHED_LENGTH_CAPPED, stop_reason r)
      else None
  | _, _ => None
  end.

(** What a request keeps of the tokens [g] generated for it, and how it ends: the
    tokens up to the first with which it stops, or all.  A pooling request stops with
    its output. *)
Definition kept_tokens (max_len : Z) (r : sreq) (g : list Z) (pooled : bool) (kept : list Z) (res : option (RequestStatus * option Z)) : Prop :=
  match sampling_params r with
  | Some _ => kept `prefix_of` g /\ (forall k, k `prefix_of` kept -> k <> kept -> ends_with max_len r k = None) /\
      ends_with max_len r kept = res /\ (res = None -> kept = g)
  | None => kept = [] /\ g = [] /\ res = if pooled then Some (FINISHED_STOPPED, stop_reason r) else None
  end.

Lemma kept_all max_len r g pooled kept : kept_tokens max_len r g pooled kept None -> kept = g.
Proof. unfold kept_tokens. destruct (sampling_params r); [by intros (_ & _ & _ & H); apply H|by intros (-> & -> & _)]. Qed.

(** Tokens appended before count as tokens of the request. *)
Lemma ends_with_grown hc max_len t k r r1 : grown hc [t] r r1 -> stop_reason r1 = stop_reason r -> k <> [] ->
  ends_with max_len r1 k = ends_with max_len r (t :: k).
Proof.
  intros Hg Hs Hk. unfold ends_with. rewrite (gr_params _ _ _ _ Hg), (gr_output _ _ _ _ Hg), (gr_all _ _ _ _ Hg), (gr_eos _ _ _ _ Hg),
    (gr_max _ _ _ _ Hg), Hs, <- !app_assoc. by destruct k.
Qed.

Section Calls.
Context {K E : Type} `{KV : KVCacheOps K} `{EC : EncoderCacheOps E} `{EF : EncoderCacheFree E}.
Context `{!KVCacheView K} `{!EncoderCacheView E}.
Context (cfg : sched_config) (hc : Request -> Prop).
Let max_len := cfg_max_model_len cfg.
Context `{KL : !KVCacheLaws K max_len hc} `{EL : !EncoderCacheLaws E (encoder_settings cfg)}.

(** The hasher of the requests returns and hashes every full block. *)
Definition hasher_ok : Prop := forall t r, ec_good (mm_features r) -> hashed hc r ->
  exists b, append_output_token_ids (block_hasher cfg) [t] r = Ok b /\ hashed hc b.

(** A request that goes on is still well formed. *)
Lemma grown_ok id k r r' : grown hc k r r' -> req_ok cfg hc id r -> num_tokens (base r') < max_len -> req_ok cfg hc id r'.
Proof.
  intros Hg Hok Hlt. pose proof (grown_num_tokens _ _ _ _ Hg) as [Hn Ho]. destruct Hg as [G1 G2 G3 G4 G5 G6 G7 G8 G9 _ _], Hok as [R1 R2 R3 R4 R5 R6 R7].
  split; [congruence|congruence|by rewrite G3|done|unfold max_len, py_len in *; lia|congruence|]. intros sp Hsp. rewrite G6 in Hsp. specialize (R7 sp Hsp). lia.
Qed.

(** The stop test after one more token. *)
Lemma check_stop_ok t r r0 :
  grown hc [t] r0 r -> stop_reason r = stop_reason r0 -> req_ok cfg hc (request_id (base r0)) r0 -> is_Some (sampling_params r0) ->
  match ends_with max_len r0 [t] with
  | Some (st, why) => exists r', check_stop max_len r = Ok (true, r') /\ grown hc [t] r0 r' /\ status (base r') = st /\ stop_reason r' = why /\
      status_is_finished st = true
  | None => check_stop max_len r = Ok (false, r) /\ num_tokens (base r) < max_len
  end.
Proof.
  intros Hg Hwhy Hok [sp Hsp]. pose proof (grown_num_tokens _ _ _ _ Hg) as [Hn Ho]. unfold check_stop, ends_with.
  rewrite (gr_params _ _ _ _ Hg), (gr_eos _ _ _ _ Hg), (gr_max _ _ _ _ Hg), Hsp. cbn [of_option mbind result_bind last].
  unfold num_output_tokens, num_tokens in *. rewrite (gr_output _ _ _ _ Hg), (gr_all _ _ _ _ Hg) in *.
  pose proof (ro_min _ _ _ _ Hok sp Hsp) as Hmin. change (cfg_max_model_len cfg) with max_len in Hmin. unfold num_output_tokens, num_tokens in Hmin.
  assert (py_index (output_token_ids (base r0) ++ [t]) (-1) = Ok t) as ->.
  { destruct (py_index_end (output_token_ids (base r0) ++ [t])) as (t' & -> & Hl); [by destruct (output_token_ids (base r0))|]. rewrite last_snoc in Hl. congruence. }
  destruct (Z.ltb_spec (py_len (output_token_ids (base r0) ++ [t])) (min_tokens sp)); [rewrite decide_True by done; split; [done|lia]|].
  rewrite decide_False by lia. cbn [mbind result_bind].
  destruct (decide (ignore_eos sp = false /\ eos_token_id r0 = Some t)) as [[-> He]|Hne].
  { rewrite bool_decide_eq_true_2 by done. cbn [negb andb]. eexists. split; [done|]. split; [by apply grown_status|done]. }
  assert (negb (ignore_eos sp) && bool_decide (eos_token_id r0 = Some t) = false) as ->.
  { apply andb_false_iff. rewrite negb_false_iff, bool_decide_eq_false. destruct (ignore_eos sp); [by left|right]. intros ?. by apply Hne. }
  destruct (decide (t ∈ stop_token_ids sp)); [rewrite bool_decide_eq_true_2 by done|rewrite bool_decide_eq_false_2 by done].
  { eexists. split; [done|]. split; [destruct Hg; by split|done]. }
  case_decide as Hlen.
  - rewrite (proj2 (orb_true_iff _ _)) by (rewrite !Z.leb_le; exact Hlen). eexists. split; [done|]. split; [by apply grown_status|done].
  - rewrite (proj2 (orb_false_iff _ _)) by (rewrite !Z.leb_gt; lia). split; [done|lia].
Qed.

(** [_update_request_with_output] keeps a prefix of the tokens: all of them, or up
    to the token that stops the request. *)
Lemma update_tokens_ok ts : hasher_ok -> forall r, req_ok cfg hc (request_id (base r)) r -> is_Some (sampling_params r) ->
  exists kept res r', update_request_with_output cfg r ts = Ok (kept, bool_decide (is_Some res), r') /\
    kept_tokens max_len r ts false kept res /\ grown hc kept r r' /\
    match res with
    | Some (st, why) => status (base r') = st /\ stop_reason r' = why /\ status_is_finished st = true
    | None => status (base r') = status (base r) /\ num_tokens (base r') < max_len
    end.
Proof.
  intros Hh. induction ts as [|t ts IH]; intros r Hok Hsp.
  - exists [], None, r. split; [done|]. split; [|split; [apply grown_refl, (ro_hashed _ _ _ _ Hok)|split; [done|apply (ro_tokens _ _ _ _ Hok)]]].
    destruct Hsp as [sp Hsp]. unfold kept_tokens, ends_with. rewrite Hsp. split; [done|]. split; [|done]. by intros k ->%prefix_nil_inv.
  - cbn [update_request_with_output]. destruct (Hh t (base r) (ro_good _ _ _ _ Hok) (ro_hashed _ _ _ _ Hok)) as (b & Eb & Hb).
    rewrite Eb. cbn [mbind result_bind]. apply append_one in Eb as [hs ->]. set (b := with_block_hashes _ _) in *. set (r1 := with_base (fun _ => b) r).
    assert (Hg1 : grown hc [t] r r1) by by split. change (cfg_max_model_len cfg) with max_len.
    pose proof (check_stop_ok t r1 r Hg1 eq_refl Hok Hsp) as Hst. destruct Hsp as [sp Hsp].
    assert (Hfirst : forall k, k `prefix_of` [t] -> k <> [t] -> ends_with max_len r k = None).
    { intros k [k' Ek] Hk. destruct k as [|x [|y k]]; [unfold ends_with; by rewrite Hsp| |done]. by destruct k'. }
    destruct (ends_with max_len r [t]) as [[st why]|] eqn:Ee.
    + destruct Hst as (r2 & -> & Hg2 & H1 & H2 & H3). cbn [mbind result_bind]. exists [t], (Some (st, why)), r2. split; [done|].
      split; [|done]. unfold kept_tokens. rewrite Hsp. split; [by exists ts|]. done.
    + destruct Hst as [-> Hlt]. cbn [mbind result_bind]. pose proof (grown_ok _ _ _ _ Hg1 Hok Hlt) as Hok1.
      destruct (IH r1 Hok1 ltac:(by exists sp)) as (kept & res & r' & -> & Hk & Hg & Hr). cbn [mbind result_bind].
      exists (t :: kept), res, r'. split; [done|]. split; [|split; [exact (grown_trans _ [t] kept _ _ _ Hg1 Hg)|exact Hr]].
      unfold kept_tokens in *. change (sampling_params r1) with (sampling_params r) in Hk. rewrite Hsp in Hk |- *.
      destruct Hk as (K1 & K2 & K3 & K4). split; [by apply prefix_cons|]. split; [|split; [|by intros ->%K4]].
      * intros k Hk Hne. destruct k as [|x k]; [apply Hfirst; [apply prefix_nil|done]|].
        pose proof (prefix_cons_inv_1 _ _ _ _ Hk) as ->. apply prefix_cons_inv_2 in Hk.
        destruct (decide (k = [])) as [->|Hkn]; [done|]. rewrite <- (ends_with_grown hc max_len t k r r1) by done. apply K2; [done|congruence].
      * destruct (decide (kept = [])) as [->|Hkn]; [|by rewrite <- (ends_with_grown hc max_len t kept r r1)].
        rewrite Ee, <- K3. unfold ends_with. by destruct (sampling_params r1).
Qed.

(** * A request leaves *)

(** [_free_request] does not look at the queues. *)
Lemma free_request_queues r q l (s : scheduler K E) :
  free_request r (set_waiting q (set_running l s)) = (s' ← free_request r s; Ok (set_waiting q (set_running l s'))).
Proof.
  unfold free_request. sched. destruct (py_assert _); [|done]. cbn [mbind result_bind]. destruct (ec_free _ _); [|done]. cbn [mbind result_bind].
  by destruct (kv_free _ _).
Qed.

(** The request disappears from the store and from its queue; everything the others
    hold survives. *)
Lemma free_request_ok s wl r r' q :
  store_ok cfg hc [] s wl -> requests s !! ref_id (ref_of r) = Some r ->
  request_id (base r') = ref_id (ref_of r) -> ec_good (mm_features (base r')) -> status_is_finished (status (base r')) = true ->
  queue_view (policy cfg) q (filter (fun x => x <> ref_of r) wl) ->
  exists s', free_request r' s = Ok s' /\ requests s' = delete (ref_id (ref_of r)) (requests s) /\
    finished_req_ids s' = {[ref_id (ref_of r)]} ∪ finished_req_ids s /\ running s' = running s /\ waiting s' = waiting s /\
    store_ok cfg hc [] (set_waiting q (set_running (filter (fun x => x <> ref_of r) (running s)) s')) (filter (fun x => x <> ref_of r) wl).
Proof.
  intros Hs Er Hid Hgood Hfin Hq. pose proof Hs as [V N R Q W U G KW EW]. unfold free_request. rewrite Hfin. cbn [py_assert mbind result_bind].
  destruct (ec_plan_free (enc s) "" [] (EncoderSched.mkLocals 0 0 [] [] ∅ 0) (base r') EW) as (e' & -> & EW' & _); [by apply ec_plan_none|done|].
  cbn [mbind result_bind]. sched. destruct (kv_free_law (kv s) (base r') KW) as (k' & -> & KW' & Hf & Hkept). cbn [mbind result_bind]. rewrite Hid in *.
  eexists. split; [reflexivity|]. sched. do 4 (split; [done|]).
  assert (Hne : forall x, requests s !! ref_id (ref_of x) = Some x -> ref_of x <> ref_of r -> ref_id (ref_of x) <> ref_id (ref_of r)).
  { intros x Ex Hx Heq. apply Hx. rewrite Heq, Er in Ex. by injection Ex as ->. }
  split; sched; rewrite <- ?filter_app; [done|by apply NoDup_filter|..|done|done].
  - intros ref [Hx Hin]%list_elem_of_filter. destruct (R ref Hin) as (x & Ex & <-). exists x. split; [|done].
    rewrite lookup_delete_ne; [done|]. intros Heq. by apply (Hne x Ex Hx).
  - intros id x [Hx Ex]%lookup_delete_Some. destruct (Q id x Ex) as [Hok Hin]. split; [done|]. apply list_elem_of_filter. split; [|done].
    intros Heq. apply Hx. by rewrite <- (ro_ref _ _ _ _ Hok), Heq.
  - intros x [Hx Ex]%lookup_delete_Some [_ Hin]%list_elem_of_filter. destruct (W x Ex Hin) as [W1 W2 W3 W4]. split; try done.
    apply Hkept; [|done]. destruct (Q _ _ Ex) as [Hok _]. rewrite (ro_id _ _ _ _ Hok). congruence.
  - intros x [Hx Ex]%lookup_delete_Some [_ Hin]%list_elem_of_filter. destruct (U x Ex Hin) as [U1 U2 U3]. split; try done.
    apply Hkept; [|done]. destruct (Q _ _ Ex) as [Hok _]. rewrite (ro_id _ _ _ _ Hok). congruence.
  - intros id Hn%lookup_delete_None. destruct (decide (id = ref_id (ref_of r))) as [->|Hd]; [done|]. apply Hkept; [done|]. apply G. naive_solver.
Qed.

(** Writing the request first makes no difference. *)
Lemma free_request_put r (s : scheduler K E) : free_request r (put_req r s) = free_request r s.
Proof.
  unfold free_request. sched. destruct (py_assert _); [|done]. cbn [mbind result_bind]. change (enc (put_req r s)) with (enc s).
  destruct (ec_free _ _); [|done]. cbn [mbind result_bind]. change (kv (put_req r s)) with (kv s). destruct (kv_free _ _); [|done].
  cbn [mbind result_bind]. unfold set_requests, put_req. cbn. by rewrite delete_insert_eq.
Qed.

(** * The output of the model *)

(** The contract with the model runner, for one scheduled request. *)
Definition output_ok (spec : dict (list Z)) (mo : ModelRunnerOutput) (r : sreq) (g : list Z) (pooled : bool) : Prop :=
  (exists i, dict_get (request_id (base r)) (req_id_to_index mo) = Some i /\ generated_at mo i = Ok g /\ pooled_at mo i = Ok pooled) /\
  match sampling_params r with
  | Some _ => if is_prefill_chunk r then g = [] else 1 <= py_len g <= 1 + py_len (default [] (dict_get (request_id (base r)) spec))
  | None => g = [] /\ pooled = negb (is_prefill_chunk r)
  end.

(** Taking back rejected drafts: a running request has then computed all its tokens
    but the last new one. *)
Lemma take_back_ok spec mo id r g pooled :
  req_ok cfg hc id r -> output_ok spec mo r g pooled ->
  let b := take_back_rejected (default [] (dict_get (request_id (base r)) spec)) g (base r) in
  exists c, b = set_computed c (base r) /\
    (num_computed_tokens (base r) = 0 -> c = 0) /\ (g = [] -> c = num_computed_tokens (base r)) /\
    (in_flight spec r -> 0 <= c <= num_computed_tokens (base r) /\
       (is_prefill_chunk r = false -> is_Some (sampling_params r) -> c = num_tokens (base r) + py_len g - 1)).
Proof.
  intros Hok [_ Hg]. unfold take_back_rejected. set (d := default [] (dict_get (request_id (base r)) spec)) in *.
  assert (Hsame : base r = set_computed (num_computed_tokens (base r)) (base r)) by by destruct (base r).
  assert (Hfl : in_flight spec r -> is_prefill_chunk r = false -> num_computed_tokens (base r) = num_tokens (base r) + py_len d).
  { intros [_ F2 F3] Hc. rewrite F3 in Hc. apply Z.ltb_ge in Hc. destruct F2 as [[? _]|F2]; [lia|done]. }
  assert (Hlen : g <> [] -> is_prefill_chunk r = false /\ 1 <= py_len g <= 1 + py_len d).
  { intros Hne. destruct (sampling_params r); [|by destruct Hg]. by destruct (is_prefill_chunk r). }
  destruct d as [|x d'] eqn:Ed; [|destruct g as [|t ts] eqn:Eg].
  - exists (num_computed_tokens (base r)). split; [done|]. split; [done|]. split; [done|]. intros Hf. pose proof (if_computed _ _ Hf). split; [lia|].
    intros Hc [sp Hsp]. rewrite Hsp, Hc in Hg. rewrite Hfl by done. unfold py_len in *. cbn [length] in *. lia.
  - exists (num_computed_tokens (base r)). split; [done|]. split; [done|]. split; [done|]. intros Hf. pose proof (if_computed _ _ Hf). split; [lia|].
    intros Hc [sp Hsp]. rewrite Hsp, Hc in Hg. unfold py_len in Hg. cbn [length] in Hg. lia.
  - destruct (Hlen ltac:(done)) as [Hc Hl]. rewrite <- Ed, <- Eg in *. cbv zeta.
    assert (Hp : forall c, num_output_placeholders (set_computed c (base r)) = 0) by (intros c; apply (ro_placeholders _ _ _ _ Hok)).
    destruct (Z.ltb_spec 0 (num_computed_tokens (base r))) as [Hpos|Hpos].
    + rewrite Hp. cbn [Z.ltb Z.compare]. eexists. split; [reflexivity|]. split; [lia|]. split; [by subst g|]. intros Hf.
      pose proof (Hfl Hf Hc). pose proof (ro_tokens _ _ _ _ Hok). split; [lia|]. intros _ _. lia.
    + rewrite (ro_placeholders _ _ _ _ Hok). cbn [Z.ltb Z.compare]. exists (num_computed_tokens (base r)). split; [done|]. split; [done|]. split; [done|].
      intros Hf. pose proof (if_computed _ _ Hf). lia.
Qed.

(** The tokens a request keeps of its output. *)
Lemma take_output_ok spec mo r r0 g pooled :
  hasher_ok -> req_ok cfg hc (request_id (base r)) r -> output_ok spec mo r0 g pooled -> sampling_params r = sampling_params r0 ->
  exists kept res r', take_output cfg g pooled r = Ok (kept, bool_decide (is_Some res), r') /\ kept_tokens max_len r g pooled kept res /\ grown hc kept r r' /\
    match res with
    | Some (st, why) => status (base r') = st /\ stop_reason r' = why /\ status_is_finished st = true
    | None => status (base r') = status (base r) /\ num_tokens (base r') < max_len /\ (g = [] -> r' = r /\ is_prefill_chunk r0 = true)
    end.
Proof.
  intros Hh Hok [_ Hg] Hsp. pose proof (grown_refl hc r (ro_hashed _ _ _ _ Hok)) as Hrefl. pose proof (ro_tokens _ _ _ _ Hok) as Hlt.
  unfold take_output. destruct g as [|t ts].
  - unfold kept_tokens. rewrite Hsp. destruct (sampling_params r0) as [sp|]; cbn [andb].
    + exists [], None, r. split; [done|]. unfold ends_with. rewrite Hsp. split; [split; [done|]; split; [by intros k ->%prefix_nil_inv|done]|].
      split; [done|]. split; [done|]. split; [apply Hlt|]. intros _. split; [done|]. destruct (is_prefill_chunk r0); [done|]. unfold py_len in Hg. cbn in Hg. lia.
    + destruct Hg as [_ ->]. destruct (is_prefill_chunk r0); cbn [negb].
      * exists [], None, r. do 3 (split; [done|]). split; [done|]. by split; [apply Hlt|].
      * eexists [], (Some _), _. split; [done|]. split; [done|]. split; [by apply grown_status|done].
  - destruct (sampling_params r0) as [sp|] eqn:E0; [|by destruct Hg].
    destruct (update_tokens_ok (t :: ts) Hh r Hok) as (kept & res & r' & -> & Hk & Hgr & Hr); [by rewrite Hsp|].
    exists kept, res, r'. split; [done|]. split; [|split; [done|by destruct res as [[? ?]|]; [|destruct Hr]]].
    unfold kept_tokens in *. by rewrite Hsp in *.
Qed.

(** How far a request that goes on has come. *)
Record moved_on (g : list Z) (r r' : sreq) : Prop := {
  mo_ref : ref_of r' = ref_of r;
  mo_features : mm_features (base r') = mm_features (base r);
  mo_tokens : num_tokens (base r') = num_tokens (base r) + py_len g;
  mo_computed : g = [] -> num_computed_tokens (base r') = num_computed_tokens (base r);
}.

(** What became of request [r]: the tokens it kept, whether it is still there, and
    what was reported. *)
Definition answered (g : list Z) (pooled : bool) (r : sreq) (o : outcome K E) : Prop :=
  exists kept res, kept_tokens max_len r g pooled kept res /\
    match requests (oc_sched o) !! ref_id (ref_of r) with
    | Some r' => res = None /\ output_token_ids (base r') = output_token_ids (base r) ++ g /\ status (base r') = status (base r) /\ moved_on g r r' /\
        (g <> [] -> exists e, e ∈ oc_outputs o /\ eo_request_id e = ref_id (ref_of r) /\ eo_new_token_ids e = g /\ eo_finish_reason e = None)
    | None => ref_id (ref_of r) ∈ finished_req_ids (oc_sched o) /\
        exists st why, res = Some (st, why) /\ status_is_finished st = true /\ exists e, e ∈ oc_outputs o /\ eo_request_id e = ref_id (ref_of r) /\
          eo_new_token_ids e = kept /\ eo_finish_reason e = get_finished_reason st /\ eo_stop_reason e = why
    end.

Definition gone (o : outcome K E) : list req_ref := stopped_running_reqs o ++ stopped_preempted_reqs o.

(** The loop of [update_from_output] after the requests of [pre]. *)
Record processing (nst : dict Z) (spec : dict (list Z)) (mo : ModelRunnerOutput) (s0 : scheduler K E) (wl : list req_ref) (pre : dict Z)
    (o : outcome K E) : Prop := {
  pg_queues : running (oc_sched o) = running s0 /\ waiting (oc_sched o) = waiting s0;
  pg_stopped : stopped_running_reqs o ⊆ running s0 /\ stopped_preempted_reqs o ⊆ wl;
  pg_store : exists q, store_ok cfg hc []
    (set_waiting q (set_running (filter (fun x => x ∉ gone o) (running s0)) (oc_sched o))) (filter (fun x => x ∉ gone o) wl);
  pg_each r : requests (oc_sched o) !! ref_id (ref_of r) = Some r -> ref_of r ∈ running s0 ->
    if decide (ref_id (ref_of r) ∈ keys pre) then num_computed_tokens (base r) < num_tokens (base r)
    else if decide (ref_id (ref_of r) ∈ keys nst) then in_flight spec r else num_computed_tokens (base r) < num_tokens (base r);
  pg_frame id : id ∉ keys pre \/ requests s0 !! id = None -> requests (oc_sched o) !! id = requests s0 !! id;
  pg_done r g pooled : requests s0 !! ref_id (ref_of r) = Some r -> ref_id (ref_of r) ∈ keys pre -> output_ok spec mo r g pooled -> answered g pooled r o;
}.

Lemma finished_reason st : status_is_finished st = true -> is_Some (get_finished_reason st).
Proof. destruct st; cbn; try done; by eexists. Qed.

Lemma output_unique spec mo r g p g' p' : output_ok spec mo r g p -> output_ok spec mo r g' p' -> g = g' /\ p = p'.
Proof. intros [(i & H1 & H2 & H3) _] [(j & J1 & J2 & J3) _]. rewrite H1 in J1. injection J1 as <-. split; congruence. Qed.

(** Earlier answers survive the next request. *)
Lemma answered_mono g pooled r o o' : answered g pooled r o -> oc_outputs o ⊆ oc_outputs o' -> finished_req_ids (oc_sched o) ⊆ finished_req_ids (oc_sched o') ->
  requests (oc_sched o') !! ref_id (ref_of r) = requests (oc_sched o) !! ref_id (ref_of r) -> answered g pooled r o'.
Proof.
  intros (kept & res & Hg & H) Ho Hf Hr. exists kept, res. split; [done|]. rewrite Hr. destruct (requests (oc_sched o) !! _).
  - destruct H as (H1 & H2 & H3 & H3' & H4). do 4 (split; [done|]). intros (e & He & H')%H4. exists e. split; [by apply Ho|done].
  - destruct H as (H1 & st & why & H2 & H3 & e & He & H4). split; [by apply Hf|]. exists st, why. do 2 (split; [done|]). exists e. split; [by apply Ho|done].
Qed.

Lemma keys_snoc {V} (d : dict V) id v x : x ∈ keys (d ++ [(id, v)]) <-> x ∈ keys d \/ x = id.
Proof. unfold keys. rewrite fmap_app, elem_of_app. cbn. by rewrite list_elem_of_singleton. Qed.

Section Process.
Context (nst : dict Z) (spec : dict (list Z)) (mo : ModelRunnerOutput) (s0 : scheduler K E) (wl : list req_ref).
Context (pre : dict Z) (o : outcome K E) (Ho : processing nst spec mo s0 wl pre o) (r : sreq) (n : Z).
Hypothesis Hfresh : ref_id (ref_of r) ∉ keys pre.
Hypothesis Er : requests s0 !! ref_id (ref_of r) = Some r.

Lemma process_lookup : requests (oc_sched o) !! ref_id (ref_of r) = Some r.
Proof. rewrite (pg_frame _ _ _ _ _ _ _ Ho); [done|by left]. Qed.

Lemma process_where : req_ok cfg hc (ref_id (ref_of r)) r /\ (ref_of r ∉ gone o) /\ (ref_of r ∈ running s0 \/ ref_of r ∈ wl).
Proof.
  destruct (pg_store _ _ _ _ _ _ _ Ho) as [q Hs]. destruct (st_reqs _ _ _ _ _ Hs _ _ process_lookup) as [Hok Hin]. split; [done|].
  sched. rewrite <- filter_app in Hin. apply list_elem_of_filter in Hin as [Hg Hin]. rewrite elem_of_app in Hin. done.
Qed.

(** The other requests, after the one at hand. *)
Lemma process_others m outputs fin' : (forall id, id <> ref_id (ref_of r) -> m !! id = requests (oc_sched o) !! id) ->
  oc_outputs o ⊆ oc_outputs outputs -> finished_req_ids (oc_sched o) ⊆ fin' -> requests (oc_sched outputs) = m -> finished_req_ids (oc_sched outputs) = fin' ->
  (forall x, requests (oc_sched outputs) !! ref_id (ref_of x) = Some x -> ref_of x ∈ running s0 -> ref_id (ref_of x) <> ref_id (ref_of r) ->
    if decide (ref_id (ref_of x) ∈ keys (pre ++ [(ref_id (ref_of r), n)])) then num_computed_tokens (base x) < num_tokens (base x)
    else if decide (ref_id (ref_of x) ∈ keys nst) then in_flight spec x else num_computed_tokens (base x) < num_tokens (base x)) /\
  (forall id, id ∉ keys (pre ++ [(ref_id (ref_of r), n)]) \/ requests s0 !! id = None -> requests (oc_sched outputs) !! id = requests s0 !! id) /\
  (forall x g pooled, requests s0 !! ref_id (ref_of x) = Some x -> ref_id (ref_of x) ∈ keys (pre ++ [(ref_id (ref_of r), n)]) ->
    ref_id (ref_of x) <> ref_id (ref_of r) -> output_ok spec mo x g pooled -> answered g pooled x outputs).
Proof.
  intros Hm Hout Hfin Hreq Hf. split; [|split].
  - intros x Ex Hx Hne. rewrite Hreq, Hm in Ex by done. pose proof (pg_each _ _ _ _ _ _ _ Ho x Ex Hx) as H.
    destruct (decide (ref_id (ref_of x) ∈ keys pre)) as [Hi|Hi]; [rewrite decide_True; [done|apply keys_snoc; by left]|].
    rewrite decide_False; [done|]. rewrite keys_snoc. tauto.
  - intros id Hid. rewrite keys_snoc in Hid. assert (id <> ref_id (ref_of r)) by (intros ->; destruct Hid as [Hid|Hid]; [tauto|congruence]).
    rewrite Hreq, Hm by done. apply (pg_frame _ _ _ _ _ _ _ Ho). tauto.
  - intros x g pooled Ex Hx Hne Hg. rewrite keys_snoc in Hx. destruct Hx as [Hx|]; [|done].
    apply (answered_mono g pooled x o); [by apply (pg_done _ _ _ _ _ _ _ Ho x g pooled)|done|by rewrite Hf|by rewrite Hreq, Hm].
Qed.

(** The request goes on as [r2]. *)
Lemma process_keep r2 outputs :
  ref_of r2 = ref_of r -> req_ok cfg hc (ref_id (ref_of r)) r2 -> status (base r2) = status (base r) ->
  (num_computed_tokens (base r) = 0 -> num_computed_tokens (base r2) = 0) ->
  (ref_of r ∈ running s0 -> 0 <= num_computed_tokens (base r2) <= num_computed_tokens (base r) /\ num_computed_tokens (base r2) < num_tokens (base r2)) ->
  oc_outputs o ⊆ outputs ->
  let o' := mkOutcome (put_req r2 (oc_sched o)) (stopped_running_reqs o) (stopped_preempted_reqs o) outputs in
  (forall g pooled, output_ok spec mo r g pooled -> answered g pooled r o') ->
  processing nst spec mo s0 wl (pre ++ [(ref_id (ref_of r), n)]) o'.
Proof.
  intros Href Hok Hst H0 Hrun Hout o' Hans. pose proof (ro_id _ _ _ _ Hok) as Hid. destruct process_where as (Hokr & Hng & Hw).
  destruct (process_others (<[ref_id (ref_of r) := r2]> (requests (oc_sched o))) o' (finished_req_ids (oc_sched o))) as (P1 & P2 & P3); try done.
  { intros id Hne. by rewrite lookup_insert_ne. } { subst o'. sched. cbn. by rewrite Hid. }
  split; try done.
  - apply (pg_queues _ _ _ _ _ _ _ Ho).
  - apply (pg_stopped _ _ _ _ _ _ _ Ho).
  - destruct (pg_store _ _ _ _ _ _ _ Ho) as [q Hs]. exists q. change (gone o') with (gone o).
    apply (store_put cfg hc [] (set_waiting q (set_running (filter (fun x => x ∉ gone o) (running s0)) (oc_sched o)))
      (filter (fun x => x ∉ gone o) wl) r r2); try done.
    + apply process_lookup.
    + intros Hin. destruct (st_wait _ _ _ _ _ Hs r process_lookup Hin) as [W1 W2 W3 W4]. pose proof (ro_id _ _ _ _ Hokr) as Hidr.
      split; rewrite ?Hst, ?Hid, ?Href; [done|by apply H0|by rewrite <- Hidr|by rewrite <- Hidr].
    + intros Hin. destruct (st_run _ _ _ _ _ Hs r process_lookup Hin) as [U1 U2 U3]. sched. apply list_elem_of_filter in Hin as [_ Hin].
      destruct (Hrun Hin) as [Hc _]. pose proof (ro_id _ _ _ _ Hokr) as Hidr. split; rewrite ?Hst, ?Hid; [done|lia|].
      rewrite <- Hidr. eapply kv_slots_le; [exact U3|lia].
  - intros x Ex Hx. destruct (decide (ref_id (ref_of x) = ref_id (ref_of r))) as [Hd|Hne]; [|by apply P1].
    rewrite decide_True by (apply keys_snoc; by right). cbn in Ex. rewrite Hid, Hd, lookup_insert_eq in Ex. injection Ex as <-.
    rewrite Href in Hx. by apply Hrun.
  - intros x g pooled Ex Hx Hg. destruct (decide (ref_id (ref_of x) = ref_id (ref_of r))) as [Hd|Hne]; [|by apply (P3 x g pooled)].
    rewrite Hd, Er in Ex. injection Ex as <-. by apply (Hans g pooled).
Qed.

(** The request stops as [r2] and is freed. *)
Lemma process_stop r2 outputs :
  request_id (base r2) = ref_id (ref_of r) -> mm_features (base r2) = mm_features (base r) -> status_is_finished (status (base r2)) = true ->
  oc_outputs o ⊆ outputs ->
  exists s', free_request r2 (put_req r2 (oc_sched o)) = Ok s' /\
    let o' := (if bool_decide (status (base r) = RUNNING)
               then mkOutcome s' (stopped_running_reqs o ++ [ref_of r]) (stopped_preempted_reqs o) outputs
               else mkOutcome s' (stopped_running_reqs o) (stopped_preempted_reqs o ++ [ref_of r]) outputs) in
    requests s' !! ref_id (ref_of r) = None /\ ref_id (ref_of r) ∈ finished_req_ids s' /\
    ((forall g pooled, output_ok spec mo r g pooled -> answered g pooled r o') -> processing nst spec mo s0 wl (pre ++ [(ref_id (ref_of r), n)]) o').
Proof.
  intros Hid Hmm Hfin Hout. destruct process_where as (Hok & Hng & Hw). destruct (pg_store _ _ _ _ _ _ _ Ho) as [q Hs].
  set (vs := set_waiting q (set_running (filter (fun x => x ∉ gone o) (running s0)) (oc_sched o))) in *.
  destruct (remove_all_view _ [ref_of r] _ _ (st_view _ _ _ _ _ Hs)) as (q' & _ & Hq').
  assert (Hf : forall l : list req_ref, filter (fun x => x ∉ [ref_of r]) l = filter (fun x => x <> ref_of r) l).
  { intros l. apply list_filter_iff. intros x. by rewrite list_elem_of_singleton. }
  rewrite Hf in Hq'. rewrite free_request_put.
  destruct (free_request_ok vs _ r r2 q' Hs process_lookup Hid) as (s1 & E1 & R1 & F1 & _ & _ & S1); [rewrite Hmm; apply (ro_good _ _ _ _ Hok)|done|done|].
  unfold vs in E1. rewrite free_request_queues in E1. destruct (free_request r2 (oc_sched o)) as [s'|] eqn:E'; [|done]. cbn [mbind result_bind] in E1.
  injection E1 as <-. exists s'. split; [done|]. sched. split; [rewrite R1; apply lookup_delete_eq|]. split; [rewrite F1; set_solver|]. intros Hans.
  remember (if bool_decide (status (base r) = RUNNING) then _ else _) as o' eqn:Eo.
  assert (oc_sched o' = s' /\ oc_outputs o' = outputs /\ gone o' ≡ₚ ref_of r :: gone o) as (So & Oo & Go).
  { subst o'. unfold gone. case_bool_decide; cbn; (split; [done|]); (split; [done|]); [|by rewrite app_assoc, Permutation_app_comm].
    rewrite <- app_assoc. cbn. symmetry. apply Permutation_middle. }
  assert (Hg : forall l : list req_ref, filter (fun x => x ∉ gone o') l = filter (fun x => x <> ref_of r) (filter (fun x => x ∉ gone o) l)).
  { intros l. rewrite list_filter_filter. apply list_filter_iff. intros x. rewrite Go. set_solver. }
  assert (Hq : running s' = running (oc_sched o) /\ waiting s' = waiting (oc_sched o)).
  { unfold free_request in E'. destruct (py_assert _); [|done]. cbn [mbind result_bind] in E'. destruct (ec_free _ _); [|done]. cbn [mbind result_bind] in E'.
    destruct (kv_free _ _); [|done]. cbn [mbind result_bind] in E'. by injection E' as <-. }
  destruct (process_others (delete (ref_id (ref_of r)) (requests (oc_sched o))) o' (finished_req_ids s')) as (P1 & P2 & P3).
  { intros id Hne. by rewrite lookup_delete_ne. } { by rewrite Oo. } { rewrite F1. set_solver. } { by rewrite So. } { by rewrite So. }
  assert (Hst : stopped_running_reqs o' ⊆ running s0 /\ stopped_preempted_reqs o' ⊆ wl).
  { destruct (pg_stopped _ _ _ _ _ _ _ Ho) as [T1 T2]. subst o'. case_bool_decide as Hrun; cbn; (split; [|done]) || (split; [done|]).
    - destruct Hw as [Hw|Hw]; [set_solver|]. destruct (st_wait _ _ _ _ _ Hs r process_lookup) as [[W|[W|W]] _ _ _]; [by apply list_elem_of_filter|congruence..].
    - destruct Hw as [Hw|Hw]; [|set_solver]. destruct (st_run _ _ _ _ _ Hs r process_lookup) as [U1 _ _]; [by apply list_elem_of_filter|congruence]. }
  split.
  - rewrite So. destruct (pg_queues _ _ _ _ _ _ _ Ho). by destruct Hq as [-> ->].
  - exact Hst.
  - exists q'. rewrite So, !Hg. exact S1.
  - intros x Ex Hx. apply P1; [done|done|]. intros Hd. rewrite So, R1, Hd, lookup_delete_eq in Ex. done.
  - exact P2.
  - intros x g pooled Ex Hx Hg'. destruct (decide (ref_id (ref_of x) = ref_id (ref_of r))) as [Hd|Hne]; [|by apply (P3 x g pooled)].
    rewrite Hd, Er in Ex. injection Ex as <-. by apply (Hans g pooled).
Qed.
End Process.

(** A scheduled request that is gone is passed over. *)
Lemma process_skip nst spec mo s0 wl pre id n o :
  requests s0 !! id = None -> processing nst spec mo s0 wl pre o -> processing nst spec mo s0 wl (pre ++ [(id, n)]) o.
Proof.
  intros Er [P1 P2 P3 P4 P5 P6]. split; try done.
  - intros x Ex Hx. pose proof (P4 x Ex Hx) as H. assert (ref_id (ref_of x) <> id) by (intros Hd; rewrite Hd, P5, Er in Ex by tauto; done).
    destruct (decide (ref_id (ref_of x) ∈ keys pre)); [rewrite decide_True; [done|apply keys_snoc; tauto]|rewrite decide_False; [done|rewrite keys_snoc; tauto]].
  - intros x Hx. apply P5. rewrite keys_snoc in Hx. tauto.
  - intros x g pooled Ex Hx. apply P6; [done|]. rewrite keys_snoc in Hx. destruct Hx as [|Hx]; [done|congruence].
Qed.

(** A request that keeps all its tokens goes on. *)
Lemma process_goes_on out mo s0 wl pre r n o g pooled c r2 outs :
  let nst := so_num_scheduled_tokens out in let spec := so_spec_decode_tokens out in let id := ref_id (ref_of r) in
  processing nst spec mo s0 wl pre o -> id ∉ keys pre -> requests s0 !! id = Some r ->
  req_ok cfg hc id r -> (ref_of r ∈ running s0 -> in_flight spec r) -> output_ok spec mo r g pooled ->
  req_ok cfg hc (request_id (base r)) (with_base (set_computed c) r) ->
  ((num_computed_tokens (base r) = 0 -> c = 0) /\ (g = [] -> c = num_computed_tokens (base r)) /\
   (in_flight spec r -> 0 <= c <= num_computed_tokens (base r) /\
      (is_prefill_chunk r = false -> is_Some (sampling_params r) -> c = num_tokens (base r) + py_len g - 1))) ->
  grown hc g (with_base (set_computed c) r) r2 -> status (base r2) = status (base r) -> num_tokens (base r2) < max_len ->
  (g = [] -> is_prefill_chunk r = true) ->
  kept_tokens max_len (with_base (set_computed c) r) g pooled g None ->
  oc_outputs o ⊆ outs -> (g <> [] -> exists e, e ∈ outs /\ eo_request_id e = id /\ eo_new_token_ids e = g /\ eo_finish_reason e = None) ->
  processing nst spec mo s0 wl (pre ++ [(id, n)]) (mkOutcome (put_req r2 (oc_sched o)) (stopped_running_reqs o) (stopped_preempted_reqs o) outs).
Proof.
  intros nst spec id Ho Hfresh Er Hok Hfl Hg Hokb (C1 & C2 & C3) Hgr Hst Hlt Hnil Hk Hsub He. set (rb := with_base (set_computed c) r) in *.
  pose proof (ro_id _ _ _ _ Hok) as Hid. pose proof (grown_num_tokens _ _ _ _ Hgr) as [Hnt _]. pose proof (gr_computed _ _ _ _ Hgr) as Hc2. cbn in Hc2.
  change (num_tokens (base rb)) with (num_tokens (base r)) in Hnt.
  assert (Hid2 : request_id (base r2) = id) by (rewrite (gr_id _ _ _ _ Hgr); exact Hid).
  apply (process_keep nst spec mo s0 wl pre o Ho r n Hfresh Er r2 outs); [apply (gr_ref _ _ _ _ Hgr)| |done| | |done|].
  - pose proof (grown_ok _ _ _ _ Hgr Hokb Hlt) as H. cbn in H. by rewrite Hid in H.
  - intros Hz. by rewrite Hc2, C1.
  - intros Hr. destruct (C3 (Hfl Hr)) as [Hc Hcn]. rewrite Hc2. split; [done|]. destruct g as [|t ts] eqn:Eg.
    + specialize (Hnil eq_refl). rewrite C2 by done. rewrite (if_chunk _ _ (Hfl Hr)) in Hnil. apply Z.ltb_lt in Hnil. rewrite Hnt. unfold py_len. cbn. lia.
    + destruct Hg as [_ Hg]. destruct (sampling_params r) as [sp|] eqn:Esp; [|by destruct Hg]. destruct (is_prefill_chunk r) eqn:Ech; [done|].
      rewrite Hcn by (try done; by eexists). rewrite Hnt. lia.
  - intros g' p' Hg'. destruct (output_unique _ _ _ _ _ _ _ Hg Hg') as [<- <-]. exists g, None. split; [exact Hk|]. cbn [oc_sched oc_outputs].
    sched. cbn. rewrite Hid2. unfold id. rewrite lookup_insert_eq. split; [done|]. split; [exact (gr_output _ _ _ _ Hgr)|]. split; [done|].
    split; [|done]. split; [exact (gr_ref _ _ _ _ Hgr)|exact (gr_features _ _ _ _ Hgr)|exact Hnt|intros Hg0; rewrite Hc2; by apply C2].
Qed.

(** One scheduled request. *)
Lemma process_request_ok out mo s0 wl pre id n post o :
  hasher_ok -> so_num_scheduled_tokens out = pre ++ (id, n) :: post -> NoDup (keys (so_num_scheduled_tokens out)) -> 1 <= n ->
  (forall r, requests s0 !! id = Some r -> exists g pooled, output_ok (so_spec_decode_tokens out) mo r g pooled) ->
  processing (so_num_scheduled_tokens out) (so_spec_decode_tokens out) mo s0 wl pre o ->
  exists o', process_request cfg out mo o (id, n) = Ok o' /\
    processing (so_num_scheduled_tokens out) (so_spec_decode_tokens out) mo s0 wl (pre ++ [(id, n)]) o'.
Proof.
  intros Hh En Hnd Hn Hmo Ho. set (nst := so_num_scheduled_tokens out) in *. set (spec := so_spec_decode_tokens out) in *.
  assert (Hfresh : id ∉ keys pre).
  { intros Hp. rewrite En in Hnd. unfold keys in *. rewrite fmap_app in Hnd. apply NoDup_app in Hnd as (_ & Hd & _). apply (Hd _ Hp). rewrite fmap_cons. left. }
  assert (Hin : id ∈ keys nst) by (rewrite En; unfold keys; rewrite fmap_app, fmap_cons; cbn; set_solver).
  unfold process_request. fold spec. rewrite (proj2 (Z.ltb_lt 0 n)) by lia. cbn [py_assert mbind result_bind].
  rewrite (pg_frame _ _ _ _ _ _ _ Ho) by (by left). destruct (requests s0 !! id) as [r|] eqn:Er.
  2:{ exists o. split; [done|]. by apply process_skip. }
  assert (Hid : ref_id (ref_of r) = id).
  { destruct (pg_store _ _ _ _ _ _ _ Ho) as [q Hs]. destruct (st_reqs _ _ _ _ _ Hs id r) as [Hok _]; [sched; rewrite (pg_frame _ _ _ _ _ _ _ Ho); [done|by left]|].
    apply (ro_ref _ _ _ _ Hok). }
  subst id. destruct (process_where nst spec mo s0 wl pre o Ho r Hfresh Er) as (Hok & Hng & Hw).
  destruct (Hmo r eq_refl) as (g & pooled & Hg). pose proof Hg as [(i & H1 & H2 & H3) _]. pose proof (ro_id _ _ _ _ Hok) as Hid.
  rewrite Hid in H1. destruct (pg_store _ _ _ _ _ _ _ Ho) as [q Hs]. pose proof (process_lookup nst spec mo s0 wl pre o Ho r Hfresh Er) as Hlk.
  assert (Hloc : (ref_of r ∈ running s0 -> in_flight spec r) /\ status_is_finished (status (base r)) = false).
  { split; [intros Hr|].
    - pose proof (pg_each _ _ _ _ _ _ _ Ho r Hlk Hr) as H. by rewrite decide_False, decide_True in H.
    - destruct Hw as [Hw|Hw].
      + by destruct (st_run _ _ _ _ _ Hs r Hlk ltac:(by apply list_elem_of_filter)) as [-> _ _].
      + by destruct (st_wait _ _ _ _ _ Hs r Hlk ltac:(by apply list_elem_of_filter)) as [[W|[W|W]] _ _ _]; rewrite W. }
  destruct Hloc as [Hfl Hnf]. rewrite Hnf, H1. cbn [of_option mbind result_bind]. rewrite H2. cbn [mbind result_bind]. rewrite H3. cbn [mbind result_bind].
  destruct (take_back_ok spec mo _ r g pooled Hok Hg) as (c & Eb & C1 & C2 & C3). rewrite Hid in Eb.
  assert (Ew : with_base (take_back_rejected (default [] (dict_get (ref_id (ref_of r)) spec)) g) r = with_base (set_computed c) r) by (unfold with_base; by rewrite Eb).
  rewrite Ew. set (rb := with_base (set_computed c) r).
  assert (Hokb : req_ok cfg hc (request_id (base rb)) rb) by (cbn; rewrite Hid; destruct Hok; by split).
  destruct (take_output_ok spec mo rb r g pooled Hh Hokb Hg eq_refl) as (kept & res & r2 & -> & Hk & Hgr & Hst). cbn [mbind result_bind].
  assert (Href2 : ref_of r2 = ref_of r) by apply (gr_ref _ _ _ _ Hgr). assert (Hid2 : request_id (base r2) = ref_id (ref_of r)) by (rewrite (gr_id _ _ _ _ Hgr); exact Hid).
  destruct res as [[st why]|]; [rewrite bool_decide_eq_true_2 by by eexists|rewrite bool_decide_eq_false_2 by (by intros [? ?])]; cbn [orb].
  - (* stopped *)
    destruct Hst as (Est & Ewhy & Hfst). set (e := mkCoreOutput _ kept _ _ _).
    destruct (process_stop nst spec mo s0 wl pre o Ho r n Hfresh Er r2 (oc_outputs o ++ [e])) as (s' & -> & Hnone & Hfin & Hpr);
      [done|apply (gr_features _ _ _ _ Hgr)|by rewrite Est|set_solver|]. cbn [mbind result_bind]. rewrite Href2. eexists. split; [reflexivity|]. apply Hpr.
    intros g' p' Hg'. destruct (output_unique _ _ _ _ _ _ _ Hg Hg') as [<- <-]. exists kept, (Some (st, why)). split; [exact Hk|].
    assert (Hlast : e ∈ oc_outputs o ++ [e]) by set_solver.
    cbn [base rb with_base]. case_bool_decide; cbn [oc_sched oc_outputs]; rewrite Hnone; (split; [done|]); exists st, why; do 2 (split; [done|]);
      exists e; (split; [done|]); subst e; cbn; by rewrite Est, Ewhy.
  - (* goes on *)
    destruct Hst as (Hst & Hlt & Hnil). assert (kept = g) as -> by by apply (kept_all _ _ _ _ _ Hk).
    set (e := mkCoreOutput _ g _ _ _). set (outs := if pooled || _ then _ else _).
    assert (Hsub : oc_outputs o ⊆ outs) by (subst outs; destruct (pooled || _); set_solver).
    eexists. split; [reflexivity|]. apply (process_goes_on out mo s0 wl pre r n o g pooled c r2 outs); try done; [by intros [_ ?]%Hnil|].
    intros Hne. exists e. split; [|done]. subst outs. rewrite bool_decide_eq_false_2 by done. rewrite orb_true_r. set_solver.
Qed.

(** * The calls *)

(** The store with the queues it really has. *)
Lemma store_trimmed s wl q0 run0 q run wl' :
  store_ok cfg hc [] (set_waiting q0 (set_running run0 s)) wl' -> run = run0 -> queue_view (policy cfg) q wl -> wl = wl' ->
  store_ok cfg hc [] (set_waiting q (set_running run s)) wl.
Proof. intros Hs -> Hq ->. exact (store_queue cfg hc [] (set_waiting q0 (set_running run0 s)) wl' q wl' Hs Hq (Permutation_refl _)). Qed.

(** What [update_from_output] leaves of request [r]. *)
Definition settled (g : list Z) (pooled : bool) (r : sreq) (outs : list EngineCoreOutput) (s' : scheduler K E) : Prop :=
  answered g pooled r (mkOutcome s' [] [] outs).

Lemma update_from_output_ok out mo s wl :
  hasher_ok -> state_ok cfg hc (so_num_scheduled_tokens out) (so_spec_decode_tokens out) s wl ->
  (forall id r, id ∈ keys (so_num_scheduled_tokens out) -> requests s !! id = Some r ->
     exists g pooled, output_ok (so_spec_decode_tokens out) mo r g pooled) ->
  exists outs s' wl', update_from_output cfg out mo s = Ok (outs, s') /\ state_ok cfg hc [] [] s' wl' /\
    (forall id, id ∉ keys (so_num_scheduled_tokens out) \/ requests s !! id = None -> requests s' !! id = requests s !! id) /\
    (forall r g pooled, requests s !! ref_id (ref_of r) = Some r -> ref_id (ref_of r) ∈ keys (so_num_scheduled_tokens out) ->
       output_ok (so_spec_decode_tokens out) mo r g pooled -> settled g pooled r outs s') /\
    exists stopped : list req_ref, running s' = filter (fun x => x ∉ stopped) (running s).
Proof.
  intros Hh [Hs Hl Hnd Hpos He] Hmo. unfold update_from_output.
  set (nst := so_num_scheduled_tokens out) in *. set (spec := so_spec_decode_tokens out) in *.
  destruct (foldM_inv (process_request cfg out mo) (processing nst spec mo s wl) nst (mkOutcome s [] [] [])) as (o & -> & Ho).
  - split; try done.
    + split; apply list_subseteq_nil.
    + exists (waiting s). unfold gone. cbn [stopped_running_reqs stopped_preempted_reqs oc_sched app].
      rewrite !filter_all by (intros; apply not_elem_of_nil). by destruct s.
    + intros r g pooled _ Hx. by apply not_elem_of_nil in Hx.
  - intros pre [id n] post o En Ho. apply (process_request_ok out mo s wl pre id n post o); try done.
    + apply (Hpos id). rewrite En. set_solver.
    + intros r. apply Hmo. fold nst. rewrite En. unfold keys. rewrite fmap_app, fmap_cons. cbn. set_solver.
  - cbn [mbind result_bind]. destruct Ho as [[Q1 Q2] [T1 T2] [q0 S1] E1 F1 D1]. sched. rewrite Q1, Q2.
    pose proof (st_nodup _ _ _ _ _ Hs) as N. destruct (drop_split _ _ _ _ N T1 T2) as [R1 R2].
    destruct (drop_waiting _ _ _ (stopped_preempted_reqs o) (st_view _ _ _ _ _ Hs)) as (q & -> & Vq). cbn [mbind result_bind].
    rewrite remove_all_filter by (by apply NoDup_app in N as (? & _)).
    eexists _, _, (filter (fun x => x ∉ stopped_preempted_reqs o) wl). split; [reflexivity|]. split; [|split; [|split; [|by exists (stopped_running_reqs o)]]].
    + split; [|..|constructor|by intros ? ? ?%elem_of_nil|].
      * exact (store_trimmed (oc_sched o) _ q0 _ q _ _ S1 (eq_sym R1) Vq (eq_sym R2)).
      * sched. unfold py_len in *. pose proof (length_filter (fun x => x ∉ stopped_running_reqs o) (running s)). lia.
      * intros r Er [_ Hr]%list_elem_of_filter. rewrite decide_False by apply not_elem_of_nil. pose proof (E1 r Er Hr) as H.
        by destruct (decide _).
    + intros id Hid. by apply F1.
    + intros r g pooled Er Hk Hg. exact (D1 r g pooled Er Hk Hg).
Qed.
End Calls.
