(* ===== verification/SchedulerRequests.v ===== *)
(** Requests coming and going: [add_request], [finish_requests],
    [update_draft_token_ids] and [reset_prefix_cache] keep the invariant. *)
From S2P Require Import Prelude Dict Request BlockHash BlockPool SingleType KVManager EncoderCache EncoderSched RequestQueue Scheduler SchedulerFacts SchedulerStep SchedulerCalls.
Local Open Scope Z_scope.

Section Requests.
Context {K E : Type} `{KV : KVCacheOps K} `{EC : EncoderCacheOps E} `{EF : EncoderCacheFree E}.
Context `{!KVCacheView K} `{!EncoderCacheView E}.
Context (cfg : sched_config) (hc : Request -> Prop).
Let max_len := cfg_max_model_len cfg.
Context `{KL : !KVCacheLaws K max_len hc} `{EL : !EncoderCacheLaws E (encoder_settings cfg)}.

(** * A new request *)

(** A request as the frontend hands it over. *)
Record new_req_ok (r : sreq) : Prop := {
  nr_ok : req_ok cfg hc (request_id (base r)) r;
  nr_status : status (base r) = WAITING \/ status (base r) = WAITING_FOR_FSM;
  nr_computed : num_computed_tokens (base r) = 0;
}.

Lemma add_perm p r l : spec_add p r l ≡ₚ r :: l.
Proof. destruct p; cbn; [symmetry; apply Permutation_cons_append|apply insert_sorted_perm]. Qed.

Lemma add_request_ok nst spec s wl r :
  state_ok cfg hc nst spec s wl -> requests s !! request_id (base r) = None -> new_req_ok r ->
  exists s', Scheduler.add_request r s = Ok s' /\ state_ok cfg hc nst spec s' (spec_add (policy cfg) (ref_of r) wl) /\
    requests s' = <[request_id (base r) := r]> (requests s).
Proof.
  intros [Hs Hl Hnd Hpos He] Hn [Hok Hst Hc]. unfold Scheduler.add_request. rewrite Hn. pose proof Hs as [V N R Q W U G KW EW].
  destruct (add_view (policy cfg) (ref_of r) _ _ V) as (q & -> & V'). cbn [mbind result_bind]. eexists. split; [reflexivity|]. split; [|done].
  pose proof (ro_ref _ _ _ _ Hok) as Href. set (id := request_id (base r)) in *.
  assert (Hnew : ref_of r ∉ running s ++ wl) by (intros (x & Ex & _)%R; rewrite Href in Ex; congruence).
  pose proof (add_perm (policy cfg) (ref_of r) wl) as Hp. set (wl' := spec_add _ _ _) in *.
  assert (Hall : running s ++ wl' ≡ₚ ref_of r :: running s ++ wl) by (rewrite Hp; symmetry; apply Permutation_middle).
  assert (L : forall x, ref_of x ∈ running s ++ wl -> requests s !! ref_id (ref_of x) = Some x -> ref_id (ref_of x) <> id) by (intros x _ Ex Hd; congruence).
  assert (Lw : forall x, requests (put_req r (set_waiting q s)) !! ref_id (ref_of x) = Some x -> ref_of x ∈ running s ++ wl -> requests s !! ref_id (ref_of x) = Some x).
  { intros x Ex Hx. cbn in Ex. fold id in Ex. destruct (decide (ref_id (ref_of x) = id)) as [Hd|Hne]; [|by rewrite lookup_insert_ne in Ex].
    destruct (R _ Hx) as (y & Ey & _). rewrite Hd in Ey. congruence. }
  split; [split| |done|done|]; sched; try done.
  - rewrite Hall. apply NoDup_cons. done.
  - intros ref. rewrite Hall. intros [->|Hin]%elem_of_cons.
    + exists r. cbn. fold id. by rewrite Href, lookup_insert_eq.
    + destruct (R ref Hin) as (x & Ex & <-). exists x. cbn. fold id. rewrite lookup_insert_ne; [done|]. intros Hd. by apply (L x Hin Ex).
  - intros i x Ex. cbn in Ex. fold id in Ex. rewrite Hall. destruct (decide (i = id)) as [->|Hne].
    + rewrite lookup_insert_eq in Ex. injection Ex as <-. split; [done|]. left.
    + rewrite lookup_insert_ne in Ex by done. destruct (Q i x Ex) as [? ?]. split; [done|]. by right.
  - intros x Ex. rewrite Hp. intros [Hx|Hx]%elem_of_cons.
    + cbn in Ex. fold id in Ex. rewrite Hx, Href, lookup_insert_eq in Ex. injection Ex as <-.
      split; [destruct Hst as [->| ->]; unfold waiting_status; tauto|done|by apply G|]. destruct Hst as [->| ->]; done.
    + apply W; [|done]. apply Lw; [done|]. set_solver.
  - intros x Ex Hx. apply U; [|done]. apply Lw; [done|]. set_solver.
  - intros i Hi. cbn in Hi. fold id in Hi. apply lookup_insert_None in Hi as [? _]. by apply G.
  - intros x Ex Hx. apply He; [|done]. apply Lw; [done|]. set_solver.
Qed.

(** * Draft tokens *)

Lemma set_drafts_ok validate nst spec s wl x :
  state_ok cfg hc nst spec s wl -> state_ok cfg hc nst spec (set_drafts validate s x) wl.
Proof.
  intros Hst. destruct x as [id ids]. unfold set_drafts. destruct (requests s !! id) as [r|] eqn:Er; [|done].
  destruct (status_is_finished _); [done|]. pose proof Hst as [Hs Hl Hnd Hpos He]. destruct (st_reqs _ _ _ _ _ Hs _ _ Er) as [Hok Hin].
  assert (Hid : id = ref_id (ref_of r)) by (symmetry; apply (ro_ref _ _ _ _ Hok)). subst id.
  assert (Hg : forall d, state_ok cfg hc nst spec (put_req (with_base (set_spec d) r) s) wl); [|by destruct (is_prefill_chunk r)].
  intros d. pose proof (ro_id _ _ _ _ Hok) as Hid. split; try done.
  - apply (store_put cfg hc [] s wl r); try done.
    + destruct Hok. by split.
    + intros Hw. destruct (st_wait _ _ _ _ _ Hs r Er Hw). by split.
    + intros Hw. destruct (st_run _ _ _ _ _ Hs r Er Hw). by split.
  - intros y Ey Hy. cbn in Ey. rewrite Hid in Ey. destruct (decide (ref_id (ref_of y) = ref_id (ref_of r))) as [Hd|Hne].
    + rewrite Hd, lookup_insert_eq in Ey. injection Ey as <-. cbn [ref_of with_base] in Hy |- *. pose proof (He r Er Hy) as H.
      destruct (decide _); [|done]. destruct H as [F1 F2 F3]. by split.
    + rewrite lookup_insert_ne in Ey by done. by apply He.
Qed.

Lemma update_draft_token_ids_ok validate drafts nst spec s wl :
  state_ok cfg hc nst spec s wl -> state_ok cfg hc nst spec (update_draft_token_ids validate drafts s) wl.
Proof.
  unfold update_draft_token_ids. revert s. induction drafts as [|x l IH]; intros s Hs; [done|]. cbn [fold_left]. by apply IH, set_drafts_ok.
Qed.

(** Draft tokens of the same number stand for the same computed tokens. *)
Lemma state_spec nst spec spec' s wl :
  state_ok cfg hc nst spec s wl -> (forall id, length <$> dict_get id spec' = length <$> dict_get id spec) -> state_ok cfg hc nst spec' s wl.
Proof.
  intros [Hs Hl Hnd Hpos He] Hlen. split; try done. intros r Er Hr. pose proof (He r Er Hr) as H. destruct (decide _); [|done].
  destruct H as [F1 F2 F3]. split; try done. specialize (Hlen (request_id (base r))). unfold reaches in *.
  destruct (dict_get _ spec) as [d|], (dict_get _ spec') as [d'|]; cbn in *; try done. injection Hlen as Hlen. unfold py_len in *.
  rewrite Hlen. destruct F2 as [[_ ?]|F2]; [done|by right].
Qed.

(** A grammar accepts a prefix of the draft tokens. *)
Definition validates (validate : string -> option (list Z -> list Z)) : Prop :=
  forall id f ids, validate id = Some f -> (length (f ids) <= length ids)%nat.

Lemma fill_drafts_length validate (s : scheduler K E) acc x id :
  validates validate -> length <$> dict_get id (fill_drafts validate s acc x).1 = length <$> dict_get id acc.1.
Proof.
  intros Hv. destruct acc as [spec inv], x as [k ids]. unfold fill_drafts. destruct (requests s !! k); [|done]. destruct (status_is_finished _); [done|].
  destruct (dict_get k spec) as [[|p ps]|] eqn:Ek; [done| |done]. cbv zeta.
  set (d := match validate k with Some f => f _ | None => _ end).
  assert (Hd : (length d <= length (p :: ps))%nat).
  { assert (Ht : (length (take (length (p :: ps)) ids) <= length (p :: ps))%nat) by (rewrite length_take; lia).
    unfold d. destruct (validate k) as [f|] eqn:Ef; [|done]. pose proof (Hv k f (take (length (p :: ps)) ids) Ef). lia. }
  set (m := py_len (p :: ps) - py_len d). destruct (Z.eqb_spec m 0) as [H0|H0]; cbn [fst]; rewrite dict_get_set;
    (destruct (decide (id = k)) as [->|]; [|done]); rewrite Ek; cbn [fmap option_fmap option_map]; f_equal; unfold py_len in m; [lia|].
  rewrite length_app, length_replicate. lia.
Qed.

Lemma in_output_ok validate drafts nst out s wl :
  validates validate -> state_ok cfg hc nst (so_spec_decode_tokens out) s wl ->
  state_ok cfg hc nst (so_spec_decode_tokens (update_draft_token_ids_in_output validate drafts out s)) s wl.
Proof.
  intros Hv Hst. apply (state_spec nst (so_spec_decode_tokens out)); [done|]. intros id. unfold update_draft_token_ids_in_output.
  assert (H : forall acc, length <$> dict_get id (fold_left (fill_drafts validate s) drafts acc).1 = length <$> dict_get id acc.1).
  { induction drafts as [|x l IH]; intros acc; [done|]. cbn [fold_left]. rewrite IH. by apply fill_drafts_length. }
  specialize (H (so_spec_decode_tokens out, [])). by destruct (fold_left _ _ _).
Qed.

(** * Resetting the encoder cache *)

Lemma reset_encoder_cache_ok nst spec s wl : state_ok cfg hc nst spec s wl -> state_ok cfg hc nst spec (reset_encoder_cache s) wl.
Proof. intros [[V N R Q W U G KW EW] Hl Hnd Hpos He]. split; try done. split; try done. by apply ec_reset_ok. Qed.

(** * Aborted requests *)

(** The requests to finish: those that are known. *)
Lemma unfinished_spec nst spec s wl ids r : state_ok cfg hc nst spec s wl ->
  r ∈ unfinished s ids <-> requests s !! ref_id (ref_of r) = Some r /\ ref_id (ref_of r) ∈ ids.
Proof.
  intros [Hs _ _ _ _]. unfold unfinished. rewrite list_elem_of_filter, list_elem_of_omap.
  assert (Hu : forall id x, requests s !! id = Some x -> status_is_finished (status (base x)) = false /\ id = ref_id (ref_of x)).
  { intros id x Ex. destruct (st_reqs _ _ _ _ _ Hs _ _ Ex) as [Hok Hin]. pose proof (ro_ref _ _ _ _ Hok) as Href. subst id. split; [|done].
    apply elem_of_app in Hin as [Hin|Hin].
    - by destruct (st_run _ _ _ _ _ Hs x Ex Hin) as [-> _ _].
    - by destruct (st_wait _ _ _ _ _ Hs x Ex Hin) as [[W|[W|W]] _ _ _]; rewrite W. }
  split.
  - intros (_ & id & Hid & Ex). destruct (Hu id r Ex) as [_ ->]. done.
  - intros [Ex Hid]. destruct (Hu _ _ Ex) as [Hf _]. split; [done|]. by exists (ref_id (ref_of r)).
Qed.

Lemma unfinished_nodup nst spec s wl ids : state_ok cfg hc nst spec s wl -> NoDup ids -> NoDup (ref_of <$> unfinished s ids).
Proof.
  intros Hst Hnd. assert (Hkey : forall x, x ∈ unfinished s ids -> requests s !! ref_id (ref_of x) = Some x) by (intros x [? _]%(unfinished_spec nst spec s wl ids x Hst); done).
  apply NoDup_fmap_2_strong; [intros x y Hx%Hkey Hy%Hkey Hxy; congruence|].
  unfold unfinished. apply NoDup_filter. clear Hkey. induction Hnd as [|id ids Hid Hnd IH]; [constructor|]. cbn. destruct (requests s !! id) as [x|] eqn:Ex; [|done].
  constructor; [|done]. rewrite list_elem_of_omap. intros (id' & Hin & Ex'). destruct Hst as [Hs _ _ _ _].
  destruct (st_reqs _ _ _ _ _ Hs _ _ Ex) as [O1 _], (st_reqs _ _ _ _ _ Hs _ _ Ex') as [O2 _].
  apply Hid. by rewrite <- (ro_ref _ _ _ _ O1), (ro_ref _ _ _ _ O2).
Qed.

(** While the requests are freed: those of [pre] are gone. *)
Record finishing (s0 : scheduler K E) (wl : list req_ref) (run : list req_ref) (q : RequestQueue) (pre : list sreq) (s : scheduler K E) : Prop := {
  fn_queues : running s = run /\ waiting s = q;
  fn_requests id : requests s !! id = if decide (id ∈ (ref_id ∘ ref_of) <$> pre) then None else requests s0 !! id;
  fn_finished : finished_req_ids s = list_to_set ((ref_id ∘ ref_of) <$> pre) ∪ finished_req_ids s0;
  fn_store : exists q', store_ok cfg hc [] (set_waiting q' (set_running (filter (fun x => x ∉ ref_of <$> pre) (running s0)) s))
    (filter (fun x => x ∉ ref_of <$> pre) wl);
}.

Lemma finish_one_ok st s0 wl run q pre r post s :
  status_is_finished st = true -> NoDup (ref_of <$> pre ++ r :: post) -> requests s0 !! ref_id (ref_of r) = Some r ->
  (forall x, x ∈ pre -> requests s0 !! ref_id (ref_of x) = Some x) -> finishing s0 wl run q pre s ->
  exists s', finish_one st s r = Ok s' /\ finishing s0 wl run q (pre ++ [r]) s'.
Proof.
  intros Hst Hnd Er Hpre [[Q1 Q2] FR FF [q' FS]].
  assert (Hnew : ref_id (ref_of r) ∉ (ref_id ∘ ref_of) <$> pre).
  { rewrite list_elem_of_fmap. intros (x & Hx & Hin). cbn in Hx. pose proof (Hpre x Hin) as Ex. rewrite <- Hx, Er in Ex. injection Ex as <-.
    rewrite fmap_app, fmap_cons in Hnd. apply NoDup_app in Hnd as (_ & Hd & _). apply (Hd (ref_of r)); [by apply list_elem_of_fmap_2|left]. }
  assert (Hlk : requests s !! ref_id (ref_of r) = Some r) by by rewrite FR, decide_False.
  destruct (st_reqs _ _ _ _ _ FS _ _ Hlk) as [Hok _]. set (vs := set_waiting q' (set_running _ s)) in *.
  destruct (remove_all_view _ [ref_of r] _ _ (st_view _ _ _ _ _ FS)) as (q2 & _ & V2).
  assert (Hf : forall l : list req_ref, filter (fun x => x ∉ ref_of <$> (pre ++ [r])) l = filter (fun x => x <> ref_of r) (filter (fun x => x ∉ ref_of <$> pre) l)).
  { intros l. rewrite list_filter_filter. apply list_filter_iff. intros x. rewrite fmap_app, elem_of_app. cbn. rewrite list_elem_of_singleton. tauto. }
  assert (Hf1 : forall l : list req_ref, filter (fun x => x ∉ [ref_of r]) l = filter (fun x => x <> ref_of r) l).
  { intros l. apply list_filter_iff. intros x. by rewrite list_elem_of_singleton. }
  rewrite Hf1 in V2. unfold finish_one. rewrite free_request_put.
  destruct (free_request_ok cfg hc vs _ r (with_base (set_status st) r) q2 FS Hlk) as (s1 & E1 & R1 & F1 & _ & _ & S1);
    [apply (ro_id _ _ _ _ Hok)|apply (ro_good _ _ _ _ Hok)|done|done|].
  unfold vs in E1. rewrite free_request_queues in E1. destruct (free_request _ s) as [s'|] eqn:E'; [|done]. cbn [mbind result_bind] in E1.
  injection E1 as <-. exists s'. split; [done|]. sched.
  assert (Hq : running s' = running s /\ waiting s' = waiting s).
  { unfold free_request in E'. destruct (py_assert _); [|done]. cbn [mbind result_bind] in E'. destruct (ec_free _ _); [|done]. cbn [mbind result_bind] in E'.
    destruct (kv_free _ _); [|done]. cbn [mbind result_bind] in E'. by injection E' as <-. }
  destruct Hq as [Hq1 Hq2]. split.
  - by rewrite Hq1, Hq2.
  - intros id. rewrite R1. change (requests vs) with (requests s). rewrite fmap_app. destruct (decide (id = ref_id (ref_of r))) as [->|Hne].
    + rewrite lookup_delete_eq, decide_True; [done|]. apply elem_of_app. right. left.
    + rewrite lookup_delete_ne, FR by done. destruct (decide (id ∈ (ref_id ∘ ref_of) <$> pre)); [rewrite decide_True by set_solver; done|].
      rewrite decide_False; [done|]. rewrite elem_of_app. cbn. rewrite list_elem_of_singleton. tauto.
  - rewrite F1. change (finished_req_ids vs) with (finished_req_ids s). rewrite FF, fmap_app, list_to_set_app_L. cbn. set_solver.
  - exists q2. rewrite !Hf. exact S1.
Qed.

Lemma finish_requests_ok ids st nst spec s wl :
  state_ok cfg hc nst spec s wl -> NoDup ids -> status_is_finished st = true ->
  exists s' wl', finish_requests ids st s = Ok s' /\ state_ok cfg hc nst spec s' wl' /\
    (forall id, requests s' !! id = if decide (id ∈ ids) then None else requests s !! id) /\
    (forall id, id ∈ ids -> is_Some (requests s !! id) -> id ∈ finished_req_ids s').
Proof.
  intros Hst Hnd Hfin. unfold finish_requests. rewrite Hfin. cbn [py_assert mbind result_bind]. set (valid := unfinished s ids).
  assert (Hval : forall r, r ∈ valid <-> requests s !! ref_id (ref_of r) = Some r /\ ref_id (ref_of r) ∈ ids) by (intros r; by apply (unfinished_spec nst spec s wl)).
  pose proof (unfinished_nodup nst spec s wl ids Hst Hnd) as Hvd. fold valid in Hvd. destruct Hst as [Hs Hl Hk Hpos He].
  set (a := ref_of <$> filter (fun r => status (base r) = RUNNING) valid). set (b := ref_of <$> filter (fun r => status (base r) <> RUNNING) valid).
  assert (Hwhere : forall r, r ∈ valid -> if decide (status (base r) = RUNNING) then ref_of r ∈ running s else ref_of r ∈ wl).
  { intros r [Er _]%Hval. destruct (st_reqs _ _ _ _ _ Hs _ _ Er) as [_ [Hin|Hin]%elem_of_app].
    - destruct (st_run _ _ _ _ _ Hs r Er Hin) as [U1 _ _]. by rewrite decide_True.
    - destruct (st_wait _ _ _ _ _ Hs r Er Hin) as [W1 _ _ _]. rewrite decide_False; [done|]. by destruct W1 as [->|[->| ->]]. }
  assert (Ha : a ⊆ running s).
  { intros x (r & -> & [Hr Hin]%list_elem_of_filter)%list_elem_of_fmap. specialize (Hwhere r Hin). by rewrite decide_True in Hwhere. }
  assert (Hb : b ⊆ wl).
  { intros x (r & -> & [Hr Hin]%list_elem_of_filter)%list_elem_of_fmap. specialize (Hwhere r Hin). by rewrite decide_False in Hwhere. }
  assert (Hab : forall x, x ∈ ref_of <$> valid <-> x ∈ a ++ b).
  { intros x. unfold a, b. rewrite <- fmap_app, !list_elem_of_fmap. setoid_rewrite elem_of_app. setoid_rewrite list_elem_of_filter.
    split; intros (r & -> & Hr); exists r; (split; [done|]); [destruct (decide (status (base r) = RUNNING)); tauto|tauto]. }
  pose proof (st_nodup _ _ _ _ _ Hs) as N. destruct (drop_split _ _ _ _ N Ha Hb) as [D1 D2].
  destruct (drop_waiting _ _ _ b (st_view _ _ _ _ _ Hs)) as (q & Eq & Vq). sched.
  replace (match b with [] => Ok (waiting s) | _ :: _ => remove_requests b (waiting s) end) with (Ok q : result RequestQueue) by (rewrite <- Eq; by destruct b).
  cbn [mbind result_bind]. rewrite remove_all_filter by (by apply NoDup_app in N as (? & _)). set (run := filter (fun x => x ∉ a) (running s)) in *.
  destruct (foldM_inv (finish_one st) (finishing s wl run q) valid (set_waiting q (set_running run s))) as (s' & -> & [[Q1 Q2] FR FF [q' FS]]).
  - split; try done; [cbn; set_solver|].
    exists (waiting s). rewrite !filter_all by (intros; apply not_elem_of_nil). by destruct s.
  - intros pre r post s1 Ev Hf. apply (finish_one_ok st s wl run q pre r post s1); [done|by rewrite <- Ev|..|done].
    + apply Hval. rewrite Ev. set_solver.
    + intros x Hx. apply Hval. rewrite Ev. set_solver.
  - assert (Hids : forall id, id ∈ (ref_id ∘ ref_of) <$> valid <-> id ∈ ids /\ is_Some (requests s !! id)).
    { intros id. rewrite list_elem_of_fmap. split; [intros (r & -> & [Er Hr]%Hval); cbn; by eauto|]. intros [Hin [r Er]]. exists r.
      destruct (st_reqs _ _ _ _ _ Hs _ _ Er) as [Hok _]. pose proof (ro_ref _ _ _ _ Hok) as Href. cbn. rewrite Hval, Href. done. }
    assert (Hlook : forall id, requests s' !! id = if decide (id ∈ ids) then None else requests s !! id).
    { intros id. rewrite FR. destruct (decide (id ∈ (ref_id ∘ ref_of) <$> valid)) as [Hi|Hi]; rewrite Hids in Hi; [by rewrite decide_True by tauto|].
      destruct (decide (id ∈ ids)); [|done]. destruct (requests s !! id) eqn:Ei; [|done]. exfalso. apply Hi. split; [done|by eexists]. }
    assert (Hfv : forall l : list req_ref, filter (fun x => x ∉ ref_of <$> valid) l = filter (fun x => x ∉ a ++ b) l).
    { intros l. apply list_filter_iff. intros x. by rewrite Hab. }
    rewrite !Hfv, D1, D2 in FS. exists s', (filter (fun x => x ∉ b) wl). split; [done|]. split; [|split; [done|]].
    + assert (Hs' : store_ok cfg hc [] (set_waiting q (set_running run s')) (filter (fun x => x ∉ b) wl)) by exact (store_trimmed cfg hc s' _ q' _ q _ _ FS eq_refl Vq eq_refl).
      rewrite <- Q1, <- Q2 in Hs'. split; [by destruct s'|..|done|done|].
      * rewrite Q1. unfold run, py_len in *. pose proof (length_filter (fun x => x ∉ a) (running s)). lia.
      * intros r Er Hr. rewrite Hlook in Er. destruct (decide (ref_id (ref_of r) ∈ ids)); [done|]. apply He; [done|]. rewrite Q1 in Hr. by apply list_elem_of_filter in Hr as [_ ?].
    + intros id Hin Hi. rewrite FF. apply elem_of_union_l, elem_of_list_to_set, Hids. done.
Qed.

(** * Resetting the prefix cache *)

Lemma preempt_for_reset_ok ex s wl rest ref :
  store_ok cfg hc ex s wl -> running s = rest ++ [ref] ->
  exists s' ex' wl', preempt_for_reset s ref = Ok s' /\ store_ok cfg hc ex' s' wl' /\ running s' = rest.
Proof.
  intros Hs Hrun. destruct (store_ref cfg hc ex s wl ref Hs) as (v & Ev & Href & Hok & Hg); [rewrite Hrun; set_solver|]. subst ref.
  unfold preempt_for_reset. rewrite Hg. cbn [mbind result_bind]. rewrite Hrun, removelast_last.
  destruct (preempt_ok cfg hc ex s wl v rest Hs Ev) as (s1 & -> & Hs1 & Hr1 & Hq1 & _); [rewrite Hrun; set_solver|rewrite Hrun; symmetry; apply Permutation_cons_append|].
  cbn [mbind result_bind]. unfold get_req. rewrite Hq1, lookup_insert_eq. cbn [of_option mbind result_bind].
  eexists _, _, _. split; [reflexivity|]. split; [|exact Hr1].
  assert (Er1 : requests s1 !! ref_id (ref_of (preempted_req v)) = Some (preempted_req v)) by (rewrite Hq1; apply lookup_insert_eq).
  destruct (st_reqs _ _ _ _ _ Hs1 _ _ Er1) as [Hok1 _].
  apply (store_put cfg hc _ s1 _ (preempted_req v)); try done.
  - destruct Hok1. by split.
  - intros Hw. destruct (st_wait _ _ _ _ _ Hs1 _ Er1 Hw). by split.
  - intros Hw. destruct (st_run _ _ _ _ _ Hs1 _ Er1 Hw). by split.
Qed.

Lemma preempt_all_ok rs : forall ex s wl, store_ok cfg hc ex s wl -> running s = rs ->
  exists s' ex' wl', foldM preempt_for_reset (reverse rs) s = Ok s' /\ store_ok cfg hc ex' s' wl' /\ running s' = [].
Proof.
  induction rs as [|ref rs IH] using rev_ind; intros ex s wl Hs Hr; [by eexists _, _, _|].
  rewrite reverse_snoc. cbn [foldM]. destruct (preempt_for_reset_ok ex s wl rs ref Hs Hr) as (s1 & ex1 & wl1 & -> & Hs1 & Hr1). cbn [mbind result_bind].
  by apply (IH ex1 s1 wl1).
Qed.

(** Nothing is held when nothing runs. *)
Lemma idle_fresh ex s wl id : store_ok cfg hc ex s wl -> running s = [] -> kv_fresh (kv s) id.
Proof.
  intros Hs Hr. destruct (requests s !! id) as [r|] eqn:Er; [|by apply (st_gone _ _ _ _ _ Hs)].
  destruct (st_reqs _ _ _ _ _ Hs _ _ Er) as [Hok Hin]. rewrite Hr in Hin. cbn in Hin. pose proof (ro_ref _ _ _ _ Hok) as Href. subst id.
  destruct (st_wait _ _ _ _ _ Hs r Er Hin) as [_ _ H _]. by rewrite (ro_id _ _ _ _ Hok) in H.
Qed.

Lemma reset_prefix_cache_ok b nst spec s wl :
  state_ok cfg hc nst spec s wl ->
  exists ok s' wl', Scheduler.reset_prefix_cache b s = Ok (ok, s') /\ state_ok cfg hc nst spec s' wl' /\ (b = true -> ok = true /\ running s' = []).
Proof.
  intros [Hs Hl Hk Hpos He]. unfold Scheduler.reset_prefix_cache. destruct b.
  - destruct (preempt_all_ok (running s) [] s wl Hs eq_refl) as (s1 & ex1 & wl1 & -> & Hs1 & Hr1). cbn [mbind result_bind].
    set (s2 := set_prev ∅ s1). assert (Hs2 : store_ok cfg hc [] s2 wl1).
    { destruct Hs1 as [V N R Q W U G KW EW]. split; try done. intros r Er Hw. destruct (W r Er Hw) as [W1 W2 W3 _]. split; try done. }
    pose proof (kv_reset_law (kv s2) (st_kv _ _ _ _ _ Hs2)) as Hreset. destruct (kv_reset (kv s2)) as [ok k]. destruct Hreset as (Hkw & Hkept & Hok).
    rewrite Hok by (intros id; by apply (idle_fresh [] s2 wl1)). cbn [andb negb]. eexists _, _, wl1. split; [reflexivity|]. split; [|done].
    split; [by apply store_kv|..|done|done|].
    + change (running (set_kv k s2)) with (running s1). rewrite Hr1. unfold py_len in *. cbn. lia.
    + intros r _ Hr. change (running (set_kv k s2)) with (running s1) in Hr. rewrite Hr1 in Hr. by apply elem_of_nil in Hr.
  - cbn [mbind result_bind andb]. pose proof (kv_reset_law (kv s) (st_kv _ _ _ _ _ Hs)) as Hreset. destruct (kv_reset (kv s)) as [ok k].
    destruct Hreset as (Hkw & Hkept & _). eexists ok, _, wl. split; [reflexivity|]. split; [|done]. split; try done. by apply store_kv.
Qed.
End Requests.
