(* ===== verification/SchedulerKV.v ===== *)
(** The KV-cache manager keeps what the scheduler relies on: [KVCacheLaws] for
    [kv_manager], without prefix caching or with one group of full attention. *)
From S2P Require Import Prelude FreeQueue Request BlockHash BlockPool SingleType SingleTypeFacts KVManager KVManagerFacts KVSlots PrefixHits Scheduler SchedulerFacts.
Import BlockPool.BlockPool PoolFacts.
Local Open Scope Z_scope.

(** A property of the groups carried along a step of every group. *)
Lemma groups_rel {A} (R : Z -> manager -> A -> manager -> Prop) (P P' : manager -> Prop) i ms as_ ms' :
  each_rel R i ms as_ ms' -> (forall j m a m', R j m a m' -> P m -> P' m') -> (forall m, m ∈ ms -> P m) -> forall m', m' ∈ ms' -> P' m'.
Proof.
  intros H HP Hms m' Hm'. assert (HC : all_C (fun _ => P) i ms) by (apply all_C_Forall; by apply Forall_forall).
  assert (HC' : all_C (fun _ => P') i ms') by (eapply all_C_rel; [exact H| |exact HC]; eauto).
  apply list_elem_of_lookup in Hm' as [j Hj]. exact (all_C_elim _ _ _ _ _ HC' Hj).
Qed.

Lemma hash_known p l i : pool_inv p l -> hash_of p i <> None -> Z.of_nat i < num_gpu_blocks p.
Proof.
  intros I Hh. apply (pb_dom _ _ (proj1 I)). unfold hash_of in Hh. destruct (store p !! Blk i); [by eexists|done].
Qed.

(** A property of every group, as a sum over the groups. *)
Lemma groups_sizes {A} (R : Z -> manager -> A -> manager -> Prop) i ms as_ ms' :
  each_rel R i ms as_ ms' -> (forall j m a m', R j m a m' -> same_mgr m m') -> block_size <$> ms' = block_size <$> ms.
Proof.
  intros H HM. induction H as [|j m a m' ms as_ ms' HR H IH]; [done|]. rewrite !fmap_cons, IH. f_equal. by destruct (HM _ _ _ _ HR) as (_ & <- & _).
Qed.

Section KVInstance.
(** [room]: the pool is known to hold a request of the model's length. *)
Context (max_len : Z) (hc : Request -> Prop) (room : Prop).

(** The coordinators covered: without prefix caching, or one group of full
    attention whose blocks are hashed as they are. *)
Definition coord_ok (k : kv_manager) : Prop :=
  match kind (coord k) with
  | NoPrefixCache => kv_caching k = false
  | Unitary spec bs dcp pcp =>
      kv_caching k = true /\ is_full_spec spec = true /\ hash_block_size (kv_pool k) = bs /\
      (if 1 <? dcp * pcp then spec_block_size spec * (dcp * pcp) else spec_block_size spec) = bs /\
      length (kv_groups k) = 1%nat /\ forall m, m ∈ kv_groups k -> block_size m = bs
  | Hybrid _ _ _ => False
  end.

(** Right hashes cover the tokens and are distinct. *)
Definition hashes_cover (k : kv_manager) : Prop :=
  kv_caching k = true -> forall r, hc r -> num_tokens r / hash_block_size (kv_pool k) <= py_len (block_hashes r) /\ NoDup (block_hashes r).

(** No request has more blocks than the model's length needs. *)
Definition bounded (k : kv_manager) : Prop :=
  forall m id, m ∈ kv_groups k -> py_len (blocks_of id m) <= cdiv max_len (block_size m).

(** The pool holds one request of the model's length, as the start-up check asks. *)
Definition enough (k : kv_manager) : Prop :=
  sumZ (cdiv max_len <$> (block_size <$> kv_groups k)) <= num_gpu_blocks (kv_pool k) - 1.

#[export] Instance kv_manager_view : KVCacheView kv_manager := {|
  kv_wf := fun k => (exists l, kv_ok k l) /\ max_model_len k = max_len /\ coord_ok k /\ hashes_cover k /\ bounded k /\ (room -> enough k);
  kv_slots := fun k id t => forall m, m ∈ kv_groups k -> goes_on id t m;
  kv_fresh := fun k id => forall m, m ∈ kv_groups k -> starts id m;
  kv_ready := fun k id b n =>
    match b with
    | EmptyBlocks => n = 0
    | Blocks ncbs => request_at id ncbs n 0 true (kv_pool k) (kv_groups k)
    end;
|}.

Lemma coord_ok_same {A} k k' (R : Z -> manager -> A -> manager -> Prop) us :
  kv_same k k' -> each_rel R 0 (kv_groups k) us (kv_groups k') -> (forall j m u m', R j m u m' -> same_mgr m m') -> coord_ok k -> coord_ok k'.
Proof.
  intros (S1 & S2 & S3 & S4) HR HM. unfold coord_ok. rewrite S3, S2. destruct (kind (coord k)) as [|spec bs dcp pcp|]; [done| |done].
  destruct S4 as (_ & _ & <- & _). intros (H1 & H2 & H3 & H4 & H5 & H6). do 4 (split; [done|]). split.
  - rewrite <- H5. clear -HR. by induction HR; cbn; f_equal.
  - apply (groups_rel R (fun m => block_size m = bs) _ 0 (kv_groups k) us); [done| |done]. intros j m u m' Hr Hb. destruct (HM _ _ _ _ Hr) as (_ & <- & _). done.
Qed.

Lemma hashes_cover_same k k' : kv_same k k' -> hashes_cover k -> hashes_cover k'.
Proof. intros (S1 & S2 & S3 & S4) H. unfold hashes_cover in *. rewrite S2. by destruct S4 as (_ & _ & <- & _). Qed.

(** A step that keeps the managers and does not exceed the bound keeps the cache
    well formed. *)
Lemma wf_step {A} k k' l' (R : Z -> manager -> A -> manager -> Prop) us :
  kv_wf k -> kv_ok k' l' -> kv_same k k' -> each_rel R 0 (kv_groups k) us (kv_groups k') ->
  (forall j m u m', R j m u m' -> same_mgr m m' /\
     forall id, py_len (blocks_of id m') <= Z.max (py_len (blocks_of id m)) (cdiv max_len (block_size m))) -> kv_wf k'.
Proof.
  intros (_ & Hmax & Hco & Hcov & Hbd & Hen) Hk' Hsame HR HM. pose proof Hsame as (S1 & _ & _ & S4).
  assert (HM1 : forall j m u m', R j m u m' -> same_mgr m m') by (intros j m u m' [? _]%HM; done).
  split; [by eauto|]. split; [congruence|]. split; [by eapply coord_ok_same|]. split; [by eapply hashes_cover_same|]. split.
  - intros m id. revert m. apply (groups_rel R (fun m => py_len (blocks_of id m) <= cdiv max_len (block_size m)) _ 0 _ us _ HR).
    + intros j m u m' [(_ & <- & _) Hl]%HM Hm. specialize (Hl id). lia.
    + intros m Hm. by apply Hbd.
  - intros Hr. unfold enough. rewrite (groups_sizes R 0 _ us _ HR HM1). destruct S4 as (<- & _). by apply Hen.
Qed.

(** ** Prefix-cache hits *)

(** The hits of one group of full attention. *)
Lemma unitary_hits p l spec hs max_length eagle bs dcp pcp :
  pool_inv p l -> is_full_spec spec = true -> NoDup hs -> 0 < bs -> 0 <= max_length ->
  (if 1 <? dcp * pcp then spec_block_size spec * (dcp * pcp) else spec_block_size spec) = bs ->
  exists bl, SingleType.find_longest_cache_hit spec (HList hs) max_length [0] eagle bs dcp pcp p = Ok [bl] /\
    hits_ok p bl /\ 0 <= py_len bl * bs <= max_length.
Proof.
  intros I Hsp Hnd Hbs Hmax Hsize.
  destruct (full_hit_ok p l I (HList hs) Logic.I [0]) with (spec := spec) (max_length := max_length) (eagle := eagle) (alignment := bs) (dcp := dcp) (pcp := pcp)
    as (m0 & m & computed & E & Hrows & Hfull); [done|by intros g ->%list_elem_of_singleton|by rewrite Hsize|done|].
  assert (Ef : SingleType.find_longest_cache_hit spec (HList hs) max_length [0] eagle bs dcp pcp p = Ok computed) by (rewrite <- E; by destruct spec).
  rewrite Ef. unfold rows in Hrows. apply Forall2_cons_inv_l in Hrows as (bl & rest & [Hlen Hkey] & Hrest & ->). apply Forall2_nil_inv_l in Hrest as ->.
  exists bl. split; [done|]. rewrite Hsize in Hfull. destruct Hfull as [F1 _ _ F4 _ _].
  assert (Hm : Z.of_nat m <= max_length / bs) by (pose proof (Z.div_pos max_length bs); lia).
  split; [|pose proof (Z.mul_div_le max_length bs); unfold py_len; rewrite Hlen; nia].
  assert (Hh : forall i, i ∈ bl -> hash_of p i <> None) by (intros i [j Hj]%list_elem_of_lookup; destruct (Hkey j i Hj) as (h & _ & ->); done).
  split; [intros i Hi; by eapply hash_known, Hh|by auto|]. apply NoDup_filter, NoDup_alt. intros i j b Hi Hj.
  destruct (Hkey i b Hi) as (h & H1 & H2), (Hkey j b Hj) as (h' & H1' & H2'). rewrite H2 in H2'. injection H2' as He.
  apply app_inj_2 in He as [-> _]; [|done]. by eapply NoDup_lookup.
Qed.

Lemma kv_ok_stats k l st : kv_ok k l -> kv_ok (with_stats st k) l.
Proof. intros [? ? ? ?]. by split. Qed.

Lemma group_at k l m : kv_ok k l -> m ∈ kv_groups k -> group_ok (kv_caching k) (kv_pool k) m /\ wf (kv_pool k) m.
Proof.
  intros [K HG _ _] Hm. split; [|by eapply Forall_forall; [apply (ki_wf _ _ _ K)|]].
  apply list_elem_of_lookup in Hm as [j Hj]. exact (all_C_elim _ _ _ _ _ HG Hj).
Qed.

Lemma computed_law k r : kv_wf k -> kv_fresh k (request_id r) -> hashed hc r -> 1 <= num_tokens r <= max_len ->
  exists b n k', KVCacheManager.get_computed_blocks r k = Ok (b, n, k') /\ kv_wf k' /\ 0 <= n < num_tokens r /\
    kv_ready k' (request_id r) b n /\ forall id, kv_kept id k k'.
Proof.
  intros Hwf Hfresh Hh Hnt. pose proof Hwf as ((l & Hk) & Hmax & Hco & Hcov & _). unfold KVCacheManager.get_computed_blocks.
  destruct (negb (kv_caching k) || skip_reading_prefix_cache r) eqn:Eskip.
  { exists EmptyBlocks, 0, k. split; [done|]. split; [done|]. split; [lia|]. split; [done|]. by split. }
  apply orb_false_iff in Eskip as [Ec _]. apply negb_false_iff in Ec. destruct (Hcov Ec _ Hh) as [Hlen Hnd].
  unfold co_find_longest_cache_hit. pose proof Hco as Hco'. unfold coord_ok in Hco'.
  destruct (kind (coord k)) as [|spec bs dcp pcp|]; [congruence| |done]. destruct Hco' as (_ & Hfull & Hhb & Hsize & Hone & Hbs).
  pose proof (ko_hashes _ _ Hk) as Hpos. rewrite Hhb in Hpos.
  destruct (unitary_hits (kv_pool k) l spec (block_hashes r) (num_tokens r - 1) (use_eagle (coord k)) bs dcp pcp) as (bl & E & Hhit & Hn);
    [apply (ki_pool _ _ _ (ko_inv _ _ Hk))|done|done|done|lia|done|].
  fold (kv_pool k). rewrite E. cbn [mbind result_bind head of_option].
  eexists _, _, _. split; [reflexivity|]. set (k' := with_stats _ k).
  assert (Hgr : forall m, m ∈ kv_groups k -> kv_groups k = [m]).
  { intros m Hm. destruct (kv_groups k) as [|m1 [|m2 ms]]; try done. by apply list_elem_of_singleton in Hm as ->. }
  split; [split; [exists l; by apply kv_ok_stats|exact (proj2 Hwf)]|]. split; [lia|]. split; [|by split].
  unfold KVCacheManager.create_kv_cache_blocks. destruct bl as [|b bl']; [done|]. cbn [existsb length Nat.eqb negb orb]. split.
  - intros i j x [Hi Hij] _ Hx. unfold hits_at in Hx. destruct (Z.to_nat j) eqn:Ej; [lia|]. cbn in Hx. by apply elem_of_nil in Hx.
  - apply all_C_intro. intros j m Hj. change (kv_groups k') with (kv_groups k) in Hj. pose proof (list_elem_of_lookup_2 _ _ _ Hj) as Hm.
    rewrite (Hgr m Hm) in Hj. destruct j as [|j]; [|done]. destruct (group_at k l m Hk Hm) as [[G1 G2 _] _]. change (0 + Z.of_nat 0) with 0.
    split; [by change (py_len [b :: bl']) with 1|]. split; [by left|]. split; [done|]. split; [by apply Hfresh|]. split; [done|]. change (hits_at [b :: bl'] 0) with (b :: bl').
    split; [rewrite (Hbs m Hm); lia|]. congruence.
Qed.

(** ** Allocation *)

(** What another request holds depends on its list and its count only. *)
Lemma kept_group id m m' : same_mgr m m' -> length (blocks_of id m') = length (blocks_of id m) -> num_cached_block m' !! id = num_cached_block m !! id ->
  (forall t, goes_on id t m -> goes_on id t m') /\ (starts id m -> starts id m').
Proof.
  intros (_ & Hsz & _) Hlen Hc. unfold goes_on, starts, py_len. rewrite Hlen, <- Hsz, Hc. split; [done|]. intros [? Hnil].
  split; [done|]. rewrite Hnil in Hlen. by apply nil_length_inv in Hlen.
Qed.

Lemma kept_groups {A} (R : Z -> manager -> A -> manager -> Prop) id k k' as_ :
  each_rel R 0 (kv_groups k) as_ (kv_groups k') ->
  (forall j m a m', R j m a m' -> same_mgr m m' /\ length (blocks_of id m') = length (blocks_of id m) /\ num_cached_block m' !! id = num_cached_block m !! id) ->
  kv_kept id k k'.
Proof.
  intros HR HI. split.
  - intros t Ht. refine (groups_rel R (goes_on id t) (goes_on id t) 0 _ as_ _ HR _ Ht). intros j m a m' (M & L & C)%HI. by apply (kept_group id m m' M L C).
  - intros Hs. refine (groups_rel R (starts id) (starts id) 0 _ as_ _ HR _ Hs). intros j m a m' (M & L & C)%HI. by apply (kept_group id m m' M L C).
Qed.

Lemma allocate_law k r n nl ncb look enc start :
  kv_wf k -> slots_call k r n nl ncb look 0 start -> num_computed_tokens r + nl + n <= max_len ->
  exists res k', KVCacheManager.allocate_slots r n nl ncb look 0 false enc k = Ok (res, k') /\ kv_wf k' /\
    (forall id, id <> request_id r \/ res = None -> kv_kept id k k') /\
    (res <> None -> kv_slots k' (request_id r) (num_computed_tokens r + nl + n)).
Proof.
  intros Hwf Hcall Hle. pose proof Hwf as ((l & Hk) & Hmax & _). destruct (sc_new _ _ _ _ _ _ _ _ Hcall) as (_ & Hlook & _).
  destruct (allocate_slots_ok k l r n nl ncb look 0 false enc start Hk Hcall) as (res & k' & l' & E & Hk' & Hpost & Hsame).
  assert (Hbs : forall m, m ∈ kv_groups k -> 0 < block_size m) by (intros m Hm; apply (wf_size _ _ (proj2 (group_at k l m Hk Hm)))).
  exists res, k'. split; [done|]. destruct res as [out|]; cbn in Hpost.
  - destruct Hpost as (new & _ & HR). set (need := Z.min _ _) in HR. split; [|split].
    + assert (HC : all_C (fun _ m => 0 < block_size m) 0 (kv_groups k)) by (apply all_C_Forall; by apply Forall_forall).
      apply (wf_step k k' l' _ new Hwf Hk' Hsame (each_rel_C _ _ _ _ _ _ HR HC)).
      intros j m a m' [Hb [M [_ Hlen] _ _ _ Ho]]. split; [done|]. intros id.
      pose proof (cdiv_mono need max_len (block_size m) Hb ltac:(unfold need; lia)). destruct (decide (id = request_id r)) as [->|Hid]; [lia|].
      destruct (Ho id Hid) as [-> _]. lia.
    + intros id [Hid|]; [|done]. eapply kept_groups; [exact HR|]. intros j m a m' [M _ _ _ _ Ho]. destruct (Ho id Hid) as [-> ->]. done.
    + intros _ m' Hm'. revert m' Hm'. apply (groups_rel _ (fun m => 0 < block_size m) _ 0 _ new _ HR); [|done].
      intros j m a m' [M [Hlen _] _ _ _ _] Hb. unfold goes_on. destruct M as (_ & <- & _). apply cdiv_le in Hlen; [|done]. unfold need in Hlen. lia.
  - destruct Hpost as (_ & us & HR). split; [|split; [|done]].
    + apply (wf_step k k' l' _ us Hwf Hk' Hsame HR). intros j m a m' [M Hl _ _ _ Ho]. split; [done|]. intros id. unfold py_len.
      destruct (decide (id = request_id r)) as [->|Hid]; [lia|]. destruct (Ho id Hid) as [-> _]. lia.
    + intros id _. eapply kept_groups; [exact HR|]. intros j m a m' [M Hl _ _ Hc Ho]. split; [done|]. rewrite Hc. split; [|done].
      destruct (decide (id = request_id r)) as [->|Hne]; [done|]. by destruct (Ho id Hne) as [-> _].
Qed.

Lemma cover_call k r : hashes_cover k -> hashed hc r -> kv_caching k = true -> num_tokens r / hash_block_size (kv_pool k) <= py_len (block_hashes r).
Proof. intros H Hh Hc. destruct (H Hc _ Hh) as [Hl _]. exact Hl. Qed.

Lemma hits_none n i : hits_at (replicate n []) i = [].
Proof. unfold hits_at. destruct (replicate n [] !! Z.to_nat i) as [x|] eqn:Ex; [|done]. by apply lookup_replicate in Ex as [-> _]. Qed.

(** The calls of the scheduler are calls [allocate_slots] is specified for. *)
Lemma start_call k r b nl n look : kv_wf k -> kv_fresh k (request_id r) -> kv_ready k (request_id r) b nl -> hashed hc r ->
  num_computed_tokens r = 0 -> 0 <= nl -> 1 <= n -> nl + n <= num_tokens r <= max_len -> 0 <= look ->
  slots_call k r n nl (Some b) look 0 (match b with EmptyBlocks => false | Blocks _ => true end).
Proof.
  intros Hwf Hfresh Hready Hh Hc Hnl Hn Hlen Hlook. pose proof Hwf as ((l & Hk) & Hmax & Hco & Hcov & _).
  split; [lia|lia|lia|by apply cover_call|by destruct b|]. rewrite Hc. cbn [default]. destruct b as [|ncbs]; cbn in Hready |- *; [|exact Hready].
  subst nl. apply all_C_intro. intros j m Hj. pose proof (list_elem_of_lookup_2 _ _ _ Hj) as Hm. destruct (group_at k l m Hk Hm) as [[G _ _] W].
  pose proof (lookup_lt_Some _ _ _ Hj) as Hlt. split; [unfold py_len; rewrite length_replicate; unfold num_kv_cache_groups; fold (kv_groups k); lia|].
  split; [done|]. split; [apply hits_none|unfold goes_on, py_len; pose proof (wf_size _ _ W); nia].
Qed.

Lemma grow_call k r n look : kv_wf k -> kv_slots k (request_id r) (num_computed_tokens r) -> hashed hc r ->
  0 <= num_computed_tokens r -> 1 <= n -> num_computed_tokens r + n <= max_len -> 0 <= num_tokens r <= max_len -> 0 <= look ->
  slots_call k r n 0 None look 0 false.
Proof.
  intros Hwf Hslots Hh Hc Hn Hle Hnt Hlook. pose proof Hwf as ((l & Hk) & Hmax & Hco & Hcov & _).
  split; [lia|lia|lia|by apply cover_call|done|]. cbn [default blocks_list request_at].
  apply all_C_intro. intros j m Hj. pose proof (list_elem_of_lookup_2 _ _ _ Hj) as Hm. destruct (group_at k l m Hk Hm) as [[G _ _] W].
  pose proof (lookup_lt_Some _ _ _ Hj) as Hlt. split; [unfold py_len; rewrite length_replicate; unfold num_kv_cache_groups; fold (kv_groups k); lia|].
  split; [done|]. split; [apply hits_none|rewrite !Z.add_0_r; by apply Hslots].
Qed.

Lemma start_law k r b nl n look enc : kv_wf k -> kv_fresh k (request_id r) -> kv_ready k (request_id r) b nl -> hashed hc r ->
  num_computed_tokens r = 0 -> 0 <= nl -> 1 <= n -> nl + n <= num_tokens r <= max_len -> 0 <= look ->
  exists res k', KVCacheManager.allocate_slots r n nl (Some b) look 0 false enc k = Ok (res, k') /\ kv_wf k' /\
    (forall id, id <> request_id r \/ res = None -> kv_kept id k k') /\ (res <> None -> kv_slots k' (request_id r) (nl + n)).
Proof.
  intros Hwf Hfresh Hready Hh Hc Hnl Hn Hlen Hlook.
  destruct (allocate_law k r n nl (Some b) look enc _ Hwf (start_call k r b nl n look Hwf Hfresh Hready Hh Hc Hnl Hn Hlen Hlook)) as (res & k' & E & H1 & H2 & H3); [lia|].
  exists res, k'. rewrite Hc in H3. done.
Qed.

Lemma grow_law k r n look : kv_wf k -> kv_slots k (request_id r) (num_computed_tokens r) -> hashed hc r ->
  0 <= num_computed_tokens r -> 1 <= n -> num_computed_tokens r + n <= max_len -> 0 <= num_tokens r <= max_len -> 0 <= look ->
  exists res k', KVCacheManager.allocate_slots r n 0 None look 0 false 0 k = Ok (res, k') /\ kv_wf k' /\
    (forall id, id <> request_id r \/ res = None -> kv_kept id k k') /\ (res <> None -> kv_slots k' (request_id r) (num_computed_tokens r + n)).
Proof.
  intros Hwf Hslots Hh Hc Hn Hle Hnt Hlook.
  destruct (allocate_law k r n 0 None look 0 _ Hwf (grow_call k r n look Hwf Hslots Hh Hc Hn Hle Hnt Hlook)) as (res & k' & E & H1 & H2 & H3); [lia|].
  exists res, k'. rewrite Z.add_0_r in H3. done.
Qed.

(** ** The other calls *)

Lemma free_law k r : kv_wf k -> exists k', KVCacheManager.free r k = Ok k' /\ kv_wf k' /\ kv_fresh k' (request_id r) /\
  forall id, id <> request_id r -> kv_kept id k k'.
Proof.
  intros Hwf. pose proof Hwf as ((l & Hk) & _). destruct (KVSlots.kv_free_ok k l r Hk) as (k' & l' & us & E & Hk' & _ & HR & Hsame).
  exists k'. split; [done|]. split; [|split].
  - apply (wf_step k k' l' _ us Hwf Hk' Hsame HR). intros j m a m' [M Hb _]. split; [done|]. intros id. unfold blocks_of. rewrite Hb.
    destruct (decide (id = request_id r)) as [->|Hid]; [rewrite lookup_delete_eq|rewrite lookup_delete_ne by done]; unfold py_len; cbn; lia.
  - refine (groups_rel _ (fun _ => True) _ 0 _ us _ HR _ (fun _ _ => Logic.I)). intros j m u m' [_ Hb Hc] _. unfold starts, blocks_of. rewrite Hb, Hc, !lookup_delete_eq. done.
  - intros id Hid. eapply kept_groups; [exact HR|]. intros j m a m' [M Hb Hc]. unfold blocks_of. rewrite Hb, Hc, !lookup_delete_ne by done. done.
Qed.

Lemma common_law k rid : kv_wf k -> exists x k', KVCacheManager.get_num_common_prefix_blocks rid k = Ok (x, k') /\ kv_wf k' /\ forall id, kv_kept id k k'.
Proof.
  intros Hwf. pose proof Hwf as ((l & Hk) & Hmax & Hco & Hcov & _). pose proof Hk as [K HG Hen Hhb].
  unfold KVCacheManager.get_num_common_prefix_blocks, KVCacheCoordinator.get_num_common_prefix_blocks.
  destruct (each_all (fun _ p m => let '(n, m) := SingleType.get_num_common_prefix_blocks rid p m in Ok (n, p, m))
    (fun _ _ _ => True) (fun _ _ _ => 0) (fun _ m _ m' => same_mgr m m' /\ (forall id, blocks_of id m' = blocks_of id m) /\ num_cached_block m' = num_cached_block m)
    eq (kv_groups k) (kv_pool k) l) as (ns & p' & ms' & l' & E & K' & _ & HR & C' & <-); try done.
  - intros i q lq m ext I W O Hh _ _. unfold SingleType.get_num_common_prefix_blocks.
    assert (exists n m', (match kv_cache_spec m with FullAttentionSpec _ | SinkFullAttentionSpec _ _ =>
      (count_common q (Z.of_nat (size (req_to_blocks (default_entry rid m)))) (blocks_of rid (default_entry rid m)), default_entry rid m) | _ => (0, m) end) = (n, m') /\
      (m' = m \/ m' = default_entry rid m)) as (n & m' & -> & Hm') by (destruct (kv_cache_spec m); eexists _, _; (split; [reflexivity|]); tauto).
    exists n, q, m', lq. split; [done|]. split; [|split; [lia|split; [|done]]].
    + destruct Hm' as [-> | ->]; split; first [done|by apply wf_default_entry|by apply owned_default_entry|by intros j].
    + destruct Hm' as [-> | ->]; [done|]. split; [done|]. split; [intros id; apply blocks_of_default|done].
  - apply all_C_Forall. by apply Forall_true.
  - rewrite costs_zero. lia.
  - destruct (kind (coord k)) eqn:Ek; [by eexists _, k; split; [by destruct k as [? ? ? []]|]| |];
      (unfold each_co; fold (kv_pool k) (kv_groups k); rewrite E; cbn [mbind result_bind]; eexists _, _; split; [reflexivity|]; set (k' := with_coord _ k);
       assert (Hsame : kv_same k k') by done; split; [|intros id; apply (kept_groups _ id k k' ns HR); intros j m a m' (M & Hb & ->); by rewrite Hb];
       assert (Hk' : kv_ok k' l') by (apply kv_ok_with; try done; eapply group_ok_rel; [exact HR|by intros ???? [? _]|done|done]);
       apply (wf_step k k' l' _ ns Hwf Hk' Hsame HR);
       intros j m a m' (M & Hb & _); split; [done|]; intros id; rewrite Hb; lia).
Qed.

Lemma reset_law k : kv_wf k -> let '(ok, k') := KVCacheManager.reset_prefix_cache k in
  kv_wf k' /\ (forall id, kv_kept id k k') /\ ((forall id, kv_fresh k id) -> ok = true).
Proof.
  intros Hwf. pose proof Hwf as ((l & Hk) & _). pose proof (KVSlots.kv_reset_ok k l Hk) as H. destruct (KVCacheManager.reset_prefix_cache k) as [ok k'].
  destruct H as (Hk' & (Hok & Hg & _) & Hsame). split; [|split].
  - destruct (each_rel_refl (fun _ m (_ : unit) m' => m' = m) tt 0 (kv_groups k)) as [us HR]; [done|]. rewrite <- Hg in HR at 2.
    apply (wf_step k k' _ _ us Hwf Hk' Hsame HR). intros j m a m' ->. split; [done|]. intros id. lia.
  - intros id. split; unfold kv_slots, kv_fresh; cbn; by rewrite Hg.
  - intros Hf. apply Hok. intros m rid i Hm Hi. destruct (Hf rid m Hm) as [_ Hnil]. rewrite Hnil in Hi. by apply elem_of_nil in Hi.
Qed.

#[export] Instance kv_manager_laws : KVCacheLaws kv_manager max_len hc.
Proof.
  split.
  - intros k id t t' H Hle m Hm. specialize (H m Hm). unfold goes_on in *. lia.
  - exact computed_law.
  - exact start_law.
  - exact grow_law.
  - exact free_law.
  - exact common_law.
  - exact reset_law.
Qed.
End KVInstance.
