(* ===== verification/SchedulerEncoder.v ===== *)
(** The encoder cache under the scheduler: [EncoderCacheManager] keeps what
    [EncoderCacheLaws] asks of the encoder cache, for a decoder-only model.

    The inputs chosen for a request stay allocatable while the scheduler preempts
    other requests: freeing only drops references. *)
From S2P Require Import Prelude Dict Request EncoderCache EncoderSched Scheduler SchedulerFacts.
Local Open Scope Z_scope.

Section EncoderInstance.
Variable size_of : option string -> Z.
Hypothesis size_nonneg : forall h, 0 <= size_of h.
Variable settings : SchedSettings.
Hypothesis decoder_only : is_encoder_decoder settings = false.

(** The inputs of a request: sizes given by the identifiers, placeholders well
    formed and in the order of their positions. *)
Definition features_ok (fs : list MultiModalFeatureSpec) : Prop :=
  (forall f, f ∈ fs -> get_num_embeds (mm_position f) = Ok (size_of (identifier f)) /\ wf_range (mm_position f)) /\
  StronglySorted by_offset fs.

#[export] Instance ecm_view : EncoderCacheView EncoderCacheManager := {|
  ec_wf := ecm_inv size_of;
  ec_good := features_ok;
  ec_planned := fun _ fs l e => forall r, mm_features r = fs -> plan size_of r l e;
|}.

Lemma good_sized r : features_ok (mm_features r) -> sized size_of r.
Proof. intros [Hf _] f Hin. by apply Hf. Qed.

(** A plan depends on the inputs of the request only. *)
Lemma plan_features r r' l m : mm_features r = mm_features r' -> plan size_of r l m -> plan size_of r' l m.
Proof.
  intros Hf. assert (He : hash_of r = hash_of r') by (unfold hash_of; by rewrite Hf).
  unfold plan. by rewrite Hf, He.
Qed.

Lemma plan_nil r n budget m : ecm_inv size_of m -> plan size_of r (mkLocals n budget [] [] ∅ 0) m.
Proof.
  intros Hinv. pose proof Hinv as (_ & _ & _ & _ & Hpos & _). unfold plan, planned_ids. simpl.
  split_and!; [apply Hinv..|by intros ? ?%elem_of_nil|apply NoDup_nil_2| |set_solver|done|done].
  intros h. rewrite elem_of_nil. set_solver.
Qed.

(** A state that caches no more entries and has the same free slots keeps a plan. *)
Lemma plan_kept r l m m' :
  plan size_of r l m -> ecm_inv size_of m' -> (forall h, cached m !! h = None -> cached m' !! h = None) ->
  num_free_slots m' = num_free_slots m -> plan size_of r l m'.
Proof.
  intros (_ & Hr & Hnd & Hh & Hunc & He & Hfit) Hinv Hc Hn. unfold plan.
  split_and!; [apply Hinv..|done|done|done| |done|lia]. intros h Hin. by apply Hc, Hunc.
Qed.

(** Freeing inputs of a request that are in range returns, and keeps every plan. *)
Lemma free_loop_ok v (f : EncoderCacheManager -> Z -> result EncoderCacheManager) ids m :
  sized size_of v -> (forall i, i ∈ ids -> 0 <= i < py_len (mm_features v)) ->
  (forall m i, 0 <= i < py_len (mm_features v) -> f m i = free_encoder_input v i m \/ f m i = Ok m) -> ecm_inv size_of m ->
  exists m', foldM f ids m = Ok m' /\ ecm_inv size_of m' /\ num_free_slots m' = num_free_slots m /\
    forall h, cached m !! h = None -> cached m' !! h = None.
Proof.
  intros Hs Hr Hf Hinv.
  apply (foldM_inv f (fun _ m' => ecm_inv size_of m' /\ num_free_slots m' = num_free_slots m /\
    forall h, cached m !! h = None -> cached m' !! h = None)); [done|].
  intros pre i post m1 El (Hinv1 & Hn1 & Hc1). assert (Hi : 0 <= i < py_len (mm_features v)) by (apply Hr; rewrite El; set_solver).
  destruct (Hf m1 i Hi) as [->| ->]; [|by exists m1].
  destruct (free_input_ok size_of size_nonneg v i m1 Hs Hi Hinv1) as (ft & m2 & _ & -> & Hinv2 & Hc2 & Hn2 & _).
  exists m2. split; [done|]. split; [done|]. split; [congruence|]. intros h Hh%Hc1. rewrite Hc2.
  destruct (decide (h = identifier ft)) as [->|]; [by rewrite lookup_alter_eq, Hh|by rewrite lookup_alter_ne].
Qed.

Lemma cached_ids_range r m i : i ∈ get_cached_input_ids r m -> 0 <= i < py_len (mm_features r).
Proof. intros [_ Hi]%list_elem_of_filter. unfold py_range in Hi. apply elem_of_seqZ in Hi. lia. Qed.

Lemma try_plan_ok e r nc n budget shift :
  ecm_inv size_of e -> features_ok (mm_features r) -> 0 <= n -> 0 <= budget -> 0 <= shift <= 1 ->
  exists l e', try_schedule_encoder_inputs settings r nc n budget shift e = Ok (l, e') /\ plan size_of r l e' /\
    0 <= num_new_tokens l <= n /\ 0 <= compute_budget l.
Proof.
  intros Hinv Hg Hn Hb Hs. pose proof (good_sized r Hg) as Hsz. destruct Hg as [Hf Hsort].
  unfold try_schedule_encoder_inputs. destruct (_ || _).
  { eexists _, e. split; [done|]. split; [by apply plan_nil|]. simpl. lia. }
  destruct (encoder_loop_ok size_of size_nonneg settings decoder_only r Hsz (fun f Hin => proj2 (Hf f Hin)) nc shift Hs
    (mm_features r) [] 0 (mkLocals n budget [] [] ∅ 0) e) as (l & e' & E & Hp & Hnn & Hbb & _); try done.
  - by apply plan_nil.
  - by intros g Hin%elem_of_nil.
  - exists l, e'. done.
Qed.

(** The sizes of the inputs chosen can be read. *)
Lemma planned_embeds r l m :
  sized size_of r -> plan size_of r l m ->
  exists ns, mapR (fun i => get_num_encoder_embeds i r) (to_schedule l) = Ok ns /\ 0 <= sumZ ns.
Proof.
  intros Hs (_ & Hr & _). assert (Hr' : forall i, i ∈ to_schedule l -> 0 <= i < py_len (mm_features r)).
  { intros i Hi. apply Hr. unfold planned_ids. set_solver. }
  clear Hr. induction (to_schedule l) as [|i ids IH]; [by exists []|].
  destruct (feature_at size_of r i Hs) as (f & _ & _ & E); [apply Hr'; left|].
  destruct IH as (ns & E' & Hns); [set_solver|]. exists (size_of (identifier f) :: ns). simpl. rewrite E. cbn [mbind result_bind].
  rewrite E'. split; [done|]. pose proof (size_nonneg (identifier f)). simpl. lia.
Qed.

#[export] Instance ecm_laws : EncoderCacheLaws EncoderCacheManager settings.
Proof.
  split; cbn [ec_wf ec_good ec_planned ecm_view]; cbn [ec_free ec_take_freed ec_reset ecm_free_ops].
  - intros e r nc n budget shift Hwf Hg _ Hn Hb Hs.
    destruct (try_plan_ok e r nc n budget shift Hwf Hg Hn Hb Hs) as (l & e' & E & Hp & Hnn & Hbb).
    exists l, e'. split; [done|]. split; [apply Hp|]. split; [|done]. intros r' Hr'. by apply (plan_features r).
  - intros e _ fs n budget Hwf r _. by apply plan_nil.
  - intros e _ fs l n Hp r Hr. apply (Hp r Hr).
  - intros e _ fs l v Hwf Hp Hv. unfold ecm_free.
    destruct (free_loop_ok v (fun m i => free_encoder_input v i m) (get_cached_input_ids v e) e) as (e' & E & Hwf' & Hn & Hc); try done.
    + by apply good_sized.
    + apply cached_ids_range.
    + by left.
    + exists e'. split; [done|]. split; [done|]. intros r Hr. apply (plan_kept r l e); auto.
  - intros e r l Hg Hp. apply (planned_embeds r l e); [by apply good_sized|by apply Hp].
  - intros e r l Hwf Hg Hp.
    destruct (plan_allocate size_of size_nonneg settings decoder_only r (good_sized r Hg) (fun f Hin => proj2 (proj1 Hg f Hin)) 0 ltac:(lia) l e (Hp r eq_refl)) as (e' & E & Hwf' & _). by exists e'.
  - intros e r Hwf Hg. unfold free_encoder_inputs. cbn [ec_cached_ids ecm_ops].
    destruct (free_loop_ok r (free_step settings r) (get_cached_input_ids r e) e) as (e' & E & Hwf' & _); try done.
    + by apply good_sized.
    + apply cached_ids_range.
    + intros m i Hi. unfold free_step. destruct (feature_at size_of r i (good_sized r Hg) Hi) as (f & _ & -> & _).
      cbn [mbind result_bind]. destruct (_ || _); [by left|by right].
    + by exists e'.
  - intros e (Hnd & Hfr & Hsz & Hfree & Hpos & Hfs). by split_and!.
  - intros e (_ & _ & _ & Hfree & Hpos & _). apply (ecm_init_inv size_of). assert (0 <= slots size_of (cached e)); [|lia].
    apply sumZ_nonneg, Forall_forall. intros x (p & -> & _)%list_elem_of_fmap. apply size_nonneg.
Qed.
End EncoderInstance.
