(* ===== verification/SchedulerHash.v ===== *)
(** The block hashes of scheduled requests, and a new KV cache.

    A request hashes its full blocks when it is made and whenever a token is
    appended.  Whatever the resumed hashing reads of the multi-modal inputs, the
    hashes form a chain: they cover the full blocks and are distinct, which is
    what the KV cache relies on.  A KV cache as it is built keeps [kv_wf]. *)
From S2P Require Import Prelude FreeQueue Request BlockHash BlockPool SingleType SingleTypeFacts KVManager KVManagerFacts KVSlots PrefixHits EncoderCache EncoderSched Scheduler SchedulerFacts SchedulerCalls SchedulerKV.
Import BlockPool.BlockPool PoolFacts.
Local Open Scope Z_scope.

Section Chain.
Variable hash_function : hash_input -> bytes.
Variable NONE_HASH : bytes.
Variable block_size : Z.
Hypothesis block_size_pos : 0 < block_size.
Hypothesis hash_inj : forall x y, hash_function x = hash_function y -> x = y.
Hypothesis hash_nonempty : forall x, hash_function x <> [].
Hypothesis hash_not_seed : forall x, hash_function x <> NONE_HASH.

(** Every hash is made from the hash before it. *)
Definition chained (hs : list bytes) : Prop :=
  forall k h, hs !! k = Some h -> exists toks ex, h = hash_function (parent_of NONE_HASH hs k, toks, ex).

Lemma chained_nodup hs : chained hs -> NoDup hs.
Proof.
  intros Hc. assert (H : forall i j h, (i < j)%nat -> hs !! i = Some h -> hs !! j = Some h -> False).
  { induction i as [|i IH]; intros [|j] h Hij Hi Hj; try lia; destruct (Hc _ _ Hi) as (t1 & e1 & E1), (Hc _ _ Hj) as (t2 & e2 & E2);
      rewrite E2 in E1; apply hash_inj in E1; injection E1 as Hp _ _; cbn [parent_of] in Hp;
      destruct (lookup_lt_is_Some_2 hs j) as [g Hg]; try (apply lookup_lt_Some in Hj; lia); rewrite Hg in Hp; cbn in Hp.
    - destruct (Hc _ _ Hg) as (t & e & ->). by apply hash_not_seed in Hp.
    - destruct (lookup_lt_is_Some_2 hs i) as [g' Hg']; [apply lookup_lt_Some in Hi; lia|]. rewrite Hg' in Hp. cbn in Hp. subst g'.
      by apply (IH j g); [lia|..]. }
  apply NoDup_alt. intros i j h Hi Hj. destruct (lt_eq_lt_dec i j) as [[Hlt|]|Hlt]; [|done|]; exfalso; eauto.
Qed.

Lemma chained_app hs new : chained hs ->
  (forall k h, new !! k = Some h -> exists toks ex, h = hash_function
     (match k with O => default NONE_HASH (last hs) | S k => default NONE_HASH (new !! k) end, toks, ex)) -> chained (hs ++ new).
Proof.
  intros Hc Hn k h. destruct (decide (k < length hs)%nat) as [Hlt|Hge].
  - rewrite lookup_app_l by done. intros Hk. destruct (Hc k h Hk) as (t & e & ->). exists t, e. do 3 f_equal.
    unfold parent_of. destruct k as [|k]; [done|]. by rewrite lookup_app_l by lia.
  - rewrite lookup_app_r by lia. intros Hk. destruct (Hn _ _ Hk) as (t & e & ->). exists t, e. do 3 f_equal. unfold parent_of.
    destruct (k - length hs)%nat as [|m] eqn:Em.
    + destruct k as [|k]; [destruct hs; [done|cbn in *; lia]|]. assert (length hs = S k) as Hl by lia. rewrite lookup_app_l by lia.
      by rewrite last_lookup, Hl.
    + destruct k as [|k]; [lia|]. rewrite lookup_app_r by lia. by replace (k - length hs)%nat with m by lia.
Qed.

(** ** The hasher returns *)
Definition named (fs : list MultiModalFeatureSpec) : Prop := forall f, f ∈ fs -> is_Some (identifier f).

Lemma mm_loop_total s e fs : named fs -> exists ks n, mm_loop s e fs = Ok (ks, n) /\ 0 <= n.
Proof.
  induction fs as [|f fs IH]; intros Hn; [by exists [], 0|]. cbn [mm_loop]. destruct (Hn f) as [id ->]; [left|].
  destruct IH as (ks & n & E & H0); [intros g Hg; apply Hn; by right|]. rewrite E.
  destruct (_ <? e); [|by eexists _, _]. destruct (_ <? s); [eexists _, _; split; [done|lia]|].
  destruct (_ <=? e); [eexists _, _; split; [done|lia]|by eexists _, _].
Qed.

Lemma extra_keys_total r s e i : named (mm_features r) -> -1 <= i ->
  exists ex j, generate_block_hash_extra_keys r s e i = Ok (ex, j) /\ -1 <= j.
Proof.
  intros Hn Hi. unfold generate_block_hash_extra_keys, gen_mm_extra_hash_keys.
  destruct (last (mm_features r)) as [l|] eqn:El; [|by eexists _, i].
  destruct (_ <? s); [by eexists _, i|]. cbv zeta.
  assert (Hlen : 1 <= py_len (mm_features r)) by (unfold py_len; destruct (mm_features r); cbn in *; [done|lia]).
  assert (exists idx, (if i <? 0 then _ ← py_assert (- i <=? py_len (mm_features r)); Ok (py_len (mm_features r) + i) else Ok i) = Ok idx /\ 0 <= idx) as (idx & -> & H0).
  { destruct (Z.ltb_spec i 0); [|by exists i]. unfold py_assert. rewrite (proj2 (Z.leb_le _ _)) by lia. eexists. split; [done|lia]. }
  cbn [mbind result_bind]. destruct (mm_loop_total s e (drop (Z.to_nat idx) (mm_features r))) as (ks & n & -> & Hn0).
  { intros f Hf. apply Hn. rewrite <- (take_drop (Z.to_nat idx) (mm_features r)). set_solver. }
  cbn [mbind result_bind]. eexists _, _. split; [done|lia].
Qed.

Lemma hash_loop_total f r : named (mm_features r) -> forall s p i, -1 <= i -> num_tokens r < s + Z.of_nat f * block_size -> s <= num_tokens r ->
  exists hs, hash_loop hash_function NONE_HASH block_size f r s p i = Ok hs /\ s + py_len hs * block_size <= num_tokens r < s + (py_len hs + 1) * block_size.
Proof.
  intros Hn. induction f as [|f IH]; intros s p i Hi Hf Hs; [lia|]. cbn [hash_loop].
  destruct (Z.ltb_spec (num_tokens r) (s + block_size)) as [Hlt|Hge]; [exists []; split; [done|]; unfold py_len; cbn; lia|].
  destruct (extra_keys_total r s (s + block_size) i Hn Hi) as (ex & j & -> & Hj). cbn [mbind result_bind].
  set (h := hash_block_tokens _ _ _ _ _). destruct (IH (s + block_size) (Some h) j) as (hs & -> & Hlen); [done|lia|lia|].
  cbn [mbind result_bind]. exists (h :: hs). split; [done|]. unfold py_len in *. cbn [length]. lia.
Qed.

(** Right hashes: a chain over the full blocks of a request whose inputs are
    named. *)
Definition hashes_ok (r : Request) : Prop :=
  chained (block_hashes r) /\ py_len (block_hashes r) = num_tokens r / block_size /\ named (mm_features r).

Lemma hasher_extends r : chained (block_hashes r) -> named (mm_features r) -> py_len (block_hashes r) * block_size <= num_tokens r ->
  exists new, request_block_hasher hash_function NONE_HASH block_size r = Ok new /\ hashes_ok (with_block_hashes (block_hashes r ++ new) r).
Proof.
  intros Hc Hn Hle. rewrite request_block_hasher_loop by done. set (s := py_len (block_hashes r) * block_size) in *.
  destruct (hash_loop_total (S (length (all_token_ids r))) r Hn s (last (block_hashes r)) (if 0 <? s then -1 else 0)) as (new & E & Hlen).
  - destruct (0 <? s); lia.
  - assert (0 <= s) by (unfold s, py_len; nia). unfold num_tokens, py_len. nia.
  - done.
  - exists new. split; [done|]. split; [|split; [|done]].
    + cbn [block_hashes with_block_hashes]. apply chained_app; [done|]. intros k h Hk.
      assert (Hp : forall b, last (block_hashes r) = Some b -> exists x, b = hash_function x).
      { intros b Hb. rewrite last_lookup in Hb. destruct (Hc _ _ Hb) as (t & e & ->). by eauto. }
      destruct (hash_loop_chain _ _ _ hash_nonempty _ _ _ _ _ _ k h Hp E Hk) as [ex ->]. by eauto.
    + cbn [block_hashes with_block_hashes]. change (num_tokens (with_block_hashes _ r)) with (num_tokens r).
      unfold s, py_len in *. rewrite length_app. apply Z.div_unique with (num_tokens r - Z.of_nat (length (block_hashes r) + length new) * block_size); lia.
Qed.

(** A request without hashes gets right ones. *)
Lemma first_hashes r : block_hashes r = [] -> named (mm_features r) ->
  exists hs, request_block_hasher hash_function NONE_HASH block_size r = Ok hs /\ hashes_ok (with_block_hashes hs r).
Proof.
  intros Hb Hn. destruct (hasher_extends r) as (hs & E & H); rewrite ?Hb; [by intros [|k] h|done|unfold py_len, num_tokens, py_len; cbn; lia|].
  rewrite Hb in H. by exists hs.
Qed.

Lemma hashes_ok_view r : hashes_ok (hash_view r) <-> hashes_ok r.
Proof. done. Qed.

(** The hasher of the configuration keeps them right. *)
Lemma chain_hasher_ok `{!EncoderCacheView E} (cfg : sched_config) :
  block_hasher cfg = Some (request_block_hasher hash_function NONE_HASH block_size) -> hasher_ok (E := E) cfg hashes_ok.
Proof.
  intros Hh t r _ Hv. destruct (proj1 (hashes_ok_view r) Hv) as (Hc & Hl & Hn). unfold append_output_token_ids, update_block_hashes. rewrite Hh.
  set (r' := with_tokens _ _ r). destruct (hasher_extends r') as (new & -> & H); [done|done|..].
  - change (block_hashes r') with (block_hashes r). rewrite Hl. unfold r', num_tokens, py_len. cbn [all_token_ids with_tokens]. rewrite length_app. cbn [length].
    pose proof (Z.mul_div_le (Z.of_nat (length (all_token_ids r))) block_size block_size_pos). lia.
  - cbn [mbind result_bind]. eexists. split; [reflexivity|]. by apply hashes_ok_view.
Qed.
End Chain.

(** Without a hasher nothing is asked of the hashes. *)
Lemma no_hasher_ok `{!EncoderCacheView E} (cfg : sched_config) : block_hasher cfg = None -> hasher_ok (E := E) cfg (fun _ => True).
Proof. intros Hh t r _ _. unfold append_output_token_ids, update_block_hashes. rewrite Hh. by eexists. Qed.

(** * A new KV cache *)

(** What [__init__] builds is well formed and holds nothing. *)
Lemma new_manager_wf n specs max_len hbs caching eagle log events use_int dcp pcp mc k (hc : Request -> Prop) (room : Prop) :
  attention_config specs dcp pcp -> 0 < hbs -> 0 <= max_len -> (room -> enough max_len k) ->
  (caching = true -> exists spec, specs = [spec] /\ is_full_spec spec = true) ->
  (caching = true -> forall r, hc r -> num_tokens r / hbs <= py_len (block_hashes r) /\ NoDup (block_hashes r)) ->
  KVCacheManager.new_manager n specs max_len hbs caching eagle log events use_int dcp pcp mc = Ok k ->
  @kv_wf _ (kv_manager_view max_len hc room) k /\ forall id, @kv_fresh _ (kv_manager_view max_len hc room) k id.
Proof.
  intros Hcf Hhb Hml Hroom Hfull Hcov Hnew. pose proof (new_manager_ok _ _ _ _ _ _ _ _ _ _ _ _ _ Hcf Hhb Hnew) as Hk.
  pose proof Hcf as (Hs & Hd & Hp & _). revert Hnew. unfold KVCacheManager.new_manager, get_kv_cache_coordinator.
  destruct (Z.ltb_spec 0 n) as [Hn0|Hn0]; [|unfold BlockPool.init; rewrite (proj2 (Z.ltb_ge _ _) Hn0); discriminate].
  destruct (init_spec n caching hbs events use_int mc Hn0) as (p & -> & _ & _ & _ & Hh & _). cbn [mbind result_bind].
  rewrite make_managers_ok by done. cbn [mbind result_bind]. set (ms := imap _ _).
  assert (Hms : forall m, m ∈ ms -> exists i s, s ∈ specs /\ m = empty_group caching dcp pcp i s).
  { intros m [j Hj]%list_elem_of_lookup_1. unfold ms in Hj. rewrite list_lookup_imap in Hj.
    destruct (specs !! j) as [s|] eqn:Es; [|done]. injection Hj as <-. eexists _, s. split; [by eapply list_elem_of_lookup_2|done]. }
  assert (Hfin : forall kd, k = mkKVM max_len caching (if log then Some new_stats else None) (mkCoord p ms eagle kd) -> coord_ok k ->
    @kv_wf _ (kv_manager_view max_len hc room) k /\ forall id, @kv_fresh _ (kv_manager_view max_len hc room) k id).
  { intros kd -> Hco. split; [split; [by eauto|]; split; [done|]; split; [done|]; split; [|split; [|done]]|].
    - intros Hc r. unfold kv_pool. cbn. rewrite Hh. by apply Hcov.
    - intros m id Hm. destruct (group_at _ _ _ Hk Hm) as [_ W]. pose proof (wf_size _ _ W). apply Hms in Hm as (i & s & _ & ->). by apply cdiv_nonneg.
    - intros id m (i & s & _ & ->)%Hms. done. }
  destruct caching; cbn [negb]; [|intros [= <-]; by apply (Hfin NoPrefixCache)].
  destruct (Hfull eq_refl) as (spec & -> & Hspec). cbv zeta. set (bs := if 1 <? pcp then _ else _).
  destruct (Z.eqb_spec hbs bs) as [E|]; [|done]. cbn [py_assert mbind result_bind]. intros [= Hkk]. apply (Hfin (Unitary spec bs dcp pcp)); [done|].
  assert (Hbs : (if 1 <? dcp * pcp then spec_block_size spec * (dcp * pcp) else spec_block_size spec) = bs).
  { unfold bs. destruct (Z.ltb_spec 1 dcp), (Z.ltb_spec 1 pcp), (Z.ltb_spec 1 (dcp * pcp)); nia. }
  rewrite <- Hkk. unfold coord_ok. cbn. split; [done|]. split; [done|]. split; [by rewrite Hh|]. split; [done|]. split; [done|].
  intros m (i & s & ->%list_elem_of_singleton & ->)%Hms. done.
Qed.
