(* ===== verification/SchedulerKeeps.v ===== *)
(** [schedule] keeps the requests: none is lost or made up, and none loses a
    token.  Whatever the caches answer, a step writes only the status, the counts
    and the draft tokens of a request. *)
From S2P Require Import Prelude Dict Request BlockHash BlockPool SingleType KVManager EncoderCache EncoderSched RequestQueue Scheduler SchedulerFacts.
Local Open Scope Z_scope.

(** What a step leaves alone. *)
Record same_content (r r' : sreq) : Prop := {
  sc_ref : ref_of r' = ref_of r;
  sc_id : request_id (base r') = request_id (base r);
  sc_output : output_token_ids (base r') = output_token_ids (base r);
  sc_all : all_token_ids (base r') = all_token_ids (base r);
  sc_params : sampling_params r' = sampling_params r;
  sc_features : mm_features (base r') = mm_features (base r);
  sc_eos : eos_token_id r' = eos_token_id r;
  sc_stop : stop_reason r' = stop_reason r;
  sc_max : max_tokens (base r') = max_tokens (base r);
}.

Lemma same_content_trans a b c : same_content a b -> same_content b c -> same_content a c.
Proof. intros [? ? ? ? ? ? ? ? ?] [? ? ? ? ? ? ? ? ?]. split; congruence. Qed.

Definition keyed (m : gmap string sreq) : Prop := forall id r, m !! id = Some r -> request_id (base r) = id.

(** The same requests, with the same content. *)
Definition keeps (m m' : gmap string sreq) : Prop := keyed m -> keyed m' /\ forall id, option_Forall2 same_content (m !! id) (m' !! id).

#[export] Instance keeps_preorder : PreOrder keeps.
Proof.
  split.
  - intros m Hk. split; [done|]. intros id. destruct (m !! id); constructor. by split.
  - intros a b c H1 H2 Hk. destruct (H1 Hk) as [Kb Hb], (H2 Kb) as [Kc Hc]. split; [done|]. intros id. specialize (Hb id). specialize (Hc id).
    inversion Hb as [x y Hxy Ex Ey|Ex Ey]; rewrite <- Ey in Hc; inversion Hc; constructor. by eapply same_content_trans.
Qed.

(** Writing back a request that was read. *)
Lemma keeps_put m id r r' : m !! id = Some r -> (request_id (base r) = id -> same_content r r') -> keeps m (<[request_id (base r') := r']> m).
Proof.
  intros Hr Hsame Hk. pose proof (Hk _ _ Hr) as Hid. specialize (Hsame Hid). rewrite (sc_id _ _ Hsame), Hid. split.
  - intros i x. destruct (decide (i = id)) as [->|Hne]; [rewrite lookup_insert_eq; intros [= <-]; by rewrite (sc_id _ _ Hsame)|].
    rewrite lookup_insert_ne by done. apply Hk.
  - intros i. destruct (decide (i = id)) as [->|Hne]; [rewrite lookup_insert_eq, Hr; by constructor|]. rewrite lookup_insert_ne by done.
    destruct (m !! i); constructor. by split.
Qed.

(** Taking apart a bind over a pair and reading a request. *)
Ltac inv_get :=
  inv_ok; repeat (match goal with
  | H : get_req _ _ = Ok _ |- _ => unfold get_req in H
  | H : of_option _ ?o = Ok _ |- _ => let E := fresh "Eo" in destruct o eqn:E; [cbn [of_option] in H|discriminate H]
  | x : (_ * _)%type |- _ => destruct x
  end; inv_ok).

Ltac put_kept H := refine (keeps_put _ _ _ _ H (fun _ => _)); by split.

Section Keeps.
Context {K E : Type} `{KV : KVCacheOps K} `{EC : EncoderCacheOps E} `{EF : EncoderCacheFree E}.
Context (cfg : sched_config) (grammar_ready : string -> bool).
Implicit Types s : scheduler K E.

Lemma preempt_keeps r s s' : requests s !! request_id (base r) = Some r -> preempt_request r s = Ok s' -> keeps (requests s) (requests s').
Proof. unfold preempt_request. intros Hr H. inv_get. put_kept Hr. Qed.

Lemma pick_victim_requests s l v s' l' : pick_victim cfg s l = Ok (v, s', l') -> requests s' = requests s.
Proof.
  unfold pick_victim. destruct (policy cfg); intros H.
  - destruct (last (running s)); by inv_ok.
  - inv_get. destruct (bool_decide _); by inv_get.
Qed.

Lemma allocate_keeps fuel ref n : forall s l res s' l', keyed (requests s) ->
  allocate_or_preempt cfg fuel ref n s l = Ok (res, s', l') -> keeps (requests s) (requests s').
Proof.
  induction fuel as [|fuel IH]; intros s l res s' l' Hk H; [done|]. cbn [allocate_or_preempt] in H. inv_get.
  destruct o; [by inv_ok|]. inv_get. pose proof (pick_victim_requests _ _ _ _ _ H0) as Er. cbn in Er.
  assert (Hp : keeps (requests s) (requests x1)).
  { rewrite <- Er. eapply preempt_keeps; [|done]. rewrite Er in Eo0 |- *. by rewrite (Hk _ _ Eo0). }
  destruct (bool_decide _); [by inv_ok|]. etransitivity; [exact Hp|]. eapply IH; [|exact H]. by apply Hp.
Qed.

Lemma running_keeps fuel : forall s l s' l', keyed (requests s) -> running_loop cfg fuel s l = Ok (s', l') -> keeps (requests s) (requests s').
Proof.
  induction fuel as [|fuel IH]; intros s l s' l' Hk H; cbn [running_loop] in H; (destruct (running s !! _) as [ref|]; [|by inv_ok]);
    (destruct (_ <=? 0); [by inv_ok|]); [done|]. inv_get. destruct (_ && _); [by eapply IH|]. inv_get. destruct (_ =? 0); [by apply (IH (set_enc e s)) in H|].
  inv_get. apply allocate_keeps in H1 as Ha; [|done]. cbn [requests set_enc] in Ha. destruct o; [|by inv_ok]. inv_get.
  assert (Hs : keeps (requests s0) (requests s1)).
  { unfold schedule_running in H2. inv_get. destruct (record_inputs _ _ _). inv_get. put_kept Eo0. }
  pose proof (proj1 (Ha Hk)) as K0. etransitivity; [exact Ha|]. etransitivity; [exact Hs|]. eapply IH; [|exact H]. by apply Hs.
Qed.

Lemma schedule_waiting_keeps r loras s l res s' : requests s !! request_id (base r) = Some r -> schedule_waiting cfg r loras s l = Ok (res, s') ->
  match res with Some (s'', _, _) => keeps (requests s) (requests s'') | None => requests s' = requests s end.
Proof.
  unfold schedule_waiting. intros Hr H. inv_get. destruct x; [|by inv_ok]. inv_get. destruct (_ && _); [by inv_ok|].
  destruct (match mamba_split cfg with Some _ => _ | None => _ end); [by inv_ok|]. inv_get. destruct o; [|by inv_get]. inv_get.
  unfold start_request in H4. inv_get. destruct (record_inputs _ _ _). inv_get. put_kept Hr.
Qed.

Lemma waiting_keeps fuel : forall skipped loras s l sk s' l', keyed (requests s) ->
  waiting_loop cfg grammar_ready fuel skipped loras s l = Ok (sk, s', l') -> keeps (requests s) (requests s').
Proof.
  induction fuel as [|fuel IH]; intros skipped loras s l sk s' l' Hk H; cbn [waiting_loop] in H; (destruct (_ || _); [by inv_ok|]);
    (destruct (_ =? _); [by inv_ok|]); [done|]. inv_get.
  assert (Hp : keeps (requests s) (requests (put_req s0 s))).
  { unfold admit_head in H2. destruct (status (base x0)); inv_ok; try put_kept Eo. destruct (grammar_ready _); inv_ok; put_kept Eo. }
  etransitivity; [exact Hp|]. pose proof (proj1 (Hp Hk)) as K1. destruct b; cbn [negb] in H; inv_get.
  - apply schedule_waiting_keeps in H1; [|apply lookup_insert_eq]. destruct o as [[[s2 l2] loras2]|]; [|inv_ok; by rewrite H1].
    etransitivity; [exact H1|]. eapply IH; [|exact H]. by apply H1.
  - match goal with Hq : waiting_loop _ _ _ _ _ ?t _ = _ |- _ => by apply (IH _ _ t) in Hq end.
Qed.

Lemma advance_keeps ns : forall s s', keyed (requests s) -> foldM (advance cfg) ns s = Ok s' -> keeps (requests s) (requests s').
Proof.
  induction ns as [|[id n] ns IH]; intros s s' Hk H; cbn [foldM] in H; [by inv_ok|]. inv_ok.
  assert (Hp : keeps (requests s) (requests x)).
  { unfold advance in H0. inv_get. destruct (has_encoder_inputs _); inv_get; put_kept Eo. }
  etransitivity; [exact Hp|]. eapply IH; [|exact H]. by apply Hp.
Qed.

Lemma schedule_keeps s out s' : keyed (requests s) -> schedule cfg grammar_ready s = Ok (out, s') -> keeps (requests s) (requests s').
Proof.
  unfold schedule. intros Hk H. inv_get. apply running_keeps in H0; [|done]. pose proof (proj1 (H0 Hk)) as K1.
  assert (Hw : keeps (requests s0) (requests s1)).
  { destruct (preempted l); [by apply waiting_keeps in H2|by inv_ok]. }
  pose proof (proj1 (Hw K1)) as K2. etransitivity; [exact H0|]. etransitivity; [exact Hw|]. inv_get.
  destruct (if use_v2_model_runner cfg then _ else _). inv_get. destruct (ec_take_freed _). inv_get.
  unfold update_after_schedule in H6. inv_ok. match goal with Hq : foldM (advance _) _ _ = _ |- _ => by apply advance_keeps in Hq end.
Qed.
End Keeps.
