(* ===== verification/SchedulerProgress.v ===== *)
(** The scheduler makes progress: under FCFS with a pool that holds one request of
    the model's length, the first running request is scheduled in every step and
    stays first, and when none runs a waiting one is started. *)
From S2P Require Import Prelude Dict Request BlockHash BlockPool SingleType KVManager EncoderCache EncoderSched RequestQueue Scheduler SchedulerFacts SchedulerStep SchedulerCalls SchedulerRequests SchedulerKeeps.
Local Open Scope Z_scope.

(** The pool is large enough for one request: an allocation for a request is not
    refused when no other request holds anything. *)
Class KVCacheRoom (K : Type) `{KVCacheOps K, KVCacheView K} (max_len : Z) (hc : Request -> Prop) : Prop := {
  kv_start_room (k k' : K) r b nl n look enc : kv_wf k -> (forall id, kv_fresh k id) -> kv_ready k (request_id r) b nl -> hashed hc r ->
    num_computed_tokens r = 0 -> 0 <= nl -> 1 <= n -> nl + n <= num_tokens r <= max_len -> 0 <= look ->
    kv_allocate_slots r n nl (Some b) look 0 false enc k <> Ok (None, k');
  kv_grow_room (k k' : K) r n look : kv_wf k -> kv_slots k (request_id r) (num_computed_tokens r) ->
    (forall id, id <> request_id r -> kv_fresh k id) -> hashed hc r ->
    0 <= num_computed_tokens r -> 1 <= n -> num_computed_tokens r + n <= max_len -> 0 <= num_tokens r <= max_len -> 0 <= look ->
    kv_allocate_slots r n 0 None look 0 false 0 k <> Ok (None, k');
}.

(** A request is there with as many computed tokens as before, or at least [d]
    more. *)
Definition gained {K E} (d : Z) (s s' : scheduler K E) (id : string) : Prop :=
  forall r, requests s !! id = Some r -> exists r', requests s' !! id = Some r' /\ num_computed_tokens (base r) + d <= num_computed_tokens (base r').

Lemma gained_refl {K E} (s s' : scheduler K E) id : requests s' !! id = requests s !! id -> gained 0 s s' id.
Proof. intros H r Er. exists r. rewrite H. split; [done|lia]. Qed.

Lemma gained_trans {K E} d d' (a b c : scheduler K E) id : gained d a b id -> gained d' b c id -> gained (d + d') a c id.
Proof. intros H1 H2 r (x & Ex & Hx)%H1. destruct (H2 x Ex) as (y & Ey & Hy). exists y. split; [done|lia]. Qed.

(** ** What the loops keep *)
Section Inversion.
Context {K E : Type} `{KV : KVCacheOps K} `{EC : EncoderCacheOps E} `{EF : EncoderCacheFree E}.
Context (cfg : sched_config) (Hfcfs : policy cfg = FCFS).
Implicit Types s : scheduler K E.

(** The running list loses requests at its end only, and those that stay keep
    their computed tokens. *)
Record cut (s s' : scheduler K E) : Prop := {
  cut_running : running s' `prefix_of` running s;
  cut_gained ref : ref ∈ running s' -> gained 0 s s' (ref_id ref);
}.

Lemma cut_refl s s' : running s' = running s -> requests s' = requests s -> cut s s'.
Proof. intros H1 H2. split; [by rewrite H1|]. intros ref _. apply gained_refl. by rewrite H2. Qed.

Lemma cut_trans a b c : cut a b -> cut b c -> cut a c.
Proof.
  intros [A1 A2] [B1 B2]. split; [by etransitivity|]. intros ref Hr. change 0 with (0 + 0). eapply gained_trans; [|by apply B2].
  apply A2. destruct B1 as [t ->]. set_solver.
Qed.

Lemma prefix_ids (l1 l2 : list req_ref) : l1 `prefix_of` l2 -> NoDup (ref_id <$> l2) -> NoDup (ref_id <$> l1).
Proof. intros [t ->]. rewrite fmap_app. by intros (? & _)%NoDup_app. Qed.

Lemma preempt_frame r s s' : preempt_request r s = Ok s' -> running s' = running s /\ forall id, id <> request_id (base r) -> requests s' !! id = requests s !! id.
Proof. unfold preempt_request. intros H. inv_get. split; [done|]. intros id Hne. cbn. by rewrite lookup_insert_ne. Qed.

Lemma allocate_cut fuel ref n : forall s l res s' l', keyed (requests s) -> NoDup (ref_id <$> running s) ->
  allocate_or_preempt cfg fuel ref n s l = Ok (res, s', l') ->
  cut s s' /\ num_scheduled_tokens l' = num_scheduled_tokens l /\ req_index l' = req_index l.
Proof.
  induction fuel as [|fuel IH]; intros s l res s' l' Hk Hnd H; [done|]. cbn [allocate_or_preempt] in H. inv_get.
  destruct o; [inv_ok; split; [by apply cut_refl|done]|]. inv_get.
  destruct (victim_last cfg _ _ _ _ _ H0 Hfcfs) as (_ & -> & -> & Hrun). cbn [running set_running set_kv requests] in *.
  pose proof (preempt_frame _ _ _ H3) as [Hr1 Hq1]. cbn [running set_running set_kv requests] in Hr1, Hq1.
  rewrite (Hk _ _ Eo0) in Hq1.
  assert (Hc : cut s x1).
  { split; [rewrite Hr1; by exists [r]|]. intros y Hy. apply gained_refl, Hq1. rewrite Hr1 in Hy. rewrite Hrun, fmap_app in Hnd.
    apply NoDup_app in Hnd as (_ & Hd & _). intros He. apply (Hd (ref_id y)); [by apply list_elem_of_fmap_2|]. rewrite He. set_solver. }
  destruct (bool_decide _); [by inv_ok|].
  assert (Hk1 : keyed (requests x1)) by (eapply preempt_keeps; [|exact H3|exact Hk]; cbn; by rewrite (Hk _ _ Eo0)).
  destruct (IH x1 (add_preempted r l) res s' l' Hk1) as (A1 & A2 & A3); [by eapply prefix_ids; [apply Hc|]|done|]. split; [by eapply cut_trans|done].
Qed.

Lemma keys_get {V} (d : dict V) id : id ∈ keys d <-> is_Some (dict_get id d).
Proof.
  destruct (dict_get id d) as [v|] eqn:Eg; [|split; [by intros H; apply dict_get_None in Eg|by intros [? ?]]].
  split; [by eexists|]. intros _. destruct (decide (id ∈ keys d)) as [|Hn]; [done|]. apply dict_get_None in Hn. congruence.
Qed.

Lemma keys_grow {V} (d : dict V) id v : keys d ⊆ keys (dict_set id v d).
Proof. intros x. rewrite !keys_get, dict_get_set. by destruct (decide (x = id)). Qed.

Lemma schedule_running_keyed ref b plan s l s' l' : keyed (requests s) -> schedule_running ref b plan s l = Ok (s', l') -> keyed (requests s').
Proof.
  intros Hk H. unfold schedule_running in H. inv_get. destruct (record_inputs _ _ _). inv_get. eapply keeps_put; [exact Eo|by split|done].
Qed.

Lemma schedule_running_cut ref b plan s l s' l' : keyed (requests s) -> schedule_running ref b plan s l = Ok (s', l') ->
  running s' = running s /\ req_index l' = S (req_index l) /\ keys (num_scheduled_tokens l) ⊆ keys (num_scheduled_tokens l') /\
  ref_id ref ∈ keys (num_scheduled_tokens l') /\ forall id, gained 0 s s' id.
Proof.
  intros Hk H. unfold schedule_running in H. inv_get. destruct (record_inputs _ _ _). inv_get. split; [done|]. split; [done|].
  split; [apply keys_grow|]. split; [apply keys_get; cbn [num_scheduled_tokens]; rewrite dict_get_set, decide_True; by eexists|]. intros id r Er. cbn. rewrite (Hk _ _ Eo).
  destruct (decide (id = ref_id ref)) as [->|Hne].
  - rewrite lookup_insert_eq. eexists. split; [done|]. rewrite Eo in Er. injection Er as ->. cbn. lia.
  - rewrite lookup_insert_ne by done. exists r. split; [done|lia].
Qed.

Lemma running_cut fuel : forall s l s' l', keyed (requests s) -> NoDup (ref_id <$> running s) ->
  running_loop cfg fuel s l = Ok (s', l') -> cut s s' /\ keys (num_scheduled_tokens l) ⊆ keys (num_scheduled_tokens l').
Proof.
  induction fuel as [|fuel IH]; intros s l s' l' Hk Hnd H; cbn [running_loop] in H; (destruct (running s !! _) as [ref|]; [|inv_ok; split; [by apply cut_refl|done]]);
    (destruct (_ <=? 0); [inv_ok; split; [by apply cut_refl|done]|]); [done|]. inv_get. destruct (_ && _); [by apply (IH s (next_index l))|]. inv_get.
  destruct (_ =? 0); [destruct (IH (set_enc e s) (next_index l) s' l' Hk Hnd H); split; [eapply cut_trans; [by apply (cut_refl s (set_enc e s))|done]|done]|]. inv_get.
  assert (Hk1 : keyed (requests s0)) by (eapply (allocate_keeps cfg); [|exact H1|]; done). apply allocate_cut in H1 as (A1 & A2 & _); [|done|done].
  assert (Hc : cut s s0) by (eapply cut_trans; [by apply (cut_refl s (set_enc e s))|done]). destruct o; [|inv_ok; by rewrite A2]. inv_get.
  assert (Hk2 : keyed (requests s1)) by by eapply schedule_running_keyed.
  apply schedule_running_cut in H1 as (B1 & _ & B2 & _ & B3); [|done].
  destruct (IH s1 l2 s' l' Hk2) as [C1 C2]; [rewrite B1; by eapply prefix_ids; [apply Hc|]|done|]. split; [|rewrite A2 in B2; set_solver].
  eapply cut_trans; [exact Hc|]. eapply cut_trans; [|exact C1]. split; [by rewrite B1|]. intros y _. apply B3.
Qed.

(** A request that runs is left alone while the waiting ones are started. *)
Context (grammar_ready : string -> bool).

Record added (s : scheduler K E) (l : locals_) (s' : scheduler K E) (l' : locals_) : Prop := {
  ad_running : running s `prefix_of` running s';
  ad_keys : keys (num_scheduled_tokens l) ⊆ keys (num_scheduled_tokens l');
  ad_same id r : requests s !! id = Some r -> status (base r) = RUNNING -> requests s' !! id = Some r;
}.

Lemma added_trans s1 l1 s2 l2 s3 l3 : added s1 l1 s2 l2 -> added s2 l2 s3 l3 -> added s1 l1 s3 l3.
Proof. intros [A1 A2 A3] [B1 B2 B3]. split; [by etransitivity|set_solver|]. intros id r Er Hr. apply B3; [|done]. by apply A3. Qed.

Lemma schedule_waiting_added r loras s l res s' : requests s !! request_id (base r) = Some r -> schedule_waiting cfg r loras s l = Ok (res, s') ->
  match res with
  | Some (s2, l2, _) => added s l s2 l2 /\ exists ref, running s2 = running s ++ [ref]
  | None => added s l s' l
  end.
Proof.
  unfold schedule_waiting. intros Hr H. inv_get. destruct x; [|by inv_ok]. inv_get. destruct (_ && _); [by inv_ok|].
  destruct (match mamba_split cfg with Some _ => _ | None => _ end); [by inv_ok|]. inv_get. destruct o; [|by inv_get]. inv_get.
  unfold start_request in H4. inv_get. destruct (record_inputs _ _ _). inv_get.
  split; [|by eexists]. split; [by apply prefix_app_r|apply keys_grow|]. intros id y Ey Hy. cbn.
  rewrite lookup_insert_ne; [done|]. intros <-. rewrite Hr in Ey. injection Ey as ->. rewrite Hy in *. done.
Qed.

Lemma admit_added r b r' loras s l : requests s !! request_id (base r) = Some r -> admit_head cfg grammar_ready r loras = Ok (b, r') ->
  request_id (base r') = request_id (base r) /\ added s l (put_req r' s) l.
Proof.
  intros Hr H.
  assert (Hc : request_id (base r') = request_id (base r) /\ (r' = r \/ status (base r) <> RUNNING)).
  { unfold admit_head in H. destruct (status (base r)) eqn:Est; inv_ok; try (split; [done|by auto]). destruct (grammar_ready _); inv_ok; split; try done; by right. }
  destruct Hc as [Hid Hc]. split; [done|]. split; [done|done|]. intros id x Ex Hx. cbn. rewrite Hid.
  destruct (decide (id = request_id (base r))) as [->|Hne]; [|by rewrite lookup_insert_ne]. rewrite lookup_insert_eq. rewrite Hr in Ex. injection Ex as <-.
  destruct Hc as [->|Hc]; [done|by destruct Hc].
Qed.

Lemma waiting_added fuel : forall skipped loras s l sk s' l', keyed (requests s) ->
  waiting_loop cfg grammar_ready fuel skipped loras s l = Ok (sk, s', l') -> added s l s' l'.
Proof.
  induction fuel as [|fuel IH]; intros skipped loras s l sk s' l' Hk H; cbn [waiting_loop] in H; (destruct (_ || _); [by inv_ok|]);
    (destruct (_ =? _); [by inv_ok|]); [done|]. inv_get. pose proof (Hk _ _ Eo) as Hid.
  match goal with Hq : admit_head _ _ _ _ = _ |- _ => pose proof (admit_added _ _ _ _ s l ltac:(by rewrite Hid) Hq) as [Hid' Ha] end.
  assert (Hk1 : keyed (requests (put_req s0 s))).
  { intros i y. cbn. rewrite Hid', Hid. destruct (decide (i = ref_id x)) as [->|Hne]; [rewrite lookup_insert_eq; by intros [= <-]; rewrite Hid'|].
    rewrite lookup_insert_ne by done. apply Hk. }
  apply (added_trans _ _ _ _ _ _ Ha). destruct b; cbn [negb] in H; inv_get.
  - pose proof H1 as Hadd. apply schedule_waiting_added in Hadd; [|apply lookup_insert_eq]. apply schedule_waiting_keeps in H1; [|apply lookup_insert_eq].
    destruct o as [[[s2 l2] loras2]|]; [|by inv_ok]. destruct Hadd as [Hadd _]. apply (added_trans _ _ _ _ _ _ Hadd). eapply IH; [|exact H]. by apply H1.
  - match goal with Hq : waiting_loop _ _ _ _ _ ?t _ = _ |- _ => apply (IH _ _ t) in Hq; [|done]; destruct Hq as [Q1 Q2 Q3]; by split end.
Qed.

(** Scheduled requests advance. *)
Lemma advance_gained ns : forall s s', keyed (requests s) -> (forall id n, (id, n) ∈ ns -> 1 <= n) -> foldM (advance cfg) ns s = Ok s' ->
  running s' = running s /\ forall id, gained (if decide (id ∈ keys ns) then 1 else 0) s s' id.
Proof.
  induction ns as [|[i n] ns IH]; intros s s' Hk Hn H; cbn [foldM] in H; [inv_ok; split; [done|]; intros id; rewrite decide_False by apply not_elem_of_nil; by apply gained_refl|].
  inv_ok. pose proof (Hn i n ltac:(left)) as Hn1.
  assert (Hp : keeps (requests s) (requests x) /\ running x = running s /\ forall id, gained (if decide (id = i) then n else 0) s x id).
  { unfold advance in H0. inv_get. set (r' := with_prefill_chunk _ _) in H0.
    assert (Hx : requests x = <[request_id (base r') := r']> (requests s) /\ running x = running s) by (destruct (has_encoder_inputs _); by inv_get).
    destruct Hx as [Hx Hrun]. split; [rewrite Hx; put_kept Eo|]. split; [done|]. intros id r Er. rewrite Hx.
    change (request_id (base r')) with (request_id (base x0)). rewrite (Hk _ _ Eo). destruct (decide (id = i)) as [->|Hne].
    - rewrite lookup_insert_eq. exists r'. split; [done|]. rewrite Eo in Er. injection Er as ->. cbn. lia.
    - rewrite lookup_insert_ne by done. exists r. split; [done|lia]. }
  destruct Hp as (Hp1 & Hp2 & Hp3). destruct (IH x s') as [H1 H2]; [by apply Hp1|intros id m Hm; apply (Hn id); by right|done|].
  split; [congruence|]. intros id r Er. destruct (Hp3 id r Er) as (r1 & Er1 & Hr1), (H2 id r1) as (r2 & Er2 & Hr2); [done|].
  exists r2. split; [done|]. change (keys ((i, n) :: ns)) with (i :: keys ns). destruct (decide (id ∈ i :: keys ns)) as [[->|Hi]%elem_of_cons|Hi].
  - rewrite decide_True in Hr1 by done. destruct (decide (i ∈ keys ns)); lia.
  - rewrite decide_True in Hr2 by done. destruct (decide (id = i)); lia.
  - destruct (decide (id = i)), (decide (id ∈ keys ns)); lia.
Qed.
End Inversion.

(** * Progress *)
Section Progress.
Context {K E : Type} `{KV : KVCacheOps K} `{EC : EncoderCacheOps E} `{EF : EncoderCacheFree E}.
Context `{!KVCacheView K} `{!EncoderCacheView E}.
Context (cfg : sched_config) (hc : Request -> Prop).
Let max_len := cfg_max_model_len cfg.
Context `{KL : !KVCacheLaws K max_len hc} `{EL : !EncoderCacheLaws E (encoder_settings cfg)} `{KR : !KVCacheRoom K max_len hc}.
Implicit Types s : scheduler K E.

(** The settings under which requests do not starve: first come, first served, room
    for a token and a request, and prefills that can be cut or fit as they are. *)
Record live_config : Prop := {
  lc_policy : policy cfg = FCFS;
  lc_running : 1 <= max_num_running_reqs cfg;
  lc_tokens : 1 <= max_num_scheduled_tokens cfg;
  lc_chunked : enable_chunked_prefill cfg = true \/ max_len <= max_num_scheduled_tokens cfg;
}.
Context (Hcfg : config_ok cfg) (Hlive : live_config).

(** Requests without encoder inputs. *)
Definition text_only s : Prop := forall id r, requests s !! id = Some r -> mm_features (base r) = [].

Lemma text_inputs (r : Request) : mm_features r = [] -> has_encoder_inputs r = false.
Proof. unfold has_encoder_inputs, num_encoder_inputs. by intros ->. Qed.

Lemma store_keyed ex s wl : store_ok cfg hc ex s wl -> keyed (requests s).
Proof. intros Hs id r Er. destruct (st_reqs _ _ _ _ _ Hs _ _ Er) as [Hok _]. apply (ro_id _ _ _ _ Hok). Qed.

Lemma running_ids ex s wl : store_ok cfg hc ex s wl -> NoDup (ref_id <$> running s).
Proof.
  intros Hs. pose proof (st_nodup _ _ _ _ _ Hs) as N. apply NoDup_app in N as (N & _). apply NoDup_alt. intros i j id Hi Hj.
  rewrite list_lookup_fmap in Hi, Hj. destruct (running s !! i) as [a|] eqn:Ea; [|done]. destruct (running s !! j) as [b|] eqn:Eb; [|done].
  cbn in Hi, Hj. assert (a = b) as ->; [|by eapply NoDup_lookup].
  apply (ref_inj cfg hc ex s wl); [done|apply elem_of_app; left; by eapply list_elem_of_lookup_2..|congruence].
Qed.

(** The only running request is not refused. *)
Lemma alone_fresh ex s wl ref : store_ok cfg hc ex s wl -> running s = [ref] -> forall id, id <> ref_id ref -> kv_fresh (kv s) id.
Proof.
  intros Hs Hrun id Hne. destruct (requests s !! id) as [r|] eqn:Er; [|by apply (st_gone _ _ _ _ _ Hs)].
  destruct (st_reqs _ _ _ _ _ Hs _ _ Er) as [Hok Hin]. pose proof (ro_ref _ _ _ _ Hok) as Href. pose proof (ro_id _ _ _ _ Hok) as Hid.
  rewrite Hrun in Hin. apply elem_of_app in Hin as [Hx%list_elem_of_singleton|Hin]; [congruence|]. subst id.
  pose proof (wa_fresh _ _ _ _ (st_wait _ _ _ _ _ Hs r Er Hin)) as Hf. by rewrite Hid in Hf.
Qed.

Lemma head_not_refused ref r n rs : NoDup (ref :: rs) -> 1 <= n -> num_computed_tokens (base r) + n <= max_len -> ~ refused cfg hc ref r n (ref :: rs).
Proof.
  intros Hnd Hn Hmax (ex & s & wl & k & Hs & Er & Ea & Hlast). destruct (Hlast (lc_policy Hlive)) as [[t Hpre] Hl].
  assert (Hrun : running s = [ref]).
  { apply last_Some in Hl as [l' Hl']. rewrite Hl' in Hpre. destruct l' as [|x xs]; [done|]. cbn in Hpre. injection Hpre as <- ->.
    apply NoDup_cons in Hnd as [Hnd _]. set_solver. }
  destruct (store_ref cfg hc ex s wl ref Hs) as (r' & Er' & Href & Hok & _); [rewrite Hrun; set_solver|]. rewrite Er in Er'. injection Er' as <-. subst ref.
  pose proof (ro_id _ _ _ _ Hok) as Hid. destruct (st_run _ _ _ _ _ Hs r Er ltac:(rewrite Hrun; set_solver)) as [U1 U2 U3].
  apply (kv_grow_room (max_len := max_len) (hc := hc)) in Ea; try done.
  - apply (st_kv _ _ _ _ _ Hs).
  - rewrite Hid. by eapply alone_fresh.
  - apply (ro_hashed _ _ _ _ Hok).
  - pose proof (ro_tokens _ _ _ _ Hok). unfold max_len. lia.
  - apply (co_lookahead _ Hcfg).
Qed.

(** ** The running requests *)
Lemma head_scheduled s wl ref rs s1 l1 :
  state_ok cfg hc [] [] s wl -> running s = ref :: rs -> text_only s ->
  running_loop cfg (S (length (running s))) s (initial_locals cfg) = Ok (s1, l1) -> ref_id ref ∈ keys (num_scheduled_tokens l1).
Proof.
  intros Hst Hrun Ht H. pose proof (initial_phase cfg hc s wl Hcfg Hst) as Hp. destruct Hst as [Hs _ _ _ _]. set (l := initial_locals cfg) in *.
  assert (Hin : ref ∈ running s) by (rewrite Hrun; left). pose proof (st_nodup _ _ _ _ _ Hs) as N. apply NoDup_app in N as (N & _).
  destruct (store_ref _ _ _ _ _ ref Hs ltac:(set_solver)) as (r & Er & Href & Hok & Eg). destruct (st_run _ _ _ _ _ Hs r) as [U1 U2 U3]; [by rewrite Href|by rewrite Href|].
  pose proof (sp_idle _ _ _ (rp_step _ _ _ Hp) r ltac:(by rewrite Href) ltac:(by rewrite Href)) as Hidle. pose proof (ro_tokens _ _ _ _ Hok) as Htok.
  cbn [running_loop] in H. change (req_index l) with 0%nat in H. rewrite Hrun in H. cbn [lookup list_lookup] in H.
  pose proof (lc_tokens Hlive) as Hlt. rewrite (proj2 (Z.leb_gt (token_budget l) 0)) in H by (cbn; lia). rewrite Eg in H. cbn [mbind result_bind] in H.
  rewrite (ro_placeholders _ _ _ _ Hok) in H. cbn [Z.ltb Z.compare andb] in H.
  destruct (running_tokens_ok cfg (base r) (token_budget l)) as (Hn & Hsp & Hmax); [apply (ro_placeholders _ _ _ _ Hok)|lia|cbn; lia|].
  unfold plan_encoder in H. rewrite text_inputs in H by by eapply Ht. cbn [mbind result_bind EncoderSched.num_new_tokens] in H.
  unfold mamba_block_aligned_split in H. rewrite (co_mamba _ Hcfg) in H. set (n := running_tokens cfg (base r) (token_budget l)) in *.
  rewrite (proj2 (Z.eqb_neq n 0)) in H by lia. set (s2 := set_enc (enc s) s) in *. assert (Es : s2 = s) by by destruct s. rewrite Es in H.
  destruct (allocate_or_preempt_ok cfg hc (S (length (running s))) Hcfg s wl l ref r n) as (res & s3 & l3 & wl3 & Ea & Hs3 & _ & _ & _ & _ & _ & Hres); try done.
  { lia. } { split; [by exists 0%nat; rewrite Hrun|by apply not_elem_of_nil]. } { lia. }
  rewrite Ea in H. cbn [mbind result_bind] in H. destruct res as [b|]; cbn [mbind result_bind] in H.
  2:{ destruct Hres as [_ Href']. rewrite Hrun in Href'. destruct (head_not_refused ref r n rs) as []; [by rewrite <- Hrun|lia|unfold max_len; lia|done]. }
  destruct (schedule_running _ _ _ _ _) as [[s4 l4]|] eqn:E4; [|done]. cbn [mbind result_bind] in H. pose proof (store_keyed _ _ _ Hs3) as Hk3.
  pose proof E4 as E5. apply schedule_running_cut in E4 as (B1 & _ & _ & B2 & _); [|done].
  apply (running_cut cfg (lc_policy Hlive)) in H as [_ H]; [by apply H|by eapply schedule_running_keyed|rewrite B1; by eapply running_ids].
Qed.
(** ** The waiting requests *)
Lemma waiting_tokens_live r nc : 0 <= nc < num_tokens r -> num_tokens r <= max_len ->
  exists n, waiting_tokens cfg r nc (max_num_scheduled_tokens cfg) = Ok (Some n) /\ 1 <= n /\ nc + n <= num_tokens r.
Proof.
  intros Hn Hm. pose proof (lc_tokens Hlive) as Ht. pose proof (lc_chunked Hlive) as Hch. unfold max_len in *.
  destruct (waiting_tokens_ok cfg r nc (max_num_scheduled_tokens cfg)) as (o & E1 & Ho); [lia|lia|]. rewrite E1.
  destruct o as [n|]; [exists n; destruct (Ho n eq_refl); split; [done|lia]|]. unfold waiting_tokens in E1. cbv zeta in E1.
  match type of E1 with context[_ && (_ <? ?x)] => set (m := x) in E1 end.
  assert (m <= num_tokens r - nc) by (subst m; destruct (Z.ltb_spec 0 (long_prefill_token_threshold cfg)); cbn [andb]; [|lia];
    destruct (Z.ltb_spec (long_prefill_token_threshold cfg) (num_tokens r - nc)); lia).
  destruct (negb (enable_chunked_prefill cfg) && (max_num_scheduled_tokens cfg <? m)) eqn:Eb.
  - apply andb_true_iff in Eb as [Eb1 Eb2%Z.ltb_lt]. destruct Hch as [Hch|Hch]; [by rewrite Hch in Eb1|lia].
  - destruct (py_assert _); done.
Qed.

Lemma waiting_starts loras s l skq ws sk r res s' :
  wait_phase cfg hc s l skq (ref_of r :: ws) sk -> requests s !! ref_id (ref_of r) = Some r -> running s = [] -> mm_features (base r) = [] ->
  token_budget l = max_num_scheduled_tokens cfg -> schedule_waiting cfg r loras s l = Ok (res, s') -> res <> None.
Proof.
  intros [(q & wl & Hs & Hwl) _ _ _ _ _] Er Hrun Ht Hb H. destruct (st_reqs _ _ _ _ _ Hs _ _ Er) as [Hok _].
  destruct (st_wait _ _ _ _ _ Hs r Er ltac:(rewrite Hwl; set_solver)) as [W1 W2 W3 _]. pose proof (ro_tokens _ _ _ _ Hok) as Htok.
  assert (Hf : forall id, kv_fresh (kv s) id) by (intros id; by apply (idle_fresh cfg hc [] (set_waiting q s) wl)).
  unfold schedule_waiting in H. rewrite W2, Hb in H. cbn [Z.eqb] in H.
  destruct (kv_computed_ok (kv s) (base r)) as (b & nl & k1 & Ek & Hk1 & Hnl & Hready & Hkept).
  { apply (st_kv _ _ _ _ _ Hs). } { done. } { apply (ro_hashed _ _ _ _ Hok). } { unfold max_len in *; lia. }
  rewrite Ek in H. cbn [mbind result_bind] in H. destruct (waiting_tokens_live (base r) nl) as (n & En & Hn1 & Hn2); [lia|unfold max_len; lia|].
  rewrite En in H. cbn [mbind result_bind] in H. unfold plan_encoder in H. rewrite (text_inputs _ Ht) in H. cbn [mbind result_bind andb] in H.
  unfold mamba_block_aligned_split in H. rewrite (co_mamba _ Hcfg) in H. cbn [EncoderSched.num_new_tokens] in H.
  destruct (kv_allocate_slots _ _ _ _ _ _ _ _ _) as [[[nb|] k2]|] eqn:Ea; cbn [mbind result_bind] in H; [|..|done].
  - destruct (start_request _ _ _ _ _ _ _); [|done]. cbn [mbind result_bind] in H. by injection H as <- _.
  - apply (kv_start_room (max_len := max_len) (hc := hc)) in Ea as []; try done.
    + intros id. by apply Hkept.
    + apply (ro_hashed _ _ _ _ Hok).
    + lia.
    + unfold max_len; lia.
Qed.

Context (grammar_ready : string -> bool) (Hready : forall id, grammar_ready id = true).

Lemma first_started fuel s l skq ws sk loras skq' s' l' :
  wait_phase cfg hc s l skq ws sk -> ws <> [] -> running s = [] -> text_only s -> token_budget l = max_num_scheduled_tokens cfg ->
  waiting_loop cfg grammar_ready fuel skq loras s l = Ok (skq', s', l') -> running s' <> [].
Proof.
  intros Hw Hne Hrun Ht Hb H. pose proof Hw as [(q & wl & Hs & Hwl) V _ _ _ _]. pose proof (lc_tokens Hlive). pose proof (lc_running Hlive).
  destruct ws as [|ref ws]; [done|]. destruct (pop_view _ _ _ V) as (Epeek & _).
  assert (Hq : (queue_len (waiting s) =? 0) || (token_budget l <=? 0) = false).
  { rewrite (len_view _ _ _ V), Hb. unfold py_len. cbn [length]. apply orb_false_iff. rewrite Z.eqb_neq, Z.leb_gt. lia. }
  assert (Hl : (py_len (running s) =? max_num_running_reqs cfg) = false) by (rewrite Hrun; apply Z.eqb_neq; unfold py_len; cbn; lia).
  destruct fuel as [|fuel]; cbn [waiting_loop] in H; rewrite Hq, Hl in H; [done|]. rewrite Epeek in H. cbn [mbind result_bind] in H.
  destruct (store_ref cfg hc [] (set_waiting q s) wl ref Hs) as (r & Er & Href & Hok & Hg); [rewrite Hwl; set_solver|].
  change (get_req (ref_id ref) (set_waiting q s)) with (get_req (ref_id ref) s) in Hg. rewrite Hg in H. subst ref. cbn [mbind result_bind] in H.
  assert (Hin : ref_of r ∈ sk ++ ref_of r :: ws) by set_solver. destruct (st_wait _ _ _ _ _ Hs r Er ltac:(by rewrite Hwl)) as [W1 _ _ _].
  destruct (admit_head_ok cfg grammar_ready r loras (co_loras _ Hcfg) W1) as (b & r' & Ead & Hr' & _). rewrite Ead in H. cbn [mbind result_bind] in H.
  assert (b = true) as ->.
  { unfold admit_head, too_many_loras in Ead. rewrite (co_loras _ Hcfg), Hready in Ead. destruct (status (base r)); inv_ok; try done; by destruct W1 as [?|[?|?]]. }
  cbn [negb] in H. pose proof (wait_put cfg hc s l skq (ref_of r :: ws) sk r r' Hw Er Hin Hr') as Hw'.
  assert (Href' : ref_of r' = ref_of r) by by destruct Hr' as [->|[-> _]].
  assert (Hid' : request_id (base r') = ref_id (ref_of r)) by (rewrite <- (ro_id _ _ _ _ Hok); by destruct Hr' as [->|[-> _]]).
  assert (Er' : requests (put_req r' s) !! request_id (base r') = Some r') by (cbn; by rewrite lookup_insert_eq).
  destruct (schedule_waiting _ _ _ _ _) as [[res s1]|] eqn:Esw; [|done]. cbn [mbind result_bind] in H.
  assert (Hres : res <> None).
  { apply (waiting_starts loras (put_req r' s) l skq ws sk r' res s1); try done; [by rewrite Href'|by rewrite Href', <- Hid'|].
    destruct Hr' as [->|[-> _]]; by apply (Ht _ _ Er). }
  destruct res as [[[s2 l2] loras2]|]; [|done]. pose proof (schedule_waiting_keeps cfg _ _ _ _ _ _ Er' Esw) as Hkp.
  pose proof (schedule_waiting_added cfg _ _ _ _ _ _ Er' Esw) as [_ [ref Hr2]].
  assert (Hk' : keyed (requests (put_req r' s))).
  { destruct Hw' as [(q' & wl' & Hs' & _) _ _ _ _ _]. exact (store_keyed _ _ _ Hs'). }
  apply (waiting_added cfg (lc_policy Hlive)) in H as [[t Ht2] _ _]; [|exact (proj1 (Hkp Hk'))]. rewrite Ht2, Hr2. by destruct (running (put_req r' s)).
Qed.
(** ** The step *)

(** What the two loops do for the first running request, or the first waiting one. *)
Lemma loops_progress s wl s1 l1 loras skq s2 l2 :
  state_ok cfg hc [] [] s wl -> text_only s ->
  running_loop cfg (S (length (running s))) s (initial_locals cfg) = Ok (s1, l1) ->
  (match preempted l1 with
   | [] => waiting_loop cfg grammar_ready (S (Z.to_nat (queue_len (waiting s1)))) (create_request_queue (policy cfg)) loras s1 l1
   | _ => Ok (create_request_queue (policy cfg), s1, l1)
   end) = Ok (skq, s2, l2) ->
  match running s with
  | ref :: _ => ref_id ref ∈ keys (num_scheduled_tokens l2) /\ (exists rs, running s2 = ref :: rs) /\ gained 0 s s2 (ref_id ref)
  | [] => wl <> [] -> running s2 <> []
  end.
Proof.
  intros Hst Ht E1 E2. pose proof Hst as [Hs Hl _ _ _]. pose proof (store_keyed _ _ _ Hs) as Hk.
  destruct (running s) as [|ref rs] eqn:Hrun.
  - intros Hwl. cbn [running_loop] in E1. rewrite Hrun in E1. cbn in E1. injection E1 as <- <-.
    apply (first_started (S (Z.to_nat (queue_len (waiting s)))) s (initial_locals cfg) (create_request_queue (policy cfg)) wl [] loras skq s2 l2); try done.
    pose proof (initial_phase cfg hc s wl Hcfg Hst) as [Hp _ _]. split; try done.
    + exists (waiting s), wl. split; [by destruct s|done].
    + apply (st_view _ _ _ _ _ Hs).
    + exists []. by rewrite (lc_policy Hlive).
    + by intros ? ?%elem_of_nil.
    + by rewrite Hrun.
  - rewrite <- Hrun in E1. pose proof (head_scheduled s wl ref rs s1 l1 Hst Hrun Ht E1) as Hkey.
    destruct (running_loop_ok cfg hc (S (length (running s))) Hcfg s wl (initial_locals cfg)) as (s1' & l1' & wl1 & E1' & Hs1 & Hp1 & _);
      [cbn; lia|done|by apply (initial_phase cfg hc s wl)|]. rewrite E1 in E1'. injection E1' as <- <-.
    destruct (running_cut cfg (lc_policy Hlive) _ _ _ _ _ Hk (running_ids _ _ _ Hs) E1) as [[[t Hpre] Hga] _].
    assert (Hne : exists rs1, running s1 = ref :: rs1).
    { rewrite (sp_keys _ _ _ (rp_step _ _ _ Hp1)), list_elem_of_fmap in Hkey. destruct Hkey as (x & _ & Hx%(sp_running _ _ _ (rp_step _ _ _ Hp1))).
      rewrite Hrun in Hpre. destruct (running s1) as [|y ys]; [by apply elem_of_nil in Hx|]. injection Hpre as <- _. by eexists. }
    destruct Hne as [rs1 Hr1]. specialize (Hga ref ltac:(rewrite Hr1; left)). destruct (preempted l1); [|injection E2 as <- <- <-; by eauto].
    destruct (waiting_added cfg (lc_policy Hlive) grammar_ready _ _ _ _ _ _ _ _ (store_keyed _ _ _ Hs1) E2) as [[t2 A1] A2 A3].
    split; [by apply A2|]. split; [rewrite A1, Hr1; by eexists|]. intros r (r1 & Er1 & Hc)%Hga. exists r1. split; [|done]. apply A3; [done|].
    destruct (store_ref cfg hc _ s1 wl1 ref Hs1) as (r1' & Er1' & Href & _); [rewrite Hr1; set_solver|]. rewrite Er1 in Er1'. injection Er1' as <-.
    apply (ru_status _ _ (st_run _ _ _ _ _ Hs1 r1 ltac:(by rewrite Href) ltac:(rewrite Href, Hr1; left))).
Qed.

Lemma schedule_progress s wl out s' : state_ok cfg hc [] [] s wl -> text_only s -> schedule cfg grammar_ready s = Ok (out, s') ->
  match running s with
  | ref :: _ => ref_id ref ∈ keys (so_num_scheduled_tokens out) /\ (exists rs, running s' = ref :: rs) /\ gained 1 s s' (ref_id ref)
  | [] => wl <> [] -> running s' <> []
  end.
Proof.
  intros Hst Ht H. destruct (schedule_ok cfg hc grammar_ready s wl Hcfg Hst) as (out' & s'' & wl' & E0 & [Hs' _ _ Hpos _] & _).
  rewrite H in E0. injection E0 as <- <-.
  destruct (schedule_loops_ok cfg hc grammar_ready s wl Hcfg Hst) as (s1 & l1 & skq & s2 & l2 & q & wl2 & E1 & E2 & E3 & E4 & [Hs2 _ _ _]).
  pose proof (loops_progress s wl s1 l1 ∅ skq s2 l2 Hst Ht E1 E3) as Hp.
  unfold schedule in H. rewrite E1 in H. cbn [mbind result_bind] in H. rewrite E2 in H. cbn [mbind result_bind] in H. rewrite E3 in H.
  cbn [mbind result_bind] in H. rewrite E4 in H. cbn [mbind result_bind] in H. inv_get.
  destruct (if use_v2_model_runner cfg then _ else _). inv_get. destruct (ec_take_freed _). inv_get. unfold update_after_schedule in *. inv_get.
  match goal with Hq : foldM (advance cfg) _ _ = _ |- _ =>
    apply (advance_gained cfg) in Hq as [Hr Hg]; [|exact (store_keyed _ _ _ Hs2)|exact Hpos] end.
  cbn [so_num_scheduled_tokens running set_finished]. rewrite Hr. destruct (running s) as [|ref rs]; [exact Hp|]. destruct Hp as (P1 & P2 & P3).
  split; [done|]. split; [done|]. specialize (Hg (ref_id ref)). rewrite decide_True in Hg by done.
  intros r (r2 & Er2 & H2)%P3. destruct (Hg r2 Er2) as (r3 & Er3 & H3). exists r3. split; [done|lia].
Qed.
End Progress.
