(* ===== verification/SchedulerRoom.v ===== *)
(** A pool that holds one request of the model's length never refuses a request
    when nothing else is held: [KVCacheRoom] for the KV-cache manager. *)
From S2P Require Import Prelude FreeQueue Request BlockHash BlockPool SingleType SingleTypeFacts KVManager KVManagerFacts KVSlots PrefixHits Scheduler SchedulerFacts SchedulerKV SchedulerProgress.
Import BlockPool.BlockPool PoolFacts.
Local Open Scope Z_scope.

(** Bounds per group add up. *)
Lemma costs_sum (C : Z -> manager -> Prop) (c : Z -> manager -> Z) (f g : manager -> Z) ms : forall i,
  all_C C i ms -> (forall j m, C j m -> c j m + f m <= g m) -> costs c i ms + sumZ (f <$> ms) <= sumZ (g <$> ms).
Proof.
  induction ms as [|m ms IH]; intros i; cbn [costs all_C]; [done|]. intros [Hm HC] H. rewrite !fmap_cons, !sumZ_cons.
  specialize (H i m Hm) as H1. specialize (IH (i + 1) HC H). lia.
Qed.

(** ** Counting blocks *)

Lemma refs_elem m i : 0 < refs m i -> exists rid, i ∈ blocks_of rid m.
Proof.
  unfold refs. intros H. destruct (decide (Exists (fun kv => i ∈ snd kv) (map_to_list (req_to_blocks m)))) as [Hx|Hx].
  - apply Exists_exists in Hx as ([rid bs] & Hin & Hi). apply elem_of_map_to_list in Hin. exists rid. unfold blocks_of. by rewrite Hin.
  - exfalso. revert H Hx. generalize (map_to_list (req_to_blocks m)). intros l. induction l as [|[rid bs] l IH]; [done|].
    rewrite fmap_cons, sumZ_cons. intros H Hx. apply IH; [|by intros ?; apply Hx; right]. cbn in H. assert (occ i bs = 0); [|lia].
    unfold occ. destruct (filter (.= i) bs) as [|x xs] eqn:Ef; [done|]. destruct Hx. left. assert (x ∈ filter (.= i) bs) as [-> ?]%list_elem_of_filter by (rewrite Ef; left). done.
Qed.

Lemma all_refs_elem ms i : 0 < all_refs ms i -> exists m rid, m ∈ ms /\ i ∈ blocks_of rid m.
Proof.
  unfold all_refs. induction ms as [|m ms IH]; [done|]. rewrite fmap_cons, sumZ_cons. intros H. destruct (Z.ltb_spec 0 (refs m i)) as [Hm|Hm].
  - destruct (refs_elem _ _ Hm) as [rid Hr]. exists m, rid. split; [left|done].
  - pose proof (refs_nonneg m i). destruct IH as (m' & rid & Hin & Hr); [lia|]. exists m', rid. split; [by right|done].
Qed.

(** When only one request holds blocks, the free blocks and its own are all. *)
Lemma alone_count k l rid : kv_ok k l -> (forall m id, m ∈ kv_groups k -> id <> rid -> blocks_of id m = []) ->
  num_gpu_blocks (kv_pool k) - 1 <= Z.of_nat (length l) + sumZ ((fun m => py_len (blocks_of rid m)) <$> kv_groups k).
Proof.
  intros [[I _ Hrefs _] _ _ _] Hall. pose proof I as [HB [_ Hfree Hnn]]. pose proof (pb_pos _ _ HB) as Hpos. set (N := num_gpu_blocks (kv_pool k)) in *.
  assert (Hsum : forall ms, sumZ ((fun m => py_len (blocks_of rid m)) <$> ms) = Z.of_nat (length (concat (blocks_of rid <$> ms)))).
  { induction ms as [|m ms IH]; [done|]. rewrite !fmap_cons, sumZ_cons, IH. cbn. rewrite length_app. unfold py_len. lia. }
  rewrite Hsum. assert (Hsub : seq 1 (Z.to_nat (N - 1)) ⊆+ l ++ concat (blocks_of rid <$> kv_groups k)).
  { apply NoDup_submseteq; [apply NoDup_seq|]. intros i Hi%elem_of_seq. apply elem_of_app. assert (i <> 0%nat) as Hi0 by lia.
    specialize (Hnn i Hi0). destruct (decide (BlockPool.ref_of (kv_pool k) i = 0)) as [Hz|Hz].
    - left. rewrite app_nil_r in Hfree. apply Hfree. split; [split; [done|fold N; lia]|done].
    - right. rewrite Hrefs in Hz, Hnn by done. destruct (all_refs_elem (kv_groups k) i) as (m & id & Hm & Hin); [lia|].
      destruct (decide (id = rid)) as [->|Hne]; [|rewrite (Hall m id Hm Hne) in Hin; by apply elem_of_nil in Hin].
      apply list_elem_of_In, in_concat. exists (blocks_of rid m). rewrite <- !list_elem_of_In. split; [by apply list_elem_of_fmap_2|done]. }
  apply submseteq_length in Hsub. rewrite length_seq, length_app in Hsub. lia.
Qed.

(** ** The blocks a request asks for *)

(** The hits of a starting request fit in its tokens; one that goes on has none. *)
Definition hits_fit (rid : string) (ncbs : list (list nat)) (total : Z) (i : Z) (m : manager) : Prop :=
  hits_at ncbs i = [] \/ (blocks_of rid m = [] /\ py_len (hits_at ncbs i) * block_size m <= total).

Lemma request_fits rid ncbs nl ne start p ms : request_at rid ncbs nl ne start p ms -> all_C (hits_fit rid ncbs (nl + ne)) 0 ms.
Proof.
  unfold request_at. destruct start.
  - intros [_ HC]. eapply all_C_impl; [|exact HC]. intros j m (_ & _ & _ & [_ Hs] & _ & Hl & _). by right.
  - intros HC. eapply all_C_impl; [|exact HC]. intros j m (_ & _ & Hh & _). by left.
Qed.

Lemma removed_fits rid ncbs total ms us ms' : each_rel (fun _ m (_ : unit) m' => removed rid total m m') 0 ms us ms' ->
  all_C (hits_fit rid ncbs total) 0 ms -> all_C (hits_fit rid ncbs total) 0 ms'.
Proof.
  intros HR HC. eapply all_C_rel; [exact HR| |exact HC]. intros j m u m' [Hh|[Hb Hl]] [(_ & Hsz & _) Hlen _ _ _ _]; [by left|right].
  rewrite <- Hsz. split; [|done]. rewrite Hb in Hlen. by apply nil_length_inv in Hlen.
Qed.

Lemma need_bounded rid need total max_len ncbs p j m :
  0 < block_size m -> total <= max_len -> need <= max_len -> 0 <= max_len -> hits_fit rid ncbs total j m ->
  py_len (blocks_of rid m) <= cdiv max_len (block_size m) ->
  group_need rid need total (hits_at ncbs j) p m + py_len (blocks_of rid m) <= cdiv max_len (block_size m).
Proof.
  intros Hbs Ht Hn Hm Hfit Hlen. unfold group_need. set (h := hits_at ncbs j) in *. set (sb := skip_blocks m total).
  assert (He : get_num_evictable_blocks p (drop (sb - length (blocks_of rid m)) h) <= Z.of_nat (length h - (sb - length (blocks_of rid m)))).
  { unfold get_num_evictable_blocks, py_len. rewrite <- length_drop. apply inj_le, length_filter. }
  pose proof (cdiv_mono need max_len (block_size m) Hbs Hn) as Hc. pose proof (cdiv_nonneg max_len (block_size m) Hbs Hm) as Hc0.
  destruct Hfit as [Hh|[Hb Hl]].
  - fold h in Hh. rewrite Hh in *. cbn [length] in *. unfold py_len in *. cbn [length] in *. lia.
  - fold h in Hl. rewrite Hb in *. cbn [length] in *. rewrite Nat.sub_0_r in He |- *. unfold py_len in *. cbn [length] in *.
    assert (Z.of_nat (length h) <= cdiv max_len (block_size m)) by (apply cdiv_mul_le; lia).
    lia.
Qed.

Section Room.
Context (max_len : Z) (hc : Request -> Prop) (room : Prop) (Hroom : room) (Hmax : 0 <= max_len).
#[local] Instance room_view : KVCacheView kv_manager := kv_manager_view max_len hc room.

Lemma not_refused k r n nl ncb look enc start k' :
  kv_wf k -> slots_call k r n nl ncb look 0 start -> num_computed_tokens r + nl + n <= max_len ->
  (forall id, id <> request_id r -> kv_fresh k id) ->
  KVCacheManager.allocate_slots r n nl ncb look 0 false enc k <> Ok (None, k').
Proof.
  intros Hwf Hcall Hle Hfresh E. destruct (allocate_law max_len hc room k r n nl ncb look enc start Hwf Hcall Hle) as (res & k1 & E1 & Hwf' & Hkept & _).
  pose proof Hwf as ((l0 & Hk0) & Hm & _).
  destruct (allocate_slots_ok k l0 r n nl ncb look 0 false enc start Hk0 Hcall) as (res' & k2 & l & E2 & Hk & Hpost & _).
  rewrite E in E1, E2. injection E1 as <- <-. injection E2 as <- <-. destruct Hpost as [Hlt [us HR]]. rewrite Hm, Z.add_0_r in *.
  destruct (sc_new _ _ _ _ _ _ _ _ Hcall) as (Hn0 & Hlook & _). destruct (sc_computed _ _ _ _ _ _ _ _ Hcall) as [Hc _].
  destruct Hwf' as (_ & _ & _ & _ & Hbd & Hen). specialize (Hen Hroom). unfold enough in Hen.
  assert (Hall : forall m id, m ∈ kv_groups k' -> id <> request_id r -> blocks_of id m = []).
  { intros m id Hin Hne. destruct (Hkept id (or_introl Hne)) as [_ Hf]. by destruct (Hf (Hfresh id Hne) m Hin). }
  pose proof (alone_count k' l (request_id r) Hk Hall) as Hcount. rewrite (kv_free_count _ _ _ (ko_inv _ _ Hk)) in Hlt.
  pose proof (request_fits _ _ _ _ _ _ _ (sc_request _ _ _ _ _ _ _ _ Hcall)) as HC. rewrite Z.add_0_r in HC.
  pose proof (removed_fits _ _ _ _ _ _ HR HC) as HC'. unfold slots_needed in Hlt. rewrite Z.add_0_r in Hlt. set (need := Z.min _ _) in Hlt.
  assert (HM : all_C (fun _ m => m ∈ kv_groups k') 0 (kv_groups k')) by (apply all_C_Forall; by apply Forall_forall).
  pose proof (costs_sum _ (fun i m => group_need (request_id r) need (num_computed_tokens r + nl) (hits_at (blocks_list k (default EmptyBlocks ncb)) i) (kv_pool k') m)
    (fun m => py_len (blocks_of (request_id r) m)) (fun m => cdiv max_len (block_size m)) _ 0 (all_C_and _ _ _ _ HC' HM)) as Hsum.
  match type of Hsum with ?A -> _ => assert (Hb : A) end.
  { intros j m [Hfit Hin]. apply need_bounded; [|lia|unfold need; lia|done|done|by apply Hbd].
    apply (wf_size _ _ (proj2 (group_at k' l m Hk Hin))). }
  specialize (Hsum Hb). rewrite <- list_fmap_compose in Hen. change (cdiv max_len ∘ block_size) with (fun m => cdiv max_len (block_size m)) in Hen. lia.
Qed.

Lemma kv_manager_room : KVCacheRoom kv_manager max_len hc.
Proof.
  split.
  - intros k k' r b nl n look enc Hwf Hf Hready Hh Hc Hnl Hn Hlen Hlook.
    apply (not_refused k r n nl (Some b) look enc (match b with EmptyBlocks => false | Blocks _ => true end)); [done| |lia|by intros].
    by apply (start_call max_len hc room).
  - intros k k' r n look Hwf Hs Hf Hh Hc Hn Hle Hnt Hlook. apply (not_refused k r n 0 None look 0 false); [done| |lia|done].
    by apply (grow_call max_len hc room).
Qed.
End Room.
