(* ===== verification/EngineCore.v ===== *)
(** The engine core: [EngineCore] and the busy loop of [EngineCoreProc] in
    [src/vllm/v1/engine/core.py], without a batch queue, data parallelism or
    asynchronous scheduling.

    The model executor is the function [runner] from the scheduled batch to its
    output; aborts that arrive while the model runs and the draft tokens of the
    proposer are inputs of an engine step. *)
From S2P Require Import Prelude Dict Request BlockHash BlockPool SingleType KVManager EncoderCache EncoderSched RequestQueue Scheduler.
Local Open Scope Z_scope.

Section Engine.
Context {K E : Type} `{KV : KVCacheOps K} `{EC : EncoderCacheOps E} `{EF : EncoderCacheFree E}.
(** [pooling_supported]: the task of a pooling request is one the model
    supports. *)
Context (cfg : sched_config) (use_spec_decode : bool) (pooling_supported : sreq -> bool).

Record engine := mkEngine {
  eng_scheduler : scheduler K E;
  scheduler_paused : bool;
  aborts_queue : list (list string);
}.

Definition with_scheduler (s : scheduler K E) (en : engine) : engine := mkEngine s (scheduler_paused en) (aborts_queue en).

(** [has_unfinished_requests] and [has_requests] of [SchedulerInterface]. *)
Definition has_unfinished_requests (s : scheduler K E) : bool := 0 <? get_num_unfinished_requests s.
Definition has_requests (s : scheduler K E) : bool := has_unfinished_requests s || has_finished_requests s.

(** [EngineCore.add_request]. *)
Definition engine_add_request (r : sreq) (en : engine) : result engine :=
  if match sampling_params r with None => negb (pooling_supported r) | Some _ => false end then Err ValueError else
  s ← add_request r (eng_scheduler en); Ok (with_scheduler s en).

(** [abort_requests]; [finish_requests] makes the list of ids a set. *)
Definition abort_requests (ids : list string) (en : engine) : result engine :=
  s ← finish_requests (remove_dups ids) FINISHED_ABORTED (eng_scheduler en); Ok (with_scheduler s en).

(** [_process_aborts_queue]. *)
Definition process_aborts_queue (en : engine) : result engine :=
  match aborts_queue en with
  | [] => Ok en
  | q => abort_requests (concat q) (mkEngine (eng_scheduler en) (scheduler_paused en) [])
  end.

(** One engine step sees the grammars that are ready, the model, the aborts that
    arrive during its run, and the drafts for the next step with their
    validation. *)
Record step_input := mkStep {
  grammar_ready : string -> bool;
  runner : SchedulerOutput -> ModelRunnerOutput;
  arriving_aborts : list (list string);
  drafts : option (dict (list Z));
  validate : string -> option (list Z -> list Z);
}.

(** [step]: the outputs and whether the model was executed. *)
Definition step (i : step_input) (en : engine) : result (list EngineCoreOutput * bool * engine) :=
  if scheduler_paused en then Ok ([], false, en) else
  if negb (has_requests (eng_scheduler en)) then Ok ([], false, en) else
  '(out, s) ← schedule cfg (grammar_ready i) (eng_scheduler en);
  let model_output := runner i out in
  en ← process_aborts_queue (mkEngine s (scheduler_paused en) (aborts_queue en ++ arriving_aborts i));
  '(outputs, s) ← update_from_output cfg out model_output (eng_scheduler en);
  Ok (outputs, 0 <? so_total out, with_scheduler s en).

(** [post_step]. *)
Definition post_step (i : step_input) (model_executed : bool) (en : engine) : engine :=
  if use_spec_decode && model_executed then
    match drafts i with
    | Some d => with_scheduler (update_draft_token_ids (validate i) d (eng_scheduler en)) en
    | None => en
    end
  else en.

(** [_process_engine_step]. *)
Definition process_engine_step (i : step_input) (en : engine) : result (list EngineCoreOutput * engine) :=
  '(outputs, model_executed, en) ← step i en; Ok (outputs, post_step i model_executed en).

(** The requests of a client: [ADD], [ABORT] and the utility methods that reach the
    scheduler. *)
Inductive client_request :=
| ADD (r : sreq)
| ABORT (ids : list string)
| PAUSE
| RESUME
| RESET_PREFIX_CACHE (reset_running_requests : bool)
| RESET_ENCODER_CACHE.

(** [_handle_client_request] with [pause_scheduler], [resume_scheduler],
    [reset_prefix_cache] and [reset_encoder_cache]. *)
Definition handle_client_request (en : engine) (c : client_request) : result engine :=
  match c with
  | ADD r => engine_add_request r en
  | ABORT ids => abort_requests ids en
  | PAUSE => Ok (mkEngine (eng_scheduler en) true (aborts_queue en))
  | RESUME => Ok (mkEngine (eng_scheduler en) false (aborts_queue en))
  | RESET_PREFIX_CACHE b => '(_, s) ← reset_prefix_cache b (eng_scheduler en); Ok (with_scheduler s en)
  | RESET_ENCODER_CACHE => Ok (with_scheduler (reset_encoder_cache (eng_scheduler en)) en)
  end.

(** [_process_input_queue]: handles the client requests there are; [false] when it
    then waits for more, with the aborts drained. *)
Definition process_input_queue (reqs : list client_request) (en : engine) : result (bool * engine) :=
  en ← foldM handle_client_request reqs en;
  Ok (if negb (has_requests (eng_scheduler en)) && negb (scheduler_paused en)
      then (false, mkEngine (eng_scheduler en) (scheduler_paused en) []) else (true, en)).

(** One turn of [run_busy_loop]: the outputs it puts into the output queue. *)
Definition loop_turn (reqs : list client_request) (i : step_input) (en : engine) : result (list EngineCoreOutput * engine) :=
  '(go, en) ← process_input_queue reqs en;
  if go : bool then process_engine_step i en else Ok ([], en).

Fixpoint run_busy_loop (turns : list (list client_request * step_input)) (en : engine) : result (list EngineCoreOutput * engine) :=
  match turns with
  | [] => Ok ([], en)
  | (reqs, i) :: turns =>
      '(outs, en) ← loop_turn reqs i en;
      '(more, en) ← run_busy_loop turns en;
      Ok (outs ++ more, en)
  end.

(** [__init__]. *)
Definition new_engine (k : K) (e : E) : engine := mkEngine (new_scheduler cfg k e) false [].
End Engine.
Arguments engine : clear implicits.
