(* ===== verification/EngineSafe.v ===== *)
(** The engine core keeps running: every turn of the busy loop returns, and what
    becomes of each request in an engine step.

    The engine is proved against the laws of the caches and then instantiated with
    the KV-cache manager and the encoder cache as they are built. *)
From S2P Require Import Prelude Dict FreeQueue Request BlockHash BlockPool SingleType SingleTypeFacts KVManager KVManagerFacts KVSlots EncoderCache EncoderSched RequestQueue Scheduler SchedulerFacts SchedulerStep SchedulerCalls SchedulerRequests SchedulerKV SchedulerEncoder SchedulerHash SchedulerKeeps EngineCore.
Local Open Scope Z_scope.

Section Engine.
Context {K E : Type} `{KV : KVCacheOps K} `{EC : EncoderCacheOps E} `{EF : EncoderCacheFree E}.
Context `{!KVCacheView K} `{!EncoderCacheView E}.
Context (cfg : sched_config) (hc : Request -> Prop) (use_spec_decode : bool) (pooling_supported : sreq -> bool).
Let max_len := cfg_max_model_len cfg.
Context `{KL : !KVCacheLaws K max_len hc} `{EL : !EncoderCacheLaws E (encoder_settings cfg)}.
Implicit Types en : engine K E.

(** The invariant between two turns. *)
Definition engine_ok en : Prop := exists wl, state_ok cfg hc [] [] (eng_scheduler en) wl.

(** What a client may ask: a new request has a new id and a supported task. *)
Definition client_ok en (c : client_request) : Prop :=
  match c with
  | ADD r => requests (eng_scheduler en) !! request_id (base r) = None /\ new_req_ok cfg hc r /\
      (sampling_params r = None -> pooling_supported r = true)
  | _ => True
  end.

(** The model answers for every scheduled request as many tokens as the step asked
    for. *)
Definition runner_ok (i : step_input) en : Prop :=
  forall out s id r, schedule cfg (grammar_ready i) (eng_scheduler en) = Ok (out, s) ->
    id ∈ keys (so_num_scheduled_tokens out) -> requests s !! id = Some r ->
    exists g pooled, output_ok (so_spec_decode_tokens out) (runner i out) r g pooled.

(** The inputs of a run, each judged in the state it meets. *)
Fixpoint clients_ok en (cs : list client_request) : Prop :=
  match cs with
  | [] => True
  | c :: cs => client_ok en c /\ forall en', handle_client_request pooling_supported en c = Ok en' -> clients_ok en' cs
  end.
Fixpoint run_ok (turns : list (list client_request * step_input)) en : Prop :=
  match turns with
  | [] => True
  | (cs, i) :: turns =>
      clients_ok en cs /\
      (forall en', process_input_queue pooling_supported cs en = Ok (true, en') -> runner_ok i en') /\
      (forall outs en', loop_turn cfg use_spec_decode pooling_supported cs i en = Ok (outs, en') -> run_ok turns en')
  end.

(** ** One turn *)

Lemma abort_ok nst spec ids en wl : state_ok cfg hc nst spec (eng_scheduler en) wl ->
  exists en' wl', abort_requests ids en = Ok en' /\ state_ok cfg hc nst spec (eng_scheduler en') wl' /\
    forall id, requests (eng_scheduler en') !! id = if decide (id ∈ ids) then None else requests (eng_scheduler en) !! id.
Proof.
  intros Hs. unfold abort_requests.
  destruct (finish_requests_ok cfg hc (remove_dups ids) FINISHED_ABORTED nst spec _ wl Hs) as (s' & wl' & -> & Hs' & Hr & _); [apply NoDup_remove_dups|done|].
  cbn [mbind result_bind]. eexists _, wl'. split; [reflexivity|]. split; [done|]. intros id. cbn. rewrite Hr.
  destruct (decide (id ∈ ids)); [rewrite decide_True|rewrite decide_False]; by rewrite ?elem_of_remove_dups.
Qed.

Lemma process_aborts_ok nst spec en wl : state_ok cfg hc nst spec (eng_scheduler en) wl ->
  exists en' wl', process_aborts_queue en = Ok en' /\ state_ok cfg hc nst spec (eng_scheduler en') wl' /\
    forall id, requests (eng_scheduler en') !! id = if decide (id ∈ concat (aborts_queue en)) then None else requests (eng_scheduler en) !! id.
Proof.
  intros Hs. unfold process_aborts_queue. destruct (aborts_queue en) as [|x q]; [exists en, wl; cbn; done|].
  by destruct (abort_ok nst spec (concat (x :: q)) (mkEngine (eng_scheduler en) (scheduler_paused en) []) wl Hs) as (en' & wl' & -> & Hs' & Hr); eauto.
Qed.

(** The tokens the model generated for request [id], and whether it pooled it. *)
Definition generated (i : step_input) (out : SchedulerOutput) (id : string) (g : list Z) (pooled : bool) : Prop :=
  exists j, dict_get id (req_id_to_index (runner i out)) = Some j /\ generated_at (runner i out) j = Ok g /\ pooled_at (runner i out) j = Ok pooled.

(** What becomes of a request in a step that scheduled [out]: it keeps the tokens
    [kept_tokens] says, goes on if none of them stops it, and otherwise is finished
    with the status and the stop reason of the first that does. *)
Definition step_outcome (i : step_input) (aborted : list string) (out : SchedulerOutput) (r : sreq) (outs : list EngineCoreOutput) (s' : scheduler K E) : Prop :=
  let id := ref_id (ref_of r) in
  match requests s' !! id with
  | Some r' =>
      (id ∉ aborted) /\
      (if decide (id ∈ keys (so_num_scheduled_tokens out)) then
        exists g pooled, generated i out id g pooled /\ kept_tokens (cfg_max_model_len cfg) r g pooled g None /\
          output_token_ids (base r') = output_token_ids (base r) ++ g /\
          (g <> [] -> exists e, e ∈ outs /\ eo_request_id e = id /\ eo_new_token_ids e = g /\ eo_finish_reason e = None)
      else output_token_ids (base r') = output_token_ids (base r))
  | None =>
      id ∈ aborted \/
      (id ∈ keys (so_num_scheduled_tokens out) /\ id ∈ finished_req_ids s' /\
       exists g pooled kept st why e, generated i out id g pooled /\ kept_tokens (cfg_max_model_len cfg) r g pooled kept (Some (st, why)) /\
         status_is_finished st = true /\ e ∈ outs /\ eo_request_id e = id /\ eo_new_token_ids e = kept /\
         eo_finish_reason e = get_finished_reason st /\ eo_stop_reason e = why)
  end.

(** Requests of the same content keep the same tokens. *)
Lemma kept_same_content ml r r' g pooled kept res : same_content r r' -> kept_tokens ml r' g pooled kept res -> kept_tokens ml r g pooled kept res.
Proof.
  intros [C1 C2 C3 C4 C5 C6 C7 C8 C9]. assert (He : forall k, ends_with ml r' k = ends_with ml r k)
    by (intros k; unfold ends_with; by rewrite C3, C4, C5, C7, C8, C9).
  unfold kept_tokens. rewrite C5, C8. destruct (sampling_params r); [|done]. rewrite He. intros (H1 & H2 & H3). split; [done|]. split; [|done].
  intros k Hk Hne. rewrite <- He. by apply H2.
Qed.

Lemma state_keyed nst spec s wl : state_ok cfg hc nst spec s wl -> keyed (requests s).
Proof. intros [Hs _ _ _ _] id r Er. destruct (st_reqs _ _ _ _ _ Hs _ _ Er) as [Hok _]. apply (ro_id _ _ _ _ Hok). Qed.

Lemma state_ref nst spec s wl id r : state_ok cfg hc nst spec s wl -> requests s !! id = Some r -> ref_id (ref_of r) = id.
Proof. intros [Hs _ _ _ _] Er. destruct (st_reqs _ _ _ _ _ Hs _ _ Er) as [Hok _]. apply (ro_ref _ _ _ _ Hok). Qed.

Lemma settled_outcome i aborted out r r1 g pooled outs s' : same_content r r1 -> ref_id (ref_of r) ∉ aborted ->
  ref_id (ref_of r) ∈ keys (so_num_scheduled_tokens out) -> request_id (base r1) = ref_id (ref_of r) ->
  output_ok (so_spec_decode_tokens out) (runner i out) r1 g pooled -> settled cfg g pooled r1 outs s' -> step_outcome i aborted out r outs s'.
Proof.
  intros Hsame Ha Hk Hid [(j & Ej & Eg & Ep) _] (kept & res & Hg & Hset). unfold step_outcome. cbn [oc_sched oc_outputs] in Hset. rewrite (sc_ref _ _ Hsame) in Hset.
  rewrite Hid in Ej. apply (kept_same_content _ _ _ _ _ _ _ Hsame) in Hg. destruct (requests s' !! ref_id (ref_of r)) as [r'|] eqn:Er.
  - destruct Hset as (-> & Hout & _ & _ & He). split; [done|]. rewrite decide_True by done. pose proof (kept_all _ _ _ _ _ Hg) as ->.
    exists g, pooled. split; [by exists j|]. split; [done|]. by rewrite Hout, (sc_output _ _ Hsame).
  - destruct Hset as (Hfin & st & why & -> & Hst & e & H1 & H2 & H3 & H4 & H5). right. split; [done|]. split; [done|].
    exists g, pooled, kept, st, why, e. split; [by exists j|]. done.
Qed.

Lemma step_running i en : config_ok cfg -> hasher_ok (E := E) cfg hc -> engine_ok en -> runner_ok i en ->
  scheduler_paused en = false -> has_requests (eng_scheduler en) = true ->
  exists out s outs en', schedule cfg (grammar_ready i) (eng_scheduler en) = Ok (out, s) /\ step cfg i en = Ok (outs, 0 <? so_total out, en') /\ engine_ok en' /\
    (forall r, requests (eng_scheduler en) !! ref_id (ref_of r) = Some r ->
       step_outcome i (concat (aborts_queue en ++ arriving_aborts i)) out r outs (eng_scheduler en')) /\
    (forall id, requests (eng_scheduler en) !! id = None -> requests (eng_scheduler en') !! id = None).
Proof.
  intros Hcfg Hh [wl Hs] Hrun Hp Hr. unfold step. rewrite Hp, Hr. cbn [negb].
  destruct (schedule_ok cfg hc (grammar_ready i) (eng_scheduler en) wl Hcfg Hs) as (out & s & wl1 & E1 & Hs1 & _ & _ & _).
  pose proof (schedule_keeps _ _ _ _ _ (state_keyed _ _ _ _ Hs) E1 (state_keyed _ _ _ _ Hs)) as [_ Hkeep]. rewrite E1. cbn [mbind result_bind].
  set (ab := aborts_queue en ++ arriving_aborts i).
  destruct (process_aborts_ok _ _ (mkEngine s false ab) wl1 Hs1) as (en2 & wl2 & -> & Hs2 & Hr2). cbn [mbind result_bind]. cbn [eng_scheduler aborts_queue] in Hr2.
  destruct (update_from_output_ok cfg hc out (runner i out) (eng_scheduler en2) wl2 Hh Hs2) as (outs & s3 & wl3 & -> & Hs3 & Hfr & Hset & _).
  { intros id r Hk Er. rewrite Hr2 in Er. destruct (decide _); [done|]. by eapply Hrun. }
  cbn [mbind result_bind]. eexists out, s, outs, _. split; [done|]. split; [reflexivity|]. split; [by exists wl3|]. cbn [eng_scheduler with_scheduler]. split.
  - intros r Er. specialize (Hkeep (ref_id (ref_of r))). rewrite Er in Hkeep. inversion Hkeep as [r0 r1 Hsame E0 Er1|]; subst. symmetry in Er1.
    destruct (decide (ref_id (ref_of r) ∈ concat ab)) as [Ha|Ha].
    + assert (Hn : requests (eng_scheduler en2) !! ref_id (ref_of r) = None) by by rewrite Hr2, decide_True.
      unfold step_outcome. rewrite Hfr, Hn by by right. by left.
    + assert (Er2 : requests (eng_scheduler en2) !! ref_id (ref_of r) = Some r1) by by rewrite Hr2, decide_False.
      pose proof (sc_ref _ _ Hsame) as Href. destruct (decide (ref_id (ref_of r) ∈ keys (so_num_scheduled_tokens out))) as [Hk|Hk].
      * destruct (Hrun out s _ r1 E1 Hk Er1) as (g & pooled & Hg). rewrite <- Href in Er2.
        apply (settled_outcome i _ out r r1 g pooled); try done; [by rewrite (state_keyed _ _ _ _ Hs1 _ _ Er1)|]. apply (Hset r1 g pooled); [done|by rewrite Href|done].
      * unfold step_outcome. rewrite Hfr, Er2 by by left. rewrite decide_False by done. by destruct Hsame.
  - intros id Hn. specialize (Hkeep id). rewrite Hn in Hkeep. inversion Hkeep as [|E0 Er1]; subst. rewrite Hfr; rewrite Hr2, <- Er1; [by destruct (decide _)|right; by destruct (decide _)].
Qed.

Lemma step_safe i en : config_ok cfg -> hasher_ok (E := E) cfg hc -> engine_ok en -> runner_ok i en ->
  exists outs b en', step cfg i en = Ok (outs, b, en') /\ engine_ok en'.
Proof.
  intros Hcfg Hh Hen Hrun. destruct (scheduler_paused en) eqn:Hp; [|destruct (has_requests (eng_scheduler en)) eqn:Hr].
  - exists [], false, en. unfold step. by rewrite Hp.
  - destruct (step_running i en Hcfg Hh Hen Hrun Hp Hr) as (out & s & outs & en' & _ & E1 & Hok & _). by eexists _, _, _.
  - exists [], false, en. unfold step. by rewrite Hp, Hr.
Qed.

Lemma handle_ok en c : engine_ok en -> client_ok en c -> exists en', handle_client_request pooling_supported en c = Ok en' /\ engine_ok en'.
Proof.
  intros [wl Hs] Hc. destruct c as [r|ids| | |b|]; cbn [handle_client_request].
  - destruct Hc as (Hnew & Hok & Hpool). unfold engine_add_request.
    assert ((match sampling_params r with None => negb (pooling_supported r) | Some _ => false end) = false) as ->
      by (destruct (sampling_params r); [done|by rewrite Hpool]).
    destruct (add_request_ok cfg hc [] [] _ wl r Hs Hnew Hok) as (s' & -> & Hs' & _). cbn [mbind result_bind]. eexists. split; [reflexivity|]. by eexists.
  - destruct (abort_ok [] [] ids en wl Hs) as (en' & wl' & -> & Hs' & _). exists en'. split; [done|]. by exists wl'.
  - eexists. split; [reflexivity|]. by exists wl.
  - eexists. split; [reflexivity|]. by exists wl.
  - destruct (reset_prefix_cache_ok cfg hc b [] [] _ wl Hs) as (ok & s' & wl' & -> & Hs' & _). cbn [mbind result_bind]. eexists. split; [reflexivity|]. by exists wl'.
  - eexists. split; [reflexivity|]. exists wl. by apply reset_encoder_cache_ok.
Qed.

Lemma inputs_ok cs : forall en, engine_ok en -> clients_ok en cs ->
  exists go en', process_input_queue pooling_supported cs en = Ok (go, en') /\ engine_ok en'.
Proof.
  unfold process_input_queue. induction cs as [|c cs IH]; intros en Hen Hcs; cbn [foldM].
  - cbn [mbind result_bind]. destruct (_ && _); eexists _, _; (split; [reflexivity|]); [|done]. destruct Hen as [wl Hs]. by exists wl.
  - destruct Hcs as [Hc Hcs]. destruct (handle_ok en c Hen Hc) as (en1 & E1 & Hen1). rewrite E1. cbn [mbind result_bind]. by apply IH; [|apply Hcs].
Qed.

Lemma post_step_ok i b en : engine_ok en -> engine_ok (post_step use_spec_decode i b en).
Proof.
  intros [wl Hs]. unfold post_step. destruct (_ && b); [|by exists wl]. destruct (drafts i) as [d|]; [|by exists wl].
  exists wl. by apply update_draft_token_ids_ok.
Qed.

Lemma turn_ok cs i en : config_ok cfg -> hasher_ok (E := E) cfg hc -> engine_ok en -> clients_ok en cs ->
  (forall en', process_input_queue pooling_supported cs en = Ok (true, en') -> runner_ok i en') ->
  exists outs en', loop_turn cfg use_spec_decode pooling_supported cs i en = Ok (outs, en') /\ engine_ok en'.
Proof.
  intros Hcfg Hh Hen Hcs Hrun. unfold loop_turn. destruct (inputs_ok cs en Hen Hcs) as (go & en1 & E1 & Hen1). rewrite E1. cbn [mbind result_bind].
  destruct go; [|by exists [], en1]. destruct (step_safe i en1 Hcfg Hh Hen1 (Hrun _ E1)) as (outs & b & en2 & E2 & Hen2).
  unfold process_engine_step. rewrite E2. cbn [mbind result_bind]. eexists _, _. split; [reflexivity|]. by apply post_step_ok.
Qed.

Lemma loop_ok turns : config_ok cfg -> hasher_ok (E := E) cfg hc -> forall en, engine_ok en -> run_ok turns en ->
  exists outs en', run_busy_loop cfg use_spec_decode pooling_supported turns en = Ok (outs, en') /\ engine_ok en'.
Proof.
  intros Hcfg Hh. induction turns as [|[cs i] turns IH]; intros en Hen Hrun; [by exists [], en|]. destruct Hrun as (Hcs & Hst & Hrest).
  cbn [run_busy_loop]. destruct (turn_ok cs i en Hcfg Hh Hen Hcs Hst) as (outs & en1 & E1 & Hen1). rewrite E1. cbn [mbind result_bind].
  destruct (IH en1 Hen1 (Hrest _ _ E1)) as (more & en2 & -> & Hen2). cbn [mbind result_bind]. by eexists _, _.
Qed.

(** ** Admissible runs by evaluation *)

(** The contract of the model runner as a test on a concrete answer. *)
Definition output_okb (spec : dict (list Z)) (mo : ModelRunnerOutput) (r : sreq) : bool :=
  match dict_get (request_id (base r)) (req_id_to_index mo) with
  | None => false
  | Some j =>
      match generated_at mo j, pooled_at mo j with
      | Ok g, Ok pooled =>
          match sampling_params r with
          | Some _ => if is_prefill_chunk r then bool_decide (g = [])
                      else (1 <=? py_len g) && (py_len g <=? 1 + py_len (default [] (dict_get (request_id (base r)) spec)))
          | None => bool_decide (g = []) && Bool.eqb pooled (negb (is_prefill_chunk r))
          end
      | _, _ => false
      end
  end.

Lemma output_okb_ok spec mo r : output_okb spec mo r = true -> exists g pooled, output_ok spec mo r g pooled.
Proof.
  unfold output_okb, output_ok. destruct (dict_get _ _) as [j|]; [|done]. destruct (generated_at mo j) as [g|] eqn:Eg; [|done].
  destruct (pooled_at mo j) as [p|] eqn:Ep; [|done]. intros H. exists g, p. split; [by eauto|]. destruct (sampling_params r).
  - destruct (is_prefill_chunk r); [by apply bool_decide_eq_true in H|]. apply andb_true_iff in H as [H1%Z.leb_le H2%Z.leb_le]. done.
  - apply andb_true_iff in H as [H1%bool_decide_eq_true H2%Bool.eqb_prop]. done.
Qed.

Definition runner_okb (i : step_input) en : bool :=
  match schedule cfg (grammar_ready i) (eng_scheduler en) with
  | Ok (out, s) => forallb (fun id => match requests s !! id with Some r => output_okb (so_spec_decode_tokens out) (runner i out) r | None => true end)
                     (keys (so_num_scheduled_tokens out))
  | Err _ => true
  end.

Lemma runner_okb_ok i en : runner_okb i en = true -> runner_ok i en.
Proof.
  intros H out s id r E1 Hid Er. unfold runner_okb in H. rewrite E1 in H. rewrite forallb_forall in H.
  specialize (H id (proj1 (list_elem_of_In _ _) Hid)). rewrite Er in H. by apply output_okb_ok.
Qed.

(** New ids are new, and the model answers every batch. *)
Fixpoint clients_okb en (cs : list client_request) : bool :=
  match cs with
  | [] => true
  | c :: cs => match c with ADD r => bool_decide (requests (eng_scheduler en) !! request_id (base r) = None) | _ => true end &&
      match handle_client_request pooling_supported en c with Ok en' => clients_okb en' cs | Err _ => true end
  end.
Fixpoint run_okb (turns : list (list client_request * step_input)) en : bool :=
  match turns with
  | [] => true
  | (cs, i) :: turns =>
      clients_okb en cs &&
      match process_input_queue pooling_supported cs en with Ok (true, en') => runner_okb i en' | _ => true end &&
      match loop_turn cfg use_spec_decode pooling_supported cs i en with Ok (_, en') => run_okb turns en' | Err _ => true end
  end.

Definition acceptable (c : client_request) : Prop :=
  match c with ADD r => new_req_ok cfg hc r /\ (sampling_params r = None -> pooling_supported r = true) | _ => True end.

Lemma clients_okb_ok cs : Forall acceptable cs -> forall en, clients_okb en cs = true -> clients_ok en cs.
Proof.
  induction 1 as [|c cs Hc _ IH]; intros en H; [done|]. cbn [clients_okb] in H. apply andb_true_iff in H as [H1 H2]. split.
  - destruct c; try done. apply bool_decide_eq_true in H1. by destruct Hc.
  - intros en' E1. rewrite E1 in H2. by apply IH.
Qed.

Lemma run_okb_ok turns : Forall (fun t => Forall acceptable (fst t)) turns -> forall en, run_okb turns en = true -> run_ok turns en.
Proof.
  induction 1 as [|[cs i] turns Hc _ IH]; intros en H; [done|]. cbn [run_okb] in H. rewrite !andb_true_iff in H. destruct H as [[H1 H2] H3].
  split; [by apply clients_okb_ok|]. split.
  - intros en' E1. rewrite E1 in H2. by apply runner_okb_ok.
  - intros outs en' E1. rewrite E1 in H3. by apply IH.
Qed.

(** A new engine over caches that hold nothing. *)
Lemma new_engine_ok k e : config_ok cfg -> kv_wf k -> (forall id, kv_fresh k id) -> ec_wf e -> engine_ok (new_engine cfg k e).
Proof.
  intros Hcfg Hk Hf He. exists []. split.
  - assert (Hn : forall id : string, (∅ : gmap string sreq) !! id = None) by (intros; apply lookup_empty).
    split; cbn; try done; [destruct (policy cfg); [done|]|constructor|by intros ? ?%elem_of_nil].
    split; [|split; [done|constructor]]. intros p c x y _ _ Hx. by rewrite lookup_nil in Hx.
  - cbn. apply (co_running _ Hcfg).
  - constructor.
  - by intros ? ? ?%elem_of_nil.
  - intros r Er. cbn in Er. by rewrite lookup_empty in Er.
Qed.
End Engine.

(** * The engine as it is built *)

(** The KV cache: without prefix caching, or caching the blocks of one group of
    full attention under a collision-free hash.  The second index is what the
    hashes of a request have to be. *)
Inductive kv_setup (cfg : sched_config) : (Request -> Prop) -> kv_manager -> Prop :=
| setup_plain n specs hbs eagle log events use_int dcp pcp metrics k :
    attention_config specs dcp pcp -> 0 < hbs -> block_hasher cfg = None ->
    KVCacheManager.new_manager n specs (cfg_max_model_len cfg) hbs false eagle log events use_int dcp pcp metrics = Ok k ->
    kv_setup cfg (fun _ => True) k
| setup_cached hash none n spec hbs eagle log events use_int dcp pcp metrics k :
    (forall x y, hash x = hash y -> x = y) -> (forall x, hash x <> []) -> (forall x, hash x <> none) ->
    attention_config [spec] dcp pcp -> is_full_spec spec = true -> 0 < hbs -> block_hasher cfg = Some (request_block_hasher hash none hbs) ->
    KVCacheManager.new_manager n [spec] (cfg_max_model_len cfg) hbs true eagle log events use_int dcp pcp metrics = Ok k ->
    kv_setup cfg (hashes_ok hash none hbs) k.

Section Deployment.
Context (cfg : sched_config) (hc : Request -> Prop) (size_of : option string -> Z) (use_spec_decode : bool) (pooling_supported : sreq -> bool).
Context (k : kv_manager) (encoder_size : Z).

#[local] Instance deployed_kv : KVCacheView kv_manager := kv_manager_view (cfg_max_model_len cfg) hc (enough (cfg_max_model_len cfg) k).
#[local] Instance deployed_ec : EncoderCacheView EncoderCacheManager := ecm_view size_of.

(** A deployment of a decoder-only model. *)
Record deployment : Prop := {
  dp_config : config_ok cfg;
  dp_length : 0 <= cfg_max_model_len cfg;
  dp_kv : kv_setup cfg hc k;
  dp_sizes h : 0 <= size_of h;
  dp_decoder : is_encoder_decoder (encoder_settings cfg) = false;
  dp_encoder : 0 <= encoder_size;
}.

Definition deployed : engine kv_manager EncoderCacheManager := new_engine cfg k (ecm_init encoder_size).

(** An engine reached by the busy loop. *)
Definition reached (en : engine kv_manager EncoderCacheManager) : Prop :=
  exists turns outs, run_ok cfg hc use_spec_decode pooling_supported turns deployed /\
    run_busy_loop cfg use_spec_decode pooling_supported turns deployed = Ok (outs, en).

Lemma kv_setup_ok : 0 <= cfg_max_model_len cfg -> kv_setup cfg hc k ->
  kv_wf k /\ (forall id, kv_fresh k id) /\ hasher_ok (E := EncoderCacheManager) cfg hc.
Proof.
  unfold deployed_kv. intros Hml. destruct 1 as [n specs hbs eagle log events use_int dcp pcp mc k Hc Hb Hh Hn|hash none n spec hbs eagle log events use_int dcp pcp mc k Hi He Hs Hc Hf Hb Hh Hn].
  - destruct (new_manager_wf n specs (cfg_max_model_len cfg) hbs false eagle log events use_int dcp pcp mc k (fun _ => True) (enough (cfg_max_model_len cfg) k)) as [H1 H2]; [done..|]. split; [done|]. split; [done|]. by apply no_hasher_ok.
  - assert (Hcov : true = true -> forall r, hashes_ok hash none hbs r -> num_tokens r / hbs <= py_len (block_hashes r) /\ NoDup (block_hashes r)).
    { intros _ r (Hch & Hl & _). rewrite Hl. split; [lia|]. by eapply chained_nodup. }
    destruct (new_manager_wf n [spec] (cfg_max_model_len cfg) hbs true eagle log events use_int dcp pcp mc k (hashes_ok hash none hbs) (enough (cfg_max_model_len cfg) k)) as [H1 H2]; [by eauto..|].
    split; [done|]. split; [done|]. by apply (chain_hasher_ok hash none hbs).
Qed.

Lemma deployed_ok : deployment -> engine_ok cfg hc deployed.
Proof.
  intros [Hc Hl Hk Hs Hd He]. destruct (kv_setup_ok Hl Hk) as (H1 & H2 & _). apply new_engine_ok; [done|done|done|]. by apply ecm_init_inv.
Qed.

Lemma deployment_laws : deployment -> config_ok cfg /\ hasher_ok (E := EncoderCacheManager) cfg hc /\
  KVCacheLaws kv_manager (cfg_max_model_len cfg) hc /\ EncoderCacheLaws EncoderCacheManager (encoder_settings cfg).
Proof.
  intros [Hc Hl Hk Hs Hdec He]. destruct (kv_setup_ok Hl Hk) as (_ & _ & Hh). split; [done|]. split; [done|].
  split; [apply kv_manager_laws|by apply ecm_laws].
Qed.

Lemma reached_ok en : deployment -> reached en -> engine_ok cfg hc en.
Proof.
  intros Hd (turns & outs & Hrun & E). pose proof (deployed_ok Hd) as Hok. destruct (deployment_laws Hd) as (Hc & Hh & KL & EL).
  destruct (loop_ok cfg hc use_spec_decode pooling_supported turns Hc Hh deployed Hok Hrun) as (outs' & en' & E' & H). congruence.
Qed.

(** C1: The engine core never stops: from a newly built engine, every run of the
    busy loop over admissible inputs (new requests with new ids, any aborts,
    pauses and cache resets, any drafts, and a model that answers the batches it is
    given) returns without an exception, and in the state it reaches every request
    is known exactly once, running or waiting, running requests hold KV-cache slots
    for all tokens they have computed and waiting ones hold nothing, and both caches
    are consistent. *)
Theorem busy_loop_safe turns :
  deployment -> run_ok cfg hc use_spec_decode pooling_supported turns deployed ->
  exists outs en, run_busy_loop cfg use_spec_decode pooling_supported turns deployed = Ok (outs, en) /\ engine_ok cfg hc en.
Proof.
  intros Hd Hrun. pose proof (deployed_ok Hd) as Hok. destruct (deployment_laws Hd) as (Hc & Hh & KL & EL).
  by apply loop_ok.
Qed.

(** C2: What an engine step does to every request: one that was aborted is gone; one
    that was not scheduled keeps its output.  One that was scheduled keeps the tokens
    the model generated up to the first with which it has to stop: its end-of-sequence
    token unless that is ignored, one of its stop tokens, the length of the model or
    its maximum, and never below its minimum ([kept_tokens]).  If none stops it, it
    appends all of them, reported in one output; otherwise it is gone, its id is among
    the finished ones, and an output reports exactly the tokens kept, the finish reason
    of that stop and the stop token.  No request is lost or made up. *)
Theorem engine_step_correct i en :
  deployment -> reached en -> runner_ok cfg i en -> scheduler_paused en = false -> has_requests (eng_scheduler en) = true ->
  exists out s outs en', schedule cfg (grammar_ready i) (eng_scheduler en) = Ok (out, s) /\ step cfg i en = Ok (outs, 0 <? so_total out, en') /\
    (forall r, requests (eng_scheduler en) !! ref_id (ref_of r) = Some r ->
       step_outcome cfg i (concat (aborts_queue en ++ arriving_aborts i)) out r outs (eng_scheduler en')) /\
    (forall id, requests (eng_scheduler en) !! id = None -> requests (eng_scheduler en') !! id = None).
Proof.
  intros Hd Hr Hrun Hp Hreq. pose proof (reached_ok en Hd Hr) as Hok. destruct (deployment_laws Hd) as (Hc & Hh & KL & EL).
  destruct (step_running cfg hc i en Hc Hh Hok Hrun Hp Hreq) as (out & s & outs & en' & E1 & E2 & _ & H1 & H2). by exists out, s, outs, en'.
Qed.

(** C18: The bounds of a scheduling step, in every state the engine reaches:
    [schedule] returns, the scheduled tokens add up to at most the token budget, at
    most the allowed number of requests run, and every scheduled request gets at
    least one token, is running, and holds in every KV-cache group enough blocks for
    all its tokens including the scheduled ones. *)
Theorem schedule_bounds ready en :
  deployment -> reached en ->
  exists out s, schedule cfg ready (eng_scheduler en) = Ok (out, s) /\
    so_total out = sumZ ((so_num_scheduled_tokens out).*2) /\ so_total out <= max_num_scheduled_tokens cfg /\
    py_len (running s) <= max_num_running_reqs cfg /\
    forall id n, (id, n) ∈ so_num_scheduled_tokens out -> 1 <= n /\
      exists r, requests s !! id = Some r /\ status (base r) = RUNNING /\ ref_of r ∈ running s /\
        forall m, m ∈ kv_groups (kv s) -> num_computed_tokens (base r) <= py_len (blocks_of id m) * block_size m.
Proof.
  intros Hd Hr. destruct (reached_ok en Hd Hr) as [wl Hok]. destruct (deployment_laws Hd) as (Hc & Hh & KL & EL).
  destruct (schedule_ok cfg hc ready (eng_scheduler en) wl Hc Hok) as (out & s & wl' & E1 & [Hst Hl Hnd Hpos _] & Ht & Hm & Hin).
  exists out, s. split; [done|]. split; [done|]. split; [done|]. split; [done|]. intros id n Hn. split; [by eapply Hpos|].
  destruct (Hin id) as (r & Er & Hrun); [by apply (list_elem_of_fmap_2 fst _ _ Hn)|]. exists r. split; [done|]. split; [done|].
  destruct (st_reqs _ _ _ _ _ Hst _ _ Er) as [Hro [Hr1|Hr1]%elem_of_app]; pose proof (ro_ref _ _ _ _ Hro) as Href; subst id.
  - split; [done|]. destruct (st_run _ _ _ _ _ Hst r Er Hr1) as [_ _ Hslots]. rewrite (ro_id _ _ _ _ Hro) in Hslots. exact Hslots.
  - destruct (st_wait _ _ _ _ _ Hst r Er Hr1) as [[W|[W|W]] _ _ _]; congruence.
Qed.
End Deployment.
