(* ===== verification/EngineProgress.v ===== *)
(** The engine finishes its work: once no more client requests arrive, every
    request is finished after a bounded number of turns of the busy loop. *)
From S2P Require Import Prelude Dict FreeQueue Request BlockHash BlockPool SingleType SingleTypeFacts KVManager KVManagerFacts KVSlots EncoderCache EncoderSched RequestQueue Scheduler SchedulerFacts SchedulerStep SchedulerCalls SchedulerRequests SchedulerKV SchedulerEncoder SchedulerHash SchedulerKeeps SchedulerProgress SchedulerRoom EngineCore EngineSafe.
Local Open Scope Z_scope.

Section Work.
Context {K E : Type} `{KV : KVCacheOps K} `{EC : EncoderCacheOps E} `{EF : EncoderCacheFree E}.
Context `{!KVCacheView K} `{!EncoderCacheView E}.
Context (cfg : sched_config) (hc : Request -> Prop).
Let max_len := cfg_max_model_len cfg.
Context `{KL : !KVCacheLaws K max_len hc} `{EL : !EncoderCacheLaws E (encoder_settings cfg)} `{KR : !KVCacheRoom K max_len hc}.
Implicit Types s : scheduler K E.

(** The work left for a request: it can get at most [max_len] tokens, and before
    each of them compute at most [max_len]. *)
Definition request_work (r : Request) : Z := (max_len - num_tokens r) * (max_len + 1) + (num_tokens r - num_computed_tokens r).
Definition most_work : Z := max_len * (max_len + 1).

(** The first running request is worked on in every step; without one, a step starts
    another. *)
Definition head_work s : Z :=
  match running s with
  | [] => most_work
  | ref :: _ => match requests s !! ref_id ref with Some r => request_work (base r) | None => 0 end
  end.
Definition work_left s : Z := Z.of_nat (size (requests s)) * (most_work + 1) + head_work s.

Lemma head_known s wl ref rs : state_ok cfg hc [] [] s wl -> running s = ref :: rs ->
  exists r, requests s !! ref_id ref = Some r /\ ref_of r = ref /\ status (base r) = RUNNING /\
    0 <= num_computed_tokens (base r) < num_tokens (base r) /\ num_tokens (base r) < max_len.
Proof.
  intros [Hs _ _ _ He] Hrun. assert (Hin : ref ∈ running s) by (rewrite Hrun; left).
  destruct (store_ref cfg hc [] s wl ref Hs) as (r & Er & Href & Hok & _); [set_solver|]. exists r. rewrite <- Href in Er, Hin.
  destruct (st_run _ _ _ _ _ Hs r Er Hin) as [U1 U2 _]. specialize (He r Er Hin). rewrite decide_False in He by apply not_elem_of_nil.
  pose proof (ro_tokens _ _ _ _ Hok). rewrite <- Href. unfold max_len. split; [done|]. split; [done|]. split; [done|]. lia.
Qed.

Lemma request_work_bound r : 0 <= num_computed_tokens r < num_tokens r -> num_tokens r < max_len -> 0 <= request_work r < most_work.
Proof. unfold request_work, most_work. nia. Qed.

Lemma head_work_bound s wl : 0 <= max_len -> state_ok cfg hc [] [] s wl -> 0 <= head_work s <= most_work.
Proof.
  intros Hm Hs. unfold head_work. destruct (running s) as [|ref rs] eqn:Hrun; [unfold most_work; nia|].
  destruct (head_known s wl ref rs Hs Hrun) as (r & -> & _ & _ & H1 & H2). pose proof (request_work_bound (base r) H1 H2). lia.
Qed.

(** A running request that stays known stays at the head. *)
Lemma head_stays s1 s3 wl3 (stopped : list req_ref) ref rs r :
  state_ok cfg hc [] [] s3 wl3 -> running s3 = filter (fun x => x ∉ stopped) (running s1) ->
  running s1 = ref :: rs -> requests s3 !! ref_id ref = Some r -> ref_of r = ref -> status (base r) = RUNNING -> exists rs3, running s3 = ref :: rs3.
Proof.
  intros [Hs3 _ _ _ _] Hf Hrun Er Href Hst. destruct (st_reqs _ _ _ _ _ Hs3 _ _ Er) as [_ [Hin|Hin]%elem_of_app].
  - rewrite Hf, Hrun in *. rewrite Href in Hin. apply list_elem_of_filter in Hin as [Hn _]. rewrite filter_cons_True by done. by eexists.
  - rewrite <- Href in Er. destruct (st_wait _ _ _ _ _ Hs3 r Er Hin) as [[W|[W|W]] _ _ _]; congruence.
Qed.

(** ** A step *)
Context (Hcfg : config_ok cfg) (Hlive : live_config cfg) (Hmax : 0 <= max_len).
(** What [schedule] and [update_from_output] leave of a request that was scheduled
    or not. *)
Lemma step_request (nst : dict Z) spec mo s1 s3 outs id r1 r3 :
  (forall id r, requests s1 !! id = Some r -> ref_id (ref_of r) = id) ->
  (forall id r, id ∈ keys nst -> requests s1 !! id = Some r -> exists g pooled, output_ok spec mo r g pooled) ->
  (forall id, id ∉ keys nst \/ requests s1 !! id = None -> requests s3 !! id = requests s1 !! id) ->
  (forall r g pooled, requests s1 !! ref_id (ref_of r) = Some r -> ref_id (ref_of r) ∈ keys nst -> output_ok spec mo r g pooled -> settled cfg g pooled r outs s3) ->
  requests s1 !! id = Some r1 -> requests s3 !! id = Some r3 ->
  status (base r3) = status (base r1) /\ exists g, moved_on g r1 r3.
Proof.
  intros Href Hmo Hfr Hset E1 E3. destruct (decide (id ∈ keys nst)) as [Hin|Hout].
  - destruct (Hmo id r1 Hin E1) as (g & pooled & Hg). pose proof (Href id r1 E1) as Hid. rewrite <- Hid in E1, Hin.
    destruct (Hset r1 g pooled E1 Hin Hg) as (kept & rest & _ & H). cbn [oc_sched] in H. rewrite Hid, E3 in H. destruct H as (_ & _ & H1 & H2 & _). eauto.
  - rewrite Hfr in E3 by by left. rewrite E1 in E3. injection E3 as <-. split; [done|]. exists []. split; [done|done|unfold py_len; cbn; lia|done].
Qed.

Lemma size_mono (m m' : gmap string sreq) : (forall id, m !! id = None -> m' !! id = None) ->
  (size m' <= size m)%nat /\ (size m' = size m -> forall id, is_Some (m !! id) -> is_Some (m' !! id)).
Proof.
  intros H. assert (Hsub : dom m' ⊆ dom m).
  { intros id. rewrite !elem_of_dom. intros [r Er]. destruct (m !! id) eqn:Em; [by eexists|]. by rewrite H in Er. }
  rewrite <- !size_dom. split; [by apply subseteq_size|]. intros Hsz id. rewrite <- !elem_of_dom. intros Hid.
  assert (dom m' ≡ dom m) as ->; [|done]. by apply set_subseteq_size_equiv; [|lia].
Qed.

(** New draft tokens leave the work as it is. *)
Definition alike (r r' : sreq) : Prop :=
  num_tokens (base r') = num_tokens (base r) /\ num_computed_tokens (base r') = num_computed_tokens (base r) /\ mm_features (base r') = mm_features (base r).

Lemma drafts_alike validate d : forall s, keyed (requests s) ->
  running (update_draft_token_ids validate d s) = running s /\
  forall id, option_Forall2 alike (requests s !! id) (requests (update_draft_token_ids validate d s) !! id).
Proof.
  unfold update_draft_token_ids. induction d as [|[i ids] d IH]; intros s Hk; cbn [fold_left].
  - split; [done|]. intros id. destruct (requests s !! id); by constructor.
  - set (s1 := set_drafts validate s (i, ids)).
    assert (H1 : running s1 = running s /\ keyed (requests s1) /\ forall id, option_Forall2 alike (requests s !! id) (requests s1 !! id)).
    { assert (Hput : forall x r, requests s !! i = Some r -> keyed (requests (put_req (with_base (set_spec x) r) s)) /\
        forall id, option_Forall2 alike (requests s !! id) (requests (put_req (with_base (set_spec x) r) s) !! id)).
      { intros x r Er. pose proof (Hk _ _ Er) as Hid. cbn. rewrite Hid. split; intros id; destruct (decide (id = i)) as [->|Hne].
        - intros y. rewrite lookup_insert_eq. by intros [= <-].
        - intros y. rewrite lookup_insert_ne by done. apply Hk.
        - rewrite lookup_insert_eq, Er. by constructor.
        - rewrite lookup_insert_ne by done. destruct (requests s !! id); by constructor. }
      unfold s1, set_drafts. destruct (requests s !! i) as [r|] eqn:Er; [destruct (status_is_finished _); [|destruct (is_prefill_chunk r)]|];
        try (split; [done|by apply Hput]); (split; [done|]; split; [done|]; intros id; destruct (requests s !! id); by constructor). }
    destruct H1 as (R1 & K1 & A1). destruct (IH s1 K1) as [R2 A2]. split; [by rewrite R2|]. intros id. specialize (A1 id). specialize (A2 id).
    inversion A1 as [x y [Hx1 [Hx2 Hx3]] Ex Ey|Ex Ey]; rewrite <- Ey in A2; inversion A2 as [y' z [Hy1 [Hy2 Hy3]] Ey' Ez|]; subst; constructor; unfold alike; try done.
    split; [congruence|]. split; congruence.
Qed.

Lemma alike_work s s' : running s' = running s -> (forall id, option_Forall2 alike (requests s !! id) (requests s' !! id)) ->
  work_left s' = work_left s /\ (text_only s -> text_only s').
Proof.
  intros Hr HA. assert (size (requests s') = size (requests s)) as Hsz.
  { apply Nat.le_antisymm; apply size_mono; intros id Hn; specialize (HA id); rewrite Hn in HA; by inversion HA. }
  split.
  - unfold work_left, head_work. rewrite Hsz, Hr. f_equal. destruct (running s) as [|ref rs]; [done|]. specialize (HA (ref_id ref)).
    inversion HA as [x y (H1 & H2 & _) Ex Ey|]; [|done]. unfold request_work. by rewrite H1, H2.
  - intros Ht id r Er. specialize (HA id). rewrite Er in HA. inversion HA as [x y (_ & _ & H3) Ex Ey|]; subst. rewrite H3. by apply (Ht id).
Qed.

(** While a request is there, a step leaves less work. *)
Lemma step_works ready s wl out s1 mo outs s3 : (forall id, ready id = true) -> hasher_ok (E := E) cfg hc ->
  state_ok cfg hc [] [] s wl -> text_only s -> requests s <> ∅ ->
  schedule cfg ready s = Ok (out, s1) ->
  (forall id r, id ∈ keys (so_num_scheduled_tokens out) -> requests s1 !! id = Some r -> exists g pooled, output_ok (so_spec_decode_tokens out) mo r g pooled) ->
  update_from_output cfg out mo s1 = Ok (outs, s3) -> work_left s3 < work_left s /\ text_only s3.
Proof.
  intros Hready Hh Hst Ht Hne E1 Hmo E2.
  destruct (schedule_ok cfg hc ready s wl Hcfg Hst) as (out' & s1' & wl1 & E1' & Hst1 & _). rewrite E1 in E1'. injection E1' as <- <-.
  pose proof (schedule_progress cfg hc Hcfg Hlive ready Hready s wl out s1 Hst Ht E1) as Hprog.
  pose proof (schedule_keeps cfg ready s out s1 (state_keyed _ _ _ _ _ _ Hst) E1 (state_keyed _ _ _ _ _ _ Hst)) as [_ Hkeep].
  destruct (update_from_output_ok cfg hc out mo s1 wl1 Hh Hst1 Hmo) as (outs' & s3' & wl3 & E2' & Hst3 & Hfr & Hset & stopped & Hrun3).
  rewrite E2 in E2'. injection E2' as <- <-.
  assert (Hdom : forall id, requests s !! id = None -> requests s3 !! id = None).
  { intros id Hn. specialize (Hkeep id). rewrite Hn in Hkeep. inversion Hkeep as [|E0 Er1]. rewrite Hfr; [done|by right]. }
  split.
  2:{ intros id r3 Er3. pose proof (Hkeep id) as Hk. destruct (requests s !! id) as [r|] eqn:Er; [|by rewrite Hdom in Er3].
      inversion Hk as [x r1 Hsame Ex Er1|]; subst. destruct (step_request (so_num_scheduled_tokens out) (so_spec_decode_tokens out) mo s1 s3 outs id r1 r3)
        as [_ [g Hg]]; try done; [intros; by apply (state_ref cfg hc _ _ _ _ _ _ Hst1)|].
      rewrite (mo_features _ _ _ Hg), (sc_features _ _ Hsame). by apply (Ht id). }
  destruct (size_mono _ _ Hdom) as [Hle Heq]. pose proof (head_work_bound s wl Hmax Hst) as Hb. pose proof (head_work_bound s3 wl3 Hmax Hst3) as Hb3.
  unfold work_left. destruct (decide (size (requests s3) = size (requests s))) as [Hsz|Hsz]; [|nia]. specialize (Heq Hsz). rewrite Hsz.
  assert (Hlt : head_work s3 < head_work s); [|lia]. unfold head_work at 2.
  assert (Hhead : forall ref rs, running s1 = ref :: rs -> exists r1 r3, requests s1 !! ref_id ref = Some r1 /\ requests s3 !! ref_id ref = Some r3 /\
    head_work s3 = request_work (base r3) /\ (0 <= num_computed_tokens (base r3) < num_tokens (base r3) /\ num_tokens (base r3) < max_len) /\
    exists g, moved_on g r1 r3).
  { intros ref rs Hr1. destruct (st_refs _ _ _ _ _ (so_store _ _ _ _ _ _ Hst1) ref) as (r1 & Er1 & Href1); [rewrite Hr1; set_solver|].
    specialize (Hkeep (ref_id ref)). rewrite Er1 in Hkeep. inversion Hkeep as [r0 x Hsame E0 Ex|]; subst. symmetry in E0.
    destruct (Heq _ (ex_intro _ _ E0)) as [r3 Er3].
    destruct (step_request (so_num_scheduled_tokens out) (so_spec_decode_tokens out) mo s1 s3 outs (ref_id (ref_of r1)) r1 r3) as [Hs3 Hmv]; try done.
    { intros id r. apply (state_ref cfg hc _ _ _ _ _ _ Hst1). }
    destruct Hmv as [g Hg]. pose proof (mo_ref _ _ _ Hg) as Href3.
    assert (Hrun1 : status (base r1) = RUNNING) by (apply (ru_status _ _ (st_run _ _ _ _ _ (so_store _ _ _ _ _ _ Hst1) r1 Er1 ltac:(rewrite Hr1; left)))).
    destruct (head_stays s1 s3 wl3 stopped (ref_of r1) rs r3 Hst3 Hrun3 Hr1 Er3 Href3) as [rs3 Hr3]; [congruence|].
    destruct (head_known s3 wl3 _ _ Hst3 Hr3) as (r3' & Er3' & _ & _ & Hbd). rewrite Er3 in Er3'. injection Er3' as <-.
    exists r1, r3. split; [done|]. split; [done|]. split; [unfold head_work; by rewrite Hr3, Er3|]. split; [done|by exists g]. }
  destruct (running s) as [|ref rs] eqn:Hrun.
  - assert (Hwl : wl <> []).
    { intros ->. apply Hne, map_eq. intros id. rewrite lookup_empty. destruct (requests s !! id) as [r|] eqn:Er; [|done].
      destruct (st_reqs _ _ _ _ _ (so_store _ _ _ _ _ _ Hst) _ _ Er) as [_ Hin]. rewrite Hrun in Hin. by apply elem_of_nil in Hin. }
    destruct (running s1) as [|ref rs] eqn:Hr1; [by destruct (Hprog Hwl)|]. destruct (Hhead ref rs eq_refl) as (r1 & r3 & _ & _ & -> & [B1 B2] & _).
    apply request_work_bound; done.
  - destruct Hprog as (_ & [rs1 Hr1] & Hga). destruct (Hhead ref rs1 Hr1) as (r1 & r3 & Er1 & _ & -> & [B1 B2] & g & [_ _ Htok Hcmp]).
    destruct (head_known s wl ref rs Hst Hrun) as (r & Er & _ & _ & C1 & C2). rewrite Er. destruct (Hga r Er) as (r1' & Er1' & Hc). rewrite Er1 in Er1'. injection Er1' as <-.
    specialize (Hkeep (ref_id ref)). rewrite Er, Er1 in Hkeep. inversion Hkeep as [x y Hsame Ex Ey|]; subst.
    assert (Hnt : num_tokens (base r1) = num_tokens (base r)) by (unfold num_tokens; by rewrite (sc_all _ _ Hsame)).
    unfold request_work. destruct g as [|t g]; [rewrite Hcmp by done; unfold py_len in Htok; cbn in Htok; nia|].
    assert (1 <= py_len (t :: g)) by (unfold py_len; cbn; lia). nia.
Qed.

(** ** The busy loop *)
Context (use_spec_decode : bool) (pooling_supported : sreq -> bool).

(** A turn without client requests, with every grammar compiled. *)
Definition quiet_turn (t : list client_request * step_input) : Prop :=
  fst t = [] /\ arriving_aborts (snd t) = [] /\ forall id, grammar_ready (snd t) id = true.
Definition quiet (en : engine K E) : Prop := scheduler_paused en = false /\ aborts_queue en = [].

Lemma no_requests s wl : state_ok cfg hc [] [] s wl -> has_requests s = false -> requests s = ∅.
Proof.
  intros [Hs _ _ _ _] H. unfold has_requests, has_unfinished_requests, get_num_unfinished_requests in H. apply orb_false_iff in H as [H%Z.ltb_ge _].
  rewrite (len_view _ _ _ (st_view _ _ _ _ _ Hs)) in H. unfold py_len in H. apply map_eq. intros id. rewrite lookup_empty.
  destruct (requests s !! id) as [r|] eqn:Er; [|done]. destruct (st_reqs _ _ _ _ _ Hs _ _ Er) as [_ Hin].
  destruct (running s), wl; cbn in H; try lia. by apply elem_of_nil in Hin.
Qed.

Lemma post_alike i b en : keyed (requests (eng_scheduler en)) -> quiet en ->
  let en' := post_step use_spec_decode i b en in
  quiet en' /\ running (eng_scheduler en') = running (eng_scheduler en) /\
  forall id, option_Forall2 alike (requests (eng_scheduler en) !! id) (requests (eng_scheduler en') !! id).
Proof.
  intros Hk Hq. unfold post_step.
  assert (Hrefl : quiet en /\ running (eng_scheduler en) = running (eng_scheduler en) /\
    forall id, option_Forall2 alike (requests (eng_scheduler en) !! id) (requests (eng_scheduler en) !! id)).
  { split; [done|]. split; [done|]. intros id. destruct (requests _ !! id); by constructor. }
  destruct (_ && b); [|exact Hrefl]. destruct (drafts i) as [d|]; [|exact Hrefl]. split; [exact Hq|]. by apply drafts_alike.
Qed.

Lemma turn_works i en outs en' : hasher_ok (E := E) cfg hc -> engine_ok cfg hc en -> text_only (eng_scheduler en) -> quiet en -> quiet_turn ([], i) ->
  (forall en1, process_input_queue pooling_supported [] en = Ok (true, en1) -> runner_ok cfg i en1) ->
  loop_turn cfg use_spec_decode pooling_supported [] i en = Ok (outs, en') ->
  quiet en' /\ text_only (eng_scheduler en') /\
  if decide (requests (eng_scheduler en) = ∅) then requests (eng_scheduler en') = ∅ else work_left (eng_scheduler en') < work_left (eng_scheduler en).
Proof.
  intros Hh Hen Ht [Hp Ha] (_ & Har & Hready) Hrun H. destruct en as [s pz ab]. cbn in Hp, Ha, Ht |- *. subst pz ab. destruct Hen as [wl Hs]. cbn in Hs.
  unfold loop_turn, process_input_queue in *. cbn [foldM mbind result_bind eng_scheduler scheduler_paused negb andb] in *. rewrite andb_true_r in *.
  destruct (has_requests s) eqn:Er; cbn [negb mbind result_bind] in *.
  2:{ injection H as <- <-. pose proof (no_requests s wl Hs Er) as He. rewrite decide_True by done. done. }
  cbn [snd] in Har, Hready. specialize (Hrun _ eq_refl). unfold process_engine_step, step in H. cbn [scheduler_paused eng_scheduler aborts_queue] in H.
  rewrite Er, Har in H. cbn [negb app] in H.
  destruct (schedule_ok cfg hc (grammar_ready i) s wl Hcfg Hs) as (out & s1 & wl1 & E1 & Hs1 & _). rewrite E1 in H. cbn [mbind result_bind process_aborts_queue aborts_queue] in H.
  pose proof (schedule_keeps cfg _ s out s1 (state_keyed _ _ _ _ _ _ Hs) E1 (state_keyed _ _ _ _ _ _ Hs)) as [_ Hkeep].
  assert (Hmo : forall id r, id ∈ keys (so_num_scheduled_tokens out) -> requests s1 !! id = Some r ->
    exists g pooled, output_ok (so_spec_decode_tokens out) (runner i out) r g pooled) by (intros id r Hk Hr; by apply (Hrun out s1 id r)).
  destruct (update_from_output_ok cfg hc out (runner i out) s1 wl1 Hh Hs1 Hmo) as (outs3 & s3 & wl3 & E3 & Hs3 & Hfr & _).
  cbn [eng_scheduler] in H. rewrite E3 in H. cbn [mbind result_bind] in H. injection H as <- <-.
  destruct (post_alike i (0 <? so_total out) (with_scheduler s3 (mkEngine s1 false [])) (state_keyed _ _ _ _ _ _ Hs3) (conj eq_refl eq_refl)) as (Q & R & A).
  split; [exact Q|]. destruct (alike_work s3 _ R A) as [Hw Htx]. destruct (decide (requests s = ∅)) as [He|Hne].
  - assert (He3 : forall id, requests s3 !! id = None).
    { intros id. specialize (Hkeep id). rewrite He, lookup_empty in Hkeep. inversion Hkeep as [|E0 Er1]. rewrite Hfr; [done|by right]. }
    split; [apply Htx; intros id r; by rewrite He3|]. apply map_eq. intros id. specialize (A id). cbn [with_scheduler eng_scheduler] in A.
    rewrite He3 in A. rewrite lookup_empty. by inversion A.
  - destruct (step_works (grammar_ready i) s wl out s1 (runner i out) outs3 s3 Hready Hh Hs Ht Hne E1 Hmo E3) as [Hlt Ht3].
    split; [by apply Htx|]. by rewrite Hw.
Qed.

(** The work left bounds the number of turns. *)
Lemma loop_drains turns : hasher_ok (E := E) cfg hc -> Forall quiet_turn turns -> forall en outs en',
  engine_ok cfg hc en -> text_only (eng_scheduler en) -> quiet en -> run_ok cfg hc use_spec_decode pooling_supported turns en ->
  requests (eng_scheduler en) = ∅ \/ work_left (eng_scheduler en) <= Z.of_nat (length turns) ->
  run_busy_loop cfg use_spec_decode pooling_supported turns en = Ok (outs, en') -> requests (eng_scheduler en') = ∅.
Proof.
  intros Hh. induction 1 as [|[cs i] turns Hq _ IH]; intros en outs en' Hen Ht Hqu Hrun Hwork H.
  - injection H as <- <-. destruct Hwork as [|Hwork]; [done|]. destruct (decide (requests (eng_scheduler en) = ∅)) as [|Hne]; [done|].
    destruct Hen as [wl Hs]. pose proof (head_work_bound _ wl Hmax Hs) as Hb. unfold work_left in Hwork. cbn [length] in Hwork.
    assert (0 < Z.of_nat (size (requests (eng_scheduler en)))).
    { destruct (size (requests (eng_scheduler en))) eqn:Esz; [by apply map_size_empty_inv in Esz|lia]. }
    unfold most_work in *. nia.
  - assert (cs = []) as -> by apply Hq. destruct Hrun as (_ & Hst & Hrest). cbn [run_busy_loop] in H.
    destruct (turn_ok cfg hc use_spec_decode pooling_supported [] i en Hcfg Hh Hen Logic.I Hst) as (o1 & en1 & E1 & Hen1). rewrite E1 in H.
    destruct (turn_works i en o1 en1 Hh Hen Ht Hqu Hq Hst E1) as (Hq1 & Ht1 & Hw1). cbn [mbind result_bind] in H.
    destruct (run_busy_loop _ _ _ turns en1) as [[o2 en2]|] eqn:E2; [|done]. cbn [mbind result_bind] in H. injection H as <- <-.
    eapply (IH en1); try done; [by apply (Hrest o1)|]. destruct (decide _) as [He|Hne]; [by left|]. destruct Hwork as [|Hwork]; [done|]. right. cbn [length] in Hwork. lia.
Qed.
End Work.

(** * The engine as it is built *)

(** No aborts are left over between two turns. *)
Lemma turn_aborts {K E} `{KV : KVCacheOps K, EC : EncoderCacheOps E, EF : !EncoderCacheFree E} cfg usd ps cs i (en en' : engine K E) outs :
  aborts_queue en = [] -> loop_turn cfg usd ps cs i en = Ok (outs, en') -> aborts_queue en' = [].
Proof.
  assert (Hh : forall en en' c, aborts_queue en = [] -> handle_client_request ps en c = Ok en' -> aborts_queue en' = []).
  { intros a b c Ha H. destruct c; cbn [handle_client_request] in H; unfold engine_add_request, abort_requests in H; inv_get; try done.
    destruct (match sampling_params r with Some _ => _ | None => _ end); [done|]. by inv_get. }
  intros Ha H. unfold loop_turn, process_input_queue in H. inv_get.
  match goal with Hq : foldM _ _ _ = Ok ?x |- _ => assert (Hx : aborts_queue x = []);
    [revert en Ha Hq; induction cs as [|c cs IH]; intros en Ha Hq; cbn [foldM] in Hq; inv_get; [done|eapply IH; [|eassumption]; by eapply Hh]|] end.
  destruct (negb _ && _); [by inv_ok|]. unfold process_engine_step in H. inv_get.
  assert (He : aborts_queue e = []).
  { unfold step in *. destruct (scheduler_paused x0); [by inv_ok|]. destruct (negb _); [by inv_ok|]. inv_get. cbn.
    match goal with Hq : process_aborts_queue _ = Ok _ |- _ => unfold process_aborts_queue, abort_requests in Hq; cbn [aborts_queue] in Hq;
      destruct (aborts_queue x0 ++ arriving_aborts i) eqn:Ea; inv_get; done end. }
  unfold post_step. destruct (_ && _); [|done]. by destruct (drafts i).
Qed.

Lemma loop_aborts {K E} `{KV : KVCacheOps K, EC : EncoderCacheOps E, EF : !EncoderCacheFree E} cfg usd ps turns : forall (en en' : engine K E) outs,
  aborts_queue en = [] -> run_busy_loop cfg usd ps turns en = Ok (outs, en') -> aborts_queue en' = [].
Proof.
  induction turns as [|[cs i] turns IH]; intros en en' outs Ha H; cbn [run_busy_loop] in H; inv_get; [done|]. eapply IH; [|eassumption]. by eapply turn_aborts.
Qed.

Section Deployment.
Context (cfg : sched_config) (hc : Request -> Prop) (size_of : option string -> Z) (use_spec_decode : bool) (pooling_supported : sreq -> bool).
Context (k : kv_manager) (encoder_size : Z).
#[local] Existing Instance deployed_kv.
#[local] Existing Instance deployed_ec.

(** The turns within which the requests of an engine are finished: quadratic in the
    model's length for each of them. *)
Definition drain_bound (en : engine kv_manager EncoderCacheManager) : Z :=
  (Z.of_nat (size (requests (eng_scheduler en))) + 1) * ((cfg_max_model_len cfg + 1) * (cfg_max_model_len cfg + 1)).

(** C3: The engine finishes its work.  Take any engine the busy loop reaches, under
    first come, first served, with a pool that holds one request of the model's
    length; its requests may be waiting, running, preempted, being prefilled in
    chunks or drafting speculatively, but have no encoder inputs.  Once no client
    request arrives and every grammar is compiled, after the given number of turns no
    request is left, whatever the model answers. *)
Theorem engine_drains turns en :
  deployment cfg hc size_of k encoder_size -> live_config cfg -> enough (cfg_max_model_len cfg) k ->
  reached cfg hc size_of use_spec_decode pooling_supported k encoder_size en -> scheduler_paused en = false -> text_only (eng_scheduler en) ->
  Forall quiet_turn turns -> @run_ok _ _ _ _ _ (deployed_ec size_of) cfg hc use_spec_decode pooling_supported turns en ->
  drain_bound en <= Z.of_nat (length turns) ->
  exists outs en', run_busy_loop cfg use_spec_decode pooling_supported turns en = Ok (outs, en') /\ requests (eng_scheduler en') = ∅.
Proof.
  intros Hd Hlive Hen Hr Hp Ht Hq Hrun Hb. pose proof (reached_ok cfg hc size_of use_spec_decode pooling_supported k encoder_size en Hd Hr) as Hok.
  destruct (deployment_laws cfg hc size_of k encoder_size Hd) as (Hc & Hh & KL & EL). pose proof (dp_length _ _ _ _ _ Hd) as Hl.
  pose proof (kv_manager_room (cfg_max_model_len cfg) hc _ Hen Hl) as KR.
  destruct (loop_ok cfg hc use_spec_decode pooling_supported turns Hc Hh en Hok Hrun) as (outs & en' & E & _). exists outs, en'. split; [done|].
  assert (Hquiet : quiet en) by (split; [done|]; destruct Hr as (ts & os & _ & Er); by eapply loop_aborts in Er).
  eapply (loop_drains (KL := KL) (KR := KR) cfg hc Hc Hlive Hl use_spec_decode pooling_supported turns Hh Hq en); try done. right.
  destruct Hok as [wl Hs]. pose proof (head_work_bound cfg hc _ wl Hl Hs) as Hw. unfold work_left, most_work, drain_bound in *. nia.
Qed.
End Deployment.
