(* ===== verification/EngineExamples.v ===== *)
(** A concrete engine: prefix caching of one full-attention group, two text
    requests, one of which stops, and one image request. *)
From S2P Require Import Prelude Dict FreeQueue Request BlockHash BlockPool SingleType SingleTypeFacts KVManager KVManagerFacts KVSlots KVExamples EncoderCache EncoderSched RequestQueue Scheduler SchedulerFacts SchedulerStep SchedulerCalls SchedulerRequests SchedulerKV SchedulerEncoder SchedulerHash SchedulerProgress EngineCore EngineSafe EngineProgress.
Local Open Scope string_scope.
Local Open Scope list_scope.
Local Open Scope Z_scope.

Definition demo_cfg : sched_config :=
  mkCfg FCFS 2 16 32 0 true 0 false None 8 (mkSettings false false None) 0 None false false (Some (request_block_hasher encode_hash [0] 4)).
Definition demo_kv : kv_manager :=
  the no_kv (KVCacheManager.new_manager 12 [FullAttentionSpec 4] 32 4 true false false false false 1 1 false).

(** The prompt 1 .. [n], hashed. *)
Definition prompt (id : string) (n : nat) : Request :=
  let toks := Z.of_nat <$> seq 1 n in
  let r := mkRequest id WAITING 16 (Some toks) None (Z.of_nat n) [] toks [] 0 0 (-1) 0 None [] None false [] in
  the r (update_block_hashes (block_hasher demo_cfg) r).
Definition demo_req (id : string) (n : nat) (arrival : Z) : sreq :=
  mkSreq (prompt id n) (mkRef id 0 arrival) (Some (mkStop 0 false [])) (Some 99) None false.

(** A model that answers token 7 to every request. *)
Definition answer (tok : Z) (out : SchedulerOutput) : ModelRunnerOutput :=
  let ids := keys (so_num_scheduled_tokens out) in
  mkRunner (zip ids (seq 0 (length ids))) (replicate (length ids) [tok]) None.
Definition turn (tok : Z) : step_input := mkStep (fun _ => true) (answer tok) [] None (fun _ => None).

Definition demo_turns : list (list client_request * step_input) :=
  [([ADD (demo_req "a" 9 0)], turn 7); ([ADD (demo_req "b" 9 1)], turn 8)].
Definition demo_run := run_busy_loop demo_cfg false (fun _ => false) demo_turns (deployed demo_cfg demo_kv 8).

(** The second request reuses eight tokens of the first one. *)
Example demo_outputs :
  match demo_run with
  | Ok (outs, en) => ((fun o => (eo_request_id o, eo_new_token_ids o, eo_num_cached_tokens o)) <$> outs, ref_id <$> running (eng_scheduler en))
  | Err _ => ([], [])
  end = ([("a", [7], 0); ("a", [8], 0); ("b", [8], 8)], ["a"; "b"]).
Proof. vm_compute. reflexivity. Qed.

Abbreviation demo_hc := (hashes_ok encode_hash [0] 4).

Lemma demo_deployment : deployment demo_cfg demo_hc EncoderExamples.size_of demo_kv 8.
Proof.
  split; [split; cbn; first [lia|done]|by cbn| | |done|lia].
  - eapply (setup_cached _ encode_hash [0] 12 (FullAttentionSpec 4) 4 false false false false 1 1 false); try done.
    + apply encode_hash_inj.
    + intros x. apply pos_bytes_nonempty.
    + intros x. apply pos_bytes_not_zero.
    + split; [|vm_compute; intuition congruence]. by apply Forall_singleton.
  - apply EncoderExamples.size_of_nonneg.
Qed.

Lemma prompt_ok id n arrival : (1 <= n < 32)%nat ->
  @new_req_ok _ (deployed_ec EncoderExamples.size_of) demo_cfg demo_hc (demo_req id n arrival).
Proof.
  intros Hn. unfold demo_req, prompt. set (r := mkRequest id _ _ _ _ _ _ _ _ _ _ _ _ _ _ _ _ _).
  destruct (first_hashes encode_hash [0] 4 ltac:(lia) encode_hash_inj (fun x => pos_bytes_nonempty (encode x)) (fun x => pos_bytes_not_zero (encode x)) r) as (hs & E & Hh); [done|by intros f ?%elem_of_nil|].
  unfold update_block_hashes. cbn [block_hasher demo_cfg]. rewrite E. cbn [mbind result_bind the].
  split; [split|by left|done]; cbn; try done.
  - split; [by intros f ?%elem_of_nil|constructor].
  - unfold num_tokens, py_len. cbn. rewrite length_fmap, length_seq. lia.
  - intros sp [= <-]. unfold num_tokens, num_output_tokens, py_len. cbn. rewrite length_fmap, length_seq. lia.
Qed.


Lemma demo_run_ok : @run_ok _ _ _ _ _ (deployed_ec EncoderExamples.size_of) demo_cfg demo_hc false (fun _ => false) demo_turns (deployed demo_cfg demo_kv 8).
Proof.
  apply run_okb_ok.
  - repeat (apply Forall_cons; split); try apply Forall_nil_2; (split; [apply prompt_ok; lia|done]).
  - vm_compute. reflexivity.
Qed.

Definition demo_engine : engine kv_manager EncoderCacheManager := snd (the ([], deployed demo_cfg demo_kv 8) demo_run).

Lemma the_pair {A B} (d : A * B) (r : result (A * B)) : match r with Ok _ => true | Err _ => false end = true -> r = Ok (fst (the d r), snd (the d r)).
Proof. by destruct r as [[a b]|]. Qed.

Lemma demo_reached : reached demo_cfg demo_hc EncoderExamples.size_of false (fun _ => false) demo_kv 8 demo_engine.
Proof.
  exists demo_turns, (fst (the ([], deployed demo_cfg demo_kv 8) demo_run)). split; [apply demo_run_ok|].
  refine (the_pair ([], deployed demo_cfg demo_kv 8) demo_run _). vm_compute. reflexivity.
Qed.

(** ** Witnesses *)
Lemma busy_loop_safe_witness :
  exists outs en, run_busy_loop demo_cfg false (fun _ => false) demo_turns (deployed demo_cfg demo_kv 8) = Ok (outs, en) /\
    @engine_ok _ _ (deployed_kv demo_cfg demo_hc demo_kv) (deployed_ec EncoderExamples.size_of) demo_cfg demo_hc en.
Proof.
  apply (busy_loop_safe demo_cfg demo_hc EncoderExamples.size_of false (fun _ => false) demo_kv 8 demo_turns); [apply demo_deployment|apply demo_run_ok].
Defined.

(** The next step: request a gets its end-of-sequence token, request b is aborted
    while the model runs. *)
Definition last_step : step_input := mkStep (fun _ => true) (answer 99) [["b"]] None (fun _ => None).

Example last_step_outputs :
  match step demo_cfg last_step demo_engine with
  | Ok (outs, b, en) => ((fun o => (eo_request_id o, eo_new_token_ids o, eo_finish_reason o)) <$> outs, b, size (requests (eng_scheduler en)))
  | Err _ => ([], false, 9%nat)
  end = ([("a", [99], Some STOP)], true, 0%nat).
Proof. vm_compute. reflexivity. Qed.

Lemma engine_step_correct_witness :
  exists out s outs en', schedule demo_cfg (grammar_ready last_step) (eng_scheduler demo_engine) = Ok (out, s) /\
    step demo_cfg last_step demo_engine = Ok (outs, 0 <? so_total out, en') /\
    (forall r, requests (eng_scheduler demo_engine) !! ref_id (ref_of r) = Some r ->
       step_outcome demo_cfg last_step (concat (aborts_queue demo_engine ++ arriving_aborts last_step)) out r outs (eng_scheduler en')) /\
    (forall id, requests (eng_scheduler demo_engine) !! id = None -> requests (eng_scheduler en') !! id = None).
Proof.
  apply (engine_step_correct demo_cfg demo_hc EncoderExamples.size_of false (fun _ => false) demo_kv 8 last_step demo_engine).
  - apply demo_deployment.
  - apply demo_reached.
  - apply runner_okb_ok. vm_compute. reflexivity.
  - vm_compute. reflexivity.
  - vm_compute. reflexivity.
Defined.

Lemma schedule_bounds_witness :
  exists out s, schedule demo_cfg (fun _ => true) (eng_scheduler demo_engine) = Ok (out, s) /\
    so_total out = sumZ ((so_num_scheduled_tokens out).*2) /\ so_total out <= 16 /\ py_len (running s) <= 2 /\
    forall id n, (id, n) ∈ so_num_scheduled_tokens out -> 1 <= n /\
      exists r, requests s !! id = Some r /\ status (base r) = RUNNING /\ ref_of r ∈ running s /\
        forall m, m ∈ kv_groups (kv s) -> num_computed_tokens (base r) <= py_len (blocks_of id m) * block_size m.
Proof.
  apply (schedule_bounds demo_cfg demo_hc EncoderExamples.size_of false (fun _ => false) demo_kv 8 (fun _ => true) demo_engine);
    [apply demo_deployment|apply demo_reached].
Defined.

(** Both requests of the engine finish without further input: the model answers
    the end-of-sequence token. *)
Definition drain_turns : list (list client_request * step_input) := replicate 3267 ([], turn 99).

Lemma engine_drains_witness :
  exists outs en, run_busy_loop demo_cfg false (fun _ => false) drain_turns demo_engine = Ok (outs, en) /\ requests (eng_scheduler en) = ∅.
Proof.
  apply (engine_drains demo_cfg demo_hc EncoderExamples.size_of false (fun _ => false) demo_kv 8 drain_turns demo_engine).
  - apply demo_deployment.
  - split; cbn; first [done|lia|by left].
  - vm_compute. intros [=].
  - apply demo_reached.
  - vm_compute. reflexivity.
  - intros id r Er. assert (Hm : map_Forall (fun _ r => mm_features (base r) = []) (requests (eng_scheduler demo_engine))); [|exact (Hm id r Er)].
    apply map_Forall_to_list. vm_compute. repeat constructor.
  - apply Forall_replicate. done.
  - apply run_okb_ok; [apply Forall_replicate; constructor|]. vm_compute. reflexivity.
  - vm_compute. intros [=].
Defined.
