(* ===== verification/SchedulerLimits.v ===== *)
(** Two limits of the scheduler that its guards miss: a request whose [min_tokens]
    reaches past the model's length, and LoRA adapters of running requests that are
    passed over in a step. *)
From S2P Require Import Prelude Dict FreeQueue Request BlockHash BlockPool SingleType KVManager KVExamples EncoderCache EncoderSched RequestQueue Scheduler EngineCore.
Local Open Scope string_scope.
Local Open Scope list_scope.
Local Open Scope Z_scope.

(** A running text request whose tokens fill the model's length, all but the last
    computed, while [min_tokens] asks for more. *)
Record at_limit (cfg : sched_config) (r : sreq) : Prop := {
  al_min : exists sp, sampling_params r = Some sp /\ num_output_tokens (base r) < min_tokens sp;
  al_full : num_tokens (base r) = cfg_max_model_len cfg;
  al_computed : num_computed_tokens (base r) = num_tokens (base r) - 1;
  al_placeholders : num_output_placeholders (base r) = 0;
  al_text : mm_features (base r) = [];
}.

Section Limits.
Context {K E : Type} `{KV : KVCacheOps K} `{EC : EncoderCacheOps E} `{EF : EncoderCacheFree E}.

(** A running request with more [min_tokens] than the model's length leaves room for:
    when its tokens fill the model's length the stop test still answers no, because
    it tests [min_tokens] first, and while it stays so every pass of the loop over the
    running requests passes it over, so that it keeps its place and its blocks and
    gets no tokens.  (A preemption resets its computed tokens and ends this state.) *)
Lemma min_tokens_passed_over (cfg : sched_config) (r : sreq) :
  at_limit cfg r -> mamba_split cfg = None ->
  check_stop (cfg_max_model_len cfg) r = Ok (false, r) /\
  forall fuel (s : scheduler K E) l ref, running s !! req_index l = Some ref -> requests s !! ref_id ref = Some r -> 0 < token_budget l ->
    running_loop cfg (S fuel) s l = running_loop cfg fuel s (next_index l).
Proof.
  intros [(sp & Hsp & Hmin) Hfull Hc Hp Hmm] Hsplit. split.
  - unfold check_stop. rewrite Hsp. cbn [of_option mbind result_bind]. by rewrite (proj2 (Z.ltb_lt _ _) Hmin).
  - intros fuel s l ref Hr Er Hb. cbn [running_loop]. rewrite Hr, (proj2 (Z.leb_gt _ _) Hb). unfold get_req. rewrite Er. cbn [of_option mbind result_bind].
    rewrite Hp. cbn [Z.ltb Z.compare andb]. unfold plan_encoder, has_encoder_inputs, num_encoder_inputs. rewrite Hmm. cbn [py_len length Z.of_nat Z.ltb Z.compare mbind result_bind].
    assert (E0 : running_tokens cfg (base r) (token_budget l) = 0).
    { unfold running_tokens, num_tokens_with_spec, py_len. rewrite Hp. unfold num_tokens, py_len in *.
      set (n := _ + _ - _). assert (0 <= n) by lia. destruct (_ && _) eqn:Et; [|lia].
      apply andb_true_iff in Et as [Et%Z.ltb_lt _]. lia. }
    rewrite E0. unfold mamba_block_aligned_split. rewrite Hsplit. cbn. by destruct s.
Qed.
End Limits.

(** * Concrete runs *)
Definition limit_cfg (max_loras : option Z) : sched_config :=
  mkCfg FCFS 4 16 32 8 true 0 false max_loras 4 (mkSettings false false None) 0 None false false None.
Definition limit_kv : kv_manager :=
  the no_kv (KVCacheManager.new_manager 32 [FullAttentionSpec 4] 32 4 false false false false false 1 1 false).

(** A request over [n] tokens with [out] output tokens. *)
Definition limit_req (id : string) (n out : nat) (computed : Z) (fs : list MultiModalFeatureSpec) (lora : option LoRARequest) (min : Z) (st : RequestStatus) : sreq :=
  let toks := Z.of_nat <$> seq 1 n in
  mkSreq (mkRequest id st 64 (Some (take (n - out) toks)) None (Z.of_nat (n - out)) (drop (n - out) toks) toks [] 0 computed (-1) 0 None fs lora false [])
    (mkRef id 0 0) (Some (mkStop min false [])) None None false.

(** Prompt of 30 tokens, [min_tokens] 5, in a model of length 32. *)
Example min_tokens_passed_over_run :
  let r := limit_req "a" 32 2 31 [] None 5 RUNNING in
  check_stop 32 r = Ok (false, r) /\
  forall fuel (s : scheduler kv_manager EncoderCacheManager) l ref, running s !! req_index l = Some ref -> requests s !! ref_id ref = Some r -> 0 < token_budget l ->
    running_loop (limit_cfg None) (S fuel) s l = running_loop (limit_cfg None) fuel s (next_index l).
Proof.
  apply (min_tokens_passed_over (limit_cfg None) (limit_req "a" 32 2 31 [] None 5 RUNNING)); [|vm_compute; reflexivity].
  split; [exists (mkStop 5 false []); split|..]; vm_compute; reflexivity.
Qed.

(** A request that is still producing its second image, one that waits for the
    encoder and one that comes in between; the last two use different adapters. *)
Definition image_req : sreq := limit_req "r" 20 0 0 [EncoderExamples.feat "x" 0 4; EncoderExamples.feat "y" 12 4] None 0 WAITING.
Definition lora_req : sreq := limit_req "a" 8 0 0 [EncoderExamples.feat "z" 2 4] (Some (mkLoRA "one" 1)) 0 WAITING.
Definition late_req : sreq := limit_req "b" 4 0 0 [] (Some (mkLoRA "two" 2)) 0 WAITING.

(** A model that answers a token to the requests that have computed their prompt. *)
Definition limit_answer (prompts : dict Z) (out : SchedulerOutput) : ModelRunnerOutput :=
  let ids := keys (so_num_scheduled_tokens out) in
  mkRunner (zip ids (seq 0 (length ids))) ((fun id => if bool_decide (id ∈ keys prompts) then [7] else []) <$> ids) None.
Definition limit_turn (prompts : dict Z) : step_input := mkStep (fun _ => true) (limit_answer prompts) [] None (fun _ => None).
Definition lora_turns : list (list client_request * step_input) :=
  [([ADD image_req; ADD lora_req], limit_turn []); ([ADD late_req], limit_turn [("b", 1)]); ([], limit_turn [])].
Definition limit_run (max_loras : option Z) (turns : list (list client_request * step_input)) :=
  run_busy_loop (limit_cfg max_loras) false (fun _ => false) turns (new_engine (limit_cfg max_loras) limit_kv (ecm_init 8)).

(** The limit on LoRA adapters is tested against the running requests that were
    scheduled in the step, not against all of them: while a running request with an
    adapter is passed over (its encoder input does not fit in the budget of the
    step), a waiting request with another adapter is admitted, although one adapter
    is allowed; in the next step both are scheduled and the assertion on the number
    of adapters stops the engine.  Without the limit the same run goes on. *)
Example lora_limit_crashes :
  match limit_run (Some 1) (take 2 lora_turns) with
  | Ok (_, en) => ref_id <$> running (eng_scheduler en) = ["r"; "a"; "b"]
  | Err _ => False
  end /\
  limit_run (Some 1) lora_turns = Err AssertionError /\
  match limit_run None lora_turns with Ok _ => True | Err _ => False end.
Proof. vm_compute. done. Qed.
