(* ===== verification/OffloadConnector.v ===== *)
(** The scheduler's side of the offloading connector
    ([OffloadingConnectorScheduler] in
    [src/vllm/distributed/kv_transfer/kv_connector/v1/offloading_connector.py]), over any
    offloading manager.  The request objects it keeps are the scheduler's: the connector
    holds their ids, and what it reads of them is looked up in the scheduler's map. *)
From S2P Require Import Prelude Dict Request Scheduler Offload LRUOffload ARCOffload.
Local Open Scope Z_scope.

(** [itertools.islice(l, start, stop, step)]. *)
Definition islice {A} (l : list A) (start : Z) (stop : option Z) (step : Z) : list A :=
  let stop := match stop with Some s => Z.min s (py_len l) | None => py_len l end in
  omap (fun k => l !! Z.to_nat (start + k * step)) (seqZ 0 (cdiv (stop - start) step)).

(** Python sets of hashes; the order they are iterated in is not specified, here it is the
    order of insertion. *)
Definition set_add (s : list bytes) (h : bytes) : list bytes := if decide (h ∈ s) then s else s ++ [h].
Definition set_update (s hs : list bytes) : list bytes := fold_left set_add hs s.
Definition set_difference (s hs : list bytes) : list bytes := filter (fun h => h ∉ hs) s.

Definition TransferSpec := (LoadStoreSpec * LoadStoreSpec)%type.

(** [OffloadingConnectorMetadata]. *)
Record connector_meta := mkMeta { reqs_to_load : dict TransferSpec; reqs_to_store : dict TransferSpec }.

Section Connector.
Context {M : Type} `{OffloadingManager M}.

Record connector := mkConn {
  gpu_block_size : Z;
  offloaded_block_size : Z;
  block_size_factor : Z;
  manager : M;
  (** the keys of [_requests] *)
  cn_requests : list string;
  request_block_ids : dict (list Z);
  cn_reqs_to_load : dict TransferSpec;
  next_stored_block_idx : dict Z;
  (** [None] without prefix caching on the device *)
  blocks_being_loaded : option (list bytes);
  reqs_being_stored : dict (list bytes);
  reqs_being_loaded : dict (list bytes);
}.

Definition new_connector (gpu_block_size offloaded_block_size : Z) (m : M) (enable_prefix_caching : bool) : connector :=
  mkConn gpu_block_size offloaded_block_size (offloaded_block_size / gpu_block_size) m [] [] [] []
    (if enable_prefix_caching then Some [] else None) [] [].

Definition set_manager (m : M) (c : connector) : connector :=
  mkConn (gpu_block_size c) (offloaded_block_size c) (block_size_factor c) m (cn_requests c) (request_block_ids c)
    (cn_reqs_to_load c) (next_stored_block_idx c) (blocks_being_loaded c) (reqs_being_stored c) (reqs_being_loaded c).
Definition set_cn_requests (l : list string) (c : connector) : connector :=
  mkConn (gpu_block_size c) (offloaded_block_size c) (block_size_factor c) (manager c) l (request_block_ids c)
    (cn_reqs_to_load c) (next_stored_block_idx c) (blocks_being_loaded c) (reqs_being_stored c) (reqs_being_loaded c).
Definition set_block_ids (d : dict (list Z)) (c : connector) : connector :=
  mkConn (gpu_block_size c) (offloaded_block_size c) (block_size_factor c) (manager c) (cn_requests c) d
    (cn_reqs_to_load c) (next_stored_block_idx c) (blocks_being_loaded c) (reqs_being_stored c) (reqs_being_loaded c).
Definition set_reqs_to_load (d : dict TransferSpec) (c : connector) : connector :=
  mkConn (gpu_block_size c) (offloaded_block_size c) (block_size_factor c) (manager c) (cn_requests c) (request_block_ids c)
    d (next_stored_block_idx c) (blocks_being_loaded c) (reqs_being_stored c) (reqs_being_loaded c).
Definition set_next_stored (d : dict Z) (c : connector) : connector :=
  mkConn (gpu_block_size c) (offloaded_block_size c) (block_size_factor c) (manager c) (cn_requests c) (request_block_ids c)
    (cn_reqs_to_load c) d (blocks_being_loaded c) (reqs_being_stored c) (reqs_being_loaded c).
Definition set_blocks_being_loaded (s : option (list bytes)) (c : connector) : connector :=
  mkConn (gpu_block_size c) (offloaded_block_size c) (block_size_factor c) (manager c) (cn_requests c) (request_block_ids c)
    (cn_reqs_to_load c) (next_stored_block_idx c) s (reqs_being_stored c) (reqs_being_loaded c).
Definition set_being_stored (d : dict (list bytes)) (c : connector) : connector :=
  mkConn (gpu_block_size c) (offloaded_block_size c) (block_size_factor c) (manager c) (cn_requests c) (request_block_ids c)
    (cn_reqs_to_load c) (next_stored_block_idx c) (blocks_being_loaded c) d (reqs_being_loaded c).
Definition set_being_loaded (d : dict (list bytes)) (c : connector) : connector :=
  mkConn (gpu_block_size c) (offloaded_block_size c) (block_size_factor c) (manager c) (cn_requests c) (request_block_ids c)
    (cn_reqs_to_load c) (next_stored_block_idx c) (blocks_being_loaded c) (reqs_being_stored c) d.

(** [_get_block_hashes]; an end of 0 is no end. *)
Definition get_block_hashes (c : connector) (r : Request) (start_idx : Z) (end_idx : option Z) : list bytes :=
  let f := block_size_factor c in
  islice (block_hashes r) (f * start_idx + f - 1)
    (match end_idx with Some e => if e =? 0 then None else Some (f * e) | None => None end) f.

Definition get_num_new_matched_tokens (r : Request) (num_computed_tokens : Z) (c : connector) :
    result (option Z * bool * connector) :=
  let num_blocks := num_tokens r / offloaded_block_size c in
  _ ← py_assert (py_len (block_hashes r) / block_size_factor c =? num_blocks);
  m ← om_touch (get_block_hashes c r 0 None) (manager c);
  let c := set_manager m c in
  let full_block_tokens := offloaded_block_size c * num_blocks in
  if full_block_tokens - num_computed_tokens <? offloaded_block_size c then Ok (Some 0, false, c)
  else
    let start_block_idx := num_computed_tokens / offloaded_block_size c in
    match om_lookup (get_block_hashes c r start_block_idx None) (manager c) with
    | None => Ok (None, false, c)
    | Some hits =>
        if hits =? 0 then Ok (Some 0, false, c)
        else
          let num_hit_tokens := offloaded_block_size c * (start_block_idx + hits) - num_computed_tokens in
          if num_hit_tokens <? offloaded_block_size c then Ok (Some 0, false, c)
          else
            let hit_hashes := get_block_hashes c r start_block_idx (Some (start_block_idx + hits)) in
            match blocks_being_loaded c with
            | Some (h :: hs) =>
                if existsb (fun x => bool_decide (x ∈ h :: hs)) hit_hashes then Ok (None, false, c)
                else Ok (Some num_hit_tokens, true, c)
            | _ => Ok (Some num_hit_tokens, true, c)
            end
    end.

(** [update_state_after_alloc]; [blocks] are the ids and hashes of the blocks of the first
    cache group. *)
Definition update_state_after_alloc (r : Request) (blocks : list (Z * option bytes)) (num_external_tokens : Z) (c : connector) :
    result connector :=
  let rid := request_id r in
  let c := set_cn_requests (if decide (rid ∈ cn_requests c) then cn_requests c else cn_requests c ++ [rid]) c in
  let c := set_block_ids (dict_set rid [] (request_block_ids c)) c in
  if num_external_tokens =? 0 then Ok c
  else
    let block_ids := blocks.*1 in
    let num_computed_gpu_blocks := py_len (filter (fun b => b.2 <> None) blocks) in
    let num_computed_tokens := num_computed_gpu_blocks * gpu_block_size c in
    let full_block_tokens := num_computed_tokens + num_external_tokens in
    _ ← py_assert (full_block_tokens mod offloaded_block_size c =? 0);
    let num_pending_gpu_blocks := py_len block_ids - num_computed_gpu_blocks in
    _ ← py_assert (num_external_tokens =? num_pending_gpu_blocks * gpu_block_size c);
    let start_block_idx := num_computed_tokens / offloaded_block_size c in
    let num_blocks := full_block_tokens / offloaded_block_size c in
    _ ← py_assert (num_blocks <=? py_len (block_hashes r) / block_size_factor c);
    let hashes := get_block_hashes c r start_block_idx (Some num_blocks) in
    '(src_spec, m) ← om_prepare_load hashes (manager c);
    let c := set_manager m c in
    let dst_spec := GPULoadStoreSpec (py_slice block_ids num_computed_gpu_blocks (py_len block_ids)) in
    let c := set_reqs_to_load (dict_set rid (src_spec, dst_spec) (cn_reqs_to_load c)) c in
    let being_loaded := set_update (default [] (dict_get rid (reqs_being_loaded c))) hashes in
    let c := set_being_loaded (dict_set rid being_loaded (reqs_being_loaded c)) c in
    let c := set_next_stored (dict_set rid num_blocks (next_stored_block_idx c)) c in
    Ok (set_blocks_being_loaded ((fun s => set_update s being_loaded) <$> blocks_being_loaded c) c).

(** [yield_req_data] of [kv_connector/utils.py]. *)
Definition yield_req_data (so : SchedulerOutput) : list (string * option (list (list Z)) * bool) :=
  ((fun n => (nd_req_id n, Some (nd_block_ids n), false)) <$> so_new_reqs so) ++
  zip_with (fun rid ids => (rid, ids, bool_decide (rid ∈ cd_resumed_req_ids (so_cached_reqs so))))
    (cd_req_ids (so_cached_reqs so)) (cd_new_block_ids (so_cached_reqs so)).

(** The GPU blocks of the hashes to store: the loop over [enumerate(new_block_hashes)]. *)
Definition source_blocks (f start_block_idx : Z) (block_ids : list Z) (to_store : list bytes) (src : list Z) (x : nat * bytes) : result (list Z) :=
  let '(idx, blk_hash) := x in
  if decide (blk_hash ∈ to_store) then
    let gpu_block_idx := (start_block_idx + Z.of_nat idx) * f in
    foldM (fun src i => b ← py_index block_ids (gpu_block_idx + i); Ok (src ++ [b])) (py_range 0 f) src
  else Ok src.

(** One request of [_get_reqs_to_store]: the parts before and after [prepare_store]. *)
Definition store_blocks (r : Request) (block_ids : list Z) (start_block_idx num_blocks : Z) (to_store : dict TransferSpec) (c : connector) :
    result (dict TransferSpec * connector) :=
  let rid := request_id r in
  let new_block_hashes := get_block_hashes c r start_block_idx (Some num_blocks) in
  '(store_output, m) ← om_prepare_store new_block_hashes (manager c);
  let c := set_manager m c in
  match store_output with
  | None => Ok (to_store, c)
  | Some out =>
      let c := set_next_stored (dict_set rid num_blocks (next_stored_block_idx c)) c in
      match block_hashes_to_store out with
      | [] => Ok (to_store, c)
      | hs =>
          m ← om_touch (get_block_hashes c r 0 (Some num_blocks)) (manager c);
          let c := set_manager m c in
          src ← foldM (source_blocks (block_size_factor c) start_block_idx block_ids hs) (imap pair new_block_hashes) [];
          let to_store := dict_set rid (GPULoadStoreSpec src, store_spec out) to_store in
          let being_stored := set_update (default [] (dict_get rid (reqs_being_stored c))) hs in
          Ok (to_store, set_being_stored (dict_set rid being_stored (reqs_being_stored c)) c)
      end
  end.

Definition store_request (heap : gmap string sreq) (so : SchedulerOutput) (s : dict TransferSpec * connector)
    (x : string * option (list (list Z)) * bool) : result (dict TransferSpec * connector) :=
  let '(to_store, c) := s in
  let '(rid, new_block_id_groups, preempted) := x in
  let c := if preempted : bool then set_block_ids (dict_set rid [] (request_block_ids c)) c else c in
  c ← (match new_block_id_groups with
       | Some (new_block_ids :: _) =>
           ids ← of_option KeyError (dict_get rid (request_block_ids c));
           Ok (set_block_ids (dict_set rid (ids ++ new_block_ids) (request_block_ids c)) c)
       | _ => Ok c
       end);
  block_ids ← of_option KeyError (dict_get rid (request_block_ids c));
  _ ← (if decide (rid ∈ cn_requests c) then Ok tt else Err KeyError);
  r ← of_option KeyError (base <$> heap !! rid);
  new_tokens ← of_option KeyError (dict_get rid (so_num_scheduled_tokens so));
  let total_tokens := num_computed_tokens r + new_tokens in
  let num_blocks := total_tokens / offloaded_block_size c in
  let start_block_idx := default 0 (dict_get rid (next_stored_block_idx c)) in
  if num_blocks - start_block_idx <=? 0 then Ok (to_store, c)
  else store_blocks r block_ids start_block_idx num_blocks to_store c.

Definition get_reqs_to_store (heap : gmap string sreq) (so : SchedulerOutput) (c : connector) : result (dict TransferSpec * connector) :=
  foldM (store_request heap so) (yield_req_data so) ([], c).

Definition complete_preempted (c : connector) (rid : string) : result connector :=
  match dict_get rid (reqs_being_stored c) with
  | Some (h :: hs) =>
      m ← om_complete_store (h :: hs) true (manager c);
      Ok (set_being_stored (dict_set rid [] (reqs_being_stored c)) (set_manager m c))
  | _ => Ok c
  end.

Definition build_connector_meta (heap : gmap string sreq) (so : SchedulerOutput) (c : connector) : result (connector_meta * connector) :=
  let to_load := cn_reqs_to_load c in
  '(to_store, c) ← get_reqs_to_store heap so c;
  let c := set_reqs_to_load [] c in
  c ← foldM complete_preempted (so_preempted so) c;
  Ok (mkMeta to_load to_store, c).

(** The two loops of [update_connector_output]. *)
Definition finish_sending (c : connector) (rid : string) : result connector :=
  let hashes := dict_get rid (reqs_being_stored c) in
  let c := set_being_stored (dict_del rid (reqs_being_stored c)) c in
  match hashes with
  | Some (h :: hs) => m ← om_complete_store (h :: hs) true (manager c); Ok (set_manager m c)
  | _ => Ok c
  end.
Definition finish_recving (c : connector) (rid : string) : result connector :=
  let hashes := dict_get rid (reqs_being_loaded c) in
  let c := set_being_loaded (dict_del rid (reqs_being_loaded c)) c in
  match hashes with
  | Some (h :: hs) =>
      let c := set_blocks_being_loaded
        (match blocks_being_loaded c with Some (x :: xs) => Some (set_difference (x :: xs) (h :: hs)) | o => o end) c in
      m ← om_complete_load (h :: hs) (manager c); Ok (set_manager m c)
  | _ => Ok c
  end.
Definition update_connector_output (finished_sending finished_recving : list string) (c : connector) : result connector :=
  c ← foldM finish_sending finished_sending c;
  foldM finish_recving finished_recving c.

Definition cn_request_finished (r : Request) (c : connector) : bool * connector :=
  let rid := request_id r in
  let c := set_cn_requests (filter (fun x => x <> rid) (cn_requests c)) c in
  let c := set_block_ids (dict_del rid (request_block_ids c)) c in
  let c := set_next_stored (dict_del rid (next_stored_block_idx c)) c in
  (match dict_get rid (reqs_being_stored c) with Some _ => true | None => false end, c).
End Connector.
Arguments connector : clear implicits.

Lemma elem_of_set_add s h x : x ∈ set_add s h <-> x ∈ s \/ x = h.
Proof. unfold set_add. case_decide; [|set_solver]. split; [by left|by intros [?| ->]]. Qed.

Lemma elem_of_set_update s hs x : x ∈ set_update s hs <-> x ∈ s \/ x ∈ hs.
Proof. revert s. induction hs as [|h hs IH]; intros s; cbn; [set_solver|]. unfold set_update in IH. rewrite IH, elem_of_set_add. set_solver. Qed.

(** * Hashes of offloaded blocks *)

(** The hash of offloaded block [i]: that of its last block on the device. *)
Definition block_hash_at (f : Z) (hs : list bytes) (i : Z) : bytes := hs !!! Z.to_nat (f * i + f - 1).

Lemma omap_total {A B} (f : A -> option B) (g : A -> B) (l : list A) : (forall x, x ∈ l -> f x = Some (g x)) -> omap f l = g <$> l.
Proof.
  induction l as [|x l IH]; intros Hf; [done|]. cbn. rewrite Hf by left. rewrite IH; [done|]. intros y Hy. apply Hf. by right.
Qed.

Lemma islice_blocks f (hs : list bytes) s e stop :
  0 < f -> 0 <= s <= e -> f * e <= py_len hs ->
  (stop = Some (f * e) \/ (stop = None /\ e = py_len hs / f)) ->
  islice hs (f * s + f - 1) stop f = block_hash_at f hs <$> seqZ s (e - s).
Proof.
  intros Hf Hs He Hstop. unfold islice. set (st := match stop with Some _ => _ | None => _ end).
  assert (Hn : cdiv (st - (f * s + f - 1)) f = e - s).
  { rewrite cdiv_spec by done. destruct Hstop as [-> | [-> ->]]; subst st; cbn.
    - rewrite Z.min_l by done. replace (f * e - (f * s + f - 1) + f - 1) with ((e - s) * f) by lia. by apply Z.div_mul; lia.
    - replace (py_len hs - (f * s + f - 1) + f - 1) with (py_len hs + - s * f) by lia. rewrite Z.div_add by lia. lia. }
  rewrite Hn. rewrite (omap_total _ (fun k => block_hash_at f hs (s + k))).
  - apply list_eq. intros i. rewrite !list_lookup_fmap. destruct (decide (Z.of_nat i < e - s)) as [Hi|Hi].
    + rewrite !(proj2 (lookup_seqZ _ _ _ _)) by (split; [reflexivity|lia]). done.
    + by rewrite !lookup_seqZ_ge by lia.
  - intros k [Hk1 Hk2]%elem_of_seqZ. unfold block_hash_at. replace (f * s + f - 1 + k * f) with (f * (s + k) + f - 1) by lia.
    apply list_lookup_lookup_total_lt. unfold py_len in He. nia.
Qed.

Lemma block_hash_at_inj f hs i j :
  0 < f -> NoDup hs -> 0 <= i -> 0 <= j -> f * (i + 1) <= py_len hs -> f * (j + 1) <= py_len hs ->
  block_hash_at f hs i = block_hash_at f hs j -> i = j.
Proof.
  intros Hf Hnd Hi Hj Hli Hlj E. unfold block_hash_at, py_len in *.
  assert (Hlt : forall k, 0 <= k -> f * (k + 1) <= Z.of_nat (length hs) -> (Z.to_nat (f * k + f - 1) < length hs)%nat) by (intros; nia).
  assert (Z.to_nat (f * i + f - 1) = Z.to_nat (f * j + f - 1)) as Eij; [|nia].
  eapply NoDup_lookup; [exact Hnd|apply list_lookup_lookup_total_lt, Hlt; done|].
  rewrite E. apply list_lookup_lookup_total_lt, Hlt; done.
Qed.

Lemma block_hashes_nodup f hs s n :
  0 < f -> NoDup hs -> 0 <= s -> f * (s + n) <= py_len hs -> NoDup (block_hash_at f hs <$> seqZ s n).
Proof.
  intros Hf Hnd Hs Hl. apply NoDup_fmap_2_strong; [|apply NoDup_seqZ]. intros i j Hi%elem_of_seqZ Hj%elem_of_seqZ.
  apply block_hash_at_inj; [done|done|lia|lia|nia|nia].
Qed.

(** The blocks on the device that make up offloaded block [i]. *)
Definition gpu_blocks_of (f : Z) (block_ids : list Z) (i : Z) : list Z := (fun j => block_ids !!! Z.to_nat (f * i + j)) <$> seqZ 0 f.

Lemma py_index_total (l : list Z) i : 0 <= i < py_len l -> py_index l i = Ok (l !!! Z.to_nat i).
Proof.
  intros Hi. rewrite py_index_nonneg by lia. unfold py_len in Hi.
  assert (Hl : l !! Z.to_nat i = Some (l !!! Z.to_nat i)) by (apply list_lookup_lookup_total_lt; lia). by rewrite Hl.
Qed.

Lemma source_block_loop f i block_ids src :
  0 < f -> 0 <= i -> f * (i + 1) <= py_len block_ids ->
  foldM (fun src j => b ← py_index block_ids (i * f + j); Ok (src ++ [b])) (py_range 0 f) src = Ok (src ++ gpu_blocks_of f block_ids i).
Proof.
  intros Hf Hi Hl. unfold py_range, gpu_blocks_of. rewrite Z.sub_0_r.
  destruct (foldM_inv (fun src j => b ← py_index block_ids (i * f + j); Ok (src ++ [b]))
    (fun pre s => s = src ++ ((fun j => block_ids !!! Z.to_nat (f * i + j)) <$> pre)) (seqZ 0 f) src) as (s & E & ->).
  - by rewrite app_nil_r.
  - intros pre j post s Ej ->. assert (Hj : 0 <= j < f) by (apply (elem_of_seqZ 0 f); rewrite Ej; set_solver).
    rewrite py_index_total by nia. cbn. eexists. split; [done|]. rewrite fmap_app, app_assoc, (Z.mul_comm i f). done.
  - done.
Qed.

Lemma imap_fmap_seqZ (g : Z -> bytes) s n : 0 <= n -> imap pair (g <$> seqZ s n) = (fun k => (Z.to_nat (k - s), g k)) <$> seqZ s n.
Proof.
  intros Hn. apply list_eq. intros i. rewrite list_lookup_imap, !list_lookup_fmap.
  destruct (decide (Z.of_nat i < n)) as [Hi|Hi]; [|by rewrite !lookup_seqZ_ge by lia].
  rewrite !(proj2 (lookup_seqZ _ _ _ _)) by (split; [reflexivity|lia]). cbn. repeat f_equal. lia.
Qed.

Lemma source_blocks_loop f s n block_ids hs to_store :
  0 < f -> 0 <= s -> 0 <= n -> f * (s + n) <= py_len block_ids ->
  foldM (source_blocks f s block_ids to_store) (imap pair (block_hash_at f hs <$> seqZ s n)) [] =
  Ok (filter (fun i => block_hash_at f hs i ∈ to_store) (seqZ s n) ≫= gpu_blocks_of f block_ids).
Proof.
  intros Hf Hs Hn Hl. rewrite imap_fmap_seqZ by done.
  destruct (foldM_inv (fun src x => source_blocks f s block_ids to_store src x)
    (fun pre src => src = filter (fun i => block_hash_at f hs i ∈ to_store) ((fun x => s + Z.of_nat x.1) <$> pre) ≫= gpu_blocks_of f block_ids)
    ((fun k => (Z.to_nat (k - s), block_hash_at f hs k)) <$> seqZ s n) []) as (src & E & ->).
  - done.
  - intros pre x post src Ex ->. assert (Hx : x ∈ (fun k => (Z.to_nat (k - s), block_hash_at f hs k)) <$> seqZ s n) by (rewrite Ex; set_solver).
    apply list_elem_of_fmap in Hx as (k & -> & Hk%elem_of_seqZ). cbn [source_blocks]. rewrite fmap_app, filter_app, bind_app. cbn [fmap list_fmap fst].
    rewrite Z2Nat.id by lia. replace (s + (k - s)) with k by lia. rewrite filter_cons, filter_nil. destruct (decide _) as [Hin|Hout].
    + rewrite source_block_loop by (done || nia). eexists. split; [done|]. cbn. by rewrite app_nil_r.
    + eexists. split; [done|]. cbn. by rewrite app_nil_r.
  - etransitivity; [exact E|]. do 2 f_equal. f_equal. rewrite <- list_fmap_compose. rewrite <- (list_fmap_id (seqZ s n)) at 2.
    apply list_fmap_ext. intros i k Hk%list_elem_of_lookup_2%elem_of_seqZ. cbn. lia.
Qed.

(** * The transfers *)

Section ConnectorFacts.
Context {M : Type} `{OffloadLaws M}.
Implicit Types (c : connector M).

(** Sizes as [OffloadingSpec] leaves them, and a consistent manager. *)
Definition conn_ok c : Prop :=
  0 < gpu_block_size c /\ 0 < block_size_factor c /\
  offloaded_block_size c = gpu_block_size c * block_size_factor c /\ om_inv (manager c).

Definition hash_at c (r : Request) : Z -> bytes := block_hash_at (block_size_factor c) (block_hashes r).

Lemma get_block_hashes_ok c r s e :
  0 < block_size_factor c -> 0 <= s <= e -> 0 < e -> block_size_factor c * e <= py_len (block_hashes r) ->
  get_block_hashes c r s (Some e) = hash_at c r <$> seqZ s (e - s).
Proof.
  intros Hf Hs He Hl. unfold get_block_hashes. rewrite (proj2 (Z.eqb_neq _ _)) by lia. apply islice_blocks; [done|done|done|by left].
Qed.

Lemma get_all_hashes_ok c r s :
  0 < block_size_factor c -> 0 <= s <= py_len (block_hashes r) / block_size_factor c ->
  get_block_hashes c r s None = hash_at c r <$> seqZ s (py_len (block_hashes r) / block_size_factor c - s).
Proof.
  intros Hf Hs. unfold get_block_hashes. apply islice_blocks; [done|done| |by right].
  apply Z.mul_div_le. lia.
Qed.

(** The offloaded blocks of [s .. e) the manager does not keep. *)
Definition missing_blocks c (r : Request) (s e : Z) : list Z :=
  filter (fun i => om_get (manager c) (hash_at c r i) = None) (seqZ s (e - s)).

(** From [m] to [m'] nothing is added, and only idle blocks are gone. *)
Definition only_evicts (m m' : M) : Prop :=
  forall h, om_get m' h = om_get m h \/ (om_get m' h = None /\ ref_cnt <$> om_get m h = Some 0).

(** A transfer whose sources are the device blocks of exactly the offloaded blocks not kept
    yet, in order, and whose targets are the host blocks the manager now keeps for them. *)
Definition stores_missing c (r : Request) (block_ids : list Z) (s e : Z) (src dst : list Z) (m' : M) : Prop :=
  let missing := missing_blocks c r s e in
  missing <> [] /\ src = missing ≫= gpu_blocks_of (block_size_factor c) block_ids /\
  Forall2 (fun i d => om_get m' (hash_at c r i) = Some (mkStatus (-1) d)) missing dst /\
  forall h, h ∉ hash_at c r <$> missing ->
    om_get m' h = om_get (manager c) h \/ (om_get m' h = None /\ ref_cnt <$> om_get (manager c) h = Some 0).

(** What [_get_reqs_to_store] does for one request, by what the manager answers: nothing when
    it refuses; otherwise the index of the next block to store advances, and the missing
    blocks are transferred if there are any. *)
Definition store_outcome c (r : Request) (block_ids : list Z) (s e : Z) (to_store : dict TransferSpec)
    (o : option PrepareStoreOutput) (m1 : M) (to_store' : dict TransferSpec) c' : Prop :=
  match o with
  | None => to_store' = to_store /\ c' = set_manager m1 c /\ only_evicts (manager c) m1
  | Some _ =>
      dict_get (request_id r) (next_stored_block_idx c') = Some e /\
      ((missing_blocks c r s e = [] /\ to_store' = to_store /\ only_evicts (manager c) (manager c')) \/
       exists src dst, to_store' = dict_set (request_id r) (GPULoadStoreSpec src, dst) to_store /\
         stores_missing c r block_ids s e src (sp_block_ids dst) (manager c') /\
         forall i, i ∈ missing_blocks c r s e -> hash_at c r i ∈ default [] (dict_get (request_id r) (reqs_being_stored c')))
  end.

Lemma store_blocks_ok c r block_ids s e to_store :
  conn_ok c -> (forall m hs, om_touchable m hs) -> NoDup (block_hashes r) -> 0 <= s < e ->
  block_size_factor c * e <= py_len (block_hashes r) -> block_size_factor c * e <= py_len block_ids ->
  exists o m1 to_store' c', om_prepare_store (hash_at c r <$> seqZ s (e - s)) (manager c) = Ok (o, m1) /\
    store_blocks r block_ids s e to_store c = Ok (to_store', c') /\ conn_ok c' /\
    om_capacity (manager c') = om_capacity (manager c) /\ store_outcome c r block_ids s e to_store o m1 to_store' c'.
Proof.
  intros Hc Ht Hnd Hs Hlh Hlb. assert (Hf : 0 < block_size_factor c) by apply Hc. unfold store_blocks.
  rewrite get_block_hashes_ok by (done || lia).
  assert (Hnd' : NoDup (hash_at c r <$> seqZ s (e - s))).
  { apply block_hashes_nodup; [done|done|lia|]. by replace (s + (e - s)) with e by lia. }
  destruct (om_prepare_store_ok (manager c) _ (proj2 (proj2 (proj2 Hc))) Hnd') as (o & m1 & -> & Hi1 & Hcap1 & Ho). cbn [mbind result_bind].
  exists o, m1. destruct o as [out|].
  2: { eexists _, _. split; [done|]. split; [reflexivity|]. split; [destruct Hc as (? & ? & ? & _); done|]. split; [done|]. split; [done|]. split; [done|]. intros h. apply Ho. }
  destruct Ho as (Eto & Hev & Hnew & Hg). rewrite Forall_forall in Hev.
  assert (Hcase : forall h, h ∉ block_hashes_to_store out -> om_get m1 h = om_get (manager c) h \/
    (om_get m1 h = None /\ ref_cnt <$> om_get (manager c) h = Some 0)).
  { intros h Hh. rewrite Hg by done. case_decide; [right; split; [done|by apply Hev]|by left]. }
  set (missing := missing_blocks c r s e).
  assert (Em : block_hashes_to_store out = hash_at c r <$> missing) by (rewrite Eto; by apply filter_fmap_comm).
  destruct (block_hashes_to_store out) as [|h0 hs0] eqn:Eout.
  { eexists _, _. split; [done|]. split; [reflexivity|]. split; [destruct Hc as (? & ? & ? & _); done|]. split; [done|]. split; [cbn; by rewrite dict_get_set, decide_True|].
    left. split; [by apply (fmap_nil_inv (hash_at c r))|]. split; [done|]. intros h. apply Hcase. apply not_elem_of_nil. }
  assert (Hne : h0 :: hs0 <> []) by done. rewrite <- Eout in *. cbn [manager set_manager set_next_stored block_size_factor].
  destruct (om_touch_ok m1 (get_block_hashes (set_next_stored (dict_set (request_id r) e (next_stored_block_idx (set_manager m1 c))) (set_manager m1 c)) r 0 (Some e)) Hi1 (Ht _ _))
    as (m2 & -> & Hi2 & Hcap2 & Hg2). cbn [mbind result_bind].
  assert (Esrc := source_blocks_loop (block_size_factor c) s (e - s) block_ids (block_hashes r) (block_hashes_to_store out) Hf ltac:(lia) ltac:(lia) ltac:(by replace (s + (e - s)) with e by lia)).
  unfold hash_at in *. rewrite Esrc. cbn [mbind result_bind]. eexists _, _. split; [done|]. split; [reflexivity|]. split; [destruct Hc as (? & ? & ? & _); done|].
  split; [cbn; congruence|]. split; [cbn; by rewrite dict_get_set, decide_True|]. right.
  eexists _, _. split; [reflexivity|]. split.
  2: { intros i Hi. unfold hash_at. cbn. rewrite dict_get_set, decide_True by done. cbn. apply elem_of_set_update. right.
    rewrite Em. by apply (list_elem_of_fmap_2 (block_hash_at _ _)). }
  unfold stores_missing, hash_at. fold missing. split; [intros E0; by rewrite Em, E0 in Hne|]. split; [|split].
  - f_equal. apply filter_ext_in. intros i Hi. rewrite Em, list_elem_of_fmap. unfold missing, missing_blocks, hash_at. split.
    + intros (j & Ej & [Hj _]%list_elem_of_filter). by rewrite Ej.
    + intros Hn. exists i. split; [done|]. by apply list_elem_of_filter.
  - rewrite Em in Hnew. apply Forall2_fmap_l in Hnew. eapply Forall2_impl; [exact Hnew|]. cbn. intros i d <-. apply Hg2.
  - intros h Hh. cbn. rewrite Hg2. apply Hcase. by rewrite Em.
Qed.

(** What [update_state_after_alloc] does when [computed] blocks hold cached tokens and the
    [pending] ones are to be loaded: the transfer goes from the host blocks of the offloaded
    blocks that overlap the pending ones to the pending blocks. *)
Lemma load_blocks_ok c r computed pending :
  let f := block_size_factor c in
  let blocks := computed ++ pending in
  let s := py_len computed / f in
  let e := py_len blocks / f in
  conn_ok c -> NoDup (block_hashes r) -> Forall (fun b => b.2 <> None) computed -> Forall (fun b => b.2 = None) pending -> pending <> [] ->
  py_len blocks mod f = 0 -> py_len blocks <= py_len (block_hashes r) ->
  (forall i, s <= i < e -> exists st, om_get (manager c) (hash_at c r i) = Some st /\ 0 <= ref_cnt st < 2 ^ 31 - 1) ->
  exists c' src, update_state_after_alloc r blocks (py_len pending * gpu_block_size c) c = Ok c' /\ conn_ok c' /\
    dict_get (request_id r) (cn_reqs_to_load c') = Some (src, GPULoadStoreSpec (pending.*1)) /\
    Forall2 (fun i d => block_id <$> om_get (manager c) (hash_at c r i) = Some d) (seqZ s (e - s)) (sp_block_ids src) /\
    forall h, block_id <$> om_get (manager c') h = block_id <$> om_get (manager c) h.
Proof.
  intros f blocks s e (Hg & Hf & Hoff & Hi) Hnd Hcomp Hpend Hne Hmod Hlen Hready.
  assert (Hlb : py_len blocks = py_len computed + py_len pending) by (unfold py_len, blocks; rewrite length_app; lia).
  assert (Hpos : 0 < py_len pending) by (unfold py_len; destruct pending; [done|cbn; lia]).
  assert (Hf' : 0 < f) by done. assert (He : py_len blocks = f * e) by (unfold e; apply Z.div_exact; [lia|done]).
  assert (Hc0 : 0 <= py_len computed) by (unfold py_len; lia).
  assert (Hs0 : 0 <= s) by (apply Z.div_pos; lia). assert (Hse : s < e) by (unfold s; apply Z.div_lt_upper_bound; lia).
  assert (Hncomp : py_len (filter (fun b : Z * option bytes => b.2 <> None) blocks) = py_len computed).
  { unfold blocks. rewrite filter_app, filter_all by (by apply Forall_forall). clear -Hpend.
    assert (filter (fun b : Z * option bytes => b.2 <> None) pending = []) as ->; [|by rewrite app_nil_r].
    induction Hpend as [|b l Hb _ IH]; [done|]. rewrite filter_cons, decide_False by (intros Hb'; by apply Hb'); exact IH. }
  assert (Hids : py_len (blocks.*1) = py_len blocks) by (unfold py_len; by rewrite length_fmap).
  unfold update_state_after_alloc. rewrite (proj2 (Z.eqb_neq _ _)) by nia.
  cbn [gpu_block_size offloaded_block_size block_size_factor manager set_block_ids set_cn_requests]. rewrite Hncomp, Hids, Hoff.
  replace (py_len computed * gpu_block_size c + py_len pending * gpu_block_size c) with (e * (gpu_block_size c * f)) by (rewrite Hlb in He; nia).
  fold f. rewrite Z.mod_mul by nia. rewrite Z.div_mul by nia. cbn [Z.eqb py_assert mbind result_bind].
  rewrite (proj2 (Z.eqb_eq _ _)) by nia. cbn [py_assert mbind result_bind].
  assert (Hq : e <= py_len (block_hashes r) / f) by (apply Z.div_le_lower_bound; lia).
  rewrite (proj2 (Z.leb_le _ _) Hq). cbn [py_assert mbind result_bind].
  rewrite (Z.mul_comm (gpu_block_size c) f), Z.div_mul_cancel_r by lia. fold s.
  set (c1 := set_block_ids _ _). assert (Eh : get_block_hashes c1 r s (Some e) = hash_at c r <$> seqZ s (e - s)).
  { apply (get_block_hashes_ok c1); unfold c1; cbn [block_size_factor set_block_ids set_cn_requests]; fold f; lia. }
  rewrite Eh. destruct (om_prepare_load_ok (manager c) (hash_at c r <$> seqZ s (e - s)) Hi) as (sp & m' & E & Hi' & _ & H2 & Hg').
  { apply block_hashes_nodup; [done|done|lia|]. fold f. replace (s + (e - s)) with e by lia. lia. }
  { intros h (i & -> & Hin%elem_of_seqZ)%list_elem_of_fmap. apply Hready. lia. }
  rewrite E. cbn [mbind result_bind]. eexists _, sp. split; [reflexivity|]. split; [split; [done|]; split; [done|]; split; done|]. cbn. split; [|split].
  - rewrite dict_get_set, decide_True by done. do 3 f_equal. rewrite py_slice_nonneg by lia. unfold blocks. rewrite fmap_app.
    replace (Z.to_nat (py_len computed)) with (length (computed.*1)) by (rewrite length_fmap; unfold py_len; lia).
    rewrite drop_app_length. apply take_ge. rewrite length_fmap. unfold py_len. rewrite length_app. lia.
  - by apply Forall2_fmap_l in H2.
  - intros h. rewrite Hg'. case_decide; [|done]. by destruct (om_get (manager c) h).
Qed.
End ConnectorFacts.

(** C40: With the adaptive manager every store that has something to store raises
    [KeyError]: the connector touches the blocks it has just asked to be stored. *)
Theorem arc_connector_raises {B F} `{BackendLaws B} `{PyFloatLaws F} (c : connector (ARC B F)) r block_ids s e to_store out m' :
  conn_ok c -> NoDup (block_hashes r) -> 0 <= s < e -> block_size_factor c * e <= py_len (block_hashes r) ->
  arc_prepare_store (get_block_hashes c r s (Some e)) (manager c) = Ok (Some out, m') -> block_hashes_to_store out <> [] ->
  store_blocks r block_ids s e to_store c = Err KeyError.
Proof.
  intros (Hg & Hf & Hoff & Hi) Hnd Hse Hlh E Hne. assert (Ehs := get_block_hashes_ok c r s e Hf ltac:(lia) ltac:(lia) Hlh).
  assert (Hnd' : NoDup (get_block_hashes c r s (Some e))).
  { rewrite Ehs. apply block_hashes_nodup; [done|done|lia|]. by replace (s + (e - s)) with e by lia. }
  destruct (arc_prepare_store_spec (manager c) _ Hi Hnd') as (o & m1 & ev & E1 & _ & _ & _ & Ho). rewrite E in E1. injection E1 as <- <-.
  destruct Ho as (sts & Eto & _ & _ & Hlen & Hst & _ & _ & Ht1 & _). unfold store_blocks.
  change (om_prepare_store ?hs ?m) with (arc_prepare_store hs m). rewrite E. cbn [mbind result_bind].
  destruct (block_hashes_to_store out) as [|h hs] eqn:Eout; [done|].
  assert (Hh : h ∈ hash_at c r <$> seqZ s (e - s)).
  { rewrite <- Ehs. assert (Hin : h ∈ h :: hs) by left. rewrite Eto in Hin. by apply list_elem_of_filter in Hin as [_ ?]. }
  rewrite <- Eto in Hlen, Ht1. destruct sts as [|st sts]; [done|]. apply Forall_cons in Hst as [Hst _].
  change (om_touch ?hs ?m) with (arc_touch hs m). rewrite (arc_touch_pending_raises _ _ h st); [done|by apply (Ht1 0%nat)|unfold is_ready; by rewrite Hst|].
  set (c1 := set_next_stored _ _). rewrite (get_block_hashes_ok c1 r 0 e) by (done || lia).
  apply list_elem_of_fmap in Hh as (i & -> & Hin%elem_of_seqZ). apply (list_elem_of_fmap_2 (hash_at c1 r)), elem_of_seqZ. lia.
Qed.
