(* ===== verification/OffloadRound.v ===== *)
(** Data offloaded and loaded again: what the host's memory holds for the blocks a manager
    keeps, over any interleaving of the manager's calls with the transfers of stores, and
    the two transfers the connector sets up. *)
From Stdlib Require Import QArith.
From stdpp Require Import relations.
From S2P Require Import Prelude Dict Request Scheduler Offload LRUOffload ARCOffload OffloadTransfer OffloadConnector.
Local Open Scope Z_scope.

Section Data.
Context {M : Type} `{OffloadLaws M}.
(** [content h j] is the [j]-th device block of the offloaded block with hash [h]; an
    offloaded block has [f] of them. *)
Context {A : Type} (content : bytes -> Z -> A) (f : Z).
Implicit Types (m : M) (led : ledger) (cpu : list A) (W : bytes -> Prop).

Definition block_holds cpu (id : Z) (h : bytes) : Prop :=
  forall j, 0 <= j < f -> cpu !! Z.to_nat (id * f + j) = Some (content h j).

(** Every block that is ready, or whose store has been written ([W]), holds its content. *)
Definition data_ok m W cpu : Prop :=
  forall h s, om_get m h = Some s -> is_ready s = true \/ W h -> block_holds cpu (block_id s) h.

(** A new content for host block [id]. *)
Definition unchanged cpu cpu' (id : Z) : Prop :=
  forall j, 0 <= j < f -> cpu' !! Z.to_nat (id * f + j) = cpu !! Z.to_nat (id * f + j).

(** The client's side of a store: completed only once written. *)
Definition written c W : Prop := match c with CompleteStore hs true => forall h, h ∈ hs -> W h | _ => True end.

Inductive data_step : M * ledger * (bytes -> Prop) * list A -> M * ledger * (bytes -> Prop) * list A -> Prop :=
| data_call c m led W cpu m' stored :
    admissible c m led -> written c W -> offload_step c m = Ok (m', stored) ->
    data_step (m, led, W, cpu) (m', ledger_step c stored led, fun h => W h /\ ledger_step c stored led h = -1, cpu)
| data_write (hs : list bytes) m led W cpu cpu' :
    (forall h, h ∈ hs -> led h = -1) -> length cpu' = length cpu ->
    (forall h s, om_get m h = Some s -> h ∈ hs -> block_holds cpu' (block_id s) h) ->
    (forall h s, om_get m h = Some s -> h ∉ hs -> unchanged cpu cpu' (block_id s)) ->
    data_step (m, led, W, cpu) (m, led, fun h => W h \/ h ∈ hs, cpu').

Definition good (st : M * ledger * (bytes -> Prop) * list A) : Prop :=
  let '(m, led, W, cpu) := st in
  om_inv m /\ ledger_ok m led /\ Z.of_nat (length cpu) = om_capacity m * f /\ (forall h, W h -> led h = -1) /\ data_ok m W cpu.

Lemma ready_ledger m led h s : ledger_ok m led -> om_get m h = Some s -> is_ready s = true <-> 0 <= led h.
Proof. intros Hl E. rewrite (ledger_of_status m led h s Hl E). unfold is_ready. by rewrite Z.leb_le. Qed.

(** A block that becomes ready, or stays so, was written or ready before. *)
Lemma ready_before c m led W m' stored h s s' :
  om_inv m -> ledger_ok m led -> admissible c m led -> written c W -> offload_step c m = Ok (m', stored) ->
  om_get m h = Some s -> om_get m' h = Some s' -> 0 <= ledger_step c stored led h -> is_ready s = true \/ W h.
Proof.
  intros Hi Hl Ha Hw E Es Es' Hp. rewrite (ready_ledger m led h s Hl Es).
  destruct c as [hs|hs|hs|hs|hs|hs ok|]; cbn in Hp; try (left; lia).
  - destruct (decide (h ∈ hs)) as [Hh|]; [|left; lia]. left. destruct Ha as (_ & Hlk & _). rewrite om_lookup_ok in Hlk by done.
    injection Hlk as Hlk. rewrite ready_prefix_all in Hlk. destruct (Hlk h Hh) as (s1 & Es1 & ?). rewrite (ledger_of_status m led h s1); done.
  - destruct (decide (h ∈ hs)); left; lia.
  - destruct (decide (h ∈ stored)); left; lia.
  - destruct (decide (h ∈ hs)) as [Hh|]; [|left; lia]. destruct ok; [right; by apply Hw|]. destruct Ha as [Hnd Hst].
    destruct (om_fail_store_ok m hs Hi) as (m1 & E1 & _ & _ & Hg); [|done|].
    { intros k Hk. destruct (Hl k) as [-> |[_ Ek]]; [by rewrite Hst|]. specialize (Hst k Hk). lia. }
    cbn in E. rewrite E1 in E. injection E as <- <-. by rewrite Hg, decide_True in Es'.
Qed.

Lemma good_step st st' : data_step st st' -> good st -> good st'.
Proof.
  intros Hstep. destruct Hstep as [c m led W cpu m' stored Ha Hw E|hs m led W cpu cpu' Hled Hlen Hin Hout]; intros (Hi & Hl & Hcpu & HW & Hd).
  - destruct (offload_step_ok c m led Hi Hl Ha) as (m1 & st1 & E1 & Hi1 & Hc1 & Hl1 & [Hnew Hs1]). rewrite E in E1. injection E1 as <- <-.
    split; [done|]. split; [done|]. split; [by rewrite Hc1|]. split; [by intros h [_ ?]|].
    intros h s' Es' Hor. assert (Hor' : 0 <= ledger_step c stored led h \/ (W h /\ ledger_step c stored led h = -1)).
    { destruct Hor as [Hr|Hr]; [left|by right]. by apply (ready_ledger m' _ h s'). }
    destruct (Hs1 h s' Es') as [Hh|(s & Es & <-)].
    + exfalso. destruct (Hl h) as [E0|[_ E0]]; [by rewrite (Hnew h Hh) in E0|]. destruct c as [| | | |hs| |]; cbn in E, Hor'; inv_ok;
        repeat match goal with H : (let '(_, _) := ?p in _) = Ok _ |- _ => destruct p; inv_ok end; try by apply elem_of_nil in Hh.
      rewrite decide_True in Hor' by done. destruct Hor' as [?|[HWh _]]; [lia|]. apply HW in HWh. lia.
    + apply Hd; [done|]. destruct Hor' as [Hr|[HWh _]]; [|by right]. by apply (ready_before c m led W m' stored h s s').
  - split; [done|]. split; [done|]. split; [by rewrite Hlen|]. split; [intros h [?|?]; auto|].
    intros h s Es Hor. destruct (decide (h ∈ hs)) as [Hh|Hh]; [by apply Hin|]. intros j Hj.
    rewrite (Hout h s Es Hh j Hj). apply (Hd h s Es); [|done]. tauto.
Qed.

Lemma good_run st st' : rtc data_step st st' -> good st -> good st'.
Proof. induction 1 as [|st st1 st2 Hs _ IH]; [done|]. intros Hg. apply IH. by apply (good_step st). Qed.
End Data.

(** * The connector's transfers *)

Lemma concat_fmap_bind {X Y} (g : X -> list Y) (l : list X) : concat (g <$> l) = l ≫= g.
Proof. induction l as [|x l IH]; [done|]. cbn. by rewrite IH. Qed.

Section Transfers.
Context {M : Type} `{OffloadLaws M} {A : Type} (content : bytes -> Z -> A).
Implicit Types (c : connector M) (cpu gpu : list A) (W : bytes -> Prop).

(** The device blocks of a request hold the content its hashes stand for. *)
Definition gpu_holds c (r : Request) (block_ids : list Z) (s e : Z) gpu : Prop :=
  let f := block_size_factor c in
  forall i j, s <= i < e -> 0 <= j < f ->
    0 <= block_ids !!! Z.to_nat (f * i + j) /\ gpu !! Z.to_nat (block_ids !!! Z.to_nat (f * i + j)) = Some (content (hash_at c r i) j).

Lemma gpu_blocks_lookup f block_ids i j : 0 <= j < f -> gpu_blocks_of f block_ids i !!! Z.to_nat j = block_ids !!! Z.to_nat (f * i + j).
Proof.
  intros Hj. unfold gpu_blocks_of. apply list_lookup_total_correct. rewrite list_lookup_fmap.
  rewrite (proj2 (lookup_seqZ _ _ _ _)) by (split; [reflexivity|lia]). cbn. by rewrite Z2Nat.id by lia.
Qed.

Lemma store_data_ok c r block_ids s e src dst m' junk W cpu gpu :
  let f := block_size_factor c in
  0 < f -> om_inv m' -> om_capacity m' = om_capacity (manager c) -> Z.of_nat (length cpu) = om_capacity (manager c) * f ->
  NoDup (block_hashes r) -> 0 <= s < e -> f * e <= py_len (block_hashes r) ->
  stores_missing c r block_ids s e src dst m' ->
  data_ok content f (manager c) W cpu -> (forall h, W h -> om_get (manager c) h <> None) -> gpu_holds c r block_ids s e gpu ->
  exists mapping cpu', src_to_dst (mkHandler 1 f) junk src dst = Ok mapping /\ swap_blocks gpu cpu mapping = Ok cpu' /\ length cpu' = length cpu /\
    data_ok content f m' (fun h => W h \/ exists i, s <= i < e /\ om_get (manager c) (hash_at c r i) = None /\ h = hash_at c r i) cpu'.
Proof.
  intros f Hf Hi' Hcap Hcpu Hbh Hse Hlh (Hne & Esrc & Hdst & Hrest) Hd HW Hgpu. set (missing := missing_blocks c r s e) in *.
  assert (Hmis : forall i, i ∈ missing -> s <= i < e /\ om_get (manager c) (hash_at c r i) = None).
  { intros i [Hn Hin%elem_of_seqZ]%list_elem_of_filter. split; [lia|done]. }
  assert (Hids : forall a d, dst !! a = Some d -> exists i, missing !! a = Some i /\ om_get m' (hash_at c r i) = Some (mkStatus (-1) d)).
  { intros a d Ha. destruct (Forall2_lookup_r _ _ _ _ _ Hdst Ha) as (i & Hia & Hg). eauto. }
  destruct (store_transfer_ok f Hf (mkHandler 1 f) junk (gpu_blocks_of f block_ids <$> missing) dst gpu cpu (om_capacity (manager c)))
    as (mapping & cpu' & Emap & Ecp & Hlen & Hin & Hout).
  - done.
  - rewrite length_fmap. by eapply Forall2_length.
  - apply Forall_fmap, Forall_forall. intros i _. cbn. unfold gpu_blocks_of. by rewrite length_fmap, length_seqZ.
  - apply NoDup_alt. intros a b d Ha Hb. destruct (Hids a d Ha) as (i & Hia & Hgi), (Hids b d Hb) as (j & Hjb & Hgj).
    assert (Hnd : NoDup (hash_at c r <$> missing)).
    { eapply sublist_NoDup; [apply (block_hashes_nodup f (block_hashes r) s (e - s)); [done|done|lia|]|apply fmap_sublist, sublist_filter].
      by replace (s + (e - s)) with e by lia. }
    eapply (NoDup_lookup _ _ _ _ Hnd); rewrite list_lookup_fmap; [by rewrite Hia|]. rewrite Hjb. cbn. f_equal. symmetry. by eapply om_distinct.
  - apply Forall_forall. intros d [a Ha]%list_elem_of_lookup. destruct (Hids a d Ha) as (i & _ & Hg). destruct (om_status_ok _ _ _ Hi' Hg) as [_ Hr]. by rewrite Hcap in Hr.
  - done.
  - intros p x (i & -> & Hmi)%list_elem_of_fmap (j & -> & Hj%elem_of_seqZ)%list_elem_of_fmap. destruct (Hgpu i j) as [H0' Hl]; [by apply Hmis|lia|].
    cbv beta. fold f in H0', Hl. split; [done|]. apply lookup_lt_Some in Hl. unfold py_len. lia.
  - rewrite concat_fmap_bind in Emap. fold f in Esrc. rewrite <- Esrc in Emap. exists mapping, cpu'. split; [done|]. split; [done|]. split; [done|]. intros h st Est Hor.
    destruct (decide (h ∈ hash_at c r <$> missing)) as [(i & -> & Hmi)%list_elem_of_fmap|Hh].
    + intros j Hj. apply list_elem_of_lookup in Hmi as [a Ha]. destruct (Forall2_lookup_l _ _ _ _ _ Hdst Ha) as (d & Hd' & Hg). rewrite Hg in Est. injection Est as <-. cbn.
      rewrite (Hin a (gpu_blocks_of f block_ids i) d j); [|by rewrite list_lookup_fmap, Ha|done|done]. rewrite gpu_blocks_lookup by done.
      apply Hgpu; [apply Hmis; by eapply list_elem_of_lookup_2|done].
    + destruct (Hrest h Hh) as [Eq|[E _]]; [|congruence]. rewrite Eq in Est. intros j Hj. rewrite Hout.
      * apply (Hd h st Est); [|done]. destruct Hor as [?|[?|(i & Hi & Hn & ->)]]; [by left|by right|congruence].
      * intros [a Ha]%list_elem_of_lookup. destruct (Hids a _ Ha) as (i & Hia & Hg). apply Hh.
        assert (h = hash_at c r i) as ->; [|apply list_elem_of_fmap_2; by eapply list_elem_of_lookup_2].
        rewrite <- Eq in Est. by eapply (om_distinct m').
      * rewrite <- Eq in Est. by destruct (om_status_ok _ _ _ Hi' Est) as [_ [? _]].
      * done.
Qed.

Lemma data_kept (f : Z) (m m' : M) W cpu : data_ok content f m W cpu -> only_evicts m m' -> data_ok content f m' W cpu.
Proof. intros Hd Hev h st Est Hor. destruct (Hev h) as [Eq|[Eq _]]; [|congruence]. rewrite Eq in Est. by apply (Hd h st). Qed.

Lemma elem_of_missing c r s e i : i ∈ missing_blocks c r s e <-> s <= i < e /\ om_get (manager c) (hash_at c r i) = None.
Proof. unfold missing_blocks. rewrite list_elem_of_filter, elem_of_seqZ. replace (s + (e - s)) with e by lia. tauto. Qed.

(** The host blocks of the offloaded blocks [s .. e) fill the device blocks [pending] that
    follow [computed]. *)
Lemma load_data_ok (hash : Z -> bytes) (f : Z) (computed pending : list (Z * option bytes)) (ids : list Z) (m : M) junk W cpu gpu :
  let s := py_len computed / f in
  let e := py_len (computed ++ pending) / f in
  0 < f -> om_inv m -> Z.of_nat (length cpu) = om_capacity m * f -> data_ok content f m W cpu -> py_len (computed ++ pending) mod f = 0 ->
  Forall2 (fun i d => block_id <$> om_get m (hash i) = Some d) (seqZ s (e - s)) ids ->
  (forall i, s <= i < e -> exists st, om_get m (hash i) = Some st /\ is_ready st = true) ->
  NoDup (pending.*1) -> Forall (fun b => 0 <= b < py_len gpu) (pending.*1) ->
  exists mapping gpu', src_to_dst (mkHandler f 1) junk ids (pending.*1) = Ok mapping /\ swap_blocks cpu gpu mapping = Ok gpu' /\ length gpu' = length gpu /\
    (forall k b, pending !! k = Some b ->
       let q := py_len computed + Z.of_nat k in gpu' !! Z.to_nat b.1 = Some (content (hash (q / f)) (q mod f))) /\
    (forall t, 0 <= t -> t ∉ pending.*1 -> gpu' !! Z.to_nat t = gpu !! Z.to_nat t).
Proof.
  intros s e Hf Hi Hcpu Hd Hmod Hids Hready Hnd Hr.
  assert (Hlb : py_len (computed ++ pending) = py_len computed + py_len pending) by (unfold py_len; rewrite length_app; lia).
  assert (He : py_len computed + py_len pending = f * e) by (rewrite <- Hlb; apply Z.div_exact; [lia|done]).
  assert (Hc0 : 0 <= py_len computed) by (unfold py_len; lia). assert (Hp0 : 0 <= py_len pending) by (unfold py_len; lia).
  assert (Hs : py_len computed = f * s + py_len computed mod f) by (apply Z.div_mod; lia).
  assert (Hm : 0 <= py_len computed mod f < f) by (apply Z.mod_pos_bound; lia). set (sk := py_len computed mod f) in *.
  assert (Hlt : py_len (pending.*1) = py_len pending) by (unfold py_len; by rewrite length_fmap).
  assert (Hli : py_len ids = e - s). { apply Forall2_length in Hids. rewrite length_seqZ in Hids. unfold py_len. assert (s <= e) by (apply Z.div_le_mono; lia). lia. }
  assert (Hskip : (- py_len (pending.*1)) mod f = sk).
  { rewrite Hlt. replace (- py_len pending) with (sk + (s - e) * f) by lia. rewrite Z.mod_add by lia. apply Z.mod_small. lia. }
  destruct (load_transfer_ok f Hf (mkHandler f 1) junk ids (pending.*1) cpu gpu (om_capacity m)) as (mapping & gpu' & Em & Eg & Hl & Hin & Hout).
  - done.
  - rewrite Hskip, Hlt, Hli. lia.
  - done.
  - done.
  - apply Forall_forall. intros d [a Ha]%list_elem_of_lookup. destruct (Forall2_lookup_r _ _ _ _ _ Hids Ha) as (i & _ & Hg).
    apply fmap_Some in Hg as (st & Est & ->). by destruct (om_status_ok _ _ _ Hi Est).
  - done.
  - exists mapping, gpu'. split; [done|]. split; [done|]. split; [done|]. split; [|intros t H0' Hnt; by apply Hout].
    intros k b Hk q. rewrite Hskip in Hin. assert (Hkl : Z.of_nat k < py_len pending) by (apply lookup_lt_Some in Hk; unfold py_len; lia).
    assert (Eq1 : q / f = s + (sk + Z.of_nat k) / f).
    { unfold q. rewrite Hs. replace (f * s + sk + Z.of_nat k) with ((sk + Z.of_nat k) + s * f) by lia. rewrite Z.div_add by lia. lia. }
    assert (Eq2 : q mod f = (sk + Z.of_nat k) mod f).
    { unfold q. rewrite Hs. replace (f * s + sk + Z.of_nat k) with ((sk + Z.of_nat k) + s * f) by lia. by rewrite Z.mod_add by lia. }
    set (a := (sk + Z.of_nat k) / f) in *. assert (Ha : 0 <= a < e - s) by (unfold a; split; [apply Z.div_pos; lia|apply Z.div_lt_upper_bound; lia]).
    assert (Hsa : seqZ s (e - s) !! Z.to_nat a = Some (s + a)) by (apply lookup_seqZ; lia).
    destruct (Forall2_lookup_l _ _ _ _ _ Hids Hsa) as (d & Hda & Hg). rewrite <- Eq1 in Hg.
    destruct (Hready (q / f)) as (st & Est & Hst); [lia|]. rewrite Est in Hg. injection Hg as <-.
    rewrite (Hin k b.1 (block_id st)); [|by rewrite list_lookup_fmap, Hk|done]. rewrite <- Eq2. apply (Hd _ st Est); [by left|]. apply Z.mod_pos_bound. lia.
Qed.
End Transfers.

(** * Theorems *)

(** C31: The connector stores the full blocks [s .. e) of a request whose device blocks hold
    the content their hashes stand for.  When the manager refuses, nothing is to be stored,
    and the blocks are tried again next time.  When it accepts, the next block to store is
    [e].  Then either the manager keeps all of the blocks and nothing is to be stored; or
    some are missing, a transfer is set up for the request, it is well formed, and once it
    has run the host block the manager keeps for each missing block holds that block's
    content, and the block is among those whose store the connector will complete.  In
    every case the host holds the right content for every ready block and every block
    written before. *)
Theorem offload_store_correct {M : Type} `{OffloadLaws M} {A : Type} (content : bytes -> Z -> A) (c : connector M) r block_ids s e to_store W cpu gpu junk :
  let f := block_size_factor c in
  conn_ok c -> (forall m hs, om_touchable m hs) -> NoDup (block_hashes r) -> 0 <= s < e ->
  f * e <= py_len (block_hashes r) -> f * e <= py_len block_ids ->
  Z.of_nat (length cpu) = om_capacity (manager c) * f -> data_ok content f (manager c) W cpu ->
  (forall h, W h -> om_get (manager c) h <> None) -> gpu_holds content c r block_ids s e gpu ->
  exists o m1 to_store' c',
    om_prepare_store (hash_at c r <$> seqZ s (e - s)) (manager c) = Ok (o, m1) /\
    store_blocks r block_ids s e to_store c = Ok (to_store', c') /\ conn_ok c' /\
    match o with
    | None => to_store' = to_store /\ c' = set_manager m1 c /\ data_ok content f (manager c') W cpu
    | Some _ =>
        dict_get (request_id r) (next_stored_block_idx c') = Some e /\
        (((forall i, s <= i < e -> om_get (manager c) (hash_at c r i) <> None) /\ to_store' = to_store /\ data_ok content f (manager c') W cpu) \/
         ((exists i, s <= i < e /\ om_get (manager c) (hash_at c r i) = None) /\
          exists src dst mapping cpu', to_store' = dict_set (request_id r) (GPULoadStoreSpec src, dst) to_store /\
            src_to_dst (mkHandler 1 f) junk src (sp_block_ids dst) = Ok mapping /\ swap_blocks gpu cpu mapping = Ok cpu' /\
            data_ok content f (manager c') W cpu' /\
            forall i, s <= i < e -> om_get (manager c) (hash_at c r i) = None ->
              hash_at c r i ∈ default [] (dict_get (request_id r) (reqs_being_stored c')) /\
              exists st, om_get (manager c') (hash_at c r i) = Some st /\ ref_cnt st = -1 /\ block_holds content f cpu' (block_id st) (hash_at c r i)))
    end.
Proof.
  intros f Hc Ht Hnd Hse Hlh Hlb Hcpu Hd HW Hgpu.
  destruct (store_blocks_ok c r block_ids s e to_store Hc Ht Hnd Hse Hlh Hlb) as (o & m1 & to_store' & c' & Eo & E & Hc' & Hcap & Hres).
  exists o, m1, to_store', c'. split; [done|]. split; [done|]. split; [done|].
  destruct o as [out|]; [|destruct Hres as (-> & -> & Hev); split; [done|]; split; [done|]; by apply (data_kept content f (manager c))].
  destruct Hres as [Hnx Hres]. split; [done|]. destruct Hres as [(Emis & -> & Hev)|(src & dst & -> & Hst & Hbs)].
  - left. split; [|split; [done|by apply (data_kept content f (manager c))]]. intros i Hi En.
    apply (not_elem_of_nil i). rewrite <- Emis. by apply elem_of_missing.
  - right. assert (Hst0 := Hst). destruct Hst0 as (Hne & _ & Hdst & _).
    destruct (store_data_ok content c r block_ids s e src (sp_block_ids dst) (manager c') junk W cpu gpu) as (mapping & cpu' & Em & Ec & _ & Hd');
      [apply Hc|apply Hc'|done|done|done|done|done|done|done|done|done|]. split.
    { destruct (missing_blocks c r s e) as [|i l] eqn:Ei; [done|]. exists i. apply elem_of_missing. rewrite Ei. by left. }
    exists src, dst, mapping, cpu'. split; [done|]. split; [done|]. split; [done|]. split; [intros h st Est Hor; apply (Hd' h st Est); tauto|].
    intros i Hi En. assert (Hm : i ∈ missing_blocks c r s e) by (by apply elem_of_missing). split; [by apply Hbs|].
    apply list_elem_of_lookup in Hm as [a Ha]. destruct (Forall2_lookup_l _ _ _ _ _ Hdst Ha) as (d & _ & Hg).
    eexists. split; [exact Hg|]. split; [done|]. apply (Hd' _ _ Hg). right. right. by exists i.
Qed.

(** C10: Start from an empty manager with least-recently-used eviction and run any
    interleaving of its calls, each allowed by the client's ledger, with the writes of
    pending stores, stores being completed only once written.  If [lookup] then reports
    every offloaded block that overlaps the blocks a request still needs, the connector's
    load succeeds, its transfer is well formed, and once it has run each of those device
    blocks holds the content of its position in the request, no other block being
    touched. *)
Theorem offload_round_trip {A : Type} (content : bytes -> Z -> A) bs n ev (c : connector (LRU CPUBackend)) led W cpu0 cpu gpu r computed pending junk :
  let f := block_size_factor c in
  let s := py_len computed / f in
  let e := py_len (computed ++ pending) / f in
  let hashes := hash_at c r <$> seqZ s (e - s) in
  0 < gpu_block_size c -> 0 < f -> offloaded_block_size c = gpu_block_size c * f -> 0 <= n <= 2 ^ 63 ->
  Z.of_nat (length cpu0) = n * f ->
  rtc (data_step content f) (new_lru (new_cpu_backend bs n) ev, fun _ => 0, fun _ => False, cpu0) (manager c, led, W, cpu) ->
  NoDup (block_hashes r) -> Forall (fun b => b.2 <> None) computed -> Forall (fun b => b.2 = None) pending -> pending <> [] ->
  py_len (computed ++ pending) mod f = 0 -> py_len (computed ++ pending) <= py_len (block_hashes r) ->
  lru_lookup hashes (manager c) = Some (e - s) -> (forall h, h ∈ hashes -> led h < 2 ^ 31 - 1) ->
  NoDup (pending.*1) -> Forall (fun b => 0 <= b < py_len gpu) (pending.*1) ->
  exists c' src mapping gpu',
    update_state_after_alloc r (computed ++ pending) (py_len pending * gpu_block_size c) c = Ok c' /\
    dict_get (request_id r) (cn_reqs_to_load c') = Some (src, GPULoadStoreSpec (pending.*1)) /\
    src_to_dst (mkHandler f 1) junk (sp_block_ids src) (pending.*1) = Ok mapping /\ swap_blocks cpu gpu mapping = Ok gpu' /\
    (forall k b, pending !! k = Some b ->
       let q := py_len computed + Z.of_nat k in gpu' !! Z.to_nat b.1 = Some (content (hash_at c r (q / f)) (q mod f))) /\
    (forall t, 0 <= t -> t ∉ pending.*1 -> gpu' !! Z.to_nat t = gpu !! Z.to_nat t).
Proof.
  intros f s e hashes Hg Hf Hoff Hn Hcpu0 Hrun Hnd Hcomp Hpend Hne Hmod Hlen Hlk Hov Hndp Hrp.
  assert (Hgood : good content f (manager c, led, W, cpu)).
  { apply (good_run content f _ _ Hrun). split; [by apply new_lru_om_inv|]. split; [by right|]. split; [done|]. split; [done|]. intros h st E. discriminate E. }
  destruct Hgood as (Hi & Hl & Hcpu & _ & Hd). assert (Hc : conn_ok c) by done.
  assert (Hs0 : 0 <= s) by (apply Z.div_pos; [unfold py_len; lia|done]).
  assert (Hse : s <= e) by (apply Z.div_le_mono; [done|unfold py_len; rewrite length_app; lia]).
  assert (Hready : forall i, s <= i < e -> exists st, om_get (manager c) (hash_at c r i) = Some st /\ 0 <= ref_cnt st < 2 ^ 31 - 1).
  { assert (Hlk' := om_lookup_ok (manager c) hashes Hi). change (om_lookup hashes (manager c)) with (lru_lookup hashes (manager c)) in Hlk'. rewrite Hlk in Hlk'.
    injection Hlk' as Hlk'. assert (Hle : e - s = Z.of_nat (length hashes)) by (unfold hashes; rewrite length_fmap, length_seqZ; lia).
    rewrite Hle in Hlk'. symmetry in Hlk'. rewrite ready_prefix_all in Hlk'. intros i Hie.
    assert (Hin : hash_at c r i ∈ hashes) by (apply list_elem_of_fmap_2, elem_of_seqZ; lia).
    destruct (Hlk' _ Hin) as (st & Est & Hst). exists st. split; [done|]. specialize (Hov _ Hin). rewrite (ledger_of_status _ _ _ st Hl Est) in Hov. lia. }
  destruct (load_blocks_ok c r computed pending Hc Hnd Hcomp Hpend Hne Hmod Hlen Hready) as (c' & src & E & _ & Eld & Hids & _).
  destruct (load_data_ok content (hash_at c r) f computed pending (sp_block_ids src) (manager c) junk W cpu gpu) as (mapping & gpu' & Em & Eg & _ & Hin & Hout); [done|done|done|done|done|done| |done|done|].
  { intros i Hie. destruct (Hready i Hie) as (st & Est & Hst). exists st. split; [done|]. unfold is_ready. apply Z.leb_le. lia. }
  exists c', src, mapping, gpu'. done.
Qed.

Module OffloadExamples.
(** Blocks of two tokens on the device, of four on the host; a request of two offloaded
    blocks, with hashes [2] and [4], on the device blocks 0 to 3. *)
Definition doc (id : string) : Request :=
  mkRequest id RUNNING 16 (Some (seqZ 0 8)) None 8 [] (seqZ 0 8) [] 0 0 0 0 None [] None false [[1]; [2]; [3]; [4]].
Definition hs : list bytes := [[2]; [4]].
Definition content (h : bytes) (j : Z) : Z := match h with x :: _ => 10 * x + j | [] => 0 end.
Definition gpu : list Z := [20; 21; 40; 41; 0; 0; 0; 0].
Definition cpu0 : list Z := replicate 6 0.
Definition cpu1 : list Z := [20; 21; 40; 41; 0; 0].

Definition m0 : LRU CPUBackend := new_lru (new_cpu_backend 4 3) false.
Definition m1 : LRU CPUBackend := match lru_prepare_store hs m0 with Ok (_, m) => m | Err _ => m0 end.
Definition m2 : LRU CPUBackend := match lru_complete_store hs true m1 with Ok m => m | Err _ => m0 end.
Definition conn (m : LRU CPUBackend) : connector (LRU CPUBackend) := new_connector 2 4 m true.

Ltac two_indices i := assert (i = 0 \/ i = 1) as [-> | ->] by lia.

Lemma conn0_ok : conn_ok (conn m0).
Proof. split; [done|]. split; [vm_compute; done|]. split; [done|]. by apply (new_lru_om_inv 4 3 false). Qed.

Lemma hashes_nodup : NoDup [[1]; [2]; [3]; [4 : Z]].
Proof. apply (bool_decide_eq_true_1 (NoDup [[1]; [2]; [3]; [4 : Z]])). vm_compute. reflexivity. Qed.

Lemma offload_store_correct_witness :
  exists to_store c' st cpu', store_blocks (doc "a") [0; 1; 2; 3] 0 2 [] (conn m0) = Ok (to_store, c') /\ to_store <> [] /\
    dict_get "a" (next_stored_block_idx c') = Some 2 /\ om_get (manager c') [4] = Some st /\ block_holds content 2 cpu' (block_id st) [4].
Proof.
  destruct (offload_store_correct content (conn m0) (doc "a") [0; 1; 2; 3] 0 2 [] (fun _ => False) cpu0 gpu 0)
    as (o & m & to_store & c' & Eo & E & Hc & Hres).
  - exact conn0_ok.
  - done.
  - exact hashes_nodup.
  - lia.
  - vm_compute. discriminate.
  - vm_compute. discriminate.
  - reflexivity.
  - intros h s E. discriminate E.
  - done.
  - intros i j Hi Hj. change (block_size_factor (conn m0)) with 2 in *. two_indices i; two_indices j; (split; [vm_compute; discriminate|reflexivity]).
  - vm_compute in Eo. injection Eo as <- <-. destruct Hres as [Hnx [(Hall & _)|(_ & src & dst & mapping & cpu' & -> & _ & _ & _ & Hst)]].
    { exfalso. apply (Hall 1); [lia|]. reflexivity. }
    destruct (Hst 1) as (_ & st & Est & _ & Hh); [lia|reflexivity|]. exists (dict_set "a" (GPULoadStoreSpec src, dst) []), c', st, cpu'.
    split; [exact E|]. split; [discriminate|]. split; [exact Hnx|]. split; [exact Est|exact Hh].
Defined.

Definition led1 : ledger := ledger_step (PrepareStore hs) hs (fun _ => 0).
Definition led2 : ledger := ledger_step (CompleteStore hs true) [] led1.
Definition W2 : bytes -> Prop := fun h => (False /\ led1 h = -1) \/ h ∈ hs.
Definition W3 : bytes -> Prop := fun h => W2 h /\ led2 h = -1.

Lemma hs_nodup : NoDup hs.
Proof. apply (bool_decide_eq_true_1 (NoDup hs)). vm_compute. reflexivity. Qed.

Lemma hs_cases (P : bytes -> Prop) : P [2] -> P [4] -> forall h, h ∈ hs -> P h.
Proof. intros H2 H4 h [-> |[-> |[]%elem_of_nil]%elem_of_cons]%elem_of_cons; done. Qed.

Lemma m1_blocks h s : dict_get h (lru_blocks m1) = Some s -> (h = [2] /\ block_id s = 0) \/ (h = [4] /\ block_id s = 1).
Proof.
  intros E%dict_get_Some. assert (Eb : lru_blocks m1 = [([2], mkStatus (-1) 0); ([4], mkStatus (-1) 1)]) by (vm_compute; reflexivity).
  rewrite Eb, !elem_of_cons in E. destruct E as [[= -> ->]|[[= -> ->]|[]%elem_of_nil]]; tauto.
Qed.

Lemma demo_run : rtc (data_step content 2) (m0, fun _ => 0, fun _ => False, cpu0) (m2, led2, W3, cpu1).
Proof.
  eapply rtc_l; [apply (data_call content 2 (PrepareStore hs) m0 _ _ _ m1 hs); [exact hs_nodup|done|vm_compute; reflexivity]|].
  eapply rtc_l; [apply (data_write content 2 hs m1 _ _ _ cpu1)|].
  - apply hs_cases; vm_compute; reflexivity.
  - reflexivity.
  - intros h s [[-> ->]|[-> ->]]%m1_blocks _ j Hj; two_indices j; reflexivity.
  - intros h s [[-> _]|[-> _]]%m1_blocks Hh; exfalso; apply Hh; unfold hs; rewrite !elem_of_cons; tauto.
  - eapply rtc_l; [|apply rtc_refl]. apply (data_call content 2 (CompleteStore hs true) m1 led1 W2 cpu1 m2 []); [split; [exact hs_nodup|]| |vm_compute; reflexivity].
    + apply hs_cases; vm_compute; reflexivity.
    + intros h Hh. by right.
Qed.

(** A second request has its first device block cached, and loads the other three. *)
Lemma offload_round_trip_witness :
  exists c' (gpu' : list Z), update_state_after_alloc (doc "b") [(5, Some [1]); (6, None); (7, None); (4, None)] 6 (conn m2) = Ok c' /\
    gpu' !! 6%nat = Some 21 /\ gpu' !! 7%nat = Some 40 /\ gpu' !! 4%nat = Some 41 /\ gpu' !! 0%nat = gpu !! 0%nat.
Proof.
  destruct (offload_round_trip content 4 3 false (conn m2) led2 W3 cpu0 cpu1 gpu (doc "b") [(5, Some [1])] [(6, None); (7, None); (4, None)] 0)
    as (c' & src & mapping & gpu' & E & _ & _ & _ & Hin & Hout).
  - reflexivity.
  - reflexivity.
  - reflexivity.
  - lia.
  - reflexivity.
  - exact demo_run.
  - exact hashes_nodup.
  - by constructor.
  - by repeat constructor.
  - done.
  - reflexivity.
  - vm_compute. discriminate.
  - vm_compute. reflexivity.
  - apply (hs_cases (fun h => led2 h < 2 ^ 31 - 1)); vm_compute; reflexivity.
  - apply (bool_decide_eq_true_1 (NoDup [6; 7; 4 : Z])). vm_compute. reflexivity.
  - repeat constructor; vm_compute; (discriminate || reflexivity).
  - exists c', gpu'. split; [exact E|].
    split; [exact (Hin 0%nat (6, None) eq_refl)|]. split; [exact (Hin 1%nat (7, None) eq_refl)|]. split; [exact (Hin 2%nat (4, None) eq_refl)|].
    apply (Hout 0); [lia|]. apply (bool_decide_eq_true_1 (0 ∉ [6; 7; 4 : Z])). vm_compute. reflexivity.
Defined.

(** The first store of an engine with the adaptive manager. *)
Definition arc_conn : connector (ARC CPUBackend Q) := new_connector 2 4 (new_arc (new_cpu_backend 4 3) false) true.
Lemma arc_connector_raises_witness : store_blocks (doc "a") [0; 1; 2; 3] 0 2 [] arc_conn = Err KeyError.
Proof.
  eapply arc_connector_raises; [| | | |vm_compute; reflexivity|].
  - split; [done|]. split; [vm_compute; done|]. split; [done|]. apply new_arc_inv. apply new_cpu_holds. lia.
  - exact hashes_nodup.
  - lia.
  - vm_compute. discriminate.
  - done.
Defined.
End OffloadExamples.
